(* ===== verification/_CoqProject ===== *)
-Q . S2P
Prelude.v
Frame.v
Memlimit.v
Reassembly.v
AckTrack.v
AckPath.v
GF256.v
Window.v
Fec.v
Stripe.v
StripeInv.v
FlowSched.v
Coded.v
CodedRx.v
Demux.v
FrameConn.v
GoNet.v
Session.v
Identity.v
Socks.v
Udp.v
Bandwidth.v
Transfer.v
Lanes.v
Server.v
Records.v
Pacing.v
Limits.v
WriteQueue.v
Outage.v
FlowEnd.v
AckLoop.v
Pool.v
GoFloat.v
Classify.v
Join.v
Manage.v
Destination.v
Assoc.v
Bbr.v
BbrInv.v
BbrRun.v
LossModel.v
PathModel.v
Erasure.v
ErasureRun.v
