(* ===== verification/Prelude.v ===== *)
(** * A verification library for niulang

    niulang is a performance-enhancing proxy.  Applications' TCP streams are
    cut into chunks, carried over several lanes (QUIC connections, some of them
    over an erasure-coded datagram path) and put back together at the far end.
    This library models the parts of the Go program that decide whether bytes
    arrive, arrive once, and arrive in order, and proves the properties those
    parts exist for.

    ** The program and the files of this library

    - [Prelude]: machine integers ([wrap], [+u64], ...), big-endian integers,
      slices, sums over maps, [sort.Search], the closure of a step relation, and
      the tactics and hint databases the other files use.
    - [Frame]: [internal/protocol/frame.go], the wire frames: header, flags,
      [Encode]/[DecodeHeader], [AppendFrame]/[ParseFrame], the streaming
      [ReadFrame]/[WriteFrame], and the acknowledgement ranges.  The [io.Writer]
      is the type class [Writer] with its laws [WriterOK].
    - [Memlimit]: [internal/memlimit/budget.go], the byte budget every flow of an
      endpoint shares; [bstep] interleaves its callers.
    - [Reassembly]: [internal/multipath/reassembly.go], the receiver that puts
      segments back in order and charges what it buffers to the budget.
    - [AckTrack]: [internal/pep/acktrack.go], the sender's set of acknowledged
      byte ranges.
    - [AckPath]: the acknowledgement path of [internal/pep/mpflow.go]: what the
      receiver publishes and writes in an ACK frame, a path that delays,
      reorders, repeats and loses them, and what the sender takes from them.
    - [GF256], [Window], [Fec]: [internal/fec/gf.go] and [internal/fec/window.go],
      the sliding-window erasure code: field tables, encoder and decoder.
    - [Stripe], [StripeInv]: [internal/stripe/stripe.go], the scheduler that reads
      a source and hands its chunks to lanes; the definitions and the
      correctness proofs.
    - [FlowSched]: [internal/pep/flowscheduler.go], the slots the flows of a
      path compete for.
    - [Coded], [CodedRx]: [internal/coded/coded.go], the coded datagram path:
      the send loop that packs and cuts frames into symbols, and the receiver;
      the second file proves what arrives.
    - [Demux]: [internal/pep/codedlane.go], which hands the frames of a coded path
      to the flows they belong to.
    - [FrameConn]: [internal/pep/frameconn.go], a lane's framing: which frames go
      to the stream and which to the coded path, and the writes.
    - [GoNet]: the parts of Go's [net], [strconv] and [strings] the next three
      files use.
    - [Session]: [internal/session], the records that open a flow and carry UDP
      packets.
    - [Identity]: [internal/identity/store.go], the accounts, devices and
      invitations of a provider, in a file several processes change.
    - [Socks]: [internal/socks5/socks5.go], the SOCKS5 server side.
    - [Udp]: the anti-replay window of [internal/pep/udp.go] and the relays of
      [internal/pep/udprelay.go].
    - [Bandwidth]: [internal/congestion/bbr_tuic_minmax.go] and
      [internal/congestion/bbr_tuic_bw.go], the bandwidth estimate.
    - [Transfer]: [internal/pep/stripedsend.go] and the receive loop of
      [internal/pep/mpflow.go]: one direction of a striped flow, from the
      application that writes to the one that reads.
    - [Lanes]: the lanes of a flow in [internal/pep/mpflow.go], which of them
      carries a frame, and the admission of lanes that join, [serverFlow] in
      [internal/pep/server.go].
    - [Server]: the rest of the server's books in [internal/pep/server.go]: flows
      per account and device, the session table, who may join a lane.
    - [Records]: [internal/pep/recordlimiter.go] and
      [internal/pep/authorizationwatch.go], which keep the log readable.
    - [Pacing]: [internal/congestion/wirecap.go] and [internal/congestion/pacer.go],
      the operator's ceiling on what goes on the wire, and the pacing of one
      connection.
    - [Limits]: [internal/pep/memory.go], an operator's memory profile and what a flow
      is configured with.
    - [WriteQueue], [Outage], [FlowEnd], [AckLoop]: the rest of a flow in
      [internal/pep/mpflow.go]: the two queues of a lane with their writer and
      senders; the wait for a replacement lane; the receive loop with local closes,
      aborts and timers, [run] and the completion watchdog; the acknowledgement loop
      and the limits watch.
    - [GoFloat]: Go's [float64] as the IEEE double of the Standard Library's
      specification of floats: the operations with one rounding each, the comparisons
      with their NaNs, and the lemmas on rounding and ranges the estimators need.  The
      conversion to an integer is the class [FloatConv]: the truncation in range, any
      value of the type out of range, as the language leaves it to the platform.
    - [Classify]: [internal/classifier/classifier.go] with [observe] and its readers.
    - [Pool]: session limits, the control connection flows share and the pool of bulk
      connections, in [internal/pep/client.go].
    - [Join]: the retries of a flow open, the lane join from the client's request to
      the server's answer and back, and the probe ([internal/pep/client.go],
      [internal/pep/probe.go], [handleSession] of [internal/pep/server.go]).
    - [Manage]: [manageQUICLanes] of [internal/pep/client.go], which recovers and
      isolates lanes, and the watch of [internal/pep/uplink.go].
    - [Destination]: [internal/pep/destination.go], where the server may connect to.
    - [Assoc]: the rest of [internal/pep/udp.go], UDP associations at both ends:
      datagrams and frames, opening, resuming, rescue and close, and the server's
      associations side by side on one relay store.
    - [Bbr], [BbrInv], [BbrRun]: [internal/congestion/bbr_tuic.go] and the telemetry of
      [internal/congestion/telemetry.go]: the controller of a connection with every
      callback; the invariant of one callback; runs of callbacks.
    - [LossModel]: [internal/lossmodel/lossmodel.go], the loss of a path from the
      numbers that arrive, online and offline.
    - [PathModel]: [internal/pathmodel/pathmodel.go], what the lanes of one path know
      together.
    - [Erasure], [ErasureRun]: [internal/congestion/erasure.go], the controller for a
      path that erases packets; the second file runs any number of lanes over shared
      paths.

    The components meet where the program's do: [Reassembly] and [Stripe] reserve
    from [Memlimit]'s budget, [AckPath] connects [Reassembly], [Frame] and
    [AckTrack], [FlowSched] uses [Frame]'s traffic classes, [Coded] runs [Window]'s
    encoder and decoder, [FrameConn] writes [Frame]'s frames to a stream and to
    [Coded]'s path and [Demux] parses what comes out of it, [Session] and [Socks]
    share [GoNet], and [Udp] uses [Session]'s token size and [Identity]'s principals.
    [Transfer] runs [Stripe]'s scheduler, [AckPath]'s two halves and [Reassembly]
    against each other, and [Server] admits whom [Identity] authorizes.  [Limits]
    configures [Reassembly], [Memlimit] and [WriteQueue]; [FlowEnd] puts the rest of
    the receive loop around [Transfer]'s and shows it agrees with it; [Join] runs the
    client against [Server]'s checks and [Lanes]' table over [Frame]'s wire; [Manage]
    decides on [Classify]'s classes; [Assoc] runs [Socks]' datagrams and [Session]'s
    records through [Udp]'s window and store to [Destination]'s addresses.  [Bbr] paces
    with [Pacing]'s pacer and learns from [Bandwidth]'s estimator; [Erasure] wraps a
    [Bbr] sender, measures with [LossModel]'s estimator and reports to a [PathModel].

    ** How the code is modelled

    A Go integer is a [Z] kept to its width where the code's arithmetic could
    leave it.  A struct is a [Record]; the state a mutex guards is one record, and
    each critical section is one definition that returns the state after it.
    Blocking loops are given by one pass, and interleaving by a step relation
    over the critical sections ([bstep], [rx_step], [fstep], [sstep],
    [path_step], [demux_step], [conn_step], [store_step], [relay_step],
    [tstep], [lane_step], [server_step], [ystep], [session_step], [control_step],
    [bulk_step], [class_step], [manager_step]) or by a run over a list of labels
    ([wl_run], [orun], [wd_run], [al_run], [wire_run], [us_run], [bbr_run],
    [fleet_run]).  Where Go
    shares objects by pointer and a claim depends on it (chunks that are ready and
    in flight at once, grants and flow states, channels) the objects live in a
    store and are named by address.  A panic is [None].  A range over a map takes the order
    of its keys as an argument.  Clocks, callbacks and the other end of a
    connection are arguments.  Logging, metrics and condition-variable signals
    are left out, except where a theorem is about a wakeup ([Memlimit],
    [AckTrack], [FlowSched], [WriteQueue], [FlowEnd], [AckLoop]), where the channel
    or its generation is kept.  A product and a sum of floats are rounded one after
    the other; a platform that fuses them may differ in the last bit.  The constants of
    the QUIC library (packet sizes, the ceiling of the window, the pacing delay) and its
    round-trip figures are parameters, in the ranges the sections of [BbrRun] and
    [ErasureRun] name.

    Loops whose recursion is not structural take fuel: [search_loop] (the
    interval), [writeFull_loop] (the bytes left), [compact_loop] (the ranges held),
    [scan_chain] and [drain_chain] (the buffered segments), [admit_walk], [esis]
    and the harvest loops of the decoder (its window and its rows),
    [round_up_loop] (the bits of an [int]), [dispatch_loop] (the grants queued),
    [parse_frames] (the bytes of a symbol), [fragment_loop] (the fragments),
    [free_id] (the lanes of the table), [decide_while] ([decide_fuel], 8193: a larger
    jump of the numbering restarts the estimator first), and the text loops of [GoNet] (the
    characters).  The files prove that the fuel its callers give is enough: the
    theorems say the operation returns.

    ** What the theorems show

    Frames: encoding and parsing are inverse to each other on exactly the valid
    frames, a stream of frames reads back, truncation is an error, a writer
    delivers the frame or reports why not, acknowledgement ranges are accepted
    exactly in canonical form.  Budget: a hard limit, exact accounting, no lost
    wakeup.  Reassembly: the invariant of buffer, index, window and memory; what
    is delivered is the prefix of the stream; everything is delivered once
    everything arrived; ranges reported are exact.  Acknowledgements: the tracker
    is the union of what was reported, and what the sender believes acknowledged
    is what the receiver has; a final acknowledgement is accepted when it names the end
    of the stream.  Erasure code: the tables are a field; what is
    recovered is what was sent, over erasures and over reordered repairs; losses
    reported are bounded.  Striping: no byte read is lost, the accounts are
    exact, [Done] means delivered, recovery work is never withheld, what a lane
    gets is the oldest chunk within the window, memory is given back.  Flow
    slots: limits hold, nobody waits without reason, bulk is not starved, a
    closed or cancelled wait keeps nothing.  Coded path: what is delivered was
    sent, for frames that fit a symbol with their header or exceed it; with payloads of
    at least 17 bytes every completion callback runs once and a closed path's loop ends.
    Lanes: a successful write is on one substrate and its callback runs once; the
    demultiplexer gives each flow its own frames, once and in order; from one end
    to the other no flow sees another's frame.  Records and SOCKS5: packets read
    back, nothing is accepted without the configured credentials.  Accounts: the
    file always validates, a token enrols one device, a revoked device is
    refused by every process that has read the file since, an enrolment is all or
    nothing.  UDP: the
    anti-replay window is the set of packets placed, a relay goes back to its
    owner once or is closed.  Bandwidth: the estimate is a windowed maximum, the
    table is bounded and pruned exactly.  Transfer: the far application reads a
    prefix of what the near one wrote, and all of it once the sender is done,
    whatever the lanes lose, repeat and reorder.  Lanes: the budget holds but for the one lane that is joining, a join never evicts a lane of the other role, control and bulk
    frames use the lanes meant for them.  Server: the accounts are exact, limits
    hold at admission, every session has someone who removes it, and only the
    device that opened a session joins lanes to it.  Records: what a storm leaves
    out of the log is counted.  Pacing: what is sent up to a packet that is not reported
    as an overshoot is bounded by the rate and one burst.  Limits: an accepted profile configures flows the other
    files are proved for.  Queues of a lane: bounded, in order within a class, an
    interactive frame is overtaken at most once, every sender returns.  A flow: the
    waiters of one outage share its grace, completion is reported only after an end of
    stream, the peer's abort or the local application's close, an abandoned flow has a
    timer, the watchdog's and the acknowledgement loop's wake-ups are not
    lost.  Client: session limits and reservations hold, one control connection is
    shared, a bulk connection has one holder, client and server agree on a join
    whose answer arrives, recovery is bounded and ends.  Classes: a conversation is never bulk, a transfer
    becomes bulk and stays it when observers do not race.  Destinations: only public addresses are dialled.
    Associations: a datagram that fits the read buffer and names a destination the
    server accepts goes out as it is and once, so do replies, a relay's socket has one
    owner, and a rescue within the grace period gets it back while the store has room.
    Controllers: windows and rates stay in their ranges whatever the path reports, the
    modes follow a machine, round-trip probing ends, a sender is never stopped for good;
    losses are inferred exactly, and the online estimate is the offline one; a path's
    report keeps what is recent and never raises a floor it retains; an erasure sender
    is its BBR controller made at most eight times bolder, and it earns every step.

    Some theorems prove places where the code does less than it says:
    [Reassembly.duplicate_at_cursor_is_buffered],
    [Fec.overtaken_source_corrupts_recovery] (the decoder reports a wrong symbol
    when a source symbol is overtaken by a repair that covers it),
    [StripeInv.final_marks_older_chunk], [CodedRx.header_gap_frame_never_arrives]
    (a frame that fits a symbol only without its header is lost),
    [Demux.release_after_drop_registers] (a closed path stays in a table),
    [Session.canonical_form_refused], [Socks.largest_payload_refused],
    [Transfer.late_copy_ends_flow] (a second copy of a chunk that arrives behind
    the half-close fails a flow whose bytes have all been delivered),
    [Lanes.failed_lanes_stay] (failed lanes stay in the table),
    [Server.completed_sessions_fill_table] (completed sessions keep new flows out),
    [Pacing.idle_pacer_starved] (a product wraps past the test for overflow),
    [WriteQueue.reserve_taken_by_waiting_bulk], [FlowEnd.completed_flow_left_to_timers]
    (a flow complete in both directions waits for a timer),
    [FlowEnd.abort_drain_extended], [AckLoop.gap_report_lost],
    [Pool.bulk_dial_survives_reset] (a connection over the old path joins the new
    pool), [Classify.stored_class_reverts] (an older answer is stored over bulk),
    [Classify.recent_bytes_survive_pause], [Classify.refresh_counts_as_payload],
    [Join.repeated_join_refused] (a repeated join ends a flow the server holds),
    [Assoc.bad_destination_ends_association] (one datagram ends an association),
    [Assoc.long_datagram_cut] (a datagram longer than the buffer is relayed cut),
    [LossModel.analysis_of_total_loss] (a burst factor that is not a number) and
    [ErasureRun.inherited_compensation_lost] (a replacement loses what it took over).

    ** Bounds assumed

    A stream is shorter than 2^63 bytes and a scheduler issues fewer than 2^64
    attempts; the step relations say so where the bound is used, and the wrap of
    every counter is written out.  Random identities and invitation tokens are new.  A coded path carries fewer than 2^31 symbols,
    whose payloads are between 17 and 2^16 bytes.  Other users of a shared budget behave as
    [Memlimit] proves its callers do.

    ** What is not modelled

    The older controllers ([internal/congestion/adaptive.go], [bbr.go], [brutal.go]),
    the choice of a repair rate ([internal/fec/rate.go]) and the token bucket of
    [internal/limiter], whose answer is an input of [WriteQueue]; the QUIC, TCP, HTTP/3
    and UDP transports, certificates and the enrolment protocol, the command-line
    programs, metrics, logs and the simulators, which are input and output.  Of
    [internal/pep] the configuration of client and server, the goroutines that only
    pass frames from one channel to another and the telemetry of lanes.  Where a
    definition takes as one step what the code does in several (the hand-over of a
    relay's socket, an observation of the classifier, the commit of a join and its
    answer), its comment says so. *)

From stdpp Require Export base tactics numbers list gmap fin_maps sorting strings.
From Stdlib Require Export ZArith Lia.

#[export] Set Default Goal Selector "!".

Open Scope Z_scope.

(** ** Go values

    Every Go integer is a [Z]; the width is written out by the operation that
    could leave it.  [len] is Go's [len]. *)

Abbreviation byte := Z (only parsing).
Abbreviation bytes := (list Z) (only parsing).

Definition len {A} (l : list A) : Z := Z.of_nat (length l).

(** [wrap w x] is [x] reduced to an unsigned [w]-bit integer. *)
Definition wrap (w x : Z) : Z := x mod 2 ^ w.

(** The unsigned ranges of the Go types. *)
Definition in_range (w x : Z) : Prop := 0 <= x < 2 ^ w.

Definition is_byte (b : Z) : Prop := 0 <= b < 256.

(** Reading a 32-bit word as [int32]. *)
Definition int32_of (x : Z) : Z := if x <? 2 ^ 31 then x else x - 2 ^ 32.

(** [x] reduced to an [int64], as the conversion and the wrap of signed arithmetic
    do. *)
Definition i64 (x : Z) : Z := (x + 2 ^ 63) mod 2 ^ 64 - 2 ^ 63.

Declare Scope go_scope.
Delimit Scope go_scope with go.
Notation "x +u64 y" := (wrap 64 (x + y)) (at level 50, left associativity) : go_scope.
Notation "x -u64 y" := (wrap 64 (x - y)) (at level 50, left associativity) : go_scope.
Notation "x +u32 y" := (wrap 32 (x + y)) (at level 50, left associativity) : go_scope.
Notation "x -u32 y" := (wrap 32 (x - y)) (at level 50, left associativity) : go_scope.
Notation "x *u32 y" := (wrap 32 (x * y)) (at level 40, left associativity) : go_scope.
Open Scope go_scope.

(** ** Go's [(value, error)] results *)

Inductive result (E A : Type) : Type :=
| Ok (a : A)
| Err (e : E).
Arguments Ok {E A} a.
Arguments Err {E A} e.

Global Instance result_ret E : MRet (result E) := fun A a => Ok a.
Global Instance result_bind E : MBind (result E) := fun A B f m =>
  match m with Ok a => f a | Err e => Err e end.

(** ** Big-endian integers ([encoding/binary]) *)

(** The [n] low-order bytes of [x], most significant first: what
    [PutUint16], [PutUint32] and [PutUint64] store. *)
Fixpoint be_bytes (n : nat) (x : Z) : bytes :=
  match n with
  | O => []
  | S k => be_bytes k (x / 256) ++ [x mod 256]
  end.

(** The unsigned integer a big-endian byte string spells. *)
Definition be_val (l : bytes) : Z := fold_left (fun acc b => acc * 256 + b) l 0.

(** [slice i j l] is Go's [l[i:j]] for [i <= j <= len l]. *)
Definition slice {A} (i j : nat) (l : list A) : list A := take (j - i) (drop i l).

(** ** Sums over lists *)

Definition sumZ (l : list Z) : Z := foldr Z.add 0 l.

(** The sum of [f k a] over the entries of a finite map. *)
Definition msum {A} (f : Z -> A -> Z) (m : gmap Z A) : Z :=
  map_fold (fun k a acc => f k a + acc) 0 m.

(** ** Byte ranges *)

(** The offsets a list of half-open ranges covers. *)
Definition covered (ranges : list (Z * Z)) (x : Z) : Prop :=
  exists a b, (a, b) ∈ ranges /\ a <= x < b.

(** ** [sort.Search] *)

(** The binary search of [sort.Search]: [i] and [j] bound the answer, and [fuel]
    bounds the halvings. *)
Fixpoint search_loop (fuel : nat) (f : nat -> bool) (i j : nat) : nat :=
  match fuel with
  | O => i
  | S fuel' =>
      if (i <? j)%nat then
        let h := ((i + j) / 2)%nat in
        if f h then search_loop fuel' f i h else search_loop fuel' f (h + 1) j
      else i
  end.

Definition sort_Search (n : nat) (f : nat -> bool) : nat := search_loop n f 0 n.

(** ** Transition systems *)

(** Reflexive transitive closure of a step relation. *)
Inductive steps {S} (step : S -> S -> Prop) : S -> S -> Prop :=
| steps_refl s : steps step s s
| steps_cons s1 s2 s3 : step s1 s2 -> steps step s2 s3 -> steps step s1 s3.

(** ** Tactics *)

Create HintDb go discriminated.
Create Rewrite HintDb go.

(** Split boolean conjunctions and turn boolean comparisons into propositions. *)
Ltac bool_to_prop :=
  repeat match goal with
  | H : (_ && _) = true |- _ => apply andb_true_iff in H; destruct H
  | H : (_ || _) = false |- _ => apply orb_false_iff in H; destruct H
  | H : (_ && _) = false |- _ => apply andb_false_iff in H
  | H : (_ || _) = true |- _ => apply orb_true_iff in H
  | H : negb _ = true |- _ => apply negb_true_iff in H
  | H : negb _ = false |- _ => apply negb_false_iff in H
  | H : (_ <? _) = true |- _ => apply Z.ltb_lt in H
  | H : (_ <? _) = false |- _ => apply Z.ltb_ge in H
  | H : (_ <=? _) = true |- _ => apply Z.leb_le in H
  | H : (_ <=? _) = false |- _ => apply Z.leb_gt in H
  | H : (_ >? _) = true |- _ => rewrite Z.gtb_ltb in H
  | H : (_ >? _) = false |- _ => rewrite Z.gtb_ltb in H
  | H : (_ >=? _) = true |- _ => rewrite Z.geb_leb in H
  | H : (_ >=? _) = false |- _ => rewrite Z.geb_leb in H
  | H : (_ =? _) = true |- _ => apply Z.eqb_eq in H
  | H : (_ =? _) = false |- _ => apply Z.eqb_neq in H
  end.

(** Case split on the conditions of the goal, innermost first. *)
Ltac split_ifs :=
  repeat match goal with
  | |- context [if ?b then _ else _] =>
      lazymatch b with
      | context [if _ then _ else _] => fail
      | _ => let E := fresh "E" in destruct b eqn:E
      end
  end.

(** Case split on the conditions of a hypothesis. *)
Ltac split_ifs_in H :=
  repeat match type of H with
  | context [if ?b then _ else _] =>
      lazymatch b with
      | context [if _ then _ else _] => fail
      | _ => let E := fresh "E" in destruct b eqn:E
      end
  end.

(** Linear arithmetic in which the powers of two that bound Go's integer types
    are evaluated first. *)
Ltac pow2_eval :=
  repeat match goal with
  | |- context [2 ^ ?k] =>
      lazymatch k with
      | Z.pos _ => let v := eval vm_compute in (2 ^ k) in change (2 ^ k) with v
      end
  | H : context [2 ^ ?k] |- _ =>
      lazymatch k with
      | Z.pos _ => let v := eval vm_compute in (2 ^ k) in change (2 ^ k) with v in H
      end
  end.
Ltac zlia := unfold in_range, is_byte, len in *; pow2_eval; lia.

(** ** Lemmas on machine integers *)

Lemma wrap_small w x : 0 <= x < 2 ^ w -> wrap w x = x.
Proof. intros. by apply Z.mod_small. Qed.

Lemma i64_small x : - 2 ^ 63 <= x < 2 ^ 63 -> i64 x = x.
Proof. intros Hx. unfold i64. rewrite Z.mod_small by (change (2 ^ 64) with (2 ^ 63 + 2 ^ 63); lia). lia. Qed.

Lemma i64_range x : - 2 ^ 63 <= i64 x < 2 ^ 63.
Proof. unfold i64. pose proof (Z.mod_pos_bound (x + 2 ^ 63) (2 ^ 64) ltac:(done)). change (2 ^ 64) with (2 ^ 63 + 2 ^ 63) in *. lia. Qed.

Lemma wrap_range w x : 0 <= w -> 0 <= wrap w x < 2 ^ w.
Proof. intros. apply Z.mod_pos_bound. by apply Z.pow_pos_nonneg. Qed.

Lemma wrap_wrap w x : wrap w (wrap w x) = wrap w x.
Proof. apply Zmod_mod. Qed.

Lemma wrap_add_l w x y : wrap w (wrap w x + y) = wrap w (x + y).
Proof. apply Zplus_mod_idemp_l. Qed.

Lemma wrap_add_r w x y : wrap w (x + wrap w y) = wrap w (x + y).
Proof. apply Zplus_mod_idemp_r. Qed.

Lemma wrap_sub_l w x y : wrap w (wrap w x - y) = wrap w (x - y).
Proof. apply Zminus_mod_idemp_l. Qed.

Lemma wrap_sub_r w x y : wrap w (x - wrap w y) = wrap w (x - y).
Proof. apply Zminus_mod_idemp_r. Qed.

#[export] Hint Rewrite wrap_wrap wrap_add_l wrap_add_r wrap_sub_l wrap_sub_r : go.

(** Two congruent integers less than a modulus apart are equal. *)
Lemma wrap_inj_near w x y :
  0 <= w -> - 2 ^ w < x - y < 2 ^ w -> wrap w x = wrap w y -> x = y.
Proof.
  intros Hw Hd He. unfold wrap in He.
  assert (Hp : 0 < 2 ^ w) by (by apply Z.pow_pos_nonneg).
  assert (Hz : (x - y) mod 2 ^ w = 0).
  { by rewrite Zminus_mod, He, Z.sub_diag, Zmod_0_l. }
  apply Z.mod_divide in Hz as [k Hk]; [|lia].
  generalize dependent (2 ^ w). intros m Hd _ Hp Hk.
  assert (k = 0) by nia. lia.
Qed.

(** ** Lemmas on lists *)

Lemma len_nonneg {A} (l : list A) : 0 <= len l.
Proof. unfold len. lia. Qed.

Lemma len_app {A} (l k : list A) : len (l ++ k) = len l + len k.
Proof. unfold len. rewrite length_app. lia. Qed.

Lemma len_cons {A} (x : A) (l : list A) : len (x :: l) = 1 + len l.
Proof. unfold len. cbn [length]. lia. Qed.

Lemma len_nil {A} : len (@nil A) = 0.
Proof. done. Qed.

Lemma len_zero_nil {A} (l : list A) : len l = 0 -> l = [].
Proof. unfold len. destruct l; [done|cbn [length]; lia]. Qed.

#[export] Hint Rewrite @len_app @len_cons @len_nil : go.
#[export] Hint Resolve len_nonneg : go.

Lemma sumZ_app l k : sumZ (l ++ k) = sumZ l + sumZ k.
Proof. unfold sumZ. induction l; cbn in *; lia. Qed.

Lemma sumZ_perm l k : l ≡ₚ k -> sumZ l = sumZ k.
Proof. unfold sumZ. induction 1; cbn in *; lia. Qed.

Lemma sumZ_nonneg l : Forall (fun x => 0 <= x) l -> 0 <= sumZ l.
Proof. unfold sumZ. induction 1; cbn in *; lia. Qed.

(** ** Lemmas on big-endian integers *)

Lemma be_bytes_length n x : length (be_bytes n x) = n.
Proof.
  revert x. induction n; intros; cbn; [done|].
  rewrite length_app, IHn. cbn. lia.
Qed.

Lemma be_bytes_range n x : Forall is_byte (be_bytes n x).
Proof.
  revert x. induction n; intros; cbn; [constructor|].
  apply Forall_app. split; [done|]. apply Forall_singleton.
  apply Z.mod_pos_bound. lia.
Qed.

Lemma be_val_snoc l b : be_val (l ++ [b]) = be_val l * 256 + b.
Proof. unfold be_val. by rewrite fold_left_app. Qed.

Lemma be_val_be_bytes n x : 0 <= x < 256 ^ Z.of_nat n -> be_val (be_bytes n x) = x.
Proof.
  revert x. induction n as [|n IH]; intros x Hx; cbn [be_bytes].
  - change (256 ^ Z.of_nat 0) with 1 in Hx. cbn. lia.
  - rewrite be_val_snoc, IH.
    + pose proof (Z.div_mod x 256). lia.
    + rewrite Nat2Z.inj_succ, Z.pow_succ_r in Hx by lia.
      split; [apply Z.div_pos; lia|apply Z.div_lt_upper_bound; lia].
Qed.

Lemma be_val_range l : Forall is_byte l -> 0 <= be_val l < 256 ^ len l.
Proof.
  induction l as [|b l IH] using rev_ind; intros Hl; [done|].
  apply Forall_app in Hl as [Hl Hb]. rewrite Forall_singleton in Hb.
  rewrite be_val_snoc, len_app. change (len [b]) with 1.
  rewrite Z.pow_add_r by (unfold len; lia). specialize (IH Hl).
  unfold is_byte in Hb. rewrite Z.pow_1_r.
  generalize dependent (256 ^ len l). intros m ?. lia.
Qed.

Lemma be_bytes_be_val l : Forall is_byte l -> be_bytes (length l) (be_val l) = l.
Proof.
  induction l as [|b l IH] using rev_ind; intros Hl; [done|].
  apply Forall_app in Hl as [Hl Hb]. rewrite Forall_singleton in Hb.
  rewrite length_app, Nat.add_1_r. cbn [be_bytes].
  rewrite be_val_snoc. unfold is_byte in Hb.
  rewrite Z.div_add_l, Z.div_small, Z.add_0_r, IH by (done || lia).
  by rewrite Z.add_comm, Z_mod_plus_full, Z.mod_small by lia.
Qed.

(** ** Lemmas on transition systems *)

Lemma steps_one {S} (step : S -> S -> Prop) s1 s2 : step s1 s2 -> steps step s1 s2.
Proof. intros. econstructor; [done|constructor]. Qed.

Lemma steps_trans {S} (step : S -> S -> Prop) s1 s2 s3 :
  steps step s1 s2 -> steps step s2 s3 -> steps step s1 s3.
Proof. induction 1; intros; [done|]. econstructor; eauto. Qed.

(** A predicate preserved by every step holds in every reachable state. *)
Lemma steps_invariant {S} (step : S -> S -> Prop) (I : S -> Prop) :
  (forall s s', I s -> step s s' -> I s') ->
  forall s s', I s -> steps step s s' -> I s'.
Proof. intros Hstep s s' Hs. induction 1; eauto. Qed.

(** ** Lemmas on slices *)

Lemma slice_length {A} i j (l : list A) :
  (i <= j <= length l)%nat -> length (slice i j l) = (j - i)%nat.
Proof. intros. unfold slice. rewrite length_take, length_drop. lia. Qed.

Lemma slice_app {A} i j k (l : list A) :
  (i <= j)%nat -> (j <= k)%nat -> slice i j l ++ slice j k l = slice i k l.
Proof.
  intros Hij Hjk. unfold slice.
  replace (drop j l) with (drop (j - i) (drop i l)) by (rewrite drop_drop; f_equal; lia).
  rewrite take_take_drop. f_equal. lia.
Qed.

Lemma slice_one {A} i (l : list A) x : l !! i = Some x -> slice i (S i) l = [x].
Proof.
  intros Hx. unfold slice. rewrite (drop_S l x i Hx).
  by replace (S i - i)%nat with 1%nat by lia.
Qed.

Lemma slice_0 {A} j (l : list A) : slice 0 j l = take j l.
Proof. unfold slice. by rewrite drop_0, Nat.sub_0_r. Qed.

(** The [k]-th segment of a concatenation, found by its offset. *)
Lemma slice_concat {A} (L : list (list A)) k s i j rest :
  L !! k = Some s -> i = length (concat (take k L)) -> j = (i + length s)%nat ->
  slice i j (concat L ++ rest) = s.
Proof.
  intros Hk -> ->. unfold slice.
  assert (HL : concat L = concat (take k L) ++ s ++ concat (drop (S k) L)).
  { by rewrite <- (take_drop_middle L k s Hk) at 1; rewrite concat_app. }
  rewrite HL, <- app_assoc, drop_app_length, <- app_assoc.
  replace (_ + length s - _)%nat with (length s) by lia.
  apply take_app_length.
Qed.

Lemma Forall_slice {A} (P : A -> Prop) i j l : Forall P l -> Forall P (slice i j l).
Proof. intros. by apply Forall_take, Forall_drop. Qed.

(** ** Lemmas on sums over maps *)

Section msum.
Context {A : Type}.
Implicit Types (f g : Z -> A -> Z) (m : gmap Z A).

Lemma msum_empty f : msum f ∅ = 0.
Proof. apply map_fold_empty. Qed.

Lemma msum_insert f m k a : m !! k = None -> msum f (<[k:=a]> m) = f k a + msum f m.
Proof.
  intros Hk. unfold msum. rewrite map_fold_insert_L; [done| |done].
  intros. lia.
Qed.

Lemma msum_delete f m k a : m !! k = Some a -> msum f m = f k a + msum f (delete k m).
Proof.
  intros Hk. rewrite <- (msum_insert f (delete k m) k a) by apply lookup_delete_eq.
  by rewrite insert_delete_id.
Qed.

Lemma msum_update f m k a b :
  m !! k = Some a -> msum f (<[k:=b]> m) = msum f m - f k a + f k b.
Proof.
  intros Hk. rewrite (msum_delete f m k a Hk), <- insert_delete_eq.
  rewrite msum_insert by apply lookup_delete_eq. lia.
Qed.

Lemma msum_ext f g m :
  (forall k a, m !! k = Some a -> f k a = g k a) -> msum f m = msum g m.
Proof.
  induction m as [|k a m Hk IH] using map_ind; intros Hfg; [done|].
  rewrite !msum_insert by done. rewrite (Hfg k a) by apply lookup_insert_eq.
  rewrite IH; [done|]. intros k' a' Hk'. apply Hfg.
  by rewrite lookup_insert_ne by congruence.
Qed.

Lemma msum_nonneg f m : (forall k a, m !! k = Some a -> 0 <= f k a) -> 0 <= msum f m.
Proof.
  induction m as [|k a m Hk IH] using map_ind; intros Hf; [done|].
  rewrite msum_insert by done.
  pose proof (Hf k a ltac:(apply lookup_insert_eq)).
  assert (0 <= msum f m); [|lia]. apply IH. intros k' a' Hk'.
  apply (Hf k'). by rewrite lookup_insert_ne by congruence.
Qed.

Lemma msum_entry_le f m k a :
  (forall k a, m !! k = Some a -> 0 <= f k a) -> m !! k = Some a -> f k a <= msum f m.
Proof.
  intros Hf Hk. rewrite (msum_delete f m k a Hk).
  assert (0 <= msum f (delete k m)); [|lia]. apply msum_nonneg.
  intros k' a' Hk'. apply lookup_delete_Some in Hk' as [_ Hk']. by apply Hf.
Qed.

Lemma msum_add f g m : msum (fun k a => f k a + g k a) m = msum f m + msum g m.
Proof.
  induction m as [|k a m Hk IH] using map_ind; [done|].
  rewrite !msum_insert by done. lia.
Qed.

Lemma msum_zero m : msum (fun _ _ => 0) m = 0.
Proof.
  induction m as [|k a m Hk IH] using map_ind; [done|]. rewrite msum_insert by done. lia.
Qed.

End msum.

Lemma msum_map_to_list {A} (f : Z -> A -> Z) (m : gmap Z A) :
  msum f m = sumZ (map (fun ka => f (fst ka) (snd ka)) (map_to_list m)).
Proof.
  unfold msum. rewrite map_fold_foldr. induction (map_to_list m) as [|[k a] l IH]; [done|].
  cbn. by rewrite IH.
Qed.

(** ** Lemmas on binary search *)

Lemma search_loop_spec fuel f i j :
  (j - i <= fuel)%nat -> (i <= j)%nat ->
  (forall a b, (a <= b)%nat -> f a = true -> f b = true) ->
  let r := search_loop fuel f i j in
  (i <= r <= j)%nat /\ (forall k, (i <= k < r)%nat -> f k = false) /\
  (forall k, (r <= k < j)%nat -> f k = true).
Proof.
  intros Hf Hij Hmono. revert i j Hf Hij.
  induction fuel as [|fuel IH]; intros i j Hf Hij; cbn [search_loop].
  { cbn. split; [lia|]. split; intros; lia. }
  destruct (Nat.ltb_spec i j) as [Hlt|Hge]; [|cbn; split; [lia|]; split; intros; lia].
  pose proof (Nat.Div0.div_le_upper_bound (i + j) 2 j ltac:(lia)) as Hu.
  pose proof (Nat.div_le_lower_bound (i + j) 2 i ltac:(lia) ltac:(lia)) as Hl.
  assert (Hh : ((i + j) / 2 < j)%nat) by (apply Nat.Div0.div_lt_upper_bound; lia).
  set (h := ((i + j) / 2)%nat) in *. destruct (f h) eqn:Eh.
  - destruct (IH i h ltac:(lia) ltac:(lia)) as (Hr & Hlo & Hhi).
    split; [lia|]. split; [done|]. intros k Hk.
    destruct (decide (k < h)%nat); [apply Hhi; lia|]. apply (Hmono h k); [lia|done].
  - destruct (IH (h + 1)%nat j ltac:(lia) ltac:(lia)) as (Hr & Hlo & Hhi).
    split; [lia|]. split; [|done]. intros k Hk.
    destruct (decide (h < k)%nat); [apply Hlo; lia|].
    destruct (f k) eqn:Ek; [|done]. rewrite (Hmono k h) in Eh; [done|lia|done].
Qed.

(** On a monotone predicate [sort.Search] finds the least index that satisfies
    it, or [n]. *)
Lemma sort_Search_spec n f :
  (forall a b, (a <= b)%nat -> f a = true -> f b = true) ->
  (sort_Search n f <= n)%nat /\
  (forall k, (k < sort_Search n f)%nat -> f k = false) /\
  (forall k, (sort_Search n f <= k < n)%nat -> f k = true).
Proof.
  intros Hm. destruct (search_loop_spec n f 0 n) as (? & H1 & H2); [lia|lia|done|].
  unfold sort_Search. split; [lia|]. split; [intros; apply H1; lia|done].
Qed.

(** ** Lemmas on sorted lists *)

Lemma StronglySorted_sublist {A} (R : A -> A -> Prop) (l k : list A) :
  l `sublist_of` k -> StronglySorted R k -> StronglySorted R l.
Proof.
  induction 1 as [|x l k Hlk IH|x l k Hlk IH]; intros Hs; [constructor| |].
  - inversion_clear Hs as [|? ? Hk Hx]. constructor; [by apply IH|].
    rewrite Forall_forall in *. intros y Hy. apply Hx. by eapply elem_of_sublist.
  - inversion_clear Hs. by apply IH.
Qed.

Lemma StronglySorted_rev {A} (R : A -> A -> Prop) (l : list A) :
  StronglySorted R l -> StronglySorted (fun x y => R y x) (rev l).
Proof.
  induction 1 as [|x l Hs IH Hx]; [constructor|]. cbn. rewrite Forall_forall in Hx.
  apply StronglySorted_app_2; [|done|repeat constructor].
  intros y z Hy Hz. apply list_elem_of_singleton in Hz as ->. apply Hx.
  by rewrite list_elem_of_In, <- in_rev, <- list_elem_of_In in Hy.
Qed.

(** The positions of a strongly sorted list. *)
Lemma StronglySorted_lookup {A} (R : A -> A -> Prop) (l : list A) i j x y :
  StronglySorted R l -> (i < j)%nat -> l !! i = Some x -> l !! j = Some y -> R x y.
Proof.
  intros Hs. revert i j. induction Hs as [|a l Hs IH Ha]; intros i j Hij Hi Hj; [done|].
  destruct i as [|i], j as [|j]; try lia; cbn in *.
  - injection Hi as <-. rewrite Forall_lookup in Ha. by apply (Ha j).
  - apply (IH i j); done || lia.
Qed.

(** ** Lemmas on byte ranges *)

Lemma covered_nil x : covered [] x <-> False.
Proof. split; [|done]. intros (a & b & Hin & _). by apply elem_of_nil in Hin. Qed.

Lemma covered_cons a b rs x : covered ((a, b) :: rs) x <-> a <= x < b \/ covered rs x.
Proof.
  unfold covered. split.
  - intros (a' & b' & Hin & Hx). apply elem_of_cons in Hin as [[= -> ->]|Hin]; eauto 6.
  - intros [Hx|(a' & b' & Hin & Hx)]; [exists a, b|exists a', b']; split; try done; by constructor.
Qed.

Lemma covered_app rs rs' x : covered (rs ++ rs') x <-> covered rs x \/ covered rs' x.
Proof.
  unfold covered. setoid_rewrite elem_of_app. split.
  - intros (a & b & [Hin|Hin] & Hx); eauto 6.
  - intros [(a & b & Hin & Hx)|(a & b & Hin & Hx)]; eauto 6.
Qed.

Lemma covered_perm rs rs' x : rs ≡ₚ rs' -> covered rs x <-> covered rs' x.
Proof. intros Hp. unfold covered. by setoid_rewrite Hp. Qed.

Lemma covered_rev rs x : covered (rev rs) x <-> covered rs x.
Proof. apply covered_perm. symmetry. apply Permutation_rev. Qed.
