(* ===== verification/Frame.v ===== *)
(** The frame envelope of protocol 3 ([internal/protocol/frame.go]).

    [Module protocol] holds the header, its validation, the 46-byte codec, the
    frame codec over whole buffers and over readers and writers, and the
    acknowledgement range list.  The theorems show that encoding and decoding
    are inverse on exactly the legal frames, that a frame has one encoding
    only, that a stream of frames is read back frame by frame, and that an
    accepted range list is strictly increasing, disjoint and above the
    cumulative point. *)

From S2P Require Import Prelude.

(** The errors of the package, one constructor per [errors.New] or sentinel. *)
Inductive ferror :=
| EOF
| ErrUnexpectedEOF
| ErrShortBuffer
| ErrShortWrite
| ErrInvalidHeader
| ErrPayloadLimit
| ErrUnknownFlags
| ErrPayloadLength (n : Z)
| ErrMagic
| UnsupportedVersionError (peer local : Z)
| ErrUnsupportedHeader (cause : ferror)
| ErrReserved
| ErrPayloadSize (have declared : Z)
| ErrTooManyRanges (n : Z)
| ErrRangeEmpty
| ErrRangeMisaligned
| ErrRangeOrder
| ErrTransport (code : Z).

(** [io.Writer]: one [Write] call takes some bytes, may fail, and moves the
    writer on. *)
Class Writer (W : Type) := write : W -> bytes -> Z * option ferror * W.

(** What [io.Writer] documents: the count is within the buffer and the writer
    has taken exactly that prefix.  [sink] is what the writer holds so far. *)
Class WriterOK (W : Type) `{Writer W} := {
  sink : W -> bytes;
  write_takes : forall w p n e w',
    write w p = (n, e, w') ->
    0 <= n <= len p /\ sink w' = sink w ++ take (Z.to_nat n) p
}.

(** [io.Reader], as the bytes it still has and the error it then reports. *)
Record reader := mkReader { avail : bytes; fails : ferror }.

Module protocol.

Definition Magic0 : byte := 87.
Definition Magic1 : byte := 79.
Definition Version : byte := 3.
Definition HeaderSize : nat := 46.
Definition MaxPayload : Z := 128 * 1024.

Definition FlagFin : Z := Z.shiftl 1 0.
Definition FlagAckFinal : Z := Z.shiftl 1 1.
Definition FlagAckUp : Z := Z.shiftl 1 2.
Definition FlagAckDown : Z := Z.shiftl 1 3.
Definition FlagCloseAbort : Z := Z.shiftl 1 4.
Definition FlagReserveControl : Z := Z.shiftl 1 5.
Definition FlagAckRanges : Z := Z.shiftl 1 7.
Definition knownFlags : Z :=
  Z.lor FlagFin (Z.lor FlagAckFinal (Z.lor FlagAckUp (Z.lor FlagAckDown
    (Z.lor FlagCloseAbort (Z.lor FlagReserveControl FlagAckRanges))))).

Definition TypeOpen : Z := 1.
Definition TypeOpenOK : Z := 2.
Definition TypeJoin : Z := 3.
Definition TypeData : Z := 4.
Definition TypeAck : Z := 5.
Definition TypeClose : Z := 6.
Definition TypeReset : Z := 7.
Definition TypePacket : Z := 8.

Definition Type_valid (t : Z) : bool := (t >=? TypeOpen) && (t <=? TypePacket).

Definition ClassNew : Z := 0.
Definition ClassInteractive : Z := 1.
Definition ClassBulk : Z := 2.

Record Header := mkHeader {
  h_Version : Z;
  h_Type : Z;
  h_Flags : Z;
  h_SessionID : bytes;
  h_FlowID : Z;
  h_Sequence : Z;
  h_PayloadLen : Z;
  h_Class : Z
}.

Record Frame := mkFrame { f_Header : Header; f_Payload : bytes }.

Definition reserveControlFlagValid (t flags : Z) : bool :=
  (Z.land flags FlagReserveControl =? 0) || (t =? TypeOpen) || (t =? TypeJoin).

Definition ackRangesFlagValid (t flags : Z) : bool :=
  (Z.land flags FlagAckRanges =? 0) || (t =? TypeAck).

Definition MaxAckRanges : Z := 16.
Definition AckRangeSize : Z := 16.

(** The body of the loop of [EncodeAckRanges]. *)
Fixpoint encode_ranges (ranges : list (Z * Z)) (payload : bytes) : result ferror bytes :=
  match ranges with
  | [] => Ok payload
  | (r0, r1) :: rest =>
      if r0 >=? r1 then Err ErrRangeEmpty
      else encode_ranges rest ((payload ++ be_bytes 8 r0) ++ be_bytes 8 r1)
  end.

Definition EncodeAckRanges (ranges : list (Z * Z)) : result ferror bytes :=
  if len ranges >? MaxAckRanges then Err (ErrTooManyRanges (len ranges))
  else encode_ranges ranges [].

(** The body of the loop of [DecodeAckRanges]: [count - i] entries are left and
    [payload] starts at entry [i]. *)
Fixpoint decode_ranges (left : nat) (payload : bytes) (previousEnd : Z)
    (ranges : list (Z * Z)) : result ferror (list (Z * Z)) :=
  match left with
  | O => Ok ranges
  | S left' =>
      let start := be_val (slice 0 8 payload) in
      let stop := be_val (slice 8 16 payload) in
      if start >=? stop then Err ErrRangeEmpty
      else if start <? previousEnd then Err ErrRangeOrder
      else decode_ranges left' (drop 16 payload) stop (ranges ++ [(start, stop)])
  end.

Definition DecodeAckRanges (payload : bytes) (cumulative : Z) : result ferror (list (Z * Z)) :=
  if negb (Z.rem (len payload) AckRangeSize =? 0) then Err ErrRangeMisaligned
  else
    let count := Z.quot (len payload) AckRangeSize in
    if count >? MaxAckRanges then Err (ErrTooManyRanges count)
    else decode_ranges (Z.to_nat count) payload cumulative [].

(** Overwriting part of a buffer: [copy(dst[at:], bs)] where [bs] fits. *)
Definition put (at_ : nat) (bs dst : bytes) : bytes :=
  take at_ dst ++ bs ++ drop (at_ + length bs) dst.

(** [Encode] writes into the buffer it is given; the result is that buffer. *)
Definition Encode (h : Header) (dst : bytes) : result ferror bytes :=
  if len dst <? Z.of_nat HeaderSize then Err ErrShortBuffer
  else if negb (h_Version h =? Version) || negb (Type_valid (h_Type h))
       || (h_Class h >? ClassBulk) || negb (Z.ldiff (h_Flags h) knownFlags =? 0)
       || negb (reserveControlFlagValid (h_Type h) (h_Flags h))
       || negb (ackRangesFlagValid (h_Type h) (h_Flags h))
  then Err ErrInvalidHeader
  else if h_PayloadLen h >? MaxPayload then Err ErrPayloadLimit
  else
    let dst := put 0 [Magic0; Magic1; h_Version h; h_Type h] dst in
    let dst := put 4 (be_bytes 2 (h_Flags h)) dst in
    let dst := put 6 (h_SessionID h) dst in
    let dst := put 22 (be_bytes 8 (h_FlowID h)) dst in
    let dst := put 30 (be_bytes 8 (h_Sequence h)) dst in
    let dst := put 38 (be_bytes 4 (h_PayloadLen h)) dst in
    let dst := put 42 [h_Class h] dst in
    let dst := put 43 [0; 0; 0] dst in
    Ok dst.

Definition Validate (h : Header) : option ferror :=
  if negb (h_Version h =? Version) || negb (Type_valid (h_Type h)) || (h_Class h >? ClassBulk)
  then Some ErrInvalidHeader
  else if negb (Z.ldiff (h_Flags h) knownFlags =? 0)
       || negb (reserveControlFlagValid (h_Type h) (h_Flags h))
       || negb (ackRangesFlagValid (h_Type h) (h_Flags h))
  then Some ErrUnknownFlags
  else if h_PayloadLen h >? MaxPayload then Some (ErrPayloadLength (h_PayloadLen h))
  else None.

(** [src[i]] for an index inside the buffer. *)
Definition at_index (src : bytes) (i : nat) : Z := default 0 (src !! i).

Definition DecodeHeader (src : bytes) : result ferror Header :=
  if len src <? Z.of_nat HeaderSize then Err ErrUnexpectedEOF
  else if negb (at_index src 0 =? Magic0) || negb (at_index src 1 =? Magic1) then Err ErrMagic
  else if negb (at_index src 2 =? Version)
  then Err (UnsupportedVersionError (at_index src 2) Version)
  else
    let h := {| h_Version := at_index src 2; h_Type := at_index src 3;
                h_Flags := be_val (slice 4 6 src);
                h_SessionID := slice 6 22 src;
                h_FlowID := be_val (slice 22 30 src);
                h_Sequence := be_val (slice 30 38 src);
                h_PayloadLen := be_val (slice 38 42 src);
                h_Class := at_index src 42 |} in
    match Validate h with
    | Some e => Err (ErrUnsupportedHeader e)
    | None =>
        if negb (at_index src 43 =? 0) || negb (at_index src 44 =? 0)
           || negb (at_index src 45 =? 0)
        then Err ErrReserved
        else Ok h
    end.

(** [io.ReadFull]: all [n] bytes, or the reader's error; a partial read turns
    [EOF] into [ErrUnexpectedEOF]. *)
Definition ReadFull (r : reader) (n : nat) : result ferror (bytes * reader) :=
  if (n <=? length (avail r))%nat
  then Ok (take n (avail r), mkReader (drop n (avail r)) (fails r))
  else match fails r with
       | EOF => Err (if (length (avail r) =? 0)%nat then EOF else ErrUnexpectedEOF)
       | e => Err e
       end.

Definition ReadFrame (r : reader) : result ferror (Frame * reader) :=
  match ReadFull r HeaderSize with
  | Err e => Err e
  | Ok (raw, r) =>
      match DecodeHeader raw with
      | Err e => Err e
      | Ok h =>
          match ReadFull r (Z.to_nat (h_PayloadLen h)) with
          | Err e => Err e
          | Ok (payload, r) => Ok (mkFrame h payload, r)
          end
      end
  end.

Definition ParseFrameOwned (b : bytes) : result ferror Frame :=
  if len b <? Z.of_nat HeaderSize then Err ErrUnexpectedEOF
  else
    match DecodeHeader (take HeaderSize b) with
    | Err e => Err e
    | Ok h =>
        let rest := drop HeaderSize b in
        if negb (len rest =? h_PayloadLen h) then Err (ErrPayloadSize (len rest) (h_PayloadLen h))
        else Ok (mkFrame h rest)
    end.

(** [ParseFrame] differs only in copying the payload out of the buffer. *)
Definition ParseFrame (b : bytes) : result ferror Frame :=
  match ParseFrameOwned b with
  | Err e => Err e
  | Ok frame => Ok (mkFrame (f_Header frame) (put 0 (f_Payload frame) (replicate (length (f_Payload frame)) 0)))
  end.

Definition set_PayloadLen (h : Header) (n : Z) : Header :=
  {| h_Version := h_Version h; h_Type := h_Type h; h_Flags := h_Flags h;
     h_SessionID := h_SessionID h; h_FlowID := h_FlowID h; h_Sequence := h_Sequence h;
     h_PayloadLen := n; h_Class := h_Class h |}.

(** The extended slice together with the error; on an error the slice is [dst]. *)
Definition AppendFrame (dst : bytes) (f : Frame) : bytes * option ferror :=
  if len (f_Payload f) >? MaxPayload then (dst, Some ErrPayloadLimit)
  else
    let h := set_PayloadLen (f_Header f) (wrap 32 (len (f_Payload f))) in
    let start := length dst in
    let dst := dst ++ replicate HeaderSize 0 in
    match Encode h (drop start dst) with
    | Err e => (take start dst, Some e)
    | Ok region => ((take start dst ++ region) ++ f_Payload f, None)
    end.

(** [writeFull] with the recursion bounded by [fuel]; [None] would be a loop
    that has not ended. *)
Fixpoint writeFull_loop {W} `{Writer W} (fuel : nat) (w : W) (p : bytes)
    : option (option ferror * W) :=
  match p with
  | [] => Some (None, w)
  | _ =>
      match fuel with
      | O => None
      | S fuel' =>
          let '(n, e, w') := write w p in
          let p' := if n >? 0 then drop (Z.to_nat n) p else p in
          match e with
          | Some err => Some (Some err, w')
          | None => if n =? 0 then Some (Some ErrShortWrite, w') else writeFull_loop fuel' w' p'
          end
      end
  end.

Definition writeFull {W} `{Writer W} (w : W) (p : bytes) : option (option ferror * W) :=
  writeFull_loop (length p) w p.

Definition WriteFrame {W} `{Writer W} (w : W) (f : Frame) : option (option ferror * W) :=
  match AppendFrame [] f with
  | (_, Some e) => Some (Some e, w)
  | (buf, None) => writeFull w buf
  end.

End protocol.

Import protocol.

(** ** What the Go types guarantee *)

Definition Header_typed (h : Header) : Prop :=
  in_range 8 (h_Version h) /\ in_range 8 (h_Type h) /\ in_range 16 (h_Flags h) /\
  length (h_SessionID h) = 16%nat /\ Forall is_byte (h_SessionID h) /\
  in_range 64 (h_FlowID h) /\ in_range 64 (h_Sequence h) /\
  in_range 32 (h_PayloadLen h) /\ in_range 8 (h_Class h).

Definition Range_typed (r : Z * Z) : Prop := in_range 64 (fst r) /\ in_range 64 (snd r).

(** The fields of an encoded header, in wire order. *)
Definition header_fields (h : Header) : list bytes :=
  [[Magic0; Magic1; h_Version h; h_Type h]; be_bytes 2 (h_Flags h); h_SessionID h;
   be_bytes 8 (h_FlowID h); be_bytes 8 (h_Sequence h); be_bytes 4 (h_PayloadLen h);
   [h_Class h]; [0; 0; 0]].

(** The header as the wire carries it. *)
Definition header_image (h : Header) : bytes := concat (header_fields h).

(** The header [AppendFrame] actually sends: the one given, with the payload's
    length filled in. *)
Definition sent_header (f : Frame) : Header :=
  set_PayloadLen (f_Header f) (len (f_Payload f)).

(** Strictly increasing, disjoint, non-empty ranges starting at or above [c]. *)
Fixpoint ranges_above (c : Z) (ranges : list (Z * Z)) : Prop :=
  match ranges with
  | [] => True
  | (r0, r1) :: rest => c <= r0 /\ r0 < r1 /\ ranges_above r1 rest
  end.

(** ** The header codec *)

Lemma put_at (a bs c : bytes) : put (length a) bs (a ++ c) = a ++ bs ++ drop (length bs) c.
Proof.
  unfold put. rewrite take_app_length, <- drop_drop, drop_app_length. done.
Qed.

Lemma put_next (n : nat) (a bs c : bytes) :
  n = length a -> put n bs (a ++ c) = (a ++ bs) ++ drop (length bs) c.
Proof. intros ->. by rewrite put_at, app_assoc. Qed.

Lemma header_image_length h : length (h_SessionID h) = 16%nat -> length (header_image h) = 46%nat.
Proof.
  intros Hs. unfold header_image, header_fields. cbn.
  repeat (rewrite ?length_app, ?be_bytes_length; cbn). lia.
Qed.

(** [Encode] refuses exactly what [Validate] refuses. *)
Lemma Encode_rejects h dst e :
  (46 <= length dst)%nat -> Validate h = Some e -> exists e', Encode h dst = Err e'.
Proof.
  intros Hd Hv. unfold Encode, Validate in *.
  destruct (len dst <? _) eqn:El; [by eauto|].
  destruct (negb (h_Version h =? Version)), (negb (Type_valid (h_Type h))),
    (h_Class h >? ClassBulk), (negb (Z.ldiff (h_Flags h) knownFlags =? 0)),
    (negb (reserveControlFlagValid (h_Type h) (h_Flags h))),
    (negb (ackRangesFlagValid (h_Type h) (h_Flags h))); cbn in *; eauto.
  destruct (h_PayloadLen h >? MaxPayload); [by eauto|done].
Qed.

Lemma Encode_accepts h dst :
  length (h_SessionID h) = 16%nat -> (46 <= length dst)%nat -> Validate h = None ->
  Encode h dst = Ok (header_image h ++ drop 46 dst).
Proof.
  intros Hs Hd Hv. unfold Encode, Validate in *.
  replace (len dst <? Z.of_nat HeaderSize) with false
    by (symmetry; apply Z.ltb_ge; unfold len, HeaderSize; lia).
  destruct (negb (h_Version h =? Version)), (negb (Type_valid (h_Type h))),
    (h_Class h >? ClassBulk), (negb (Z.ldiff (h_Flags h) knownFlags =? 0)),
    (negb (reserveControlFlagValid (h_Type h) (h_Flags h))),
    (negb (ackRangesFlagValid (h_Type h) (h_Flags h))); cbn [orb] in *; try done.
  destruct (h_PayloadLen h >? MaxPayload); [done|]. f_equal.
  unfold header_image, header_fields.
  change dst with ([] ++ dst) at 1.
  repeat (rewrite put_next
    by (repeat (rewrite length_app, ?be_bytes_length); cbn [length]; lia)).
  rewrite !drop_drop, !be_bytes_length, Hs. cbn [length app concat Nat.add].
  by rewrite <- !app_assoc.
Qed.

Lemma header_segment h k s i j rest :
  header_fields h !! k = Some s -> i = length (concat (take k (header_fields h))) ->
  j = (i + length s)%nat -> slice i j (header_image h ++ rest) = s.
Proof. apply slice_concat. Qed.

Lemma at_index_app (a b : bytes) i : (i < length a)%nat -> at_index (a ++ b) i = at_index a i.
Proof. intros. unfold at_index. by rewrite lookup_app_l. Qed.

(** Reading a buffer through one of its slices. *)
Lemma at_index_slice (l s : bytes) i j k :
  slice i j l = s -> (k < j - i)%nat -> at_index l (i + k) = at_index s k.
Proof.
  intros <- Hk. unfold at_index, slice.
  by rewrite lookup_take_lt, lookup_drop by done.
Qed.

Lemma decode_encode_header h rest :
  Header_typed h -> Validate h = None -> DecodeHeader (header_image h ++ rest) = Ok h.
Proof.
  intros (Hver & Hty & Hfl & Hsl & Hsb & Hfi & Hsq & Hpl & Hcl) Hv.
  assert (Hlen : (46 <= length (header_image h ++ rest))%nat)
    by (rewrite length_app, header_image_length by done; lia).
  assert (Hseg : forall k s i j, header_fields h !! k = Some s ->
    i = length (concat (take k (header_fields h))) -> j = (i + length s)%nat ->
    slice i j (header_image h ++ rest) = s) by (intros; by eapply header_segment).
  assert (H2 : slice 4 6 (header_image h ++ rest) = be_bytes 2 (h_Flags h)).
  { by apply (Hseg 1%nat). }
  assert (H3 : slice 6 22 (header_image h ++ rest) = h_SessionID h).
  { apply (Hseg 2%nat); [done|done|by rewrite Hsl]. }
  assert (H4 : slice 22 30 (header_image h ++ rest) = be_bytes 8 (h_FlowID h)).
  { apply (Hseg 3%nat); cbn; rewrite ?length_app, ?Hsl; done. }
  assert (H5 : slice 30 38 (header_image h ++ rest) = be_bytes 8 (h_Sequence h)).
  { apply (Hseg 4%nat); cbn; rewrite ?length_app, ?Hsl; done. }
  assert (H6 : slice 38 42 (header_image h ++ rest) = be_bytes 4 (h_PayloadLen h)).
  { apply (Hseg 5%nat); cbn; rewrite ?length_app, ?Hsl; done. }
  assert (H7 : at_index (header_image h ++ rest) 42 = h_Class h).
  { apply (at_index_slice _ [h_Class h] 42 43 0); [|lia].
    apply (Hseg 6%nat); cbn; rewrite ?length_app, ?Hsl; done. }
  assert (H8 : slice 43 46 (header_image h ++ rest) = [0; 0; 0]).
  { apply (Hseg 7%nat); cbn; rewrite ?length_app, ?Hsl; done. }
  assert (Hz : forall k, (k < 3)%nat -> at_index (header_image h ++ rest) (43 + k) = 0).
  { intros k Hk. rewrite (at_index_slice _ _ 43 46 k H8) by lia.
    destruct k as [|[|[|k]]]; done || lia. }
  unfold DecodeHeader.
  replace (len _ <? _) with false by (symmetry; apply Z.ltb_ge; unfold len, HeaderSize; lia).
  pose proof (Hz 0%nat ltac:(lia)) as Z0. pose proof (Hz 1%nat ltac:(lia)) as Z1.
  pose proof (Hz 2%nat ltac:(lia)) as Z2. cbn [Nat.add] in Z0, Z1, Z2.
  rewrite H2, H3, H4, H5, H6, H7, Z0, Z1, Z2.
  assert (Hvv : h_Version h = Version).
  { unfold Validate in Hv. destruct (h_Version h =? Version) eqn:E; [|done]. by apply Z.eqb_eq. }
  change (at_index (header_image h ++ rest) 0) with Magic0.
  change (at_index (header_image h ++ rest) 1) with Magic1.
  change (at_index (header_image h ++ rest) 2) with (h_Version h).
  change (at_index (header_image h ++ rest) 3) with (h_Type h).
  rewrite !Z.eqb_refl, Hvv, Z.eqb_refl. cbn [negb orb].
  rewrite !be_val_be_bytes by zlia.
  assert (Heta : {| h_Version := Version; h_Type := h_Type h; h_Flags := h_Flags h;
    h_SessionID := h_SessionID h; h_FlowID := h_FlowID h; h_Sequence := h_Sequence h;
    h_PayloadLen := h_PayloadLen h; h_Class := h_Class h |} = h)
    by (rewrite <- Hvv; by destruct h).
  by rewrite Heta, Hv.
Qed.

Lemma decode_image h : Header_typed h -> Validate h = None -> DecodeHeader (header_image h) = Ok h.
Proof. intros. rewrite <- (app_nil_r (header_image h)). by apply decode_encode_header. Qed.

(** A decoded header is valid, typed, and spelled by exactly the bytes read. *)
Lemma at_index_one (l : bytes) i : (i < length l)%nat -> [at_index l i] = slice i (S i) l.
Proof.
  intros Hi. apply lookup_lt_is_Some in Hi as [x Hx]. unfold at_index.
  by rewrite Hx, (slice_one i l x Hx).
Qed.

Lemma be_bytes_slice (l : bytes) i j n :
  Forall is_byte l -> (i <= j <= length l)%nat -> n = (j - i)%nat ->
  be_bytes n (be_val (slice i j l)) = slice i j l.
Proof.
  intros Hl Hij ->. rewrite <- (slice_length i j l Hij).
  by apply be_bytes_be_val, Forall_slice.
Qed.

Lemma decode_header_image src h :
  Forall is_byte src -> DecodeHeader src = Ok h ->
  Validate h = None /\ length (h_SessionID h) = 16%nat /\ header_image h = take 46 src.
Proof.
  intros Hb Hd. unfold DecodeHeader in Hd.
  destruct (len src <? _) eqn:El; [done|]. apply Z.ltb_ge in El.
  assert (Hlen : (46 <= length src)%nat) by (unfold len, HeaderSize in El; lia).
  destruct (_ || _) eqn:E0 in Hd; [done|].
  destruct (negb (at_index src 2 =? Version)) eqn:E2; [done|].
  destruct (Validate _) eqn:Ev in Hd; [done|].
  destruct (_ || _) eqn:E3 in Hd; [done|]. injection Hd as Hh.
  bool_to_prop.
  split; [by rewrite <- Hh|]. split; [rewrite <- Hh; cbn [h_SessionID]; rewrite slice_length by lia; lia|].
  rewrite <- Hh. unfold header_image, header_fields.
  cbn [h_Version h_Type h_Flags h_SessionID h_FlowID h_Sequence h_PayloadLen h_Class concat].
  rewrite !be_bytes_slice by (done || lia).
  rewrite (at_index_one src 42) by lia.
  replace [Magic0; Magic1; at_index src 2; at_index src 3] with (slice 0 4 src).
  2: { rewrite <- (slice_app 0 1 4), <- (slice_app 1 2 4), <- (slice_app 2 3 4) by lia.
       rewrite <- !at_index_one by lia. cbn. congruence. }
  replace [0; 0; 0] with (slice 43 46 src).
  2: { rewrite <- (slice_app 43 44 46), <- (slice_app 44 45 46) by lia.
       rewrite <- !at_index_one by lia. cbn. congruence. }
  rewrite app_nil_r, !slice_app by lia. apply slice_0.
Qed.

(** ** The frame codec *)

Lemma set_PayloadLen_typed h n : Header_typed h -> in_range 32 n -> Header_typed (set_PayloadLen h n).
Proof. unfold Header_typed. cbn. tauto. Qed.

Lemma Validate_limit h : Validate h = None -> h_PayloadLen h <= MaxPayload.
Proof.
  unfold Validate. intros Hv. split_ifs_in Hv; try done. bool_to_prop. lia.
Qed.

(** What [AppendFrame] does, on both branches. *)
Lemma AppendFrame_spec dst f :
  length (h_SessionID (f_Header f)) = 16%nat ->
  match Validate (sent_header f) with
  | None => AppendFrame dst f = (dst ++ header_image (sent_header f) ++ f_Payload f, None)
  | Some _ => exists e, AppendFrame dst f = (dst, Some e)
  end.
Proof.
  intros Hs. unfold AppendFrame, sent_header.
  destruct (len (f_Payload f) >? MaxPayload) eqn:El; bool_to_prop.
  - destruct (Validate _) eqn:Ev; [by eauto|]. apply Validate_limit in Ev. cbn in Ev. lia.
  - rewrite wrap_small by (pose proof (len_nonneg (f_Payload f)); unfold MaxPayload in *; zlia).
    rewrite drop_app_length, take_app_length.
    destruct (Validate _) eqn:Ev.
    + destruct (Encode_rejects _ (replicate HeaderSize 0) _ ltac:(by cbn; lia) Ev) as [e' ->].
      by eauto.
    + rewrite Encode_accepts by (done || cbn; lia). f_equal.
      by rewrite <- !app_assoc.
Qed.

Lemma ParseFrame_owned b : ParseFrame b = ParseFrameOwned b.
Proof.
  unfold ParseFrame. destruct (ParseFrameOwned b) as [[h p]|]; [|done]. cbn.
  unfold put. by rewrite drop_ge, app_nil_r by (rewrite length_replicate; lia).
Qed.

Lemma parse_image h p :
  Header_typed h -> Validate h = None -> h_PayloadLen h = len p ->
  ParseFrame (header_image h ++ p) = Ok (mkFrame h p).
Proof.
  intros Ht Hv Hl. rewrite ParseFrame_owned. unfold ParseFrameOwned.
  assert (Hs : length (h_SessionID h) = 16%nat) by apply Ht.
  pose proof (header_image_length h Hs) as Hi.
  replace (len _ <? _) with false
    by (symmetry; apply Z.ltb_ge; rewrite len_app; unfold len, HeaderSize; rewrite Hi; lia).
  rewrite take_app_length', drop_app_length' by done.
  rewrite decode_image by done.
  by rewrite Hl, Z.eqb_refl.
Qed.

Lemma sent_header_typed f :
  Header_typed (f_Header f) -> len (f_Payload f) <= MaxPayload -> Header_typed (sent_header f).
Proof.
  intros. apply set_PayloadLen_typed; [done|].
  pose proof (len_nonneg (f_Payload f)). unfold MaxPayload in *. zlia.
Qed.

Lemma sent_header_limit f : Validate (sent_header f) = None -> len (f_Payload f) <= MaxPayload.
Proof. apply Validate_limit. Qed.

(** C9: encoding then parsing is the identity.  Appending a well-typed frame to
    any buffer either leaves the buffer untouched and reports an error, exactly
    when the header with the payload's length filled in is invalid, or appends
    bytes that [ParseFrame] turns back into that frame. *)
Theorem append_parse_roundtrip dst f :
  Header_typed (f_Header f) ->
  match AppendFrame dst f with
  | (b, None) => Validate (sent_header f) = None /\
      exists enc, b = dst ++ enc /\ ParseFrame enc = Ok (mkFrame (sent_header f) (f_Payload f))
  | (b, Some _) => b = dst /\ Validate (sent_header f) <> None
  end.
Proof.
  intros Ht. pose proof (AppendFrame_spec dst f ltac:(apply Ht)) as Ha.
  destruct (Validate (sent_header f)) eqn:Ev.
  - by destruct Ha as [e ->].
  - rewrite Ha. split; [done|]. eexists. split; [done|].
    apply parse_image; [|done|done].
    by apply sent_header_typed, sent_header_limit.
Qed.

(** A frame has one encoding.  Whatever bytes [ParseFrame] accepts are the
    bytes [AppendFrame] produces for the frame it returns, so no two byte
    strings parse to the same frame and nothing is ignored by the parser. *)
Theorem parse_append_canonical b f :
  Forall is_byte b -> ParseFrame b = Ok f -> AppendFrame [] f = (b, None).
Proof.
  intros Hb Hp. rewrite ParseFrame_owned in Hp. unfold ParseFrameOwned in Hp.
  destruct (len b <? _) eqn:El; [done|]. apply Z.ltb_ge in El. unfold len, HeaderSize in El.
  destruct (DecodeHeader _) as [h|] eqn:Ed; [|done].
  destruct (negb _) eqn:Ep; [done|]. bool_to_prop. injection Hp as <-.
  apply decode_header_image in Ed as (Hv & Hs & Hi); [|by apply Forall_take].
  pose proof (AppendFrame_spec [] (mkFrame h (drop HeaderSize b)) Hs) as Ha.
  unfold sent_header in Ha. cbn [f_Header f_Payload] in Ha. rewrite Ep in Ha.
  replace (set_PayloadLen h (h_PayloadLen h)) with h in Ha by (by destruct h).
  rewrite Hv in Ha. rewrite Ha. cbn [app]. f_equal.
  by rewrite Hi, take_take, take_drop.
Qed.

(** ** Frames over a stream *)

(** Reading [n] frames in a row. *)
Fixpoint read_frames (n : nat) (r : reader) : result ferror (list Frame * reader) :=
  match n with
  | O => Ok ([], r)
  | S n' =>
      match ReadFrame r with
      | Err e => Err e
      | Ok (f, r') =>
          match read_frames n' r' with
          | Err e => Err e
          | Ok (fs, r'') => Ok (f :: fs, r'')
          end
      end
  end.

(** Appending frames one after another to one buffer. *)
Definition append_frames (dst : bytes) (fs : list Frame) : bytes :=
  foldl (fun d f => fst (AppendFrame d f)) dst fs.

(** A frame its sender would accept. *)
Definition sendable (f : Frame) : Prop :=
  Header_typed (f_Header f) /\ Validate (sent_header f) = None.

(** The bytes one frame becomes. *)
Definition frame_image (f : Frame) : bytes := header_image (sent_header f) ++ f_Payload f.

#[local] Arguments header_image : simpl never.
#[local] Arguments frame_image : simpl never.
#[local] Arguments AppendFrame : simpl never.
#[local] Arguments be_bytes : simpl never.

Lemma append_sendable dst f : sendable f -> AppendFrame dst f = (dst ++ frame_image f, None).
Proof.
  intros [Ht Hv]. pose proof (AppendFrame_spec dst f ltac:(apply Ht)) as Ha.
  by rewrite Hv in Ha.
Qed.

Lemma ReadFull_app a b e :
  ReadFull (mkReader (a ++ b) e) (length a) = Ok (a, mkReader b e).
Proof.
  unfold ReadFull. cbn [avail fails].
  replace (length a <=? length (a ++ b))%nat with true
    by (symmetry; apply Nat.leb_le; rewrite length_app; lia).
  by rewrite take_app_length, drop_app_length.
Qed.

Lemma read_sendable f rest e :
  sendable f ->
  ReadFrame (mkReader (frame_image f ++ rest) e) =
  Ok (mkFrame (sent_header f) (f_Payload f), mkReader rest e).
Proof.
  intros [Ht Hv]. unfold ReadFrame, frame_image.
  assert (Hs : length (h_SessionID (sent_header f)) = 16%nat) by apply Ht.
  unfold HeaderSize. rewrite <- (header_image_length _ Hs) at 1.
  rewrite <- app_assoc, ReadFull_app.
  rewrite decode_image
    by (done || by apply sent_header_typed, sent_header_limit).
  change (h_PayloadLen (sent_header f)) with (len (f_Payload f)). unfold len.
  by rewrite Nat2Z.id, ReadFull_app.
Qed.

Lemma append_frames_image dst fs :
  Forall sendable fs -> append_frames dst fs = dst ++ concat (map frame_image fs).
Proof.
  intros Hfs. revert dst. induction Hfs as [|f fs Hf Hfs IH]; intros dst; cbn.
  - by rewrite app_nil_r.
  - unfold append_frames in *. cbn. rewrite append_sendable, IH by done.
    cbn [fst]. by rewrite <- app_assoc.
Qed.

Lemma read_frames_image fs rest e :
  Forall sendable fs ->
  read_frames (length fs) (mkReader (concat (map frame_image fs) ++ rest) e) =
  Ok (map (fun f => mkFrame (sent_header f) (f_Payload f)) fs, mkReader rest e).
Proof.
  intros Hfs. induction Hfs as [|f fs Hf Hfs IH]; [done|].
  cbn [length read_frames map concat]. by rewrite <- app_assoc, read_sendable, IH.
Qed.

Lemma parse_sendable f : sendable f -> ParseFrameOwned (frame_image f) = Ok (mkFrame (sent_header f) (f_Payload f)).
Proof.
  intros [Ht Hv]. rewrite <- ParseFrame_owned. apply parse_image; [|done|done].
  by apply sent_header_typed, sent_header_limit.
Qed.

(** A byte stream carries frames in order.  Reading as many frames from the
    stream as were appended to it returns those frames in order and leaves the
    reader exactly at the byte after the last one. *)
Theorem frame_stream_roundtrip fs rest e :
  Forall sendable fs ->
  read_frames (length fs) (mkReader (append_frames [] fs ++ rest) e) =
  Ok (map (fun f => mkFrame (sent_header f) (f_Payload f)) fs, mkReader rest e).
Proof. intros Hfs. rewrite append_frames_image by done. by apply read_frames_image. Qed.

Lemma ReadFull_short p n :
  (length p < n)%nat ->
  ReadFull (mkReader p EOF) n = Err (if (length p =? 0)%nat then EOF else ErrUnexpectedEOF).
Proof.
  intros. unfold ReadFull. cbn [avail fails].
  by replace (n <=? length p)%nat with false by (symmetry; apply Nat.leb_gt; lia).
Qed.

(** A truncated frame is never delivered.  On a stream that ends inside a
    frame, [ReadFrame] fails, and the error is a clean [EOF] exactly when the
    stream ended before the header or between the header and the payload. *)
Theorem truncated_frame_rejected f n :
  sendable f -> (n < length (frame_image f))%nat ->
  ReadFrame (mkReader (take n (frame_image f)) EOF) =
  Err (if bool_decide (n = 0%nat \/ n = HeaderSize) then EOF else ErrUnexpectedEOF).
Proof.
  intros [Ht Hv] Hn. unfold ReadFrame, frame_image in *.
  assert (Hs : length (h_SessionID (sent_header f)) = 16%nat) by apply Ht.
  pose proof (header_image_length _ Hs) as Hi.
  rewrite length_app, Hi in Hn. unfold HeaderSize.
  destruct (decide (n < 46)%nat) as [Hlt|Hge].
  - rewrite ReadFull_short by (rewrite length_take; lia).
    rewrite length_take, length_app, Hi.
    replace (n `min` _)%nat with n by lia.
    destruct (Nat.eqb_spec n 0); case_bool_decide; done || lia.
  - rewrite take_app_ge by lia.
    rewrite <- Hi at 1. rewrite ReadFull_app.
    rewrite decode_image
      by (done || by apply sent_header_typed, sent_header_limit).
    change (h_PayloadLen (sent_header f)) with (len (f_Payload f)). unfold len.
    rewrite Nat2Z.id, ReadFull_short by (rewrite length_take; lia).
    rewrite length_take, Hi.
    replace (_ `min` _)%nat with (n - 46)%nat by lia.
    destruct (Nat.eqb_spec (n - 46) 0); case_bool_decide; done || lia.
Qed.

(** ** Acknowledgement ranges *)

Definition range_image (r : Z * Z) : bytes := be_bytes 8 (fst r) ++ be_bytes 8 (snd r).

Lemma range_image_length r : length (range_image r) = 16%nat.
Proof. unfold range_image. by rewrite length_app, !be_bytes_length. Qed.

Lemma ranges_image_length rs : length (concat (map range_image rs)) = (16 * length rs)%nat.
Proof.
  induction rs; [done|]. cbn [map concat]. rewrite length_app, range_image_length, IHrs. cbn. lia.
Qed.

Lemma encode_ranges_spec rs acc p :
  encode_ranges rs acc = Ok p <->
  Forall (fun r => fst r < snd r) rs /\ p = acc ++ concat (map range_image rs).
Proof.
  revert acc. induction rs as [|[r0 r1] rs IH]; intros acc; cbn [encode_ranges map concat].
  - rewrite app_nil_r. split; [by intros [= <-]|by intros [_ ->]].
  - rewrite Forall_cons. cbn [fst snd]. destruct (r0 >=? r1) eqn:E; bool_to_prop.
    + split; [done|]. intros [[? _] _]. lia.
    + rewrite IH. unfold range_image at 2. cbn [fst snd]. rewrite <- !app_assoc. tauto.
Qed.

Lemma decode_ranges_complete rs prev acc :
  Forall Range_typed rs -> ranges_above prev rs ->
  decode_ranges (length rs) (concat (map range_image rs)) prev acc = Ok (acc ++ rs).
Proof.
  intros Ht. revert prev acc.
  induction Ht as [|[r0 r1] rs [Hr0 Hr1] Ht IH]; intros prev acc Ha;
    cbn [length decode_ranges map concat ranges_above fst snd] in *.
  - by rewrite app_nil_r.
  - destruct Ha as (H1 & H2 & H3).
    assert (E0 : slice 0 8 (range_image (r0, r1) ++ concat (map range_image rs)) = be_bytes 8 r0).
    { unfold slice, range_image. by rewrite <- app_assoc, drop_0, take_app_length'. }
    assert (E1 : slice 8 16 (range_image (r0, r1) ++ concat (map range_image rs)) = be_bytes 8 r1).
    { unfold slice, range_image. by rewrite <- app_assoc, drop_app_length', take_app_length'. }
    rewrite E0, E1, !be_val_be_bytes by zlia.
    rewrite drop_app_length' by (by rewrite range_image_length).
    replace (r0 >=? r1) with false by lia. replace (r0 <? prev) with false by lia.
    by rewrite IH, <- app_assoc.
Qed.

Lemma decode_ranges_sound n p prev acc out :
  Forall is_byte p -> length p = (16 * n)%nat -> decode_ranges n p prev acc = Ok out ->
  exists rs, out = acc ++ rs /\ length rs = n /\ ranges_above prev rs /\
    Forall Range_typed rs /\ p = concat (map range_image rs).
Proof.
  revert p prev acc. induction n as [|n IH]; intros p prev acc Hb Hl Hd; cbn [decode_ranges] in Hd.
  - injection Hd as <-. exists []. destruct p; [|done]. rewrite app_nil_r. by repeat split.
  - set (r0 := be_val (slice 0 8 p)) in *. set (r1 := be_val (slice 8 16 p)) in *.
    destruct (r0 >=? r1) eqn:E1; [done|]. destruct (r0 <? prev) eqn:E2; [done|]. bool_to_prop.
    apply IH in Hd as (rs & -> & Hn & Ha & Ht & Hp);
      [|by apply Forall_drop|rewrite length_drop; lia].
    assert (Hr : forall i j, (i <= j <= length p)%nat -> (j - i = 8)%nat ->
      in_range 64 (be_val (slice i j p)) /\ be_bytes 8 (be_val (slice i j p)) = slice i j p).
    { intros i j Hij H8. pose proof (be_val_range (slice i j p) ltac:(by apply Forall_slice)) as Hv.
      unfold len in Hv. rewrite slice_length in Hv by lia. rewrite H8 in Hv.
      split; [by zlia|]. apply be_bytes_slice; done || lia. }
    destruct (Hr 0%nat 8%nat) as [Hr0 Hb0]; [lia|lia|].
    destruct (Hr 8%nat 16%nat) as [Hr1 Hb1]; [lia|lia|].
    exists ((r0, r1) :: rs). rewrite <- app_assoc. cbn [length ranges_above map concat].
    split; [done|]. split; [by rewrite Hn|]. split; [by repeat split|]. split; [by constructor|].
    unfold range_image at 1. cbn [fst snd]. unfold r0, r1.
    rewrite Hb0, Hb1, slice_app, slice_0, <- Hp by lia. by rewrite take_drop.
Qed.

Lemma ranges_above_ordered prev rs : ranges_above prev rs -> Forall (fun r => fst r < snd r) rs.
Proof.
  revert prev. induction rs as [|[r0 r1] rs IH]; intros prev; [by constructor|].
  cbn. intros (? & ? & ?). constructor; [done|by eapply IH].
Qed.

(** What [EncodeAckRanges] writes, [DecodeAckRanges] reads. *)
Lemma decode_encoded_ranges p cumulative rs :
  ranges_above cumulative rs -> Forall Range_typed rs -> EncodeAckRanges rs = Ok p ->
  DecodeAckRanges p cumulative = Ok rs.
Proof.
  unfold DecodeAckRanges, EncodeAckRanges, AckRangeSize, MaxAckRanges. intros Ha Ht He.
  destruct (len rs >? 16) eqn:El; [done|]. bool_to_prop.
  apply encode_ranges_spec in He as [_ ->]. cbn [app] in *.
  assert (El16 : len (concat (map range_image rs)) = len rs * 16)
    by (unfold len; rewrite ranges_image_length; lia).
  rewrite El16, Z.rem_mul, Z.quot_mul by lia. cbn [negb Z.eqb].
  replace (len rs >? 16) with false by lia.
  unfold len. by rewrite Nat2Z.id, decode_ranges_complete.
Qed.

(** The range list of an acknowledgement.  A payload decodes to a list of
    ranges exactly when that list has at most sixteen entries, is strictly
    increasing, disjoint and non-empty from the cumulative point up, and is the
    list whose encoding the payload is. *)
Theorem ack_ranges_codec p cumulative rs :
  Forall is_byte p ->
  DecodeAckRanges p cumulative = Ok rs <->
  ranges_above cumulative rs /\ Forall Range_typed rs /\ EncodeAckRanges rs = Ok p.
Proof.
  intros Hb. unfold DecodeAckRanges, EncodeAckRanges, AckRangeSize, MaxAckRanges.
  pose proof (len_nonneg p) as Hp. split.
  - intros Hd. destruct (negb _) eqn:Em; [done|]. bool_to_prop.
    destruct (_ >? 16) eqn:Ec; [done|]. bool_to_prop.
    pose proof (Z.quot_rem (len p) 16 ltac:(lia)) as Hq.
    assert (0 <= Z.quot (len p) 16) by (by apply Z.quot_pos).
    apply decode_ranges_sound in Hd as (rs' & -> & Hn & Ha & Ht & ->);
      [|done|unfold len in *; lia].
    cbn [app]. split; [done|]. split; [done|].
    replace (len rs' >? 16) with false by (symmetry; rewrite Z.gtb_ltb; apply Z.ltb_ge; unfold len; lia).
    apply encode_ranges_spec. split; [by eapply ranges_above_ordered|done].
  - intros (Ha & Ht & He). by apply decode_encoded_ranges.
Qed.

(** ** Writing a frame out *)

Lemma writeFull_loop_spec {W} `{WriterOK W} fuel (w : W) p :
  (length p <= fuel)%nat ->
  exists e w', writeFull_loop fuel w p = Some (e, w') /\
    match e with
    | None => sink w' = sink w ++ p
    | Some _ => exists n, (n <= length p)%nat /\ sink w' = sink w ++ take n p
    end.
Proof.
  revert w p. induction fuel as [|fuel IH]; intros w p Hf.
  - destruct p; [|cbn in Hf; lia]. exists None, w. by rewrite app_nil_r.
  - destruct p as [|b p]; [exists None, w; by rewrite app_nil_r|].
    cbn [writeFull_loop]. destruct (write w (b :: p)) as [[n e] w'] eqn:Ew.
    destruct (write_takes w (b :: p) n e w' Ew) as [Hn Hs]. unfold len in Hn.
    destruct e as [e|].
    { eexists _, _. split; [done|]. exists (Z.to_nat n). split; [lia|done]. }
    destruct (n =? 0) eqn:E0; bool_to_prop.
    { eexists _, _. split; [done|]. exists 0%nat. subst n. split; [lia|done]. }
    replace (n >? 0) with true by lia.
    destruct (IH w' (drop (Z.to_nat n) (b :: p))) as (e' & w'' & -> & He).
    { rewrite length_drop. lia. }
    eexists _, _. split; [done|]. rewrite Hs in He.
    destruct e' as [e'|].
    + destruct He as (m & Hm & ->). rewrite length_drop in Hm.
      exists (Z.to_nat n + m)%nat. split; [lia|].
      by rewrite <- app_assoc, <- take_take_drop.
    + by rewrite He, <- app_assoc, take_drop.
Qed.

(** A frame is written whole or not at all as far as its error tells.
    Over any writer that keeps [io.Writer]'s contract, [WriteFrame] returns; a
    nil error means the writer took exactly the frame's bytes after what it
    already held, however the writes were split, and an error means it took a
    prefix of them. *)
Theorem WriteFrame_delivers {W} `{WriterOK W} (w : W) f :
  Header_typed (f_Header f) ->
  exists e w', WriteFrame w f = Some (e, w') /\
    match e with
    | None => sendable f /\ sink w' = sink w ++ frame_image f
    | Some _ => exists n, sink w' = sink w ++ take n (frame_image f)
    end.
Proof.
  intros Ht. unfold WriteFrame.
  pose proof (AppendFrame_spec [] f ltac:(apply Ht)) as Ha.
  destruct (Validate (sent_header f)) eqn:Ev.
  - destruct Ha as [e ->]. eexists _, _. split; [done|].
    exists 0%nat. by rewrite app_nil_r.
  - rewrite Ha. unfold writeFull.
    destruct (writeFull_loop_spec (length (frame_image f)) w (frame_image f))
      as (e & w' & He & Hs); [done|].
    exists e, w'. split; [exact He|]. destruct e; [|by split].
    destruct Hs as (n & _ & Hs). by exists n.
Qed.

(** ** Concrete instances *)

Definition sample_frame : Frame :=
  mkFrame (mkHeader Version TypeData 0 (replicate 16 7) 5 100 0 ClassBulk) [1; 2; 3].

Lemma sample_typed : Header_typed (f_Header sample_frame).
Proof.
  unfold Header_typed. cbn -[Z.pow]. unfold in_range, is_byte.
  repeat split; try done. repeat constructor; done.
Qed.

Lemma sample_sendable : sendable sample_frame.
Proof. split; [apply sample_typed|reflexivity]. Qed.

(** A writer that takes at most ten bytes per call. *)
#[local] Instance short_writer : Writer (list Z) :=
  fun w p => (Z.min 10 (len p), None, w ++ take (Z.to_nat (Z.min 10 (len p))) p).

#[local] Instance short_writer_ok : WriterOK (list Z).
Proof.
  refine {| sink := fun w => w |}.
  intros w p n e w' Hw. injection Hw as <- <- <-. split; [|done].
  pose proof (len_nonneg p). lia.
Defined.

Lemma append_parse_roundtrip_witness :
  Header_typed (f_Header sample_frame) /\
  match AppendFrame [9] sample_frame with
  | (b, None) => Validate (sent_header sample_frame) = None /\
      exists enc, b = [9] ++ enc /\
        ParseFrame enc = Ok (mkFrame (sent_header sample_frame) (f_Payload sample_frame))
  | (b, Some _) => b = [9] /\ Validate (sent_header sample_frame) <> None
  end.
Proof.
  split; [apply sample_typed|]. apply (append_parse_roundtrip [9] sample_frame).
  apply sample_typed.
Defined.

Lemma parse_append_canonical_witness :
  ParseFrame (frame_image sample_frame) = Ok (mkFrame (sent_header sample_frame) [1; 2; 3]) /\
  AppendFrame [] (mkFrame (sent_header sample_frame) [1; 2; 3]) = (frame_image sample_frame, None).
Proof.
  split; [reflexivity|].
  apply (parse_append_canonical (frame_image sample_frame)); [|reflexivity].
  vm_compute. repeat constructor; done.
Defined.

Lemma frame_stream_roundtrip_witness :
  read_frames 2 (mkReader (append_frames [] [sample_frame; sample_frame] ++ [7]) EOF) =
  Ok (map (fun f => mkFrame (sent_header f) (f_Payload f)) [sample_frame; sample_frame],
      mkReader [7] EOF).
Proof.
  apply (frame_stream_roundtrip [sample_frame; sample_frame] [7] EOF).
  repeat constructor; apply sample_sendable.
Defined.

Lemma truncated_frame_rejected_witness :
  ReadFrame (mkReader (take 48 (frame_image sample_frame)) EOF) = Err ErrUnexpectedEOF.
Proof.
  apply (truncated_frame_rejected sample_frame 48); [apply sample_sendable|].
  vm_compute. lia.
Defined.

Lemma ack_ranges_codec_witness :
  DecodeAckRanges (be_bytes 8 10 ++ be_bytes 8 20 ++ be_bytes 8 30 ++ be_bytes 8 40) 10 =
  Ok [(10, 20); (30, 40)].
Proof.
  apply ack_ranges_codec.
  - vm_compute. repeat constructor; done.
  - split; [cbn; lia|]. split; [|reflexivity]. repeat constructor; cbn; zlia.
Defined.

Lemma WriteFrame_delivers_witness :
  exists e w', WriteFrame [42] sample_frame = Some (e, w') /\
    match e with
    | None => sendable sample_frame /\ sink w' = sink [42] ++ frame_image sample_frame
    | Some _ => exists n, sink w' = sink [42] ++ take n (frame_image sample_frame)
    end.
Proof. apply (WriteFrame_delivers [42] sample_frame). apply sample_typed. Defined.
