(* ===== verification/Memlimit.v ===== *)
(** The shared byte budget ([internal/memlimit/budget.go]).

    [Budget] is the state the mutex guards; each critical section is one
    definition.  [Acquire] blocks, so its two critical sections are steps of a
    transition system [bstep] in which any number of callers acquire, wait,
    are cancelled and release in any order.  The theorems show the hard limit
    (what callers hold is exactly what the budget counts, and never exceeds its
    capacity), that a holder's release cannot panic, and that no wakeup is
    lost. *)

From S2P Require Import Prelude.

(** [changed] is the generation channel: a release closes the current one and
    makes the next, so a channel is closed exactly when it is not current. *)
Record Budget := mkBudget {
  capacity : Z;
  used : Z;
  peak : Z;
  waiters : Z;
  changed : Z
}.

Record BudgetSnapshot := mkBudgetSnapshot {
  snap_Capacity : Z; snap_Used : Z; snap_Peak : Z; snap_Waiters : Z
}.

(** A nil budget is [None]. *)
Definition Budget_New (cap : Z) : option Budget :=
  if cap <=? 0 then None else Some (mkBudget cap 0 0 0 0).

Definition set_used (b : Budget) (u : Z) : Budget :=
  mkBudget (capacity b) u (if u >? peak b then u else peak b) (waiters b) (changed b).

Definition set_waiters (b : Budget) (w : Z) : Budget :=
  mkBudget (capacity b) (used b) (peak b) w (changed b).

(** [TryAcquire]: whether the bytes were reserved, and the budget after. *)
Definition Budget_TryAcquire (b : option Budget) (n : Z) : bool * option Budget :=
  match b with
  | None => (true, None)
  | Some bud =>
      if n <=? 0 then (true, b)
      else if n >? capacity bud - used bud then (false, b)
      else (true, Some (set_used bud (used bud + n)))
  end.

(** [Release]; [None] is the panic. *)
Definition Budget_Release (b : option Budget) (n : Z) : option (option Budget) :=
  match b with
  | None => Some None
  | Some bud =>
      if n <=? 0 then Some b
      else if n >? used bud then None
      else Some (Some (mkBudget (capacity bud) (used bud - n) (peak bud) (waiters bud) (changed bud + 1)))
  end.

Definition Budget_Snapshot (b : option Budget) : BudgetSnapshot :=
  match b with
  | None => mkBudgetSnapshot 0 0 0 0
  | Some bud => mkBudgetSnapshot (capacity bud) (used bud) (peak bud) (waiters bud)
  end.

(** What a critical section of [Acquire] ends in. *)
Inductive acquire_outcome :=
| AcqGranted
| AcqTooLarge
| AcqCancelled
| AcqWait (generation : Z).

(** One pass of the loop of [Acquire], lock held: cancellation first, then the
    capacity test, then joining the waiters of the current generation. *)
Definition Acquire_loop (cancelled : bool) (request : Z) (b : Budget) : acquire_outcome * Budget :=
  if cancelled then (AcqCancelled, b)
  else if request <=? capacity b - used b then (AcqGranted, set_used b (used b + request))
  else (AcqWait (changed b), set_waiters b (waiters b + 1)).

(** [Acquire] from its entry to its return or its first wait. *)
Definition Acquire_enter (cancelled : bool) (n : Z) (b : Budget) : acquire_outcome * Budget :=
  if n <=? 0 then (AcqGranted, b)
  else if n >? capacity b then (AcqTooLarge, b)
  else Acquire_loop cancelled n b.

(** After its generation closed: the waiter relocks, leaves the waiters and
    loops. *)
Definition Acquire_wake (cancelled : bool) (n : Z) (b : Budget) : acquire_outcome * Budget :=
  Acquire_loop cancelled n (set_waiters b (waiters b - 1)).

(** After its context ended. *)
Definition Acquire_abort (b : Budget) : acquire_outcome * Budget :=
  (AcqCancelled, set_waiters b (waiters b - 1)).

(** A caller of the budget: idle, waiting inside [Acquire], or holding bytes. *)
Inductive caller :=
| Idle
| Waiting (n generation : Z)
| Holding (n : Z).

(** The budget and its callers, with the contexts that have ended. *)
Record bsys := mkSys { bud : Budget; callers : gmap Z caller; ended : gset Z }.

Definition after_acquire (n : Z) (o : acquire_outcome) : caller :=
  match o with
  | AcqGranted => Holding n
  | AcqTooLarge | AcqCancelled => Idle
  | AcqWait g => Waiting n g
  end.

(** The steps callers can take, in any interleaving. *)
Inductive bstep : bsys -> bsys -> Prop :=
| step_enter b cs es t n o b' :
    cs !! t = Some Idle ->
    Acquire_enter (bool_decide (t ∈ es)) n b = (o, b') ->
    bstep (mkSys b cs es) (mkSys b' (<[t := after_acquire (Z.max 0 n) o]> cs) es)
| step_wake b cs es t n g o b' :
    cs !! t = Some (Waiting n g) -> g <> changed b ->
    Acquire_wake (bool_decide (t ∈ es)) n b = (o, b') ->
    bstep (mkSys b cs es) (mkSys b' (<[t := after_acquire n o]> cs) es)
| step_abort b cs es t n g o b' :
    cs !! t = Some (Waiting n g) -> t ∈ es ->
    Acquire_abort b = (o, b') ->
    bstep (mkSys b cs es) (mkSys b' (<[t := after_acquire n o]> cs) es)
| step_end b cs es t :
    bstep (mkSys b cs es) (mkSys b cs ({[t]} ∪ es))
| step_try b cs es t n ok b' :
    cs !! t = Some Idle ->
    Budget_TryAcquire (Some b) n = (ok, Some b') ->
    bstep (mkSys b cs es) (mkSys b' (<[t := if ok : bool then Holding (Z.max 0 n) else Idle]> cs) es)
| step_release b cs es t n b' :
    cs !! t = Some (Holding n) ->
    Budget_Release (Some b) n = Some (Some b') ->
    bstep (mkSys b cs es) (mkSys b' (<[t := Idle]> cs) es).

(** A fresh budget whose callers are all idle. *)
Definition bsys_initial (s : bsys) : Prop :=
  Budget_New (capacity (bud s)) = Some (bud s) /\
  (forall t c, callers s !! t = Some c -> c = Idle).

Definition held_by (_ : Z) (c : caller) : Z := match c with Holding n => n | _ => 0 end.
Definition waits (_ : Z) (c : caller) : Z := match c with Waiting _ _ => 1 | _ => 0 end.

(** What a caller's state says about the budget. *)
Definition caller_ok (b : Budget) (c : caller) : Prop :=
  match c with
  | Idle => True
  | Holding n => 0 <= n
  | Waiting n g => 0 < n <= capacity b /\ g <= changed b /\
      (g = changed b -> capacity b - used b < n)
  end.

Definition Budget_wf (b : Budget) : Prop :=
  0 <= used b <= capacity b /\ used b <= peak b <= capacity b /\ 0 <= waiters b.

Definition bsys_inv (s : bsys) : Prop :=
  Budget_wf (bud s) /\
  used (bud s) = msum held_by (callers s) /\
  waiters (bud s) = msum waits (callers s) /\
  (forall t c, callers s !! t = Some c -> caller_ok (bud s) c).

(** ** Lemmas *)

(** A waiter's view survives whatever does not lower [used] within its
    generation. *)
Lemma caller_ok_mono b b' c :
  capacity b' = capacity b -> changed b <= changed b' ->
  (changed b' = changed b -> used b <= used b') ->
  caller_ok b c -> caller_ok b' c.
Proof. intros Hc Hg Hu. destruct c as [|n g|n]; cbn; [done| |done]. rewrite Hc. lia. Qed.

(** Every step replaces one caller and one budget; this is what has to be
    shown of the pair. *)
Lemma bsys_inv_replace b cs es t c b' c' es' :
  bsys_inv (mkSys b cs es) -> cs !! t = Some c ->
  Budget_wf b' -> capacity b' = capacity b -> changed b <= changed b' ->
  (changed b' = changed b -> used b <= used b') ->
  used b' = used b - held_by t c + held_by t c' ->
  waiters b' = waiters b - waits t c + waits t c' ->
  caller_ok b' c' ->
  bsys_inv (mkSys b' (<[t := c']> cs) es').
Proof.
  intros (Hwf & Hu & Hw & Hok) Ht Hwf' Hc Hg Hm Hu' Hw' Hok'. cbn in *.
  split; [done|]. cbn [callers bud].
  rewrite !(msum_update _ _ _ _ _ Ht).
  split; [lia|]. split; [lia|].
  intros t' d Hd. apply lookup_insert_Some in Hd as [[_ <-]|[_ Hd]]; [done|].
  eapply caller_ok_mono; eauto.
Qed.

Lemma waits_counted b cs es t n g :
  bsys_inv (mkSys b cs es) -> cs !! t = Some (Waiting n g) -> 1 <= waiters b.
Proof.
  intros (_ & _ & Hw & _) Ht. cbn in *. rewrite Hw.
  apply (msum_entry_le waits cs t (Waiting n g)); [|done].
  intros k [| |]; cbn; lia.
Qed.

Lemma held_counted b cs es t n :
  bsys_inv (mkSys b cs es) -> cs !! t = Some (Holding n) -> 0 <= n <= used b.
Proof.
  intros (_ & Hu & _ & Hok) Ht. cbn in *.
  split; [apply (Hok _ _ Ht)|]. rewrite Hu.
  apply (msum_entry_le held_by cs t (Holding n)); [|done].
  intros k [| |] Hk; cbn; try lia. apply (Hok _ _ Hk).
Qed.

Lemma set_used_wf b n :
  Budget_wf b -> 0 <= n <= capacity b - used b -> Budget_wf (set_used b (used b + n)).
Proof.
  unfold Budget_wf, set_used. cbn. intros.
  destruct (used b + n >? peak b) eqn:E; bool_to_prop; lia.
Qed.

(** One pass of the loop, from an idle or a relocked waiter. *)
Lemma Acquire_loop_inv b0 b cs es t c n cancelled o b' :
  bsys_inv (mkSys b0 cs es) -> cs !! t = Some c -> held_by t c = 0 ->
  b = set_waiters b0 (waiters b0 - waits t c) -> 0 <= waiters b ->
  0 < n <= capacity b0 ->
  Acquire_loop cancelled n b = (o, b') ->
  bsys_inv (mkSys b' (<[t := after_acquire n o]> cs) es).
Proof.
  intros Hinv Ht Hh -> Hw Hn Ha. pose proof Hinv as ((Hu & Hp & _) & _ & _ & _). cbn in *.
  unfold Acquire_loop in Ha. cbn in Ha.
  destruct cancelled; [injection Ha as <- <-|].
  { eapply bsys_inv_replace; eauto; cbn; try lia. unfold Budget_wf; cbn; lia. }
  destruct (n <=? capacity b0 - used b0) eqn:E; bool_to_prop; injection Ha as <- <-.
  - eapply bsys_inv_replace; eauto; cbn; try lia.
    apply (set_used_wf (set_waiters b0 _)); unfold Budget_wf; cbn; lia.
  - eapply bsys_inv_replace; eauto; cbn; try lia. unfold Budget_wf; cbn; lia.
Qed.

(** The shared budget still counts at least [n] bytes. *)
Definition budget_covers (m : option Budget) (n : Z) : Prop :=
  match m with Some b => Budget_wf b /\ n <= used b | None => True end.

Lemma Budget_Release_covers m n k :
  budget_covers m (n + k) -> 0 <= n -> 0 <= k ->
  exists m', Budget_Release m n = Some m' /\ budget_covers m' k.
Proof.
  intros Hc Hn Hk. destruct m as [b|]; cbn in *; [|by eauto].
  destruct Hc as [Hwf Hu]. destruct (n <=? 0) eqn:E; bool_to_prop.
  - exists (Some b). split; [done|]. cbn. split; [done|lia].
  - replace (n >? used b) with false by lia. eexists. split; [done|].
    unfold budget_covers, Budget_wf in *. cbn. lia.
Qed.

Lemma Budget_TryAcquire_covers m n k m' :
  budget_covers m k -> 0 <= n -> Budget_TryAcquire m n = (true, m') -> budget_covers m' (k + n).
Proof.
  intros Hc Hn Ht. destruct m as [b|]; cbn in *; [|by injection Ht as <-].
  destruct (n <=? 0) eqn:E; [injection Ht as <-|]; bool_to_prop.
  - cbn. split; [apply Hc|]. replace n with 0 by lia. destruct Hc. lia.
  - destruct (n >? _) eqn:E1; [done|]. injection Ht as <-. bool_to_prop. destruct Hc as [Hwf Hu].
    split; [by apply set_used_wf|]. cbn. lia.
Qed.

Lemma bsys_inv_step s s' : bsys_inv s -> bstep s s' -> bsys_inv s'.
Proof.
  intros Hinv Hstep. pose proof Hinv as (Hwf & Hu & Hw & Hok).
  destruct Hstep as [b cs es t n o b' Ht Ha|b cs es t n g o b' Ht Hg Ha|
    b cs es t n g o b' Ht He Ha|b cs es t|b cs es t n ok b' Ht Ha|b cs es t n b' Ht Ha];
    cbn in Hwf, Hu, Hw, Hok.
  - unfold Acquire_enter in Ha.
    destruct (n <=? 0) eqn:E0; [injection Ha as <- <-|
      destruct (n >? capacity b) eqn:E1; [injection Ha as <- <-|]]; bool_to_prop.
    + eapply bsys_inv_replace; eauto; cbn; lia.
    + eapply bsys_inv_replace; eauto; cbn; lia.
    + replace (Z.max 0 n) with n by lia.
      assert (Hb : b = set_waiters b (waiters b - 0)) by (rewrite Z.sub_0_r; by destruct b).
      eapply (Acquire_loop_inv b b); [done|done|done|exact Hb| |lia|done].
      unfold Budget_wf in Hwf. lia.
  - pose proof (waits_counted _ _ _ _ _ _ Hinv Ht).
    pose proof (Hok _ _ Ht) as (? & _).
    eapply (Acquire_loop_inv b); eauto; cbn; lia.
  - pose proof (waits_counted _ _ _ _ _ _ Hinv Ht). injection Ha as <- <-.
    eapply bsys_inv_replace; eauto; unfold Budget_wf in *; cbn; lia.
  - done.
  - unfold Budget_TryAcquire in Ha.
    destruct (n <=? 0) eqn:E0; [injection Ha as <- <-|
      destruct (n >? _) eqn:E1; injection Ha as <- <-]; bool_to_prop.
    + eapply bsys_inv_replace; eauto; cbn; lia.
    + eapply bsys_inv_replace; eauto; cbn; lia.
    + eapply bsys_inv_replace; eauto; cbn; try lia. apply set_used_wf; [done|lia].
  - pose proof (held_counted _ _ _ _ _ Hinv Ht). unfold Budget_Release in Ha.
    destruct (n <=? 0) eqn:E0; [injection Ha as <-|
      destruct (n >? used b) eqn:E1; [done|injection Ha as <-]]; bool_to_prop.
    + eapply bsys_inv_replace; eauto; cbn; lia.
    + eapply bsys_inv_replace; eauto; unfold Budget_wf in *; cbn; lia.
Qed.

Lemma bsys_inv_initial s : bsys_initial s -> bsys_inv s.
Proof.
  intros [Hn Hi]. unfold Budget_New in Hn.
  destruct (capacity (bud s) <=? 0) eqn:E; [done|]. bool_to_prop. injection Hn as Hn.
  assert (Hz : forall f : Z -> caller -> Z, (forall t, f t Idle = 0) -> msum f (callers s) = 0).
  { intros f Hf. rewrite <- (msum_zero (callers s)). apply msum_ext.
    intros k a Hk. by rewrite (Hi _ _ Hk). }
  unfold bsys_inv. rewrite !Hz by done. rewrite <- Hn. cbn.
  split; [unfold Budget_wf; cbn; lia|]. split; [done|]. split; [done|].
  intros t c Hc. by rewrite (Hi _ _ Hc).
Qed.

Lemma bsys_inv_reachable s0 s : bsys_initial s0 -> steps bstep s0 s -> bsys_inv s.
Proof.
  intros Hi. apply (steps_invariant bstep bsys_inv); [apply bsys_inv_step|].
  by apply bsys_inv_initial.
Qed.

(** ** Properties *)

(** C17: the hard limit.  In every reachable state, however callers of
    [Acquire], [TryAcquire] and [Release] interleave and are cancelled, the
    bytes callers hold add up to exactly what the budget counts as used, and
    that is within its capacity and its recorded peak; releasing what is held
    never reaches the panic. *)
Theorem budget_hard_limit s0 s :
  bsys_initial s0 -> steps bstep s0 s ->
  used (bud s) = msum held_by (callers s) /\
  0 <= used (bud s) <= capacity (bud s) /\ used (bud s) <= peak (bud s) <= capacity (bud s) /\
  forall t n, callers s !! t = Some (Holding n) -> Budget_Release (Some (bud s)) n <> None.
Proof.
  intros Hi Hs. pose proof (bsys_inv_reachable _ _ Hi Hs) as Hinv.
  pose proof Hinv as ((Hu & Hp & _) & Hh & _).
  split; [done|]. split; [done|]. split; [done|]. intros t n Ht.
  destruct s as [b cs es]. pose proof (held_counted _ _ _ _ _ Hinv Ht) as Hn. cbn in *.
  destruct (n <=? 0); [done|]. by replace (n >? used b) with false by lia.
Qed.

(** No wakeup is lost.  In every reachable state a caller that waits for
    bytes which are available has had its generation closed, so it can run, and
    unless it has been cancelled its next step takes the bytes; and
    the waiter count is the number of waiting callers. *)
Theorem budget_no_lost_wakeup s0 s t n g :
  bsys_initial s0 -> steps bstep s0 s ->
  callers s !! t = Some (Waiting n g) -> n <= capacity (bud s) - used (bud s) ->
  g <> changed (bud s) /\ waiters (bud s) = msum waits (callers s) /\
  (t ∉ ended s ->
   Acquire_wake (bool_decide (t ∈ ended s)) n (bud s) =
     (AcqGranted, set_used (set_waiters (bud s) (waiters (bud s) - 1)) (used (bud s) + n)) /\
   exists s', bstep s s' /\ callers s' !! t = Some (Holding n)).
Proof.
  intros Hi Hs Ht Hn. pose proof (bsys_inv_reachable _ _ Hi Hs) as (_ & _ & Hw & Hok).
  destruct s as [b cs es]. cbn in *. pose proof (Hok _ _ Ht) as (_ & _ & Hg).
  assert (Hne : g <> changed b) by (intros ->; lia).
  split; [done|]. split; [done|]. intros He.
  assert (Ha : Acquire_wake (bool_decide (t ∈ es)) n b =
    (AcqGranted, set_used (set_waiters b (waiters b - 1)) (used b + n))).
  { rewrite bool_decide_false by done. unfold Acquire_wake, Acquire_loop. cbn.
    by replace (n <=? capacity b - used b) with true by lia. }
  split; [done|]. eexists. split; [by eapply step_wake|]. cbn. apply lookup_insert_eq.
Qed.

(** ** Concrete instances *)

(** Two callers of a ten-byte budget: one holds eight bytes while the other
    waits for five, and then the first releases. *)
Definition two_callers : bsys :=
  mkSys (mkBudget 10 0 0 0 0) {[1 := Idle; 2 := Idle]} ∅.
Definition contended : bsys :=
  mkSys (mkBudget 10 0 8 1 1) (<[1 := Idle]> (<[2 := Waiting 5 0]> (<[1 := Holding 8]> {[1 := Idle; 2 := Idle]}))) ∅.

Lemma two_callers_initial : bsys_initial two_callers.
Proof.
  split; [reflexivity|]. intros t c Hc. cbn in Hc.
  apply lookup_insert_Some in Hc as [[_ <-]|[_ Hc]]; [done|].
  by apply lookup_singleton_Some in Hc as [_ <-].
Qed.

Lemma contended_reachable : steps bstep two_callers contended.
Proof.
  eapply steps_cons; [apply (step_enter _ _ _ 1 8); reflexivity|].
  eapply steps_cons; [apply (step_enter _ _ _ 2 5); reflexivity|].
  eapply steps_cons; [apply (step_release _ _ _ 1 8); reflexivity|].
  apply steps_refl.
Qed.

Lemma budget_hard_limit_witness :
  used (bud contended) = msum held_by (callers contended) /\
  0 <= used (bud contended) <= capacity (bud contended) /\
  used (bud contended) <= peak (bud contended) <= capacity (bud contended) /\
  forall t n, callers contended !! t = Some (Holding n) ->
    Budget_Release (Some (bud contended)) n <> None.
Proof.
  apply (budget_hard_limit two_callers contended);
    [apply two_callers_initial|apply contended_reachable].
Defined.

Lemma budget_no_lost_wakeup_witness : 0 <> changed (bud contended).
Proof.
  apply (budget_no_lost_wakeup two_callers contended 2 5 0);
    [apply two_callers_initial|apply contended_reachable|reflexivity|cbn; lia].
Defined.
