(* ===== verification/Reassembly.v ===== *)
(** Ordered reassembly of a striped flow ([internal/multipath/reassembly.go]).

    [Reassembler] is the receive side of one flow: a cursor, the segments held
    out of order, and the sorted index of their start offsets.  [memory] is the
    content of the budget the endpoint shares between flows.  The theorems show
    that the invariant of the index and of the accounting is kept by every
    operation, that what comes out is the stream in order without gaps or
    repetitions whatever order segments arrive in, that the stream comes out
    completely once every chunk has been accepted, and what [ReceivedRanges]
    reports. *)

From S2P Require Import Prelude Memlimit.

Inductive rerror :=
| ErrWindowExceeded
| ErrMemoryBudget
| ErrSequence
| ErrFinPayload
| ErrEmptyData
| ErrCursorOverlap
| ErrConflictingDuplicate
| ErrCursorMismatch
| ErrOverlap
| ErrFinConflict.

Record ReassemblerConfig := mkRConfig {
  MaxBufferedBytes : Z;
  MaxBufferedFrames : Z;
  cfg_Memory : option Budget
}.

Definition Reassembler_DefaultConfig : ReassemblerConfig :=
  mkRConfig (8 * 1024 * 1024) 4096 None.

Record Segment := mkSegment {
  Sequence : Z;
  Payload : bytes;
  Final : bool;
  charged : bool
}.

(** Go's zero [Segment], what indexing a map at a missing key yields. *)
Definition zero_segment : Segment := mkSegment 0 [] false false.

Record Reassembler := mkReassembler {
  r_cfg : ReassemblerConfig;
  next : Z;
  buffer : gmap Z Segment;
  order : list Z;
  r_bytes : Z;
  finalAt : option Z;
  memory : option Budget
}.

Definition NewReassembler (cfg : ReassemblerConfig) : Reassembler :=
  let cfg := if (MaxBufferedBytes cfg =? 0) || (MaxBufferedFrames cfg <=? 0)
             then Reassembler_DefaultConfig else cfg in
  mkReassembler cfg 0 ∅ [] 0 None (cfg_Memory cfg).

Definition NextSequence (r : Reassembler) : Z := next r.
Definition BufferedBytes (r : Reassembler) : Z := r_bytes r.
Definition BufferedFrames (r : Reassembler) : Z := Z.of_nat (size (buffer r)).
Definition BufferedSequences (r : Reassembler) : list Z := [] ++ order r.

Definition Reassembler_Closed (r : Reassembler) : bool :=
  match finalAt r with
  | Some at_ => next r >=? at_
  | None => false
  end.

(** The index [sort.Search] finds in the sorted start offsets. *)
Definition order_search (ord : list Z) (sequence : Z) : nat :=
  sort_Search (length ord) (fun i => match ord !! i with Some x => x >=? sequence | None => true end).

Definition buffered (r : Reassembler) (k : Z) : Segment := default zero_segment (buffer r !! k).

(** The offset one past a segment, a FIN covering nothing. *)
Definition segment_end (s : Segment) : Z :=
  if Final s then Sequence s else Sequence s +u64 len (Payload s).

Definition checkNeighbours (r : Reassembler) (segment : Segment) (stop : Z) : option rerror :=
  let at_ := order_search (order r) (Sequence segment) in
  let previous_overlaps :=
    if (0 <? at_)%nat then
      let previous := buffered r (default 0 (order r !! (at_ - 1)%nat)) in
      Sequence segment <? segment_end previous
    else false in
  if previous_overlaps then Some ErrOverlap
  else if (at_ <? length (order r))%nat then
    let nxt := buffered r (default 0 (order r !! at_)) in
    if Sequence nxt <? stop then Some ErrOverlap
    else if Final segment && (Sequence nxt =? Sequence segment) then Some ErrFinConflict
    else None
  else None.

Definition insertOrder (ord : list Z) (sequence : Z) : list Z :=
  let at_ := order_search ord sequence in
  take at_ ord ++ [sequence] ++ drop at_ ord.

Definition removeOrder (ord : list Z) (sequence : Z) : list Z :=
  let at_ := order_search ord sequence in
  match ord !! at_ with
  | Some x => if x =? sequence then take at_ ord ++ drop (at_ + 1) ord else ord
  | None => ord
  end.

(** What an operation returns: the delivered bytes, whether the stream is
    closed, and the error. *)
Abbreviation insert_result := (bytes * bool * option rerror)%type.

(** The first loop of [consumeContiguous]: how many data segments the chain
    starting at [current] has, and their total size. *)
Fixpoint scan_chain (fuel : nat) (buf : gmap Z Segment) (current : Segment)
    (cursor dataSegments total : Z) : result rerror (Z * Z) :=
  match fuel with
  | O => Ok (dataSegments, total)
  | S fuel' =>
      if negb (Sequence current =? cursor) then Err ErrCursorMismatch
      else if Final current then Ok (dataSegments, total)
      else
        let dataSegments := dataSegments + 1 in
        let total := total + len (Payload current) in
        let cursor := cursor +u64 len (Payload current) in
        match buf !! cursor with
        | None => Ok (dataSegments, total)
        | Some nxt => scan_chain fuel' buf nxt cursor dataSegments total
        end
  end.

(** [copy(output[written:], payload)] and the number of bytes it copied. *)
Definition copy_at (output : bytes) (written : Z) (payload : bytes) : bytes * Z :=
  let w := Z.to_nat written in
  let n := Nat.min (length output - w) (length payload) in
  (take w output ++ take n payload ++ drop (w + n) output, Z.of_nat n).

Definition set_cursor (r : Reassembler) (n : Z) (m : option Budget) : Reassembler :=
  mkReassembler (r_cfg r) n (buffer r) (order r) (r_bytes r) (finalAt r) m.

Definition set_finalAt (r : Reassembler) (at_ : Z) : Reassembler :=
  mkReassembler (r_cfg r) (next r) (buffer r) (order r) (r_bytes r) (Some at_) (memory r).

(** Taking the segment at [k] out of the buffer, its index and its bytes. *)
Definition drop_segment (r : Reassembler) (k : Z) (s : Segment) : Reassembler :=
  mkReassembler (r_cfg r) (next r) (delete k (buffer r)) (removeOrder (order r) k)
    (r_bytes r -u64 len (Payload s)) (finalAt r) (memory r).

(** The second loop of [consumeContiguous].  The outer option is the panic of
    the budget. *)
Fixpoint drain_chain (fuel : nat) (r : Reassembler) (first_seq : Z) (dataSegments : Z)
    (current : Segment) (output : bytes) (written : Z)
    : option (insert_result * Reassembler) :=
  match fuel with
  | O => None
  | S fuel' =>
      if Final current then Some ((output, true, None), set_finalAt r (Sequence current))
      else
        let '(output, written) :=
          if negb (Sequence current =? first_seq) && (dataSegments >? 1)
          then let '(o, n) := copy_at output written (Payload current) in (o, written + n)
          else (output, written) in
        match (if charged current then Budget_Release (memory r) (len (Payload current))
               else Some (memory r)) with
        | None => None
        | Some m =>
            let r := set_cursor r (next r +u64 len (Payload current)) m in
            match buffer r !! next r with
            | None =>
                if Reassembler_Closed r then Some ((output, true, None), r)
                else Some ((output, false, None), r)
            | Some nxt =>
                drain_chain fuel' (drop_segment r (next r) nxt) first_seq dataSegments nxt output written
            end
        end
  end.

(** [consumeContiguous]; the chain is no longer than the buffer, which bounds
    both loops. *)
Definition consumeContiguous (r : Reassembler) (first : Segment)
    : option (insert_result * Reassembler) :=
  if negb (Sequence first =? next r) then Some (([], false, Some ErrCursorMismatch), r)
  else
    match scan_chain (S (size (buffer r))) (buffer r) first (Sequence first) 0 0 with
    | Err e => Some (([], false, Some e), r)
    | Ok (dataSegments, total) =>
        let output :=
          if dataSegments =? 1 then Payload first
          else if dataSegments >? 1
          then fst (copy_at (replicate (Z.to_nat total) 0) 0 (Payload first))
          else [] in
        drain_chain (S (size (buffer r))) r (Sequence first) dataSegments first output
          (len (Payload first))
    end.

Definition Segment_eqb (a b : Segment) : bool :=
  Bool.eqb (Final a) (Final b) && bool_decide (Payload a = Payload b).

(** [insert]; [owned] only decides whether the payload is copied. *)
Definition Reassembler_insert (r : Reassembler) (segment : Segment) (owned : bool)
    : option (insert_result * Reassembler) :=
  let size_ := len (Payload segment) in
  if Final segment && negb (size_ =? 0) then Some (([], false, Some ErrFinPayload), r)
  else if negb (Final segment) && (size_ =? 0) then Some (([], false, Some ErrEmptyData), r)
  else if Sequence segment >? (2 ^ 64 - 1) - size_ then Some (([], false, Some ErrSequence), r)
  else
    let stop := if Final segment then Sequence segment else Sequence segment +u64 size_ in
    if (stop <? next r) || (Final segment && (Sequence segment <? next r)) then
      if stop <=? next r then Some (([], Reassembler_Closed r, None), r)
      else Some (([], false, Some ErrCursorOverlap), r)
    else
      match buffer r !! Sequence segment with
      | Some existing =>
          if Segment_eqb existing segment then Some (([], Reassembler_Closed r, None), r)
          else Some (([], false, Some ErrConflictingDuplicate), r)
      | None =>
          match checkNeighbours r segment stop with
          | Some e => Some (([], false, Some e), r)
          | None =>
              let kept := if owned then Payload segment else [] ++ Payload segment in
              if negb (Sequence segment =? next r) then
                if (wrap 64 (BufferedFrames r + 1) >? wrap 64 (MaxBufferedFrames (r_cfg r)))
                   || (r_bytes r +u64 size_ >? MaxBufferedBytes (r_cfg r))
                then Some (([], false, Some ErrWindowExceeded), r)
                else
                  match Budget_TryAcquire (memory r) size_ with
                  | (false, m) => Some (([], false, Some ErrMemoryBudget), r)
                  | (true, m) =>
                      let s := mkSegment (Sequence segment) kept (Final segment) true in
                      let r := mkReassembler (r_cfg r) (next r) (<[Sequence segment := s]> (buffer r))
                        (insertOrder (order r) (Sequence segment)) (r_bytes r +u64 size_)
                        (if Final segment then Some (Sequence segment) else finalAt r) m in
                      Some (([], Reassembler_Closed r, None), r)
                  end
              else consumeContiguous r (mkSegment (Sequence segment) kept (Final segment) (charged segment))
          end
      end.

Definition Reassembler_Insert (r : Reassembler) (segment : Segment) := Reassembler_insert r segment false.
Definition Reassembler_InsertOwned (r : Reassembler) (segment : Segment) := Reassembler_insert r segment true.

(** The loop of [Close] over the buffered segments, in the order [visit] the map
    is iterated in. *)
Fixpoint release_all (visit : list (Z * Segment)) (m : option Budget) : option (option Budget) :=
  match visit with
  | [] => Some m
  | (_, s) :: rest =>
      match (if charged s then Budget_Release m (len (Payload s)) else Some m) with
      | None => None
      | Some m' => release_all rest m'
      end
  end.

Definition Reassembler_Close (visit : list (Z * Segment)) (r : Reassembler) : option Reassembler :=
  match release_all visit (memory r) with
  | None => None
  | Some m => Some (mkReassembler (r_cfg r) (next r) ∅ [] 0 (finalAt r) m)
  end.

(** The loop of [ReceivedRanges]; [ranges] is newest first, so its head is the
    range being extended. *)
Fixpoint merge_ranges (r : Reassembler) (starts : list Z) (ranges : list (Z * Z)) : list (Z * Z) :=
  match starts with
  | [] => ranges
  | start :: rest =>
      let segment := buffered r start in
      let stop := start +u64 len (Payload segment) in
      if Final segment then merge_ranges r rest ranges
      else
        match ranges with
        | (a, b) :: older =>
            if b =? start then merge_ranges r rest ((a, stop) :: older)
            else merge_ranges r rest ((start, stop) :: ranges)
        | [] => merge_ranges r rest [(start, stop)]
        end
  end.

Definition ReceivedRanges (r : Reassembler) (max : Z) : list (Z * Z) :=
  if (max <=? 0) || (BufferedFrames r =? 0) then []
  else
    let ranges := rev (merge_ranges r (order r) []) in
    if len ranges >? max then take (Z.to_nat max) ranges else ranges.

(** ** The invariant *)

(** A segment as the Go types and the caller allow it: [charged] is private to
    the package. *)
Definition segment_typed (s : Segment) : Prop :=
  in_range 64 (Sequence s) /\ len (Payload s) < 2 ^ 63 /\ charged s = false.

(** A segment that passed the first checks of [insert] and is due at [k]. *)
Definition segment_ok (k : Z) (s : Segment) : Prop :=
  Sequence s = k /\ 0 <= k /\ k + len (Payload s) < 2 ^ 64 /\
  (if Final s then Payload s = [] else Payload s <> []).

Definition config_ok (cfg : ReassemblerConfig) : Prop :=
  0 < MaxBufferedBytes cfg < 2 ^ 63 /\ 0 < MaxBufferedFrames cfg < 2 ^ 63.

Record rinv (r : Reassembler) : Prop := mk_rinv {
  ri_cfg : config_ok (r_cfg r);
  ri_sorted : StronglySorted Z.lt (order r);
  ri_index : forall k, k ∈ order r <-> is_Some (buffer r !! k);
  ri_seg : forall k s, buffer r !! k = Some s -> segment_ok k s /\ charged s = true;
  ri_disjoint : forall k1 s1 k2 s2, buffer r !! k1 = Some s1 -> buffer r !! k2 = Some s2 ->
    k1 < k2 -> k1 + len (Payload s1) <= k2;
  ri_bytes : r_bytes r = msum (fun _ s => len (Payload s)) (buffer r);
  ri_window : r_bytes r <= MaxBufferedBytes (r_cfg r) /\ BufferedFrames r <= MaxBufferedFrames (r_cfg r);
  ri_next : in_range 64 (next r) /\ buffer r !! next r = None;
  ri_memory : budget_covers (memory r) (r_bytes r)
}.

(** ** Lemmas on the index *)

(** [order_search] splits the index at the given offset. *)
Lemma order_search_spec ord s :
  StronglySorted Z.lt ord ->
  (order_search ord s <= length ord)%nat /\
  Forall (fun x => x < s) (take (order_search ord s) ord) /\
  Forall (fun x => s <= x) (drop (order_search ord s) ord).
Proof.
  intros Hs. unfold order_search.
  match goal with |- context [sort_Search ?n ?g] => set (f := g) end.
  destruct (sort_Search_spec (length ord) f) as (Hn & Hlo & Hhi).
  { intros a b Hab Ha. unfold f in *.
    destruct (ord !! b) as [y|] eqn:Eb; [|done].
    destruct (decide (a = b)) as [->|]; [by rewrite Eb in Ha|].
    destruct (ord !! a) as [x|] eqn:Ea.
    - pose proof (StronglySorted_lookup Z.lt ord a b x y Hs ltac:(lia) Ea Eb). lia.
    - apply lookup_lt_Some in Eb. apply lookup_ge_None in Ea. lia. }
  split; [done|]. split; apply Forall_lookup; intros i x Hx.
  - apply lookup_take_Some in Hx as [Hx Hi]. specialize (Hlo i Hi). unfold f in Hlo.
    rewrite Hx in Hlo. lia.
  - rewrite lookup_drop in Hx. pose proof (lookup_lt_Some _ _ _ Hx).
    specialize (Hhi (sort_Search (length ord) f + i)%nat ltac:(lia)). unfold f in Hhi at 1.
    rewrite Hx in Hhi. lia.
Qed.

Lemma insertOrder_elem ord s k : k ∈ insertOrder ord s <-> k = s \/ k ∈ ord.
Proof.
  unfold insertOrder. rewrite !elem_of_app, list_elem_of_singleton.
  assert (Hk : k ∈ ord <-> k ∈ take (order_search ord s) ord \/ k ∈ drop (order_search ord s) ord)
    by (by rewrite <- elem_of_app, take_drop).
  tauto.
Qed.

Lemma insertOrder_sorted ord s :
  StronglySorted Z.lt ord -> s ∉ ord -> StronglySorted Z.lt (insertOrder ord s).
Proof.
  intros Hs Hn. unfold insertOrder.
  destruct (order_search_spec ord s Hs) as (_ & Hlo & Hhi).
  set (at_ := order_search ord s) in *.
  assert (Ht : StronglySorted Z.lt (take at_ ord)).
  { eapply StronglySorted_sublist; [apply sublist_take|done]. }
  assert (Hd : StronglySorted Z.lt (drop at_ ord)).
  { eapply StronglySorted_sublist; [apply sublist_drop|done]. }
  rewrite Forall_forall in Hlo, Hhi.
  assert (Hgt : forall y, y ∈ drop at_ ord -> s < y).
  { intros y Hy. specialize (Hhi y Hy). cbn in Hhi. destruct (decide (y = s)) as [->|]; [|lia].
    exfalso. apply Hn. rewrite <- (take_drop at_ ord). apply elem_of_app. by right. }
  apply StronglySorted_app_2; [|done|].
  2:{ cbn. constructor; [done|]. by apply Forall_forall. }
  intros x y Hx Hy. cbn in Hy. apply elem_of_cons in Hy as [->|Hy]; [by apply Hlo|].
  specialize (Hlo x Hx). specialize (Hgt y Hy). cbn in *. lia.
Qed.

(** Removing a start offset from a sorted index. *)
Lemma removeOrder_spec ord s :
  StronglySorted Z.lt ord -> s ∈ ord ->
  StronglySorted Z.lt (removeOrder ord s) /\ forall k, k ∈ removeOrder ord s <-> k ∈ ord /\ k <> s.
Proof.
  intros Hs Hin. unfold removeOrder.
  destruct (order_search_spec ord s Hs) as (Hn & Hlo & Hhi).
  set (at_ := order_search ord s) in *. rewrite Forall_forall in Hlo, Hhi.
  assert (Hd : exists rest, drop at_ ord = s :: rest /\ forall y, y ∈ rest -> s < y).
  { rewrite <- (take_drop at_ ord) in Hin. apply elem_of_app in Hin as [Hin|Hin].
    { specialize (Hlo s Hin). cbn in Hlo. lia. }
    assert (Hds : StronglySorted Z.lt (drop at_ ord)).
    { eapply StronglySorted_sublist; [apply sublist_drop|done]. }
    destruct (drop at_ ord) as [|a rest] eqn:Ed; [by apply elem_of_nil in Hin|].
    inversion_clear Hds as [|? ? Hr Ha]. rewrite Forall_forall in Ha.
    apply elem_of_cons in Hin as [<-|Hin]; [by eauto|].
    pose proof (Ha s Hin). pose proof (Hhi a ltac:(by constructor)). cbn in *. lia. }
  destruct Hd as (rest & Hd & Hrest).
  assert (Hat : ord !! at_ = Some s).
  { rewrite <- (Nat.add_0_r at_), <- lookup_drop, Hd. done. }
  rewrite Hat, Z.eqb_refl.
  assert (Hord : ord = take at_ ord ++ s :: rest) by (by rewrite <- Hd, take_drop).
  assert (Hdr : drop (at_ + 1) ord = rest) by (by rewrite <- drop_drop, Hd).
  rewrite Hdr. split.
  - eapply StronglySorted_sublist; [|exact Hs]. rewrite Hord at 2.
    apply sublist_app; [done|]. by apply sublist_cons.
  - intros k. rewrite Hord at 2. rewrite !elem_of_app, elem_of_cons. split.
    + intros [Hk|Hk].
      * specialize (Hlo k Hk). cbn in Hlo. split; [by left|lia].
      * specialize (Hrest k Hk). split; [by right; right|lia].
    + tauto.
Qed.

(** ** Lemmas on the buffer *)

Lemma segment_end_ok k s : segment_ok k s -> segment_end s = k + len (Payload s).
Proof.
  intros (<- & H0 & H1 & Hf). unfold segment_end. destruct (Final s).
  - rewrite Hf, len_nil. lia.
  - apply wrap_small. pose proof (len_nonneg (Payload s)). lia.
Qed.

Lemma buffered_lookup r k s : buffer r !! k = Some s -> buffered r k = s.
Proof. unfold buffered. by intros ->. Qed.

(** Only the neighbours of the insertion point can overlap: passing the check
    against them is passing it against every buffered segment. *)
Lemma checkNeighbours_spec r s stop :
  rinv r -> buffer r !! Sequence s = None -> checkNeighbours r s stop = None ->
  forall k t, buffer r !! k = Some t ->
    (k < Sequence s -> k + len (Payload t) <= Sequence s) /\ (Sequence s < k -> stop <= k).
Proof.
  intros Hr Hs Hc k t Hk. unfold checkNeighbours in Hc.
  destruct (order_search_spec (order r) (Sequence s) (ri_sorted r Hr)) as (Hn & Hlo & Hhi).
  set (at_ := order_search (order r) (Sequence s)) in *.
  rewrite Forall_lookup in Hlo, Hhi.
  assert (Hidx : exists i, order r !! i = Some k).
  { apply list_elem_of_lookup, (ri_index r Hr). by eexists. }
  destruct Hidx as [i Hi].
  assert (Hbuf : forall j q, order r !! j = Some q -> exists u, buffer r !! q = Some u /\ buffered r q = u).
  { intros j q Hj. destruct (proj1 (ri_index r Hr q)) as [u Hu].
    { by eapply list_elem_of_lookup_2. } exists u. split; [done|by apply buffered_lookup]. }
  split; intros Hlt.
  - assert (Hia : (i < at_)%nat).
    { destruct (decide (i < at_)%nat); [done|]. specialize (Hhi (i - at_)%nat k).
      rewrite lookup_drop in Hhi. replace (at_ + (i - at_))%nat with i in Hhi by lia.
      specialize (Hhi Hi). cbn in Hhi. lia. }
    replace (0 <? at_)%nat with true in Hc by (symmetry; apply Nat.ltb_lt; lia).
    destruct (lookup_lt_is_Some_2 (order r) (at_ - 1)) as [q Hq]; [lia|].
    destruct (Hbuf _ _ Hq) as (u & Hu & Hbu). rewrite Hq in Hc. change (default 0 (Some q)) with q in Hc.
    rewrite Hbu in Hc. destruct (ri_seg r Hr q u Hu) as [Huok _].
    rewrite (segment_end_ok q u Huok) in Hc.
    destruct (Sequence s <? _) eqn:Eo; [done|]. bool_to_prop.
    destruct (decide (i = at_ - 1)%nat) as [->|Hne].
    { rewrite Hq in Hi. injection Hi as ->. rewrite Hu in Hk. injection Hk as ->. lia. }
    pose proof (StronglySorted_lookup Z.lt _ i (at_ - 1) _ _ (ri_sorted r Hr) ltac:(lia) Hi Hq) as Hkq.
    pose proof (ri_disjoint r Hr k t q u Hk Hu Hkq).
    pose proof (len_nonneg (Payload u)). lia.
  - destruct (if (0 <? at_)%nat then _ else false); [done|].
    assert (Hia : (at_ <= i)%nat).
    { destruct (decide (at_ <= i)%nat); [done|]. specialize (Hlo i k).
      rewrite lookup_take_lt in Hlo by lia. specialize (Hlo Hi). cbn in Hlo. lia. }
    pose proof (lookup_lt_Some _ _ _ Hi) as Hil.
    replace (at_ <? length (order r))%nat with true in Hc by (symmetry; apply Nat.ltb_lt; lia).
    destruct (lookup_lt_is_Some_2 (order r) at_) as [q Hq]; [lia|].
    destruct (Hbuf _ _ Hq) as (u & Hu & Hbu). rewrite Hq in Hc. change (default 0 (Some q)) with q in Hc.
    rewrite Hbu in Hc. destruct (ri_seg r Hr q u Hu) as [(Hsq & _) _].
    rewrite Hsq in Hc. destruct (q <? stop) eqn:Eo; [done|]. bool_to_prop.
    destruct (decide (i = at_)) as [->|Hne].
    { rewrite Hq in Hi. injection Hi as ->. lia. }
    pose proof (StronglySorted_lookup Z.lt _ at_ i _ _ (ri_sorted r Hr) ltac:(lia) Hq Hi). lia.
Qed.

Lemma payload_len_nonneg (_ : Z) (s : Segment) : 0 <= len (Payload s).
Proof. apply len_nonneg. Qed.

(** Buffering a segment that passed every check keeps the invariant. *)
Lemma rinv_buffer r seq p fin fa m :
  rinv r -> segment_ok seq (mkSegment seq p fin true) -> seq <> next r ->
  buffer r !! seq = None ->
  (forall k t, buffer r !! k = Some t ->
    (k < seq -> k + len (Payload t) <= seq) /\ (seq < k -> seq + len p <= k)) ->
  r_bytes r + len p <= MaxBufferedBytes (r_cfg r) ->
  BufferedFrames r + 1 <= MaxBufferedFrames (r_cfg r) ->
  budget_covers m (r_bytes r + len p) ->
  rinv (mkReassembler (r_cfg r) (next r) (<[seq := mkSegment seq p fin true]> (buffer r))
    (insertOrder (order r) seq) (r_bytes r + len p) fa m).
Proof.
  intros Hr Hok Hne Hnone Hdis Hb Hf Hm.
  assert (Hnin : seq ∉ order r).
  { rewrite (ri_index r Hr), Hnone. by intros [? ?]. }
  split; cbn [r_cfg next buffer order r_bytes finalAt memory].
  - apply (ri_cfg r Hr).
  - apply insertOrder_sorted; [apply (ri_sorted r Hr)|done].
  - intros k. rewrite insertOrder_elem, (ri_index r Hr), lookup_insert_is_Some'.
    split; intros [H|H]; auto.
  - intros k s Hk. apply lookup_insert_Some in Hk as [[<- <-]|[_ Hk]]; [done|].
    by apply (ri_seg r Hr).
  - intros k1 s1 k2 s2 H1 H2 Hlt.
    apply lookup_insert_Some in H1 as [[<- <-]|[Hk1 H1]];
      apply lookup_insert_Some in H2 as [[<- <-]|[Hk2 H2]]; cbn [Payload].
    + lia.
    + by apply (Hdis k2 s2 H2).
    + by apply (Hdis k1 s1 H1).
    + by apply (ri_disjoint r Hr k1 s1 k2 s2).
  - rewrite msum_insert by done. cbn. rewrite (ri_bytes r Hr). lia.
  - split; [done|]. unfold BufferedFrames in *. cbn. rewrite map_size_insert_None by done. lia.
  - split; [apply (ri_next r Hr)|]. rewrite lookup_insert_ne by done. apply (ri_next r Hr).
  - done.
Qed.

(** Taking a segment out of the buffer keeps the invariant. *)
Lemma rinv_drop r k s :
  rinv r -> buffer r !! k = Some s -> rinv (drop_segment r k s).
Proof.
  intros Hr Hk. pose proof (len_nonneg (Payload s)) as Hl.
  assert (Hin : k ∈ order r) by (apply (ri_index r Hr); by eexists).
  destruct (removeOrder_spec (order r) k (ri_sorted r Hr) Hin) as [Hs He].
  pose proof (msum_delete (fun _ t => len (Payload t)) (buffer r) k s Hk) as Hsum.
  pose proof (msum_nonneg (fun _ t => len (Payload t)) (delete k (buffer r))
    (fun k t _ => len_nonneg (Payload t))) as Hpos.
  cbn beta in Hsum. pose proof (ri_bytes r Hr) as Hb. pose proof (ri_cfg r Hr) as [Hc _].
  pose proof (ri_window r Hr) as [Hw Hf].
  assert (Hbytes : r_bytes r -u64 len (Payload s) = r_bytes r - len (Payload s))
    by (apply wrap_small; pow2_eval; lia).
  split; unfold drop_segment; cbn [r_cfg next buffer order r_bytes finalAt memory]; rewrite ?Hbytes.
  - apply (ri_cfg r Hr).
  - done.
  - intros k'. rewrite He, (ri_index r Hr), lookup_delete_is_Some.
    split; intros [? ?]; split; congruence || done.
  - intros k' s' Hk'. apply lookup_delete_Some in Hk' as [_ Hk']. by apply (ri_seg r Hr).
  - intros k1 s1 k2 s2 H1 H2. apply lookup_delete_Some in H1 as [_ H1].
    apply lookup_delete_Some in H2 as [_ H2]. by apply (ri_disjoint r Hr k1 s1 k2 s2).
  - lia.
  - split; [lia|]. unfold BufferedFrames in *. cbn.
    rewrite map_size_delete, Hk. cbn. lia.
  - split; [apply (ri_next r Hr)|]. rewrite lookup_delete_None. right. apply (ri_next r Hr).
  - pose proof (ri_memory r Hr) as Hm. destruct (memory r); cbn in *; [|done].
    split; [apply Hm|]. destruct Hm. lia.
Qed.

(** ** Lemmas on the contiguous chain *)

(** The payloads of the data segments that follow each other without a gap from
    [cur] on. *)
Fixpoint chain (fuel : nat) (buf : gmap Z Segment) (cur : Segment) : list bytes :=
  match fuel with
  | O => []
  | S fuel' =>
      if Final cur then []
      else Payload cur ::
        match buf !! (Sequence cur +u64 len (Payload cur)) with
        | None => []
        | Some nxt => chain fuel' buf nxt
        end
  end.

(** Every buffered segment sits at its own start offset. *)
Definition buf_ok (buf : gmap Z Segment) : Prop :=
  forall k s, buf !! k = Some s -> segment_ok k s.

Lemma rinv_buf_ok r : rinv r -> buf_ok (buffer r).
Proof. intros Hr k s Hk. by apply (ri_seg r Hr). Qed.

Lemma data_end_wrap s k : segment_ok k s -> k +u64 len (Payload s) = k + len (Payload s).
Proof. intros (_ & H0 & H1 & _). apply wrap_small. pose proof (len_nonneg (Payload s)). lia. Qed.

Lemma data_nonempty s k : segment_ok k s -> Final s = false -> 0 < len (Payload s).
Proof.
  intros (_ & _ & _ & Hf) Hd. rewrite Hd in Hf. destruct (Payload s); [done|].
  rewrite len_cons. pose proof (len_nonneg l). lia.
Qed.

(** The chain from a segment only looks at later offsets. *)
Lemma chain_delete fuel buf cur k :
  buf_ok buf -> segment_ok (Sequence cur) cur -> k <= Sequence cur ->
  chain fuel (delete k buf) cur = chain fuel buf cur.
Proof.
  intros Hbuf. revert cur. induction fuel as [|fuel IH]; intros cur Hok Hk; [done|]. cbn.
  destruct (Final cur) eqn:Ef; [done|]. f_equal.
  rewrite (data_end_wrap _ _ Hok). pose proof (data_nonempty _ _ Hok Ef).
  rewrite lookup_delete_ne by lia.
  destruct (buf !! _) as [nxt|] eqn:En; [|done].
  pose proof (Hbuf _ _ En) as Hn. pose proof Hn as (Hs & _). apply IH; [by rewrite Hs|lia].
Qed.

(** The first loop counts the chain. *)
Lemma scan_chain_spec fuel buf cur n t :
  buf_ok buf -> segment_ok (Sequence cur) cur ->
  scan_chain fuel buf cur (Sequence cur) n t =
  Ok (n + len (chain fuel buf cur), t + len (concat (chain fuel buf cur))).
Proof.
  intros Hbuf. revert cur n t. induction fuel as [|fuel IH]; intros cur n t Hok; cbn.
  { by rewrite !len_nil, !Z.add_0_r. }
  rewrite Z.eqb_refl. cbn. destruct (Final cur); [by rewrite !len_nil, !Z.add_0_r|].
  destruct (buf !! _) as [nxt|] eqn:En.
  - pose proof (Hbuf _ _ En) as Hn. pose proof Hn as (Hs & _). rewrite <- Hs.
    rewrite IH by (by rewrite Hs). cbn. rewrite len_cons, len_app. do 2 f_equal; lia.
  - cbn. rewrite app_nil_r. change (len [Payload cur]) with 1. done.
Qed.

Lemma copy_at_spec (out : bytes) w p rest :
  0 <= w -> len out = w + len p + rest -> 0 <= rest ->
  copy_at out w p = (take (Z.to_nat w) out ++ p ++ drop (Z.to_nat (w + len p)) out, len p).
Proof.
  intros Hw Hl Hr. unfold copy_at, len in *.
  replace ((length out - Z.to_nat w) `min` length p)%nat with (length p) by lia.
  rewrite firstn_all, Z2Nat.inj_add, Nat2Z.id by lia. done.
Qed.

(** What draining the chain from [cur] does to the reassembler, when [cur] has
    already left the buffer. *)
Record drained (r : Reassembler) (cur : Segment) (payloads : list bytes) (r' : Reassembler)
    : Prop := mk_drained {
  dr_inv : rinv r';
  dr_next : next r' = next r + len (concat payloads);
  dr_buffer : forall k s, buffer r !! k = Some s ->
    buffer r' !! k = Some s \/ k + len (Payload s) <= next r';
  dr_kept : forall k s, buffer r' !! k = Some s -> buffer r !! k = Some s;
  dr_cur : Sequence cur + len (Payload cur) <= next r';
  dr_fin : finalAt r' = finalAt r \/ exists s, Final s = true /\
    (s = cur \/ buffer r !! Sequence s = Some s) /\ finalAt r' = Some (Sequence s);
  dr_cur_fin : Final cur = true -> finalAt r' = Some (Sequence cur);
  dr_cfg : r_cfg r' = r_cfg r
}.

Lemma rinv_set_cursor r n m :
  rinv r -> in_range 64 n -> buffer r !! n = None -> budget_covers m (r_bytes r) ->
  rinv (set_cursor r n m).
Proof.
  intros Hr Hn Hb Hm. split; cbn; try apply Hr; done.
Qed.

Lemma rinv_set_finalAt r a : rinv r -> rinv (set_finalAt r a).
Proof. intros Hr. split; cbn; apply Hr. Qed.

(** One turn of the second loop's copying: [tl] is what the rest of the chain
    delivers. *)
Lemma copy_step (isfirst : bool) n (p : bytes) (out : bytes) w (tl : bytes) :
  0 <= w -> (1 < n -> len out = w + len (if isfirst then tl else p ++ tl)) ->
  exists out1 w1,
    (if negb isfirst && (n >? 1)
     then let '(o, c) := copy_at out w p in (o, w + c) else (out, w)) = (out1, w1) /\
    0 <= w1 /\ (1 < n -> len out1 = w1 + len tl) /\
    (if n >? 1 then take (Z.to_nat w1) out1 ++ tl else out1) =
    (if n >? 1 then take (Z.to_nat w) out ++ (if isfirst then tl else p ++ tl) else out).
Proof.
  intros Hw Hout. destruct isfirst; cbn [negb andb]; [by exists out, w|].
  destruct (n >? 1) eqn:En; bool_to_prop; [|exists out, w; repeat split; done || lia].
  specialize (Hout En). rewrite len_app in Hout.
  rewrite (copy_at_spec out w p (len tl) Hw ltac:(lia) (len_nonneg tl)).
  eexists _, _. split; [reflexivity|]. pose proof (len_nonneg p). split; [lia|]. split.
  - intros _. rewrite !len_app. unfold len in *. rewrite length_take, length_drop. lia.
  - rewrite (app_assoc (take _ _)), take_app_length', <- app_assoc; [done|].
    rewrite length_app, length_take. unfold len in *. lia.
Qed.

Lemma drained_final r cur :
  rinv r -> segment_ok (next r) cur -> Final cur = true ->
  drained r cur [] (set_finalAt r (Sequence cur)) /\
  Reassembler_Closed (set_finalAt r (Sequence cur)) = true.
Proof.
  intros Hr (Hseq & _ & _ & Hfin) Ef. rewrite Ef in Hfin. split.
  - split; cbn [finalAt set_finalAt next buffer r_cfg concat]; try by eauto.
    + by apply rinv_set_finalAt.
    + rewrite len_nil. lia.
    + rewrite Hfin, len_nil. lia.
    + right. exists cur. auto.
  - unfold Reassembler_Closed. cbn. lia.
Qed.

Lemma drained_stop r cur m :
  rinv r -> segment_ok (next r) cur -> Final cur = false ->
  budget_covers m (r_bytes r) -> buffer r !! (next r + len (Payload cur)) = None ->
  drained r cur [Payload cur] (set_cursor r (next r + len (Payload cur)) m).
Proof.
  intros Hr (Hseq & H0 & Hend & _) Ef Hm Hb.
  split; cbn [finalAt set_cursor next buffer r_cfg concat]; try by eauto.
  - apply rinv_set_cursor; try done. pose proof (len_nonneg (Payload cur)). split; lia.
  - by rewrite app_nil_r.
  - lia.
  - by rewrite Ef.
Qed.

(** Moving on to the buffered segment at the new cursor. *)
Definition advance (r : Reassembler) (n : Z) (m : option Budget) (nxt : Segment) : Reassembler :=
  set_cursor (drop_segment r n nxt) n m.

Lemma advance_inv r n m nxt :
  rinv r -> in_range 64 n -> buffer r !! n = Some nxt -> budget_covers m (r_bytes r) ->
  rinv (advance r n m nxt) /\ r_bytes (advance r n m nxt) + len (Payload nxt) = r_bytes r /\
  (S (size (buffer (advance r n m nxt))) = size (buffer r))%nat.
Proof.
  intros Hr Hn Hb Hm. pose proof (rinv_drop r n nxt Hr Hb) as Hd.
  pose proof (len_nonneg (Payload nxt)) as Hl.
  assert (He : r_bytes (drop_segment r n nxt) + len (Payload nxt) = r_bytes r).
  { rewrite (ri_bytes _ Hd), (ri_bytes r Hr), (msum_delete _ (buffer r) _ _ Hb). cbn. lia. }
  split; [|split; [done|]].
  - apply rinv_set_cursor; [done|done|apply lookup_delete_eq|].
    rewrite <- He in Hm. destruct m; [|done]. destruct Hm. split; [done|lia].
  - cbn. rewrite map_size_delete, Hb. cbn.
    pose proof (map_size_ne_0_lookup_2 (buffer r) n ltac:(by eexists)). lia.
Qed.

Lemma drained_advance r cur m nxt ps r' :
  segment_ok (next r) cur -> buffer r !! (next r + len (Payload cur)) = Some nxt ->
  segment_ok (next r + len (Payload cur)) nxt ->
  Final cur = false -> drained (advance r (next r + len (Payload cur)) m nxt) nxt ps r' ->
  drained r cur (Payload cur :: ps) r'.
Proof.
  intros (Hseq & _) Hb (Hns & _) Hdata [Hi Hn Hbuf Hk Hc Hf Hcf Hg]. cbn [advance set_cursor drop_segment next buffer finalAt r_cfg] in *.
  pose proof (len_nonneg (Payload nxt)). split; try done.
  - cbn [concat]. rewrite len_app. lia.
  - intros k s Hs. destruct (decide (k = next r + len (Payload cur))) as [->|Hne].
    + right. rewrite Hb in Hs. injection Hs as <-. lia.
    + apply Hbuf. by rewrite lookup_delete_ne by done.
  - intros k s Hs. apply Hk in Hs. by apply lookup_delete_Some in Hs as [_ ?].
  - lia.
  - destruct Hf as [Hf|(s & Hs1 & Hs2 & Hs3)]; [by left|]. right. exists s. split; [done|].
    split; [|done]. destruct Hs2 as [->|Hs2]; [right; by rewrite Hns|].
    apply lookup_delete_Some in Hs2 as [_ ?]. by right.
  - by rewrite Hdata.
Qed.

(** The two loops see the same chain: draining delivers it, advances the cursor
    past it, and only removes what it passes. *)
Lemma drain_chain_spec fuel : forall r first n cur out w,
  rinv r -> segment_ok (next r) cur -> first <= next r ->
  budget_covers (memory r) (r_bytes r + if charged cur then len (Payload cur) else 0) ->
  (size (buffer r) < fuel)%nat -> 0 <= w ->
  let ps := chain fuel (buffer r) cur in
  let rest := if next r =? first then tail ps else ps in
  (1 < n -> len out = w + len (concat rest)) ->
  exists r', drain_chain fuel r first n cur out w =
    Some ((if n >? 1 then take (Z.to_nat w) out ++ concat rest else out,
           Reassembler_Closed r', None), r') /\ drained r cur ps r'.
Proof.
  induction fuel as [|fuel IH]; intros r first n cur out w Hr Hok Hfst Hm Hsz Hw ps rest Hout; [lia|].
  pose proof Hok as (Hseq & H0 & Hend & _). cbn [drain_chain].
  destruct (Final cur) eqn:Ef.
  { assert (Hps : ps = []) by (subst ps; cbn; by rewrite Ef).
    destruct (drained_final r cur Hr Hok Ef) as [Hd Hc]. eexists. rewrite Hc, Hps. split; [|done].
    assert (Hrest : rest = []) by (subst rest; rewrite Hps; by destruct (_ =? _)).
    rewrite Hrest in Hout |- *. rewrite app_nil_r. do 4 f_equal.
    destruct (n >? 1) eqn:En; [|done]. rewrite take_ge; [done|].
    change (len (concat [])) with 0 in Hout. unfold len in Hout. lia. }
  pose proof (data_nonempty _ _ Hok Ef) as Hl.
  set (tl := match buffer r !! (next r + len (Payload cur)) with
    | None => [] | Some nxt => chain fuel (buffer r) nxt end).
  assert (Hps : ps = Payload cur :: tl).
  { subst ps. cbn. by rewrite Ef, Hseq, (data_end_wrap _ _ Hok). }
  assert (Hrest : concat rest = if next r =? first then concat tl else Payload cur ++ concat tl).
  { subst rest. rewrite Hps. by destruct (_ =? _). }
  rewrite Hrest in Hout |- *.
  destruct (copy_step (next r =? first) n (Payload cur) out w (concat tl) Hw Hout)
    as (out1 & w1 & Hcp & Hw1 & Hout1 & Hfin).
  rewrite Hseq, Hcp, <- Hfin.
  assert (Hrel : exists m, (if charged cur then Budget_Release (memory r) (len (Payload cur))
    else Some (memory r)) = Some m /\ budget_covers m (r_bytes r)).
  { destruct (charged cur); [|rewrite Z.add_0_r in Hm; by eauto].
    apply Budget_Release_covers; [by rewrite Z.add_comm|lia|].
    rewrite (ri_bytes r Hr). apply msum_nonneg. intros ? s ?. apply len_nonneg. }
  destruct Hrel as (m & -> & Hm1). cbn [buffer next set_cursor].
  rewrite (data_end_wrap _ _ Hok), Hps. subst tl.
  destruct (buffer r !! (next r + len (Payload cur))) as [nxt|] eqn:En.
  - pose proof (ri_seg r Hr _ _ En) as [Hnok Hnc].
    destruct (advance_inv r (next r + len (Payload cur)) m nxt Hr ltac:(split; lia) En Hm1) as (Hr1 & Hb1 & Hs1).
    change (drop_segment (set_cursor r ?n m) ?n nxt) with (advance r n m nxt).
    assert (Hch : chain fuel (buffer (advance r (next r + len (Payload cur)) m nxt)) nxt =
                  chain fuel (buffer r) nxt).
    { cbn. pose proof Hnok as (Hns & _).
      apply chain_delete; [by apply rinv_buf_ok|by rewrite Hns|lia]. }
    assert (Hnf : (next (advance r (next r + len (Payload cur)) m nxt) =? first) = false) by (cbn; lia).
    destruct (IH (advance r (next r + len (Payload cur)) m nxt) first n nxt out1 w1) as (r' & He & Hdr);
      try done.
    + cbn. lia.
    + by rewrite Hnc, Hb1.
    + lia.
    + intros H1. rewrite Hch, Hnf. by apply Hout1.
    + exists r'. rewrite He, Hnf, Hch in *.
      split; [done|]. by eapply drained_advance.
  - rewrite app_nil_r in *. eexists. split; [|by apply drained_stop].
    destruct (Reassembler_Closed _); do 4 f_equal; (destruct (n >? 1) eqn:E1; [|done]);
      rewrite take_ge; try done; change (len (concat [])) with 0 in Hout1; unfold len in Hout1; lia.
Qed.

(** What is delivered when [first] is accepted at the cursor. *)
Definition delivery (r : Reassembler) (first : Segment) : list bytes :=
  chain (S (size (buffer r))) (buffer r) first.

Lemma consumeContiguous_spec r first :
  rinv r -> segment_ok (next r) first -> charged first = false ->
  exists r', consumeContiguous r first =
    Some ((concat (delivery r first), Reassembler_Closed r', None), r') /\
    drained r first (delivery r first) r'.
Proof.
  intros Hr Hok Hc. pose proof Hok as (Hseq & _). unfold consumeContiguous.
  replace (Sequence first =? next r) with true by lia. cbn [negb].
  rewrite scan_chain_spec by (by apply rinv_buf_ok || by rewrite Hseq). cbn beta iota.
  rewrite !Z.add_0_l. fold (delivery r first). set (ps := delivery r first).
  match goal with |- context [drain_chain _ _ _ _ _ ?o _] => set (out := o) end.
  assert (Hps : ps = [] \/ ps = Payload first :: tail ps).
  { subst ps. unfold delivery. cbn. destruct (Final first); auto. }
  pose proof (len_nonneg (Payload first)) as Hl.
  assert (Hout : 1 < len ps -> len out = len (Payload first) + len (concat (tail ps)) /\
    take (length (Payload first)) out = Payload first).
  { intros H1. destruct Hps as [Hps|Hps]; [rewrite Hps, len_nil in H1; lia|].
    pose proof (len_nonneg (concat (tail ps))) as Ht. subst out.
    replace (len ps =? 1) with false by lia. replace (len ps >? 1) with true by lia.
    rewrite (copy_at_spec _ 0 (Payload first) (len (concat (tail ps)))); [|lia| |lia]; cbn [fst].
    - rewrite take_0. cbn [app]. rewrite len_app, take_app_length. unfold len.
      rewrite length_drop, length_replicate. split; [|done]. unfold len in *. rewrite Hps.
      cbn [concat]. rewrite length_app. cbn [tail]. lia.
    - rewrite Hps at 1. cbn [concat]. rewrite len_app. unfold len at 1. rewrite length_replicate.
      unfold len in *. lia. }
  destruct (drain_chain_spec (S (size (buffer r))) r (Sequence first) (len ps) first out (len (Payload first)))
    as (r' & He & Hd); try done.
  - lia.
  - rewrite Hc, Z.add_0_r. apply Hr.
  - lia.
  - replace (next r =? Sequence first) with true by lia. fold (delivery r first). intros H1.
    by apply Hout.
  - exists r'. split; [|done]. rewrite He. do 4 f_equal.
    replace (next r =? Sequence first) with true by lia. fold (delivery r first). fold ps.
    destruct (len ps >? 1) eqn:E; bool_to_prop.
    + unfold len at 1. rewrite Nat2Z.id. destruct (Hout E) as [_ ->].
      destruct Hps as [Hps|Hps]; [rewrite Hps, len_nil in E; lia|]. by rewrite Hps at 2.
    + subst out. destruct Hps as [->|Hps]; [done|]. rewrite Hps in E |- *. rewrite len_cons in E |- *.
      pose proof (len_nonneg (tail ps)). rewrite (len_zero_nil (tail ps)) by lia. cbn.
      by rewrite app_nil_r.
Qed.

(** ** The outcomes of [insert] *)

Definition buffer_segment (r : Reassembler) (seg : Segment) (m : option Budget) : Reassembler :=
  mkReassembler (r_cfg r) (next r)
    (<[Sequence seg := mkSegment (Sequence seg) (Payload seg) (Final seg) true]> (buffer r))
    (insertOrder (order r) (Sequence seg)) (r_bytes r + len (Payload seg))
    (if Final seg then Some (Sequence seg) else finalAt r) m.

Inductive inserted (r : Reassembler) (seg : Segment) : insert_result -> Reassembler -> Prop :=
| ins_rejected e : inserted r seg ([], false, Some e) r
| ins_old : Sequence seg + len (Payload seg) < next r ->
    inserted r seg ([], Reassembler_Closed r, None) r
| ins_duplicate t : buffer r !! Sequence seg = Some t -> Final t = Final seg ->
    Payload t = Payload seg -> inserted r seg ([], Reassembler_Closed r, None) r
| ins_buffered m : Sequence seg <> next r -> buffer r !! Sequence seg = None ->
    rinv (buffer_segment r seg m) ->
    inserted r seg ([], Reassembler_Closed (buffer_segment r seg m), None) (buffer_segment r seg m)
| ins_delivered r' : Sequence seg = next r -> segment_ok (Sequence seg) seg ->
    drained r seg (delivery r seg) r' ->
    inserted r seg (concat (delivery r seg), Reassembler_Closed r', None) r'.

Lemma insert_buffers r seg m :
  rinv r -> segment_ok (Sequence seg) seg -> Sequence seg <> next r -> buffer r !! Sequence seg = None ->
  checkNeighbours r seg (Sequence seg + len (Payload seg)) = None ->
  wrap 64 (BufferedFrames r + 1) <= wrap 64 (MaxBufferedFrames (r_cfg r)) ->
  r_bytes r +u64 len (Payload seg) <= MaxBufferedBytes (r_cfg r) -> len (Payload seg) < 2 ^ 63 ->
  Budget_TryAcquire (memory r) (len (Payload seg)) = (true, m) ->
  rinv (buffer_segment r seg m) /\
  r_bytes r +u64 len (Payload seg) = r_bytes r + len (Payload seg).
Proof.
  intros Hr Hok Hne Hnone Hcn Hf Hb Hl Ht. pose proof (ri_cfg r Hr) as [Hc1 Hc2].
  pose proof (ri_window r Hr) as [Hw1 Hw2]. pose proof (len_nonneg (Payload seg)) as Hp.
  assert (Hbp : 0 <= r_bytes r).
  { rewrite (ri_bytes r Hr). apply msum_nonneg. intros ? s ?. apply len_nonneg. }
  assert (Hw : r_bytes r +u64 len (Payload seg) = r_bytes r + len (Payload seg))
    by (apply wrap_small; pow2_eval; lia).
  split; [|done]. rewrite Hw in Hb.
  assert (0 <= BufferedFrames r) by (unfold BufferedFrames; lia).
  rewrite !wrap_small in Hf by (pow2_eval; lia).
  apply rinv_buffer; try done.
  - intros k t Hk. by apply checkNeighbours_spec with (r := r).
  - eapply Budget_TryAcquire_covers; [apply Hr|done|done].
Qed.

(** [insert] always returns, and in one of the five ways. *)
Lemma insert_spec r seg owned :
  rinv r -> segment_typed seg ->
  exists res r', Reassembler_insert r seg owned = Some (res, r') /\ rinv r' /\ inserted r seg res r'.
Proof.
  intros Hr (Hs & Hl & Hch). unfold Reassembler_insert.
  pose proof (len_nonneg (Payload seg)) as Hp. set (sz := len (Payload seg)) in *.
  assert (Hrej : forall e, exists res r', Some (([], false, Some e), r) = Some (res, r') /\ rinv r' /\
    inserted r seg res r') by (intros e; do 2 eexists; split; [done|]; split; [done|constructor]).
  destruct (Final seg && negb (sz =? 0)) eqn:E1; [apply Hrej|].
  destruct (negb (Final seg) && (sz =? 0)) eqn:E2; [apply Hrej|].
  destruct (Sequence seg >? 2 ^ 64 - 1 - sz) eqn:E3; [apply Hrej|].
  assert (Hok : segment_ok (Sequence seg) seg).
  { repeat split; try (zlia || (bool_to_prop; fold sz; zlia)).
    destruct (Final seg); cbn in E1, E2; bool_to_prop; [by apply len_zero_nil|].
    intros He. subst sz. by rewrite He in E2. }
  assert (Hstop : (if Final seg then Sequence seg else Sequence seg +u64 sz) = Sequence seg + sz).
  { by apply (segment_end_ok (Sequence seg) seg). }
  rewrite Hstop. clear E1 E2 E3.
  destruct ((Sequence seg + sz <? next r) || (Final seg && (Sequence seg <? next r))) eqn:E4.
  { assert (Sequence seg + sz < next r).
    { bool_to_prop. destruct E4 as [E4|E4]; bool_to_prop; [done|].
      destruct Hok as (_ & _ & _ & Hf). rewrite H in Hf. subst sz. rewrite Hf, len_nil. lia. }
    replace (_ <=? _) with true by lia. do 2 eexists. split; [done|]. split; [done|]. by constructor. }
  destruct (buffer r !! Sequence seg) as [t|] eqn:Eb.
  { unfold Segment_eqb. destruct (Bool.eqb _ _ && _) eqn:E5; [|apply Hrej]. bool_to_prop.
    apply Bool.eqb_prop in H. apply bool_decide_eq_true in H0.
    do 2 eexists. split; [done|]. split; [done|]. by apply (ins_duplicate r seg t). }
  destruct (checkNeighbours r seg (Sequence seg + sz)) as [e|] eqn:Ec; [apply Hrej|].
  replace (if owned then Payload seg else [] ++ Payload seg) with (Payload seg) by (by destruct owned).
  destruct (Sequence seg =? next r) eqn:E5; cbn [negb]; bool_to_prop.
  - replace (mkSegment _ _ _ _) with seg by (by destruct seg).
    destruct (consumeContiguous_spec r seg Hr) as (r' & -> & Hd); [by rewrite <- E5|done|].
    do 2 eexists. split; [done|]. split; [apply Hd|]. by constructor.
  - destruct (_ || _) eqn:E6; [apply Hrej|]. bool_to_prop.
    destruct (Budget_TryAcquire (memory r) sz) as [[|] m] eqn:Et; [|apply Hrej].
    destruct (insert_buffers r seg m) as [Hi Hw]; try done.
    subst sz. rewrite Hw. fold (buffer_segment r seg m).
    do 2 eexists. split; [done|]. split; [done|]. by constructor.
Qed.

(** ** Runs *)

(** A segment cut from the stream [str], or the FIN at its end. *)
Definition agrees (str : bytes) (s : Segment) : Prop :=
  if Final s then Sequence s = len str
  else slice (Z.to_nat (Sequence s)) (Z.to_nat (Sequence s) + length (Payload s)) str = Payload s.

Definition set_memory (r : Reassembler) (m : option Budget) : Reassembler :=
  mkReassembler (r_cfg r) (next r) (buffer r) (order r) (r_bytes r) (finalAt r) m.

(** A receiver, what it has delivered so far, and the segments [insert] took
    without an error, newest first. *)
Record rx := mk_rx {
  rx_r : Reassembler;
  rx_delivered : bytes;
  rx_accepted : list Segment
}.

(** One step of a receiver: a segment that satisfies [P] arrives on some lane,
    or other flows use the shared memory. *)
Inductive rx_step (P : Segment -> Prop) : rx -> rx -> Prop :=
| rx_insert r d acc seg owned out closed err r' :
    segment_typed seg -> P seg ->
    Reassembler_insert r seg owned = Some ((out, closed, err), r') ->
    rx_step P (mk_rx r d acc)
      (mk_rx r' (d ++ out) (match err with None => seg :: acc | Some _ => acc end))
| rx_env r d acc m : budget_covers m (r_bytes r) ->
    rx_step P (mk_rx r d acc) (mk_rx (set_memory r m) d acc).

Definition memory_ok (m : option Budget) : Prop := budget_covers m 0.

Lemma NewReassembler_inv cfg :
  config_ok cfg -> memory_ok (cfg_Memory cfg) -> rinv (NewReassembler cfg).
Proof.
  intros [Hc1 Hc2] Hm. unfold NewReassembler.
  replace ((MaxBufferedBytes cfg =? 0) || _) with false by lia.
  split; cbn; try done.
  - constructor.
  - intros k. rewrite lookup_empty. split; [intros H; by apply elem_of_nil in H|by intros [? ?]].
  - split; [lia|]. unfold BufferedFrames. cbn. rewrite map_size_empty. lia.
Qed.

Lemma set_memory_inv r m : rinv r -> budget_covers m (r_bytes r) -> rinv (set_memory r m).
Proof. intros Hr Hm. split; cbn; try apply Hr. done. Qed.

(** Everything held agrees with the stream, and what came out is its prefix. *)
Record rx_inv (str : bytes) (st : rx) : Prop := mk_rx_inv {
  rx_rinv : rinv (rx_r st);
  rx_buf : forall k s, buffer (rx_r st) !! k = Some s -> agrees str s;
  rx_out : rx_delivered st = take (Z.to_nat (next (rx_r st))) str;
  rx_len : len (rx_delivered st) = next (rx_r st);
  rx_fin : forall a, finalAt (rx_r st) = Some a -> a = len str
}.

Lemma chain_stream str fuel buf : forall cur,
  buf_ok buf -> (forall k s, buf !! k = Some s -> agrees str s) ->
  segment_ok (Sequence cur) cur -> agrees str cur ->
  slice (Z.to_nat (Sequence cur)) (Z.to_nat (Sequence cur) + length (concat (chain fuel buf cur))) str
  = concat (chain fuel buf cur).
Proof.
  induction fuel as [|fuel IH]; intros cur Hb Ha Hok Hcur; cbn [chain concat].
  { unfold slice. cbn. by rewrite Nat.add_0_r, Nat.sub_diag. }
  unfold agrees in Hcur. destruct (Final cur) eqn:Ef.
  { unfold slice. cbn. by rewrite Nat.add_0_r, Nat.sub_diag. }
  cbn [concat]. rewrite length_app, Nat.add_assoc.
  rewrite <- (slice_app _ (Z.to_nat (Sequence cur) + length (Payload cur))) by lia.
  rewrite Hcur. f_equal. rewrite (data_end_wrap _ _ Hok).
  destruct (buf !! _) as [nxt|] eqn:En; cbn [concat].
  - pose proof (Hb _ _ En) as Hn. pose proof Hn as (Hs & _). destruct Hok as (_ & H0 & _).
    replace (Z.to_nat (Sequence cur) + length (Payload cur))%nat with (Z.to_nat (Sequence nxt))
      by (unfold len in Hs; lia).
    apply IH; try done; [by rewrite Hs|by eapply Ha].
  - unfold slice. cbn. by rewrite Nat.add_0_r, Nat.sub_diag.
Qed.

Lemma rx_inv_step str st st' : rx_inv str st -> rx_step (agrees str) st st' -> rx_inv str st'.
Proof.
  intros Hi Hstep. destruct Hstep as [r d acc seg owned out closed err r' Ht Ha He|r d acc m Hm];
    destruct Hi as [Hr Hb Ho Hl Hf]; cbn [rx_r rx_delivered] in *.
  2:{ split; cbn; try done. by apply set_memory_inv. }
  destruct (insert_spec r seg owned Hr Ht) as (res & r1 & He1 & Hr1 & Hins).
  rewrite He in He1. injection He1 as <- <-.
  inversion Hins; subst; clear Hins; try (rewrite app_nil_r; done).
  - rewrite app_nil_r. split; cbn; try done.
    + intros k s Hk. apply lookup_insert_Some in Hk as [[<- <-]|[_ Hk]]; [done|by eapply Hb].
    + intros a. unfold agrees in Ha. destruct (Final seg); [|by apply Hf]. by intros [= <-].
  - match goal with H : drained _ _ _ _ |- _ => destruct H as [_ Hn Hbuf Hk Hc Hfin _ _] end.
    match goal with H : Sequence seg = _ |- _ => rename H into Hs end.
    pose proof (chain_stream str (S (size (buffer r))) (buffer r) seg (rinv_buf_ok r Hr) Hb) as Hst.
    specialize (Hst ltac:(done) Ha). fold (delivery r seg) in Hst. rewrite Hs in Hst.
    destruct (ri_next r Hr) as [[Hn0 _] _].
    split; cbn [rx_r rx_delivered]; try done.
    + intros k s Hks. by eapply Hb, Hk.
    + rewrite Hn. rewrite <- Hst at 1. rewrite <- !slice_0, slice_app by lia. f_equal. unfold len. lia.
    + rewrite len_app. lia.
    + intros a Hfa. destruct Hfin as [Hfin|(s & Hs1 & Hs2 & Hs3)].
      * apply Hf. by rewrite <- Hfin.
      * rewrite Hs3 in Hfa. injection Hfa as <-.
        assert (Has : agrees str s) by (destruct Hs2 as [->|Hs2]; [done|by eapply Hb]).
        unfold agrees in Has. by rewrite Hs1 in Has.
Qed.

Lemma rx_inv_start str cfg :
  config_ok cfg -> memory_ok (cfg_Memory cfg) -> rx_inv str (mk_rx (NewReassembler cfg) [] []).
Proof.
  intros Hc Hm. pose proof (NewReassembler_inv cfg Hc Hm) as Hr. split; cbn [rx_r rx_delivered]; try done.
Qed.

(** *** Every chunk of a partition arrives *)

Definition chunk_offset (chunks : list bytes) (i : nat) : Z := len (concat (take i chunks)).

(** The segment of one chunk, or the FIN behind the last. *)
Definition piece (chunks : list bytes) (s : Segment) : Prop :=
  if Final s then Sequence s = len (concat chunks) /\ Payload s = []
  else exists i, chunks !! i = Some (Payload s) /\ Sequence s = chunk_offset chunks i.

Definition boundary (chunks : list bytes) (x : Z) : Prop :=
  exists i, (i <= length chunks)%nat /\ x = chunk_offset chunks i.

Record rx_complete (chunks : list bytes) (st : rx) : Prop := mk_rx_complete {
  rc_inv : rinv (rx_r st);
  rc_buf : forall k s, buffer (rx_r st) !! k = Some s -> piece chunks s;
  rc_next : boundary chunks (next (rx_r st));
  rc_acc : forall s, s ∈ rx_accepted st ->
    if Final s then finalAt (rx_r st) = Some (len (concat chunks))
    else Sequence s + len (Payload s) <= next (rx_r st) \/
      exists t, buffer (rx_r st) !! Sequence s = Some t /\ Payload t = Payload s;
  rc_fin : forall k s, buffer (rx_r st) !! k = Some s -> Final s = true ->
    finalAt (rx_r st) = Some (len (concat chunks))
}.

Lemma chunk_offset_S chunks i c :
  chunks !! i = Some c -> chunk_offset chunks (S i) = chunk_offset chunks i + len c.
Proof.
  intros Hc. unfold chunk_offset. rewrite (take_S_r _ _ _ Hc), concat_app, len_app. cbn.
  by rewrite app_nil_r.
Qed.

Lemma chunk_offset_full chunks : chunk_offset chunks (length chunks) = len (concat chunks).
Proof. unfold chunk_offset. by rewrite firstn_all. Qed.

Lemma boundary_le chunks x : boundary chunks x -> x <= len (concat chunks).
Proof.
  intros (i & _ & ->). unfold chunk_offset. rewrite <- (take_drop i chunks) at 2.
  rewrite concat_app, len_app. pose proof (len_nonneg (concat (drop i chunks))). lia.
Qed.

Lemma piece_boundary chunks s :
  piece chunks s -> Final s = false -> boundary chunks (Sequence s + len (Payload s)).
Proof.
  unfold piece. intros Hp Hf. rewrite Hf in Hp. destruct Hp as (i & Hi & ->).
  exists (S i). split; [by apply lookup_lt_Some in Hi|]. by rewrite (chunk_offset_S _ _ _ Hi).
Qed.

Lemma piece_agrees chunks s : piece chunks s -> agrees (concat chunks) s.
Proof.
  unfold piece, agrees. destruct (Final s); [by intros [? ?]|]. intros (i & Hi & ->).
  rewrite <- (app_nil_r (concat chunks)). unfold chunk_offset, len. rewrite Nat2Z.id.
  by apply (slice_concat chunks i).
Qed.

(** A chain ends where one of its segments ends. *)
Lemma chain_ends (P : Z -> Prop) fuel buf : forall cur,
  buf_ok buf -> (forall k s, buf !! k = Some s -> Final s = false -> P (k + len (Payload s))) ->
  segment_ok (Sequence cur) cur -> (Final cur = false -> P (Sequence cur + len (Payload cur))) ->
  P (Sequence cur) -> P (Sequence cur + len (concat (chain fuel buf cur))).
Proof.
  induction fuel as [|fuel IH]; intros cur Hb Hp Hok Hcur Hbd; cbn [chain concat].
  { by rewrite len_nil, Z.add_0_r. }
  destruct (Final cur) eqn:Ef; [by cbn; rewrite len_nil, Z.add_0_r|].
  specialize (Hcur eq_refl). cbn [concat]. rewrite len_app, Z.add_assoc.
  rewrite (data_end_wrap _ _ Hok). destruct (buf !! _) as [nxt|] eqn:En; cbn [concat].
  - pose proof (Hb _ _ En) as Hn. pose proof Hn as (Hs & _). rewrite <- Hs in Hcur |- *.
    apply IH; try done; [by rewrite Hs|]. rewrite Hs. by eapply Hp.
  - by rewrite len_nil, Z.add_0_r.
Qed.

Lemma piece_final chunks s : piece chunks s -> Final s = true -> Sequence s = len (concat chunks).
Proof. unfold piece. intros Hp Hf. rewrite Hf in Hp. apply Hp. Qed.

Lemma rx_complete_delivered chunks r d acc seg r' :
  rx_complete chunks (mk_rx r d acc) -> piece chunks seg ->
  Sequence seg = next r -> segment_ok (Sequence seg) seg -> drained r seg (delivery r seg) r' ->
  rx_complete chunks (mk_rx r' (d ++ concat (delivery r seg)) (seg :: acc)).
Proof.
  intros [Hr Hb Hn Ha Hf] Hp Hs Hok [Hi Hn' Hbuf Hk Hc Hfin Hcf _]. cbn [rx_r rx_accepted] in *.
  assert (Hle : next r <= next r') by (rewrite Hn'; pose proof (len_nonneg (concat (delivery r seg))); lia).
  assert (Hfa : finalAt r = Some (len (concat chunks)) -> finalAt r' = Some (len (concat chunks))).
  { intros H. destruct Hfin as [->|(s & Hs1 & Hs2 & ->)]; [done|]. f_equal. apply piece_final; [|done].
    destruct Hs2 as [->|Hs2]; [done|by eapply Hb]. }
  split; cbn [rx_r rx_accepted]; [done|by eauto| | |].
  - rewrite Hn', <- Hs. apply (chain_ends (boundary chunks)); [by apply rinv_buf_ok| |done| |by rewrite Hs].
    + intros k s Hks. rewrite <- (proj1 (proj1 (ri_seg r Hr k s Hks))). apply piece_boundary. by eapply Hb.
    + by apply piece_boundary.
  - intros s Hin. apply elem_of_cons in Hin as [->|Hin].
    + destruct (Final seg) eqn:Ef; [|by left]. rewrite Hcf by done. f_equal. by apply piece_final.
    + specialize (Ha s Hin). destruct (Final s); [by apply Hfa|].
      destruct Ha as [Ha|(t & Ht & Hpt)]; [left; lia|].
      destruct (Hbuf _ _ Ht) as [Hb'|Hb']; [right; by eauto|left]. by rewrite <- Hpt.
  - intros k s Hks Hsf. apply Hfa. by eapply (Hf k s); [apply Hk|].
Qed.

Lemma rx_complete_step chunks st st' :
  rx_complete chunks st -> rx_step (piece chunks) st st' -> rx_complete chunks st'.
Proof.
  intros Hi Hstep. destruct Hstep as [r d acc seg owned out closed err r' Ht Hp He|r d acc m Hm].
  2:{ destruct Hi as [Hr Hb Hn Ha Hf]. split; cbn in *; try done. by apply set_memory_inv. }
  pose proof (rc_inv _ _ Hi) as Hr. cbn in Hr.
  destruct (insert_spec r seg owned Hr Ht) as (res & r1 & He1 & Hr1 & Hins).
  rewrite He in He1. injection He1 as <- <-.
  inversion Hins; subst; clear Hins; [..|by apply rx_complete_delivered];
    destruct Hi as [_ Hb Hn Ha Hf]; cbn [rx_r rx_accepted] in *; split; cbn [rx_r rx_accepted]; try done.
  - intros s Hin. apply elem_of_cons in Hin as [->|Hin]; [|by apply Ha].
    pose proof (boundary_le _ _ Hn). destruct (Final seg) eqn:Ef; [|left; lia].
    pose proof (piece_final _ _ Hp Ef). pose proof (len_nonneg (Payload seg)). lia.
  - intros s Hin. apply elem_of_cons in Hin as [->|Hin]; [|by apply Ha].
    destruct (Final seg) eqn:Ef; [by eapply Hf|right; by eauto].
  - intros k s Hk. cbn [buffer_segment buffer] in Hk. apply lookup_insert_Some in Hk as [[<- <-]|[_ Hk]]; [done|by eapply Hb].
  - intros s Hin. cbn [buffer_segment finalAt next buffer]. apply elem_of_cons in Hin as [->|Hin].
    + destruct (Final seg) eqn:Ef; [f_equal; by apply piece_final|right].
      eexists. rewrite lookup_insert_eq. split; [done|done].
    + specialize (Ha s Hin). destruct (Final s).
      { rewrite Ha. destruct (Final seg) eqn:Ef; [f_equal; by apply piece_final|done]. }
      destruct Ha as [Ha|(t & Hbt & Hpt)]; [by left|right]. exists t.
      rewrite lookup_insert_ne by congruence. done.
  - intros k s Hk Hsf. cbn [buffer_segment finalAt]. destruct (Final seg) eqn:Ef; [f_equal; by apply piece_final|].
    cbn [buffer_segment buffer] in Hk. apply lookup_insert_Some in Hk as [[_ <-]|[_ Hk]]; [cbn in Hsf; congruence|by eapply Hf].
Qed.

(** When every chunk has been accepted the cursor is at the end. *)
Lemma rx_complete_end chunks st :
  rx_complete chunks st -> Forall (fun c => c <> []) chunks ->
  (forall i, (i < length chunks)%nat ->
    exists s, s ∈ rx_accepted st /\ Final s = false /\ chunks !! i = Some (Payload s) /\
      Sequence s = chunk_offset chunks i) ->
  next (rx_r st) = len (concat chunks).
Proof.
  intros [Hr Hb (i & Hi & Hn) Ha _] Hne Hall.
  destruct (decide (i < length chunks)%nat) as [Hlt|Hge].
  - destruct (Hall i Hlt) as (s & Hin & Hf & Hci & Hs). specialize (Ha s Hin). rewrite Hf in Ha.
    rewrite Forall_lookup in Hne. specialize (Hne i _ Hci).
    destruct Ha as [Ha|(t & Ht & _)].
    + destruct (Payload s) as [|x p]; [done|]. rewrite len_cons in Ha. pose proof (len_nonneg p). lia.
    + destruct (ri_next _ Hr) as [_ Hnone]. rewrite Hs, <- Hn, Hnone in Ht. done.
  - rewrite Hn, <- chunk_offset_full. f_equal. lia.
Qed.

(** ** Received ranges *)

(** The byte offsets held out of order. *)
Definition held (r : Reassembler) (x : Z) : Prop :=
  exists k s, buffer r !! k = Some s /\ k <= x < k + len (Payload s).

(** The ranges so far, newest first, up to the offset [pos]. *)
Definition ranges_upto (pos : Z) (acc : list (Z * Z)) : Prop :=
  StronglySorted (fun x y => snd y < fst x) acc /\
  Forall (fun x => 0 <= fst x < snd x /\ snd x <= pos) acc.

Lemma ranges_upto_push pos acc a b :
  ranges_upto pos acc -> 0 <= a -> pos <= a -> a < b ->
  (forall x y rest, acc = (x, y) :: rest -> y <> a) -> ranges_upto b ((a, b) :: acc).
Proof.
  intros [Hs Hf] H0 Ha Hb Hne. rewrite Forall_forall in Hf. split.
  - constructor; [done|]. rewrite Forall_forall. intros [x y] Hin. cbn.
    destruct acc as [|[x' y'] acc]; [by apply elem_of_nil in Hin|].
    pose proof (Hf (x', y') ltac:(by constructor)) as Hhd. cbn in Hhd.
    specialize (Hne x' y' acc eq_refl). apply elem_of_cons in Hin as [[= -> ->]|Hin]; [lia|].
    apply StronglySorted_cons in Hs as [Hs _]. rewrite Forall_forall in Hs.
    specialize (Hs _ Hin). cbn in Hs. lia.
  - constructor; [cbn; lia|]. rewrite Forall_forall. intros x Hin. specialize (Hf x Hin). cbn in *. lia.
Qed.

Lemma ranges_upto_extend pos acc a b c :
  ranges_upto pos ((a, b) :: acc) -> b <= c -> pos <= c -> ranges_upto c ((a, c) :: acc).
Proof.
  intros [Hs Hf] Hb Hp. apply StronglySorted_cons in Hs as [Hs1 Hs2].
  rewrite Forall_cons in Hf. destruct Hf as [Hf1 Hf2]. cbn in *. split.
  - by constructor.
  - constructor; [cbn; lia|]. eapply Forall_impl; [exact Hf2|]. cbn. intros; lia.
Qed.

Lemma merge_ranges_spec r : rinv r -> forall starts acc pos,
  StronglySorted Z.lt starts -> (forall k, k ∈ starts -> is_Some (buffer r !! k) /\ pos <= k) ->
  ranges_upto pos acc -> pos < 2 ^ 64 ->
  ranges_upto (2 ^ 64 - 1) (merge_ranges r starts acc) /\
  forall x, covered (merge_ranges r starts acc) x <->
    covered acc x \/ exists k s, k ∈ starts /\ buffer r !! k = Some s /\ k <= x < k + len (Payload s).
Proof.
  intros Hr. induction starts as [|k starts IH]; intros acc pos Hs Hk Hacc Hpos; cbn [merge_ranges].
  { split.
    - destruct Hacc as [H1 H2]. split; [done|]. eapply Forall_impl; [exact H2|]. cbn. intros; lia.
    - intros x. split; [by left|]. intros [?|(k & s & Hin & _)]; [done|by apply elem_of_nil in Hin]. }
  apply StronglySorted_cons in Hs as [Hgt Hs]. rewrite Forall_forall in Hgt.
  destruct (Hk k ltac:(by constructor)) as [[s Hb] Hpk]. rewrite (buffered_lookup r k s Hb).
  destruct (ri_seg r Hr k s Hb) as [Hok _]. rewrite (data_end_wrap _ _ Hok).
  pose proof Hok as (_ & H0 & Hlt & Hfin). set (stop := k + len (Payload s)) in *.
  assert (Hstep : forall acc' pos', ranges_upto pos' acc' -> pos' <= stop ->
    (forall x, covered acc' x <-> covered acc x \/ k <= x < stop) ->
    ranges_upto (2 ^ 64 - 1) (merge_ranges r starts acc') /\
    forall x, covered (merge_ranges r starts acc') x <-> covered acc x \/
      exists k' s', k' ∈ k :: starts /\ buffer r !! k' = Some s' /\ k' <= x < k' + len (Payload s')).
  { intros acc' pos' Ha Hps Hc. destruct (IH acc' pos' Hs) as [Hu Hx]; [|done|lia|].
    - intros k' Hin. split; [apply Hk; by right|]. destruct (Hk k' ltac:(by right)) as [[s' Hb'] _].
      pose proof (ri_disjoint r Hr k s k' s' Hb Hb' (Hgt k' Hin)). lia.
    - split; [done|]. intros x. rewrite Hx, Hc. split.
      + intros [[?|?]|(k' & s' & ? & ?)]; [by left| |].
        * right. exists k, s. split; [by constructor|done].
        * right. exists k', s'. split; [by right|done].
      + intros [?|(k' & s' & Hin & Hb' & Hxx)]; [by left; left|].
        apply elem_of_cons in Hin as [->|Hin]; [|right; by eauto].
        rewrite Hb in Hb'. injection Hb' as <-. left. by right. }
  destruct (Final s) eqn:Ef.
  { apply (Hstep acc pos Hacc).
    - pose proof (len_nonneg (Payload s)). lia.
    - intros x. subst stop. rewrite Hfin, len_nil. split; [by left|]. intros [?|?]; [done|lia]. }
  pose proof (data_nonempty _ _ Hok Ef) as Hl.
  destruct acc as [|[a b] older].
  { apply (Hstep _ stop); [|done|].
    - eapply ranges_upto_push; [exact Hacc|done|lia|lia|done].
    - intros x. rewrite covered_cons. tauto. }
  destruct (b =? k) eqn:Eb; bool_to_prop.
  - subst b. pose proof Hacc as [_ Hf]. rewrite Forall_cons in Hf. destruct Hf as [Hf _]. cbn in Hf.
    apply (Hstep _ stop); [|done|].
    + eapply ranges_upto_extend; [exact Hacc|lia|lia].
    + intros x. rewrite !covered_cons. split; [|intros [[?|?]|?]; auto; left; lia].
      intros [?|?]; [|by auto]. destruct (decide (x < k)); [left; left; lia|right; lia].
  - apply (Hstep _ stop); [|done|].
    + eapply ranges_upto_push; [exact Hacc|done|lia|lia|]. by intros ? ? ? [= <- <- <-].
    + intros x. rewrite (covered_cons k stop). tauto.
Qed.

(** What [ReceivedRanges] reports. *)
Lemma received_ranges_spec r max :
  rinv r -> 0 < max ->
  let rs := ReceivedRanges r max in
  len rs <= max /\ Forall (fun x => 0 <= fst x < snd x /\ snd x < 2 ^ 64) rs /\
  StronglySorted (fun x y => snd x < fst y) rs /\
  (forall x, covered rs x -> held r x) /\
  (forall x, held r x -> covered rs x \/
     (len rs = max /\ forall a b, (a, b) ∈ rs -> b < x)).
Proof.
  intros Hr Hmax rs.
  destruct (merge_ranges_spec r Hr (order r) [] 0) as [[Hs Hf] Hcov].
  { apply (ri_sorted r Hr). }
  { intros k Hk. split; [by apply (ri_index r Hr)|]. apply (ri_index r Hr) in Hk as [s Hk].
    apply (ri_seg r Hr) in Hk as [(_ & ? & _) _]. done. }
  { split; constructor. }
  { done. }
  set (all := rev (merge_ranges r (order r) [])).
  assert (Hall : forall x, covered all x <-> held r x).
  { intros x. transitivity (covered (merge_ranges r (order r) []) x).
    - apply covered_rev.
    - rewrite Hcov. split.
      + intros [(? & ? & Hin & _)|(k & s & _ & ? & ?)]; [by apply elem_of_nil in Hin|by exists k, s].
      + intros (k & s & ? & ?). right. exists k, s. split; [|done]. apply (ri_index r Hr). by eexists. }
  assert (Hrs : rs = take (Z.to_nat max) all).
  { subst rs. unfold ReceivedRanges. replace (max <=? 0) with false by lia. cbn [orb].
    destruct (BufferedFrames r =? 0) eqn:E; bool_to_prop.
    - assert (Ho : order r = []).
      { destruct (order r) as [|k o] eqn:Eo; [done|].
        destruct (proj1 (ri_index r Hr k)) as [s Hs']; [rewrite Eo; by constructor|].
        pose proof (map_size_ne_0_lookup_2 (buffer r) k ltac:(by eexists)). unfold BufferedFrames in E. lia. }
      subst all. rewrite Ho. by destruct (Z.to_nat max).
    - fold all. destruct (len all >? max) eqn:E1; [done|]. rewrite take_ge; [done|].
      unfold len in E1. lia. }
  assert (Hsub : rs `sublist_of` all) by (rewrite Hrs; apply sublist_take).
  assert (Hsa : StronglySorted (fun x y => snd x < fst y) all) by (by apply StronglySorted_rev).
  assert (Hfa : Forall (fun x => 0 <= fst x < snd x /\ snd x <= 2 ^ 64 - 1) all) by (by apply Forall_rev).
  split; [rewrite Hrs; unfold len; rewrite length_take; lia|].
  split; [rewrite Hrs; apply Forall_take; eapply Forall_impl; [exact Hfa|]; cbn; intros; lia|].
  split; [by eapply StronglySorted_sublist|]. split.
  - intros x (a & b & Hin & Hx). apply Hall. exists a, b. split; [by eapply elem_of_sublist|done].
  - intros x Hx. apply Hall in Hx as (a & b & Hin & Hx).
    rewrite <- (take_drop (Z.to_nat max) all), <- Hrs in Hin. apply elem_of_app in Hin as [Hin|Hin].
    { left. by exists a, b. }
    right. split.
    + rewrite Hrs. unfold len. rewrite length_take. apply list_elem_of_lookup in Hin as [i Hi].
      rewrite lookup_drop in Hi. apply lookup_lt_Some in Hi. lia.
    + intros a' b' Hin'. rewrite <- (take_drop (Z.to_nat max) all), <- Hrs in Hsa.
      pose proof (StronglySorted_app_1_elem_of _ _ _ _ _ Hsa Hin' Hin) as H. cbn in H. lia.
Qed.

(** ** Closing *)

Lemma release_all_spec visit : forall m b,
  budget_covers m (b + sumZ (map (fun ks => len (Payload (snd ks))) visit)) -> 0 <= b ->
  exists m', release_all visit m = Some m' /\
    budget_covers m' b /\
    (Forall (fun ks => charged (snd ks) = true) visit ->
     forall bud, m = Some bud -> exists bud', m' = Some bud' /\ capacity bud' = capacity bud /\
       used bud' = used bud - sumZ (map (fun ks => len (Payload (snd ks))) visit)).
Proof.
  induction visit as [|[k s] visit IH]; intros m b Hc Hb; cbn [release_all map sumZ foldr snd] in *.
  { exists m. rewrite Z.add_0_r in Hc. split; [done|]. split; [done|]. intros _ bud ->. exists bud.
    split; [done|]. split; [done|lia]. }
  change (foldr Z.add 0) with sumZ in *. pose proof (len_nonneg (Payload s)) as Hl.
  set (rest := sumZ _) in *.
  assert (Hrest : 0 <= rest).
  { apply sumZ_nonneg, Forall_forall. intros x Hx. apply list_elem_of_fmap in Hx as (? & -> & _).
    apply len_nonneg. }
  destruct (charged s) eqn:Ec.
  - destruct (Budget_Release_covers m (len (Payload s)) (b + rest)) as (m1 & He & Hc1); [|done|lia|].
    { destruct m; [|done]. cbn in *. destruct Hc. split; [done|lia]. }
    rewrite He. destruct (IH m1 b Hc1 Hb) as (m' & -> & Hc' & Hu). exists m'.
    split; [done|]. split; [done|]. intros Hall bud ->. apply Forall_cons in Hall as [_ Hall].
    cbn in He. destruct (_ <=? 0) eqn:E1; bool_to_prop.
    + injection He as <-. destruct (Hu Hall bud eq_refl) as (bud' & ? & ? & ?).
      exists bud'. split; [done|]. split; [done|]. lia.
    + destruct (_ >? _); [done|]. injection He as <-.
      destruct (Hu Hall _ eq_refl) as (bud' & ? & ? & Hus). exists bud'. split; [done|].
      split; [done|]. cbn in Hus. lia.
  - destruct (IH m b) as (m' & -> & Hc' & _); [|done|].
    { destruct m; [|done]. cbn in *. destruct Hc. split; [done|lia]. }
    exists m'. split; [done|]. split; [done|]. intros Hall. apply Forall_cons in Hall as [Hall _].
    cbn in Hall. congruence.
Qed.

(** ** Theorems *)

Definition reassembly_start (cfg : ReassemblerConfig) : rx := mk_rx (NewReassembler cfg) [] [].

Lemma rx_rinv_step P st st' : rinv (rx_r st) -> rx_step P st st' -> rinv (rx_r st').
Proof.
  intros Hr Hstep. destruct Hstep as [r d acc seg owned out closed err r' Ht _ He|r d acc m Hm]; cbn in *.
  - destruct (insert_spec r seg owned Hr Ht) as (res & r1 & He1 & Hr1 & _). congruence.
  - by apply set_memory_inv.
Qed.

(** C19: the invariant and totality of [insert].  Whatever arrives in
    whatever order, and whatever other flows do with the shared memory, the
    index stays sorted and exact, the buffered segments stay disjoint, the byte
    count is their sum, and the window limits hold; and the next insertion
    returns (no panic of the budget, no endless loop), the cursor moving by
    exactly the bytes delivered, an error leaving the state as it was. *)
Theorem reassembler_invariant cfg st :
  config_ok cfg -> memory_ok (cfg_Memory cfg) ->
  steps (rx_step (fun _ => True)) (reassembly_start cfg) st ->
  rinv (rx_r st) /\
  forall seg owned, segment_typed seg ->
    exists out closed err r', Reassembler_insert (rx_r st) seg owned = Some ((out, closed, err), r') /\
      rinv r' /\ next r' = next (rx_r st) + len out /\
      match err with
      | Some _ => r' = rx_r st /\ out = []
      | None => closed = Reassembler_Closed r'
      end.
Proof.
  intros Hc Hm Hsteps.
  assert (Hr : rinv (rx_r st)).
  { eapply (steps_invariant _ (fun s => rinv (rx_r s))); [apply rx_rinv_step| |exact Hsteps].
    by apply NewReassembler_inv. }
  split; [done|]. intros seg owned Ht.
  destruct (insert_spec (rx_r st) seg owned Hr Ht) as (res & r' & He & Hr' & Hins).
  inversion Hins; subst; do 4 eexists; (split; [exact He|]); (split; [done|]);
    rewrite ?len_nil, ?Z.add_0_r; try done.
  match goal with H : drained _ _ _ _ |- _ => destruct H end. done.
Qed.

(** C2: ordered delivery.  When every arriving segment is cut from one stream
    (in any order, duplicated, re-cut at other boundaries, some refused), what
    the reassembler has delivered is exactly the prefix of the stream up to its
    cursor, and once it reports the flow closed it is the whole stream. *)
Theorem reassembler_delivers_prefix cfg str st :
  config_ok cfg -> memory_ok (cfg_Memory cfg) ->
  steps (rx_step (agrees str)) (reassembly_start cfg) st ->
  rx_delivered st = take (Z.to_nat (NextSequence (rx_r st))) str /\
  len (rx_delivered st) = NextSequence (rx_r st) /\
  (Reassembler_Closed (rx_r st) = true -> rx_delivered st = str).
Proof.
  intros Hc Hm Hsteps.
  assert (Hi : rx_inv str st).
  { eapply (steps_invariant _ (rx_inv str)); [apply rx_inv_step| |exact Hsteps]. by apply rx_inv_start. }
  destruct Hi as [_ _ Ho Hl Hf]. split; [done|]. split; [done|].
  unfold Reassembler_Closed. destruct (finalAt (rx_r st)) as [a|] eqn:Ea; [|done].
  intros Hge. bool_to_prop. specialize (Hf a eq_refl). subst a. rewrite Ho. apply take_ge.
  unfold len in Hge. lia.
Qed.

(** C10: complete delivery.  When the segments are the chunks of a partition of
    the stream and its FIN, and each has been accepted at least once, in any
    order and with any duplicates and refusals between, the whole stream has
    been delivered and the flow is closed: nothing accepted is ever stranded
    behind the cursor. *)
Theorem reassembler_delivers_all cfg chunks st :
  config_ok cfg -> memory_ok (cfg_Memory cfg) -> Forall (fun c => c <> []) chunks ->
  steps (rx_step (piece chunks)) (reassembly_start cfg) st ->
  (forall i, (i < length chunks)%nat ->
    exists s, s ∈ rx_accepted st /\ Final s = false /\ chunks !! i = Some (Payload s) /\
      Sequence s = chunk_offset chunks i) ->
  (exists s, s ∈ rx_accepted st /\ Final s = true) ->
  rx_delivered st = concat chunks /\ Reassembler_Closed (rx_r st) = true.
Proof.
  intros Hc Hm Hne Hsteps Hall (fin & Hin & Hfin).
  assert (Hrc : rx_complete chunks st).
  { eapply (steps_invariant _ (rx_complete chunks)); [apply rx_complete_step| |exact Hsteps].
    split; cbn; try done; [by apply NewReassembler_inv|exists 0%nat; split; [lia|done]|].
    intros s Hs. by apply elem_of_nil in Hs. }
  assert (Hi : rx_inv (concat chunks) st).
  { eapply (steps_invariant _ (rx_inv (concat chunks))); [|by apply rx_inv_start|exact Hsteps].
    intros s s' Hs Hst. eapply rx_inv_step; [exact Hs|].
    destruct Hst; econstructor; try done. by apply piece_agrees. }
  pose proof (rx_complete_end chunks st Hrc Hne Hall) as Hend. split.
  - rewrite (rx_out _ _ Hi), Hend. apply take_ge. unfold len. lia.
  - pose proof (rc_acc _ _ Hrc fin Hin) as Hf. rewrite Hfin in Hf. unfold Reassembler_Closed.
    rewrite Hf. lia.
Qed.

(** [Close] gives back exactly what the flow still holds of the shared
    memory, whatever order the map is visited in, without panicking, and leaves
    an empty reassembler for which a second [Close] changes nothing. *)
Theorem close_releases_charges r b visit :
  rinv r -> memory r = Some b -> visit ≡ₚ map_to_list (buffer r) ->
  exists r' b', Reassembler_Close visit r = Some r' /\ rinv r' /\ memory r' = Some b' /\
    used b' = used b - BufferedBytes r /\ capacity b' = capacity b /\ BufferedFrames r' = 0 /\
    Reassembler_Close [] r' = Some r'.
Proof.
  intros Hr Hb Hv. unfold Reassembler_Close.
  assert (Hsum : sumZ (map (fun ks => len (Payload (snd ks))) visit) = r_bytes r).
  { rewrite (ri_bytes r Hr), msum_map_to_list. apply sumZ_perm. cbn. by rewrite Hv. }
  destruct (release_all_spec visit (memory r) 0) as (m' & -> & Hcov & Hu); [|lia|].
  { rewrite Hsum. apply Hr. }
  destruct (Hu ltac:(rewrite Hv; apply Forall_forall; intros [k s] Hin;
    apply elem_of_map_to_list in Hin; by apply (ri_seg r Hr k s)) b Hb) as (b' & -> & Hcap & Hus).
  exists (mkReassembler (r_cfg r) (next r) ∅ [] 0 (finalAt r) (Some b')), b'.
  split; [done|]. split; [|rewrite Hus, Hsum; done].
  pose proof (ri_cfg r Hr) as Hcfg. pose proof (ri_next r Hr) as [Hn _].
  split; cbn; try done.
  - constructor.
  - intros k. rewrite lookup_empty. split; [intros H; by apply elem_of_nil in H|by intros [? ?]].
  - unfold BufferedFrames. cbn. rewrite map_size_empty. destruct Hcfg. lia.
Qed.

(** [ReceivedRanges].  The report is at most [max] non-empty ranges in
    increasing order with a gap between any two; it covers only bytes held out
    of order; and unless it was cut at [max] it covers all of them, a cut report
    keeping the lowest. *)
Theorem received_ranges_exact r max :
  rinv r -> 0 < max ->
  let rs := ReceivedRanges r max in
  len rs <= max /\ Forall (fun x => 0 <= fst x < snd x /\ snd x < 2 ^ 64) rs /\
  StronglySorted (fun x y => snd x < fst y) rs /\
  (forall x, covered rs x -> held r x) /\
  (forall x, held r x -> covered rs x \/
     (len rs = max /\ forall a b, (a, b) ∈ rs -> b < x)).
Proof. apply received_ranges_spec. Qed.

(** What happens to a duplicate that ends exactly at the cursor.  It is not
    recognised as old: it is stored out of order and counted against the window
    although every byte of it has been delivered. *)
Theorem duplicate_at_cursor_is_buffered r seg owned :
  rinv r -> segment_typed seg -> Final seg = false -> Payload seg <> [] ->
  Sequence seg + len (Payload seg) = next r -> buffer r = ∅ -> memory r = None ->
  len (Payload seg) <= MaxBufferedBytes (r_cfg r) ->
  exists closed r', Reassembler_insert r seg owned = Some (([], closed, None), r') /\
    BufferedFrames r' = 1 /\ BufferedBytes r' = len (Payload seg) /\ next r' = next r.
Proof.
  intros Hr (Hs & Hl & Hch) Hf Hp Hend Hb Hm Hmax. unfold Reassembler_insert.
  pose proof (ri_next r Hr) as [Hn _]. pose proof (len_nonneg (Payload seg)) as Hl0.
  assert (Hne : len (Payload seg) <> 0) by (intros H; by apply len_zero_nil in H).
  assert (Hby : r_bytes r = 0) by (by rewrite (ri_bytes r Hr), Hb).
  assert (Ho : order r = []).
  { destruct (order r) as [|k o] eqn:Eo; [done|]. destruct (proj1 (ri_index r Hr k)) as [s Hs'].
    - rewrite Eo. by constructor.
    - by rewrite Hb, lookup_empty in Hs'. }
  rewrite Hf. cbn [andb negb]. replace (len (Payload seg) =? 0) with false by lia.
  replace (_ >? _) with false by zlia. rewrite wrap_small, Hend by zlia. rewrite Z.ltb_irrefl. cbn [orb].
  rewrite Hb, lookup_empty. unfold checkNeighbours. rewrite Ho. cbn [length order_search sort_Search search_loop].
  cbn [Nat.ltb Nat.leb]. replace (Sequence seg =? next r) with false by lia. cbn [negb].
  destruct (ri_cfg r Hr) as [Hc1 Hc2]. unfold BufferedFrames. rewrite Hb, map_size_empty, Hby, Hm.
  rewrite !wrap_small by zlia. 
  destruct (_ || _) eqn:Ew; [bool_to_prop; destruct Ew; bool_to_prop; zlia|].
  cbn [Budget_TryAcquire]. do 2 eexists. split; [reflexivity|]. cbn [buffer r_bytes next BufferedBytes].
  rewrite map_size_insert_None by apply lookup_empty. by rewrite map_size_empty.
Qed.

(** ** Witnesses *)

Definition rx_do (st : rx) (seg : Segment) : rx :=
  match Reassembler_insert (rx_r st) seg false with
  | Some ((out, _, err), r') => mk_rx r' (rx_delivered st ++ out)
      (match err with None => seg :: rx_accepted st | Some _ => rx_accepted st end)
  | None => st
  end.

Lemma rx_do_steps P segs st :
  rinv (rx_r st) -> Forall (fun s => segment_typed s /\ P s) segs ->
  steps (rx_step P) st (fold_left rx_do segs st).
Proof.
  intros Hr Hall. revert st Hr. induction Hall as [|seg segs [Ht Hp] _ IH]; intros st Hr; [constructor|].
  cbn [fold_left].
  assert (Hs : rx_step P st (rx_do st seg)).
  { unfold rx_do. destruct (insert_spec (rx_r st) seg false Hr Ht) as ([[out c] err] & r' & He & _).
    rewrite He. destruct st as [r d acc]. by eapply (rx_insert P r d acc seg false). }
  econstructor; [exact Hs|]. apply IH. by eapply rx_rinv_step.
Qed.

Definition sample_cfg : ReassemblerConfig := mkRConfig 64 8 (Budget_New 32).
Definition sample_chunks : list bytes := [[1; 2]; [3]; [4; 5]].
Definition sample_fin : Segment := mkSegment 5 [] true false.
Definition sample_segments : list Segment :=
  [mkSegment 3 [4; 5] false false; sample_fin; mkSegment 0 [1; 2] false false;
   mkSegment 3 [4; 5] false false; mkSegment 2 [3] false false].
Definition sample_end : rx := fold_left rx_do sample_segments (reassembly_start sample_cfg).

Lemma sample_cfg_ok : config_ok sample_cfg /\ memory_ok (cfg_Memory sample_cfg).
Proof. repeat split; cbn; lia. Qed.

Lemma sample_pieces : Forall (fun s => segment_typed s /\ piece sample_chunks s) sample_segments.
Proof.
  repeat (constructor; [split; [repeat split; cbn; lia|]|]);
    first [by exists 0%nat|by exists 1%nat|by exists 2%nat|done|constructor].
Qed.

Lemma reassembler_invariant_witness : rinv (rx_r sample_end).
Proof.
  destruct sample_cfg_ok as [Hc Hm].
  apply (reassembler_invariant sample_cfg sample_end Hc Hm).
  apply rx_do_steps; [by apply NewReassembler_inv|].
  eapply Forall_impl; [apply sample_pieces|]. by intros s [? _].
Defined.

Lemma reassembler_delivers_prefix_witness :
  rx_delivered sample_end = take (Z.to_nat (NextSequence (rx_r sample_end))) [1; 2; 3; 4; 5].
Proof.
  destruct sample_cfg_ok as [Hc Hm].
  refine (proj1 (reassembler_delivers_prefix sample_cfg [1; 2; 3; 4; 5] sample_end Hc Hm _)).
  apply rx_do_steps; [by apply NewReassembler_inv|].
  eapply Forall_impl; [apply sample_pieces|]. intros s [? Hp]. split; [done|].
  by apply piece_agrees in Hp.
Defined.

Lemma reassembler_delivers_all_witness :
  rx_delivered sample_end = [1; 2; 3; 4; 5] /\ Reassembler_Closed (rx_r sample_end) = true.
Proof.
  destruct sample_cfg_ok as [Hc Hm].
  apply (reassembler_delivers_all sample_cfg sample_chunks sample_end Hc Hm).
  - repeat constructor; done.
  - apply rx_do_steps; [by apply NewReassembler_inv|apply sample_pieces].
  - assert (Hacc : rx_accepted sample_end = rev sample_segments) by (vm_compute; reflexivity).
    rewrite Hacc. intros i Hi. destruct i as [|[|[|i]]]; [| | |cbn in Hi; lia].
    + exists (mkSegment 0 [1; 2] false false). split; [apply list_elem_of_In; cbn; auto 10|by repeat split].
    + exists (mkSegment 2 [3] false false). split; [apply list_elem_of_In; cbn; auto 10|by repeat split].
    + exists (mkSegment 3 [4; 5] false false). split; [apply list_elem_of_In; cbn; auto 10|by repeat split].
  - exists sample_fin. split; [|done].
    assert (Hacc : rx_accepted sample_end = rev sample_segments) by (vm_compute; reflexivity).
    rewrite Hacc. apply list_elem_of_In; cbn; auto 10.
Defined.

Definition sample_gap : rx :=
  fold_left rx_do [mkSegment 3 [4; 5] false false; mkSegment 8 [7] false false] (reassembly_start sample_cfg).

Lemma sample_gap_inv : rinv (rx_r sample_gap).
Proof.
  destruct sample_cfg_ok as [Hc Hm].
  eapply (steps_invariant (rx_step (fun _ => True)) (fun s => rinv (rx_r s)));
    [apply rx_rinv_step| |apply rx_do_steps].
  - by apply (NewReassembler_inv sample_cfg).
  - by apply NewReassembler_inv.
  - repeat constructor; cbn; lia.
Qed.

Lemma close_releases_charges_witness :
  exists r' b', Reassembler_Close (map_to_list (buffer (rx_r sample_gap))) (rx_r sample_gap) = Some r' /\
    memory r' = Some b' /\ used b' = 0.
Proof.
  destruct (close_releases_charges (rx_r sample_gap) (mkBudget 32 3 3 0 0)
    (map_to_list (buffer (rx_r sample_gap))) sample_gap_inv eq_refl (Permutation_refl _))
    as (r' & b' & H1 & _ & H2 & H3 & _).
  exists r', b'. split; [done|]. split; [done|]. rewrite H3. reflexivity.
Defined.

Lemma received_ranges_exact_witness :
  ReceivedRanges (rx_r sample_gap) 4 = [(3, 5); (8, 9)] /\
  covered (ReceivedRanges (rx_r sample_gap) 4) 4.
Proof.
  split; [reflexivity|].
  destruct (received_ranges_exact (rx_r sample_gap) 4 sample_gap_inv ltac:(lia)) as (_ & _ & _ & _ & H).
  destruct (H 4) as [Hc|[Hl _]]; [|exact Hc|].
  - exists 3, (mkSegment 3 [4; 5] false true). split; [reflexivity|unfold len; cbn; lia].
  - vm_compute in Hl. discriminate Hl.
Defined.

Definition sample_open_cfg : ReassemblerConfig := mkRConfig 64 8 None.
Definition sample_prefix : rx :=
  fold_left rx_do [mkSegment 0 [1; 2] false false] (reassembly_start sample_open_cfg).

Lemma duplicate_at_cursor_is_buffered_witness :
  exists closed r',
    Reassembler_insert (rx_r sample_prefix) (mkSegment 0 [1; 2] false false) false =
      Some (([], closed, None), r') /\ BufferedFrames r' = 1.
Proof.
  assert (Hr : rinv (rx_r sample_prefix)).
  { eapply (steps_invariant (rx_step (fun _ => True)) (fun s => rinv (rx_r s)));
      [apply rx_rinv_step| |apply rx_do_steps].
    - by apply (NewReassembler_inv sample_open_cfg).
    - by apply NewReassembler_inv.
    - repeat constructor; cbn; lia. }
  destruct (duplicate_at_cursor_is_buffered (rx_r sample_prefix) (mkSegment 0 [1; 2] false false) false)
    as (c & r' & H1 & H2 & _); try done.
  exists c, r'. done.
Defined.
