(* ===== verification/AckTrack.v ===== *)
(** The sender's record of acknowledged bytes ([internal/pep/acktrack.go]).

    [ackTracker] keeps a cumulative point and the acknowledged spans above it.
    Each method's critical section is one definition; the waits are modelled by
    one pass of their loops.  The abstract state is the set of acknowledged
    offsets, [acked].  The theorems show that every history of operations
    leaves exactly the union of what the peer reported, in the normal form the
    scans rely on, and that [Covered] and the snapshots decide that set. *)

From S2P Require Import Prelude.

Record ackTracker := mkTracker {
  cumulative : Z;
  tr_ranges : list (Z * Z);
  tr_closed : bool;
  gen : Z
}.

Definition newAckTracker : ackTracker := mkTracker 0 [] false 0.

(** The order of [sort.Slice] in [mergeLocked]: by start, then by end. *)
Definition range_le (x y : Z * Z) : Prop :=
  fst x < fst y \/ (fst x = fst y /\ snd x <= snd y).

Global Instance range_le_dec : RelDecision range_le.
Proof. intros x y. unfold range_le. apply _. Defined.

(** The loop of [mergeLocked]; [merged] is newest first, its head is [last]. *)
Fixpoint merge_loop (merged rs : list (Z * Z)) : list (Z * Z) :=
  match rs with
  | [] => merged
  | r :: rest =>
      match merged with
      | last :: older =>
          if fst r <=? snd last
          then merge_loop ((fst last, if snd r >? snd last then snd r else snd last) :: older) rest
          else merge_loop (r :: merged) rest
      | [] => merge_loop [r] rest
      end
  end.

Definition mergeLocked (rs : list (Z * Z)) : list (Z * Z) :=
  if len rs <? 2 then rs
  else
    match merge_sort range_le rs with
    | first :: rest => rev (merge_loop [first] rest)
    | [] => []
    end.

(** One pass of [compactLocked] over the ranges: the cumulative point, the
    ranges kept, and whether anything was folded or dropped. *)
Fixpoint compact_pass (cum : Z) (rs : list (Z * Z)) : Z * list (Z * Z) * bool :=
  match rs with
  | [] => (cum, [], false)
  | r :: rest =>
      if snd r <=? cum then
        let '(c, kept, _) := compact_pass cum rest in (c, kept, true)
      else if fst r <=? cum then
        let '(c, kept, _) := compact_pass (snd r) rest in (c, kept, true)
      else
        let '(c, kept, p) := compact_pass cum rest in (c, r :: kept, p)
  end.

(** The second loop of [compactLocked]; a pass that makes progress drops a
    range, which bounds the passes. *)
Fixpoint compact_loop (fuel : nat) (cum : Z) (rs : list (Z * Z)) : Z * list (Z * Z) :=
  match fuel with
  | O => (cum, rs)
  | S fuel' =>
      let '(c, kept, progress) := compact_pass cum rs in
      if progress : bool then compact_loop fuel' c kept else (c, kept)
  end.

Definition compactLocked (t : ackTracker) : ackTracker :=
  let '(c, kept, _) := compact_pass (cumulative t) (tr_ranges t) in
  let '(c, kept) := compact_loop (S (length kept)) c kept in
  mkTracker c kept (tr_closed t) (gen t).

Definition bump (t : ackTracker) : ackTracker :=
  mkTracker (cumulative t) (tr_ranges t) (tr_closed t) (gen t +u64 1).

Definition Advance (t : ackTracker) (sequence : Z) : ackTracker :=
  if sequence <=? cumulative t then t
  else bump (compactLocked (mkTracker sequence (tr_ranges t) (tr_closed t) (gen t))).

Definition add_keeps (cum : Z) (r : Z * Z) : bool := negb ((snd r <=? fst r) || (snd r <=? cum)).

Definition Add (t : ackTracker) (ranges : list (Z * Z)) : ackTracker :=
  if len ranges =? 0 then t
  else
    let appended := tr_ranges t ++ filter (fun r => Is_true (add_keeps (cumulative t) r)) ranges in
    bump (compactLocked (mkTracker (cumulative t) (mergeLocked appended) (tr_closed t) (gen t))).

(** The scan of [coveredLocked]. *)
Fixpoint covered_scan (rs : list (Z * Z)) (start stop : Z) : bool :=
  match rs with
  | [] => false
  | r :: rest =>
      if fst r >? start then false
      else if snd r >? start then
        if snd r >=? stop then true else covered_scan rest (snd r) stop
      else covered_scan rest start stop
  end.

Definition coveredLocked (t : ackTracker) (start stop : Z) : bool :=
  if stop <=? start then true
  else if stop <=? cumulative t then true
  else
    let start := if start <? cumulative t then cumulative t else start in
    covered_scan (tr_ranges t) start stop.

Definition Covered (t : ackTracker) (start stop : Z) : bool := coveredLocked t start stop.

(** What one pass of a waiting loop does. *)
Inductive wait_outcome :=
| WaitDone (g : Z)
| WaitClosed (g : Z)
| WaitCancelled (g : Z)
| WaitBlock.

Definition Wait_pass (t : ackTracker) (ctx_done : bool) (start stop : Z) : wait_outcome :=
  if coveredLocked t start stop then WaitDone (gen t)
  else if tr_closed t then WaitClosed (gen t)
  else if ctx_done then WaitCancelled (gen t)
  else WaitBlock.

Definition WaitChange_pass (t : ackTracker) (ctx_done : bool) (since : Z) : wait_outcome :=
  if negb (gen t =? since) then WaitDone (gen t)
  else if tr_closed t then WaitClosed (gen t)
  else if ctx_done then WaitCancelled (gen t)
  else WaitBlock.

Definition tracker_Close (t : ackTracker) : ackTracker :=
  mkTracker (cumulative t) (tr_ranges t) true (gen t).

Definition Touch (t : ackTracker) : ackTracker := bump t.

Record ackSnapshot := mkAckSnapshot { sn_cumulative : Z; sn_ranges : list (Z * Z) }.

Definition tracker_Snapshot (t : ackTracker) : ackSnapshot :=
  mkAckSnapshot (cumulative t) (if len (tr_ranges t) >? 0 then [] ++ tr_ranges t else []).

Definition highest (s : ackSnapshot) : Z :=
  fold_left (fun top r => if snd r >? top then snd r else top) (sn_ranges s) (sn_cumulative s).

Definition covers (s : ackSnapshot) (start stop : Z) : bool :=
  if (stop <=? start) || (stop <=? sn_cumulative s) then true
  else
    let start := if start <? sn_cumulative s then sn_cumulative s else start in
    covered_scan (sn_ranges s) start stop.

(** ** The abstract state and the normal form *)

(** The offset [x] has been acknowledged. *)
Definition acked (t : ackTracker) (x : Z) : Prop := x < cumulative t \/ covered (tr_ranges t) x.

(** Ranges in order, non-empty and apart. *)
Definition apart (rs : list (Z * Z)) : Prop :=
  StronglySorted (fun x y => snd x < fst y) rs /\ Forall (fun x => fst x < snd x) rs.

Definition ack_wf (t : ackTracker) : Prop :=
  apart (tr_ranges t) /\ Forall (fun x => cumulative t < fst x) (tr_ranges t).

Inductive ack_op :=
| OpAdvance (sequence : Z)
| OpAdd (ranges : list (Z * Z))
| OpTouch
| OpClose.

Definition ack_apply (t : ackTracker) (op : ack_op) : ackTracker :=
  match op with
  | OpAdvance s => Advance t s
  | OpAdd rs => Add t rs
  | OpTouch => Touch t
  | OpClose => tracker_Close t
  end.

(** What an operation reports as received. *)
Definition op_reports (x : Z) (op : ack_op) : Prop :=
  match op with
  | OpAdvance s => x < s
  | OpAdd rs => covered rs x
  | _ => False
  end.

(** ** Compaction *)

Lemma compact_pass_spec : forall rs cum c kept p,
  compact_pass cum rs = (c, kept, p) ->
  cum <= c /\ kept `sublist_of` rs /\
  (forall x, (x < c \/ covered kept x) <-> (x < cum \/ covered rs x)) /\
  (if p : bool then (length kept < length rs)%nat
   else c = cum /\ kept = rs /\ Forall (fun r => cum < fst r) rs).
Proof.
  induction rs as [|[a b] rs IH]; intros cum c kept p He; cbn [compact_pass fst snd] in He.
  { injection He as <- <- <-. split; [lia|]. split; [done|]. split; [done|]. auto. }
  destruct (b <=? cum) eqn:E1; [|destruct (a <=? cum) eqn:E2]; bool_to_prop.
  - destruct (compact_pass cum rs) as [[c' k'] p'] eqn:Er. injection He as <- <- <-.
    destruct (IH _ _ _ _ Er) as (H1 & H2 & H3 & _). split; [done|]. split; [by apply sublist_cons|].
    split; [|apply sublist_length in H2; cbn; lia].
    intros x. rewrite H3, covered_cons. intuition lia.
  - destruct (compact_pass b rs) as [[c' k'] p'] eqn:Er. injection He as <- <- <-.
    destruct (IH _ _ _ _ Er) as (H1 & H2 & H3 & _). split; [lia|]. split; [by apply sublist_cons|].
    split; [|apply sublist_length in H2; cbn; lia].
    intros x. rewrite H3, covered_cons. destruct (decide (x < cum)); intuition lia.
  - destruct (compact_pass cum rs) as [[c' k'] p'] eqn:Er. injection He as <- <- <-.
    destruct (IH _ _ _ _ Er) as (H1 & H2 & H3 & H4). split; [done|]. split; [by apply sublist_skip|].
    split; [intros x; rewrite !covered_cons; specialize (H3 x); tauto|].
    destruct p'; [cbn; lia|]. destruct H4 as (-> & -> & H4). split; [done|]. split; [done|].
    by constructor.
Qed.

Lemma compact_loop_spec : forall fuel rs cum c kept,
  (length rs < fuel)%nat -> compact_loop fuel cum rs = (c, kept) ->
  cum <= c /\ kept `sublist_of` rs /\
  (forall x, (x < c \/ covered kept x) <-> (x < cum \/ covered rs x)) /\
  Forall (fun r => c < fst r) kept.
Proof.
  induction fuel as [|fuel IH]; intros rs cum c kept Hf He; [lia|]. cbn in He.
  destruct (compact_pass cum rs) as [[c1 k1] p] eqn:Ep.
  destruct (compact_pass_spec _ _ _ _ _ Ep) as (H1 & H2 & H3 & H4). destruct p.
  - destruct (IH k1 c1 c kept ltac:(lia) He) as (G1 & G2 & G3 & G4).
    split; [lia|]. split; [by etransitivity|]. split; [|done]. intros x. by rewrite G3, H3.
  - injection He as <- <-. destruct H4 as (-> & -> & H4). done.
Qed.

Lemma apart_sublist rs rs' : rs `sublist_of` rs' -> apart rs' -> apart rs.
Proof.
  intros Hs [H1 H2]. split; [by eapply StronglySorted_sublist|].
  rewrite Forall_forall in *. intros x Hx. apply H2. by eapply elem_of_sublist.
Qed.

Lemma compactLocked_spec t :
  apart (tr_ranges t) ->
  ack_wf (compactLocked t) /\ cumulative t <= cumulative (compactLocked t) /\
  (forall x, acked (compactLocked t) x <-> acked t x) /\
  tr_closed (compactLocked t) = tr_closed t /\ gen (compactLocked t) = gen t.
Proof.
  intros Ha. unfold compactLocked.
  destruct (compact_pass _ _) as [[c1 k1] p] eqn:Ep.
  destruct (compact_pass_spec _ _ _ _ _ Ep) as (H1 & H2 & H3 & _).
  destruct (compact_loop _ c1 k1) as [c kept] eqn:El.
  destruct (compact_loop_spec _ _ _ _ _ (Nat.lt_succ_diag_r _) El) as (G1 & G2 & G3 & G4).
  split; [|split; [cbn; lia|split; [|done]]].
  - split; cbn; [|done]. eapply apart_sublist; [|exact Ha]. by etransitivity.
  - intros x. unfold acked. cbn. by rewrite G3, H3.
Qed.

(** ** Merging *)

Lemma merge_loop_spec : forall rs acc,
  StronglySorted range_le rs -> Forall (fun r => fst r < snd r) rs ->
  StronglySorted (fun x y => snd y < fst x) acc -> Forall (fun r => fst r < snd r) acc ->
  (forall a b rest, acc = (a, b) :: rest -> Forall (fun r => a <= fst r) rs) ->
  StronglySorted (fun x y => snd y < fst x) (merge_loop acc rs) /\
  Forall (fun r => fst r < snd r) (merge_loop acc rs) /\
  forall x, covered (merge_loop acc rs) x <-> covered acc x \/ covered rs x.
Proof.
  induction rs as [|[a b] rs IH]; intros acc Hs Hn Ha Hna Hhd; cbn [merge_loop].
  { split; [done|]. split; [done|]. intros x. rewrite covered_nil. tauto. }
  apply StronglySorted_cons in Hs as [Hle Hs]. apply Forall_cons in Hn as [Hab Hn]. cbn in Hab.
  assert (Hge : Forall (fun r => a <= fst r) rs).
  { eapply Forall_impl; [exact Hle|]. unfold range_le. cbn. intros; lia. }
  destruct acc as [|[a' b'] older]; cbn [fst snd].
  - destruct (IH [(a, b)] Hs Hn) as (H1 & H2 & H3); [repeat constructor|by repeat constructor| |].
    + by intros ? ? ? [= <- <- <-].
    + split; [done|]. split; [done|]. intros x. rewrite H3, !covered_cons, covered_nil. tauto.
  - pose proof (Hhd a' b' older eq_refl) as Hh. apply Forall_cons in Hh as [Haa Hh]. cbn in Haa.
    apply StronglySorted_cons in Ha as [Ha1 Ha2]. apply Forall_cons in Hna as [Hab' Hna]. cbn in Hab'.
    destruct (a <=? b') eqn:E; bool_to_prop.
    + set (top := if b >? b' then b else b').
      assert (Ht : b' <= top /\ b <= top /\ (top = b \/ top = b')).
      { subst top. destruct (b >? b') eqn:E1; bool_to_prop; lia. }
      destruct (IH ((a', top) :: older) Hs Hn) as (H1 & H2 & H3).
      * by constructor.
      * constructor; [cbn; lia|done].
      * by intros ? ? ? [= <- <- <-].
      * split; [done|]. split; [done|]. intros x. rewrite H3, !covered_cons. intuition lia.
    + destruct (IH ((a, b) :: (a', b') :: older) Hs Hn) as (H1 & H2 & H3).
      * constructor; [by constructor|]. constructor; [cbn; lia|].
        eapply Forall_impl; [exact Ha1|]. cbn. intros; lia.
      * by repeat constructor.
      * by intros ? ? ? [= <- <- <-].
      * split; [done|]. split; [done|]. intros x. rewrite H3, !covered_cons. tauto.
Qed.

Global Instance range_le_total : Total range_le.
Proof. intros x y. unfold range_le. lia. Qed.

Global Instance range_le_trans : Transitive range_le.
Proof. intros x y z. unfold range_le. lia. Qed.

Lemma mergeLocked_spec rs :
  Forall (fun r => fst r < snd r) rs ->
  apart (mergeLocked rs) /\ forall x, covered (mergeLocked rs) x <-> covered rs x.
Proof.
  intros Hn. unfold mergeLocked. destruct (len rs <? 2) eqn:E; bool_to_prop.
  { split; [|done]. split; [|done]. destruct rs as [|r [|r' rs]]; [constructor|repeat constructor|].
    rewrite !len_cons in E. pose proof (len_nonneg rs). lia. }
  pose proof (merge_sort_Permutation range_le rs) as Hp.
  pose proof (StronglySorted_merge_sort range_le rs) as Hs.
  destruct (merge_sort range_le rs) as [|[a b] l].
  { apply Permutation_nil in Hp. subst rs. by cbn in E. }
  assert (Hn' : Forall (fun r => fst r < snd r) ((a, b) :: l)) by (by rewrite Hp).
  apply Forall_cons in Hn' as [Hab Hl]. apply StronglySorted_cons in Hs as [Hle Hs].
  destruct (merge_loop_spec l [(a, b)] Hs Hl) as (H1 & H2 & H3).
  - repeat constructor.
  - by repeat constructor.
  - intros ? ? ? [= <- <- <-]. eapply Forall_impl; [exact Hle|]. unfold range_le. cbn. intros; lia.
  - split.
    + split; [by apply StronglySorted_rev in H1|by apply Forall_rev].
    + intros x. rewrite covered_rev, H3, <- (covered_perm _ _ x Hp), !covered_cons, covered_nil. tauto.
Qed.

(** ** Every operation *)

Lemma Advance_spec t s :
  ack_wf t -> ack_wf (Advance t s) /\ forall x, acked (Advance t s) x <-> acked t x \/ x < s.
Proof.
  intros [Ha Hc]. unfold Advance. destruct (s <=? cumulative t) eqn:E; bool_to_prop.
  { split; [done|]. intros x. unfold acked. intuition lia. }
  destruct (compactLocked_spec (mkTracker s (tr_ranges t) (tr_closed t) (gen t)) Ha)
    as (Hwf & _ & Hx & _).
  split; [done|]. intros x. change (acked (bump ?u) x) with (acked u x). rewrite Hx.
  unfold acked. cbn. intuition lia.
Qed.

Lemma covered_filter cum rs x :
  cum <= x -> covered (filter (fun r => Is_true (add_keeps cum r)) rs) x <-> covered rs x.
Proof.
  intros Hx. unfold covered. split; intros (a & b & Hin & Hab); exists a, b; (split; [|done]).
  - by apply list_elem_of_filter in Hin as [_ Hin].
  - apply list_elem_of_filter. split; [|done]. unfold add_keeps. cbn.
    replace (b <=? a) with false by lia. by replace (b <=? cum) with false by lia.
Qed.

Lemma Add_spec t rs :
  ack_wf t -> ack_wf (Add t rs) /\ forall x, acked (Add t rs) x <-> acked t x \/ covered rs x.
Proof.
  intros [[Hs Hn] Hc]. unfold Add. destruct (len rs =? 0) eqn:E; bool_to_prop.
  { apply len_zero_nil in E as ->. split; [done|]. intros x. rewrite covered_nil. tauto. }
  set (app := tr_ranges t ++ _).
  destruct (mergeLocked_spec app) as [Hm1 Hm2].
  { subst app. apply Forall_app. split; [done|]. apply Forall_forall. intros [a b] Hin.
    apply list_elem_of_filter in Hin as [Hk _]. unfold add_keeps in Hk. cbn in Hk |- *.
    apply Is_true_true in Hk. bool_to_prop. done. }
  destruct (compactLocked_spec (mkTracker (cumulative t) (mergeLocked app) (tr_closed t) (gen t)) Hm1)
    as (Hwf & _ & Hx & _).
  split; [done|]. intros x. change (acked (bump ?u) x) with (acked u x). rewrite Hx.
  unfold acked. cbn [cumulative tr_ranges]. rewrite Hm2. subst app. rewrite covered_app.
  destruct (decide (x < cumulative t)) as [Hlt|Hge]; [tauto|].
  rewrite covered_filter by lia. tauto.
Qed.

Lemma ack_apply_spec t op :
  ack_wf t -> ack_wf (ack_apply t op) /\
  forall x, acked (ack_apply t op) x <-> acked t x \/ op_reports x op.
Proof.
  intros Hwf. destruct op; cbn [ack_apply op_reports].
  - by apply Advance_spec.
  - by apply Add_spec.
  - split; [done|]. intros x. change (acked (Touch t) x) with (acked t x). tauto.
  - split; [done|]. intros x. change (acked (tracker_Close t) x) with (acked t x). tauto.
Qed.

Lemma newAckTracker_wf : ack_wf newAckTracker.
Proof. repeat constructor. Qed.

Lemma ack_history_spec ops : forall t,
  ack_wf t -> ack_wf (fold_left ack_apply ops t) /\
  forall x, acked (fold_left ack_apply ops t) x <-> acked t x \/ Exists (op_reports x) ops.
Proof.
  induction ops as [|op ops IH]; intros t Hwf; cbn [fold_left].
  { split; [done|]. intros x. rewrite Exists_nil. tauto. }
  destruct (ack_apply_spec t op Hwf) as [Hwf1 Hx1]. destruct (IH _ Hwf1) as [Hwf2 Hx2].
  split; [done|]. intros x. rewrite Hx2, Hx1, Exists_cons. tauto.
Qed.

(** ** Queries *)

Lemma covered_below rs x : Forall (fun r => x < fst r) rs -> ~ covered rs x.
Proof.
  intros Hf (a & b & Hin & Hx). rewrite Forall_forall in Hf. specialize (Hf _ Hin). cbn in Hf. lia.
Qed.

(** The scan decides whether the ranges cover the rest of the interval. *)
Lemma covered_scan_spec rs : forall start stop,
  apart rs -> start < stop ->
  covered_scan rs start stop = true <-> forall x, start <= x < stop -> covered rs x.
Proof.
  induction rs as [|[a b] rs IH]; intros start stop [Hs Hn] Hlt; cbn [covered_scan fst snd].
  { split; [done|]. intros H. destruct (covered_nil start) as [Hc _]. exfalso. apply Hc, H. lia. }
  apply StronglySorted_cons in Hs as [Hgt Hs]. apply Forall_cons in Hn as [Hab Hn]. cbn in Hab, Hgt.
  assert (Hrest : forall x, x <= b -> ~ covered rs x).
  { intros x Hx. apply covered_below. eapply Forall_impl; [exact Hgt|]. cbn. intros; lia. }
  destruct (a >? start) eqn:E1; bool_to_prop.
  { split; [done|]. intros H. specialize (H start ltac:(lia)). apply covered_cons in H as [H|H]; [lia|].
    exfalso. by apply (Hrest start ltac:(lia)). }
  destruct (b >? start) eqn:E2; bool_to_prop.
  - destruct (b >=? stop) eqn:E3; bool_to_prop.
    + split; [|done]. intros _ x Hx. apply covered_cons. left. lia.
    + rewrite (IH b stop (conj Hs Hn) ltac:(lia)). split; intros H x Hx.
      * apply covered_cons. destruct (decide (x < b)); [left; lia|right; apply H; lia].
      * specialize (H x ltac:(lia)). apply covered_cons in H as [H|H]; [lia|done].
  - rewrite (IH start stop (conj Hs Hn) Hlt). split; intros H x Hx.
    + apply covered_cons. right. by apply H.
    + specialize (H x Hx). apply covered_cons in H as [H|H]; [lia|done].
Qed.

Lemma coveredLocked_spec t start stop :
  ack_wf t -> coveredLocked t start stop = true <-> forall x, start <= x < stop -> acked t x.
Proof.
  intros [Ha Hc]. unfold coveredLocked, acked.
  destruct (stop <=? start) eqn:E1; bool_to_prop; [split; [intros _ x Hx; lia|done]|].
  destruct (stop <=? cumulative t) eqn:E2; bool_to_prop; [split; [intros _ x Hx; lia|done]|].
  destruct (start <? cumulative t) eqn:E3; bool_to_prop; rewrite covered_scan_spec by (done || lia).
  - split; intros H x Hx.
    + destruct (decide (x < cumulative t)); [by left|right]. apply H. lia.
    + destruct (H x ltac:(lia)); [lia|done].
  - split; intros H x Hx; [right; by apply H|]. destruct (H x Hx); [lia|done].
Qed.

Lemma tracker_Snapshot_spec t :
  sn_cumulative (tracker_Snapshot t) = cumulative t /\ sn_ranges (tracker_Snapshot t) = tr_ranges t.
Proof. by destruct t as [c [|r rs] cl g]. Qed.

Lemma covers_coveredLocked t start stop :
  covers (tracker_Snapshot t) start stop = coveredLocked t start stop.
Proof.
  unfold covers, coveredLocked. destruct (tracker_Snapshot_spec t) as [-> ->].
  by destruct (stop <=? start), (stop <=? cumulative t).
Qed.

Lemma highest_fold rs : forall c,
  Forall (fun r => fst r < snd r) rs ->
  let top := fold_left (fun top r => if snd r >? top then snd r else top) rs c in
  c <= top /\ (forall x, covered rs x -> x < top) /\ (top = c \/ covered rs (top - 1)).
Proof.
  induction rs as [|[a b] rs IH]; intros c Hn; cbn [fold_left snd].
  { split; [lia|]. split; [|by left]. intros x H. by apply covered_nil in H. }
  apply Forall_cons in Hn as [Hab Hn]. cbn in Hab.
  destruct (IH (if b >? c then b else c) Hn) as (H1 & H2 & H3).
  set (top := fold_left _ _ _) in *. destruct (b >? c) eqn:E; bool_to_prop.
  - split; [lia|]. split.
    + intros x Hx. apply covered_cons in Hx as [?|?]; [lia|by apply H2].
    + right. apply covered_cons. destruct H3 as [->|H3]; [left; lia|by right].
  - split; [lia|]. split.
    + intros x Hx. apply covered_cons in Hx as [?|?]; [lia|by apply H2].
    + destruct H3 as [?|H3]; [by left|]. right. apply covered_cons. by right.
Qed.

(** ** Theorems *)

(** C13: the tracker implements the set of acknowledged bytes.  After any history
    of cumulative acknowledgements, range reports, touches and closing, in any
    order and with any overlap, an offset is acknowledged exactly when some
    report covered it, the ranges are in normal form (sorted, non-empty, apart
    and above the cumulative point), and [Covered], hence [Wait], answers
    exactly whether the whole interval is acknowledged. *)
Theorem tracker_refines_set ops start stop :
  let t := fold_left ack_apply ops newAckTracker in
  ack_wf t /\
  (forall x, 0 <= x -> (acked t x <-> Exists (op_reports x) ops)) /\
  (Covered t start stop = true <-> forall x, start <= x < stop -> acked t x) /\
  (forall ctx_done, Covered t start stop = true <-> Wait_pass t ctx_done start stop = WaitDone (gen t)).
Proof.
  intros t. destruct (ack_history_spec ops newAckTracker newAckTracker_wf) as [Hwf Hx].
  fold t in Hwf, Hx. split; [done|]. split; [|split; [by apply coveredLocked_spec|]].
  - intros x H0. rewrite Hx. unfold acked at 1. cbn. rewrite covered_nil. intuition lia.
  - intros ctx. unfold Wait_pass, Covered.
    destruct (coveredLocked t start stop), (tr_closed t), ctx; split; done.
Qed.

(** A snapshot answers as the tracker does, and [highest] is the end of the
    acknowledged set: nothing at or above it is acknowledged, and the byte below
    it is. *)
Theorem snapshot_agrees t start stop :
  ack_wf t ->
  covers (tracker_Snapshot t) start stop = Covered t start stop /\
  (forall x, acked t x -> x < highest (tracker_Snapshot t)) /\
  acked t (highest (tracker_Snapshot t) - 1).
Proof.
  intros [[Hs Hn] Hc]. split; [apply covers_coveredLocked|].
  unfold highest. destruct (tracker_Snapshot_spec t) as [-> ->].
  destruct (highest_fold (tr_ranges t) (cumulative t) Hn) as (H1 & H2 & H3). unfold acked. split.
  - intros x [?|?]; [lia|by apply H2].
  - destruct H3 as [->|H3]; [left; lia|by right].
Qed.

(** A watcher misses nothing.  An operation that acknowledges an offset not
    acknowledged before changes the generation, so a pass of [WaitChange] that
    would have blocked before it returns after it. *)
Theorem tracker_signals_changes t op x :
  ack_wf t -> 0 <= gen t < 2 ^ 64 -> ~ acked t x -> acked (ack_apply t op) x ->
  WaitChange_pass (ack_apply t op) false (gen t) = WaitDone (gen (ack_apply t op)) /\
  gen (ack_apply t op) <> gen t.
Proof.
  intros Hwf Hg Hno Hyes.
  assert (Hb : wrap 64 (gen t + 1) <> gen t).
  { intros He. unfold wrap in He. destruct (decide (gen t + 1 < 2 ^ 64)).
    - rewrite Z.mod_small in He by lia. lia.
    - replace (gen t + 1) with (2 ^ 64) in He by lia. rewrite Z_mod_same_full in He. zlia. }
  assert (Hgen : gen (ack_apply t op) <> gen t).
  { destruct op as [s|rs| |]; cbn [ack_apply] in *; try done.
    - unfold Advance in *. destruct (s <=? _); [done|]. cbn [bump gen].
      by destruct (compactLocked_spec (mkTracker s (tr_ranges t) (tr_closed t) (gen t)) (proj1 Hwf))
        as (_ & _ & _ & _ & ->).
    - unfold Add in *. destruct (len rs =? 0); [done|]. cbn [bump gen]. unfold compactLocked.
      destruct (compact_pass _ _) as [[c k] p]. by destruct (compact_loop _ c k). }
  split; [|done]. unfold WaitChange_pass. by replace (_ =? _) with false by lia.
Qed.

(** ** Witnesses *)

Definition sample_tracker : ackTracker :=
  fold_left ack_apply [OpAdd [(20, 30); (10, 15)]; OpAdvance 5; OpAdd [(15, 21)]] newAckTracker.

Lemma snapshot_agrees_witness :
  covers (tracker_Snapshot sample_tracker) 10 30 = Covered sample_tracker 10 30 /\
  highest (tracker_Snapshot sample_tracker) = 30 /\ Covered sample_tracker 4 30 = false.
Proof.
  split; [|by vm_compute].
  refine (proj1 (snapshot_agrees sample_tracker 10 30 _)).
  apply (ack_history_spec [OpAdd [(20, 30); (10, 15)]; OpAdvance 5; OpAdd [(15, 21)]]), newAckTracker_wf.
Defined.

Lemma tracker_signals_changes_witness :
  gen (ack_apply sample_tracker (OpAdvance 8)) <> gen sample_tracker.
Proof.
  refine (proj2 (tracker_signals_changes sample_tracker (OpAdvance 8) 6 _ _ _ _)).
  - apply (ack_history_spec [OpAdd [(20, 30); (10, 15)]; OpAdvance 5; OpAdd [(15, 21)]]), newAckTracker_wf.
  - vm_compute. split; [discriminate|reflexivity].
  - change (cumulative sample_tracker) with 5. intros [H|H]; [vm_compute in H; discriminate H|].
    apply (covered_below [(10, 30)] 6); [by repeat constructor|]. exact H.
  - left. by vm_compute.
Defined.

Lemma tracker_refines_set_witness :
  acked sample_tracker 25 <->
  Exists (op_reports 25) [OpAdd [(20, 30); (10, 15)]; OpAdvance 5; OpAdd [(15, 21)]].
Proof.
  destruct (tracker_refines_set
    [OpAdd [(20, 30); (10, 15)]; OpAdvance 5; OpAdd [(15, 21)]] 10 30) as (_ & H & _).
  apply H. lia.
Defined.
