(* ===== verification/AckPath.v ===== *)
(** The acknowledgement path of a striped flow ([internal/pep/mpflow.go]).

    The receiver's half ([ackRx]) publishes what the reassembler holds, coalesces
    the cumulative point and builds the acknowledgement frames; the sender's half
    ([ackTx]) takes such a frame into its replay state and its tracker.  [link]
    puts a reassembler, both halves and the frames in flight together: frames may
    be delayed, reordered, repeated or lost.  The theorem shows that the sender
    only ever believes acknowledged what the receiver holds, and never fails the
    flow over an acknowledgement its peer sent. *)

From S2P Require Import Prelude Frame Memlimit Reassembly AckTrack.
Import protocol.

(** ** The receiver's half *)

Record ackRx := mkAckRx {
  pendingRanges : list (Z * Z);
  ackSequence : Z;
  gapPending : bool;
  ackWake : bool;
  ackClosing : bool;
  ackRanges : bool;
  acksSched : Z
}.

Definition set_pendingRanges (a : ackRx) (rs : list (Z * Z)) : ackRx :=
  mkAckRx rs (ackSequence a) (gapPending a) (ackWake a) (ackClosing a) (ackRanges a) (acksSched a).

Definition publishReceivedRanges (a : ackRx) (r : Reassembler) : ackRx :=
  if negb (ackRanges a) then a
  else set_pendingRanges a (ReceivedRanges r MaxAckRanges).

Definition takeReceivedRanges (a : ackRx) (cum : Z) : list (Z * Z) * ackRx :=
  let fresh := filter (fun r => cum <= fst r) (pendingRanges a) in
  (fresh, set_pendingRanges a fresh).

Definition scheduleACK (a : ackRx) (sequence : Z) : ackRx :=
  if (sequence =? 0) || ackClosing a then a
  else mkAckRx (pendingRanges a)
         (if sequence <=? ackSequence a then ackSequence a else sequence)
         (gapPending a) true (ackClosing a) (ackRanges a) (acksSched a +u64 1).

Definition reportGap (a : ackRx) : ackRx :=
  if ackClosing a || negb (ackRanges a) then a
  else mkAckRx (pendingRanges a) (ackSequence a) true true (ackClosing a) (ackRanges a) (acksSched a).

Definition acknowledgeArrival (a : ackRx) (r : Reassembler) (lastAck : Z) : ackRx * Z :=
  if NextSequence r >? lastAck then
    (scheduleACK (publishReceivedRanges a r) (NextSequence r), NextSequence r)
  else if BufferedFrames r >? 0 then
    (reportGap (publishReceivedRanges a r), lastAck)
  else (a, lastAck).

(** The identity a flow stamps on its frames. *)
Record flow_id := mkFlowId { fl_session : bytes; fl_flow : Z; fl_class : Z }.

(** The frame [writeACK] builds. *)
Definition writeACK_frame (id : flow_id) (a : ackRx) (sequence direction : Z) (final : bool)
    : Frame * ackRx :=
  let flags := if final then Z.lor direction FlagAckFinal else direction in
  let '(payload, flags, a) :=
    if negb final && ackRanges a then
      let '(fresh, a) := takeReceivedRanges a sequence in
      match EncodeAckRanges fresh with
      | Ok encoded => if len encoded >? 0 then (encoded, Z.lor flags FlagAckRanges, a) else ([], flags, a)
      | Err _ => ([], flags, a)
      end
    else ([], flags, a) in
  (mkFrame (mkHeader Version TypeAck flags (fl_session id) (fl_flow id) sequence 0 (fl_class id)) payload, a).

(** ** The sender's half *)

Record ackTx := mkAckTx {
  highestSent : Z;
  tx_acked : Z;
  ackTrack : ackTracker;
  closeFrame : option Z;
  finSequence : Z
}.

Inductive ack_error :=
| AckWrongDirection
| AckExceedsSent
| AckBadRanges (e : ferror)
| AckFinalMismatch.

Definition noteSent (t : ackTx) (sequence n : Z) : ackTx :=
  let stop := sequence +u64 n in
  if stop >? highestSent t
  then mkAckTx stop (tx_acked t) (ackTrack t) (closeFrame t) (finSequence t) else t.

Definition acknowledgeReplay (t : ackTx) (sequence : Z) (final : bool) : result ack_error (bool * ackTx) :=
  if sequence >? highestSent t then Err AckExceedsSent
  else if sequence <? tx_acked t then Ok (false, t)
  else
    Ok (sequence >? tx_acked t,
        mkAckTx (highestSent t) sequence (Advance (ackTrack t) sequence)
          (match closeFrame t with
           | Some s => if final && (s <=? sequence) then None else Some s
           | None => None
           end) (finSequence t)).

(** The acknowledgement case of [receiveInner]. *)
Definition receive_ack (sendAckFlag : Z) (t : ackTx) (frame : Frame) : result ack_error ackTx :=
  let h := f_Header frame in
  if Z.land (h_Flags h) sendAckFlag =? 0 then Err AckWrongDirection
  else if Z.land (h_Flags h) FlagAckFinal =? 0 then
    match acknowledgeReplay t (h_Sequence h) false with
    | Err e => Err e
    | Ok (_, t) =>
        if negb (Z.land (h_Flags h) FlagAckRanges =? 0) then
          match DecodeAckRanges (f_Payload frame) (h_Sequence h) with
          | Err e => Err (AckBadRanges e)
          | Ok ranges =>
              Ok (mkAckTx (highestSent t) (tx_acked t) (Add (ackTrack t) ranges) (closeFrame t) (finSequence t))
          end
        else Ok t
    end
  else if h_Sequence h =? finSequence t then
    match acknowledgeReplay t (h_Sequence h) true with
    | Err e => Err e
    | Ok (_, t) => Ok t
    end
  else Err AckFinalMismatch.

(** ** Both halves and the path between them *)

Record link := mkLink {
  lk_r : Reassembler;
  lk_rx : ackRx;
  lk_lastAck : Z;
  lk_wire : list Frame;
  lk_tx : ackTx
}.

(** The data case of [receiveInner], up to the acknowledgement. *)
Definition receive_data (r : Reassembler) (a : ackRx) (last : Z) (seg : Segment)
    : option (bytes * Reassembler * ackRx * Z) :=
  match Reassembler_InsertOwned r seg with
  | None => None
  | Some ((out, _, Some _), r') => Some (out, r', a, last)
  | Some ((out, _, None), r') =>
      let '(a', last') := acknowledgeArrival a r' last in Some (out, r', a', last')
  end.

Section Link.
Variable id : flow_id.
Variable direction : Z.

Inductive link_step : link -> link -> Prop :=
| lk_send r a last w t sequence n :
    0 <= sequence -> 0 <= n -> sequence + n < 2 ^ 64 ->
    link_step (mkLink r a last w t) (mkLink r a last w (noteSent t sequence n))
| lk_data r a last w t seg out r' a' last' :
    segment_typed seg -> Sequence seg + len (Payload seg) <= highestSent t ->
    receive_data r a last seg = Some (out, r', a', last') ->
    link_step (mkLink r a last w t) (mkLink r' a' last' w t)
| lk_fin r a last w t seg res r' :
    segment_typed seg -> Final seg = true -> Sequence seg + len (Payload seg) <= highestSent t ->
    Reassembler_Insert r seg = Some (res, r') ->
    link_step (mkLink r a last w t) (mkLink r' a last w t)
| lk_memory r a last w t m :
    budget_covers m (r_bytes r) ->
    link_step (mkLink r a last w t) (mkLink (set_memory r m) a last w t)
| lk_ack r a last w t f a' :
    writeACK_frame id a (ackSequence a) direction false = (f, a') ->
    link_step (mkLink r a last w t) (mkLink r a' last (f :: w) t)
| lk_final_ack r a last w t f a' :
    writeACK_frame id a (next r) direction true = (f, a') ->
    link_step (mkLink r a last w t) (mkLink r a' last (f :: w) t)
| lk_receive r a last w t f t' :
    f ∈ w -> receive_ack direction t f = Ok t' ->
    link_step (mkLink r a last w t) (mkLink r a last w t').

End Link.

Definition link_start (cfg : ReassemblerConfig) (ranges_on : bool) (fin : Z) : link :=
  mkLink (NewReassembler cfg) (mkAckRx [] 0 false false false ranges_on 0) 0 []
    (mkAckTx 0 0 newAckTracker None fin).

(** The receiver has the byte at [x]. *)
Definition received (r : Reassembler) (x : Z) : Prop := x < next r \/ held r x.

(** ** Lemmas on the receiver *)

(** An insertion never loses a byte, never moves the cursor back, and never goes
    past what the arriving segments carried. *)
Lemma insert_received r seg owned out c e r' H :
  rinv r -> segment_typed seg -> Reassembler_insert r seg owned = Some ((out, c, e), r') ->
  next r <= H -> (forall k s, buffer r !! k = Some s -> k + len (Payload s) <= H) ->
  Sequence seg + len (Payload seg) <= H ->
  rinv r' /\ next r <= next r' <= H /\
  (forall k s, buffer r' !! k = Some s -> k + len (Payload s) <= H) /\
  (forall x, received r x -> received r' x).
Proof.
  intros Hr Ht He Hn Hb Hs. destruct (insert_spec r seg owned Hr Ht) as (res & r1 & He1 & Hr1 & Hins).
  rewrite He in He1. injection He1 as <- <-. split; [done|].
  inversion Hins; subst; clear Hins; try (split; [lia|done]).
  - cbn [buffer_segment next buffer]. split; [lia|]. split.
    + intros k s Hk. apply lookup_insert_Some in Hk as [[<- <-]|[_ Hk]]; [done|by apply Hb].
    + intros x [Hx|(k & s & Hk & Hx)]; [by left|right]. exists k, s. split; [|done]. cbn.
      rewrite lookup_insert_ne by congruence. done.
  - match goal with H : drained _ _ _ _ |- _ => destruct H as [_ Hn' Hbuf Hk Hc _ _ _] end.
    pose proof (len_nonneg (concat (delivery r seg))) as Hl. split; [split; [lia|]|split].
    + rewrite Hn'. match goal with H : Sequence seg = next r |- _ => rewrite <- H end.
      apply (chain_ends (fun x => x <= H)); [by apply rinv_buf_ok| |done|done|].
      * intros k s Hks _. by apply Hb.
      * pose proof (len_nonneg (Payload seg)). lia.
    + intros k s Hks. by apply Hb, Hk.
    + intros x [Hx|(k & s & Hks & Hx)]; [left; lia|].
      destruct (Hbuf k s Hks) as [?|?]; [right; by exists k, s|left; lia].
Qed.

(** ** The invariant of the link *)

(** A list of ranges the receiver can report. *)
Record reportable (r : Reassembler) (rs : list (Z * Z)) : Prop := mk_reportable {
  rp_len : len rs <= MaxAckRanges;
  rp_ok : Forall (fun x => 0 <= fst x < snd x /\ snd x < 2 ^ 64) rs;
  rp_sorted : StronglySorted (fun x y => snd x < fst y) rs;
  rp_held : forall x, covered rs x -> received r x
}.

(** An acknowledgement the receiver sent at some point. *)
Definition ack_frame_ok (direction : Z) (r : Reassembler) (f : Frame) : Prop :=
  0 <= h_Sequence (f_Header f) <= next r /\
  ((exists final : bool, h_Flags (f_Header f) = if final then Z.lor direction FlagAckFinal else direction) \/
   (h_Flags (f_Header f) = Z.lor direction FlagAckRanges /\
    exists rs, EncodeAckRanges rs = Ok (f_Payload f) /\ ranges_above (h_Sequence (f_Header f)) rs /\
      Forall Range_typed rs /\ forall x, covered rs x -> received r x)).

Definition tx_ok (r : Reassembler) (t : ackTx) : Prop :=
  ack_wf (ackTrack t) /\ (forall x, acked (ackTrack t) x -> received r x).

Record link_inv (direction : Z) (l : link) : Prop := mk_link_inv {
  li_r : rinv (lk_r l);
  li_sent : next (lk_r l) <= highestSent (lk_tx l);
  li_ends : forall k s, buffer (lk_r l) !! k = Some s -> k + len (Payload s) <= highestSent (lk_tx l);
  li_pending : reportable (lk_r l) (pendingRanges (lk_rx l));
  li_ackseq : 0 <= ackSequence (lk_rx l) <= next (lk_r l);
  li_wire : Forall (ack_frame_ok direction (lk_r l)) (lk_wire l);
  li_tx : tx_ok (lk_r l) (lk_tx l)
}.

Definition is_direction (d : Z) : Prop := d = FlagAckUp \/ d = FlagAckDown.

Lemma received_ranges_reportable r : rinv r -> reportable r (ReceivedRanges r MaxAckRanges).
Proof.
  intros Hr. destruct (received_ranges_spec r MaxAckRanges Hr ltac:(done)) as (H1 & H2 & H3 & H4 & _).
  split; try done. intros x Hx. right. by apply H4.
Qed.

Lemma apart_ranges_above c rs :
  Forall (fun x => c <= fst x < snd x) rs -> StronglySorted (fun x y => snd x < fst y) rs ->
  ranges_above c rs.
Proof.
  revert c. induction rs as [|[a b] rs IH]; intros c Hf Hs; [done|].
  apply Forall_cons in Hf as [[H1 H2] Hf]. apply StronglySorted_cons in Hs as [Hlt Hs]. cbn in *.
  split; [done|]. split; [done|]. apply IH; [|done].
  rewrite Forall_forall in *. intros x Hx. specialize (Hf x Hx). specialize (Hlt x Hx). cbn in *. lia.
Qed.

Lemma reportable_fresh r a c :
  reportable r (pendingRanges a) -> reportable r (fst (takeReceivedRanges a c)) /\
  ranges_above c (fst (takeReceivedRanges a c)).
Proof.
  intros [H1 H2 H3 H4]. cbn.
  set (rs := filter _ _).
  assert (Hsub : rs `sublist_of` pendingRanges a) by apply sublist_filter.
  assert (Hf : Forall (fun x => 0 <= fst x < snd x /\ snd x < 2 ^ 64) rs).
  { rewrite Forall_forall in *. intros x Hx. apply H2. by eapply elem_of_sublist. }
  assert (Hs : StronglySorted (fun x y => snd x < fst y) rs) by (by eapply StronglySorted_sublist).
  split.
  - split; try done.
    + apply sublist_length in Hsub. unfold len in *. lia.
    + intros x (a' & b' & Hin & Hx). apply H4. exists a', b'. split; [by eapply elem_of_sublist|done].
  - apply apart_ranges_above; [|done]. rewrite Forall_forall in *. intros x Hx.
    specialize (Hf x Hx). apply list_elem_of_filter in Hx as [Hc _]. cbn in *. lia.
Qed.

Lemma encode_reportable r rs : reportable r rs -> exists p, EncodeAckRanges rs = Ok p.
Proof.
  intros [H1 H2 _ _]. unfold EncodeAckRanges. replace (len rs >? MaxAckRanges) with false by lia.
  eexists. apply encode_ranges_spec. split; [|reflexivity].
  eapply Forall_impl; [exact H2|]. cbn. intros; lia.
Qed.

Lemma writeACK_frame_ok id direction a r sequence final f a' :
  reportable r (pendingRanges a) -> 0 <= sequence <= next r ->
  writeACK_frame id a sequence direction final = (f, a') ->
  ack_frame_ok direction r f /\ reportable r (pendingRanges a') /\ ackSequence a' = ackSequence a.
Proof.
  intros Hp Hs He. unfold writeACK_frame in He.
  destruct (reportable_fresh r a sequence Hp) as [Hr Ha].
  destruct (negb final && ackRanges a) eqn:E.
  - bool_to_prop. subst final. destruct (takeReceivedRanges a sequence) as [fresh a1] eqn:Et.
    assert (Ha1 : a1 = set_pendingRanges a fresh) by (unfold takeReceivedRanges in Et; congruence).
    cbn [fst] in *. destruct (encode_reportable r fresh Hr) as [p Hpe]. rewrite Hpe in He.
    destruct (len p >? 0); injection He as <- <-; (split; [|by subst a1]); (split; [done|]); cbn.
    + right. split; [done|]. exists fresh. split; [done|]. split; [done|]. split; [|apply Hr].
      eapply Forall_impl; [apply Hr|]. intros [x y]. unfold Range_typed, in_range. cbn. lia.
    + left. by exists false.
  - injection He as <- <-. split; [|done]. split; [done|]. left. by exists final.
Qed.

(** Taking an acknowledgement the receiver sent. *)
Lemma receive_ack_ok direction r t f :
  is_direction direction -> next r <= highestSent t -> ack_frame_ok direction r f -> tx_ok r t ->
  match receive_ack direction t f with
  | Ok t' => tx_ok r t' /\ highestSent t' = highestSent t
  | Err _ => Z.land (h_Flags (f_Header f)) FlagAckFinal <> 0 /\ h_Sequence (f_Header f) <> finSequence t
  end.
Proof.
  intros Hd Hn [Hseq Hf] [Hwf Hack]. unfold receive_ack.
  assert (Hdir : (Z.land (h_Flags (f_Header f)) direction =? 0) = false).
  { destruct Hf as [[[|] ->]|[-> _]]; by destruct Hd as [-> | ->]. }
  rewrite Hdir.
  assert (Hrep : forall final, exists adv t', acknowledgeReplay t (h_Sequence (f_Header f)) final = Ok (adv, t') /\
    tx_ok r t' /\ highestSent t' = highestSent t).
  { intros final. unfold acknowledgeReplay. replace (_ >? highestSent t) with false by lia.
    destruct (_ <? tx_acked t); [by do 2 eexists|]. do 2 eexists. split; [done|]. split; [|done].
    destruct (Advance_spec (ackTrack t) (h_Sequence (f_Header f)) Hwf) as [Hw Hx]. split; [done|].
    cbn. intros x Hxx. apply Hx in Hxx as [?|?]; [by apply Hack|left; lia]. }
  destruct (Z.land (h_Flags (f_Header f)) FlagAckFinal =? 0) eqn:Ef; bool_to_prop.
  - destruct (Hrep false) as (adv & t' & -> & [Hwf' Hack'] & Hh).
    destruct Hf as [[final Hfl]|(Hfl & rs & Henc & Hab & Hty & Hcov)].
    + replace (Z.land _ FlagAckRanges =? 0) with true; [done|].
      rewrite Hfl in Ef |- *. destruct final; [|by destruct Hd as [-> | ->]].
      by destruct Hd as [-> | ->].
    + replace (Z.land _ FlagAckRanges =? 0) with false by (rewrite Hfl; by destruct Hd as [-> | ->]).
      rewrite (decode_encoded_ranges _ _ rs Hab Hty Henc). cbn [negb]. split; [|done].
      destruct (Add_spec (ackTrack t') rs Hwf') as [Hw Hx]. split; [done|]. cbn.
      intros x Hxx. apply Hx in Hxx as [?|?]; [by apply Hack'|by apply Hcov].
  - destruct (h_Sequence _ =? finSequence t) eqn:Eq; [|bool_to_prop; done].
    by destruct (Hrep true) as (adv & t' & -> & ? & ?).
Qed.

Lemma reportable_mono r r' rs :
  (forall x, received r x -> received r' x) -> reportable r rs -> reportable r' rs.
Proof. intros Hm [H1 H2 H3 H4]. split; auto. Qed.

Lemma ack_frame_ok_mono direction r r' f :
  next r <= next r' -> (forall x, received r x -> received r' x) ->
  ack_frame_ok direction r f -> ack_frame_ok direction r' f.
Proof.
  intros Hn Hm [Hs Hf]. split; [lia|]. destruct Hf as [Hf|(Hf & rs & H1 & H2 & H3 & H4)]; [by left|right].
  split; [done|]. exists rs. repeat (split; [done|]). auto.
Qed.

(** Everything the link knows about the receiver survives an insertion. *)
Lemma link_inv_insert direction r a last w t seg owned out c e r' :
  link_inv direction (mkLink r a last w t) -> segment_typed seg ->
  Sequence seg + len (Payload seg) <= highestSent t ->
  Reassembler_insert r seg owned = Some ((out, c, e), r') ->
  link_inv direction (mkLink r' a last w t).
Proof.
  intros [Hr Hs He Hp Ha Hw [Ht1 Ht2]] Hty Hend Hi. cbn in *.
  destruct (insert_received r seg owned out c e r' (highestSent t) Hr Hty Hi Hs He Hend)
    as (Hr' & Hn & Hb & Hm).
  split; cbn; try done; try lia.
  - by eapply reportable_mono.
  - eapply Forall_impl; [exact Hw|]. intros f. apply ack_frame_ok_mono; [lia|done].
  - split; [done|]. intros x Hx. by apply Hm, Ht2.
Qed.

Lemma acknowledgeArrival_inv direction r a last w t a' last' :
  link_inv direction (mkLink r a last w t) -> acknowledgeArrival a r last = (a', last') ->
  link_inv direction (mkLink r a' last' w t).
Proof.
  intros [Hr Hs He Hp Ha Hw Ht] Hk. cbn in *.
  pose proof (received_ranges_reportable r Hr) as Hrep. pose proof (ri_next r Hr) as [[Hn0 _] _].
  unfold acknowledgeArrival, scheduleACK, reportGap, publishReceivedRanges, NextSequence in Hk.
  split_ifs_in Hk; injection Hk as <- <-; split; cbn; done || lia.
Qed.

Lemma noteSent_highest t sequence n :
  highestSent t <= highestSent (noteSent t sequence n) /\ ackTrack (noteSent t sequence n) = ackTrack t.
Proof. unfold noteSent. destruct (_ >? _) eqn:E; bool_to_prop; cbn; split; done || lia. Qed.

Lemma link_inv_step id direction l l' :
  is_direction direction -> link_inv direction l -> link_step id direction l l' -> link_inv direction l'.
Proof.
  intros Hd Hl Hstep. destruct Hstep as
    [r a last w t sequence n|r a last w t seg out r' a' last' Hty Hend He|r a last w t seg res r' Hty _ Hend He
    |r a last w t m Hm|r a last w t f a' He|r a last w t f a' He|r a last w t f t' Hin He].
  - destruct Hl as [Hr Hs He Hp Ha Hw [Ht1 Ht2]]. cbn in *.
    destruct (noteSent_highest t sequence n) as [Hh Ht]. split; cbn; try done; try lia.
    + intros k s Hk. specialize (He k s Hk). lia.
    + split; by rewrite Ht.
  - unfold receive_data, Reassembler_InsertOwned in He.
    destruct (Reassembler_insert r seg true) as [[[[o c] [e|]] r1]|] eqn:Ei; [| |done].
    + injection He as <- <- <- <-. by eapply link_inv_insert.
    + destruct (acknowledgeArrival a r1 last) as [a1 last1] eqn:Ek. injection He as <- <- <- <-.
      eapply acknowledgeArrival_inv; [|exact Ek]. by eapply link_inv_insert.
  - destruct res as [[o c] e]. by eapply link_inv_insert.
  - destruct Hl as [Hr Hs He Hp Ha Hw Ht]. cbn in *. split; cbn; try done.
    + by apply set_memory_inv.
    + by eapply reportable_mono; [|exact Hp].
  - destruct Hl as [Hr Hs Hen Hp Ha Hw Ht]. cbn in *.
    destruct (writeACK_frame_ok _ _ _ _ _ _ _ _ Hp Ha He) as (Hf & Hp' & Hq).
    split; cbn; try done; [by rewrite Hq|by constructor].
  - destruct Hl as [Hr Hs Hen Hp Ha Hw Ht]. cbn in Hr, Hs, Hen, Hp, Ha, Hw, Ht.
    pose proof (ri_next r Hr) as [[Hn0 _] _].
    destruct (writeACK_frame_ok _ _ _ _ _ _ _ _ Hp (conj Hn0 (Z.le_refl _)) He) as (Hf & Hp' & Hq).
    split; cbn; try done; [by rewrite Hq|by constructor].
  - destruct Hl as [Hr Hs Hen Hp Ha Hw Ht]. cbn in *.
    rewrite Forall_forall in Hw. pose proof (receive_ack_ok direction r t f Hd Hs (Hw f Hin) Ht) as Hrec.
    rewrite He in Hrec. destruct Hrec as [Ht' Hh]. split; cbn; try done; try (by rewrite Hh).
    by apply Forall_forall.
Qed.

Lemma link_inv_start direction cfg on fin :
  config_ok cfg -> memory_ok (cfg_Memory cfg) -> link_inv direction (link_start cfg on fin).
Proof.
  intros Hc Hm. pose proof (NewReassembler_inv cfg Hc Hm) as Hr. split; cbn; try done.
  - split; [done|constructor|constructor|]. intros x Hx. by apply covered_nil in Hx.
  - split; [apply newAckTracker_wf|]. intros x [Hx|Hx]; [by left|by apply covered_nil in Hx].
Qed.

(** What a final acknowledgement must name. *)
Lemma receive_final direction t f t' :
  receive_ack direction t f = Ok t' -> Z.land (h_Flags (f_Header f)) FlagAckFinal <> 0 -> h_Sequence (f_Header f) = finSequence t.
Proof.
  unfold receive_ack. intros H Hfin. destruct (Z.land _ direction =? 0); [done|]. replace (Z.land _ FlagAckFinal =? 0) with false in H by lia.
  destruct (_ =? finSequence t) eqn:E; [by bool_to_prop|done].
Qed.


(** ** Witness *)

Definition sample_id : flow_id := mkFlowId (replicate 16 7) 9 ClassBulk.
Definition sample_link : link :=
  let cfg := mkRConfig 64 8 None in
  let r := rx_r (rx_do (reassembly_start cfg) (mkSegment 4 [5; 6] false false)) in
  let a := mkAckRx [(4, 6)] 0 true true false true 0 in
  let '(f, a') := writeACK_frame sample_id a 0 FlagAckUp false in
  mkLink r a' 0 [f] (mkAckTx 8 0 newAckTracker None 8).

Lemma sample_link_reachable :
  steps (link_step sample_id FlagAckUp) (link_start (mkRConfig 64 8 None) true 8) sample_link.
Proof.
  eapply steps_cons; [apply (lk_send sample_id FlagAckUp _ _ _ _ _ 0 8); lia|].
  eapply steps_cons.
  { eapply (lk_data sample_id FlagAckUp _ _ _ _ _ (mkSegment 4 [5; 6] false false)).
    - repeat split; cbn; lia.
    - vm_compute. discriminate.
    - vm_compute. reflexivity. }
  eapply steps_cons; [|apply steps_refl].
  eapply (lk_ack sample_id FlagAckUp). vm_compute. reflexivity.
Qed.

