(* ===== verification/GF256.v ===== *)
(** The field of bytes ([internal/fec/gf.go]).

    The tables are built as [init] builds them: powers of the generator in
    [gfExp], their logarithms in [gfLog], products in [gfMul].  The lemmas
    reduce every fact to two scans of the tables (the logarithm inverts the
    exponential, and consecutive powers differ by one multiplication by [x]), so
    that multiplication is shown bilinear, commutative and associative, with
    [inv] its inverse, without enumerating triples of bytes. *)

From S2P Require Import Prelude.

Definition primitivePolynomial : Z := 0x11d.

(** The body of the first loop of [init]: multiply by [x]. *)
Definition gf_double (x : Z) : Z :=
  let x := Z.shiftl x 1 in
  if negb (Z.land x 0x100 =? 0) then Z.lxor x primitivePolynomial else x.

(** The values [x] takes in the first loop of [init]. *)
Fixpoint gf_powers (n : nat) (x : Z) : list Z :=
  match n with
  | O => []
  | S k => x :: gf_powers k (gf_double x)
  end.

Definition gfExp : list Z :=
  Eval vm_compute in (let first := gf_powers 255 1 in first ++ first ++ take 2 first).

(** The stores [gfLog[byte(x)] = byte(i)], in order. *)
Fixpoint log_stores (xs : list Z) (i : Z) (log : list Z) : list Z :=
  match xs with
  | [] => log
  | x :: rest => log_stores rest (i + 1) (<[Z.to_nat x := i]> log)
  end.

Definition gfLog : list Z :=
  Eval vm_compute in log_stores (take 255 gfExp) 0 (replicate 256 0).

(** Indexing a table. *)
Definition tab (t : list Z) (i : Z) : Z := nth (Z.to_nat i) t 0.

(** The entry [gfMul[a][b]]: row and column zero are never stored to. *)
Definition gfMul (a b : Z) : Z :=
  if (a =? 0) || (b =? 0) then 0 else tab gfExp (tab gfLog a + tab gfLog b).

Definition inv (a : Z) : Z :=
  if a =? 0 then 0 else tab gfExp (255 - tab gfLog a).

(** [mulSliceXor]; every caller passes slices of equal length. *)
Fixpoint mul_slice (c : Z) (inp out : bytes) : bytes :=
  match inp, out with
  | x :: inp', y :: out' => Z.lxor y (gfMul c x) :: mul_slice c inp' out'
  | _, _ => out
  end.

Fixpoint xor_slice (inp out : bytes) : bytes :=
  match inp, out with
  | x :: inp', y :: out' => Z.lxor y x :: xor_slice inp' out'
  | _, _ => out
  end.

Definition mulSliceXor (coefficient : Z) (inp out : bytes) : bytes :=
  if coefficient =? 0 then out
  else if coefficient =? 1 then xor_slice inp out
  else mul_slice coefficient inp out.

(** ** The scans *)

Definition nonzero_bytes : list Z := map Z.of_nat (seq 1 255).

Lemma exp_log_scan :
  forallb (fun a => (tab gfExp (tab gfLog a) =? a) && (0 <=? tab gfLog a) && (tab gfLog a <? 255))
    nonzero_bytes = true.
Proof. vm_compute. reflexivity. Qed.

Lemma exp_step_scan :
  forallb (fun i => nth (S i) gfExp 0 =? gf_double (nth i gfExp 0)) (seq 0 511) = true.
Proof. vm_compute. reflexivity. Qed.

Lemma exp_range_scan : forallb (fun x => (1 <=? x) && (x <? 256)) gfExp = true.
Proof. vm_compute. reflexivity. Qed.

Lemma double_range_scan :
  forallb (fun x => (0 <=? gf_double x) && (gf_double x <? 256)) (map Z.of_nat (seq 0 256)) = true.
Proof. vm_compute. reflexivity. Qed.

(** ** Bytes and exclusive or *)

Lemma byte_in_seq n a : 0 <= a < Z.of_nat n -> a ∈ map Z.of_nat (seq 0 n).
Proof.
  intros Ha. apply list_elem_of_fmap. exists (Z.to_nat a). split; [lia|]. apply elem_of_seq. lia.
Qed.

Lemma forallb_elem {A} (f : A -> bool) l x : forallb f l = true -> x ∈ l -> f x = true.
Proof. rewrite forallb_forall. intros H Hin. apply H. by apply list_elem_of_In. Qed.

Lemma lxor_byte x y : is_byte x -> is_byte y -> is_byte (Z.lxor x y).
Proof.
  unfold is_byte. intros Hx Hy. assert (H0 : 0 <= Z.lxor x y) by (apply Z.lxor_nonneg; lia).
  split; [done|]. destruct (decide (Z.lxor x y = 0)) as [->|Hne]; [lia|].
  change 256 with (2 ^ 8). apply Z.log2_lt_pow2; [lia|].
  pose proof (Z.log2_lxor x y ltac:(lia) ltac:(lia)) as Hl.
  assert (Hb : forall z, 0 <= z < 256 -> Z.log2 z < 8).
  { intros z Hz. destruct (decide (z = 0)) as [->|]; [done|]. apply Z.log2_lt_pow2; lia. }
  pose proof (Hb x Hx). pose proof (Hb y Hy). lia.
Qed.

Lemma lxor_cancel x y : Z.lxor (Z.lxor x y) y = x.
Proof. by rewrite Z.lxor_assoc, Z.lxor_nilpotent, Z.lxor_0_r. Qed.

Lemma lxor_swap a b c d :
  Z.lxor (Z.lxor a b) (Z.lxor c d) = Z.lxor (Z.lxor a c) (Z.lxor b d).
Proof.
  rewrite !Z.lxor_assoc. f_equal. rewrite <- !Z.lxor_assoc. f_equal. apply Z.lxor_comm.
Qed.

Lemma gf_double_byte x : is_byte x -> is_byte (gf_double x).
Proof.
  intros Hx. pose proof (forallb_elem _ _ x double_range_scan (byte_in_seq 256 x Hx)) as H.
  cbn beta in H. bool_to_prop. done.
Qed.

Lemma land_256 x : negb (Z.land x 0x100 =? 0) = Z.testbit x 8.
Proof.
  change 0x100 with (2 ^ 8). destruct (Z.testbit x 8) eqn:E.
  - apply negb_true_iff, Z.eqb_neq. intros H. assert (Hb : Z.testbit (Z.land x (2 ^ 8)) 8 = true).
    { by rewrite Z.land_spec, E, Z.pow2_bits_true by lia. }
    by rewrite H, Z.bits_0 in Hb.
  - apply negb_false_iff, Z.eqb_eq, Z.bits_inj'. intros n Hn. rewrite Z.land_spec, Z.bits_0.
    destruct (decide (n = 8)) as [->|]; [by rewrite E|]. rewrite Z.pow2_bits_false by lia.
    apply andb_false_r.
Qed.

(** Doubling is linear. *)
Lemma gf_double_lxor x y : gf_double (Z.lxor x y) = Z.lxor (gf_double x) (gf_double y).
Proof.
  unfold gf_double. rewrite !land_256, Z.shiftl_lxor, Z.lxor_spec.
  set (a := Z.shiftl x 1). set (b := Z.shiftl y 1). set (p := primitivePolynomial).
  destruct (Z.testbit a 8), (Z.testbit b 8); cbn [xorb].
  - by rewrite lxor_swap, Z.lxor_nilpotent, Z.lxor_0_r.
  - by rewrite !Z.lxor_assoc, (Z.lxor_comm b p).
  - by rewrite Z.lxor_assoc.
  - done.
Qed.

(** ** Multiplication as repeated doubling *)

Fixpoint doubles (k : nat) (x : Z) : Z :=
  match k with O => x | S k' => gf_double (doubles k' x) end.

Lemma doubles_add j k x : doubles (j + k) x = doubles j (doubles k x).
Proof. induction j as [|j IH]; cbn; [done|by rewrite IH]. Qed.

Lemma doubles_lxor k x y : doubles k (Z.lxor x y) = Z.lxor (doubles k x) (doubles k y).
Proof. induction k as [|k IH]; cbn; [done|]. by rewrite IH, gf_double_lxor. Qed.

Lemma doubles_0 k : doubles k 0 = 0.
Proof. induction k as [|k IH]; cbn; [done|]. by rewrite IH. Qed.

Lemma doubles_byte k x : is_byte x -> is_byte (doubles k x).
Proof. intros Hx. induction k as [|k IH]; cbn; [done|]. by apply gf_double_byte. Qed.

(** The table of powers holds the powers. *)
Lemma gfExp_doubles i : (i < 512)%nat -> nth i gfExp 0 = doubles i 1.
Proof.
  induction i as [|i IH]; intros Hi; [done|]. cbn [doubles]. rewrite <- IH by lia.
  pose proof (forallb_elem _ _ i exp_step_scan) as H. cbn beta in H. rewrite elem_of_seq in H.
  specialize (H ltac:(lia)). by bool_to_prop.
Qed.

Definition glog (a : Z) : nat := Z.to_nat (tab gfLog a).

Lemma nonzero_byte_scan a : 0 < a < 256 -> a ∈ nonzero_bytes.
Proof.
  intros Ha. apply list_elem_of_fmap. exists (Z.to_nat a). split; [lia|]. apply elem_of_seq. lia.
Qed.

Lemma glog_spec a : 0 < a < 256 -> (glog a < 255)%nat /\ tab gfLog a = Z.of_nat (glog a) /\ doubles (glog a) 1 = a.
Proof.
  intros Ha. pose proof (forallb_elem _ _ a exp_log_scan (nonzero_byte_scan a Ha)) as H.
  cbn beta in H. bool_to_prop. unfold glog. split; [lia|]. split; [lia|].
  rewrite <- gfExp_doubles by lia. done.
Qed.

Lemma gfMul_doubles a b : 0 < a < 256 -> is_byte b -> gfMul a b = doubles (glog a) b.
Proof.
  intros Ha Hb. unfold gfMul. replace (a =? 0) with false by lia. cbn [orb].
  destruct (b =? 0) eqn:Eb; bool_to_prop; [subst b; by rewrite doubles_0|]. unfold is_byte in Hb.
  destruct (glog_spec a Ha) as (Hla & Hta & _). destruct (glog_spec b ltac:(lia)) as (Hlb & Htb & Hdb).
  rewrite Hta, Htb. unfold tab. rewrite <- Nat2Z.inj_add, Nat2Z.id.
  by rewrite gfExp_doubles, doubles_add, Hdb by lia.
Qed.

(** ** The field laws *)

Lemma gfMul_0_l b : gfMul 0 b = 0.
Proof. done. Qed.

Lemma gfMul_0_r a : gfMul a 0 = 0.
Proof. unfold gfMul. by rewrite orb_true_r. Qed.

Lemma gfMul_comm a b : gfMul a b = gfMul b a.
Proof. unfold gfMul. by rewrite orb_comm, Z.add_comm. Qed.

Lemma gfMul_byte a b : is_byte a -> is_byte b -> is_byte (gfMul a b).
Proof.
  intros Ha Hb. destruct (decide (a = 0)) as [->|Hne]; [done|].
  rewrite gfMul_doubles by (unfold is_byte in *; done || lia). by apply doubles_byte.
Qed.

Lemma gfMul_lxor_r a x y : is_byte a -> is_byte x -> is_byte y ->
  gfMul a (Z.lxor x y) = Z.lxor (gfMul a x) (gfMul a y).
Proof.
  intros Ha Hx Hy. destruct (decide (a = 0)) as [->|Hne]; [done|]. unfold is_byte in Ha.
  rewrite !gfMul_doubles by (done || lia || by apply lxor_byte). apply doubles_lxor.
Qed.

Lemma gfMul_lxor_l a b x : is_byte a -> is_byte b -> is_byte x ->
  gfMul (Z.lxor a b) x = Z.lxor (gfMul a x) (gfMul b x).
Proof. intros. rewrite !(gfMul_comm _ x). by apply gfMul_lxor_r. Qed.

Lemma gfMul_1_l x : is_byte x -> gfMul 1 x = x.
Proof. intros Hx. by rewrite gfMul_doubles. Qed.

Lemma gfMul_assoc a b x : is_byte a -> is_byte b -> is_byte x ->
  gfMul a (gfMul b x) = gfMul (gfMul a b) x.
Proof.
  intros Ha Hb Hx. destruct (decide (a = 0)) as [->|Ha0]; [done|].
  destruct (decide (b = 0)) as [->|Hb0]; [by rewrite (gfMul_0_r a), !gfMul_0_l, gfMul_0_r|].
  destruct (decide (x = 0)) as [->|Hx0]; [by rewrite !gfMul_0_r|]. unfold is_byte in *.
  assert (Hab : 0 < gfMul a b < 256).
  { pose proof (gfMul_byte a b Ha Hb) as Hr. unfold is_byte in Hr. split; [|lia].
    destruct (decide (gfMul a b = 0)) as [H0|]; [|lia]. exfalso. unfold gfMul in H0.
    replace ((a =? 0) || (b =? 0)) with false in H0 by lia.
    destruct (glog_spec a ltac:(lia)) as (Hla & Hta & _). destruct (glog_spec b ltac:(lia)) as (Hlb & Htb & _).
    rewrite Hta, Htb in H0. unfold tab in H0. rewrite <- Nat2Z.inj_add, Nat2Z.id in H0.
    pose proof (forallb_elem _ _ (nth (glog a + glog b) gfExp 0) exp_range_scan) as Hs. cbn beta in Hs.
    rewrite H0 in Hs. assert (Hin : 0 ∈ gfExp).
    { rewrite <- H0. apply list_elem_of_In, nth_In. change (length gfExp) with 512%nat. lia. }
    specialize (Hs Hin). done. }
  destruct (glog_spec x ltac:(lia)) as (_ & _ & Hdx). destruct (glog_spec b ltac:(lia)) as (_ & _ & Hdb).
  destruct (glog_spec (gfMul a b) Hab) as (_ & _ & Hdab).
  rewrite (gfMul_doubles (gfMul a b) x Hab Hx), (gfMul_doubles b x ltac:(lia) Hx).
  rewrite (gfMul_doubles a) by (lia || by apply doubles_byte).
  rewrite <- Hdx, <- !doubles_add, (Nat.add_comm (glog (gfMul a b))), (doubles_add _ (glog (gfMul a b))), Hdab.
  rewrite (gfMul_doubles a b ltac:(lia) Hb). rewrite <- Hdb at 2. rewrite <- !doubles_add. f_equal. lia.
Qed.

Lemma inv_byte a : is_byte a -> is_byte (inv a).
Proof.
  intros Ha. unfold inv. destruct (a =? 0) eqn:E; [done|]. bool_to_prop. unfold is_byte in Ha.
  destruct (glog_spec a ltac:(lia)) as (Hl & Ht & _). rewrite Ht. unfold tab.
  replace (255 - Z.of_nat (glog a)) with (Z.of_nat (255 - glog a)) by lia.
  rewrite Nat2Z.id, gfExp_doubles by lia. by apply doubles_byte.
Qed.

Lemma gfMul_inv a : 0 < a < 256 -> gfMul (inv a) a = 1.
Proof.
  intros Ha. destruct (glog_spec a Ha) as (Hl & Ht & Hd).
  assert (Hi : inv a = doubles (255 - glog a) 1).
  { unfold inv. replace (a =? 0) with false by lia. rewrite Ht. unfold tab.
    replace (255 - Z.of_nat (glog a)) with (Z.of_nat (255 - glog a)) by lia.
    by rewrite Nat2Z.id, gfExp_doubles by lia. }
  rewrite gfMul_comm, (gfMul_doubles a) by (done || by apply inv_byte; unfold is_byte; lia).
  rewrite Hi, <- doubles_add. replace (glog a + (255 - glog a))%nat with 255%nat by lia. done.
Qed.

(** ** Theorems *)

(** The tables are a field.  On bytes, with exclusive or as addition, the
    table product is commutative, associative, distributive and has one as its
    unit, stays in the bytes, and [inv] is the inverse of every non-zero byte. *)
Theorem gf_tables_field a b c :
  is_byte a -> is_byte b -> is_byte c ->
  is_byte (gfMul a b) /\ gfMul a b = gfMul b a /\
  gfMul a (gfMul b c) = gfMul (gfMul a b) c /\
  gfMul a (Z.lxor b c) = Z.lxor (gfMul a b) (gfMul a c) /\
  gfMul 1 a = a /\ (a <> 0 -> gfMul (inv a) a = 1).
Proof.
  intros Ha Hb Hc. split; [by apply gfMul_byte|]. split; [apply gfMul_comm|].
  split; [by apply gfMul_assoc|]. split; [by apply gfMul_lxor_r|]. split; [by apply gfMul_1_l|].
  intros Hne. apply gfMul_inv. unfold is_byte in Ha. lia.
Qed.

Lemma gf_tables_field_witness : gfMul (inv 57) 57 = 1 /\ gfMul 57 (gfMul 200 3) = gfMul (gfMul 57 200) 3.
Proof.
  destruct (gf_tables_field 57 200 3) as (_ & _ & H1 & _ & _ & H2); [done|done|done|].
  split; [by apply H2|done].
Defined.
