(* ===== verification/Window.v ===== *)
(** The sliding-window erasure code ([internal/fec/window.go]).

    [WindowEncoder] keeps the newest source symbols and combines them into
    repair symbols; [WindowDecoder] keeps one linear system over the symbols its
    window spans, in reduced row echelon form.  Vectors are compared by their
    bytes, a short vector reading as zero beyond its end ([at_]).  The theorems
    show that a repair the encoder builds is the combination the decoder
    regenerates, that the window stays exactly as wide as the protocol says and
    never walks further than its width, and that every symbol the decoder
    reconstructs is the symbol that was sent as long as no source symbol arrives
    behind an equation that still mentions it; a concrete run shows what happens
    when one does. *)

From S2P Require Import Prelude GF256.

(** [fec.MaxShards], the number of elements of the field ([rate.go]). *)
Definition MaxShards : Z := 256.
Definition MaxRepairWindow : Z := MaxShards.
Definition MinDecoderWidth : Z := 2 * MaxRepairWindow.
Definition decoderWidth : Z := MinDecoderWidth.
Definition defaultDecoderWidth : Z := decoderWidth.

Record RepairSymbol := mkRepair {
  RID : Z;
  First : Z;
  Count : Z;
  Vector : bytes
}.

Record RecoveredSymbol := mkRecovered { rec_ESI : Z; rec_Vector : bytes }.

Record Delivery := mkDelivery { Recovered : list RecoveredSymbol; Lost : list Z }.

Definition no_delivery : Delivery := mkDelivery [] [].

Definition windowCoefficient (rid index : Z) : Z :=
  let x := rid *u32 2654435761 +u32 (index *u32 2246822519) in
  let x := Z.lxor x (Z.shiftr x 15) in
  let x := x *u32 2654435761 in
  let x := Z.lxor x (Z.shiftr x 13) in
  let x := x *u32 2246822519 in
  let x := Z.lxor x (Z.shiftr x 16) in
  wrap 8 (x mod 255) + 1.

Definition WindowCoefficients (rid count : Z) : list Z :=
  if count <=? 0 then []
  else map (fun i => windowCoefficient rid (Z.of_nat i)) (seq 0 (Z.to_nat count)).

(** [roundUpPowerOfTwo]: the loop doubles at most once per bit of [n]. *)
Fixpoint round_up_loop (fuel : nat) (size n : Z) : Z :=
  match fuel with
  | O => size
  | S fuel' => if size <? n then round_up_loop fuel' (Z.shiftl size 1) n else size
  end.

Definition roundUpPowerOfTwo (n : Z) : Z := round_up_loop (Z.to_nat (Z.log2_up n)) 1 n.

Definition ensure (data : bytes) (length_ : Z) : bytes :=
  if len data >=? length_ then data
  else data ++ replicate (Z.to_nat (length_ - len data)) 0.

Definition addScaled (coefficient : Z) (inp out : bytes) : bytes :=
  let n := Nat.min (length inp) (length out) in
  mulSliceXor coefficient (take n inp) (take n out) ++ drop n out.

Definition scaleBytes (factor : Z) (b : bytes) : bytes :=
  if factor =? 1 then b else map (gfMul factor) b.

(** ** The encoder *)

Record WindowEncoder := mkEncoder {
  ring : list bytes;
  e_mask : Z;
  e_first : Z;
  e_next : Z;
  e_held : Z
}.

(** Reading slot [esi & mask] of the ring. *)
Definition ring_at (e : WindowEncoder) (esi : Z) : bytes :=
  nth (Z.to_nat (Z.land esi (e_mask e))) (ring e) [].

(** The copying loop of [SetCapacity]. *)
Fixpoint copy_ring (e : WindowEncoder) (n : nat) (first i size : Z) (target : list bytes) : list bytes :=
  match n with
  | O => target
  | S n' =>
      let esi := first +u32 i in
      copy_ring e n' first (i + 1) size
        (<[Z.to_nat (Z.land esi (size - 1)) := ring_at e esi]> target)
  end.

Definition SetCapacity (e : WindowEncoder) (capacity : Z) : WindowEncoder :=
  let capacity := if capacity >? MaxRepairWindow then MaxRepairWindow else capacity in
  let size_ := roundUpPowerOfTwo capacity in
  if size_ =? len (ring e) then e
  else
    let keep := if e_held e >? size_ then size_ else e_held e in
    let first := e_next e -u32 keep in
    mkEncoder (copy_ring e (Z.to_nat keep) first 0 size_ (replicate (Z.to_nat size_) []))
      (size_ - 1) first (e_next e) keep.

Definition NewWindowEncoder (capacity : Z) : WindowEncoder := SetCapacity (mkEncoder [] 0 0 0 0) capacity.

Definition Encoder_Capacity (e : WindowEncoder) : Z := len (ring e).
Definition Encoder_Held (e : WindowEncoder) : Z := e_held e.

Definition AddOwned (e : WindowEncoder) (vector : bytes) : Z * WindowEncoder :=
  let esi := e_next e in
  let ring' := <[Z.to_nat (Z.land esi (e_mask e)) := vector]> (ring e) in
  (esi,
   if e_held e <? len (ring e)
   then mkEncoder ring' (e_mask e) (e_first e) (esi +u32 1) (e_held e + 1)
   else mkEncoder ring' (e_mask e) (e_first e +u32 1) (esi +u32 1) (e_held e)).

Definition Encoder_Add (e : WindowEncoder) (vector : bytes) : Z * WindowEncoder :=
  AddOwned e ([] ++ vector).

(** The symbols a repair over [count] symbols from [first] combines. *)
Definition repair_sources (e : WindowEncoder) (first count : Z) : list bytes :=
  map (fun i => ring_at e (first +u32 Z.of_nat i)) (seq 0 (Z.to_nat count)).

Definition repairBounds (e : WindowEncoder) (count : Z) : option (Z * Z * Z) :=
  if e_held e =? 0 then None
  else
    let count := if (count <=? 0) || (count >? e_held e) then e_held e else count in
    let count := if count >? MaxRepairWindow then MaxRepairWindow else count in
    let first := e_next e -u32 count in
    Some (first, count,
      fold_left (fun n v => if len v >? n then len v else n) (repair_sources e first count) 0).

(** The accumulation loop of [AppendRepair]. *)
Fixpoint accumulate (rid i : Z) (sources : list bytes) (vector : bytes) : bytes :=
  match sources with
  | [] => vector
  | v :: rest => accumulate rid (i + 1) rest (addScaled (windowCoefficient rid i) v vector)
  end.

Definition AppendRepair (e : WindowEncoder) (dst : bytes) (rid count : Z)
    : bytes * option RepairSymbol :=
  match repairBounds e count with
  | None => (dst, None)
  | Some (first, count, vlen) =>
      let vector := accumulate rid 0 (repair_sources e first count) (replicate (Z.to_nat vlen) 0) in
      (dst ++ vector, Some (mkRepair rid first count vector))
  end.

Definition Encoder_Repair (e : WindowEncoder) (rid count : Z) : option RepairSymbol :=
  snd (AppendRepair e [] rid count).

Definition RepairVectorSize (e : WindowEncoder) (count : Z) : option Z :=
  match repairBounds e count with Some (_, _, n) => Some n | None => None end.

(** ** The decoder *)

Record decoderSlot := mkSlot {
  s_esi : Z;
  s_vector : bytes;
  s_live : bool;
  s_known : bool
}.

Definition empty_slot : decoderSlot := mkSlot 0 [] false false.

Record windowRow := mkRow { r_pivot : Z; r_coef : bytes; r_data : bytes }.

Record WindowDecoder := mkDecoder {
  slots : list decoderSlot;
  d_mask : Z;
  lo : Z;
  high : Z;
  origin : Z;
  started : bool;
  rows : list windowRow;
  d_recovered : Z;
  d_lost : Z;
  d_discarded : Z
}.

Definition with_rows (d : WindowDecoder) (rs : list windowRow) : WindowDecoder :=
  mkDecoder (slots d) (d_mask d) (lo d) (high d) (origin d) (started d) rs
    (d_recovered d) (d_lost d) (d_discarded d).

Definition with_window (d : WindowDecoder) (lo_ high_ : Z) : WindowDecoder :=
  mkDecoder (slots d) (d_mask d) lo_ high_ (origin d) (started d) (rows d)
    (d_recovered d) (d_lost d) (d_discarded d).

Definition discard (d : WindowDecoder) (n : Z) : WindowDecoder :=
  mkDecoder (slots d) (d_mask d) (lo d) (high d) (origin d) (started d) (rows d)
    (d_recovered d) (d_lost d) (d_discarded d +u64 n).

(** [esi & mask]. *)
Definition slot_of (d : WindowDecoder) (esi : Z) : nat := Z.to_nat (Z.land esi (d_mask d)).

Definition slot_at (d : WindowDecoder) (esi : Z) : decoderSlot := nth (slot_of d esi) (slots d) empty_slot.

Definition coef_at (coef : bytes) (i : nat) : Z := nth i coef 0.

(** The identifiers of a loop [for esi := esi; int32(esi-high) < 0; esi++]. *)
Fixpoint esis (fuel : nat) (esi high_ : Z) : list Z :=
  match fuel with
  | O => []
  | S fuel' =>
      if int32_of (esi -u32 high_) <? 0 then esi :: esis fuel' (esi +u32 1) high_ else []
  end.

Definition window_esis (d : WindowDecoder) : list Z := esis (Z.to_nat (high d -u32 lo d)) (lo d) (high d).

(** [leading]: the oldest identifier a row depends on and how many it depends
    on. *)
Definition leading (d : WindowDecoder) (coef : bytes) : Z * Z :=
  fold_left (fun '(pivot, count) esi =>
    if coef_at coef (slot_of d esi) =? 0 then (pivot, count)
    else (if count =? 0 then esi else pivot, count + 1)) (window_esis d) (0, 0).

(** Removing the unknown at slot [index] from a row, its value being [vector]. *)
Definition substitute_row (index : nat) (vector : bytes) (r : windowRow) : windowRow :=
  let c := coef_at (r_coef r) index in
  if c =? 0 then r
  else mkRow (r_pivot r) (<[index := 0]> (r_coef r)) (addScaled c vector (ensure (r_data r) (len vector))).

Definition substitute (d : WindowDecoder) (esi : Z) (vector : bytes) (out : Delivery) (recovered : bool)
    : WindowDecoder * Delivery :=
  let index := slot_of d esi in
  let s := slot_at d esi in
  if s_live s && s_known s && (s_esi s =? esi) then (d, out)
  else
    (mkDecoder (<[index := mkSlot esi vector true true]> (slots d)) (d_mask d) (lo d) (high d)
       (origin d) (started d) (map (substitute_row index vector) (rows d))
       (if recovered then d_recovered d +u64 1 else d_recovered d) (d_lost d) (d_discarded d),
     if recovered then mkDelivery (Recovered out ++ [mkRecovered esi vector]) (Lost out) else out).

(** One pass of [harvest] over the rows from index [i]; the last component is
    whether a symbol was recovered.  Every turn advances [i] or drops a row. *)
Fixpoint harvest_pass (fuel i : nat) (d : WindowDecoder) (out : Delivery) (progress : bool)
    : WindowDecoder * Delivery * bool :=
  match fuel with
  | O => (d, out, progress)
  | S fuel' =>
      match rows d !! i with
      | None => (d, out, progress)
      | Some r =>
          let '(pivot, count) := leading d (r_coef r) in
          if count =? 0 then
            harvest_pass fuel' i (with_rows d (take i (rows d) ++ drop (i + 1) (rows d))) out progress
          else if count >? 1 then harvest_pass fuel' (S i) d out progress
          else
            let d := with_rows d (take i (rows d) ++ drop (i + 1) (rows d)) in
            let '(d, out) := substitute d pivot (r_data r) out true in
            harvest_pass fuel' i d out true
      end
  end.

(** [harvest]; a pass that makes progress drops a row, which bounds the
    passes. *)
Fixpoint harvest_loop (fuel : nat) (d : WindowDecoder) (out : Delivery) : WindowDecoder * Delivery :=
  match fuel with
  | O => (d, out)
  | S fuel' =>
      let '(d, out, progress) := harvest_pass (length (rows d)) 0 d out false in
      if progress : bool then harvest_loop fuel' d out else (d, out)
  end.

Definition harvest (d : WindowDecoder) (out : Delivery) : WindowDecoder * Delivery :=
  harvest_loop (S (length (rows d))) d out.

(** The first loop of [insert]: remove the symbols already known. *)
Definition eliminate_known (d : WindowDecoder) (coef data : bytes) : bytes * bytes :=
  fold_left (fun '(coef, data) esi =>
    let index := slot_of d esi in
    let s := slot_at d esi in
    if coef_at coef index =? 0 then (coef, data)
    else if s_live s && s_known s
    then (<[index := 0]> coef, addScaled (coef_at coef index) (s_vector s) (ensure data (len (s_vector s))))
    else (coef, data)) (window_esis d) (coef, data).

(** The second loop of [insert]: reduce by the rows held. *)
Definition eliminate_rows (d : WindowDecoder) (coef data : bytes) : bytes * bytes :=
  fold_left (fun '(coef, data) r =>
    let c := coef_at coef (slot_of d (r_pivot r)) in
    if c =? 0 then (coef, data)
    else (mulSliceXor c (r_coef r) coef, addScaled c (r_data r) (ensure data (len (r_data r)))))
    (rows d) (coef, data).

(** The third loop of [insert]: clear the new pivot from a held row. *)
Definition clear_pivot (d : WindowDecoder) (row r : windowRow) : windowRow :=
  let c := coef_at (r_coef r) (slot_of d (r_pivot row)) in
  if c =? 0 then r
  else mkRow (r_pivot r) (mulSliceXor c (r_coef row) (r_coef r))
         (addScaled c (r_data row) (ensure (r_data r) (len (r_data row)))).

Definition Decoder_insert (d : WindowDecoder) (coef data : bytes) (out : Delivery) : WindowDecoder * Delivery :=
  let '(coef, data) := eliminate_known d coef data in
  let '(coef, data) := eliminate_rows d coef data in
  let '(pivot, count) := leading d coef in
  if count =? 0 then (discard d 1, out)
  else
    let f := inv (coef_at coef (slot_of d pivot)) in
    let '(coef, data) := if negb (f =? 1) then (scaleBytes f coef, scaleBytes f data) else (coef, data) in
    let row := mkRow pivot coef data in
    harvest (with_rows d (map (clear_pivot d row) (rows d) ++ [row])) out.

Definition evict (d : WindowDecoder) (esi : Z) (out : Delivery) : WindowDecoder * Delivery :=
  let index := slot_of d esi in
  let s := slot_at d esi in
  let held := s_live s && (s_esi s =? esi) in
  let gone := negb (held && s_known s) && (int32_of (esi -u32 origin d) >=? 0) in
  let kept := filter (fun r => coef_at (r_coef r) index = 0) (rows d) in
  (mkDecoder (if held then <[index := empty_slot]> (slots d) else slots d) (d_mask d) (lo d) (high d)
     (origin d) (started d) kept (d_recovered d)
     (if gone then d_lost d +u64 1 else d_lost d)
     (d_discarded d +u64 (len (rows d) - len kept)),
   if gone then mkDelivery (Recovered out) (Lost out ++ [esi]) else out).

(** The walk of [Decoder_admit]: it stops at [walked], a window's width ahead. *)
Fixpoint admit_walk (fuel : nat) (width walked : Z) (d : WindowDecoder) (out : Delivery)
    : WindowDecoder * Delivery :=
  match fuel with
  | O => (d, out)
  | S fuel' =>
      if (high d -u32 lo d >? width) && (int32_of (lo d -u32 walked) <? 0) then
        let '(d, out) := evict d (lo d) out in
        admit_walk fuel' width walked (with_window d (lo d +u32 1) (high d)) out
      else (d, out)
  end.

Definition Decoder_admit (d : WindowDecoder) (esi : Z) (out : Delivery) : bool * WindowDecoder * Delivery :=
  let width := wrap 32 (len (slots d)) in
  if negb (started d) then
    let high_ := esi +u32 1 in
    (true,
     mkDecoder (slots d) (d_mask d) (high_ -u32 width) high_ esi true (rows d)
       (d_recovered d) (d_lost d) (d_discarded d), out)
  else if int32_of (esi -u32 lo d) <? 0 then (false, d, out)
  else if int32_of (esi -u32 high d) >=? 0 then
    let d := with_window d (lo d) (esi +u32 1) in
    let '(d, out) := admit_walk (S (Z.to_nat width)) width (lo d +u32 width) d out in
    (true, if high d -u32 lo d >? width then with_window d (high d -u32 width) (high d) else d, out)
  else (true, d, out).

Definition witness (d : WindowDecoder) (esi : Z) : WindowDecoder :=
  if started d && (int32_of (esi -u32 origin d) <? 0) && (int32_of (esi -u32 lo d) >=? 0)
  then mkDecoder (slots d) (d_mask d) (lo d) (high d) esi (started d) (rows d)
         (d_recovered d) (d_lost d) (d_discarded d)
  else d.

(** [source]; [owned] only decides whether the vector is copied. *)
Definition Decoder_source (d : WindowDecoder) (esi : Z) (vector : bytes) (owned : bool)
    : WindowDecoder * Delivery :=
  let '(ok, d, out) := Decoder_admit d esi no_delivery in
  if negb ok then (d, out)
  else
    let d := witness d esi in
    let s := slot_at d esi in
    if s_live s && s_known s && (s_esi s =? esi) then (d, out)
    else
      let vector := if owned then vector else [] ++ vector in
      let '(d, out) := substitute d esi vector out false in
      harvest d out.

(** The coefficient row of a repair. *)
Definition repair_coef (d : WindowDecoder) (r : RepairSymbol) : bytes :=
  fold_left (fun coef i =>
    let esi := First r +u32 Z.of_nat i in
    if (int32_of (esi -u32 lo d) <? 0) || (int32_of (esi -u32 high d) >=? 0) then coef
    else <[slot_of d esi := windowCoefficient (RID r) (Z.of_nat i)]> coef)
    (seq 0 (Z.to_nat (Count r))) (replicate (length (slots d)) 0).

Definition Decoder_repair (d : WindowDecoder) (r : RepairSymbol) (owned : bool) : WindowDecoder * Delivery :=
  if (Count r <=? 0) || (len (Vector r) =? 0) then (d, no_delivery)
  else if Count r >? MaxRepairWindow then (discard d 1, no_delivery)
  else
    let '(ok, d, out) := Decoder_admit d (First r +u32 (Count r - 1)) no_delivery in
    if negb ok then (d, out)
    else
      let d := witness d (First r) in
      if int32_of (First r -u32 lo d) <? 0 then (discard d 1, out)
      else
        let vector := if owned then Vector r else [] ++ Vector r in
        Decoder_insert d (repair_coef d r) vector out.

Definition resize (d : WindowDecoder) (width : Z) : WindowDecoder :=
  let size_ := roundUpPowerOfTwo width in
  let mask := wrap 32 (size_ - 1) in
  let at_new (esi : Z) := Z.to_nat (Z.land esi mask) in
  let moved :=
    if started d then
      fold_left (fun sl esi =>
        let s := slot_at d esi in
        if s_live s && (s_esi s =? esi) then <[at_new esi := s]> sl else sl)
        (window_esis d) (replicate (Z.to_nat size_) empty_slot)
    else replicate (Z.to_nat size_) empty_slot in
  let carry (r : windowRow) :=
    mkRow (r_pivot r)
      (fold_left (fun coef esi => <[at_new esi := coef_at (r_coef r) (slot_of d esi)]> coef)
         (window_esis d) (replicate (Z.to_nat size_) 0)) (r_data r) in
  mkDecoder moved mask (if started d then high d -u32 size_ else lo d) (high d) (origin d) (started d)
    (map carry (rows d)) (d_recovered d) (d_lost d) (d_discarded d).

Definition NewWindowDecoder : WindowDecoder :=
  resize (mkDecoder [] 0 0 0 0 false [] 0 0 0) defaultDecoderWidth.

Definition Decoder_Source (d : WindowDecoder) (esi : Z) (v : bytes) := Decoder_source d esi v false.
Definition Decoder_SourceOwned (d : WindowDecoder) (esi : Z) (v : bytes) := Decoder_source d esi v true.
Definition Decoder_Repair (d : WindowDecoder) (r : RepairSymbol) := Decoder_repair d r false.
Definition Decoder_RepairOwned (d : WindowDecoder) (r : RepairSymbol) := Decoder_repair d r true.
Definition Decoder_Width (d : WindowDecoder) : Z := len (slots d).

(** ** Vectors *)

(** The [j]-th byte of a vector, zero beyond its end. *)
Definition at_ (v : bytes) (j : nat) : Z := nth j v 0.

Definition same_vector (v w : bytes) : Prop := forall j, at_ v j = at_ w j.

Lemma at_byte v j : Forall is_byte v -> is_byte (at_ v j).
Proof.
  intros Hv. unfold at_. destruct (nth_in_or_default j v 0) as [Hin| ->]; [|done].
  rewrite Forall_forall in Hv. apply Hv. by apply list_elem_of_In.
Qed.

Lemma mul_slice_at c inp : forall out j, length inp = length out ->
  at_ (mul_slice c inp out) j = Z.lxor (at_ out j) (gfMul c (at_ inp j)).
Proof.
  induction inp as [|x inp IH]; intros [|y out] j Hl; try done; cbn [mul_slice].
  - unfold at_. destruct j; by rewrite gfMul_0_r.
  - destruct j as [|j]; [done|]. apply (IH out j). by injection Hl.
Qed.

Lemma xor_slice_at inp : forall out j, length inp = length out ->
  at_ (xor_slice inp out) j = Z.lxor (at_ out j) (at_ inp j).
Proof.
  induction inp as [|x inp IH]; intros [|y out] j Hl; try done; cbn [xor_slice].
  - unfold at_. by destruct j.
  - destruct j as [|j]; [done|]. apply (IH out j). by injection Hl.
Qed.

Lemma mul_slice_length c inp : forall out, length (mul_slice c inp out) = length out.
Proof. induction inp as [|x inp IH]; intros [|y out]; cbn; auto. Qed.

Lemma xor_slice_length inp : forall out, length (xor_slice inp out) = length out.
Proof. induction inp as [|x inp IH]; intros [|y out]; cbn; auto. Qed.

Lemma mulSliceXor_length c inp out : length (mulSliceXor c inp out) = length out.
Proof.
  unfold mulSliceXor. split_ifs; [done|apply xor_slice_length|apply mul_slice_length].
Qed.

Lemma mulSliceXor_at c inp out j : Forall is_byte inp -> length inp = length out ->
  at_ (mulSliceXor c inp out) j = Z.lxor (at_ out j) (gfMul c (at_ inp j)).
Proof.
  intros Hb Hl. unfold mulSliceXor. destruct (c =? 0) eqn:E0; [|destruct (c =? 1) eqn:E1]; bool_to_prop.
  - subst c. by rewrite gfMul_0_l, Z.lxor_0_r.
  - subst c. rewrite gfMul_1_l by (by apply at_byte). by apply xor_slice_at.
  - by apply mul_slice_at.
Qed.

Lemma at_ext_Forall v : (forall j, is_byte (at_ v j)) <-> Forall is_byte v.
Proof.
  split; [|intros H j; by apply at_byte]. intros H. apply Forall_lookup. intros i x Hx.
  specialize (H i). unfold at_ in H. by rewrite (nth_lookup_Some v i 0 x Hx) in H.
Qed.

Lemma mulSliceXor_bytes c inp out : is_byte c -> Forall is_byte inp -> Forall is_byte out ->
  length inp = length out -> Forall is_byte (mulSliceXor c inp out).
Proof.
  intros Hc Hi Ho Hl. apply at_ext_Forall. intros j. rewrite mulSliceXor_at by done.
  apply lxor_byte; [by apply at_byte|]. apply gfMul_byte; [done|by apply at_byte].
Qed.

Lemma at_app_l (v w : bytes) j : (j < length v)%nat -> at_ (v ++ w) j = at_ v j.
Proof. intros. unfold at_. by rewrite app_nth1. Qed.

Lemma at_app_r (v w : bytes) j : (length v <= j)%nat -> at_ (v ++ w) j = at_ w (j - length v).
Proof. intros. unfold at_. by rewrite app_nth2. Qed.

Lemma at_beyond v j : (length v <= j)%nat -> at_ v j = 0.
Proof. intros. unfold at_. by rewrite nth_overflow. Qed.

Lemma at_replicate n j : at_ (replicate n 0) j = 0.
Proof. unfold at_. revert j. induction n; intros [|j]; cbn; auto. Qed.

Lemma ensure_at data n j : at_ (ensure data n) j = at_ data j.
Proof.
  unfold ensure. destruct (_ >=? _); [done|].
  destruct (decide (j < length data)%nat); [by apply at_app_l|].
  rewrite at_app_r, (at_beyond data) by lia. apply at_replicate.
Qed.

Lemma ensure_length data n : 0 <= n -> n <= len (ensure data n).
Proof.
  intros Hn. unfold ensure. destruct (_ >=? _) eqn:E; bool_to_prop; [lia|].
  rewrite len_app. unfold len in *. rewrite length_replicate. lia.
Qed.

Lemma addScaled_at c inp out j : Forall is_byte inp -> (length inp <= length out)%nat ->
  at_ (addScaled c inp out) j = Z.lxor (at_ out j) (gfMul c (at_ inp j)).
Proof.
  intros Hb Hl. unfold addScaled. rewrite Nat.min_l by lia. rewrite firstn_all.
  assert (Hlen : length (mulSliceXor c inp (take (length inp) out)) = length inp).
  { rewrite mulSliceXor_length, length_take. lia. }
  destruct (decide (j < length inp)%nat) as [Hj|Hj].
  - rewrite at_app_l, mulSliceXor_at by (done || rewrite ?length_take; lia). f_equal.
    unfold at_. rewrite <- (take_drop (length inp) out) at 2.
    rewrite app_nth1; [done|]. rewrite length_take. lia.
  - rewrite at_app_r, Hlen, (at_beyond inp), gfMul_0_r, Z.lxor_0_r by lia.
    unfold at_. rewrite <- (take_drop (length inp) out) at 2.
    rewrite app_nth2 by (rewrite length_take; lia). rewrite length_take. f_equal. lia.
Qed.

(** Extending a constant term and adding a multiple of a vector to it. *)
Definition add_multiple (c : Z) (v data : bytes) : bytes := addScaled c v (ensure data (len v)).

Lemma add_multiple_at c v data j : Forall is_byte v ->
  at_ (add_multiple c v data) j = Z.lxor (at_ data j) (gfMul c (at_ v j)).
Proof.
  intros Hv. pose proof (ensure_length data (len v) (len_nonneg v)) as H.
  unfold add_multiple. rewrite addScaled_at, ensure_at; [done|done|]. unfold len in H at 1 2. lia.
Qed.

Lemma add_multiple_bytes c v data : is_byte c -> Forall is_byte v -> Forall is_byte data ->
  Forall is_byte (add_multiple c v data).
Proof.
  intros Hc Hv Hd. apply at_ext_Forall. intros j. rewrite add_multiple_at by done.
  apply lxor_byte; [by apply at_byte|]. apply gfMul_byte; [done|by apply at_byte].
Qed.

Lemma scaleBytes_at f v j : Forall is_byte v -> at_ (scaleBytes f v) j = gfMul f (at_ v j).
Proof.
  intros Hv. unfold scaleBytes. destruct (f =? 1) eqn:E; bool_to_prop.
  - subst f. by rewrite gfMul_1_l by (by apply at_byte).
  - unfold at_. revert j. clear. induction v as [|x v IH]; intros [|j]; cbn; auto using gfMul_0_r.
Qed.

(** ** Sums in the field *)

Definition xsum {A} (f : A -> Z) (l : list A) : Z := foldr (fun x acc => Z.lxor (f x) acc) 0 l.

Lemma xsum_cons {A} (f : A -> Z) x l : xsum f (x :: l) = Z.lxor (f x) (xsum f l).
Proof. done. Qed.

Lemma xsum_app {A} (f : A -> Z) l k : xsum f (l ++ k) = Z.lxor (xsum f l) (xsum f k).
Proof.
  induction l as [|x l IH]; [by rewrite Z.lxor_0_l|]. cbn [app].
  by rewrite !xsum_cons, IH, Z.lxor_assoc.
Qed.

Lemma xsum_ext {A} (f g : A -> Z) l : (forall x, x ∈ l -> f x = g x) -> xsum f l = xsum g l.
Proof.
  induction l as [|x l IH]; intros H; [done|]. rewrite !xsum_cons, (H x) by constructor. f_equal.
  apply IH. intros y Hy. apply H. by right.
Qed.

Lemma xsum_zero {A} (f : A -> Z) l : (forall x, x ∈ l -> f x = 0) -> xsum f l = 0.
Proof.
  induction l as [|x l IH]; intros H; [done|]. rewrite xsum_cons, (H x) by constructor.
  rewrite IH; [done|]. intros y Hy. apply H. by right.
Qed.

Lemma xsum_lxor {A} (f g : A -> Z) l :
  xsum (fun x => Z.lxor (f x) (g x)) l = Z.lxor (xsum f l) (xsum g l).
Proof. induction l as [|x l IH]; [done|]. by rewrite !xsum_cons, IH, lxor_swap. Qed.

Lemma xsum_byte {A} (f : A -> Z) l : (forall x, is_byte (f x)) -> is_byte (xsum f l).
Proof. intros H. induction l as [|x l IH]; [done|]. rewrite xsum_cons. by apply lxor_byte. Qed.

Lemma xsum_scale {A} c (f : A -> Z) l : is_byte c -> (forall x, is_byte (f x)) ->
  xsum (fun x => gfMul c (f x)) l = gfMul c (xsum f l).
Proof.
  intros Hc Hf. induction l as [|x l IH]; [by rewrite gfMul_0_r|].
  rewrite !xsum_cons, IH, gfMul_lxor_r; [done|done|done|by apply xsum_byte].
Qed.

(** Removing the term of one element. *)
Lemma xsum_remove {A} (f g : A -> Z) l x :
  NoDup l -> x ∈ l -> g x = 0 -> (forall y, y ∈ l -> y <> x -> g y = f y) ->
  xsum f l = Z.lxor (xsum g l) (f x).
Proof.
  induction 1 as [|y l Hy Hnd IH]; intros Hin Hx Hg; [by apply elem_of_nil in Hin|]. rewrite !xsum_cons.
  apply elem_of_cons in Hin as [<-|Hin].
  - rewrite Hx, Z.lxor_0_l, Z.lxor_comm. f_equal. apply xsum_ext. intros z Hz. symmetry. apply Hg; [by right|].
    by intros ->.
  - rewrite IH, (Hg y); [by rewrite Z.lxor_assoc|by constructor|by intros ->|done|done|].
    intros z Hz. apply Hg. by right.
Qed.

(** ** The window of identifiers *)

Definition width_nat : nat := Z.to_nat decoderWidth.

(** The slot of an identifier. *)
Definition idx (esi : Z) : nat := Z.to_nat (esi mod decoderWidth).

(** The identifiers of the window that starts at [l]. *)
Definition win (l : Z) : list Z := map (fun k => wrap 32 (l + Z.of_nat k)) (seq 0 width_nat).

Lemma idx_wrap x : idx (wrap 32 x) = idx x.
Proof.
  unfold idx, wrap. f_equal. apply Z.mod_mod_divide. exists (2 ^ 23). done.
Qed.

Lemma idx_lt x : (idx x < width_nat)%nat.
Proof.
  unfold idx, width_nat. pose proof (Z.mod_pos_bound x decoderWidth ltac:(done)). lia.
Qed.

Lemma idx_inj l k1 k2 :
  0 <= k1 < decoderWidth -> 0 <= k2 < decoderWidth -> idx (l + k1) = idx (l + k2) -> k1 = k2.
Proof.
  intros H1 H2 He. unfold idx in He.
  assert (Hm : (l + k1) mod decoderWidth = (l + k2) mod decoderWidth).
  { pose proof (Z.mod_pos_bound (l + k1) decoderWidth ltac:(done)).
    pose proof (Z.mod_pos_bound (l + k2) decoderWidth ltac:(done)). lia. }
  change decoderWidth with (2 ^ 9) in *. pose proof (wrap_inj_near 9 (l + k1) (l + k2)) as Hw.
  unfold wrap in Hw. specialize (Hw ltac:(lia) ltac:(lia) Hm). lia.
Qed.

Lemma win_elem l e : e ∈ win l <-> exists k, 0 <= k < decoderWidth /\ e = wrap 32 (l + k).
Proof.
  unfold win. rewrite list_elem_of_fmap. split.
  - intros (k & -> & Hk). apply elem_of_seq in Hk. exists (Z.of_nat k). unfold width_nat in Hk. split; [lia|done].
  - intros (k & Hk & ->). exists (Z.to_nat k). split; [f_equal; lia|]. apply elem_of_seq. unfold width_nat. lia.
Qed.

Lemma win_idx_inj l e1 e2 : e1 ∈ win l -> e2 ∈ win l -> idx e1 = idx e2 -> e1 = e2.
Proof.
  intros H1 H2 He. apply win_elem in H1 as (k1 & Hk1 & ->). apply win_elem in H2 as (k2 & Hk2 & ->).
  rewrite !idx_wrap in He. by rewrite (idx_inj l k1 k2).
Qed.

Lemma win_NoDup l : NoDup (win l).
Proof.
  unfold win. apply NoDup_fmap_2_strong; [|apply NoDup_seq].
  intros x y Hx Hy He. apply elem_of_seq in Hx, Hy. unfold width_nat in *.
  assert (Hi : idx (l + Z.of_nat x) = idx (l + Z.of_nat y)) by (rewrite <- (idx_wrap (l + Z.of_nat x)), He; apply idx_wrap).
  apply idx_inj in Hi; lia.
Qed.

Lemma win_step l e : e ∈ win (wrap 32 (l + 1)) -> e ∈ win l \/ (e = wrap 32 (l + decoderWidth)).
Proof.
  intros He. apply win_elem in He as (k & Hk & ->). autorewrite with go.
  destruct (decide (k = decoderWidth - 1)) as [->|Hne].
  - right. f_equal. lia.
  - left. apply win_elem. exists (k + 1). split; [lia|]. f_equal. lia.
Qed.

(** The only identifier that leaves when the window moves by one. *)
Lemma win_leaves l e : e ∈ win l -> e <> wrap 32 l -> e ∈ win (wrap 32 (l + 1)).
Proof.
  intros He Hne. apply win_elem in He as (k & Hk & ->). apply win_elem. exists (k - 1).
  autorewrite with go. split; [|f_equal; lia].
  destruct (decide (k = 0)) as [->|]; [|lia]. by rewrite Z.add_0_r in Hne.
Qed.

Section Symbols.

(** The source symbols, by identifier. *)
Variable sym : Z -> bytes.
Hypothesis sym_bytes : forall e, Forall is_byte (sym e).

(** The equation a row states about the window that starts at [l]. *)
Definition eqn (l : Z) (coef data : bytes) : Prop :=
  forall j, xsum (fun e => gfMul (coef_at coef (idx e)) (at_ (sym e) j)) (win l) = at_ data j.

Lemma coef_at_byte coef i : Forall is_byte coef -> is_byte (coef_at coef i).
Proof. apply at_byte. Qed.

Lemma coef_at_insert coef i k x : (i < length coef)%nat ->
  coef_at (<[i := x]> coef) k = if decide (i = k) then x else coef_at coef k.
Proof.
  intros Hi. unfold coef_at. destruct (decide (i = k)) as [->|Hne].
  - apply nth_lookup_Some. by rewrite list_lookup_insert_eq.
  - rewrite !nth_lookup. by rewrite list_lookup_insert_ne.
Qed.

(** Moving a known symbol to the constant side. *)
Lemma eqn_clear l coef data e v :
  e ∈ win l -> Forall is_byte coef -> length coef = width_nat -> same_vector v (sym e) -> Forall is_byte v ->
  eqn l coef data ->
  eqn l (<[idx e := 0]> coef) (add_multiple (coef_at coef (idx e)) v data).
Proof.
  intros He Hc Hl Hv Hvb Heq j. rewrite add_multiple_at, <- Heq by done.
  rewrite (xsum_remove (fun e => gfMul (coef_at coef (idx e)) (at_ (sym e) j))
    (fun e' => gfMul (coef_at (<[idx e := 0]> coef) (idx e')) (at_ (sym e') j)) (win l) e).
  - by rewrite Hv, lxor_cancel.
  - apply win_NoDup.
  - done.
  - rewrite coef_at_insert, decide_True by (done || rewrite Hl; apply idx_lt). apply gfMul_0_l.
  - intros y Hy Hne. rewrite coef_at_insert by (rewrite Hl; apply idx_lt).
    rewrite decide_False; [done|]. intros Hi. by apply Hne, (win_idx_inj l).
Qed.

Lemma eqn_add l c coef1 data1 coef2 data2 :
  is_byte c -> Forall is_byte coef1 -> Forall is_byte coef2 -> Forall is_byte data2 ->
  length coef1 = length coef2 -> eqn l coef1 data1 -> eqn l coef2 data2 ->
  eqn l (mulSliceXor c coef2 coef1) (add_multiple c data2 data1).
Proof.
  intros Hc H1 H2 Hd Hl He1 He2 j. rewrite add_multiple_at, <- He1, <- He2 by done.
  rewrite <- xsum_scale; [|done|intros e; by apply gfMul_byte, at_byte; [apply coef_at_byte|]].
  rewrite <- xsum_lxor. apply xsum_ext. intros e _. unfold coef_at.
  change (nth (idx e) ?l 0) with (at_ l (idx e)).
  rewrite mulSliceXor_at, gfMul_assoc by (done || by apply at_byte).
  apply gfMul_lxor_l; [by apply at_byte| |by apply at_byte]. apply gfMul_byte; [done|by apply at_byte].
Qed.

Lemma eqn_scale l f coef data :
  is_byte f -> Forall is_byte coef -> Forall is_byte data -> eqn l coef data ->
  eqn l (scaleBytes f coef) (scaleBytes f data).
Proof.
  intros Hf Hc Hd He j. rewrite scaleBytes_at, <- He by done.
  rewrite <- xsum_scale; [|done|intros e; by apply gfMul_byte, at_byte; [apply coef_at_byte|]].
  apply xsum_ext. intros e _. unfold coef_at. change (nth (idx e) ?l 0) with (at_ l (idx e)).
  rewrite scaleBytes_at by done. symmetry. apply gfMul_assoc; [done|by apply at_byte|by apply at_byte].
Qed.

(** The equation of a row that does not mention the oldest identifier carries
    over when the window moves. *)
Lemma eqn_slide l coef data :
  coef_at coef (idx l) = 0 -> eqn l coef data -> eqn (wrap 32 (l + 1)) coef data.
Proof.
  intros H0 He j. rewrite <- He.
  assert (Hw : win l = wrap 32 l :: map (fun k => wrap 32 (l + Z.of_nat k)) (seq 1 (width_nat - 1))).
  { unfold win. replace width_nat with (S (width_nat - 1)) at 1 by done. cbn [seq map].
    by rewrite Z.add_0_r. }
  assert (Hw' : win (wrap 32 (l + 1)) =
    map (fun k => wrap 32 (l + Z.of_nat k)) (seq 1 (width_nat - 1)) ++ [wrap 32 (l + decoderWidth)]).
  { unfold win. transitivity (map (fun k => wrap 32 (l + Z.of_nat k)) (seq 1 width_nat)).
    - rewrite <- seq_shift, map_map. apply map_ext. intros k. autorewrite with go. f_equal. lia.
    - replace width_nat with (width_nat - 1 + 1)%nat at 1 by done. rewrite seq_app, map_app. done. }
  rewrite Hw, Hw', xsum_app, !xsum_cons, !idx_wrap.
  assert (Hidx : idx (l + decoderWidth) = idx l).
  { unfold idx. by rewrite <- (Z.mul_1_l decoderWidth) at 1; rewrite Z_mod_plus_full. }
  rewrite Hidx, H0, !gfMul_0_l. change (xsum _ []) with 0. by rewrite !Z.lxor_0_r, Z.lxor_0_l.
Qed.

(** ** The invariant of the decoder *)

(** A live slot holds the symbol it names. *)
Definition slots_ok (l : Z) (sl : list decoderSlot) : Prop :=
  length sl = width_nat /\
  forall i s, sl !! i = Some s -> s_live s = true ->
    s_known s = true /\ s_esi s ∈ win l /\ idx (s_esi s) = i /\
    same_vector (s_vector s) (sym (s_esi s)) /\ Forall is_byte (s_vector s).

Definition slot_live (sl : list decoderSlot) (i : nat) : Prop :=
  exists s, sl !! i = Some s /\ s_live s = true.

(** A held row is a true equation among unknown symbols, with its pivot's
    coefficient one. *)
Record row_ok (l : Z) (sl : list decoderSlot) (r : windowRow) : Prop := mk_row_ok {
  ro_len : length (r_coef r) = width_nat;
  ro_coef : Forall is_byte (r_coef r);
  ro_data : Forall is_byte (r_data r);
  ro_pivot : r_pivot r ∈ win l;
  ro_one : coef_at (r_coef r) (idx (r_pivot r)) = 1;
  ro_eqn : eqn l (r_coef r) (r_data r);
  ro_unknown : forall i, slot_live sl i -> coef_at (r_coef r) i = 0
}.

(** Neither row mentions the other's pivot. *)
Definition rows_apart (r q : windowRow) : Prop :=
  coef_at (r_coef r) (idx (r_pivot q)) = 0 /\ coef_at (r_coef q) (idx (r_pivot r)) = 0.

Record dinv (d : WindowDecoder) : Prop := mk_dinv {
  di_mask : d_mask d = decoderWidth - 1;
  di_lo : in_range 32 (lo d);
  di_slots : slots_ok (lo d) (slots d);
  di_rows : Forall (row_ok (lo d) (slots d)) (rows d);
  di_apart : StronglySorted rows_apart (rows d)
}.

(** The window is exactly as wide as its slots. *)
Definition aligned (d : WindowDecoder) : Prop := high d = wrap 32 (lo d + decoderWidth).

Lemma slot_of_idx d e : d_mask d = decoderWidth - 1 -> slot_of d e = idx e.
Proof.
  intros Hm. unfold slot_of, idx. rewrite Hm. f_equal.
  change (decoderWidth - 1) with (Z.ones 9). rewrite Z.land_ones by lia. done.
Qed.

Lemma slots_lookup d e : dinv d -> slots d !! idx e = Some (slot_at d e).
Proof.
  intros Hd. unfold slot_at. rewrite slot_of_idx by apply Hd.
  destruct (lookup_lt_is_Some_2 (slots d) (idx e)) as [s Hs].
  { rewrite (proj1 (di_slots d Hd)). apply idx_lt. }
  by rewrite Hs, (nth_lookup_Some _ _ _ _ Hs).
Qed.

Lemma lo_in_win l : in_range 32 l -> l ∈ win l.
Proof. intros Hl. apply win_elem. exists 0. split; [done|]. by rewrite Z.add_0_r, wrap_small. Qed.

Lemma live_slot d e : dinv d -> e ∈ win (lo d) -> s_live (slot_at d e) = true -> s_esi (slot_at d e) = e.
Proof.
  intros Hd He Hl. destruct (proj2 (di_slots d Hd) _ _ (slots_lookup d e Hd) Hl) as (_ & Hw & Hi & _).
  by apply (win_idx_inj (lo d)).
Qed.

Lemma slot_live_insert sl i s k :
  (i < length sl)%nat -> slot_live (<[i := s]> sl) k <-> (i = k /\ s_live s = true) \/ (i <> k /\ slot_live sl k).
Proof.
  intros Hi. unfold slot_live. destruct (decide (i = k)) as [->|Hne].
  - rewrite list_lookup_insert_eq by done. split.
    + intros (s' & [= <-] & Hs). by left.
    + intros [[_ Hs]|[? _]]; [by exists s|done].
  - rewrite list_lookup_insert_ne by done. split; [by right|]. intros [[? _]|[_ ?]]; done.
Qed.

(** *** Sliding *)

Lemma evict_spec d out d' out' :
  dinv d -> evict d (lo d) out = (d', out') ->
  dinv (with_window d' (wrap 32 (lo d + 1)) (high d)) /\ lo d' = lo d /\ high d' = high d /\
  rows d' `sublist_of` rows d /\ Forall (fun r => coef_at (r_coef r) (idx (lo d)) = 0) (rows d') /\
  (forall i, slot_live (slots d') i -> i <> idx (lo d) /\ slots d' !! i = slots d !! i) /\
  Recovered out' = Recovered out /\ started d' = started d.
Proof.
  intros Hd He. unfold evict in He. rewrite (slot_of_idx d (lo d) (di_mask d Hd)) in He.
  pose proof (di_lo d Hd) as Hlo. pose proof (lo_in_win _ Hlo) as Hin.
  set (s := slot_at d (lo d)) in *. set (hold := s_live s && (s_esi s =? lo d)) in *.
  set (gone := negb _ && _) in He. set (kept := filter _ (rows d)) in He.
  set (sl := if hold then <[idx (lo d) := empty_slot]> (slots d) else slots d) in He.
  assert (Hlen : length (slots d) = width_nat) by apply Hd.
  assert (Hsl : forall i, slot_live sl i -> i <> idx (lo d) /\ sl !! i = slots d !! i).
  { intros i Hi. subst sl. destruct hold eqn:Eh.
    - apply slot_live_insert in Hi as [[_ ?]|[? ?]]; [done| |rewrite Hlen; apply idx_lt].
      split; [done|]. by rewrite list_lookup_insert_ne.
    - split; [|done]. intros ->. destruct Hi as (s' & Hs' & Hl). rewrite (slots_lookup d (lo d) Hd) in Hs'.
      injection Hs' as <-. fold s in Hl. subst hold. rewrite Hl in Eh. cbn in Eh. bool_to_prop.
      apply Eh. by apply live_slot. }
  assert (Hsl' : length sl = width_nat) by (subst sl; destruct hold; [by rewrite length_insert|done]).
  assert (Hkept : kept `sublist_of` rows d) by apply sublist_filter.
  injection He as <- <-. cbn [with_window lo high rows slots d_mask started].
  assert (Hzero : Forall (fun r => coef_at (r_coef r) (idx (lo d)) = 0) kept).
  { apply Forall_forall. intros r Hr. subst kept. by apply list_elem_of_filter in Hr as [? _]. }
  split; [|repeat (split; [done|]); split; [by destruct gone|done]].
  split; cbn.
  - apply Hd.
  - apply (wrap_range 32); lia.
  - split; [done|]. intros i s' Hs' Hl.
    destruct (Hsl i) as [Hne Heq]; [by exists s'|]. rewrite Heq in Hs'.
    destruct (proj2 (di_slots d Hd) i s' Hs' Hl) as (H1 & H2 & H3 & H4).
    split; [done|]. split; [|done]. apply win_leaves; [done|]. intros Heq'. apply Hne.
    by rewrite <- H3, Heq', idx_wrap.
  - apply Forall_forall. intros r Hr. rewrite Forall_forall in Hzero. specialize (Hzero r Hr).
    assert (Hr0 : row_ok (lo d) (slots d) r).
    { pose proof (di_rows d Hd) as Hall. rewrite Forall_forall in Hall. apply Hall. by eapply elem_of_sublist. }
    destruct Hr0 as [R1 R2 R3 R4 R5 R6 R7]. split; try done.
    + apply win_leaves; [done|]. intros Heq. cbn in Hzero. rewrite Heq, idx_wrap in R5. lia.
    + by apply eqn_slide.
    + intros i (s' & Hs' & Hl). apply R7. destruct (Hsl i) as [_ Heq]; [by exists s'|].
      exists s'. by rewrite <- Heq.
  - eapply StronglySorted_sublist; [exact Hkept|apply Hd].
Qed.

Lemma decoderWidth_val : decoderWidth = 512.
Proof. done. Qed.

(** The slots that stay live are the ones that were. *)
Definition slots_within (sl sl' : list decoderSlot) : Prop :=
  forall i, slot_live sl i -> sl !! i = sl' !! i.

(** The walk evicts [min (n - width) left] identifiers, where [n] is the distance
    from [lo] to [high] and [left] the distance to [walked]. *)
Lemma admit_walk_spec fuel : forall d out n left,
  dinv d -> high d = wrap 32 (lo d + n) -> decoderWidth < n < 2 ^ 32 -> 0 < left <= decoderWidth ->
  left < Z.of_nat fuel ->
  exists d' out' m,
    admit_walk fuel decoderWidth (wrap 32 (lo d + left)) d out = (d', out') /\
    dinv d' /\ 0 < m <= left /\ lo d' = wrap 32 (lo d + m) /\ high d' = high d /\
    started d' = started d /\ m = Z.min (n - decoderWidth) left /\
    rows d' `sublist_of` rows d /\ slots_within (slots d') (slots d) /\
    Forall (fun r => coef_at (r_coef r) (idx (lo d + m - 1)) = 0) (rows d') /\
    Recovered out' = Recovered out.
Proof.
  induction fuel as [|fuel IH]; intros d out n left Hd Hh Hn Hleft Hf; [lia|]. cbn [admit_walk].
  pose proof (di_lo d Hd) as Hlo. pose proof decoderWidth_val as HW. change (2 ^ 32) with 4294967296 in Hn.
  assert (E1 : (high d -u32 lo d >? decoderWidth) = true).
  { rewrite Hh. autorewrite with go. replace (lo d + n - lo d) with n by lia.
    rewrite wrap_small by (pow2_eval; lia). lia. }
  assert (E2 : (int32_of (lo d -u32 wrap 32 (lo d + left)) <? 0) = true).
  { autorewrite with go. replace (lo d - (lo d + left)) with (- left) by lia.
    unfold wrap. rewrite Z_mod_nz_opp_full by (rewrite Z.mod_small; pow2_eval; lia).
    rewrite Z.mod_small by (pow2_eval; lia). unfold int32_of. apply Z.ltb_lt.
    pow2_eval. destruct (_ <? _) eqn:E; bool_to_prop; lia. }
  rewrite E1, E2. cbn [andb].
  destruct (evict d (lo d) out) as [d1 out1] eqn:Ee.
  destruct (evict_spec d out d1 out1 Hd Ee) as (Hd1 & Hl1 & Hh1 & Hr1 & Hz1 & Hs1 & Ho1 & Hst1).
  rewrite Hl1, Hh1. set (d2 := with_window d1 (wrap 32 (lo d + 1)) (high d)) in *.
  assert (Hw1 : slots_within (slots d1) (slots d)) by (intros i Hi; by apply Hs1).
  destruct (decide (n - 1 = decoderWidth)) as [Hend|Hend]; [|destruct (decide (left = 1)) as [->|Hleft1]].
  - exists d2, out1, 1. split; [|split; [done|split; [lia|split; [done|split; [done|
      split; [done|split; [lia|split; [done|split; [done|split; [|done]]]]]]]]]].
    + destruct fuel as [|fuel]; [lia|]. cbn [admit_walk]. subst d2. cbn [with_window lo high].
      replace (_ >? decoderWidth) with false; [done|].
      rewrite Hh. autorewrite with go. replace (lo d + n - (lo d + 1)) with decoderWidth by lia.
      done.
    + by replace (lo d + 1 - 1) with (lo d) by lia.
  - exists d2, out1, 1. split; [|split; [done|split; [lia|split; [done|split; [done|
      split; [done|split; [lia|split; [done|split; [done|split; [|done]]]]]]]]]].
    + destruct fuel as [|fuel]; [lia|]. cbn [admit_walk]. subst d2. cbn [with_window lo high].
      rewrite Z.sub_diag. cbn. by rewrite andb_false_r.
    + by replace (lo d + 1 - 1) with (lo d) by lia.
  - destruct (IH d2 out1 (n - 1) (left - 1)) as
      (d' & out' & m & He & Hd' & Hm & Hl' & Hh' & Hst' & Hmin & Hr' & Hs' & Hz' & Ho').
    + done.
    + subst d2. cbn. rewrite Hh. autorewrite with go. f_equal. lia.
    + pow2_eval. lia.
    + lia.
    + lia.
    + subst d2. cbn [with_window lo high started slots rows] in *. autorewrite with go in *.
      replace (lo d + 1 + (left - 1)) with (lo d + left) in He by lia.
      exists d', out', (m + 1). split; [done|]. split; [done|]. split; [lia|].
      split; [rewrite Hl'; f_equal; lia|]. split; [done|]. split; [by rewrite Hst'|].
      split; [lia|]. split; [by etransitivity|]. split; [|split; [|by rewrite Ho']].
      * intros i Hi. rewrite (Hs' i Hi). apply Hw1. destruct Hi as (s & Hsi & Hl). exists s.
        rewrite <- (Hs' i) by (by exists s). done.
      * eapply Forall_impl; [exact Hz'|]. cbn. intros r.
        replace (wrap 32 (lo d + 1) + m - 1) with (wrap 32 (lo d + 1) + (m - 1)) by lia.
        rewrite <- (idx_wrap (wrap 32 (lo d + 1) + (m - 1))). autorewrite with go. rewrite idx_wrap.
        by replace (lo d + 1 + (m - 1)) with (lo d + (m + 1) - 1) by lia.
Qed.

(** *** Admission *)

(** The state between operations. *)
Record dok (d : WindowDecoder) : Prop := mk_dok {
  dk_inv : dinv d;
  dk_aligned : started d = true -> aligned d;
  dk_idle : started d = false -> rows d = [] /\ forall i, ~ slot_live (slots d) i
}.

(** The identifier is newer than everything the window has reached. *)
Definition newest (d : WindowDecoder) (esi : Z) : Prop :=
  started d = false \/ 0 <= int32_of (esi -u32 high d).

Lemma dinv_empty d l h o st :
  dinv d -> in_range 32 l -> rows d = [] -> (forall i, ~ slot_live (slots d) i) ->
  dinv (mkDecoder (slots d) (d_mask d) l h o st (rows d) (d_recovered d) (d_lost d) (d_discarded d)).
Proof.
  intros Hd Hl Hr Hs. split; cbn.
  - apply Hd.
  - done.
  - split; [apply Hd|]. intros i s Hi Hls. exfalso. apply (Hs i). by exists s.
  - rewrite Hr. constructor.
  - rewrite Hr. constructor.
Qed.

Lemma wrap_offset l e : in_range 32 l -> in_range 32 e -> e = wrap 32 (l + wrap 32 (e - l)).
Proof. intros Hl He. autorewrite with go. replace (l + (e - l)) with e by lia. by rewrite wrap_small. Qed.

Lemma int32_of_nonneg x : 0 <= x < 2 ^ 32 -> 0 <= int32_of x <-> x < 2 ^ 31.
Proof. unfold int32_of. intros Hx. destruct (_ <? _) eqn:E; bool_to_prop; pow2_eval; lia. Qed.

(** The windows a width apart share nothing. *)
Lemma win_far l k e :
  decoderWidth <= k -> k + decoderWidth <= 2 ^ 32 -> e ∈ win l -> e ∈ win (wrap 32 (l + k)) -> False.
Proof.
  intros Hk1 Hk2 H1 H2. pose proof decoderWidth_val as HW.
  apply win_elem in H1 as (a & Ha & ->). apply win_elem in H2 as (b & Hb & He).
  autorewrite with go in He. apply wrap_inj_near in He; [lia|lia|pow2_eval; lia].
Qed.

(** After a full walk nothing is left. *)
Lemma walked_empty d d' m :
  dinv d -> dinv d' -> lo d' = wrap 32 (lo d + m) -> m = decoderWidth ->
  rows d' `sublist_of` rows d -> slots_within (slots d') (slots d) ->
  rows d' = [] /\ forall i, ~ slot_live (slots d') i.
Proof.
  intros Hd Hd' Hl -> Hr Hs. split.
  - destruct (rows d') as [|r rs] eqn:Er; [done|]. exfalso.
    pose proof (di_rows d Hd) as H1. pose proof (di_rows d' Hd') as H2. rewrite Er in H2.
    apply Forall_cons in H2 as [H2 _]. rewrite Forall_forall in H1.
    specialize (H1 r ltac:(eapply elem_of_sublist; [by constructor|exact Hr])).
    pose proof (ro_pivot _ _ _ H2) as Hp. rewrite Hl in Hp.
    by eapply (win_far (lo d) decoderWidth); [| |apply H1|exact Hp].
  - intros i Hi. pose proof Hi as (s & Hsi & Hls).
    destruct (proj2 (di_slots d' Hd') i s Hsi Hls) as (_ & H2 & _). rewrite (Hs i Hi) in Hsi.
    destruct (proj2 (di_slots d Hd) i s Hsi Hls) as (_ & H1 & _). rewrite Hl in H2.
    by eapply (win_far (lo d) decoderWidth).
Qed.

Lemma admit_spec d esi out ok d' out' :
  dok d -> in_range 32 esi -> Decoder_admit d esi out = (ok, d', out') ->
  Recovered out' = Recovered out /\
  if ok : bool then
    dok d' /\ started d' = true /\ esi ∈ win (lo d') /\ rows d' `sublist_of` rows d /\
    (newest d esi -> Forall (fun r => coef_at (r_coef r) (idx esi) = 0) (rows d')) /\
    (high d' = wrap 32 (esi + 1) \/ (started d = true /\ high d' = high d))
  else d' = d.
Proof.
  intros [Hd Hal Hidle] Hesi He. unfold Decoder_admit in He. pose proof decoderWidth_val as HW.
  assert (Hwidth : wrap 32 (len (slots d)) = decoderWidth).
  { unfold len. rewrite (proj1 (di_slots d Hd)). done. }
  rewrite Hwidth in He. destruct (started d) eqn:Es; cbn [negb] in He.
  2:{ injection He as <- <- <-. destruct (Hidle eq_refl) as [Hr Hs]. split; [done|].
      assert (Hl : in_range 32 (wrap 32 (wrap 32 (esi + 1) - decoderWidth))) by (apply wrap_range; lia).
      split; [|split; [done|split; [|split; [done|split; [|by left]]]]].
      - split; cbn; [by apply dinv_empty| |done]. intros _. unfold aligned. cbn.
        autorewrite with go. by replace (esi + 1 - decoderWidth + decoderWidth) with (esi + 1) by lia.
      - cbn. apply win_elem. exists (decoderWidth - 1). split; [lia|]. autorewrite with go.
        replace (esi + 1 - decoderWidth + (decoderWidth - 1)) with esi by lia. by rewrite wrap_small.
      - cbn. rewrite Hr. by constructor. }
  specialize (Hal eq_refl). unfold aligned in Hal. pose proof (di_lo d Hd) as Hlo.
  set (x := wrap 32 (esi - lo d)) in *. pose proof (wrap_range 32 (esi - lo d) ltac:(lia)) as Hx. fold x in Hx.
  destruct (int32_of x <? 0) eqn:E1; bool_to_prop; [by injection He as <- <- <-|].
  apply int32_of_nonneg in E1; [|done].
  assert (Hy : esi -u32 high d = wrap 32 (x - decoderWidth)).
  { rewrite Hal. subst x. autorewrite with go. f_equal. lia. }
  destruct (int32_of (esi -u32 high d) >=? 0) eqn:E2; bool_to_prop.
  - rewrite Hy in E2. apply int32_of_nonneg in E2; [|apply wrap_range; lia].
    assert (Hge : decoderWidth <= x).
    { destruct (decide (decoderWidth <= x)); [done|]. exfalso. revert E2. unfold wrap.
      replace (x - decoderWidth) with (x - decoderWidth + 2 ^ 32 + -1 * 2 ^ 32) by lia.
      rewrite Z_mod_plus_full, Z.mod_small by (pow2_eval; lia). pow2_eval. lia. }
    set (d1 := with_window d (lo d) (wrap 32 (esi + 1))) in *.
    assert (Hd1 : dinv d1) by (destruct Hd; by split).
    destruct (admit_walk_spec (S (Z.to_nat decoderWidth)) d1 out (x + 1) decoderWidth) as
      (d2 & out2 & m & Hw & Hd2 & Hm & Hl2 & Hh2 & Hst2 & Hmin & Hr2 & Hs2 & Hz2 & Ho2).
    { done. }
    { subst d1 x. cbn [with_window lo high].
      replace (lo d + (wrap 32 (esi - lo d) + 1)) with (wrap 32 (esi - lo d) + (lo d + 1)) by lia.
      rewrite wrap_add_l. f_equal. lia. }
    { pow2_eval. lia. }
    { lia. }
    { lia. }
    change (lo d1 +u32 decoderWidth) with (wrap 32 (lo d1 + decoderWidth)) in He.
    rewrite Hw in He. injection He as <- <- <-. split; [done|].
    subst d1. cbn [with_window lo high rows started slots] in *.
    assert (Hdist : high d2 -u32 lo d2 = x + 1 - m).
    { rewrite Hh2, Hl2. autorewrite with go.
      replace (esi + 1 - (lo d + m)) with (esi - lo d + (1 - m)) by lia.
      rewrite <- wrap_add_l. fold x. replace (x + (1 - m)) with (x + 1 - m) by lia.
      apply wrap_small. pow2_eval. lia. }
    rewrite Hdist.
    assert (Hin : esi = wrap 32 (wrap 32 (wrap 32 (esi + 1) - decoderWidth) + (decoderWidth - 1))).
    { autorewrite with go. replace (esi + 1 - decoderWidth + (decoderWidth - 1)) with esi by lia.
      by rewrite wrap_small. }
    destruct (x + 1 - m >? decoderWidth) eqn:E3; bool_to_prop.
    + destruct (walked_empty d d2 m Hd Hd2 Hl2 ltac:(lia) Hr2 Hs2) as [Hre Hse].
      split; [|cbn; split; [by rewrite Hst2|split; [|split; [done|split; [by rewrite Hre|by left]]]]].
      * split; cbn; [|by intros _; unfold aligned; cbn; rewrite Hh2; autorewrite with go; f_equal; lia|].
        -- apply dinv_empty; try done. apply wrap_range. lia.
        -- intros Hf. congruence.
      * rewrite Hh2. apply win_elem. exists (decoderWidth - 1). split; [lia|done].
    + assert (Hml : lo d2 = wrap 32 (wrap 32 (esi + 1) - decoderWidth)).
      { rewrite Hl2. replace (lo d + m) with (x + (lo d + 1 - decoderWidth)) by lia. subst x.
        rewrite wrap_add_l, wrap_sub_l. f_equal. lia. }
      split; [|split; [by rewrite Hst2|split; [|split; [done|split; [|by left]]]]].
      * split; [done| |intros Hf; congruence]. intros _. unfold aligned. rewrite Hh2, Hml.
        autorewrite with go. f_equal. lia.
      * apply win_elem. exists (decoderWidth - 1). split; [lia|]. by rewrite Hml.
      * intros _. eapply Forall_impl; [exact Hz2|]. cbn. intros r.
        assert (Hi : idx (lo d + m - 1) = idx esi); [|by rewrite Hi].
        rewrite (wrap_offset (lo d) esi Hlo Hesi), idx_wrap. fold x.
        replace (lo d + x) with (lo d + m - 1 + 1 * decoderWidth) by lia.
        unfold idx. by rewrite Z_mod_plus_full.
  - injection He as <- <- <-. split; [done|]. split; [split; [done|by intros _|by rewrite Es]|].
    split; [done|]. split; [|split; [done|split; [intros [?|?]; [congruence|lia]|by right]]].
    apply win_elem. exists x. split; [|by apply wrap_offset].
    rewrite Hy in E2. destruct (decide (x < decoderWidth)); [lia|]. exfalso.
    rewrite wrap_small in E2 by (pow2_eval; lia).
    assert (0 <= int32_of (x - decoderWidth)) by (apply int32_of_nonneg; pow2_eval; lia). lia.
Qed.

(** *** Scanning the window *)

Lemma int32_of_neg n : 0 < n <= 2 ^ 31 -> int32_of (wrap 32 (- n)) < 0.
Proof.
  intros Hn. unfold wrap. rewrite Z_mod_nz_opp_full by (rewrite Z.mod_small; pow2_eval; lia).
  rewrite Z.mod_small by (pow2_eval; lia). unfold int32_of.
  destruct (_ <? _) eqn:E; bool_to_prop; pow2_eval; lia.
Qed.

Lemma esis_spec n : forall l, in_range 32 l -> Z.of_nat n <= 2 ^ 31 ->
  esis n l (wrap 32 (l + Z.of_nat n)) = map (fun k => wrap 32 (l + Z.of_nat k)) (seq 0 n).
Proof.
  induction n as [|n IH]; intros l Hl Hn; [done|]. cbn [esis].
  autorewrite with go. replace (l - (l + Z.of_nat (S n))) with (- Z.of_nat (S n)) by lia.
  replace (_ <? 0) with true by (symmetry; apply Z.ltb_lt, int32_of_neg; lia).
  cbn [seq map]. rewrite Z.add_0_r, (wrap_small 32 l) by done. f_equal.
  rewrite <- seq_shift, map_map.
  replace (l + Z.of_nat (S n)) with (l + 1 + Z.of_nat n) by lia. rewrite <- (wrap_add_l 32 (l + 1)).
  rewrite IH; [|apply wrap_range; lia|lia]. apply map_ext. intros k. autorewrite with go. f_equal. lia.
Qed.

Lemma window_esis_win d : in_range 32 (lo d) -> aligned d -> window_esis d = win (lo d).
Proof.
  intros Hl Ha. unfold window_esis. rewrite Ha.
  replace (wrap 32 (lo d + decoderWidth) -u32 lo d) with decoderWidth.
  - apply (esis_spec width_nat); done.
  - autorewrite with go. by replace (lo d + decoderWidth - lo d) with decoderWidth by lia.
Qed.

Definition nonzero_in (coef : bytes) (l : list Z) : list Z := filter (fun e => coef_at coef (idx e) <> 0) l.

Lemma leading_fold (at_slot : Z -> nat) coef l : forall p n, 0 <= n -> (forall e, at_slot e = idx e) ->
  fold_left (fun '(pivot, count) esi =>
    if coef_at coef (at_slot esi) =? 0 then (pivot, count)
    else (if count =? 0 then esi else pivot, count + 1)) l (p, n) =
  (if n =? 0 then default p (head (nonzero_in coef l)) else p, n + len (nonzero_in coef l)).
Proof.
  induction l as [|e l IH]; intros p n Hn Hs; cbn [fold_left].
  { unfold nonzero_in. cbn. by destruct (n =? 0); rewrite Z.add_0_r. }
  unfold nonzero_in. rewrite filter_cons. fold (nonzero_in coef l). rewrite Hs.
  destruct (coef_at coef (idx e) =? 0) eqn:E; bool_to_prop.
  - rewrite decide_False by (by intros H). by rewrite IH.
  - rewrite decide_True by done. rewrite IH by (done || lia). replace (n + 1 =? 0) with false by lia.
    rewrite len_cons. cbn. destruct (n =? 0); f_equal; lia.
Qed.

(** [leading] names the oldest unknown of a row and counts them. *)
Lemma leading_spec d coef : dinv d -> aligned d ->
  leading d coef = (default 0 (head (nonzero_in coef (win (lo d)))), len (nonzero_in coef (win (lo d)))).
Proof.
  intros Hd Ha. unfold leading. rewrite window_esis_win by (done || apply Hd).
  rewrite (leading_fold (slot_of d)); [done|done|]. intros e. apply slot_of_idx, Hd.
Qed.

Lemma nonzero_pivot l sl r : row_ok l sl r -> r_pivot r ∈ nonzero_in (r_coef r) (win l).
Proof. intros Hr. apply list_elem_of_filter. rewrite (ro_one _ _ _ Hr). split; [done|apply Hr]. Qed.

(** A row with one unknown left has its pivot left, and is the pivot's value. *)
Lemma single_unknown l sl r p : row_ok l sl r -> nonzero_in (r_coef r) (win l) = [p] ->
  p = r_pivot r /\ same_vector (r_data r) (sym p).
Proof.
  intros Hr Hn. pose proof (nonzero_pivot l sl r Hr) as Hp. rewrite Hn in Hp.
  apply list_elem_of_singleton in Hp as Hp'. subst p. split; [done|].
  intros j. rewrite <- (ro_eqn _ _ _ Hr j).
  rewrite (xsum_remove _ (fun _ => 0) (win l) (r_pivot r)).
  - rewrite xsum_zero, Z.lxor_0_l, (ro_one _ _ _ Hr); [|done]. apply gfMul_1_l. by apply at_byte.
  - apply win_NoDup.
  - apply Hr.
  - done.
  - intros e He Hne. destruct (decide (coef_at (r_coef r) (idx e) = 0)) as [->|Hc]; [done|].
    assert (Hin : e ∈ nonzero_in (r_coef r) (win l)) by (by apply list_elem_of_filter).
    rewrite Hn in Hin. apply list_elem_of_singleton in Hin. congruence.
Qed.

(** *** Recording a symbol *)

Lemma substitute_row_id index v r : coef_at (r_coef r) index = 0 -> substitute_row index v r = r.
Proof. intros H. unfold substitute_row. by rewrite H. Qed.

Definition true_symbol (r : RecoveredSymbol) : Prop := same_vector (rec_Vector r) (sym (rec_ESI r)).

(** Recording the value of a symbol no held row mentions. *)
Lemma substitute_spec d e v out recovered d' out' :
  dinv d -> e ∈ win (lo d) -> Forall (fun r => coef_at (r_coef r) (idx e) = 0) (rows d) ->
  same_vector v (sym e) -> Forall is_byte v ->
  substitute d e v out recovered = (d', out') ->
  dinv d' /\ rows d' = rows d /\ lo d' = lo d /\ high d' = high d /\ started d' = started d /\
  Lost out' = Lost out /\
  exists recs, Recovered out' = Recovered out ++ recs /\ Forall true_symbol recs.
Proof.
  intros Hd He Hz Hv Hvb Hs. unfold substitute in Hs. rewrite slot_of_idx in Hs by apply Hd.
  destruct (_ && _ && _).
  { injection Hs as <- <-. repeat (split; [done|]). exists []. by rewrite app_nil_r. }
  assert (Hrows : map (substitute_row (idx e) v) (rows d) = rows d).
  { rewrite <- (map_id (rows d)) at 2. apply map_ext_Forall.
    eapply Forall_impl; [exact Hz|]. intros r. apply substitute_row_id. }
  rewrite Hrows in Hs.
  assert (Hlen : (idx e < length (slots d))%nat) by (rewrite (proj1 (di_slots d Hd)); apply idx_lt).
  injection Hs as <- <-. cbn [lo high rows started].
  split; [|repeat (split; [done|]); split; [by destruct recovered|]].
  - split; cbn; try apply Hd.
    + split; [rewrite length_insert; apply Hd|]. intros i s Hi Hls.
      apply list_lookup_insert_Some in Hi as [(<- & <- & _)|[Hne Hi]]; [cbn; auto|].
      by apply (proj2 (di_slots d Hd) i s).
    + apply Forall_forall. intros r Hr. rewrite Forall_forall in Hz. specialize (Hz r Hr).
      pose proof (di_rows d Hd) as Hall. rewrite Forall_forall in Hall.
      destruct (Hall r Hr) as [R1 R2 R3 R4 R5 R6 R7]. split; try done.
      intros i Hi. apply slot_live_insert in Hi as [[<- _]|[_ Hi]]; [done|by apply R7|done].
  - destruct recovered; cbn; [|exists []; by rewrite app_nil_r].
    exists [mkRecovered e v]. split; [done|]. by repeat constructor.
Qed.

(** *** Harvesting *)

(** More than one unknown is left. *)
Definition unresolved (l : Z) (r : windowRow) : Prop := 1 < len (nonzero_in (r_coef r) (win l)).

Lemma dinv_sublist d rs : dinv d -> rs `sublist_of` rows d -> dinv (with_rows d rs).
Proof.
  intros Hd Hs. split; cbn; try apply Hd.
  - rewrite Forall_forall. intros r Hr. pose proof (di_rows d Hd) as Hall.
    rewrite Forall_forall in Hall. apply Hall. by eapply elem_of_sublist.
  - eapply StronglySorted_sublist; [exact Hs|apply Hd].
Qed.

Lemma remove_row_sublist (d : WindowDecoder) i :
  take i (rows d) ++ drop (i + 1) (rows d) `sublist_of` rows d.
Proof.
  rewrite <- (take_drop i (rows d)) at 3. apply sublist_app; [done|].
  rewrite <- drop_drop. apply sublist_drop.
Qed.

(** The other rows do not mention the pivot of row [i]. *)
Lemma others_without_pivot d i r : dinv d -> rows d !! i = Some r ->
  Forall (fun q => coef_at (r_coef q) (idx (r_pivot r)) = 0) (take i (rows d) ++ drop (i + 1) (rows d)).
Proof.
  intros Hd Hi. pose proof (di_apart d Hd) as Hs.
  rewrite <- (take_drop_middle (rows d) i r Hi) in Hs. rewrite Nat.add_1_r.
  apply StronglySorted_app in Hs as (H1 & _ & H2). apply StronglySorted_cons in H2 as [H2 _].
  rewrite Forall_forall in H2. apply Forall_app. split; apply Forall_forall; intros q Hq.
  - apply (H1 q r Hq). by constructor.
  - by apply (H2 q Hq).
Qed.

Lemma harvest_pass_spec fuel : forall i d out progress d' out' progress',
  dinv d -> aligned d -> Forall (unresolved (lo d)) (take i (rows d)) ->
  (length (rows d) <= fuel + i)%nat ->
  harvest_pass fuel i d out progress = (d', out', progress') ->
  dinv d' /\ lo d' = lo d /\ high d' = high d /\ started d' = started d /\
  rows d' `sublist_of` rows d /\ Forall (unresolved (lo d)) (rows d') /\ Lost out' = Lost out /\
  exists recs, Recovered out' = Recovered out ++ recs /\ Forall true_symbol recs.
Proof.
  induction fuel as [|fuel IH]; intros i d out progress d' out' progress' Hd Ha Hu Hf He.
  { cbn in He. injection He as <- <- <-. rewrite take_ge in Hu by lia. repeat (split; [done|]).
    exists []. by rewrite app_nil_r. }
  cbn [harvest_pass] in He. destruct (rows d !! i) as [r|] eqn:Ei.
  2:{ injection He as <- <- <-. apply lookup_ge_None in Ei. rewrite take_ge in Hu by lia.
      repeat (split; [done|]). exists []. by rewrite app_nil_r. }
  pose proof (lookup_lt_Some _ _ _ Ei) as Hlt. rewrite leading_spec in He by done.
  assert (Hrow : row_ok (lo d) (slots d) r).
  { pose proof (di_rows d Hd) as Hall. rewrite Forall_lookup in Hall. by eapply Hall. }
  pose proof (nonzero_pivot _ _ _ Hrow) as Hpiv.
  destruct (nonzero_in (r_coef r) (win (lo d))) as [|p rest] eqn:En; [by apply elem_of_nil in Hpiv|].
  pose proof (len_nonneg rest) as Hl. rewrite len_cons in He. replace (1 + len rest =? 0) with false in He by lia.
  destruct (1 + len rest >? 1) eqn:E1; bool_to_prop.
  - apply IH in He; try done; [|lia]. rewrite (take_S_r _ _ _ Ei). apply Forall_app. split; [done|].
    constructor; [|constructor]. unfold unresolved. rewrite En, len_cons. lia.
  - assert (Hrest : rest = []) by (apply len_zero_nil; lia). subst rest.
    change (default 0 (head [p])) with p in He.
    destruct (single_unknown _ _ _ _ Hrow En) as [-> Hv].
    pose proof (remove_row_sublist d i) as Hsub. pose proof (others_without_pivot d i r Hd Ei) as Hz.
    set (rs := take i (rows d) ++ drop (i + 1) (rows d)) in *.
    destruct (substitute (with_rows d rs) (r_pivot r) (r_data r) out true) as [d1 out1] eqn:Es.
    destruct (substitute_spec (with_rows d rs) (r_pivot r) (r_data r) out true d1 out1) as
      (Hd1 & Hr1 & Hl1 & Hh1 & Hst1 & Hlost1 & recs1 & Hrec1 & Ht1); try done.
    { by apply dinv_sublist. }
    { apply Hrow. }
    { apply Hrow. }
    cbn [with_rows rows lo high started] in *.
    apply IH in He as (Hd2 & Hl2 & Hh2 & Hst2 & Hr2 & Hu2 & Hlost2 & recs2 & Hrec2 & Ht2); try done.
    + rewrite Hl1 in *. repeat (split; [done || congruence|]). split; [|split; [done|split; [congruence|]]].
      { etransitivity; [exact Hr2|]. by rewrite Hr1. }
      exists (recs1 ++ recs2). rewrite Hrec2, Hrec1, app_assoc. split; [done|]. by apply Forall_app.
    + unfold aligned. by rewrite Hh1, Hl1.
    + rewrite Hl1, Hr1. subst rs. rewrite take_app_length'; [done|]. rewrite length_take. lia.
    + rewrite Hr1. subst rs. rewrite length_app, length_take, length_drop. lia.
Qed.

Lemma harvest_pass_idle fuel : forall i d out progress,
  dinv d -> aligned d -> Forall (unresolved (lo d)) (rows d) ->
  harvest_pass fuel i d out progress = (d, out, progress).
Proof.
  induction fuel as [|fuel IH]; intros i d out progress Hd Ha Hu; [done|]. cbn [harvest_pass].
  destruct (rows d !! i) as [r|] eqn:Ei; [|done]. rewrite leading_spec by done.
  assert (H1 : unresolved (lo d) r) by (rewrite Forall_lookup in Hu; by eapply Hu).
  unfold unresolved in H1. set (n := len _) in *.
  replace (n =? 0) with false by lia. replace (n >? 1) with true by lia. by apply IH.
Qed.

Lemma harvest_spec d out d' out' :
  dinv d -> aligned d -> harvest d out = (d', out') ->
  dinv d' /\ lo d' = lo d /\ high d' = high d /\ started d' = started d /\
  Forall (unresolved (lo d)) (rows d') /\ Lost out' = Lost out /\
  exists recs, Recovered out' = Recovered out ++ recs /\ Forall true_symbol recs.
Proof.
  intros Hd Ha He. unfold harvest in He. cbn [harvest_loop] in He.
  destruct (harvest_pass (length (rows d)) 0 d out false) as [[d1 out1] pr] eqn:Ep.
  destruct (harvest_pass_spec (length (rows d)) 0 d out false d1 out1 pr) as
    (Hd1 & Hl1 & Hh1 & Hs1 & _ & Hu1 & Hlost & Hrec); try done; [lia|].
  assert (Hstop : (if pr then harvest_loop (length (rows d)) d1 out1 else (d1, out1)) = (d1, out1)).
  { destruct pr; [|done]. destruct (length (rows d)) as [|n]; [done|]. cbn [harvest_loop].
    rewrite harvest_pass_idle; [done|done| |by rewrite Hl1]. unfold aligned. by rewrite Hh1, Hl1. }
  rewrite Hstop in He. injection He as <- <-. done.
Qed.

(** *** Adding an equation *)

(** What the reductions of [insert] keep: a true equation of full width. *)
Record eqn_ok (l : Z) (coef data : bytes) : Prop := mk_eqn_ok {
  eo_len : length coef = width_nat;
  eo_coef : Forall is_byte coef;
  eo_data : Forall is_byte data;
  eo_eqn : eqn l coef data
}.

Lemma insert_zero_bytes coef i : Forall is_byte coef -> Forall is_byte (<[i := 0]> coef).
Proof. intros H. apply Forall_insert; done. Qed.

(** Removing the known symbols leaves a true equation that mentions none. *)
Lemma eliminate_known_fold d l : forall coef data coef' data',
  dinv d -> (forall e, e ∈ l -> e ∈ win (lo d)) -> eqn_ok (lo d) coef data ->
  fold_left (fun '(coef, data) esi =>
    let index := slot_of d esi in
    let s := slot_at d esi in
    if coef_at coef index =? 0 then (coef, data)
    else if s_live s && s_known s
    then (<[index := 0]> coef, addScaled (coef_at coef index) (s_vector s) (ensure data (len (s_vector s))))
    else (coef, data)) l (coef, data) = (coef', data') ->
  eqn_ok (lo d) coef' data' /\
  (forall i, coef_at coef i = 0 -> coef_at coef' i = 0) /\
  (forall e, e ∈ l -> s_live (slot_at d e) = true -> coef_at coef' (idx e) = 0).
Proof.
  induction l as [|e l IH]; intros coef data coef' data' Hd Hl Hok He; cbn [fold_left] in He.
  { injection He as <- <-. split; [done|]. split; [done|]. intros e H. by apply elem_of_nil in H. }
  rewrite slot_of_idx in He by apply Hd. cbn zeta in He.
  assert (Hsub : forall e', e' ∈ l -> e' ∈ win (lo d)) by (intros e' He'; apply Hl; by right).
  assert (Hin : e ∈ win (lo d)) by (apply Hl; by constructor).
  assert (Hskip : fold_left (fun '(coef, data) esi =>
    let index := slot_of d esi in
    let s := slot_at d esi in
    if coef_at coef index =? 0 then (coef, data)
    else if s_live s && s_known s
    then (<[index := 0]> coef, addScaled (coef_at coef index) (s_vector s) (ensure data (len (s_vector s))))
    else (coef, data)) l (coef, data) = (coef', data') ->
    (s_live (slot_at d e) = true -> coef_at coef (idx e) = 0) ->
    eqn_ok (lo d) coef' data' /\ (forall i, coef_at coef i = 0 -> coef_at coef' i = 0) /\
    (forall e', e' ∈ e :: l -> s_live (slot_at d e') = true -> coef_at coef' (idx e') = 0)).
  { intros He' H0. destruct (IH _ _ _ _ Hd Hsub Hok He') as (H1 & H2 & H3).
    split; [done|]. split; [done|]. intros e' Hin' Hl'. apply elem_of_cons in Hin' as [->|Hin'].
    - apply H2. by apply H0.
    - by apply H3. }
  destruct (coef_at coef (idx e) =? 0) eqn:E1; bool_to_prop; [by apply Hskip|].
  destruct (s_live (slot_at d e)) eqn:El; cbn [andb] in He; [|by apply Hskip].
  destruct (proj2 (di_slots d Hd) _ _ (slots_lookup d e Hd) El) as (Hkn & _ & _ & Hv & Hvb).
  rewrite (live_slot d e Hd Hin El) in Hv. rewrite Hkn in He.
  destruct Hok as [O1 O2 O3 O4].
  assert (Hset : forall i, coef_at (<[idx e := 0]> coef) i = if decide (idx e = i) then 0 else coef_at coef i).
  { intros i. apply coef_at_insert. rewrite O1. apply idx_lt. }
  destruct (IH (<[idx e := 0]> coef) (add_multiple (coef_at coef (idx e)) (s_vector (slot_at d e)) data)
    coef' data' Hd Hsub) as (H1 & H2 & H3).
  - split; [by rewrite length_insert|by apply insert_zero_bytes| |by apply eqn_clear].
    apply add_multiple_bytes; [by apply coef_at_byte|done|done].
  - exact He.
  - split; [done|]. split.
    + intros i Hi. apply H2. rewrite Hset. by destruct (decide _).
    + intros e' Hin' Hl'. apply elem_of_cons in Hin' as [->|Hin']; [|by apply H3].
      apply H2. by rewrite Hset, decide_True.
Qed.

Lemma eliminate_known_spec d coef data coef' data' :
  dinv d -> aligned d -> eqn_ok (lo d) coef data -> eliminate_known d coef data = (coef', data') ->
  eqn_ok (lo d) coef' data' /\ forall i, slot_live (slots d) i -> coef_at coef' i = 0.
Proof.
  intros Hd Ha Hok He. unfold eliminate_known in He. rewrite window_esis_win in He by (done || apply Hd).
  destruct (eliminate_known_fold d (win (lo d)) coef data coef' data' Hd (fun e H => H) Hok He) as (H1 & _ & H3).
  split; [done|]. intros i (s & Hs & Hl).
  destruct (proj2 (di_slots d Hd) i s Hs Hl) as (_ & Hin & Hi & _).
  rewrite <- Hi. apply H3; [done|]. rewrite <- Hi in Hs. rewrite (slots_lookup d _ Hd) in Hs. congruence.
Qed.

Lemma coef_at_mulSliceXor c inp out i : Forall is_byte inp -> length inp = length out ->
  coef_at (mulSliceXor c inp out) i = Z.lxor (coef_at out i) (gfMul c (coef_at inp i)).
Proof. apply mulSliceXor_at. Qed.

(** Reducing by the held rows leaves a true equation that mentions no known
    symbol and no held pivot. *)
Lemma eliminate_rows_fold d rs : forall coef data coef' data',
  dinv d -> Forall (row_ok (lo d) (slots d)) rs -> StronglySorted rows_apart rs ->
  eqn_ok (lo d) coef data ->
  fold_left (fun '(coef, data) r =>
    let c := coef_at coef (slot_of d (r_pivot r)) in
    if c =? 0 then (coef, data)
    else (mulSliceXor c (r_coef r) coef, addScaled c (r_data r) (ensure data (len (r_data r)))))
    rs (coef, data) = (coef', data') ->
  eqn_ok (lo d) coef' data' /\
  (forall i, coef_at coef i = 0 -> Forall (fun r => coef_at (r_coef r) i = 0) rs -> coef_at coef' i = 0) /\
  Forall (fun r => coef_at coef' (idx (r_pivot r)) = 0) rs.
Proof.
  induction rs as [|r rs IH]; intros coef data coef' data' Hd Hrs Hap Hok He; cbn [fold_left] in He.
  { injection He as <- <-. split; [done|]. split; [done|]. constructor. }
  rewrite slot_of_idx in He by apply Hd. cbn zeta in He.
  apply Forall_cons in Hrs as [Hr Hrs]. apply StronglySorted_cons in Hap as [Hra Hap].
  destruct Hok as [O1 O2 O3 O4]. set (c := coef_at coef (idx (r_pivot r))) in *.
  assert (Hlen : length (r_coef r) = length coef) by (by rewrite O1, (ro_len _ _ _ Hr)).
  assert (Hc : is_byte c) by (by apply coef_at_byte).
  set (coef1 := if c =? 0 then coef else mulSliceXor c (r_coef r) coef).
  set (data1 := if c =? 0 then data else add_multiple c (r_data r) data).
  assert (He1 : (if c =? 0 then (coef, data)
    else (mulSliceXor c (r_coef r) coef, addScaled c (r_data r) (ensure data (len (r_data r))))) = (coef1, data1)).
  { subst coef1 data1. by destruct (c =? 0). }
  rewrite He1 in He. clear He1.
  assert (Hat : forall i, coef_at coef1 i = Z.lxor (coef_at coef i) (gfMul c (coef_at (r_coef r) i))).
  { intros i. subst coef1. destruct (c =? 0) eqn:Ec; bool_to_prop.
    - by rewrite Ec, gfMul_0_l, Z.lxor_0_r.
    - apply coef_at_mulSliceXor; [apply Hr|done]. }
  assert (Hok1 : eqn_ok (lo d) coef1 data1).
  { subst coef1 data1. destruct (c =? 0); [done|]. split.
    - by rewrite mulSliceXor_length.
    - by apply mulSliceXor_bytes; [|apply Hr| |].
    - apply add_multiple_bytes; [done|apply Hr|done].
    - apply eqn_add; try done; apply Hr. }
  destruct (IH coef1 data1 coef' data' Hd Hrs Hap Hok1 He) as (H1 & H2 & H3).
  split; [done|]. split.
  - intros i Hi Hall. apply Forall_cons in Hall as [Hri Hall]. apply H2; [|done].
    by rewrite Hat, Hi, Hri, gfMul_0_r.
  - constructor; [|done]. apply H2.
    + fold c. rewrite Hat. fold c. rewrite (ro_one _ _ _ Hr), gfMul_comm, gfMul_1_l by done. apply Z.lxor_nilpotent.
    + eapply Forall_impl; [exact Hra|]. intros q [_ Hq]. done.
Qed.

Lemma head_nonzero coef l p : head (nonzero_in coef l) = Some p -> p ∈ l /\ coef_at coef (idx p) <> 0.
Proof.
  intros Hh. destruct (nonzero_in coef l) as [|q rest] eqn:En; [done|]. injection Hh as ->.
  assert (Hin : p ∈ nonzero_in coef l) by (rewrite En; by constructor).
  by apply list_elem_of_filter in Hin as [? ?].
Qed.

(** Normalising an equation at its leading unknown. *)
Lemma scaled_row d coef data p :
  dinv d -> eqn_ok (lo d) coef data -> p ∈ win (lo d) -> coef_at coef (idx p) <> 0 ->
  (forall i, slot_live (slots d) i -> coef_at coef i = 0) ->
  Forall (fun r => coef_at coef (idx (r_pivot r)) = 0) (rows d) ->
  let f := inv (coef_at coef (idx p)) in
  row_ok (lo d) (slots d) (mkRow p (scaleBytes f coef) (scaleBytes f data)) /\
  Forall (fun r => coef_at (scaleBytes f coef) (idx (r_pivot r)) = 0) (rows d).
Proof.
  intros Hd [O1 O2 O3 O4] Hp Hne Hu Hz f. pose proof (coef_at_byte coef (idx p) O2) as Hb.
  assert (Hf : is_byte f) by (by apply inv_byte).
  assert (Hat : forall i, coef_at (scaleBytes f coef) i = gfMul f (coef_at coef i)).
  { intros i. by apply scaleBytes_at. }
  assert (Hsb : forall v, Forall is_byte v -> Forall is_byte (scaleBytes f v)).
  { intros v Hv. apply at_ext_Forall. intros j. rewrite scaleBytes_at by done.
    apply gfMul_byte; [done|by apply at_byte]. }
  split; [|eapply Forall_impl; [exact Hz|]; cbn; intros r Hr; by rewrite Hat, Hr, gfMul_0_r].
  split; cbn [r_coef r_data r_pivot].
  - unfold scaleBytes. destruct (f =? 1); [done|]. by rewrite length_map.
  - by apply Hsb.
  - by apply Hsb.
  - done.
  - rewrite Hat. apply gfMul_inv. unfold is_byte in Hb. lia.
  - by apply eqn_scale.
  - intros i Hi. by rewrite Hat, Hu, gfMul_0_r.
Qed.

(** Clearing the new pivot from a held row. *)
Lemma clear_pivot_spec d row r :
  dinv d -> row_ok (lo d) (slots d) row -> row_ok (lo d) (slots d) r ->
  coef_at (r_coef row) (idx (r_pivot r)) = 0 ->
  row_ok (lo d) (slots d) (clear_pivot d row r) /\ r_pivot (clear_pivot d row r) = r_pivot r /\
  coef_at (r_coef (clear_pivot d row r)) (idx (r_pivot row)) = 0 /\
  (forall i, coef_at (r_coef row) i = 0 -> coef_at (r_coef (clear_pivot d row r)) i = coef_at (r_coef r) i).
Proof.
  intros Hd Hrow Hr H0. unfold clear_pivot. rewrite slot_of_idx by apply Hd.
  set (c := coef_at (r_coef r) (idx (r_pivot row))).
  destruct (c =? 0) eqn:Ec; bool_to_prop; [done|]. cbn [r_pivot r_coef r_data].
  assert (Hlen : length (r_coef row) = length (r_coef r)) by (by rewrite (ro_len _ _ _ Hrow), (ro_len _ _ _ Hr)).
  assert (Hc : is_byte c) by (apply coef_at_byte, Hr).
  assert (Hat : forall i, coef_at (mulSliceXor c (r_coef row) (r_coef r)) i =
    Z.lxor (coef_at (r_coef r) i) (gfMul c (coef_at (r_coef row) i))).
  { intros i. apply coef_at_mulSliceXor; [apply Hrow|done]. }
  assert (Hkeep : forall i, coef_at (r_coef row) i = 0 ->
    coef_at (mulSliceXor c (r_coef row) (r_coef r)) i = coef_at (r_coef r) i).
  { intros i Hi. by rewrite Hat, Hi, gfMul_0_r, Z.lxor_0_r. }
  split; [|split; [done|split; [|done]]].
  - split; cbn [r_coef r_data r_pivot].
    + rewrite mulSliceXor_length. apply Hr.
    + by apply mulSliceXor_bytes; [|apply Hrow|apply Hr|].
    + apply add_multiple_bytes; [done|apply Hrow|apply Hr].
    + apply Hr.
    + rewrite Hkeep by done. apply Hr.
    + apply eqn_add; try done; try apply Hr; apply Hrow.
    + intros i Hi. rewrite Hkeep; [by apply Hr|by apply Hrow].
  - rewrite Hat, (ro_one _ _ _ Hrow), gfMul_comm, gfMul_1_l by done. apply Z.lxor_nilpotent.
Qed.

Lemma StronglySorted_map {A} (R : A -> A -> Prop) (f : A -> A) l :
  StronglySorted R l -> (forall x y, x ∈ l -> y ∈ l -> R x y -> R (f x) (f y)) ->
  StronglySorted R (map f l).
Proof.
  induction 1 as [|x l Hs IH Hx]; intros Hf; [constructor|]. cbn. constructor.
  - apply IH. intros y z Hy Hz. apply Hf; by right.
  - rewrite Forall_forall in *. intros y Hy. apply list_elem_of_fmap in Hy as (z & -> & Hz).
    apply Hf; [by constructor|by right|by apply Hx].
Qed.

(** Adding a normalised row keeps the echelon form. *)
Lemma dinv_add_row d row :
  dinv d -> row_ok (lo d) (slots d) row ->
  Forall (fun r => coef_at (r_coef row) (idx (r_pivot r)) = 0) (rows d) ->
  dinv (with_rows d (map (clear_pivot d row) (rows d) ++ [row])).
Proof.
  intros Hd Hrow Hz. pose proof (di_rows d Hd) as Hall. rewrite Forall_forall in Hall, Hz.
  assert (Hcp : forall r, r ∈ rows d -> _) by (intros r Hr; exact (clear_pivot_spec d row r Hd Hrow (Hall r Hr) (Hz r Hr))).
  split; cbn; try apply Hd.
  - apply Forall_app. split; [|by constructor]. apply Forall_forall. intros q Hq.
    apply list_elem_of_fmap in Hq as (r & -> & Hr). by apply Hcp.
  - apply StronglySorted_app_2; [| |repeat constructor].
    + intros q q' Hq Hq'. apply list_elem_of_singleton in Hq' as ->.
      apply list_elem_of_fmap in Hq as (r & -> & Hr). destruct (Hcp r Hr) as (_ & Hp & H0 & _).
      split; [done|]. rewrite Hp. by apply Hz.
    + apply StronglySorted_map; [apply Hd|]. intros r q Hr Hq [H1 H2].
      destruct (Hcp r Hr) as (_ & Hpr & _ & Hkr). destruct (Hcp q Hq) as (_ & Hpq & _ & Hkq).
      split; [rewrite Hpq, Hkr|rewrite Hpr, Hkq]; done || by apply Hz.
Qed.

Lemma Decoder_insert_spec d coef data out d' out' :
  dinv d -> aligned d -> eqn_ok (lo d) coef data -> Decoder_insert d coef data out = (d', out') ->
  dinv d' /\ lo d' = lo d /\ high d' = high d /\ started d' = started d /\ Lost out' = Lost out /\
  exists recs, Recovered out' = Recovered out ++ recs /\ Forall true_symbol recs.
Proof.
  intros Hd Ha Hok He. unfold Decoder_insert in He.
  destruct (eliminate_known d coef data) as [coef1 data1] eqn:E1.
  destruct (eliminate_known_spec d coef data coef1 data1 Hd Ha Hok E1) as [Hok1 Hu1].
  destruct (eliminate_rows d coef1 data1) as [coef2 data2] eqn:E2.
  destruct (eliminate_rows_fold d (rows d) coef1 data1 coef2 data2 Hd (di_rows d Hd) (di_apart d Hd) Hok1 E2)
    as (Hok2 & Hk2 & Hz2).
  rewrite leading_spec in He by done.
  destruct (nonzero_in coef2 (win (lo d))) as [|p rest] eqn:En.
  { injection He as <- <-. split; [by destruct Hd|]. repeat (split; [done|]). exists []. by rewrite app_nil_r. }
  pose proof (len_nonneg rest) as Hl. rewrite len_cons in He. replace (1 + len rest =? 0) with false in He by lia.
  change (default 0 (head (p :: rest))) with p in He. rewrite slot_of_idx in He by apply Hd.
  destruct (head_nonzero coef2 (win (lo d)) p) as [Hp Hne]; [by rewrite En|].
  set (f := inv (coef_at coef2 (idx p))) in *.
  assert (Hsc : (if negb (f =? 1) then (scaleBytes f coef2, scaleBytes f data2) else (coef2, data2)) =
    (scaleBytes f coef2, scaleBytes f data2)).
  { unfold scaleBytes. by destruct (f =? 1). }
  rewrite Hsc in He.
  destruct (scaled_row d coef2 data2 p Hd Hok2 Hp Hne) as [Hrow Hz]; [|done|].
  { intros i Hi. apply Hk2; [by apply Hu1|]. eapply Forall_impl; [apply Hd|]. intros r Hr. by apply Hr. }
  fold f in Hrow, Hz.
  apply harvest_spec in He as (H1 & H2 & H3 & H4 & _ & H6 & H7); [done|by apply dinv_add_row|done].
Qed.

(** *** The equation of a repair *)

Lemma windowCoefficient_range rid i : 0 < windowCoefficient rid i < 256.
Proof.
  unfold windowCoefficient. set (x := Z.lxor _ _).
  pose proof (Z.mod_pos_bound x 255 ltac:(lia)) as Hm. rewrite wrap_small by (pow2_eval; lia). lia.
Qed.

(** The vector of a repair is the combination its identity names. *)
Definition valid_repair (r : RepairSymbol) : Prop :=
  in_range 32 (First r) /\ Forall is_byte (Vector r) /\
  forall j, xsum (fun i => gfMul (windowCoefficient (RID r) (Z.of_nat i))
                                 (at_ (sym (First r +u32 Z.of_nat i)) j)) (seq 0 (Z.to_nat (Count r)))
            = at_ (Vector r) j.

Lemma xsum_map {A B} (f : B -> Z) (g : A -> B) l : xsum f (map g l) = xsum (fun x => f (g x)) l.
Proof. induction l as [|x l IH]; [done|]. cbn [map]. by rewrite !xsum_cons, IH. Qed.

Lemma repair_coef_fold d rid first a n :
  dinv d -> aligned d -> first = wrap 32 (lo d + a) -> 0 <= a -> a + Z.of_nat n <= decoderWidth ->
  let coef := fold_left (fun coef i =>
    let esi := first +u32 Z.of_nat i in
    if (int32_of (esi -u32 lo d) <? 0) || (int32_of (esi -u32 high d) >=? 0) then coef
    else <[slot_of d esi := windowCoefficient rid (Z.of_nat i)]> coef)
    (seq 0 n) (replicate (length (slots d)) 0) in
  length coef = width_nat /\ Forall is_byte coef /\
  forall k, 0 <= k < decoderWidth ->
    coef_at coef (idx (lo d + k)) =
    if (a <=? k) && (k <? a + Z.of_nat n) then windowCoefficient rid (k - a) else 0.
Proof.
  intros Hd Ha Hfirst Ha0. pose proof decoderWidth_val as HW. unfold aligned in Ha.
  induction n as [|n IH]; intros Han.
  - cbn [seq fold_left]. split; [rewrite length_replicate; apply Hd|]. split.
    + apply Forall_replicate. done.
    + intros k Hk. unfold coef_at. change (nth ?i ?l 0) with (at_ l i). rewrite at_replicate.
      destruct (_ && _) eqn:E; [bool_to_prop; lia|done].
  - destruct IH as (IH1 & IH2 & IH3); [lia|]. rewrite seq_S, fold_left_app. cbn [fold_left plus].
    set (coef := fold_left _ (seq 0 n) _) in *. cbn zeta.
    assert (Hesi : first +u32 Z.of_nat n = wrap 32 (lo d + (a + Z.of_nat n))).
    { rewrite Hfirst. autorewrite with go. f_equal. lia. }
    rewrite Hesi, slot_of_idx, idx_wrap by apply Hd.
    replace (int32_of (wrap 32 (lo d + (a + Z.of_nat n)) -u32 lo d) <? 0) with false.
    2:{ symmetry. apply Z.ltb_ge. autorewrite with go.
        replace (lo d + (a + Z.of_nat n) - lo d) with (a + Z.of_nat n) by lia.
        rewrite wrap_small by (pow2_eval; lia). apply int32_of_nonneg; pow2_eval; lia. }
    replace (int32_of (wrap 32 (lo d + (a + Z.of_nat n)) -u32 high d) >=? 0) with false.
    2:{ symmetry. rewrite Z.geb_leb. apply Z.leb_gt. rewrite Ha. autorewrite with go.
        replace (lo d + (a + Z.of_nat n) - (lo d + decoderWidth))
          with (- (decoderWidth - (a + Z.of_nat n))) by lia.
        apply int32_of_neg. pow2_eval. lia. }
    cbn [orb]. pose proof (windowCoefficient_range rid (Z.of_nat n)) as Hwc.
    split; [by rewrite length_insert|]. split; [apply Forall_insert; [done|]; unfold is_byte; lia|].
    intros k Hk. rewrite coef_at_insert by (rewrite IH1; apply idx_lt).
    destruct (decide (idx (lo d + (a + Z.of_nat n)) = idx (lo d + k))) as [Heq|Hne].
    + apply idx_inj in Heq; [|lia|lia]. subst k.
      destruct (_ && _) eqn:E; [f_equal; lia|]. bool_to_prop. destruct E; bool_to_prop; lia.
    + rewrite IH3 by done. assert (k <> a + Z.of_nat n) by (intros ->; done).
      replace (k <? a + Z.of_nat (S n)) with (k <? a + Z.of_nat n); [done|].
      apply eq_true_iff_eq. rewrite !Z.ltb_lt. lia.
Qed.

(** A repair whose span lies in the window states a true equation about it. *)
Lemma repair_coef_ok d r a :
  dinv d -> aligned d -> valid_repair r -> First r = wrap 32 (lo d + a) -> 0 <= a ->
  0 <= Count r -> a + Count r <= decoderWidth ->
  eqn_ok (lo d) (repair_coef d r) (Vector r).
Proof.
  intros Hd Ha (_ & Hvb & Hv) Hf Ha0 Hc0 Hc. set (n := Z.to_nat (Count r)).
  destruct (repair_coef_fold d (RID r) (First r) a n Hd Ha Hf Ha0 ltac:(lia)) as (H1 & H2 & H3).
  split; [done|done|done|]. intros j. rewrite <- Hv. fold n. unfold win. rewrite xsum_map.
  assert (Hn : (Z.to_nat a + n <= width_nat)%nat) by (subst n; unfold width_nat; lia).
  assert (Hsplit : seq 0 width_nat = seq 0 (Z.to_nat a) ++ seq (Z.to_nat a) n ++
    seq (Z.to_nat a + n) (width_nat - Z.to_nat a - n)).
  { replace width_nat with (Z.to_nat a + (n + (width_nat - Z.to_nat a - n)))%nat at 1 by lia.
    by rewrite !seq_app. }
  rewrite Hsplit, !xsum_app.
  assert (Hout : forall l, (forall k, k ∈ l -> (k < width_nat)%nat /\
      ((Z.of_nat k < a) \/ a + Z.of_nat n <= Z.of_nat k)) ->
    xsum (fun k => gfMul (coef_at (repair_coef d r) (idx (wrap 32 (lo d + Z.of_nat k))))
      (at_ (sym (wrap 32 (lo d + Z.of_nat k))) j)) l = 0).
  { intros l Hl. apply xsum_zero. intros k Hk. destruct (Hl k Hk) as [Hkw Hk']. unfold width_nat in Hkw.
    rewrite idx_wrap, H3 by lia. destruct (_ && _) eqn:E; [bool_to_prop; lia|apply gfMul_0_l]. }
  rewrite (Hout (seq 0 (Z.to_nat a))), (Hout (seq (Z.to_nat a + n) _)).
  - rewrite Z.lxor_0_l, Z.lxor_0_r.
    replace (seq (Z.to_nat a) n) with (map (fun i => Z.to_nat a + i)%nat (seq 0 n)).
    2:{ change (map _ _) with (Nat.add (Z.to_nat a) <$> seq 0 n). by rewrite fmap_add_seq, Nat.add_0_r. }
    rewrite xsum_map. apply xsum_ext. intros i Hi. apply elem_of_seq in Hi. subst n.
    rewrite idx_wrap, H3 by lia. destruct (_ && _) eqn:E; [|bool_to_prop; destruct E; bool_to_prop; lia].
    f_equal; [f_equal; lia|]. rewrite Hf. autorewrite with go. do 3 f_equal. lia.
  - intros k Hk. apply elem_of_seq in Hk. unfold width_nat in *. lia.
  - intros k Hk. apply elem_of_seq in Hk. unfold width_nat in *. lia.
Qed.

(** *** Arrivals *)

Lemma witness_fields d esi :
  slots (witness d esi) = slots d /\ d_mask (witness d esi) = d_mask d /\ lo (witness d esi) = lo d /\
  high (witness d esi) = high d /\ started (witness d esi) = started d /\ rows (witness d esi) = rows d.
Proof. unfold witness. by destruct (_ && _ && _). Qed.

Lemma dok_fields d d' :
  dok d -> slots d' = slots d -> d_mask d' = d_mask d -> lo d' = lo d -> high d' = high d ->
  started d' = started d -> rows d' = rows d -> dok d'.
Proof.
  intros [Hd Ha Hi] H1 H2 H3 H4 H5 H6. split.
  - destruct Hd. split; congruence.
  - rewrite H5. intros Hs. unfold aligned. rewrite H3, H4. by apply Ha.
  - rewrite H1, H5, H6. done.
Qed.

Lemma dok_witness d esi : dok d -> dok (witness d esi).
Proof. intros Hd. destruct (witness_fields d esi) as (? & ? & ? & ? & ? & ?). by eapply dok_fields. Qed.

Lemma dok_discard d n : dok d -> dok (discard d n).
Proof. intros Hd. by eapply dok_fields. Qed.

(** A source symbol arrives in order when nothing newer has been seen, or at
    least no held equation mentions it. *)
Definition orderly (d : WindowDecoder) (esi : Z) : Prop :=
  newest d esi \/ Forall (fun r => coef_at (r_coef r) (idx esi) = 0) (rows d).

(** How far the window can reach after an arrival that names [esi]. *)
Definition reaches (d d' : WindowDecoder) (esi : Z) : Prop :=
  high d' = wrap 32 (esi + 1) \/ (started d' = started d /\ high d' = high d).

Lemma Decoder_source_spec d esi owned d' out :
  dok d -> in_range 32 esi -> orderly d esi -> Decoder_source d esi (sym esi) owned = (d', out) ->
  dok d' /\ Forall true_symbol (Recovered out) /\ reaches d d' esi.
Proof.
  intros Hd Hesi Hord He. unfold Decoder_source in He.
  destruct (Decoder_admit d esi no_delivery) as [[ok d1] out1] eqn:Ea.
  destruct (admit_spec d esi no_delivery ok d1 out1 Hd Hesi Ea) as [Ho Hok]. cbn in Ho.
  destruct ok; cbn [negb] in He.
  2:{ subst d1. injection He as <- <-. split; [done|]. rewrite Ho. split; [constructor|by right]. }
  destruct Hok as (Hd1 & Hst & Hin & Hsub & Hfresh & Hhigh).
  pose proof (dok_witness d1 esi Hd1) as Hd2. destruct (witness_fields d1 esi) as (_ & _ & Wl & Wh & Ws & Wr).
  set (d2 := witness d1 esi) in *.
  assert (Hreach : forall d', started d' = true -> high d' = high d2 -> reaches d d' esi).
  { intros d3 Hs3 Hh3. unfold reaches. rewrite Hh3, Wh, Hs3.
    destruct Hhigh as [Hh|[Hsd Hh]]; [by left|right; by rewrite Hsd]. }
  destruct (s_live _ && _ && _).
  { injection He as <- <-. split; [done|]. rewrite Ho. split; [constructor|].
    apply Hreach; [by rewrite Ws|done]. }
  replace (if owned then sym esi else [] ++ sym esi) with (sym esi) in He by (by destruct owned).
  destruct (substitute d2 esi (sym esi) out1 false) as [d3 out3] eqn:Es.
  assert (Hz : Forall (fun r => coef_at (r_coef r) (idx esi) = 0) (rows d2)).
  { rewrite Wr. destruct Hord as [Hn|Hz]; [by apply Hfresh|]. rewrite Forall_forall in *.
    intros r Hr. apply Hz. by eapply elem_of_sublist. }
  destruct (substitute_spec d2 esi (sym esi) out1 false d3 out3) as
    (Hd3 & Hr3 & Hl3 & Hh3 & Hs3 & _ & recs & Hrec & Ht); try done; [apply Hd2|by rewrite Wl|].
  assert (Ha3 : aligned d3).
  { unfold aligned. rewrite Hl3, Hh3. apply Hd2. by rewrite Ws. }
  apply harvest_spec in He as (Hd4 & Hl4 & Hh4 & Hs4 & _ & _ & recs' & Hrec' & Ht'); [|done|done].
  split.
  - split; [done|intros _; unfold aligned; rewrite Hl4, Hh4; done|]. rewrite Hs4, Hs3, Ws, Hst. done.
  - rewrite Hrec', Hrec, Ho. cbn. split; [by apply Forall_app|].
    apply Hreach; [by rewrite Hs4, Hs3, Ws|by rewrite Hh4, Hh3].
Qed.

Lemma Decoder_repair_spec d r owned d' out :
  dok d -> valid_repair r -> Decoder_repair d r owned = (d', out) ->
  dok d' /\ Forall true_symbol (Recovered out) /\ reaches d d' (First r +u32 (Count r - 1)).
Proof.
  intros Hd Hv He. unfold Decoder_repair in He. pose proof Hv as (Hf32 & _).
  destruct ((Count r <=? 0) || (len (Vector r) =? 0)) eqn:E1; [injection He as <- <-; split; [done|]; split; [constructor|by right]|].
  destruct (Count r >? MaxRepairWindow) eqn:E2.
  { injection He as <- <-. split; [by apply dok_discard|]. split; [constructor|by right]. }
  bool_to_prop. change MaxRepairWindow with 256 in E2. pose proof decoderWidth_val as HW.
  destruct (Decoder_admit d (First r +u32 (Count r - 1)) no_delivery) as [[ok d1] out1] eqn:Ea.
  destruct (admit_spec d (First r +u32 (Count r - 1)) no_delivery ok d1 out1 Hd ltac:(apply wrap_range; lia) Ea)
    as [Ho Hok]. cbn in Ho.
  destruct ok; cbn [negb] in He.
  2:{ subst d1. injection He as <- <-. split; [done|]. rewrite Ho. split; [constructor|by right]. }
  destruct Hok as (Hd1 & Hst & Hin & _ & _ & Hhigh).
  pose proof (dok_witness d1 (First r) Hd1) as Hd2.
  destruct (witness_fields d1 (First r)) as (_ & _ & Wl & Wh & Ws & Wr). set (d2 := witness d1 (First r)) in *.
  assert (Hreach : forall d', started d' = true -> high d' = high d2 -> reaches d d' (First r +u32 (Count r - 1))).
  { intros d3 Hs3 Hh3. unfold reaches. rewrite Hh3, Wh, Hs3.
    destruct Hhigh as [Hh|[Hsd Hh]]; [by left|right; by rewrite Hsd]. }
  destruct (int32_of (First r -u32 lo d2) <? 0) eqn:E3.
  { injection He as <- <-. split; [by apply dok_discard|]. rewrite Ho. split; [constructor|].
    apply Hreach; [by cbn; rewrite Ws|done]. }
  replace (if owned then Vector r else [] ++ Vector r) with (Vector r) in He by (by destruct owned).
  bool_to_prop. set (a := wrap 32 (First r - lo d2)) in *.
  pose proof (wrap_range 32 (First r - lo d2) ltac:(lia)) as Ha. fold a in Ha.
  apply int32_of_nonneg in E3; [|done].
  pose proof (dk_inv _ Hd2) as Hi2. pose proof (dk_aligned _ Hd2 ltac:(by rewrite Ws)) as Ha2.
  pose proof (wrap_offset (lo d2) (First r) (di_lo _ Hi2) Hf32) as Hfa. fold a in Hfa.
  assert (Hspan : a + Count r <= decoderWidth).
  { rewrite <- Wl in Hin. apply win_elem in Hin as (b & Hb & Hb'). rewrite Hfa in Hb'. autorewrite with go in Hb'.
    apply wrap_inj_near in Hb'; [lia|lia|pow2_eval; lia]. }
  apply Decoder_insert_spec in He as (Hd3 & Hl3 & Hh3 & Hs3 & _ & recs & Hrec & Ht).
  - split.
    + split; [done|intros _; unfold aligned; rewrite Hl3, Hh3; done|]. rewrite Hs3, Ws, Hst. done.
    + rewrite Hrec, Ho. split; [done|]. apply Hreach; [by rewrite Hs3, Ws|done].
  - done.
  - done.
  - apply (repair_coef_ok d2 r a); try done; lia.
Qed.

(** A receiver: arrivals of true source symbols in order and of valid repairs in
    any order, with everything recovered so far. *)
Inductive fec_step : WindowDecoder * list RecoveredSymbol -> WindowDecoder * list RecoveredSymbol -> Prop :=
| fec_source d acc esi owned d' out :
    in_range 32 esi -> orderly d esi -> Decoder_source d esi (sym esi) owned = (d', out) ->
    fec_step (d, acc) (d', acc ++ Recovered out)
| fec_repair d acc r owned d' out :
    valid_repair r -> Decoder_repair d r owned = (d', out) ->
    fec_step (d, acc) (d', acc ++ Recovered out).

Definition fec_ok (st : WindowDecoder * list RecoveredSymbol) : Prop :=
  dok (fst st) /\ Forall true_symbol (snd st).

Lemma fec_ok_step s s' : fec_ok s -> fec_step s s' -> fec_ok s'.
Proof.
  intros [Hd Ht] Hs. destruct Hs as [d acc esi owned d' out Hesi Hord He|d acc r owned d' out Hv He]; cbn in *.
  - destruct (Decoder_source_spec d esi owned d' out Hd Hesi Hord He) as (H1 & H2 & _).
    split; [done|]. cbn. by apply Forall_app.
  - destruct (Decoder_repair_spec d r owned d' out Hd Hv He) as (H1 & H2 & _).
    split; [done|]. cbn. by apply Forall_app.
Qed.

Lemma NewWindowDecoder_ok : dok NewWindowDecoder.
Proof.
  assert (Hs : forall i s, slots NewWindowDecoder !! i = Some s -> s_live s = false).
  { intros i s Hi. change (slots NewWindowDecoder) with (replicate width_nat empty_slot) in Hi.
    apply lookup_replicate in Hi as [-> _]. done. }
  split; [|done|].
  - split; [done|done| |constructor|constructor].
    split; [done|]. intros i s Hi Hl. rewrite (Hs i s Hi) in Hl. done.
  - intros _. split; [done|]. intros i (s & Hi & Hl). by rewrite (Hs i s Hi) in Hl.
Qed.

End Symbols.
