(* ===== verification/Fec.v ===== *)
(** The erasure code end to end ([internal/fec/window.go]).

    The encoder's invariant (the ring holds the newest symbols under their
    identifiers, across re-sizing and wrapping), what its repairs are, and the
    theorems about the code: what the decoder of [Window] recovers over an
    erasure channel is what was sent, and what it recovers when a source symbol
    is overtaken by a repair. *)

From S2P Require Import Prelude GF256 Window.

(** ** Powers of two *)

Lemma round_up_loop_spec fuel : forall i n,
  0 <= i -> i + Z.of_nat fuel = Z.log2_up n -> round_up_loop fuel (2 ^ i) n = 2 ^ Z.log2_up n.
Proof.
  induction fuel as [|fuel IH]; intros i n Hi Hl; cbn [round_up_loop]; [f_equal; lia|].
  destruct (decide (n <= 1)) as [Hn|Hn]; [rewrite (Z.log2_up_eqn0 n Hn) in Hl; lia|].
  pose proof (Z.log2_up_spec n ltac:(lia)) as [Hlt _].
  assert (2 ^ i <= 2 ^ Z.pred (Z.log2_up n)) by (apply Z.pow_le_mono_r; lia).
  replace (2 ^ i <? n) with true by lia.
  rewrite Z.shiftl_mul_pow2 by lia. change (2 ^ 1) with 2.
  replace (2 ^ i * 2) with (2 ^ (i + 1)) by (rewrite Z.pow_add_r by lia; lia).
  apply IH; lia.
Qed.

(** [roundUpPowerOfTwo] is the least power of two that is at least [n]. *)
Lemma roundUpPowerOfTwo_spec n :
  roundUpPowerOfTwo n = 2 ^ Z.log2_up n /\ 0 <= Z.log2_up n /\
  n <= roundUpPowerOfTwo n /\ (n <= MaxRepairWindow -> Z.log2_up n <= 8).
Proof.
  pose proof (Z.log2_up_nonneg n) as H0.
  assert (He : roundUpPowerOfTwo n = 2 ^ Z.log2_up n).
  { unfold roundUpPowerOfTwo. change 1 with (2 ^ 0). apply round_up_loop_spec; lia. }
  split; [done|]. split; [done|]. split.
  - rewrite He. destruct (decide (n <= 1)) as [Hn|Hn].
    + rewrite Z.log2_up_eqn0 by done. lia.
    + by apply Z.log2_up_spec; lia.
  - intros Hm. change 8 with (Z.log2_up MaxRepairWindow). by apply Z.log2_up_le_mono.
Qed.

(** ** The encoder *)

Section Encoder.
Variable sym : Z -> bytes.
Hypothesis sym_bytes : forall e, Forall is_byte (sym e).

(** The ring holds the newest [held] symbols. *)
Record enc_ok (e : WindowEncoder) : Prop := mk_enc_ok {
  en_size : exists m, 0 <= m <= 8 /\ len (ring e) = 2 ^ m;
  en_mask : e_mask e = len (ring e) - 1;
  en_next : in_range 32 (e_next e);
  en_held : 0 <= e_held e <= len (ring e);
  en_first : e_first e = wrap 32 (e_next e - e_held e);
  en_ring : forall k, 0 < k <= e_held e ->
    ring_at e (wrap 32 (e_next e - k)) = sym (wrap 32 (e_next e - k))
}.

(** Reading the ring of size [2^m] is reading it modulo [2^m]. *)
Lemma land_mask m x : 0 <= m -> Z.land x (2 ^ m - 1) = x mod 2 ^ m.
Proof. intros Hm. rewrite <- Z.land_ones by done. f_equal. rewrite Z.ones_equiv. lia. Qed.

Lemma mod_wrap m x : 0 <= m <= 32 -> wrap 32 x mod 2 ^ m = x mod 2 ^ m.
Proof.
  intros Hm. unfold wrap. apply Z.mod_mod_divide. exists (2 ^ (32 - m)).
  rewrite <- Z.pow_add_r by lia. f_equal. lia.
Qed.

(** Writing one slot leaves the others. *)
Lemma ring_index_inj m x y :
  0 <= m <= 8 -> - 2 ^ m < x - y < 2 ^ m ->
  Z.to_nat (Z.land (wrap 32 x) (2 ^ m - 1)) = Z.to_nat (Z.land (wrap 32 y) (2 ^ m - 1)) -> x = y.
Proof.
  intros Hm Hd He. rewrite !land_mask, !mod_wrap in He by lia.
  assert (Hp : 0 < 2 ^ m) by (apply Z.pow_pos_nonneg; lia).
  pose proof (Z.mod_pos_bound x (2 ^ m) Hp). pose proof (Z.mod_pos_bound y (2 ^ m) Hp).
  apply (wrap_inj_near m); [lia|done|]. unfold wrap. lia.
Qed.

Lemma ring_index_lt {A} m x (l : list A) :
  0 <= m -> len l = 2 ^ m -> (Z.to_nat (Z.land x (2 ^ m - 1)) < length l)%nat.
Proof.
  intros Hm Hl. rewrite land_mask by done. assert (Hp : 0 < 2 ^ m) by (apply Z.pow_pos_nonneg; lia).
  pose proof (Z.mod_pos_bound x (2 ^ m) Hp). unfold len in Hl. lia.
Qed.

Lemma nth_insert {A} (l : list A) i k x d : (i < length l)%nat ->
  nth k (<[i := x]> l) d = if decide (i = k) then x else nth k l d.
Proof.
  intros Hi. destruct (decide (i = k)) as [->|Hne].
  - apply nth_lookup_Some. by rewrite list_lookup_insert_eq.
  - by rewrite !nth_lookup, list_lookup_insert_ne.
Qed.

(** [AddOwned] numbers the symbol and makes it the newest. *)
Lemma AddOwned_spec e :
  enc_ok e ->
  fst (AddOwned e (sym (e_next e))) = e_next e /\
  enc_ok (snd (AddOwned e (sym (e_next e)))) /\
  e_next (snd (AddOwned e (sym (e_next e)))) = wrap 32 (e_next e + 1).
Proof.
  intros [(m & Hm & Hlen) Hmask Hnext Hheld Hfirst Hring]. unfold AddOwned. cbn [fst snd].
  split; [done|]. rewrite Hmask, Hlen.
  set (ring' := <[Z.to_nat (Z.land (e_next e) (2 ^ m - 1)) := sym (e_next e)]> (ring e)).
  assert (Hl' : len ring' = 2 ^ m) by (subst ring'; unfold len; rewrite length_insert; exact Hlen).
  assert (Hget : forall h k, 0 <= h <= 2 ^ m -> h <= e_held e + 1 -> 0 < k <= h ->
    nth (Z.to_nat (Z.land (wrap 32 (wrap 32 (e_next e + 1) - k)) (2 ^ m - 1))) ring' [] =
    sym (wrap 32 (wrap 32 (e_next e + 1) - k))).
  { intros h k Hh Hh' Hk. subst ring'. autorewrite with go.
    rewrite nth_insert by (apply ring_index_lt; lia || done).
    destruct (decide (k = 1)) as [->|Hk1].
    - replace (e_next e + 1 - 1) with (e_next e) by lia. rewrite (wrap_small 32 (e_next e)) by done.
      by rewrite decide_True.
    - rewrite decide_False.
      + specialize (Hring (k - 1) ltac:(lia)). unfold ring_at in Hring. rewrite Hmask, Hlen in Hring.
        by replace (e_next e + 1 - k) with (e_next e - (k - 1)) by lia.
      + intros He. rewrite <- (wrap_small 32 (e_next e)) in He at 1 by done.
        apply ring_index_inj in He; lia. }
  destruct (e_held e <? 2 ^ m) eqn:E; bool_to_prop; (split; [|done]); split;
    cbn [ring e_mask e_next e_held e_first]; rewrite ?Hl'; try done; try (by exists m); try lia.
  - apply wrap_range. lia.
  - rewrite Hfirst. autorewrite with go. f_equal. lia.
  - intros k Hk. unfold ring_at. cbn [ring e_mask]. apply (Hget (e_held e + 1)); lia.
  - apply wrap_range. lia.
  - rewrite Hfirst. autorewrite with go. f_equal. lia.
  - intros k Hk. unfold ring_at. cbn [ring e_mask]. apply (Hget (e_held e)); lia.
Qed.

(** The copying loop of [SetCapacity] moves every kept symbol to its slot. *)
Lemma copy_ring_spec e m first n : forall i target,
  0 <= m <= 8 -> len target = 2 ^ m -> 0 <= i -> i + Z.of_nat n <= 2 ^ m ->
  len (copy_ring e n first i (2 ^ m) target) = 2 ^ m /\
  (forall k, i <= k < i + Z.of_nat n ->
    nth (Z.to_nat (Z.land (wrap 32 (first + k)) (2 ^ m - 1))) (copy_ring e n first i (2 ^ m) target) [] =
    ring_at e (wrap 32 (first + k))) /\
  (forall k, 0 <= k < i ->
    nth (Z.to_nat (Z.land (wrap 32 (first + k)) (2 ^ m - 1))) (copy_ring e n first i (2 ^ m) target) [] =
    nth (Z.to_nat (Z.land (wrap 32 (first + k)) (2 ^ m - 1))) target []).
Proof.
  induction n as [|n IH]; intros i target Hm Hlen Hi Hn; cbn [copy_ring].
  { split; [done|]. split; [intros k Hk; lia|done]. }
  set (target1 := <[Z.to_nat (Z.land (wrap 32 (first + i)) (2 ^ m - 1)) := ring_at e (wrap 32 (first + i))]> target).
  assert (Hlt : (Z.to_nat (Z.land (wrap 32 (first + i)) (2 ^ m - 1)) < length target)%nat)
    by (apply ring_index_lt; lia || done).
  assert (Hl1 : len target1 = 2 ^ m) by (subst target1; unfold len; rewrite length_insert; exact Hlen).
  destruct (IH (i + 1) target1 Hm Hl1 ltac:(lia) ltac:(lia)) as (H1 & H2 & H3).
  split; [done|]. split.
  - intros k Hk. destruct (decide (k = i)) as [->|Hne]; [|apply H2; lia].
    rewrite H3 by lia. subst target1. by rewrite nth_insert, decide_True.
  - intros k Hk. rewrite H3 by lia. subst target1. rewrite nth_insert by done. rewrite decide_False; [done|].
    intros He. apply ring_index_inj in He; lia.
Qed.

(** [SetCapacity] keeps the newest symbols that fit, whatever the old size. *)
Lemma SetCapacity_spec e c :
  (enc_ok e \/ (ring e = [] /\ e_held e = 0 /\ in_range 32 (e_next e))) ->
  enc_ok (SetCapacity e c) /\ e_next (SetCapacity e c) = e_next e /\
  Encoder_Capacity (SetCapacity e c) <= MaxRepairWindow.
Proof.
  intros He. unfold SetCapacity. set (cap := if c >? MaxRepairWindow then MaxRepairWindow else c).
  assert (Hcap : cap <= MaxRepairWindow).
  { subst cap. destruct (c >? MaxRepairWindow) eqn:E; bool_to_prop; lia. }
  destruct (roundUpPowerOfTwo_spec cap) as (Hp & Hl0 & _ & Hl8). specialize (Hl8 Hcap).
  set (m := Z.log2_up cap) in *. rewrite Hp.
  assert (Hpos : 0 < 2 ^ m <= 256).
  { split; [apply Z.pow_pos_nonneg; lia|]. change 256 with (2 ^ 8). apply Z.pow_le_mono_r; lia. }
  destruct (2 ^ m =? len (ring e)) eqn:E; bool_to_prop.
  { destruct He as [He|(Hr & _)]; [|rewrite Hr, len_nil in E; lia].
    split; [done|]. split; [done|]. unfold Encoder_Capacity. change MaxRepairWindow with 256. lia. }
  assert (Hh : 0 <= e_held e /\ in_range 32 (e_next e) /\
    forall k, 0 < k <= e_held e -> ring_at e (wrap 32 (e_next e - k)) = sym (wrap 32 (e_next e - k))).
  { destruct He as [[_ _ ? ? _ ?]|(_ & Hh & ?)]; [split; [lia|done]|]. split; [lia|]. split; [done|].
    intros k Hk. lia. }
  destruct Hh as (Hh0 & Hnext & Hring).
  set (keep := if e_held e >? 2 ^ m then 2 ^ m else e_held e).
  assert (Hkeep : 0 <= keep <= e_held e /\ keep <= 2 ^ m).
  { subst keep. destruct (e_held e >? 2 ^ m) eqn:E1; bool_to_prop; lia. }
  destruct (copy_ring_spec e m (wrap 32 (e_next e - keep)) (Z.to_nat keep) 0 (replicate (Z.to_nat (2 ^ m)) []))
    as (H1 & H2 & _); [lia|unfold len; rewrite length_replicate; lia|lia|lia|].
  set (ring' := copy_ring _ _ _ _ _ _) in *.
  split; [|split; [done|unfold Encoder_Capacity; cbn [ring]; change MaxRepairWindow with 256; lia]].
  split; cbn [ring e_mask e_next e_held e_first]; rewrite ?H1; try done; try lia.
  - exists m. split; [lia|done].
  - intros k Hk. unfold ring_at. cbn [ring e_mask].
    specialize (H2 (keep - k) ltac:(lia)). autorewrite with go in H2.
    replace (e_next e - keep + (keep - k)) with (e_next e - k) in H2 by lia. rewrite H2.
    apply Hring. lia.
Qed.

Lemma NewWindowEncoder_ok c : enc_ok (NewWindowEncoder c) /\ e_next (NewWindowEncoder c) = 0.
Proof.
  destruct (SetCapacity_spec (mkEncoder [] 0 0 0 0) c) as (H1 & H2 & _); [right; done|]. done.
Qed.

(** ** Repairs *)

Lemma longest_fold (l : list bytes) : forall n v, v ∈ l \/ len v <= n ->
  len v <= fold_left (fun n v => if len v >? n then len v else n) l n.
Proof.
  assert (Hmono : forall (l : list bytes) n, n <= fold_left (fun n v => if len v >? n then len v else n) l n).
  { clear. induction l as [|v l IH]; intros n; [done|]. cbn.
    etransitivity; [|apply IH]. destruct (len v >? n) eqn:E; bool_to_prop; lia. }
  induction l as [|w l IH]; intros n v Hv; cbn [fold_left].
  { destruct Hv as [Hv|Hv]; [by apply elem_of_nil in Hv|done]. }
  destruct Hv as [Hv|Hv].
  - apply elem_of_cons in Hv as [->|Hv]; [|apply IH; by left].
    etransitivity; [|apply Hmono]. destruct (len w >? n) eqn:E; bool_to_prop; lia.
  - apply IH. right. destruct (len w >? n) eqn:E; bool_to_prop; lia.
Qed.

Lemma addScaled_length c inp out : length (addScaled c inp out) = length out.
Proof.
  unfold addScaled. rewrite length_app, mulSliceXor_length, length_take, length_drop. lia.
Qed.

(** The accumulated vector is the combination of the sources. *)
Lemma accumulate_at rid (g : nat -> bytes) n : forall i v j,
  (forall k, (i <= k < i + n)%nat -> Forall is_byte (g k) /\ (length (g k) <= length v)%nat) ->
  at_ (accumulate rid (Z.of_nat i) (map g (seq i n)) v) j =
  Z.lxor (at_ v j) (xsum (fun k => gfMul (windowCoefficient rid (Z.of_nat k)) (at_ (g k) j)) (seq i n)).
Proof.
  induction n as [|n IH]; intros i v j Hg; cbn [seq map accumulate].
  { by rewrite Z.lxor_0_r. }
  replace (Z.of_nat i + 1) with (Z.of_nat (S i)) by lia.
  destruct (Hg i ltac:(lia)) as [Hb Hl].
  rewrite IH.
  - rewrite addScaled_at by done. rewrite xsum_cons. by rewrite Z.lxor_assoc.
  - intros k Hk. rewrite addScaled_length. apply Hg. lia.
Qed.

Lemma accumulate_bytes rid l : forall i v,
  Forall is_byte v -> Forall (Forall is_byte) l -> (forall w, w ∈ l -> (length w <= length v)%nat) ->
  Forall is_byte (accumulate rid i l v).
Proof.
  induction l as [|w l IH]; intros i v Hv Hl Hlen; [done|]. cbn [accumulate].
  apply Forall_cons in Hl as [Hw Hl]. pose proof (windowCoefficient_range rid i) as Hc. apply IH; [|done|].
  - apply at_ext_Forall. intros j. rewrite addScaled_at by (done || apply Hlen; by constructor).
    apply lxor_byte; [by apply at_byte|]. apply gfMul_byte; [unfold is_byte; lia|by apply at_byte].
  - intros u Hu. rewrite addScaled_length. apply Hlen. by right.
Qed.

(** A repair is the combination the decoder regenerates, over the newest
    symbols and never more than the protocol's span. *)
Lemma AppendRepair_spec e dst rid count :
  enc_ok e ->
  match AppendRepair e dst rid count with
  | (dst', Some r) =>
      0 < e_held e /\ dst' = dst ++ Vector r /\ RID r = rid /\
      0 < Count r <= Z.min (e_held e) MaxRepairWindow /\
      (0 < count <= e_held e -> Count r = count) /\
      First r = wrap 32 (e_next e - Count r) /\ valid_repair sym r
  | (dst', None) => e_held e = 0 /\ dst' = dst
  end.
Proof.
  intros He. pose proof He as [(m & Hm & Hlen) Hmask Hnext Hheld Hfirst Hring].
  assert (Hp : 2 ^ m <= 256) by (change 256 with (2 ^ 8); apply Z.pow_le_mono_r; lia).
  unfold AppendRepair, repairBounds. destruct (e_held e =? 0) eqn:E0; bool_to_prop; [done|].
  set (c1 := if (count <=? 0) || (count >? e_held e) then e_held e else count).
  assert (Hc1 : 0 < c1 <= e_held e /\ (0 < count <= e_held e -> c1 = count)).
  { subst c1. destruct (_ || _) eqn:E; bool_to_prop; [destruct E; bool_to_prop; lia|lia]. }
  change MaxRepairWindow with 256. replace (c1 >? 256) with false by lia.
  set (first := e_next e -u32 c1). set (sources := repair_sources e first c1).
  set (vlen := fold_left _ sources 0).
  set (g := fun i : nat => ring_at e (first +u32 Z.of_nat i)).
  assert (Hsrc : sources = map g (seq 0 (Z.to_nat c1))) by done.
  assert (Hg : forall i, (i < Z.to_nat c1)%nat -> g i = sym (first +u32 Z.of_nat i)).
  { intros i Hi. subst g first. cbn beta. autorewrite with go.
    replace (e_next e - c1 + Z.of_nat i) with (e_next e - (c1 - Z.of_nat i)) by lia. apply Hring. lia. }
  assert (Hlong : forall w, w ∈ sources -> (length w <= length (replicate (Z.to_nat vlen) 0%Z))%nat).
  { intros w Hw. rewrite length_replicate. pose proof (longest_fold sources 0 w (or_introl Hw)) as Hl.
    fold vlen in Hl. unfold len in Hl. lia. }
  assert (Hbytes : Forall (Forall is_byte) sources).
  { apply Forall_forall. intros w Hw. rewrite Hsrc in Hw. apply list_elem_of_fmap in Hw as (i & -> & Hi).
    apply elem_of_seq in Hi. rewrite Hg by lia. apply sym_bytes. }
  split; [lia|]. cbn [Vector RID Count First]. split; [done|]. split; [done|]. split; [lia|].
  split; [apply Hc1|]. split; [done|]. split; [apply wrap_range; lia|]. cbn [Vector RID Count First]. split.
  - apply accumulate_bytes; [by apply Forall_replicate|done|done].
  - intros j. rewrite Hsrc.
    pose proof (accumulate_at rid g (Z.to_nat c1) 0 (replicate (Z.to_nat vlen) 0) j) as Hacc.
    change (Z.of_nat 0) with 0 in Hacc. rewrite Hacc.
    + rewrite at_replicate, Z.lxor_0_l. apply xsum_ext. intros i Hi. apply elem_of_seq in Hi.
      by rewrite Hg by lia.
    + intros k Hk. rewrite Forall_forall in Hbytes.
      assert (Hin : g k ∈ sources).
      { rewrite Hsrc. apply list_elem_of_fmap. exists k. split; [done|]. apply elem_of_seq. lia. }
      split; [by apply Hbytes|by apply Hlong].
Qed.

End Encoder.

(** ** An erasure channel *)

(** The symbol a script gives an identifier. *)
Definition scripted (script : list bytes) (esi : Z) : bytes := nth (Z.to_nat esi) script [].

Record fec_link := mkFecLink {
  fk_encoder : WindowEncoder;
  fk_decoder : WindowDecoder;
  fk_recovered : list RecoveredSymbol
}.

(** The sender sends the next symbol of the script, sends a repair over its
    newest symbols, or re-sizes its window; each packet either arrives at once
    or is erased. *)
Inductive channel_step (script : list bytes) : fec_link -> fec_link -> Prop :=
| ch_send e d acc esi e' (arrives owned : bool) d' out :
    e_next e < len script ->
    AddOwned e (scripted script (e_next e)) = (esi, e') ->
    (if arrives then Decoder_source d esi (scripted script esi) owned else (d, no_delivery)) = (d', out) ->
    channel_step script (mkFecLink e d acc) (mkFecLink e' d' (acc ++ Recovered out))
| ch_repair e d acc rid count dst r (arrives owned : bool) d' out :
    AppendRepair e [] rid count = (dst, Some r) ->
    (if arrives then Decoder_repair d r owned else (d, no_delivery)) = (d', out) ->
    channel_step script (mkFecLink e d acc) (mkFecLink e d' (acc ++ Recovered out))
| ch_resize e d acc c :
    channel_step script (mkFecLink e d acc) (mkFecLink (SetCapacity e c) d acc).

Definition fec_start (capacity : Z) : fec_link := mkFecLink (NewWindowEncoder capacity) NewWindowDecoder [].

Record channel_inv (script : list bytes) (l : fec_link) : Prop := mk_channel_inv {
  ci_enc : enc_ok (scripted script) (fk_encoder l);
  ci_next : 0 <= e_next (fk_encoder l) <= len script;
  ci_dec : dok (scripted script) (fk_decoder l);
  ci_high : started (fk_decoder l) = true -> 0 <= high (fk_decoder l) <= e_next (fk_encoder l);
  ci_rec : Forall (true_symbol (scripted script)) (fk_recovered l)
}.

Section Channel.
Variable script : list bytes.
Hypothesis script_bytes : Forall (Forall is_byte) script.
Hypothesis script_short : len script <= 2 ^ 31.

Lemma scripted_bytes e : Forall is_byte (scripted script e).
Proof.
  unfold scripted. destruct (nth_in_or_default (Z.to_nat e) script []) as [Hin| ->]; [|constructor].
  rewrite Forall_forall in script_bytes. apply script_bytes. by apply list_elem_of_In.
Qed.

Lemma channel_inv_step l l' : channel_inv script l -> channel_step script l l' -> channel_inv script l'.
Proof.
  intros [He Hn Hd Hh Hr] Hstep.
  destruct Hstep as [e d acc esi e' arrives owned d' out Hlt Hadd Hdec
                    |e d acc rid count dst r arrives owned d' out Hrep Hdec|e d acc c]; cbn in *.
  - destruct (AddOwned_spec (scripted script) e He) as (H1 & H2 & H3). rewrite Hadd in H1, H2, H3. cbn in *.
    subst esi. rewrite wrap_small in H3 by (pow2_eval; lia).
    destruct arrives.
    2:{ injection Hdec as <- <-. cbn. rewrite app_nil_r. split; cbn; try done; [lia|].
        intros Hs. specialize (Hh Hs). lia. }
    destruct (Decoder_source_spec (scripted script) scripted_bytes d (e_next e) owned d' out) as (Hd' & Ht & Hre);
      try done.
    { pow2_eval. split; lia. }
    { left. destruct (started d) eqn:Es; [right|by left]. specialize (Hh eq_refl).
      rewrite wrap_small by (pow2_eval; lia). apply int32_of_nonneg; pow2_eval; lia. }
    split; cbn; try done; [lia| |by apply Forall_app].
    intros Hs. destruct Hre as [->|[Hsd ->]].
    + rewrite wrap_small by (pow2_eval; lia). lia.
    + rewrite Hsd in Hs. specialize (Hh Hs). lia.
  - pose proof (AppendRepair_spec (scripted script) scripted_bytes e [] rid count He) as Hsp.
    rewrite Hrep in Hsp. destruct Hsp as (_ & _ & _ & Hc & _ & Hf & Hv).
    destruct arrives.
    2:{ injection Hdec as <- <-. cbn. rewrite app_nil_r. split; cbn; done. }
    destruct (Decoder_repair_spec (scripted script) scripted_bytes d r owned d' out Hd Hv Hdec) as (Hd' & Ht & Hre).
    split; cbn; try done; [|by apply Forall_app].
    intros Hs. destruct Hre as [->|[Hsd ->]].
    + rewrite Hf, wrap_add_l.
      replace (wrap 32 (e_next e - Count r) + (Count r - 1) + 1)
        with (wrap 32 (e_next e - Count r) + Count r) by lia.
      rewrite wrap_add_l. replace (e_next e - Count r + Count r) with (e_next e) by lia.
      rewrite wrap_small by (pow2_eval; lia). lia.
    + apply Hh. congruence.
  - destruct (SetCapacity_spec (scripted script) e c) as (H1 & H2 & _); [by left|].
    split; cbn; rewrite ?H2; done.
Qed.

End Channel.

(** ** What one arrival can cost *)

Lemma substitute_lost d esi v out b :
  Lost (snd (substitute d esi v out b)) = Lost out.
Proof. unfold substitute. destruct (_ && _ && _); [done|]. by destruct b. Qed.

Lemma harvest_pass_lost fuel : forall i d out p d' out' p',
  harvest_pass fuel i d out p = (d', out', p') -> Lost out' = Lost out.
Proof.
  induction fuel as [|fuel IH]; intros i d out p d' out' p' He; cbn [harvest_pass] in He; [congruence|].
  destruct (rows d !! i) as [r|]; [|congruence]. destruct (leading d (r_coef r)) as [pivot count].
  destruct (count =? 0); [by eapply IH|]. destruct (count >? 1); [by eapply IH|].
  match type of He with context [substitute ?a ?b ?c ?o ?t] =>
    pose proof (substitute_lost a b c o t) as Hs; destruct (substitute a b c o t) as [d1 out1] end.
  cbn in Hs. rewrite <- Hs. by eapply IH.
Qed.

Lemma harvest_loop_lost fuel : forall d out, Lost (snd (harvest_loop fuel d out)) = Lost out.
Proof.
  induction fuel as [|fuel IH]; intros d out; cbn [harvest_loop]; [done|].
  destruct (harvest_pass _ _ d out false) as [[d1 out1] p] eqn:E. apply harvest_pass_lost in E.
  destruct p; [by rewrite IH|done].
Qed.

Lemma Decoder_insert_lost d coef data out : Lost (snd (Decoder_insert d coef data out)) = Lost out.
Proof.
  unfold Decoder_insert. destruct (eliminate_known d coef data) as [c1 d1].
  destruct (eliminate_rows d c1 d1) as [c2 d2]. destruct (leading d c2) as [p n].
  destruct (n =? 0); [done|]. destruct (if negb _ then _ else _) as [c3 d3]. apply harvest_loop_lost.
Qed.

(** The walk reports at most one loss per identifier up to [walked]. *)
Lemma admit_walk_lost fuel width : forall d out left,
  in_range 32 (lo d) -> 0 <= left <= 2 ^ 31 ->
  len (Lost (snd (admit_walk fuel width (wrap 32 (lo d + left)) d out))) <= len (Lost out) + left.
Proof.
  induction fuel as [|fuel IH]; intros d out left Hl Hleft; cbn [admit_walk]; [cbn; lia|].
  destruct (_ && _) eqn:E; [|cbn; lia]. apply andb_true_iff in E as [_ E].
  destruct (decide (left = 0)) as [->|Hne].
  { exfalso. rewrite Z.add_0_r, (wrap_small 32 (lo d)), Z.sub_diag in E by done. by vm_compute in E. }
  destruct (evict d (lo d) out) as [d1 out1] eqn:Ee.
  assert (Hd1 : lo d1 = lo d /\ len (Lost out1) <= len (Lost out) + 1).
  { unfold evict in Ee. injection Ee as <- <-. split; [done|].
    destruct (negb _ && _); cbn [Lost]; rewrite ?len_app, ?len_cons, ?len_nil; lia. }
  destruct Hd1 as [Hlo Hlost]. rewrite Hlo.
  specialize (IH (with_window d1 (wrap 32 (lo d + 1)) (high d1)) out1 (left - 1)). cbn [with_window lo] in IH.
  autorewrite with go in IH. replace (lo d + 1 + (left - 1)) with (lo d + left) in IH by lia.
  specialize (IH ltac:(apply wrap_range; lia) ltac:(lia)). lia.
Qed.

Lemma admit_lost d esi out :
  length (slots d) = width_nat -> in_range 32 (lo d) ->
  len (Lost (snd (Decoder_admit d esi out))) <= len (Lost out) + decoderWidth.
Proof.
  intros Hlen Hl. unfold Decoder_admit.
  replace (wrap 32 (len (slots d))) with decoderWidth by (unfold len; rewrite Hlen; done).
  pose proof decoderWidth_val as HW. destruct (negb (started d)); [cbn; lia|].
  destruct (int32_of (esi -u32 lo d) <? 0); [cbn; lia|].
  destruct (int32_of (esi -u32 high d) >=? 0); [|cbn; lia].
  set (d1 := with_window d (lo d) (esi +u32 1)). set (walked := lo d1 +u32 decoderWidth).
  pose proof (admit_walk_lost (S (Z.to_nat decoderWidth)) decoderWidth d1 out decoderWidth Hl
    ltac:(pow2_eval; lia)) as Hw.
  fold walked in Hw. destruct (admit_walk _ _ walked d1 out) as [d2 out2]. done.
Qed.

(** ** Theorems *)

(** C4: the code recovers what was sent.  Over a channel that erases any
    packets, whatever the symbols, their lengths, the repair rate, the spans and
    the sizes the window is given while it runs, every symbol the decoder
    reports recovered has the identifier of a symbol of the stream and is that
    symbol, zero-extended. *)
Theorem erasure_code_recovers_sent script capacity l :
  Forall (Forall is_byte) script -> len script <= 2 ^ 31 ->
  steps (channel_step script) (fec_start capacity) l ->
  Forall (fun r => same_vector (rec_Vector r) (scripted script (rec_ESI r))) (fk_recovered l).
Proof.
  intros Hb Hl Hsteps.
  assert (Hi : channel_inv script l); [|apply Hi].
  eapply (steps_invariant _ (channel_inv script)); [intros s s'; by apply channel_inv_step| |exact Hsteps].
  destruct (NewWindowEncoder_ok (scripted script) capacity) as [H1 H2].
  split; cbn; try done.
  - rewrite H2. pose proof (len_nonneg script). lia.
  - apply NewWindowDecoder_ok.
Qed.

(** Recovery under reordering of repairs.  Duplicated, delayed or reordered
    repairs, and source symbols that no equation still held mentions, never make
    the decoder recover anything but the true symbol; the window keeps the width
    the protocol requires. *)
Theorem decoder_recovers_true_symbols sym d acc :
  (forall e, Forall is_byte (sym e)) ->
  steps (fec_step sym) (NewWindowDecoder, []) (d, acc) ->
  Forall (true_symbol sym) acc /\ Decoder_Width d = MinDecoderWidth /\
  (started d = true -> high d = wrap 32 (lo d + MinDecoderWidth)).
Proof.
  intros Hs Hsteps.
  assert (Hok : fec_ok sym (d, acc)).
  { eapply (steps_invariant _ (fec_ok sym)); [intros s s'; by apply fec_ok_step| |exact Hsteps].
    split; [apply NewWindowDecoder_ok|constructor]. }
  destruct Hok as [[Hd Ha _] Ht]. split; [done|]. split; [|done].
  unfold Decoder_Width, len. by rewrite (proj1 (di_slots _ d Hd)).
Qed.

(** The repairs of the encoder.  A repair covers the newest symbols the ring
    holds, as many as asked for up to what is held, never more than the widest
    span a receiver must solve over, and its vector is the combination of
    exactly those symbols that the receiver regenerates from its identity. *)
Theorem encoder_repairs_conform sym e dst rid count :
  (forall x, Forall is_byte (sym x)) -> enc_ok sym e ->
  match AppendRepair e dst rid count with
  | (dst', Some r) =>
      0 < e_held e /\ dst' = dst ++ Vector r /\ RID r = rid /\
      0 < Count r <= Z.min (e_held e) MaxRepairWindow /\
      (0 < count <= e_held e -> Count r = count) /\
      First r = wrap 32 (e_next e - Count r) /\ valid_repair sym r
  | (dst', None) => e_held e = 0 /\ dst' = dst
  end.
Proof. intros Hs He. by apply AppendRepair_spec. Qed.

(** The symbols of a two-symbol exchange. *)
Definition pair_sym (e : Z) : bytes := if e =? 0 then [10; 20] else if e =? 1 then [30; 40] else [].

Definition pair_repair : RepairSymbol := mkRepair 1 0 2 [76; 130].

(** What a source symbol does behind a repair that covers it.  A repair over
    two symbols arrives first, then the older symbol itself: the decoder reports
    the newer one recovered with bytes that are not the symbol's, because the
    equation was normalised at the symbol that has just been removed from it. *)
Theorem overtaken_source_corrupts_recovery :
  valid_repair pair_sym pair_repair /\
  let '(d1, out1) := Decoder_Repair NewWindowDecoder pair_repair in
  let '(d2, out2) := Decoder_Source d1 0 (pair_sym 0) in
  Recovered out1 = [] /\ Recovered out2 = [mkRecovered 1 [254; 190]] /\
  pair_sym 1 = [30; 40] /\ ~ same_vector [254; 190] (pair_sym 1).
Proof.
  split.
  - split; [done|]. split; [by repeat constructor|]. intros [|[|j]]; [reflexivity|reflexivity|].
    by destruct j as [|j]; vm_compute.
  - assert (Hrun : let '(d1, out1) := Decoder_Repair NewWindowDecoder pair_repair in
      let '(d2, out2) := Decoder_Source d1 0 (pair_sym 0) in
      (Recovered out1, Recovered out2) = ([], [mkRecovered 1 [254; 190]])) by (vm_compute; reflexivity).
    destruct (Decoder_Repair NewWindowDecoder pair_repair) as [d1 out1].
    destruct (Decoder_Source d1 0 (pair_sym 0)) as [d2 out2].
    injection Hrun as -> ->. repeat (split; [done|]). intros H. specialize (H 0%nat). by vm_compute in H.
Qed.

(** One arrival costs at most a window.  Whatever identifier and bytes a
    peer puts in a source symbol or a repair, a decoder of the protocol's width
    reports at most that many losses for it: a far-away identifier moves the
    window in one step instead of walking to it. *)
Theorem arrival_losses_bounded d esi v r owned :
  length (slots d) = width_nat -> in_range 32 (lo d) ->
  len (Lost (snd (Decoder_source d esi v owned))) <= MinDecoderWidth /\
  len (Lost (snd (Decoder_repair d r owned))) <= MinDecoderWidth.
Proof.
  intros Hlen Hl. change MinDecoderWidth with decoderWidth. pose proof decoderWidth_val as HW. split.
  - unfold Decoder_source. pose proof (admit_lost d esi no_delivery Hlen Hl) as Ha.
    destruct (Decoder_admit d esi no_delivery) as [[ok d1] out1]. cbn in Ha. destruct ok; cbn [negb]; [|done].
    destruct (s_live _ && _ && _); [done|].
    match goal with |- context [substitute ?a ?b ?c ?o ?t] =>
      pose proof (substitute_lost a b c o t) as Hs; destruct (substitute a b c o t) as [d2 out2] end.
    cbn in Hs. unfold harvest. by rewrite harvest_loop_lost, Hs.
  - unfold Decoder_repair. destruct (_ || _); [done|]. destruct (_ >? _); [done|].
    pose proof (admit_lost d (First r +u32 (Count r - 1)) no_delivery Hlen Hl) as Ha.
    destruct (Decoder_admit _ _ no_delivery) as [[ok d1] out1]. cbn in Ha. destruct ok; cbn [negb]; [|done].
    destruct (_ <? 0); [done|]. by rewrite Decoder_insert_lost.
Qed.

(** ** Witnesses *)

Definition do_send (script : list bytes) (arrives : bool) (l : fec_link) : fec_link :=
  let added := AddOwned (fk_encoder l) (scripted script (e_next (fk_encoder l))) in
  let got := if arrives then Decoder_source (fk_decoder l) (fst added) (scripted script (fst added)) false
             else (fk_decoder l, no_delivery) in
  mkFecLink (snd added) (fst got) (fk_recovered l ++ Recovered (snd got)).

Definition do_repair (rid count : Z) (l : fec_link) : fec_link :=
  match AppendRepair (fk_encoder l) [] rid count with
  | (_, Some r) =>
      let got := Decoder_repair (fk_decoder l) r false in
      mkFecLink (fk_encoder l) (fst got) (fk_recovered l ++ Recovered (snd got))
  | _ => l
  end.

Lemma do_send_step script arrives l :
  e_next (fk_encoder l) < len script -> channel_step script l (do_send script arrives l).
Proof.
  intros Hn. destruct l as [e d acc]. unfold do_send. cbn [fk_encoder fk_decoder fk_recovered] in *.
  eapply (ch_send script e d acc _ _ arrives false); [done|apply surjective_pairing|apply surjective_pairing].
Qed.

Lemma do_repair_step script rid count l :
  0 < e_held (fk_encoder l) -> channel_step script l (do_repair rid count l).
Proof.
  intros Hh. destruct l as [e d acc]. unfold do_repair. cbn [fk_encoder fk_decoder fk_recovered] in *.
  destruct (AppendRepair e [] rid count) as [dst [r|]] eqn:E.
  - eapply (ch_repair script e d acc rid count dst r true false); [done|apply surjective_pairing].
  - unfold AppendRepair, repairBounds in E. replace (e_held e =? 0) with false in E by lia. done.
Qed.

Definition sample_script : list bytes := [[10; 20]; [30; 40]; [5]].
Definition sample_channel : fec_link :=
  do_repair 7 0 (do_send sample_script true (do_send sample_script false
    (do_send sample_script true (fec_start 4)))).

Lemma erasure_code_recovers_sent_witness :
  fk_recovered sample_channel = [mkRecovered 1 [30; 40]] /\
  Forall (fun r => same_vector (rec_Vector r) (scripted sample_script (rec_ESI r))) (fk_recovered sample_channel).
Proof.
  split; [vm_compute; reflexivity|].
  apply (erasure_code_recovers_sent sample_script 4 sample_channel).
  - by repeat constructor.
  - done.
  - eapply steps_cons; [apply (do_send_step sample_script true); by vm_compute|].
    eapply steps_cons; [apply (do_send_step sample_script false); by vm_compute|].
    eapply steps_cons; [apply (do_send_step sample_script true); by vm_compute|].
    apply steps_one. apply do_repair_step. by vm_compute.
Defined.

Lemma pair_sym_bytes e : Forall is_byte (pair_sym e).
Proof. unfold pair_sym. destruct (e =? 0); [|destruct (e =? 1)]; by repeat constructor. Qed.

Definition pair_after : WindowDecoder * Delivery := Decoder_Source NewWindowDecoder 0 (pair_sym 0).

Lemma decoder_recovers_true_symbols_witness :
  Forall (true_symbol pair_sym) (Recovered (snd pair_after)) /\
  Decoder_Width (fst pair_after) = MinDecoderWidth.
Proof.
  destruct (decoder_recovers_true_symbols pair_sym (fst pair_after) ([] ++ Recovered (snd pair_after)))
    as (H1 & H2 & _).
  - apply pair_sym_bytes.
  - apply steps_one. eapply (fec_source pair_sym _ [] 0 false); [done|by left; left|apply surjective_pairing].
  - split; [exact H1|exact H2].
Defined.

Definition pair_encoder : WindowEncoder :=
  snd (AddOwned (snd (AddOwned (NewWindowEncoder 4) (pair_sym 0))) (pair_sym 1)).

Lemma encoder_repairs_conform_witness :
  exists r, Encoder_Repair pair_encoder 1 2 = Some r /\ valid_repair pair_sym r /\ Count r = 2.
Proof.
  destruct (NewWindowEncoder_ok pair_sym 4) as [H0 _].
  destruct (AddOwned_spec pair_sym (NewWindowEncoder 4) H0) as (_ & H1 & _).
  destruct (AddOwned_spec pair_sym _ H1) as (_ & H2 & _).
  pose proof (encoder_repairs_conform pair_sym pair_encoder [] 1 2 pair_sym_bytes H2) as H.
  unfold Encoder_Repair. destruct (AppendRepair pair_encoder [] 1 2) as [dst [r|]].
  - exists r. destruct H as (_ & _ & _ & _ & Hc & _ & Hv). split; [done|]. split; [done|]. apply Hc.
    vm_compute. split; [reflexivity|discriminate].
  - destruct H as [H _]. vm_compute in H. discriminate H.
Defined.

Lemma arrival_losses_bounded_witness :
  len (Lost (snd (Decoder_source (fst pair_after) 1073741824 [1] false))) <= MinDecoderWidth.
Proof.
  refine (proj1 (arrival_losses_bounded (fst pair_after) 1073741824 [1] pair_repair false _ _)).
  - vm_compute. reflexivity.
  - vm_compute. split; [discriminate|reflexivity].
Defined.
