(* ===== verification/Stripe.v ===== *)
(** The self-pacing striping scheduler ([internal/stripe/stripe.go]).

    [Scheduler] is the state the mutex guards.  Chunks are shared between the
    ready set and the outstanding set, so they live in a store ([chunks]) and
    are named by their address: an update through one alias is seen through the
    other.  Each method's critical section is one definition; the producer's
    loop and [Next] are given by one pass of their loops.  The callbacks of
    [Config] (windows, retention, reliability, timers, the clock) are consulted
    anew by every operation, so their answers are an argument ([answers]) of the
    operations that ask.  Map iteration visits [live] in an order given as an
    argument. *)

From S2P Require Import Prelude Memlimit.

(** The answers of the callbacks.  [None] is a nil callback. *)
Record WindowsAnswers := mkWindows {
  w_Lane : Z -> Z -> Z;
  w_Total : Z;
  w_Outstanding : option (Z -> Z -> Z)
}.

Record answers := mkAnswers {
  ans_Retention : option Z;
  ans_RetransmitAfter : option Z;
  ans_Reliable : option (Z -> bool);
  ans_Windows : option WindowsAnswers;
  ans_Now : Z
}.

Record StripeConfig := mkStripeConfig {
  ChunkSize : Z;
  LaneWindow : Z;
  MaxOutstanding : Z;
  MaxOutstandingBytes : Z;
  ReliableReissueBurst : Z
}.

(** [DefaultConfig] also sets a [RetransmitAfter] callback, which [applyDefaults]
    does not install; callbacks are answers here. *)
Definition Stripe_DefaultConfig : StripeConfig :=
  mkStripeConfig (64 * 1024) 4 64 (16 * 1024 * 1024) 0.

Definition applyDefaults (c : StripeConfig) : StripeConfig :=
  let d := Stripe_DefaultConfig in
  let chunk := if ChunkSize c <=? 0 then ChunkSize d else ChunkSize c in
  let lane := if LaneWindow c <=? 0 then LaneWindow d else LaneWindow c in
  let max := if MaxOutstanding c <=? 0 then MaxOutstanding d else MaxOutstanding c in
  let max := if max <? lane then lane else max in
  let bytes_ := if MaxOutstandingBytes c <=? 0 then MaxOutstandingBytes d else MaxOutstandingBytes c in
  mkStripeConfig chunk lane max bytes_ (ReliableReissueBurst c).

Record Chunk := mkChunk {
  c_Offset : Z;
  c_Data : bytes;
  c_Final : bool;
  c_urgent : bool;
  c_attempt : Z;
  c_reservation : Z
}.

Definition zero_chunk : Chunk := mkChunk 0 [] false false 0 0.

Definition Chunk_End (c : Chunk) : Z := c_Offset c +u64 len (c_Data c).

(** A deadline of zero is Go's zero time. *)
Record attempt := mkAttempt {
  a_id : Z;
  a_lane : Z;
  a_deadline : Z;
  a_reliable : bool;
  a_written : bool
}.

Record outstanding := mkOutstanding { o_chunk : Z; o_attempts : list attempt }.

Record Stats := mkStats {
  ChunksIssued : Z;
  ChunksRetransmit : Z;
  ChunksCompleted : Z;
  BytesIssued : Z;
  BytesRetransmit : Z;
  LaneFailures : Z;
  SourceBytes : Z;
  PeakOutstanding : Z;
  CompletedByLaneID : gmap Z Z
}.

(** The admission accounts: per lane, and the flow's total. *)
Record ledger := mkLedger {
  laneLoad : gmap Z Z;
  laneBytes : gmap Z Z;
  laneQueued : gmap Z Z;
  totalBytes : Z
}.

Record Scheduler := mkScheduler {
  s_cfg : StripeConfig;
  s_nextOffset : Z;
  chunks : gmap Z Chunk;
  next_address : Z;
  pending : list Z;
  live : gmap Z outstanding;
  acct : ledger;
  nextAttempt : Z;
  eof : bool;
  srcErr : option Z;
  s_closed : bool;
  finished : bool;
  s_stats : Stats;
  s_memory : option Budget
}.

(** Indexing a map of counters. *)
Definition count_of (m : gmap Z Z) (k : Z) : Z := default 0 (m !! k).

Definition chunk_at (s : Scheduler) (p : Z) : Chunk := default zero_chunk (chunks s !! p).

Definition Stripe_New (cfg : StripeConfig) (memory : option Budget) : Scheduler :=
  mkScheduler (applyDefaults cfg) 0 ∅ 0 [] ∅ (mkLedger ∅ ∅ ∅ 0) 0 false None false false
    (mkStats 0 0 0 0 0 0 0 0 ∅) memory.

Section setters.
Variable s : Scheduler.

Definition with_pending (l : list Z) : Scheduler :=
  mkScheduler (s_cfg s) (s_nextOffset s) (chunks s) (next_address s) l (live s) (acct s) (nextAttempt s)
    (eof s) (srcErr s) (s_closed s) (finished s) (s_stats s) (s_memory s).
Definition with_live (m : gmap Z outstanding) (a : ledger) : Scheduler :=
  mkScheduler (s_cfg s) (s_nextOffset s) (chunks s) (next_address s) (pending s) m a (nextAttempt s)
    (eof s) (srcErr s) (s_closed s) (finished s) (s_stats s) (s_memory s).
Definition with_chunk (p : Z) (c : Chunk) : Scheduler :=
  mkScheduler (s_cfg s) (s_nextOffset s) (<[p := c]> (chunks s)) (next_address s) (pending s) (live s) (acct s)
    (nextAttempt s) (eof s) (srcErr s) (s_closed s) (finished s) (s_stats s) (s_memory s).
Definition with_stats (t : Stats) : Scheduler :=
  mkScheduler (s_cfg s) (s_nextOffset s) (chunks s) (next_address s) (pending s) (live s) (acct s)
    (nextAttempt s) (eof s) (srcErr s) (s_closed s) (finished s) t (s_memory s).
Definition with_end (e : bool) (err : option Z) (fin : bool) : Scheduler :=
  mkScheduler (s_cfg s) (s_nextOffset s) (chunks s) (next_address s) (pending s) (live s) (acct s)
    (nextAttempt s) e err (s_closed s) fin (s_stats s) (s_memory s).
Definition with_memory (m : option Budget) : Scheduler :=
  mkScheduler (s_cfg s) (s_nextOffset s) (chunks s) (next_address s) (pending s) (live s) (acct s)
    (nextAttempt s) (eof s) (srcErr s) (s_closed s) (finished s) (s_stats s) m.

End setters.

(** ** Queries *)

Definition readAheadLimit (s : Scheduler) (ans : answers) : Z :=
  match ans_Retention ans with
  | None => MaxOutstandingBytes (s_cfg s)
  | Some want =>
      if (want <=? 0) || (want >? MaxOutstandingBytes (s_cfg s)) then MaxOutstandingBytes (s_cfg s) else want
  end.

Definition retainedBytes (s : Scheduler) : Z :=
  fold_left (fun total p => total +u64 len (c_Data (chunk_at s p))) (pending s) (totalBytes (acct s)).

Definition pendingHas (s : Scheduler) (offset : Z) : bool :=
  existsb (fun p => c_Offset (chunk_at s p) =? offset) (pending s).

Definition finishedLocked (s : Scheduler) : option Z :=
  match srcErr s with
  | Some e => if (len (pending s) =? 0) && (Z.of_nat (size (live s)) =? 0) then Some e else None
  | None => None
  end.

Definition doneLocked (s : Scheduler) : bool :=
  eof s && (len (pending s) =? 0) && (Z.of_nat (size (live s)) =? 0).

Definition laneRetransmits (ans : answers) (lane : Z) : bool :=
  match ans_Reliable ans with None => true | Some f => f lane end.

Definition laneHasAttempt (out : outstanding) (lane : Z) : bool :=
  existsb (fun a => a_lane a =? lane) (o_attempts out).

Definition laneHasReliableAttempt (out : outstanding) (lane : Z) : bool :=
  existsb (fun a => (a_lane a =? lane) && a_reliable a) (o_attempts out).

Definition retransmitAfter (ans : answers) : Z := default 0 (ans_RetransmitAfter ans).

Definition signalIfDoneLocked (s : Scheduler) : Scheduler :=
  if doneLocked s then with_end s (eof s) (srcErr s) true else s.

Definition hasRoomLocked (s : Scheduler) (ans : answers) (lane windowBytes chunk : Z) : bool :=
  let total := totalBytes (acct s) in
  if total =? 0 then true
  else
    let chunk := if chunk =? 0 then 1 else chunk in
    let flow_full :=
      match ans_Windows ans with
      | None => false
      | Some w =>
          if (w_Total w >? 0) && (total +u64 chunk >? w_Total w) then true
          else
            match w_Outstanding w with
            | None => false
            | Some f =>
                let outstanding_ := count_of (laneBytes (acct s)) lane in
                (f lane outstanding_ >? 0) && (outstanding_ +u64 chunk >? f lane outstanding_)
            end
      end in
    if flow_full then false
    else
      let queued := count_of (laneQueued (acct s)) lane in
      if queued =? 0 then true
      else if (windowBytes >? 0) && (queued +u64 chunk >? windowBytes) then false
      else
        match ans_Windows ans with
        | None => true
        | Some w => negb ((w_Lane w lane queued >? 0) && (queued +u64 chunk >? w_Lane w lane queued))
        end.

(** ** The accounts *)

Definition releaseQueuedLocked (a : ledger) (lane size_ : Z) : ledger :=
  let q := count_of (laneQueued a) lane in
  mkLedger (laneLoad a) (laneBytes a)
    (<[lane := if q >=? size_ then q - size_ else 0]> (laneQueued a)) (totalBytes a).

Definition releaseLaneLocked (a : ledger) (lane size_ : Z) (queued : bool) : ledger :=
  let load := count_of (laneLoad a) lane in
  let a := if load >? 0
           then mkLedger (<[lane := load - 1]> (laneLoad a)) (laneBytes a) (laneQueued a) (totalBytes a) else a in
  let a := if queued then releaseQueuedLocked a lane size_ else a in
  let held := count_of (laneBytes a) lane in
  let '(held', size_) := if held >=? size_ then (held - size_, size_) else (0, held) in
  mkLedger (laneLoad a) (<[lane := held']> (laneBytes a)) (laneQueued a)
    (if totalBytes a >=? size_ then totalBytes a - size_ else 0).

Definition charge_lane (a : ledger) (lane size_ : Z) : ledger :=
  mkLedger (<[lane := count_of (laneLoad a) lane + 1]> (laneLoad a))
    (<[lane := count_of (laneBytes a) lane +u64 size_]> (laneBytes a))
    (<[lane := count_of (laneQueued a) lane +u64 size_]> (laneQueued a))
    (totalBytes a +u64 size_).

(** The loops over [out.attempts] that release some attempts and keep the
    others. *)
Fixpoint sweep_attempts (drop_ : attempt -> bool) (queued : attempt -> bool) (size_ : Z)
    (l : list attempt) (a : ledger) : list attempt * ledger :=
  match l with
  | [] => ([], a)
  | x :: rest =>
      if drop_ x then
        sweep_attempts drop_ queued size_ rest (releaseLaneLocked a (a_lane x) size_ (queued x))
      else
        let '(kept, a) := sweep_attempts drop_ queued size_ rest a in (x :: kept, a)
  end.

Definition out_size (s : Scheduler) (out : outstanding) : Z := len (c_Data (chunk_at s (o_chunk out))).

(** [dropAttemptLocked]: the attempts left and the accounts, when the attempt is
    there. *)
Fixpoint dropAttemptLocked (size_ : Z) (l : list attempt) (lane id : Z) (a : ledger)
    : option (list attempt * ledger) :=
  match l with
  | [] => None
  | x :: rest =>
      if negb (a_id x =? id) || negb (a_lane x =? lane) then
        match dropAttemptLocked size_ rest lane id a with
        | None => None
        | Some (kept, a) => Some (x :: kept, a)
        end
      else Some (rest, releaseLaneLocked a (a_lane x) size_ (negb (a_written x)))
  end.

Definition dropLaneAttemptsLocked (size_ : Z) (l : list attempt) (lane : Z) (a : ledger)
    : list attempt * ledger :=
  sweep_attempts (fun x => a_lane x =? lane) (fun x => negb (a_written x)) size_ l a.

(** Whether [retireUnreliableAttemptsLocked] removes an attempt; a zero deadline
    means evidence from the receiver. *)
Definition retires (deadline : Z) (x : attempt) : bool :=
  let retire := negb (a_reliable x) && a_written x in
  if retire && negb (deadline =? 0)
  then negb (a_deadline x =? 0) && (a_deadline x <=? deadline)
  else retire.

Definition retireUnreliableAttemptsLocked (size_ : Z) (l : list attempt) (deadline : Z) (a : ledger)
    : list attempt * ledger * bool :=
  (sweep_attempts (retires deadline) (fun _ => false) size_ l a, existsb (retires deadline) l).

(** ** The ready set *)

Definition set_urgent (c : Chunk) (b : bool) : Chunk :=
  mkChunk (c_Offset c) (c_Data c) (c_Final c) b (c_attempt c) (c_reservation c).

(** The insertion loop of [requeueLocked]. *)
Fixpoint insert_by_offset (s : Scheduler) (p : Z) (l : list Z) : list Z :=
  match l with
  | [] => [p]
  | q :: rest =>
      if c_Offset (chunk_at s q) <? c_Offset (chunk_at s p) then q :: insert_by_offset s p rest
      else p :: l
  end.

Definition requeueLocked (s : Scheduler) (p : Z) : Scheduler :=
  if pendingHas s (c_Offset (chunk_at s p)) then s
  else
    let s := with_chunk s p (set_urgent (chunk_at s p) true) in
    with_pending s (insert_by_offset s p (pending s)).

(** [removePendingLocked]: the chunk dropped, and the ready set. *)
Fixpoint remove_pending (s : Scheduler) (offset : Z) (l : list Z) : option Z * list Z :=
  match l with
  | [] => (None, [])
  | p :: rest =>
      if negb (c_Offset (chunk_at s p) =? offset) then
        let '(r, l') := remove_pending s offset rest in (r, p :: l')
      else (Some p, rest)
  end.

Definition removePendingLocked (s : Scheduler) (offset : Z) : option Z * Scheduler :=
  let '(r, l) := remove_pending s offset (pending s) in (r, with_pending s l).

(** [releaseChunkLocked]; [None] is the panic of the budget. *)
Definition releaseChunkLocked (s : Scheduler) (p : Z) : option Scheduler :=
  let c := chunk_at s p in
  if c_reservation c =? 0 then Some s
  else
    match Budget_Release (s_memory s) (c_reservation c) with
    | None => None
    | Some m =>
        Some (with_memory (with_chunk s p
          (mkChunk (c_Offset c) (c_Data c) (c_Final c) (c_urgent c) (c_attempt c) 0)) m)
    end.

(** ** The producer *)

Definition alloc_chunk (s : Scheduler) (c : Chunk) : Scheduler :=
  mkScheduler (s_cfg s) (s_nextOffset s) (<[next_address s := c]> (chunks s)) (next_address s + 1)
    (pending s ++ [next_address s]) (live s) (acct s) (nextAttempt s) (eof s) (srcErr s) (s_closed s)
    (finished s) (s_stats s) (s_memory s).

Definition set_final (c : Chunk) : Chunk :=
  mkChunk (c_Offset c) (c_Data c) true (c_urgent c) (c_attempt c) (c_reservation c).

(** [markEOFLocked]; its loop over [live] has no effect. *)
Definition markEOFLocked (s : Scheduler) : Scheduler :=
  let s := with_end s true (srcErr s) (finished s) in
  match last (pending s) with
  | Some p => with_chunk s p (set_final (chunk_at s p))
  | None => alloc_chunk s (mkChunk (s_nextOffset s) [] true false 0 0)
  end.

(** The condition under which the producer waits. *)
Definition produce_waits (s : Scheduler) (ans : answers) : bool :=
  negb (s_closed s) &&
  ((len (pending s) + Z.of_nat (size (live s)) >=? MaxOutstanding (s_cfg s)) ||
   (retainedBytes s >=? wrap 64 (readAheadLimit s ans))).

(** The producer could not reserve memory. *)
Definition produce_unreserved (s : Scheduler) (err : Z) : Scheduler :=
  if negb (s_closed s) then with_end s true (Some err) (finished s) else s.

(** How a read of the source ends. *)
Inductive read_end := ReadMore | ReadEOF | ReadError (e : Z).

Definition add_source (t : Stats) (n : Z) : Stats :=
  mkStats (ChunksIssued t) (ChunksRetransmit t) (ChunksCompleted t) (BytesIssued t) (BytesRetransmit t)
    (LaneFailures t) (SourceBytes t +u64 n) (PeakOutstanding t) (CompletedByLaneID t).

(** The producer's critical section after a read of [data], its memory already
    reserved.  [None] is the panic of the budget. *)
Definition produce_read (s : Scheduler) (data : bytes) (e : read_end) : option Scheduler :=
  if s_closed s then
    match Budget_Release (s_memory s) (ChunkSize (s_cfg s)) with
    | None => None | Some m => Some (with_memory s m)
    end
  else
    let added :=
      if len data >? 0 then
        let s' := alloc_chunk s (mkChunk (s_nextOffset s) data false false 0 (ChunkSize (s_cfg s))) in
        Some (mkScheduler (s_cfg s') (s_nextOffset s +u64 len data) (chunks s') (next_address s') (pending s')
          (live s') (acct s') (nextAttempt s') (eof s') (srcErr s') (s_closed s') (finished s')
          (add_source (s_stats s') (len data)) (s_memory s'))
      else
        match Budget_Release (s_memory s) (ChunkSize (s_cfg s)) with
        | None => None | Some m => Some (with_memory s m)
        end in
    match added with
    | None => None
    | Some s =>
        match e with
        | ReadMore => Some s
        | ReadEOF => Some (signalIfDoneLocked (markEOFLocked s))
        | ReadError err => Some (signalIfDoneLocked (with_end s true (Some err) (finished s)))
        end
    end.

(** ** Handing out work *)

(** The scan of [takeReadyLocked]: the chunk taken and the ready set left. *)
Fixpoint take_scan (s : Scheduler) (ans : answers) (lane windowBytes : Z) (l : list Z) : option (Z * list Z) :=
  match l with
  | [] => None
  | p :: rest =>
      let c := chunk_at s p in
      if negb (hasRoomLocked s ans lane windowBytes (len (c_Data c))) && negb (c_urgent c) then None
      else
        let carried := match live s !! c_Offset c with
                       | Some out => laneHasReliableAttempt out lane | None => false end in
        if carried then
          match take_scan s ans lane windowBytes rest with
          | None => None
          | Some (q, l') => Some (q, p :: l')
          end
        else Some (p, rest)
  end.

Definition issue_stats (t : Stats) (fresh : bool) (n peak_ : Z) : Stats :=
  mkStats (if fresh then ChunksIssued t +u64 1 else ChunksIssued t)
    (if fresh then ChunksRetransmit t else ChunksRetransmit t +u64 1) (ChunksCompleted t)
    (if fresh then BytesIssued t +u64 n else BytesIssued t)
    (if fresh then BytesRetransmit t else BytesRetransmit t +u64 n)
    (LaneFailures t) (SourceBytes t)
    (if peak_ >? PeakOutstanding t then peak_ else PeakOutstanding t) (CompletedByLaneID t).

Definition next_id (n : Z) : Z := let n := n +u64 1 in if n =? 0 then n +u64 1 else n.

(** [takeReadyLocked]: the copy handed to the lane, and the scheduler after. *)
Definition takeReadyLocked (s : Scheduler) (ans : answers) (lane windowBytes : Z) : option (Chunk * Scheduler) :=
  match take_scan s ans lane windowBytes (pending s) with
  | None => None
  | Some (p, rest_) =>
      let c := chunk_at s p in
      let n := len (c_Data c) in
      let fresh := match live s !! c_Offset c with None => true | Some _ => false end in
      let out := default (mkOutstanding p []) (live s !! c_Offset c) in
      let after := retransmitAfter ans in
      let deadline := if after >? 0 then ans_Now ans + after else 0 in
      let id := next_id (nextAttempt s) in
      let out' := mkOutstanding (o_chunk out)
        (o_attempts out ++ [mkAttempt id lane deadline (laneRetransmits ans lane) false]) in
      let live' := <[c_Offset c := out']> (live s) in
      let s' := mkScheduler (s_cfg s) (s_nextOffset s) (<[p := set_urgent c false]> (chunks s)) (next_address s)
        rest_ live' (charge_lane (acct s) lane n) id (eof s) (srcErr s) (s_closed s) (finished s)
        (issue_stats (s_stats s) fresh n (Z.of_nat (size live'))) (s_memory s) in
      Some (mkChunk (c_Offset c) (c_Data c) (c_Final c) false id 0, s')
  end.

Inductive next_outcome :=
| NextChunk (c : Chunk)
| NextFinished
| NextClosed
| NextCancelled
| NextSourceError (e : Z)
| NextWait.

(** One pass of the loop of [Next]. *)
Definition Next_pass (s : Scheduler) (ans : answers) (ctx_done : bool) (lane windowBytes : Z)
    : next_outcome * Scheduler :=
  if s_closed s then (NextClosed, s)
  else if ctx_done then (NextCancelled, s)
  else if count_of (laneLoad (acct s)) lane <? LaneWindow (s_cfg s) then
    match takeReadyLocked s ans lane windowBytes with
    | Some (c, s') => (NextChunk c, s')
    | None =>
        match finishedLocked s with
        | Some e => (NextSourceError e, s)
        | None => if doneLocked s then (NextFinished, s) else (NextWait, s)
        end
    end
  else (NextWait, s).

(** ** Completion and failure *)

Definition complete_stats (t : Stats) (lane : Z) : Stats :=
  mkStats (ChunksIssued t) (ChunksRetransmit t) (ChunksCompleted t +u64 1) (BytesIssued t) (BytesRetransmit t)
    (LaneFailures t) (SourceBytes t) (PeakOutstanding t)
    (<[lane := count_of (CompletedByLaneID t) lane +u64 1]> (CompletedByLaneID t)).

Definition fail_stats (t : Stats) : Stats :=
  mkStats (ChunksIssued t) (ChunksRetransmit t) (ChunksCompleted t) (BytesIssued t) (BytesRetransmit t)
    (LaneFailures t +u64 1) (SourceBytes t) (PeakOutstanding t) (CompletedByLaneID t).

(** [Complete] of the chunk at [offset]. *)
Definition Complete (s : Scheduler) (lane offset : Z) : option Scheduler :=
  let found := live s !! offset in
  let s1 :=
    match found with
    | Some out =>
        let '(_, a) := sweep_attempts (fun _ => true) (fun x => negb (a_written x)) (out_size s out)
          (o_attempts out) (acct s) in
        with_stats (with_live s (delete offset (live s)) a) (complete_stats (s_stats s) lane)
    | None => s
    end in
  let '(dropped, s2) := removePendingLocked s1 offset in
  match (match found with Some out => Some (o_chunk out) | None => dropped end) with
  | None => Some s2
  | Some p =>
      match releaseChunkLocked s2 p with
      | None => None
      | Some s3 => Some (signalIfDoneLocked s3)
      end
  end.

(** [Fail] of one attempt of the chunk at [offset]. *)
Definition Fail_attempt (s : Scheduler) (lane offset id : Z) : Scheduler :=
  match live s !! offset with
  | None => s
  | Some out =>
      match dropAttemptLocked (out_size s out) (o_attempts out) lane id (acct s) with
      | None => s
      | Some (kept, a) =>
          let s' := with_stats (with_live s (<[offset := mkOutstanding (o_chunk out) kept]> (live s)) a)
            (fail_stats (s_stats s)) in
          if len kept =? 0 then requeueLocked s' (o_chunk out) else s'
      end
  end.

(** The loop of [RetireLane]. *)
Definition retire_one (lane : Z) (s : Scheduler) (offset : Z) : Scheduler :=
  match live s !! offset with
  | None => s
  | Some out =>
      if negb (laneHasAttempt out lane) then s
      else
        let '(kept, a) := dropLaneAttemptsLocked (out_size s out) (o_attempts out) lane (acct s) in
        let s' := with_stats (with_live s (<[offset := mkOutstanding (o_chunk out) kept]> (live s)) a)
          (fail_stats (s_stats s)) in
        if len kept =? 0 then requeueLocked s' (o_chunk out) else s'
  end.

Definition RetireLane (visit : list Z) (s : Scheduler) (lane : Z) : Scheduler :=
  let s := fold_left (retire_one lane) visit s in
  with_live s (live s) (mkLedger (delete lane (laneLoad (acct s))) (delete lane (laneBytes (acct s)))
    (delete lane (laneQueued (acct s))) (totalBytes (acct s))).

(** The loop of [Wrote]. *)
Fixpoint mark_written (l : list attempt) (lane id : Z) : option (list attempt) :=
  match l with
  | [] => None
  | x :: rest =>
      if negb (a_id x =? id) || negb (a_lane x =? lane) || a_written x then
        match mark_written rest lane id with None => None | Some l' => Some (x :: l') end
      else Some (mkAttempt (a_id x) (a_lane x) (a_deadline x) (a_reliable x) true :: rest)
  end.

Definition Wrote (s : Scheduler) (lane offset id : Z) : Scheduler :=
  match live s !! offset with
  | None => s
  | Some out =>
      match mark_written (o_attempts out) lane id with
      | None => s
      | Some l =>
          with_live s (<[offset := mkOutstanding (o_chunk out) l]> (live s))
            (releaseQueuedLocked (acct s) lane (out_size s out))
      end
  end.

(** ** Re-issuing *)

(** The loop body of [ReissueUnacknowledgedBelow]. *)
Definition reissue_below_one (offset : Z) (acc : Scheduler * Z) (key : Z) : Scheduler * Z :=
  let '(s, reissued) := acc in
  match live s !! key with
  | None => acc
  | Some out =>
      if (Chunk_End (chunk_at s (o_chunk out)) >? offset) || (len (o_attempts out) =? 0) then acc
      else if pendingHas s (c_Offset (chunk_at s (o_chunk out))) then acc
      else
        let '(kept, a, _) := retireUnreliableAttemptsLocked (out_size s out) (o_attempts out) 0 (acct s) in
        let s' := with_live s (<[key := mkOutstanding (o_chunk out) kept]> (live s)) a in
        if existsb a_reliable kept then (s', reissued)
        else if negb (len kept =? 0) then (s', reissued)
        else (requeueLocked s' (o_chunk out), reissued + 1)
  end.

Definition ReissueUnacknowledgedBelow (visit : list Z) (s : Scheduler) (offset : Z) : Scheduler * Z :=
  fold_left (reissue_below_one offset) visit (s, 0).

Definition expired_at (now : Z) (x : attempt) : bool := negb (a_deadline x =? 0) && (a_deadline x <=? now).

(** The first loop body of [ReissueExpired]: retire, and collect candidates. *)
Definition collect_expired (now : Z) (acc : Scheduler * list Z) (key : Z) : Scheduler * list Z :=
  let '(s, candidates) := acc in
  match live s !! key with
  | None => acc
  | Some out =>
      if (len (o_attempts out) =? 0) || pendingHas s (c_Offset (chunk_at s (o_chunk out))) then acc
      else
        let '(kept, a, retired) := retireUnreliableAttemptsLocked (out_size s out) (o_attempts out) now (acct s) in
        let s' := with_live s (<[key := mkOutstanding (o_chunk out) kept]> (live s)) a in
        if (len kept =? 0) && retired then (s', candidates ++ [key])
        else if negb (existsb (expired_at now) kept) then (s', candidates)
        else if existsb a_reliable kept then
          if len kept >? 1 then (s', candidates) else (s', candidates ++ [key])
        else if negb (len kept =? 0) then (s', candidates) else (s', candidates ++ [key])
  end.

Definition set_deadline (x : attempt) (d : Z) : attempt :=
  mkAttempt (a_id x) (a_lane x) d (a_reliable x) (a_written x).

(** The second loop body of [ReissueExpired]. *)
Definition reissue_candidate (now after : Z) (acc : Scheduler * Z * Z) (key : Z) : Scheduler * Z * Z :=
  let '(s, reissued, reliableReissued) := acc in
  match live s !! key with
  | None => acc
  | Some out =>
      let reliable := match o_attempts out with x :: _ => a_reliable x | [] => false end in
      let burst := ReliableReissueBurst (s_cfg s) in
      if reliable && (burst >? 0) && (reliableReissued >=? burst) then acc
      else
        let s := match o_attempts out with
          | x :: rest => with_live s
              (<[key := mkOutstanding (o_chunk out) (set_deadline x (now + after) :: rest)]> (live s)) (acct s)
          | [] => s
          end in
        (requeueLocked s (o_chunk out), reissued + 1,
         if reliable && (burst >? 0) then reliableReissued + 1 else reliableReissued)
  end.

(** Live entries are keyed by their chunk's offset, which the sort compares. *)
Definition ReissueExpired (visit : list Z) (s : Scheduler) (ans : answers) : Scheduler * Z :=
  let after := retransmitAfter ans in
  if after <=? 0 then (s, 0)
  else
    let now := ans_Now ans in
    let '(s, candidates) := fold_left (collect_expired now) visit (s, []) in
    let '(s, reissued, _) := fold_left (reissue_candidate now after) (merge_sort Z.le candidates) (s, 0, 0) in
    (s, reissued).

(** ** Closing and reports *)

Fixpoint release_chunks (visit : list Z) (s : Scheduler) : option Scheduler :=
  match visit with
  | [] => Some s
  | p :: rest =>
      match releaseChunkLocked s p with None => None | Some s' => release_chunks rest s' end
  end.

(** The chunks [Close] collects. *)
Definition seen_chunks (s : Scheduler) : gset Z :=
  list_to_set (pending s) ∪ list_to_set (map (fun ko => o_chunk (snd ko)) (map_to_list (live s))).

Definition Stripe_Close (visit : list Z) (s : Scheduler) : option Scheduler :=
  if s_closed s then Some s
  else
    let s := mkScheduler (s_cfg s) (s_nextOffset s) (chunks s) (next_address s) (pending s) (live s) (acct s)
      (nextAttempt s) (eof s) (srcErr s) true (finished s) (s_stats s) (s_memory s) in
    match release_chunks visit s with
    | None => None
    | Some s => Some (with_live (with_pending s []) ∅ (acct s))
    end.

Definition LaneOutstanding (s : Scheduler) (lane : Z) : Z * Z * Z :=
  (count_of (laneLoad (acct s)) lane, count_of (laneBytes (acct s)) lane, count_of (laneQueued (acct s)) lane).

Definition Stripe_Pending (s : Scheduler) : Z * Z := (len (pending s), totalBytes (acct s)).

(** The copy [Stats] returns: the map is copied, so the value is the same. *)
Definition Stripe_Stats (s : Scheduler) : Stats := s_stats s.

Definition Done (s : Scheduler) : bool := finished s.

Definition Stripe_Err (s : Scheduler) : option Z := srcErr s.

(** ** What the accounts count *)

(** A quantity summed over the outstanding attempts: what an attempt of a chunk
    of the given size contributes. *)
Definition weight := attempt -> Z -> Z.

Definition w_load (lane : Z) : weight := fun x _ => if a_lane x =? lane then 1 else 0.
Definition w_bytes (lane : Z) : weight := fun x n => if a_lane x =? lane then n else 0.
Definition w_queued (lane : Z) : weight :=
  fun x n => if (a_lane x =? lane) && negb (a_written x) then n else 0.
Definition w_total : weight := fun _ n => n.

Definition weight_nonneg (w : weight) : Prop := forall x n, 0 <= n -> 0 <= w x n.

Definition attempts_weight (w : weight) (n : Z) (l : list attempt) : Z := sumZ (map (fun x => w x n) l).

Definition size_in (cs : gmap Z Chunk) (p : Z) : Z := len (c_Data (default zero_chunk (cs !! p))).
Definition offset_in (cs : gmap Z Chunk) (p : Z) : Z := c_Offset (default zero_chunk (cs !! p)).

Definition live_weight (cs : gmap Z Chunk) (lv : gmap Z outstanding) (w : weight) : Z :=
  msum (fun _ out => attempts_weight w (size_in cs (o_chunk out)) (o_attempts out)) lv.

(** The accounts are the sums [F] gives. *)
Definition ledger_exact (a : ledger) (F : weight -> Z) : Prop :=
  (forall lane, count_of (laneLoad a) lane = F (w_load lane) /\
    count_of (laneBytes a) lane = F (w_bytes lane) /\
    count_of (laneQueued a) lane = F (w_queued lane)) /\
  totalBytes a = F w_total.

Lemma w_load_nonneg lane : weight_nonneg (w_load lane).
Proof. intros x n ?. unfold w_load. split_ifs; lia. Qed.
Lemma w_bytes_nonneg lane : weight_nonneg (w_bytes lane).
Proof. intros x n ?. unfold w_bytes. split_ifs; lia. Qed.
Lemma w_queued_nonneg lane : weight_nonneg (w_queued lane).
Proof. intros x n ?. unfold w_queued. split_ifs; lia. Qed.
Lemma w_total_nonneg : weight_nonneg w_total.
Proof. intros x n ?. done. Qed.
#[export] Hint Resolve w_load_nonneg w_bytes_nonneg w_queued_nonneg w_total_nonneg : go.

Lemma attempts_weight_nonneg w n l : weight_nonneg w -> 0 <= n -> 0 <= attempts_weight w n l.
Proof.
  intros Hw Hn. apply sumZ_nonneg, Forall_forall. intros x Hx.
  apply list_elem_of_fmap in Hx as (a & -> & _). by apply Hw.
Qed.

Lemma attempts_weight_cons w n x l : attempts_weight w n (x :: l) = w x n + attempts_weight w n l.
Proof. done. Qed.

Lemma attempts_weight_app w n l k :
  attempts_weight w n (l ++ k) = attempts_weight w n l + attempts_weight w n k.
Proof. unfold attempts_weight. by rewrite map_app, sumZ_app. Qed.

Lemma size_in_nonneg cs p : 0 <= size_in cs p.
Proof. apply len_nonneg. Qed.

Lemma live_weight_nonneg cs lv w : weight_nonneg w -> 0 <= live_weight cs lv w.
Proof. intros. apply msum_nonneg. intros. apply attempts_weight_nonneg; [done|apply size_in_nonneg]. Qed.

Lemma ledger_exact_ext a F G : (forall w, F w = G w) -> ledger_exact a F -> ledger_exact a G.
Proof.
  intros HFG [Hl Ht]. split; [|by rewrite <- HFG]. intros lane. by rewrite <- !HFG.
Qed.

Lemma count_of_insert m k v k' :
  count_of (<[k := v]> m) k' = if k' =? k then v else count_of m k'.
Proof.
  unfold count_of. destruct (Z.eqb_spec k' k) as [->|Hne].
  - by rewrite lookup_insert_eq.
  - by rewrite lookup_insert_ne by done.
Qed.

Lemma w_load_same x n : w_load (a_lane x) x n = 1.
Proof. unfold w_load. by rewrite Z.eqb_refl. Qed.
Lemma w_bytes_same x n : w_bytes (a_lane x) x n = n.
Proof. unfold w_bytes. by rewrite Z.eqb_refl. Qed.
Lemma w_queued_same x n : w_queued (a_lane x) x n = if a_written x then 0 else n.
Proof. unfold w_queued. rewrite Z.eqb_refl. by destruct (a_written x). Qed.
Lemma w_load_other lane x n : lane <> a_lane x -> w_load lane x n = 0.
Proof. intros. unfold w_load. by replace (a_lane x =? lane) with false by lia. Qed.
Lemma w_bytes_other lane x n : lane <> a_lane x -> w_bytes lane x n = 0.
Proof. intros. unfold w_bytes. by replace (a_lane x =? lane) with false by lia. Qed.
Lemma w_queued_other lane x n : lane <> a_lane x -> w_queued lane x n = 0.
Proof. intros. unfold w_queued. by replace (a_lane x =? lane) with false by lia. Qed.

(** Releasing an attempt the sums count takes exactly its share away. *)
Lemma release_exact a F x n :
  ledger_exact a F -> 0 <= n -> (forall w, weight_nonneg w -> w x n <= F w) ->
  ledger_exact (releaseLaneLocked a (a_lane x) n (negb (a_written x))) (fun w => F w - w x n).
Proof.
  intros [Hl Ht] Hn Hge.
  destruct (Hl (a_lane x)) as (Hload & Hbytes & Hqueued).
  pose proof (Hge (w_load (a_lane x)) ltac:(auto with go)) as G1.
  pose proof (Hge (w_bytes (a_lane x)) ltac:(auto with go)) as G2.
  pose proof (Hge (w_queued (a_lane x)) ltac:(auto with go)) as G3.
  pose proof (Hge w_total ltac:(auto with go)) as G4.
  rewrite w_load_same in G1. rewrite w_bytes_same in G2. rewrite w_queued_same in G3.
  change (w_total x n) with n in G4.
  unfold releaseLaneLocked, releaseQueuedLocked. rewrite Hload.
  replace (F (w_load (a_lane x)) >? 0) with true by lia.
  destruct (a_written x) eqn:Ew; cbn [negb andb laneBytes laneQueued laneLoad totalBytes] in *;
    rewrite ?Hbytes, ?Hqueued; replace (F (w_bytes (a_lane x)) >=? n) with true by lia;
    rewrite Ht; replace (F w_total >=? n) with true by lia;
    (split; cbn [laneBytes laneQueued laneLoad totalBytes]; [|done]);
    intros lane; destruct (Hl lane) as (Hload' & Hbytes' & Hqueued');
    rewrite !count_of_insert; destruct (Z.eqb_spec lane (a_lane x)) as [->|];
    rewrite ?w_load_same, ?w_bytes_same, ?w_queued_same, ?w_load_other, ?w_bytes_other, ?w_queued_other,
      ?Ew by done;
    try (replace (F (w_queued (a_lane x)) >=? n) with true by lia); lia.
Qed.

(** Releasing some attempts of a chunk leaves the sums over the others. *)
Lemma sweep_exact drop_ queued n l : forall a R,
  ledger_exact a (fun w => R w + attempts_weight w n l) -> 0 <= n ->
  (forall w, weight_nonneg w -> 0 <= R w) ->
  (forall x, x ∈ l -> drop_ x = true -> queued x = negb (a_written x)) ->
  fst (sweep_attempts drop_ queued n l a) = filter (fun x => drop_ x = false) l /\
  ledger_exact (snd (sweep_attempts drop_ queued n l a))
    (fun w => R w + attempts_weight w n (filter (fun x => drop_ x = false) l)).
Proof.
  induction l as [|x l IH]; intros a R Ha Hn HR Hq; [done|].
  cbn [sweep_attempts]. rewrite filter_cons.
  assert (Hq' : forall y, y ∈ l -> drop_ y = true -> queued y = negb (a_written y)).
  { intros y Hy. apply Hq. by constructor. }
  destruct (drop_ x) eqn:Ed.
  - rewrite decide_False by congruence. rewrite (Hq x ltac:(constructor) Ed).
    apply IH; try done. apply (release_exact a _ x n) in Ha; [|done|].
    + eapply ledger_exact_ext; [|exact Ha]. intros w. cbn beta. rewrite attempts_weight_cons. lia.
    + intros w Hw. rewrite attempts_weight_cons. specialize (HR w Hw).
      pose proof (attempts_weight_nonneg w n l Hw Hn). lia.
  - rewrite decide_True by done.
    destruct (IH a (fun w => R w + w x n)) as [Hk He]; try done.
    + eapply ledger_exact_ext; [|exact Ha]. intros w. cbn beta. rewrite attempts_weight_cons. lia.
    + intros w Hw. specialize (HR w Hw). specialize (Hw x n Hn). lia.
    + destruct (sweep_attempts drop_ queued n l a) as [kept a']. cbn [fst snd] in *. split; [by rewrite Hk|].
      eapply ledger_exact_ext; [|exact He]. intros w. cbn beta. rewrite attempts_weight_cons. lia.
Qed.

Lemma w_bytes_le_total lane x n : 0 <= n -> w_bytes lane x n <= w_total x n.
Proof. intros. unfold w_bytes, w_total. split_ifs; lia. Qed.

Lemma charge_exact a F x n :
  ledger_exact a F -> 0 <= n -> a_written x = false ->
  (forall lane, 0 <= F (w_bytes lane) <= F w_total) -> (forall lane, 0 <= F (w_queued lane) <= F w_total) ->
  0 <= F w_total + n < 2 ^ 64 ->
  ledger_exact (charge_lane a (a_lane x) n) (fun w => F w + w x n).
Proof.
  intros [Hl Ht] Hn Ew Hb Hq Hlt. split; cbn [charge_lane laneBytes laneQueued laneLoad totalBytes].
  - intros lane. destruct (Hl lane) as (H1 & H2 & H3). destruct (Hl (a_lane x)) as (H1' & H2' & H3').
    rewrite !count_of_insert, H1', H2', H3', H1, H2, H3.
    specialize (Hb (a_lane x)). specialize (Hq (a_lane x)). rewrite !wrap_small by lia.
    destruct (Z.eqb_spec lane (a_lane x)) as [->|];
      rewrite ?w_load_same, ?w_bytes_same, ?w_queued_same, ?w_load_other, ?w_bytes_other, ?w_queued_other,
        ?Ew by done; lia.
  - rewrite Ht. change (w_total x n) with n. by apply wrap_small.
Qed.

(** [Wrote] moves an attempt out of its lane's queue and nothing else. *)
Lemma wrote_exact a F x x' n :
  ledger_exact a F -> 0 <= n -> a_lane x' = a_lane x -> a_written x = false -> a_written x' = true ->
  n <= F (w_queued (a_lane x)) ->
  ledger_exact (releaseQueuedLocked a (a_lane x) n) (fun w => F w - w x n + w x' n).
Proof.
  intros [Hl Ht] Hn El Ew Ew' Hq. unfold releaseQueuedLocked.
  destruct (Hl (a_lane x)) as (_ & _ & H3'). rewrite H3'.
  replace (F (w_queued (a_lane x)) >=? n) with true by lia.
  split; cbn [laneBytes laneQueued laneLoad totalBytes]; [|change (w_total x n) with (w_total x' n); lia].
  intros lane. destruct (Hl lane) as (H1 & H2 & H3). rewrite count_of_insert, H1, H2, H3.
  assert (w_load lane x' n = w_load lane x n) as -> by (unfold w_load; by rewrite El).
  assert (w_bytes lane x' n = w_bytes lane x n) as -> by (unfold w_bytes; by rewrite El).
  destruct (Z.eqb_spec lane (a_lane x)) as [->|].
  - rewrite w_queued_same, Ew, <- El, w_queued_same, Ew'. lia.
  - rewrite !w_queued_other by congruence. lia.
Qed.
