(* ===== verification/StripeInv.v ===== *)
(** Correctness of the striping scheduler.

    A [flow] is one scheduler with its producer goroutine, the source bytes read
    so far, the offsets reported complete, and what other users of the shared
    memory hold.  [fstep] interleaves the critical sections of the producer, of
    the lanes ([Next], [Wrote], [Fail], [RetireLane]), of the completion path and
    of the supervisor in any order.  The invariant relates the two aliased sets
    of chunks, the attempts, the admission accounts and the memory; the theorems
    at the end are read off it. *)

From S2P Require Import Prelude Memlimit Stripe.

Inductive producer := Checking | Acquiring | Reading | Stopped.

Record flow := mkFlow {
  sch : Scheduler;
  prod_ : producer;
  src : bytes;
  acked : gset Z;
  elsewhere : Z
}.

(** The memory the producer holds between its reservation and its read. *)
Definition held_bytes (p : producer) (s : Scheduler) : Z :=
  match p with Reading => ChunkSize (s_cfg s) | _ => 0 end.

(** A granted [Acquire]. *)
Definition granted (m : option Budget) (n : Z) (m' : option Budget) : Prop :=
  match m with
  | None => m' = None
  | Some b => exists b', Acquire_enter false n b = (AcqGranted, b') /\ m' = Some b'
  end.

Definition producer_after (s : Scheduler) (e : read_end) : producer :=
  if s_closed s then Stopped else match e with ReadMore => Checking | _ => Stopped end.

(** The offsets a range over [live] visits. *)
Definition live_keys (s : Scheduler) : list Z := map fst (map_to_list (live s)).

Inductive fstep : flow -> flow -> Prop :=
| f_elsewhere s pr sr ak e b b' e' :
    s_memory s = Some b -> Budget_wf b' -> capacity b' = capacity b -> 0 <= e' ->
    used b' = used b - e + e' ->
    fstep (mkFlow s pr sr ak e) (mkFlow (with_memory s (Some b')) pr sr ak e')
| f_admit s sr ak e ans :
    s_closed s = false -> produce_waits s ans = false ->
    fstep (mkFlow s Checking sr ak e) (mkFlow s Acquiring sr ak e)
| f_stop s sr ak e :
    s_closed s = true -> fstep (mkFlow s Checking sr ak e) (mkFlow s Stopped sr ak e)
| f_reserve s sr ak e m :
    granted (s_memory s) (ChunkSize (s_cfg s)) m ->
    fstep (mkFlow s Acquiring sr ak e) (mkFlow (with_memory s m) Reading sr ak e)
| f_unreserved s sr ak e err :
    fstep (mkFlow s Acquiring sr ak e) (mkFlow (produce_unreserved s err) Stopped sr ak e)
| f_read s sr ak e data r s' :
    len data <= ChunkSize (s_cfg s) -> len sr + len data < 2 ^ 63 ->
    produce_read s data r = Some s' ->
    fstep (mkFlow s Reading sr ak e)
      (mkFlow s' (producer_after s r) (if s_closed s then sr else sr ++ data) ak e)
| f_next s pr sr ak e ans ctx_done lane windowBytes c s' :
    nextAttempt s + 1 < 2 ^ 64 ->
    Next_pass s ans ctx_done lane windowBytes = (NextChunk c, s') ->
    fstep (mkFlow s pr sr ak e) (mkFlow s' pr sr ak e)
| f_wrote s pr sr ak e lane offset id :
    fstep (mkFlow s pr sr ak e) (mkFlow (Wrote s lane offset id) pr sr ak e)
| f_complete s pr sr ak e lane offset s' :
    Complete s lane offset = Some s' ->
    fstep (mkFlow s pr sr ak e) (mkFlow s' pr sr ({[offset]} ∪ ak) e)
| f_fail s pr sr ak e lane offset id :
    fstep (mkFlow s pr sr ak e) (mkFlow (Fail_attempt s lane offset id) pr sr ak e)
| f_retire s pr sr ak e lane visit :
    visit ≡ₚ live_keys s ->
    fstep (mkFlow s pr sr ak e) (mkFlow (RetireLane visit s lane) pr sr ak e)
| f_below s pr sr ak e offset visit :
    visit ≡ₚ live_keys s ->
    fstep (mkFlow s pr sr ak e) (mkFlow (fst (ReissueUnacknowledgedBelow visit s offset)) pr sr ak e)
| f_expired s pr sr ak e ans visit :
    visit ≡ₚ live_keys s ->
    fstep (mkFlow s pr sr ak e) (mkFlow (fst (ReissueExpired visit s ans)) pr sr ak e)
| f_close s pr sr ak e visit s' :
    visit ≡ₚ elements (seen_chunks s) -> Stripe_Close visit s = Some s' ->
    fstep (mkFlow s pr sr ak e) (mkFlow s' pr sr ak e).

(** A fresh scheduler over a shared budget others may already use. *)
Definition flow_start (cfg : StripeConfig) (m : option Budget) : flow :=
  mkFlow (Stripe_New cfg m) Checking [] ∅ (match m with Some b => used b | None => 0 end).

Definition budget_ok (m : option Budget) : Prop :=
  match m with Some b => Budget_wf b | None => True end.

(** ** The invariant *)

(** The chunks ever made are consecutive pieces of the source. *)
Record store_inv (sr : bytes) (e : bool) (cs : gmap Z Chunk) (n : Z) : Prop := mk_store_inv {
  st_addr : forall p c, cs !! p = Some c -> p < n;
  st_inj : forall p1 c1 p2 c2, cs !! p1 = Some c1 -> cs !! p2 = Some c2 ->
    c_Offset c1 = c_Offset c2 -> p1 = p2;
  st_data : forall p c, cs !! p = Some c ->
    0 <= c_Offset c /\ c_Offset c + len (c_Data c) <= len sr /\
    c_Data c = slice (Z.to_nat (c_Offset c)) (Z.to_nat (c_Offset c + len (c_Data c))) sr;
  st_empty : forall p c, cs !! p = Some c -> c_Data c = [] -> e = true /\ c_Offset c = len sr;
  st_cover : forall x, 0 <= x < len sr ->
    exists p c, cs !! p = Some c /\ c_Offset c <= x < c_Offset c + len (c_Data c);
  st_sum : msum (fun _ c => len (c_Data c)) cs = len sr;
  st_res : forall p c, cs !! p = Some c -> 0 <= c_reservation c
}.

(** The ready set and the outstanding set.  [E] holds offsets whose last attempt
    is gone and whose return to the ready set is still to come. *)
Record queue_inv (E : list Z) (cs : gmap Z Chunk) (pend : list Z) (lv : gmap Z outstanding) : Prop :=
  mk_queue_inv {
  qi_live : forall o out, lv !! o = Some out -> exists c, cs !! o_chunk out = Some c /\ c_Offset c = o;
  qi_pending : forall p, p ∈ pend ->
    exists c, cs !! p = Some c /\ (c_urgent c = true <-> is_Some (lv !! c_Offset c));
  qi_sorted : StronglySorted Z.lt (map (offset_in cs) pend);
  qi_fresh : forall p o, p ∈ pend -> lv !! offset_in cs p = None -> is_Some (lv !! o) -> o < offset_in cs p;
  qi_attempts : forall o out, lv !! o = Some out ->
    (length (o_attempts out) <= 2)%nat /\
    (o_attempts out = [] -> o_chunk out ∈ pend \/ o ∈ E) /\
    (o_chunk out ∈ pend -> (length (o_attempts out) <= 1)%nat)
}.

Record ids_inv (n : Z) (lv : gmap Z outstanding) : Prop := mk_ids_inv {
  id_range : forall o out x, lv !! o = Some out -> x ∈ o_attempts out -> 1 <= a_id x <= n;
  id_nodup : forall o out, lv !! o = Some out -> NoDup (map a_id (o_attempts out));
  id_entry : forall o1 out1 x1 o2 out2 x2, lv !! o1 = Some out1 -> lv !! o2 = Some out2 ->
    x1 ∈ o_attempts out1 -> x2 ∈ o_attempts out2 -> a_id x1 = a_id x2 -> o1 = o2
}.

Definition reserved (cs : gmap Z Chunk) : Z := msum (fun _ c => c_reservation c) cs.

(** The budget counts what the flow and the others hold. *)
Definition mem_inv (m : option Budget) (n : Z) : Prop :=
  match m with Some b => Budget_wf b /\ used b = n | None => True end.

Record sinv (E : list Z) (sr : bytes) (ak : gset Z) (n : Z) (s : Scheduler) : Prop := mk_sinv {
  si_closed : s_closed s = false;
  si_cfg : 0 < ChunkSize (s_cfg s);
  si_next : s_nextOffset s = len sr /\ len sr < 2 ^ 63;
  si_store : store_inv sr (eof s) (chunks s) (next_address s);
  si_queue : queue_inv E (chunks s) (pending s) (live s);
  si_ids : ids_inv (nextAttempt s) (live s) /\ 0 <= nextAttempt s < 2 ^ 64;
  si_ledger : ledger_exact (acct s) (live_weight (chunks s) (live s));
  si_mem : 0 <= n /\ mem_inv (s_memory s) (n + reserved (chunks s));
  si_kept : forall p c, chunks s !! p = Some c ->
    p ∈ pending s \/ is_Some (live s !! c_Offset c) \/ (c_Offset c ∈ ak /\ c_reservation c = 0);
  si_finished : finished s = true -> doneLocked s = true
}.

(** Every byte read belongs to a chunk reported complete. *)
Definition delivered (sr : bytes) (ak : gset Z) (cs : gmap Z Chunk) : Prop :=
  forall x, 0 <= x < len sr ->
    exists p c, cs !! p = Some c /\ c_Offset c <= x < c_Offset c + len (c_Data c) /\ c_Offset c ∈ ak.

(** After [Close] nothing is held. *)
Record closed_inv (sr : bytes) (ak : gset Z) (n : Z) (s : Scheduler) : Prop := mk_closed_inv {
  ci_closed : s_closed s = true;
  ci_cfg : 0 < ChunkSize (s_cfg s);
  ci_pending : pending s = [];
  ci_live : live s = ∅;
  ci_res : forall p c, chunks s !! p = Some c -> c_reservation c = 0;
  ci_mem : 0 <= n /\ mem_inv (s_memory s) n;
  ci_finished : finished s = true -> delivered sr ak (chunks s)
}.

Definition flow_inv (f : flow) : Prop :=
  let n := elsewhere f + held_bytes (prod_ f) (sch f) in
  0 <= elsewhere f /\
  (closed_inv (src f) (acked f) n (sch f) \/
   (sinv [] (src f) (acked f) n (sch f) /\ (eof (sch f) = true -> prod_ f = Stopped))).

(** ** Lemmas on the store *)

(** An update of a chunk that keeps its bytes. *)
Lemma size_in_update cs p c c' q :
  cs !! p = Some c -> c_Data c' = c_Data c -> size_in (<[p := c']> cs) q = size_in cs q.
Proof.
  intros Hp Hd. unfold size_in. destruct (decide (q = p)) as [->|].
  - rewrite lookup_insert_eq, Hp. cbn. by rewrite Hd.
  - by rewrite lookup_insert_ne.
Qed.

Lemma offset_in_update cs p c c' q :
  cs !! p = Some c -> c_Offset c' = c_Offset c -> offset_in (<[p := c']> cs) q = offset_in cs q.
Proof.
  intros Hp Hd. unfold offset_in. destruct (decide (q = p)) as [->|].
  - rewrite lookup_insert_eq, Hp. cbn. by rewrite Hd.
  - by rewrite lookup_insert_ne.
Qed.

Lemma offset_in_lookup cs p c : cs !! p = Some c -> offset_in cs p = c_Offset c.
Proof. intros Hp. unfold offset_in. by rewrite Hp. Qed.

Lemma chunk_at_lookup s p c : chunks s !! p = Some c -> chunk_at s p = c.
Proof. intros Hp. unfold chunk_at. by rewrite Hp. Qed.

Lemma size_in_lookup cs p c : cs !! p = Some c -> size_in cs p = len (c_Data c).
Proof. intros Hp. unfold size_in. by rewrite Hp. Qed.

Lemma live_weight_ext cs cs' lv w :
  (forall o out, lv !! o = Some out -> size_in cs' (o_chunk out) = size_in cs (o_chunk out)) ->
  live_weight cs' lv w = live_weight cs lv w.
Proof. intros H. apply msum_ext. intros o out Ho. by rewrite (H o out). Qed.

Lemma store_inv_update sr e cs n p c c' :
  store_inv sr e cs n -> cs !! p = Some c ->
  c_Offset c' = c_Offset c -> c_Data c' = c_Data c -> 0 <= c_reservation c' ->
  store_inv sr e (<[p := c']> cs) n.
Proof.
  intros [Ha Hi Hd He Hc Hs Hr] Hp Eo Ed Er.
  assert (Hl : forall q d, <[p := c']> cs !! q = Some d ->
    exists d0, cs !! q = Some d0 /\ c_Offset d = c_Offset d0 /\ c_Data d = c_Data d0 /\ 0 <= c_reservation d).
  { intros q d Hq. apply lookup_insert_Some in Hq as [[<- <-]|[_ Hq]]; [by exists c|].
    exists d. repeat split; try done. by apply (Hr q). }
  split.
  - intros q d Hq. destruct (Hl q d Hq) as (d0 & H0 & _). by apply (Ha q d0).
  - intros p1 c1 p2 c2 H1 H2 Ho. destruct (Hl _ _ H1) as (d1 & ? & E1 & _).
    destruct (Hl _ _ H2) as (d2 & ? & E2 & _). apply (Hi p1 d1 p2 d2); congruence.
  - intros q d Hq. destruct (Hl q d Hq) as (d0 & H0 & E1 & E2 & _). rewrite E1, E2. by apply (Hd q).
  - intros q d Hq. destruct (Hl q d Hq) as (d0 & H0 & E1 & E2 & _). rewrite E1, E2. by apply (He q).
  - intros x Hx. destruct (Hc x Hx) as (q & d & Hq & Hin). destruct (decide (q = p)) as [->|].
    + exists p, c'. rewrite lookup_insert_eq, Eo, Ed. by replace c with d by congruence.
    + exists q, d. by rewrite lookup_insert_ne.
  - rewrite (msum_update _ _ _ _ _ Hp), Ed, Hs. lia.
  - intros q d Hq. by destruct (Hl q d Hq) as (d0 & H0 & E1 & E2 & ?).
Qed.

Lemma reserved_update cs p c c' :
  cs !! p = Some c -> reserved (<[p := c']> cs) = reserved cs - c_reservation c + c_reservation c'.
Proof. intros Hp. unfold reserved. by rewrite (msum_update _ _ _ _ _ Hp). Qed.

Lemma reserved_nonneg sr e cs n : store_inv sr e cs n -> 0 <= reserved cs.
Proof. intros Hs. apply msum_nonneg. apply Hs. Qed.

(** Entries that point to distinct entries of another map weigh no more than it. *)
Lemma msum_inject {A B} (f : Z -> A -> Z) (ptr : A -> Z) (g : Z -> B -> Z) (m : gmap Z A) :
  forall st : gmap Z B,
  (forall k a, m !! k = Some a -> exists b, st !! ptr a = Some b /\ f k a <= g (ptr a) b) ->
  (forall k1 a1 k2 a2, m !! k1 = Some a1 -> m !! k2 = Some a2 -> ptr a1 = ptr a2 -> k1 = k2) ->
  (forall k b, st !! k = Some b -> 0 <= g k b) -> msum f m <= msum g st.
Proof.
  induction m as [|k a m Hk IH] using map_ind; intros st Hp Hinj Hg; [by apply msum_nonneg|].
  destruct (Hp k a ltac:(apply lookup_insert_eq)) as (b & Hb & Hle).
  rewrite msum_insert by done. rewrite (msum_delete g st (ptr a) b Hb).
  assert (msum f m <= msum g (delete (ptr a) st)); [|lia]. apply IH.
  - intros k' a' Hk'. assert (k' <> k) by congruence.
    destruct (Hp k' a' ltac:(by rewrite lookup_insert_ne)) as (b' & Hb' & Hle').
    exists b'. split; [|done]. rewrite lookup_delete_ne; [done|]. intros Heq.
    enough (k = k') by congruence.
    apply (Hinj k a k' a'); [apply lookup_insert_eq|by rewrite lookup_insert_ne|done].
  - intros k1 a1 k2 a2 H1 H2. apply Hinj; rewrite lookup_insert_ne; congruence.
  - intros k' b' Hk'. apply lookup_delete_Some in Hk' as [_ Hk']. by apply Hg.
Qed.

Lemma queue_ptr_inj E cs pend lv k1 a1 k2 a2 :
  queue_inv E cs pend lv -> lv !! k1 = Some a1 -> lv !! k2 = Some a2 -> o_chunk a1 = o_chunk a2 -> k1 = k2.
Proof.
  intros Hq H1 H2 He. destruct (qi_live _ _ _ _ Hq _ _ H1) as (c1 & Hc1 & <-).
  destruct (qi_live _ _ _ _ Hq _ _ H2) as (c2 & Hc2 & <-). congruence.
Qed.

(** A chunk has at most two attempts outstanding, so the flow's total stays
    below twice the bytes read. *)
Lemma live_total_bound E sr e cs n pend lv :
  store_inv sr e cs n -> queue_inv E cs pend lv -> live_weight cs lv w_total <= 2 * len sr.
Proof.
  intros Hs Hq. unfold live_weight.
  assert (H : msum (fun _ out => attempts_weight w_total (size_in cs (o_chunk out)) (o_attempts out)) lv
    <= msum (fun _ c => 2 * len (c_Data c)) cs).
  { apply (msum_inject _ o_chunk).
    - intros o out Ho. destruct (qi_live _ _ _ _ Hq _ _ Ho) as (c & Hc & _). exists c.
      split; [done|]. rewrite (size_in_lookup _ _ _ Hc). pose proof (len_nonneg (c_Data c)).
      destruct (qi_attempts _ _ _ _ Hq _ _ Ho) as (Hl & _ & _).
      destruct (o_attempts out) as [|x [|y [|z l]]]; unfold attempts_weight, w_total; cbn in *; lia.
    - intros k1 a1 k2 a2. apply (queue_ptr_inj _ _ _ _ _ _ _ _ Hq).
    - intros k b _. pose proof (len_nonneg (c_Data b)). lia. }
  rewrite (msum_ext (fun _ c => 2 * len (c_Data c)) (fun _ c => len (c_Data c) + len (c_Data c))) in H
    by (intros; lia).
  rewrite msum_add, (st_sum _ _ _ _ Hs) in H. lia.
Qed.

(** A lane's bytes are part of the flow's. *)
Lemma live_weight_le cs lv w w' :
  (forall x n, 0 <= n -> w x n <= w' x n) -> live_weight cs lv w <= live_weight cs lv w'.
Proof.
  intros H. unfold live_weight. induction lv as [|o out lv Ho IH] using map_ind; [done|].
  rewrite !msum_insert by done.
  assert (attempts_weight w (size_in cs (o_chunk out)) (o_attempts out)
    <= attempts_weight w' (size_in cs (o_chunk out)) (o_attempts out)); [|lia].
  pose proof (size_in_nonneg cs (o_chunk out)).
  induction (o_attempts out) as [|x l IHl]; [done|]. rewrite !attempts_weight_cons.
  specialize (H x (size_in cs (o_chunk out))). lia.
Qed.

(** ** Lemmas on the two sets *)

Lemma doneLocked_spec s : doneLocked s = true <-> eof s = true /\ pending s = [] /\ live s = ∅.
Proof.
  unfold doneLocked. rewrite !andb_true_iff, !Z.eqb_eq. split.
  - intros [[He Hp] Hl]. split; [done|]. split; [by apply len_zero_nil|].
    apply map_size_empty_inv. lia.
  - intros (-> & -> & ->). rewrite map_size_empty. done.
Qed.

Lemma live_not_finished E sr ak n s o out :
  sinv E sr ak n s -> live s !! o = Some out -> finished s = false.
Proof.
  intros Hs Ho. destruct (finished s) eqn:Ef; [|done].
  pose proof (si_finished _ _ _ _ _ Hs Ef) as Hd. apply doneLocked_spec in Hd as (_ & _ & He).
  rewrite He, lookup_empty in Ho. done.
Qed.

Lemma queue_inv_weaken E E' cs pend lv :
  queue_inv E cs pend lv -> E ⊆ E' -> queue_inv E' cs pend lv.
Proof.
  intros [H1 H2 H3 H4 H5] HE. split; try done. intros o out Ho.
  destruct (H5 o out Ho) as (? & H & ?). split; [done|]. split; [|done]. intros Hn.
  destruct (H Hn) as [|Hin]; [by left|right]. by apply HE.
Qed.

Lemma sinv_weaken E E' sr ak n s : sinv E sr ak n s -> E ⊆ E' -> sinv E' sr ak n s.
Proof. intros [] HE. split; try done. by eapply queue_inv_weaken. Qed.

Lemma is_Some_update {A} (m : gmap Z A) k v w k' :
  m !! k = Some v -> is_Some (<[k := w]> m !! k') <-> is_Some (m !! k').
Proof. intros Hk. rewrite lookup_insert_is_Some'. split; [|by right]. intros [<-|]; [by eexists|done]. Qed.

(** Replacing the attempts of one outstanding chunk. *)
Lemma queue_inv_attempts E E' cs pend lv o out kept :
  queue_inv E cs pend lv -> lv !! o = Some out -> (length kept <= length (o_attempts out))%nat ->
  E ⊆ E' -> (kept = [] -> o ∈ E' \/ o_chunk out ∈ pend) ->
  queue_inv E' cs pend (<[o := mkOutstanding (o_chunk out) kept]> lv).
Proof.
  intros [H1 H2 H3 H4 H5] Ho Hlen HE Hk. split.
  - intros o' out' Ho'. apply lookup_insert_Some in Ho' as [[<- <-]|[_ Ho']]; cbn; by eapply H1.
  - intros p Hp. destruct (H2 p Hp) as (c & Hc & Hu). exists c. split; [done|].
    rewrite Hu. symmetry. by eapply is_Some_update.
  - done.
  - intros p o' Hp Hn Ho'. apply (is_Some_update _ _ _ _ _ Ho) in Ho'. apply H4; try done.
    destruct (decide (offset_in cs p = o)) as [Heq|].
    + rewrite Heq, lookup_insert_eq in Hn. done.
    + by rewrite lookup_insert_ne in Hn.
  - intros o' out' Ho'. apply lookup_insert_Some in Ho' as [[<- <-]|[_ Ho']]; cbn.
    + destruct (H5 o out Ho) as (Hl & _ & Hp). split; [lia|]. split.
      * intros Hn. destruct (Hk Hn); [by right|by left].
      * intros Hin. specialize (Hp Hin). lia.
    + destruct (H5 o' out' Ho') as (Hl & He & Hp). split; [done|]. split; [|done].
      intros Hn. destruct (He Hn); [by left|right; by apply HE].
Qed.

Lemma ids_inv_attempts k lv o out kept :
  ids_inv k lv -> lv !! o = Some out -> map a_id kept `sublist_of` map a_id (o_attempts out) ->
  ids_inv k (<[o := mkOutstanding (o_chunk out) kept]> lv).
Proof.
  intros [Hr Hn He] Ho Hsub.
  assert (Hin : forall x, x ∈ kept -> exists y, y ∈ o_attempts out /\ a_id y = a_id x).
  { intros x Hx. assert (Hx' : a_id x ∈ map a_id (o_attempts out)).
    { eapply elem_of_sublist; [|exact Hsub]. apply list_elem_of_fmap. by exists x. }
    apply list_elem_of_fmap in Hx' as (y & Hy & Hy'). by exists y. }
  assert (Hany : forall o' out' x, <[o := mkOutstanding (o_chunk out) kept]> lv !! o' = Some out' ->
    x ∈ o_attempts out' -> exists out0 y, lv !! o' = Some out0 /\ y ∈ o_attempts out0 /\ a_id y = a_id x).
  { intros o' out' x Ho' Hx. apply lookup_insert_Some in Ho' as [[<- <-]|[_ Ho']]; [|by eauto].
    cbn in Hx. destruct (Hin x Hx) as (y & ? & ?). by exists out, y. }
  split.
  - intros o' out' x Ho' Hx. destruct (Hany o' out' x Ho' Hx) as (out0 & y & ? & ? & <-). by eapply Hr.
  - intros o' out' Ho'. apply lookup_insert_Some in Ho' as [[<- <-]|[_ Ho']]; [|by eapply Hn].
    cbn. eapply sublist_NoDup; [by eapply Hn|exact Hsub].
  - intros o1 out1 x1 o2 out2 x2 Ho1 Ho2 Hx1 Hx2 Hid.
    destruct (Hany _ _ _ Ho1 Hx1) as (? & y1 & ? & ? & ?).
    destruct (Hany _ _ _ Ho2 Hx2) as (? & y2 & ? & ? & ?).
    eapply (He o1 _ y1 o2 _ y2); eauto. congruence.
Qed.

Lemma live_weight_update cs lv o out kept w :
  lv !! o = Some out ->
  live_weight cs (<[o := mkOutstanding (o_chunk out) kept]> lv) w =
  live_weight cs lv w - attempts_weight w (size_in cs (o_chunk out)) (o_attempts out)
    + attempts_weight w (size_in cs (o_chunk out)) kept.
Proof. intros Ho. unfold live_weight. by rewrite (msum_update _ _ _ _ _ Ho). Qed.

(** The sums over the chunks other than one. *)
Definition others_weight (s : Scheduler) (o : Z) (w : weight) : Z :=
  live_weight (chunks s) (delete o (live s)) w.

Lemma others_weight_split s o out w :
  live s !! o = Some out ->
  live_weight (chunks s) (live s) w =
  others_weight s o w + attempts_weight w (out_size s out) (o_attempts out).
Proof.
  intros Ho. unfold others_weight, live_weight. rewrite (msum_delete _ _ _ _ Ho).
  unfold out_size, chunk_at, size_in. lia.
Qed.

Lemma others_weight_nonneg s o w : weight_nonneg w -> 0 <= others_weight s o w.
Proof. apply live_weight_nonneg. Qed.

(** One outstanding chunk's attempts and the accounts change together. *)
Lemma attempts_inv E E' sr ak n s o out kept a t :
  sinv E sr ak n s -> live s !! o = Some out ->
  map a_id kept `sublist_of` map a_id (o_attempts out) ->
  ledger_exact a (fun w => others_weight s o w + attempts_weight w (out_size s out) kept) ->
  E ⊆ E' -> (kept = [] -> o ∈ E' \/ o_chunk out ∈ pending s) ->
  sinv E' sr ak n (with_stats (with_live s (<[o := mkOutstanding (o_chunk out) kept]> (live s)) a) t).
Proof.
  intros Hs Ho Hsub Ha HE Hk. pose proof (live_not_finished _ _ _ _ _ _ _ Hs Ho) as Hf.
  destruct Hs as [? ? ? ? ? [Hids ?] Hled ? Hkept ?]. split; cbn; try done.
  - eapply queue_inv_attempts; eauto. apply sublist_length in Hsub. by rewrite !length_map in Hsub.
  - split; [|done]. by apply ids_inv_attempts.
  - eapply ledger_exact_ext; [|exact Ha]. intros w. cbn beta.
    rewrite (live_weight_update _ _ _ _ _ _ Ho), (others_weight_split _ _ _ _ Ho).
    unfold out_size, chunk_at, size_in. lia.
  - intros p c Hp. destruct (Hkept p c Hp) as [|[|]]; [by left| |by do 2 right].
    right. left. by eapply is_Some_update.
  - by rewrite Hf.
Qed.

(** ** Returning a chunk to the ready set *)

Lemma pendingHas_spec s o :
  pendingHas s o = true <-> exists p, p ∈ pending s /\ offset_in (chunks s) p = o.
Proof.
  unfold pendingHas. rewrite existsb_exists. split.
  - intros (p & Hp & He). exists p. rewrite list_elem_of_In. split; [done|].
    apply Z.eqb_eq in He. exact He.
  - intros (p & Hp & He). exists p. rewrite <- list_elem_of_In. split; [done|].
    apply Z.eqb_eq. exact He.
Qed.

(** The chunk of an outstanding offset that is ready is the ready chunk. *)
Lemma pending_alias E sr ak n s o out p :
  sinv E sr ak n s -> live s !! o = Some out -> p ∈ pending s -> offset_in (chunks s) p = o ->
  p = o_chunk out.
Proof.
  intros Hs Ho Hp He. destruct (qi_live _ _ _ _ (si_queue _ _ _ _ _ Hs) _ _ Ho) as (c & Hc & Hco).
  destruct (qi_pending _ _ _ _ (si_queue _ _ _ _ _ Hs) _ Hp) as (d & Hd & _).
  apply (st_inj _ _ _ _ (si_store _ _ _ _ _ Hs) _ d _ c); [done|done|].
  rewrite (offset_in_lookup _ _ _ Hd) in He. congruence.
Qed.

Lemma insert_by_offset_perm s p l : insert_by_offset s p l ≡ₚ p :: l.
Proof.
  induction l as [|q l IH]; [done|]. cbn. destruct (_ <? _); [|done].
  rewrite IH. apply Permutation_swap.
Qed.

Lemma insert_by_offset_sorted s p l :
  StronglySorted Z.lt (map (offset_in (chunks s)) l) ->
  (forall q, q ∈ l -> offset_in (chunks s) q <> offset_in (chunks s) p) ->
  StronglySorted Z.lt (map (offset_in (chunks s)) (insert_by_offset s p l)).
Proof.
  induction l as [|q l IH]; intros Hl Hne; [repeat constructor|]. cbn [insert_by_offset].
  change (c_Offset (chunk_at s q)) with (offset_in (chunks s) q).
  change (c_Offset (chunk_at s p)) with (offset_in (chunks s) p).
  cbn [map] in Hl. inversion_clear Hl as [|? ? Hl' Hq]. rewrite Forall_forall in Hq.
  assert (Hqp : offset_in (chunks s) q <> offset_in (chunks s) p) by (apply Hne; constructor).
  destruct (_ <? _) eqn:E; bool_to_prop; cbn [map].
  - constructor; [apply IH; [done|]; intros; apply Hne; by constructor|].
    rewrite insert_by_offset_perm. apply Forall_cons. split; [done|]. by apply Forall_forall.
  - constructor; [by constructor; [|apply Forall_forall]|]. apply Forall_cons. split; [lia|].
    apply Forall_forall. intros y Hy. specialize (Hq y Hy). lia.
Qed.

(** Facts about the chunks do not depend on [urgent], [Final] or the
    reservation. *)
Lemma offsets_update cs p c c' l :
  cs !! p = Some c -> c_Offset c' = c_Offset c ->
  map (offset_in (<[p := c']> cs)) l = map (offset_in cs) l.
Proof. intros. apply map_ext. intros q. by eapply offset_in_update. Qed.

Lemma queue_inv_requeue E E' cs pend pend' lv o out c :
  queue_inv E cs pend lv -> lv !! o = Some out -> (length (o_attempts out) <= 1)%nat ->
  cs !! o_chunk out = Some c -> pend' ≡ₚ o_chunk out :: pend ->
  StronglySorted Z.lt (map (offset_in cs) pend') -> (forall x, x ∈ E -> x = o \/ x ∈ E') ->
  queue_inv E' (<[o_chunk out := set_urgent c true]> cs) pend' lv.
Proof.
  intros Hq Ho Hlen Hc Hp Hsort HE. pose proof Hq as [H1 H2 H3 H4 H5].
  destruct (H1 o out Ho) as (c0 & Hc0 & Hco). assert (c0 = c) as -> by congruence.
  split.
  - intros o' out' Ho'. destruct (H1 o' out' Ho') as (d & Hd & Hdo).
    destruct (decide (o_chunk out' = o_chunk out)) as [He|].
    + exists (set_urgent c true). rewrite He, lookup_insert_eq. split; [done|]. cbn. congruence.
    + exists d. by rewrite lookup_insert_ne.
  - intros p Hin. destruct (decide (p = o_chunk out)) as [->|Hne].
    + exists (set_urgent c true). rewrite lookup_insert_eq. split; [done|]. cbn. rewrite Hco, Ho.
      split; [by eexists|done].
    + rewrite lookup_insert_ne by done. apply H2. rewrite Hp in Hin. by apply elem_of_cons in Hin as [|].
  - rewrite (offsets_update cs _ c); done.
  - intros p o'. rewrite (offset_in_update cs _ c) by done. intros Hin Hn Ho'.
    rewrite Hp in Hin. apply elem_of_cons in Hin as [->|Hin]; [|by apply H4].
    rewrite (offset_in_lookup _ _ _ Hc), Hco in Hn. congruence.
  - intros o' out' Ho'. destruct (H5 o' out' Ho') as (Hl & He & Hpn). split; [done|]. split.
    + intros Hn. rewrite Hp. destruct (He Hn) as [|Hin]; [left; by constructor|].
      destruct (HE _ Hin) as [->|]; [|by right]. left. replace out' with out by congruence. constructor.
    + rewrite Hp. intros Hin. apply elem_of_cons in Hin as [Heq|]; [|by apply Hpn].
      assert (o' = o) as -> by (eapply queue_ptr_inj; eauto). by replace out' with out by congruence.
Qed.

Lemma requeue_inv E E' sr ak n s o out :
  sinv E sr ak n s -> live s !! o = Some out -> (length (o_attempts out) <= 1)%nat ->
  (forall x, x ∈ E -> x = o \/ x ∈ E') ->
  sinv E' sr ak n (requeueLocked s (o_chunk out)).
Proof.
  intros Hs Ho Hlen HE. pose proof (live_not_finished _ _ _ _ _ _ _ Hs Ho) as Hf.
  destruct (qi_live _ _ _ _ (si_queue _ _ _ _ _ Hs) _ _ Ho) as (c & Hc & Hco).
  unfold requeueLocked. rewrite (chunk_at_lookup _ _ _ Hc), Hco.
  destruct (pendingHas s o) eqn:Ep.
  - apply pendingHas_spec in Ep as (p & Hp & Hpo).
    pose proof (pending_alias _ _ _ _ _ _ _ _ Hs Ho Hp Hpo) as ->.
    destruct Hs. split; try done. destruct si_queue0 as [H1 H2 H3 H4 H5]. split; try done.
    intros o' out' Ho'. destruct (H5 o' out' Ho') as (? & He & ?). split; [done|]. split; [|done].
    intros Hn. destruct (He Hn) as [|Hin]; [by left|]. destruct (HE _ Hin) as [->|]; [left|by right].
    by replace out' with out by congruence.
  - assert (Hnp : forall q, q ∈ pending s -> offset_in (chunks s) q <> o).
    { intros q Hq He. enough (pendingHas s o = true) by congruence. apply pendingHas_spec. by exists q. }
    set (c' := set_urgent c true). set (s1 := with_chunk s (o_chunk out) c').
    assert (Hoff : forall q, offset_in (chunks s1) q = offset_in (chunks s) q).
    { intros q. by apply (offset_in_update (chunks s) (o_chunk out) c). }
    assert (Hsrt : StronglySorted Z.lt (map (offset_in (chunks s)) (insert_by_offset s1 (o_chunk out) (pending s)))).
    { rewrite <- (map_ext _ _ Hoff). apply insert_by_offset_sorted.
      - rewrite (map_ext _ _ Hoff). apply Hs.
      - intros q Hq. rewrite !Hoff, (offset_in_lookup _ _ _ Hc), Hco. by apply Hnp. }
    destruct Hs as [? ? ? Hst Hq ? Hled Hm Hkept ?]. split; cbn; try done.
    + apply (store_inv_update _ _ _ _ _ c); try done. by apply (st_res _ _ _ _ Hst _ _ Hc).
    + eapply queue_inv_requeue; eauto. apply insert_by_offset_perm.
    + eapply ledger_exact_ext; [|exact Hled]. intros w. symmetry. apply live_weight_ext.
      intros o' out' _. by apply (size_in_update _ _ c).
    + rewrite (reserved_update _ _ _ _ Hc). subst c'. cbn. by rewrite Z.sub_add.
    + intros p d Hp. rewrite insert_by_offset_perm. apply lookup_insert_Some in Hp as [[<- <-]|[_ Hp]].
      * left. constructor.
      * destruct (Hkept p d Hp) as [|]; [left; by constructor|by right].
    + by rewrite Hf.
Qed.

(** ** Lanes that finish, fail or write *)

(** The attempts of one chunk were pruned; if none is left the chunk returns to
    the ready set. *)
Lemma settle_inv E sr ak n s o out kept a t :
  sinv E sr ak n s -> live s !! o = Some out ->
  map a_id kept `sublist_of` map a_id (o_attempts out) ->
  ledger_exact a (fun w => others_weight s o w + attempts_weight w (out_size s out) kept) ->
  let s' := with_stats (with_live s (<[o := mkOutstanding (o_chunk out) kept]> (live s)) a) t in
  sinv E sr ak n (if len kept =? 0 then requeueLocked s' (o_chunk out) else s').
Proof.
  intros Hs Ho Hsub Ha s'. destruct (len kept =? 0) eqn:Ek; bool_to_prop.
  - apply len_zero_nil in Ek. subst kept.
    apply (requeue_inv (o :: E) E _ _ _ s' o (mkOutstanding (o_chunk out) [])).
    + apply (attempts_inv E); try done; [by apply list_subseteq_cons|]. left. constructor.
    + cbn. apply lookup_insert_eq.
    + cbn. lia.
    + intros x Hx. by apply elem_of_cons in Hx.
  - apply (attempts_inv E); try done. intros ->. by rewrite len_nil in Ek.
Qed.

Lemma ledger_split E sr ak n s o out :
  sinv E sr ak n s -> live s !! o = Some out ->
  ledger_exact (acct s) (fun w => others_weight s o w + attempts_weight w (out_size s out) (o_attempts out)).
Proof.
  intros Hs Ho. eapply ledger_exact_ext; [|apply (si_ledger _ _ _ _ _ Hs)]. intros w.
  by apply others_weight_split.
Qed.

Lemma out_size_nonneg s out : 0 <= out_size s out.
Proof. apply len_nonneg. Qed.
#[local] Hint Resolve out_size_nonneg others_weight_nonneg : go.

Lemma dropAttemptLocked_spec size_ lane id : forall l a kept a',
  dropAttemptLocked size_ l lane id a = Some (kept, a') ->
  exists l1 x l2, l = l1 ++ x :: l2 /\ kept = l1 ++ l2 /\ a_lane x = lane /\ a_id x = id /\
    a' = releaseLaneLocked a (a_lane x) size_ (negb (a_written x)).
Proof.
  induction l as [|x l IH]; intros a kept a' Hd; [done|]. cbn [dropAttemptLocked] in Hd.
  destruct (_ || _) eqn:E; bool_to_prop.
  - destruct (dropAttemptLocked size_ l lane id a) as [[k b]|] eqn:Ed; [|done]. injection Hd as <- <-.
    destruct (IH _ _ _ Ed) as (l1 & y & l2 & -> & -> & ? & ? & ?). by exists (x :: l1), y, l2.
  - injection Hd as <- <-. exists [], x, l. done.
Qed.

Lemma drop_exact a R n l1 x l2 :
  ledger_exact a (fun w => R w + attempts_weight w n (l1 ++ x :: l2)) -> 0 <= n ->
  (forall w, weight_nonneg w -> 0 <= R w) ->
  ledger_exact (releaseLaneLocked a (a_lane x) n (negb (a_written x)))
    (fun w => R w + attempts_weight w n (l1 ++ l2)).
Proof.
  intros Ha Hn HR. eapply ledger_exact_ext; [|apply (release_exact a _ x n Ha Hn)].
  - intros w. cbn beta. rewrite !attempts_weight_app, attempts_weight_cons. lia.
  - intros w Hw. rewrite !attempts_weight_app, attempts_weight_cons. specialize (HR w Hw).
    pose proof (attempts_weight_nonneg w n l1 Hw Hn). pose proof (attempts_weight_nonneg w n l2 Hw Hn). lia.
Qed.

Lemma Fail_inv E sr ak n s lane o id :
  sinv E sr ak n s -> sinv E sr ak n (Fail_attempt s lane o id).
Proof.
  intros Hs. unfold Fail_attempt. destruct (live s !! o) as [out|] eqn:Ho; [|done].
  destruct (dropAttemptLocked _ _ _ _ _) as [[kept a]|] eqn:Ed; [|done].
  apply dropAttemptLocked_spec in Ed as (l1 & x & l2 & Hl & -> & _ & _ & ->).
  apply settle_inv; [done|done| |].
  - rewrite Hl, !map_app. cbn. apply sublist_app; [done|]. by constructor.
  - apply drop_exact; [|auto with go..]. rewrite <- Hl. by eapply ledger_split.
Qed.

Lemma sublist_filter_ids (P : attempt -> bool) l :
  map a_id (filter (fun x => P x = false) l) `sublist_of` map a_id l.
Proof.
  induction l as [|x l IH]; [done|]. rewrite filter_cons. cbn [map].
  destruct (decide _); by constructor.
Qed.

(** Releasing the attempts a predicate picks. *)
Lemma sweep_spec E sr ak n s o out drop_ queued :
  sinv E sr ak n s -> live s !! o = Some out ->
  (forall x, x ∈ o_attempts out -> drop_ x = true -> queued x = negb (a_written x)) ->
  exists a, sweep_attempts drop_ queued (out_size s out) (o_attempts out) (acct s) =
      (filter (fun x => drop_ x = false) (o_attempts out), a) /\
    ledger_exact a (fun w => others_weight s o w +
      attempts_weight w (out_size s out) (filter (fun x => drop_ x = false) (o_attempts out))).
Proof.
  intros Hs Ho Hq.
  destruct (sweep_exact drop_ queued (out_size s out) (o_attempts out) (acct s) (others_weight s o))
    as [Hk He]; [by eapply ledger_split|auto with go|auto with go|done|].
  destruct (sweep_attempts _ _ _ _ _) as [kept a]. cbn in *. exists a. by rewrite Hk.
Qed.

Lemma retire_one_inv E sr ak n lane s o : sinv E sr ak n s -> sinv E sr ak n (retire_one lane s o).
Proof.
  intros Hs. unfold retire_one. destruct (live s !! o) as [out|] eqn:Ho; [|done].
  destruct (negb _); [done|]. unfold dropLaneAttemptsLocked.
  destruct (sweep_spec _ _ _ _ _ _ _ (fun x => a_lane x =? lane) (fun x => negb (a_written x)) Hs Ho)
    as (a & -> & Ha); [done|].
  apply settle_inv; [done|done|apply sublist_filter_ids|done].
Qed.

Lemma fold_left_inv {A B} (P : A -> Prop) (f : A -> B -> A) l :
  (forall a b, P a -> P (f a b)) -> forall a, P a -> P (fold_left f l a).
Proof. intros Hf. induction l as [|b l IH]; intros a Ha; [done|]. cbn. by apply IH, Hf. Qed.

(** Which offsets are outstanding does not depend on the lanes. *)
Lemma requeue_live s p : live (requeueLocked s p) = live s.
Proof. unfold requeueLocked. by destruct (pendingHas _ _). Qed.

Lemma retire_one_lookup lane s o k out :
  live (retire_one lane s o) !! k = Some out ->
  exists out0, live s !! k = Some out0 /\
    (out = out0 \/ o_attempts out = filter (fun x => (a_lane x =? lane) = false) (o_attempts out0)) /\
    (k = o -> forall x, x ∈ o_attempts out -> a_lane x <> lane).
Proof.
  unfold retire_one. destruct (live s !! o) as [out1|] eqn:Ho.
  2:{ intros Hk. exists out. split; [done|]. split; [by left|]. intros ->. congruence. }
  destruct (laneHasAttempt out1 lane) eqn:Eh; cbn [negb].
  2:{ intros Hk. exists out. split; [done|]. split; [by left|]. intros -> x Hx He.
      assert (out = out1) as -> by congruence.
      enough (laneHasAttempt out1 lane = true) by congruence. apply existsb_exists. exists x.
      rewrite <- list_elem_of_In. split; [done|]. by apply Z.eqb_eq. }
  unfold dropLaneAttemptsLocked.
  assert (Hsw : forall (q : attempt -> bool) m l a, fst (sweep_attempts (fun x => a_lane x =? lane) q m l a) =
    filter (fun x => (a_lane x =? lane) = false) l).
  { intros q m l. induction l as [|x l IH]; intros a; [done|]. cbn [sweep_attempts]. rewrite filter_cons.
    destruct (a_lane x =? lane) eqn:E; [rewrite decide_False by congruence; apply IH|].
    rewrite decide_True by done. specialize (IH a). destruct (sweep_attempts _ _ _ _ _). cbn in *. by rewrite IH. }
  specialize (Hsw (fun x => negb (a_written x)) (out_size s out1) (o_attempts out1) (acct s)).
  destruct (sweep_attempts _ _ _ _ _) as [kept a]. cbn [fst] in Hsw. subst kept.
  intros Hk. assert (Hk' : <[o := mkOutstanding (o_chunk out1)
    (filter (fun x => (a_lane x =? lane) = false) (o_attempts out1))]> (live s) !! k = Some out).
  { destruct (len _ =? 0); [by rewrite requeue_live in Hk|done]. }
  apply lookup_insert_Some in Hk' as [[<- <-]|[Hne Hk']].
  - exists out1. split; [done|]. split; [by right|]. intros _ x Hx. cbn in Hx.
    apply list_elem_of_filter in Hx as [Hx _]. lia.
  - exists out. split; [done|]. split; [by left|]. congruence.
Qed.

(** A lane the loop has visited everywhere carries nothing. *)
Lemma retire_fold_clear lane visit : forall s k out,
  live (fold_left (retire_one lane) visit s) !! k = Some out ->
  is_Some (live s !! k) /\
  ((k ∈ visit \/ forall out0, live s !! k = Some out0 -> forall x, x ∈ o_attempts out0 -> a_lane x <> lane) ->
   forall x, x ∈ o_attempts out -> a_lane x <> lane).
Proof.
  induction visit as [|o visit IH]; intros s k out Hk; cbn [fold_left] in Hk.
  - split; [by eexists|]. intros [Hin|Hall]; [by apply elem_of_nil in Hin|by apply Hall].
  - destruct (IH _ _ _ Hk) as ((out1 & H1) & Hcl).
    destruct (retire_one_lookup _ _ _ _ _ H1) as (out0 & H0 & Hsub & Ho).
    split; [by eexists|]. intros Hc. apply Hcl.
    destruct (decide (k = o)) as [->|Hne].
    { right. intros out' He. assert (out' = out1) as -> by congruence. by apply Ho. }
    destruct Hc as [Hin|Hall]; [left; by apply elem_of_cons in Hin as [|]|right].
    intros out' He x Hx. assert (out' = out1) as -> by congruence.
    apply (Hall out0 H0). destruct Hsub as [->|He']; [done|]. rewrite He' in Hx.
    by apply list_elem_of_filter in Hx as [_ Hx].
Qed.

Lemma live_weight_zero cs lv (w : weight) :
  (forall o out x n, lv !! o = Some out -> x ∈ o_attempts out -> w x n = 0) -> live_weight cs lv w = 0.
Proof.
  intros Hw. unfold live_weight. rewrite (msum_ext _ (fun _ _ => 0)); [apply msum_zero|].
  intros o out Ho. specialize (Hw o out). unfold attempts_weight.
  induction (o_attempts out) as [|x l IH]; [done|]. cbn. rewrite (Hw x) by (done || constructor).
  change (sumZ (map (fun y => w y (size_in cs (o_chunk out))) l) = 0). apply IH.
  intros y m _ Hy. apply Hw; [done|by constructor].
Qed.

Lemma count_of_delete m k k' : count_of (delete k m) k' = if k' =? k then 0 else count_of m k'.
Proof.
  unfold count_of. destruct (Z.eqb_spec k' k) as [->|Hne].
  - by rewrite lookup_delete_eq.
  - by rewrite lookup_delete_ne by done.
Qed.

Lemma live_keys_elem s k : k ∈ live_keys s <-> is_Some (live s !! k).
Proof.
  unfold live_keys. rewrite list_elem_of_fmap. split.
  - intros ([k' v] & -> & Hin). apply elem_of_map_to_list in Hin. cbn. by eexists.
  - intros [v Hv]. exists (k, v). split; [done|]. by apply elem_of_map_to_list.
Qed.

Lemma RetireLane_inv E sr ak n visit s lane :
  sinv E sr ak n s -> visit ≡ₚ live_keys s -> sinv E sr ak n (RetireLane visit s lane).
Proof.
  intros Hs Hv. unfold RetireLane.
  assert (Hs' : sinv E sr ak n (fold_left (retire_one lane) visit s)).
  { apply (fold_left_inv (sinv E sr ak n)); [|done]. intros. by apply retire_one_inv. }
  assert (Hclear : forall o out x, live (fold_left (retire_one lane) visit s) !! o = Some out ->
    x ∈ o_attempts out -> a_lane x <> lane).
  { intros o out x Ho Hx. destruct (retire_fold_clear _ _ _ _ _ Ho) as [Hsome Hc].
    apply Hc; [|done]. left. rewrite Hv. by apply live_keys_elem. }
  set (s1 := fold_left (retire_one lane) visit s) in *.
  destruct Hs' as [? ? ? ? ? ? Hled ? ? ?]. split; cbn; try done.
  destruct Hled as [Hl Ht]. split; cbn; [|done]. intros k. rewrite !count_of_delete.
  destruct (Z.eqb_spec k lane) as [->|]; [|apply Hl].
  rewrite !live_weight_zero; [done|..]; intros o out x m Ho Hx; specialize (Hclear o out x Ho Hx).
  - by apply w_queued_other.
  - by apply w_bytes_other.
  - by apply w_load_other.
Qed.

Lemma mark_written_spec lane id : forall l l',
  mark_written l lane id = Some l' ->
  exists l1 x l2, l = l1 ++ x :: l2 /\ a_lane x = lane /\ a_id x = id /\ a_written x = false /\
    l' = l1 ++ mkAttempt (a_id x) (a_lane x) (a_deadline x) (a_reliable x) true :: l2.
Proof.
  induction l as [|x l IH]; intros l' Hm; [done|]. cbn [mark_written] in Hm.
  destruct (_ || _) eqn:E.
  - destruct (mark_written l lane id) as [k|] eqn:Em; [|done]. injection Hm as <-.
    destruct (IH _ eq_refl) as (l1 & y & l2 & -> & ? & ? & ? & ->). by exists (x :: l1), y, l2.
  - bool_to_prop. injection Hm as <-. exists [], x, l. done.
Qed.

Lemma Wrote_inv E sr ak n s lane o id : sinv E sr ak n s -> sinv E sr ak n (Wrote s lane o id).
Proof.
  intros Hs. unfold Wrote. destruct (live s !! o) as [out|] eqn:Ho; [|done].
  destruct (mark_written _ _ _) as [l|] eqn:Em; [|done].
  apply mark_written_spec in Em as (l1 & x & l2 & Hl & Hlane & _ & Hw & ->).
  set (x' := mkAttempt _ _ _ _ true).
  apply (attempts_inv E E sr ak n s o out (l1 ++ x' :: l2) _ (s_stats s)); try done.
  - rewrite Hl, !map_app. done.
  - rewrite <- Hlane.
    pose proof (wrote_exact _ _ x x' (out_size s out) (ledger_split _ _ _ _ _ _ _ Hs Ho)) as He.
    eapply ledger_exact_ext; [|apply He; auto with go].
    + intros w. cbn beta. rewrite Hl, !attempts_weight_app, !attempts_weight_cons. lia.
    + rewrite Hl, attempts_weight_app, attempts_weight_cons, w_queued_same, Hw.
      pose proof (others_weight_nonneg s o (w_queued (a_lane x)) ltac:(auto with go)).
      pose proof (attempts_weight_nonneg (w_queued (a_lane x)) (out_size s out) l1
        ltac:(auto with go) ltac:(auto with go)).
      pose proof (attempts_weight_nonneg (w_queued (a_lane x)) (out_size s out) l2
        ltac:(auto with go) ltac:(auto with go)). lia.
  - intros Hn. destruct l1; done.
Qed.

(** ** Re-issuing *)

Lemma retires_written d x : retires d x = true -> a_written x = true /\ a_reliable x = false.
Proof. unfold retires. destruct (a_reliable x), (a_written x); cbn; by try destruct (_ =? _). Qed.

Lemma retire_spec E sr ak n s o out d :
  sinv E sr ak n s -> live s !! o = Some out ->
  exists a, retireUnreliableAttemptsLocked (out_size s out) (o_attempts out) d (acct s) =
      (filter (fun x => retires d x = false) (o_attempts out), a, existsb (retires d) (o_attempts out)) /\
    ledger_exact a (fun w => others_weight s o w +
      attempts_weight w (out_size s out) (filter (fun x => retires d x = false) (o_attempts out))).
Proof.
  intros Hs Ho. unfold retireUnreliableAttemptsLocked.
  destruct (sweep_spec _ _ _ _ _ _ _ (retires d) (fun _ => false) Hs Ho) as (a & -> & Ha); [|by eauto].
  intros x _ Hx. by apply retires_written in Hx as [-> _].
Qed.

Lemma reissue_below_inv E sr ak n offset acc key :
  sinv E sr ak n (fst acc) -> sinv E sr ak n (fst (reissue_below_one offset acc key)).
Proof.
  destruct acc as [s k]. cbn [fst]. intros Hs. unfold reissue_below_one.
  destruct (live s !! key) as [out|] eqn:Ho; [|done].
  destruct (_ || _); [done|]. destruct (pendingHas _ _); [done|].
  destruct (retire_spec _ _ _ _ _ _ _ 0 Hs Ho) as (a & -> & Ha).
  set (kept := filter _ _) in *.
  pose proof (settle_inv E sr ak n s key out kept a (s_stats s) Hs Ho
    ltac:(apply sublist_filter_ids) Ha) as Hset.
  destruct (existsb a_reliable kept) eqn:Er; cbn [fst].
  - destruct kept as [|x kept]; [done|]. exact Hset.
  - destruct (len kept =? 0); cbn [negb fst]; exact Hset.
Qed.

Lemma ReissueBelow_inv E sr ak n visit s offset :
  sinv E sr ak n s -> sinv E sr ak n (fst (ReissueUnacknowledgedBelow visit s offset)).
Proof.
  intros Hs. apply (fold_left_inv (fun acc => sinv E sr ak n (fst acc))); [|done].
  intros acc key. apply reissue_below_inv.
Qed.

(** The chunks a scan of [ReissueExpired] has picked: each has at most one
    attempt left, and only these may have none while they are not ready. *)
Definition candidates_ok (sr : bytes) (ak : gset Z) (n : Z) (acc : Scheduler * list Z) : Prop :=
  sinv (snd acc) sr ak n (fst acc) /\
  forall k, k ∈ snd acc -> exists out, live (fst acc) !! k = Some out /\ (length (o_attempts out) <= 1)%nat.

Lemma candidates_update sr ak n s l key out kept a l' :
  candidates_ok sr ak n (s, l) -> live s !! key = Some out ->
  map a_id kept `sublist_of` map a_id (o_attempts out) ->
  ledger_exact a (fun w => others_weight s key w + attempts_weight w (out_size s out) kept) ->
  l' = l /\ kept <> [] \/ l' = l ++ [key] /\ (length kept <= 1)%nat ->
  candidates_ok sr ak n (with_live s (<[key := mkOutstanding (o_chunk out) kept]> (live s)) a, l').
Proof.
  intros [Hs Hl] Ho Hsub Ha Hcase. cbn [fst snd] in *.
  assert (Hll : forall k, k ∈ l -> exists out', <[key := mkOutstanding (o_chunk out) kept]> (live s) !! k = Some out' /\
    (length (o_attempts out') <= 1)%nat).
  { intros k Hk. destruct (Hl k Hk) as (out' & Hk' & Hlen). destruct (decide (k = key)) as [->|].
    - eexists. split; [apply lookup_insert_eq|]. cbn. apply sublist_length in Hsub.
      rewrite !length_map in Hsub. assert (out' = out) as -> by congruence. lia.
    - exists out'. by rewrite lookup_insert_ne. }
  split; cbn [fst snd].
  - apply (attempts_inv l l' sr ak n s key out kept a (s_stats s)); try done.
    + destruct Hcase as [[-> _]|[-> _]]; [done|]. intros x Hx. apply elem_of_app. by left.
    + intros Hn. destruct Hcase as [[_ ?]|[-> _]]; [done|]. left. apply elem_of_app. right. constructor.
  - cbn [live with_live]. destruct Hcase as [[-> _]|[-> Hlen]]; [done|].
    intros k Hk. apply elem_of_app in Hk as [Hk|Hk]; [by apply Hll|].
    apply list_elem_of_singleton in Hk as ->. eexists. split; [apply lookup_insert_eq|done].
Qed.

Lemma filter_nil_existsb (P : attempt -> bool) l :
  l <> [] -> filter (fun x => P x = false) l = [] -> existsb P l = true.
Proof.
  destruct l as [|x l]; [done|]. intros _. rewrite filter_cons. cbn [existsb].
  destruct (P x) eqn:E; [done|]. by rewrite decide_True.
Qed.

Lemma collect_inv sr ak n now acc key :
  candidates_ok sr ak n acc -> candidates_ok sr ak n (collect_expired now acc key).
Proof.
  destruct acc as [s l]. intros Hc. unfold collect_expired.
  destruct (live s !! key) as [out|] eqn:Ho; [|done].
  destruct (_ || _) eqn:Esk; [done|]. bool_to_prop.
  destruct (retire_spec _ _ _ _ _ _ _ now (proj1 Hc) Ho) as (a & He & Ha). cbn [fst] in He, Ha. rewrite He.
  clear He. pose proof (sublist_filter_ids (retires now) (o_attempts out)) as Hsub.
  assert (Hne : o_attempts out <> []) by (intros Hn; by rewrite Hn, len_nil in *).
  pose proof (filter_nil_existsb (retires now) _ Hne) as Hnil.
  set (kept := filter _ _) in *. set (retired := existsb _ _) in *.
  assert (Hgo : forall l', l' = l /\ kept <> [] \/ l' = l ++ [key] /\ (length kept <= 1)%nat ->
    candidates_ok sr ak n (with_live s (<[key := mkOutstanding (o_chunk out) kept]> (live s)) a, l')).
  { intros l' Hl'. by apply (candidates_update sr ak n s l key out kept a l'). }
  destruct ((len kept =? 0) && retired) eqn:E1.
  { apply Hgo. right. bool_to_prop. split; [done|]. unfold len in *. lia. }
  assert (Hk : kept <> []).
  { intros Hk. rewrite (Hnil Hk), Hk, len_nil in E1. done. }
  split_ifs; bool_to_prop; apply Hgo; try (by left); right; (split; [done|]); unfold len in *; lia.
Qed.

(** The accounts do not look at deadlines. *)
Lemma ledger_deadline a R n x d l :
  ledger_exact a (fun w => R w + attempts_weight w n (x :: l)) ->
  ledger_exact a (fun w => R w + attempts_weight w n (set_deadline x d :: l)).
Proof. intros [H1 H2]. split; [|done]. intros lane. apply (H1 lane). Qed.

Lemma reissue_candidates_inv sr ak n now after : forall l s k r,
  candidates_ok sr ak n (s, l) ->
  sinv [] sr ak n (fst (fst (fold_left (reissue_candidate now after) l (s, k, r)))).
Proof.
  induction l as [|key l IH]; intros s k r [Hs Hl]; [done|]. cbn [fold_left fst snd] in *.
  destruct (Hl key ltac:(constructor)) as (out & Ho & Hlen).
  assert (Hl' : forall k, k ∈ l -> exists out, live s !! k = Some out /\ (length (o_attempts out) <= 1)%nat).
  { intros k' Hk'. apply Hl. by constructor. }
  unfold reissue_candidate at 2. rewrite Ho.
  destruct (_ && _ && _) eqn:Eb.
  { apply IH. split; [|done]. cbn [fst snd]. destruct Hs as [? ? ? ? [H1 H2 H3 H4 H5] ? ? ? ? ?].
    split; try done. split; try done. intros o' out' Ho'. destruct (H5 o' out' Ho') as (? & He & ?).
    split; [done|]. split; [|done]. intros Hn. destruct (He Hn) as [|Hin]; [by left|].
    apply elem_of_cons in Hin as [->|]; [|by right]. assert (out' = out) as -> by congruence.
    by rewrite Hn in Eb. }
  apply IH. split; cbn [fst snd].
  - destruct (o_attempts out) as [|x rest] eqn:Ea.
    + apply (requeue_inv (key :: l) l _ _ _ _ key); try done; [by rewrite Ea|].
      intros y Hy. by apply elem_of_cons in Hy.
    + set (kept := set_deadline x (now + after) :: rest).
      set (s' := with_live s (<[key := mkOutstanding (o_chunk out) kept]> (live s)) (acct s)).
      apply (requeue_inv (key :: l) l _ _ _ s' key (mkOutstanding (o_chunk out) kept)).
      * apply (attempts_inv (key :: l) (key :: l) sr ak n s key out kept (acct s) (s_stats s)); try done.
        -- by rewrite Ea.
        -- apply ledger_deadline. rewrite <- Ea. by eapply ledger_split.
      * cbn. apply lookup_insert_eq.
      * done.
      * intros y Hy. by apply elem_of_cons in Hy.
  - intros k' Hk'. rewrite requeue_live. destruct (Hl' k' Hk') as (out' & Ho' & Hlen').
    destruct (o_attempts out) as [|x rest] eqn:Ea; [by exists out'|]. cbn [live with_live].
    destruct (decide (k' = key)) as [->|Hne].
    + eexists. split; [apply lookup_insert_eq|done].
    + exists out'. by rewrite lookup_insert_ne.
Qed.

Lemma ReissueExpired_inv sr ak n visit s ans :
  sinv [] sr ak n s -> sinv [] sr ak n (fst (ReissueExpired visit s ans)).
Proof.
  intros Hs. unfold ReissueExpired. destruct (_ <=? 0); [done|].
  assert (Hc : candidates_ok sr ak n (fold_left (collect_expired (ans_Now ans)) visit (s, []))).
  { apply (fold_left_inv (candidates_ok sr ak n)); [intros; by apply collect_inv|].
    split; [done|]. intros k Hk. by apply elem_of_nil in Hk. }
  destruct (fold_left _ visit (s, [])) as [s1 l] eqn:Ef.
  pose proof (reissue_candidates_inv sr ak n (ans_Now ans) (retransmitAfter ans) (merge_sort Z.le l) s1 0 0) as Hr.
  destruct (fold_left _ _ (s1, 0, 0)) as [[s2 k] r]. apply Hr. destruct Hc as [Hs1 Hl]. split; cbn [fst snd] in *.
  - eapply sinv_weaken; [exact Hs1|]. intros x. by rewrite merge_sort_Permutation.
  - intros x Hx. apply Hl. by rewrite merge_sort_Permutation in Hx.
Qed.

(** ** Handing out work *)

(** Whether a lane already carries a ready chunk in a form that will arrive or
    fail. *)
Definition carried (s : Scheduler) (lane p : Z) : bool :=
  match live s !! offset_in (chunks s) p with
  | Some out => laneHasReliableAttempt out lane
  | None => false
  end.

Definition room (s : Scheduler) (ans : answers) (lane windowBytes p : Z) : bool :=
  hasRoomLocked s ans lane windowBytes (size_in (chunks s) p) || c_urgent (chunk_at s p).

(** The scan takes the first chunk the lane does not carry, past chunks it
    does. *)
Lemma take_scan_spec s ans lane wb : forall l p rest,
  take_scan s ans lane wb l = Some (p, rest) ->
  exists l1 l2, l = l1 ++ p :: l2 /\ rest = l1 ++ l2 /\
    Forall (fun q => carried s lane q = true) l1 /\ carried s lane p = false /\ room s ans lane wb p = true.
Proof.
  induction l as [|q l IH]; intros p rest Ht; [done|]. cbn [take_scan] in Ht.
  destruct (_ && _) eqn:Er; [done|].
  change (match live s !! c_Offset (chunk_at s q) with Some out => laneHasReliableAttempt out lane | None => false end)
    with (carried s lane q) in Ht.
  destruct (carried s lane q) eqn:Ec.
  - destruct (take_scan s ans lane wb l) as [[q' l']|] eqn:Es; [|done]. injection Ht as <- <-.
    destruct (IH _ _ eq_refl) as (l1 & l2 & -> & -> & Hl1 & ? & ?). exists (q :: l1), l2.
    repeat split; try done. by constructor.
  - injection Ht as <- <-. exists [], l. repeat split; try done. unfold room, size_in. apply andb_false_iff in Er.
    apply orb_true_iff. destruct Er as [Er|Er]; bool_to_prop; [by left|by right].
Qed.

Lemma next_id_small n : 0 <= n -> n + 1 < 2 ^ 64 -> next_id n = n + 1.
Proof.
  intros H0 H1. unfold next_id. rewrite wrap_small by lia. by replace (n + 1 =? 0) with false by lia.
Qed.

Lemma queue_inv_take E cs l1 p l2 lv c x :
  queue_inv E cs (l1 ++ p :: l2) lv -> cs !! p = Some c ->
  (forall q d, cs !! q = Some d -> c_Offset d = c_Offset c -> q = p) ->
  (forall q, q ∈ l1 -> is_Some (lv !! offset_in cs q)) ->
  let out := default (mkOutstanding p []) (lv !! c_Offset c) in
  queue_inv E (<[p := set_urgent c false]> cs) (l1 ++ l2)
    (<[c_Offset c := mkOutstanding (o_chunk out) (o_attempts out ++ [x])]> lv).
Proof.
  intros Hq Hc Hinj Hl1 out. pose proof Hq as [H1 H2 H3 H4 H5].
  assert (Hout : o_chunk out = p /\ (length (o_attempts out) <= 1)%nat).
  { subst out. destruct (lv !! c_Offset c) as [out|] eqn:Ho; cbn; [|by split; [|lia]].
    destruct (H1 _ _ Ho) as (d & Hd & Hdo). assert (Hp : o_chunk out = p) by (by apply (Hinj _ d)).
    split; [done|]. apply (H5 _ _ Ho). rewrite Hp. apply elem_of_app. right. constructor. }
  destruct Hout as [Hop Hoa]. clearbody out.
  assert (Hnin : forall q, q ∈ l1 ++ l2 -> offset_in cs q <> c_Offset c).
  { rewrite map_app in H3. cbn [map] in H3. apply StronglySorted_app in H3 as (Hlt & _ & Hs2).
    inversion_clear Hs2 as [|? ? _ Hf]. rewrite Forall_forall in Hf. rewrite (offset_in_lookup _ _ _ Hc) in *.
    intros q Hin. apply elem_of_app in Hin as [Hin|Hin].
    - enough (offset_in cs q < c_Offset c) by lia.
      apply Hlt; [apply list_elem_of_fmap; by exists q|constructor].
    - enough (c_Offset c < offset_in cs q) by lia. apply Hf, list_elem_of_fmap. by exists q. }
  assert (Hsub : forall q, q ∈ l1 ++ l2 -> q ∈ l1 ++ p :: l2).
  { intros q. rewrite !elem_of_app, elem_of_cons. tauto. }
  split.
  - intros o out' Ho. apply lookup_insert_Some in Ho as [[<- <-]|[Hne Ho]]; cbn.
    + exists (set_urgent c false). rewrite Hop, lookup_insert_eq. done.
    + destruct (H1 _ _ Ho) as (d & Hd & Hdo). exists d. rewrite lookup_insert_ne; [done|]. congruence.
  - intros q Hin. pose proof (Hnin q Hin) as Hne. destruct (H2 q (Hsub q Hin)) as (d & Hd & Hu).
    rewrite (offset_in_lookup _ _ _ Hd) in Hne. exists d. rewrite !lookup_insert_ne by congruence. done.
  - rewrite (offsets_update cs p c) by done. eapply StronglySorted_sublist; [|exact H3].
    rewrite !map_app. apply sublist_app; [done|]. cbn. by constructor.
  - intros q o Hin. rewrite (offset_in_update cs p c) by done. intros Hn Ho.
    pose proof (Hnin q Hin) as Hne. rewrite lookup_insert_ne in Hn by done.
    apply lookup_insert_is_Some' in Ho as [<-|Ho]; [|by apply H4; [apply Hsub| |]].
    destruct (lv !! c_Offset c) as [out0|] eqn:Elv; [apply H4; [by apply Hsub|done|by eexists]|].
    apply elem_of_app in Hin as [Hin|Hin].
    { destruct (Hl1 q Hin) as [? Hs]. congruence. }
    rewrite map_app in H3. cbn [map] in H3. apply StronglySorted_app in H3 as (_ & _ & Hs2).
    inversion_clear Hs2 as [|? ? _ Hf]. rewrite Forall_forall in Hf. rewrite (offset_in_lookup _ _ _ Hc) in Hf.
    apply Hf, list_elem_of_fmap. by exists q.
  - intros o out' Ho. apply lookup_insert_Some in Ho as [[<- <-]|[Hne Ho]]; cbn.
    + rewrite length_app. cbn. split; [lia|]. split; [intros Hn; by destruct (o_attempts out)|].
      rewrite Hop. intros Hin. exfalso. apply (Hnin p Hin), (offset_in_lookup _ _ _ Hc).
    + destruct (H5 _ _ Ho) as (Hl & He & Hp). split; [done|]. split.
      * intros Hn. destruct (He Hn) as [Hin|]; [left|by right].
        apply elem_of_app in Hin as [|Hin]; [apply elem_of_app; by left|].
        apply elem_of_cons in Hin as [Hpq|]; [|apply elem_of_app; by right].
        destruct (H1 _ _ Ho) as (d & Hd & Hdo). congruence.
      * intros Hin. by apply Hp, Hsub.
Qed.

Lemma ids_inv_take n lv o out x :
  ids_inv n lv -> (forall out', lv !! o = Some out' -> o_attempts out' = o_attempts out) ->
  (lv !! o = None -> o_attempts out = []) -> 0 <= n -> a_id x = n + 1 ->
  ids_inv (n + 1) (<[o := mkOutstanding (o_chunk out) (o_attempts out ++ [x])]> lv).
Proof.
  intros [Hr Hn He] Hsome Hnone H0 Hx.
  assert (Hold : forall o' out' y, <[o := mkOutstanding (o_chunk out) (o_attempts out ++ [x])]> lv !! o' = Some out' ->
    y ∈ o_attempts out' -> (y = x /\ o' = o) \/ exists out0, lv !! o' = Some out0 /\ y ∈ o_attempts out0).
  { intros o' out' y Ho' Hy. apply lookup_insert_Some in Ho' as [[<- <-]|[_ Ho']]; [|by eauto].
    cbn in Hy. apply elem_of_app in Hy as [Hy|Hy].
    - destruct (lv !! o) as [out0|] eqn:Elv; [|rewrite (Hnone eq_refl) in Hy; by apply elem_of_nil in Hy].
      right. exists out0. by rewrite (Hsome out0 eq_refl).
    - apply list_elem_of_singleton in Hy. by left. }
  split.
  - intros o' out' y Ho' Hy. destruct (Hold _ _ _ Ho' Hy) as [[-> ->]|(out0 & H & Hy')]; [lia|].
    specialize (Hr _ _ _ H Hy'). lia.
  - intros o' out' Ho'. apply lookup_insert_Some in Ho' as [[<- <-]|[_ Ho']]; [|by eapply Hn].
    cbn. rewrite map_app. cbn. apply NoDup_app.
    destruct (lv !! o) as [out0|] eqn:Elv; [|rewrite (Hnone eq_refl); cbn].
    + rewrite <- (Hsome out0 eq_refl). split; [by eapply Hn|]. split; [|apply NoDup_singleton].
      intros i Hi Hi'. apply list_elem_of_singleton in Hi'. apply list_elem_of_fmap in Hi as (y & -> & Hy).
      specialize (Hr _ _ _ Elv Hy). lia.
    + split; [constructor|]. split; [|apply NoDup_singleton]. intros i Hi. by apply elem_of_nil in Hi.
  - intros o1 out1 x1 o2 out2 x2 Ho1 Ho2 Hx1 Hx2 Hid.
    destruct (Hold _ _ _ Ho1 Hx1) as [[-> ->]|(d1 & H1 & Hy1)], (Hold _ _ _ Ho2 Hx2) as [[-> ->]|(d2 & H2 & Hy2)].
    + done.
    + specialize (Hr _ _ _ H2 Hy2). lia.
    + specialize (Hr _ _ _ H1 Hy1). lia.
    + by apply (He o1 d1 x1 o2 d2 x2).
Qed.

Lemma live_weight_take cs lv o p x w out :
  out = default (mkOutstanding p []) (lv !! o) ->
  live_weight cs (<[o := mkOutstanding (o_chunk out) (o_attempts out ++ [x])]> lv) w =
  live_weight cs lv w + w x (size_in cs (o_chunk out)).
Proof.
  intros ->. destruct (lv !! o) as [out|] eqn:Ho; cbn [default].
  - unfold live_weight, default, id. rewrite (msum_update _ _ _ _ _ Ho). cbn [o_chunk o_attempts].
    rewrite attempts_weight_app, attempts_weight_cons.
    change (attempts_weight w (size_in cs (o_chunk out)) []) with 0. lia.
  - unfold live_weight. rewrite msum_insert by done. cbn [o_chunk o_attempts app].
    rewrite attempts_weight_cons. change (attempts_weight w (size_in cs p) []) with 0. lia.
Qed.

Lemma pending_not_finished E sr ak n s p :
  sinv E sr ak n s -> p ∈ pending s -> finished s = false.
Proof.
  intros Hs Hp. destruct (finished s) eqn:Ef; [|done].
  pose proof (si_finished _ _ _ _ _ Hs Ef) as Hd. apply doneLocked_spec in Hd as (_ & He & _).
  rewrite He in Hp. by apply elem_of_nil in Hp.
Qed.

Lemma out_default_chunk E sr ak n s p c :
  sinv E sr ak n s -> p ∈ pending s -> chunks s !! p = Some c ->
  o_chunk (default (mkOutstanding p []) (live s !! c_Offset c)) = p.
Proof.
  intros Hs Hp Hc. destruct (live s !! c_Offset c) as [out|] eqn:Ho; [|done]. cbn. symmetry.
  apply (pending_alias _ _ _ _ _ _ _ _ Hs Ho Hp). by apply offset_in_lookup.
Qed.

Lemma takeReady_inv E sr ak n s ans lane wb ch s' :
  sinv E sr ak n s -> nextAttempt s + 1 < 2 ^ 64 ->
  takeReadyLocked s ans lane wb = Some (ch, s') -> sinv E sr ak n s'.
Proof.
  intros Hs Hid Ht. unfold takeReadyLocked in Ht.
  destruct (take_scan s ans lane wb (pending s)) as [[p rest]|] eqn:Es; [|done].
  apply take_scan_spec in Es as (l1 & l2 & Hp & -> & Hl1 & _ & _).
  assert (Hin : p ∈ pending s) by (rewrite Hp; apply elem_of_app; right; constructor).
  destruct (qi_pending _ _ _ _ (si_queue _ _ _ _ _ Hs) _ Hin) as (c & Hc & _).
  pose proof (pending_not_finished _ _ _ _ _ _ Hs Hin) as Hf.
  pose proof (out_default_chunk _ _ _ _ _ _ _ Hs Hin Hc) as Hop.
  rewrite (chunk_at_lookup _ _ _ Hc) in Ht. injection Ht as _ <-.
  pose proof (st_inj _ _ _ _ (si_store _ _ _ _ _ Hs)) as Hinj.
  destruct Hs as [Hcl Hcfg Hnx Hst Hq [Hids Hna] Hled Hm Hkept Hfin]. rewrite Hp in Hq.
  rewrite (next_id_small (nextAttempt s)) by lia.
  set (x := mkAttempt _ _ _ _ _).
  set (out := default _ _) in *.
  assert (Hq' : queue_inv E (<[p := set_urgent c false]> (chunks s)) (l1 ++ l2)
    (<[c_Offset c := mkOutstanding (o_chunk out) (o_attempts out ++ [x])]> (live s))).
  { apply queue_inv_take; try done.
    - intros q d Hd He. by apply (Hinj q d p c).
    - intros q Hq1. rewrite Forall_forall in Hl1. specialize (Hl1 q Hq1). unfold carried in Hl1.
      destruct (live s !! offset_in (chunks s) q); [by eexists|done]. }
  assert (Hst' : store_inv sr (eof s) (<[p := set_urgent c false]> (chunks s)) (next_address s)).
  { apply (store_inv_update _ _ _ _ _ c); try done. by apply (st_res _ _ _ _ Hst _ _ Hc). }
  assert (Hlw : forall w, live_weight (<[p := set_urgent c false]> (chunks s))
      (<[c_Offset c := mkOutstanding (o_chunk out) (o_attempts out ++ [x])]> (live s)) w =
    live_weight (chunks s) (live s) w + w x (len (c_Data c))).
  { intros w. rewrite <- (size_in_lookup _ _ _ Hc), <- Hop.
    rewrite <- (live_weight_take (chunks s) (live s) (c_Offset c) p x w out) by done.
    apply live_weight_ext. intros o' out' _. by apply (size_in_update _ _ c); [rewrite Hop|]. }
  pose proof (live_total_bound _ _ _ _ _ _ _ Hst' Hq') as Hb. rewrite Hlw in Hb.
  change (w_total x (len (c_Data c))) with (len (c_Data c)) in Hb.
  pose proof (len_nonneg (c_Data c)) as Hlen. destruct Hnx as [Hnx1 Hnx2].
  split; cbn [s_closed s_cfg s_nextOffset eof chunks next_address pending live nextAttempt acct s_memory finished]; try done.
  - split; [|lia]. apply ids_inv_take; try done || lia.
    + intros out' Ho. subst out. by rewrite Ho.
    + intros Ho. subst out. by rewrite Ho.
  - eapply ledger_exact_ext; [intros w; symmetry; apply Hlw|].
    apply (charge_exact _ _ x); try done.
    + intros k. split; [apply live_weight_nonneg; auto with go|]. apply live_weight_le. intros. by apply w_bytes_le_total.
    + intros k. split; [apply live_weight_nonneg; auto with go|]. apply live_weight_le.
      intros y m Hm0. unfold w_queued, w_total. split_ifs; lia.
    + pose proof (live_weight_nonneg (chunks s) (live s) w_total ltac:(auto with go)).
      pow2_eval. lia.
  - rewrite (reserved_update _ _ _ _ Hc). cbn. by rewrite Z.sub_add.
  - intros q d Hd. apply lookup_insert_Some in Hd as [[<- <-]|[Hne Hd]].
    + right. left. cbn. by rewrite lookup_insert_eq.
    + destruct (Hkept q d Hd) as [Hin'|[Hl|]]; [| |by do 2 right].
      * left. rewrite Hp in Hin'. apply elem_of_app in Hin' as [|Hin']; [apply elem_of_app; by left|].
        apply elem_of_cons in Hin' as [|]; [congruence|apply elem_of_app; by right].
      * right. left. apply lookup_insert_is_Some'. by right.
  - by rewrite Hf.
Qed.

Lemma Next_inv E sr ak n s ans ctx lane wb c s' :
  sinv E sr ak n s -> nextAttempt s + 1 < 2 ^ 64 ->
  Next_pass s ans ctx lane wb = (NextChunk c, s') -> sinv E sr ak n s'.
Proof.
  intros Hs Hid Hn. unfold Next_pass in Hn. rewrite (si_closed _ _ _ _ _ Hs) in Hn.
  destruct ctx; [done|]. destruct (_ <? _); [|done].
  destruct (takeReadyLocked s ans lane wb) as [[ch s1]|] eqn:Et.
  - injection Hn as <- <-. by eapply takeReady_inv.
  - destruct (finishedLocked s); [done|]. by destruct (doneLocked s).
Qed.

(** ** Completion and closing *)

Definition clear_reservation (c : Chunk) : Chunk :=
  mkChunk (c_Offset c) (c_Data c) (c_Final c) (c_urgent c) (c_attempt c) 0.

(** Releasing a chunk gives its reservation back, and never panics while the
    budget covers what the flow holds. *)
Lemma releaseChunk_spec s p c n :
  chunks s !! p = Some c -> 0 <= c_reservation c <= reserved (chunks s) -> 0 <= n ->
  mem_inv (s_memory s) (n + reserved (chunks s)) ->
  exists m, releaseChunkLocked s p = Some (with_memory (with_chunk s p (clear_reservation c)) m) /\
    mem_inv m (n + reserved (<[p := clear_reservation c]> (chunks s))).
Proof.
  intros Hc Hr Hn Hm. unfold releaseChunkLocked. rewrite (chunk_at_lookup _ _ _ Hc).
  rewrite (reserved_update _ _ _ _ Hc). cbn [c_reservation clear_reservation].
  destruct (Z.eqb_spec (c_reservation c) 0) as [E0|E0].
  - exists (s_memory s). rewrite E0, Z.sub_0_r, Z.add_0_r. split; [|done].
    replace (clear_reservation c) with c by (destruct c; cbn in *; by subst). destruct s. cbn in *.
    unfold with_memory, with_chunk. cbn. by rewrite insert_id.
  - destruct (s_memory s) as [b|]; cbn in *; [|by exists None].
    destruct Hm as [Hwf Hu]. replace (c_reservation c <=? 0) with false by lia.
    replace (c_reservation c >? used b) with false by lia.
    eexists. split; [done|]. unfold mem_inv, Budget_wf in *. cbn. lia.
Qed.

Lemma remove_pending_spec s o l r l' :
  remove_pending s o l = (r, l') ->
  (r = None /\ l' = l /\ forall q, q ∈ l -> offset_in (chunks s) q <> o) \/
  (exists p l1 l2, r = Some p /\ l = l1 ++ p :: l2 /\ l' = l1 ++ l2 /\ offset_in (chunks s) p = o).
Proof.
  revert r l'. induction l as [|q l IH]; intros r l' Hr; cbn [remove_pending] in Hr.
  { injection Hr as <- <-. left. split; [done|]. split; [done|]. intros q Hq. by apply elem_of_nil in Hq. }
  change (c_Offset (chunk_at s q)) with (offset_in (chunks s) q) in Hr.
  destruct (Z.eqb_spec (offset_in (chunks s) q) o) as [He|He]; cbn [negb] in Hr.
  - injection Hr as <- <-. right. by exists q, [], l.
  - destruct (remove_pending s o l) as [r0 l0]. injection Hr as <- <-.
    destruct (IH _ _ eq_refl) as [(-> & -> & Hall)|(p & l1 & l2 & -> & -> & -> & Hp)].
    + left. split; [done|]. split; [done|]. intros x Hx. apply elem_of_cons in Hx as [->|]; [done|by apply Hall].
    + right. by exists p, (q :: l1), l2.
Qed.

(** What is ready after a removal. *)
Lemma remove_pending_elem s o l r l' :
  StronglySorted Z.lt (map (offset_in (chunks s)) l) -> remove_pending s o l = (r, l') ->
  l' `sublist_of` l /\ (forall q, q ∈ l' <-> q ∈ l /\ offset_in (chunks s) q <> o) /\
  (forall p, r = Some p -> p ∈ l /\ offset_in (chunks s) p = o) /\
  (r = None -> l' = l).
Proof.
  intros Hs Hr. destruct (remove_pending_spec _ _ _ _ _ Hr) as [(-> & -> & Hall)|(p & l1 & l2 & -> & -> & -> & Hp)].
  - split; [done|]. split; [|done]. intros q. split; [|by intros []]. intros Hq. split; [done|by apply Hall].
  - split; [apply sublist_app; [done|by constructor]|]. split; [|split; [|done]].
    + rewrite map_app in Hs. cbn [map] in Hs. apply StronglySorted_app in Hs as (Hlt & _ & Hs2).
      inversion_clear Hs2 as [|? ? _ Hf]. rewrite Forall_forall in Hf. rewrite Hp in *.
      intros q. rewrite !elem_of_app, elem_of_cons. split.
      * intros [Hq|Hq]; (split; [tauto|]).
        -- enough (offset_in (chunks s) q < o) by lia.
           apply Hlt; [apply list_elem_of_fmap; by exists q|constructor].
        -- enough (o < offset_in (chunks s) q) by lia. apply Hf, list_elem_of_fmap. by exists q.
      * intros [[|[->|]] Hne]; tauto.
    + intros p' [= <-]. split; [|done]. apply elem_of_app. right. constructor.
Qed.

Lemma queue_inv_complete E cs pend pend' lv o :
  queue_inv E cs pend lv -> pend' `sublist_of` pend ->
  (forall q, q ∈ pend' <-> q ∈ pend /\ offset_in cs q <> o) ->
  queue_inv E cs pend' (delete o lv).
Proof.
  intros [H1 H2 H3 H4 H5] Hsub Hin. split.
  - intros o' out Ho. apply lookup_delete_Some in Ho as [_ Ho]. by apply H1.
  - intros p Hp. apply Hin in Hp as [Hp Hne]. destruct (H2 p Hp) as (c & Hc & Hu). exists c.
    rewrite (offset_in_lookup _ _ _ Hc) in Hne. by rewrite lookup_delete_ne by congruence.
  - eapply StronglySorted_sublist; [|exact H3]. by apply (fmap_sublist (offset_in cs)).
  - intros p o' Hp Hn Ho. apply Hin in Hp as [Hp Hne]. rewrite lookup_delete_ne in Hn by congruence.
    apply H4; [done|done|]. destruct Ho as [v Hv]. apply lookup_delete_Some in Hv as [_ Hv]. by eexists.
  - intros o' out Ho. apply lookup_delete_Some in Ho as [Hne Ho].
    destruct (H5 _ _ Ho) as (Hl & He & Hp). split; [done|]. destruct (H1 _ _ Ho) as (c & Hc & Hco). split.
    + intros Hn. destruct (He Hn) as [Hp'|]; [left|by right]. apply Hin. split; [done|].
      rewrite (offset_in_lookup _ _ _ Hc). congruence.
    + intros Hp'. apply Hin in Hp' as [Hp' _]. by apply Hp.
Qed.

Lemma ids_inv_delete k lv o : ids_inv k lv -> ids_inv k (delete o lv).
Proof.
  intros [H1 H2 H3]. split.
  - intros o' out x Ho. apply lookup_delete_Some in Ho as [_ Ho]. by eapply H1.
  - intros o' out Ho. apply lookup_delete_Some in Ho as [_ Ho]. by eapply H2.
  - intros o1 out1 x1 o2 out2 x2 Ho1 Ho2. apply lookup_delete_Some in Ho1 as [_ Ho1].
    apply lookup_delete_Some in Ho2 as [_ Ho2]. by eapply H3.
Qed.

Lemma queue_inv_update E cs pend lv p c c' :
  queue_inv E cs pend lv -> cs !! p = Some c -> c_Offset c' = c_Offset c -> c_urgent c' = c_urgent c ->
  queue_inv E (<[p := c']> cs) pend lv.
Proof.
  intros [H1 H2 H3 H4 H5] Hc Ho Hu. split.
  - intros o out Hout. destruct (H1 o out Hout) as (d & Hd & Hdo). destruct (decide (o_chunk out = p)) as [He|].
    + exists c'. rewrite He, lookup_insert_eq. split; [done|]. congruence.
    + exists d. by rewrite lookup_insert_ne.
  - intros q Hq. destruct (H2 q Hq) as (d & Hd & Hdu). destruct (decide (q = p)) as [->|].
    + exists c'. rewrite lookup_insert_eq, Ho, Hu. split; [done|]. by replace c with d by congruence.
    + exists d. by rewrite lookup_insert_ne.
  - by rewrite (offsets_update cs p c).
  - intros q o. rewrite (offset_in_update cs p c) by done. apply H4.
  - done.
Qed.

Lemma reservation_le sr e cs n p c :
  store_inv sr e cs n -> cs !! p = Some c -> 0 <= c_reservation c <= reserved cs.
Proof.
  intros Hs Hc. split; [by apply (st_res _ _ _ _ Hs _ _ Hc)|].
  apply (msum_entry_le (fun _ c => c_reservation c) cs p c); [|done]. apply Hs.
Qed.

(** The state [Complete] leaves: the chunk at [o] is in neither set, its attempts
    are released and its reservation is back. *)
Lemma complete_core sr ak n s o pend' a t p c m fin :
  sinv [] sr ak n s -> chunks s !! p = Some c -> c_Offset c = o ->
  pend' `sublist_of` pending s ->
  (forall q, q ∈ pend' <-> q ∈ pending s /\ offset_in (chunks s) q <> o) ->
  ledger_exact a (others_weight s o) ->
  mem_inv m (n + reserved (<[p := clear_reservation c]> (chunks s))) ->
  let s' := mkScheduler (s_cfg s) (s_nextOffset s) (<[p := clear_reservation c]> (chunks s)) (next_address s) pend'
    (delete o (live s)) a (nextAttempt s) (eof s) (srcErr s) (s_closed s) fin t m in
  (fin = true -> doneLocked s' = true) -> sinv [] sr ({[o]} ∪ ak) n s'.
Proof.
  intros Hs Hc Hco Hsub Hin Ha Hm s' Hfin. destruct Hs as [? ? ? Hst Hq [Hids ?] ? [Hn _] Hkept _].
  split; cbn; try done.
  - apply (store_inv_update _ _ _ _ _ c); done || cbn; lia.
  - eapply queue_inv_update; [by eapply queue_inv_complete|done..].
  - split; [|done]. by apply ids_inv_delete.
  - eapply ledger_exact_ext; [|exact Ha]. intros w. symmetry. apply live_weight_ext.
    intros. by apply (size_in_update _ _ c).
  - intros q d Hd. apply lookup_insert_Some in Hd as [[<- <-]|[Hne Hd]].
    + do 2 right. cbn. split; [set_solver|done].
    + assert (Hno : c_Offset d <> o).
      { intros He. apply Hne. apply (st_inj _ _ _ _ Hst p c q d); congruence. }
      destruct (Hkept q d Hd) as [Hp|[Hl|[Hk ?]]].
      * left. apply Hin. split; [done|]. by rewrite (offset_in_lookup _ _ _ Hd).
      * right. left. by rewrite lookup_delete_ne.
      * do 2 right. split; [set_solver|done].
Qed.

Lemma signal_eq s : signalIfDoneLocked s = with_end s (eof s) (srcErr s) (if doneLocked s then true else finished s).
Proof. unfold signalIfDoneLocked. destruct (doneLocked s); [done|]. by destruct s. Qed.

Lemma acked_weaken E sr ak ak' n s : sinv E sr ak n s -> ak ⊆ ak' -> sinv E sr ak' n s.
Proof.
  intros [? ? ? ? ? ? ? ? Hk ?] Hsub. split; try done. intros p c Hp.
  destruct (Hk p c Hp) as [|[|[]]]; [by left|by right; left|do 2 right; split; [by apply Hsub|done]].
Qed.

Lemma filter_none (l : list attempt) : filter (fun _ => true = false) l = [].
Proof. induction l as [|x l IH]; [done|]. rewrite filter_cons. by destruct (decide _). Qed.

Lemma Complete_inv sr ak n s lane o :
  sinv [] sr ak n s ->
  exists s', Complete s lane o = Some s' /\ sinv [] sr ({[o]} ∪ ak) n s'.
Proof.
  intros Hs. unfold Complete, removePendingLocked.
  pose proof (qi_sorted _ _ _ _ (si_queue _ _ _ _ _ Hs)) as Hsort.
  pose proof (si_store _ _ _ _ _ Hs) as Hst.
  destruct (live s !! o) as [out|] eqn:Ho.
  - destruct (sweep_spec _ _ _ _ _ _ _ (fun _ => true) (fun x => negb (a_written x)) Hs Ho) as (a & -> & Ha); [done|].
    assert (Ha' : ledger_exact a (others_weight s o)).
    { eapply ledger_exact_ext; [|exact Ha]. intros w. cbn beta.
      rewrite filter_none. change (attempts_weight w (out_size s out) []) with 0. lia. }
    set (s1 := with_stats _ _).
    change (remove_pending s1 o (pending s1)) with (remove_pending s1 o (pending s)).
    destruct (remove_pending s1 o (pending s)) as [r l'] eqn:Er.
    apply remove_pending_elem in Er as (Hsub & Hin & _ & _); [|done].
    destruct (qi_live _ _ _ _ (si_queue _ _ _ _ _ Hs) _ _ Ho) as (c & Hc & Hco).
    pose proof (reservation_le _ _ _ _ _ _ Hst Hc) as Hres. destruct (si_mem _ _ _ _ _ Hs) as [Hn Hm].
    destruct (releaseChunk_spec (with_pending s1 l') (o_chunk out) c n) as (m & -> & Hm'); [done|done|done|done|].
    eexists. split; [done|]. rewrite signal_eq.
    apply (complete_core sr ak n s o l' a _ (o_chunk out) c m _ Hs Hc Hco Hsub Hin Ha' Hm').
    cbn [with_memory with_chunk with_pending with_stats with_live finished s1].
    rewrite (live_not_finished _ _ _ _ _ _ _ Hs Ho). intros Hf. match type of Hf with (if ?b then _ else _) = _ => destruct b eqn:Ed end; [exact Ed|done].
  - destruct (remove_pending s o (pending s)) as [r l'] eqn:Er.
    apply remove_pending_elem in Er as (Hsub & Hin & Hr & Hnone); [|done]. destruct r as [p|].
    + destruct (Hr p eq_refl) as [Hp Hpo].
      destruct (qi_pending _ _ _ _ (si_queue _ _ _ _ _ Hs) _ Hp) as (c & Hc & _).
      assert (Hco : c_Offset c = o) by (by rewrite <- (offset_in_lookup _ _ _ Hc)).
      pose proof (reservation_le _ _ _ _ _ _ Hst Hc) as Hres. destruct (si_mem _ _ _ _ _ Hs) as [Hn Hm].
      destruct (releaseChunk_spec (with_pending s l') p c n) as (m & -> & Hm'); [done|done|done|done|].
      eexists. split; [done|]. rewrite signal_eq.
      assert (Hdel : delete o (live s) = live s) by (by apply delete_id).
      assert (Ha' : ledger_exact (acct s) (others_weight s o)).
      { unfold others_weight. rewrite Hdel. apply Hs. }
      pose proof (complete_core sr ak n s o l' (acct s) (s_stats s) p c m) as Hcore. rewrite Hdel in Hcore.
      apply (Hcore _ Hs Hc Hco Hsub Hin Ha' Hm').
      cbn [with_memory with_chunk with_pending with_stats with_live finished].
      rewrite (pending_not_finished _ _ _ _ _ _ Hs Hp). intros Hf.
      match type of Hf with (if ?b then _ else _) = _ => destruct b eqn:Ed end; [exact Ed|done].
    + exists (with_pending s l'). split; [done|].
      rewrite (Hnone eq_refl).
      replace (with_pending s (pending s)) with s by (by destruct s).
      apply (acked_weaken _ _ ak); [done|set_solver].
Qed.

Definition with_store (s : Scheduler) (cs : gmap Z Chunk) (m : option Budget) : Scheduler :=
  mkScheduler (s_cfg s) (s_nextOffset s) cs (next_address s) (pending s) (live s) (acct s) (nextAttempt s)
    (eof s) (srcErr s) (s_closed s) (finished s) (s_stats s) m.

(** Two stores that differ in reservations: those of [visit] are cleared. *)
Definition cleared (visit : list Z) (cs cs' : gmap Z Chunk) : Prop :=
  forall p, cs' !! p = (fun c => if bool_decide (p ∈ visit) then clear_reservation c else c) <$> cs !! p.

Lemma cleared_cons p c visit cs cs' :
  cs !! p = Some c -> cleared visit (<[p := clear_reservation c]> cs) cs' -> cleared (p :: visit) cs cs'.
Proof.
  intros Hc Hcl q. rewrite Hcl. destruct (decide (q = p)) as [->|Hne].
  - rewrite lookup_insert_eq, Hc. cbn. rewrite (bool_decide_true (p ∈ p :: visit)) by constructor.
    by destruct (bool_decide _).
  - rewrite lookup_insert_ne by done. destruct (cs !! q); [|done]. cbn. do 2 f_equal.
    destruct (decide (q ∈ visit)).
    + by rewrite !bool_decide_true by (done || by constructor).
    + rewrite !bool_decide_false; [done| |done]. rewrite elem_of_cons. tauto.
Qed.

Lemma release_chunks_spec visit n : 0 <= n -> forall s,
  (forall p, p ∈ visit -> is_Some (chunks s !! p)) ->
  (forall p c, chunks s !! p = Some c -> 0 <= c_reservation c) ->
  mem_inv (s_memory s) (n + reserved (chunks s)) ->
  exists cs m, release_chunks visit s = Some (with_store s cs m) /\
    mem_inv m (n + reserved cs) /\ cleared visit (chunks s) cs.
Proof.
  intros Hn. induction visit as [|p visit IH]; intros s Hv Hr Hm; cbn [release_chunks].
  { exists (chunks s), (s_memory s). split; [by destruct s|]. split; [done|]. intros p.
    rewrite bool_decide_false by (intros Hp; by apply elem_of_nil in Hp). by destruct (chunks s !! p). }
  destruct (Hv p ltac:(constructor)) as [c Hc].
  assert (Hle : 0 <= c_reservation c <= reserved (chunks s)).
  { split; [by apply (Hr p)|]. by apply (msum_entry_le (fun _ c => c_reservation c) _ p c). }
  destruct (releaseChunk_spec s p c n Hc Hle Hn Hm) as (m & -> & Hm').
  destruct (IH (with_memory (with_chunk s p (clear_reservation c)) m)) as (cs & m' & -> & Hm'' & Hcl).
  - intros q Hq. cbn. apply lookup_insert_is_Some'. right. apply Hv. by constructor.
  - cbn. intros q d Hd. apply lookup_insert_Some in Hd as [[_ <-]|[_ Hd]]; [done|by apply (Hr q)].
  - done.
  - exists cs, m'. split; [done|]. split; [done|]. by eapply cleared_cons.
Qed.

Lemma reserved_zero cs : (forall p c, cs !! p = Some c -> c_reservation c = 0) -> reserved cs = 0.
Proof.
  intros H. unfold reserved. rewrite (msum_ext _ (fun _ _ => 0)); [apply msum_zero|]. done.
Qed.

Lemma sinv_delivered sr ak n s : sinv [] sr ak n s -> doneLocked s = true -> delivered sr ak (chunks s).
Proof.
  intros Hs Hd x Hx. apply doneLocked_spec in Hd as (_ & Hp & Hl).
  destruct (st_cover _ _ _ _ (si_store _ _ _ _ _ Hs) x Hx) as (p & c & Hc & Hin). exists p, c.
  split; [done|]. split; [done|]. destruct (si_kept _ _ _ _ _ Hs p c Hc) as [Hpe|[[v Hv]|[]]]; [| |done].
  - rewrite Hp in Hpe. by apply elem_of_nil in Hpe.
  - by rewrite Hl, lookup_empty in Hv.
Qed.

Lemma seen_chunks_spec s p :
  p ∈ seen_chunks s <-> p ∈ pending s \/ exists o out, live s !! o = Some out /\ o_chunk out = p.
Proof.
  unfold seen_chunks. rewrite elem_of_union, !elem_of_list_to_set, list_elem_of_fmap. split.
  - intros [|([o out] & -> & Hin)]; [by left|]. right. exists o, out. by apply elem_of_map_to_list in Hin.
  - intros [|(o & out & Ho & <-)]; [by left|]. right. exists (o, out). split; [done|]. by apply elem_of_map_to_list.
Qed.

Lemma Close_inv sr ak n s visit :
  sinv [] sr ak n s -> visit ≡ₚ elements (seen_chunks s) ->
  exists s', Stripe_Close visit s = Some s' /\ closed_inv sr ak n s' /\
    s_cfg s' = s_cfg s /\ finished s' = finished s.
Proof.
  intros Hs Hv. unfold Stripe_Close. rewrite (si_closed _ _ _ _ _ Hs).
  assert (Hvis : forall p, p ∈ visit <-> p ∈ seen_chunks s).
  { intros p. by rewrite Hv, elem_of_elements. }
  pose proof (si_queue _ _ _ _ _ Hs) as Hq. pose proof (si_store _ _ _ _ _ Hs) as Hst.
  destruct (si_mem _ _ _ _ _ Hs) as [Hn Hm].
  edestruct (release_chunks_spec visit n Hn) as (cs & m & -> & Hm' & Hcl); cbn [chunks s_memory].
  - intros p Hp. apply Hvis, seen_chunks_spec in Hp as [Hp|(o & out & Ho & <-)].
    + destruct (qi_pending _ _ _ _ Hq _ Hp) as (c & Hc & _). by eexists.
    + destruct (qi_live _ _ _ _ Hq _ _ Ho) as (c & Hc & _). by eexists.
  - apply Hst.
  - exact Hm.
  - eexists. split; [done|]. split; [|done]. cbn [chunks] in Hcl.
    assert (Hres : forall p c, cs !! p = Some c -> c_reservation c = 0).
    { intros p c Hc. rewrite Hcl in Hc. destruct (chunks s !! p) as [d|] eqn:Hd; [|done].
      cbn in Hc. injection Hc as <-. case_bool_decide as Hp; [done|].
      destruct (si_kept _ _ _ _ _ Hs p d Hd) as [Hpe|[[out Hl]|[_ ?]]]; [| |done]; exfalso; apply Hp, Hvis, seen_chunks_spec.
      - by left.
      - right. exists (c_Offset d), out. split; [done|]. destruct (qi_live _ _ _ _ Hq _ _ Hl) as (e & He & Heo).
        by apply (st_inj _ _ _ _ Hst _ e _ d). }
    split; cbn; try done.
    + apply Hs.
    + by rewrite (reserved_zero _ Hres), Z.add_0_r in Hm'.
    + intros Hf x Hx. destruct (sinv_delivered _ _ _ _ Hs (si_finished _ _ _ _ _ Hs Hf) x Hx) as (p & c & Hc & Hin).
      exists p. rewrite Hcl, Hc. cbn. eexists. split; [done|]. by case_bool_decide.
Qed.

(** ** The producer *)

Lemma store_offsets_lt sr cs n p c :
  store_inv sr false cs n -> cs !! p = Some c -> c_Offset c < len sr.
Proof.
  intros Hs Hc. destruct (st_data _ _ _ _ Hs _ _ Hc) as (H0 & H1 & _).
  pose proof (st_empty _ _ _ _ Hs _ _ Hc) as He. destruct (c_Data c) as [|x l] eqn:Ed; [by destruct He|].
  rewrite len_cons in H1. pose proof (len_nonneg l). lia.
Qed.

Lemma slice_app_old {A} i j (l k : list A) : (j <= length l)%nat -> slice i j (l ++ k) = slice i j l.
Proof.
  intros Hj. unfold slice. destruct (decide (i <= length l)%nat) as [Hi|Hi].
  - rewrite drop_app_le by done. apply take_app_le. rewrite length_drop. lia.
  - by replace (j - i)%nat with 0%nat by lia.
Qed.

Lemma slice_app_new {A} (l k : list A) i j :
  i = length l -> j = (length l + length k)%nat -> slice i j (l ++ k) = k.
Proof.
  intros -> ->. unfold slice. rewrite drop_app_length. apply take_ge. lia.
Qed.

Lemma store_alloc sr e cs n c :
  store_inv sr false cs n -> c_Offset c = len sr -> 0 <= c_reservation c ->
  (c_Data c = [] -> e = true) -> store_inv (sr ++ c_Data c) e (<[n := c]> cs) (n + 1).
Proof.
  intros Hs Ho Hr He. pose proof Hs as [Ha Hi Hd Hem Hc Hsum Hres].
  assert (Hnone : cs !! n = None).
  { destruct (cs !! n) as [d|] eqn:Hn; [|done]. specialize (Ha n d Hn). lia. }
  pose proof (len_nonneg (c_Data c)) as Hl. pose proof (len_nonneg sr) as Hl'.
  assert (Hold : forall p d, <[n := c]> cs !! p = Some d -> p = n /\ d = c \/ cs !! p = Some d /\ c_Offset d < len sr).
  { intros p d Hp. apply lookup_insert_Some in Hp as [[<- <-]|[_ Hp]]; [by left|right].
    split; [done|by eapply store_offsets_lt]. }
  split.
  - intros p d Hp. destruct (Hold p d Hp) as [[-> _]|[Hp' _]]; [lia|]. specialize (Ha p d Hp'). lia.
  - intros p1 c1 p2 c2 H1 H2 Heq. destruct (Hold _ _ H1) as [[-> ->]|[H1' ?]], (Hold _ _ H2) as [[-> ->]|[H2' ?]].
    + done.
    + lia.
    + lia.
    + by apply (Hi p1 c1 p2 c2).
  - intros p d Hp. rewrite len_app. destruct (Hold p d Hp) as [[-> ->]|[Hp' _]].
    + rewrite Ho. split; [lia|]. split; [lia|]. symmetry. apply slice_app_new; unfold len; lia.
    + destruct (Hd p d Hp') as (? & ? & Hsl). split; [done|]. split; [lia|].
      rewrite slice_app_old; [done|]. unfold len in *. lia.
  - intros p d Hp Hn. destruct (Hold p d Hp) as [[-> ->]|[Hp' Hlt]].
    + split; [by apply He|]. by rewrite Hn, app_nil_r.
    + destruct (Hem p d Hp' Hn) as [? _]. done.
  - intros x Hx. rewrite len_app in Hx. destruct (decide (x < len sr)) as [Hlt|Hge].
    + destruct (Hc x ltac:(lia)) as (p & d & Hp & Hin). exists p, d. split; [|done].
      rewrite lookup_insert_ne; [done|]. congruence.
    + exists n, c. rewrite lookup_insert_eq. split; [done|]. lia.
  - rewrite msum_insert by done. rewrite Hsum, len_app. lia.
  - intros p d Hp. destruct (Hold p d Hp) as [[-> ->]|[Hp' _]]; [done|by apply (Hres p)].
Qed.

Lemma queue_alloc cs pend lv n c :
  queue_inv [] cs pend lv -> cs !! n = None -> c_urgent c = false ->
  (forall p d, cs !! p = Some d -> c_Offset d < c_Offset c) ->
  queue_inv [] (<[n := c]> cs) (pend ++ [n]) lv.
Proof.
  intros [H1 H2 H3 H4 H5] Hn Hu Hlt.
  assert (Hold : forall p d, cs !! p = Some d -> <[n := c]> cs !! p = Some d).
  { intros p d Hp. rewrite lookup_insert_ne; [done|]. congruence. }
  assert (Hlive : forall o, is_Some (lv !! o) -> o < c_Offset c).
  { intros o [out Ho]. destruct (H1 _ _ Ho) as (d & Hd & <-). by apply (Hlt (o_chunk out)). }
  assert (Hoff : forall p, p ∈ pend -> offset_in (<[n := c]> cs) p = offset_in cs p).
  { intros p Hp. destruct (H2 p Hp) as (d & Hd & _). unfold offset_in. by rewrite (Hold _ _ Hd), Hd. }
  assert (Hoffn : offset_in (<[n := c]> cs) n = c_Offset c) by (apply offset_in_lookup, lookup_insert_eq).
  split.
  - intros o out Ho. destruct (H1 _ _ Ho) as (d & Hd & Hdo). exists d. split; [by apply Hold|done].
  - intros p Hp. apply elem_of_app in Hp as [Hp|Hp].
    + destruct (H2 p Hp) as (d & Hd & Hdu). exists d. split; [by apply Hold|done].
    + apply list_elem_of_singleton in Hp as ->. exists c. rewrite lookup_insert_eq. split; [done|].
      rewrite Hu. split; [done|]. intros Hs. specialize (Hlive _ Hs). lia.
  - rewrite map_app. cbn [map]. rewrite Hoffn.
    rewrite (map_ext_in (offset_in (<[n := c]> cs)) (offset_in cs)) by (intros p Hp; by apply Hoff, list_elem_of_In).
    apply StronglySorted_app_2; [|done|repeat constructor].
    intros x y Hx Hy. apply list_elem_of_singleton in Hy as ->. apply list_elem_of_fmap in Hx as (p & -> & Hp).
    destruct (H2 p Hp) as (d & Hd & _). rewrite (offset_in_lookup _ _ _ Hd). by apply (Hlt p).
  - intros p o Hp Hnone Ho. apply elem_of_app in Hp as [Hp|Hp].
    + rewrite Hoff in * by done. by apply H4.
    + apply list_elem_of_singleton in Hp as ->. rewrite Hoffn. by apply Hlive.
  - intros o out Ho. destruct (H5 _ _ Ho) as (Hl & He & Hp). split; [done|]. split.
    + intros Hnil. destruct (He Hnil) as [|Hf]; [left; apply elem_of_app; by left|by apply elem_of_nil in Hf].
    + intros Hin. apply elem_of_app in Hin as [Hin|Hin]; [by apply Hp|].
      apply list_elem_of_singleton in Hin. destruct (H1 _ _ Ho) as (d & Hd & _). congruence.
Qed.

(** A chunk appended at the tail of the source. *)
Lemma alloc_inv sr ak n s c e t m :
  sinv [] sr ak n s -> eof s = false -> c_Offset c = len sr -> c_urgent c = false ->
  0 <= c_reservation c <= n -> (c_Data c = [] -> e = true) ->
  len sr + len (c_Data c) < 2 ^ 63 -> mem_inv m (n + reserved (chunks s)) ->
  sinv [] (sr ++ c_Data c) ak (n - c_reservation c)
    (mkScheduler (s_cfg s) (len sr + len (c_Data c)) (<[next_address s := c]> (chunks s)) (next_address s + 1)
      (pending s ++ [next_address s]) (live s) (acct s) (nextAttempt s) e (srcErr s) false (finished s) t m).
Proof.
  intros Hs He Ho Hu Hr Hem Hlen Hm. pose proof Hs as [Hcl Hcfg Hnx Hst Hq Hids Hled Hmem Hkept Hfin].
  rewrite He in Hst.
  assert (Hnone : chunks s !! next_address s = None).
  { destruct (chunks s !! next_address s) as [d|] eqn:Hn; [|done].
    pose proof (st_addr _ _ _ _ Hst _ _ Hn). lia. }
  split; cbn [s_closed s_cfg s_nextOffset eof chunks next_address pending live nextAttempt acct s_memory finished]; try done.
  - by rewrite len_app.
  - apply store_alloc; done || lia.
  - apply queue_alloc; try done. intros p d Hp. rewrite Ho. by eapply store_offsets_lt.
  - eapply ledger_exact_ext; [|exact Hled]. intros w. symmetry. apply live_weight_ext.
    intros o out Hout. destruct (qi_live _ _ _ _ Hq _ _ Hout) as (d & Hd & _).
    rewrite (size_in_lookup _ _ _ Hd). apply size_in_lookup. rewrite lookup_insert_ne; [done|]. congruence.
  - split; [lia|]. unfold reserved. rewrite msum_insert by done. fold (reserved (chunks s)).
    by replace (n - c_reservation c + (c_reservation c + reserved (chunks s))) with (n + reserved (chunks s)) by lia.
  - intros p d Hp. apply lookup_insert_Some in Hp as [[<- <-]|[_ Hp]].
    + left. apply elem_of_app. right. constructor.
    + destruct (Hkept p d Hp) as [|]; [left; apply elem_of_app; by left|by right].
  - intros Hf. specialize (Hfin Hf). apply doneLocked_spec in Hfin as (Hf' & _). congruence.
Qed.

Lemma store_eof sr cs n : store_inv sr false cs n -> store_inv sr true cs n.
Proof. intros Hs. pose proof Hs as []. split; try done. intros p c Hc Hd. by destruct (st_empty0 p c Hc Hd). Qed.

Lemma sinv_end sr ak n s err fin :
  sinv [] sr ak n s -> eof s = false -> (fin = true -> doneLocked (with_end s true err fin) = true) ->
  sinv [] sr ak n (with_end s true err fin).
Proof.
  intros [? ? ? Hst ? ? ? ? ? Hfin] He Hf. split; try done. cbn. rewrite He in Hst. by apply store_eof.
Qed.

Lemma markEOF_inv sr ak n s :
  sinv [] sr ak n s -> eof s = false -> sinv [] sr ak n (markEOFLocked s) /\ pending (markEOFLocked s) <> [].
Proof.
  intros Hs He. unfold markEOFLocked.
  pose proof (sinv_end sr ak n s (srcErr s) (finished s) Hs He) as Hse.
  assert (Hf : finished s = false).
  { destruct (finished s) eqn:Ef; [|done]. pose proof (si_finished _ _ _ _ _ Hs Ef) as Hd.
    apply doneLocked_spec in Hd as [Hd _]. congruence. }
  rewrite Hf in *. specialize (Hse ltac:(done)). cbn [pending with_end].
  destruct (last (pending s)) as [p|] eqn:El.
  - apply last_Some in El as [l El].
    destruct (qi_pending _ _ _ _ (si_queue _ _ _ _ _ Hs) p) as (c & Hc & _).
    { rewrite El. apply elem_of_app. right. constructor. }
    change (chunk_at (with_end s true (srcErr s) false) p) with (chunk_at s p).
    rewrite (chunk_at_lookup _ _ _ Hc). split; [|cbn; rewrite El; by destruct l].
    destruct Hse as [? ? ? Hst Hq ? Hled Hm Hkept ?]. split; cbn in *; try done.
    + apply (store_inv_update _ _ _ _ _ c); try done. by apply (st_res _ _ _ _ Hst _ _ Hc).
    + by eapply queue_inv_update.
    + eapply ledger_exact_ext; [|exact Hled]. intros w. symmetry. apply live_weight_ext.
      intros. by apply (size_in_update _ _ c).
    + rewrite (reserved_update _ _ _ _ Hc). cbn. by rewrite Z.sub_add.
    + intros q d Hd. apply lookup_insert_Some in Hd as [[<- <-]|[_ Hd]]; [exact (Hkept p c Hc)|by apply (Hkept q)].
  - split; [|cbn; by destruct (pending s)].
    pose proof (si_next _ _ _ _ _ Hs) as [Hnx Hlt]. pose proof (si_mem _ _ _ _ _ Hs) as [Hn Hm].
    pose proof (alloc_inv sr ak n s (mkChunk (len sr) [] true false 0 0) true (s_stats s) (s_memory s)) as Ha.
    cbn [c_Offset c_urgent c_reservation c_Data] in Ha.
    change (len (@nil Z)) with 0 in Ha. rewrite app_nil_r, Z.sub_0_r, Z.add_0_r in Ha.
    rewrite Hf in Ha. unfold alloc_chunk, with_end. cbn. rewrite Hnx, (si_closed _ _ _ _ _ Hs). by apply Ha.
Qed.

Lemma signal_inv sr ak n s : sinv [] sr ak n s -> sinv [] sr ak n (signalIfDoneLocked s).
Proof.
  intros Hs. rewrite signal_eq. destruct Hs as [? ? ? ? ? ? ? ? ? Hf]. split; try done.
  cbn. intros Hd. change (doneLocked s = true). destruct (doneLocked s) eqn:E; [done|]. by apply Hf.
Qed.

(** The critical section after a read. *)
Lemma produce_read_inv sr ak e s data r :
  sinv [] sr ak (e + ChunkSize (s_cfg s)) s -> 0 <= e -> eof s = false -> len sr + len data < 2 ^ 63 ->
  exists s', produce_read s data r = Some s' /\ sinv [] (sr ++ data) ak e s' /\ s_cfg s' = s_cfg s /\
    (eof s' = true -> r <> ReadMore).
Proof.
  intros Hs H0 He Hlen. unfold produce_read. rewrite (si_closed _ _ _ _ _ Hs).
  pose proof (si_cfg _ _ _ _ _ Hs) as Hcfg. pose proof (len_nonneg data) as Hld. pose proof (len_nonneg sr).
  destruct (si_next _ _ _ _ _ Hs) as [Hnx Hlt]. destruct (si_mem _ _ _ _ _ Hs) as [_ Hm].
  pose proof (reserved_nonneg _ _ _ _ (si_store _ _ _ _ _ Hs)) as Hrn.
  set (added := if len data >? 0 then _ else _).
  assert (Hadd : exists s1, added = Some s1 /\ sinv [] (sr ++ data) ak e s1 /\ eof s1 = false /\ s_cfg s1 = s_cfg s).
  { subst added. destruct (len data >? 0) eqn:Ed; bool_to_prop.
    - eexists. split; [done|]. split; [|done].
      pose proof (alloc_inv sr ak _ s (mkChunk (len sr) data false false 0 (ChunkSize (s_cfg s))) (eof s)
        (add_source (s_stats s) (len data)) (s_memory s) Hs He) as Ha.
      cbn [c_Offset c_urgent c_reservation c_Data] in Ha. rewrite Z.add_simpl_r in Ha.
      cbn. rewrite Hnx, (si_closed _ _ _ _ _ Hs), wrap_small by (pow2_eval; lia). apply Ha; try done || lia.
      intros ->. by cbn in Ed.
    - assert (data = []) as -> by (apply len_zero_nil; lia). rewrite app_nil_r.
      destruct (s_memory s) as [b|] eqn:Em; cbn in *.
      + replace (ChunkSize (s_cfg s) <=? 0) with false by lia. destruct Hm as [Hwf Hu].
        replace (ChunkSize (s_cfg s) >? used b) with false by lia. eexists. split; [done|]. split; [|done].
        destruct Hs. split; try done. split; [done|]. cbn. unfold Budget_wf in *. cbn. lia.
      + eexists. split; [done|]. split; [|done]. destruct Hs. split; try done. }
  destruct Hadd as (s1 & -> & Hs1 & He1 & Hc1). destruct r as [| |err].
  - exists s1. split; [done|]. split; [done|]. split; [done|]. congruence.
  - eexists. split; [done|]. destruct (markEOF_inv _ _ _ _ Hs1 He1) as [Hm1 _].
    split; [by apply signal_inv|]. split; [|done]. rewrite signal_eq. cbn. unfold markEOFLocked.
    by destruct (last _).
  - eexists. split; [done|]. split; [|by rewrite signal_eq].
    apply signal_inv. apply sinv_end; try done. intros Hf. pose proof (si_finished _ _ _ _ _ Hs1 Hf) as Hd.
    apply doneLocked_spec in Hd as [Hd _]. congruence.
Qed.

(** ** Every step keeps the invariant *)

Lemma sinv_memory sr ak n n' s m :
  sinv [] sr ak n s -> 0 <= n' -> mem_inv m (n' + reserved (chunks s)) ->
  sinv [] sr ak n' (with_memory s m).
Proof. intros [] Hn Hm. by split. Qed.

Lemma closed_memory sr ak n n' s m :
  closed_inv sr ak n s -> 0 <= n' -> mem_inv m n' -> closed_inv sr ak n' (with_memory s m).
Proof. intros [] Hn Hm. by split. Qed.

Lemma mem_shift m b b' e e' k :
  m = Some b -> Budget_wf b' -> used b' = used b - e + e' -> mem_inv m (e + k) -> mem_inv (Some b') (e' + k).
Proof. intros -> Hwf Hu [_ Hb]. split; [done|]. lia. Qed.

Lemma granted_mem m n m' k : 0 < n -> granted m n m' -> mem_inv m k -> mem_inv m' (k + n).
Proof.
  intros Hn Hg Hm. destruct m as [b|]; cbn in Hg; [|by subst]. destruct Hg as (b' & Ha & ->).
  unfold Acquire_enter, Acquire_loop in Ha. destruct Hm as [Hwf Hu].
  replace (n <=? 0) with false in Ha by lia. destruct (n >? _); [done|].
  destruct (n <=? capacity b - used b) eqn:E; bool_to_prop; [|done]. injection Ha as <-.
  split; [apply set_used_wf; [done|lia]|]. cbn. lia.
Qed.

Lemma closed_visit sr ak n s visit : closed_inv sr ak n s -> visit ≡ₚ live_keys s -> visit = [].
Proof.
  intros Hc Hv. apply Permutation_nil_r. rewrite Hv. unfold live_keys.
  by rewrite (ci_live _ _ _ _ Hc), map_to_list_empty.
Qed.

Lemma closed_Complete sr ak n s lane o : closed_inv sr ak n s -> Complete s lane o = Some s.
Proof.
  intros [? ? Hp Hl ? ? ?]. unfold Complete, removePendingLocked. rewrite Hl, lookup_empty. rewrite Hp.
  cbn. f_equal. destruct s; cbn in *. by subst.
Qed.

Lemma closed_acked sr ak ak' n s : closed_inv sr ak n s -> ak ⊆ ak' -> closed_inv sr ak' n s.
Proof.
  intros [? ? ? ? ? ? Hf] Hsub. split; try done. intros Hfin x Hx.
  destruct (Hf Hfin x Hx) as (p & c & ? & ? & ?). exists p, c. split; [done|]. split; [done|]. by apply Hsub.
Qed.

(** A closed flow stays closed and empty. *)
Lemma closed_step s pr sr ak e f' :
  0 <= e -> closed_inv sr ak (e + held_bytes pr s) s -> fstep (mkFlow s pr sr ak e) f' -> flow_inv f'.
Proof.
  intros He0 Hc Hst. pose proof Hc as [Hcl Hcfg Hp Hl Hres [Hn Hm] Hfin].
  assert (Hlive : forall o, live s !! o = None) by (intros o; by rewrite Hl, lookup_empty).
  inversion Hst; subst; unfold flow_inv; cbn [sch prod_ src acked elsewhere];
    cbn [held_bytes] in Hc; try rewrite Z.add_0_r in Hc.
  - split; [done|left]. apply (closed_memory _ _ (e + held_bytes pr s)); [done|destruct pr; cbn; lia|].
    by eapply mem_shift.
  - congruence.
  - split; [done|left]. cbn. by rewrite Z.add_0_r.
  - split; [done|left]. cbn. apply (closed_memory _ _ e); [done|lia|]. rewrite Z.add_0_r in Hm.
    by eapply granted_mem.
  - split; [done|left]. unfold produce_unreserved. rewrite Hcl. cbn. by rewrite Z.add_0_r.
  - split; [done|left]. rewrite Hcl. unfold producer_after. rewrite Hcl. cbn [held_bytes]. rewrite Z.add_0_r.
    match goal with H : produce_read _ _ _ = Some _ |- _ => unfold produce_read in H; rewrite Hcl in H; rename H into Hr end.
    destruct (s_memory s) as [b|]; cbn in Hr.
    + destruct Hm as [Hwf Hu]. cbn [held_bytes] in Hu. replace (ChunkSize (s_cfg s) <=? 0) with false in Hr by lia.
      destruct (_ >? _) eqn:E; [done|]. injection Hr as <-. eapply closed_memory; [done|done|].
      bool_to_prop. unfold mem_inv, Budget_wf in *. cbn. lia.
    + injection Hr as <-. by eapply closed_memory.
  - match goal with H : Next_pass _ _ _ _ _ = _ |- _ => unfold Next_pass in H; by rewrite Hcl in H end.
  - split; [done|left]. unfold Wrote. by rewrite Hlive.
  - split; [done|left]. rewrite (closed_Complete _ _ _ _ _ _ Hc) in *. simplify_eq.
    apply (closed_acked _ ak); [done|set_solver].
  - split; [done|left]. unfold Fail_attempt. by rewrite Hlive.
  - split; [done|left]. erewrite (closed_visit _ _ _ _ visit) by done. cbn. by split.
  - split; [done|left]. by erewrite (closed_visit _ _ _ _ visit) by done.
  - split; [done|left]. erewrite (closed_visit _ _ _ _ visit) by done. unfold ReissueExpired. by destruct (_ <=? 0).
  - split; [done|left]. match goal with H : Stripe_Close _ _ = _ |- _ => unfold Stripe_Close in H; rewrite Hcl in H end.
    by simplify_eq.
Qed.

(** What the lanes and the supervisor leave alone. *)
Definition same_frame (s s' : Scheduler) : Prop :=
  s_cfg s' = s_cfg s /\ eof s' = eof s /\ nextAttempt s <= nextAttempt s'.

Global Instance same_frame_trans : Transitive same_frame.
Proof. intros s1 s2 s3 (? & ? & ?) (? & ? & ?). repeat split; try congruence. lia. Qed.

Lemma same_frame_refl s : same_frame s s.
Proof. repeat split. lia. Qed.

Lemma requeue_frame s p : same_frame s (requeueLocked s p).
Proof. unfold requeueLocked. destruct (pendingHas _ _); repeat split; cbn; lia. Qed.

Lemma fold_frame {A} (f : A -> Z -> A) (get : A -> Scheduler) l :
  (forall a k, same_frame (get a) (get (f a k))) -> forall a, same_frame (get a) (get (fold_left f l a)).
Proof.
  intros Hf. induction l as [|k l IH]; intros a; [apply same_frame_refl|]. cbn.
  etransitivity; [apply Hf|apply IH].
Qed.

(** Closes a frame goal after the branches of an operation are split. *)
Ltac frame :=
  repeat case_match; simplify_eq; cbn [fst snd];
  first [apply same_frame_refl | by repeat split; cbn; lia
        | eapply transitivity; [|apply requeue_frame]; by repeat split; cbn; lia ].

Lemma Wrote_frame s lane o id : same_frame s (Wrote s lane o id).
Proof. unfold Wrote. frame. Qed.

Lemma Fail_frame s lane o id : same_frame s (Fail_attempt s lane o id).
Proof. unfold Fail_attempt. frame. Qed.

Lemma Retire_frame visit s lane : same_frame s (RetireLane visit s lane).
Proof.
  unfold RetireLane. etransitivity; [apply (fold_frame (retire_one lane) (fun s => s) visit)|by repeat split; cbn; lia].
  intros a k. unfold retire_one. frame.
Qed.

Lemma Below_frame visit s o : same_frame s (fst (ReissueUnacknowledgedBelow visit s o)).
Proof.
  apply (fold_frame (reissue_below_one o) fst visit). intros [a r] k. unfold reissue_below_one. frame.
Qed.

Lemma Expired_frame visit s ans : same_frame s (fst (ReissueExpired visit s ans)).
Proof.
  unfold ReissueExpired. destruct (_ <=? 0); [apply same_frame_refl|].
  assert (H1 : same_frame s (fst (fold_left (collect_expired (ans_Now ans)) visit (s, [])))).
  { apply (fold_frame (collect_expired (ans_Now ans)) fst visit). intros [a l] k. unfold collect_expired. frame. }
  destruct (fold_left _ visit _) as [s1 l]. cbn [fst] in H1.
  pose proof (fold_frame (reissue_candidate (ans_Now ans) (retransmitAfter ans)) (fun a => fst (fst a))
    (merge_sort Z.le l)) as H2. specialize (H2 ltac:(intros [[a r] rr] k; unfold reissue_candidate; frame) (s1, 0, 0)).
  destruct (fold_left _ _ _) as [[s2 k] r]. cbn [fst] in *. by etransitivity.
Qed.

Lemma Complete_frame s lane o s' : Complete s lane o = Some s' -> same_frame s s'.
Proof.
  unfold Complete, removePendingLocked, releaseChunkLocked, signalIfDoneLocked. intros H.
  repeat case_match; simplify_eq; cbn in *; simplify_eq; repeat split; cbn; lia.
Qed.

Lemma Next_frame s ans ctx lane wb c s' :
  0 <= nextAttempt s -> nextAttempt s + 1 < 2 ^ 64 ->
  Next_pass s ans ctx lane wb = (NextChunk c, s') -> same_frame s s'.
Proof.
  intros H0 H1 H. unfold Next_pass, takeReadyLocked in H.
  repeat case_match; simplify_eq; repeat split; cbn; rewrite next_id_small; lia.
Qed.

Lemma frame_flow s s' pr sr ak e :
  sinv [] sr ak (e + held_bytes pr s) s' -> same_frame s s' -> (eof s = true -> pr = Stopped) -> 0 <= e ->
  flow_inv (mkFlow s' pr sr ak e).
Proof.
  intros Hs (Hc & He & _) Hpr H0. split; [done|]. right. cbn.
  rewrite He. split; [|done]. unfold held_bytes in *. by rewrite Hc.
Qed.

Lemma open_step s pr sr ak e f' :
  0 <= e -> sinv [] sr ak (e + held_bytes pr s) s -> (eof s = true -> pr = Stopped) ->
  fstep (mkFlow s pr sr ak e) f' -> flow_inv f'.
Proof.
  intros He0 Hs Hpr Hst. pose proof (si_closed _ _ _ _ _ Hs) as Hcl. pose proof (si_cfg _ _ _ _ _ Hs) as Hcfg.
  destruct (si_mem _ _ _ _ _ Hs) as [Hn Hm]. destruct (si_ids _ _ _ _ _ Hs) as [_ Hna].
  inversion Hst; subst.
  - split; [done|right]. cbn [sch prod_ src acked elsewhere]. split; [|done].
    apply (sinv_memory _ _ (e + held_bytes pr s)); [done|destruct pr; cbn; lia|].
    rewrite <- Z.add_assoc in *. by eapply mem_shift.
  - split; [done|right]. by split; [|intros Hf; by specialize (Hpr Hf)].
  - congruence.
  - split; [done|right]. cbn [sch prod_ src acked elsewhere held_bytes] in *.
    split; [|intros Hf; by specialize (Hpr Hf)]. rewrite Z.add_0_r in *.
    apply (sinv_memory _ _ e); [done|cbn; lia|]. replace (e + _ + _) with (e + reserved (chunks s) + ChunkSize (s_cfg s)) by (cbn; lia).
    by eapply granted_mem.
  - unfold produce_unreserved. rewrite Hcl. cbn [negb]. split; [done|right]. split; [|done].
    apply sinv_end; [done| |].
    + destruct (eof s) eqn:Ee; [by specialize (Hpr eq_refl)|done].
    + intros Hf. pose proof (si_finished _ _ _ _ _ Hs Hf) as Hd. apply doneLocked_spec in Hd as [Hd _].
      by specialize (Hpr Hd).
  - assert (Heof : eof s = false) by (destruct (eof s) eqn:Ee; [by specialize (Hpr eq_refl)|done]).
    edestruct (produce_read_inv sr ak e s) as (s1 & Hr & Hs1 & Hc1 & He1); [done|done|done|done|].
    rewrite Hr in *. simplify_eq. rewrite Hcl. unfold producer_after. rewrite Hcl. split; [done|right].
    cbn [sch prod_ src acked elsewhere]. split; [destruct r; cbn; by rewrite Z.add_0_r|].
    intros Hf. by destruct r; [destruct He1|..].
  - apply (frame_flow s); try done; [by eapply Next_inv|by eapply Next_frame; [lia|..]].
  - apply (frame_flow s); try done; [by apply Wrote_inv|apply Wrote_frame].
  - destruct (Complete_inv _ _ _ _ lane offset Hs) as (s1 & Hc1 & Hs1). simplify_eq.
    apply (frame_flow s); try done. by eapply Complete_frame.
  - apply (frame_flow s); try done; [by apply Fail_inv|apply Fail_frame].
  - apply (frame_flow s); try done; [by apply RetireLane_inv|apply Retire_frame].
  - apply (frame_flow s); try done; [by apply ReissueBelow_inv|apply Below_frame].
  - apply (frame_flow s); try done; [by apply ReissueExpired_inv|apply Expired_frame].
  - edestruct (Close_inv sr ak) as (s1 & Hc1 & Hs1 & Hcf & _); [done|done|]. simplify_eq.
    split; [done|left]. cbn. unfold held_bytes in *. by rewrite Hcf.
Qed.

Lemma flow_inv_step f f' : flow_inv f -> fstep f f' -> flow_inv f'.
Proof.
  destruct f as [s pr sr ak e]. intros [He [Hc|[Hs Hpr]]] Hst; cbn in *.
  - by eapply closed_step.
  - by eapply open_step.
Qed.

Lemma flow_inv_start cfg m : budget_ok m -> flow_inv (flow_start cfg m).
Proof.
  intros Hm. split; cbn.
  { destruct m as [b|]; [|done]. unfold budget_ok, Budget_wf in Hm. lia. }
  right. split; [|done]. split; cbn; try done.
  - unfold applyDefaults. cbn. split_ifs; bool_to_prop; lia.
  - split; try done; intros; try (by rewrite lookup_empty in *).
    unfold len in *. cbn in *. lia.
  - split; try (intros; by rewrite lookup_empty in *); [|apply SSorted_nil].
    intros p Hp. by apply elem_of_nil in Hp.
  - split; [destruct m as [b|]; [unfold budget_ok, Budget_wf in Hm; lia|done]|].
    destruct m as [b|]; [|done]. split; [done|]. unfold reserved. rewrite msum_empty. lia.
Qed.

Lemma flow_reach cfg m f : budget_ok m -> steps fstep (flow_start cfg m) f -> flow_inv f.
Proof.
  intros Hm Hs. eapply (steps_invariant fstep flow_inv); [|by apply flow_inv_start|exact Hs].
  intros; by eapply flow_inv_step.
Qed.

Lemma flow_open f : flow_inv f -> s_closed (sch f) = false ->
  sinv [] (src f) (acked f) (elsewhere f + held_bytes (prod_ f) (sch f)) (sch f).
Proof. intros [_ [Hc|[Hs _]]] Ho; [|done]. rewrite (ci_closed _ _ _ _ Hc) in Ho. done. Qed.

(** ** Who is served first *)

(** Recovery chunks come before every chunk never issued. *)
Lemma urgent_prefix E sr ak n s l1 p l2 :
  sinv E sr ak n s -> pending s = l1 ++ p :: l2 -> c_urgent (chunk_at s p) = true ->
  Forall (fun q => c_urgent (chunk_at s q) = true) l1.
Proof.
  intros Hs Hp Hu. pose proof (si_queue _ _ _ _ _ Hs) as Hq. apply Forall_forall. intros q Hin.
  assert (Hqp : q ∈ pending s) by (rewrite Hp; apply elem_of_app; by left).
  assert (Hpp : p ∈ pending s) by (rewrite Hp; apply elem_of_app; right; constructor).
  destruct (qi_pending _ _ _ _ Hq _ Hqp) as (d & Hd & Hdu). destruct (qi_pending _ _ _ _ Hq _ Hpp) as (c & Hc & Hcu).
  rewrite (chunk_at_lookup _ _ _ Hc) in Hu. rewrite (chunk_at_lookup _ _ _ Hd). apply Hdu.
  destruct (live s !! c_Offset d) eqn:El; [by eexists|].
  pose proof (qi_sorted _ _ _ _ Hq) as Hso. rewrite Hp, map_app in Hso. cbn [map] in Hso.
  apply StronglySorted_app in Hso as (Hlt & _ & _).
  assert (offset_in (chunks s) q < offset_in (chunks s) p).
  { apply Hlt; [apply list_elem_of_fmap; by exists q|constructor]. }
  assert (offset_in (chunks s) p < offset_in (chunks s) q); [|lia].
  apply (qi_fresh _ _ _ _ Hq); [done|by rewrite (offset_in_lookup _ _ _ Hd)|].
  rewrite (offset_in_lookup _ _ _ Hc). by apply Hcu.
Qed.

(** The scan cannot stop before a recovery chunk the lane may take. *)
Lemma take_scan_urgent s ans lane wb l1 p l2 :
  Forall (fun q => c_urgent (chunk_at s q) = true) l1 -> c_urgent (chunk_at s p) = true ->
  carried s lane p = false ->
  exists q rest, take_scan s ans lane wb (l1 ++ p :: l2) = Some (q, rest) /\ q ∈ l1 ++ [p].
Proof.
  intros Hl1 Hu Hc. induction l1 as [|q l1 IH]; cbn [app take_scan].
  - rewrite Hu, andb_false_r.
    change (match live s !! c_Offset (chunk_at s p) with Some out => laneHasReliableAttempt out lane | None => false end)
      with (carried s lane p). rewrite Hc. exists p, l2. split; [done|]. constructor.
  - apply Forall_cons in Hl1 as [Hq Hl1]. rewrite Hq, andb_false_r.
    change (match live s !! c_Offset (chunk_at s q) with Some out => laneHasReliableAttempt out lane | None => false end)
      with (carried s lane q). destruct (carried s lane q).
    + destruct (IH Hl1) as (x & rest & -> & Hx). exists x, (q :: rest). split; [done|]. by constructor.
    + exists q, (l1 ++ p :: l2). split; [done|]. constructor.
Qed.

(** The flow's window, when a chunk that is not recovery work is admitted. *)
Lemma hasRoom_total s ans lane wb n w :
  hasRoomLocked s ans lane wb n = true -> ans_Windows ans = Some w -> 0 < w_Total w -> 0 <= n ->
  0 < totalBytes (acct s) <= 2 ^ 64 - 2 -> totalBytes (acct s) +u64 n <= w_Total w.
Proof.
  intros Hr Hw Ht Hn Hz. unfold hasRoomLocked in Hr.
  replace (totalBytes (acct s) =? 0) with false in Hr by lia. rewrite Hw in Hr.
  destruct ((w_Total w >? 0) && _) eqn:E; [done|].
  destruct (n =? 0) eqn:En; bool_to_prop; destruct E as [E|E]; bool_to_prop; try lia.
  subst n. rewrite wrap_small in E by lia. rewrite wrap_small; lia.
Qed.

(** ** Theorems *)

(** C12: In every reachable state of an open flow, under any interleaving of the
    producer, the lanes, acknowledgements, failures, lane deaths and re-issues, the
    admission accounts are exact: what [LaneOutstanding] reports of a lane is the
    number of attempts outstanding on it, their bytes, and the bytes its transport
    has not yet taken, the flow's total is the sum over all attempts, and none of
    the counters has wrapped. *)
Theorem scheduler_accounts_exact cfg m f :
  budget_ok m -> steps fstep (flow_start cfg m) f -> s_closed (sch f) = false ->
  let F := live_weight (chunks (sch f)) (live (sch f)) in
  (forall lane, LaneOutstanding (sch f) lane = (F (w_load lane), F (w_bytes lane), F (w_queued lane)) /\
    F (w_queued lane) <= F (w_bytes lane) <= F w_total) /\
  snd (Stripe_Pending (sch f)) = F w_total /\ 0 <= F w_total < 2 ^ 64.
Proof.
  intros Hm Hst Ho F. pose proof (flow_open f (flow_reach _ _ _ Hm Hst) Ho) as Hs.
  destruct (si_ledger _ _ _ _ _ Hs) as [Hl Ht]. fold F in Hl, Ht. split; [|split; [done|]].
  - intros lane. destruct (Hl lane) as (H1 & H2 & H3). unfold LaneOutstanding. rewrite H1, H2, H3. split; [done|].
    split; apply live_weight_le; intros x n Hn; [|by apply w_bytes_le_total].
    unfold w_queued, w_bytes. destruct (a_lane x =? lane); [|done]. destruct (a_written x); cbn; lia.
  - split; [apply live_weight_nonneg; auto with go|].
    pose proof (live_total_bound _ _ _ _ _ _ _ (si_store _ _ _ _ _ Hs) (si_queue _ _ _ _ _ Hs)).
    destruct (si_next _ _ _ _ _ Hs). subst F. pow2_eval. lia.
Qed.

(** C3: Nothing read from the source is lost.  In every reachable state of an
    open flow each byte read lies in a chunk that holds exactly the source's bytes
    at its offset, and that chunk has been reported complete, or is ready for any
    lane, or is outstanding with an attempt in progress.  A chunk never has more
    than two attempts outstanding, and at most one while it is also ready. *)
Theorem scheduler_loses_nothing cfg m f x :
  budget_ok m -> steps fstep (flow_start cfg m) f -> s_closed (sch f) = false -> 0 <= x < len (src f) ->
  exists p c, chunks (sch f) !! p = Some c /\ c_Offset c <= x < c_Offset c + len (c_Data c) /\
    c_Data c = slice (Z.to_nat (c_Offset c)) (Z.to_nat (c_Offset c + len (c_Data c))) (src f) /\
    (c_Offset c ∈ acked f \/ p ∈ pending (sch f) \/
     exists out, live (sch f) !! c_Offset c = Some out /\ o_chunk out = p /\ o_attempts out <> []) /\
    (forall out, live (sch f) !! c_Offset c = Some out ->
      (length (o_attempts out) <= 2)%nat /\ (p ∈ pending (sch f) -> (length (o_attempts out) <= 1)%nat)).
Proof.
  intros Hm Hst Ho Hx. pose proof (flow_open f (flow_reach _ _ _ Hm Hst) Ho) as Hs.
  pose proof (si_store _ _ _ _ _ Hs) as Hsto. pose proof (si_queue _ _ _ _ _ Hs) as Hq.
  destruct (st_cover _ _ _ _ Hsto x Hx) as (p & c & Hc & Hin). exists p, c. split; [done|]. split; [done|].
  split; [by apply (st_data _ _ _ _ Hsto p c Hc)|].
  assert (Hptr : forall out, live (sch f) !! c_Offset c = Some out -> o_chunk out = p).
  { intros out Hout. destruct (qi_live _ _ _ _ Hq _ _ Hout) as (d & Hd & Hdo). by apply (st_inj _ _ _ _ Hsto _ d _ c). }
  split.
  - destruct (si_kept _ _ _ _ _ Hs p c Hc) as [|[[out Hl]|[]]]; [by right; left| |by left].
    destruct (qi_attempts _ _ _ _ Hq _ _ Hl) as (_ & He & _). rewrite (Hptr _ Hl) in He.
    destruct (o_attempts out) as [|y l] eqn:Ea.
    + destruct (He eq_refl) as [|Hf]; [by right; left|by apply elem_of_nil in Hf].
    + do 2 right. exists out. rewrite Ea. split; [done|]. split; [by apply Hptr|done].
  - intros out Hl. destruct (qi_attempts _ _ _ _ Hq _ _ Hl) as (Hlen & _ & Hp).
    rewrite (Hptr _ Hl) in Hp. done.
Qed.

(** When [Done] is signalled, whether or not the flow has since been closed,
    every byte read from the source belongs to a chunk that was reported
    complete. *)
Theorem done_means_delivered cfg m f :
  budget_ok m -> steps fstep (flow_start cfg m) f -> Done (sch f) = true ->
  delivered (src f) (acked f) (chunks (sch f)).
Proof.
  intros Hm Hst Hd. destruct (flow_reach _ _ _ Hm Hst) as [_ [Hc|[Hs _]]].
  - by apply (ci_finished _ _ _ _ Hc).
  - eapply sinv_delivered; [done|]. by apply (si_finished _ _ _ _ _ Hs).
Qed.

Lemma release_budget s p s' :
  releaseChunkLocked s p = Some s' -> is_Some (s_memory s) -> is_Some (s_memory s').
Proof.
  unfold releaseChunkLocked. intros Hr [b Hb]. rewrite Hb in Hr. cbn in Hr.
  repeat case_match; simplify_eq; cbn; by eexists.
Qed.

Lemma Close_budget visit s s' :
  Stripe_Close visit s = Some s' -> is_Some (s_memory s) -> is_Some (s_memory s').
Proof.
  unfold Stripe_Close. destruct (s_closed s); [intros [= <-]; done|].
  set (s0 := mkScheduler _ _ _ _ _ _ _ _ _ _ _ _ _ _). intros Hr Hb.
  assert (Hgen : forall l s1 s2, release_chunks l s1 = Some s2 -> is_Some (s_memory s1) -> is_Some (s_memory s2)).
  { induction l as [|p l IH]; intros s1 s2 Hl; cbn in Hl; [by simplify_eq|].
    destruct (releaseChunkLocked s1 p) as [s3|] eqn:E; [|done]. intros Hs1.
    eapply IH; [exact Hl|by eapply release_budget]. }
  destruct (release_chunks visit s0) as [s2|] eqn:E; [|done]. injection Hr as <-. cbn.
  by apply (Hgen visit s0).
Qed.

(** What a successful [Next] tells about the scan. *)
Lemma Next_take s ans ctx lane wb c s' :
  Next_pass s ans ctx lane wb = (NextChunk c, s') ->
  count_of (laneLoad (acct s)) lane < LaneWindow (s_cfg s) /\ takeReadyLocked s ans lane wb = Some (c, s').
Proof.
  unfold Next_pass. intros H. destruct (s_closed s), ctx; try done.
  destruct (_ <? _) eqn:E; [|done]. bool_to_prop. split; [done|].
  destruct (takeReadyLocked s ans lane wb) as [[c0 s0]|]; [by simplify_eq|]. by repeat case_match.
Qed.

(** What [Next] hands a lane, in any reachable state of an open flow.  The
    lane is below its chunk limit.  The chunk carries exactly the source's bytes at
    its offset; it is the lowest ready offset the lane does not already carry
    reliably; its attempt identity is larger than that of any attempt outstanding;
    and unless it is recovery work or the flow held nothing, the flow's total after
    the issue is within the flow's window. *)
Theorem next_issues_oldest cfg m f ans ctx lane windowBytes c s' :
  budget_ok m -> steps fstep (flow_start cfg m) f -> s_closed (sch f) = false ->
  nextAttempt (sch f) + 1 < 2 ^ 64 ->
  Next_pass (sch f) ans ctx lane windowBytes = (NextChunk c, s') ->
  count_of (laneLoad (acct (sch f))) lane < LaneWindow (s_cfg (sch f)) /\
  c_Data c = slice (Z.to_nat (c_Offset c)) (Z.to_nat (c_Offset c + len (c_Data c))) (src f) /\
  (exists p, p ∈ pending (sch f) /\ offset_in (chunks (sch f)) p = c_Offset c /\ carried (sch f) lane p = false /\
    (forall q, q ∈ pending (sch f) -> offset_in (chunks (sch f)) q < c_Offset c -> carried (sch f) lane q = true) /\
    (forall w, ans_Windows ans = Some w -> 0 < w_Total w -> c_urgent (chunk_at (sch f) p) = false ->
      totalBytes (acct (sch f)) <> 0 -> totalBytes (acct s') <= w_Total w)) /\
  (forall o out x, live (sch f) !! o = Some out -> x ∈ o_attempts out -> a_id x < c_attempt c).
Proof.
  intros Hm Hst Ho Hid Hn. pose proof (flow_open f (flow_reach _ _ _ Hm Hst) Ho) as Hs.
  pose proof (si_store _ _ _ _ _ Hs) as Hsto. pose proof (si_queue _ _ _ _ _ Hs) as Hq.
  destruct (si_ids _ _ _ _ _ Hs) as [Hids Hna]. destruct (si_ledger _ _ _ _ _ Hs) as [_ Htot].
  pose proof (live_total_bound _ _ _ _ _ _ _ Hsto Hq) as Hbound. destruct (si_next _ _ _ _ _ Hs) as [_ Hlt].
  pose proof (live_weight_nonneg (chunks (sch f)) (live (sch f)) w_total ltac:(auto with go)) as Hnn.
  apply Next_take in Hn as [Hload Ht]. split; [done|]. unfold takeReadyLocked in Ht.
  destruct (take_scan _ _ _ _ _) as [[p rest]|] eqn:Es; [|done].
  apply take_scan_spec in Es as (l1 & l2 & Hp & -> & Hl1 & Hcar & Hroom).
  assert (Hin : p ∈ pending (sch f)) by (rewrite Hp; apply elem_of_app; right; constructor).
  destruct (qi_pending _ _ _ _ Hq _ Hin) as (d & Hd & _). rewrite (chunk_at_lookup _ _ _ Hd) in Ht.
  injection Ht as <- <-. cbn [c_Offset c_Data c_attempt acct charge_lane totalBytes].
  split; [by apply (st_data _ _ _ _ Hsto p d Hd)|]. split.
  - exists p. split; [done|]. split; [by apply offset_in_lookup|]. split; [done|]. split.
    + intros q Hqin Hqlt. rewrite Forall_forall in Hl1. rewrite <- (offset_in_lookup _ _ _ Hd) in Hqlt.
      pose proof (qi_sorted _ _ _ _ Hq) as Hso. rewrite Hp in Hqin, Hso. rewrite map_app in Hso. cbn [map] in Hso.
      apply StronglySorted_app in Hso as (_ & _ & Hso). inversion_clear Hso as [|? ? _ Hf]. rewrite Forall_forall in Hf.
      apply elem_of_app in Hqin as [|Hqin]; [by apply Hl1|]. apply elem_of_cons in Hqin as [->|Hqin]; [lia|].
      specialize (Hf _ ltac:(apply list_elem_of_fmap; by exists q)). lia.
    + intros w Hw Hwt Hu Hz. unfold room in Hroom. rewrite Hu, orb_false_r, (size_in_lookup _ _ _ Hd) in Hroom.
      eapply hasRoom_total; eauto; [apply len_nonneg|]. pow2_eval. lia.
  - intros o out x Hout Hx. rewrite next_id_small by lia. pose proof (id_range _ _ Hids _ _ _ Hout Hx). lia.
Qed.

(** Recovery is never withheld.  Whatever the windows say, a lane below its
    chunk limit that asks for work while a chunk that came back from a stalled or
    dead lane is ready, and that does not already carry it reliably, is given a
    chunk at or before that chunk's offset: chunks that came back always precede
    the ones never issued. *)
Theorem recovery_never_withheld cfg m f ans lane windowBytes p :
  budget_ok m -> steps fstep (flow_start cfg m) f -> s_closed (sch f) = false ->
  count_of (laneLoad (acct (sch f))) lane < LaneWindow (s_cfg (sch f)) ->
  p ∈ pending (sch f) -> c_urgent (chunk_at (sch f) p) = true -> carried (sch f) lane p = false ->
  exists c s', Next_pass (sch f) ans false lane windowBytes = (NextChunk c, s') /\
    c_Offset c <= offset_in (chunks (sch f)) p.
Proof.
  intros Hm Hst Ho Hload Hin Hu Hc. pose proof (flow_open f (flow_reach _ _ _ Hm Hst) Ho) as Hs.
  pose proof (si_queue _ _ _ _ _ Hs) as Hq. unfold Next_pass. rewrite Ho.
  replace (_ <? _) with true by lia.
  apply list_elem_of_split in Hin as (l1 & l2 & Hp).
  destruct (take_scan_urgent (sch f) ans lane windowBytes l1 p l2) as (q & rest & Hsc & Hqin);
    [by eapply urgent_prefix|done|done|].
  unfold takeReadyLocked. rewrite Hp, Hsc. eexists _, _. split; [reflexivity|]. cbn [c_Offset].
  pose proof (qi_sorted _ _ _ _ Hq) as Hso. rewrite Hp, map_app in Hso. cbn [map] in Hso.
  apply StronglySorted_app in Hso as (Hlt & _ & _). change (c_Offset (chunk_at (sch f) q)) with (offset_in (chunks (sch f)) q).
  apply elem_of_app in Hqin as [Hqin|Hqin].
  - enough (offset_in (chunks (sch f)) q < offset_in (chunks (sch f)) p) by lia.
    apply Hlt; [apply list_elem_of_fmap; by exists q|constructor].
  - apply list_elem_of_singleton in Hqin as ->. lia.
Qed.

(** The scheduler's memory is exact and its releases cannot panic.  In every
    reachable state of an open flow the shared budget counts what others hold, what
    the producer has just reserved, and one reservation per chunk still retained;
    [Complete] of any offset succeeds; and [Close], in whatever order the chunks are
    visited, gives back every reservation of the flow. *)
Theorem scheduler_memory_exact cfg m f b :
  budget_ok m -> steps fstep (flow_start cfg m) f -> s_closed (sch f) = false -> s_memory (sch f) = Some b ->
  used b = elsewhere f + held_bytes (prod_ f) (sch f) + reserved (chunks (sch f)) /\
  (forall lane offset, Complete (sch f) lane offset <> None) /\
  (forall visit, visit ≡ₚ elements (seen_chunks (sch f)) ->
    exists s' b', Stripe_Close visit (sch f) = Some s' /\ s_memory s' = Some b' /\
      used b' = elsewhere f + held_bytes (prod_ f) (sch f)).
Proof.
  intros Hm Hst Ho Hb. pose proof (flow_open f (flow_reach _ _ _ Hm Hst) Ho) as Hs.
  destruct (si_mem _ _ _ _ _ Hs) as [Hn Hme]. rewrite Hb in Hme. split; [apply Hme|]. split.
  - intros lane offset. by destruct (Complete_inv _ _ _ _ lane offset Hs) as (s' & -> & _).
  - intros visit Hv. destruct (Close_inv _ _ _ _ visit Hs Hv) as (s' & Hc & Hci & _ & _).
    destruct (ci_mem _ _ _ _ Hci) as [_ Hm']. exists s'.
    assert (Hsome : is_Some (s_memory s')).
    { eapply Close_budget; [exact Hc|by eexists]. }
    destruct Hsome as [b' Hb']. exists b'. rewrite Hb' in Hm'. by destruct Hm'.
Qed.

(** ** A concrete flow *)

Definition ex_cfg : StripeConfig := mkStripeConfig 4 4 64 100 0.
Definition ex_budget : option Budget := Some (mkBudget 100 10 10 0 0).
Definition ex_ans : answers := mkAnswers None None None (Some (mkWindows (fun _ _ => 0) 100 None)) 0.

Definition after_reserve (s : Scheduler) : Scheduler :=
  with_memory s (match s_memory s with
    | Some b => Some (snd (Acquire_enter false (ChunkSize (s_cfg s)) b)) | None => None end).
Definition after_read (s : Scheduler) (data : bytes) (r : read_end) : Scheduler :=
  default s (produce_read s data r).
Definition after_next (s : Scheduler) (lane : Z) : Scheduler := snd (Next_pass s ex_ans false lane 100).
Definition after_complete (s : Scheduler) (lane o : Z) : Scheduler := default s (Complete s lane o).

(** Two reads of six bytes, both issued to lane 1, whose first attempt fails; then
    the source ends; then both chunks are acknowledged. *)
Definition ex0 : Scheduler := sch (flow_start ex_cfg ex_budget).
Definition ex1 : Scheduler := after_read (after_reserve ex0) [1; 2; 3; 4] ReadMore.
Definition ex2 : Scheduler := after_read (after_reserve ex1) [5; 6] ReadMore.
Definition ex3 : Scheduler := after_next ex2 1.
Definition ex4 : Scheduler := after_next ex3 1.
Definition ex5 : Scheduler := Fail_attempt ex4 1 0 1.
Definition ex6 : Scheduler := after_read (after_reserve ex5) [] ReadEOF.
Definition ex7 : Scheduler := after_complete (after_complete ex6 2 0) 1 4.

Definition ex_src : bytes := [1; 2; 3; 4; 5; 6].

Lemma ex_produce s s' sr data r :
  s_closed s = false -> produce_waits s ex_ans = false ->
  granted (s_memory s) (ChunkSize (s_cfg s)) (s_memory (after_reserve s)) ->
  len data <= ChunkSize (s_cfg s) -> len sr + len data < 2 ^ 63 ->
  produce_read (after_reserve s) data r = Some s' ->
  steps fstep (mkFlow s Checking sr ∅ 10) (mkFlow s' (producer_after s r) (sr ++ data) ∅ 10).
Proof.
  intros Hc Hw Hg Hd Hl Hr.
  eapply steps_cons; [by apply (f_admit _ _ _ _ ex_ans)|].
  eapply steps_cons; [by apply f_reserve|].
  apply steps_one. pose proof (f_read (after_reserve s) sr ∅ 10 data r s' Hd Hl Hr) as Hf.
  unfold producer_after in *. cbn [s_closed after_reserve with_memory] in Hf. rewrite Hc in *. exact Hf.
Qed.

Ltac run_produce s s' sr data r := apply (ex_produce s s' sr data r); [reflexivity|reflexivity| |vm_compute; congruence|reflexivity|reflexivity];
  cbn; eexists; split; reflexivity.

Lemma ex5_reachable : steps fstep (flow_start ex_cfg ex_budget) (mkFlow ex5 Checking ex_src ∅ 10).
Proof.
  apply (steps_trans _ _ (mkFlow ex1 Checking ([] ++ [1; 2; 3; 4]) ∅ 10)); [run_produce ex0 ex1 (@nil Z) [1; 2; 3; 4] ReadMore|].
  apply (steps_trans _ _ (mkFlow ex2 Checking ex_src ∅ 10)).
  { change ex_src with (([] ++ [1; 2; 3; 4]) ++ [5; 6]).
    run_produce ex1 ex2 ([] ++ [1; 2; 3; 4]) [5; 6] ReadMore. }
  eapply steps_cons; [apply (f_next _ _ _ _ _ ex_ans false 1 100 (mkChunk 0 [1; 2; 3; 4] false false 1 0) ex3); reflexivity|].
  eapply steps_cons; [apply (f_next _ _ _ _ _ ex_ans false 1 100 (mkChunk 4 [5; 6] false false 2 0) ex4); reflexivity|].
  eapply steps_cons; [apply (f_fail _ _ _ _ _ 1 0 1)|]. apply steps_refl.
Qed.

Lemma ex6_reachable : steps fstep (flow_start ex_cfg ex_budget) (mkFlow ex6 Stopped ex_src ∅ 10).
Proof.
  apply (steps_trans _ _ _ _ ex5_reachable). change ex_src with (ex_src ++ []) at 2.
  run_produce ex5 ex6 ex_src (@nil Z) ReadEOF.
Qed.

Lemma ex7_reachable :
  steps fstep (flow_start ex_cfg ex_budget) (mkFlow ex7 Stopped ex_src ({[4]} ∪ ({[0]} ∪ ∅)) 10).
Proof.
  apply (steps_trans _ _ _ _ ex6_reachable).
  assert (H1 : Complete ex6 2 0 = Some (after_complete ex6 2 0)) by (vm_compute; reflexivity).
  assert (H2 : Complete (after_complete ex6 2 0) 1 4 = Some ex7) by (vm_compute; reflexivity).
  apply (steps_cons _ _ _ _ (f_complete ex6 Stopped ex_src ∅ 10 2 0 _ H1)).
  exact (steps_one _ _ _ (f_complete _ Stopped ex_src _ 10 1 4 _ H2)).
Qed.

Lemma ex_budget_ok : budget_ok ex_budget.
Proof. cbn. unfold Budget_wf. cbn. lia. Qed.

Definition ex5_flow : flow := mkFlow ex5 Checking ex_src ∅ 10.

Lemma scheduler_accounts_exact_witness :
  LaneOutstanding ex5 1 = (1, 2, 2) /\
  snd (Stripe_Pending ex5) = live_weight (chunks ex5) (live ex5) w_total.
Proof.
  split; [vm_compute; reflexivity|].
  apply (scheduler_accounts_exact ex_cfg ex_budget ex5_flow); [apply ex_budget_ok|apply ex5_reachable|reflexivity].
Defined.

Lemma scheduler_loses_nothing_witness :
  exists p c, chunks ex5 !! p = Some c /\ c_Offset c <= 3 < c_Offset c + len (c_Data c).
Proof.
  destruct (scheduler_loses_nothing ex_cfg ex_budget ex5_flow 3) as (p & c & Hc & Hx & _);
    [apply ex_budget_ok|apply ex5_reachable|reflexivity|vm_compute; split; congruence|].
  exists p, c. split; [exact Hc|exact Hx].
Defined.

Lemma done_means_delivered_witness : delivered ex_src ({[4]} ∪ ({[0]} ∪ ∅)) (chunks ex7).
Proof.
  refine (done_means_delivered ex_cfg ex_budget (mkFlow ex7 Stopped ex_src ({[4]} ∪ ({[0]} ∪ ∅)) 10)
    ex_budget_ok ex7_reachable _).
  vm_compute. reflexivity.
Defined.

Lemma next_issues_oldest_witness : count_of (laneLoad (acct ex5)) 2 < LaneWindow (s_cfg ex5).
Proof.
  apply (next_issues_oldest ex_cfg ex_budget ex5_flow ex_ans false 2 100
    (mkChunk 0 [1; 2; 3; 4] false false 3 0) (after_next ex5 2));
    [apply ex_budget_ok|apply ex5_reachable|reflexivity|vm_compute; reflexivity|vm_compute; reflexivity].
Defined.

(** The flow's window is one byte, and still the failed chunk is handed out. *)
Lemma recovery_never_withheld_witness :
  exists c s', Next_pass ex5 (mkAnswers None None None (Some (mkWindows (fun _ _ => 1) 1 None)) 0) false 1 1 =
    (NextChunk c, s') /\ c_Offset c <= offset_in (chunks ex5) 0.
Proof.
  apply (recovery_never_withheld ex_cfg ex_budget ex5_flow);
    [apply ex_budget_ok|apply ex5_reachable|reflexivity|vm_compute; reflexivity| |vm_compute; reflexivity|vm_compute; reflexivity].
  apply list_elem_of_In. vm_compute. by left.
Defined.

Lemma scheduler_memory_exact_witness : Complete ex5 1 0 <> None.
Proof.
  apply (scheduler_memory_exact ex_cfg ex_budget ex5_flow (mkBudget 100 18 18 0 0));
    [apply ex_budget_ok|apply ex5_reachable|reflexivity|vm_compute; reflexivity].
Defined.

(** The final marker need not ride on the last chunk.  [markEOFLocked] marks
    the last chunk of the ready set; when a chunk has come back while the stream's
    tail is in flight, that is an older chunk: here, after the end of the source,
    the chunk of bytes 0-4 is marked final, the outstanding chunk of bytes 4-6 ends
    the stream, and no other chunk is marked. *)
Theorem final_marks_older_chunk :
  exists f, steps fstep (flow_start ex_cfg ex_budget) f /\ eof (sch f) = true /\
    map (fun pc => (c_Offset (snd pc), Chunk_End (snd pc), c_Final (snd pc))) (map_to_list (chunks (sch f))) ≡ₚ
      [(0, 4, true); (4, 6, false)] /\
    s_nextOffset (sch f) = 6 /\ is_Some (live (sch f) !! 4).
Proof.
  exists (mkFlow ex6 Stopped ex_src ∅ 10). split; [apply ex6_reachable|]. split; [vm_compute; reflexivity|].
  split; [vm_compute; first [reflexivity|apply Permutation_swap]|]. split; [vm_compute; reflexivity|].
  vm_compute. by eexists.
Qed.
