(* ===== verification/FlowSched.v ===== *)
(** The per-path flow scheduler ([internal/pep/flowscheduler.go]).

    Grants and per-flow states are shared by pointer, so a scheduler carries a
    store of each and everything else names them by address.  [g_ready] is the
    grant's channel: [true] once closed, and closing it again is a panic
    ([None]).  The clock is an argument; [dispatchLocked] reads it once per pass.
    [flowSchedulerSet] keeps one scheduler per path, and the blocking [acquire] is
    split at its critical sections: [acquire_request] up to the wait, and
    [acquire_settle] for what ends it. *)

From S2P Require Import Prelude Frame.
Import protocol.

Record flowSchedulerConfig := mkFSConfig {
  startupBytes : Z;
  perFlow : Z;
  maxActive : Z;
  interactiveBurst : Z;
  bulkAge : Z
}.

Definition defaultFlowStartupBytes : Z := Z.shiftl 512 10.

(** Durations in milliseconds. *)
Definition defaultFlowSchedulerConfig : flowSchedulerConfig :=
  mkFSConfig defaultFlowStartupBytes 2 8 3 250.

Definition withDefaults (c : flowSchedulerConfig) : flowSchedulerConfig :=
  let d := defaultFlowSchedulerConfig in
  mkFSConfig
    (if startupBytes c <=? 0 then startupBytes d else startupBytes c)
    (if perFlow c <=? 0 then perFlow d else perFlow c)
    (if maxActive c <=? 0 then maxActive d else maxActive c)
    (if interactiveBurst c <=? 0 then interactiveBurst d else interactiveBurst c)
    (if bulkAge c <=? 0 then bulkAge d else bulkAge c).

Inductive sched_error := SchedulingClosed | ContextCanceled.

Record flowGrant := mkGrant {
  g_flowID : Z;
  g_bytes : Z;
  g_high : bool;
  g_queued : Z;
  g_ready : bool;
  g_granted : bool;
  g_done : option sched_error;
  g_state : Z
}.

Record flowScheduleState := mkFState {
  st_active : Z;
  st_pending : Z;
  st_startupAssigned : Z;
  st_grants : gset Z
}.

Record flowScheduler := mkFScheduler {
  fs_cfg : flowSchedulerConfig;
  states : gmap Z Z;
  state_store : gmap Z flowScheduleState;
  grant_store : gmap Z flowGrant;
  fresh : Z;
  high : list Z;
  bulk : list Z;
  active : Z;
  highRun : Z;
  lastFlow : Z
}.

Definition newFlowScheduler (cfg : flowSchedulerConfig) : flowScheduler :=
  mkFScheduler (withDefaults cfg) ∅ ∅ ∅ 1 [] [] 0 0 0.

Definition zero_grant : flowGrant := mkGrant 0 0 false 0 false false None 0.
Definition zero_state : flowScheduleState := mkFState 0 0 0 ∅.

Definition grant_at (s : flowScheduler) (g : Z) : flowGrant := default zero_grant (grant_store s !! g).
Definition state_at (s : flowScheduler) (p : Z) : flowScheduleState := default zero_state (state_store s !! p).

Definition with_queues (s : flowScheduler) (h b : list Z) (run : Z) : flowScheduler :=
  mkFScheduler (fs_cfg s) (states s) (state_store s) (grant_store s) (fresh s) h b (active s) run (lastFlow s).

(** A grant and its state change together, and the count of active grants. *)
Definition with_grant (s : flowScheduler) (g : Z) (gr : flowGrant) (st : flowScheduleState) (n : Z) : flowScheduler :=
  mkFScheduler (fs_cfg s) (states s) (<[g_state gr := st]> (state_store s)) (<[g := gr]> (grant_store s)) (fresh s)
    (high s) (bulk s) n (highRun s) (lastFlow s).

Definition emptyLocked (s : flowScheduler) : bool :=
  (active s =? 0) && (len (high s) =? 0) && (len (bulk s) =? 0) && (Z.of_nat (size (states s)) =? 0).

(** ** Choosing a grant *)

Definition eligible (s : flowScheduler) (g : Z) : bool :=
  match g_done (grant_at s g) with
  | Some _ => false
  | None => st_active (state_at s (g_state (grant_at s g))) <? perFlow (fs_cfg s)
  end.

(** The scan of [takeEligibleLocked]: the index selected, [fallback] being the
    first eligible one. *)
Fixpoint select_scan (s : flowScheduler) (q : list Z) (i : nat) (fallback : option nat) : option nat :=
  match q with
  | [] => fallback
  | g :: rest =>
      if negb (eligible s g) then select_scan s rest (S i) fallback
      else
        let fallback := match fallback with None => Some i | Some _ => fallback end in
        if negb (g_flowID (grant_at s g) =? lastFlow s) then Some i
        else select_scan s rest (S i) fallback
  end.

Definition takeEligibleLocked (s : flowScheduler) (q : list Z) : option Z * list Z :=
  match select_scan s q 0 None with
  | None => (None, q)
  | Some i => (q !! i, delete i q)
  end.

Inductive pass_result :=
| PassStop
| PassGrant (s : flowScheduler)
| PassPanic.

(** Handing the chosen grant its slot. *)
Definition grant_slot (s : flowScheduler) (g : Z) : pass_result :=
  let gr := grant_at s g in
  let st := state_at s (g_state gr) in
  if g_ready gr then PassPanic
  else
    let s' := with_grant s g
      (mkGrant (g_flowID gr) (g_bytes gr) (g_high gr) (g_queued gr) true true (g_done gr) (g_state gr))
      (mkFState (st_active st + 1) (st_pending st - 1) (st_startupAssigned st) ({[g]} ∪ st_grants st))
      (active s + 1) in
    PassGrant (mkFScheduler (fs_cfg s') (states s') (state_store s') (grant_store s') (fresh s') (high s') (bulk s')
      (active s') (highRun s') (g_flowID gr)).

Definition chooseBulk (s : flowScheduler) (now : Z) : bool :=
  match bulk s with
  | [] => false
  | b :: _ => (len (high s) =? 0) || (highRun s >=? interactiveBurst (fs_cfg s)) ||
              (now - g_queued (grant_at s b) >=? bulkAge (fs_cfg s))
  end.

(** One pass of the loop of [dispatchLocked], below the limit of active grants. *)
Definition dispatch_pass (s : flowScheduler) (now : Z) : pass_result :=
  let '(g, s) :=
    if chooseBulk s now then
      match takeEligibleLocked s (bulk s) with
      | (Some g, b) => (Some g, with_queues s (high s) b 0)
      | (None, b) => (None, with_queues s (high s) b (highRun s))
      end
    else (None, s) in
  let '(g, s) :=
    match g with
    | Some g => (Some g, s)
    | None =>
        match takeEligibleLocked s (high s) with
        | (Some g, h) => (Some g, with_queues s h (bulk s) (highRun s + 1))
        | (None, h) => (None, with_queues s h (bulk s) (highRun s))
        end
    end in
  let '(g, s) :=
    match g with
    | Some g => (Some g, s)
    | None =>
        match takeEligibleLocked s (bulk s) with
        | (Some g, b) => (Some g, with_queues s (high s) b 0)
        | (None, b) => (None, with_queues s (high s) b (highRun s))
        end
    end in
  match g with None => PassStop | Some g => grant_slot s g end.

Fixpoint dispatch_loop (fuel : nat) (clock : nat -> Z) (s : flowScheduler) : option flowScheduler :=
  match fuel with
  | O => Some s
  | S k =>
      if active s <? maxActive (fs_cfg s) then
        match dispatch_pass s (clock k) with
        | PassStop => Some s
        | PassPanic => None
        | PassGrant s' => dispatch_loop k clock s'
        end
      else Some s
  end.

(** Every pass that continues takes a grant off a queue. *)
Definition dispatchLocked (clock : nat -> Z) (s : flowScheduler) : option flowScheduler :=
  dispatch_loop (S (length (high s) + length (bulk s))) clock s.

(** ** The operations *)

Definition request_grant (s : flowScheduler) (flowID class nbytes now : Z) : Z * flowScheduler :=
  let '(p, s) :=
    match states s !! flowID with
    | Some p => (p, s)
    | None =>
        (fresh s, mkFScheduler (fs_cfg s) (<[flowID := fresh s]> (states s)) (<[fresh s := zero_state]> (state_store s))
           (grant_store s) (fresh s + 1) (high s) (bulk s) (active s) (highRun s) (lastFlow s))
    end in
  let st := state_at s p in
  let hi := (class =? ClassNew) || (class =? ClassInteractive) in
  let startup := negb hi && (st_startupAssigned st <? startupBytes (fs_cfg s)) in
  let hi := hi || startup in
  let assigned := if startup then st_startupAssigned st + nbytes else st_startupAssigned st in
  let g := fresh s in
  let s := with_grant s g (mkGrant flowID nbytes hi now false false None p)
    (mkFState (st_active st) (st_pending st + 1) assigned (st_grants st)) (active s) in
  let s := mkFScheduler (fs_cfg s) (states s) (state_store s) (grant_store s) (g + 1) (high s) (bulk s)
    (active s) (highRun s) (lastFlow s) in
  (g, if hi then with_queues s (high s ++ [g]) (bulk s) (highRun s)
      else with_queues s (high s) (bulk s ++ [g]) (highRun s)).

Definition request (s : flowScheduler) (flowID class nbytes now : Z) (clock : nat -> Z) : option (Z * flowScheduler) :=
  let '(g, s) := request_grant s flowID class nbytes now in
  match dispatchLocked clock s with None => None | Some s' => Some (g, s') end.

Definition set_done (gr : flowGrant) (e : sched_error) (ready : bool) : flowGrant :=
  mkGrant (g_flowID gr) (g_bytes gr) (g_high gr) (g_queued gr) ready (g_granted gr) (Some e) (g_state gr).

(** Giving a granted slot back. *)
Definition release_slot (s : flowScheduler) (g : Z) (e : sched_error) : flowScheduler :=
  let gr := grant_at s g in
  let st := state_at s (g_state gr) in
  with_grant s g (set_done gr e (g_ready gr))
    (mkFState (st_active st - 1) (st_pending st) (st_startupAssigned st) (st_grants st ∖ {[g]})) (active s - 1).

Definition release_grant (s : flowScheduler) (g : Z) : flowScheduler :=
  let gr := grant_at s g in
  if g_granted gr then release_slot s g SchedulingClosed
  else with_grant s g (set_done gr SchedulingClosed (g_ready gr)) (state_at s (g_state gr)) (active s).

(** [release]: whether the scheduler is empty, and the scheduler after. *)
Definition fs_release (s : flowScheduler) (g : Z) (clock : nat -> Z) : option (bool * flowScheduler) :=
  match g_done (grant_at s g) with
  | Some _ => Some (emptyLocked s, s)
  | None =>
      match dispatchLocked clock (release_grant s g) with
      | None => None | Some s' => Some (emptyLocked s', s')
      end
  end.

Fixpoint removeFlowGrant (q : list Z) (target : Z) : list Z :=
  match q with
  | [] => []
  | g :: rest => if negb (g =? target) then g :: removeFlowGrant rest target else rest
  end.

Definition cancel_grant (s : flowScheduler) (g : Z) : flowScheduler :=
  let gr := grant_at s g in
  if g_granted gr then release_slot s g ContextCanceled
  else
    let st := state_at s (g_state gr) in
    let s := with_grant s g (set_done gr ContextCanceled (g_ready gr))
      (mkFState (st_active st) (st_pending st - 1) (st_startupAssigned st) (st_grants st)) (active s) in
    with_queues s (removeFlowGrant (high s) g) (removeFlowGrant (bulk s) g) (highRun s).

Definition fs_cancel (s : flowScheduler) (g : Z) (clock : nat -> Z) : option (bool * flowScheduler) :=
  match g_done (grant_at s g) with
  | Some _ => Some (emptyLocked s, s)
  | None =>
      match dispatchLocked clock (cancel_grant s g) with
      | None => None | Some s' => Some (emptyLocked s', s')
      end
  end.

(** [closePending] of [closeFlow]: the queue kept, and the scheduler with the
    removed grants failed and woken. *)
Fixpoint closePending (s : flowScheduler) (flowID p : Z) (q : list Z) : option (list Z * flowScheduler) :=
  match q with
  | [] => Some ([], s)
  | g :: rest =>
      let gr := grant_at s g in
      if negb (g_flowID gr =? flowID) || (match g_done gr with Some _ => true | None => false end) then
        match closePending s flowID p rest with
        | None => None
        | Some (kept, s) => Some (g :: kept, s)
        end
      else if g_ready gr then None
      else
        let st := state_at s p in
        closePending
          (mkFScheduler (fs_cfg s) (states s)
            (<[p := mkFState (st_active st) (st_pending st - 1) (st_startupAssigned st) (st_grants st)]> (state_store s))
            (<[g := set_done gr SchedulingClosed true]> (grant_store s)) (fresh s) (high s) (bulk s) (active s)
            (highRun s) (lastFlow s)) flowID p rest
  end.

(** The loop over the flow's granted slots, in the order given. *)
Fixpoint closeGranted (s : flowScheduler) (p : Z) (visit : list Z) : flowScheduler :=
  match visit with
  | [] => s
  | g :: rest =>
      let gr := grant_at s g in
      let st := state_at s p in
      let undone := match g_done gr with None => true | Some _ => false end in
      let st' := mkFState (if undone then st_active st - 1 else st_active st) (st_pending st) (st_startupAssigned st)
        (st_grants st ∖ {[g]}) in
      closeGranted
        (mkFScheduler (fs_cfg s) (states s) (<[p := st']> (state_store s))
          (if undone then <[g := set_done gr SchedulingClosed (g_ready gr)]> (grant_store s) else grant_store s)
          (fresh s) (high s) (bulk s) (if undone then active s - 1 else active s) (highRun s) (lastFlow s)) p rest
  end.

Definition closeFlow_clear (s : flowScheduler) (flowID p : Z) (visit : list Z) : option flowScheduler :=
  match closePending s flowID p (high s) with
  | None => None
  | Some (h, s) =>
      let s := with_queues s h (bulk s) (highRun s) in
      match closePending s flowID p (bulk s) with
      | None => None
      | Some (b, s) =>
          let s := with_queues s (high s) b (highRun s) in
          let s := closeGranted s p visit in
          Some (mkFScheduler (fs_cfg s) (delete flowID (states s)) (state_store s) (grant_store s) (fresh s)
            (high s) (bulk s) (active s) (highRun s) (lastFlow s))
      end
  end.

Definition fs_closeFlow (s : flowScheduler) (flowID : Z) (visit : list Z) (clock : nat -> Z)
    : option (bool * flowScheduler) :=
  match states s !! flowID with
  | None => Some (emptyLocked s, s)
  | Some p =>
      match closeFlow_clear s flowID p visit with
      | None => None
      | Some s =>
          match dispatchLocked clock s with
          | None => None | Some s' => Some (emptyLocked s', s')
          end
      end
  end.

(** ** One scheduler per path *)

Record flowSchedulerSet := mkFSet {
  set_cfg : flowSchedulerConfig;
  paths : gmap string Z;
  schedulers : gmap Z flowScheduler;
  set_fresh : Z
}.

Definition newFlowSchedulerSet (startup : Z) : flowSchedulerSet :=
  let d := defaultFlowSchedulerConfig in
  mkFSet (if startup >? 0 then mkFSConfig startup (perFlow d) (maxActive d) (interactiveBurst d) (bulkAge d) else d)
    ∅ ∅ 1.

Definition scheduler_at (t : flowSchedulerSet) (sp : Z) : flowScheduler :=
  default (newFlowScheduler (set_cfg t)) (schedulers t !! sp).

Definition put_scheduler (t : flowSchedulerSet) (sp : Z) (s : flowScheduler) : flowSchedulerSet :=
  mkFSet (set_cfg t) (paths t) (<[sp := s]> (schedulers t)) (set_fresh t).

(** The critical section of [acquire] that finds the path's scheduler and asks it
    for a grant: the scheduler, the grant, and the set. *)
Definition acquire_request (t : flowSchedulerSet) (path : string) (flowID class nbytes now : Z) (clock : nat -> Z)
    : option (Z * Z * flowSchedulerSet) :=
  let '(sp, t) :=
    match paths t !! path with
    | Some sp => (sp, t)
    | None =>
        (set_fresh t, mkFSet (set_cfg t) (<[path := set_fresh t]> (paths t))
          (<[set_fresh t := newFlowScheduler (set_cfg t)]> (schedulers t)) (set_fresh t + 1))
    end in
  match request (scheduler_at t sp) flowID class nbytes now clock with
  | None => None
  | Some (g, s') => Some (sp, g, put_scheduler t sp s')
  end.

Inductive acquire_entry :=
| EntryUnscheduled
| EntryClosed
| EntryWait (sp g : Z).

(** [acquire] up to its wait; [stop1] and [stop2] are what the two first looks at
    the stop channel see. *)
Definition acquire_enter (t : flowSchedulerSet) (stop1 stop2 : bool) (path : string)
    (flowID class nbytes now : Z) (clock : nat -> Z) : option (acquire_entry * flowSchedulerSet) :=
  if (path =? "")%string || (nbytes <=? 0) then Some (EntryUnscheduled, t)
  else if stop1 then Some (EntryClosed, t)
  else if stop2 then Some (EntryClosed, t)
  else
    match acquire_request t path flowID class nbytes now clock with
    | None => None
    | Some (sp, g, t') => Some (EntryWait sp g, t')
    end.

Definition removeIfEmpty (t : flowSchedulerSet) (path : string) (sp : Z) : flowSchedulerSet :=
  if bool_decide (paths t !! path = Some sp) && emptyLocked (scheduler_at t sp)
  then mkFSet (set_cfg t) (delete path (paths t)) (schedulers t) (set_fresh t) else t.

Definition cancel_at (t : flowSchedulerSet) (path : string) (sp g : Z) (clock : nat -> Z) : option flowSchedulerSet :=
  match fs_cancel (scheduler_at t sp) g clock with
  | None => None
  | Some (e, s') => let t := put_scheduler t sp s' in Some (if e : bool then removeIfEmpty t path sp else t)
  end.

(** What ends the wait of [acquire]: the stop channel, the grant's channel (with
    what a last look at the stop channel sees), or the context. *)
Inductive acquire_event := EvStop | EvReady (stopped : bool) | EvContext.

Inductive acquire_result :=
| AcquireGranted
| AcquireFailed (e : sched_error)
| AcquireContext.

Definition acquire_settle (t : flowSchedulerSet) (path : string) (sp g : Z) (ev : acquire_event) (clock : nat -> Z)
    : option (acquire_result * flowSchedulerSet) :=
  let cancelled r := match cancel_at t path sp g clock with None => None | Some t' => Some (r, t') end in
  match ev with
  | EvStop | EvReady true => cancelled (AcquireFailed SchedulingClosed)
  | EvContext => cancelled AcquireContext
  | EvReady false =>
      match g_done (grant_at (scheduler_at t sp) g) with
      | Some e =>
          Some (AcquireFailed e, if emptyLocked (scheduler_at t sp) then removeIfEmpty t path sp else t)
      | None => Some (AcquireGranted, t)
      end
  end.

(** The function [acquire] returns, run once. *)
Definition release_at (t : flowSchedulerSet) (path : string) (sp g : Z) (clock : nat -> Z) : option flowSchedulerSet :=
  match fs_release (scheduler_at t sp) g clock with
  | None => None
  | Some (e, s') => let t := put_scheduler t sp s' in Some (if e : bool then removeIfEmpty t path sp else t)
  end.

(** One turn of the loop of [closeFlow] over the paths. *)
Definition closeFlow_at (t : flowSchedulerSet) (flowID : Z) (path : string) (sp : Z) (visit : list Z)
    (clock : nat -> Z) : option flowSchedulerSet :=
  match fs_closeFlow (scheduler_at t sp) flowID visit clock with
  | None => None
  | Some (e, s') => let t := put_scheduler t sp s' in Some (if e : bool then removeIfEmpty t path sp else t)
  end.

(** ** The invariant *)

(** A grant that holds a slot, and one that waits for one. *)
Definition holds (gr : flowGrant) : bool := g_granted gr && match g_done gr with None => true | Some _ => false end.
Definition queued (gr : flowGrant) : bool :=
  negb (g_granted gr) && match g_done gr with None => true | Some _ => false end.

Definition ind (b : bool) : Z := if b then 1 else 0.
Definition count_holding (p : Z) (m : gmap Z flowGrant) : Z :=
  msum (fun _ gr => if g_state gr =? p then ind (holds gr) else 0) m.
Definition count_queued (p : Z) (m : gmap Z flowGrant) : Z :=
  msum (fun _ gr => if g_state gr =? p then ind (queued gr) else 0) m.

(** What a state says of the grants that point to it. *)
Record state_inv (m : gmap Z flowGrant) (k p : Z) (st : flowScheduleState) : Prop := mk_state_inv {
  sti_active : st_active st = count_holding p m;
  sti_pending : st_pending st = count_queued p m;
  sti_grants : forall g, g ∈ st_grants st <-> exists gr, m !! g = Some gr /\ holds gr = true /\ g_state gr = p;
  sti_limit : st_active st <= k
}.

Record finv (s : flowScheduler) : Prop := mk_finv {
  fi_cfg : 0 < perFlow (fs_cfg s) /\ 0 < maxActive (fs_cfg s) /\ 0 < interactiveBurst (fs_cfg s);
  fi_grants : forall g gr, grant_store s !! g = Some gr ->
    g < fresh s /\ is_Some (state_store s !! g_state gr) /\
    (g_done gr = None -> g_ready gr = g_granted gr /\ states s !! g_flowID gr = Some (g_state gr));
  fi_queue : NoDup (high s ++ bulk s) /\
    forall g, g ∈ high s ++ bulk s <-> exists gr, grant_store s !! g = Some gr /\ queued gr = true;
  fi_states : forall f p, states s !! f = Some p -> is_Some (state_store s !! p);
  fi_inj : forall f1 f2 p, states s !! f1 = Some p -> states s !! f2 = Some p -> f1 = f2;
  fi_store : forall p st, state_store s !! p = Some st ->
    p < fresh s /\ state_inv (grant_store s) (perFlow (fs_cfg s)) p st;
  fi_active : active s = msum (fun _ gr => ind (holds gr)) (grant_store s);
  fi_limit : active s <= maxActive (fs_cfg s);
  fi_woken : forall g gr, grant_store s !! g = Some gr -> g_done gr = Some SchedulingClosed -> g_ready gr = true
}.

(** Nothing more can be handed out. *)
Definition saturated (s : flowScheduler) : Prop :=
  maxActive (fs_cfg s) <= active s \/ forall g, g ∈ high s ++ bulk s -> eligible s g = false.

(** ** Lemmas on one grant's change *)

Lemma count_update {I : flowGrant -> bool} p m g gr gr' :
  m !! g = Some gr -> g_state gr' = g_state gr ->
  msum (fun _ x => if g_state x =? p then ind (I x) else 0) (<[g := gr']> m) =
  msum (fun _ x => if g_state x =? p then ind (I x) else 0) m +
    (if g_state gr =? p then ind (I gr') - ind (I gr) else 0).
Proof. intros Hg Hs. rewrite (msum_update _ _ _ _ _ Hg), Hs. destruct (_ =? _); lia. Qed.

(** The state of a grant that changes, and the others'. *)
Lemma state_inv_update m k p st g gr gr' q st1 :
  m !! g = Some gr -> g_state gr' = g_state gr -> state_inv m k q st1 ->
  (q <> p \/ st = st1) -> p = g_state gr ->
  forall st', st_active st' = st_active st - ind (holds gr) + ind (holds gr') ->
  st_pending st' = st_pending st - ind (queued gr) + ind (queued gr') ->
  st_grants st' = (if holds gr' then {[g]} ∪ st_grants st else st_grants st ∖ {[g]}) -> st_active st' <= k ->
  state_inv (<[g := gr']> m) k q (if q =? p then st' else st1).
Proof.
  intros Hg Hs [Ha Hp Hgr Hl] Hq -> st' Ha' Hp' Hgr' Hk.
  unfold count_holding, count_queued in *. destruct (Z.eqb_spec q (g_state gr)) as [->|Hne].
  - destruct Hq as [Hx0|<-]; [done|]. split.
    + unfold count_holding. rewrite (count_update _ _ _ _ _ Hg Hs), Z.eqb_refl, Ha'. lia.
    + unfold count_queued. rewrite (count_update _ _ _ _ _ Hg Hs), Z.eqb_refl, Hp'. lia.
    + intros x. rewrite Hgr'. destruct (decide (x = g)) as [->|Hx].
      * rewrite lookup_insert_eq. destruct (holds gr') eqn:Eh.
        -- split; [intros _; by exists gr'|set_solver].
        -- split; [set_solver|]. intros (y & [= <-] & Hy & _). congruence.
      * rewrite lookup_insert_ne by done. rewrite <- Hgr. destruct (holds gr'); set_solver.
    + done.
  - split.
    + unfold count_holding. rewrite (count_update _ _ _ _ _ Hg Hs).
      replace (g_state gr =? q) with false by lia. lia.
    + unfold count_queued. rewrite (count_update _ _ _ _ _ Hg Hs).
      replace (g_state gr =? q) with false by lia. lia.
    + intros x. rewrite Hgr. destruct (decide (x = g)) as [->|Hx].
      * rewrite lookup_insert_eq. split; intros (y & Hy & Hh & Hyp); exfalso; congruence.
      * by rewrite lookup_insert_ne.
    + done.
Qed.

Lemma finv_replace s g gr gr' st st' h b n run lf :
  finv s -> grant_store s !! g = Some gr -> g_state gr' = g_state gr -> g_flowID gr' = g_flowID gr ->
  (g_done gr' = None -> g_done gr = None /\ g_ready gr' = g_granted gr') ->
  (g_done gr' = Some SchedulingClosed -> g_ready gr' = true) ->
  state_store s !! g_state gr = Some st ->
  st_active st' = st_active st - ind (holds gr) + ind (holds gr') ->
  st_pending st' = st_pending st - ind (queued gr) + ind (queued gr') ->
  st_grants st' = (if holds gr' then {[g]} ∪ st_grants st else st_grants st ∖ {[g]}) ->
  st_active st' <= perFlow (fs_cfg s) ->
  n = active s - ind (holds gr) + ind (holds gr') -> n <= maxActive (fs_cfg s) ->
  NoDup (h ++ b) ->
  (forall x, x ∈ h ++ b <-> (x = g /\ queued gr' = true) \/ (x <> g /\ x ∈ high s ++ bulk s)) ->
  finv (mkFScheduler (fs_cfg s) (states s) (<[g_state gr := st']> (state_store s)) (<[g := gr']> (grant_store s))
    (fresh s) h b n run lf).
Proof.
  intros [Hcfg Hgs [Hnd Hq] Hst Hinj Hstore Hact Hlim Hwk] Hg Hs Hf Hd Hwk' Hsp Ha Hp Hset Hk Hn Hnm Hnd' Hin.
  destruct (Hgs g gr Hg) as (Hlt & Hsome & Hun).
  assert (Hss : forall q, is_Some (state_store s !! q) -> is_Some (<[g_state gr := st']> (state_store s) !! q)).
  { intros q Hs'. apply lookup_insert_is_Some'. by right. }
  split; cbn; try done.
  - intros x y Hx. apply lookup_insert_Some in Hx as [[<- <-]|[Hne Hx]].
    + rewrite Hs, Hf. split; [done|]. split; [by apply Hss|]. intros Hdn. destruct (Hd Hdn) as [Hd1 Hd2].
      destruct (Hun Hd1) as [_ Hst']. done.
    + destruct (Hgs x y Hx) as (H1 & H2 & H3). split; [done|]. split; [by apply Hss|done].
  - split; [done|]. intros x. rewrite Hin. destruct (decide (x = g)) as [->|Hne].
    + rewrite lookup_insert_eq. split.
      * intros [[_ Hqd]|[? _]]; [|done]. by exists gr'.
      * intros (y & [= <-] & Hqd). by left.
    + rewrite lookup_insert_ne by done. rewrite <- Hq. split; [intros [[? _]|[_ ?]]; done|]. intros. by right.
  - intros f p Hfp. apply Hss. by eapply Hst.
  - intros q sq Hsq.
    assert (Hq' : exists st1, state_store s !! q = Some st1 /\ (q <> g_state gr \/ st = st1) /\
      sq = if q =? g_state gr then st' else st1).
    { apply lookup_insert_Some in Hsq as [[<- <-]|[Hne Hsq]].
      - exists st. rewrite Z.eqb_refl. split; [done|]. split; [by right|done].
      - exists sq. split; [done|]. split; [by left|]. by replace (q =? g_state gr) with false by lia. }
    destruct Hq' as (st1 & Hst1 & Hor & ->). destruct (Hstore q st1 Hst1) as [Hfr Hsi]. split; [done|].
    by eapply state_inv_update.
  - rewrite (msum_update _ _ _ _ _ Hg). lia.
  - intros x y Hx. apply lookup_insert_Some in Hx as [[_ <-]|[_ Hx]]; [done|by eapply Hwk].
Qed.

(** ** Dispatching *)

Lemma select_scan_spec s q : forall i fb r,
  select_scan s q i fb = r ->
  (fb = None -> r = None -> forall g, g ∈ q -> eligible s g = false) /\
  (forall k, r = Some k -> fb = Some k \/ exists g, q !! (k - i)%nat = Some g /\ (i <= k)%nat /\ eligible s g = true) /\
  (fb <> None -> r <> None).
Proof.
  induction q as [|g q IH]; intros i fb r Hr; cbn [select_scan] in Hr.
  { subst r. split; [intros _ _ g Hg; by apply elem_of_nil in Hg|]. split; [by left|done]. }
  destruct (eligible s g) eqn:Ee; cbn [negb] in Hr.
  - destruct (negb _).
    + subst r. split; [done|]. split; [|done]. intros k [= <-]. right. exists g. rewrite Nat.sub_diag. done.
    + destruct (IH _ _ _ Hr) as (_ & H2 & H3). split; [|split].
      * intros -> Hn. by destruct H3.
      * intros k Hk. destruct (H2 k Hk) as [Hfb|(g' & Hg' & Hle & He')].
        -- destruct fb as [j|]; [by left|]. injection Hfb as <-. right. exists g. rewrite Nat.sub_diag. done.
        -- right. exists g'. split; [|split; [lia|done]]. by replace (k - i)%nat with (S (k - S i)) by lia.
      * intros _. apply H3. by destruct fb.
  - destruct (IH _ _ _ Hr) as (H1 & H2 & H3). split; [|split; [|done]].
    + intros Hfb Hn x Hx. apply elem_of_cons in Hx as [->|Hx]; [done|by apply H1].
    + intros k Hk. destruct (H2 k Hk) as [|(g' & Hg' & Hle & He')]; [by left|right]. exists g'.
      split; [|split; [lia|done]]. by replace (k - i)%nat with (S (k - S i)) by lia.
Qed.

(** [takeEligibleLocked] takes an eligible grant off the queue whenever there is
    one. *)
Lemma takeEligible_spec s q :
  (exists g l1 l2, takeEligibleLocked s q = (Some g, l1 ++ l2) /\ q = l1 ++ g :: l2 /\ eligible s g = true) \/
  (takeEligibleLocked s q = (None, q) /\ forall g, g ∈ q -> eligible s g = false).
Proof.
  unfold takeEligibleLocked. destruct (select_scan s q 0 None) as [k|] eqn:Es.
  - left. destruct (select_scan_spec s q 0 None (Some k) Es) as (_ & H2 & _).
    destruct (H2 k eq_refl) as [|(g & Hg & _ & He)]; [done|]. rewrite Nat.sub_0_r in Hg.
    exists g, (take k q), (drop (S k) q). rewrite Hg, delete_take_drop. split; [done|].
    split; [by rewrite take_drop_middle|done].
  - right. split; [done|]. by destruct (select_scan_spec s q 0 None None Es) as (H1 & _ & _); [auto].
Qed.

(** What a pass picked: the grant, the queues and the run left. *)
Definition picked (s : flowScheduler) (g : Z) (h b : list Z) (run : Z) : Prop :=
  eligible s g = true /\
  ((exists l1 l2, high s = l1 ++ g :: l2 /\ h = l1 ++ l2 /\ b = bulk s /\ run = highRun s + 1) \/
   (exists l1 l2, bulk s = l1 ++ g :: l2 /\ b = l1 ++ l2 /\ h = high s /\ run = 0)).

Lemma with_queues_id s : with_queues s (high s) (bulk s) (highRun s) = s.
Proof. by destruct s. Qed.

Lemma dispatch_pass_spec s now :
  (dispatch_pass s now = PassStop /\ forall g, g ∈ high s ++ bulk s -> eligible s g = false) \/
  (exists g h b run, dispatch_pass s now = grant_slot (with_queues s h b run) g /\ picked s g h b run /\
    (highRun s >= interactiveBurst (fs_cfg s) -> (exists x, x ∈ bulk s /\ eligible s x = true) ->
     run = 0 /\ h = high s)).
Proof.
  unfold dispatch_pass.
  destruct (takeEligible_spec s (bulk s)) as [(g & l1 & l2 & Hb & Hbq & He)|[Hb Hbn]].
  - (* some bulk grant is eligible *)
    destruct (chooseBulk s now) eqn:Ec.
    + right. rewrite Hb. exists g, (high s), (l1 ++ l2), 0. split; [done|]. split; [|done].
      split; [done|]. right. by exists l1, l2.
    + assert (Hrun : highRun s < interactiveBurst (fs_cfg s)).
      { unfold chooseBulk in Ec. destruct (bulk s) as [|x l] eqn:Ebs; [by destruct l1|]. bool_to_prop. lia. }
      destruct (takeEligible_spec s (high s)) as [(g' & k1 & k2 & Hhi & Hhq & He')|[Hhi Hhn]].
      * right. rewrite Hhi. exists g', (k1 ++ k2), (bulk s), (highRun s + 1). split; [done|]. split; [|lia].
        split; [done|]. left. by exists k1, k2.
      * right. rewrite Hhi, with_queues_id, Hb. exists g, (high s), (l1 ++ l2), 0. split; [done|]. split; [|done].
        split; [done|]. right. by exists l1, l2.
  - assert (Hs1 : (if chooseBulk s now then
        match takeEligibleLocked s (bulk s) with
        | (Some g, b) => (Some g, with_queues s (high s) b 0)
        | (None, b) => (None, with_queues s (high s) b (highRun s))
        end else (None, s)) = (None, s)).
    { rewrite Hb, with_queues_id. by destruct (chooseBulk s now). }
    rewrite Hs1. destruct (takeEligible_spec s (high s)) as [(g' & k1 & k2 & Hhi & Hhq & He')|[Hhi Hhn]].
    + right. rewrite Hhi. exists g', (k1 ++ k2), (bulk s), (highRun s + 1). split; [done|]. split.
      * split; [done|]. left. by exists k1, k2.
      * intros _ (x & Hx & Hxe). rewrite (Hbn x Hx) in Hxe. done.
    + left. rewrite Hhi, with_queues_id, Hb. split; [done|]. intros x Hx.
      apply elem_of_app in Hx as [|]; [by apply Hhn|by apply Hbn].
Qed.

(** A waiting grant that is picked: it is queued and its state has a free slot. *)
Lemma eligible_spec s g :
  finv s -> g ∈ high s ++ bulk s ->
  exists gr st, grant_store s !! g = Some gr /\ queued gr = true /\ state_store s !! g_state gr = Some st /\
    state_inv (grant_store s) (perFlow (fs_cfg s)) (g_state gr) st /\
    (eligible s g = true <-> st_active st < perFlow (fs_cfg s)).
Proof.
  intros Hs Hg. destruct (fi_queue _ Hs) as [_ Hq]. apply Hq in Hg as (gr & Hgr & Hqd).
  destruct (fi_grants _ Hs g gr Hgr) as (_ & [st Hst] & _). exists gr, st. split; [done|]. split; [done|].
  split; [done|]. split; [by apply (fi_store _ Hs)|]. unfold eligible, grant_at, state_at. rewrite Hgr. cbn.
  rewrite Hst. cbn. unfold queued in Hqd. bool_to_prop. destruct (g_done gr); [done|].
  unfold default, id. rewrite Z.ltb_lt. done.
Qed.

Lemma picked_queues s g h b run :
  finv s -> picked s g h b run ->
  g ∈ high s ++ bulk s /\ NoDup (h ++ b) /\
  (forall x, x ∈ h ++ b <-> x <> g /\ x ∈ high s ++ bulk s) /\
  S (length h + length b) = (length (high s) + length (bulk s))%nat.
Proof.
  intros Hs [_ Hp]. destruct (fi_queue _ Hs) as [Hnd _].
  assert (Hperm : high s ++ bulk s ≡ₚ g :: (h ++ b)).
  { destruct Hp as [(l1 & l2 & Hh & -> & -> & _)|(l1 & l2 & Hb & -> & -> & _)].
    - rewrite Hh, <- app_assoc. cbn. rewrite <- Permutation_middle. by rewrite app_assoc.
    - rewrite Hb, app_assoc. rewrite <- Permutation_middle. by rewrite app_assoc. }
  rewrite Hperm in Hnd. apply NoDup_cons in Hnd as [Hng Hnd]. split; [rewrite Hperm; constructor|]. split; [done|].
  split.
  - intros x. rewrite Hperm, elem_of_cons. split; [|tauto]. intros Hx. split; [congruence|by right].
  - apply Permutation_length in Hperm. rewrite length_app in Hperm. cbn in Hperm. rewrite length_app in Hperm. lia.
Qed.

Lemma grant_slot_inv s g h b run :
  finv s -> active s < maxActive (fs_cfg s) -> picked s g h b run ->
  exists s', grant_slot (with_queues s h b run) g = PassGrant s' /\ finv s' /\ high s' = h /\ bulk s' = b /\
    highRun s' = run /\ fs_cfg s' = fs_cfg s /\ states s' = states s.
Proof.
  intros Hs Hlt Hp. destruct (picked_queues _ _ _ _ _ Hs Hp) as (Hin & Hnd & Hq & _).
  destruct (eligible_spec _ _ Hs Hin) as (gr & st & Hgr & Hqd & Hst & Hsi & He). destruct Hp as [Hel _].
  apply He in Hel. unfold queued in Hqd. bool_to_prop.
  destruct (g_done gr) eqn:Ed; [done|]. destruct (fi_grants _ Hs g gr Hgr) as (_ & _ & Hun).
  destruct (Hun Ed) as [Hready _].
  unfold grant_slot. unfold grant_at. cbn [with_queues grant_store]. rewrite Hgr. unfold default, id.
  assert (Hnr : g_ready gr = false) by congruence. rewrite Hnr. eexists. split; [done|].
  split; [|done]. cbn [with_grant with_queues fs_cfg states state_store grant_store fresh high bulk active highRun g_state].
  unfold state_at. cbn [with_queues state_store]. rewrite Hst. unfold default, id.
  eapply (finv_replace s g gr _ st); try done.
  - cbn. unfold holds. cbn. rewrite Ed. cbn. match goal with H : g_granted gr = false |- _ => rewrite H end. cbn. lia.
  - cbn. unfold queued. cbn. rewrite Ed. match goal with H : g_granted gr = false |- _ => rewrite H end. cbn. lia.
  - cbn. unfold holds. cbn. by rewrite Ed.
  - cbn. lia.
  - unfold holds. cbn. rewrite Ed. match goal with H : g_granted gr = false |- _ => rewrite H end. cbn. lia.
  - lia.
  - intros x. rewrite Hq. unfold queued. cbn. split; [by right|]. intros [[_ ?]|]; done.
Qed.

(** [dispatchLocked] returns, keeps the invariant, and leaves nothing that could be
    handed out. *)
Lemma dispatch_loop_inv fuel clock : forall s,
  finv s -> (length (high s) + length (bulk s) < fuel)%nat ->
  exists s', dispatch_loop fuel clock s = Some s' /\ finv s' /\ saturated s' /\
    fs_cfg s' = fs_cfg s /\ states s' = states s.
Proof.
  induction fuel as [|fuel IH]; intros s Hs Hf; [lia|]. cbn [dispatch_loop].
  destruct (active s <? maxActive (fs_cfg s)) eqn:Ea; bool_to_prop.
  2:{ exists s. split; [done|]. split; [done|]. split; [by left|done]. }
  destruct (dispatch_pass_spec s (clock fuel)) as [[-> Hn]|(g & h & b & run & -> & Hp & _)].
  { exists s. split; [done|]. split; [done|]. split; [by right|done]. }
  destruct (grant_slot_inv s g h b run Hs Ea Hp) as (s' & -> & Hs' & Hh & Hb & _ & Hc & Hsts).
  destruct (picked_queues _ _ _ _ _ Hs Hp) as (_ & _ & _ & Hlen).
  destruct (IH s' Hs') as (s'' & -> & Hs'' & Hsat & Hc' & Hsts'); [rewrite Hh, Hb; lia|].
  exists s''. split; [done|]. split; [done|]. split; [done|]. split; congruence.
Qed.

Lemma dispatch_inv clock s :
  finv s -> exists s', dispatchLocked clock s = Some s' /\ finv s' /\ saturated s' /\
    fs_cfg s' = fs_cfg s /\ states s' = states s.
Proof. intros Hs. apply dispatch_loop_inv; [done|lia]. Qed.

(** ** Requests *)

Lemma count_none (I : flowGrant -> bool) p (m : gmap Z flowGrant) :
  (forall g gr, m !! g = Some gr -> g_state gr <> p) ->
  msum (fun _ x => if g_state x =? p then ind (I x) else 0) m = 0.
Proof.
  intros Hp. rewrite (msum_ext _ (fun _ _ => 0)); [apply msum_zero|].
  intros k a Ha. specialize (Hp k a Ha). by replace (g_state a =? p) with false by lia.
Qed.

Lemma alloc_state_inv s f :
  finv s -> states s !! f = None ->
  finv (mkFScheduler (fs_cfg s) (<[f := fresh s]> (states s)) (<[fresh s := zero_state]> (state_store s))
    (grant_store s) (fresh s + 1) (high s) (bulk s) (active s) (highRun s) (lastFlow s)).
Proof.
  intros [Hcfg Hgs Hq Hst Hinj Hstore Hact Hlim Hwk] Hf.
  assert (Hnew : forall q, is_Some (state_store s !! q) -> q < fresh s).
  { intros q [st Hq']. by apply (Hstore q st). }
  split; cbn; try done.
  - intros g gr Hg. destruct (Hgs g gr Hg) as (H1 & H2 & H3). split; [lia|].
    split; [apply lookup_insert_is_Some'; by right|]. intros Hd. destruct (H3 Hd) as [? H4]. split; [done|].
    rewrite lookup_insert_ne; [done|]. congruence.
  - intros f' p Hp. apply lookup_insert_is_Some'. apply lookup_insert_Some in Hp as [[_ <-]|[_ Hp]]; [by left|right].
    by eapply Hst.
  - intros f1 f2 p H1 H2. apply lookup_insert_Some in H1 as [[<- <-]|[N1 H1]], H2 as [[<- E2]|[N2 H2]];
      try done.
    + apply Hst, Hnew in H2. lia.
    + subst p. apply Hst, Hnew in H1. lia.
    + by eapply Hinj.
  - intros p st Hp. apply lookup_insert_Some in Hp as [[<- <-]|[_ Hp]].
    + split; [lia|].
      assert (Hno : forall g gr, grant_store s !! g = Some gr -> g_state gr <> fresh s).
      { intros g gr Hg. destruct (Hgs g gr Hg) as (_ & H2 & _). apply Hnew in H2. lia. }
      split; cbn.
      * symmetry. by apply count_none.
      * symmetry. by apply count_none.
      * intros g. split; [set_solver|]. intros (gr & Hg & _ & Hgp). by destruct (Hno g gr Hg).
      * lia.
    + destruct (Hstore p st Hp) as [? ?]. split; [lia|done].
Qed.

(** A new grant joins the end of one of the queues. *)
Lemma new_grant_inv s f p st gr assigned h b :
  finv s -> states s !! f = Some p -> state_store s !! p = Some st ->
  g_flowID gr = f -> g_state gr = p -> g_granted gr = false -> g_ready gr = false -> g_done gr = None ->
  h ++ b ≡ₚ fresh s :: (high s ++ bulk s) ->
  finv (mkFScheduler (fs_cfg s) (states s)
    (<[p := mkFState (st_active st) (st_pending st + 1) assigned (st_grants st)]> (state_store s))
    (<[fresh s := gr]> (grant_store s)) (fresh s + 1) h b (active s) (highRun s) (lastFlow s)).
Proof.
  intros [Hcfg Hgs [Hnd Hq] Hst Hinj Hstore Hact Hlim Hwk] Hf Hp Hgf Hgp Hgg Hgr Hgd Hperm.
  assert (Hnone : grant_store s !! fresh s = None).
  { destruct (grant_store s !! fresh s) eqn:E; [|done]. destruct (Hgs _ _ E). lia. }
  assert (Hhold : holds gr = false) by (unfold holds; by rewrite Hgg).
  assert (Hqd : queued gr = true) by (unfold queued; by rewrite Hgg, Hgd).
  assert (Hnin : fresh s ∉ high s ++ bulk s).
  { rewrite Hq, Hnone. intros (? & ? & _). done. }
  split; cbn; try done.
  - intros g y Hg. apply lookup_insert_Some in Hg as [[<- <-]|[_ Hg]].
    + split; [lia|]. rewrite Hgp. split; [apply lookup_insert_is_Some'; by left|]. intros _. by rewrite Hgr, Hgg, Hgf.
    + destruct (Hgs g y Hg) as (H1 & H2 & H3). split; [lia|]. split; [apply lookup_insert_is_Some'; by right|done].
  - split.
    + rewrite Hperm. by constructor.
    + intros g. rewrite Hperm, elem_of_cons, Hq. destruct (decide (g = fresh s)) as [->|Hne].
      * rewrite lookup_insert_eq. split; [intros _; by exists gr|by left].
      * rewrite lookup_insert_ne by done. split; [by intros [|]|by right].
  - intros f' q Hq'. apply lookup_insert_is_Some'. right. by eapply Hst.
  - intros q sq Hsq.
    assert (Hcnt : forall (I : flowGrant -> bool), msum (fun _ x => if g_state x =? q then ind (I x) else 0) (<[fresh s := gr]> (grant_store s)) =
      (if p =? q then ind (I gr) else 0) + msum (fun _ x => if g_state x =? q then ind (I x) else 0) (grant_store s)).
    { intros I. rewrite msum_insert by done. by rewrite Hgp. }
    assert (Hset : forall g, (exists y, <[fresh s := gr]> (grant_store s) !! g = Some y /\ holds y = true /\ g_state y = q) <->
      exists y, grant_store s !! g = Some y /\ holds y = true /\ g_state y = q).
    { intros g. destruct (decide (g = fresh s)) as [->|Hne]; [|by rewrite lookup_insert_ne].
      rewrite lookup_insert_eq, Hnone. split; intros (y & Hy & Hh & _); [|done]. injection Hy as <-. congruence. }
    apply lookup_insert_Some in Hsq as [[<- <-]|[Hne Hsq]].
    + destruct (Hstore p st Hp) as [Hlt [Ha Hpe Hg Hl]]. split; [lia|]. split; cbn.
      * unfold count_holding. rewrite Hcnt, Z.eqb_refl, Hhold. cbn. done.
      * unfold count_queued. rewrite Hcnt, Z.eqb_refl, Hqd. cbn. unfold count_queued in Hpe. lia.
      * intros g. by rewrite Hset.
      * done.
    + destruct (Hstore q sq Hsq) as [Hlt [Ha Hpe Hg Hl]]. split; [lia|]. split; cbn; try done.
      * unfold count_holding. rewrite Hcnt. by replace (p =? q) with false by lia.
      * unfold count_queued. rewrite Hcnt. by replace (p =? q) with false by lia.
      * intros g. by rewrite Hset.
  - rewrite msum_insert by done. rewrite Hhold. cbn. done.
  - intros g y Hg. apply lookup_insert_Some in Hg as [[_ <-]|[_ Hg]]; [congruence|by eapply Hwk].
Qed.

Lemma request_grant_inv s f class n now g s' :
  finv s -> request_grant s f class n now = (g, s') ->
  finv s' /\ g = fresh s' - 1 /\ is_Some (states s' !! f) /\ fs_cfg s' = fs_cfg s /\
  (forall f', is_Some (states s !! f') -> is_Some (states s' !! f')).
Proof.
  intros Hs Hr. unfold request_grant in Hr.
  destruct (match states s !! f with Some p => _ | None => _ end) as [p s1] eqn:E1.
  assert (Hs1 : finv s1 /\ states s1 !! f = Some p /\ fs_cfg s1 = fs_cfg s /\
    (forall f', is_Some (states s !! f') -> is_Some (states s1 !! f'))).
  { destruct (states s !! f) as [p0|] eqn:Ef; injection E1 as <- <-; [done|].
    split; [by apply alloc_state_inv|]. split; [apply lookup_insert_eq|]. split; [done|].
    intros f' Hf'. apply lookup_insert_is_Some'. by right. }
  destruct Hs1 as (Hs1 & Hf & Hcfg & Hold). destruct (fi_states _ Hs1 f p Hf) as [st Hst].
  assert (Hsa : state_at s1 p = st) by (unfold state_at; by rewrite Hst). rewrite Hsa in Hr.
  set (hi := (class =? ClassNew) || _) in *.
  set (startup := negb hi && _) in *.
  set (gr := mkGrant f n (hi || startup) now false false None p) in *. injection Hr as <- <-.
  pose proof (new_grant_inv s1 f p st gr (if startup then st_startupAssigned st + n else st_startupAssigned st)) as Hnew.
  destruct (hi || startup).
  - split; [|cbn; repeat split; done || lia || by eexists].
    apply Hnew; try done. cbn. rewrite <- app_assoc. cbn. rewrite <- Permutation_middle. done.
  - split; [|cbn; repeat split; done || lia || by eexists].
    apply Hnew; try done. cbn. rewrite app_assoc. by rewrite <- Permutation_cons_append.
Qed.

(** ** Giving slots back *)

Lemma holds_not_queued s g gr : finv s -> grant_store s !! g = Some gr -> queued gr = false -> g ∉ high s ++ bulk s.
Proof.
  intros Hs Hg Hh Hin. destruct (fi_queue _ Hs) as [_ Hq]. apply Hq in Hin as (y & Hy & Hyq). congruence.
Qed.

Lemma holds_spec gr : holds gr = true <-> g_granted gr = true /\ g_done gr = None.
Proof. unfold holds. destruct (g_granted gr), (g_done gr); cbn; split; try done; by intros [? ?]. Qed.

Lemma queued_spec gr : queued gr = true <-> g_granted gr = false /\ g_done gr = None.
Proof. unfold queued. destruct (g_granted gr), (g_done gr); cbn; split; try done; by intros [? ?]. Qed.

Lemma set_done_over gr e r : holds (set_done gr e r) = false /\ queued (set_done gr e r) = false.
Proof. unfold holds, queued. cbn. by rewrite !andb_false_r. Qed.

(** Ending a grant that holds a slot. *)
Lemma end_slot_inv s g gr st e r :
  finv s -> grant_store s !! g = Some gr -> holds gr = true -> state_store s !! g_state gr = Some st ->
  r = g_ready gr ->
  finv (mkFScheduler (fs_cfg s) (states s)
    (<[g_state gr := mkFState (st_active st - 1) (st_pending st) (st_startupAssigned st) (st_grants st ∖ {[g]})]> (state_store s))
    (<[g := set_done gr e r]> (grant_store s)) (fresh s) (high s) (bulk s) (active s - 1) (highRun s) (lastFlow s)).
Proof.
  intros Hs Hg Hh Hst Hr. destruct (set_done_over gr e r) as [Hh' Hq'].
  assert (Hrd : r = true).
  { apply holds_spec in Hh as [Hg1 Hg2]. destruct (fi_grants _ Hs g gr Hg) as (_ & _ & Hun).
    destruct (Hun Hg2). congruence. }
  assert (Hq : queued gr = false).
  { apply holds_spec in Hh as [Hh _]. unfold queued. by rewrite Hh. }
  pose proof (sti_limit _ _ _ _ (proj2 (fi_store _ Hs _ _ Hst))) as Hl. pose proof (fi_limit _ Hs) as Hl'.
  eapply (finv_replace s g gr _ st); try done.
  - rewrite Hh, Hh'. cbn. lia.
  - rewrite Hq, Hq'. cbn. lia.
  - by rewrite Hh'.
  - cbn. lia.
  - rewrite Hh, Hh'. cbn. lia.
  - lia.
  - apply (fi_queue _ Hs).
  - intros x. rewrite Hq'. split; [|intros [[_ ?]|[_ ?]]; done]. intros Hx. right. split; [|done].
    intros ->. by apply (holds_not_queued _ _ _ Hs Hg Hq).
Qed.

Lemma grant_at_lookup s g gr : grant_store s !! g = Some gr -> grant_at s g = gr.
Proof. intros H. unfold grant_at. by rewrite H. Qed.

Lemma state_at_lookup s p st : state_store s !! p = Some st -> state_at s p = st.
Proof. intros H. unfold state_at. by rewrite H. Qed.

Lemma release_slot_inv s g gr e :
  finv s -> grant_store s !! g = Some gr -> holds gr = true -> finv (release_slot s g e).
Proof.
  intros Hs Hg Hh. destruct (fi_grants _ Hs g gr Hg) as (_ & [st Hst] & _).
  unfold release_slot, with_grant. rewrite (grant_at_lookup _ _ _ Hg), (state_at_lookup _ _ _ Hst).
  by apply (end_slot_inv s g gr st e (g_ready gr)).
Qed.

(** Ending a grant that waits, once it is off the queues. *)
Lemma end_queued_inv s g gr st e r h b :
  (e = SchedulingClosed -> r = true) -> finv s -> grant_store s !! g = Some gr -> queued gr = true -> state_store s !! g_state gr = Some st ->
  NoDup (h ++ b) -> (forall x, x ∈ h ++ b <-> x <> g /\ x ∈ high s ++ bulk s) ->
  finv (mkFScheduler (fs_cfg s) (states s)
    (<[g_state gr := mkFState (st_active st) (st_pending st - 1) (st_startupAssigned st) (st_grants st)]> (state_store s))
    (<[g := set_done gr e r]> (grant_store s)) (fresh s) h b (active s) (highRun s) (lastFlow s)).
Proof.
  intros Hr Hs Hg Hq Hst Hnd Hin. destruct (set_done_over gr e r) as [Hh' Hq'].
  assert (Hh : holds gr = false).
  { apply queued_spec in Hq as [Hq _]. unfold holds. by rewrite Hq. }
  destruct (proj2 (fi_store _ Hs _ _ Hst)) as [_ _ Hgr Hl].
  eapply (finv_replace s g gr _ st); try done.
  - cbn. intros [= ->]. by apply Hr.
  - rewrite Hh, Hh'. cbn. lia.
  - rewrite Hq, Hq'. cbn. lia.
  - rewrite Hh'. cbn. assert (g ∉ st_grants st); [|set_solver]. intros Hx. apply Hgr in Hx as (y & Hy & Hyh & _). congruence.
  - rewrite Hh, Hh'. cbn. lia.
  - apply Hs.
  - intros x. rewrite Hin, Hq'. split; [by right|]. intros [[_ ?]|]; done.
Qed.

Lemma removeFlowGrant_spec q g :
  (g ∈ q /\ q ≡ₚ (g :: removeFlowGrant q g)) \/ ((g ∉ q) /\ removeFlowGrant q g = q).
Proof.
  induction q as [|x q IH]; [right; split; [intros H; by apply elem_of_nil in H|done]|]. cbn.
  destruct (Z.eqb_spec x g) as [->|Hne]; cbn.
  - left. split; [constructor|done].
  - destruct IH as [[Hin Hp]|[Hn ->]].
    + left. split; [by constructor|]. rewrite Hp at 1. apply Permutation_swap.
    + right. split; [|done]. intros Hx. by apply elem_of_cons in Hx as [|].
Qed.

Lemma remove_queues s g :
  finv s -> g ∈ high s ++ bulk s ->
  NoDup (removeFlowGrant (high s) g ++ removeFlowGrant (bulk s) g) /\
  (forall x, x ∈ removeFlowGrant (high s) g ++ removeFlowGrant (bulk s) g <-> x <> g /\ x ∈ high s ++ bulk s).
Proof.
  intros Hs Hin. destruct (fi_queue _ Hs) as [Hnd _].
  assert (Hperm : high s ++ bulk s ≡ₚ g :: (removeFlowGrant (high s) g ++ removeFlowGrant (bulk s) g)).
  { apply NoDup_app in Hnd as (_ & Hdis & _).
    destruct (removeFlowGrant_spec (high s) g) as [[H1 P1]|[H1 E1]], (removeFlowGrant_spec (bulk s) g) as [[H2 P2]|[H2 E2]].
    - by destruct (Hdis g H1).
    - rewrite E2. rewrite P1 at 1. done.
    - rewrite E1. rewrite P2 at 1. by rewrite <- Permutation_middle.
    - exfalso. by apply elem_of_app in Hin as [|]. }
  rewrite Hperm in Hnd. apply NoDup_cons in Hnd as [Hng Hnd]. split; [done|].
  intros x. rewrite Hperm, elem_of_cons. split; [|tauto]. intros Hx. split; [congruence|by right].
Qed.

Lemma cancel_grant_inv s g gr :
  finv s -> grant_store s !! g = Some gr -> g_done gr = None -> finv (cancel_grant s g).
Proof.
  intros Hs Hg Hd. unfold cancel_grant. rewrite (grant_at_lookup _ _ _ Hg). destruct (g_granted gr) eqn:Eg.
  - eapply release_slot_inv; [done|done|]. by apply holds_spec.
  - assert (Hq : queued gr = true) by (by apply queued_spec).
    destruct (fi_grants _ Hs g gr Hg) as (_ & [st Hst] & _). rewrite (state_at_lookup _ _ _ Hst).
    assert (Hin : g ∈ high s ++ bulk s) by (apply (proj2 (fi_queue _ Hs)); by exists gr).
    destruct (remove_queues _ _ Hs Hin) as [Hnd Hx].
    by apply (end_queued_inv s g gr st ContextCanceled (g_ready gr)).
Qed.

(** ** Closing a flow *)

Lemma finv_queue_perm s h b r h' b' r' :
  finv (with_queues s h b r) -> h' ++ b' ≡ₚ h ++ b -> finv (with_queues s h' b' r').
Proof.
  intros [? ? [Hnd Hq] ? ? ? ? ? ?] Hp. split; cbn in *; try done. rewrite Hp. split; [done|].
  intros g. by rewrite Hp.
Qed.

(** The parts [closePending] leaves alone. *)
Definition close_frame (s s' : flowScheduler) (flowID p : Z) : Prop :=
  high s' = high s /\ bulk s' = bulk s /\ states s' = states s /\ fs_cfg s' = fs_cfg s /\
  (forall g gr, grant_store s !! g = Some gr -> g_flowID gr <> flowID \/ holds gr = true ->
    grant_store s' !! g = Some gr) /\
  (forall g gr', grant_store s' !! g = Some gr' -> g_done gr' = None -> grant_store s !! g = Some gr') /\
  st_grants (state_at s' p) = st_grants (state_at s p).

Lemma close_frame_refl s f p : close_frame s s f p.
Proof. repeat split; done. Qed.

Lemma close_frame_trans s1 s2 s3 f p : close_frame s1 s2 f p -> close_frame s2 s3 f p -> close_frame s1 s3 f p.
Proof.
  intros (A1 & A2 & A3 & A4 & H1 & K1 & A5) (B1 & B2 & B3 & B4 & H2 & K2 & B5). repeat split; try congruence.
  - intros g gr Hg Hor. apply H2; [by apply H1|done].
  - intros g gr Hg Hd. apply K1; [by apply K2|done].
Qed.

Lemma closePending_inv flowID p : forall q s k,
  finv (with_queues s (k ++ q) [] 0) -> states s !! flowID = Some p ->
  exists kept s', closePending s flowID p q = Some (kept, s') /\ finv (with_queues s' (k ++ kept) [] 0) /\
    kept `sublist_of` q /\
    (forall g gr, g ∈ kept -> grant_store s' !! g = Some gr -> g_flowID gr <> flowID) /\ close_frame s s' flowID p.
Proof.
  induction q as [|g q IH]; intros s k Hs Hf; cbn [closePending].
  { exists [], s. split; [done|]. split; [done|]. split; [done|]. split; [|apply close_frame_refl].
    intros g gr Hg. by apply elem_of_nil in Hg. }
  destruct (proj1 (proj2 (fi_queue _ Hs) g)) as (gr & Hg & Hqd).
  { cbn. rewrite app_nil_r. apply elem_of_app. right. constructor. }
  cbn in Hg. rewrite (grant_at_lookup _ _ _ Hg). pose proof Hqd as Hqd'. apply queued_spec in Hqd' as [Hgg Hgd].
  rewrite Hgd, orb_false_r. destruct (fi_grants _ Hs g gr Hg) as (_ & [st Hst] & Hun). cbn in Hst, Hun.
  destruct (Hun Hgd) as [Hrd Hsf]. destruct (Z.eqb_spec (g_flowID gr) flowID) as [Hfe|Hfe]; cbn [negb].
  - assert (Hp : g_state gr = p) by congruence. rewrite Hrd, Hgg. rewrite Hp in Hst. rewrite (state_at_lookup _ _ _ Hst).
    set (s1 := mkFScheduler _ _ _ _ _ _ _ _ _ _).
    assert (Hs1 : finv (with_queues s1 (k ++ q) [] 0)).
    { pose proof (end_queued_inv (with_queues s (k ++ g :: q) [] 0) g gr st SchedulingClosed true (k ++ q) []) as He.
      rewrite Hp in He. apply He; try done.
      - destruct (fi_queue _ Hs) as [Hnd _]. cbn in Hnd. rewrite app_nil_r in *.
        apply NoDup_app in Hnd as (H1 & H2 & H3). apply NoDup_cons in H3 as [_ H3]. apply NoDup_app.
        split; [done|]. split; [|done]. intros x Hx Hxq. apply (H2 x Hx). by constructor.
      - intros x. cbn. rewrite !app_nil_r, !elem_of_app, elem_of_cons.
        destruct (fi_queue _ Hs) as [Hnd _]. cbn in Hnd. rewrite app_nil_r in Hnd.
        apply NoDup_app in Hnd as (_ & H2 & H3). apply NoDup_cons in H3 as [H3 _].
        split; [|tauto]. intros Hx. split; [|tauto]. intros ->. destruct Hx as [Hx|Hx]; [|done].
        apply (H2 g Hx). constructor. }
    destruct (IH s1 k Hs1 Hf) as (kept & s' & Hc & Hs' & Hsub & Hk & Hfr). exists kept, s'.
    split; [exact Hc|]. split; [done|]. split; [by constructor|]. split; [done|].
    eapply close_frame_trans; [|exact Hfr]. repeat split.
    + intros x y Hx Hor. cbn. destruct (decide (x = g)) as [->|]; [|by rewrite lookup_insert_ne].
      assert (y = gr) as -> by congruence. destruct Hor as [|Hh]; [done|]. apply holds_spec in Hh as [Hh _]. congruence.
    + intros x y Hx Hd. cbn in Hx. apply lookup_insert_Some in Hx as [[<- <-]|[_ Hx]]; [done|done].
    + rewrite (state_at_lookup _ _ _ Hst). unfold state_at. cbn. by rewrite lookup_insert_eq.
  - destruct (IH s (k ++ [g])) as (kept & s' & -> & Hs' & Hsub & Hk & Hfr); [by rewrite <- app_assoc|done|].
    exists (g :: kept), s'. split; [done|]. split; [by rewrite <- app_assoc in Hs'|]. split; [by constructor|].
    split; [|done]. intros x y Hx Hy. apply elem_of_cons in Hx as [->|Hx]; [|by apply (Hk x)].
    destruct Hfr as (_ & _ & _ & _ & Hold & _). rewrite (Hold g gr Hg ltac:(by left)) in Hy. congruence.
Qed.

(** The granted slots of a flow, ended in any order. *)
Lemma closeGranted_inv p : forall visit s st,
  finv s -> state_store s !! p = Some st -> NoDup visit -> (forall g, g ∈ visit -> g ∈ st_grants st) ->
  let s' := closeGranted s p visit in
  finv s' /\ high s' = high s /\ bulk s' = bulk s /\ states s' = states s /\ fs_cfg s' = fs_cfg s /\
  (exists st', state_store s' !! p = Some st' /\ st_grants st' = st_grants st ∖ list_to_set visit) /\
  (forall g gr, grant_store s !! g = Some gr -> g ∉ visit -> grant_store s' !! g = Some gr) /\
  (forall g gr, grant_store s' !! g = Some gr -> g_done gr = None -> grant_store s !! g = Some gr /\ g ∉ visit).
Proof.
  induction visit as [|g visit IH]; intros s st Hs Hst Hnd Hin; cbn [closeGranted].
  { cbn. split; [done|]. split; [done|]. split; [done|]. split; [done|]. split; [done|].
    split; [exists st; split; [done|set_solver]|]. split; [done|]. intros g gr Hg _. split; [done|].
    intros Hx. by apply elem_of_nil in Hx. }
  destruct (fi_store _ Hs p st Hst) as [_ Hsi]. apply NoDup_cons in Hnd as [Hng Hnd].
  destruct (proj1 (sti_grants _ _ _ _ Hsi g)) as (gr & Hg & Hh & Hgp); [apply Hin; constructor|].
  pose proof Hh as Hh'. apply holds_spec in Hh' as [_ Hgd].
  rewrite (grant_at_lookup _ _ _ Hg), (state_at_lookup _ _ _ Hst), Hgd.
  set (st1 := mkFState _ _ _ _). set (s1 := mkFScheduler _ _ _ _ _ _ _ _ _ _).
  assert (Hs1 : finv s1).
  { subst s1 st1. rewrite <- Hgp in Hst |- *. by apply end_slot_inv. }
  assert (Hst1 : state_store s1 !! p = Some st1) by apply lookup_insert_eq.
  destruct (IH s1 st1 Hs1 Hst1 Hnd) as (H1 & H2 & H3 & H4 & H5 & (st' & H6 & H7) & H8 & H9).
  { intros x Hx. cbn. assert (x <> g) by congruence. assert (x ∈ st_grants st) by (apply Hin; by constructor). set_solver. }
  split; [done|]. split; [done|]. split; [done|]. split; [done|]. split; [done|]. split; [|split].
  - exists st'. split; [done|]. rewrite H7. cbn. set_solver.
  - intros x y Hx Hxn. apply not_elem_of_cons in Hxn as [Hxg Hxn]. apply H8; [|done]. cbn.
    by rewrite lookup_insert_ne.
  - intros x y Hx Hd. destruct (H9 x y Hx Hd) as [Hx1 Hxn]. cbn in Hx1.
    apply lookup_insert_Some in Hx1 as [[<- <-]|[Hne Hx1]]; [done|]. split; [done|].
    apply not_elem_of_cons. split; [congruence|done].
Qed.

Lemma delete_state_inv s f :
  finv s -> (forall g gr, grant_store s !! g = Some gr -> g_done gr = None -> g_flowID gr <> f) ->
  finv (mkFScheduler (fs_cfg s) (delete f (states s)) (state_store s) (grant_store s) (fresh s) (high s) (bulk s)
    (active s) (highRun s) (lastFlow s)).
Proof.
  intros [Hcfg Hgs Hq Hst Hinj Hstore Hact Hlim Hwk] Hno. split; cbn; try done.
  - intros g gr Hg. destruct (Hgs g gr Hg) as (H1 & H2 & H3). split; [done|]. split; [done|]. intros Hd.
    destruct (H3 Hd) as [? ?]. split; [done|]. rewrite lookup_delete_ne; [done|]. by apply not_eq_sym, (Hno g).
  - intros f' p Hp. apply lookup_delete_Some in Hp as [_ Hp]. by eapply Hst.
  - intros f1 f2 p H1 H2. apply lookup_delete_Some in H1 as [_ H1]. apply lookup_delete_Some in H2 as [_ H2].
    by eapply Hinj.
Qed.

(** What [closeFlow] does before it dispatches: the flow has no grant left, its
    state is gone, and the other flows are untouched. *)
Lemma closeFlow_clear_inv s f p st visit :
  finv s -> states s !! f = Some p -> state_store s !! p = Some st -> visit ≡ₚ elements (st_grants st) ->
  exists s', closeFlow_clear s f p visit = Some s' /\ finv s' /\ states s' = delete f (states s) /\
    fs_cfg s' = fs_cfg s /\
    (forall g gr, grant_store s' !! g = Some gr -> g_done gr = None -> g_flowID gr <> f) /\
    (forall g gr, grant_store s !! g = Some gr -> g_flowID gr <> f -> grant_store s' !! g = Some gr).
Proof.
  intros Hs Hf Hst Hv. unfold closeFlow_clear.
  assert (Hs0 : finv (with_queues s (bulk s ++ high s) [] 0)).
  { apply (finv_queue_perm s (high s) (bulk s) (highRun s)); [by rewrite with_queues_id|]. rewrite app_nil_r. apply Permutation_app_comm. }
  destruct (closePending_inv f p (high s) s (bulk s) Hs0 Hf) as (h & s1 & -> & Hs1 & Hsub1 & Hk1 & Hfr1).
  pose proof Hfr1 as (E1 & E2 & E3 & E4 & E5 & E6 & E7).
  set (s1' := with_queues s1 h (bulk s1) (highRun s1)).
  assert (Hs1' : finv (with_queues s1' (h ++ bulk s1') [] 0)).
  { apply (finv_queue_perm s1 (bulk s ++ h) [] 0); [done|]. cbn. rewrite E2, !app_nil_r. apply Permutation_app_comm. }
  destruct (closePending_inv f p (bulk s1') s1' h Hs1') as (b & s2 & Hc2 & Hs2 & Hsub2 & Hk2 & Hfr2); [cbn; congruence|].
  rewrite Hc2. clear Hc2. pose proof Hfr2 as (F1 & F2 & F3 & F4 & F5 & F6 & F7).
  set (s2' := with_queues s2 (high s2) b (highRun s2)).
  assert (Hs2' : finv s2').
  { apply (finv_queue_perm s2 (h ++ b) [] 0); [done|]. rewrite F1. cbn. by rewrite app_nil_r. }
  assert (Hgr : st_grants (state_at s2' p) = st_grants st).
  { change (state_at s2' p) with (state_at s2 p). rewrite F7. change (state_at s1' p) with (state_at s1 p).
    rewrite E7. by rewrite (state_at_lookup _ _ _ Hst). }
  destruct (fi_states _ Hs2' f p) as [st2 Hst2]; [cbn; rewrite F3; cbn; by rewrite E3|].
  rewrite (state_at_lookup _ _ _ Hst2) in Hgr.
  destruct (closeGranted_inv p visit s2' st2 Hs2' Hst2) as (G1 & G2 & G3 & G4 & G5 & (st3 & G6 & G7) & G8 & G9).
  { rewrite Hv. apply NoDup_elements. }
  { intros g Hg. rewrite Hgr. by rewrite Hv, elem_of_elements in Hg. }
  set (s3 := closeGranted s2' p visit) in *.
  assert (Hempty : st_grants st3 = ∅).
  { rewrite G7, Hgr. apply leibniz_equiv. intros x. rewrite elem_of_difference, elem_of_list_to_set, Hv, elem_of_elements.
    split; [tauto|]. intros Hx. by apply elem_of_empty in Hx. }
  assert (Hno : forall g gr, grant_store s3 !! g = Some gr -> g_done gr = None -> g_flowID gr <> f).
  { intros g gr Hg Hd Hgf. destruct (fi_grants _ G1 g gr Hg) as (_ & _ & Hun). destruct (Hun Hd) as [_ Hsp].
    rewrite G4 in Hsp. cbn in Hsp. rewrite F3 in Hsp. cbn in Hsp. rewrite E3, Hgf, Hf in Hsp. injection Hsp as Hsp.
    destruct (g_granted gr) eqn:Eg.
    - assert (g ∈ st_grants st3); [|by rewrite Hempty in *; apply elem_of_empty in H].
      apply (sti_grants _ _ _ _ (proj2 (fi_store _ G1 p st3 G6))). exists gr. split; [done|].
      split; [by apply holds_spec|done].
    - assert (Hin : g ∈ high s3 ++ bulk s3).
      { apply (proj2 (fi_queue _ G1)). exists gr. split; [done|]. by apply queued_spec. }
      rewrite G2, G3 in Hin. cbn in Hin. destruct (G9 g gr Hg Hd) as [Hg2 _]. cbn in Hg2.
      apply elem_of_app in Hin as [Hin|Hin].
      + rewrite F1 in Hin. cbn in Hin. pose proof (F6 g gr Hg2 Hd) as Hg1. cbn in Hg1. by apply (Hk1 g gr Hin Hg1).
      + by apply (Hk2 g gr Hin Hg2). }
  eexists. split; [done|]. split; [by apply delete_state_inv|]. cbn.
  split; [rewrite G4; cbn; rewrite F3; cbn; by rewrite E3|]. split; [rewrite G5; cbn; rewrite F4; cbn; done|].
  split; [done|]. intros g gr Hg Hgf. apply G8.
  - cbn. apply F5; [|by left]. cbn. apply E5; [done|by left].
  - rewrite Hv, elem_of_elements. intros Hin.
    apply (sti_grants _ _ _ _ (proj2 (fi_store _ Hs p st Hst))) in Hin as (y & Hy & Hyh & Hyp).
    assert (y = gr) as -> by congruence. apply holds_spec in Hyh as [_ Hyd].
    destruct (fi_grants _ Hs g gr Hg) as (_ & _ & Hun). destruct (Hun Hyd) as [_ Hsp]. rewrite Hyp in Hsp.
    by apply Hgf, (fi_inj _ Hs _ _ p).
Qed.

(** ** The operations *)

(** What dispatching leaves of every grant: it may gain its slot, nothing else. *)
Definition same_ends (s s' : flowScheduler) : Prop :=
  forall g, match grant_store s !! g, grant_store s' !! g with
            | Some gr, Some gr' => g_done gr' = g_done gr /\ g_flowID gr' = g_flowID gr /\
                (g_granted gr = true -> g_granted gr' = true) /\ (g_ready gr = true -> g_ready gr' = true)
            | None, None => True
            | _, _ => False
            end.

Lemma same_ends_refl s : same_ends s s.
Proof. intros g. by destruct (grant_store s !! g). Qed.

Lemma same_ends_trans s1 s2 s3 : same_ends s1 s2 -> same_ends s2 s3 -> same_ends s1 s3.
Proof.
  intros H1 H2 g. specialize (H1 g). specialize (H2 g).
  destruct (grant_store s1 !! g), (grant_store s2 !! g), (grant_store s3 !! g); try done.
  destruct H1 as (A1 & A2 & A3 & A4), H2 as (B1 & B2 & B3 & B4). split; [congruence|]. split; [congruence|]. auto.
Qed.

Lemma grant_slot_ends s g gr h b run s' :
  grant_store s !! g = Some gr -> grant_slot (with_queues s h b run) g = PassGrant s' -> same_ends s s'.
Proof.
  intros Hg Hs. unfold grant_slot in Hs. unfold grant_at in Hs. cbn [with_queues grant_store] in Hs. rewrite Hg in Hs.
  unfold default, id in Hs. destruct (g_ready gr); [done|]. injection Hs as <-. intros x. cbn.
  destruct (decide (x = g)) as [->|Hne].
  - by rewrite Hg, lookup_insert_eq.
  - rewrite lookup_insert_ne by done. by destruct (grant_store s !! x).
Qed.

Lemma dispatch_ends fuel clock : forall s s',
  finv s -> dispatch_loop fuel clock s = Some s' -> same_ends s s'.
Proof.
  induction fuel as [|fuel IH]; intros s s' Hs Hd; cbn [dispatch_loop] in Hd.
  { injection Hd as <-. apply same_ends_refl. }
  destruct (active s <? maxActive (fs_cfg s)) eqn:Ea; bool_to_prop; [|injection Hd as <-; apply same_ends_refl].
  destruct (dispatch_pass_spec s (clock fuel)) as [[Hp Hn]|(g & h & b & run & Hp & Hpk & _)]; rewrite Hp in Hd.
  { injection Hd as <-. apply same_ends_refl. }
  destruct (grant_slot_inv s g h b run Hs Ea Hpk) as (s1 & Hg1 & Hs1 & _). rewrite Hg1 in Hd.
  destruct (picked_queues _ _ _ _ _ Hs Hpk) as (Hin & _). apply (proj2 (fi_queue _ Hs)) in Hin as (gr & Hg & _).
  eapply same_ends_trans; [by eapply grant_slot_ends|by apply IH].
Qed.

(** What every operation guarantees of the scheduler it returns. *)
Definition op_ok (s s' : flowScheduler) : Prop := finv s' /\ saturated s' /\ fs_cfg s' = fs_cfg s.

Lemma request_ok s f class n now clock :
  finv s -> exists g s', request s f class n now clock = Some (g, s') /\ op_ok s s' /\
    is_Some (grant_store s' !! g) /\ is_Some (states s' !! f).
Proof.
  intros Hs. unfold request. destruct (request_grant s f class n now) as [g s1] eqn:Er.
  assert (Hg : is_Some (grant_store s1 !! g)).
  { unfold request_grant in Er. destruct (match states s !! f with Some p => _ | None => _ end) as [p s0].
    injection Er as <- <-. destruct (_ || _); cbn; rewrite lookup_insert_eq; by eexists. }
  destruct (request_grant_inv _ _ _ _ _ _ _ Hs Er) as (Hs1 & _ & Hf & Hc & _).
  destruct (dispatch_inv clock s1 Hs1) as (s' & Hd & Hs' & Hsat & Hc' & Hst). rewrite Hd.
  exists g, s'. split; [done|]. split; [split; [done|split; [done|congruence]]|]. split; [|by rewrite Hst].
  pose proof (dispatch_ends _ _ _ _ Hs1 Hd g) as He. destruct Hg as [gr Hg]. rewrite Hg in He.
  destruct (grant_store s' !! g); [by eexists|done].
Qed.

Lemma release_ok s g gr clock :
  finv s -> saturated s -> grant_store s !! g = Some gr -> g_granted gr = true ->
  exists s', fs_release s g clock = Some (emptyLocked s', s') /\ op_ok s s'.
Proof.
  intros Hs Hsat Hg Hgg. unfold fs_release. rewrite (grant_at_lookup _ _ _ Hg). destruct (g_done gr) eqn:Ed.
  { exists s. split; [done|]. done. }
  unfold release_grant. rewrite (grant_at_lookup _ _ _ Hg), Hgg.
  assert (Hr : finv (release_slot s g SchedulingClosed)) by (eapply release_slot_inv; [done|done|by apply holds_spec]).
  destruct (dispatch_inv clock _ Hr) as (s' & -> & Hs' & Hst & Hc & _). exists s'. split; [done|]. done.
Qed.

Lemma cancel_cfg s g : fs_cfg (cancel_grant s g) = fs_cfg s.
Proof. unfold cancel_grant. by destruct (g_granted _). Qed.

Lemma cancel_ok s g gr clock :
  finv s -> saturated s -> grant_store s !! g = Some gr ->
  exists s', fs_cancel s g clock = Some (emptyLocked s', s') /\ op_ok s s'.
Proof.
  intros Hs Hsat Hg. unfold fs_cancel. rewrite (grant_at_lookup _ _ _ Hg). destruct (g_done gr) eqn:Ed.
  { exists s. split; [done|]. done. }
  destruct (dispatch_inv clock _ (cancel_grant_inv _ _ _ Hs Hg Ed)) as (s' & -> & Hs' & Hst & Hc & _).
  exists s'. split; [done|]. split; [done|]. split; [done|]. by rewrite Hc, cancel_cfg.
Qed.

(** The order in which [closeFlow] visits the flow's slots. *)
Definition close_visit (s : flowScheduler) (f : Z) (visit : list Z) : Prop :=
  forall p, states s !! f = Some p -> visit ≡ₚ elements (st_grants (state_at s p)).

Lemma closeFlow_ok s f visit clock :
  finv s -> saturated s -> close_visit s f visit ->
  exists s', fs_closeFlow s f visit clock = Some (emptyLocked s', s') /\ op_ok s s' /\ states s' !! f = None /\
    (forall g gr, grant_store s' !! g = Some gr -> g_flowID gr = f -> g_done gr <> None) /\
    (forall g gr, grant_store s !! g = Some gr -> g_flowID gr <> f ->
      exists gr', grant_store s' !! g = Some gr' /\ g_done gr' = g_done gr /\
        (g_granted gr = true -> g_granted gr' = true)).
Proof.
  intros Hs Hsat Hv. unfold fs_closeFlow. destruct (states s !! f) as [p|] eqn:Ef.
  2:{ exists s. split; [done|]. split; [done|]. split; [done|]. split; [|by eauto].
      intros g gr Hg Hgf Hd. destruct (fi_grants _ Hs g gr Hg) as (_ & _ & Hun). destruct (Hun Hd). congruence. }
  destruct (fi_states _ Hs f p Ef) as [st Hst]. specialize (Hv p Ef). rewrite (state_at_lookup _ _ _ Hst) in Hv.
  destruct (closeFlow_clear_inv s f p st visit Hs Ef Hst Hv) as (s1 & -> & Hs1 & Hsts & Hc1 & Hno & Hkeep).
  destruct (dispatch_inv clock _ Hs1) as (s' & Hd & Hs' & Hsat' & Hc & Hsts'). rewrite Hd. exists s'.
  pose proof (dispatch_ends _ _ _ _ Hs1 Hd) as He. split; [done|]. split; [split; [done|split; [done|congruence]]|].
  split; [rewrite Hsts', Hsts; apply lookup_delete_eq|]. split.
  - intros g gr Hg Hgf Hgd. specialize (He g). rewrite Hg in He. destruct (grant_store s1 !! g) as [gr1|] eqn:Hg1; [|done].
    destruct He as (E1 & E2 & _). by apply (Hno g gr1 Hg1); congruence.
  - intros g gr Hg Hgf. specialize (He g). rewrite (Hkeep g gr Hg Hgf) in He.
    destruct (grant_store s' !! g) as [gr'|]; [|done]. destruct He as (E1 & _ & E3 & _). by exists gr'.
Qed.

(** ** The set of paths *)

(** The critical sections of the set's operations, in any interleaving.  A grant
    is released by the holder [acquire] returned it to. *)
Inductive sstep : flowSchedulerSet -> flowSchedulerSet -> Prop :=
| s_request t path f class n now clock sp g t' :
    acquire_request t path f class n now clock = Some (sp, g, t') -> sstep t t'
| s_cancel t sp s g clock e s' :
    schedulers t !! sp = Some s -> is_Some (grant_store s !! g) -> fs_cancel s g clock = Some (e, s') ->
    sstep t (put_scheduler t sp s')
| s_release t sp s g gr clock e s' :
    schedulers t !! sp = Some s -> grant_store s !! g = Some gr -> g_granted gr = true ->
    fs_release s g clock = Some (e, s') -> sstep t (put_scheduler t sp s')
| s_close t sp s f visit clock e s' :
    schedulers t !! sp = Some s -> close_visit s f visit -> fs_closeFlow s f visit clock = Some (e, s') ->
    sstep t (put_scheduler t sp s')
| s_remove t path sp : is_Some (schedulers t !! sp) -> sstep t (removeIfEmpty t path sp).

Record tinv (t : flowSchedulerSet) : Prop := mk_tinv {
  ti_sched : forall sp s, schedulers t !! sp = Some s ->
    sp < set_fresh t /\ finv s /\ saturated s /\ fs_cfg s = withDefaults (set_cfg t);
  ti_paths : forall path sp, paths t !! path = Some sp -> is_Some (schedulers t !! sp);
  ti_inj : forall p1 p2 sp, paths t !! p1 = Some sp -> paths t !! p2 = Some sp -> p1 = p2;
  ti_kept : forall sp s, schedulers t !! sp = Some s -> emptyLocked s = false ->
    exists path, paths t !! path = Some sp
}.

Lemma undone_not_empty s g gr :
  finv s -> grant_store s !! g = Some gr -> g_done gr = None -> emptyLocked s = false.
Proof.
  intros Hs Hg Hd. destruct (fi_grants _ Hs g gr Hg) as (_ & _ & Hun). destruct (Hun Hd) as [_ Hsf].
  unfold emptyLocked. rewrite !andb_false_iff. right. apply Z.eqb_neq.
  destruct (decide (states s = ∅)) as [He|Hne]; [rewrite He, lookup_empty in Hsf; done|].
  apply map_size_non_empty_iff in Hne. lia.
Qed.

Lemma empty_states s f : emptyLocked s = true -> states s !! f = None.
Proof.
  unfold emptyLocked. intros He. bool_to_prop.
  assert (states s = ∅) as -> by (apply map_size_empty_inv; lia). apply lookup_empty.
Qed.

(** Replacing a scheduler by the result of one of its operations. *)
Lemma tinv_put t sp s s' :
  tinv t -> schedulers t !! sp = Some s -> op_ok s s' -> (emptyLocked s = true -> s' = s) ->
  tinv (put_scheduler t sp s').
Proof.
  intros [Hs Hp Hi Hk] Hsp (Hf & Hsat & Hc) He. split; cbn.
  - intros q x Hx. apply lookup_insert_Some in Hx as [[<- <-]|[_ Hx]]; [|by apply Hs].
    destruct (Hs sp s Hsp) as (H1 & _ & _ & H4). split; [done|]. split; [done|]. split; [done|]. congruence.
  - intros path q Hq. apply lookup_insert_is_Some'. right. by eapply Hp.
  - done.
  - intros q x Hx Hne. apply lookup_insert_Some in Hx as [[<- <-]|[_ Hx]]; [|by eapply Hk].
    apply (Hk sp s Hsp). destruct (emptyLocked s) eqn:E; [|done]. rewrite (He eq_refl) in Hne. congruence.
Qed.

Lemma cancel_empty s g gr clock e s' :
  finv s -> grant_store s !! g = Some gr -> emptyLocked s = true -> fs_cancel s g clock = Some (e, s') -> s' = s.
Proof.
  intros Hs Hg He Hc. unfold fs_cancel in Hc. rewrite (grant_at_lookup _ _ _ Hg) in Hc.
  destruct (g_done gr) eqn:Ed; [by simplify_eq|]. rewrite (undone_not_empty s g gr) in He; done.
Qed.

Lemma release_empty s g gr clock e s' :
  finv s -> grant_store s !! g = Some gr -> emptyLocked s = true -> fs_release s g clock = Some (e, s') -> s' = s.
Proof.
  intros Hs Hg He Hc. unfold fs_release in Hc. rewrite (grant_at_lookup _ _ _ Hg) in Hc.
  destruct (g_done gr) eqn:Ed; [by simplify_eq|]. rewrite (undone_not_empty s g gr) in He; done.
Qed.

Lemma new_scheduler_ok cfg : finv (newFlowScheduler cfg) /\ saturated (newFlowScheduler cfg).
Proof.
  assert (Hno : forall g : Z, g ∉ @nil Z) by (intros g Hg; by apply elem_of_nil in Hg). split.
  - split; cbn; try done.
    + unfold withDefaults. cbn. split_ifs; bool_to_prop; lia.
    + split; [constructor|]. intros g. split; [intros Hg; by destruct (Hno g)|]. intros (? & ? & _). done.
    + unfold withDefaults. cbn. split_ifs; bool_to_prop; lia.
  - right. intros g Hg. by destruct (Hno g).
Qed.

Lemma request_step_inv t path f class n now clock :
  tinv t -> exists sp g t', acquire_request t path f class n now clock = Some (sp, g, t') /\ tinv t' /\
    paths t' !! path = Some sp /\ set_cfg t' = set_cfg t.
Proof.
  intros Ht. unfold acquire_request.
  destruct (match paths t !! path with Some sp => _ | None => _ end) as [sp t1] eqn:E1.
  assert (Ht1 : tinv t1 /\ paths t1 !! path = Some sp /\ set_cfg t1 = set_cfg t).
  { destruct (paths t !! path) as [sp0|] eqn:Ep; injection E1 as <- <-; [done|].
    split; [|split; [apply lookup_insert_eq|done]]. destruct Ht as [Hs Hp Hi Hk].
    assert (Hfresh : forall q, is_Some (schedulers t !! q) -> q < set_fresh t) by (intros q [x Hx]; by apply (Hs q x)).
    split; cbn.
    - intros q x Hx. apply lookup_insert_Some in Hx as [[<- <-]|[_ Hx]].
      + destruct (new_scheduler_ok (set_cfg t)). split; [lia|]. done.
      + destruct (Hs q x Hx) as (? & ? & ? & ?). split; [lia|]. done.
    - intros p q Hq. apply lookup_insert_is_Some'. apply lookup_insert_Some in Hq as [[_ <-]|[_ Hq]]; [by left|right].
      by eapply Hp.
    - intros p1 p2 q H1 H2. apply lookup_insert_Some in H1 as [[<- <-]|[N1 H1]], H2 as [[<- E2]|[N2 H2]]; try done.
      + apply Hp, Hfresh in H2. lia.
      + subst q. apply Hp, Hfresh in H1. lia.
      + by eapply Hi.
    - intros q x Hx He. apply lookup_insert_Some in Hx as [[<- <-]|[Hne Hx]]; [done|].
      destruct (Hk q x Hx He) as [p Hpp]. exists p. rewrite lookup_insert_ne; [done|]. congruence. }
  destruct Ht1 as (Ht1 & Hpath & Hcfg). destruct (ti_paths _ Ht1 path sp Hpath) as [s Hsp].
  unfold scheduler_at. rewrite Hsp. unfold default, id. destruct (ti_sched _ Ht1 sp s Hsp) as (Hlt & Hs & Hsat & Hc).
  destruct (request_ok s f class n now clock Hs) as (g & s' & -> & Hop & _ & Hst).
  exists sp, g, (put_scheduler t1 sp s'). split; [done|]. split; [|done].
  destruct Ht1 as [H1 H2 H3 H4]. split; cbn.
  - intros q x Hx. apply lookup_insert_Some in Hx as [[<- <-]|[_ Hx]]; [|by apply H1].
    destruct Hop as (? & ? & ?). split; [done|]. split; [done|]. split; [done|]. congruence.
  - intros p q Hq. apply lookup_insert_is_Some'. right. by eapply H2.
  - done.
  - intros q x Hx He. apply lookup_insert_Some in Hx as [[<- <-]|[_ Hx]]; [by exists path|by eapply H4].
Qed.

Lemma remove_inv t path sp : tinv t -> is_Some (schedulers t !! sp) -> tinv (removeIfEmpty t path sp).
Proof.
  intros Ht [s Hsp]. unfold removeIfEmpty, scheduler_at. rewrite Hsp. unfold default, id.
  destruct (bool_decide _ && _) eqn:E; [|done]. apply andb_true_iff in E as [Ep Ee]. apply bool_decide_eq_true in Ep.
  destruct Ht as [Hs Hp Hi Hk]. split; cbn; try done.
  - intros p q Hq. apply lookup_delete_Some in Hq as [_ Hq]. by eapply Hp.
  - intros p1 p2 q H1 H2. apply lookup_delete_Some in H1 as [_ H1]. apply lookup_delete_Some in H2 as [_ H2]. by eapply Hi.
  - intros q x Hx He. destruct (Hk q x Hx He) as [p Hpp]. exists p. rewrite lookup_delete_ne; [done|]. congruence.
Qed.

Lemma tinv_step t t' : tinv t -> sstep t t' -> tinv t' /\ set_cfg t' = set_cfg t.
Proof.
  intros Ht Hst. destruct Hst as [t path f class n now clock sp g t' Hr|t sp s g clock e s' Hsp [gr Hg] Hc
    |t sp s g gr clock e s' Hsp Hg Hgg Hr|t sp s f visit clock e s' Hsp Hv Hc|t path sp Hsp].
  - destruct (request_step_inv t path f class n now clock Ht) as (sp1 & g1 & t1 & Hr1 & Ht1 & _ & Hc1).
    rewrite Hr in Hr1. by simplify_eq.
  - destruct (ti_sched _ Ht sp s Hsp) as (_ & Hs & Hsat & _).
    destruct (cancel_ok s g gr clock Hs Hsat Hg) as (s1 & Hc1 & Hop). rewrite Hc in Hc1. simplify_eq.
    split; [|done]. eapply tinv_put; try done. intros He. by eapply cancel_empty.
  - destruct (ti_sched _ Ht sp s Hsp) as (_ & Hs & Hsat & _).
    destruct (release_ok s g gr clock Hs Hsat Hg Hgg) as (s1 & Hc1 & Hop). rewrite Hr in Hc1. simplify_eq.
    split; [|done]. eapply tinv_put; try done. intros He. by eapply release_empty.
  - destruct (ti_sched _ Ht sp s Hsp) as (_ & Hs & Hsat & _).
    destruct (closeFlow_ok s f visit clock Hs Hsat Hv) as (s1 & Hc1 & Hop & _). rewrite Hc in Hc1. simplify_eq.
    split; [|done]. eapply tinv_put; try done. intros He. unfold fs_closeFlow in Hc.
    rewrite (empty_states s f He) in Hc. by simplify_eq.
  - split; [by apply remove_inv|]. unfold removeIfEmpty. by destruct (_ && _).
Qed.

Lemma tinv_start startup : tinv (newFlowSchedulerSet startup).
Proof. split; cbn; intros; by rewrite lookup_empty in *. Qed.

Lemma set_reach startup t :
  steps sstep (newFlowSchedulerSet startup) t -> tinv t /\ set_cfg t = set_cfg (newFlowSchedulerSet startup).
Proof.
  intros Hst. eapply (steps_invariant sstep (fun t => tinv t /\ set_cfg t = set_cfg (newFlowSchedulerSet startup)));
    [|split; [apply tinv_start|done]|exact Hst].
  intros t1 t2 [Ht Hc] Hs. destruct (tinv_step t1 t2 Ht Hs). split; [done|congruence].
Qed.

Lemma cancel_done s g gr clock e s' :
  finv s -> grant_store s !! g = Some gr -> fs_cancel s g clock = Some (e, s') -> g_done (grant_at s' g) <> None.
Proof.
  intros Hs Hg Hc. unfold fs_cancel in Hc. rewrite (grant_at_lookup _ _ _ Hg) in Hc. destruct (g_done gr) eqn:Ed.
  { simplify_eq. rewrite (grant_at_lookup _ _ _ Hg). congruence. }
  pose proof (cancel_grant_inv _ _ _ Hs Hg Ed) as Hi.
  assert (Hd : exists y, grant_store (cancel_grant s g) !! g = Some y /\ g_done y <> None).
  { unfold cancel_grant. rewrite (grant_at_lookup _ _ _ Hg). destruct (g_granted gr).
    - unfold release_slot. rewrite (grant_at_lookup _ _ _ Hg). cbn. rewrite lookup_insert_eq. by eexists.
    - cbn. rewrite lookup_insert_eq. by eexists. }
  destruct Hd as (y & Hy & Hyd). destruct (dispatchLocked clock (cancel_grant s g)) as [s1|] eqn:Ed1; [|done].
  simplify_eq. pose proof (dispatch_ends _ _ _ _ Hi Ed1 g) as He. rewrite Hy in He. unfold grant_at.
  destruct (grant_store s' !! g); [|done]. destruct He as (He & _). unfold default, id. congruence.
Qed.

(** Dropping an empty path changes no scheduler. *)
Lemma remove_schedulers t path sp : schedulers (removeIfEmpty t path sp) = schedulers t.
Proof. unfold removeIfEmpty. by destruct (_ && _). Qed.

Lemma put_lookup t sp s : schedulers (put_scheduler t sp s) !! sp = Some s.
Proof. apply lookup_insert_eq. Qed.

Lemma scheduler_at_lookup t sp s : schedulers t !! sp = Some s -> scheduler_at t sp = s.
Proof. intros H. unfold scheduler_at. by rewrite H. Qed.

Lemma cancel_at_ok t path sp s g gr clock :
  tinv t -> schedulers t !! sp = Some s -> grant_store s !! g = Some gr ->
  exists t', cancel_at t path sp g clock = Some t' /\ steps sstep t t' /\
    g_done (grant_at (scheduler_at t' sp) g) <> None.
Proof.
  intros Ht Hsp Hg. destruct (ti_sched _ Ht sp s Hsp) as (_ & Hs & Hsat & _).
  destruct (cancel_ok s g gr clock Hs Hsat Hg) as (s' & Hc & Hop). unfold cancel_at.
  rewrite (scheduler_at_lookup _ _ _ Hsp), Hc.
  assert (Hstep : sstep t (put_scheduler t sp s')) by (by eapply s_cancel; [|by eexists|]).
  pose proof (cancel_done _ _ _ _ _ _ Hs Hg Hc) as Hd. eexists. split; [done|]. destruct (emptyLocked s').
  - split.
    + eapply steps_cons; [exact Hstep|]. apply steps_one, s_remove. rewrite put_lookup. by eexists.
    + rewrite (scheduler_at_lookup _ sp s'); [done|]. by rewrite remove_schedulers, put_lookup.
  - split; [by apply steps_one|]. by rewrite (scheduler_at_lookup _ sp s') by apply put_lookup.
Qed.

(** ** Theorems *)

(** C14: However many flows request, cancel, release and close on however many
    paths, a path's scheduler counts exactly the grants that hold a slot, never more
    than eight; no flow holds more than two of them; and a grant that waits or holds
    a slot belongs to the scheduler its path currently uses, and to no other path's,
    so every lane of a path is counted against the same limits. *)
Theorem path_slots_bounded startup t sp s :
  steps sstep (newFlowSchedulerSet startup) t -> schedulers t !! sp = Some s ->
  active s = msum (fun _ gr => ind (holds gr)) (grant_store s) /\ 0 <= active s <= 8 /\
  (forall f p, states s !! f = Some p -> 0 <= count_holding p (grant_store s) <= 2) /\
  (forall g gr, grant_store s !! g = Some gr -> g_done gr = None ->
    (exists path, paths t !! path = Some sp /\ forall path', paths t !! path' = Some sp -> path' = path) /\
    states s !! g_flowID gr = Some (g_state gr)).
Proof.
  intros Hst Hsp. destruct (set_reach startup t Hst) as [Ht Hcfg].
  destruct (ti_sched _ Ht sp s Hsp) as (_ & Hs & _ & Hc).
  assert (Hlim : perFlow (fs_cfg s) = 2 /\ maxActive (fs_cfg s) = 8).
  { rewrite Hc, Hcfg. unfold newFlowSchedulerSet. cbn. by destruct (startup >? 0). }
  assert (Hnn : forall b, 0 <= ind b) by (intros []; cbn; lia).
  split; [apply (fi_active _ Hs)|]. split; [|split].
  - split; [rewrite (fi_active _ Hs); apply msum_nonneg; auto|]. pose proof (fi_limit _ Hs). lia.
  - intros f p Hf. destruct (fi_states _ Hs f p Hf) as [st Hstp].
    destruct (proj2 (fi_store _ Hs p st Hstp)) as [Ha _ _ Hl]. split; [|lia].
    apply msum_nonneg. intros k a _. destruct (_ =? _); [apply Hnn|lia].
  - intros g gr Hg Hd. destruct (fi_grants _ Hs g gr Hg) as (_ & _ & Hun). split; [|by apply Hun].
    destruct (ti_kept _ Ht sp s Hsp (undone_not_empty _ _ _ Hs Hg Hd)) as [path Hp]. exists path. split; [done|].
    intros path' Hp'. by apply (ti_inj _ Ht path' path sp).
Qed.

(** No slot is left idle and no wakeup is lost.  In every reachable state a
    grant whose channel is still open either was cancelled by its own waiter, or is
    waiting in a queue while every slot of the path is taken or its flow holds as
    many as one flow may. *)
Theorem waiting_grants_justified startup t sp s g gr :
  steps sstep (newFlowSchedulerSet startup) t -> schedulers t !! sp = Some s ->
  grant_store s !! g = Some gr -> g_ready gr = false ->
  g_done gr = Some ContextCanceled \/
  (g_done gr = None /\ g ∈ high s ++ bulk s /\
   (active s = maxActive (fs_cfg s) \/ count_holding (g_state gr) (grant_store s) = perFlow (fs_cfg s))).
Proof.
  intros Hst Hsp Hg Hr. destruct (set_reach startup t Hst) as [Ht _].
  destruct (ti_sched _ Ht sp s Hsp) as (_ & Hs & Hsat & _).
  destruct (g_done gr) as [[]|] eqn:Ed.
  - rewrite (fi_woken _ Hs g gr Hg Ed) in Hr. done.
  - by left.
  - right. split; [done|]. destruct (fi_grants _ Hs g gr Hg) as (_ & _ & Hun). destruct (Hun Ed) as [Hrg _].
    assert (Hin : g ∈ high s ++ bulk s).
    { apply (proj2 (fi_queue _ Hs)). exists gr. split; [done|]. apply queued_spec. split; [congruence|done]. }
    split; [done|]. destruct Hsat as [Hfull|Hall]; [left; pose proof (fi_limit _ Hs); lia|right].
    destruct (eligible_spec _ _ Hs Hin) as (gr' & st & Hg' & _ & _ & [Ha _ _ Hl] & He).
    assert (gr' = gr) as -> by congruence. specialize (Hall g Hin).
    destruct (decide (st_active st < perFlow (fs_cfg s))) as [Hlt|]; [|lia].
    apply He in Hlt. congruence.
Qed.

(** Bulk flows are not starved.  Whenever a pass hands out a grant while some
    bulk grant could be served, and the run of high-priority grants has reached its
    burst or the oldest bulk grant has waited its age, the grant is a bulk one and
    the run starts again. *)
Theorem bulk_not_starved s now x b rest s' :
  finv s -> active s < maxActive (fs_cfg s) -> bulk s = b :: rest -> x ∈ bulk s -> eligible s x = true ->
  interactiveBurst (fs_cfg s) <= highRun s \/ bulkAge (fs_cfg s) <= now - g_queued (grant_at s b) ->
  dispatch_pass s now = PassGrant s' ->
  high s' = high s /\ highRun s' = 0 /\ length (bulk s') = pred (length (bulk s)) /\ active s' = active s + 1.
Proof.
  intros Hs Ha Hb Hx He Hor Hp. unfold dispatch_pass in Hp.
  assert (Hc : chooseBulk s now = true).
  { unfold chooseBulk. rewrite Hb. rewrite !orb_true_iff, !Z.geb_leb, !Z.leb_le. tauto. }
  rewrite Hc in Hp. destruct (takeEligible_spec s (bulk s)) as [(g & l1 & l2 & Ht & Hq & Heg)|[_ Hn]].
  2:{ by rewrite (Hn x Hx) in He. }
  rewrite Ht in Hp. destruct (grant_slot_inv s g (high s) (l1 ++ l2) 0 Hs Ha) as (s1 & Hg1 & _ & H1 & H2 & H3 & _).
  { split; [done|]. right. by exists l1, l2. }
  assert (s1 = s') as -> by congruence. split; [done|]. split; [done|]. split.
  - rewrite H2, Hq, !length_app. cbn. lia.
  - unfold grant_slot in Hg1. destruct (g_ready _); [done|]. by injection Hg1 as <-.
Qed.

(** However the wait of [acquire] ends, it ends without a panic, by steps of
    the scheduler, and holds a slot exactly when it reports success: on a stop, a
    cancelled context or a closed flow the grant is over and keeps nothing. *)
Theorem acquire_keeps_no_slot startup t path sp s g gr ev clock :
  steps sstep (newFlowSchedulerSet startup) t -> schedulers t !! sp = Some s -> grant_store s !! g = Some gr ->
  (forall b, ev = EvReady b -> g_ready gr = true) ->
  exists r t', acquire_settle t path sp g ev clock = Some (r, t') /\ steps sstep t t' /\
    (holds (grant_at (scheduler_at t' sp) g) = true <-> r = AcquireGranted).
Proof.
  intros Hst Hsp Hg Hev. destruct (set_reach startup t Hst) as [Ht _].
  destruct (ti_sched _ Ht sp s Hsp) as (_ & Hs & _ & _).
  destruct (cancel_at_ok t path sp s g gr clock Ht Hsp Hg) as (t' & Hc & Hsteps & Hd).
  assert (Hover : forall y, g_done y <> None -> holds y = false).
  { intros y Hy. unfold holds. destruct (g_done y); [|done]. by rewrite andb_false_r. }
  unfold acquire_settle. rewrite Hc, (scheduler_at_lookup _ _ _ Hsp), (grant_at_lookup _ _ _ Hg).
  destruct ev as [|[]|].
  - eexists _, t'. split; [done|]. split; [done|]. rewrite Hover by done. done.
  - eexists _, t'. split; [done|]. split; [done|]. rewrite Hover by done. done.
  - destruct (g_done gr) as [e|] eqn:Ed.
    + eexists _, _. split; [done|]. destruct (emptyLocked s) eqn:Ee; (split; [first [apply steps_one, s_remove; by eexists|constructor]|]).
      * rewrite (scheduler_at_lookup _ sp s), (grant_at_lookup _ _ _ Hg), Hover; [done|congruence|by rewrite remove_schedulers].
      * rewrite (scheduler_at_lookup _ sp s), (grant_at_lookup _ _ _ Hg), Hover; [done|congruence|done].
    + eexists _, t. split; [done|]. split; [constructor|].
      rewrite (scheduler_at_lookup _ sp s), (grant_at_lookup _ _ _ Hg) by done.
      destruct (fi_grants _ Hs g gr Hg) as (_ & _ & Hun). destruct (Hun Ed) as [Hr _].
      split; [done|]. intros _. apply holds_spec. split; [|done]. rewrite <- Hr. by apply (Hev false).
  - eexists _, t'. split; [done|]. split; [done|]. rewrite Hover by done. done.
Qed.

(** [closeFlow] of a flow, in whatever order its slots are visited, returns;
    every grant of the flow is over and none of its waiters stays blocked; the other
    flows' grants keep what they had; its state is forgotten, so a second
    [closeFlow] changes nothing. *)
Theorem close_flow_releases startup t sp s f visit clock :
  steps sstep (newFlowSchedulerSet startup) t -> schedulers t !! sp = Some s -> close_visit s f visit ->
  exists e s', fs_closeFlow s f visit clock = Some (e, s') /\
    (forall g gr, grant_store s' !! g = Some gr -> g_flowID gr = f ->
      g_done gr <> None /\ (g_done gr = Some SchedulingClosed -> g_ready gr = true)) /\
    (forall g gr, grant_store s !! g = Some gr -> g_flowID gr <> f ->
      exists gr', grant_store s' !! g = Some gr' /\ g_done gr' = g_done gr /\
        (g_granted gr = true -> g_granted gr' = true)) /\
    fs_closeFlow s' f visit clock = Some (emptyLocked s', s').
Proof.
  intros Hst Hsp Hv. destruct (set_reach startup t Hst) as [Ht _].
  destruct (ti_sched _ Ht sp s Hsp) as (_ & Hs & Hsat & _).
  destruct (closeFlow_ok s f visit clock Hs Hsat Hv) as (s' & Hc & (Hs' & _) & Hn & Hdone & Hkeep).
  eexists _, s'. split; [done|]. split; [|split; [done|]].
  - intros g gr Hg Hf. split; [by apply (Hdone g)|]. by apply (fi_woken _ Hs' g).
  - unfold fs_closeFlow. by rewrite Hn.
Qed.

(** ** A concrete path *)

Definition clock0 : nat -> Z := fun _ => 0.

Definition do_request (t : flowSchedulerSet) (f class : Z) : flowSchedulerSet :=
  match acquire_request t "path" f class 100 0 clock0 with Some (_, _, t') => t' | None => t end.

(** Four flows take two slots each, a fifth asks for three and waits: its first
    bytes count as startup, the rest is bulk. *)
Definition fx : flowSchedulerSet :=
  do_request (do_request (do_request (do_request (do_request (do_request (do_request (do_request (do_request (do_request
    (newFlowSchedulerSet 1) 1 0) 1 0) 2 0) 2 0) 3 0) 3 0) 4 0) 4 0) 5 2) 5 2.

Lemma do_request_step t f class sp g :
  acquire_request t "path" f class 100 0 clock0 = Some (sp, g, do_request t f class) ->
  sstep t (do_request t f class).
Proof. apply s_request. Qed.

Ltac request_step f class g :=
  eapply steps_cons; [apply (do_request_step _ f class 1 g); vm_compute; reflexivity|].

Lemma fx_reachable : steps sstep (newFlowSchedulerSet 1) fx.
Proof.
  unfold fx. request_step 1 0 2. request_step 1 0 3. request_step 2 0 5. request_step 2 0 6. request_step 3 0 8.
  request_step 3 0 9. request_step 4 0 11. request_step 4 0 12. request_step 5 2 14. request_step 5 2 15. apply steps_refl.
Qed.

Definition fx_s : flowScheduler := scheduler_at fx 1.

Lemma fx_sched : schedulers fx !! 1 = Some fx_s.
Proof. vm_compute. reflexivity. Qed.

Lemma path_slots_bounded_witness : 0 <= active fx_s <= 8.
Proof. exact (proj1 (proj2 (path_slots_bounded 1 fx 1 fx_s fx_reachable fx_sched))). Defined.

Lemma waiting_grants_justified_witness :
  g_done (grant_at fx_s 15) = Some ContextCanceled \/
  (g_done (grant_at fx_s 15) = None /\ 15 ∈ high fx_s ++ bulk fx_s /\
   (active fx_s = maxActive (fs_cfg fx_s) \/
    count_holding (g_state (grant_at fx_s 15)) (grant_store fx_s) = perFlow (fs_cfg fx_s))).
Proof.
  refine (waiting_grants_justified 1 fx 1 fx_s 15 (grant_at fx_s 15) fx_reachable fx_sched _ _);
    vm_compute; reflexivity.
Defined.

Lemma acquire_keeps_no_slot_witness :
  exists r t', acquire_settle fx "path" 1 15 EvStop clock0 = Some (r, t') /\ steps sstep fx t' /\
    (holds (grant_at (scheduler_at t' 1) 15) = true <-> r = AcquireGranted).
Proof.
  refine (acquire_keeps_no_slot 1 fx "path" 1 fx_s 15 (grant_at fx_s 15) EvStop clock0 fx_reachable fx_sched _ _);
    [vm_compute; reflexivity|intros b H; discriminate H].
Defined.

Definition fx_visit : list Z := elements (st_grants (state_at fx_s 1)).

Lemma fx_close_visit : close_visit fx_s 1 fx_visit.
Proof.
  intros p Hp. assert (H1 : states fx_s !! 1 = Some 1) by (vm_compute; reflexivity).
  rewrite H1 in Hp. injection Hp as <-. reflexivity.
Qed.

Lemma close_flow_releases_witness :
  exists e s', fs_closeFlow fx_s 1 fx_visit clock0 = Some (e, s') /\
    (forall g gr, grant_store s' !! g = Some gr -> g_flowID gr = 1 -> g_done gr <> None).
Proof.
  destruct (close_flow_releases 1 fx 1 fx_s 1 fx_visit clock0 fx_reachable fx_sched fx_close_visit)
    as (e & s' & Hc & Hd & _).
  exists e, s'. split; [exact Hc|]. intros g gr Hg Hf. apply (Hd g gr Hg Hf).
Defined.

(** One slot comes back: the waiting startup grant has to let the bulk grant go
    first. *)
Definition fx_free : flowScheduler := release_slot fx_s 2 SchedulingClosed.

Lemma fx_free_inv : finv fx_free.
Proof.
  destruct (ti_sched fx (proj1 (set_reach 1 fx fx_reachable)) 1 fx_s fx_sched) as (_ & Hs & _).
  refine (release_slot_inv fx_s 2 (grant_at fx_s 2) SchedulingClosed Hs _ _); vm_compute; reflexivity.
Qed.

Definition fx_after : flowScheduler :=
  match dispatch_pass fx_free 0 with PassGrant s => s | _ => fx_free end.

Lemma bulk_not_starved_witness :
  high fx_after = high fx_free /\ highRun fx_after = 0 /\
  length (bulk fx_after) = pred (length (bulk fx_free)) /\ active fx_after = active fx_free + 1.
Proof.
  refine (bulk_not_starved fx_free 0 15 15 [] fx_after fx_free_inv _ _ _ _ _ _).
  - vm_compute. reflexivity.
  - vm_compute. reflexivity.
  - apply list_elem_of_In. vm_compute. left. reflexivity.
  - vm_compute. reflexivity.
  - left. vm_compute. discriminate.
  - vm_compute. reflexivity.
Defined.
