(* ===== verification/Coded.v ===== *)
(** The coded datagram path ([internal/coded/coded.go]).

    The sending side is the goroutine of [sendLoop] with the ring of frames that
    [SendOwnedTracked] queues for it: frames are packed into symbols or cut into
    fragments, the symbols join the window of the encoder and go out as source
    datagrams, and repairs follow.  The receiving side is [onDatagram]: the
    assembler with the decoder of the erasure code.

    What the code asks of the outside is a field of [Env]: what the carrier
    answers to each datagram, how large a datagram it accepts now, and the code
    in use (the window's capacity, the repairs a symbol has earned, the repairs
    the end of a burst needs), which the source computes in floating point from
    the loss estimate.  [wire] records the datagrams the carrier took, [emitted]
    the vectors that joined the window and [called] the completion callbacks run,
    a callback being named by a number ([None] is nil).  Counters, the estimate
    and [Receive]'s queue are left out. *)

From S2P Require Import Prelude GF256 Window Fec.

Definition sourceHeader : Z := 4 + 1 + 4.
Definition repairHeader : Z := 4 + 1 + 4 + 4 + 2.
Definition kindSource : Z := 0.
Definition kindRepair : Z := 1.
Definition symbolHeader : Z := 2 + 2 + 2.
Definition frameHeader : Z := 4.
Definition maxFrameBytes : Z := Z.shiftl 1 20.
Definition maxFragments : Z := 65535.
Definition initialWindow : Z := 16.

(** What the carrier does with a datagram: takes it, refuses it for its size
    ([ErrDatagramTooLarge]), or fails. *)
Inductive answer := Taken | Refused | Failed.

Record Env := mkEnv {
  cfg_SymbolBytes : Z;
  cfg_Pending : Z;
  carrier_answer : nat -> answer;
  carrier_limit : nat -> option Z;
  code_capacity : nat -> Z;
  code_earned : nat -> nat;
  code_tail : nat -> Z -> Z
}.

(** [symbolBytes]: the configured size, and the carrier's limit when it has one. *)
Definition symbolBytes (configured : Z) (carrier_limit : option Z) : Z :=
  let size_ := match carrier_limit with
    | Some limit => if (limit >? 0) && (limit <? configured) then limit else configured
    | None => configured
    end in
  let floor_ := repairHeader + symbolHeader + frameHeader + 1 in
  if size_ <? floor_ then floor_ else size_.

Definition symbolPayload (configured : Z) (carrier_limit : option Z) : Z :=
  symbolBytes configured carrier_limit - repairHeader - symbolHeader.

(** ** State *)

Record outboundFrame := mkOutbound { ob_frame : bytes; ob_done : option Z }.

Definition no_frame : outboundFrame := mkOutbound [] None.

(** The ring of queued frames. *)
Record Queue := mkQueue { pending : list outboundFrame; pendingHead : Z; pendingLen : Z }.

(** What sending a datagram touches; [puts] counts the datagrams offered. *)
Record Link := mkLink {
  l_closed : bool;
  encoder : option WindowEncoder;
  nextSeq : Z;
  nextRID : Z;
  burstSymbols : Z;
  burstRepairs : Z;
  puts : nat;
  wire : list bytes;
  emitted : list bytes
}.

Record Sender := mkSender {
  queue : Queue;
  packed : bytes;
  packedDone : list (option Z);
  link : Link;
  called : list Z
}.

Definition Queue_New (n : Z) : Queue := mkQueue (replicate (Z.to_nat n) no_frame) 0 0.
Definition Link_zero : Link := mkLink false None 0 0 0 0 0 [] [].

(** [New]. *)
Definition Sender_New (n : Z) : Sender := mkSender (Queue_New n) [] [] Link_zero [].

Definition set_queue (s : Sender) (q : Queue) : Sender := mkSender q (packed s) (packedDone s) (link s) (called s).
Definition set_packed (s : Sender) (b : bytes) (l : list (option Z)) : Sender := mkSender (queue s) b l (link s) (called s).
Definition set_link (s : Sender) (l : Link) : Sender := mkSender (queue s) (packed s) (packedDone s) l (called s).

(** ** The ring of queued frames *)

Definition pushPendingLocked (q : Queue) (frame : outboundFrame) : Queue :=
  let tail_ := (pendingHead q + pendingLen q) mod len (pending q) in
  mkQueue (<[Z.to_nat tail_ := frame]> (pending q)) (pendingHead q) (pendingLen q + 1).

Definition popPendingLocked (q : Queue) : outboundFrame * Queue :=
  (nth (Z.to_nat (pendingHead q)) (pending q) no_frame,
   mkQueue (<[Z.to_nat (pendingHead q) := no_frame]> (pending q)) ((pendingHead q + 1) mod len (pending q))
     (pendingLen q - 1)).

Inductive send_outcome := SendTooLarge | SendClosed | SendQueued | SendWait.

(** [SendOwnedTracked] up to its return or its wait. *)
Definition SendOwnedTracked (s : Sender) (frame : bytes) (done_ : option Z) : send_outcome * Sender :=
  if len frame >? maxFrameBytes then (SendTooLarge, s)
  else if negb (l_closed (link s)) && (pendingLen (queue s) =? len (pending (queue s))) then (SendWait, s)
  else if l_closed (link s) then (SendClosed, s)
  else (SendQueued, set_queue s (pushPendingLocked (queue s) (mkOutbound frame done_))).

(** [takePending]; [None] is the second result false.  A blocking caller finds
    the queue not empty or the path closed. *)
Definition takePending (s : Sender) : option (outboundFrame * Sender) :=
  if l_closed (link s) || (pendingLen (queue s) =? 0) then None
  else let '(f, q) := popPendingLocked (queue s) in Some (f, set_queue s q).

Definition close_link (l : Link) : Link :=
  mkLink true (encoder l) (nextSeq l) (nextRID l) (burstSymbols l) (burstRepairs l) (puts l) (wire l) (emitted l).

Definition closePath (s : Sender) : Sender := set_link s (close_link (link s)).

(** ** Datagrams *)

Definition source_datagram (seq_ esi : Z) (vector : bytes) : bytes :=
  be_bytes 4 seq_ ++ [kindSource] ++ be_bytes 4 esi ++ vector.

Definition repair_datagram (seq_ : Z) (r : RepairSymbol) : bytes :=
  be_bytes 4 seq_ ++ [kindRepair] ++ be_bytes 4 (RID r) ++ be_bytes 4 (First r) ++ be_bytes 2 (Count r) ++ Vector r.

(** The coded vector of a symbol. *)
Definition symbol_vector (payload : bytes) (index count : Z) : bytes :=
  be_bytes 2 (len payload) ++ be_bytes 2 index ++ be_bytes 2 count ++ payload.

Section Sending.
Variable env : Env.

(** [take], then [put] of the datagram built with the sequence: whether the
    sender goes on.  A datagram the carrier did not take gives its sequence back
    ([untake]), and a carrier that failed closes the path ([fail]). *)
Definition put (l : Link) (datagram : Z -> bytes) : bool * Link :=
  let d := datagram (nextSeq l) in
  let next := nextSeq l +u32 1 in
  let l' closed_ next_ wire_ :=
    mkLink closed_ (encoder l) next_ (nextRID l) (burstSymbols l) (burstRepairs l) (S (puts l)) wire_ (emitted l) in
  match carrier_answer env (puts l) with
  | Taken => (true, l' (l_closed l) next (wire l ++ [d]))
  | Refused => (true, l' (l_closed l) (next -u32 1) (wire l))
  | Failed => (false, l' true (next -u32 1) (wire l))
  end.

Definition sendSource (l : Link) (vector : bytes) (esi : Z) : bool * Link :=
  put l (fun seq_ => source_datagram seq_ esi vector).

(** [sendRepair]; the encoder exists once a symbol was emitted. *)
Definition sendRepair (l : Link) (count : Z) : bool * Link :=
  let rid := nextRID l in
  let l := mkLink (l_closed l) (encoder l) (nextSeq l) (rid +u32 1) (burstSymbols l) (burstRepairs l) (puts l)
             (wire l) (emitted l) in
  match encoder l with
  | None => (true, l)
  | Some e =>
      match AppendRepair e [] rid count with
      | (_, None) => (true, l)
      | (_, Some r) => put l (fun seq_ => repair_datagram seq_ r)
      end
  end.

Definition set_burst (l : Link) (symbols repairs : Z) : Link :=
  mkLink (l_closed l) (encoder l) (nextSeq l) (nextRID l) symbols repairs (puts l) (wire l) (emitted l).

(** The loops that send repairs: [n] more of them, each over [count] symbols. *)
Fixpoint repair_loop (n : nat) (count : Z) (l : Link) : bool * Link :=
  match n with
  | O => (true, l)
  | S n' =>
      let '(ok, l) := sendRepair l count in
      if negb ok then (false, l)
      else repair_loop n' count (set_burst l (burstSymbols l) (burstRepairs l + 1))
  end.

(** [emit]: whether it returned no error. *)
Definition emit (l : Link) (payload : bytes) (index count : Z) : bool * Link :=
  let vector := symbol_vector payload index count in
  let symbol := length (emitted l) in
  let e := SetCapacity (default (NewWindowEncoder initialWindow) (encoder l)) (code_capacity env symbol) in
  let '(esi, e) := AddOwned e vector in
  let l := mkLink (l_closed l) (Some e) (nextSeq l) (nextRID l) (burstSymbols l) (burstRepairs l) (puts l) (wire l)
             (emitted l ++ [vector]) in
  let '(ok, l) := sendSource l vector esi in
  if negb ok then (false, l)
  else
    let l := set_burst l (burstSymbols l + 1) (burstRepairs l) in
    let l := if burstSymbols l >=? Encoder_Capacity e then set_burst l 0 0 else l in
    repair_loop (code_earned env symbol) 0 l.

(** [protectBurst]. *)
Definition protectBurst (l : Link) : bool * Link :=
  if burstSymbols l <=? 0 then (true, l)
  else
    let want := code_tail env (length (emitted l)) (burstSymbols l) in
    let '(ok, l) := repair_loop (Z.to_nat (want - burstRepairs l)) (burstSymbols l) l in
    if negb ok then (false, l) else (true, set_burst l 0 0).

(** ** Packing *)

Definition callDone (s : Sender) (done_ : option Z) : Sender :=
  match done_ with
  | None => s
  | Some k => mkSender (queue s) (packed s) (packedDone s) (link s) (called s ++ [k])
  end.

Definition callAll (s : Sender) (l : list (option Z)) : Sender := fold_left callDone l s.

(** [flushPacked]: whether it succeeded. *)
Definition flushPacked (s : Sender) : bool * Sender :=
  if len (packed s) =? 0 then (true, s)
  else
    let '(ok, l) := emit (link s) (packed s) 0 1 in
    let s := set_packed (set_link s l) [] (packedDone s) in
    let s := callAll s (packedDone s) in
    (ok, set_packed s (packed s) []).

(** The loop of [sendFragments]. *)
Fixpoint fragment_loop (l : Link) (frame : bytes) (limit count : Z) (i n : nat) : bool * Link :=
  match n with
  | O => (true, l)
  | S n' =>
      let stop := Z.min ((Z.of_nat i + 1) * limit) (len frame) in
      let '(ok, l) := emit l (slice (Z.to_nat (Z.of_nat i * limit)) (Z.to_nat stop) frame) (Z.of_nat i) count in
      if negb ok then (false, l) else fragment_loop l frame limit count (S i) n'
  end.

Definition sendFragments (l : Link) (frame : bytes) (limit : Z) : bool * Link :=
  let count := (len frame + limit - 1) / limit in
  if count >? maxFragments then (false, l)
  else fragment_loop l frame limit count 0 (Z.to_nat count).

(** [appendFrame] of a frame and its callback, [limit] being [symbolPayload] now. *)
Definition appendFrame (s : Sender) (limit : Z) (frame : bytes) (done_ : option Z) : bool * Sender :=
  if frameHeader + len frame >? limit then
    let '(ok, s) := flushPacked s in
    if negb ok then (false, callDone s done_)
    else
      let '(ok, l) := sendFragments (link s) frame limit in
      (ok, callDone (set_link s l) done_)
  else
    let '(ok, s) :=
      if len (packed s) + frameHeader + len frame >? limit then flushPacked s else (true, s) in
    if negb ok then (false, callDone s done_)
    else (true, set_packed s (packed s ++ be_bytes 4 (len frame) ++ frame) (packedDone s ++ [done_])).

(** The loop of [abandonPending]: every queued frame leaves its slot and is
    called back. *)
Fixpoint abandon_loop (n : nat) (head i : Z) (slots_ : list outboundFrame) (s : Sender) : Sender :=
  match n with
  | O => set_queue s (mkQueue slots_ 0 0)
  | S n' =>
      let index := Z.to_nat ((head + i) mod len slots_) in
      let frame := nth index slots_ no_frame in
      abandon_loop n' head (i + 1) (<[index := no_frame]> slots_) (callDone s (ob_done frame))
  end.

Definition abandonPending (s : Sender) : Sender :=
  let q := queue s in
  let s := abandon_loop (Z.to_nat (pendingLen q)) (pendingHead q) 0 (pending q) s in
  let s := callAll s (packedDone s) in
  set_packed s (packed s) [].

(** ** The send loop *)

(** Where [sendLoop] is: blocked in [takePending], about to append a frame,
    about to look for another one, or returned. *)
Inductive loop_pc := Waiting | Holding (f : outboundFrame) | Draining | Stopped.

(** [appends] counts the calls of [appendFrame], [accepted] lists the frames
    [SendOwnedTracked] queued. *)
Record Path := mkPath { sender : Sender; pc : loop_pc; appends : nat; accepted : list outboundFrame }.

Definition New : Path := mkPath (Sender_New (cfg_Pending env)) Waiting 0 [].

(** The payload of a symbol when the [n]-th frame is appended. *)
Definition limit_at (n : nat) : Z := symbolPayload (cfg_SymbolBytes env) (carrier_limit env n).

Definition stop_loop (p : Path) (s : Sender) : Path := mkPath (abandonPending s) Stopped (appends p) (accepted p).

(** One turn of [sendLoop]; [None] when it waits or has returned. *)
Definition loop_turn (p : Path) : option Path :=
  let s := sender p in
  match pc p with
  | Waiting =>
      match takePending s with
      | Some (f, s) => Some (mkPath s (Holding f) (appends p) (accepted p))
      | None => if l_closed (link s) then Some (stop_loop p s) else None
      end
  | Holding f =>
      let '(ok, s) := appendFrame s (limit_at (appends p)) (ob_frame f) (ob_done f) in
      let p := mkPath s Draining (S (appends p)) (accepted p) in
      Some (if ok then p else stop_loop p s)
  | Draining =>
      match takePending s with
      | Some (f, s) => Some (mkPath s (Holding f) (appends p) (accepted p))
      | None =>
          let '(ok, s) := flushPacked s in
          if negb ok then Some (stop_loop p s)
          else
            let '(ok, l) := protectBurst (link s) in
            let s := set_link s l in
            Some (if ok then mkPath s Waiting (appends p) (accepted p) else stop_loop p s)
      end
  | Stopped => None
  end.

(** Callers queue frames and close the path between the turns of the loop: what
    they share with it is the ring and the closed flag, under one lock. *)
Inductive path_step : Path -> Path -> Prop :=
| ps_turn p p' : loop_turn p = Some p' -> path_step p p'
| ps_send p frame done_ s' :
    SendOwnedTracked (sender p) frame done_ = (SendQueued, s') ->
    path_step p (mkPath s' (pc p) (appends p) (accepted p ++ [mkOutbound frame done_]))
| ps_close p :
    path_step p (mkPath (closePath (sender p)) (pc p) (appends p) (accepted p)).

End Sending.

(** ** Parsing *)

Definition u16_at (v : bytes) (i : nat) : Z := be_val (slice i (i + 2) v).
Definition u32_at (v : bytes) (i : nat) : Z := be_val (slice i (i + 4) v).

(** [parseSymbol]: payload, index and count. *)
Definition parseSymbol (vector : bytes) : option (bytes * Z * Z) :=
  if len vector <? symbolHeader then None
  else
    let length_ := u16_at vector 0 in
    let index := u16_at vector 2 in
    let count := u16_at vector 4 in
    if (count <? 1) || (index >=? count) || (symbolHeader + length_ >? len vector) then None
    else Some (slice 6 (6 + Z.to_nat length_) vector, index, count).

(** [parseFrames]; every turn removes a header, which bounds the loop. *)
Fixpoint parse_frames (fuel : nat) (payload : bytes) (out : list bytes) : list bytes :=
  match fuel with
  | O => out
  | S fuel' =>
      if len payload <? frameHeader then out
      else
        let size_ := u32_at payload 0 in
        let payload := drop 4 payload in
        if size_ >? len payload then out
        else parse_frames fuel' (drop (Z.to_nat size_) payload) (out ++ [take (Z.to_nat size_) payload])
  end.

Definition parseFrames (payload : bytes) (out : list bytes) : list bytes :=
  parse_frames (S (length payload)) payload out.

(** ** The assembler *)

(** A part is [None] while it is nil, which an empty payload is too. *)
Record fragmentGroup := mkGroup { fg_parts : list (option bytes); fg_held : Z; fg_bytes : Z }.

Record assembler := mkAssembler {
  groups : gmap Z fragmentGroup;
  as_high : Z;
  as_seen : bool;
  as_lostN : Z
}.

Definition assembler_zero : assembler := mkAssembler ∅ 0 false 0.

Definition assemblerSlack : Z := MinDecoderWidth.

Definition set_groups (a : assembler) (g : gmap Z fragmentGroup) : assembler :=
  mkAssembler g (as_high a) (as_seen a) (as_lostN a).

Definition prune (a : assembler) : assembler :=
  set_groups a (filter (fun kg => ~ int32_of (as_high a -u32 (fst kg +u32 len (fg_parts (snd kg)))) > assemblerSlack)
    (groups a)).

Definition note (a : assembler) (esi : Z) : assembler :=
  if negb (as_seen a) then mkAssembler (groups a) esi true (as_lostN a)
  else if int32_of (esi -u32 as_high a) >? 0 then prune (mkAssembler (groups a) esi (as_seen a) (as_lostN a))
  else a.

(** A fresh copy of a payload: nil when the payload is empty. *)
Definition copied (payload : bytes) : option bytes := match payload with [] => None | _ => Some payload end.

Definition arrived (a : assembler) (esi : Z) (vector : bytes) (out : list bytes) : list bytes * bool * assembler :=
  let a := note a esi in
  match parseSymbol vector with
  | None => (out, false, a)
  | Some (payload, index, count) =>
      if count =? 1 then (parseFrames payload out, true, a)
      else
        let first := esi -u32 index in
        let group := default (mkGroup (replicate (Z.to_nat count) None) 0 0) (groups a !! first) in
        let a := set_groups a (<[first := group]> (groups a)) in
        if (index >=? len (fg_parts group)) ||
           (match fg_parts group !! Z.to_nat index with Some (Some _) => true | _ => false end)
        then (out, true, a)
        else
          let group := mkGroup (<[Z.to_nat index := copied payload]> (fg_parts group)) (fg_held group + 1)
            (fg_bytes group + len payload) in
          if fg_held group <? len (fg_parts group) then (out, true, set_groups a (<[first := group]> (groups a)))
          else (out ++ [concat (map (default []) (fg_parts group))], true,
                set_groups a (delete first (groups a)))
  end.

Definition lost (a : assembler) (esi : Z) : assembler :=
  let a := note a esi in
  mkAssembler
    (filter (fun kg => ~ (int32_of (esi -u32 fst kg) >= 0 /\
                          int32_of (esi -u32 fst kg) < int32_of (wrap 32 (len (fg_parts (snd kg))))))
      (groups a)) (as_high a) (as_seen a) (as_lostN a +u64 1).

(** ** Arrivals *)

Record Receiver := mkReceiver { rx_decoder : option WindowDecoder; rx_assembler : assembler }.

Definition decoder_of (r : Receiver) : WindowDecoder := default NewWindowDecoder (rx_decoder r).

(** The last part of [onDatagram]: what the decoder reported. *)
Definition take_delivery (a : assembler) (delivered : Delivery) (frames : list bytes) : list bytes * assembler :=
  let '(frames, a) := fold_left (fun '(out, a) r => let '(out, _, a) := arrived a (rec_ESI r) (rec_Vector r) out in (out, a))
    (Recovered delivered) (frames, a) in
  (frames, fold_left lost (Lost delivered) a).

Definition onDatagram (r : Receiver) (d : bytes) : list bytes * Receiver :=
  if len d <? sourceHeader then ([], r)
  else
    let kind := nth 4 d 0 in
    if kind =? kindSource then
      let esi := u32_at d 5 in
      let vector := drop 9 d in
      let '(frames, valid, a) := arrived (rx_assembler r) esi vector [] in
      if negb valid then (frames, mkReceiver (rx_decoder r) a)
      else
        let '(dec, delivered) := Decoder_SourceOwned (decoder_of r) esi vector in
        let '(frames, a) := take_delivery a delivered frames in
        (frames, mkReceiver (Some dec) a)
    else if kind =? kindRepair then
      if len d <? repairHeader then ([], r)
      else
        let count := u16_at d 13 in
        if (count <=? 0) || (count >? MaxRepairWindow) then ([], r)
        else
          let '(dec, delivered) := Decoder_RepairOwned (decoder_of r)
            (mkRepair (u32_at d 5) (u32_at d 9) count (drop 15 d)) in
          let '(frames, a) := take_delivery (rx_assembler r) delivered [] in
          (frames, mkReceiver (Some dec) a)
    else ([], r).

(** ** The ring is a queue *)

Record queue_ok (q : Queue) : Prop := mk_queue_ok {
  qk_size : 0 < len (pending q);
  qk_head : 0 <= pendingHead q < len (pending q);
  qk_len : 0 <= pendingLen q <= len (pending q)
}.

(** The frame [i] places behind position [h]. *)
Definition ring_frame (slots_ : list outboundFrame) (h : Z) (i : nat) : outboundFrame :=
  nth (Z.to_nat ((h + Z.of_nat i) mod len slots_)) slots_ no_frame.

Definition queued_frames (q : Queue) : list outboundFrame :=
  map (ring_frame (pending q) (pendingHead q)) (seq 0 (Z.to_nat (pendingLen q))).

Lemma ring_position_inj n h i j :
  0 < n -> 0 <= i < n -> 0 <= j < n -> (h + i) mod n = (h + j) mod n -> i = j.
Proof.
  intros Hn Hi Hj He. pose proof (Z.div_mod (h + i) n ltac:(lia)) as H1. pose proof (Z.div_mod (h + j) n ltac:(lia)) as H2.
  rewrite He in H1. set (a := (h + i) / n) in *. set (b := (h + j) / n) in *.
  assert (Hd : n * (a - b) = i - j) by lia. assert (a - b < 1) by nia. assert (- 1 < a - b) by nia.
  replace (a - b) with 0 in Hd by lia. lia.
Qed.

(** Writing the slot of one place leaves the frames of the others. *)
Lemma ring_frame_insert slots_ h i j f :
  0 < len slots_ -> 0 <= i < len slots_ -> Z.of_nat j < len slots_ -> i <> Z.of_nat j ->
  ring_frame (<[Z.to_nat ((h + i) mod len slots_) := f]> slots_) h j = ring_frame slots_ h j.
Proof.
  intros Hn Hi Hj Hne. unfold ring_frame. replace (len (<[_ := f]> slots_)) with (len slots_) by (unfold len; by rewrite length_insert).
  pose proof (Z.mod_pos_bound (h + i) (len slots_) Hn). pose proof (Z.mod_pos_bound (h + Z.of_nat j) (len slots_) Hn).
  rewrite nth_insert by (unfold len in *; lia). rewrite decide_False; [done|].
  intros He. apply Hne, (ring_position_inj (len slots_) h); lia.
Qed.

Lemma push_queued q f :
  queue_ok q -> pendingLen q < len (pending q) ->
  queue_ok (pushPendingLocked q f) /\ queued_frames (pushPendingLocked q f) = queued_frames q ++ [f].
Proof.
  intros [Hn Hh Hl] Hroom. unfold pushPendingLocked.
  assert (Hlen : forall i, len (<[i := f]> (pending q)) = len (pending q)) by (intros; unfold len; by rewrite length_insert).
  split; [split; cbn; rewrite Hlen; lia|].
  unfold queued_frames. cbn [pending pendingHead pendingLen].
  replace (Z.to_nat (pendingLen q + 1)) with (S (Z.to_nat (pendingLen q))) by lia. rewrite seq_S, map_app. f_equal.
  - apply map_ext_in. intros i Hi. apply in_seq in Hi. apply ring_frame_insert; lia.
  - cbn [map]. f_equal. unfold ring_frame. rewrite Hlen, Nat.add_0_l, Z2Nat.id by lia.
    pose proof (Z.mod_pos_bound (pendingHead q + pendingLen q) (len (pending q)) Hn).
    rewrite nth_insert by (unfold len in *; lia). by rewrite decide_True.
Qed.

Lemma pop_queued q f q' :
  queue_ok q -> 0 < pendingLen q -> popPendingLocked q = (f, q') ->
  queue_ok q' /\ queued_frames q = f :: queued_frames q'.
Proof.
  intros [Hn Hh Hl] Hpos Hp. injection Hp as <- <-.
  assert (Hlen : forall i, len (<[i := no_frame]> (pending q)) = len (pending q)) by (intros; unfold len; by rewrite length_insert).
  pose proof (Z.mod_pos_bound (pendingHead q + 1) (len (pending q)) Hn) as Hm.
  split; [split; cbn; rewrite Hlen; lia|].
  unfold queued_frames. cbn [pending pendingHead pendingLen].
  replace (Z.to_nat (pendingLen q)) with (S (Z.to_nat (pendingLen q - 1))) at 1 by lia. cbn [seq map]. f_equal.
  - unfold ring_frame. cbn. rewrite Z.add_0_r, Z.mod_small by lia. done.
  - rewrite <- seq_shift, map_map. apply map_ext_in. intros i Hi. apply in_seq in Hi.
    rewrite <- (ring_frame_insert (pending q) (pendingHead q) 0 (S i) no_frame) by lia.
    rewrite Z.add_0_r, (Z.mod_small (pendingHead q)) by lia.
    unfold ring_frame. rewrite Hlen. rewrite Zplus_mod_idemp_l.
    by replace (pendingHead q + 1 + Z.of_nat i) with (pendingHead q + Z.of_nat (S i)) by lia.
Qed.

(** ** Completion callbacks *)

Definition tokens (l : list (option Z)) : list Z := omap id l.

Lemma tokens_app l k : tokens (l ++ k) = tokens l ++ tokens k.
Proof. apply omap_app. Qed.

Lemma callDone_fields s d :
  queue (callDone s d) = queue s /\ packed (callDone s d) = packed s /\ packedDone (callDone s d) = packedDone s /\
  link (callDone s d) = link s /\ called (callDone s d) = called s ++ tokens [d].
Proof. destruct d; cbn; by rewrite ?app_nil_r. Qed.

Lemma callAll_fields l : forall s,
  queue (callAll s l) = queue s /\ packed (callAll s l) = packed s /\ packedDone (callAll s l) = packedDone s /\
  link (callAll s l) = link s /\ called (callAll s l) = called s ++ tokens l.
Proof.
  induction l as [|d l IH]; intros s; [cbn; by rewrite app_nil_r|].
  change (callAll s (d :: l)) with (callAll (callDone s d) l).
  destruct (IH (callDone s d)) as (-> & -> & -> & -> & ->). destruct (callDone_fields s d) as (-> & -> & -> & -> & ->).
  rewrite <- app_assoc, <- tokens_app. done.
Qed.

(** The loop calls back the frames that are queued, in their order. *)
Lemma abandon_loop_fields head n : forall i slots_ s,
  0 < len slots_ -> 0 <= i -> i + Z.of_nat n <= len slots_ ->
  let s' := abandon_loop n head i slots_ s in
  packed s' = packed s /\ packedDone s' = packedDone s /\ link s' = link s /\
  len (pending (queue s')) = len slots_ /\ pendingHead (queue s') = 0 /\ pendingLen (queue s') = 0 /\
  called s' = called s ++ tokens (map (fun k => ob_done (ring_frame slots_ head k)) (seq (Z.to_nat i) n)).
Proof.
  induction n as [|n IH]; intros i slots_ s Hn Hi Hfit; cbn [abandon_loop].
  { cbn. by rewrite app_nil_r. }
  set (index := Z.to_nat ((head + i) mod len slots_)). set (s1 := callDone s _).
  assert (Hlen : len (<[index := no_frame]> slots_) = len slots_) by (unfold len; by rewrite length_insert).
  destruct (IH (i + 1) (<[index := no_frame]> slots_) s1) as (H1 & H2 & H3 & H4 & H5 & H6 & H7); try (rewrite ?Hlen; lia).
  destruct (callDone_fields s (ob_done (nth index slots_ no_frame))) as (_ & F1 & F2 & F3 & F4). fold s1 in F1, F2, F3, F4.
  split; [congruence|]. split; [congruence|]. split; [congruence|]. split; [congruence|]. split; [done|]. split; [done|].
  rewrite H7, F4, <- app_assoc, <- tokens_app. f_equal. f_equal. cbn [seq map app]. f_equal.
  - unfold ring_frame. by rewrite Z2Nat.id by lia.
  - replace (Z.to_nat (i + 1)) with (S (Z.to_nat i)) by lia. apply map_ext_in. intros k Hk. apply in_seq in Hk.
    f_equal. apply ring_frame_insert; lia.
Qed.

(** Abandoning calls back everything queued or packed, and leaves nothing. *)
Lemma abandonPending_fields s :
  queue_ok (queue s) ->
  let s' := abandonPending s in
  queue_ok (queue s') /\ queued_frames (queue s') = [] /\ packedDone s' = [] /\ link s' = link s /\
  called s' = called s ++ tokens (map ob_done (queued_frames (queue s))) ++ tokens (packedDone s).
Proof.
  intros [Hn Hh Hl]. unfold abandonPending.
  destruct (abandon_loop_fields (pendingHead (queue s)) (Z.to_nat (pendingLen (queue s))) 0 (pending (queue s)) s)
    as (H1 & H2 & H3 & H4 & H5 & H6 & H7); [lia..|].
  set (s1 := abandon_loop _ _ _ _ _) in *. destruct (callAll_fields (packedDone s1) s1) as (G1 & G2 & G3 & G4 & G5).
  cbn [queue packedDone link called set_packed]. rewrite G1, G4, G5, H3, H7, H2. split; [split; lia|].
  split; [unfold queued_frames; by rewrite H6|]. split; [done|]. split; [done|].
  rewrite <- app_assoc. do 3 f_equal. unfold queued_frames. by rewrite map_map.
Qed.

(** ** Sending never stops but by the carrier *)

Section Closing.
Variable env : Env.

(** Sending leaves the path closed when it fails and when it was closed. *)
Definition closes (ok : bool) (l l' : Link) : Prop :=
  (ok = false -> l_closed l' = true) /\ (l_closed l = true -> l_closed l' = true).

Lemma closes_trans ok l1 l2 l3 : closes true l1 l2 -> closes ok l2 l3 -> closes ok l1 l3.
Proof. unfold closes. tauto. Qed.

Lemma closes_refl l : closes true l l.
Proof. done. Qed.

Lemma put_closed l d ok l' : put env l d = (ok, l') -> closes ok l l'.
Proof. unfold put, closes. destruct (carrier_answer env (puts l)); intros [= <- <-]; done. Qed.

Lemma sendRepair_closed l n ok l' : sendRepair env l n = (ok, l') -> closes ok l l'.
Proof.
  unfold sendRepair. cbn [encoder]. destruct (encoder l) as [e|]; [|by intros [= <- <-]].
  destruct (AppendRepair _ _ _ _) as [? [r|]]; [|by intros [= <- <-]]. intros Hp. by apply put_closed in Hp.
Qed.

Lemma repair_loop_closed n count : forall l ok l', repair_loop env n count l = (ok, l') -> closes ok l l'.
Proof.
  induction n as [|n IH]; intros l ok l' Hr; cbn [repair_loop] in Hr; [by injection Hr as <- <-|].
  destruct (sendRepair env l count) as [ok1 l1] eqn:E. apply sendRepair_closed in E.
  destruct ok1; cbn [negb] in Hr; [|by injection Hr as <- <-].
  apply IH in Hr. eapply closes_trans; [exact E|exact Hr].
Qed.

Lemma emit_closed l p i c ok l' : emit env l p i c = (ok, l') -> closes ok l l'.
Proof.
  unfold emit. destruct (AddOwned _ _) as [esi e]. destruct (sendSource env _ _ _) as [ok1 l1] eqn:E.
  apply put_closed in E. destruct ok1; cbn [negb]; [|by intros [= <- <-]].
  intros Hr. apply repair_loop_closed in Hr. eapply closes_trans; [exact E|]. by destruct (_ >=? _).
Qed.

Lemma protectBurst_closed l ok l' : protectBurst env l = (ok, l') -> closes ok l l'.
Proof.
  unfold protectBurst. destruct (_ <=? 0); [by intros [= <- <-]|].
  destruct (repair_loop _ _ _ _) as [ok1 l1] eqn:E. apply repair_loop_closed in E.
  destruct ok1; intros [= <- <-]; done.
Qed.

Lemma fragment_loop_closed frame limit count n : forall l i ok l',
  fragment_loop env l frame limit count i n = (ok, l') -> closes ok l l'.
Proof.
  induction n as [|n IH]; intros l i ok l' Hr; cbn [fragment_loop] in Hr; [by injection Hr as <- <-|].
  destruct (emit env _ _ _ _) as [ok1 l1] eqn:E. apply emit_closed in E.
  destruct ok1; cbn [negb] in Hr; [|by injection Hr as <- <-]. eapply closes_trans; [exact E|by eapply IH].
Qed.

(** A symbol of 17 bytes cuts the largest frame into few enough fragments. *)
Lemma fragments_fit (frame : bytes) limit :
  len frame <= maxFrameBytes -> 17 <= limit -> (len frame + limit - 1) / limit <= maxFragments.
Proof.
  intros Hf Hl. change maxFrameBytes with 1048576 in Hf. unfold maxFragments.
  apply Z.lt_succ_r. apply Z.div_lt_upper_bound; lia.
Qed.

Lemma flushPacked_fields s ok s' : flushPacked env s = (ok, s') ->
  queue s' = queue s /\ closes ok (link s) (link s') /\
  called s' ++ tokens (packedDone s') = called s ++ tokens (packedDone s).
Proof.
  unfold flushPacked. destruct (len (packed s) =? 0); [by intros [= <- <-]|].
  destruct (emit env (link s) (packed s) 0 1) as [ok1 l1] eqn:E. apply emit_closed in E.
  intros [= <- <-]. set (s1 := set_packed (set_link s l1) [] (packedDone s)).
  destruct (callAll_fields (packedDone s) s1) as (H1 & H2 & H3 & H4 & H5).
  cbn [queue link called packedDone set_packed]. rewrite H1, H4, H5. split; [done|]. split; [done|].
  by rewrite app_nil_r.
Qed.

(** [appendFrame] calls a callback back or keeps it with the packed frame, and
    fails only when the path is closed. *)
Lemma appendFrame_fields s limit frame d ok s' :
  len frame <= maxFrameBytes -> 17 <= limit -> appendFrame env s limit frame d = (ok, s') ->
  queue s' = queue s /\ closes ok (link s) (link s') /\
  called s' ++ tokens (packedDone s') ≡ₚ (called s ++ tokens (packedDone s)) ++ tokens [d].
Proof.
  intros Hf Hl Ha. unfold appendFrame in Ha.
  assert (Hcall : forall s0, called (callDone s0 d) ++ tokens (packedDone (callDone s0 d)) ≡ₚ
    (called s0 ++ tokens (packedDone s0)) ++ tokens [d]).
  { intros s0. destruct (callDone_fields s0 d) as (_ & _ & -> & _ & ->).
    rewrite <- !app_assoc. apply Permutation_app_head, Permutation_app_comm. }
  assert (Hq : forall s0, queue (callDone s0 d) = queue s0 /\ link (callDone s0 d) = link s0) by (by destruct d).
  destruct (frameHeader + len frame >? limit).
  - destruct (flushPacked env s) as [ok1 s1] eqn:E. apply flushPacked_fields in E as (E1 & E2 & E3).
    destruct ok1; cbn [negb] in Ha.
    + unfold sendFragments in Ha. pose proof (fragments_fit frame limit Hf Hl) as Hfit.
      replace (_ >? maxFragments) with false in Ha by lia.
      destruct (fragment_loop _ _ _ _ _ _ _) as [ok2 l2] eqn:E4. injection Ha as <- <-.
      rewrite Hcall. destruct (Hq (set_link s1 l2)) as [-> ->]. cbn [queue link set_link called packedDone].
      rewrite E3. split; [done|]. split; [|done].
      eapply closes_trans; [exact E2|by eapply fragment_loop_closed].
    + injection Ha as <- <-. rewrite Hcall, E3. destruct (Hq s1) as [-> ->]. auto.
  - destruct (if _ >? limit then flushPacked env s else (true, s)) as [ok1 s1] eqn:E.
    assert (Hs1 : queue s1 = queue s /\ closes ok1 (link s) (link s1) /\
      called s1 ++ tokens (packedDone s1) = called s ++ tokens (packedDone s)).
    { destruct (_ >? limit) in E; [by apply flushPacked_fields in E|by injection E as <- <-]. }
    destruct Hs1 as (E1 & E2 & E3). destruct ok1; cbn [negb] in Ha; injection Ha as <- <-.
    + cbn [queue link set_packed called packedDone]. split; [done|]. split; [done|].
      by rewrite tokens_app, app_assoc, E3.
    + rewrite Hcall, E3. destruct (Hq s1) as [-> ->]. auto.
Qed.

(** ** The path *)

Definition held_frame (c : loop_pc) : list outboundFrame := match c with Holding f => [f] | _ => [] end.

(** The callbacks a path still owes. *)
Definition owed_callbacks (p : Path) : list Z :=
  tokens (packedDone (sender p)) ++ tokens (map ob_done (held_frame (pc p) ++ queued_frames (queue (sender p)))).

Record path_ok (p : Path) : Prop := mk_path_ok {
  pk_queue : queue_ok (queue (sender p));
  pk_small : Forall (fun f => len (ob_frame f) <= maxFrameBytes) (accepted p);
  pk_frames : Forall (fun f => f ∈ accepted p) (held_frame (pc p) ++ queued_frames (queue (sender p)));
  pk_calls : called (sender p) ++ owed_callbacks p ≡ₚ tokens (map ob_done (accepted p));
  pk_stopped : pc p = Stopped -> l_closed (link (sender p)) = true /\ owed_callbacks p = []
}.

Lemma takePending_fields s f s' :
  queue_ok (queue s) -> takePending s = Some (f, s') ->
  queue_ok (queue s') /\ queued_frames (queue s) = f :: queued_frames (queue s') /\
  packedDone s' = packedDone s /\ link s' = link s /\ called s' = called s /\ packed s' = packed s.
Proof.
  intros Hq Ht. unfold takePending in Ht. destruct (_ || _) eqn:E; [done|]. bool_to_prop.
  destruct (popPendingLocked (queue s)) as [f0 q] eqn:Ep. injection Ht as <- <-.
  destruct (pop_queued _ _ _ Hq ltac:(pose proof (qk_len _ Hq); lia) Ep) as [H1 H2]. done.
Qed.

(** A turn that takes a frame. *)
Lemma path_ok_take p f s' :
  path_ok p -> held_frame (pc p) = [] -> takePending (sender p) = Some (f, s') ->
  path_ok (mkPath s' (Holding f) (appends p) (accepted p)).
Proof.
  intros [Hq Hs Hf Hc _] Hh Ht. destruct (takePending_fields _ _ _ Hq Ht) as (H1 & H2 & H3 & H4 & H5 & _).
  unfold owed_callbacks in Hc. rewrite Hh in Hf, Hc. cbn [app] in Hf, Hc. rewrite H2 in Hf, Hc.
  split; cbn [sender pc accepted held_frame app]; try done.
  unfold owed_callbacks. cbn [sender pc held_frame app]. by rewrite H3, H5.
Qed.

(** A turn that ends the loop. *)
Lemma path_ok_stop p s :
  queue_ok (queue s) -> Forall (fun f => len (ob_frame f) <= maxFrameBytes) (accepted p) -> l_closed (link s) = true ->
  called s ++ tokens (packedDone s) ++ tokens (map ob_done (queued_frames (queue s))) ≡ₚ tokens (map ob_done (accepted p)) ->
  path_ok (stop_loop p s).
Proof.
  intros Hq Hs Hcl Hc. destruct (abandonPending_fields s Hq) as (H1 & H2 & H3 & H4 & H5).
  assert (Ho : owed_callbacks (stop_loop p s) = []).
  { unfold owed_callbacks, stop_loop. cbn [sender pc held_frame app]. by rewrite H2, H3. }
  split; cbn [stop_loop sender pc accepted held_frame app]; try done.
  - rewrite H2. constructor.
  - rewrite Ho, app_nil_r, H5, <- Hc. apply Permutation_app_head, Permutation_app_comm.
  - intros _. by rewrite H4.
Qed.

(** The payload is never so small that a frame needs too many fragments. *)
Hypothesis room : forall n, 17 <= limit_at env n.

Lemma path_ok_turn p p' : path_ok p -> loop_turn env p = Some p' -> path_ok p'.
Proof.
  intros Hok Ht. pose proof Hok as [Hq Hs Hf Hc Hstop]. unfold loop_turn in Ht. unfold owed_callbacks in Hc.
  destruct (pc p) as [|f| |] eqn:Epc; cbn [held_frame app] in Hc, Hf; [| | |done].
  - destruct (takePending (sender p)) as [[f s']|] eqn:Et.
    { injection Ht as <-. eapply path_ok_take; [done|by rewrite Epc|done]. }
    destruct (l_closed (link (sender p))) eqn:Ecl; [|done]. injection Ht as <-. by apply path_ok_stop.
  - apply Forall_cons in Hf as [Hin Hf]. assert (Hsmall : len (ob_frame f) <= maxFrameBytes).
    { rewrite Forall_forall in Hs. by apply Hs. }
    destruct (appendFrame env (sender p) _ _ _) as [ok s1] eqn:Ea.
    destruct (appendFrame_fields _ _ _ _ _ _ Hsmall (room (appends p)) Ea) as (H1 & H2 & H3).
    assert (Hc1 : called s1 ++ tokens (packedDone s1) ++ tokens (map ob_done (queued_frames (queue s1))) ≡ₚ
      tokens (map ob_done (accepted p))).
    { rewrite <- Hc, H1, app_assoc, H3, <- !app_assoc. cbn [map]. by rewrite <- tokens_app. }
    injection Ht as <-. destruct ok.
    + split; cbn [sender pc accepted held_frame app]; rewrite ?H1; done.
    + apply path_ok_stop; cbn [accepted]; rewrite ?H1; auto; [by apply (proj1 H2)|]. by rewrite <- H1.
  - destruct (takePending (sender p)) as [[f s']|] eqn:Et.
    { injection Ht as <-. eapply path_ok_take; [done|by rewrite Epc|done]. }
    destruct (flushPacked env (sender p)) as [ok s1] eqn:Ef. apply flushPacked_fields in Ef as (H1 & H2 & H3).
    rewrite app_assoc, <- H3, <- app_assoc in Hc. rewrite <- H1 in Hq, Hf, Hc.
    destruct ok; cbn [negb] in Ht; [|injection Ht as <-; apply path_ok_stop; try done; by apply (proj1 H2)].
    destruct (protectBurst env (link s1)) as [ok2 l2] eqn:Ep. pose proof (protectBurst_closed _ _ _ Ep) as Hcl.
    injection Ht as <-. destruct ok2; [|apply path_ok_stop; try done; by apply (proj1 Hcl)]. by split.
Qed.

Lemma path_ok_step p p' : path_ok p -> path_step env p p' -> path_ok p'.
Proof.
  intros Hok Hstep. destruct Hstep as [p p' Ht|p frame d s' Hsend|p]; [by eapply path_ok_turn| |].
  - destruct Hok as [Hq Hs Hf Hc Hstop]. unfold SendOwnedTracked in Hsend.
    destruct (len frame >? maxFrameBytes) eqn:Eb; [done|]. destruct (negb _ && _) eqn:Ew; [done|].
    destruct (l_closed (link (sender p))) eqn:Ecl; [done|]. injection Hsend as <-. bool_to_prop.
    cbn [negb andb] in Ew. bool_to_prop. destruct (push_queued (queue (sender p)) (mkOutbound frame d) Hq) as [H1 H2].
    { pose proof (qk_len _ Hq). lia. }
    unfold owed_callbacks in *. split; unfold owed_callbacks; cbn [sender pc accepted queue set_queue called packedDone link].
    + done.
    + apply Forall_app. split; [done|by apply Forall_singleton].
    + rewrite H2, app_assoc. apply Forall_app. split.
      * eapply Forall_impl; [exact Hf|]. intros x Hx. apply elem_of_app. by left.
      * apply Forall_singleton, elem_of_app. right. by left.
    + rewrite H2, !app_assoc, !map_app, !tokens_app, <- Hc, !map_app, !tokens_app. by rewrite !app_assoc.
    + intros Hst. apply Hstop in Hst as [Hcl _]. congruence.
  - destruct Hok as [Hq Hs Hf Hc Hstop]. split; try done. intros Hst. apply Hstop in Hst as [_ Ho]. done.
Qed.

Lemma path_ok_New : 0 < cfg_Pending env -> path_ok (New env).
Proof.
  intros Hp. split; cbn; try done.
  split; cbn; unfold len; rewrite ?length_replicate; lia.
Qed.

Lemma path_ok_reachable p : 0 < cfg_Pending env -> steps (path_step env) (New env) p -> path_ok p.
Proof.
  intros Hp Hs. eapply (steps_invariant _ path_ok); [intros ??; by apply path_ok_step|by apply path_ok_New|exact Hs].
Qed.

(** Running the loop: it stops where it waits. *)
Fixpoint run_turns (n : nat) (p : Path) : Path :=
  match n with O => p | S n' => match loop_turn env p with Some p' => run_turns n' p' | None => p end end.

Lemma run_turns_steps n : forall p, steps (path_step env) p (run_turns n p).
Proof.
  induction n as [|n IH]; intros p; cbn [run_turns]; [constructor|].
  destruct (loop_turn env p) as [p'|] eqn:E; [|constructor]. eapply steps_cons; [by apply ps_turn|apply IH].
Qed.

Lemma run_turns_stopped n p : pc p = Stopped -> run_turns n p = p.
Proof. intros Hp. destruct n as [|n]; [done|]. cbn [run_turns]. unfold loop_turn. by rewrite Hp. Qed.

(** How many turns a closed path has left. *)
Definition turns_left (c : loop_pc) : nat :=
  match c with Holding _ => 3 | Draining => 2 | Waiting => 1 | Stopped => 0 end.

Lemma closed_turn p :
  path_ok p -> l_closed (link (sender p)) = true -> pc p <> Stopped ->
  exists p', loop_turn env p = Some p' /\ l_closed (link (sender p')) = true /\ (turns_left (pc p') < turns_left (pc p))%nat /\
    accepted p' = accepted p.
Proof.
  intros [Hq Hs Hf _ _] Hcl Hpc. unfold loop_turn.
  assert (Ht : takePending (sender p) = None) by (unfold takePending; by rewrite Hcl).
  assert (Hab : forall s, queue_ok (queue s) -> link (abandonPending s) = link s) by (intros s Hk; by apply abandonPending_fields).
  destruct (pc p) as [|f| |] eqn:Epc; [| | |done].
  - rewrite Ht, Hcl. eexists. split; [done|]. cbn [stop_loop sender pc turns_left accepted]. rewrite Hab by done. split; [done|]. split; [lia|done].
  - destruct (appendFrame env (sender p) _ _ _) as [ok s1] eqn:Ea.
    cbn [held_frame app] in Hf. apply Forall_cons in Hf as [Hin Hf].
    assert (Hsmall : len (ob_frame f) <= maxFrameBytes) by (rewrite Forall_forall in Hs; by apply Hs).
    destruct (appendFrame_fields _ _ _ _ _ _ Hsmall (room (appends p)) Ea) as (H1 & H2 & _).
    eexists. split; [done|]. destruct ok; cbn [stop_loop sender pc turns_left accepted]; [|rewrite Hab by (by rewrite H1)]; (split; [by apply (proj2 H2)|]; split; [lia|done]).
  - rewrite Ht. destruct (flushPacked env (sender p)) as [ok s1] eqn:Ef. apply flushPacked_fields in Ef as (H1 & H2 & _).
    destruct ok; cbn [negb].
    2:{ eexists. split; [done|]. cbn [stop_loop sender pc turns_left accepted]. rewrite Hab by (by rewrite H1). split; [by apply (proj2 H2)|]. split; [lia|done]. }
    destruct (protectBurst env (link s1)) as [ok2 l2] eqn:Ep. apply protectBurst_closed in Ep.
    assert (Hl2 : l_closed l2 = true) by (apply Ep, H2, Hcl).
    eexists. split; [done|]. destruct ok2; cbn [stop_loop sender pc turns_left accepted]; [|rewrite Hab by (by cbn; rewrite H1)]; (split; [done|]; split; [lia|done]).
Qed.

Lemma closed_stops n : forall p,
  path_ok p -> l_closed (link (sender p)) = true -> (turns_left (pc p) <= n)%nat ->
  pc (run_turns n p) = Stopped /\ accepted (run_turns n p) = accepted p.
Proof.
  induction n as [|n IH]; intros p Hok Hcl Hn; (destruct (pc p) eqn:Epc; cbn in Hn; try lia);
    try (rewrite run_turns_stopped by done; by rewrite Epc).
  all: destruct (closed_turn p Hok Hcl) as (p' & Ht & Hcl' & Hlt & Hacc); [by rewrite Epc|];
    rewrite Epc in Hlt; cbn in Hlt; cbn [run_turns]; rewrite Ht, <- Hacc; apply IH; [by eapply path_ok_turn|done|lia].
Qed.

End Closing.

(** Every callback runs exactly once, on a path whose datagrams hold at least the 17 bytes
    a symbol needs.  However the calls of Send, the turns
    of the send loop, the carrier's answers and Close interleave, the callbacks
    run so far and those still owed (of frames queued, held or packed) are the
    callbacks of the frames accepted, each once; and when the path is closed the
    loop returns within three turns, with every callback run and none run
    twice. *)
Theorem callbacks_exactly_once env p :
  0 < cfg_Pending env -> (forall n, 17 <= limit_at env n) -> steps (path_step env) (New env) p ->
  called (sender p) ++ owed_callbacks p ≡ₚ tokens (map ob_done (accepted p)) /\
  (l_closed (link (sender p)) = true ->
   pc (run_turns env 3 p) = Stopped /\
   called (sender (run_turns env 3 p)) ≡ₚ tokens (map ob_done (accepted p))).
Proof.
  intros Hp Hroom Hs. pose proof (path_ok_reachable env Hroom p Hp Hs) as Hok. split; [apply Hok|].
  intros Hcl. destruct (closed_stops env Hroom 3 p Hok Hcl) as [H1 H2]; [destruct (pc p); cbn; lia|].
  split; [done|]. pose proof (steps_trans _ _ _ _ Hs (run_turns_steps env 3 p)) as Hs'.
  destruct (path_ok_reachable env Hroom _ Hp Hs') as [_ _ _ Hc Hst]. destruct (Hst H1) as [_ Ho].
  by rewrite Ho, app_nil_r, H2 in Hc.
Qed.

(** ** Witnesses *)

Definition sample_env : Env :=
  mkEnv 60 4 (fun n => if Nat.eqb n 1 then Refused else Taken) (fun _ => None) (fun _ => 4) (fun _ => 1%nat) (fun _ _ => 3).

Lemma sample_limit n : limit_at sample_env n = 39.
Proof. reflexivity. Qed.

(** Two small frames, one large one, a turn of the loop each, and a close. *)
Definition send_frame (f : bytes) (k : Z) (p : Path) : Path :=
  mkPath (snd (SendOwnedTracked (sender p) f (Some k))) (pc p) (appends p) (accepted p ++ [mkOutbound f (Some k)]).

Lemma send_frame_step env f k p :
  fst (SendOwnedTracked (sender p) f (Some k)) = SendQueued -> path_step env p (send_frame f k p).
Proof. intros Hs. apply ps_send. rewrite <- Hs. apply surjective_pairing. Qed.

Definition sample_large : bytes := map Z.of_nat (seq 1 100).

Definition sample_path : Path :=
  run_turns sample_env 9 (send_frame [9] 12 (send_frame sample_large 11 (send_frame [7; 8] 10 (New sample_env)))).

Definition sample_closed : Path :=
  mkPath (closePath (sender sample_path)) (pc sample_path) (appends sample_path) (accepted sample_path).

Lemma sample_path_reachable : steps (path_step sample_env) (New sample_env) sample_path.
Proof.
  eapply steps_cons; [apply (send_frame_step _ [7; 8] 10); vm_compute; reflexivity|].
  eapply steps_cons; [apply (send_frame_step _ sample_large 11); vm_compute; reflexivity|].
  eapply steps_cons; [apply (send_frame_step _ [9] 12); vm_compute; reflexivity|].
  apply run_turns_steps.
Qed.

Lemma sample_closed_reachable : steps (path_step sample_env) (New sample_env) sample_closed.
Proof. eapply steps_trans; [apply sample_path_reachable|]. apply steps_one, ps_close. Qed.

Lemma callbacks_exactly_once_witness :
  called (sender (run_turns sample_env 3 sample_closed)) ≡ₚ [10; 11; 12].
Proof.
  refine (proj2 (proj2 (callbacks_exactly_once sample_env sample_closed _ _ sample_closed_reachable) _)).
  - reflexivity.
  - intros n. rewrite sample_limit. lia.
  - vm_compute. reflexivity.
Defined.
