(* ===== verification/CodedRx.v ===== *)
(** The coded path end to end ([internal/coded/coded.go]).

    What [Coded]'s sender puts into symbols, what its receiver makes of them, and
    the theorems across the wire: the frames a path delivers are frames that were
    sent, whatever the channel erases; fragments that arrive in any order make
    their frame; and a frame of a length the packing does not provide for never
    arrives. *)

From S2P Require Import Prelude GF256 Window Fec Coded.

(** ** What the emitted symbols carry *)

(** Whole frames packed into a symbol. *)
Definition pack (l : list bytes) : bytes := concat (map (fun f => be_bytes 4 (len f) ++ f) l).

Definition frag_count (frame : bytes) (limit : Z) : Z := (len frame + limit - 1) / limit.

(** The [i]-th fragment of a frame. *)
Definition frag (frame : bytes) (limit : Z) (i : nat) : bytes :=
  slice (Z.to_nat (Z.of_nat i * limit)) (Z.to_nat (Z.min ((Z.of_nat i + 1) * limit) (len frame))) frame.

Definition frag_ok (fs : list bytes) (frame : bytes) (limit : Z) : Prop :=
  frame ∈ fs /\ 0 < limit < 2 ^ 16 /\ limit < len frame /\ frag_count frame limit <= maxFragments.

(** [own] names, for the position of a fragment group's first symbol, the frame
    and the fragment size. *)
Definition symbol_ok (fs : list bytes) (own : nat -> option (bytes * Z)) (i : nat) (v : bytes) : Prop :=
  (exists l, v = symbol_vector (pack l) 0 1 /\ Forall (fun f => f ∈ fs) l /\ len (pack l) < 2 ^ 16) \/
  (exists frame limit j, own (i - j)%nat = Some (frame, limit) /\ frag_ok fs frame limit /\ (j <= i)%nat /\
     Z.of_nat j < frag_count frame limit /\
     v = symbol_vector (frag frame limit j) (Z.of_nat j) (frag_count frame limit)).

Definition script_ok (fs : list bytes) (own : nat -> option (bytes * Z)) (script : list bytes) : Prop :=
  forall i v, script !! i = Some v -> symbol_ok fs own i v.

Lemma frag_count_spec frame limit :
  0 < limit -> 0 < len frame ->
  0 < frag_count frame limit /\ (frag_count frame limit - 1) * limit < len frame <= frag_count frame limit * limit.
Proof.
  intros Hl Hf. unfold frag_count.
  pose proof (Z.div_mod (len frame + limit - 1) limit ltac:(lia)) as Hd.
  pose proof (Z.mod_pos_bound (len frame + limit - 1) limit Hl) as Hm.
  set (q := (len frame + limit - 1) / limit) in *. nia.
Qed.

Lemma frag_length frame limit i :
  0 < limit -> Z.of_nat i < frag_count frame limit -> 0 < len frame ->
  0 < len (frag frame limit i) <= limit.
Proof.
  intros Hl Hi Hf. destruct (frag_count_spec frame limit Hl Hf) as (Hc & H1 & H2).
  assert (Hil : Z.of_nat i * limit < len frame) by nia.
  unfold frag, len at 1 3. unfold len in *. rewrite slice_length; [|split; [apply Z2Nat.inj_le; lia|lia]].
  rewrite <- Z2Nat.inj_sub by lia. rewrite Z2Nat.id by lia. lia.
Qed.

(** The fragments of a frame are the frame. *)
Lemma frags_concat frame limit : 0 < limit -> 0 < len frame ->
  concat (map (frag frame limit) (seq 0 (Z.to_nat (frag_count frame limit)))) = frame.
Proof.
  intros Hl Hf. destruct (frag_count_spec frame limit Hl Hf) as (Hc & H1 & H2).
  assert (Hpre : forall n, Z.of_nat n <= frag_count frame limit ->
    concat (map (frag frame limit) (seq 0 n)) = take (Z.to_nat (Z.min (Z.of_nat n * limit) (len frame))) frame).
  { induction n as [|n IH]; intros Hn.
    - cbn. rewrite Z.min_l by lia. done.
    - rewrite seq_S, map_app, concat_app, IH by lia. cbn. rewrite app_nil_r. unfold frag.
      rewrite (Z.min_l (Z.of_nat n * limit)) by nia. rewrite <- slice_0, slice_app.
      + rewrite slice_0. f_equal. f_equal. lia.
      + lia.
      + apply Z2Nat.inj_le; nia. }
  rewrite Hpre by lia. rewrite Z2Nat.id by lia. rewrite Z.min_r by lia. apply take_ge. unfold len. lia.
Qed.

(** ** The sender keeps the plan *)

Lemma symbol_ok_mono fs fs' own own' i v :
  symbol_ok fs own i v -> (forall f, f ∈ fs -> f ∈ fs') -> (forall b, (b <= i)%nat -> own' b = own b) ->
  symbol_ok fs' own' i v.
Proof.
  intros [(l & -> & Hl & Hs)|(frame & limit & j & Ho & (Hf & Hok) & Hj & Hc & ->)] Hsub Hown.
  - left. exists l. split; [done|]. split; [|done]. eapply Forall_impl; [exact Hl|]. done.
  - right. exists frame, limit, j. rewrite Hown by lia. split; [done|]. split; [split; [by apply Hsub|done]|]. done.
Qed.

Lemma script_ok_snoc fs own own' script v :
  script_ok fs own script -> (forall b, (b < length script)%nat -> own' b = own b) ->
  symbol_ok fs own' (length script) v -> script_ok fs own' (script ++ [v]).
Proof.
  intros Hs Hown Hv i w Hi. apply lookup_app_Some in Hi as [Hi|[Hge Hi]].
  - eapply symbol_ok_mono; [by apply Hs|done|]. intros b Hb. apply Hown. apply lookup_lt_Some in Hi. lia.
  - apply list_lookup_singleton_Some in Hi as [Hi <-]. by replace i with (length script) by lia.
Qed.

(** What the sender has packed and not yet sent, and what it has sent. *)
Definition plan_ok (fs : list bytes) (s : Sender) : Prop :=
  (exists own, script_ok fs own (emitted (link s))) /\
  exists l, packed s = pack l /\ Forall (fun f => f ∈ fs) l /\ len (packed s) < 2 ^ 16.

Section Plan.
Variable env : Env.

Lemma put_emitted l d ok l' : put env l d = (ok, l') -> emitted l' = emitted l.
Proof. unfold put. destruct (carrier_answer env (puts l)); by intros [= <- <-]. Qed.

Lemma sendRepair_emitted l n ok l' : sendRepair env l n = (ok, l') -> emitted l' = emitted l.
Proof.
  unfold sendRepair. cbn [encoder]. destruct (encoder l) as [e|]; [|by intros [= <- <-]].
  destruct (AppendRepair _ _ _ _) as [? [r|]]; [|by intros [= <- <-]]. intros Hp. by apply put_emitted in Hp.
Qed.

Lemma repair_loop_emitted n count : forall l ok l', repair_loop env n count l = (ok, l') -> emitted l' = emitted l.
Proof.
  induction n as [|n IH]; intros l ok l' Hr; cbn [repair_loop] in Hr; [by injection Hr as <- <-|].
  destruct (sendRepair env l count) as [ok1 l1] eqn:E. apply sendRepair_emitted in E.
  destruct ok1; cbn [negb] in Hr; [|by injection Hr as <- <-]. apply IH in Hr. by rewrite Hr.
Qed.

(** Emitting adds one symbol, whatever the carrier does. *)
Lemma emit_emitted l payload i c ok l' :
  emit env l payload i c = (ok, l') -> emitted l' = emitted l ++ [symbol_vector payload i c].
Proof.
  unfold emit. destruct (AddOwned _ _) as [esi e]. destruct (sendSource env _ _ _) as [ok1 l1] eqn:E.
  apply put_emitted in E. cbn [emitted] in E. destruct ok1; cbn [negb]; [|intros [= <- <-]; done].
  intros Hr. apply repair_loop_emitted in Hr. rewrite Hr, <- E. by destruct (_ >=? _).
Qed.

Lemma protectBurst_emitted l ok l' : protectBurst env l = (ok, l') -> emitted l' = emitted l.
Proof.
  unfold protectBurst. destruct (_ <=? 0); [by intros [= <- <-]|].
  destruct (repair_loop _ _ _ _) as [ok1 l1] eqn:E. apply repair_loop_emitted in E.
  by destruct ok1; intros [= <- <-].
Qed.

Lemma flushPacked_plan fs s ok s' :
  plan_ok fs s -> flushPacked env s = (ok, s') -> plan_ok fs s' /\ packed s' = [].
Proof.
  intros [[own Hs] (l & Hp & Hl & Hlen)] Hf. unfold flushPacked in Hf. destruct (len (packed s) =? 0) eqn:E.
  - bool_to_prop. apply len_zero_nil in E. injection Hf as <- <-. split; [|done]. split; [by exists own|]. by exists l.
  - destruct (emit env (link s) (packed s) 0 1) as [ok1 l1] eqn:Ee. apply emit_emitted in Ee.
    injection Hf as <- <-. set (s1 := set_packed _ [] _). destruct (callAll_fields (packedDone s) s1) as (_ & H2 & _ & H4 & _).
    unfold plan_ok. cbn [packed set_packed link]. rewrite H2, H4. split; [|done]. split.
    + exists own. cbn [link s1 set_packed set_link]. rewrite Ee. apply (script_ok_snoc fs own); [done|done|].
      left. exists l. rewrite Hp in *. done.
    + exists []. split; [done|]. split; [constructor|done].
Qed.

Lemma frag_ok_pos fs frame limit : frag_ok fs frame limit -> 0 < len frame -> 0 < frag_count frame limit < 2 ^ 16.
Proof.
  intros (_ & Hl & _ & Hm) Hf. destruct (frag_count_spec frame limit ltac:(lia) Hf) as [? _].
  unfold maxFragments in Hm. pow2_eval. lia.
Qed.

Lemma fragment_loop_plan fs frame limit own n : forall l i r l',
  let base := (length (emitted l) - i)%nat in
  (i <= length (emitted l))%nat -> frag_ok fs frame limit ->
  own base = Some (frame, limit) -> script_ok fs own (emitted l) ->
  Z.of_nat (i + n) = frag_count frame limit ->
  fragment_loop env l frame limit (frag_count frame limit) i n = (r, l') ->
  script_ok fs own (emitted l').
Proof.
  induction n as [|n IH]; intros l i r l' base Hi Hok Hown Hs Hn Hl; cbn [fragment_loop] in Hl.
  { by injection Hl as <- <-. }
  fold (frag frame limit i) in Hl. destruct (emit env l _ _ _) as [ok l1] eqn:Ee. apply emit_emitted in Ee.
  assert (Hs1 : script_ok fs own (emitted l1)).
  { rewrite Ee. apply (script_ok_snoc fs own); [done|done|]. right. exists frame, limit, i.
    split; [done|]. split; [done|]. split; [lia|]. split; [lia|done]. }
  destruct ok; cbn [negb] in Hl; [|by injection Hl as <- <-].
  assert (Hlen : length (emitted l1) = S (length (emitted l))) by (rewrite Ee, length_app; cbn; lia).
  apply (IH l1 (S i) r l'); try done.
  + rewrite Hlen. lia.
  + by rewrite Hlen.
  + lia.
Qed.

(** [appendFrame] keeps the plan, whatever the carrier does. *)
Lemma appendFrame_plan fs s limit frame d r s' :
  plan_ok fs s -> frame ∈ fs -> 4 < limit < 2 ^ 16 -> len frame + frameHeader <= limit \/ limit < len frame ->
  appendFrame env s limit frame d = (r, s') -> plan_ok fs s'.
Proof.
  intros Hp Hin Hlim Hgap Ha. unfold appendFrame in Ha.
  assert (Hdone : forall s0, plan_ok fs s0 -> plan_ok fs (callDone s0 d)) by (by destruct d).
  destruct (frameHeader + len frame >? limit) eqn:Ebig; bool_to_prop.
  - destruct (flushPacked env s) as [ok s1] eqn:Ef. destruct (flushPacked_plan _ _ _ _ Hp Ef) as [Hp1 Hpk].
    destruct ok; cbn [negb] in Ha; [|injection Ha as <- <-; by apply Hdone].
    destruct (sendFragments env (link s1) frame limit) as [ok2 l2] eqn:Es. injection Ha as <- <-. apply Hdone.
    unfold sendFragments in Es. fold (frag_count frame limit) in Es.
    destruct Hp1 as [[own Hs1] Hpk1].
    destruct (frag_count frame limit >? maxFragments) eqn:Em; [injection Es as <- <-; split; [by exists own|done]|].
    bool_to_prop. unfold frameHeader in Ebig, Hgap. assert (Hf : 0 < len frame) by lia.
    assert (Hok : frag_ok fs frame limit) by (split; [done|]; split; [lia|]; split; [lia|done]).
    pose proof (frag_ok_pos _ _ _ Hok Hf) as Hpos.
    set (own' := fun b => if (b =? length (emitted (link s1)))%nat then Some (frame, limit) else own b).
    split; [|done]. exists own'. cbn [link set_link].
    apply (fragment_loop_plan fs frame limit own' (Z.to_nat (frag_count frame limit)) (link s1) 0 ok2 l2); try done.
    + lia.
    + unfold own'. by rewrite Nat.sub_0_r, Nat.eqb_refl.
    + intros i v Hi. eapply symbol_ok_mono; [by apply Hs1|done|]. intros b Hb. unfold own'.
      apply lookup_lt_Some in Hi.
      by replace (b =? length (emitted (link s1)))%nat with false by (symmetry; apply Nat.eqb_neq; lia).
    + lia.
  - destruct (if _ >? limit then flushPacked env s else (true, s)) as [ok s1] eqn:Ef.
    assert (Hp1 : plan_ok fs s1 /\ (ok = true -> len (packed s1) + frameHeader + len frame <= limit)).
    { destruct (_ >? limit) eqn:Eg in Ef; bool_to_prop.
      - destruct (flushPacked_plan _ _ _ _ Hp Ef) as [H1 H2]. split; [done|]. rewrite H2, len_nil. lia.
      - injection Ef as <- <-. split; [done|lia]. }
    destruct Hp1 as [Hp1 Hfit]. destruct ok; cbn [negb] in Ha; injection Ha as <- <-; [|by apply Hdone].
    specialize (Hfit eq_refl). destruct Hp1 as [[own Hs1] (l & Hpk & Hl & Hlen)].
    split; [by exists own|]. cbn [packed set_packed]. exists (l ++ [frame]). split; [|split].
    + rewrite Hpk. unfold pack. rewrite map_app, concat_app. cbn. by rewrite app_nil_r.
    + apply Forall_app. split; [done|]. by apply Forall_singleton.
    + rewrite !len_app. unfold frameHeader in Hfit. rewrite !len_cons. pow2_eval. lia.
Qed.

End Plan.

(** ** Parsing what was packed *)

Lemma u32_at_be n rest : 0 <= n < 2 ^ 32 -> u32_at (be_bytes 4 n ++ rest) 0 = n.
Proof.
  intros Hn. unfold u32_at. rewrite slice_0. change (0 + 4)%nat with 4%nat.
  rewrite take_app_length' by (by rewrite be_bytes_length). apply be_val_be_bytes. done.
Qed.

Lemma parse_frames_pack l : forall fuel out,
  (length (pack l) < fuel)%nat -> len (pack l) < 2 ^ 16 -> parse_frames fuel (pack l) out = out ++ l.
Proof.
  induction l as [|f l IH]; intros fuel out Hf Hl; (destruct fuel as [|fuel]; [lia|]); cbn [parse_frames].
  { cbn. by rewrite app_nil_r. }
  assert (Hp : pack (f :: l) = be_bytes 4 (len f) ++ f ++ pack l) by (unfold pack; cbn [map concat]; by rewrite <- app_assoc).
  assert (Hlen : len (pack (f :: l)) = 4 + len f + len (pack l)).
  { rewrite Hp, !len_app. unfold len at 1. rewrite be_bytes_length. lia. }
  pose proof (len_nonneg f). pose proof (len_nonneg (pack l)).
  unfold frameHeader. replace (len (pack (f :: l)) <? 4) with false by lia.
  rewrite Hp, u32_at_be by (pow2_eval; lia).
  rewrite drop_app_length' by (by rewrite be_bytes_length).
  replace (len f >? len (f ++ pack l)) with false by (rewrite len_app; lia).
  assert (Hn : Z.to_nat (len f) = length f) by (unfold len; lia).
  rewrite Hn, take_app_length, drop_app_length, IH; [by rewrite <- app_assoc| |lia].
  rewrite Hp, !length_app, be_bytes_length in Hf. lia.
Qed.

Lemma parseFrames_pack l out : len (pack l) < 2 ^ 16 -> parseFrames (pack l) out = out ++ l.
Proof. intros Hl. apply parse_frames_pack; [lia|done]. Qed.

Lemma slice_two (v : bytes) i : (i + 2 <= length v)%nat -> slice i (i + 2) v = [at_ v i; at_ v (S i)].
Proof.
  intros Hi. unfold at_.
  destruct (lookup_lt_is_Some_2 v i) as [x Hx]; [lia|]. destruct (lookup_lt_is_Some_2 v (S i)) as [y Hy]; [lia|].
  rewrite (nth_lookup_Some v i 0 x Hx), (nth_lookup_Some v (S i) 0 y Hy).
  rewrite <- (slice_app i (S i) (i + 2)) by lia. rewrite (slice_one i v x Hx).
  replace (i + 2)%nat with (S (S i)) by lia. by rewrite (slice_one (S i) v y Hy).
Qed.

Lemma u16_at_same v w i :
  same_vector v w -> (i + 2 <= length v)%nat -> (i + 2 <= length w)%nat -> u16_at v i = u16_at w i.
Proof. intros Hs Hv Hw. unfold u16_at. rewrite !slice_two by done. by rewrite !Hs. Qed.

Lemma slice_same (v w : bytes) i j :
  same_vector v w -> (j <= length v)%nat -> (j <= length w)%nat -> slice i j v = slice i j w.
Proof.
  intros Hs Hv Hw. apply list_eq. intros k. unfold slice.
  destruct (decide (k < j - i)%nat) as [Hk|Hk]; [|by rewrite !lookup_take_ge by lia].
  rewrite !lookup_take_lt by lia. rewrite !lookup_drop.
  destruct (lookup_lt_is_Some_2 v (i + k)) as [x Hx]; [lia|]. destruct (lookup_lt_is_Some_2 w (i + k)) as [y Hy]; [lia|].
  specialize (Hs (i + k)%nat). unfold at_ in Hs. rewrite (nth_lookup_Some _ _ _ _ Hx), (nth_lookup_Some _ _ _ _ Hy) in Hs.
  congruence.
Qed.

Section SymbolFields.
Variables (payload : bytes) (index count : Z).
Hypothesis Hp : len payload < 2 ^ 16.
Hypothesis Hi : 0 <= index < count.
Hypothesis Hc : count < 2 ^ 16.

Lemma symbol_vector_length : length (symbol_vector payload index count) = (6 + length payload)%nat.
Proof. unfold symbol_vector. rewrite !length_app, !be_bytes_length. lia. Qed.

(** The fields of a symbol are what it was made of. *)
Lemma symbol_vector_fields :
  u16_at (symbol_vector payload index count) 0 = len payload /\
  u16_at (symbol_vector payload index count) 2 = index /\
  u16_at (symbol_vector payload index count) 4 = count /\
  slice 6 (6 + length payload) (symbol_vector payload index count) = payload.
Proof.
  pose proof (len_nonneg payload) as Hn.
  assert (H2 : forall n x, 0 <= x < 2 ^ 16 -> n = be_bytes 2 x -> be_val n = x).
  { intros n x Hx ->. apply be_val_be_bytes. done. }
  set (L := [be_bytes 2 (len payload); be_bytes 2 index; be_bytes 2 count; payload]).
  assert (HL : symbol_vector payload index count = concat L ++ []).
  { unfold symbol_vector, L. cbn [concat]. by rewrite !app_nil_r. }
  rewrite HL. unfold u16_at. repeat split.
  - apply H2; [lia|]. by apply (slice_concat L 0).
  - apply H2; [lia|]. apply (slice_concat L 1); [done|..]; cbn; by rewrite ?length_app, ?be_bytes_length.
  - apply H2; [lia|]. apply (slice_concat L 2); [done|..]; cbn; by rewrite ?length_app, ?be_bytes_length.
  - apply (slice_concat L 3); [done|..]; cbn; by rewrite ?length_app, ?be_bytes_length.
Qed.

(** A vector equal to the symbol up to zeros at its end parses to the symbol's
    parts or not at all; the symbol itself parses. *)
Lemma parse_same w r :
  same_vector w (symbol_vector payload index count) -> parseSymbol w = Some r -> r = (payload, index, count).
Proof.
  intros Hs Hr. unfold parseSymbol in Hr. destruct (len w <? symbolHeader) eqn:E; [done|]. bool_to_prop.
  destruct symbol_vector_fields as (F1 & F2 & F3 & F4). pose proof symbol_vector_length as Hlen.
  unfold symbolHeader, len in E.
  assert (Hu : forall i, (i + 2 <= 6)%nat -> u16_at w i = u16_at (symbol_vector payload index count) i).
  { intros i Hi6. apply u16_at_same; [done|lia|lia]. }
  rewrite !Hu, F1, F2, F3 in Hr by lia.
  destruct (_ || _) eqn:E2; [done|]. bool_to_prop. injection Hr as <-. f_equal. f_equal.
  assert (Hn : Z.to_nat (len payload) = length payload) by (unfold len; lia). rewrite Hn.
  rewrite (slice_same w (symbol_vector payload index count)); [done|done| |lia].
  unfold symbolHeader, len in *. lia.
Qed.

Lemma parse_symbol_vector : parseSymbol (symbol_vector payload index count) = Some (payload, index, count).
Proof.
  destruct symbol_vector_fields as (F1 & F2 & F3 & F4). pose proof symbol_vector_length as Hlen.
  unfold parseSymbol. rewrite F1, F2, F3. unfold symbolHeader, len. rewrite Hlen. fold (len payload).
  destruct (Z.ltb_spec (Z.of_nat (6 + length payload)) (2 + 2 + 2)) as [Hlt|_]; [clear - Hlt; lia|].
  destruct (_ || _) eqn:E.
  - exfalso. bool_to_prop. unfold len in E. destruct E as [E|E]; bool_to_prop; [destruct E; bool_to_prop; lia|lia].
  - assert (Hn : Z.to_nat (len payload) = length payload) by (unfold len; lia). by rewrite Hn, F4.
Qed.

End SymbolFields.

(** All zeros are no symbol. *)
Lemma parse_zeros w : same_vector w [] -> parseSymbol w = None.
Proof.
  intros Hs. unfold parseSymbol. destruct (len w <? symbolHeader) eqn:E; [done|]. bool_to_prop.
  assert (Hz : u16_at w 4 = 0).
  { unfold u16_at. rewrite slice_two by (unfold symbolHeader, len in E; lia).
    rewrite !Hs. unfold at_. rewrite !nth_overflow by (cbn; lia). done. }
  rewrite Hz. done.
Qed.

(** ** The fields of a datagram *)

Lemma be_val_4 x : in_range 32 x -> be_val (be_bytes 4 x) = x.
Proof. intros Hx. by apply be_val_be_bytes. Qed.

Lemma source_datagram_fields seq_ esi v : in_range 32 esi ->
  sourceHeader <= len (source_datagram seq_ esi v) /\ nth 4 (source_datagram seq_ esi v) 0 = kindSource /\
  u32_at (source_datagram seq_ esi v) 5 = esi /\ drop 9 (source_datagram seq_ esi v) = v.
Proof.
  intros He. split; [|split; [done|]; split; [by apply be_val_4|done]].
  unfold source_datagram, len. rewrite !length_app, !be_bytes_length. unfold sourceHeader. cbn [length]. lia.
Qed.

Lemma repair_datagram_fields seq_ r : in_range 32 (RID r) -> in_range 32 (First r) -> 0 <= Count r < 2 ^ 16 ->
  let d := repair_datagram seq_ r in
  repairHeader <= len d /\ nth 4 d 0 = kindRepair /\ u32_at d 5 = RID r /\ u32_at d 9 = First r /\
  u16_at d 13 = Count r /\ drop 15 d = Vector r.
Proof.
  intros Hr Hf Hc d. split.
  { unfold d, repair_datagram, len. rewrite !length_app, !be_bytes_length. unfold repairHeader. cbn [length]. lia. }
  split; [done|]. split; [by apply be_val_4|]. split; [by apply be_val_4|]. split; [|done].
  by apply (be_val_be_bytes 2).
Qed.

(** ** The assembler only builds frames that were sent *)

Definition part_held (x : option bytes) : Z := match x with Some _ => 1 | None => 0 end.
Definition parts_held (l : list (option bytes)) : Z := sumZ (map part_held l).

Lemma parts_held_cons z l : parts_held (z :: l) = part_held z + parts_held l.
Proof. done. Qed.

Lemma parts_held_insert l : forall i x y, l !! i = Some x ->
  parts_held (<[i := y]> l) = parts_held l - part_held x + part_held y.
Proof.
  induction l as [|z l IH]; intros [|i] x y Hi; try done.
  - injection Hi as ->. change (<[0%nat := y]> (x :: l)) with (y :: l). rewrite !parts_held_cons. lia.
  - change (<[S i := y]> (z :: l)) with (z :: <[i := y]> l). rewrite !parts_held_cons, (IH i x y Hi). lia.
Qed.

Lemma parts_held_replicate n : parts_held (replicate n None) = 0.
Proof.
  induction n as [|n IH]; [done|]. change (0 + parts_held (replicate n None) = 0). lia.
Qed.

Lemma parts_held_all l : parts_held l <= len l /\
  (parts_held l = len l -> forall k x, l !! k = Some x -> exists p, x = Some p).
Proof.
  unfold parts_held. induction l as [|z l [IH1 IH2]]; [split; [done|intros _ k x Hk; done]|].
  rewrite len_cons. cbn [map sumZ foldr]. fold (sumZ (map part_held l)).
  assert (Hz : 0 <= part_held z <= 1) by (destruct z; cbn; lia). split; [lia|].
  intros He [|k] x Hk; cbn in Hk.
  - injection Hk as <-. destruct z; [by eexists|]. cbn in He. lia.
  - apply (IH2 ltac:(lia) k x Hk).
Qed.

Section Assembler.
Variables (fs : list bytes) (own : nat -> option (bytes * Z)) (script : list bytes).
Hypothesis Hscript : script_ok fs own script.
Hypothesis Hshort : len script <= 2 ^ 31.

(** A group holds fragments of the frame that starts at its position. *)
Definition group_ok (b : Z) (g : fragmentGroup) (frame : bytes) (limit : Z) : Prop :=
  own (Z.to_nat b) = Some (frame, limit) /\ frag_ok fs frame limit /\
  len (fg_parts g) = frag_count frame limit /\ fg_held g = parts_held (fg_parts g) /\
  fg_held g < frag_count frame limit /\
  (forall k p, fg_parts g !! k = Some (Some p) -> p = frag frame limit k).

Definition asm_ok (a : assembler) : Prop :=
  forall b g, groups a !! b = Some g -> exists frame limit, group_ok b g frame limit.

Lemma asm_ok_subset a g' : asm_ok a -> g' ⊆ groups a -> asm_ok (set_groups a g').
Proof. intros Ha Hs b g Hb. apply (Ha b g). cbn in Hb. by eapply lookup_weaken. Qed.

Lemma prune_groups a : groups (prune a) ⊆ groups a.
Proof. apply map_filter_subseteq. Qed.

Lemma note_groups a esi : groups (note a esi) ⊆ groups a.
Proof.
  unfold note. destruct (negb _); [done|]. destruct (_ >? 0); [|done].
  exact (prune_groups (mkAssembler (groups a) esi (as_seen a) (as_lostN a))).
Qed.

Lemma note_ok a esi : asm_ok a -> asm_ok (note a esi).
Proof. intros Ha b g Hb. apply (Ha b g). eapply lookup_weaken; [exact Hb|apply note_groups]. Qed.

Lemma lost_ok a esi : asm_ok a -> asm_ok (lost a esi).
Proof.
  intros Ha b g Hb. apply (note_ok a esi Ha b g). cbn in Hb. eapply lookup_weaken; [exact Hb|apply map_filter_subseteq].
Qed.

(** A frame that is cut has at least two fragments. *)
Lemma frag_ok_two frame limit : frag_ok fs frame limit -> 2 <= frag_count frame limit.
Proof.
  intros (_ & Hl & Hf & _). destruct (frag_count_spec frame limit ltac:(lia) ltac:(lia)) as (H0 & H1 & H2). nia.
Qed.

(** The parts of a full group are the frame. *)
Lemma full_group g frame limit :
  0 < len frame -> 0 < limit -> len (fg_parts g) = frag_count frame limit ->
  parts_held (fg_parts g) = frag_count frame limit ->
  (forall k p, fg_parts g !! k = Some (Some p) -> p = frag frame limit k) ->
  concat (map (default []) (fg_parts g)) = frame.
Proof.
  intros Hf Hl Hlen Hheld Hp. rewrite <- (frags_concat frame limit Hl Hf). f_equal. apply list_eq. intros k.
  change (map (default []) (fg_parts g)) with (default [] <$> fg_parts g).
  change (map (frag frame limit) ?l) with (frag frame limit <$> l). rewrite !list_lookup_fmap.
  destruct (fg_parts g !! k) as [x|] eqn:Ek.
  - destruct (parts_held_all (fg_parts g)) as [_ Hall]. destruct (Hall ltac:(lia) k x Ek) as [p ->].
    assert (Hk : (k < Z.to_nat (frag_count frame limit))%nat).
    { apply lookup_lt_Some in Ek. unfold len in Hlen. lia. }
    rewrite lookup_seq_lt by done. cbn. f_equal. by apply Hp.
  - apply lookup_ge_None in Ek. rewrite lookup_seq_ge; [done|]. unfold len in Hlen. lia.
Qed.

(** The frame of a fragment is not empty. *)
Lemma frag_count_pos frame limit j : 0 < limit -> Z.of_nat j < frag_count frame limit -> 0 < len frame.
Proof.
  intros Hl Hj. destruct (Z.lt_trichotomy 0 (len frame)) as [|[He|]]; [done| |pose proof (len_nonneg frame); lia].
  exfalso. unfold frag_count in Hj. rewrite <- He in Hj.
  rewrite Z.div_small in Hj by lia. lia.
Qed.

(** One fragment joins its group. *)
Lemma arrived_fragment a esi w out frame limit j :
  asm_ok a -> own (esi - j)%nat = Some (frame, limit) -> frag_ok fs frame limit -> (j <= esi)%nat ->
  (Z.of_nat esi < 2 ^ 31) -> Z.of_nat j < frag_count frame limit ->
  parseSymbol w = Some (frag frame limit j, Z.of_nat j, frag_count frame limit) ->
  frag_count frame limit <> 1 ->
  let '(out', _, a') := arrived a (Z.of_nat esi) w out in
  asm_ok a' /\ forall f, f ∈ out' -> f ∈ out \/ f ∈ fs.
Proof.
  intros Ha Hown Hok Hj Hesi Hjc Hparse Hne. unfold arrived. rewrite Hparse.
  replace (frag_count frame limit =? 1) with false by lia.
  pose proof Hok as (Hin & Hlim & _ & Hmax). pose proof (frag_count_pos frame limit j ltac:(lia) Hjc) as Hf.
  assert (Hfirst : Z.of_nat esi -u32 Z.of_nat j = Z.of_nat (esi - j)).
  { rewrite wrap_small; [lia|]. pow2_eval. lia. }
  rewrite Hfirst. pose proof (note_ok a (Z.of_nat esi) Ha) as Hna. set (a1 := note a (Z.of_nat esi)) in *.
  set (group := default _ _).
  assert (Hg : group_ok (Z.of_nat (esi - j)) group frame limit).
  { subst group. destruct (groups a1 !! Z.of_nat (esi - j)) as [g|] eqn:Eg.
    - destruct (Hna _ _ Eg) as (frame' & limit' & Hg). pose proof Hg as (Ho & _).
      rewrite Nat2Z.id, Hown in Ho. by injection Ho as <- <-.
    - cbn [default]. unfold group_ok. rewrite Nat2Z.id. cbn [fg_parts fg_held].
      split; [done|]. split; [done|]. split; [unfold len; rewrite length_replicate; lia|].
      split; [by rewrite parts_held_replicate|]. split; [lia|].
      intros k p Hk. apply lookup_replicate in Hk as [? _]. done. }
  destruct Hg as (Ho & _ & Hlen & Hheld & Hlt & Hp).
  assert (Hput : forall g', group_ok (Z.of_nat (esi - j)) g' frame limit ->
    forall m, m = groups a1 \/ m = <[Z.of_nat (esi - j) := group]> (groups a1) ->
    asm_ok (set_groups a1 (<[Z.of_nat (esi - j) := g']> m))).
  { intros g' Hg' m Hm b g Hb. cbn in Hb. apply lookup_insert_Some in Hb as [[<- <-]|[Hne' Hb]]; [by eauto|].
    destruct Hm as [-> | ->]; [by eapply Hna|]. rewrite lookup_insert_ne in Hb by done. by eapply Hna. }
  assert (Hgr : group_ok (Z.of_nat (esi - j)) group frame limit) by (split; [done|]; by split).
  destruct (_ || _) eqn:Ed.
  { split; [by apply Hput; [|left]|]. by left. }
  apply orb_false_iff in Ed as [_ Ed].
  destruct (lookup_lt_is_Some_2 (fg_parts group) (Z.to_nat (Z.of_nat j))) as [x Hx]; [unfold len in Hlen; lia|].
  rewrite Hx in Ed. destruct x as [x|]; [done|]. rewrite Nat2Z.id in *.
  pose proof (frag_length frame limit j ltac:(lia) Hjc Hf) as Hfl.
  assert (Hcopy : copied (frag frame limit j) = Some (frag frame limit j)).
  { destruct (frag frame limit j); [cbn in Hfl; unfold len in Hfl; cbn in Hfl; lia|done]. }
  rewrite Hcopy. set (g2 := mkGroup _ _ _).
  assert (Hh2 : fg_held g2 = parts_held (fg_parts g2)).
  { cbn [fg_held fg_parts g2]. rewrite (parts_held_insert _ _ _ _ Hx). cbn [part_held]. lia. }
  assert (Hl2 : len (fg_parts g2) = frag_count frame limit) by (cbn; unfold len in *; by rewrite length_insert).
  assert (Hp2 : forall k p, fg_parts g2 !! k = Some (Some p) -> p = frag frame limit k).
  { intros k p Hk. cbn in Hk. apply list_lookup_insert_Some in Hk as [(-> & [= ->] & _)|[_ Hk]]; [done|by apply Hp]. }
  rewrite Hl2. destruct (fg_held g2 <? frag_count frame limit) eqn:Ef; bool_to_prop.
  - split; [|by left]. apply Hput; [|by right]. unfold group_ok. rewrite Nat2Z.id. tauto.
  - split.
    + intros b g Hb. cbn in Hb. apply lookup_delete_Some in Hb as [Hb1 Hb]. rewrite lookup_insert_ne in Hb by done.
      by eapply Hna.
    + intros f Hfin. apply elem_of_app in Hfin as [|Hfin]; [by left|]. apply list_elem_of_singleton in Hfin as ->.
      right. rewrite (full_group g2 frame limit); try done; [lia|].
      destruct (parts_held_all (fg_parts g2)) as [Hle _]. lia.
Qed.

(** The symbol the stream gives an identifier; identifiers are not negative. *)
Definition sent_symbol (esi : Z) : bytes := if esi <? 0 then [] else scripted script esi.

(** Whatever arrives under an identifier, as long as it is the symbol of that
    identifier up to zeros, keeps the groups right and yields sent frames. *)
Lemma arrived_ok a esi w out out' v a' :
  asm_ok a -> same_vector w (sent_symbol esi) -> arrived a esi w out = (out', v, a') ->
  asm_ok a' /\ forall f, f ∈ out' -> f ∈ out \/ f ∈ fs.
Proof.
  intros Ha Hs Harr.
  assert (Hnone : parseSymbol w = None -> asm_ok a' /\ forall f, f ∈ out' -> f ∈ out \/ f ∈ fs).
  { intros Hn. unfold arrived in Harr. rewrite Hn in Harr. injection Harr as <- <- <-. split; [by apply note_ok|by left]. }
  unfold sent_symbol in Hs. destruct (esi <? 0) eqn:Hesi; [by apply Hnone, parse_zeros|]. bool_to_prop.
  unfold scripted in Hs. destruct (script !! Z.to_nat esi) as [u|] eqn:Eu.
  2:{ apply Hnone, parse_zeros. by rewrite nth_lookup, Eu in Hs. }
  rewrite (nth_lookup_Some _ _ _ _ Eu) in Hs. pose proof (lookup_lt_Some _ _ _ Eu) as Hlt.
  destruct (parseSymbol w) as [r|] eqn:Ep; [|by apply Hnone]. clear Hnone.
  destruct (Hscript _ _ Eu) as [(l & -> & Hl & Hsz)|(frame & limit & j & Ho & Hok & Hj & Hjc & ->)].
  - assert (r = (pack l, 0, 1)) as -> by (apply (parse_same (pack l) 0 1 Hsz ltac:(lia) ltac:(pow2_eval; lia) w r Hs Ep)).
    unfold arrived in Harr. rewrite Ep in Harr. cbn [Z.eqb] in Harr. injection Harr as <- <- <-.
    split; [by apply note_ok|]. rewrite parseFrames_pack by done. intros f Hf.
    apply elem_of_app in Hf as [|Hf]; [by left|right]. rewrite Forall_forall in Hl. by apply Hl.
  - pose proof Hok as (_ & Hlim & Hfl & Hmax). pose proof (frag_count_pos frame limit j ltac:(lia) Hjc) as Hf.
    pose proof (frag_length frame limit j ltac:(lia) Hjc Hf) as Hfrl. unfold maxFragments in Hmax.
    assert (r = (frag frame limit j, Z.of_nat j, frag_count frame limit)) as ->.
    { apply (parse_same (frag frame limit j) (Z.of_nat j) (frag_count frame limit) ltac:(pow2_eval; lia) ltac:(lia)
        ltac:(pow2_eval; lia) w r Hs Ep). }
    pose proof (frag_ok_two frame limit Hok) as H2.
    pose proof (arrived_fragment a (Z.to_nat esi) w out frame limit j Ha Ho Hok Hj) as Hfrag.
    rewrite Z2Nat.id in Hfrag by lia. rewrite Harr in Hfrag. apply Hfrag; try done; [|lia]. unfold len in Hshort. lia.
Qed.

(** The end of [onDatagram]. *)
Lemma take_delivery_ok a delivered frames out a' :
  asm_ok a -> Forall (true_symbol sent_symbol) (Recovered delivered) -> (forall f, f ∈ frames -> f ∈ fs) ->
  take_delivery a delivered frames = (out, a') -> asm_ok a' /\ forall f, f ∈ out -> f ∈ fs.
Proof.
  intros Ha Ht Hf Htd. unfold take_delivery in Htd.
  set (step := fun '(out, a) r => _) in Htd. destruct (fold_left step _ _) as [out1 a1] eqn:E. injection Htd as <- <-.
  assert (H1 : asm_ok a1 /\ forall f, f ∈ out1 -> f ∈ fs).
  { clear - Hscript Hshort Ha Ht Hf E. revert a frames Ha Hf E.
    induction (Recovered delivered) as [|r l IH]; intros a frames Ha Hf E.
    - by injection E as <- <-.
    - apply Forall_cons in Ht as [Hr Hl]. cbn [fold_left step] in E.
      destruct (arrived a (rec_ESI r) (rec_Vector r) frames) as [[o v] a2] eqn:Ea.
      destruct (arrived_ok _ _ _ _ _ _ _ Ha Hr Ea) as [H1 H2]. apply (IH Hl a2 o); [done| |done].
      intros f Hfo. destruct (H2 f Hfo); auto. }
  destruct H1 as [H1 H2]. split; [|done]. clear - H1. revert a1 H1.
  induction (Lost delivered) as [|e l IH]; intros a1 H1; [done|]. cbn. by apply IH, lost_ok.
Qed.

(** ** What the wire carries *)

(** The datagrams sent while the first [n] symbols joined the window, in order:
    a source datagram goes out when its symbol joins, a repair covers symbols
    that have joined. *)
Inductive wire_ok : Z -> list bytes -> Prop :=
| wo_nil n : 0 <= n -> wire_ok n []
| wo_source n m w seq_ :
    wire_ok m w -> m < n -> wire_ok n (w ++ [source_datagram seq_ (n - 1) (sent_symbol (n - 1))])
| wo_repair n m w seq_ r :
    wire_ok m w -> m <= n -> valid_repair sent_symbol r -> in_range 32 (RID r) ->
    0 < Count r <= MaxRepairWindow -> First r = wrap 32 (n - Count r) ->
    wire_ok n (w ++ [repair_datagram seq_ r])
| wo_later n m w : wire_ok m w -> m <= n -> wire_ok n w.

(** A channel that erases leaves such a sequence. *)
Lemma wire_ok_sublist n w : wire_ok n w -> forall l, sublist l w -> wire_ok n l.
Proof.
  induction 1 as [n Hn|n m w seq_ Hw IH Hm|n m w seq_ r Hw IH Hm Hv Hr Hc Hf|n m w Hw IH Hm]; intros l Hl.
  - apply sublist_nil_r in Hl as ->. by constructor.
  - apply sublist_app_r in Hl as (l1 & l2 & -> & H1 & H2).
    apply sublist_cons_r in H2 as [H2|(l' & -> & H2)]; apply sublist_nil_r in H2 as ->.
    + rewrite app_nil_r. eapply wo_later; [by apply IH|lia].
    + eapply wo_source; [by apply IH|lia].
  - apply sublist_app_r in Hl as (l1 & l2 & -> & H1 & H2).
    apply sublist_cons_r in H2 as [H2|(l' & -> & H2)]; apply sublist_nil_r in H2 as ->.
    + rewrite app_nil_r. eapply wo_later; [by apply IH|lia].
    + eapply wo_repair; [by apply IH|done..].
  - eapply wo_later; [by apply IH|lia].
Qed.

Lemma wire_ok_nonneg n w : wire_ok n w -> 0 <= n.
Proof. induction 1; lia. Qed.

(** ** The receiver *)

Hypothesis Hbytes : Forall (Forall is_byte) script.

Lemma sent_symbol_bytes e : Forall is_byte (sent_symbol e).
Proof. unfold sent_symbol. destruct (e <? 0); [constructor|by apply scripted_bytes]. Qed.

Record rx_ok (n : Z) (r : Receiver) : Prop := mk_rx_ok {
  rx_dec : dok sent_symbol (decoder_of r);
  rx_high : started (decoder_of r) = true -> 0 <= high (decoder_of r) <= n;
  rx_asm : asm_ok (rx_assembler r)
}.

Lemma rx_ok_later n m r : rx_ok n r -> n <= m -> rx_ok m r.
Proof. intros [H1 H2 H3] Hm. split; [done| |done]. intros Hs. specialize (H2 Hs). lia. Qed.

(** A source datagram arrives in its order. *)
Lemma onDatagram_source n m r seq_ out r' :
  rx_ok m r -> 0 <= m -> m < n -> n <= 2 ^ 31 ->
  onDatagram r (source_datagram seq_ (n - 1) (sent_symbol (n - 1))) = (out, r') ->
  rx_ok n r' /\ forall f, f ∈ out -> f ∈ fs.
Proof.
  intros [Hd Hh Ha] Hm Hn Hn31 Ho. assert (Hr32 : in_range 32 (n - 1)) by (split; pow2_eval; lia).
  destruct (source_datagram_fields seq_ (n - 1) (sent_symbol (n - 1)) Hr32) as (Hlen & Hk & He & Hv).
  set (d := source_datagram _ _ _) in *. unfold onDatagram in Ho.
  replace (len d <? sourceHeader) with false in Ho by lia. rewrite Hk, He, Hv in Ho.
  change (kindSource =? kindSource) with true in Ho. cbn iota in Ho.
  destruct (arrived (rx_assembler r) (n - 1) (sent_symbol (n - 1)) []) as [[frames valid] a1] eqn:Ea.
  destruct (arrived_ok _ _ _ _ _ _ _ Ha (fun j => eq_refl) Ea) as [Ha1 Hf1].
  assert (Hf : forall f, f ∈ frames -> f ∈ fs) by (intros f Hin; destruct (Hf1 f Hin) as [Hnil|]; [by apply elem_of_nil in Hnil|done]).
  destruct valid; cbn [negb] in Ho.
  2:{ injection Ho as <- <-. split; [|done]. apply (rx_ok_later m); [by split|lia]. }
  destruct (Decoder_SourceOwned (decoder_of r) (n - 1) (sent_symbol (n - 1))) as [dec delivered] eqn:Ed.
  destruct (Decoder_source_spec sent_symbol sent_symbol_bytes _ _ _ _ _ Hd Hr32
    ltac:(left; destruct (started (decoder_of r)) eqn:Es; [right|by left]; specialize (Hh eq_refl);
          rewrite wrap_small by (pow2_eval; lia); apply int32_of_nonneg; pow2_eval; lia) Ed) as (Hd' & Ht & Hre).
  destruct (take_delivery a1 delivered frames) as [frames2 a2] eqn:Et. injection Ho as <- <-.
  destruct (take_delivery_ok _ _ _ _ _ Ha1 Ht Hf Et) as [H1 H2]. split; [|done].
  split; cbn [rx_assembler]; try done. intros Hs. change (decoder_of (mkReceiver (Some dec) a2)) with dec in *.
  destruct Hre as [-> |[Hsd ->]].
  - rewrite wrap_small by (pow2_eval; lia). lia.
  - rewrite Hsd in Hs. specialize (Hh Hs). lia.
Qed.

Lemma onDatagram_repair n r seq_ q out r' :
  rx_ok n r -> n <= 2 ^ 31 -> 0 <= n -> valid_repair sent_symbol q -> in_range 32 (RID q) ->
  0 < Count q <= MaxRepairWindow -> First q = wrap 32 (n - Count q) ->
  onDatagram r (repair_datagram seq_ q) = (out, r') ->
  rx_ok n r' /\ forall f, f ∈ out -> f ∈ fs.
Proof.
  intros [Hd Hh Ha] Hn31 Hn0 Hv Hrid Hc Hf Ho. pose proof Hv as (Hfr & _). change MaxRepairWindow with 256 in Hc.
  destruct (repair_datagram_fields seq_ q Hrid Hfr ltac:(pow2_eval; lia)) as (Hlen & Hk & H5 & H9 & H13 & H15).
  set (d := repair_datagram seq_ q) in *. unfold onDatagram in Ho. unfold repairHeader, sourceHeader in *.
  replace (len d <? 4 + 1 + 4) with false in Ho by lia. rewrite Hk, H5, H9, H13, H15 in Ho.
  change (kindRepair =? kindSource) with false in Ho. change (kindRepair =? kindRepair) with true in Ho. cbn iota in Ho.
  replace (len d <? 4 + 1 + 4 + 4 + 2) with false in Ho by lia.
  change MaxRepairWindow with 256 in Ho.
  replace ((Count q <=? 0) || (Count q >? 256)) with false in Ho by lia.
  replace (mkRepair (RID q) (First q) (Count q) (Vector q)) with q in Ho by (by destruct q).
  destruct (Decoder_RepairOwned (decoder_of r) q) as [dec delivered] eqn:Ed.
  destruct (Decoder_repair_spec sent_symbol sent_symbol_bytes _ _ _ _ _ Hd Hv Ed) as (Hd' & Ht & Hre).
  destruct (take_delivery (rx_assembler r) delivered []) as [frames2 a2] eqn:Et. injection Ho as <- <-.
  destruct (take_delivery_ok _ _ [] _ _ Ha Ht ltac:(by intros f Hnil; apply elem_of_nil in Hnil) Et) as [H1 H2].
  split; [|done]. split; cbn [rx_assembler]; try done. intros Hs. change (decoder_of (mkReceiver (Some dec) a2)) with dec in *.
  destruct Hre as [-> |[Hsd ->]].
  - rewrite Hf, wrap_add_l.
    replace (wrap 32 (n - Count q) + (Count q - 1) + 1) with (wrap 32 (n - Count q) + Count q) by lia.
    rewrite wrap_add_l. replace (n - Count q + Count q) with n by lia.
    rewrite wrap_small by (pow2_eval; lia). lia.
  - apply Hh. congruence.
Qed.

Definition Receiver_New : Receiver := mkReceiver None assembler_zero.

(** [receiveLoop] over the datagrams that arrive: the frames, in order. *)
Definition receive_all (ds : list bytes) : list bytes * Receiver :=
  fold_left (fun '(out, r) d => let '(frames, r) := onDatagram r d in (out ++ frames, r)) ds ([], Receiver_New).

Lemma receive_all_ok n w : wire_ok n w -> n <= 2 ^ 31 ->
  rx_ok n (snd (receive_all w)) /\ forall f, f ∈ fst (receive_all w) -> f ∈ fs.
Proof.
  unfold receive_all.
  induction 1 as [n Hn|n m w seq_ Hw IH Hm|n m w seq_ r Hw IH Hm Hv Hr Hc Hf|n m w Hw IH Hm]; intros Hn31.
  - cbn. split; [|by intros f Hf; apply elem_of_nil in Hf]. split; cbn; [apply NewWindowDecoder_ok|done|]. intros b g Hb. done.
  - destruct (IH ltac:(lia)) as [IH1 IH2]. rewrite fold_left_app. cbn [fold_left].
    destruct (fold_left _ w _) as [out rx]. cbn [fst snd] in IH1, IH2.
    destruct (onDatagram rx _) as [frames rx'] eqn:Eo.
    destruct (onDatagram_source n m rx seq_ frames rx' IH1 (wire_ok_nonneg _ _ Hw) Hm Hn31 Eo) as [H1 H2].
    split; [done|]. intros f Hin. apply elem_of_app in Hin as [Hin|Hin]; auto.
  - destruct (IH ltac:(lia)) as [IH1 IH2]. rewrite fold_left_app. cbn [fold_left].
    destruct (fold_left _ w _) as [out rx]. cbn [fst snd] in IH1, IH2.
    destruct (onDatagram rx _) as [frames rx'] eqn:Eo. pose proof (wire_ok_nonneg _ _ Hw).
    destruct (onDatagram_repair n rx seq_ r frames rx' (rx_ok_later _ _ _ IH1 Hm) Hn31 ltac:(lia) Hv Hr Hc Hf Eo) as [H1 H2].
    split; [done|]. intros f Hin. apply elem_of_app in Hin as [Hin|Hin]; auto.
  - destruct (IH ltac:(lia)) as [IH1 IH2]. split; [by eapply rx_ok_later|done].
Qed.

End Assembler.

(** ** The sender keeps the wire in order *)

Section Wire.
Variables (env : Env) (script : list bytes).
Hypothesis Hshort : len script <= 2 ^ 31.
Hypothesis Hbytes : Forall (Forall is_byte) script.

Local Abbreviation sym := (sent_symbol script).

(** Where the encoder stands, for a stream that begins with the symbols emitted. *)
Definition link_ok (l : Link) : Prop :=
  emitted l `prefix_of` script ->
  match encoder l with
  | None => emitted l = []
  | Some e => enc_ok sym e /\ e_next e = len (emitted l)
  end /\ wire_ok script (len (emitted l)) (wire l) /\ in_range 32 (nextRID l).

Lemma put_fields l d ok l' : put env l d = (ok, l') ->
  encoder l' = encoder l /\ emitted l' = emitted l /\ nextRID l' = nextRID l /\
  (wire l' = wire l \/ wire l' = wire l ++ [d (nextSeq l)]).
Proof. unfold put. destruct (carrier_answer env (puts l)); intros [= <- <-]; cbn; auto. Qed.

Lemma sendRepair_ok l n ok l' : link_ok l -> sendRepair env l n = (ok, l') -> link_ok l'.
Proof.
  intros Hl Hs. unfold sendRepair in Hs. cbn [encoder] in Hs. destruct (encoder l) as [e|] eqn:Ee.
  - pose proof (AppendRepair_spec sym (sent_symbol_bytes script Hbytes) e [] (nextRID l) n) as Hspec.
    destruct (AppendRepair e [] (nextRID l) n) as [dst [r|]].
    + destruct (put_fields _ _ _ _ Hs) as (F1 & F2 & F3 & F4). cbn [encoder emitted nextRID wire nextSeq] in *.
      intros Hp. unfold link_ok in Hl. rewrite F2 in Hp |- *. rewrite F1, F3, ?Ee. rewrite Ee in Hl.
      destruct (Hl Hp) as ([He Hn] & Hw & Hr). split; [done|]. split; [|apply wrap_range; lia].
      destruct F4 as [-> | ->]; [done|].
      destruct (Hspec He) as (Hh & _ & HR & Hc & _ & Hf & Hv). rewrite Hn in Hf.
      eapply wo_repair; [exact Hw|lia|done|by rewrite HR|lia|done].
    + injection Hs as <- <-. intros Hp. cbn [encoder emitted nextRID wire] in *. specialize (Hl Hp). rewrite Ee in Hl; rewrite ?Ee.
      destruct Hl as (? & ? & ?). split; [done|]. split; [done|]. apply wrap_range. lia.
  - injection Hs as <- <-. intros Hp. cbn [encoder emitted nextRID wire] in *. specialize (Hl Hp). rewrite Ee in Hl; rewrite ?Ee.
    destruct Hl as (? & ? & ?). split; [done|]. split; [done|]. apply wrap_range. lia.
Qed.

Lemma repair_loop_ok n count : forall l ok l', link_ok l -> repair_loop env n count l = (ok, l') -> link_ok l'.
Proof.
  induction n as [|n IH]; intros l ok l' Hl Hr; cbn [repair_loop] in Hr; [by injection Hr as <- <-|].
  destruct (sendRepair env l count) as [ok1 l1] eqn:E. pose proof (sendRepair_ok _ _ _ _ Hl E) as Hl1.
  destruct ok1; cbn [negb] in Hr; [|by injection Hr as <- <-]. by eapply IH; [|exact Hr].
Qed.

Lemma sym_at l v : emitted l ++ [v] `prefix_of` script -> sym (len (emitted l)) = v.
Proof.
  intros [k Hk]. unfold sent_symbol, scripted. pose proof (len_nonneg (emitted l)).
  replace (len (emitted l) <? 0) with false by lia. rewrite Hk, <- app_assoc. unfold len. rewrite Nat2Z.id.
  by rewrite app_nth2, Nat.sub_diag by lia.
Qed.

(** A symbol joins the window and its datagram goes out under its number. *)
Lemma emit_ok l payload i c ok l' : link_ok l -> emit env l payload i c = (ok, l') -> link_ok l'.
Proof.
  intros Hl He. unfold emit in He. set (v := symbol_vector payload i c) in *.
  set (e0 := SetCapacity _ _) in He. destruct (AddOwned e0 v) as [esi e1] eqn:Ea.
  set (l1 := mkLink _ _ _ _ _ _ _ _ _) in He.
  assert (Hl2 : forall ok2 l2, sendSource env l1 v esi = (ok2, l2) -> link_ok l2).
  { intros ok2 l2 Hs. destruct (put_fields _ _ _ _ Hs) as (F1 & F2 & F3 & F4).
    cbn [l1 encoder emitted nextRID wire nextSeq] in *. intros Hp. rewrite F2 in Hp |- *. rewrite F1, F3.
    pose proof (sym_at l v Hp) as Hv. pose proof (prefix_length _ _ Hp) as Hpl. rewrite length_app in Hpl. cbn [length] in Hpl.
    assert (Hpre : emitted l `prefix_of` script) by (etransitivity; [by apply prefix_app_r|exact Hp]).
    destruct (Hl Hpre) as (Henc & Hw & Hr).
    assert (H0 : enc_ok sym e0 /\ e_next e0 = len (emitted l)).
    { unfold e0. destruct (encoder l) as [e|]; cbn [default].
      - destruct Henc as [H1 H2]. destruct (SetCapacity_spec sym e (code_capacity env (length (emitted l))) (or_introl H1)) as (H3 & H4 & _).
        split; [exact H3|]. etransitivity; [exact H4|done].
      - destruct (NewWindowEncoder_ok sym initialWindow) as [H1 H2].
        destruct (SetCapacity_spec sym _ (code_capacity env (length (emitted l))) (or_introl H1)) as (H3 & H4 & _).
        split; [exact H3|]. etransitivity; [exact H4|]. by rewrite H2, Henc. }
    destruct H0 as [H0 Hn]. destruct (AddOwned_spec sym e0 H0) as (A1 & A2 & A3). rewrite Hn, Hv, Ea in A1, A2, A3. cbn in A1, A2, A3.
    assert (Hlen : len (emitted l ++ [v]) = len (emitted l) + 1) by (rewrite len_app; done).
    unfold len in Hshort. assert (Hsmall : 0 <= len (emitted l) < 2 ^ 31) by (unfold len; lia).
    rewrite Hlen. split; [|split; [|done]].
    - split; [done|]. rewrite A3. apply wrap_small. pow2_eval. lia.
    - destruct F4 as [-> | ->]; [eapply wo_later; [exact Hw|lia]|].
      replace (source_datagram (nextSeq l) esi v)
        with (source_datagram (nextSeq l) (len (emitted l) + 1 - 1) (sym (len (emitted l) + 1 - 1))).
      + eapply wo_source; [exact Hw|lia].
      + replace (len (emitted l) + 1 - 1) with (len (emitted l)) by lia. by rewrite Hv, A1. }
  destruct (sendSource env l1 v esi) as [ok2 l2] eqn:Es. specialize (Hl2 _ _ eq_refl).
  destruct ok2; cbn [negb] in He; [|by injection He as <- <-]. eapply repair_loop_ok; [|exact He]. by destruct (_ >=? _).
Qed.

Lemma protectBurst_ok l ok l' : link_ok l -> protectBurst env l = (ok, l') -> link_ok l'.
Proof.
  intros Hl. unfold protectBurst. destruct (_ <=? 0); [by intros [= <- <-]|].
  destruct (repair_loop _ _ _ _) as [ok1 l1] eqn:E. pose proof (repair_loop_ok _ _ _ _ _ Hl E).
  by destruct ok1; intros [= <- <-].
Qed.

Lemma fragment_loop_ok frame limit count n : forall l i ok l',
  link_ok l -> fragment_loop env l frame limit count i n = (ok, l') -> link_ok l'.
Proof.
  induction n as [|n IH]; intros l i ok l' Hl Hr; cbn [fragment_loop] in Hr; [by injection Hr as <- <-|].
  destruct (emit env _ _ _ _) as [ok1 l1] eqn:E. pose proof (emit_ok _ _ _ _ _ _ Hl E) as Hl1.
  destruct ok1; cbn [negb] in Hr; [|by injection Hr as <- <-]. by eapply IH; [|exact Hr].
Qed.

Lemma flushPacked_ok s ok s' : link_ok (link s) -> flushPacked env s = (ok, s') -> link_ok (link s').
Proof.
  intros Hl. unfold flushPacked. destruct (len (packed s) =? 0); [by intros [= <- <-]|].
  destruct (emit env (link s) (packed s) 0 1) as [ok1 l1] eqn:E. pose proof (emit_ok _ _ _ _ _ _ Hl E) as Hl1.
  intros [= <- <-]. cbn [link set_packed]. set (s1 := set_packed (set_link s l1) [] (packedDone s)).
  by destruct (callAll_fields (packedDone s) s1) as (_ & _ & _ & -> & _).
Qed.

Lemma appendFrame_ok s limit frame d ok s' :
  link_ok (link s) -> appendFrame env s limit frame d = (ok, s') -> link_ok (link s').
Proof.
  intros Hl Ha. unfold appendFrame in Ha.
  assert (Hd : forall s0, link (callDone s0 d) = link s0) by (by destruct d).
  destruct (frameHeader + len frame >? limit).
  - destruct (flushPacked env s) as [ok1 s1] eqn:E. pose proof (flushPacked_ok _ _ _ Hl E) as Hl1.
    destruct ok1; cbn [negb] in Ha; [|injection Ha as <- <-; by rewrite Hd].
    destruct (sendFragments env (link s1) frame limit) as [ok2 l2] eqn:Ef. injection Ha as <- <-. rewrite Hd.
    unfold sendFragments in Ef. destruct (_ >? maxFragments); [by injection Ef as <- <-|].
    by eapply fragment_loop_ok.
  - destruct (if _ >? limit then flushPacked env s else (true, s)) as [ok1 s1] eqn:E.
    assert (Hl1 : link_ok (link s1)).
    { destruct (_ >? limit) in E; [by eapply flushPacked_ok|by injection E as <- <-]. }
    destruct ok1; cbn [negb] in Ha; injection Ha as <- <-; [done|by rewrite Hd].
Qed.

Lemma abandonPending_link s : link (abandonPending s) = link s.
Proof.
  unfold abandonPending. cbn [link set_packed].
  set (s1 := abandon_loop _ _ _ _ _). destruct (callAll_fields (packedDone s1) s1) as (_ & _ & _ & -> & _). unfold s1.
  generalize (pendingHead (queue s)) as h, 0 as i, (pending (queue s)) as sl, (Z.to_nat (pendingLen (queue s))) as n.
  clear. intros h i sl n. revert i sl s. induction n as [|n IH]; intros i sl s; cbn [abandon_loop]; [done|].
  rewrite IH. apply callDone_fields.
Qed.

Lemma link_ok_step p p' : link_ok (link (sender p)) -> path_step env p p' -> link_ok (link (sender p')).
Proof.
  intros Hl Hstep. destruct Hstep as [p p' Ht|p frame d s' Hsend|p]; [| |done].
  - assert (Htake : forall f s', takePending (sender p) = Some (f, s') -> link s' = link (sender p)).
    { intros f s' E. unfold takePending in E. destruct (_ || _); [done|].
      by destruct (popPendingLocked _); injection E as <- <-. }
    unfold loop_turn in Ht. destruct (pc p) as [|f| |]; [| | |done].
    + destruct (takePending (sender p)) as [[f s']|] eqn:E; [|destruct (l_closed _); [|done]];
        injection Ht as <-; cbn [stop_loop sender]; [by erewrite Htake|by rewrite abandonPending_link].
    + destruct (appendFrame env (sender p) _ _ _) as [ok s1] eqn:E. pose proof (appendFrame_ok _ _ _ _ _ _ Hl E).
      injection Ht as <-. destruct ok; cbn [stop_loop sender]; [done|by rewrite abandonPending_link].
    + destruct (takePending (sender p)) as [[f s']|] eqn:E; [injection Ht as <-; cbn [sender]; by erewrite Htake|].
      destruct (flushPacked env (sender p)) as [ok s1] eqn:Ef. pose proof (flushPacked_ok _ _ _ Hl Ef) as Hl1.
      destruct ok; cbn [negb] in Ht; [|injection Ht as <-; cbn [stop_loop sender]; by rewrite abandonPending_link].
      destruct (protectBurst env (link s1)) as [ok2 l2] eqn:Ep. pose proof (protectBurst_ok _ _ _ Hl1 Ep) as Hl2.
      injection Ht as <-. destruct ok2; cbn [stop_loop sender]; [done|by rewrite abandonPending_link].
  - unfold SendOwnedTracked in Hsend. destruct (_ >? _); [done|]. destruct (_ && _); [done|].
    destruct (l_closed _); [done|]. by injection Hsend as <-.
Qed.

Lemma link_ok_New : link_ok (link (sender (New env))).
Proof. intros _. cbn. split; [done|]. split; [by constructor|done]. Qed.

End Wire.

(** ** The path keeps the plan *)

(** Every payload the path can use either holds the frame with its header or is
    shorter than the frame. *)
Definition fits (env : Env) (f : outboundFrame) : Prop :=
  forall n, len (ob_frame f) + frameHeader <= limit_at env n \/ limit_at env n < len (ob_frame f).

Section Delivery.
Variable env : Env.
Hypothesis pending_pos : 0 < cfg_Pending env.
Hypothesis room : forall n, 17 <= limit_at env n < 2 ^ 16.

Definition path_plan (p : Path) : Prop :=
  path_ok p /\ (Forall (fits env) (accepted p) -> plan_ok (map ob_frame (accepted p)) (sender p)).

Lemma plan_ok_same fs s s' : plan_ok fs s -> emitted (link s') = emitted (link s) -> packed s' = packed s -> plan_ok fs s'.
Proof. intros Hp He Hk. unfold plan_ok. by rewrite He, Hk. Qed.

Lemma abandonPending_packed s : packed (abandonPending s) = packed s.
Proof.
  unfold abandonPending. cbn [packed set_packed].
  set (s1 := abandon_loop _ _ _ _ _). destruct (callAll_fields (packedDone s1) s1) as (_ & -> & _). unfold s1.
  generalize (pendingHead (queue s)) as h, 0 as i, (pending (queue s)) as sl, (Z.to_nat (pendingLen (queue s))) as n.
  clear. intros h i sl n. revert i sl s. induction n as [|n IH]; intros i sl s; cbn [abandon_loop]; [done|].
  rewrite IH. apply callDone_fields.
Qed.

Lemma plan_ok_stop fs s : plan_ok fs s -> plan_ok fs (abandonPending s).
Proof. intros Hp. eapply plan_ok_same; [exact Hp| |apply abandonPending_packed]. by rewrite abandonPending_link. Qed.

Lemma plan_turn p p' : path_plan p -> loop_turn env p = Some p' ->
  Forall (fits env) (accepted p') -> plan_ok (map ob_frame (accepted p')) (sender p').
Proof.
  intros [Hok Hplan] Ht Hfit.
  assert (Htake : forall f s', takePending (sender p) = Some (f, s') ->
    emitted (link s') = emitted (link (sender p)) /\ packed s' = packed (sender p)).
  { intros f s' E. destruct (takePending_fields _ _ _ (pk_queue _ Hok) E) as (_ & _ & _ & -> & _ & ->). done. }
  unfold loop_turn in Ht. destruct (pc p) as [|f| |] eqn:Epc; [| | |done].
  - destruct (takePending (sender p)) as [[f s']|] eqn:E; [|destruct (l_closed _); [|done]]; injection Ht as <-;
      cbn [stop_loop accepted sender] in *; [|by apply plan_ok_stop, Hplan].
    destruct (Htake _ _ eq_refl). by eapply plan_ok_same; [by apply Hplan|..].
  - destruct (appendFrame env (sender p) _ _ _) as [ok s1] eqn:E.
    assert (Hs1 : Forall (fits env) (accepted p) -> plan_ok (map ob_frame (accepted p)) s1).
    { intros Hf. pose proof (pk_frames _ Hok) as Hin. rewrite Epc in Hin. cbn [held_frame app] in Hin.
      apply Forall_cons in Hin as [Hin _]. eapply appendFrame_plan; [by apply Hplan| | | |exact E].
      - by apply list_elem_of_fmap_2.
      - pose proof (room (appends p)). lia.
      - rewrite Forall_forall in Hf. by apply (Hf f Hin). }
    injection Ht as <-. destruct ok; cbn [stop_loop accepted sender] in *; [by apply Hs1|by apply plan_ok_stop, Hs1].
  - destruct (takePending (sender p)) as [[f s']|] eqn:E.
    { injection Ht as <-. cbn [accepted sender] in *. destruct (Htake _ _ eq_refl).
      by eapply plan_ok_same; [by apply Hplan|..]. }
    destruct (flushPacked env (sender p)) as [ok s1] eqn:Ef.
    assert (Hs1 : Forall (fits env) (accepted p) -> plan_ok (map ob_frame (accepted p)) s1).
    { intros Hf. by destruct (flushPacked_plan _ _ _ _ _ (Hplan Hf) Ef). }
    destruct ok; cbn [negb] in Ht; [|injection Ht as <-; cbn [stop_loop accepted sender] in *; by apply plan_ok_stop, Hs1].
    destruct (protectBurst env (link s1)) as [ok2 l2] eqn:Ep. apply protectBurst_emitted in Ep.
    assert (Hs2 : Forall (fits env) (accepted p) -> plan_ok (map ob_frame (accepted p)) (set_link s1 l2)).
    { intros Hf. by eapply plan_ok_same; [by apply Hs1|..]. }
    injection Ht as <-. destruct ok2; cbn [stop_loop accepted sender] in *; [by apply Hs2|by apply plan_ok_stop, Hs2].
Qed.

Lemma path_plan_step p p' : path_plan p -> path_step env p p' -> path_plan p'.
Proof.
  intros Hp Hstep. pose proof Hp as [Hok Hplan]. split.
  { eapply path_ok_step; [|exact Hok|exact Hstep]. intros n. specialize (room n). lia. }
  destruct Hstep as [p p' Ht|p frame d s' Hsend|p]; [by eapply plan_turn| |done].
  cbn [accepted sender]. intros Hfit. apply Forall_app in Hfit as [Hfit _]. destruct (Hplan Hfit) as [[own Hs] (l & H1 & H2 & H3)].
  unfold SendOwnedTracked in Hsend. destruct (_ >? _); [done|]. destruct (_ && _); [done|].
  destruct (l_closed _); [done|]. injection Hsend as <-. rewrite map_app. split.
  - exists own. intros i v Hi. eapply symbol_ok_mono; [by apply Hs|intros f Hf; apply elem_of_app; by left|done].
  - exists l. split; [done|]. split; [|done]. eapply Forall_impl; [exact H2|]. intros f Hf. apply elem_of_app. by left.
Qed.

Lemma path_plan_reachable p : steps (path_step env) (New env) p -> path_plan p.
Proof.
  intros Hs. eapply (steps_invariant _ path_plan); [intros ??; by apply path_plan_step| |exact Hs].
  split; [by apply path_ok_New|]. intros _. split; [exists (fun _ => None); by intros i v Hi|].
  exists []. split; [done|]. split; [constructor|done].
Qed.

(** Symbols of frames of bytes are bytes. *)
Lemma script_bytes fs own script :
  Forall (Forall is_byte) fs -> script_ok fs own script -> Forall (Forall is_byte) script.
Proof.
  intros Hfs Hs. apply Forall_forall. intros v Hv. apply list_elem_of_lookup in Hv as [i Hi].
  assert (Hvec : forall pl a b, Forall is_byte pl -> Forall is_byte (symbol_vector pl a b)).
  { intros pl a b Hpl. unfold symbol_vector. rewrite !Forall_app. auto using be_bytes_range. }
  rewrite Forall_forall in Hfs.
  destruct (Hs _ _ Hi) as [(l & -> & Hl & _)|(frame & limit & j & _ & (Hin & _) & _ & _ & ->)]; apply Hvec.
  - unfold pack. rewrite Forall_concat. apply Forall_fmap, Forall_forall. intros f Hf.
    rewrite Forall_forall in Hl. apply (Forall_app _ (be_bytes 4 (len f)) f). split; [apply be_bytes_range|by apply Hfs, Hl].
  - apply Forall_slice. by apply Hfs.
Qed.

End Delivery.

Lemma coded_path_sound env p ds :
  0 < cfg_Pending env -> (forall n, 17 <= limit_at env n < 2 ^ 16) ->
  steps (path_step env) (New env) p ->
  Forall (fun f => Forall is_byte (ob_frame f)) (accepted p) -> Forall (fits env) (accepted p) ->
  len (emitted (link (sender p))) <= 2 ^ 31 -> sublist ds (wire (link (sender p))) ->
  Forall (fun f => f ∈ map ob_frame (accepted p)) (fst (receive_all ds)).
Proof.
  intros Hpos Hroom Hs Hb Hfit Hlen Hsub. set (script := emitted (link (sender p))) in *.
  destruct (path_plan_reachable env Hpos Hroom p Hs) as [_ Hplan]. destruct (Hplan Hfit) as [[own Hsc] _].
  assert (Hbytes : Forall (Forall is_byte) script).
  { eapply script_bytes; [|exact Hsc]. by apply Forall_fmap. }
  assert (Hl : link_ok script (link (sender p))).
  { eapply (steps_invariant _ (fun p => link_ok script (link (sender p)))); [|apply link_ok_New|exact Hs].
    intros q q'. by apply link_ok_step. }
  destruct (Hl ltac:(done)) as (_ & Hw & _). apply Forall_forall. intros f Hf.
  destruct (receive_all_ok _ own script Hsc Hlen Hbytes _ _ (wire_ok_sublist script _ _ Hw ds Hsub) Hlen) as [_ H]. by apply H.
Qed.

(** C6: the coded path delivers only what was sent.  Frames are queued, packed
    or cut, sent with whatever repairs at whatever rate while the carrier takes,
    refuses or fails, and the path is closed at any time; the channel erases any
    of the datagrams and keeps the order of the rest.  Every frame the receiver then
    delivers, carried whole, reassembled from fragments or reconstructed from repairs,
    is byte for byte a frame that was queued, under these conditions: every symbol
    payload used is of 17 to 65,535 bytes; every frame queued fits it together with its
    four-byte header or is longer than it, which leaves out the frames at most three
    bytes short of the payload, that [header_gap_frame_never_arrives] shows are lost;
    and at most 2^31 symbols were sent. *)
Theorem coded_path_delivers_sent env p ds :
  0 < cfg_Pending env -> (forall n, 17 <= limit_at env n < 2 ^ 16) ->
  steps (path_step env) (New env) p ->
  Forall (fun f => Forall is_byte (ob_frame f)) (accepted p) -> Forall (fits env) (accepted p) ->
  len (emitted (link (sender p))) <= 2 ^ 31 -> sublist ds (wire (link (sender p))) ->
  Forall (fun f => f ∈ map ob_frame (accepted p)) (fst (receive_all ds)).
Proof. apply coded_path_sound. Qed.

(** Frames packed in a symbol are shorter than its payload by a header. *)
Lemma parse_frames_shorter fuel : forall payload out f,
  f ∈ parse_frames fuel payload out -> f ∈ out \/ len f + frameHeader <= len payload.
Proof.
  induction fuel as [|fuel IH]; intros payload out f Hf; cbn [parse_frames] in Hf; [by left|].
  destruct (len payload <? frameHeader) eqn:E1; [by left|].
  destruct (u32_at payload 0 >? len (drop 4 payload)) eqn:E2; [by left|]. bool_to_prop. unfold frameHeader in *.
  assert (Hd : len (drop 4 payload) = len payload - 4) by (unfold len in *; rewrite length_drop; lia).
  apply IH in Hf as [Hf|Hf].
  - apply elem_of_app in Hf as [|Hf]; [by left|]. apply list_elem_of_singleton in Hf as ->. right.
    unfold len at 1. rewrite length_take. unfold len in *. lia.
  - right. unfold len at 2 in Hf. rewrite length_drop in Hf. unfold len in *. lia.
Qed.

(** A frame that fits a symbol but not with its header is lost.  When the
    payload of a symbol is at least the frame and less than the frame and its
    header, [appendFrame] takes the branch that cuts, the cut makes one
    fragment, numbered 0 of 1 and without a header, and the receiver reads a
    symbol of one part as whole frames: whatever the assembler holds, and however
    the symbol reaches it, the frame is not among the frames it delivers. *)
Theorem header_gap_frame_never_arrives env s s1 limit frame done_ ok s' a esi w :
  flushPacked env s = (true, s1) -> 4 < limit < 2 ^ 16 -> limit - frameHeader < len frame <= limit ->
  appendFrame env s limit frame done_ = (ok, s') -> same_vector w (symbol_vector frame 0 1) ->
  emitted (link s') = emitted (link s1) ++ [symbol_vector frame 0 1] /\
  frame ∉ fst (fst (arrived a esi w [])).
Proof.
  intros Hflush Hlim Hlen Ha Hw. unfold frameHeader in Hlen. split.
  - unfold appendFrame in Ha. unfold frameHeader in Ha. replace (4 + len frame >? limit) with true in Ha by lia.
    rewrite Hflush in Ha. cbn [negb] in Ha. unfold sendFragments in Ha.
    assert (Hc : (len frame + limit - 1) / limit = 1) by (symmetry; apply Z.div_unique with (len frame - 1); lia).
    rewrite Hc in Ha. change (1 >? maxFragments) with false in Ha. change (Z.to_nat 1) with 1%nat in Ha. cbn [fragment_loop] in Ha.
    change (Z.of_nat 0) with 0 in Ha. rewrite (Z.min_r ((0 + 1) * limit)) in Ha by lia. rewrite Z.mul_0_l in Ha.
    replace (slice (Z.to_nat 0) (Z.to_nat (len frame)) frame) with frame in Ha
      by (rewrite slice_0; unfold len; by rewrite Nat2Z.id, firstn_all).
    destruct (emit env (link s1) frame 0 1) as [ok1 l1] eqn:E. apply emit_emitted in E.
    assert (Hlk : link s' = l1).
    { destruct ok1; cbn [negb] in Ha; injection Ha as <- <-; apply (callDone_fields (set_link s1 l1) done_). }
    by rewrite Hlk.
  - unfold arrived. destruct (parseSymbol w) as [r|] eqn:Ep; [|intros Hf; by apply elem_of_nil in Hf].
    rewrite (parse_same frame 0 1 ltac:(lia) ltac:(lia) ltac:(pow2_eval; lia) w r Hw Ep).
    change (1 =? 1) with true. cbn [fst]. intros Hf. apply parse_frames_shorter in Hf as [Hf|Hf].
    + by apply elem_of_nil in Hf.
    + unfold frameHeader in Hf. lia.
Qed.

(** ** Witnesses *)

(** The first source datagram is erased; a repair brings its frame back. *)
Definition sample_arrivals : list bytes := drop 1 (wire (link (sender sample_path))).

Lemma coded_path_delivers_sent_witness :
  fst (receive_all sample_arrivals) = [[7; 8]; sample_large; [9]] /\
  Forall (fun f => f ∈ map ob_frame (accepted sample_path)) (fst (receive_all sample_arrivals)).
Proof.
  split; [vm_compute; reflexivity|].
  refine (coded_path_delivers_sent sample_env sample_path sample_arrivals _ _ sample_path_reachable _ _ _ _).
  - reflexivity.
  - intros n. rewrite sample_limit. pow2_eval. lia.
  - assert (Hb : forallb (fun f => forallb (fun b => (0 <=? b) && (b <? 256)) (ob_frame f)) (accepted sample_path) = true)
      by (vm_compute; reflexivity).
    apply Forall_forall. intros f Hf. rewrite forallb_forall in Hb. apply list_elem_of_In, Hb in Hf.
    apply Forall_forall. intros b Hin. rewrite forallb_forall in Hf. apply list_elem_of_In, Hf in Hin.
    unfold is_byte. lia.
  - assert (Hb : forallb (fun f => (len (ob_frame f) + frameHeader <=? 39) || (39 <? len (ob_frame f))) (accepted sample_path) = true)
      by (vm_compute; reflexivity).
    apply Forall_forall. intros f Hf n. rewrite sample_limit. rewrite forallb_forall in Hb.
    apply list_elem_of_In, Hb in Hf. lia.
  - vm_compute. discriminate.
  - apply sublist_drop.
Defined.

(** With the default symbol of 1100 bytes, a frame of 1077 bytes. *)
Definition gap_frame : bytes := replicate 1077 1.

Lemma header_gap_frame_never_arrives_witness :
  symbolPayload 1100 None = 1079 /\
  gap_frame ∉ fst (fst (arrived assembler_zero 0 (symbol_vector gap_frame 0 1) [])).
Proof.
  split; [reflexivity|].
  refine (proj2 (header_gap_frame_never_arrives sample_env (Sender_New 4) (Sender_New 4) 1079 gap_frame None true
    (snd (appendFrame sample_env (Sender_New 4) 1079 gap_frame None)) assembler_zero 0 _ _ _ _ _ _)).
  - reflexivity.
  - pow2_eval. lia.
  - unfold len, gap_frame. rewrite length_replicate. unfold frameHeader. lia.
  - vm_compute. reflexivity.
  - intros j. reflexivity.
Defined.
