(* ===== verification/Demux.v ===== *)
(** The demultiplexer of coded datagrams ([internal/pep/codedlane.go]).

    One coded path brings the frames of every flow of a lane; [run] hands each to
    the channel its flow subscribed to, and [holdLocked] keeps for a moment the
    frames of a flow that has not subscribed yet.  The operations run under one
    mutex, so each is one step, and the readers of the channels take frames
    between them.

    A Go channel is an object of the heap [chans], named by its index; sending on
    a closed channel and closing one twice are the panics, [None].  The fields
    [ch_flow], [ch_taken], [arrivals] and [sent] are history that no operation
    reads. *)

From S2P Require Import Prelude Frame.
Import protocol.

Definition heldFrameLifetime : Z := 2 * 1000000000.
Definition maxHeldFrames : Z := 256.
Definition maxHeldBytes : Z := Z.shiftl 1 20.
Definition maxBulkQueueFrames : Z := 256.

(** A channel of frames: its capacity, what is in it and whether it is closed;
    the flow it was made for and what has been taken from it. *)
Record frame_chan := mkChan {
  ch_flow : Z;
  ch_cap : Z;
  ch_queue : list Frame;
  ch_closed : bool;
  ch_taken : list Frame
}.

Record subscription := mkSub { sub_frames : nat; sub_lanes : Z }.
Record heldFrame := mkHeld { hf_frame : Frame; hf_at : Z }.

Record bulkDemux := mkDemux {
  queueFrames : Z;
  heldFrames : Z;
  heldBytes : Z;
  flows : gmap Z subscription;
  held_of : gmap Z (list heldFrame);
  chans : list frame_chan;
  arrivals : list Frame;
  sent : list (nat * Frame)
}.

Definition newBulkDemux (n : Z) : bulkDemux :=
  let n := if (n <? 1) || (n >? maxBulkQueueFrames) then maxBulkQueueFrames else n in
  let frames := Z.min maxHeldFrames (2 * n) in
  mkDemux n frames (Z.min maxHeldBytes (frames * MaxPayload)) ∅ ∅ [] [] [].

Definition set_flows (d : bulkDemux) (m : gmap Z subscription) : bulkDemux :=
  mkDemux (queueFrames d) (heldFrames d) (heldBytes d) m (held_of d) (chans d) (arrivals d) (sent d).
Definition set_held (d : bulkDemux) (m : gmap Z (list heldFrame)) : bulkDemux :=
  mkDemux (queueFrames d) (heldFrames d) (heldBytes d) (flows d) m (chans d) (arrivals d) (sent d).
Definition set_chans (d : bulkDemux) (l : list frame_chan) (s : list (nat * Frame)) : bulkDemux :=
  mkDemux (queueFrames d) (heldFrames d) (heldBytes d) (flows d) (held_of d) l (arrivals d) s.
Definition note_arrival (d : bulkDemux) (f : Frame) : bulkDemux :=
  mkDemux (queueFrames d) (heldFrames d) (heldBytes d) (flows d) (held_of d) (chans d) (arrivals d ++ [f]) (sent d).

(** ** Channels *)

(** [select] with the send and a default: the frame goes in when there is room. *)
Definition try_send (d : bulkDemux) (a : nat) (f : Frame) : option bulkDemux :=
  match chans d !! a with
  | None => None
  | Some c =>
      if ch_closed c then None
      else if len (ch_queue c) <? ch_cap c then
        Some (set_chans d (<[a := mkChan (ch_flow c) (ch_cap c) (ch_queue c ++ [f]) false (ch_taken c)]> (chans d))
                (sent d ++ [(a, f)]))
      else Some d
  end.

Definition close_chan (d : bulkDemux) (a : nat) : option bulkDemux :=
  match chans d !! a with
  | None => None
  | Some c =>
      if ch_closed c then None
      else Some (set_chans d (<[a := mkChan (ch_flow c) (ch_cap c) (ch_queue c) true (ch_taken c)]> (chans d)) (sent d))
  end.

(** A reader of the channel takes the first frame in it. *)
Definition recv (d : bulkDemux) (a : nat) : option (Frame * bulkDemux) :=
  match chans d !! a with
  | Some c =>
      match ch_queue c with
      | f :: rest =>
          Some (f, set_chans d (<[a := mkChan (ch_flow c) (ch_cap c) rest (ch_closed c) (ch_taken c ++ [f])]> (chans d)) (sent d))
      | [] => None
      end
  | None => None
  end.

(** ** Operations *)

Definition held_frames_total (m : gmap Z (list heldFrame)) : Z := msum (fun _ l => len l) m.
Definition held_bytes_total (m : gmap Z (list heldFrame)) : Z :=
  msum (fun _ l => sumZ (map (fun h => len (f_Payload (hf_frame h))) l)) m.

(** The loop of [holdLocked]: what is past its lifetime goes, and a flow with
    nothing left goes with it. *)
Definition unexpired (now : Z) (m : gmap Z (list heldFrame)) : gmap Z (list heldFrame) :=
  omap (fun l =>
    match List.filter (fun h => now - hf_at h <=? heldFrameLifetime) l with
    | [] => None
    | kept => Some kept
    end) m.

Definition holdLocked (d : bulkDemux) (now : Z) (frame : Frame) : bulkDemux :=
  let heldFrameLimit := if heldFrames d <=? 0 then maxHeldFrames else heldFrames d in
  let heldByteLimit := if heldBytes d <=? 0 then maxHeldBytes else heldBytes d in
  let m := unexpired now (held_of d) in
  let d := set_held d m in
  if (held_frames_total m >=? heldFrameLimit) || (held_bytes_total m + len (f_Payload frame) >? heldByteLimit) then d
  else
    let id := h_FlowID (f_Header frame) in
    set_held d (<[id := default [] (m !! id) ++ [mkHeld frame now]]> m).

(** A turn of [run] with the payload [Receive] returned. *)
Definition run_turn (d : bulkDemux) (now : Z) (payload : bytes) : option bulkDemux :=
  match ParseFrameOwned payload with
  | Err _ => Some d
  | Ok frame =>
      let d := note_arrival d frame in
      match flows d !! h_FlowID (f_Header frame) with
      | Some sub => try_send d (sub_frames sub) frame
      | None => Some (holdLocked d now frame)
      end
  end.

(** The end of [run], when [Receive] fails: the channels are closed in the order
    in which the map is visited. *)
Fixpoint run_end (d : bulkDemux) (order : list Z) : option bulkDemux :=
  match order with
  | [] => Some d
  | id :: rest =>
      match flows d !! id with
      | None => run_end d rest
      | Some sub =>
          match close_chan d (sub_frames sub) with
          | None => None
          | Some d => run_end (set_flows d (delete id (flows d))) rest
          end
      end
  end.

Fixpoint send_held (d : bulkDemux) (a : nat) (l : list heldFrame) : option bulkDemux :=
  match l with
  | [] => Some d
  | h :: rest => match try_send d a (hf_frame h) with None => None | Some d => send_held d a rest end
  end.

(** [subscribe]: the channel of the flow. *)
Definition subscribe (d : bulkDemux) (flowID : Z) : option (nat * bulkDemux) :=
  match flows d !! flowID with
  | Some sub => Some (sub_frames sub, set_flows d (<[flowID := mkSub (sub_frames sub) (sub_lanes sub + 1)]> (flows d)))
  | None =>
      let cap_ := if queueFrames d <=? 0 then maxBulkQueueFrames else queueFrames d in
      let a := length (chans d) in
      let d := set_chans d (chans d ++ [mkChan flowID cap_ [] false []]) (sent d) in
      let d := set_flows d (<[flowID := mkSub a 0]> (flows d)) in
      match send_held d a (default [] (held_of d !! flowID)) with
      | None => None
      | Some d =>
          let d := set_held d (delete flowID (held_of d)) in
          Some (a, set_flows d (<[flowID := mkSub a (0 + 1)]> (flows d)))
      end
  end.

Definition release (d : bulkDemux) (flowID : Z) : option bulkDemux :=
  match flows d !! flowID with
  | None => Some d
  | Some sub =>
      let lanes := sub_lanes sub - 1 in
      if lanes >? 0 then Some (set_flows d (<[flowID := mkSub (sub_frames sub) lanes]> (flows d)))
      else close_chan (set_flows d (delete flowID (flows d))) (sub_frames sub)
  end.

(** ** The demultiplexers of the process *)

(** The table [bulkDemuxs] from paths to demultiplexers, which are objects of the
    heap [demuxes]. *)
Record demux_table := mkTable { demuxes : list bulkDemux; bulkDemuxs : gmap Z nat }.

Definition connBulkDemux (r : demux_table) (path : option Z) (n : Z) : option nat * demux_table :=
  match path with
  | None => (None, r)
  | Some p =>
      match bulkDemuxs r !! p with
      | Some existing => (Some existing, r)
      | None =>
          let created := length (demuxes r) in
          (Some created, mkTable (demuxes r ++ [newBulkDemux n]) (<[p := created]> (bulkDemuxs r)))
      end
  end.

Definition dropBulkDemux (r : demux_table) (path : option Z) : demux_table :=
  match path with None => r | Some p => mkTable (demuxes r) (delete p (bulkDemuxs r)) end.

(** [bulkFrames] and [releaseBulk] of a lane; [None] is a panic. *)
Definition bulkFrames (r : demux_table) (path : option Z) (n flowID : Z) : option (option nat * demux_table) :=
  match connBulkDemux r path n with
  | (None, r) => Some (None, r)
  | (Some a, r) =>
      match demuxes r !! a with
      | None => None
      | Some d =>
          match subscribe d flowID with
          | None => None
          | Some (c, d) => Some (Some c, mkTable (<[a := d]> (demuxes r)) (bulkDemuxs r))
          end
      end
  end.

Definition releaseBulk (r : demux_table) (path : option Z) (n flowID : Z) : option demux_table :=
  match connBulkDemux r path n with
  | (None, r) => Some r
  | (Some a, r) =>
      match demuxes r !! a with
      | None => None
      | Some d =>
          match release d flowID with
          | None => None
          | Some d => Some (mkTable (<[a := d]> (demuxes r)) (bulkDemuxs r))
          end
      end
  end.

(** Whatever the flows, the readers of their channels and the path do. *)
Inductive demux_step : bulkDemux -> bulkDemux -> Prop :=
| dm_turn d now payload d' : run_turn d now payload = Some d' -> demux_step d d'
| dm_end d order d' : order ≡ₚ (map_to_list (flows d)).*1 -> run_end d order = Some d' -> demux_step d d'
| dm_subscribe d id a d' : subscribe d id = Some (a, d') -> demux_step d d'
| dm_release d id d' : release d id = Some d' -> demux_step d d'
| dm_recv d a f d' : recv d a = Some (f, d') -> demux_step d d'.

(** ** Invariant *)

Definition flow_of (f : Frame) : Z := h_FlowID (f_Header f).

(** The frames of one flow, and what went into one channel. *)
Definition of_flow (id : Z) (l : list Frame) : list Frame := List.filter (fun f => flow_of f =? id) l.
Definition into_chan (a : nat) (s : list (nat * Frame)) : list Frame := map snd (List.filter (fun e => (fst e =? a)%nat) s).
Definition given_to (id : Z) (s : list (nat * Frame)) : list Frame := of_flow id (map snd s).
Definition waiting_frames (id : Z) (m : gmap Z (list heldFrame)) : list Frame := map hf_frame (default [] (m !! id)).

(** Channels hold what was sent into them, within their capacity and of their
    own flow. *)
Record chans_ok (cs : list frame_chan) (s : list (nat * Frame)) : Prop := {
  ck_room : Forall (fun c => len (ch_queue c) <= ch_cap c) cs;
  ck_sent : forall a c, cs !! a = Some c -> ch_taken c ++ ch_queue c = into_chan a s;
  ck_flow : Forall (fun e => exists c, cs !! fst e = Some c /\ ch_flow c = flow_of (snd e)) s
}.

(** A subscribed flow has an open channel of its own, and every open channel is
    subscribed. *)
Record subs_ok (fs : gmap Z subscription) (cs : list frame_chan) : Prop := {
  sk_open : forall id sub, fs !! id = Some sub ->
    exists c, cs !! sub_frames sub = Some c /\ ch_closed c = false /\ ch_flow c = id;
  sk_live : forall a c, cs !! a = Some c -> ch_closed c = false ->
    exists sub, fs !! ch_flow c = Some sub /\ sub_frames sub = a
}.

Definition order_ok (arr : list Frame) (s : list (nat * Frame)) (m : gmap Z (list heldFrame)) : Prop :=
  forall id, sublist (given_to id s ++ waiting_frames id m) (of_flow id arr).

Record demux_ok (d : bulkDemux) : Prop := {
  dk_chans : chans_ok (chans d) (sent d);
  dk_subs : subs_ok (flows d) (chans d);
  dk_apart : forall id sub, flows d !! id = Some sub -> held_of d !! id = None;
  dk_order : order_ok (arrivals d) (sent d) (held_of d);
  dk_limits : 0 < queueFrames d /\ 0 < heldFrames d <= maxHeldFrames /\ 0 < heldBytes d <= maxHeldBytes;
  dk_frames : held_frames_total (held_of d) <= heldFrames d;
  dk_bytes : held_bytes_total (held_of d) <= heldBytes d
}.

Lemma of_flow_app id l k : of_flow id (l ++ k) = of_flow id l ++ of_flow id k.
Proof. apply List.filter_app. Qed.

Lemma of_flow_same f : of_flow (flow_of f) [f] = [f].
Proof. unfold of_flow. cbn. by rewrite Z.eqb_refl. Qed.

Lemma of_flow_other id f : flow_of f <> id -> of_flow id [f] = [].
Proof. intros. unfold of_flow. cbn. by replace (flow_of f =? id) with false by lia. Qed.

Lemma of_flow_all id l : Forall (fun f => flow_of f = id) l -> of_flow id l = l.
Proof.
  induction 1 as [|f l Hf Hl IH]; [done|]. unfold of_flow in *. cbn. rewrite Hf, Z.eqb_refl. by f_equal.
Qed.

Lemma of_flow_none id id' l : Forall (fun f => flow_of f = id') l -> id <> id' -> of_flow id l = [].
Proof.
  induction 1 as [|f l Hf Hl IH]; [done|]. intros Hn. unfold of_flow in *. cbn. rewrite Hf.
  replace (id' =? id) with false by lia. auto.
Qed.

Lemma elem_of_flow f id l : f ∈ of_flow id l -> flow_of f = id.
Proof. rewrite list_elem_of_In. unfold of_flow. rewrite filter_In. lia. Qed.

Lemma into_chan_app a s k : into_chan a (s ++ k) = into_chan a s ++ into_chan a k.
Proof. unfold into_chan. by rewrite List.filter_app, map_app. Qed.

Lemma into_chan_same a f : into_chan a [(a, f)] = [f].
Proof. unfold into_chan. cbn. by rewrite Nat.eqb_refl. Qed.

Lemma into_chan_other a b f : b <> a -> into_chan a [(b, f)] = [].
Proof. intros. unfold into_chan. cbn. by replace (b =? a)%nat with false by (symmetry; by apply Nat.eqb_neq). Qed.

Lemma given_to_app id s k : given_to id (s ++ k) = given_to id s ++ given_to id k.
Proof. unfold given_to. by rewrite map_app, of_flow_app. Qed.

(** ** Channels *)

(** Replacing a channel by one of the same flow with the same contents and more. *)
Lemma chans_ok_update cs s a c c' extra :
  chans_ok cs s -> cs !! a = Some c -> ch_flow c' = ch_flow c -> len (ch_queue c') <= ch_cap c' ->
  ch_taken c' ++ ch_queue c' = ch_taken c ++ ch_queue c ++ extra -> Forall (fun f => flow_of f = ch_flow c) extra ->
  chans_ok (<[a := c']> cs) (s ++ map (pair a) extra).
Proof.
  intros [Hr Hs Hf] Ha Hfl Hcap Hq Hex. assert (Hlt : (a < length cs)%nat) by (by eapply lookup_lt_Some).
  assert (Hin : forall b, into_chan b (map (pair a) extra) = if decide (b = a) then extra else []).
  { intros b. destruct (decide (b = a)) as [->|Hn]; unfold into_chan.
    - clear. induction extra as [|f l IH]; cbn; [done|]. rewrite Nat.eqb_refl. cbn. by rewrite IH.
    - clear -Hn. induction extra as [|f l IH]; cbn; [done|].
      by replace (a =? b)%nat with false by (symmetry; by apply Nat.eqb_neq). }
  split.
  - by apply Forall_insert.
  - intros b cb Hb. rewrite into_chan_app, Hin. destruct (decide (b = a)) as [->|Hn].
    + rewrite list_lookup_insert_eq in Hb by done. injection Hb as <-. rewrite Hq, app_assoc. f_equal. by apply Hs.
    + rewrite list_lookup_insert_ne in Hb by done. rewrite app_nil_r. by apply Hs.
  - assert (Hkeep : forall b cb fl, cs !! b = Some cb -> ch_flow cb = fl ->
      exists c0, <[a := c']> cs !! b = Some c0 /\ ch_flow c0 = fl).
    { intros b cb fl Hb Hcb. destruct (decide (b = a)) as [->|Hn].
      - exists c'. rewrite list_lookup_insert_eq by done. split; [done|]. congruence.
      - exists cb. by rewrite list_lookup_insert_ne by done. }
    apply Forall_app. split.
    + eapply Forall_impl; [exact Hf|]. intros e (cb & Hb & Hfb). by eapply Hkeep.
    + apply Forall_fmap. eapply Forall_impl; [exact Hex|]. intros f Hf'. cbn. by eapply Hkeep; [|rewrite Hf'].
Qed.

Lemma try_send_spec d a c f :
  chans_ok (chans d) (sent d) -> chans d !! a = Some c -> ch_closed c = false -> ch_flow c = flow_of f ->
  exists c' l, try_send d a f = Some (set_chans d (<[a := c']> (chans d)) (sent d ++ map (pair a) l)) /\
    chans_ok (<[a := c']> (chans d)) (sent d ++ map (pair a) l) /\
    ch_closed c' = false /\ ch_flow c' = ch_flow c /\ ch_cap c' = ch_cap c /\ ch_queue c' = ch_queue c ++ l /\
    l = if len (ch_queue c) <? ch_cap c then [f] else [].
Proof.
  intros Hok Ha Hc Hf. unfold try_send. rewrite Ha, Hc. destruct (len (ch_queue c) <? ch_cap c) eqn:E.
  - eexists _, [f]. split; [reflexivity|]. split; [|done]. eapply chans_ok_update; [done..| | |].
    + cbn. rewrite len_app, len_cons, len_nil. lia.
    + cbn. by rewrite app_assoc.
    + by constructor.
  - exists c, []. cbn [map]. rewrite app_nil_r, list_insert_id by done. rewrite app_nil_r.
    split; [by destruct d|]. done.
Qed.

Lemma send_held_spec l : forall d a c,
  chans_ok (chans d) (sent d) -> chans d !! a = Some c -> ch_closed c = false ->
  Forall (fun h => ch_flow c = flow_of (hf_frame h)) l ->
  exists c' k, send_held d a l = Some (set_chans d (<[a := c']> (chans d)) (sent d ++ map (pair a) k)) /\
    chans_ok (<[a := c']> (chans d)) (sent d ++ map (pair a) k) /\
    ch_closed c' = false /\ ch_flow c' = ch_flow c /\ ch_queue c' = ch_queue c ++ k /\
    sublist k (map hf_frame l) /\ (len (ch_queue c) + len l <= ch_cap c -> k = map hf_frame l).
Proof.
  induction l as [|h l IH]; intros d a c Hok Ha Hc Hf.
  - exists c, []. cbn [map send_held]. rewrite !app_nil_r, list_insert_id by done. split; [by destruct d|]. done.
  - apply Forall_cons in Hf as [Hh Hf]. cbn [send_held].
    destruct (try_send_spec d a c (hf_frame h) Hok Ha Hc Hh) as (c1 & k1 & -> & Hok1 & Hc1 & Hf1 & Hcap1 & Hq1 & Hk1).
    assert (Hlt : (a < length (chans d))%nat) by (by eapply lookup_lt_Some).
    destruct (IH (set_chans d (<[a := c1]> (chans d)) (sent d ++ map (pair a) k1)) a c1) as
      (c2 & k2 & -> & Hok2 & Hc2 & Hf2 & Hq2 & Hs2 & Hall2); cbn [set_chans chans sent] in *; try done.
    { by rewrite list_lookup_insert_eq. }
    { eapply Forall_impl; [exact Hf|]. intros h0 Hh0. cbn. by rewrite Hf1. }
    exists c2, (k1 ++ k2). rewrite list_insert_insert_eq, <- app_assoc, <- map_app in Hok2.
    rewrite list_insert_insert_eq, <- app_assoc, <- map_app.
    split; [reflexivity|]. split; [done|]. split; [done|]. split; [congruence|].
    split; [by rewrite Hq2, Hq1, <- app_assoc|]. rewrite len_cons. split.
    + destruct (_ <? _); subst k1; cbn; [by apply sublist_skip|by apply sublist_cons].
    + intros Hfit. pose proof (len_nonneg l). rewrite Hk1 in Hq1 |- *.
      replace (len (ch_queue c) <? ch_cap c) with true in Hq1 |- * by lia. cbn. f_equal. apply Hall2.
      rewrite Hq1, Hcap1, len_app, len_cons, len_nil. lia.
Qed.

Lemma close_chan_spec d a c :
  chans_ok (chans d) (sent d) -> chans d !! a = Some c -> ch_closed c = false ->
  exists c', close_chan d a = Some (set_chans d (<[a := c']> (chans d)) (sent d)) /\
    chans_ok (<[a := c']> (chans d)) (sent d) /\ ch_closed c' = true /\ ch_flow c' = ch_flow c.
Proof.
  intros Hok Ha Hc. unfold close_chan. rewrite Ha, Hc. eexists. split; [reflexivity|].
  split; [|done]. pose proof (Forall_lookup_1 _ _ _ _ (ck_room _ _ Hok) Ha) as Hr.
  replace (sent d) with (sent d ++ map (pair a) (@nil Frame)) by apply app_nil_r.
  eapply chans_ok_update; cbn; [done..| |constructor]. by rewrite app_nil_r.
Qed.

(** Closing the channel of a flow that is no longer subscribed. *)
Lemma subs_ok_closed fs cs id sub c c' :
  subs_ok fs cs -> fs !! id = Some sub -> cs !! sub_frames sub = Some c ->
  ch_closed c' = true -> ch_flow c' = id ->
  subs_ok (delete id fs) (<[sub_frames sub := c']> cs).
Proof.
  intros [Ho Hl] Hid Hc Hcl Hfl. assert (Hlt : (sub_frames sub < length cs)%nat) by (by eapply lookup_lt_Some).
  destruct (Ho _ _ Hid) as (c0 & Hc0 & _ & Hf0). split.
  - intros id' sub' Hs. apply lookup_delete_Some in Hs as [Hne Hs]. destruct (Ho _ _ Hs) as (c1 & H1 & H2 & H3).
    exists c1. rewrite list_lookup_insert_ne; [done|]. intros Heq. rewrite Heq in Hc0. congruence.
  - intros a c1 Ha Hopen. destruct (decide (a = sub_frames sub)) as [->|Hn].
    { rewrite list_lookup_insert_eq in Ha by done. injection Ha as <-. congruence. }
    rewrite list_lookup_insert_ne in Ha by done. destruct (Hl _ _ Ha Hopen) as (s1 & H1 & H2).
    exists s1. split; [|done]. rewrite lookup_delete_ne; [done|]. intros Heq. congruence.
Qed.

(** A change to an open channel that keeps it open and its flow. *)
Lemma subs_ok_same fs cs a c c' :
  subs_ok fs cs -> cs !! a = Some c -> ch_closed c' = ch_closed c -> ch_flow c' = ch_flow c ->
  subs_ok fs (<[a := c']> cs).
Proof.
  intros [Ho Hl] Ha Hc Hf. assert (Hlt : (a < length cs)%nat) by (by eapply lookup_lt_Some). split.
  - intros id sub Hs. destruct (Ho _ _ Hs) as (c1 & H1 & H2 & H3).
    destruct (decide (sub_frames sub = a)) as [E|Hn]; [rewrite E in *|].
    + exists c'. rewrite list_lookup_insert_eq by done. split; [done|]. split; congruence.
    + exists c1. by rewrite list_lookup_insert_ne.
  - intros b c1 Hb Hopen. destruct (decide (b = a)) as [->|Hn].
    + rewrite list_lookup_insert_eq in Hb by done. injection Hb as <-. rewrite Hf. apply Hl; [done|congruence].
    + rewrite list_lookup_insert_ne in Hb by done. by apply Hl.
Qed.

(** Changing how many lanes share a subscription. *)
Lemma subs_ok_lanes fs cs id sub n :
  subs_ok fs cs -> fs !! id = Some sub -> subs_ok (<[id := mkSub (sub_frames sub) n]> fs) cs.
Proof.
  intros [Ho Hl] Hid. split.
  - intros id' sub' Hs. apply lookup_insert_Some in Hs as [[<- <-]|[Hn Hs]]; [exact (Ho _ _ Hid)|by apply Ho].
  - intros a c Ha Hopen. destruct (Hl _ _ Ha Hopen) as (s1 & H1 & H2).
    destruct (decide (ch_flow c = id)) as [<-|Hn].
    + exists (mkSub (sub_frames sub) n). rewrite lookup_insert_eq. split; [done|]. cbn. congruence.
    + exists s1. by rewrite lookup_insert_ne.
Qed.

(** A new channel for a flow that had none. *)
Lemma subs_ok_fresh fs cs id c n :
  subs_ok fs cs -> fs !! id = None -> ch_closed c = false -> ch_flow c = id ->
  subs_ok (<[id := mkSub (length cs) n]> fs) (cs ++ [c]).
Proof.
  intros [Ho Hl] Hid Hc Hf. split.
  - intros id' sub' Hs. apply lookup_insert_Some in Hs as [[<- <-]|[Hn Hs]].
    + exists c. cbn. by rewrite lookup_app_r, Nat.sub_diag.
    + destruct (Ho _ _ Hs) as (c1 & H1 & H2). exists c1. split; [|done]. by apply lookup_app_l_Some.
  - intros a c1 Ha Hopen. apply lookup_app_Some in Ha as [Ha|[Hge Ha]].
    + destruct (Hl _ _ Ha Hopen) as (s1 & H1 & H2). exists s1. split; [|done].
      rewrite lookup_insert_ne; [done|]. intros Heq. congruence.
    + assert (a = length cs /\ c1 = c) as [-> ->].
      { apply list_lookup_singleton_Some in Ha as [H <-]. split; [lia|done]. }
      exists (mkSub (length cs) n). by rewrite Hf, lookup_insert_eq.
Qed.

(** ** What is held *)

Lemma msum_omap_le {A} (f : Z -> A -> Z) (g : A -> option A) (m : gmap Z A) :
  (forall k a, 0 <= f k a) -> (forall k a b, g a = Some b -> f k b <= f k a) -> msum f (omap g m) <= msum f m.
Proof.
  intros Hp Hg. induction m as [|k a m Hk IH] using map_ind; [by rewrite omap_empty|].
  rewrite msum_insert by done. assert (Hn : omap g m !! k = None) by (by rewrite lookup_omap, Hk).
  destruct (g a) as [b|] eqn:E.
  - rewrite (omap_insert_Some _ _ _ _ b), msum_insert by done. specialize (Hg k _ _ E). lia.
  - rewrite omap_insert_None, delete_id by done. specialize (Hp k a). lia.
Qed.

Definition payload_bytes (l : list heldFrame) : Z := sumZ (map (fun h => len (f_Payload (hf_frame h))) l).

Lemma payload_bytes_nonneg l : 0 <= payload_bytes l.
Proof. apply sumZ_nonneg. apply Forall_fmap, Forall_true. intros h. apply len_nonneg. Qed.

Lemma filter_held_le p l : len (List.filter p l) <= len l /\ payload_bytes (List.filter p l) <= payload_bytes l.
Proof.
  induction l as [|h l [IH1 IH2]]; [done|]. cbn [List.filter]. unfold payload_bytes in *. pose proof (len_nonneg (f_Payload (hf_frame h))).
  destruct (p h); cbn [map sumZ foldr] in *; rewrite ?len_cons; unfold sumZ in *; lia.
Qed.

Lemma unexpired_lookup now m id :
  default [] (unexpired now m !! id) = List.filter (fun h => now - hf_at h <=? heldFrameLifetime) (default [] (m !! id)).
Proof.
  unfold unexpired. rewrite lookup_omap. destruct (m !! id) as [l|]; cbn; [|done].
  by destruct (List.filter _ l).
Qed.

Lemma unexpired_none now m id : m !! id = None -> unexpired now m !! id = None.
Proof. intros H. unfold unexpired. by rewrite lookup_omap, H. Qed.

Lemma filter_sublist {A} (p : A -> bool) l : sublist (List.filter p l) l.
Proof. induction l as [|x l IH]; cbn; [done|]. destruct (p x); by constructor. Qed.

Lemma unexpired_waiting now m id : sublist (waiting_frames id (unexpired now m)) (waiting_frames id m).
Proof. unfold waiting_frames. rewrite unexpired_lookup. apply fmap_sublist, filter_sublist. Qed.

Lemma unexpired_totals now m :
  held_frames_total (unexpired now m) <= held_frames_total m /\ held_bytes_total (unexpired now m) <= held_bytes_total m.
Proof.
  split; apply msum_omap_le; try (intros _ l; apply len_nonneg || apply payload_bytes_nonneg);
    intros _ l b; pose proof (filter_held_le (fun h => now - hf_at h <=? heldFrameLifetime) l) as [H1 H2];
    destruct (List.filter _ l) eqn:E; intros Hb; try done; injection Hb as <-; assumption.
Qed.

(** Adding one frame to what is held for a flow. *)
Lemma held_totals_add m id h :
  let m' := <[id := default [] (m !! id) ++ [h]]> m in
  held_frames_total m' = held_frames_total m + 1 /\
  held_bytes_total m' = held_bytes_total m + len (f_Payload (hf_frame h)).
Proof.
  intros m'. unfold m', held_frames_total, held_bytes_total. destruct (m !! id) as [l|] eqn:E; cbn [default].
  - change (Datatypes.id l) with l. rewrite !(msum_update _ _ _ _ _ E), len_app, map_app, sumZ_app. split; [change (len [h]) with 1|cbn]; lia.
  - rewrite !msum_insert by done. split; [change (len ([] ++ [h])) with 1|cbn]; lia.
Qed.

(** What [holdLocked] does with the frame. *)
Lemma holdLocked_spec d now f : demux_ok d ->
  flows (holdLocked d now f) = flows d /\ chans (holdLocked d now f) = chans d /\ sent (holdLocked d now f) = sent d /\
  arrivals (holdLocked d now f) = arrivals d /\ queueFrames (holdLocked d now f) = queueFrames d /\
  heldFrames (holdLocked d now f) = heldFrames d /\ heldBytes (holdLocked d now f) = heldBytes d /\
  held_of (holdLocked d now f) =
    (let m := unexpired now (held_of d) in
     if (held_frames_total m <? heldFrames d) && (held_bytes_total m + len (f_Payload f) <=? heldBytes d)
     then <[flow_of f := default [] (m !! flow_of f) ++ [mkHeld f now]]> m else m).
Proof.
  intros Hok. pose proof (dk_limits _ Hok) as (_ & H2 & H3). unfold holdLocked.
  replace (heldFrames d <=? 0) with false by lia. replace (heldBytes d <=? 0) with false by lia. cbv zeta.
  set (m := unexpired now (held_of d)).
  destruct (held_frames_total m <? heldFrames d) eqn:E1; destruct (held_bytes_total m + len (f_Payload f) <=? heldBytes d) eqn:E2;
    cbn [andb]; destruct (_ || _) eqn:E3; try done; bool_to_prop; lia.
Qed.

(** ** Every operation keeps the invariant and does not panic *)

Lemma order_ok_arrival arr s m f : order_ok arr s m -> order_ok (arr ++ [f]) s m.
Proof. intros H id. rewrite of_flow_app. apply sublist_inserts_r, H. Qed.

Lemma order_ok_held arr s m m' :
  order_ok arr s m -> (forall id, sublist (waiting_frames id m') (waiting_frames id m)) -> order_ok arr s m'.
Proof. intros H Hs id. etrans; [|apply H]. by apply sublist_app. Qed.

Lemma map_snd_pair {A B} (a : A) (l : list B) : map snd (map (pair a) l) = l.
Proof. rewrite map_map. cbn. apply map_id. Qed.

Lemma note_arrival_ok d f : demux_ok d -> demux_ok (note_arrival d f).
Proof. intros [? ? ? ? ? ? ?]. split; cbn; try done. by apply order_ok_arrival. Qed.

(** The next frame of a subscribed flow goes to its channel. *)
Lemma send_ok d f sub : demux_ok d -> flows d !! flow_of f = Some sub ->
  exists d', try_send (note_arrival d f) (sub_frames sub) f = Some d' /\ demux_ok d'.
Proof.
  intros Hok Hs. pose proof (note_arrival_ok d f Hok) as Hok1. destruct (sk_open _ _ (dk_subs _ Hok) _ _ Hs) as (c & Hc & Hcl & Hfl).
  destruct (try_send_spec (note_arrival d f) _ c f (dk_chans _ Hok1) Hc Hcl Hfl) as (c' & l & -> & Hch & Hcl' & Hfl' & _ & _ & Hl).
  eexists. split; [reflexivity|]. destruct Hok1 as [H1 H2 H3 H4 H5 H6 H7].
  split; cbn [set_chans chans sent flows held_of arrivals queueFrames heldFrames heldBytes]; try done.
  - eapply subs_ok_same; [exact H2|exact Hc|congruence|done].
  - intros id. specialize (dk_order _ Hok id) as Ho. cbn [note_arrival arrivals]. rewrite given_to_app, of_flow_app.
    unfold given_to at 2. rewrite map_snd_pair. destruct (decide (id = flow_of f)) as [->|Hn].
    + assert (Hw : waiting_frames (flow_of f) (held_of d) = []).
      { unfold waiting_frames. by rewrite (dk_apart _ Hok _ _ Hs). }
      change (held_of (note_arrival d f)) with (held_of d). rewrite Hw, app_nil_r in *.
      destruct (_ <? _); subst l; [by apply sublist_app|]. rewrite app_nil_r. by apply sublist_inserts_r.
    + rewrite (of_flow_other _ f) by done. rewrite app_nil_r.
      replace (of_flow id l) with (@nil Frame); [by rewrite app_nil_r|].
      destruct (_ <? _); subst l; [|done]. symmetry. by apply of_flow_other.
Qed.

(** A frame of a flow that has not subscribed is held, if there is room. *)
Lemma hold_ok d now f : demux_ok d -> flows d !! flow_of f = None -> demux_ok (holdLocked (note_arrival d f) now f).
Proof.
  intros Hok Hs. pose proof (note_arrival_ok d f Hok) as Hok1.
  destruct (holdLocked_spec _ now f Hok1) as (Hf & Hc & Hsn & Ha & Hq & H8 & H9 & Hh).
  pose proof (unexpired_totals now (held_of d)) as [Ht1 Ht2]. destruct Hok as [K1 K2 K3 K4 K5 K6 K7].
  set (m := unexpired now (held_of d)) in *. cbn [note_arrival held_of heldFrames heldBytes flows chans sent arrivals queueFrames] in *.
  assert (Hw : forall id, sublist (waiting_frames id m) (waiting_frames id (held_of d))) by (intros; apply unexpired_waiting).
  split; rewrite ?Hf, ?Hc, ?Hsn, ?Ha, ?Hq, ?H8, ?H9, ?Hh; cbv zeta; try done; fold m.
  - intros id sub Hid. pose proof (unexpired_none now _ _ (K3 _ _ Hid)) as Hn. fold m in Hn.
    destruct (_ && _); [|done]. rewrite lookup_insert_ne; [done|]. intros <-. congruence.
  - destruct (_ && _); [|by eapply order_ok_held, Hw; apply order_ok_arrival].
    intros id. specialize (K4 id). rewrite of_flow_app. destruct (decide (id = flow_of f)) as [->|Hn].
    + unfold waiting_frames at 1. rewrite lookup_insert_eq. cbn [default from_option Datatypes.id]. unfold Datatypes.id.
      rewrite map_app, app_assoc, of_flow_same. apply sublist_app; [|done]. etrans; [|exact K4]. apply sublist_app; [done|apply Hw].
    + unfold waiting_frames at 1. rewrite lookup_insert_ne by done. apply sublist_inserts_r.
      etrans; [|exact K4]. apply sublist_app; [done|apply Hw].
  - pose proof (held_totals_add m (flow_of f) (mkHeld f now)) as [E1 _]. destruct (_ && _) eqn:E; [|lia]. fold m in E. bool_to_prop. lia.
  - pose proof (held_totals_add m (flow_of f) (mkHeld f now)) as [_ E2]. destruct (_ && _) eqn:E; [|lia]. fold m in E. bool_to_prop. cbn in E2. lia.
Qed.

Lemma run_turn_ok d now payload : demux_ok d -> exists d', run_turn d now payload = Some d' /\ demux_ok d'.
Proof.
  intros Hok. unfold run_turn. destruct (ParseFrameOwned payload) as [f|]; [|by eauto]. cbv zeta.
  change (h_FlowID (f_Header f)) with (flow_of f). change (flows (note_arrival d f)) with (flows d).
  destruct (flows d !! flow_of f) as [sub|] eqn:E; [by apply send_ok|]. eexists. split; [reflexivity|]. by apply hold_ok.
Qed.

(** Taking a flow out of the map and closing its channel. *)
Lemma close_flow_ok d id sub : demux_ok d -> flows d !! id = Some sub ->
  exists d', close_chan d (sub_frames sub) = Some d' /\ demux_ok (set_flows d' (delete id (flows d'))) /\ flows d' = flows d /\
    close_chan (set_flows d (delete id (flows d))) (sub_frames sub) = Some (set_flows d' (delete id (flows d'))).
Proof.
  intros Hok Hs. destruct (sk_open _ _ (dk_subs _ Hok) _ _ Hs) as (c & Hc & Hcl & Hfl).
  destruct (close_chan_spec d _ c (dk_chans _ Hok) Hc Hcl) as (c' & E & Hch & Hcl' & Hfl').
  exists (set_chans d (<[sub_frames sub := c']> (chans d)) (sent d)). split; [done|]. split; [|split; [done|]].
  - destruct Hok as [H1 H2 H3 H4 H5 H6 H7]. split; cbn; try done.
    + eapply subs_ok_closed; [exact H2|exact Hs|exact Hc|done|congruence].
    + intros id' sub' Hid. apply lookup_delete_Some in Hid as [_ Hid]. by eapply H3.
  - unfold close_chan in *. cbn [set_flows chans sent]. rewrite Hc, Hcl in *.
    assert (E' := f_equal (option_map chans) E). cbn in E'. injection E' as E'. unfold set_chans. cbn. by rewrite <- E'.
Qed.

Lemma run_end_ok order : forall d, demux_ok d -> (forall id sub, flows d !! id = Some sub -> id ∈ order) ->
  exists d', run_end d order = Some d' /\ demux_ok d' /\ flows d' = ∅.
Proof.
  induction order as [|id order IH]; intros d Hok Hin; cbn [run_end].
  { exists d. split; [done|]. split; [done|]. apply map_empty. intros id. destruct (flows d !! id) eqn:E; [|done].
    exfalso. apply Hin in E. by apply elem_of_nil in E. }
  destruct (flows d !! id) as [sub|] eqn:E.
  - destruct (close_flow_ok d id sub Hok E) as (d1 & -> & Hok1 & Hf & _). apply IH; [done|].
    cbn. intros id' sub' Hid. apply lookup_delete_Some in Hid as [Hne Hid]. rewrite Hf in Hid.
    apply Hin, elem_of_cons in Hid as [|]; [congruence|done].
  - apply IH; [done|]. intros id' sub' Hid. pose proof (Hin _ _ Hid) as Hi. apply elem_of_cons in Hi as [->|]; [congruence|done].
Qed.

Lemma demux_release_ok d id : demux_ok d -> exists d', release d id = Some d' /\ demux_ok d'.
Proof.
  intros Hok. unfold release. destruct (flows d !! id) as [sub|] eqn:E; [|by eauto]. cbv zeta. destruct (_ >? 0).
  - eexists. split; [reflexivity|]. destruct Hok as [H1 H2 H3 H4 H5 H6 H7]. split; cbn; try done.
    + by apply subs_ok_lanes.
    + intros id' sub' Hid. apply lookup_insert_Some in Hid as [[<- _]|[_ Hid]]; by eapply H3.
  - destruct (close_flow_ok d id sub Hok E) as (d1 & _ & Hok1 & _ & E1). by eauto.
Qed.

Lemma recv_ok d a f d' : demux_ok d -> recv d a = Some (f, d') -> demux_ok d'.
Proof.
  unfold recv. intros Hok Hr. destruct (chans d !! a) as [c|] eqn:E; [|done].
  destruct (ch_queue c) as [|f' rest] eqn:Eq; [done|]. injection Hr as <- <-.
  pose proof (Forall_lookup_1 _ _ _ _ (ck_room _ _ (dk_chans _ Hok)) E) as Hr. cbn in Hr. rewrite Eq, len_cons in Hr.
  destruct Hok as [H1 H2 H3 H4 H5 H6 H7]. split; cbn; try done.
  - replace (sent d) with (sent d ++ map (pair a) (@nil Frame)) by apply app_nil_r.
    eapply chans_ok_update; cbn; [exact H1|exact E|done|lia| |constructor]. by rewrite Eq, app_nil_r, <- app_assoc.
  - by eapply subs_ok_same.
Qed.

Lemma chans_ok_fresh cs s c : chans_ok cs s -> ch_taken c = [] -> ch_queue c = [] -> 0 <= ch_cap c -> chans_ok (cs ++ [c]) s.
Proof.
  intros [H1 H2 H3] Ht Hq Hcap. split.
  - apply Forall_app. split; [done|]. constructor; [|constructor]. rewrite Hq, len_nil. done.
  - intros a c1 Ha. apply lookup_app_Some in Ha as [Ha|[Hge Ha]]; [by apply H2|].
    apply list_lookup_singleton_Some in Ha as [Hz <-]. rewrite Ht, Hq. cbn.
    clear -H3 Hge. induction H3 as [|e s (c1 & He & _) Hs IH]; [done|]. unfold into_chan in *. cbn.
    apply lookup_lt_Some in He. by replace (fst e =? a)%nat with false by (symmetry; apply Nat.eqb_neq; lia).
  - eapply Forall_impl; [exact H3|]. intros e (c1 & He & Hf). exists c1. split; [by apply lookup_app_l_Some|done].
Qed.

Lemma held_flow d id : demux_ok d -> Forall (fun h => id = flow_of (hf_frame h)) (default [] (held_of d !! id)).
Proof.
  intros Hok. apply Forall_forall. intros h Hh. pose proof (dk_order _ Hok id) as Ho. symmetry. eapply elem_of_flow.
  eapply sublist_subseteq; [exact Ho|]. apply elem_of_app. right. unfold waiting_frames. by apply list_elem_of_fmap_2.
Qed.

Lemma held_totals_delete m id :
  held_frames_total (delete id m) <= held_frames_total m /\ held_bytes_total (delete id m) <= held_bytes_total m.
Proof.
  destruct (m !! id) as [l|] eqn:E; [|by rewrite delete_id].
  unfold held_frames_total, held_bytes_total. rewrite !(msum_delete _ m id l E).
  pose proof (len_nonneg l). pose proof (payload_bytes_nonneg l). unfold payload_bytes in *. lia.
Qed.

(** A flow that subscribes first gets a channel with what was held for it. *)
Lemma subscribe_fresh d id : demux_ok d -> flows d !! id = None ->
  exists d' c, subscribe d id = Some (length (chans d), d') /\ demux_ok d' /\ chans d' !! length (chans d) = Some c /\
    (len (waiting_frames id (held_of d)) <= queueFrames d -> ch_queue c = waiting_frames id (held_of d)).
Proof.
  intros Hok Hs. unfold subscribe. rewrite Hs. pose proof (dk_limits _ Hok) as (Hq & _).
  replace (queueFrames d <=? 0) with false by lia. cbv zeta.
  set (fresh := mkChan id (queueFrames d) [] false []). set (a := length (chans d)).
  set (d1 := set_flows _ _). pose proof (held_flow d id Hok) as Hl. destruct Hok as [H1 H2 H3 H4 H5 H6 H7].
  assert (Hch1 : chans_ok (chans d1) (sent d1)) by (apply chans_ok_fresh; [done..|cbn; lia]).
  assert (Ha1 : chans d1 !! a = Some fresh) by (cbn; unfold a; by rewrite lookup_app_r, Nat.sub_diag).
  destruct (send_held_spec (default [] (held_of d1 !! id)) d1 a fresh Hch1 Ha1 eq_refl Hl) as
    (c & k & -> & Hch & Hcl & Hfl & Hqc & Hk & Hall).
  eexists _, c. split; [reflexivity|]. cbn [set_chans set_held set_flows chans d1 flows held_of sent arrivals queueFrames heldFrames heldBytes] in *.
  assert (Hlt : (a < length (chans d ++ [fresh]))%nat) by (rewrite length_app; cbn; unfold a; lia).
  assert (Hkf : Forall (fun f => flow_of f = id) k).
  { apply Forall_forall. intros f Hf. eapply sublist_subseteq, list_elem_of_fmap in Hf as (h & -> & Hh); [|exact Hk].
    rewrite Forall_forall in Hl. symmetry. by apply Hl. }
  pose proof (held_totals_delete (held_of d) id) as [Ht1 Ht2].
  split; [split; cbn [set_chans set_held set_flows chans d1 flows held_of sent arrivals queueFrames heldFrames heldBytes]; try done|].
  - rewrite insert_insert_eq. eapply subs_ok_same; [by apply subs_ok_fresh|exact Ha1|done|done].
  - intros id' sub' Hid. rewrite insert_insert_eq in Hid. apply lookup_insert_Some in Hid as [[<- _]|[Hne Hid]].
    + apply lookup_delete_eq.
    + rewrite lookup_delete_ne by done. by eapply H3.
  - intros id'. specialize (H4 id'). rewrite given_to_app. unfold given_to at 2. rewrite map_snd_pair, <- app_assoc.
    unfold waiting_frames at 1. destruct (decide (id' = id)) as [->|Hn].
    + rewrite lookup_delete_eq. cbn [default from_option map]. rewrite app_nil_r, of_flow_all by done.
      etrans; [|exact H4]. by apply sublist_app.
    + rewrite (of_flow_none id' id) by done. by rewrite lookup_delete_ne.
  - lia.
  - lia.
  - split; [by rewrite list_lookup_insert_eq|]. intros Hfit. rewrite Hqc. cbn [fresh ch_queue app]. apply Hall.
    unfold waiting_frames, len in *. rewrite length_map in Hfit. cbn [fresh ch_queue ch_cap length]. lia.
Qed.

Lemma subscribe_ok d id : demux_ok d -> exists a d', subscribe d id = Some (a, d') /\ demux_ok d'.
Proof.
  intros Hok. destruct (flows d !! id) as [sub|] eqn:E.
  - unfold subscribe. rewrite E. eexists _, _. split; [reflexivity|].
    destruct Hok as [H1 H2 H3 H4 H5 H6 H7]. split; cbn; try done.
    + by apply subs_ok_lanes.
    + intros id' sub' Hid. apply lookup_insert_Some in Hid as [[<- _]|[_ Hid]]; by eapply H3.
  - destruct (subscribe_fresh d id Hok E) as (d' & c & H1 & H2 & _). by eauto.
Qed.

Lemma demux_ok_New n : demux_ok (newBulkDemux n).
Proof.
  unfold newBulkDemux. set (q := if (n <? 1) || _ then _ else n).
  assert (Hq : 0 < q <= 256) by (unfold q, maxBulkQueueFrames; destruct (_ || _) eqn:E; [lia|]; bool_to_prop; unfold maxBulkQueueFrames in *; lia).
  split; cbn; try done.
  - intros id. constructor.
  - change maxHeldFrames with 256. change maxHeldBytes with 1048576. change MaxPayload with 131072. clearbody q. lia.
  - unfold held_frames_total. rewrite msum_empty. change maxHeldFrames with 256. clearbody q. lia.
  - unfold held_bytes_total. rewrite msum_empty.
    change maxHeldFrames with 256. change maxHeldBytes with 1048576. change MaxPayload with 131072. clearbody q. lia.
Qed.

Lemma demux_ok_step d d' : demux_ok d -> demux_step d d' -> demux_ok d'.
Proof.
  intros Hok Hstep. destruct Hstep as [d0 now payload d1 E|d0 order d1 Hp E|d0 id a d1 E|d0 id d1 E|d0 a f d1 E].
  - destruct (run_turn_ok d0 now payload Hok) as (x & Hx & ?). congruence.
  - destruct (run_end_ok order d0 Hok) as (x & Hx & ? & _); [|congruence].
    intros id sub Hs. rewrite Hp. apply list_elem_of_fmap. exists (id, sub). split; [done|]. by apply elem_of_map_to_list.
  - destruct (subscribe_ok d0 id Hok) as (b & x & Hx & ?). congruence.
  - destruct (demux_release_ok d0 id Hok) as (x & Hx & ?). congruence.
  - by eapply recv_ok.
Qed.

Lemma demux_reachable n d : steps demux_step (newBulkDemux n) d -> demux_ok d.
Proof. intros Hs. eapply (steps_invariant _ demux_ok); [intros ??; apply demux_ok_step|apply demux_ok_New|exact Hs]. Qed.

(** C16: coded frames reach their flow, once, in order, in bounded memory.
    However frames arrive, flows subscribe, let go and read, and the path ends, no
    operation panics on a channel; what the channels made for a flow were given,
    taken together, is a subsequence of that flow's frames in the order they
    arrived, and a channel holds or has handed out exactly what it was given,
    within its capacity; what is held for flows not yet known stays within 256
    frames and one mebibyte; and the end of the path leaves no channel open. *)
Theorem bulk_demux_routes n d :
  steps demux_step (newBulkDemux n) d ->
  (forall now payload, exists d', run_turn d now payload = Some d') /\
  (forall id, (exists a d', subscribe d id = Some (a, d')) /\ exists d', release d id = Some d') /\
  (forall order, order ≡ₚ (map_to_list (flows d)).*1 -> exists d', run_end d order = Some d' /\
     forall c, c ∈ chans d' -> ch_closed c = true) /\
  (forall id, sublist (given_to id (sent d)) (of_flow id (arrivals d))) /\
  (forall a c, chans d !! a = Some c ->
     ch_taken c ++ ch_queue c = into_chan a (sent d) /\ len (ch_queue c) <= ch_cap c /\
     Forall (fun f => flow_of f = ch_flow c) (into_chan a (sent d))) /\
  held_frames_total (held_of d) <= maxHeldFrames /\ held_bytes_total (held_of d) <= maxHeldBytes.
Proof.
  intros Hs. pose proof (demux_reachable n d Hs) as Hok. split.
  { intros now payload. destruct (run_turn_ok d now payload Hok) as (d' & H & _). by exists d'. }
  split.
  { intros id. split; [|destruct (demux_release_ok d id Hok) as (d' & H & _); by exists d'].
    destruct (subscribe_ok d id Hok) as (a & d' & H & _). by exists a, d'. }
  split.
  { intros order Hp. destruct (run_end_ok order d Hok) as (d' & H & Hok' & He).
    - intros id sub Hid. rewrite Hp. apply list_elem_of_fmap. exists (id, sub). split; [done|]. by apply elem_of_map_to_list.
    - exists d'. split; [done|]. intros c Hc. apply list_elem_of_lookup in Hc as [a Ha]. destruct (ch_closed c) eqn:E; [done|].
      destruct (sk_live _ _ (dk_subs _ Hok') _ _ Ha E) as (sub & Hsub & _). by rewrite He, lookup_empty in Hsub. }
  split; [intros id; etrans; [|apply (dk_order _ Hok id)]; by apply sublist_inserts_r|].
  pose proof (dk_limits _ Hok) as (_ & H2 & H3). pose proof (dk_frames _ Hok). pose proof (dk_bytes _ Hok).
  split; [|lia]. intros a c Ha. destruct (dk_chans _ Hok) as [Hr Hsn Hfl]. split; [by apply Hsn|].
  split; [by apply (Forall_lookup_1 _ _ _ _ Hr Ha)|]. unfold into_chan. apply Forall_fmap, Forall_forall.
  intros e He. apply list_elem_of_In, filter_In in He as [He Hea]. apply Nat.eqb_eq in Hea. rewrite Forall_forall in Hfl.
  apply list_elem_of_In, Hfl in He as (c' & Hc' & Hf). rewrite Hea, Ha in Hc'. injection Hc' as <-. done.
Qed.

(** ** A frame that arrives before its flow *)

(** What may happen up to [deadline] before the flow subscribes. *)
Inductive early_step (id deadline : Z) : bulkDemux -> bulkDemux -> Prop :=
| es_turn d now payload d' : now <= deadline -> run_turn d now payload = Some d' -> early_step id deadline d d'
| es_subscribe d id' a d' : id' <> id -> subscribe d id' = Some (a, d') -> early_step id deadline d d'
| es_release d id' d' : release d id' = Some d' -> early_step id deadline d d'
| es_recv d a f d' : recv d a = Some (f, d') -> early_step id deadline d d'.

Definition still_held (id : Z) (h : heldFrame) (d : bulkDemux) : Prop :=
  demux_ok d /\ flows d !! id = None /\ h ∈ default [] (held_of d !! id).

Lemma try_send_keeps d a f d' : try_send d a f = Some d' -> flows d' = flows d /\ held_of d' = held_of d.
Proof.
  unfold try_send. destruct (chans d !! a) as [c|]; [|done]. destruct (ch_closed c); [done|].
  destruct (_ <? _); intros E; by injection E as <-.
Qed.

Lemma close_chan_keeps d a d' : close_chan d a = Some d' -> flows d' = flows d /\ held_of d' = held_of d.
Proof. unfold close_chan. destruct (chans d !! a) as [c|]; [|done]. destruct (ch_closed c); [done|]. intros E. by injection E as <-. Qed.

Lemma unexpired_keeps id h now m :
  h ∈ default [] (m !! id) -> now - hf_at h <= heldFrameLifetime -> h ∈ default [] (unexpired now m !! id).
Proof.
  intros Hin Ht. rewrite unexpired_lookup. apply list_elem_of_In, filter_In. split; [by apply list_elem_of_In|]. lia.
Qed.

Lemma turn_keeps id h deadline d now payload d' :
  still_held id h d -> now <= deadline -> deadline <= hf_at h + heldFrameLifetime -> run_turn d now payload = Some d' ->
  still_held id h d'.
Proof.
  intros (Hok & Hf & Hh) Ht Hd E. destruct (run_turn_ok d now payload Hok) as (x & Hx & Hok'). rewrite E in Hx. injection Hx as <-.
  split; [done|]. unfold run_turn in E. destruct (ParseFrameOwned payload) as [f|]; [|by injection E as <-].
  cbv zeta in E. destruct (flows (note_arrival d f) !! _) as [sub|].
  - apply try_send_keeps in E as [-> ->]. done.
  - injection E as <-. destruct (holdLocked_spec _ now f (note_arrival_ok d f Hok)) as (-> & _ & _ & _ & _ & _ & _ & ->).
    cbn [note_arrival flows held_of]. split; [done|]. cbv zeta.
    assert (Hk : h ∈ default [] (unexpired now (held_of d) !! id)) by (apply unexpired_keeps; [done|lia]).
    destruct (_ && _); [|done]. destruct (decide (flow_of f = id)) as [->|Hn].
    + rewrite lookup_insert_eq. cbn. apply elem_of_app. by left.
    + by rewrite lookup_insert_ne.
Qed.

Lemma early_keeps id h deadline d d' :
  deadline <= hf_at h + heldFrameLifetime -> still_held id h d -> early_step id deadline d d' -> still_held id h d'.
Proof.
  intros Hd Hs Hstep. destruct Hstep as [d now payload d' Ht E|d id' a d' Hn E|d id' d' E|d a f d' E].
  { by eapply turn_keeps. }
  all: destruct Hs as (Hok & Hf & Hh); split; [eapply demux_ok_step; [exact Hok|by econstructor]|].
  - unfold subscribe in E. destruct (flows d !! id') as [sub|] eqn:Es.
    + injection E as <- <-. cbn. by rewrite lookup_insert_ne.
    + cbv zeta in E. destruct (send_held _ _ _) as [d1|] eqn:El; [|done]. injection E as <- <-. cbn.
      assert (Hk : forall l d0 a0 d2, send_held d0 a0 l = Some d2 -> flows d2 = flows d0 /\ held_of d2 = held_of d0).
      { clear. induction l as [|x l IH]; intros d0 a0 d2 E; cbn in E; [by injection E as <-|].
        destruct (try_send d0 a0 (hf_frame x)) as [d1|] eqn:Et; [|done]. apply try_send_keeps in Et as [<- <-]. by eapply IH. }
      apply Hk in El as [-> ->]. cbn. rewrite !lookup_insert_ne, lookup_delete_ne by done. done.
  - unfold release in E. destruct (flows d !! id') as [sub|] eqn:Es; [|by injection E as <-]. cbv zeta in E.
    assert (id' <> id) by congruence. destruct (_ >? 0).
    + injection E as <-. cbn. by rewrite lookup_insert_ne.
    + apply close_chan_keeps in E as [-> ->]. cbn. by rewrite lookup_delete_ne.
  - unfold recv in E. destruct (chans d !! a) as [c|]; [|done]. destruct (ch_queue c); [done|]. by injection E as _ <-.
Qed.

(** A frame that outruns its flow is not lost.  A frame that arrives for a
    flow not yet known, while the hold has room, is in the flow's channel as soon
    as the flow subscribes, whatever else arrives within the two seconds and
    whatever other flows do meanwhile, provided no more frames wait for the flow
    than its channel holds. *)
Theorem early_frame_reaches_flow n d now payload f d1 d2 :
  steps demux_step (newBulkDemux n) d -> ParseFrameOwned payload = Ok f -> flows d !! flow_of f = None ->
  held_frames_total (unexpired now (held_of d)) < heldFrames d ->
  held_bytes_total (unexpired now (held_of d)) + len (f_Payload f) <= heldBytes d ->
  run_turn d now payload = Some d1 -> steps (early_step (flow_of f) (now + heldFrameLifetime)) d1 d2 ->
  len (waiting_frames (flow_of f) (held_of d2)) <= queueFrames d2 ->
  exists a d3 c, subscribe d2 (flow_of f) = Some (a, d3) /\ chans d3 !! a = Some c /\ f ∈ ch_queue c.
Proof.
  intros Hs Hp Hf H1 H2 Hr Hsteps Hfit. pose proof (demux_reachable n d Hs) as Hok.
  assert (Hh : still_held (flow_of f) (mkHeld f now) d1).
  { destruct (run_turn_ok d now payload Hok) as (x & Hx & Hok1). rewrite Hr in Hx. injection Hx as <-. split; [done|].
    unfold run_turn in Hr. rewrite Hp in Hr. cbv zeta in Hr. change (h_FlowID (f_Header f)) with (flow_of f) in Hr.
    change (flows (note_arrival d f)) with (flows d) in Hr. rewrite Hf in Hr. injection Hr as <-.
    destruct (holdLocked_spec _ now f (note_arrival_ok d f Hok)) as (-> & _ & _ & _ & _ & _ & _ & ->).
    cbn [note_arrival flows held_of heldFrames heldBytes]. split; [done|]. cbv zeta.
    replace (_ && _) with true by (symmetry; apply andb_true_iff; lia). rewrite lookup_insert_eq. cbn.
    apply elem_of_app. right. by apply list_elem_of_singleton. }
  assert (Hh2 : still_held (flow_of f) (mkHeld f now) d2).
  { eapply (steps_invariant _ (still_held _ _)); [|exact Hh|exact Hsteps]. intros ??. apply early_keeps. cbn. lia. }
  destruct Hh2 as (Hok2 & Hf2 & Hin). destruct (subscribe_fresh d2 _ Hok2 Hf2) as (d3 & c & E & _ & Hc & Hq).
  exists (length (chans d2)), d3, c. split; [done|]. split; [done|]. rewrite Hq by done. unfold waiting_frames.
  by apply (list_elem_of_fmap_2 hf_frame) in Hin.
Qed.

(** A lane's stream is closed, which drops its path from the table, before the
    reader of its coded frames notices and lets go; letting go then puts the path
    back with a new demultiplexer, and nothing drops it again. *)
Theorem release_after_drop_registers r p n flowID :
  exists r', releaseBulk (dropBulkDemux r (Some p)) (Some p) n flowID = Some r' /\
    bulkDemuxs r' !! p = Some (length (demuxes r)) /\ length (demuxes r') = S (length (demuxes r)).
Proof.
  unfold releaseBulk, connBulkDemux, dropBulkDemux. cbn [bulkDemuxs demuxes]. rewrite lookup_delete_eq.
  cbn [demuxes bulkDemuxs]. rewrite lookup_app_r, Nat.sub_diag by done. cbn.
  eexists. split; [reflexivity|]. cbn. rewrite lookup_insert_eq, length_insert, length_app. cbn. split; [done|lia].
Qed.

(** ** Witnesses *)

(** The sample frame for another flow. *)
Definition sample_frame_6 : Frame := mkFrame (mkHeader Version TypeData 0 (replicate 16 7) 6 0 0 ClassBulk) [4; 5].

Definition or_same (d : bulkDemux) (o : option bulkDemux) : bulkDemux := default d o.
Definition demux_0 : bulkDemux := newBulkDemux 4.
Definition demux_1 : bulkDemux := or_same demux_0 (run_turn demux_0 10 (frame_image sample_frame)).
Definition demux_2 : bulkDemux := or_same demux_1 (run_turn demux_1 20 (frame_image sample_frame_6)).
Definition demux_3 : bulkDemux := match subscribe demux_2 5 with Some (_, d) => d | None => demux_2 end.

Lemma demux_3_reachable : steps demux_step (newBulkDemux 4) demux_3.
Proof.
  eapply steps_trans; [apply steps_one, (dm_turn _ 10 (frame_image sample_frame) demux_1); vm_compute; reflexivity|].
  eapply steps_trans; [apply steps_one, (dm_turn _ 20 (frame_image sample_frame_6) demux_2); vm_compute; reflexivity|].
  apply steps_one, (dm_subscribe _ 5 0%nat). vm_compute. reflexivity.
Qed.

Lemma bulk_demux_routes_witness :
  sent demux_3 = [(0%nat, mkFrame (sent_header sample_frame) [1; 2; 3])] /\ held_frames_total (held_of demux_3) = 1 /\
  sublist (given_to 5 (sent demux_3)) (of_flow 5 (arrivals demux_3)).
Proof.
  split; [vm_compute; reflexivity|]. split; [vm_compute; reflexivity|].
  exact (proj1 (proj2 (proj2 (proj2 (bulk_demux_routes 4 demux_3 demux_3_reachable)))) 5).
Defined.

Lemma early_frame_reaches_flow_witness :
  exists a d3 c, subscribe demux_2 5 = Some (a, d3) /\ chans d3 !! a = Some c /\
    mkFrame (sent_header sample_frame) [1; 2; 3] ∈ ch_queue c.
Proof.
  refine (early_frame_reaches_flow 4 demux_0 10 (frame_image sample_frame) (mkFrame (sent_header sample_frame) [1; 2; 3])
    demux_1 demux_2 _ _ _ _ _ _ _ _).
  - apply steps_refl.
  - vm_compute. reflexivity.
  - reflexivity.
  - vm_compute. reflexivity.
  - vm_compute. discriminate.
  - vm_compute. reflexivity.
  - apply steps_one, (es_turn _ _ _ 20 (frame_image sample_frame_6)); [vm_compute; discriminate|vm_compute; reflexivity].
  - vm_compute. discriminate.
Defined.
