(* ===== verification/FrameConn.v ===== *)
(** The framing of a lane ([internal/pep/frameconn.go]): a control stream, and
    for some lanes a coded datagram path that carries data and packet frames.

    A write that goes to the coded path can block there while other callers write
    to the stream, so it is two steps: everything up to [SendOwnedTracked], and
    the send with its fallback to the stream.  The control stream is any
    [Writer].  What the code asks of its surroundings at a write (is the path
    coding, does the flow want it, is the open still unconfirmed, has the context
    ended, was the deadline refused) is the record [asked].  The write buffer is
    reused from its start, so its previous contents do not matter.

    [stream_log], [coded_log], [ended] and [broken] are history: the frames given
    to each substrate, the writes that returned and whether a write to the stream
    has failed. *)

From S2P Require Import Prelude Frame Window Fec Coded CodedRx Demux.
Import protocol.

(** How a write can fail: in the codec or the stream, or by its context. *)
Inductive lane_error := LaneFrame (e : ferror) | LaneContext | LaneDeadline.

Record asked := mkAsked {
  is_coding : bool;
  wants_coding : bool;
  open_unconfirmed : bool;
  context_ended : bool;
  context_ended_locked : bool;
  deadline_refused : bool
}.

Definition defaultChunkSize : Z := 32 * 1024.
Definition defaultFrameReadBuffer : Z := Z.of_nat HeaderSize + defaultChunkSize.
Definition maxFrameReadBuffer : Z := 64 * 1024.

(** [newSplitFrameConnLimited]: the sizes of the reader and of the queue. *)
Definition conn_sizes (readBuffer bulkQueueFrames : Z) : Z * Z :=
  (if (readBuffer <? 512) || (readBuffer >? maxFrameReadBuffer) then defaultFrameReadBuffer else readBuffer,
   if (bulkQueueFrames <? 1) || (bulkQueueFrames >? 256) then 256 else bulkQueueFrames).

Section FrameConn.
Context {W : Type} `{WriterOK W}.

Record frameConn := mkConn {
  control : W;
  bulk : option Path;
  openSafetyCopy : bool;
  packetsForcedToStream : bool;
  codedData : Z; streamData : Z; codedPackets : Z; streamPackets : Z;
  ran : list Z;
  sending : list (Frame * option Z);
  stream_log : list Frame;
  coded_log : list Frame;
  ended : list (Frame * option Z * option lane_error);
  broken : bool
}.

Definition newSplitFrameConn (w : W) (p : option Path) : frameConn :=
  mkConn w p false false 0 0 0 0 [] [] [] [] [] false.

Definition setOpenSafetyPolicy (c : frameConn) : frameConn :=
  mkConn (control c) (bulk c) true (packetsForcedToStream c) (codedData c) (streamData c) (codedPackets c) (streamPackets c)
    (ran c) (sending c) (stream_log c) (coded_log c) (ended c) (broken c).

Definition setPacketsOnStream (c : frameConn) (b : bool) : frameConn :=
  mkConn (control c) (bulk c) (openSafetyCopy c) b (codedData c) (streamData c) (codedPackets c) (streamPackets c)
    (ran c) (sending c) (stream_log c) (coded_log c) (ended c) (broken c).

(** ** Which substrate *)

Definition has_bulk (c : frameConn) : bool := match bulk c with Some _ => true | None => false end.
Definition codingBulk (c : frameConn) (q : asked) : bool := has_bulk c && is_coding q.
Definition codesData (c : frameConn) (q : asked) : bool := if negb (codingBulk c q) then false else wants_coding q.
Definition packetsOnDatagrams (c : frameConn) : bool := has_bulk c && negb (packetsForcedToStream c).

Definition bulkFrame (c : frameConn) (q : asked) (f : Frame) : bool :=
  if h_Type (f_Header f) =? TypeData then codesData c q
  else if h_Type (f_Header f) =? TypePacket then packetsOnDatagrams c
  else false.

Definition countData (c : frameConn) (f : Frame) (coded : bool) : frameConn :=
  let data := h_Type (f_Header f) =? TypeData in
  let packet := negb data && (h_Type (f_Header f) =? TypePacket) in
  let bump (b : bool) n := if b then n +u64 1 else n in
  mkConn (control c) (bulk c) (openSafetyCopy c) (packetsForcedToStream c)
    (bump (data && coded) (codedData c)) (bump (data && negb coded) (streamData c))
    (bump (packet && coded) (codedPackets c)) (bump (packet && negb coded) (streamPackets c))
    (ran c) (sending c) (stream_log c) (coded_log c) (ended c) (broken c).

(** The condition with the flag it clears. *)
Definition needsOpenSafetyCopy (c : frameConn) (q : asked) (f : Frame) : bool * frameConn :=
  if (h_Type (f_Header f) =? TypeData) && open_unconfirmed q && openSafetyCopy c then
    (true, mkConn (control c) (bulk c) false (packetsForcedToStream c) (codedData c) (streamData c) (codedPackets c) (streamPackets c)
       (ran c) (sending c) (stream_log c) (coded_log c) (ended c) (broken c))
  else (false, c).

(** ** Writing *)

(** [writeFull] of [internal/pep/flow.go], the same loop as the protocol's. *)
Definition pep_writeFull (w : W) (p : bytes) : option (option ferror * W) := writeFull_loop (length p) w p.

(** What the stream took. *)
Definition on_stream (c : frameConn) (w : W) (f : Frame) (e : option ferror) : frameConn :=
  mkConn w (bulk c) (openSafetyCopy c) (packetsForcedToStream c) (codedData c) (streamData c) (codedPackets c) (streamPackets c)
    (ran c) (sending c) (match e with None => stream_log c ++ [f] | Some _ => stream_log c end) (coded_log c) (ended c)
    (match e with None => broken c | Some _ => true end).

(** [None] would be a loop that does not end. *)
Definition writeLocked (c : frameConn) (f : Frame) : option (option lane_error * frameConn) :=
  match AppendFrame [] f with
  | (_, Some e) => Some (Some (LaneFrame e), c)
  | (buf, None) =>
      match pep_writeFull (control c) buf with
      | None => None
      | Some (e, w) => Some (option_map LaneFrame e, on_stream c w f e)
      end
  end.

Definition writeControlContext (c : frameConn) (q : asked) (f : Frame) : option (option lane_error * frameConn) :=
  if context_ended_locked q then Some (Some LaneContext, c)
  else if deadline_refused q then Some (Some LaneDeadline, c)
  else writeLocked c f.

Definition callback (c : frameConn) (done_ : option Z) : frameConn :=
  mkConn (control c) (bulk c) (openSafetyCopy c) (packetsForcedToStream c) (codedData c) (streamData c) (codedPackets c) (streamPackets c)
    (ran c ++ match done_ with Some t => [t] | None => [] end) (sending c) (stream_log c) (coded_log c) (ended c) (broken c).

(** A write that has returned, or that goes on to the coded path. *)
Inductive progress := Returned (e : option lane_error) | Sending.

(** [WriteContextTracked] up to [writeCodedTracked]. *)
Definition WriteContextTracked (c : frameConn) (q : asked) (f : Frame) (done_ : option Z) : option (progress * frameConn) :=
  if bulkFrame c q f then
    if context_ended q then Some (Returned (Some LaneContext), c)
    else
      let c := countData c f true in
      let '(copy, c) := needsOpenSafetyCopy c q f in
      if copy then
        let c := countData c f false in
        match writeControlContext c q f with
        | None => None
        | Some (Some e, c) => Some (Returned (Some e), c)
        | Some (None, c) => Some (Sending, c)
        end
      else Some (Sending, c)
  else
    let c := countData c f false in
    match writeControlContext c q f with
    | None => None
    | Some (Some e, c) => Some (Returned (Some e), c)
    | Some (None, c) => Some (Returned None, callback c done_)
    end.

(** [Write] differs in that it has no context and no deadline. *)
Definition Write (c : frameConn) (q : asked) (f : Frame) : option (progress * frameConn) :=
  WriteContextTracked c (mkAsked (is_coding q) (wants_coding q) (open_unconfirmed q) false false false) f None.

Definition on_path (c : frameConn) (p : Path) (l : list Frame) : frameConn :=
  mkConn (control c) (Some p) (openSafetyCopy c) (packetsForcedToStream c) (codedData c) (streamData c) (codedPackets c) (streamPackets c)
    (ran c) (sending c) (stream_log c) l (ended c) (broken c).

(** [writeCodedTracked] with one attempt of [SendOwnedTracked]; [Sending] when
    that waits for room. *)
Definition writeCodedTracked (c : frameConn) (f : Frame) (done_ : option Z) : option (progress * frameConn) :=
  match AppendFrame [] f with
  | (_, Some e) => Some (Returned (Some (LaneFrame e)), c)
  | (buf, None) =>
      match bulk c with
      | None => None
      | Some p =>
          match SendOwnedTracked (sender p) buf done_ with
          | (SendQueued, s) =>
              Some (Returned None, on_path c (mkPath s (pc p) (appends p) (accepted p ++ [mkOutbound buf done_])) (coded_log c ++ [f]))
          | (SendWait, _) => Some (Sending, c)
          | _ =>
              match writeLocked c f with
              | None => None
              | Some (Some e, c) => Some (Returned (Some e), c)
              | Some (None, c) => Some (Returned None, callback c done_)
              end
          end
      end
  end.

(** ** The callers of a lane *)

Definition typed_frame (f : Frame) : Prop := Header_typed (f_Header f) /\ Forall is_byte (f_Payload f).

Definition set_calls (c : frameConn) (s : list (Frame * option Z)) (l : list (Frame * option Z * option lane_error)) : frameConn :=
  mkConn (control c) (bulk c) (openSafetyCopy c) (packetsForcedToStream c) (codedData c) (streamData c) (codedPackets c) (streamPackets c)
    (ran c) s (stream_log c) (coded_log c) l (broken c).

(** What becomes of a call after a step of it. *)
Definition settle (c : frameConn) (f : Frame) (done_ : option Z) (r : progress) : frameConn :=
  match r with
  | Returned e => set_calls c (sending c) (ended c ++ [(f, done_, e)])
  | Sending => set_calls c (sending c ++ [(f, done_)]) (ended c)
  end.

Variable env : Env.

Inductive conn_step : frameConn -> frameConn -> Prop :=
| cs_write c q f done_ r c' :
    typed_frame f -> WriteContextTracked c q f done_ = Some (r, c') -> conn_step c (settle c' f done_ r)
| cs_send c pre f done_ post r c' :
    sending c = pre ++ (f, done_) :: post ->
    writeCodedTracked (set_calls c (pre ++ post) (ended c)) f done_ = Some (r, c') -> conn_step c (settle c' f done_ r)
| cs_path c p p' :
    bulk c = Some p -> loop_turn env p = Some p' -> conn_step c (on_path c p' (coded_log c))
| cs_close c p :
    bulk c = Some p -> conn_step c (on_path c (mkPath (closePath (sender p)) (pc p) (appends p) (accepted p)) (coded_log c)).

(** A lane as it is built: with or without a coded path, before its first write. *)
Definition fresh_conn (w : W) (coded copy forced : bool) : frameConn :=
  let c := newSplitFrameConn w (if coded then Some (New env) else None) in
  let c := if copy then setOpenSafetyPolicy c else c in
  setPacketsOnStream c forced.

(** ** Invariant *)

Definition accepted_on (c : frameConn) : list outboundFrame := match bulk c with Some p => accepted p | None => [] end.

(** The callbacks of the writes that returned without error. *)
Definition succeeded (l : list (Frame * option Z * option lane_error)) : list (option Z) :=
  omap (fun x => match snd x with None => Some (snd (fst x)) | Some _ => None end) l.

(** [owed] are callbacks run or accepted for a write that has not returned yet,
    and [k] the frames logged for it. *)
Record conn_inv (w0 : W) (c : frameConn) (owed : list (option Z)) (k : Z) : Prop := {
  ci_stream : broken c = false -> sink (control c) = sink w0 ++ concat (map frame_image (stream_log c));
  ci_sendable : Forall sendable (stream_log c) /\ Forall (fun f => sendable f /\ Forall is_byte (f_Payload f)) (coded_log c);
  ci_path : match bulk c with
    | Some p => steps (path_step env) (New env) p
    | None => sending c = [] end;
  ci_coded : map ob_frame (accepted_on c) = map frame_image (coded_log c);
  ci_ended : Forall (fun x => snd x = None -> fst (fst x) ∈ stream_log c ++ coded_log c) (ended c);
  ci_calls : ran c ++ tokens (map ob_done (accepted_on c)) ≡ₚ tokens (succeeded (ended c)) ++ tokens owed;
  ci_copies : len (stream_log c) + len (coded_log c) + (if openSafetyCopy c then 1 else 0) <= len (succeeded (ended c)) + 1 + k;
  ci_sending : Forall (fun x => typed_frame (fst x)) (sending c)
}.

Definition conn_ok (w0 : W) (c : frameConn) : Prop := conn_inv w0 c [] 0.

#[local] Arguments succeeded : simpl never.
#[local] Arguments tokens : simpl never.

Lemma succeeded_app l k : succeeded (l ++ k) = succeeded l ++ succeeded k.
Proof. apply omap_app. Qed.

(** Ending a call. *)
Lemma settle_ok w0 c f done_ : conn_inv w0 c [done_] 1 -> f ∈ stream_log c ++ coded_log c ->
  conn_ok w0 (settle c f done_ (Returned None)).
Proof.
  intros [H1 H2 H3 H4 H5 H6 H7 H8] Hf. split; cbn; try done.
  - apply Forall_app. split; [done|]. constructor; [by cbn|constructor].
  - rewrite succeeded_app, tokens_app, app_nil_r. exact H6.
  - rewrite succeeded_app, len_app. change (len (succeeded [(f, done_, None)])) with 1. lia.
Qed.

Lemma settle_error w0 c f done_ e : conn_ok w0 c -> conn_ok w0 (settle c f done_ (Returned (Some e))).
Proof.
  intros [H1 H2 H3 H4 H5 H6 H7 H8]. split; cbn; try done.
  - apply Forall_app. split; [done|]. constructor; [by cbn|constructor].
  - rewrite succeeded_app, tokens_app. cbn. by rewrite app_nil_r.
  - rewrite succeeded_app, len_app. change (len (succeeded [(f, done_, Some e)])) with 0. lia.
Qed.

Lemma settle_sending w0 c f done_ :
  conn_ok w0 c -> typed_frame f -> has_bulk c = true -> conn_ok w0 (settle c f done_ Sending).
Proof.
  intros [H1 H2 H3 H4 H5 H6 H7 H8] Hf Hb. unfold has_bulk in Hb. split; cbn; try done.
  - by destruct (bulk c).
  - apply Forall_app. split; [done|]. constructor; [done|constructor].
Qed.

(** ** The stream *)

Lemma writeLocked_spec c f : Header_typed (f_Header f) ->
  exists e c', writeLocked c f = Some (e, c') /\
    match e with
    | None => sendable f /\ exists w, c' = on_stream c w f None /\ sink w = sink (control c) ++ frame_image f
    | Some _ => c' = c \/ exists w e', c' = on_stream c w f (Some e')
    end.
Proof.
  intros Ht. unfold writeLocked. pose proof (AppendFrame_spec [] f ltac:(apply Ht)) as Ha.
  destruct (Validate (sent_header f)) eqn:Ev.
  - destruct Ha as [e ->]. eexists _, _. split; [reflexivity|]. by left.
  - rewrite Ha. cbn [app]. change (header_image (sent_header f) ++ f_Payload f) with (frame_image f). unfold pep_writeFull.
    destruct (writeFull_loop_spec (length (frame_image f)) (control c) (frame_image f) ltac:(done)) as (e & w & -> & Hw).
    eexists _, _. split; [reflexivity|]. destruct e as [e|]; cbn [option_map].
    + right. by eexists _, _.
    + split; [by split|]. by exists w.
Qed.

(** A successful write to the stream. *)
Lemma on_stream_ok w0 c w f owed k :
  conn_inv w0 c owed k -> sendable f -> sink w = sink (control c) ++ frame_image f ->
  conn_inv w0 (on_stream c w f None) owed (k + 1).
Proof.
  intros [H1 H2 H3 H4 H5 H6 H7 H8] Hf Hw. split; cbn; try done.
  - intros Hb. rewrite Hw, (H1 Hb), map_app, concat_app. cbn. by rewrite app_nil_r, app_assoc.
  - destruct H2. split; [|done]. apply Forall_app. split; [done|]. constructor; [done|constructor].
  - eapply Forall_impl; [exact H5|]. intros x Hx He. specialize (Hx He). rewrite !elem_of_app in *. tauto.
  - rewrite len_app. rewrite (len_cons f []), len_nil. lia.
Qed.

Lemma on_stream_failed w0 c w f e owed k : conn_inv w0 c owed k -> conn_inv w0 (on_stream c w f (Some e)) owed k.
Proof. intros [H1 H2 H3 H4 H5 H6 H7 H8]. split; cbn; done. Qed.

Lemma callback_ok w0 c d k : conn_inv w0 c [] k -> conn_inv w0 (callback c d) [d] k.
Proof.
  intros [H1 H2 H3 H4 H5 H6 H7 H8]. split; cbn; try done.
  change (accepted_on (callback c d)) with (accepted_on c). rewrite <- app_assoc, (Permutation_app_comm _ (tokens _)), app_assoc, H6.
  cbn [tokens]. destruct d; cbn; by rewrite ?app_nil_r.
Qed.

Lemma countData_ok w0 c f b owed k : conn_inv w0 c owed k -> conn_inv w0 (countData c f b) owed k.
Proof. intros [H1 H2 H3 H4 H5 H6 H7 H8]. split; cbn; done. Qed.

Lemma conn_inv_weaken w0 c owed k k' : conn_inv w0 c owed k -> k <= k' -> conn_inv w0 c owed k'.
Proof. intros [H1 H2 H3 H4 H5 H6 H7 H8] Hk. split; try done. lia. Qed.

Lemma control_ok w0 c q f k : conn_inv w0 c [] k -> Header_typed (f_Header f) ->
  exists e c', writeControlContext c q f = Some (e, c') /\ has_bulk c' = has_bulk c /\
    match e with
    | None => conn_inv w0 c' [] (k + 1) /\ f ∈ stream_log c' ++ coded_log c'
    | Some _ => conn_inv w0 c' [] k
    end.
Proof.
  intros Hc Ht. unfold writeControlContext.
  destruct (context_ended_locked q); [by eexists _, _|]. destruct (deadline_refused q); [by eexists _, _|].
  destruct (writeLocked_spec c f Ht) as (e & c' & -> & He). exists e, c'. split; [done|]. destruct e as [e|].
  - destruct He as [-> | (w & e' & ->)]; [done|]. split; [done|]. by apply on_stream_failed.
  - destruct He as (Hf & w & -> & Hw). split; [done|]. split; [by apply on_stream_ok|].
    cbn. rewrite !elem_of_app, list_elem_of_singleton. tauto.
Qed.

Lemma safety_copy_ok w0 c q f copy c' : conn_ok w0 c -> needsOpenSafetyCopy c q f = (copy, c') ->
  has_bulk c' = has_bulk c /\ conn_inv w0 c' [] (if copy then -1 else 0).
Proof.
  intros Hc. unfold needsOpenSafetyCopy. destruct (_ && _) eqn:E; intros [= <- <-]; [|by split].
  apply andb_true_iff in E as [_ E]. destruct Hc as [H1 H2 H3 H4 H5 H6 H7 H8]. rewrite E in H7. split; [done|]. split; cbn; try done. lia.
Qed.

Lemma write_ok w0 c q f d : conn_ok w0 c -> typed_frame f ->
  exists r c', WriteContextTracked c q f d = Some (r, c') /\ conn_ok w0 (settle c' f d r).
Proof.
  intros Hc [Ht Hb]. unfold WriteContextTracked. destruct (bulkFrame c q f) eqn:E.
  - assert (Hbulk : has_bulk c = true).
    { unfold bulkFrame, codesData, codingBulk, packetsOnDatagrams in E.
      destruct (has_bulk c); [done|]. cbn [andb negb] in E. by repeat destruct (_ =? _). }
    destruct (context_ended q); [eexists _, _; split; [reflexivity|by apply settle_error]|]. cbv zeta.
    destruct (needsOpenSafetyCopy (countData c f true) q f) as [copy c1] eqn:En.
    destruct (safety_copy_ok w0 _ _ _ _ _ (countData_ok _ _ _ _ _ _ Hc) En) as [Hb1 Hc1]. destruct copy.
    + destruct (control_ok w0 (countData c1 f false) q f _ (countData_ok _ _ _ _ _ _ Hc1) Ht) as (e & c2 & -> & Hb2 & He).
      destruct e as [e|]; eexists _, _; (split; [reflexivity|]).
      * apply settle_error. eapply conn_inv_weaken; [exact He|lia].
      * apply settle_sending; [apply He|by split|]. rewrite Hb2. exact (eq_trans Hb1 Hbulk).
    + eexists _, _. split; [reflexivity|]. apply settle_sending; [done|by split|]. exact (eq_trans Hb1 Hbulk).
  - cbv zeta. destruct (control_ok w0 (countData c f false) q f _ (countData_ok _ _ _ _ _ _ Hc) Ht) as (e & c2 & -> & Hb2 & He).
    destruct e as [e|]; eexists _, _; (split; [reflexivity|]).
    + by apply settle_error.
    + destruct He as [He Hf]. apply settle_ok; [by apply callback_ok|done].
Qed.

(** ** The coded path *)

Lemma frame_image_bytes f : typed_frame f -> sendable f -> Forall is_byte (frame_image f).
Proof.
  intros [Ht Hb] _. unfold frame_image, header_image, header_fields. cbn [concat]. rewrite !Forall_app.
  destruct Ht as (Hv & Hty & Hfl & Hlen & Hs & Hid & Hsq & Hpl & Hcl). unfold in_range, is_byte in *.
  repeat split; auto using be_bytes_range, Forall_nil_2; repeat constructor; cbn; try done; unfold sent_header, set_PayloadLen; cbn; pow2_eval; try lia.
Qed.

Lemma queued_ok w0 c f d p s :
  conn_ok w0 c -> typed_frame f -> sendable f -> bulk c = Some p ->
  SendOwnedTracked (sender p) (frame_image f) d = (SendQueued, s) ->
  conn_inv w0 (on_path c (mkPath s (pc p) (appends p) (accepted p ++ [mkOutbound (frame_image f) d])) (coded_log c ++ [f])) [d] 1.
Proof.
  intros [H1 H2 H3 H4 H5 H6 H7 H8] Ht Hf Hp Hs. unfold accepted_on in *. rewrite Hp in *. split; unfold accepted_on; cbn; try done.
  - destruct H2. split; [done|]. apply Forall_app. split; [done|]. constructor; [|constructor]. split; [done|apply Ht].
  - eapply steps_trans; [exact H3|]. apply steps_one. by apply (ps_send env).
  - rewrite !map_app. by rewrite H4.
  - eapply Forall_impl; [exact H5|]. intros x Hx He. specialize (Hx He). rewrite !elem_of_app in *. tauto.
  - rewrite map_app, tokens_app, app_assoc. rewrite H6. by rewrite app_nil_r.
  - rewrite len_app, (len_cons f []), len_nil. lia.
Qed.

Lemma coded_ok w0 c f d : conn_ok w0 c -> typed_frame f -> has_bulk c = true ->
  exists r c', writeCodedTracked c f d = Some (r, c') /\ conn_ok w0 (settle c' f d r).
Proof.
  intros Hc Ht Hb. unfold writeCodedTracked. pose proof (AppendFrame_spec [] f ltac:(apply Ht)) as Ha.
  destruct (Validate (sent_header f)) eqn:Ev.
  { destruct Ha as [e ->]. eexists _, _. split; [reflexivity|]. by apply settle_error. }
  rewrite Ha. cbn [app]. change (header_image (sent_header f) ++ f_Payload f) with (frame_image f).
  assert (Hs : sendable f) by (split; [apply Ht|done]).
  destruct (bulk c) as [p|] eqn:Ep; [|unfold has_bulk in Hb; by rewrite Ep in Hb].
  assert (Hfall : exists r c', match writeLocked c f with
      | Some (None, c) => Some (Returned None, callback c d)
      | Some (Some e, c) => Some (Returned (Some e), c)
      | None => None end = Some (r, c') /\ conn_ok w0 (settle c' f d r)).
  { destruct (control_ok w0 c (mkAsked true true true false false false) f _ Hc (proj1 Ht)) as (e & c2 & Hw & _ & He).
    unfold writeControlContext in Hw. cbn [context_ended_locked deadline_refused] in Hw. rewrite Hw.
    destruct e as [e|]; eexists _, _; (split; [reflexivity|]); [by apply settle_error|].
    destruct He as [He Hf]. apply settle_ok; [by apply callback_ok|done]. }
  destruct (SendOwnedTracked (sender p) (frame_image f) d) as [[] s] eqn:Es; [exact Hfall|exact Hfall| |].
  - eexists _, _. split; [reflexivity|]. apply settle_ok; [by eapply queued_ok|].
    cbn. rewrite !elem_of_app, list_elem_of_singleton. tauto.
  - eexists _, _. split; [reflexivity|]. by apply settle_sending.
Qed.

(** ** Reachable states *)

Lemma loop_turn_accepted p p' : loop_turn env p = Some p' -> accepted p' = accepted p.
Proof.
  unfold loop_turn. destruct (pc p) as [|f| |]; [| | |done].
  - destruct (takePending (sender p)) as [[f s]|]; [by intros [= <-]|]. destruct (l_closed _); [by intros [= <-]|done].
  - destruct (appendFrame env _ _ _ _) as [ok s]. destruct ok; by intros [= <-].
  - destruct (takePending (sender p)) as [[f s]|]; [by intros [= <-]|]. destruct (flushPacked env _) as [ok s].
    destruct ok; cbn [negb]; [|by intros [= <-]]. destruct (protectBurst env (link s)) as [ok l]. destruct ok; by intros [= <-].
Qed.

Lemma on_path_ok w0 c p p' :
  conn_ok w0 c -> bulk c = Some p -> path_step env p p' -> accepted p' = accepted p -> conn_ok w0 (on_path c p' (coded_log c)).
Proof.
  intros [H1 H2 H3 H4 H5 H6 H7 H8] Hp Hs Ha. unfold accepted_on in *. rewrite Hp in *.
  split; unfold accepted_on; cbn; rewrite ?Ha; try done. eapply steps_trans; [exact H3|by apply steps_one].
Qed.

Lemma conn_ok_step w0 c c' : conn_ok w0 c -> conn_step c c' -> conn_ok w0 c'.
Proof.
  intros Hc Hstep. destruct Hstep as [c q f d r c' Ht E|c pre f d post r c' Hs E|c p p' Hp E|c p Hp].
  - destruct (write_ok w0 c q f d Hc Ht) as (r0 & c0 & E0 & Hok). rewrite E0 in E. by injection E as -> ->.
  - set (c1 := set_calls _ _ _) in *.
    assert (Hc1 : conn_ok w0 c1 /\ typed_frame f /\ has_bulk c1 = true).
    { destruct Hc as [H1 H2 H3 H4 H5 H6 H7 H8]. pose proof H8 as H8'. rewrite Hs in H8'. apply Forall_app in H8' as [Ha Hb].
      apply Forall_cons in Hb as [Hf Hb]. split; [split; cbn; try done|split; [done|]].
      - by destruct (bulk c); [|rewrite H3 in Hs; destruct pre].
      - by apply Forall_app.
      - unfold has_bulk. cbn. by destruct (bulk c); [|rewrite H3 in Hs; destruct pre]. }
    destruct Hc1 as (Hc1 & Hf & Hb). destruct (coded_ok w0 c1 f d Hc1 Hf Hb) as (r0 & c0 & E0 & Hok).
    rewrite E0 in E. by injection E as -> ->.
  - eapply on_path_ok; [done|exact Hp|by constructor|by apply loop_turn_accepted].
  - eapply on_path_ok; [done|exact Hp|by apply ps_close|done].
Qed.

Lemma fresh_ok w coded copy forced : conn_ok w (fresh_conn w coded copy forced).
Proof.
  unfold fresh_conn. split; destruct coded, copy; cbn; try done; try (by rewrite app_nil_r); try apply steps_refl.
  all: by split; constructor.
Qed.

Lemma conn_reachable w coded copy forced c :
  steps (conn_step) (fresh_conn w coded copy forced) c -> conn_ok w c.
Proof. intros Hs. eapply (steps_invariant _ (conn_ok w)); [intros ??; apply conn_ok_step|apply fresh_ok|exact Hs]. Qed.

(** The frame as the receiver sees it. *)
Definition as_received (f : Frame) : Frame := mkFrame (sent_header f) (f_Payload f).

(** C8: a lane carries what it was given.  However writes, the coded path's own
    progress and its closing interleave, a write returns or waits only for the
    coded path; while no write to the stream has failed, the peer reads from it
    exactly the frames given to it, in order; every write that returned without
    error is a frame on the stream or on the coded path, and its callback was
    called or accepted by the path exactly once, and no callback of a write that
    failed was; and over the life of the lane at most one frame is sent on both. *)
Theorem lane_writes_exact w coded copy forced c :
  steps (conn_step) (fresh_conn w coded copy forced) c ->
  (forall q f d, typed_frame f -> exists r c', WriteContextTracked c q f d = Some (r, c') /\
     (r = Sending -> exists r' c'', writeCodedTracked c' f d = Some (r', c''))) /\
  (broken c = false -> exists sent_bytes, sink (control c) = sink w ++ sent_bytes /\
     read_frames (length (stream_log c)) (mkReader sent_bytes EOF) = Ok (map as_received (stream_log c), mkReader [] EOF)) /\
  Forall (fun x => snd x = None -> fst (fst x) ∈ stream_log c ++ coded_log c) (ended c) /\
  ran c ++ tokens (map ob_done (accepted_on c)) ≡ₚ tokens (succeeded (ended c)) /\
  len (stream_log c) + len (coded_log c) <= len (succeeded (ended c)) + 1.
Proof.
  intros Hs. pose proof (conn_reachable _ _ _ _ _ Hs) as Hc. split.
  { intros q f d Hf. destruct (write_ok w c q f d Hc Hf) as (r & c' & E & Hok). exists r, c'. split; [done|]. intros ->.
    destruct Hok as [H1 H2 H3 H4 H5 H6 H7 H8]. cbn in H3, H8. destruct (bulk c') as [p|] eqn:Ep.
    - unfold writeCodedTracked. destruct (AppendFrame [] f) as [buf [e|]]; [by eauto|]. rewrite Ep.
      destruct (SendOwnedTracked _ _ _) as [[] s]; try (by eauto);
        destruct (writeLocked_spec c' f (proj1 Hf)) as (e & c2 & -> & _); destruct e; by eauto.
    - by destruct (sending c'). }
  destruct Hc as [H1 H2 H3 H4 H5 H6 H7 H8]. split.
  { intros Hb. eexists. split; [by apply H1|]. rewrite <- (app_nil_r (concat _)). exact (read_frames_image (stream_log c) [] EOF (proj1 H2)). }
  split; [done|]. split; [by rewrite H6, app_nil_r|]. destruct (openSafetyCopy c); lia.
Qed.

(** ** From one end of the lane to the other *)

(** The peer's demultiplexer, given the payloads its coded path delivers. *)
Inductive fed_step (payloads : list bytes) : bulkDemux -> bulkDemux -> Prop :=
| fs_turn d now payload d' : payload ∈ payloads -> run_turn d now payload = Some d' -> fed_step payloads d d'
| fs_end d order d' : order ≡ₚ (map_to_list (flows d)).*1 -> run_end d order = Some d' -> fed_step payloads d d'
| fs_subscribe d id a d' : subscribe d id = Some (a, d') -> fed_step payloads d d'
| fs_release d id d' : release d id = Some d' -> fed_step payloads d d'
| fs_recv d a f d' : recv d a = Some (f, d') -> fed_step payloads d d'.

Lemma fed_demux payloads d d' : fed_step payloads d d' -> demux_step d d'.
Proof. intros []; by econstructor. Qed.

Lemma try_send_arrivals d a f d' : try_send d a f = Some d' -> arrivals d' = arrivals d.
Proof.
  unfold try_send. destruct (chans d !! a) as [c|]; [|done]. destruct (ch_closed c); [done|].
  destruct (_ <? _); intros E; by injection E as <-.
Qed.

Lemma close_chan_arrivals d a d' : close_chan d a = Some d' -> arrivals d' = arrivals d.
Proof. unfold close_chan. destruct (chans d !! a) as [c|]; [|done]. destruct (ch_closed c); [done|]. intros E. by injection E as <-. Qed.

Lemma send_held_arrivals l : forall d a d', send_held d a l = Some d' -> arrivals d' = arrivals d.
Proof.
  induction l as [|h l IH]; intros d a d' E; cbn in E; [by injection E as <-|].
  destruct (try_send d a (hf_frame h)) as [d1|] eqn:Et; [|done]. apply try_send_arrivals in Et. rewrite <- Et. by eapply IH.
Qed.

Lemma run_end_arrivals order : forall d d', run_end d order = Some d' -> arrivals d' = arrivals d.
Proof.
  induction order as [|id order IH]; intros d d' E; cbn in E; [by injection E as <-|].
  destruct (flows d !! id) as [sub|]; [|by apply IH]. destruct (close_chan d _) as [d1|] eqn:Ec; [|done].
  apply close_chan_arrivals in Ec. rewrite <- Ec. by apply IH in E.
Qed.

(** Only what was fed has arrived. *)
Lemma fed_arrivals payloads d d' : fed_step payloads d d' ->
  arrivals d' = arrivals d \/ exists payload f, payload ∈ payloads /\ ParseFrameOwned payload = Ok f /\ arrivals d' = arrivals d ++ [f].
Proof.
  intros Hs. destruct Hs as [d now payload d' Hin E|d order d' _ E|d id a d' E|d id d' E|d a f d' E].
  - unfold run_turn in E. destruct (ParseFrameOwned payload) as [f|] eqn:Ep; [|left; by injection E as <-].
    right. exists payload, f. split; [done|]. split; [done|]. cbv zeta in E.
    destruct (flows (note_arrival d f) !! _); [by apply try_send_arrivals in E|].
    injection E as <-. unfold holdLocked. cbv zeta. by destruct (_ || _).
  - left. by apply run_end_arrivals in E.
  - left. unfold subscribe in E. destruct (flows d !! id) as [sub|]; [by injection E as _ <-|]. cbv zeta in E.
    destruct (send_held _ _ _) as [d1|] eqn:El; [|done]. apply send_held_arrivals in El. by injection E as _ <-.
  - left. unfold release in E. destruct (flows d !! id) as [sub|]; [|by injection E as <-]. cbv zeta in E.
    destruct (_ >? 0); [by injection E as <-|]. by apply close_chan_arrivals in E.
  - left. unfold recv in E. destruct (chans d !! a) as [c|]; [|done]. destruct (ch_queue c); [done|]. by injection E as _ <-.
Qed.

Lemma fed_arrived payloads n d : steps (fed_step payloads) (newBulkDemux n) d ->
  Forall (fun f => exists payload, payload ∈ payloads /\ ParseFrameOwned payload = Ok f) (arrivals d).
Proof.
  intros Hs. refine (steps_invariant _ (fun d => Forall _ (arrivals d)) _ _ _ _ Hs); [|apply Forall_nil_2].
  intros d1 d2 Hd Hstep. destruct (fed_arrivals _ _ _ Hstep) as [-> | (payload & f & H1 & H2 & ->)]; [done|].
  apply Forall_app. split; [done|]. constructor; [by exists payload|constructor].
Qed.

(** C7: a lane never mixes flows.  Frames written to a lane go through the
    erasure code over a channel that erases any datagrams and keeps the order of the
    rest, are reassembled and demultiplexed at the peer, under any interleaving of
    writers, flows and readers: whatever the peer hands to a flow is a frame that was
    written to this lane for that flow, header and payload as written with the payload's
    length filled in.  The conditions are those of the coded path: symbol payloads of 17
    to 65,535 bytes, every frame fitting them with its four-byte header or longer than
    they are, and at most 2^31 symbols. *)
Theorem coded_lane_end_to_end w copy forced c p ds n d :
  0 < cfg_Pending env -> (forall n, 17 <= limit_at env n < 2 ^ 16) ->
  steps conn_step (fresh_conn w true copy forced) c -> bulk c = Some p ->
  Forall (fun f => fits env (mkOutbound (frame_image f) None)) (coded_log c) ->
  len (emitted (link (sender p))) <= 2 ^ 31 -> sublist ds (wire (link (sender p))) ->
  steps (fed_step (fst (receive_all ds))) (newBulkDemux n) d ->
  forall id f, f ∈ given_to id (sent d) -> exists g, g ∈ coded_log c /\ f = as_received g /\ flow_of g = id.
Proof.
  intros Hpos Hroom Hs Hp Hfits Hlen Hsub Hfed id f Hf.
  destruct (conn_reachable _ _ _ _ _ Hs) as [_ [_ Hsend] Hpath Hcoded _ _ _ _]. unfold accepted_on in Hcoded. rewrite Hp in *.
  assert (Hok : demux_ok d).
  { eapply (demux_reachable n). clear -Hfed. induction Hfed; [apply steps_refl|]. eapply steps_cons; [by eapply fed_demux|done]. }
  assert (Hin : f ∈ of_flow id (arrivals d)).
  { eapply sublist_subseteq; [apply (dk_order _ Hok id)|]. apply elem_of_app. by left. }
  pose proof (elem_of_flow _ _ _ Hin) as Hid. apply list_elem_of_In, filter_In in Hin as [Hin _]. apply list_elem_of_In in Hin.
  pose proof (fed_arrived _ _ _ Hfed) as Harr. rewrite Forall_forall in Harr. destruct (Harr f Hin) as (payload & Hpl & Hparse).
  assert (Hacc : payload ∈ map frame_image (coded_log c)).
  { rewrite <- Hcoded. pose proof (coded_path_sound env p ds Hpos Hroom Hpath) as Hsound.
    refine (proj1 (Forall_forall _ _) (Hsound _ _ Hlen Hsub) payload Hpl).
    - apply (Forall_fmap ob_frame (Forall is_byte)). change (ob_frame <$> accepted p) with (map ob_frame (accepted p)).
      rewrite Hcoded. apply Forall_fmap. eapply Forall_impl; [exact Hsend|]. intros g [[Hg Hv] Hb]. by apply frame_image_bytes.
    - apply (Forall_fmap ob_frame (fun b => fits env (mkOutbound b None))). change (ob_frame <$> accepted p) with (map ob_frame (accepted p)).
      rewrite Hcoded. by apply Forall_fmap. }
  apply list_elem_of_fmap in Hacc as (g & -> & Hg). rewrite Forall_forall in Hsend. destruct (Hsend g Hg) as [Hgs _].
  rewrite parse_sendable in Hparse by done. injection Hparse as <-. exists g. split; [done|]. split; [done|]. by rewrite <- Hid.
Qed.

End FrameConn.

(** ** Witnesses *)

(** A stream that takes at most twenty bytes per call. *)
#[local] Instance slow_writer : Writer (list Z) :=
  fun w p => (Z.min 20 (len p), None, w ++ take (Z.to_nat (Z.min 20 (len p))) p).

#[local] Instance slow_writer_ok : WriterOK (list Z).
Proof.
  refine {| sink := fun w => w |}. intros w p n e w' Hw. injection Hw as <- <- <-.
  split; [|done]. pose proof (len_nonneg p). lia.
Defined.

Definition do_write (c : frameConn) (q : asked) (f : Frame) (d : option Z) : frameConn (W := list Z) :=
  match WriteContextTracked c q f d with Some (r, c') => settle c' f d r | None => c end.

Definition do_coded_send (c : frameConn) : frameConn (W := list Z) :=
  match sending c with
  | (f, d) :: post =>
      match writeCodedTracked (set_calls c post (ended c)) f d with Some (r, c') => settle c' f d r | None => c end
  | [] => c
  end.

Definition do_turn (env : Env) (c : frameConn) : frameConn (W := list Z) :=
  match bulk c with
  | Some p => match loop_turn env p with Some p' => on_path c p' (coded_log c) | None => c end
  | None => c
  end.

Lemma do_write_steps env c q f d : typed_frame f -> steps (conn_step env) c (do_write c q f d).
Proof.
  intros Ht. unfold do_write. destruct (WriteContextTracked c q f d) as [[r c']|] eqn:E; [|apply steps_refl].
  apply steps_one. by eapply cs_write.
Qed.

Lemma do_send_steps env c : steps (conn_step env) c (do_coded_send c).
Proof.
  unfold do_coded_send. destruct (sending c) as [|[f d] post] eqn:E; [apply steps_refl|].
  destruct (writeCodedTracked _ f d) as [[r c']|] eqn:Ew; [|apply steps_refl].
  apply steps_one. by eapply (cs_send env c [] f d post).
Qed.

Lemma do_turn_steps env c : steps (conn_step env) c (do_turn env c).
Proof.
  unfold do_turn. destruct (bulk c) as [p|] eqn:Ep; [|apply steps_refl].
  destruct (loop_turn env p) as [p'|] eqn:El; [|apply steps_refl]. apply steps_one. by eapply cs_path.
Qed.

Lemma do_turns_steps env n c : steps (conn_step env) c (Nat.iter n (do_turn env) c).
Proof. induction n as [|n IH]; [apply steps_refl|]. exact (steps_trans _ _ _ _ IH (do_turn_steps env _)). Qed.

(** A data frame on an unconfirmed lane, then an acknowledgement, then the coded
    path's loop. *)
Definition sample_asked : asked := mkAsked true true true false false false.
Definition sample_ack : Frame := mkFrame (mkHeader Version TypeAck FlagAckUp (replicate 16 7) 5 100 0 ClassNew) [].

Lemma sample_frame_typed : typed_frame sample_frame.
Proof. split; [apply sample_typed|]. repeat constructor; done. Qed.

Lemma sample_ack_typed : typed_frame sample_ack.
Proof.
  split; [|constructor]. unfold Header_typed. cbn -[Z.pow]. unfold in_range, is_byte.
  repeat split; try done. repeat constructor; done.
Qed.

Definition sample_conn : frameConn (W := list Z) :=
  Nat.iter 6 (do_turn sample_env)
    (do_coded_send (do_write (do_write (fresh_conn sample_env [] true true false) sample_asked sample_frame (Some 1))
      sample_asked sample_ack (Some 2))).

Lemma sample_conn_reachable : steps (conn_step sample_env) (fresh_conn sample_env [] true true false) sample_conn.
Proof.
  eapply steps_trans; [apply (do_write_steps sample_env _ sample_asked _ (Some 1) sample_frame_typed)|].
  eapply steps_trans; [apply (do_write_steps sample_env _ sample_asked _ (Some 2) sample_ack_typed)|].
  eapply steps_trans; [apply do_send_steps|]. apply do_turns_steps.
Qed.

Lemma lane_writes_exact_witness :
  stream_log sample_conn = [sample_frame; sample_ack] /\ coded_log sample_conn = [sample_frame] /\
  ran sample_conn = [2] /\
  ran sample_conn ++ tokens (map ob_done (accepted_on sample_conn)) ≡ₚ tokens (succeeded (ended sample_conn)).
Proof.
  split; [vm_compute; reflexivity|]. split; [vm_compute; reflexivity|]. split; [vm_compute; reflexivity|].
  exact (proj1 (proj2 (proj2 (proj2 (lane_writes_exact sample_env [] true true false sample_conn sample_conn_reachable))))).
Defined.

Definition sample_conn_link : Link := match bulk sample_conn with Some p => link (sender p) | None => Link_zero end.
Definition fed_0 : bulkDemux :=
  fold_left (fun d payload => default d (run_turn d 10 payload)) (fst (receive_all (wire sample_conn_link))) (newBulkDemux 4).
Definition fed_1 : bulkDemux := match subscribe fed_0 5 with Some (_, d) => d | None => fed_0 end.

Lemma fed_fold payloads l : forall d, l ⊆ payloads ->
  steps (fed_step payloads) d (fold_left (fun d payload => default d (run_turn d 10 payload)) l d).
Proof.
  induction l as [|x l IH]; intros d Hin; cbn; [apply steps_refl|]. eapply steps_trans; [|apply IH; set_solver].
  destruct (run_turn d 10 x) as [d'|] eqn:E; [|apply steps_refl]. apply steps_one. apply (fs_turn _ _ 10 x); [set_solver|exact E].
Qed.

Lemma coded_lane_end_to_end_witness :
  given_to 5 (sent fed_1) = [as_received sample_frame] /\
  (forall f, f ∈ given_to 5 (sent fed_1) -> exists g, g ∈ coded_log sample_conn /\ f = as_received g /\ flow_of g = 5).
Proof.
  split; [vm_compute; reflexivity|].
  refine (coded_lane_end_to_end sample_env [] true false sample_conn
    (match bulk sample_conn with Some p => p | None => New sample_env end) (wire sample_conn_link) 4 fed_1 _ _ sample_conn_reachable _ _ _ _ _ 5).
  - reflexivity.
  - intros n. rewrite sample_limit. pow2_eval. lia.
  - vm_compute. reflexivity.
  - assert (Hc : coded_log sample_conn = [sample_frame]) by (vm_compute; reflexivity). rewrite Hc.
    constructor; [|constructor]. intros n. right. rewrite sample_limit. vm_compute. reflexivity.
  - vm_compute. discriminate.
  - vm_compute. reflexivity.
  - eapply steps_trans; [apply fed_fold; done|]. apply steps_one, (fs_subscribe _ _ 5 0%nat). vm_compute. reflexivity.
Defined.
