(* ===== verification/GoNet.v ===== *)
(** What the sources use of Go's [strings], [strconv] and [net] packages, over
    strings as byte lists: [TrimSpace], [Atoi] and [Itoa], [SplitHostPort] and
    [JoinHostPort], and the facts about them that the codecs rely on. *)

From S2P Require Import Prelude.

Definition ch_colon : Z := 58.
Definition ch_lbracket : Z := 91.
Definition ch_rbracket : Z := 93.

(** ** Searching for a byte *)

(** [IndexByteString]. *)
Fixpoint index_byte (c : Z) (s : bytes) : option nat :=
  match s with
  | [] => None
  | b :: r => if b =? c then Some 0%nat else S <$> index_byte c r
  end.

(** [LastIndexByteString]. *)
Fixpoint last_index_byte (c : Z) (s : bytes) : option nat :=
  match s with
  | [] => None
  | b :: r =>
      match last_index_byte c r with
      | Some i => Some (S i)
      | None => if b =? c then Some 0%nat else None
      end
  end.

Lemma index_byte_None c s : index_byte c s = None <-> c ∉ s.
Proof.
  induction s as [|b r IH]; cbn [index_byte]; [split; [intros _ H; by apply elem_of_nil in H|done]|].
  rewrite not_elem_of_cons. destruct (b =? c) eqn:E; bool_to_prop.
  - split; [done|]. intros [H _]. congruence.
  - destruct (index_byte c r); cbn; split; try done.
    + intros [_ H]. by apply IH in H.
    + intros _. split; [congruence|]. by apply IH.
Qed.

Lemma index_byte_app c a b : c ∉ a -> index_byte c (a ++ (c :: b)) = Some (length a).
Proof.
  induction a as [|x a IH]; intros Ha; cbn [index_byte app]; [by rewrite Z.eqb_refl|].
  apply not_elem_of_cons in Ha as [Hx Ha]. replace (x =? c) with false by lia. by rewrite IH.
Qed.

Lemma index_byte_Some c s i :
  index_byte c s = Some i -> s = take i s ++ (c :: drop (S i) s) /\ (c ∉ take i s) /\ (i < length s)%nat.
Proof.
  revert i. induction s as [|b r IH]; intros i Hi; cbn [index_byte] in Hi; [done|].
  destruct (b =? c) eqn:E; bool_to_prop.
  - injection Hi as <-. subst. cbn. split; [done|]. split; [apply not_elem_of_nil|lia].
  - destruct (index_byte c r) as [k|]; [|done]. injection Hi as <-. destruct (IH k eq_refl) as (H1 & H2 & H3).
    cbn. split; [by rewrite <- H1|]. split; [|lia]. apply not_elem_of_cons. split; [congruence|done].
Qed.

Lemma last_index_byte_None c s : last_index_byte c s = None <-> c ∉ s.
Proof.
  induction s as [|b r IH]; cbn [last_index_byte]; [split; [intros _ H; by apply elem_of_nil in H|done]|].
  rewrite not_elem_of_cons. destruct (last_index_byte c r).
  - split; [done|]. intros [_ H]. by apply IH in H.
  - destruct (b =? c) eqn:E; bool_to_prop; split; try done.
    + intros [H _]. congruence.
    + intros _. split; [congruence|]. by apply IH.
Qed.

Lemma last_index_byte_app c a b : c ∉ b -> last_index_byte c (a ++ (c :: b)) = Some (length a).
Proof.
  intros Hb. induction a as [|x a IH]; cbn [last_index_byte app].
  - apply last_index_byte_None in Hb. by rewrite Hb, Z.eqb_refl.
  - by rewrite IH.
Qed.

Lemma last_index_byte_Some c s i :
  last_index_byte c s = Some i -> s = take i s ++ (c :: drop (S i) s) /\ (c ∉ drop (S i) s) /\ (i < length s)%nat.
Proof.
  revert i. induction s as [|b r IH]; intros i Hi; cbn [last_index_byte] in Hi; [done|].
  destruct (last_index_byte c r) as [k|] eqn:E.
  - injection Hi as <-. destruct (IH k eq_refl) as (H1 & H2 & H3). cbn. split; [by rewrite <- H1|]. split; [done|lia].
  - destruct (b =? c) eqn:Eb; [|done]. injection Hi as <-. bool_to_prop. subst. cbn. split; [done|].
    split; [by apply last_index_byte_None|lia].
Qed.

(** ** [net.SplitHostPort] and [net.JoinHostPort] *)

Definition SplitHostPort (s : bytes) : option (bytes * bytes) :=
  let checked (host : bytes) (j k i : nat) :=
    match index_byte ch_lbracket (drop j s), index_byte ch_rbracket (drop k s) with
    | None, None => Some (host, drop (S i) s)
    | _, _ => None
    end in
  match last_index_byte ch_colon s with
  | None => None
  | Some i =>
      if nth 0 s 0 =? ch_lbracket then
        match index_byte ch_rbracket s with
        | None => None
        | Some stop => if (S stop =? i)%nat then checked (slice 1 stop s) 1%nat (S stop) i else None
        end
      else
        let host := take i s in
        match index_byte ch_colon host with
        | Some _ => None
        | None => checked host 0%nat 0%nat i
        end
  end.

Definition JoinHostPort (host port : bytes) : bytes :=
  match index_byte ch_colon host with
  | Some _ => [ch_lbracket] ++ host ++ [ch_rbracket; ch_colon] ++ port
  | None => host ++ [ch_colon] ++ port
  end.

Definition no_brackets (s : bytes) : Prop := (ch_lbracket ∉ s) /\ (ch_rbracket ∉ s).

Lemma not_elem_of_take {A} (x : A) n l : x ∉ l -> x ∉ take n l.
Proof. intros H Hx. apply H. rewrite <- (take_drop n l). apply elem_of_app. by left. Qed.

Lemma not_elem_of_drop {A} (x : A) n l : x ∉ l -> x ∉ drop n l.
Proof. intros H Hx. apply H. rewrite <- (take_drop n l). apply elem_of_app. by right. Qed.

(** What a split leaves: a host without brackets, a port without brackets or
    colons, and never more bytes than there were. *)
Lemma SplitHostPort_parts s host port :
  SplitHostPort s = Some (host, port) ->
  no_brackets host /\ no_brackets port /\ (ch_colon ∉ port) /\
  (length (JoinHostPort host port) <= length s)%nat /\
  ((s = JoinHostPort host port) \/ (s = [ch_lbracket] ++ host ++ [ch_rbracket; ch_colon] ++ port)).
Proof.
  unfold SplitHostPort. intros Hs. destruct (last_index_byte ch_colon s) as [i|] eqn:Ei; [|done].
  destruct (last_index_byte_Some _ _ _ Ei) as (Hsplit & Hport & Hi). destruct (nth 0 s 0 =? ch_lbracket) eqn:E0.
  - destruct (index_byte ch_rbracket s) as [e|] eqn:Ee; [|done]. destruct (Nat.eqb_spec (S e) i) as [<-|]; [|done].
    destruct (index_byte ch_lbracket (drop 1 s)) eqn:El; [done|]. destruct (index_byte ch_rbracket (drop (S e) s)) eqn:Er; [done|].
    injection Hs as <- <-. apply index_byte_None in El, Er. destruct (index_byte_Some _ _ _ Ee) as (He & Hnr & Hel).
    destruct s as [|b s]; [done|]. cbn in E0. bool_to_prop. subst b.
    assert (Hpos : (0 < e)%nat). { destruct e; [|lia]. cbn in He. injection He as He. done. }
    assert (Hh : slice 1 e (ch_lbracket :: s) = take (e - 1) s) by (unfold slice; cbn [drop]; done).
    destruct e as [|e]; [lia|]. cbn [Nat.sub] in Hh. rewrite Nat.sub_0_r in Hh. rewrite Hh. cbn [drop] in *.
    assert (Hsh : s = take e s ++ [ch_rbracket; ch_colon] ++ drop (S (S e)) s).
    { cbn [take drop] in He. injection He as He.
      assert (Hd : drop (S e) s = ch_colon :: drop (S (S e)) s).
      { cbn [take drop] in Hsplit. injection Hsplit as Hsp.
        pose proof (f_equal (drop (S e)) Hsp) as Hd. rewrite Hd at 1. rewrite drop_app_length' by (rewrite length_take; cbn in Hi; lia).
        done. }
      rewrite He at 1. by rewrite Hd. }
    split; [split; [by apply not_elem_of_take|cbn [take] in Hnr; apply not_elem_of_cons in Hnr; tauto]|].
    assert (Hpb : no_brackets (drop (S (S e)) s)).
    { split; [by apply not_elem_of_drop|]. replace (S (S e)) with (S e + 1)%nat by lia. rewrite <- drop_drop. by apply not_elem_of_drop. }
    split; [done|]. split; [done|]. split; [|right; cbn; by f_equal].
    pose proof (f_equal length Hsh) as Hl. rewrite !length_app in Hl. cbn [length] in Hl.
    unfold JoinHostPort. destruct (index_byte ch_colon (take e s)); rewrite !length_app; cbn [length]; lia.
  - destruct (index_byte ch_colon (take i s)) eqn:Ec; [done|].
    destruct (index_byte ch_lbracket (drop 0 s)) eqn:El; [done|]. destruct (index_byte ch_rbracket (drop 0 s)) eqn:Er; [done|].
    injection Hs as <- <-. apply index_byte_None in El, Er. cbn [drop] in El, Er.
    unfold no_brackets. split; [split; by apply not_elem_of_take|]. split; [split; by apply not_elem_of_drop|]. split; [done|].
    unfold JoinHostPort. rewrite Ec. split; [|by left].
    pose proof (f_equal length Hsplit) as Hl. rewrite length_app in Hl. cbn [length] in Hl.
    rewrite !length_app. cbn [length]. lia.
Qed.

(** Joining is undone by splitting. *)
Lemma Split_Join host port :
  no_brackets host -> no_brackets port -> ch_colon ∉ port ->
  SplitHostPort (JoinHostPort host port) = Some (host, port).
Proof.
  intros [Hl Hr] [Hpl Hpr] Hpc. unfold JoinHostPort. destruct (index_byte ch_colon host) as [k|] eqn:Ek.
  - set (s := [ch_lbracket] ++ host ++ [ch_rbracket; ch_colon] ++ port).
    assert (H1 : s = ([ch_lbracket] ++ host ++ [ch_rbracket]) ++ ch_colon :: port) by (unfold s; by rewrite <- !app_assoc).
    assert (H2 : s = ([ch_lbracket] ++ host) ++ ch_rbracket :: ch_colon :: port) by (unfold s; by rewrite <- !app_assoc).
    assert (L1 : last_index_byte ch_colon s = Some (S (S (length host)))).
    { rewrite H1, last_index_byte_app by done. f_equal. rewrite !length_app. cbn. lia. }
    assert (L2 : index_byte ch_rbracket s = Some (S (length host))).
    { rewrite H2, index_byte_app; [f_equal; rewrite length_app; cbn; lia|].
      apply not_elem_of_app. split; [|done]. intros Hx. apply list_elem_of_singleton in Hx. done. }
    unfold SplitHostPort. rewrite L1, L2. change (nth 0 s 0 =? ch_lbracket) with true. cbn iota.
    rewrite Nat.eqb_refl.
    assert (D1 : drop 1 s = host ++ [ch_rbracket; ch_colon] ++ port) by done.
    assert (D2 : drop (S (S (length host))) s = ch_colon :: port).
    { rewrite H1, drop_app_length' by (rewrite !length_app; cbn; lia). done. }
    assert (D3 : drop (S (S (S (length host)))) s = port).
    { pose proof (f_equal (drop 1) D2) as H. by rewrite drop_drop, Nat.add_1_r in H. }
    rewrite D1, D2, D3.
    assert (N1 : index_byte ch_lbracket (host ++ [ch_rbracket; ch_colon] ++ port) = None).
    { apply index_byte_None. rewrite !not_elem_of_app, !not_elem_of_cons. split; [done|]. split; [|done].
      split; [done|]. split; [done|]. apply not_elem_of_nil. }
    assert (N2 : index_byte ch_rbracket (ch_colon :: port) = None).
    { apply index_byte_None, not_elem_of_cons. done. }
    rewrite N1, N2. unfold slice. cbn [Nat.sub]. rewrite Nat.sub_0_r, D1. by rewrite take_app_length.
  - apply index_byte_None in Ek.
    assert (L1 : last_index_byte ch_colon (host ++ [ch_colon] ++ port) = Some (length host)) by (by apply last_index_byte_app).
    unfold SplitHostPort. rewrite L1.
    assert (N0 : (nth 0 (host ++ [ch_colon] ++ port) 0 =? ch_lbracket) = false).
    { destruct host as [|b h]; [done|]. cbn. apply not_elem_of_cons in Hl as [Hb _]. lia. }
    rewrite N0, take_app_length. apply index_byte_None in Ek. rewrite Ek. cbn [drop].
    assert (N1 : forall c, c <> ch_colon -> c ∉ host -> c ∉ port -> index_byte c (host ++ [ch_colon] ++ port) = None).
    { intros c Hc Hh Hp. apply index_byte_None. rewrite !not_elem_of_app, not_elem_of_cons. split; [done|]. split; [|done].
      split; [done|apply not_elem_of_nil]. }
    rewrite !N1 by done. do 2 f_equal. change (host ++ [ch_colon] ++ port) with (host ++ ch_colon :: port).
    replace (S (length host)) with (length host + 1)%nat by lia. rewrite <- drop_drop, drop_app_length. done.
Qed.

(** ** [strings.TrimSpace] *)

(** The encodings of the runes [unicode.IsSpace] accepts.  No encoding is a
    suffix of another, and the byte before a rune does not change how the rune
    is decoded from the end, so trimming strips encodings. *)
Definition space_runes : list bytes :=
  [[9]; [10]; [11]; [12]; [13]; [32]; [194; 133]; [194; 160]; [225; 154; 128]] ++
  map (fun i => [226; 128; 128 + Z.of_nat i]) (seq 0 11) ++
  [[226; 128; 168]; [226; 128; 169]; [226; 128; 175]; [226; 129; 159]; [227; 128; 128]].

Fixpoint has_prefix (s p : bytes) : bool :=
  match p, s with
  | [], _ => true
  | b :: p', c :: s' => (b =? c) && has_prefix s' p'
  | _ :: _, [] => false
  end.

Definition has_suffix (s p : bytes) : bool :=
  (len p <=? len s) && bool_decide (drop (length s - length p) s = p).

Fixpoint trim_left (fuel : nat) (s : bytes) : bytes :=
  match fuel with
  | O => s
  | S fuel' =>
      match List.find (has_prefix s) space_runes with
      | Some r => trim_left fuel' (drop (length r) s)
      | None => s
      end
  end.

Fixpoint trim_right (fuel : nat) (s : bytes) : bytes :=
  match fuel with
  | O => s
  | S fuel' =>
      match List.find (has_suffix s) space_runes with
      | Some r => trim_right fuel' (take (length s - length r) s)
      | None => s
      end
  end.

(** Every strip removes a byte, which bounds the loops. *)
Definition TrimSpace (s : bytes) : bytes :=
  let s := trim_left (length s) s in trim_right (length s) s.

Definition leading_space (s : bytes) : bool := existsb (has_prefix s) space_runes.
Definition trailing_space (s : bytes) : bool := existsb (has_suffix s) space_runes.

Lemma find_existsb {A} (f : A -> bool) l : existsb f l = false -> List.find f l = None.
Proof.
  induction l as [|x l IH]; cbn; [done|]. intros He. apply orb_false_iff in He as [H1 H2]. by rewrite H1, IH.
Qed.

Lemma TrimSpace_id s : leading_space s = false -> trailing_space s = false -> TrimSpace s = s.
Proof.
  intros Hl Ht. unfold TrimSpace.
  assert (H1 : trim_left (length s) s = s) by (destruct (length s); [done|]; cbn [trim_left]; by rewrite (find_existsb _ _ Hl)).
  rewrite H1. destruct (length s); [done|]. cbn [trim_right]. by rewrite (find_existsb _ _ Ht).
Qed.

(** A string that ends in a byte no white space ends with. *)
Lemma trailing_digit s d : 48 <= d <= 57 -> trailing_space (s ++ [d]) = false.
Proof.
  intros Hd. unfold trailing_space. apply not_true_iff_false. intros He. apply existsb_exists in He as (r & Hr & Hs).
  unfold has_suffix in Hs. apply andb_true_iff in Hs as [Hl Hs]. apply bool_decide_eq_true in Hs.
  assert (Hend : forall r, r ∈ space_runes -> exists r' b, r = r' ++ [b] /\ (b < 48 \/ 57 < b)).
  { apply Forall_forall. unfold space_runes. cbn [app map seq].
    repeat (constructor; [first [by exists []; eexists; split; [done|lia] | by eexists [_]; eexists; split; [done|lia]
                                | by eexists [_; _]; eexists; split; [done|lia]]|]). constructor. }
  destruct (Hend r ltac:(by apply list_elem_of_In)) as (r' & b & -> & Hb).
  rewrite !length_app in Hs. cbn [length] in Hs.
  assert (Hlen : (length r' <= length s)%nat) by (rewrite !len_app in Hl; unfold len in Hl; cbn in Hl; lia).
  replace (length s + 1 - (length r' + 1))%nat with (length s - length r')%nat in Hs by lia.
  rewrite drop_app_le in Hs by lia. apply app_inj_tail in Hs as [_ ->]. lia.
Qed.

(** ** [strconv.Atoi] and [strconv.Itoa] *)

Definition is_digit (b : Z) : bool := (48 <=? b) && (b <=? 57).

Definition digits_val (s : bytes) : Z := fold_left (fun acc b => acc * 10 + (b - 48)) s 0.

(** [None] for a syntax or range error. *)
Definition Atoi (s : bytes) : option Z :=
  let '(neg, ds) := match s with
    | b :: r => if b =? 43 then (false, r) else if b =? 45 then (true, r) else (false, s)
    | [] => (false, [])
    end in
  if (len ds =? 0) || negb (forallb is_digit ds) then None
  else
    let n := if neg then - digits_val ds else digits_val ds in
    if (n <? - 2 ^ 63) || (n >=? 2 ^ 63) then None else Some n.

Fixpoint digits (fuel : nat) (n : Z) : bytes :=
  match fuel with
  | O => [48 + n mod 10]
  | S fuel' => if n <? 10 then [48 + n] else digits fuel' (n / 10) ++ [48 + n mod 10]
  end.

Definition Itoa (n : Z) : bytes :=
  if n <? 0 then [45] ++ digits (Z.to_nat (Z.log2 (- n))) (- n) else digits (Z.to_nat (Z.log2 n)) n.

Lemma digits_val_snoc s b : digits_val (s ++ [b]) = digits_val s * 10 + (b - 48).
Proof. unfold digits_val. by rewrite fold_left_app. Qed.

Lemma digits_spec fuel : forall n, 0 <= n < 10 * 2 ^ Z.of_nat fuel ->
  digits_val (digits fuel n) = n /\ Forall (fun b => 48 <= b <= 57) (digits fuel n) /\
  exists l d, digits fuel n = l ++ [d].
Proof.
  induction fuel as [|fuel IH]; intros n Hn; cbn [digits].
  - change (2 ^ Z.of_nat 0) with 1 in Hn. rewrite Z.mod_small by lia. split; [cbn; lia|].
    split; [constructor; [lia|constructor]|by exists []; eexists].
  - destruct (n <? 10) eqn:E; bool_to_prop.
    + split; [cbn; lia|]. split; [constructor; [lia|constructor]|by exists []; eexists].
    + pose proof (Z.div_mod n 10 ltac:(lia)) as Hd. pose proof (Z.mod_pos_bound n 10 ltac:(lia)) as Hm.
      assert (Hp : 2 ^ Z.of_nat (S fuel) = 2 * 2 ^ Z.of_nat fuel) by (rewrite Nat2Z.inj_succ, Z.pow_succ_r; lia).
      destruct (IH (n / 10)) as (H1 & H2 & _).
      { split; [apply Z.div_pos; lia|]. apply Z.div_lt_upper_bound; lia. }
      rewrite digits_val_snoc, H1. split; [lia|]. split; [|by eexists _, _].
      apply Forall_app. split; [done|]. constructor; [lia|constructor].
Qed.

Lemma Itoa_spec n : 0 <= n ->
  digits_val (Itoa n) = n /\ Forall (fun b => 48 <= b <= 57) (Itoa n) /\ exists l d, Itoa n = l ++ [d].
Proof.
  intros Hn. unfold Itoa. replace (n <? 0) with false by lia. apply digits_spec.
  rewrite Z2Nat.id by apply Z.log2_nonneg. destruct (decide (n = 0)) as [->|Hne]; [cbn; lia|].
  pose proof (Z.log2_spec n ltac:(lia)) as [_ H]. rewrite Z.pow_succ_r in H by apply Z.log2_nonneg. lia.
Qed.

Lemma Atoi_Itoa n : 0 <= n < 2 ^ 63 -> Atoi (Itoa n) = Some n.
Proof.
  intros Hn. destruct (Itoa_spec n ltac:(lia)) as (Hv & Hd & (l & d & Hl)). unfold Atoi.
  assert (Hdig : forallb is_digit (Itoa n) = true).
  { apply forallb_forall. intros b Hb. rewrite Forall_forall in Hd. apply list_elem_of_In, Hd in Hb. unfold is_digit. lia. }
  assert (Hlen : (len (Itoa n) =? 0) = false) by (rewrite Hl, len_app; pose proof (len_nonneg l); change (len [d]) with 1; lia).
  destruct (Itoa n) as [|b r] eqn:E; [done|]. apply Forall_cons in Hd as [Hb Hr].
  replace (b =? 43) with false by lia. replace (b =? 45) with false by lia. rewrite Hlen, Hdig. cbn [orb negb].
  rewrite Hv. replace (n <? - 2 ^ 63) with false by lia. by replace (n >=? 2 ^ 63) with false by lia.
Qed.

(** The canonical digits are no longer than what was parsed. *)
Lemma digits_length fuel : forall n k, 0 <= n < 10 ^ Z.of_nat k -> (0 < k)%nat -> n < 10 * 2 ^ Z.of_nat fuel ->
  (length (digits fuel n) <= k)%nat.
Proof.
  induction fuel as [|fuel IH]; intros n k Hn Hk Hf; cbn [digits]; [cbn; lia|].
  destruct (n <? 10) eqn:E; bool_to_prop; [cbn; lia|]. rewrite length_app. cbn [length].
  destruct k as [|k]; [lia|]. rewrite Nat2Z.inj_succ, Z.pow_succ_r in Hn by lia.
  destruct k as [|k].
  { change (10 ^ Z.of_nat 0) with 1 in Hn. lia. }
  assert (length (digits fuel (n / 10)) <= S k)%nat; [|lia].
  apply IH; [|lia|].
  - split; [apply Z.div_pos; lia|]. apply Z.div_lt_upper_bound; lia.
  - rewrite Nat2Z.inj_succ, Z.pow_succ_r in Hf by lia. pose proof (Z.pow_pos_nonneg 2 (Z.of_nat fuel) ltac:(lia) ltac:(lia)).
    apply Z.div_lt_upper_bound; lia.
Qed.

Lemma digits_val_range s : Forall (fun b => 48 <= b <= 57) s -> 0 <= digits_val s < 10 ^ len s.
Proof.
  induction s as [|b s IH] using rev_ind; intros Hs; [change (0 <= 0 < 1); lia|].
  apply Forall_app in Hs as [Hs Hb]. apply Forall_cons in Hb as [Hb _]. specialize (IH Hs).
  rewrite digits_val_snoc, len_app. change (len [b]) with 1. rewrite Z.pow_add_r by (pose proof (len_nonneg s); lia).
  change (10 ^ 1) with 10. lia.
Qed.

Lemma Itoa_length_Atoi s n : Atoi s = Some n -> 0 <= n -> (length (Itoa n) <= length s)%nat.
Proof.
  intros Ha Hn. unfold Atoi in Ha.
  set (r := match s with [] => _ | _ => _ end) in Ha. destruct r as [neg ds] eqn:Er.
  assert (Hds : (length ds <= length s)%nat).
  { subst r. destruct s as [|b q]; [by injection Er as <- <-|].
    destruct (b =? 43); [injection Er as <- <-; cbn; lia|]. destruct (b =? 45); injection Er as <- <-; cbn; lia. }
  destruct ((len ds =? 0) || negb (forallb is_digit ds)) eqn:E; [done|]. apply orb_false_iff in E as [E1 E2].
  apply negb_false_iff in E2. rewrite forallb_forall in E2.
  assert (Hd : Forall (fun b => 48 <= b <= 57) ds).
  { apply Forall_forall. intros b Hb. apply list_elem_of_In, E2 in Hb. unfold is_digit in Hb. lia. }
  pose proof (digits_val_range ds Hd) as Hr. bool_to_prop.
  destruct (_ || _) in Ha; [done|]. injection Ha as <-.
  etransitivity; [|exact Hds]. unfold Itoa. set (m := if neg then - digits_val ds else digits_val ds) in *.
  assert (Hm : 0 <= m < 10 ^ len ds) by (subst m; destruct neg; lia).
  replace (m <? 0) with false by lia. apply digits_length; [done|unfold len in E1; lia|].
  rewrite Z2Nat.id by apply Z.log2_nonneg. destruct (decide (m = 0)) as [->|Hne]; [cbn; lia|].
  pose proof (Z.log2_spec m ltac:(lia)) as [_ H]. rewrite Z.pow_succ_r in H by apply Z.log2_nonneg. lia.
Qed.

(** ** [net.IP] as text *)

(** [IP.To4] and [IP.To16]; [None] is nil. *)
Definition To4 (ip : bytes) : option bytes :=
  if len ip =? 4 then Some ip
  else if (len ip =? 16) && bool_decide (take 12 ip = replicate 10 0 ++ [255; 255]) then Some (drop 12 ip)
  else None.

Definition To16 (ip : bytes) : option bytes :=
  if len ip =? 4 then Some (replicate 10 0 ++ [255; 255] ++ ip)
  else if len ip =? 16 then Some ip
  else None.

Definition ipv4_string (ip : bytes) : bytes :=
  Itoa (nth 0 ip 0) ++ [46] ++ Itoa (nth 1 ip 0) ++ [46] ++ Itoa (nth 2 ip 0) ++ [46] ++ Itoa (nth 3 ip 0).

Definition hex_digit (d : Z) : Z := if d <? 10 then 48 + d else 87 + d.

(** [appendHex] of a 16-bit group. *)
Definition hex16 (x : Z) : bytes :=
  (if x >=? 4096 then [hex_digit (Z.shiftr x 12)] else []) ++
  (if x >=? 256 then [hex_digit (Z.land (Z.shiftr x 8) 15)] else []) ++
  (if x >=? 16 then [hex_digit (Z.land (Z.shiftr x 4) 15)] else []) ++
  [hex_digit (Z.land x 15)].

(** The eight groups of an IPv6 address. *)
Definition v6groups (ip : bytes) : list Z :=
  map (fun i => nth (2 * i) ip 0 * 256 + nth (2 * i + 1) ip 0) (seq 0 8).

Fixpoint zeros_from (gs : list Z) : nat :=
  match gs with g :: r => if g =? 0 then S (zeros_from r) else O | [] => O end.

(** The first longest run of at least two zero groups, as start and length. *)
Fixpoint zero_run (i : nat) (gs : list Z) (best : nat * nat) : nat * nat :=
  match gs with
  | [] => best
  | _ :: r =>
      let l := zeros_from gs in
      zero_run (S i) r (if (2 <=? l)%nat && (snd best <? l)%nat then (i, l) else best)
  end.

Fixpoint v6_print (fuel i : nat) (gs : list Z) (zs ze : nat) : bytes :=
  match fuel with
  | O => []
  | S fuel' =>
      if (8 <=? i)%nat then []
      else if (i =? zs)%nat && (zs <? ze)%nat then
        [58; 58] ++ (if (8 <=? ze)%nat then [] else hex16 (nth ze gs 0) ++ v6_print fuel' (S ze) gs zs ze)
      else (if (0 <? i)%nat then [58] else []) ++ hex16 (nth i gs 0) ++ v6_print fuel' (S i) gs zs ze
  end.

Definition ipv6_string (ip : bytes) : bytes :=
  let gs := v6groups ip in
  let '(zs, n) := zero_run 0 gs (8%nat, 0%nat) in
  v6_print 9 0 gs zs (zs + n).

(** [IP.String] of an address of 4 or 16 bytes. *)
Definition IP_String (ip : bytes) : bytes :=
  match To4 ip with
  | Some p4 => ipv4_string p4
  | None => ipv6_string ip
  end.

(** [parseIPv4Fields]: the octets read so far, the value and digit count of the
    current one, and whether a byte was read before. *)
Fixpoint parse_v4 (s : bytes) (fields : list Z) (val digLen : Z) (prev : option Z) : option bytes :=
  match s with
  | [] => if len fields <? 3 then None else Some (fields ++ [val])
  | c :: r =>
      if is_digit c then
        if (digLen =? 1) && (val =? 0) then None
        else
          let val := val * 10 + (c - 48) in
          if val >? 255 then None else parse_v4 r fields val (digLen + 1) (Some c)
      else if c =? 46 then
        if match prev with None => true | Some p => p =? 46 end || (len r =? 0) then None
        else if len fields =? 3 then None
        else parse_v4 r (fields ++ [val]) 0 0 (Some c)
      else None
  end.

Definition parseIPv4 (s : bytes) : option bytes := parse_v4 s [] 0 0 None.

Definition hex_val (c : Z) : option Z :=
  if is_digit c then Some (c - 48)
  else if (97 <=? c) && (c <=? 102) then Some (c - 87)
  else if (65 <=? c) && (c <=? 70) then Some (c - 55)
  else None.

(** The hexadecimal number at the head of [s]: its value, its digits, and the
    rest; [None] when it has more than four digits. *)
Fixpoint hex_group (s : bytes) (acc : Z) (off : nat) : option (Z * nat * bytes) :=
  match s with
  | c :: r =>
      match hex_val c with
      | Some d => if (3 <? off)%nat then None else hex_group r (acc * 16 + d) (S off)
      | None => Some (acc, off, s)
      end
  | [] => Some (acc, off, [])
  end.

(** The loop of [parseIPv6]: [ip] holds what has been read, [ellipsis] where the
    double colon stood. *)
Fixpoint parse_v6 (fuel : nat) (s ip : bytes) (ellipsis : option nat) : option (bytes * bytes * option nat) :=
  match fuel with
  | O => Some (s, ip, ellipsis)
  | S fuel' =>
      if (16 <=? length ip)%nat then Some (s, ip, ellipsis)
      else
        match hex_group s 0 0 with
        | None => None
        | Some (acc, off, rest) =>
            if (off =? 0)%nat then None
            else
              match rest with
              | 46 :: _ =>
                  if match ellipsis with None => negb (length ip =? 12)%nat | Some _ => false end then None
                  else if (16 <? length ip + 4)%nat then None
                  else match parseIPv4 s with Some f => Some ([], ip ++ f, ellipsis) | None => None end
              | _ =>
                  let ip := ip ++ [acc / 256; acc mod 256] in
                  match rest with
                  | [] => Some ([], ip, ellipsis)
                  | c :: s1 =>
                      if negb (c =? 58) || (len s1 =? 0) then None
                      else
                        match s1 with
                        | 58 :: s2 =>
                            match ellipsis with
                            | Some _ => None
                            | None => if len s2 =? 0 then Some ([], ip, Some (length ip))
                                      else parse_v6 fuel' s2 ip (Some (length ip))
                            end
                        | _ => parse_v6 fuel' s1 ip ellipsis
                        end
                  end
              end
        end
  end.

Definition parseIPv6 (s : bytes) : option bytes :=
  let '(ellipsis, s1) := match s with 58 :: 58 :: r => (Some 0%nat, r) | _ => (None, s) end in
  match ellipsis, s1 with
  | Some _, [] => Some (replicate 16 0)
  | _, _ =>
      match parse_v6 9 s1 [] ellipsis with
      | None => None
      | Some (rest, ip, ellipsis) =>
          if negb (len rest =? 0) then None
          else if (length ip <? 16)%nat then
            match ellipsis with
            | None => None
            | Some e => Some (take e ip ++ replicate (16 - length ip) 0 ++ drop e ip)
            end
          else match ellipsis with Some _ => None | None => Some ip end
      end
  end.

(** [ParseIP]: the 16-byte form.  A zone is refused. *)
Fixpoint parse_kind (s : bytes) : option bool :=
  match s with
  | [] => None
  | c :: r => if c =? 46 then Some true else if c =? 58 then Some false else if c =? 37 then None else parse_kind r
  end.

Definition ParseIP (s : bytes) : option bytes :=
  match parse_kind s with
  | None => None
  | Some true => match parseIPv4 s with Some f => To16 f | None => None end
  | Some false => match index_byte 37 s with Some _ => None | None => parseIPv6 s end
  end.

(** ** Parsed addresses have sixteen bytes *)

Lemma parse_v4_length s : forall fields val n prev f,
  len fields <= 3 -> parse_v4 s fields val n prev = Some f -> length f = 4%nat.
Proof.
  induction s as [|c r IH]; intros fields val n prev f Hf Hp; cbn [parse_v4] in Hp.
  - destruct (len fields <? 3) eqn:E; [done|]. injection Hp as <-. bool_to_prop. rewrite length_app. unfold len in *. cbn. lia.
  - destruct (is_digit c).
    + destruct (_ && _); [done|]. destruct (_ >? 255); [done|]. by apply IH in Hp.
    + destruct (c =? 46); [|done]. destruct (_ || _); [done|]. destruct (len fields =? 3) eqn:E; [done|]. bool_to_prop.
      apply IH in Hp; [done|]. rewrite len_app. change (len [val]) with 1. lia.
Qed.

Lemma parseIPv4_length s f : parseIPv4 s = Some f -> length f = 4%nat.
Proof. by apply parse_v4_length. Qed.

Lemma parse_v6_length fuel : forall s ip e rest ip' e',
  (Nat.even (length ip) = true) -> (length ip <= 16)%nat -> parse_v6 fuel s ip e = Some (rest, ip', e') ->
  (length ip' <= 16)%nat.
Proof.
  induction fuel as [|fuel IH]; intros s ip e rest ip' e' Hev Hle Hp; cbn [parse_v6] in Hp; [by injection Hp as <- <- <-|].
  destruct (16 <=? length ip)%nat eqn:E16; [by injection Hp as <- <- <-|]. apply Nat.leb_gt in E16.
  destruct (hex_group s 0 0) as [[[acc off] r1]|]; [|done]. destruct (off =? 0)%nat; [done|].
  assert (Hlt : (length ip + 2 <= 16)%nat).
  { destruct (decide (length ip = 15%nat)) as [He|]; [|lia]. by rewrite He in Hev. }
  set (ip2 := ip ++ [acc / 256; acc mod 256]) in Hp.
  assert (Hl2 : length ip2 = (length ip + 2)%nat) by (unfold ip2; rewrite length_app; done).
  assert (Hev2 : Nat.even (length ip2) = true) by (rewrite Hl2, Nat.even_add, Hev; done).
  assert (Hnext : forall s1 e1, parse_v6 fuel s1 ip2 e1 = Some (rest, ip', e') -> (length ip' <= 16)%nat).
  { intros s1 e1 Hq. eapply (IH s1 ip2); [done|lia|exact Hq]. }
  assert (Htail : match r1 with
    | [] => Some ([], ip2, e)
    | c :: s1 =>
        if negb (c =? 58) || (len s1 =? 0) then None
        else match s1 with
             | 58 :: s2 =>
                 match e with
                 | Some _ => None
                 | None => if len s2 =? 0 then Some ([], ip2, Some (length ip2)) else parse_v6 fuel s2 ip2 (Some (length ip2))
                 end
             | _ => parse_v6 fuel s1 ip2 e
             end
    end = Some (rest, ip', e') -> (length ip' <= 16)%nat).
  { clear Hp. intros Hp. destruct r1 as [|c s1]; [injection Hp as <- <- <-; lia|]. destruct (_ || _); [done|].
    repeat case_match; simplify_eq; try lia; by eapply Hnext. }
  repeat case_match; simplify_eq; try (by apply Htail); try lia.
  all: rewrite length_app; match goal with H : parseIPv4 _ = Some _ |- _ => apply parseIPv4_length in H; rewrite H end.
  all: match goal with H : (16 <? _)%nat = false |- _ => apply Nat.ltb_ge in H; lia end.
Qed.

Lemma ParseIP_length s ip : ParseIP s = Some ip -> length ip = 16%nat.
Proof.
  unfold ParseIP. destruct (parse_kind s) as [[]|]; [| |done].
  - destruct (parseIPv4 s) as [f|] eqn:E; [|done]. apply parseIPv4_length in E. unfold To16, len. rewrite E.
    change (Z.of_nat 4 =? 4) with true. cbn iota. intros [= <-]. cbn [app replicate length]. by rewrite E.
  - destruct (index_byte 37 s); [done|]. unfold parseIPv6.
    destruct (match s with 58 :: 58 :: r => (Some 0%nat, r) | _ => (None, s) end) as [e s1].
    assert (Hmain : match parse_v6 9 s1 [] e with
      | None => None
      | Some (rest, ip0, ellipsis) =>
          if negb (len rest =? 0) then None
          else if (length ip0 <? 16)%nat then
            match ellipsis with
            | None => None
            | Some e0 => Some (take e0 ip0 ++ replicate (16 - length ip0) 0 ++ drop e0 ip0)
            end
          else match ellipsis with Some _ => None | None => Some ip0 end
      end = Some ip -> length ip = 16%nat).
    { destruct (parse_v6 9 s1 [] e) as [[[rest ip0] el]|] eqn:Ep; [|done].
      pose proof (parse_v6_length 9 s1 [] e rest ip0 el eq_refl ltac:(cbn; lia) Ep) as Hle. destruct (negb _); [done|].
      destruct (length ip0 <? 16)%nat eqn:El; [apply Nat.ltb_lt in El|apply Nat.ltb_ge in El].
      - destruct el as [e0|]; [|done]. intros [= <-]. rewrite !length_app, length_replicate, length_take, length_drop. lia.
      - destruct el; [done|]. intros [= <-]. lia. }
    destruct e as [e|]; [destruct s1; [by intros [= <-]|exact Hmain]|exact Hmain].
Qed.

(** An address prints as its four-byte form when it has one. *)
Lemma IP_String_To4 ip ip4 : To4 ip = Some ip4 -> IP_String ip4 = IP_String ip /\ length ip4 = 4%nat.
Proof.
  intros H4. assert (Hlen : length ip4 = 4%nat).
  { unfold To4 in H4. destruct (len ip =? 4) eqn:E; bool_to_prop; [injection H4 as <-; unfold len in E; lia|].
    destruct (_ && _) eqn:E2; [|done]. injection H4 as <-. apply andb_true_iff in E2 as [E2 _]. bool_to_prop. rewrite length_drop. unfold len in *. lia. }
  split; [|done]. unfold IP_String. rewrite H4. unfold To4, len. rewrite Hlen. done.
Qed.
