(* ===== verification/Session.v ===== *)
(** Flow metadata ([internal/session]): destinations and their canonical form,
    UDP packets, the payloads that open a flow, and reset payloads.

    Error values are named by the message the code builds; a Go string is the
    list of its bytes. *)

From S2P Require Import Prelude Frame GoNet.

(** ** [session.go] *)

Definition IsZeroSessionID (id : bytes) : bool := bool_decide (id = replicate 16 0).

Definition ResetProtocol : Z := 1.
Definition ResetAuthentication : Z := 2.
Definition ResetDestination : Z := 3.
Definition ResetFlowLimit : Z := 4.
Definition ResetTransport : Z := 5.

Definition ResetPayload (code : Z) (message : bytes) : bytes :=
  let message := if len message >? 256 then take 256 message else message in
  [code] ++ message.

(** ** [open.go] *)

Definition maxDestinationLength : Z := 255.

Inductive derror :=
| ErrEmptyOrLong | ErrNotHostPort | ErrControl | ErrPort
| ErrPayloadLength | ErrInvalidDestination (cause : derror)
| ErrUDPPayload | ErrUDPBounded | ErrUDPTruncated | ErrUDPDestLength | ErrUDPDestination (cause : derror) | ErrUDPLength
| ErrUDPAddr | ErrTokenSize (n : Z).

(** A rune up to a space, or DEL, is a byte of that value: the bytes of longer
    encodings are above 127. *)
Definition control_byte (b : Z) : bool := (b <=? 32) || (b =? 127).

Definition EncodeDestination (destination : bytes) : result derror bytes :=
  let destination := TrimSpace destination in
  if (len destination =? 0) || (len destination >? maxDestinationLength) then Err ErrEmptyOrLong
  else
    match SplitHostPort destination with
    | None => Err ErrNotHostPort
    | Some (host, port) =>
        if len host =? 0 then Err ErrNotHostPort
        else if existsb control_byte host then Err ErrControl
        else
          match Atoi port with
          | None => Err ErrPort
          | Some p => if (p <? 1) || (p >? 65535) then Err ErrPort else Ok (JoinHostPort host (Itoa p))
          end
    end.

Definition DecodeDestination (payload : bytes) : result derror bytes :=
  if (len payload =? 0) || (len payload >? maxDestinationLength) then Err ErrPayloadLength
  else
    match EncodeDestination payload with
    | Err e => Err (ErrInvalidDestination e)
    | Ok canonical => Ok canonical
    end.

(** ** [packet.go] *)

Definition UDPAssociationMarker : bytes := [87; 79; 85; 68; 1].
Definition packetDestinationLength : Z := 2.
Definition packetHeaderLength : Z := packetDestinationLength.
Definition maxUDPPayload : Z := 65507.
Definition MaxPacketPayload : Z := packetDestinationLength + maxDestinationLength + maxUDPPayload.

Definition IsUDPAssociation (payload : bytes) : bool := bool_decide (payload = UDPAssociationMarker).

Definition EncodeUDPPacket (destination payload : bytes) : result derror bytes :=
  match EncodeDestination destination with
  | Err e => Err e
  | Ok destinationBytes =>
      if len payload >? maxUDPPayload then Err ErrUDPPayload
      else if (len destinationBytes >? 65535) ||
              (len destinationBytes + packetHeaderLength + len payload >?
               maxUDPPayload + maxDestinationLength + packetHeaderLength) then Err ErrUDPBounded
      else Ok (be_bytes 2 (len destinationBytes) ++ destinationBytes ++ payload)
  end.

Definition DecodeUDPPacket (payload : bytes) : result derror (bytes * bytes) :=
  if len payload <? packetHeaderLength + 1 then Err ErrUDPTruncated
  else
    let destinationLength := be_val (slice 0 2 payload) in
    if (destinationLength =? 0) || (destinationLength >? maxDestinationLength) ||
       (packetHeaderLength + destinationLength >? len payload) then Err ErrUDPDestLength
    else
      match DecodeDestination (slice 2 (2 + Z.to_nat destinationLength) payload) with
      | Err e => Err (ErrUDPDestination e)
      | Ok destination =>
          let packet := drop (2 + Z.to_nat destinationLength) payload in
          if len packet >? maxUDPPayload then Err ErrUDPLength else Ok (destination, packet)
      end.

Definition UDPResumeMarker : bytes := [87; 79; 85; 68; 2].
Definition UDPResumeTokenSize : Z := 16.

Definition EncodeUDPResumeOpen (token : bytes) : result derror bytes :=
  if negb (len token =? 0) && negb (len token =? UDPResumeTokenSize) then Err (ErrTokenSize (len token))
  else Ok (UDPResumeMarker ++ token).

(** [None] is [ok] false; an empty token is nil. *)
Definition DecodeUDPResumeOpen (payload : bytes) : option bytes :=
  if (len payload <? len UDPResumeMarker) || negb (bool_decide (take 5 payload = UDPResumeMarker)) then None
  else
    let rest := drop 5 payload in
    if len rest =? 0 then Some []
    else if len rest =? UDPResumeTokenSize then Some rest
    else None.

Definition EncodeUDPResumeGrant (resumed : bool) (token : bytes) : bytes :=
  [if resumed then 1 else 0] ++ token.

Definition DecodeUDPResumeGrant (payload : bytes) : option (bool * bytes) :=
  if negb (len payload =? 1 + UDPResumeTokenSize) || (nth 0 payload 0 >? 1) then None
  else Some (nth 0 payload 0 =? 1, drop 1 payload).

(** ** The canonical form *)

Lemma JoinHostPort_last host p : 0 <= p -> exists s d, JoinHostPort host (Itoa p) = s ++ [d] /\ 48 <= d <= 57.
Proof.
  intros Hp. destruct (Itoa_spec p Hp) as (_ & Hd & (l & d & Hl)). rewrite Hl in *.
  apply Forall_app in Hd as [_ Hd]. apply Forall_cons in Hd as [Hd _]. unfold JoinHostPort.
  destruct (index_byte ch_colon host).
  - exists ([ch_lbracket] ++ host ++ [ch_rbracket; ch_colon] ++ l), d. by rewrite <- !app_assoc.
  - exists (host ++ [ch_colon] ++ l), d. by rewrite <- !app_assoc.
Qed.

Lemma Itoa_plain p : 0 <= p -> no_brackets (Itoa p) /\ (ch_colon ∉ Itoa p).
Proof.
  intros Hp. destruct (Itoa_spec p Hp) as (_ & Hd & _). rewrite Forall_forall in Hd.
  assert (forall c, 57 < c -> c ∉ Itoa p) by (intros c Hc Hin; apply Hd in Hin; lia).
  unfold no_brackets, ch_lbracket, ch_rbracket, ch_colon. auto with lia.
Qed.

Lemma trim_left_length fuel : forall s, (length (trim_left fuel s) <= length s)%nat.
Proof.
  induction fuel as [|fuel IH]; intros s; cbn [trim_left]; [lia|].
  destruct (List.find _ _) as [r|]; [|lia]. etransitivity; [apply IH|]. rewrite length_drop. lia.
Qed.

Lemma trim_right_length fuel : forall s, (length (trim_right fuel s) <= length s)%nat.
Proof.
  induction fuel as [|fuel IH]; intros s; cbn [trim_right]; [lia|].
  destruct (List.find _ _) as [r|]; [|lia]. etransitivity; [apply IH|]. rewrite length_take. lia.
Qed.

(** What [EncodeDestination] accepts, and what it returns. *)
Lemma EncodeDestination_Ok d c :
  EncodeDestination d = Ok c ->
  exists host port p, SplitHostPort (TrimSpace d) = Some (host, port) /\ host <> [] /\ existsb control_byte host = false /\
    Atoi port = Some p /\ 1 <= p <= 65535 /\ c = JoinHostPort host (Itoa p) /\
    no_brackets host /\ 0 < len c <= maxDestinationLength.
Proof.
  unfold EncodeDestination. set (s := TrimSpace d). intros He.
  destruct ((len s =? 0) || _) eqn:E1; [done|]. destruct (SplitHostPort s) as [[host port]|] eqn:Es; [|done].
  destruct (len host =? 0) eqn:E2; [done|]. destruct (existsb control_byte host) eqn:E3; [done|].
  destruct (Atoi port) as [p|] eqn:Ea; [|done]. destruct ((p <? 1) || (p >? 65535)) eqn:Ep; [done|]. injection He as <-.
  bool_to_prop. destruct (SplitHostPort_parts _ _ _ Es) as (Hb & _ & _ & Hlen & _).
  exists host, port, p. split; [done|]. split; [by intros ->|]. split; [done|]. split; [done|]. split; [lia|]. split; [done|].
  split; [done|]. pose proof (Itoa_length_Atoi _ _ Ea ltac:(lia)) as Hi.
  assert (Hj : (length (JoinHostPort host (Itoa p)) <= length (JoinHostPort host port))%nat).
  { unfold JoinHostPort. destruct (index_byte ch_colon host); rewrite !length_app; cbn [length]; lia. }
  destruct (JoinHostPort_last host p ltac:(lia)) as (u & x & Hu & _). rewrite Hu in *. rewrite length_app in Hj.
  unfold len in *. rewrite length_app. cbn [length] in *. lia.
Qed.

(** The canonical form is a fixed point, unless white space leads it. *)
Lemma EncodeDestination_fixed d c :
  EncodeDestination d = Ok c -> leading_space c = false -> EncodeDestination c = Ok c.
Proof.
  intros He Hlead. destruct (EncodeDestination_Ok d c He) as (host & port & p & _ & Hne & Hctl & _ & Hp & -> & Hb & Hlen).
  destruct (JoinHostPort_last host p ltac:(lia)) as (u & x & Hu & Hx).
  assert (Htrim : TrimSpace (JoinHostPort host (Itoa p)) = JoinHostPort host (Itoa p)).
  { apply TrimSpace_id; [done|]. rewrite Hu. by apply trailing_digit. }
  unfold EncodeDestination. rewrite Htrim. destruct (_ || _) eqn:E1; [bool_to_prop; lia|].
  destruct (Itoa_plain p ltac:(lia)) as [Hpb Hpc]. rewrite (Split_Join host (Itoa p) Hb Hpb Hpc).
  replace (len host =? 0) with false by (destruct host; [done|]; rewrite len_cons; pose proof (len_nonneg host); lia).
  rewrite Hctl, Atoi_Itoa by (pow2_eval; lia). by replace ((p <? 1) || (p >? 65535)) with false by lia.
Qed.

Lemma DecodeDestination_fixed d c :
  EncodeDestination d = Ok c -> leading_space c = false -> DecodeDestination c = Ok c.
Proof.
  intros He Hlead. destruct (EncodeDestination_Ok d c He) as (_ & _ & _ & _ & _ & _ & _ & _ & _ & _ & Hlen).
  unfold DecodeDestination. destruct (_ || _) eqn:E1; [bool_to_prop; lia|]. by rewrite (EncodeDestination_fixed d c).
Qed.

(** ** Payloads that open a flow *)

Lemma trim_right_prefix fuel : forall s, trim_right fuel s `prefix_of` s.
Proof.
  induction fuel as [|fuel IH]; intros s; cbn [trim_right]; [done|].
  destruct (List.find _ _) as [r|]; [|done]. etransitivity; [apply IH|]. apply prefix_take.
Qed.

(** A payload that begins with the marker's letters and a control byte is no
    destination: the control byte would be part of the host. *)
Lemma marker_not_destination b rest :
  b <= 32 -> exists e, DecodeDestination (87 :: 79 :: 85 :: 68 :: b :: rest) = Err e.
Proof.
  intros Hb. set (s := 87 :: 79 :: 85 :: 68 :: b :: rest). unfold DecodeDestination.
  destruct ((len s =? 0) || _); [by eexists|].
  assert (He : exists e, EncodeDestination s = Err e); [|destruct He as [e ->]; by eexists].
  unfold EncodeDestination, TrimSpace.
  replace (trim_left (length s) s) with s by reflexivity.
  pose proof (trim_right_prefix (length s) s) as Hpre. set (t := trim_right (length s) s) in *.
  destruct (_ || _); [by eexists|]. destruct (SplitHostPort t) as [[host port]|] eqn:Es; [|by eexists].
  destruct (len host =? 0); [by eexists|].
  assert (Hctl : existsb control_byte host = true); [|rewrite Hctl; by eexists].
  unfold SplitHostPort in Es. destruct (last_index_byte ch_colon t) as [i|] eqn:Ei; [|done].
  destruct (last_index_byte_Some _ _ _ Ei) as (Ht & _ & Hi).
  assert (Hti : t !! i = Some ch_colon).
  { rewrite Ht. rewrite lookup_app_r by (rewrite length_take; lia). rewrite length_take.
    by replace (i - i `min` length t)%nat with 0%nat by lia. }
  pose proof (prefix_lookup_Some _ _ _ _ Hti Hpre) as Hsi.
  assert (Hi5 : (5 <= i)%nat).
  { destruct i as [|[|[|[|[|i]]]]]; cbn in Hsi; try (injection Hsi; unfold ch_colon; lia); lia. }
  destruct Hpre as [k Hk].
  assert (H0 : (nth 0 t 0 =? ch_lbracket) = false).
  { destruct t as [|x t]; [cbn in Hi; lia|]. cbn in Hk. injection Hk as <- _. done. }
  rewrite H0 in Es. destruct (index_byte ch_colon (take i t)); [done|].
  destruct (index_byte ch_lbracket _); [done|]. destruct (index_byte ch_rbracket _); [done|]. injection Es as <- _.
  apply existsb_exists. exists b. split; [|unfold control_byte; lia].
  apply list_elem_of_In, (list_elem_of_lookup_2 _ 4%nat). rewrite lookup_take_lt by lia.
  assert (H4 : s !! 4%nat = Some b) by done. rewrite Hk, lookup_app_l in H4 by lia. done.
Qed.

(** ** Theorems *)

(** A UDP packet survives the wire.  A destination that is accepted has a
    canonical form which is its own canonical form and decodes to itself, and any
    datagram up to the UDP limit encoded for that destination decodes to the
    canonical destination and the same bytes, in a payload a frame may carry. *)
Theorem udp_packet_roundtrip d c payload :
  EncodeDestination d = Ok c -> leading_space c = false -> len payload <= maxUDPPayload ->
  EncodeDestination c = Ok c /\ DecodeDestination c = Ok c /\
  exists out, EncodeUDPPacket d payload = Ok out /\ DecodeUDPPacket out = Ok (c, payload) /\
    len out <= MaxPacketPayload <= protocol.MaxPayload.
Proof.
  intros He Hlead Hpay. pose proof (DecodeDestination_fixed d c He Hlead) as Hdec.
  destruct (EncodeDestination_Ok d c He) as (_ & _ & _ & _ & _ & _ & _ & _ & _ & _ & Hlen).
  split; [by apply (EncodeDestination_fixed d)|]. split; [done|].
  exists (be_bytes 2 (len c) ++ c ++ payload). unfold maxDestinationLength, maxUDPPayload, MaxPacketPayload in *.
  pose proof (len_nonneg payload) as Hn.
  assert (Hl : len (be_bytes 2 (len c) ++ c ++ payload) = 2 + len c + len payload).
  { rewrite !len_app. unfold len at 1. rewrite be_bytes_length. lia. }
  split; [|split; [|rewrite Hl; unfold packetDestinationLength, maxDestinationLength, maxUDPPayload; split; [lia|by vm_compute]]].
  - unfold EncodeUDPPacket. rewrite He. unfold maxUDPPayload, packetHeaderLength, packetDestinationLength, maxDestinationLength.
    destruct (len payload >? 65507) eqn:E1; [bool_to_prop; lia|]. destruct (_ || _) eqn:E2; [bool_to_prop; lia|done].
  - unfold DecodeUDPPacket. rewrite Hl. unfold packetHeaderLength, packetDestinationLength, maxDestinationLength.
    destruct (2 + len c + len payload <? 2 + 1) eqn:E1; [bool_to_prop; lia|].
    change (slice 0 2 (be_bytes 2 (len c) ++ c ++ payload)) with (be_bytes 2 (len c)).
    rewrite (be_val_be_bytes 2) by (change (256 ^ Z.of_nat 2) with 65536; lia).
    destruct (_ || _) eqn:E2; [bool_to_prop; lia|].
    assert (Hc : Z.to_nat (len c) = length c) by (unfold len; lia). rewrite Hc.
    assert (Hs : slice 2 (2 + length c) (be_bytes 2 (len c) ++ c ++ payload) = c).
    { unfold slice. replace (2 + length c - 2)%nat with (length c) by lia.
      change (drop 2 (be_bytes 2 (len c) ++ c ++ payload)) with (c ++ payload). apply take_app_length. }
    rewrite Hs, Hdec. change (drop (2 + length c) (be_bytes 2 (len c) ++ c ++ payload)) with (drop (length c) (c ++ payload)).
    rewrite drop_app_length. destruct (len payload >? maxUDPPayload) eqn:E3; [unfold maxUDPPayload in E3; bool_to_prop; lia|done].
Qed.

(** The payloads that open a flow are told apart.  The marker of a UDP
    association and the payload of a resumable one are not accepted as each
    other or as a destination, a token offered is the token read, and the grant
    that answers it reads back. *)
Theorem open_payloads_unambiguous payload token granted resumed :
  len granted = UDPResumeTokenSize ->
  (IsUDPAssociation payload = true ->
     DecodeUDPResumeOpen payload = None /\ exists e, DecodeDestination payload = Err e) /\
  (DecodeUDPResumeOpen payload = Some token ->
     IsUDPAssociation payload = false /\ (exists e, DecodeDestination payload = Err e) /\
     EncodeUDPResumeOpen token = Ok payload) /\
  (EncodeUDPResumeOpen token = Ok payload -> DecodeUDPResumeOpen payload = Some token) /\
  DecodeUDPResumeGrant (EncodeUDPResumeGrant resumed granted) = Some (resumed, granted).
Proof.
  intros Hg. split; [|split; [|split]].
  - intros Ha. apply bool_decide_eq_true in Ha as ->. split; [reflexivity|]. by apply marker_not_destination.
  - intros Hd. unfold DecodeUDPResumeOpen in Hd. destruct (_ || _) eqn:E; [done|].
    apply orb_false_iff in E as [_ E]. apply negb_false_iff, bool_decide_eq_true in E.
    assert (Hp : payload = UDPResumeMarker ++ drop 5 payload) by (rewrite <- E; by rewrite take_drop).
    assert (Ht : token = drop 5 payload /\ (len token = 0 \/ len token = UDPResumeTokenSize)).
    { destruct (len (drop 5 payload) =? 0) eqn:E0.
      - injection Hd as <-. bool_to_prop. apply len_zero_nil in E0. rewrite E0. split; [done|by left].
      - destruct (_ =? UDPResumeTokenSize) eqn:E1; [|done]. injection Hd as <-. bool_to_prop. split; [done|by right]. }
    destruct Ht as [-> Ht]. split; [|split].
    + apply bool_decide_eq_false. intros H. rewrite H in Hp. done.
    + rewrite Hp. apply marker_not_destination. lia.
    + unfold EncodeUDPResumeOpen. destruct (_ && _) eqn:E2; [|by rewrite <- Hp]. apply andb_true_iff in E2 as [E2 E3].
      apply negb_true_iff in E2, E3. bool_to_prop. lia.
  - unfold EncodeUDPResumeOpen. destruct (_ && _) eqn:E; [done|]. intros Hok.
    assert (payload = UDPResumeMarker ++ token) as -> by congruence. unfold DecodeUDPResumeOpen.
    change (take 5 (UDPResumeMarker ++ token)) with UDPResumeMarker. rewrite bool_decide_eq_true_2 by done.
    rewrite len_app. pose proof (len_nonneg token). replace (len UDPResumeMarker + len token <? len UDPResumeMarker) with false by lia.
    cbn [orb negb]. change (drop 5 (UDPResumeMarker ++ token)) with token.
    destruct (len token =? 0) eqn:E0; [bool_to_prop; apply len_zero_nil in E0; by rewrite E0|]. cbn [negb andb] in E.
    apply negb_false_iff in E. by rewrite E.
  - unfold DecodeUDPResumeGrant, EncodeUDPResumeGrant. rewrite len_app, Hg. change (len [_]) with 1. rewrite Z.eqb_refl.
    by destruct resumed.
Qed.

(** A host that begins with white space above the ASCII range is accepted and
    printed as a canonical form that is then refused: U+00A0 in brackets. *)
Theorem canonical_form_refused :
  EncodeDestination [91; 194; 160; 93; 58; 49] = Ok [194; 160; 58; 49] /\
  EncodeDestination [194; 160; 58; 49] = Err ErrNotHostPort /\
  DecodeUDPPacket ([0; 4] ++ [194; 160; 58; 49] ++ [1]) = Err (ErrUDPDestination (ErrInvalidDestination ErrNotHostPort)) /\
  EncodeUDPPacket [91; 194; 160; 93; 58; 49] [1] = Ok ([0; 4] ++ [194; 160; 58; 49] ++ [1]).
Proof. repeat split; vm_compute; reflexivity. Qed.

(** ** Witnesses *)

(** " a.b:0443 " *)
Definition sample_destination : bytes := [32; 97; 46; 98; 58; 48; 52; 52; 51; 32].

Lemma udp_packet_roundtrip_witness :
  exists out, EncodeUDPPacket sample_destination [1; 2; 3] = Ok out /\
    DecodeUDPPacket out = Ok ([97; 46; 98; 58; 52; 52; 51], [1; 2; 3]).
Proof.
  destruct (udp_packet_roundtrip sample_destination [97; 46; 98; 58; 52; 52; 51] [1; 2; 3]) as (_ & _ & out & H1 & H2 & _).
  - vm_compute. reflexivity.
  - vm_compute. reflexivity.
  - vm_compute. discriminate.
  - exists out. split; [exact H1|exact H2].
Defined.

Lemma open_payloads_unambiguous_witness :
  DecodeUDPResumeGrant (EncodeUDPResumeGrant true (replicate 16 7)) = Some (true, replicate 16 7).
Proof.
  refine (proj2 (proj2 (proj2 (open_payloads_unambiguous UDPAssociationMarker [] (replicate 16 7) true _)))).
  reflexivity.
Defined.
