(* ===== verification/Identity.v ===== *)
(** The account, device and invitation store of a provider
    ([internal/identity/store.go]).

    The store is a file that several processes change, under a file lock, and an
    in-memory snapshot in each process; a change reads the file, changes the
    snapshot, and writes the file back.  [world] is the file and one process's
    snapshot.  Whether the file can be locked and read, and whether a write
    succeeds, are arguments ([io]), as are the random identities and tokens, the
    clock, and the certificate the issuer returns.

    A stored timestamp is RFC 3339 text that the code only parses, so it is kept by
    what it parses to ([stamp]); a time is a number of nanoseconds.  SHA-256 and
    the case folding of [strings] are the parameters of the sections below.  The
    collections of the decoded file are present: JSON null in their place is the
    error the reader reports.  Names are valid UTF-8 and times lie in the years that
    RFC 3339 can write, so that the file decodes to what was encoded. *)

From S2P Require Import Prelude GoNet.

Definition nanos : Z := 1000000000.

(** ** base64, the raw URL alphabet *)

Definition b64_char (v : Z) : Z :=
  if v <? 26 then 65 + v else if v <? 52 then 71 + v else if v <? 62 then v - 4 else if v =? 62 then 45 else 95.

Definition b64_value (c : Z) : option Z :=
  if (65 <=? c) && (c <=? 90) then Some (c - 65)
  else if (97 <=? c) && (c <=? 122) then Some (c - 71)
  else if (48 <=? c) && (c <=? 57) then Some (c + 4)
  else if c =? 45 then Some 62
  else if c =? 95 then Some 63
  else None.

(** [EncodeToString]: three bytes become four characters. *)
Fixpoint EncodeToString (b : bytes) : bytes :=
  match b with
  | x :: y :: z :: r =>
      [b64_char (x / 4); b64_char ((x mod 4) * 16 + y / 16); b64_char ((y mod 16) * 4 + z / 64); b64_char (z mod 64)] ++ EncodeToString r
  | [x; y] => [b64_char (x / 4); b64_char ((x mod 4) * 16 + y / 16); b64_char ((y mod 16) * 4)]
  | [x] => [b64_char (x / 4); b64_char ((x mod 4) * 16)]
  | [] => []
  end.

(** The sextets of the text, line breaks skipped. *)
Fixpoint sextets (s : bytes) : option (list Z) :=
  match s with
  | [] => Some []
  | c :: r =>
      if (c =? 10) || (c =? 13) then sextets r
      else match b64_value c, sextets r with Some v, Some l => Some (v :: l) | _, _ => None end
  end.

(** The bits left over at the end are ignored, a single sextet is an error. *)
Fixpoint join_sextets (l : list Z) : option bytes :=
  match l with
  | a :: b :: c :: d :: r =>
      match join_sextets r with
      | Some k => Some ([a * 4 + b / 16; (b mod 16) * 16 + c / 4; (c mod 4) * 64 + d] ++ k)
      | None => None
      end
  | [a; b; c] => Some [a * 4 + b / 16; (b mod 16) * 16 + c / 4]
  | [a; b] => Some [a * 4 + b / 16]
  | [_] => None
  | [] => Some []
  end.

Definition DecodeString (s : bytes) : option bytes :=
  match sextets s with Some l => join_sextets l | None => None end.

Lemma sextets_char v r : 0 <= v < 64 -> sextets (b64_char v :: r) = match sextets r with Some l => Some (v :: l) | None => None end.
Proof.
  intros Hv. assert (b64_char v <> 10 /\ b64_char v <> 13 /\ b64_value (b64_char v) = Some v) as (H1 & H2 & H3).
  { unfold b64_char, b64_value. repeat case_match; bool_to_prop; repeat split; f_equal; lia. }
  cbn [sextets]. rewrite (proj2 (Z.eqb_neq _ _) H1), (proj2 (Z.eqb_neq _ _) H2), H3. done.
Qed.

(** What was encoded decodes to itself. *)
Lemma base64_roundtrip b : Forall (fun x => 0 <= x < 256) b -> DecodeString (EncodeToString b) = Some b.
Proof.
  intros Hb. assert (Hl : exists l, sextets (EncodeToString b) = Some l /\ join_sextets l = Some b);
    [|destruct Hl as (l & Hs & Hj); unfold DecodeString; by rewrite Hs].
  remember (length b) as n eqn:En. revert b En Hb. induction (lt_wf n) as [n _ IH]. intros b -> Hb.
  destruct b as [|x [|y [|z r]]]; [by exists []|..].
  - rewrite Forall_singleton in Hb. cbn [EncodeToString]. rewrite !sextets_char by (Z.to_euclidean_division_equations; lia).
    eexists. split; [done|]. cbn [join_sextets]. do 2 f_equal. Z.to_euclidean_division_equations; lia.
  - rewrite !Forall_cons in Hb. destruct Hb as (Hx & Hy & _). cbn [EncodeToString].
    rewrite !sextets_char by (Z.to_euclidean_division_equations; lia).
    eexists. split; [done|]. cbn [join_sextets]. repeat f_equal; Z.to_euclidean_division_equations; lia.
  - rewrite !Forall_cons in Hb. destruct Hb as (Hx & Hy & Hz & Hr). destruct (IH (length r) ltac:(cbn; lia) r eq_refl Hr) as (l & Hs & Hj).
    cbn [EncodeToString app]. rewrite !sextets_char by (Z.to_euclidean_division_equations; lia). rewrite Hs.
    eexists. split; [done|]. cbn [join_sextets app]. rewrite Hj. repeat f_equal; Z.to_euclidean_division_equations; lia.
Qed.

(** ** Records *)

Inductive stamp := NoTime | Time (ns : Z) | BadTime.

#[global] Instance stamp_eq_dec : EqDecision stamp.
Proof. solve_decision. Defined.

(** [UTC().Format(time.RFC3339)] keeps whole seconds. *)
Definition format_time (now : Z) : stamp := Time (now / nanos * nanos).

Definition parseStateTime (s : stamp) : option Z := match s with Time t => Some t | _ => None end.

Definition expired (s : stamp) (now : Z) : bool :=
  match s with NoTime => false | BadTime => true | Time w => negb (now <? w) end.

Definition maxAccountLimit : Z := Z.shiftl 1 16.
Definition consumedInviteRecoveryWindow : Z := 7 * 24 * 3600 * nanos.
Definition ProviderStateVersion : Z := 3.
Definition PublicKeySize : Z := 32.

Record AccountLimits := mkLimits { MaxFlows : Z; MaxClients : Z }.

Definition limits_validate (l : AccountLimits) : bool :=
  (0 <=? MaxFlows l) && (MaxFlows l <=? maxAccountLimit) && (0 <=? MaxClients l) && (MaxClients l <=? maxAccountLimit).

Record Account := mkAccount {
  a_ID : bytes; a_Name : bytes; a_Enabled : bool; a_ExpiresAt : stamp;
  a_MaxFlows : Z; a_MaxClients : Z; a_CreatedAt : stamp
}.

Definition Limits (a : Account) : AccountLimits := mkLimits (a_MaxFlows a) (a_MaxClients a).

Record Device := mkDevice {
  d_ID : bytes; d_AccountID : bytes; d_Name : bytes; d_PublicKey : bytes;
  d_Enabled : bool; d_CreatedAt : stamp; d_RevokedAt : stamp
}.

Record InviteRecord := mkInvite {
  i_ID : bytes; i_AccountID : bytes; i_TokenHash : bytes; i_ExpiresAt : stamp;
  i_CreatedAt : stamp; i_ConsumedAt : stamp; i_DeviceID : bytes
}.

Record storeData := mkData {
  Version : Z;
  Accounts : gmap (list Z) Account;
  Devices : gmap (list Z) Device;
  Invites : gmap (list Z) InviteRecord
}.

#[global] Instance Account_eq_dec : EqDecision Account.
Proof. solve_decision. Defined.
#[global] Instance Device_eq_dec : EqDecision Device.
Proof. solve_decision. Defined.
#[global] Instance InviteRecord_eq_dec : EqDecision InviteRecord.
Proof. solve_decision. Defined.
#[global] Instance storeData_eq_dec : EqDecision storeData.
Proof. solve_decision. Defined.

Definition emptyStoreData : storeData := mkData ProviderStateVersion ∅ ∅ ∅.

Record Principal := mkPrincipal { ProviderID : bytes; AccountID : bytes; DeviceID : bytes; PublicKey : bytes }.

Definition set_accounts (d : storeData) (m : gmap (list Z) Account) : storeData := mkData (Version d) m (Devices d) (Invites d).
Definition set_devices (d : storeData) (m : gmap (list Z) Device) : storeData := mkData (Version d) (Accounts d) m (Invites d).
Definition set_invites (d : storeData) (m : gmap (list Z) InviteRecord) : storeData := mkData (Version d) (Accounts d) (Devices d) m.

(** [validID]: 32 lower-case hexadecimal digits. *)
Definition hex_lower (c : Z) : bool := ((48 <=? c) && (c <=? 57)) || ((97 <=? c) && (c <=? 102)).
Definition validID (s : bytes) : bool := (len s =? 32) && forallb hex_lower s.

Definition empty (s : bytes) : bool := len s =? 0.
Definition no_time (s : stamp) : bool := match s with NoTime => true | _ => false end.
Definition same_text (a b : bytes) : bool := bool_decide (a = b).

(** The name of an account or a device. *)
Definition valid_name (name : bytes) : bool := same_text name (TrimSpace name) && negb (empty name) && (len name <=? 128).

Section Store.
(** [sha256.Sum256], [strings.ToLower] and [strings.EqualFold]. *)
Variable sha256 : bytes -> bytes.
Variable ToLower : bytes -> bytes.
Variable EqualFold : bytes -> bytes -> bool.

(** ** Validation *)

Definition valid_account (kv : list Z * Account) : bool :=
  let '(id, a) := kv in
  same_text id (a_ID a) && validID id && valid_name (a_Name a) &&
  match parseStateTime (a_CreatedAt a) with
  | None => false
  | Some created =>
      limits_validate (Limits a) &&
      (no_time (a_ExpiresAt a) ||
       match parseStateTime (a_ExpiresAt a) with Some e => e >? created | None => false end)
  end.

Definition known {A} (m : gmap (list Z) A) (id : list Z) : bool := match m !! id with Some _ => true | None => false end.

Definition valid_device (d : storeData) (kv : list Z * Device) : bool :=
  let '(id, v) := kv in
  same_text id (d_ID v) && validID id && validID (d_AccountID v) && known (Accounts d) (d_AccountID v) && valid_name (d_Name v) &&
  match DecodeString (d_PublicKey v) with Some k => len k =? PublicKeySize | None => false end &&
  match parseStateTime (d_CreatedAt v) with
  | None => false
  | Some created =>
      negb (d_Enabled v && negb (no_time (d_RevokedAt v))) &&
      (no_time (d_RevokedAt v) ||
       match parseStateTime (d_RevokedAt v) with Some r => negb (r <? created) | None => false end)
  end.

Definition valid_invite (d : storeData) (kv : list Z * InviteRecord) : bool :=
  let '(id, v) := kv in
  same_text id (i_ID v) && validID id && validID (i_AccountID v) && known (Accounts d) (i_AccountID v) &&
  match DecodeString (i_TokenHash v) with Some h => len h =? 32 | None => false end &&
  match parseStateTime (i_CreatedAt v), parseStateTime (i_ExpiresAt v) with
  | Some created, Some expires =>
      (expires >? created) && negb (expires >? created + (7 * 24 * 3600 * nanos + nanos)) &&
      Bool.eqb (no_time (i_ConsumedAt v)) (empty (i_DeviceID v)) &&
      (no_time (i_ConsumedAt v) ||
       match parseStateTime (i_ConsumedAt v), Devices d !! i_DeviceID v with
       | Some consumed, Some dev => negb (consumed <? created) && same_text (d_AccountID dev) (i_AccountID v)
       | _, _ => false
       end)
  | _, _ => false
  end.

Definition unique (l : list (list Z)) : bool := bool_decide (NoDup l).

Definition validateStoreData (d : storeData) : bool :=
  (Version d =? ProviderStateVersion) &&
  forallb valid_account (map_to_list (Accounts d)) &&
  unique (map (fun kv => ToLower (a_Name (snd kv))) (map_to_list (Accounts d))) &&
  forallb (valid_device d) (map_to_list (Devices d)) &&
  unique (map (fun kv => d_PublicKey (snd kv)) (map_to_list (Devices d))) &&
  forallb (valid_invite d) (map_to_list (Invites d)) &&
  unique (map (fun kv => i_TokenHash (snd kv)) (map_to_list (Invites d))).

(** ** The file and the snapshot *)

Record world := mkWorld { disk : storeData; mem : storeData }.

(** What the operating system grants a call: the lock and the read, the first
    write and the second. *)
Record io := mkIO { opened : bool; wrote1 : bool; wrote2 : bool }.

Inductive id_error :=
| ErrStoreUnavailable | ErrSave | ErrRandom | ErrName | ErrLimits | ErrDuplicateName | ErrExpiration | ErrUnknownAccount
| ErrLifetime | ErrAccountUnavailable | ErrKey | ErrInvitation | ErrInvitationUsed | ErrKeyRegistered | ErrIssue
| ErrUnknownDevice | ErrUnknownInvitation | ErrDeviceRevoked | ErrKeyMismatch.

Definition beginWrite (o : io) (w : world) : option world :=
  if opened o && validateStoreData (disk w) then Some (mkWorld (disk w) (disk w)) else None.

Definition saveLocked (ok : bool) (w : world) : bool * world :=
  if validateStoreData (mem w) && ok then (true, mkWorld (mem w) (mem w)) else (false, w).

(** A changed snapshot is saved, or put back. *)
Definition commit (ok : bool) (w : world) (changed undone : storeData) : bool * world :=
  match saveLocked ok (mkWorld (disk w) changed) with
  | (true, w) => (true, w)
  | (false, w) => (false, mkWorld (disk w) undone)
  end.

(** [Load] reports success, [Refresh] whether the snapshot changed; a file that
    cannot be read or does not validate leaves the snapshot in force. *)
Definition Load (ok : bool) (w : world) : bool * world :=
  if ok && validateStoreData (disk w) then (true, mkWorld (disk w) (disk w)) else (false, w).

Definition Refresh (ok : bool) (w : world) : option bool * world :=
  if ok && validateStoreData (disk w) then
    if bool_decide (disk w = mem w) then (Some false, w) else (Some true, mkWorld (disk w) (disk w))
  else (None, w).

(** ** Administration *)

Definition AddAccount (o : io) (w : world) (name : bytes) (expiresAt : option Z) (limits : AccountLimits) (now : Z) (rand : option bytes)
    : result id_error Account * world :=
  let name := TrimSpace name in
  if empty name || (len name >? 128) then (Err ErrName, w)
  else if negb (limits_validate limits) then (Err ErrLimits, w)
  else
    match rand with
    | None => (Err ErrRandom, w)
    | Some id =>
        match beginWrite o w with
        | None => (Err ErrStoreUnavailable, w)
        | Some w =>
            let d := mem w in
            if existsb (fun kv => EqualFold (a_Name (snd kv)) name) (map_to_list (Accounts d)) then (Err ErrDuplicateName, w)
            else
              let created := format_time now in
              let account e := mkAccount id name true e (MaxFlows limits) (MaxClients limits) created in
              let expires :=
                match expiresAt with
                | None => Some NoTime
                | Some e => if negb (e >? now) then None
                            else if bool_decide (format_time e = created) then None else Some (format_time e)
                end in
              match expires with
              | None => (Err ErrExpiration, w)
              | Some e =>
                  let changed := set_accounts d (<[id := account e]> (Accounts d)) in
                  match commit (wrote1 o) w changed (set_accounts changed (delete id (Accounts changed))) with
                  | (true, w) => (Ok (account e), w)
                  | (false, w) => (Err ErrSave, w)
                  end
              end
        end
    end.

(** [SetAccountEnabled] and [SetAccountLimits]. *)
Definition change_account (o : io) (w : world) (accountID : bytes) (f : Account -> Account) : option id_error * world :=
  match beginWrite o w with
  | None => (Some ErrStoreUnavailable, w)
  | Some w =>
      let d := mem w in
      match Accounts d !! accountID with
      | None => (Some ErrUnknownAccount, w)
      | Some old =>
          let changed := set_accounts d (<[accountID := f old]> (Accounts d)) in
          match commit (wrote1 o) w changed (set_accounts changed (<[accountID := old]> (Accounts changed))) with
          | (true, w) => (None, w)
          | (false, w) => (Some ErrSave, w)
          end
      end
  end.

Definition SetAccountEnabled (o : io) (w : world) (accountID : bytes) (enabled : bool) : option id_error * world :=
  change_account o w accountID (fun a =>
    mkAccount (a_ID a) (a_Name a) enabled (a_ExpiresAt a) (a_MaxFlows a) (a_MaxClients a) (a_CreatedAt a)).

Definition SetAccountLimits (o : io) (w : world) (accountID : bytes) (limits : AccountLimits) : option id_error * world :=
  if negb (limits_validate limits) then (Some ErrLimits, w)
  else change_account o w accountID (fun a =>
    mkAccount (a_ID a) (a_Name a) (a_Enabled a) (a_ExpiresAt a) (MaxFlows limits) (MaxClients limits) (a_CreatedAt a)).

Definition RevokeDevice (o : io) (w : world) (deviceID : bytes) (now : Z) : option id_error * world :=
  match beginWrite o w with
  | None => (Some ErrStoreUnavailable, w)
  | Some w =>
      let d := mem w in
      match Devices d !! deviceID with
      | None => (Some ErrUnknownDevice, w)
      | Some old =>
          let new_ := mkDevice (d_ID old) (d_AccountID old) (d_Name old) (d_PublicKey old) false (d_CreatedAt old) (format_time now) in
          let changed := set_devices d (<[deviceID := new_]> (Devices d)) in
          match commit (wrote1 o) w changed (set_devices changed (<[deviceID := old]> (Devices changed))) with
          | (true, w) => (None, w)
          | (false, w) => (Some ErrSave, w)
          end
      end
  end.

Definition RevokeInvite (o : io) (w : world) (invitationID : bytes) : option id_error * world :=
  match beginWrite o w with
  | None => (Some ErrStoreUnavailable, w)
  | Some w =>
      let d := mem w in
      match Invites d !! invitationID with
      | None => (Some ErrUnknownInvitation, w)
      | Some inv =>
          if negb (no_time (i_ConsumedAt inv)) then (Some ErrUnknownInvitation, w)
          else
            let changed := set_invites d (delete invitationID (Invites d)) in
            match commit (wrote1 o) w changed (set_invites changed (<[invitationID := inv]> (Invites changed))) with
            | (true, w) => (None, w)
            | (false, w) => (Some ErrSave, w)
            end
      end
  end.

(** ** Invitations *)

Definition prunable (now : Z) (inv : InviteRecord) : bool :=
  match i_ConsumedAt inv with
  | NoTime => expired (i_ExpiresAt inv) now
  | BadTime => true
  | Time consumed => negb (now <? consumed + consumedInviteRecoveryWindow)
  end.

Definition pruneInvitesLocked (now : Z) (d : storeData) : bool * storeData :=
  let kept := filter (fun kv => prunable now (snd kv) = false) (Invites d) in
  (negb (size kept =? size (Invites d))%nat, set_invites d kept).

(** The snapshot after pruning, saved if that changed it; [None] when the save
    fails, with the pruned snapshot kept. *)
Definition prune_and_save (ok : bool) (now : Z) (w : world) : bool * world :=
  let '(changed, d) := pruneInvitesLocked now (mem w) in
  if changed then saveLocked ok (mkWorld (disk w) d) else (true, mkWorld (disk w) d).

Definition CreateInvite (o : io) (w : world) (accountID : bytes) (ttl now : Z) (tokenBytes rand : option bytes)
    : result id_error (InviteRecord * bytes) * world :=
  if (ttl <? nanos) || (ttl >? 7 * 24 * 3600 * nanos) then (Err ErrLifetime, w)
  else
    match tokenBytes, rand with
    | Some tokenBytes, Some id =>
        let token := EncodeToString tokenBytes in
        match beginWrite o w with
        | None => (Err ErrStoreUnavailable, w)
        | Some w =>
            match prune_and_save (wrote1 o) now w with
            | (false, w) => (Err ErrSave, w)
            | (true, w) =>
                let d := mem w in
                match Accounts d !! accountID with
                | None => (Err ErrAccountUnavailable, w)
                | Some account =>
                    if negb (a_Enabled account) then (Err ErrAccountUnavailable, w)
                    else if expired (a_ExpiresAt account) now then (Err ErrAccountUnavailable, w)
                    else
                      let record := mkInvite id accountID (EncodeToString (sha256 tokenBytes)) (format_time (now + ttl))
                        (format_time now) NoTime [] in
                      let changed := set_invites d (<[id := record]> (Invites d)) in
                      match commit (wrote2 o) w changed (set_invites changed (delete id (Invites changed))) with
                      | (true, w) => (Ok (record, token), w)
                      | (false, w) => (Err ErrSave, w)
                      end
                end
            end
        end
    | _, _ => (Err ErrRandom, w)
    end.

(** The invitation a digest names; validation makes digests unique. *)
Definition find_invite (hashText : bytes) (d : storeData) : option InviteRecord :=
  snd <$> List.find (fun kv => same_text (i_TokenHash (snd kv)) hashText) (map_to_list (Invites d)).

(** The certificate of a device, when an issuer is given. *)
Definition issue_for (issue : option (Account -> Device -> option bytes)) (a : Account) (d : Device) : option bytes :=
  match issue with None => Some [] | Some f => f a d end.

Definition EnrollDevice (o : io) (w : world) (token deviceName publicKey : bytes) (now : Z)
    (issue : option (Account -> Device -> option bytes)) (rand : option bytes)
    : result id_error (Account * Device * bytes) * world :=
  let deviceName := TrimSpace deviceName in
  if empty deviceName || (len deviceName >? 128) then (Err ErrName, w)
  else if negb (len publicKey =? PublicKeySize) then (Err ErrKey, w)
  else
    match DecodeString token with
    | None => (Err ErrInvitation, w)
    | Some tokenBytes =>
        if negb (len tokenBytes =? 32) then (Err ErrInvitation, w)
        else
          let hashText := EncodeToString (sha256 tokenBytes) in
          let publicText := EncodeToString publicKey in
          match beginWrite o w with
          | None => (Err ErrStoreUnavailable, w)
          | Some w =>
              match prune_and_save (wrote1 o) now w with
              | (false, w) => (Err ErrSave, w)
              | (true, w) =>
                  let d := mem w in
                  match find_invite hashText d with
                  | None => (Err ErrInvitation, w)
                  | Some invite =>
                      if no_time (i_ConsumedAt invite) && expired (i_ExpiresAt invite) now then (Err ErrInvitation, w)
                      else
                        match Accounts d !! i_AccountID invite with
                        | None => (Err ErrAccountUnavailable, w)
                        | Some account =>
                            if negb (a_Enabled account) || expired (a_ExpiresAt account) now then (Err ErrAccountUnavailable, w)
                            else if negb (no_time (i_ConsumedAt invite)) then
                              match Devices d !! i_DeviceID invite with
                              | None => (Err ErrInvitationUsed, w)
                              | Some device =>
                                  if negb (same_text (d_AccountID device) (a_ID account)) || negb (same_text (d_Name device) deviceName) ||
                                     negb (same_text (d_PublicKey device) publicText)
                                  then (Err ErrInvitationUsed, w)
                                  else match issue_for issue account device with
                                       | None => (Err ErrIssue, w)
                                       | Some credential => (Ok (account, device, credential), w)
                                       end
                              end
                            else if existsb (fun kv => same_text (d_PublicKey (snd kv)) publicText) (map_to_list (Devices d))
                            then (Err ErrKeyRegistered, w)
                            else
                              match rand with
                              | None => (Err ErrRandom, w)
                              | Some deviceID =>
                                  let device := mkDevice deviceID (a_ID account) deviceName publicText true (format_time now) NoTime in
                                  match issue_for issue account device with
                                  | None => (Err ErrIssue, w)
                                  | Some credential =>
                                      let used := mkInvite (i_ID invite) (i_AccountID invite) (i_TokenHash invite) (i_ExpiresAt invite)
                                        (i_CreatedAt invite) (format_time now) (d_ID device) in
                                      let changed := set_devices (set_invites d (<[i_ID used := used]> (Invites d)))
                                        (<[d_ID device := device]> (Devices d)) in
                                      let undone := set_devices (set_invites changed (<[i_ID used := invite]> (Invites changed)))
                                        (delete (d_ID device) (Devices changed)) in
                                      match commit (wrote2 o) w changed undone with
                                      | (true, w) => (Ok (account, device, credential), w)
                                      | (false, w) => (Err ErrSave, w)
                                      end
                                  end
                              end
                        end
                  end
              end
          end
    end.

(** ** Authorization *)

(** [d] is the snapshot the process holds, [mem] of its world, however old it is. *)
Definition Authorize (d : storeData) (p : Principal) (now : Z) : result id_error (Account * Device) :=
  match Accounts d !! AccountID p with
  | None => Err ErrAccountUnavailable
  | Some account =>
      if negb (a_Enabled account) || expired (a_ExpiresAt account) now then Err ErrAccountUnavailable
      else
        match Devices d !! DeviceID p with
        | None => Err ErrDeviceRevoked
        | Some device =>
            if negb (same_text (d_AccountID device) (a_ID account)) || negb (d_Enabled device) || negb (no_time (d_RevokedAt device))
            then Err ErrDeviceRevoked
            else
              match DecodeString (d_PublicKey device) with
              | None => Err ErrKeyMismatch
              | Some want => if same_text want (PublicKey p) then Ok (account, device) else Err ErrKeyMismatch
              end
        end
  end.

(** ** What the operations do to the file *)

Definition pruned (now : Z) (d : storeData) : storeData := snd (pruneInvitesLocked now d).

Lemma beginWrite_spec o w w1 : beginWrite o w = Some w1 -> w1 = mkWorld (disk w) (disk w) /\ validateStoreData (disk w) = true.
Proof. unfold beginWrite. destruct (_ && _) eqn:E; [|done]. intros [= <-]. bool_to_prop. done. Qed.

Lemma commit_spec ok w changed undone b w' : commit ok w changed undone = (b, w') ->
  if b then disk w' = changed /\ mem w' = changed /\ validateStoreData changed = true
  else disk w' = disk w /\ mem w' = undone.
Proof.
  unfold commit, saveLocked. cbn [mem disk]. destruct (_ && _) eqn:E; intros [= <- <-]; [|done]. bool_to_prop. done.
Qed.

Lemma pruned_same now d : fst (pruneInvitesLocked now d) = false -> pruned now d = d.
Proof.
  unfold pruned, pruneInvitesLocked. cbn [fst snd]. intros Hs. apply negb_false_iff, Nat.eqb_eq in Hs.
  assert (He : filter (fun kv => prunable now (snd kv) = false) (Invites d) = Invites d).
  { apply map_subseteq_size_eq; [apply map_filter_subseteq|lia]. }
  rewrite He. by destruct d.
Qed.

Lemma prune_and_save_spec ok now w b w' : mem w = disk w -> prune_and_save ok now w = (b, w') ->
  if b then disk w' = pruned now (disk w) /\ mem w' = pruned now (disk w) /\
            (validateStoreData (disk w) = true -> validateStoreData (pruned now (disk w)) = true)
  else disk w' = disk w.
Proof.
  intros Hm. unfold prune_and_save. rewrite Hm. pose proof (pruned_same now (disk w)) as Hsame. unfold pruned in *.
  destruct (pruneInvitesLocked now (disk w)) as [changed d]. cbn [fst snd] in *. destruct changed.
  - unfold saveLocked. cbn [mem disk]. destruct (_ && _) eqn:E; intros [= <- <-]; [|done]. bool_to_prop. done.
  - rewrite Hsame by done. intros [= <- <-]. done.
Qed.

Lemma pruned_invites now d id : Invites (pruned now d) !! id =
  match Invites d !! id with Some i => if prunable now i then None else Some i | None => None end.
Proof.
  unfold pruned, pruneInvitesLocked. cbn [snd set_invites Invites]. rewrite map_lookup_filter.
  destruct (Invites d !! id) as [i|]; [|done]. cbn. by destruct (prunable now i).
Qed.

(** ** The history of the file *)

(** The devices enrolled under each token's digest, and the devices revoked. *)
Record history := mkHistory { file : storeData; enrolled : list (bytes * Device); revoked : list bytes }.

Definition token_digest (token : bytes) : bytes := EncodeToString (sha256 (default [] (DecodeString token))).

(** Identities are drawn at random from 2^128 values and tokens from 2^256, so
    they are taken to be new. *)
Definition fresh_in {A} (m : gmap (list Z) A) (rand : option bytes) : Prop := forall id, rand = Some id -> m !! id = None.

Definition fresh_digest (h : history) (tokenBytes : option bytes) : Prop :=
  forall t, tokenBytes = Some t ->
    (EncodeToString (sha256 t) ∉ map fst (enrolled h)) /\
    forall id i, Invites (file h) !! id = Some i -> i_TokenHash i <> EncodeToString (sha256 t).

(** One call by one process, whose snapshot before it is [m]. *)
Inductive store_step : history -> history -> Prop :=
| st_add h m o name e limits now rand :
    fresh_in (Accounts (file h)) rand ->
    store_step h (mkHistory (disk (snd (AddAccount o (mkWorld (file h) m) name e limits now rand))) (enrolled h) (revoked h))
| st_enable h m o id b :
    store_step h (mkHistory (disk (snd (SetAccountEnabled o (mkWorld (file h) m) id b))) (enrolled h) (revoked h))
| st_limits h m o id limits :
    store_step h (mkHistory (disk (snd (SetAccountLimits o (mkWorld (file h) m) id limits))) (enrolled h) (revoked h))
| st_invite h m o id ttl now tokenBytes rand :
    fresh_in (Invites (file h)) rand -> fresh_digest h tokenBytes ->
    store_step h (mkHistory (disk (snd (CreateInvite o (mkWorld (file h) m) id ttl now tokenBytes rand))) (enrolled h) (revoked h))
| st_revoke_invite h m o id :
    store_step h (mkHistory (disk (snd (RevokeInvite o (mkWorld (file h) m) id))) (enrolled h) (revoked h))
| st_revoke h m o id now :
    let r := RevokeDevice o (mkWorld (file h) m) id now in
    store_step h (mkHistory (disk (snd r)) (enrolled h) (match fst r with None => revoked h ++ [id] | Some _ => revoked h end))
| st_enroll h m o token name key now issue rand :
    fresh_in (Devices (file h)) rand ->
    let r := EnrollDevice o (mkWorld (file h) m) token name key now issue rand in
    store_step h (mkHistory (disk (snd r))
      (match fst r with Ok (_, dev, _) => enrolled h ++ [(token_digest token, dev)] | Err _ => enrolled h end) (revoked h)).

(** Two records of one device. *)
Definition same_device (a b : Device) : Prop :=
  d_ID a = d_ID b /\ d_AccountID a = d_AccountID b /\ d_Name a = d_Name b /\ d_PublicKey a = d_PublicKey b.

Record store_ok (h : history) : Prop := {
  so_valid : validateStoreData (file h) = true;
  so_enrolled : forall t d, (t, d) ∈ enrolled h -> exists d', Devices (file h) !! d_ID d = Some d' /\ same_device d d';
  so_invites : forall id i, Invites (file h) !! id = Some i ->
    if no_time (i_ConsumedAt i) then i_TokenHash i ∉ map fst (enrolled h)
    else forall d, (i_TokenHash i, d) ∈ enrolled h -> d_ID d = i_DeviceID i;
  so_once : forall t d1 d2, (t, d1) ∈ enrolled h -> (t, d2) ∈ enrolled h -> same_device d1 d2;
  so_revoked : forall id, id ∈ revoked h -> exists d, Devices (file h) !! id = Some d /\ d_Enabled d = false
}.

(** Changes to the accounts only. *)
Lemma store_ok_accounts h a :
  store_ok h -> validateStoreData (set_accounts (file h) a) = true ->
  store_ok (mkHistory (set_accounts (file h) a) (enrolled h) (revoked h)).
Proof. intros [H1 H2 H3 H4 H5] Hv. split; done. Qed.

Lemma store_ok_same h d : store_ok h -> d = file h -> store_ok (mkHistory d (enrolled h) (revoked h)).
Proof. intros Hok ->. by destruct h. Qed.

(** Fewer invitations. *)
Lemma store_ok_invites h m :
  store_ok h -> validateStoreData (set_invites (file h) m) = true -> m ⊆ Invites (file h) ->
  store_ok (mkHistory (set_invites (file h) m) (enrolled h) (revoked h)).
Proof. intros [H1 H2 H3 H4 H5] Hv Hm. split; try done. intros id i Hi. apply (H3 id). by eapply lookup_weaken. Qed.

Lemma store_ok_pruned h now :
  store_ok h -> validateStoreData (pruned now (file h)) = true -> store_ok (mkHistory (pruned now (file h)) (enrolled h) (revoked h)).
Proof. intros Hok Hv. apply store_ok_invites; [done|done|apply map_filter_subseteq]. Qed.

(** Each call leaves the file alone or replaces it as follows. *)
Lemma AddAccount_disk o w name e limits now rand :
  let d' := disk (snd (AddAccount o w name e limits now rand)) in
  d' = disk w \/ exists a, d' = set_accounts (disk w) a /\ validateStoreData d' = true.
Proof.
  cbv zeta. unfold AddAccount. cbv zeta. destruct (_ || _); [by left|]. destruct (negb _); [by left|].
  destruct rand as [id|]; [|by left]. destruct (beginWrite o w) as [w1|] eqn:Eb; [|by left].
  apply beginWrite_spec in Eb as [-> Hv]. cbn [mem]. destruct (existsb _ _); [by left|].
  destruct e as [e|]; [destruct (negb (e >? now)); [by left|]; destruct (bool_decide _); [by left|]|].
  all: destruct (commit _ _ _ _) as [b w2] eqn:Ec; apply commit_spec in Ec; destruct b; cbn [snd]; [right|left; apply Ec].
  all: destruct Ec as (-> & _ & Hv2); by eexists.
Qed.

Lemma change_account_disk o w id f :
  let d' := disk (snd (change_account o w id f)) in
  d' = disk w \/ exists a, d' = set_accounts (disk w) a /\ validateStoreData d' = true.
Proof.
  cbv zeta. unfold change_account. destruct (beginWrite o w) as [w1|] eqn:Eb; [|by left].
  apply beginWrite_spec in Eb as [-> Hv]. cbn [mem]. destruct (Accounts (disk w) !! id) as [old|]; [|by left].
  destruct (commit _ _ _ _) as [b w2] eqn:Ec. apply commit_spec in Ec. destruct b; cbn [snd].
  - right. destruct Ec as (-> & _ & Hv2). by eexists.
  - left. apply Ec.
Qed.

Lemma RevokeInvite_disk o w id :
  let d' := disk (snd (RevokeInvite o w id)) in
  d' = disk w \/ d' = set_invites (disk w) (delete id (Invites (disk w))) /\ validateStoreData d' = true.
Proof.
  cbv zeta. unfold RevokeInvite. destruct (beginWrite o w) as [w1|] eqn:Eb; [|by left].
  apply beginWrite_spec in Eb as [-> Hv]. cbn [mem]. destruct (Invites (disk w) !! id) as [inv|]; [|by left].
  destruct (negb _); [by left|]. destruct (commit _ _ _ _) as [b w2] eqn:Ec. apply commit_spec in Ec. destruct b; cbn [snd].
  - right. destruct Ec as (-> & _ & Hv2). done.
  - left. apply Ec.
Qed.

Lemma RevokeDevice_disk o w id now e w' : RevokeDevice o w id now = (e, w') ->
  match e with
  | Some _ => disk w' = disk w
  | None => exists old, Devices (disk w) !! id = Some old /\ validateStoreData (disk w') = true /\
      disk w' = set_devices (disk w) (<[id := mkDevice (d_ID old) (d_AccountID old) (d_Name old) (d_PublicKey old) false
        (d_CreatedAt old) (format_time now)]> (Devices (disk w)))
  end.
Proof.
  unfold RevokeDevice. destruct (beginWrite o w) as [w1|] eqn:Eb; [|by intros [= <- <-]].
  apply beginWrite_spec in Eb as [-> Hv]. cbn [mem]. destruct (Devices (disk w) !! id) as [old|] eqn:Ed; [|by intros [= <- <-]].
  destruct (commit _ _ _ _) as [b w2] eqn:Ec. apply commit_spec in Ec. destruct b; intros [= <- <-].
  - destruct Ec as (-> & _ & Hv2). by exists old.
  - apply Ec.
Qed.

(** An invitation is added to the pruned file. *)
Lemma CreateInvite_disk o w id ttl now tokenBytes rand :
  let d' := disk (snd (CreateInvite o w id ttl now tokenBytes rand)) in
  d' = disk w \/ validateStoreData d' = true /\ validateStoreData (pruned now (disk w)) = true /\
    (d' = pruned now (disk w) \/ exists t id' i, tokenBytes = Some t /\ rand = Some id' /\
       i_TokenHash i = EncodeToString (sha256 t) /\ i_ConsumedAt i = NoTime /\
       d' = set_invites (pruned now (disk w)) (<[id' := i]> (Invites (pruned now (disk w))))).
Proof.
  cbv zeta. unfold CreateInvite. destruct (_ || _); [by left|]. destruct tokenBytes as [t|]; [|by left].
  destruct rand as [id'|]; [|by left]. destruct (beginWrite o w) as [w1|] eqn:Eb; [|by left].
  apply beginWrite_spec in Eb as [-> Hv]. destruct (prune_and_save _ now _) as [b w1] eqn:Ep.
  apply prune_and_save_spec in Ep; [|done]. cbn [disk] in Ep. destruct b; [|by left].
  destruct Ep as (Ed & Em & Hpv). specialize (Hpv Hv). rewrite Em. set (d := pruned now (disk w)) in *.
  assert (Hleft : disk w1 = disk w \/ validateStoreData (disk w1) = true /\ validateStoreData d = true /\ (disk w1 = d \/ exists t0 id0 i0, Some t = Some t0 /\
    Some id' = Some id0 /\ i_TokenHash i0 = EncodeToString (sha256 t0) /\ i_ConsumedAt i0 = NoTime /\
    disk w1 = set_invites d (<[id0 := i0]> (Invites d)))) by (right; rewrite Ed; split; [done|]; split; [done|by left]).
  destruct (Accounts d !! id) as [a|]; [|exact Hleft]. destruct (negb _); [exact Hleft|]. destruct (expired _ _); [exact Hleft|].
  destruct (commit _ _ _ _) as [b w2] eqn:Ec. apply commit_spec in Ec. destruct b; cbn [snd].
  - right. destruct Ec as (-> & _ & Hv2). split; [done|]. split; [done|]. right. eexists t, id', _. by repeat split.
  - destruct Ec as [-> _]. exact Hleft.
Qed.

Lemma find_invite_spec h d i : find_invite h d = Some i -> (exists id, Invites d !! id = Some i) /\ i_TokenHash i = h.
Proof.
  unfold find_invite. destruct (List.find _ _) as [[id j]|] eqn:E; [|done]. intros [= <-]. apply find_some in E as [Hin Ht].
  apply list_elem_of_In, elem_of_map_to_list in Hin. split; [by exists id|]. cbn in Ht. unfold same_text in Ht. by apply bool_decide_eq_true in Ht.
Qed.

(** What an enrolment does: the pruned file, and on a first use the device and the
    invitation marked with it. *)
Inductive enrolment (now : Z) (token name key : bytes) (rand : option bytes) (d : storeData) (dev : Device) : storeData -> Prop :=
| enrol_again i :
    find_invite (token_digest token) d = Some i -> no_time (i_ConsumedAt i) = false -> Devices d !! i_DeviceID i = Some dev ->
    d_Name dev = TrimSpace name -> d_PublicKey dev = EncodeToString key -> enrolment now token name key rand d dev d
| enrol_first i a id :
    find_invite (token_digest token) d = Some i -> no_time (i_ConsumedAt i) = true -> rand = Some id ->
    Accounts d !! i_AccountID i = Some a -> a_Enabled a = true -> expired (a_ExpiresAt a) now = false ->
    (forall id' v, Devices d !! id' = Some v -> d_PublicKey v <> EncodeToString key) ->
    dev = mkDevice id (a_ID a) (TrimSpace name) (EncodeToString key) true (format_time now) NoTime ->
    enrolment now token name key rand d dev
      (set_devices (set_invites d (<[i_ID i := mkInvite (i_ID i) (i_AccountID i) (i_TokenHash i) (i_ExpiresAt i) (i_CreatedAt i)
         (format_time now) id]> (Invites d))) (<[id := dev]> (Devices d))).

Lemma EnrollDevice_disk o w token name key now issue rand r w' :
  EnrollDevice o w token name key now issue rand = (r, w') ->
  match r with
  | Err _ => disk w' = disk w \/ disk w' = pruned now (disk w) /\ validateStoreData (disk w') = true
  | Ok (a, dev, _) => validateStoreData (disk w') = true /\ validateStoreData (pruned now (disk w)) = true /\ len key = PublicKeySize /\
      enrolment now token name key rand (pruned now (disk w)) dev (disk w') /\
      a_Enabled a = true /\ expired (a_ExpiresAt a) now = false /\ d_AccountID dev = a_ID a /\
      exists aid, Accounts (disk w) !! aid = Some a
  end.
Proof.
  unfold EnrollDevice. cbv zeta. destruct (_ || _); [intros [= <- <-]; by left|].
  destruct (negb (len key =? PublicKeySize)) eqn:Ek; [intros [= <- <-]; by left|]. bool_to_prop.
  destruct (DecodeString token) as [tb|] eqn:Et; [|intros [= <- <-]; by left].
  destruct (negb _); [intros [= <- <-]; by left|]. destruct (beginWrite o w) as [w1|] eqn:Eb; [|intros [= <- <-]; by left].
  apply beginWrite_spec in Eb as [-> Hv]. destruct (prune_and_save _ now _) as [b w1] eqn:Ep.
  apply prune_and_save_spec in Ep; [|done]. cbn [disk] in Ep. destruct b; [|intros [= <- <-]; by left].
  destruct Ep as (Ed & Em & Hpv). specialize (Hpv Hv). rewrite Em. set (d := pruned now (disk w)) in *.
  assert (Hd : disk w1 = disk w \/ disk w1 = d /\ validateStoreData (disk w1) = true) by (right; by rewrite Ed).
  assert (Hh : EncodeToString (sha256 tb) = token_digest token) by (unfold token_digest; by rewrite Et). rewrite Hh.
  destruct (find_invite (token_digest token) d) as [i|] eqn:Ei; [|by intros [= <- <-]].
  destruct (no_time (i_ConsumedAt i) && _) eqn:Ex; [by intros [= <- <-]|].
  destruct (Accounts d !! i_AccountID i) as [a|] eqn:Ea; [|by intros [= <- <-]].
  destruct (_ || _) eqn:En; [by intros [= <- <-]|]. apply orb_false_iff in En as [En Eexp]. apply negb_false_iff in En.
  assert (Haid : exists aid, Accounts (disk w) !! aid = Some a) by (exists (i_AccountID i); exact Ea).
  destruct (negb (no_time (i_ConsumedAt i))) eqn:Ec.
  - destruct (Devices d !! i_DeviceID i) as [dev|] eqn:Edev; [|by intros [= <- <-]].
    destruct (_ || _) eqn:Es; [by intros [= <- <-]|]. apply orb_false_iff in Es as [Es E3]. apply orb_false_iff in Es as [E1 E2].
    apply negb_false_iff, bool_decide_eq_true in E1, E2, E3. apply negb_true_iff in Ec.
    destruct (issue_for _ _ _); [|by intros [= <- <-]]. intros [= <- <-]. rewrite Ed. split; [done|]. split; [done|]. split; [done|].
    split; [by eapply enrol_again|]. done.
  - apply negb_false_iff in Ec. destruct (existsb _ _) eqn:Ek2; [by intros [= <- <-]|].
    destruct rand as [id|]; [|by intros [= <- <-]]. destruct (issue_for _ _ _); [|by intros [= <- <-]].
    destruct (commit _ _ _ _) as [b w2] eqn:Ecm. apply commit_spec in Ecm. destruct b; intros [= <- <-].
    + destruct Ecm as (-> & _ & Hv2). split; [done|]. split; [done|]. split; [done|]. split; [|done].
      refine (enrol_first now token name key (Some id) d _ i a id Ei Ec eq_refl Ea En Eexp _ eq_refl).
      intros id' v Hv' Heq. apply not_true_iff_false in Ek2. apply Ek2, existsb_exists.
      exists (id', v). split; [by apply list_elem_of_In, elem_of_map_to_list|]. cbn. by apply bool_decide_eq_true.
    + destruct Ecm as [-> _]. exact Hd.
Qed.

(** ** What validation guarantees *)

Lemma NoDup_map_eq {A B} (f : A -> B) l x y : NoDup (map f l) -> x ∈ l -> y ∈ l -> f x = f y -> x = y.
Proof.
  intros Hn Hx Hy Hf. apply list_elem_of_lookup in Hx as [i Hi], Hy as [j Hj].
  assert (i = j); [|congruence]. eapply (NoDup_lookup (map f l) i j (f x)); [done|..]; change (map f l) with (f <$> l); rewrite list_lookup_fmap.
  - by rewrite Hi.
  - rewrite Hj. cbn. by rewrite Hf.
Qed.

Lemma forallb_lookup {A} (p : list Z * A -> bool) (m : gmap (list Z) A) id v :
  forallb p (map_to_list m) = true -> m !! id = Some v -> p (id, v) = true.
Proof. intros Hp Hm. rewrite forallb_forall in Hp. by apply Hp, list_elem_of_In, elem_of_map_to_list. Qed.

Lemma valid_device_id d id v : validateStoreData d = true -> Devices d !! id = Some v -> d_ID v = id.
Proof.
  intros Hv Hd. unfold validateStoreData in Hv. rewrite !andb_true_iff in Hv. destruct Hv as ((((_ & Hdev) & _) & _) & _).
  pose proof (forallb_lookup _ _ _ _ Hdev Hd) as H. cbn in H. rewrite !andb_true_iff in H. destruct H as ((((((H & _) & _) & _) & _) & _) & _).
  unfold same_text in H. by apply bool_decide_eq_true in H.
Qed.

Lemma valid_account_id d id v : validateStoreData d = true -> Accounts d !! id = Some v -> a_ID v = id.
Proof.
  intros Hv Hd. unfold validateStoreData in Hv. rewrite !andb_true_iff in Hv. destruct Hv as ((((((_ & Hacc) & _) & _) & _) & _) & _).
  pose proof (forallb_lookup _ _ _ _ Hacc Hd) as H. cbn in H. rewrite !andb_true_iff in H. destruct H as (((H & _) & _) & _).
  unfold same_text in H. by apply bool_decide_eq_true in H.
Qed.

Lemma valid_invite_id d id v : validateStoreData d = true -> Invites d !! id = Some v -> i_ID v = id.
Proof.
  intros Hv Hd. unfold validateStoreData in Hv. rewrite !andb_true_iff in Hv. destruct Hv as ((_ & Hinv) & _).
  pose proof (forallb_lookup _ _ _ _ Hinv Hd) as H. cbn in H. rewrite !andb_true_iff in H. destruct H as (((((H & _) & _) & _) & _) & _).
  unfold same_text in H. by apply bool_decide_eq_true in H.
Qed.

Lemma valid_invite_unique d id1 id2 i1 i2 : validateStoreData d = true ->
  Invites d !! id1 = Some i1 -> Invites d !! id2 = Some i2 -> i_TokenHash i1 = i_TokenHash i2 -> id1 = id2 /\ i1 = i2.
Proof.
  intros Hv H1 H2 Hh. unfold validateStoreData in Hv. rewrite !andb_true_iff in Hv. destruct Hv as (_ & Hu).
  unfold unique in Hu. apply bool_decide_eq_true in Hu.
  assert ((id1, i1) = (id2, i2)) as [= -> ->]; [|done].
  eapply NoDup_map_eq; [exact Hu|by apply elem_of_map_to_list|by apply elem_of_map_to_list|done].
Qed.

(** ** The invariant *)

Lemma elem_of_map_fst {A B} (l : list (A * B)) a b : (a, b) ∈ l -> a ∈ map fst l.
Proof. intros H. by apply (list_elem_of_fmap_2 fst) in H. Qed.

Lemma invite_ok h d id' i :
  store_ok h -> file h = d -> Invites d !! id' = None -> i_ConsumedAt i = NoTime -> (i_TokenHash i ∉ map fst (enrolled h)) ->
  validateStoreData (set_invites d (<[id' := i]> (Invites d))) = true ->
  store_ok (mkHistory (set_invites d (<[id' := i]> (Invites d))) (enrolled h) (revoked h)).
Proof.
  intros [H1 H2 H3 H4 H5] <- Hn Hc Hh Hv. split; try done. cbn. intros id j Hj.
  apply lookup_insert_Some in Hj as [[<- <-]|[_ Hj]]; [by rewrite Hc|by eapply H3].
Qed.

Lemma revoke_ok h id old now :
  store_ok h -> Devices (file h) !! id = Some old ->
  let d' := set_devices (file h) (<[id := mkDevice (d_ID old) (d_AccountID old) (d_Name old) (d_PublicKey old) false
    (d_CreatedAt old) (format_time now)]> (Devices (file h))) in
  validateStoreData d' = true -> store_ok (mkHistory d' (enrolled h) (revoked h ++ [id])).
Proof.
  intros [H1 H2 H3 H4 H5] Ho d' Hv. split; try done; cbn.
  - intros t d Hd. destruct (H2 t d Hd) as (v & Hv' & Hs). destruct (decide (d_ID d = id)) as [<-|Hn].
    + rewrite lookup_insert_eq. eexists. split; [done|]. rewrite Ho in Hv'. by injection Hv' as <-.
    + exists v. by rewrite lookup_insert_ne.
  - intros id' Hid. apply elem_of_app in Hid as [Hid|Hid].
    + destruct (H5 id' Hid) as (v & Hv' & He). destruct (decide (id' = id)) as [->|Hn].
      * rewrite lookup_insert_eq. by eexists.
      * exists v. by rewrite lookup_insert_ne.
    + apply list_elem_of_singleton in Hid as ->. rewrite lookup_insert_eq. by eexists.
Qed.

(** A device enrolled again is the device enrolled before. *)
Lemma enrol_again_ok h t i dev :
  store_ok h -> find_invite t (file h) = Some i -> no_time (i_ConsumedAt i) = false -> Devices (file h) !! i_DeviceID i = Some dev ->
  store_ok (mkHistory (file h) (enrolled h ++ [(t, dev)]) (revoked h)).
Proof.
  intros [H1 H2 H3 H4 H5] Hi Hc Hd. apply find_invite_spec in Hi as [[id Hi] Ht].
  pose proof (valid_device_id _ _ _ H1 Hd) as Hid. pose proof (H3 id i Hi) as Hold. rewrite Hc, Ht in Hold.
  assert (Hsame : forall d1, (t, d1) ∈ enrolled h -> same_device d1 dev).
  { intros d1 Hd1. destruct (H2 _ _ Hd1) as (v & Hv & Hs). rewrite (Hold _ Hd1), Hd in Hv. by injection Hv as <-. }
  split; try done; cbn [file enrolled revoked].
  - intros t' d Hin. apply elem_of_app in Hin as [Hin|Hin]; [by eapply H2|]. apply list_elem_of_singleton in Hin as [= -> ->].
    exists dev. rewrite Hid. by repeat split.
  - intros id' j Hj. specialize (H3 id' j Hj). destruct (decide (i_TokenHash j = t)) as [Heq|Hne].
    + destruct (valid_invite_unique _ _ _ _ _ H1 Hi Hj ltac:(congruence)) as [_ <-]. rewrite Hc in *.
      intros d Hin. apply elem_of_app in Hin as [Hin|Hin]; [by apply H3|]. apply list_elem_of_singleton in Hin as [= _ ->]. done.
    + destruct (no_time (i_ConsumedAt j)).
      * rewrite map_app, not_elem_of_app. split; [done|]. cbn. intros Hin. apply list_elem_of_singleton in Hin. congruence.
      * intros d Hin. apply elem_of_app in Hin as [Hin|Hin]; [by apply H3|]. apply list_elem_of_singleton in Hin as [= Hx _]. congruence.
  - intros t' d1 d2 Ha Hb. apply elem_of_app in Ha as [Ha|Ha], Hb as [Hb|Hb];
      try apply list_elem_of_singleton in Ha; try apply list_elem_of_singleton in Hb; simplify_eq.
    + by eapply H4.
    + by apply Hsame.
    + destruct (Hsame _ Hb) as (? & ? & ? & ?). by repeat split.
    + by repeat split.
Qed.

(** The first use of an invitation. *)
Lemma enrol_first_ok h t i id dev now d' :
  store_ok h -> find_invite t (file h) = Some i -> no_time (i_ConsumedAt i) = true -> Devices (file h) !! id = None -> d_ID dev = id ->
  d' = set_devices (set_invites (file h) (<[i_ID i := mkInvite (i_ID i) (i_AccountID i) (i_TokenHash i) (i_ExpiresAt i) (i_CreatedAt i)
         (format_time now) id]> (Invites (file h)))) (<[id := dev]> (Devices (file h))) ->
  validateStoreData d' = true -> store_ok (mkHistory d' (enrolled h ++ [(t, dev)]) (revoked h)).
Proof.
  intros [H1 H2 H3 H4 H5] Hi Hc Hn Hid Hd' Hv. apply find_invite_spec in Hi as [[k Hi] Ht].
  pose proof (valid_invite_id _ _ _ H1 Hi) as Hk. pose proof (H3 k i Hi) as Hold. rewrite Hc, Ht in Hold.
  assert (Hnone : forall d, (t, d) ∈ enrolled h -> False) by (intros d Hd; apply Hold; by eapply elem_of_map_fst).
  split; cbn [file enrolled revoked]; [done| | | |]; rewrite ?Hd'; cbn [set_devices set_invites Devices Invites].
  - intros t' d Hin. apply elem_of_app in Hin as [Hin|Hin].
    + destruct (H2 _ _ Hin) as (v & Hv' & Hs). exists v. rewrite lookup_insert_ne; [done|]. intros Heq. congruence.
    + apply list_elem_of_singleton in Hin as [= -> ->]. exists dev. rewrite Hid, lookup_insert_eq. by repeat split.
  - intros id' j Hj. apply lookup_insert_Some in Hj as [[<- <-]|[Hne Hj]].
    + cbn. rewrite Ht. intros d Hin. apply elem_of_app in Hin as [Hin|Hin]; [exfalso; by eapply Hnone|].
      apply list_elem_of_singleton in Hin as [= ->]. done.
    + assert (Hht : i_TokenHash j <> t).
      { intros Heq. destruct (valid_invite_unique _ _ _ _ _ H1 Hi Hj ltac:(congruence)) as [Heq2 _]. congruence. }
      specialize (H3 id' j Hj). destruct (no_time (i_ConsumedAt j)).
      * rewrite map_app, not_elem_of_app. split; [done|]. cbn. intros Hin. apply list_elem_of_singleton in Hin. congruence.
      * intros d Hin. apply elem_of_app in Hin as [Hin|Hin]; [by apply H3|]. apply list_elem_of_singleton in Hin as [= Hx _]. congruence.
  - intros t' d1 d2 Ha Hb. apply elem_of_app in Ha as [Ha|Ha], Hb as [Hb|Hb];
      try apply list_elem_of_singleton in Ha; try apply list_elem_of_singleton in Hb; simplify_eq.
    + by eapply H4.
    + exfalso. by eapply Hnone.
    + exfalso. by eapply Hnone.
    + by repeat split.
  - intros id' Hid'. destruct (H5 _ Hid') as (v & Hv' & He). exists v. rewrite lookup_insert_ne; [done|]. intros Heq. congruence.
Qed.

Lemma store_ok_step h h' : store_ok h -> store_step h h' -> store_ok h'.
Proof.
  intros Hok Hs. destruct Hs as [h m o name e limits now rand Hf|h m o id b|h m o id limits|h m o id ttl now tb rand Hf Hd|h m o id
    |h m o id now r|h m o token name key now issue rand Hf r].
  - destruct (AddAccount_disk o (mkWorld (file h) m) name e limits now rand) as [-> | (a & -> & Hv)];
      [by apply store_ok_same|by apply store_ok_accounts].
  - unfold SetAccountEnabled. destruct (change_account_disk o (mkWorld (file h) m) id (fun a => mkAccount (a_ID a) (a_Name a) b
      (a_ExpiresAt a) (a_MaxFlows a) (a_MaxClients a) (a_CreatedAt a))) as [-> | (a & -> & Hv)];
      [by apply store_ok_same|by apply store_ok_accounts].
  - unfold SetAccountLimits. destruct (negb _); [by apply store_ok_same|].
    destruct (change_account_disk o (mkWorld (file h) m) id (fun a => mkAccount (a_ID a) (a_Name a) (a_Enabled a)
      (a_ExpiresAt a) (MaxFlows limits) (MaxClients limits) (a_CreatedAt a))) as [-> | (a & -> & Hv)];
      [by apply store_ok_same|by apply store_ok_accounts].
  - destruct (CreateInvite_disk o (mkWorld (file h) m) id ttl now tb rand) as [-> | (Hv & Hvp & Hcases)]; [by apply store_ok_same|].
    cbn [disk] in Hcases, Hvp. pose proof (store_ok_pruned h now Hok Hvp) as Hp.
    destruct Hcases as [E | (t & id' & i & -> & -> & Hh & Hc & E)]; rewrite E in *; [done|].
    apply (invite_ok _ _ _ _ Hp eq_refl); try done.
    + cbn [file]. rewrite pruned_invites. by rewrite (Hf id' eq_refl).
    + cbn. rewrite Hh. by apply (Hd t eq_refl).
  - destruct (RevokeInvite_disk o (mkWorld (file h) m) id) as [-> | [-> Hv]]; [by apply store_ok_same|].
    apply store_ok_invites; [done|done|apply delete_subseteq].
  - destruct r as [e w'] eqn:E. unfold r in E. apply RevokeDevice_disk in E. cbn [fst snd disk] in *. destruct e as [e|].
    + by apply store_ok_same.
    + destruct E as (old & Ho & Hv & E). rewrite E in *. by apply revoke_ok.
  - destruct r as [e w'] eqn:E. unfold r in E. apply EnrollDevice_disk in E. cbn [fst snd disk] in *. destruct e as [[[a dev] c]|e]; [|destruct E as [-> | [-> Hv]]; [by apply store_ok_same|by apply store_ok_pruned]].
    destruct E as (Hv & Hvp & _ & He & _). pose proof (store_ok_pruned h now Hok Hvp) as Hp.
    inversion He as [i Hi Hc Hdev Hn Hk Heq|i a' id Hi Hc Hr Ha Hen Hex Hk Hdev Heq].
    + exact (enrol_again_ok _ _ _ _ Hp Hi Hc Hdev).
    + eapply (enrol_first_ok _ _ _ id dev now _ Hp Hi Hc); [by apply (Hf id Hr)|by rewrite Hdev|done|by rewrite Heq].
Qed.

Lemma validated_revocation d id v : validateStoreData d = true -> Devices d !! id = Some v -> d_Enabled v = true -> d_RevokedAt v = NoTime.
Proof.
  intros Hv Hd He. unfold validateStoreData in Hv. rewrite !andb_true_iff in Hv. destruct Hv as ((((_ & Hdev) & _) & _) & _).
  pose proof (forallb_lookup _ _ _ _ Hdev Hd) as H. cbn in H. rewrite !andb_true_iff in H. destruct H as (_ & H).
  destruct (parseStateTime _); [|done]. rewrite He, !andb_true_iff in H. destruct H as [H _]. by destruct (d_RevokedAt v).
Qed.

(** Authorization under the key a device registered. *)
Lemma Authorize_registered d a dev pid key now :
  validateStoreData d = true -> Accounts d !! a_ID a = Some a -> a_Enabled a = true -> expired (a_ExpiresAt a) now = false ->
  Devices d !! d_ID dev = Some dev -> d_AccountID dev = a_ID a -> d_Enabled dev = true -> d_PublicKey dev = EncodeToString key ->
  Forall (fun x => 0 <= x < 256) key ->
  Authorize d (mkPrincipal pid (a_ID a) (d_ID dev) key) now = Ok (a, dev).
Proof.
  intros Hv Ha Hen Hex Hd Haid Hde Hk Hkey. unfold Authorize. cbn [AccountID DeviceID PublicKey].
  rewrite Ha, Hen, Hex, Hd, Haid, Hde, (validated_revocation _ _ _ Hv Hd Hde), Hk, (base64_roundtrip _ Hkey).
  unfold same_text. by rewrite !bool_decide_true by done.
Qed.

Lemma Authorize_disabled d p now v : Devices d !! DeviceID p = Some v -> d_Enabled v = false -> exists e, Authorize d p now = Err e.
Proof.
  intros Hd He. unfold Authorize. destruct (Accounts d !! AccountID p) as [a|]; [|by eexists]. destruct (_ || _); [by eexists|].
  rewrite Hd, He. rewrite orb_true_r. by eexists.
Qed.

(** An enrolment leaves its invitation marked with its device. *)
Lemma enrolment_marks now token name key rand d dev d' :
  validateStoreData d = true -> enrolment now token name key rand d dev d' ->
  Accounts d' = Accounts d /\ Devices d' !! d_ID dev = Some dev /\ d_Name dev = TrimSpace name /\ d_PublicKey dev = EncodeToString key /\
  exists i, Invites d' !! i_ID i = Some i /\ i_TokenHash i = token_digest token /\ no_time (i_ConsumedAt i) = false /\ i_DeviceID i = d_ID dev.
Proof.
  intros Hv [i Hi Hc Hd Hn Hk|i a id Hi Hc Hr Ha Hen Hex Hk ->].
  - pose proof (valid_device_id _ _ _ Hv Hd) as Hid. apply find_invite_spec in Hi as [[k Hi] Ht]. rewrite Hid. repeat split; try done.
    exists i. by rewrite (valid_invite_id _ _ _ Hv Hi).
  - apply find_invite_spec in Hi as [_ Ht]. cbn. rewrite lookup_insert_eq. repeat split; try done.
    exists (mkInvite (i_ID i) (i_AccountID i) (i_TokenHash i) (i_ExpiresAt i) (i_CreatedAt i) (format_time now) id).
    by rewrite lookup_insert_eq.
Qed.

Lemma store_ok_start d : validateStoreData d = true -> store_ok (mkHistory d [] []).
Proof.
  intros Hv. split; cbn; [done|..].
  - intros t x H. by apply elem_of_nil in H.
  - intros id i Hi. destruct (no_time _); [apply not_elem_of_nil|]. intros x H. by apply elem_of_nil in H.
  - intros t x y H. by apply elem_of_nil in H.
  - intros id H. by apply elem_of_nil in H.
Qed.

(** What a process has in force once it has read the file. *)
Lemma read_snapshot ok w : (fst (Load ok w) = true -> mem (snd (Load ok w)) = disk w) /\ (fst (Refresh ok w) <> None -> mem (snd (Refresh ok w)) = disk w).
Proof.
  unfold Load, Refresh. destruct (_ && _); [|done]. split; [done|]. destruct (bool_decide _) eqn:E; [|done]. intros _. by apply bool_decide_eq_true in E.
Qed.

(** C30: the store file stays well formed under every sequence of calls by any
    processes, whatever their snapshots, whichever locks, reads and writes fail:
    what is on disk always validates.  A device once enrolled stays on file with the
    identity, account, name and key it was enrolled with; and one invitation token
    never enrols two devices, however often it is presented.  A process decides from
    the snapshot it holds: once a device has been revoked, by whichever process, every
    process that then reads the file, by [Load] or by [Refresh], refuses the device,
    whatever has been called since; a process whose reads fail goes on with the
    snapshot it had. *)
Theorem identity_store_sound d h :
  validateStoreData d = true -> steps store_step (mkHistory d [] []) h ->
  validateStoreData (file h) = true /\
  (forall t dev, (t, dev) ∈ enrolled h -> exists dev', Devices (file h) !! d_ID dev = Some dev' /\ same_device dev dev') /\
  (forall t dev1 dev2, (t, dev1) ∈ enrolled h -> (t, dev2) ∈ enrolled h -> same_device dev1 dev2) /\
  (forall p now m ok, DeviceID p ∈ revoked h ->
     let w := mkWorld (file h) m in
     (fst (Load ok w) = true -> exists e, Authorize (mem (snd (Load ok w))) p now = Err e) /\
     (fst (Refresh ok w) <> None -> exists e, Authorize (mem (snd (Refresh ok w))) p now = Err e) /\
     (fst (Refresh ok w) = None -> Authorize (mem (snd (Refresh ok w))) p now = Authorize m p now)).
Proof.
  intros Hv Hs. assert (Hok : store_ok h).
  { eapply (steps_invariant store_step store_ok); [intros x y; apply store_ok_step|by apply store_ok_start|exact Hs]. }
  destruct Hok as [H1 H2 _ H4 H5]. split; [done|]. split; [done|]. split; [done|].
  intros p now m ok Hp w. destruct (H5 _ Hp) as (v & Hd & He). destruct (read_snapshot ok w) as [Hl Hr].
  split_and!; [intros ->%Hl; by eapply Authorize_disabled|intros ->%Hr; by eapply Authorize_disabled|].
  unfold Refresh. destruct (_ && _); [by destruct (bool_decide _)|done].
Qed.

(** An enrolment is a transaction.  When it succeeds, the file holds the device
    with the given name and key, the invitation is marked as used by that device,
    and the key authorizes at once, unless the device had been enrolled before and
    since disabled.  When it fails for any reason - a bad token, a used invitation, the
    issuer, the disk - no account and no device changes on disk and every
    invitation that has not lapsed is still there, unused if it was. *)
Theorem enrolment_all_or_nothing o w token name key now issue rand r w' :
  Forall (fun x => 0 <= x < 256) key -> EnrollDevice o w token name key now issue rand = (r, w') ->
  match r with
  | Ok (a, dev, _) =>
      d_Name dev = TrimSpace name /\ Devices (disk w') !! d_ID dev = Some dev /\
      (exists i, Invites (disk w') !! i_ID i = Some i /\ i_TokenHash i = token_digest token /\
         no_time (i_ConsumedAt i) = false /\ i_DeviceID i = d_ID dev) /\
      (d_Enabled dev = true -> forall pid, Authorize (disk w') (mkPrincipal pid (a_ID a) (d_ID dev) key) now = Ok (a, dev))
  | Err _ =>
      Accounts (disk w') = Accounts (disk w) /\ Devices (disk w') = Devices (disk w) /\ Invites (disk w') ⊆ Invites (disk w) /\
      (forall id i, Invites (disk w) !! id = Some i -> prunable now i = false -> Invites (disk w') !! id = Some i)
  end.
Proof.
  intros Hkey E. apply EnrollDevice_disk in E. destruct r as [[[a dev] c]|e].
  - destruct E as (Hv & Hvp & _ & He & Hen & Hex & Hacc & aid & Ha).
    destruct (enrolment_marks _ _ _ _ _ _ _ _ Hvp He) as (HA & Hd & Hn & Hk & Hi). repeat split; try done.
    intros Hde pid. apply Authorize_registered; try done. rewrite HA. change (Accounts (pruned now (disk w))) with (Accounts (disk w)).
    by rewrite (valid_account_id (pruned now (disk w)) aid a Hvp Ha).
  - destruct E as [-> | [-> _]]; [done|]. repeat split; [apply map_filter_subseteq|].
    intros id i Hi Hp. by rewrite pruned_invites, Hi, Hp.
Qed.

End Store.

(** ** Witnesses *)

(** A constant digest and exact case folding. *)
Definition demo_sha (_ : bytes) : bytes := replicate 32 0.
Definition demo_id (c : Z) : bytes := replicate 32 c.
Definition demo_hash : bytes := EncodeToString (demo_sha []).
Definition demo_token : bytes := EncodeToString (replicate 32 7).
Definition demo_key : bytes := replicate 32 1.
Definition demo_io : io := mkIO true true true.

Definition demo_store : storeData :=
  mkData ProviderStateVersion {[ demo_id 48 := mkAccount (demo_id 48) [97] true NoTime 0 0 (Time 0) ]} ∅
    {[ demo_id 49 := mkInvite (demo_id 49) (demo_id 48) demo_hash (Time (3600 * nanos)) (Time 0) NoTime [] ]}.

Definition demo_enroll (d : storeData) (name : bytes) :=
  EnrollDevice demo_sha id demo_io (mkWorld d d) demo_token name demo_key nanos None (Some (demo_id 50)).

Definition demo_device : Device := mkDevice (demo_id 50) (demo_id 48) [98] (EncodeToString demo_key) true (Time nanos) NoTime.

(** An enrolment and a revocation. *)
Definition demo_enrolled : storeData := disk (snd (demo_enroll demo_store [98])).
Definition demo_revoked : storeData := disk (snd (RevokeDevice id demo_io (mkWorld demo_enrolled demo_enrolled) (demo_id 50) (2 * nanos))).
Definition demo_history : history := mkHistory demo_revoked [(demo_hash, demo_device)] [demo_id 50].

Lemma identity_store_sound_witness :
  validateStoreData id demo_store = true /\
  exists e, Authorize (mem (snd (Refresh id true (mkWorld demo_revoked demo_enrolled)))) (mkPrincipal [] (demo_id 48) (demo_id 50) demo_key) (3 * nanos) = Err e.
Proof.
  split; [by vm_compute|].
  assert (H1 : store_step demo_sha id same_text (mkHistory demo_store [] []) (mkHistory demo_enrolled [(demo_hash, demo_device)] [])).
  { refine (st_enroll demo_sha id same_text (mkHistory demo_store [] []) demo_store demo_io demo_token [98] demo_key nanos None (Some (demo_id 50)) _).
    intros i [= <-]. by vm_compute. }
  assert (H2 : store_step demo_sha id same_text (mkHistory demo_enrolled [(demo_hash, demo_device)] []) demo_history).
  { exact (st_revoke demo_sha id same_text (mkHistory demo_enrolled [(demo_hash, demo_device)] []) demo_enrolled demo_io (demo_id 50) (2 * nanos)). }
  assert (Hs : steps (store_step demo_sha id same_text) (mkHistory demo_store [] []) demo_history) by (eapply steps_trans; apply steps_one; eassumption).
  destruct (identity_store_sound demo_sha id same_text demo_store demo_history ltac:(by vm_compute) Hs) as (_ & _ & _ & W).
  destruct (W (mkPrincipal [] (demo_id 48) (demo_id 50) demo_key) (3 * nanos) demo_enrolled true ltac:(by left)) as (_ & R & _).
  apply R. by vm_compute.
Defined.

Lemma enrolment_all_or_nothing_witness :
  Authorize demo_enrolled (mkPrincipal [] (demo_id 48) (demo_id 50) demo_key) nanos = Ok (mkAccount (demo_id 48) [97] true NoTime 0 0 (Time 0), demo_device).
Proof.
  assert (E : demo_enroll demo_store [98] = (Ok (mkAccount (demo_id 48) [97] true NoTime 0 0 (Time 0), demo_device, []), mkWorld demo_enrolled demo_enrolled)) by (vm_compute; reflexivity).
  assert (Hk : Forall (fun x => 0 <= x < 256) demo_key) by (by apply Forall_replicate; lia).
  exact (proj2 (proj2 (proj2 (enrolment_all_or_nothing demo_sha id demo_io _ _ _ _ _ _ _ _ _ Hk E))) eq_refl []).
Defined.
