(* ===== verification/Socks.v ===== *)
(** The local SOCKS5 surface ([internal/socks5/socks5.go]): method negotiation,
    username/password authentication, the request, and the UDP datagram format.

    A connection is a [reader] and an [io.Writer] of [Frame]; a computation over
    it returns its result or an error with the connection after it.  [matches]
    compares by value: the constant running time is not modelled. *)

From S2P Require Import Prelude Frame GoNet.

Definition version5 : Z := 5.
Definition methodNone : Z := 0.
Definition methodUserPass : Z := 2.
Definition methodNoneAcceptable : Z := 255.
Definition userPassVersion : Z := 1.
Definition userPassSuccess : Z := 0.
Definition userPassFailure : Z := 1.
Definition maxUserPassFieldLength : Z := 255.
Definition CommandConnect : Z := 1.
Definition CommandUDPAssociate : Z := 3.
Definition ReplyCommandNotSupported : Z := 7.
Definition ReplyAddressTypeUnsupported : Z := 8.

Inductive serror :=
| ErrUsernameEmpty | ErrUsernameLong | ErrPasswordLong
| ErrRead (what : Z) (cause : ferror) | ErrWrite (cause : ferror)
| ErrGreeting | ErrNoMethod (required : Z) | ErrAuthVersion | ErrAuthUsername | ErrAuthRejected
| ErrHeader | ErrCommand | ErrDomainEmpty | ErrAddressType (t : Z) | ErrPortZero
| ErrDatagramLength | ErrDatagramReserved | ErrDatagramFragment | ErrDatagramShort | ErrDatagramDomain
| ErrDatagramPayload | ErrDatagramDest | ErrDatagramPort | ErrDomainLength.

Record Request := mkRequest { Command : Z; Destination : bytes }.
Record Credentials := mkCredentials { Username : bytes; Password : bytes }.
Record UDPDatagram := mkDatagram { d_Destination : bytes; d_Payload : bytes }.

(** [Credentials.Validate]; [None] is the nil pointer. *)
Definition Credentials_Validate (c : option Credentials) : option serror :=
  match c with
  | None => None
  | Some c =>
      if len (Username c) =? 0 then Some ErrUsernameEmpty
      else if len (Username c) >? maxUserPassFieldLength then Some ErrUsernameLong
      else if len (Password c) >? maxUserPassFieldLength then Some ErrPasswordLong
      else None
  end.

Definition matches (c : Credentials) (username password : bytes) : bool :=
  bool_decide (Username c = username) && bool_decide (Password c = password).

(** ** Computations over a connection *)

Definition conn (W : Type) : Type := reader * W.
Definition SM (W A : Type) : Type := conn W -> result serror A * conn W.

Global Instance SM_ret W : MRet (SM W) := fun A a c => (Ok a, c).
Global Instance SM_bind W : MBind (SM W) := fun A B f m c =>
  match m c with
  | (Ok a, c') => f a c'
  | (Err e, c') => (Err e, c')
  end.

Definition fail {W A} (e : serror) : SM W A := fun c => (Err e, c).

(** [io.ReadFull]; what a short read leaves is not read again. *)
Definition read_n {W} (what : Z) (n : nat) : SM W bytes := fun '(r, w) =>
  match protocol.ReadFull r n with
  | Ok (b, r') => (Ok b, (r', w))
  | Err e => (Err (ErrRead what e), (mkReader [] (fails r), w))
  end.

Section Stream.
Context {W : Type} `{Writer W}.

(** [writeFull]: nil or the error. *)
Definition writeFull (p : bytes) : SM W (option ferror) := fun '(r, w) =>
  let '(e, w') := default (Some ErrShortWrite, w) (protocol.writeFull w p) in (Ok e, (r, w')).

(** One [Write] whose results are ignored. *)
Definition write_once (p : bytes) : SM W unit := fun '(r, w) =>
  let '(_, _, w') := write w p in (Ok tt, (r, w')).

Definition WriteMethodUnavailable : SM W (option ferror) := writeFull [version5; methodNoneAcceptable].

(** [WriteReply]; [bound] is the address and port of a non-nil TCP or UDP
    address. *)
Definition WriteReply (code : Z) (bound : option (bytes * Z)) : SM W (option ferror) :=
  let '(ip, port) := default (replicate 10 0 ++ [255; 255] ++ replicate 4 0, 0) bound in
  match To4 ip with
  | Some ip4 => writeFull ([version5; code; 0; 1] ++ ip4 ++ be_bytes 2 port)
  | None => writeFull ([version5; code; 0; 4] ++ default (replicate 16 0) (To16 ip) ++ be_bytes 2 port)
  end.

Definition authenticate (credentials : Credentials) : SM W unit :=
  prefix ← read_n 1 2;
  if negb (nth 0 prefix 0 =? userPassVersion) then
    _ ← writeFull [userPassVersion; userPassFailure]; fail ErrAuthVersion
  else if nth 1 prefix 0 =? 0 then
    _ ← writeFull [userPassVersion; userPassFailure]; fail ErrAuthUsername
  else
    username ← read_n 2 (Z.to_nat (nth 1 prefix 0));
    passwordLength ← read_n 3 1;
    password ← read_n 4 (Z.to_nat (nth 0 passwordLength 0));
    if negb (matches credentials username password) then
      _ ← writeFull [userPassVersion; userPassFailure]; fail ErrAuthRejected
    else
      e ← writeFull [userPassVersion; userPassSuccess];
      match e with Some e => fail (ErrWrite e) | None => mret tt end.

Definition negotiateMethod (credentials : option Credentials) : SM W unit :=
  let required := match credentials with Some _ => methodUserPass | None => methodNone end in
  greeting ← read_n 5 2;
  if negb (nth 0 greeting 0 =? version5) || (nth 1 greeting 0 =? 0) then fail ErrGreeting
  else
    methods ← read_n 6 (Z.to_nat (nth 1 greeting 0));
    if negb (existsb (fun method => method =? required) methods) then
      _ ← write_once [version5; methodNoneAcceptable]; fail (ErrNoMethod required)
    else
      e ← writeFull [version5; required];
      match e with
      | Some e => fail (ErrWrite e)
      | None => match credentials with None => mret tt | Some c => authenticate c end
      end.

Definition readHost (addressType : Z) : SM W bytes :=
  if addressType =? 1 then
    ip ← read_n 7 4; mret (IP_String ip)
  else if addressType =? 3 then
    length_ ← read_n 8 1;
    if nth 0 length_ 0 =? 0 then fail ErrDomainEmpty
    else read_n 9 (Z.to_nat (nth 0 length_ 0))
  else if addressType =? 4 then
    ip ← read_n 10 16; mret (IP_String ip)
  else fail (ErrAddressType addressType).

(** A computation whose error is answered before it is returned. *)
Definition or_reply {A} (m : SM W A) (code : Z) : SM W A := fun c =>
  match m c with
  | (Ok a, c') => (Ok a, c')
  | (Err e, c') => (Err e, snd (WriteReply code None c'))
  end.

Definition ReadRequest (credentials : option Credentials) : SM W Request :=
  match Credentials_Validate credentials with
  | Some e => fail e
  | None =>
      _ ← negotiateMethod credentials;
      header ← read_n 11 4;
      if negb (nth 0 header 0 =? version5) || negb (nth 2 header 0 =? 0) then fail ErrHeader
      else if negb (nth 1 header 0 =? CommandConnect) && negb (nth 1 header 0 =? CommandUDPAssociate) then
        _ ← WriteReply ReplyCommandNotSupported None; fail ErrCommand
      else
        host ← or_reply (readHost (nth 3 header 0)) ReplyAddressTypeUnsupported;
        portBytes ← read_n 12 2;
        let port := be_val portBytes in
        if (port =? 0) && (nth 1 header 0 =? CommandConnect) then
          _ ← WriteReply ReplyAddressTypeUnsupported None; fail ErrPortZero
        else mret (mkRequest (nth 1 header 0) (JoinHostPort host (Itoa port)))
  end.

End Stream.

(** ** UDP datagrams *)

Definition udpHeaderSize : Z := 4.
Definition maxUDPDatagramSize : Z := 65507.
Definition maxUDPDomainLength : Z := 255.

Definition readHostBytes (packet : bytes) (addressType : Z) : result serror (bytes * Z) :=
  if addressType =? 1 then
    if len packet <? 4 then Err ErrDatagramShort else Ok (IP_String (take 4 packet), 4)
  else if addressType =? 3 then
    if len packet <? 1 then Err ErrDatagramShort
    else
      let length_ := nth 0 packet 0 in
      if (length_ =? 0) || (length_ >? maxUDPDomainLength) || (len packet <? 1 + length_) then Err ErrDatagramDomain
      else Ok (slice 1 (1 + Z.to_nat length_) packet, 1 + length_)
  else if addressType =? 4 then
    if len packet <? 16 then Err ErrDatagramShort else Ok (IP_String (take 16 packet), 16)
  else Err (ErrAddressType addressType).

Definition ReadUDPDatagram (packet : bytes) : result serror UDPDatagram :=
  if (len packet <? udpHeaderSize + 2) || (len packet >? maxUDPDatagramSize) then Err ErrDatagramLength
  else if negb (nth 0 packet 0 =? 0) || negb (nth 1 packet 0 =? 0) then Err ErrDatagramReserved
  else if negb (nth 2 packet 0 =? 0) then Err ErrDatagramFragment
  else
    match readHostBytes (drop 4 packet) (nth 3 packet 0) with
    | Err e => Err e
    | Ok (host, used) =>
        let portOffset := udpHeaderSize + used in
        if portOffset + 2 >? len packet then Err ErrDatagramShort
        else
          let port := be_val (slice (Z.to_nat portOffset) (Z.to_nat portOffset + 2) packet) in
          if port =? 0 then Err ErrDatagramPort
          else Ok (mkDatagram (JoinHostPort host (Itoa port)) (drop (Z.to_nat portOffset + 2) packet))
    end.

Definition encodeHost (host : bytes) : result serror bytes :=
  let domain :=
    if (len host =? 0) || (len host >? maxUDPDomainLength) || (len host >? 255) then Err ErrDomainLength
    else Ok ([3; len host] ++ host) in
  match ParseIP host with
  | Some ip =>
      match To4 ip with
      | Some ip4 => Ok ([1] ++ ip4)
      | None => match To16 ip with Some ip16 => Ok ([4] ++ ip16) | None => domain end
      end
  | None => domain
  end.

(** [WriteUDPDatagram] up to the write: the packet it writes. *)
Definition udp_datagram (destination payload : bytes) : result serror bytes :=
  if len payload >? maxUDPDatagramSize then Err ErrDatagramPayload
  else
    match SplitHostPort destination with
    | None => Err ErrDatagramDest
    | Some (host, portText) =>
        if len host =? 0 then Err ErrDatagramDest
        else
          match Atoi portText with
          | None => Err ErrDatagramPort
          | Some port =>
              if (port <? 1) || (port >? 65535) then Err ErrDatagramPort
              else
                match encodeHost host with
                | Err e => Err e
                | Ok address => Ok ([0; 0; 0] ++ address ++ be_bytes 2 port ++ payload)
                end
          end
    end.

Definition WriteUDPDatagram {W} `{Writer W} (destination payload : bytes) : SM W unit :=
  match udp_datagram destination payload with
  | Err e => fail e
  | Ok packet =>
      e ← writeFull packet;
      match e with Some e => fail (ErrWrite e) | None => mret tt end
  end.

(** ** What a datagram carries *)

(** The text of the host after it has been through a datagram. *)
Definition host_text (host : bytes) : bytes :=
  match ParseIP host with Some ip => IP_String ip | None => host end.

(** What [readHostBytes] reads behind an encoded host. *)
Lemma readHostBytes_encodeHost host address rest :
  host <> [] -> encodeHost host = Ok address ->
  exists t a, address = t :: a /\ 1 <= len a /\
    readHostBytes (a ++ rest) t = Ok (host_text host, len a).
Proof.
  intros Hne He. unfold encodeHost in He. unfold host_text.
  assert (Hdom : (if (len host =? 0) || (len host >? maxUDPDomainLength) || (len host >? 255) then Err ErrDomainLength
                  else Ok ([3; len host] ++ host)) = Ok address ->
    exists t a, address = t :: a /\ 1 <= len a /\ readHostBytes (a ++ rest) t = Ok (host, len a)).
  { destruct (_ || _) eqn:E; [done|]. intros Hok. assert (address = 3 :: len host :: host) as -> by (by injection Hok).
    exists 3, (len host :: host). split; [done|]. pose proof (len_nonneg host) as Hh. pose proof (len_nonneg rest) as Hr.
    split; [rewrite len_cons; lia|]. unfold readHostBytes, maxUDPDomainLength in *. bool_to_prop.
    change (3 =? 1) with false. change (3 =? 3) with true. cbn iota. cbn [nth app].
    destruct (len (len host :: host ++ rest) <? 1) eqn:E1; [rewrite len_cons, len_app in E1; bool_to_prop; lia|].
    destruct (_ || _) eqn:E2; [rewrite len_cons, len_app in E2; bool_to_prop; lia|].
    rewrite len_cons. replace (1 + len host) with (len host + 1) by lia. do 2 f_equal. unfold slice. cbn [drop].
    replace (1 + Z.to_nat (len host) - 1)%nat with (length host) by (unfold len; lia). apply take_app_length. }
  destruct (ParseIP host) as [ip|] eqn:Ep; [|by apply Hdom].
  pose proof (ParseIP_length _ _ Ep) as Hl. destruct (To4 ip) as [ip4|] eqn:E4.
  - destruct (IP_String_To4 _ _ E4) as [Hs H4l]. assert (address = 1 :: ip4) as -> by (by injection He).
    exists 1, ip4. split; [done|]. split; [unfold len; lia|]. unfold readHostBytes. change (1 =? 1) with true. cbn iota.
    pose proof (len_nonneg rest). unfold len in *. rewrite length_app, H4l. destruct (_ <? 4) eqn:E; [bool_to_prop; lia|].
    rewrite <- Hs. do 3 f_equal. by rewrite take_app_length'.
  - unfold To16, len in He. rewrite Hl in He. change (Z.of_nat 16 =? 4) with false in He. change (Z.of_nat 16 =? 16) with true in He.
    cbn iota in He. assert (address = 4 :: ip) as -> by (by injection He).
    exists 4, ip. split; [done|]. split; [unfold len; lia|]. unfold readHostBytes. change (4 =? 1) with false.
    change (4 =? 3) with false. change (4 =? 4) with true. cbn iota.
    unfold len. rewrite length_app, Hl. destruct (_ <? 16) eqn:E; [bool_to_prop; lia|].
    do 3 f_equal. by rewrite take_app_length'.
Qed.

(** A SOCKS5 datagram reads back.  What [WriteUDPDatagram] writes for a
    destination, when it stays within the datagram limit, [ReadUDPDatagram] reads
    as the same payload for the same port and host, an IP address in its
    canonical text; past the limit it is refused. *)
Theorem socks_datagram_roundtrip destination payload packet :
  udp_datagram destination payload = Ok packet ->
  exists host portText port,
    SplitHostPort destination = Some (host, portText) /\ Atoi portText = Some port /\ 1 <= port <= 65535 /\
    ReadUDPDatagram packet =
      if len packet >? maxUDPDatagramSize then Err ErrDatagramLength
      else Ok (mkDatagram (JoinHostPort (host_text host) (Itoa port)) payload).
Proof.
  unfold udp_datagram. intros Hu. destruct (len payload >? maxUDPDatagramSize); [done|].
  destruct (SplitHostPort destination) as [[host portText]|]; [|done]. destruct (len host =? 0) eqn:Eh; [done|].
  destruct (Atoi portText) as [port|] eqn:Ea; [|done]. destruct ((port <? 1) || (port >? 65535)) eqn:Ep; [done|].
  destruct (encodeHost host) as [address|] eqn:Ee; [|done]. bool_to_prop.
  exists host, portText, port. split; [done|]. split; [done|]. split; [lia|].
  destruct (readHostBytes_encodeHost host address (be_bytes 2 port ++ payload)) as (t & a & -> & Hal & Hr); [by intros ->|done|].
  assert (packet = [0; 0; 0; t] ++ a ++ be_bytes 2 port ++ payload) as -> by (by injection Hu).
  pose proof (len_nonneg payload) as Hp0.
  assert (Hlen : len ([0; 0; 0; t] ++ a ++ be_bytes 2 port ++ payload) = 6 + len a + len payload).
  { rewrite !len_app. unfold len at 1 3. rewrite be_bytes_length. cbn. lia. }
  unfold ReadUDPDatagram. rewrite Hlen. unfold udpHeaderSize.
  destruct (6 + len a + len payload <? 4 + 2) eqn:E1; [bool_to_prop; lia|]. cbn [orb].
  destruct (6 + len a + len payload >? maxUDPDatagramSize) eqn:E2; [done|].
  change (drop 4 ([0; 0; 0; t] ++ a ++ be_bytes 2 port ++ payload)) with (a ++ be_bytes 2 port ++ payload).
  change (nth 3 ([0; 0; 0; t] ++ _) 0) with t. cbn [nth app]. change (negb (0 =? 0)) with false. cbn [orb]. rewrite Hr.
  destruct (4 + len a + 2 >? 6 + len a + len payload) eqn:E3; [bool_to_prop; lia|].
  replace (Z.to_nat (4 + len a)) with (4 + length a)%nat by (unfold len; lia).
  assert (Hs : slice (4 + length a) (4 + length a + 2) (0 :: 0 :: 0 :: t :: a ++ be_bytes 2 port ++ payload) = be_bytes 2 port).
  { unfold slice. cbn [drop Nat.add]. replace (S (S (S (S (length a + 2)))) - S (S (S (S (length a)))))%nat with 2%nat by lia.
    rewrite drop_app_length. by apply take_app_length'. }
  rewrite Hs, (be_val_be_bytes 2) by (change (256 ^ Z.of_nat 2) with 65536; lia).
  destruct (port =? 0) eqn:E4; [bool_to_prop; lia|]. do 2 f_equal.
  replace (4 + length a + 2)%nat with (length (0 :: 0 :: 0 :: t :: a ++ be_bytes 2 port))
    by (cbn [length]; rewrite length_app, be_bytes_length; lia).
  replace (0 :: 0 :: 0 :: t :: a ++ be_bytes 2 port ++ payload) with ((0 :: 0 :: 0 :: t :: a ++ be_bytes 2 port) ++ payload)
    by (cbn; by rewrite <- app_assoc).
  apply drop_app_length.
Qed.

(** ** What a client has said when its request is taken *)

(** The bytes of a greeting that offers [methods], and of the authentication
    that follows when there are credentials. *)
Definition hello (c : option Credentials) (methods : bytes) : bytes :=
  [version5; len methods] ++ methods ++
  match c with
  | None => []
  | Some c => [userPassVersion; len (Username c)] ++ Username c ++ [len (Password c)] ++ Password c
  end.

(** What the listener has answered by then. *)
Definition answered (c : option Credentials) : bytes :=
  match c with
  | None => [version5; methodNone]
  | Some _ => [version5; methodUserPass; userPassVersion; userPassSuccess]
  end.

(** An address field of type [t] and the host it stands for. *)
Definition address_of (t : Z) (field host : bytes) : Prop :=
  (t = 1 /\ length field = 4%nat /\ host = IP_String field) \/
  (t = 3 /\ host <> [] /\ field = [len host] ++ host) \/
  (t = 4 /\ length field = 16%nat /\ host = IP_String field).

(** The bytes of a request. *)
Definition request_bytes (q : Request) (b : bytes) : Prop :=
  exists t field host port, b = [version5; Command q; 0; t] ++ field ++ be_bytes 2 port /\ address_of t field host /\
    Destination q = JoinHostPort host (Itoa port) /\ 0 <= port < 65536 /\
    (Command q = CommandConnect /\ port <> 0 \/ Command q = CommandUDPAssociate).

Section Soundness.
Context {W : Type} `{WriterOK W}.

Lemma bind_Ok {A B} (m : SM W A) (f : A -> SM W B) c b c2 :
  (m ≫= f) c = (Ok b, c2) -> exists a c1, m c = (Ok a, c1) /\ f a c1 = (Ok b, c2).
Proof.
  unfold mbind, SM_bind. destruct (m c) as [[a|e] c1]; [by exists a, c1|done].
Qed.

Lemma read_n_Ok what n r w b c : @read_n W what n (r, w) = (Ok b, c) ->
  exists r', c = (r', w) /\ avail r = b ++ avail r' /\ length b = n.
Proof.
  unfold read_n, protocol.ReadFull. destruct (n <=? length (avail r))%nat eqn:E.
  - intros [= <- <-]. apply Nat.leb_le in E. eexists. split; [done|]. cbn [avail]. rewrite take_drop, length_take. split; [done|lia].
  - by destruct (fails r).
Qed.

Lemma writeFull_None p r w c : writeFull p (r, w) = (Ok None, c) ->
  exists w', c = (r, w') /\ sink w' = sink w ++ p.
Proof.
  unfold writeFull, protocol.writeFull. destruct (writeFull_loop_spec (length p) w p ltac:(lia)) as (e & w' & -> & He).
  cbn. intros [= -> <-]. by exists w'.
Qed.

Lemma two_bytes (b : bytes) : length b = 2%nat -> b = [nth 0 b 0; nth 1 b 0].
Proof. destruct b as [|x [|y [|]]]; done. Qed.

Lemma one_byte (b : bytes) : length b = 1%nat -> b = [nth 0 b 0].
Proof. destruct b as [|x [|]]; done. Qed.

(** A length byte names the length of what follows. *)
Lemma counted n (b : bytes) : is_byte n -> length b = Z.to_nat n -> n = len b.
Proof. unfold is_byte, len. lia. Qed.

Lemma authenticate_sound c r w r' w' :
  Forall is_byte (avail r) -> authenticate c (r, w) = (Ok tt, (r', w')) ->
  avail r = [userPassVersion; len (Username c)] ++ Username c ++ [len (Password c)] ++ Password c ++ avail r' /\
  sink w' = sink w ++ [userPassVersion; userPassSuccess].
Proof.
  intros Hb Ha. unfold authenticate in Ha.
  apply bind_Ok in Ha as (p & c1 & H1 & Ha). apply read_n_Ok in H1 as (r1 & -> & A1 & L1).
  rewrite A1 in Hb. apply Forall_app in Hb as [Hp Hb].
  destruct (negb (nth 0 p 0 =? userPassVersion)) eqn:E1; [by apply bind_Ok in Ha as (? & ? & _ & ?)|].
  destruct (nth 1 p 0 =? 0); [by apply bind_Ok in Ha as (? & ? & _ & ?)|].
  apply bind_Ok in Ha as (user & c2 & H2 & Ha). apply read_n_Ok in H2 as (r2 & -> & A2 & L2).
  apply bind_Ok in Ha as (pl & c3 & H3 & Ha). apply read_n_Ok in H3 as (r3 & -> & A3 & L3).
  apply bind_Ok in Ha as (pass & c4 & H4 & Ha). apply read_n_Ok in H4 as (r4 & -> & A4 & L4).
  destruct (negb (matches c user pass)) eqn:Em; [by apply bind_Ok in Ha as (? & ? & _ & ?)|].
  apply negb_false_iff, andb_true_iff in Em as [Eu Epw]. apply bool_decide_eq_true in Eu, Epw. subst user pass.
  apply bind_Ok in Ha as (e & c5 & H5 & Ha). destruct e; [done|].
  apply writeFull_None in H5 as (w1 & -> & Hsink). injection Ha as <- <-. split; [|done].
  rewrite A2, A3 in Hb. apply Forall_app in Hb as [_ Hb]. apply Forall_app in Hb as [Hpl _].
  pose proof (two_bytes p L1) as Hp2. pose proof (one_byte pl L3) as Hpl1. rewrite Hp2 in Hp. rewrite Hpl1 in Hpl.
  apply Forall_cons in Hp as [_ Hp]. apply Forall_cons in Hp as [Hp _]. apply Forall_cons in Hpl as [Hpl _].
  apply negb_false_iff in E1. bool_to_prop.
  rewrite A1, A2, A3, A4, Hp2, Hpl1, E1. rewrite (counted _ _ Hp L2), (counted _ _ Hpl L4). done.
Qed.

Lemma negotiateMethod_sound c r w r' w' :
  Forall is_byte (avail r) -> negotiateMethod c (r, w) = (Ok tt, (r', w')) ->
  exists methods, avail r = hello c methods ++ avail r' /\
    match c with Some _ => methodUserPass | None => methodNone end ∈ methods /\ sink w' = sink w ++ answered c.
Proof.
  intros Hb Ha. unfold negotiateMethod in Ha. set (required := match c with Some _ => methodUserPass | None => methodNone end) in *.
  apply bind_Ok in Ha as (g & c1 & H1 & Ha). apply read_n_Ok in H1 as (r1 & -> & A1 & L1).
  destruct (_ || _) eqn:E1; [done|]. apply orb_false_iff in E1 as [E1 _]. apply negb_false_iff in E1. bool_to_prop.
  apply bind_Ok in Ha as (methods & c2 & H2 & Ha). apply read_n_Ok in H2 as (r2 & -> & A2 & L2).
  destruct (negb _) eqn:Ef; [by apply bind_Ok in Ha as (? & ? & _ & ?)|]. apply negb_false_iff, existsb_exists in Ef as (m & Hm & Em).
  bool_to_prop. subst m. apply list_elem_of_In in Hm.
  apply bind_Ok in Ha as (e & c3 & H3 & Ha). destruct e; [done|]. apply writeFull_None in H3 as (w1 & -> & Hsink).
  rewrite A1 in Hb. apply Forall_app in Hb as [Hg Hb]. rewrite A2 in Hb. apply Forall_app in Hb as [_ Hb].
  pose proof (two_bytes g L1) as Hg2. rewrite Hg2 in Hg. apply Forall_cons in Hg as [_ Hg]. apply Forall_cons in Hg as [Hg _].
  assert (Hhead : avail r = [version5; len methods] ++ methods ++ avail r2).
  { by rewrite A1, A2, Hg2, E1, (counted _ _ Hg L2). }
  exists methods. destruct c as [c|].
  - destruct (authenticate_sound c r2 w1 r' w' Hb Ha) as [H1 H2]. split; [|split; [done|]].
    + rewrite Hhead, H1. unfold hello. by rewrite <- !app_assoc.
    + rewrite H2, Hsink. unfold answered. by rewrite <- app_assoc.
  - injection Ha as <- <-. split; [|done]. rewrite Hhead. unfold hello. by rewrite app_nil_r, <- !app_assoc.
Qed.

Lemma readHost_sound t r w r' w' host :
  Forall is_byte (avail r) -> readHost (W := W) t (r, w) = (Ok host, (r', w')) ->
  exists field, avail r = field ++ avail r' /\ address_of t field host /\ w' = w.
Proof.
  intros Hb Ha. unfold readHost in Ha. destruct (t =? 1) eqn:E1; [|destruct (t =? 3) eqn:E3; [|destruct (t =? 4) eqn:E4; [|done]]]; bool_to_prop.
  - apply bind_Ok in Ha as (ip & c1 & H1 & Ha). apply read_n_Ok in H1 as (r1 & -> & A1 & L1). injection Ha as <- <- <-.
    exists ip. split; [done|]. split; [left; done|done].
  - apply bind_Ok in Ha as (n & c1 & H1 & Ha). apply read_n_Ok in H1 as (r1 & -> & A1 & L1).
    rewrite (one_byte n L1) in A1. rewrite A1 in Hb. apply Forall_app in Hb as [Hn _]. apply Forall_cons in Hn as [Hn _].
    destruct (nth 0 n 0 =? 0) eqn:E0; [done|]. bool_to_prop. apply read_n_Ok in Ha as (r2 & Hc & A2 & L2). injection Hc as <- <-.
    exists ([len host] ++ host). rewrite A1, A2, (counted _ _ Hn L2). split; [by rewrite <- app_assoc|]. split; [|done].
    right. left. split; [done|]. split; [|done]. intros ->. cbn in L2. unfold is_byte in Hn. lia.
  - apply bind_Ok in Ha as (ip & c1 & H1 & Ha). apply read_n_Ok in H1 as (r1 & -> & A1 & L1). injection Ha as <- <- <-.
    exists ip. split; [done|]. split; [right; right; done|done].
Qed.

Lemma ReadRequest_sound c r w q r' w' :
  Forall is_byte (avail r) -> ReadRequest c (r, w) = (Ok q, (r', w')) ->
  exists methods body, avail r = hello c methods ++ body ++ avail r' /\
    match c with Some _ => methodUserPass | None => methodNone end ∈ methods /\
    request_bytes q body /\ sink w' = sink w ++ answered c.
Proof.
  intros Hb Ha. unfold ReadRequest in Ha. destruct (Credentials_Validate c); [done|].
  apply bind_Ok in Ha as ([] & [r1 w1] & H1 & Ha). destruct (negotiateMethod_sound c r w r1 w1 Hb H1) as (methods & A1 & Hm & Hs).
  rewrite A1 in Hb. apply Forall_app in Hb as [_ Hb].
  apply bind_Ok in Ha as (h & c2 & H2 & Ha). apply read_n_Ok in H2 as (r2 & -> & A2 & L2).
  destruct (_ || _) eqn:E1; [done|]. destruct (_ && _) eqn:E2; [by apply bind_Ok in Ha as (? & ? & _ & ?)|].
  apply bind_Ok in Ha as (host & c3 & H3 & Ha). unfold or_reply in H3.
  destruct (readHost (nth 3 h 0) (r2, w1)) as [[hh|] [r3 w3]] eqn:Eh; [|done]. injection H3 as -> <-.
  rewrite A2 in Hb. apply Forall_app in Hb as [_ Hb]. destruct (readHost_sound _ _ _ _ _ _ Hb Eh) as (field & A3 & Haddr & ->).
  rewrite A3 in Hb. apply Forall_app in Hb as [_ Hb].
  apply bind_Ok in Ha as (pb & c4 & H4 & Ha). apply read_n_Ok in H4 as (r4 & -> & A4 & L4).
  rewrite A4 in Hb. apply Forall_app in Hb as [Hpb _].
  destruct (_ && _) eqn:E3 in Ha; [by apply bind_Ok in Ha as (? & ? & _ & ?)|]. injection Ha as <- <- <-.
  destruct h as [|h0 [|h1 [|h2 [|h3 [|]]]]]; try done. cbn [nth] in *.
  exists methods, ([version5; h1; 0; h3] ++ field ++ pb).
  split; [|split; [done|split; [|done]]].
  - apply orb_false_iff in E1 as [E0 E1']. apply negb_false_iff in E0, E1'. bool_to_prop. subst h0 h2.
    rewrite A1, A2, A3, A4. by rewrite <- !app_assoc.
  - exists h3, field, host, (be_val pb). pose proof (be_val_range pb Hpb) as Hr.
    change (256 ^ len pb) with (256 ^ Z.of_nat (length pb)) in Hr. rewrite L4 in Hr. change (256 ^ Z.of_nat 2) with 65536 in Hr.
    assert (Hpb2 : be_bytes 2 (be_val pb) = pb) by (rewrite <- L4; by apply be_bytes_be_val).
    rewrite Hpb2. split; [done|]. split; [done|]. split; [done|]. split; [lia|]. cbn [Command].
    apply andb_false_iff in E2 as [E2|E2]; apply negb_false_iff in E2; bool_to_prop; [|by right].
    left. split; [done|]. destruct E3 as [E3|E3]; bool_to_prop; [done|congruence].
Qed.

End Soundness.

(** C31: no request without authentication.  Over any connection, a request is
    returned only when what the client sent begins with a greeting that offers
    the one method the listener requires and, when credentials are configured,
    with exactly the configured username and password; the request is the one
    the following bytes encode, its port not zero for CONNECT, nothing behind it
    is consumed, and the client has been answered exactly the acceptance. *)
Theorem socks_request_authenticated {W} `{WriterOK W} c r w q r' w' :
  Forall is_byte (avail r) -> ReadRequest c (r, w) = (Ok q, (r', w')) ->
  exists methods body, avail r = hello c methods ++ body ++ avail r' /\
    match c with Some _ => methodUserPass | None => methodNone end ∈ methods /\
    request_bytes q body /\ sink w' = sink w ++ answered c.
Proof. apply ReadRequest_sound. Qed.

(** The datagram limit is tested on the payload alone: the largest payload
    [WriteUDPDatagram] takes becomes a datagram [ReadUDPDatagram] refuses. *)
Theorem largest_payload_refused payload :
  len payload = maxUDPDatagramSize ->
  exists packet, udp_datagram [97; 58; 49] payload = Ok packet /\ ReadUDPDatagram packet = Err ErrDatagramLength.
Proof.
  intros Hp. exists ([0; 0; 0; 3; 1; 97; 0; 1] ++ payload).
  split; [unfold udp_datagram; rewrite Hp; reflexivity|].
  unfold ReadUDPDatagram. rewrite len_app, Hp. reflexivity.
Qed.

(** ** Witnesses *)

(** A writer that takes everything. *)
Global Instance buffer_writer : Writer bytes := fun w p => (len p, None, w ++ p).

Global Instance buffer_ok : WriterOK bytes.
Proof.
  refine {| sink := fun w => w |}. intros w p n e w' [= <- <- <-]. pose proof (len_nonneg p). split; [lia|].
  unfold len. by rewrite Nat2Z.id, firstn_all.
Defined.

Definition sample_credentials : Credentials := mkCredentials [97; 98] [99].

(** Greeting, authentication and CONNECT to 127.0.0.1 port 80, then payload. *)
Definition sample_input : bytes :=
  hello (Some sample_credentials) [0; 2] ++ [5; 1; 0; 1; 127; 0; 0; 1; 0; 80] ++ [71; 69; 84].

Definition sample_request : Request := mkRequest 1 [49; 50; 55; 46; 48; 46; 48; 46; 49; 58; 56; 48].

Lemma socks_request_authenticated_witness :
  exists methods body, sample_input = hello (Some sample_credentials) methods ++ body ++ [71; 69; 84] /\
    methodUserPass ∈ methods /\ request_bytes sample_request body.
Proof.
  destruct (socks_request_authenticated (W := bytes) (Some sample_credentials) (mkReader sample_input EOF) []
    sample_request (mkReader [71; 69; 84] EOF) (answered (Some sample_credentials))) as (m & b & H1 & H2 & H3 & _).
  - by repeat constructor.
  - vm_compute. reflexivity.
  - exists m, b. split; [exact H1|]. split; [exact H2|exact H3].
Defined.

Lemma socks_datagram_roundtrip_witness :
  exists host portText port, SplitHostPort [91; 58; 58; 49; 93; 58; 53; 51] = Some (host, portText) /\
    Atoi portText = Some port /\ host_text host = [58; 58; 49] /\ port = 53.
Proof.
  destruct (socks_datagram_roundtrip [91; 58; 58; 49; 93; 58; 53; 51] [1; 2]
    ([0; 0; 0; 4] ++ replicate 15 0 ++ [1; 0; 53; 1; 2])) as (h & pt & p & H1 & H2 & _).
  - vm_compute. reflexivity.
  - exists h, pt, p. split; [exact H1|]. split; [exact H2|].
    vm_compute in H1. injection H1 as <- <-. vm_compute in H2. injection H2 as <-. split; vm_compute; reflexivity.
Defined.
