(* ===== verification/Udp.v ===== *)
(** UDP associations: the anti-replay window of [internal/pep/udp.go] and the
    store of relays waiting to be reclaimed ([internal/pep/udprelay.go]).

    Sequence numbers and the bitmap are 64-bit integers as the code has them.  A
    relay's socket is named by a number; the history fields of the store
    ([returned], [closed], [sweepers]) say what became of each socket and how many
    sweeping goroutines run, and no operation reads them. *)

From S2P Require Import Prelude Session Identity.

(** ** The anti-replay window *)

Definition packetWindowWidth : Z := 64.

Record packetWindow := mkWindow { highest : Z; seen : Z; started : bool }.

Definition packetWindow_zero : packetWindow := mkWindow 0 0 false.

Definition admit_packet (w : packetWindow) (seq_ : Z) : bool * packetWindow :=
  if negb (started w) then (true, mkWindow seq_ 1 true)
  else if seq_ >? highest w then
    let shift := seq_ -u64 highest w in
    let seen_ := if shift >=? packetWindowWidth then 0 else wrap 64 (Z.shiftl (seen w) shift) in
    (true, mkWindow seq_ (Z.lor seen_ 1) (started w))
  else if (highest w -u64 seq_) >=? packetWindowWidth then (false, w)
  else
    let bit := wrap 64 (Z.shiftl 1 (highest w -u64 seq_)) in
    if negb (Z.land (seen w) bit =? 0) then (false, w)
    else (true, mkWindow (highest w) (Z.lor (seen w) bit) (started w)).

(** The answers to a sequence of packets. *)
Fixpoint admit_all (w : packetWindow) (seqs : list Z) : list bool :=
  match seqs with
  | [] => []
  | s :: rest => let '(ok, w) := admit_packet w s in ok :: admit_all w rest
  end.

(** What the window stands for: the packets admitted so far.  A packet is placed
    once, unless it is 64 or more behind the newest. *)
Definition newest_placed (placed : list Z) : Z := foldr Z.max 0 placed.

Definition place (placed : list Z) (s : Z) : bool :=
  match placed with [] => true | _ => negb (existsb (Z.eqb s) placed) && (newest_placed placed - s <? packetWindowWidth) end.

Fixpoint place_all (placed seqs : list Z) : list bool :=
  match seqs with
  | [] => []
  | s :: rest => let ok := place placed s in ok :: place_all (if ok then s :: placed else placed) rest
  end.

Record window_ok (w : packetWindow) (placed : list Z) : Prop := {
  wk_started : started w = negb (len placed =? 0);
  wk_highest : placed <> [] -> highest w = newest_placed placed /\ highest w ∈ placed;
  wk_range : Forall (in_range 64) placed;
  wk_seen : placed <> [] -> 0 <= seen w < 2 ^ 64 /\
    forall i, 0 <= i < packetWindowWidth -> Z.testbit (seen w) i = existsb (Z.eqb (highest w - i)) placed
}.

Lemma existsb_Zeqb s l : existsb (Z.eqb s) l = true <-> s ∈ l.
Proof.
  rewrite existsb_exists. split.
  - intros (x & Hx & He). apply Z.eqb_eq in He as ->. by apply list_elem_of_In.
  - intros Hs. exists s. split; [by apply list_elem_of_In|apply Z.eqb_refl].
Qed.

Lemma existsb_Zeqb_false s l : existsb (Z.eqb s) l = false <-> (s ∉ l).
Proof. rewrite <- existsb_Zeqb. destruct (existsb _ _); split; intros; congruence. Qed.

Lemma newest_max l x : x ∈ l -> x <= newest_placed l.
Proof. induction l as [|y l IH]; [intros H; by apply elem_of_nil in H|]. rewrite elem_of_cons. cbn. intros [-> |H]; [lia|]. specialize (IH H). unfold newest_placed in IH. lia. Qed.

Lemma testbit_wrap x i : 0 <= i < 64 -> Z.testbit (wrap 64 x) i = Z.testbit x i.
Proof. intros. unfold wrap. apply Z.mod_pow2_bits_low. lia. Qed.

Lemma lor_range64 a b : 0 <= a < 2 ^ 64 -> 0 <= b < 2 ^ 64 -> 0 <= Z.lor a b < 2 ^ 64.
Proof.
  intros Ha Hb. assert (Hn : 0 <= Z.lor a b) by (apply Z.lor_nonneg; lia). split; [done|].
  destruct (Z.eq_dec (Z.lor a b) 0) as [->|Hz]; [lia|]. apply Z.log2_lt_pow2; [lia|]. rewrite Z.log2_lor by lia.
  apply Z.max_lub_lt.
  - destruct (Z.eq_dec a 0) as [->|]; [done|]. apply Z.log2_lt_pow2; lia.
  - destruct (Z.eq_dec b 0) as [->|]; [done|]. apply Z.log2_lt_pow2; lia.
Qed.

Lemma bit_range k : 0 <= k < 64 -> wrap 64 (Z.shiftl 1 k) = 2 ^ k /\ 0 < 2 ^ k < 2 ^ 64.
Proof.
  intros Hk. rewrite Z.shiftl_1_l. assert (0 < 2 ^ k) by (apply Z.pow_pos_nonneg; lia).
  assert (2 ^ k < 2 ^ 64) by (apply Z.pow_lt_mono_r; lia). split; [|done]. apply wrap_small. lia.
Qed.

Lemma land_bit x k : 0 <= k -> (Z.land x (2 ^ k) =? 0) = negb (Z.testbit x k).
Proof.
  intros Hk. destruct (Z.testbit x k) eqn:E; cbn [negb].
  - apply Z.eqb_neq. intros H. assert (Z.testbit (Z.land x (2 ^ k)) k = false) by (by rewrite H, Z.bits_0).
    rewrite Z.land_spec, E, Z.pow2_bits_true in H0 by done. done.
  - apply Z.eqb_eq. apply Z.bits_inj'. intros i Hi. rewrite Z.land_spec, Z.bits_0, Z.pow2_bits_eqb by done.
    destruct (Z.eqb_spec k i) as [<-|]; [by rewrite E|apply andb_false_r].
Qed.

(** ** The window is the set *)

Lemma window_zero_ok : window_ok packetWindow_zero [].
Proof. split; [done|done|constructor|done]. Qed.

Lemma testbit_one i : 0 <= i -> Z.testbit 1 i = (i =? 0).
Proof. intros. change 1 with (2 ^ 0). by rewrite Z.pow2_bits_eqb, Z.eqb_sym. Qed.

Lemma window_first s : in_range 64 s -> window_ok (mkWindow s 1 true) [s].
Proof.
  intros Hs. split; [done| |by constructor|]; intros _; cbn [highest seen newest_placed foldr existsb].
  - unfold in_range in Hs. split; [lia|]. by apply list_elem_of_singleton.
  - split; [pow2_eval; lia|]. intros i Hi. rewrite testbit_one, orb_false_r by lia.
    destruct (Z.eqb_spec i 0), (Z.eqb_spec (s - i) s); done || lia.
Qed.

(** A packet past the newest moves the window up. *)
Lemma window_above w placed s : window_ok w placed -> placed <> [] -> in_range 64 s -> highest w < s ->
  let shift := s -u64 highest w in
  window_ok (mkWindow s (Z.lor (if shift >=? packetWindowWidth then 0 else wrap 64 (Z.shiftl (seen w) shift)) 1) true) (s :: placed).
Proof.
  intros [Hst Hhi Hr Hs] Hne Hrange Hlt shift. destruct (Hhi Hne) as [Hh Hin]. destruct (Hs Hne) as [Hsr Hbits].
  assert (Hhr : in_range 64 (highest w)) by (rewrite Forall_forall in Hr; by apply Hr). unfold in_range in *.
  assert (Hsh : shift = s - highest w) by (apply wrap_small; lia).
  set (seen_ := if shift >=? packetWindowWidth then 0 else _).
  assert (Hr2 : 0 <= seen_ < 2 ^ 64) by (unfold seen_; destruct (_ >=? _); [lia|apply wrap_range; lia]).
  split; [cbn; by rewrite len_cons; pose proof (len_nonneg placed); symmetry; apply negb_true_iff; lia| |by constructor|]; intros _; cbn [highest seen].
  - split; [cbn; unfold newest_placed in Hh; rewrite <- Hh; lia|apply elem_of_cons; by left].
  - split; [apply lor_range64; [done|pow2_eval; lia]|]. intros i Hi. rewrite Z.lor_spec, testbit_one by lia. cbn [existsb].
    unfold packetWindowWidth in *. destruct (Z.eq_dec i 0) as [->|Hi0].
    { rewrite Z.sub_0_r, !Z.eqb_refl. by rewrite orb_true_r. }
    replace (i =? 0) with false by lia. replace (s - i =? s) with false by lia. rewrite orb_false_r. cbn [orb].
    assert (Habove : highest w < s - i -> existsb (Z.eqb (s - i)) placed = false).
    { intros Hab. apply existsb_Zeqb_false. intros Hx. apply newest_max in Hx. lia. }
    unfold seen_. destruct (shift >=? 64) eqn:E; bool_to_prop.
    + rewrite Z.bits_0. symmetry. apply Habove. lia.
    + rewrite testbit_wrap by lia. destruct (Z.leb_spec shift i).
      * rewrite Z.shiftl_spec by lia. rewrite Hbits by lia. do 2 f_equal. lia.
      * rewrite Z.shiftl_spec_low by lia. symmetry. apply Habove. lia.
Qed.

(** A packet inside the window is placed when its bit is clear. *)
Lemma window_inside w placed s : window_ok w placed -> placed <> [] -> in_range 64 s ->
  s <= highest w -> highest w - s < packetWindowWidth ->
  let bit := wrap 64 (Z.shiftl 1 (highest w -u64 s)) in
  (Z.land (seen w) bit =? 0) = negb (existsb (Z.eqb s) placed) /\
  window_ok (mkWindow (highest w) (Z.lor (seen w) bit) true) (s :: placed).
Proof.
  intros [Hst Hhi Hr Hs] Hne Hrange Hle Hnear bit. destruct (Hhi Hne) as [Hh Hin]. destruct (Hs Hne) as [Hsr Hbits].
  assert (Hhr : in_range 64 (highest w)) by (rewrite Forall_forall in Hr; by apply Hr). unfold in_range, packetWindowWidth in *.
  destruct (bit_range (highest w - s) ltac:(lia)) as [Hbit Hbr].
  assert (Hb : bit = 2 ^ (highest w - s)) by (unfold bit; rewrite (wrap_small 64 (highest w - s)) by lia; done).
  rewrite Hb. split.
  - rewrite land_bit by lia. rewrite Hbits by lia. do 3 f_equal. lia.
  - split; [cbn; by rewrite len_cons; pose proof (len_nonneg placed); symmetry; apply negb_true_iff; lia| |by constructor|]; intros _; cbn [highest seen].
    + split; [cbn; unfold newest_placed in Hh; rewrite <- Hh; lia|apply elem_of_cons; by right].
    + split; [apply lor_range64; [done|lia]|]. intros i Hi. unfold packetWindowWidth in Hi. rewrite Z.lor_spec, Z.pow2_bits_eqb by lia. cbn [existsb].
      rewrite Hbits by lia. destruct (Z.eqb_spec (highest w - s) i), (Z.eqb_spec (highest w - i) s); try lia; by rewrite ?orb_true_r, ?orb_false_r.
Qed.

Lemma window_ok_step w placed s ok w' :
  window_ok w placed -> in_range 64 s -> admit_packet w s = (ok, w') ->
  ok = place placed s /\ window_ok w' (if ok then s :: placed else placed).
Proof.
  intros Hok Hs E. pose proof (wk_started _ _ Hok) as Hst. unfold admit_packet in E. rewrite Hst in E.
  destruct placed as [|x l] eqn:Ep.
  { cbn in E. injection E as <- <-. split; [done|]. by apply window_first. }
  rewrite <- Ep in *. assert (Hne : placed <> []) by (by rewrite Ep).
  replace (negb (len placed =? 0)) with true in * by (symmetry; rewrite Ep, len_cons; pose proof (len_nonneg l); apply negb_true_iff; lia).
  cbn [negb] in E. destruct (wk_highest _ _ Hok Hne) as [Hh Hin].
  assert (Hhr : in_range 64 (highest w)) by (pose proof (wk_range _ _ Hok) as Hr; rewrite Forall_forall in Hr; by apply Hr).
  assert (Hpl : place placed s = negb (existsb (Z.eqb s) placed) && (highest w - s <? packetWindowWidth)) by (unfold place; by rewrite Hh, Ep).
  unfold packetWindowWidth in *. unfold in_range in *. destruct (s >? highest w) eqn:E1; bool_to_prop.
  - injection E as <- <-. split; [|by apply window_above]. rewrite Hpl. symmetry. apply andb_true_iff. split; [|lia].
    apply negb_true_iff, existsb_Zeqb_false. intros Hx. apply newest_max in Hx. lia.
  - rewrite (wrap_small 64 (highest w - s)) in E by lia. destruct (highest w - s >=? 64) eqn:E2; bool_to_prop.
    + injection E as <- <-. split; [|done]. rewrite Hpl. symmetry. apply andb_false_iff. right. lia.
    + destruct (window_inside w placed s Hok Hne Hs ltac:(lia) ltac:(unfold packetWindowWidth; lia)) as [Hb Hok'].
      rewrite (wrap_small 64 (highest w - s)) in Hb, Hok' by lia. rewrite Hb, negb_involutive in E.
      rewrite Hpl. replace (highest w - s <? 64) with true by lia. rewrite andb_true_r.
      destruct (existsb (Z.eqb s) placed); injection E as <- <-; done.
Qed.

Lemma admit_all_place seqs : forall w placed, Forall (in_range 64) seqs -> window_ok w placed ->
  admit_all w seqs = place_all placed seqs.
Proof.
  induction seqs as [|s seqs IH]; intros w placed Hr Hok; cbn [admit_all place_all]; [done|].
  apply Forall_cons in Hr as [Hs Hr]. destruct (admit_packet w s) as [ok w'] eqn:E.
  destruct (window_ok_step _ _ _ _ _ Hok Hs E) as [<- Hok']. cbv zeta. f_equal. by apply IH.
Qed.

(** Packets that are placed are distinct. *)
Lemma placed_once placed seqs i j s :
  place_all placed seqs !! i = Some true -> place_all placed seqs !! j = Some true ->
  seqs !! i = Some s -> seqs !! j = Some s -> (i <= j)%nat -> i = j.
Proof.
  assert (Hnot : forall seqs placed j s, s ∈ placed -> seqs !! j = Some s -> place_all placed seqs !! j <> Some true).
  { clear. induction seqs as [|x seqs IH]; intros placed j s Hin Hj; [done|]. destruct j as [|j]; cbn in *.
    - injection Hj as ->. unfold place. destruct placed; [by apply elem_of_nil in Hin|].
      apply existsb_Zeqb in Hin. rewrite Hin. done.
    - apply IH with s; [|done]. destruct (place placed x); [|done]. apply elem_of_cons. by right. }
  revert placed i j. induction seqs as [|x seqs IH]; intros placed i j Hi Hj Hsi Hsj Hle; [done|].
  destruct i as [|i], j as [|j]; [done| |lia|]; cbn in *.
  - injection Hsi as ->. injection Hi as Hi. rewrite Hi in Hj. exfalso. eapply Hnot; [|exact Hsj|exact Hj]. apply elem_of_cons. by left.
  - f_equal. eapply IH; [exact Hi|exact Hj|done|done|lia].
Qed.

(** The anti-replay window places every packet it can, once.  For any
    sequence of packets with 64-bit numbers, in any order, the word and the
    counter the code keeps answer exactly as the set of all packets placed so far
    would: a packet is delivered unless it was delivered before or is 64 or more
    behind the newest; so no packet is delivered twice. *)
Theorem packet_window_exact seqs :
  Forall (in_range 64) seqs ->
  admit_all packetWindow_zero seqs = place_all [] seqs /\
  (forall i j s, admit_all packetWindow_zero seqs !! i = Some true -> admit_all packetWindow_zero seqs !! j = Some true ->
     seqs !! i = Some s -> seqs !! j = Some s -> i = j).
Proof.
  intros Hr. pose proof (admit_all_place seqs _ _ Hr window_zero_ok) as Hall. split; [done|].
  rewrite Hall. intros i j s Hi Hj Hsi Hsj. destruct (Nat.le_ge_cases i j); [|symmetry]; by eapply placed_once.
Qed.

(** Reordered within the window, repeated, and too late. *)
Lemma packet_window_exact_witness :
  admit_all packetWindow_zero [10; 12; 11; 12; 100; 37; 36; 99; 99] = [true; true; true; false; true; true; false; true; false] /\
  admit_all packetWindow_zero [10; 12; 11; 12; 100; 37; 36; 99; 99] = place_all [] [10; 12; 11; 12; 100; 37; 36; 99; 99].
Proof.
  split; [vm_compute; reflexivity|]. apply packet_window_exact. unfold in_range. repeat constructor; pow2_eval; lia.
Defined.

(** ** The store of relays *)

Definition samePrincipal (a b : Principal) : bool :=
  bool_decide (ProviderID a = ProviderID b) && bool_decide (AccountID a = AccountID b) && bool_decide (DeviceID a = DeviceID b).

Record retainedRelay := mkRelay { rr_conn : Z; rr_expires : Z; rr_principal : Principal }.

Record udpRelayStore := mkStore {
  grace : Z;
  maximum : Z;
  relays : gmap (list Z) retainedRelay;
  sweeping : bool;
  returned : list Z;
  closed : list Z;
  sweepers : Z;
  given : list (list Z * retainedRelay)
}.

Definition udpRelayGrace : Z := 30 * 1000000000.
Definition udpRelaysRetained : Z := 256.

Definition newUDPRelayStoreWith (grace_ maximum_ : Z) : udpRelayStore := mkStore grace_ maximum_ ∅ false [] [] 0 [].
Definition newUDPRelayStore : udpRelayStore := newUDPRelayStoreWith udpRelayGrace udpRelaysRetained.

Definition relay_expired (now : Z) (kv : list Z * retainedRelay) : Prop := now > rr_expires (snd kv).
#[global] Instance relay_expired_dec now kv : Decision (relay_expired now kv).
Proof. unfold relay_expired. apply _. Defined.

Definition conns (m : gmap (list Z) retainedRelay) : list Z := map (fun kv => rr_conn (snd kv)) (map_to_list m).

(** The order in which the map is visited only orders the history. *)
Definition sweepLocked (s : udpRelayStore) (now : Z) : udpRelayStore :=
  mkStore (grace s) (maximum s) (filter (fun kv => ~ relay_expired now kv) (relays s)) (sweeping s) (returned s)
    (closed s ++ conns (filter (relay_expired now) (relays s))) (sweepers s) (given s).

(** [retain] of a socket; a nil one is not retained. *)
Definition retain (s : udpRelayStore) (now : Z) (token : list Z) (principal : Principal) (conn : option Z) : udpRelayStore :=
  match conn with
  | None => s
  | Some conn =>
      let relay := mkRelay conn (now + grace s) principal in
      let s := sweepLocked s now in
      let given_ := given s ++ [(token, relay)] in
      if Z.of_nat (size (relays s)) >=? maximum s then
        mkStore (grace s) (maximum s) (relays s) (sweeping s) (returned s) (closed s ++ [conn]) (sweepers s) given_
      else
        mkStore (grace s) (maximum s) (<[token := relay]> (relays s)) true (returned s) (closed s)
          (if sweeping s then sweepers s else sweepers s + 1) given_
  end.

(** One tick of the sweeping goroutine. *)
Definition sweep (s : udpRelayStore) (now : Z) : udpRelayStore :=
  let s := sweepLocked s now in
  if (size (relays s) =? 0)%nat then
    mkStore (grace s) (maximum s) (relays s) false (returned s) (closed s) (sweepers s - 1) (given s)
  else s.

Definition claim (s : udpRelayStore) (now : Z) (token : list Z) (principal : Principal) : option Z * udpRelayStore :=
  if negb (len token =? UDPResumeTokenSize) then (None, s)
  else
    let key := take (Z.to_nat UDPResumeTokenSize) token in
    let s := sweepLocked s now in
    match relays s !! key with
    | None => (None, s)
    | Some held =>
        let without := delete key (relays s) in
        if negb (bool_decide (key = token)) || (now >? rr_expires held) || negb (samePrincipal (rr_principal held) principal) then
          (None, mkStore (grace s) (maximum s) without (sweeping s) (returned s) (closed s ++ [rr_conn held]) (sweepers s) (given s))
        else
          (Some (rr_conn held),
           mkStore (grace s) (maximum s) without (sweeping s) (returned s ++ [rr_conn held]) (closed s) (sweepers s) (given s))
    end.

Definition closeAll (s : udpRelayStore) : udpRelayStore :=
  mkStore (grace s) (maximum s) ∅ (sweeping s) (returned s) (closed s ++ conns (relays s)) (sweepers s) (given s).

Definition retained (s : udpRelayStore) : Z := Z.of_nat (size (relays s)).

(** Associations end and are resumed, the sweeper ticks while it runs.  A token
    is freshly drawn for each association, so it is not in use when its relay is
    retained. *)
Inductive relay_step : udpRelayStore -> udpRelayStore -> Prop :=
| rs_retain s now token principal conn :
    len token = UDPResumeTokenSize -> relays s !! token = None -> relay_step s (retain s now token principal conn)
| rs_sweep s now : 0 < sweepers s -> relay_step s (sweep s now)
| rs_claim s now token principal : relay_step s (snd (claim s now token principal))
| rs_close s : relay_step s (closeAll s).

Record relays_ok (s : udpRelayStore) : Prop := {
  yk_bound : Z.of_nat (size (relays s)) <= maximum s;
  yk_given : forall token r, relays s !! token = Some r -> (token, r) ∈ given s;
  yk_conns : map (fun x => rr_conn (snd x)) (given s) ≡ₚ conns (relays s) ++ returned s ++ closed s;
  yk_sweeper : sweepers s = if sweeping s then 1 else 0;
  yk_swept : relays s <> ∅ -> sweeping s = true
}.

Lemma conns_insert m k r : m !! k = None -> conns (<[k := r]> m) ≡ₚ rr_conn r :: conns m.
Proof. intros Hk. unfold conns. by rewrite map_to_list_insert. Qed.

Lemma conns_delete m k r : m !! k = Some r -> conns m ≡ₚ rr_conn r :: conns (delete k m).
Proof. intros Hk. rewrite <- conns_insert by apply lookup_delete_eq. by rewrite insert_delete_id. Qed.

Lemma conns_filter now m :
  conns m ≡ₚ conns (filter (fun kv => ~ relay_expired now kv) m) ++ conns (filter (relay_expired now) m).
Proof.
  induction m as [|k r m Hk IH] using map_ind; [done|]. rewrite conns_insert by done.
  assert (Hf : forall P `{forall x, Decision (P x)}, filter P m !! k = None) by (intros; apply map_lookup_filter_None; by left).
  destruct (decide (relay_expired now (k, r))) as [He|He].
  - rewrite map_filter_insert_False by (intros H; by apply H).
    rewrite map_filter_insert_True by done. rewrite conns_insert by apply Hf. rewrite IH, (delete_id m k) by done. apply Permutation_middle.
  - rewrite map_filter_insert_True by done. rewrite (map_filter_insert_False (relay_expired now)) by done.
    rewrite conns_insert by apply Hf. by rewrite IH, delete_id.
Qed.

Lemma sweepLocked_ok s now : relays_ok s -> relays_ok (sweepLocked s now).
Proof.
  intros [H1 H2 H3 H4 H5]. split; cbn; try done.
  - pose proof (map_filter_subseteq (fun kv => ~ relay_expired now kv) (relays s)) as Hs. apply map_subseteq_size in Hs. lia.
  - intros token r Hr. apply map_lookup_filter_Some in Hr as [Hr _]. by apply H2.
  - rewrite H3, (conns_filter now (relays s)). rewrite <- !app_assoc. apply Permutation_app_head.
    rewrite Permutation_app_comm, <- app_assoc. done.
  - intros Hne. apply H5. intros He. rewrite He in Hne. done.
Qed.

Lemma retain_ok s now token principal conn :
  relays_ok s -> relays s !! token = None -> relays_ok (retain s now token principal conn).
Proof.
  intros Hok Hn. destruct conn as [conn|]; [|done]. unfold retain. pose proof (sweepLocked_ok s now Hok) as Hok1.
  assert (Hn1 : relays (sweepLocked s now) !! token = None) by (cbn; apply map_lookup_filter_None; by left).
  remember (sweepLocked s now) as s1 eqn:E1. clear E1 Hok Hn. destruct Hok1 as [H1 H2 H3 H4 H5]. cbv zeta.
  destruct (_ >=? maximum s1) eqn:E; bool_to_prop.
  - split; cbn; try done.
    + intros t r Hr. apply elem_of_app. left. by apply H2.
    + rewrite map_app, H3. cbn. by rewrite <- !app_assoc.
  - split; cbn; try done.
    + rewrite map_size_insert_None by done. lia.
    + intros t r Hr. apply elem_of_app. apply lookup_insert_Some in Hr as [[<- <-]|[_ Hr]]; [|left; by apply H2].
      right. by apply list_elem_of_singleton.
    + rewrite map_app, H3, conns_insert by done. cbn. apply Permutation_sym, Permutation_cons_append.
    + rewrite H4. by destruct (sweeping s1).
Qed.

Lemma sweep_ok s now : relays_ok s -> 0 < sweepers s -> relays_ok (sweep s now).
Proof.
  intros Hok Hp. unfold sweep. pose proof (sweepLocked_ok s now Hok) as Hok1.
  assert (Hp1 : 0 < sweepers (sweepLocked s now)) by done. remember (sweepLocked s now) as s1 eqn:E1. clear E1 Hok Hp.
  cbv zeta. destruct (_ =? 0)%nat eqn:E; [|done]. apply Nat.eqb_eq in E. apply map_size_empty_inv in E.
  destruct Hok1 as [H1 H2 H3 H4 H5]. split; cbn; try done.
  rewrite H4. destruct (sweeping s1); lia.
Qed.

Lemma claim_ok s now token principal : relays_ok s -> relays_ok (snd (claim s now token principal)).
Proof.
  intros Hok. unfold claim. destruct (negb _); [done|]. cbv zeta. pose proof (sweepLocked_ok s now Hok) as Hok1.
  remember (sweepLocked s now) as s1 eqn:E1. clear E1 Hok. destruct (relays s1 !! _) as [held|] eqn:E; [|done].
  destruct Hok1 as [H1 H2 H3 H4 H5].
  assert (Hs : Z.of_nat (size (delete (take (Z.to_nat UDPResumeTokenSize) token) (relays s1))) <= maximum s1).
  { pose proof (map_subseteq_size _ _ (delete_subseteq (relays s1) (take (Z.to_nat UDPResumeTokenSize) token))). lia. }
  assert (Hg : forall t r, delete (take (Z.to_nat UDPResumeTokenSize) token) (relays s1) !! t = Some r -> (t, r) ∈ given s1).
  { intros t r Hr. apply lookup_delete_Some in Hr as [_ Hr]. by apply H2. }
  assert (Hne : delete (take (Z.to_nat UDPResumeTokenSize) token) (relays s1) <> ∅ -> sweeping s1 = true).
  { intros Hd. apply H5. intros He. apply Hd. by rewrite He, delete_empty. }
  destruct (_ || _); cbn [snd]; split; cbn; try done.
  - rewrite H3, (conns_delete _ _ _ E). cbn. rewrite Permutation_cons_append, <- !app_assoc. done.
  - rewrite H3, (conns_delete _ _ _ E). cbn. rewrite <- app_assoc, !(app_assoc (conns _)). apply Permutation_middle.
Qed.

Lemma closeAll_ok s : relays_ok s -> relays_ok (closeAll s).
Proof.
  intros [H1 H2 H3 H4 H5]. split; cbn; try done.
  - rewrite map_size_empty. lia.
  - rewrite H3, Permutation_app_comm. by rewrite <- app_assoc.
Qed.

Lemma relays_reachable grace_ maximum_ s :
  0 <= maximum_ -> steps relay_step (newUDPRelayStoreWith grace_ maximum_) s -> relays_ok s.
Proof.
  intros Hm Hs. eapply (steps_invariant _ relays_ok); [| |exact Hs].
  - intros a b Hok Hstep. destruct Hstep; auto using retain_ok, sweep_ok, claim_ok, closeAll_ok.
  - by split.
Qed.

(** What a claim that succeeds has found. *)
Lemma claim_found s now token principal conn s' :
  relays_ok s -> claim s now token principal = (Some conn, s') ->
  (exists r, (token, r) ∈ given s /\ rr_conn r = conn /\ samePrincipal (rr_principal r) principal = true /\ now <= rr_expires r) /\
  relays s' !! token = None.
Proof.
  intros Hok E. unfold claim in E. destruct (negb _) eqn:El; [done|]. bool_to_prop. cbv zeta in E.
  pose proof (sweepLocked_ok s now Hok) as Hok1. change (given s) with (given (sweepLocked s now)).
  remember (sweepLocked s now) as s1 eqn:E1. clear E1 Hok.
  assert (Hk : take (Z.to_nat UDPResumeTokenSize) token = token) by (apply take_ge; unfold len in *; lia).
  rewrite Hk in E. destruct (relays s1 !! token) as [r|] eqn:Er; [|done]. destruct (_ || _) eqn:Ec; [done|].
  injection E as <- <-. bool_to_prop. cbn [relays]. split; [|apply lookup_delete_eq].
  exists r. split; [by apply (yk_given _ Hok1)|]. split; [done|]. split; [done|lia].
Qed.

Lemma claim_unknown s now token principal : relays s !! token = None -> fst (claim s now token principal) = None.
Proof.
  intros Hn. unfold claim. destruct (negb _) eqn:El; [done|]. bool_to_prop. cbv zeta.
  assert (Hk : take (Z.to_nat UDPResumeTokenSize) token = token) by (apply take_ge; unfold len in *; lia). rewrite Hk.
  cbn [sweepLocked relays]. rewrite (proj2 (map_lookup_filter_None _ _ _)); [done|by left].
Qed.

(** A relay goes back to the device that held it, once, or is closed.  In
    every state the store can reach it holds at most its maximum; every socket
    given to it is held, was returned by one claim, or was closed, and only one of
    these; a claim returns a socket only for the token it was retained under, to
    the same provider, account and device, before it expires, and the token is
    then spent; and while anything is held a single sweeper runs, which closes
    what has expired and stops when nothing is left. *)
Theorem relay_store_safe grace_ maximum_ s :
  0 <= maximum_ -> steps relay_step (newUDPRelayStoreWith grace_ maximum_) s ->
  retained s <= maximum s /\
  map (fun x => rr_conn (snd x)) (given s) ≡ₚ conns (relays s) ++ returned s ++ closed s /\
  (forall now token principal conn s', claim s now token principal = (Some conn, s') ->
     (exists r, (token, r) ∈ given s /\ rr_conn r = conn /\ samePrincipal (rr_principal r) principal = true /\ now <= rr_expires r) /\
     forall now' principal', fst (claim s' now' token principal') = None) /\
  (relays s <> ∅ -> sweepers s = 1) /\
  (forall now, (forall token r, relays s !! token = Some r -> now > rr_expires r) -> 0 < sweepers s ->
     relays (sweep s now) = ∅ /\ sweepers (sweep s now) = 0).
Proof.
  intros Hm Hs. pose proof (relays_reachable _ _ _ Hm Hs) as Hok. split; [apply (yk_bound _ Hok)|]. split; [apply (yk_conns _ Hok)|].
  split.
  { intros now token principal conn s' E. destruct (claim_found _ _ _ _ _ _ Hok E) as [H1 H2]. split; [done|].
    intros now' principal'. by apply claim_unknown. }
  split; [intros Hne; rewrite (yk_sweeper _ Hok), (yk_swept _ Hok Hne); done|].
  intros now Hall Hp.
  assert (He : filter (fun kv => ~ relay_expired now kv) (relays s) = ∅).
  { apply map_empty. intros k. apply map_lookup_filter_None. right. intros r Hr Hn. apply Hn. by apply (Hall k). }
  unfold sweep. cbn [sweepLocked relays]. rewrite He, map_size_empty. cbn [Nat.eqb relays sweepers sweepLocked]. split; [done|].
  pose proof (yk_sweeper _ Hok) as Hsw. destruct (sweeping s); lia.
Qed.

(** A relay retained by one device, asked for by another and then by its owner. *)
Definition sample_token : list Z := replicate 16 9.
Definition owner : Principal := mkPrincipal [1] [2] [3] [].
Definition stranger : Principal := mkPrincipal [1] [2] [4] [].
Definition one_relay : udpRelayStore := retain newUDPRelayStore 100 sample_token owner (Some 7).

Lemma one_relay_reachable : steps relay_step (newUDPRelayStoreWith udpRelayGrace udpRelaysRetained) one_relay.
Proof. apply steps_one, rs_retain; vm_compute; reflexivity. Qed.

Lemma relay_store_safe_witness :
  fst (claim one_relay 200 sample_token owner) = Some 7 /\ fst (claim one_relay 200 sample_token stranger) = None /\
  (forall now' p', fst (claim (snd (claim one_relay 200 sample_token owner)) now' sample_token p') = None).
Proof.
  split; [vm_compute; reflexivity|]. split; [vm_compute; reflexivity|].
  refine (proj2 (proj1 (proj2 (proj2 (relay_store_safe udpRelayGrace udpRelaysRetained one_relay _ one_relay_reachable)))
    200 sample_token owner 7 _ _)).
  - vm_compute. discriminate.
  - vm_compute. reflexivity.
Defined.
