(* ===== verification/Bandwidth.v ===== *)
(** Bandwidth estimation of the TUIC-style controller
    ([internal/congestion/bbr_tuic_minmax.go], [internal/congestion/bbr_tuic_bw.go]):
    the windowed maximum filter and the delivery-rate sampler that feeds it.

    Times are the integers of nanoseconds the QUIC library uses ([monotime.Time]);
    zero means unset.  Packet numbers are below 2^62, so their differences do not
    wrap.  The [sampleTrace] hook, nil in production, is left out. *)

From S2P Require Import Prelude.

Definition maxUint64 : Z := 2 ^ 64 - 1.
Definition second : Z := 1000000000.

(** ** The maximum filter *)

Record tuicMinMaxSample := mkMM { mm_round : Z; mm_at : Z; mm_value : Z }.

Definition mm_zero : tuicMinMaxSample := mkMM 0 0 0.

(** The three samples are fields. *)
Record tuicMinMax := mkMinMax {
  mm_window : Z;
  mm_timeWindow : Z;
  s0 : tuicMinMaxSample;
  s1 : tuicMinMaxSample;
  s2 : tuicMinMaxSample
}.

Definition tuicMinMaxWindow : Z := 10.
Definition minBandwidthTimeWindow : Z := second.
Definition maxBandwidthTimeWindow : Z := 10 * second.

Definition newTUICMinMax : tuicMinMax :=
  mkMinMax tuicMinMaxWindow maxBandwidthTimeWindow mm_zero mm_zero mm_zero.

Definition mm_get (m : tuicMinMax) : Z := mm_value (s0 m).

Definition mm_set (m : tuicMinMax) (a b c : tuicMinMaxSample) : tuicMinMax :=
  mkMinMax (mm_window m) (mm_timeWindow m) a b c.

Definition mm_reset (m : tuicMinMax) : tuicMinMax := mm_set m mm_zero mm_zero mm_zero.

Definition setRoundTrip (m : tuicMinMax) (rtt : Z) : tuicMinMax :=
  let set_window w := mkMinMax (mm_window m) w (s0 m) (s1 m) (s2 m) in
  if rtt <=? 0 then m
  else if rtt >=? maxBandwidthTimeWindow / tuicMinMaxWindow then set_window maxBandwidthTimeWindow
  else
    let window := tuicMinMaxWindow * rtt in
    set_window (if window <? minBandwidthTimeWindow then minBandwidthTimeWindow else window).

Definition mm_expired (m : tuicMinMax) (sample : tuicMinMaxSample) (now : Z) : bool :=
  if (mm_at sample =? 0) || (now =? 0) || (mm_timeWindow m <=? 0) then false
  else now - mm_at sample >? mm_timeWindow m.

Definition mm_stale (m : tuicMinMax) (now : Z) : bool :=
  if mm_value (s0 m) =? 0 then false else mm_expired m (s0 m) now.

(** The round difference the code writes as a guarded subtraction. *)
Definition rounds_past (round : Z) (s : tuicMinMaxSample) (n : Z) : bool :=
  (round >=? mm_round s) && (round - mm_round s >? n).

Definition subWindowUpdate (m : tuicMinMax) (sample : tuicMinMaxSample) : tuicMinMax :=
  if mm_round sample <? mm_round (s0 m) then m
  else
    let delta := mm_round sample - mm_round (s0 m) in
    if delta >? mm_window m then
      let m := mm_set m (s1 m) (s2 m) sample in
      if rounds_past (mm_round sample) (s0 m) (mm_window m) then mm_set m (s1 m) (s2 m) sample else m
    else if (mm_value (s1 m) =? mm_value (s0 m)) && rounds_past (mm_round sample) (s1 m) (mm_window m / 4) then
      mm_set m (s0 m) sample sample
    else if (mm_value (s2 m) =? mm_value (s1 m)) && rounds_past (mm_round sample) (s2 m) (mm_window m / 2) then
      mm_set m (s0 m) (s1 m) sample
    else m.

Definition updateMax (m : tuicMinMax) (round now value : Z) : tuicMinMax :=
  if value =? 0 then m
  else
    let current := mkMM round now value in
    let windowExpired := rounds_past round (s2 m) (mm_window m) in
    if (mm_value (s0 m) =? 0) || (value >=? mm_value (s0 m)) || windowExpired || mm_expired m (s0 m) now then
      mm_set m current current current
    else
      let m :=
        if value >=? mm_value (s1 m) then mm_set m (s0 m) current current
        else if value >=? mm_value (s2 m) then mm_set m (s0 m) (s1 m) current
        else m in
      subWindowUpdate m current.

(** ** The sampler *)

Definition satAddUint64 (a b : Z) : Z := if maxUint64 - a <? b then maxUint64 else a + b.
Definition minUint64 (a b : Z) : Z := if a <? b then a else b.

(** [bits.Mul64] and [bits.Div64]; [None] is the panic of a quotient that does
    not fit. *)
Definition Mul64 (x y : Z) : Z * Z := (x * y / 2 ^ 64, (x * y) mod 2 ^ 64).
Definition Div64 (hi lo y : Z) : option (Z * Z) :=
  if (y =? 0) || (y <=? hi) then None else Some ((hi * 2 ^ 64 + lo) / y, (hi * 2 ^ 64 + lo) mod y).

(** [None] would be a panic. *)
Definition rateFromDelta (bytes_ elapsed : Z) : option Z :=
  if (bytes_ =? 0) || (elapsed <=? 0) then Some 0
  else
    let ns := wrap 64 elapsed in
    if ns =? 0 then Some 0
    else
      let '(hi, lo) := Mul64 bytes_ 1000000000 in
      if hi >=? ns then Some maxUint64
      else match Div64 hi lo ns with Some (q, _) => Some q | None => None end.

Record tuicPacketState := mkPacketState {
  ps_sentTime : Z;
  ps_totalSentAtSend : Z;
  ps_totalSentAtAck : Z;
  ps_totalAckedAtSend : Z;
  ps_lastAckedSentTime : Z;
  ps_lastAckedAckTime : Z;
  ps_appLimited : bool;
  ps_bytesInFlight : Z
}.

Record tuicSendState := mkSendState { ss_packetNumber : Z; ss_bytesInFlight : Z; ss_appLimited : bool; ss_valid : bool }.

Definition no_send_state : tuicSendState := mkSendState 0 0 false false.

(** The sample summary and the counters, which nothing else reads. *)
Record sampleStats := mkStats {
  sampleCount : Z; sampleRateSum : Z; sampleRateMax : Z; sampleMaxDelivered : Z; sampleMaxInterval : Z;
  latestSample : Z; latestAckRate : Z; latestSendRate : Z;
  st_samples : Z; nonAppSamples : Z; appSamples : Z; stateMisses : Z; zeroSamples : Z
}.

(** What the aggregate helpers keep. *)
Record legacyState := mkLegacy {
  legacyPrevAcked : Z; legacyPrevAckTime : Z; legacyPrevSent : Z; legacyPrevSentTime : Z; legacyAckedTime : Z; legacySentTime : Z
}.

Record tuicBandwidthEstimator := mkEstimator {
  totalAcked : Z;
  totalSent : Z;
  lastAckedSentTime : Z;
  lastAckedAckTime : Z;
  totalSentAtAck : Z;
  lastAckedPacket : Z;
  lastSentPacket : Z;
  appLimited : bool;
  endAppLimitedAt : Z;
  maxFilter : tuicMinMax;
  ackedAtWindow : Z;
  packetStates : gmap Z tuicPacketState;
  lowestState : Z;
  lowestKnown : bool;
  stats : sampleStats;
  legacy : legacyState
}.

Definition tuicMaxSendStates : Z := 8192.

Definition newTUICBandwidthEstimator : tuicBandwidthEstimator :=
  mkEstimator 0 0 0 0 0 (-1) (-1) false (-1) newTUICMinMax 0 ∅ 0 false (mkStats 0 0 0 0 0 0 0 0 0 0 0 0 0)
    (mkLegacy 0 0 0 0 0 0).

Definition with_states (e : tuicBandwidthEstimator) (m : gmap Z tuicPacketState) : tuicBandwidthEstimator :=
  mkEstimator (totalAcked e) (totalSent e) (lastAckedSentTime e) (lastAckedAckTime e) (totalSentAtAck e) (lastAckedPacket e)
    (lastSentPacket e) (appLimited e) (endAppLimitedAt e) (maxFilter e) (ackedAtWindow e) m (lowestState e) (lowestKnown e) (stats e) (legacy e).

Definition with_lowest (e : tuicBandwidthEstimator) (n : Z) : tuicBandwidthEstimator :=
  mkEstimator (totalAcked e) (totalSent e) (lastAckedSentTime e) (lastAckedAckTime e) (totalSentAtAck e) (lastAckedPacket e)
    (lastSentPacket e) (appLimited e) (endAppLimitedAt e) (maxFilter e) (ackedAtWindow e) (packetStates e) n true (stats e) (legacy e).

Definition with_filter (e : tuicBandwidthEstimator) (m : tuicMinMax) : tuicBandwidthEstimator :=
  mkEstimator (totalAcked e) (totalSent e) (lastAckedSentTime e) (lastAckedAckTime e) (totalSentAtAck e) (lastAckedPacket e)
    (lastSentPacket e) (appLimited e) (endAppLimitedAt e) m (ackedAtWindow e) (packetStates e) (lowestState e) (lowestKnown e) (stats e) (legacy e).

Definition with_sample_stats (e : tuicBandwidthEstimator) (s : sampleStats) : tuicBandwidthEstimator :=
  mkEstimator (totalAcked e) (totalSent e) (lastAckedSentTime e) (lastAckedAckTime e) (totalSentAtAck e) (lastAckedPacket e)
    (lastSentPacket e) (appLimited e) (endAppLimitedAt e) (maxFilter e) (ackedAtWindow e) (packetStates e) (lowestState e) (lowestKnown e) s (legacy e).

Definition markAppLimited (e : tuicBandwidthEstimator) : tuicBandwidthEstimator :=
  mkEstimator (totalAcked e) (totalSent e) (lastAckedSentTime e) (lastAckedAckTime e) (totalSentAtAck e) (lastAckedPacket e)
    (lastSentPacket e) true (lastSentPacket e) (maxFilter e) (ackedAtWindow e) (packetStates e) (lowestState e) (lowestKnown e) (stats e) (legacy e).

(** The packet numbers held, in increasing order. *)
Definition sorted_numbers {A} (m : gmap Z A) : list Z := merge_sort Z.le (elements (dom m)).

Definition delete_all {A} (ns : list Z) (m : gmap Z A) : gmap Z A := fold_left (fun m n => delete n m) ns m.

Definition pruneStates (e : tuicBandwidthEstimator) : tuicBandwidthEstimator :=
  let remove := tuicMaxSendStates / 4 in
  let held := Z.of_nat (size (packetStates e)) in
  if (remove <=? 0) || (held =? 0) then e
  else if remove >=? held then with_states e ∅
  else with_states e (delete_all (take (Z.to_nat remove) (sorted_numbers (packetStates e))) (packetStates e)).

Definition onSentPacket (e : tuicBandwidthEstimator) (now number bytes_ bytesInFlight : Z) (retransmittable : bool)
    : tuicBandwidthEstimator :=
  let e := mkEstimator (totalAcked e) (totalSent e) (lastAckedSentTime e) (lastAckedAckTime e) (totalSentAtAck e)
    (lastAckedPacket e) number (appLimited e) (endAppLimitedAt e) (maxFilter e) (ackedAtWindow e) (packetStates e)
    (lowestState e) (lowestKnown e) (stats e) (legacy e) in
  if negb retransmittable || (bytes_ =? 0) then e
  else
    let sent := satAddUint64 (totalSent e) bytes_ in
    let fresh := bytesInFlight =? 0 in
    let e := mkEstimator (totalAcked e) sent (if fresh then now else lastAckedSentTime e)
      (if fresh then now else lastAckedAckTime e) (if fresh then sent else totalSentAtAck e)
      (lastAckedPacket e) number (appLimited e) (endAppLimitedAt e) (maxFilter e) (ackedAtWindow e) (packetStates e)
      (lowestState e) (lowestKnown e) (stats e) (legacy e) in
    let e := if Z.of_nat (size (packetStates e)) >=? tuicMaxSendStates then pruneStates e else e in
    let e := if negb (lowestKnown e) then with_lowest e number else e in
    with_states e (<[number := mkPacketState now (totalSent e) (totalSentAtAck e) (totalAcked e) (lastAckedSentTime e)
      (lastAckedAckTime e) (appLimited e) (satAddUint64 bytesInFlight bytes_)]> (packetStates e)).

Definition onLost (e : tuicBandwidthEstimator) (number : Z) : tuicSendState :=
  match packetStates e !! number with
  | None => no_send_state
  | Some state => mkSendState number (ps_bytesInFlight state) (ps_appLimited state) true
  end.

(** The walk of [removeObsolete] over [n] packet numbers from [number]. *)
Fixpoint delete_range {A} (n : nat) (number : Z) (m : gmap Z A) : gmap Z A :=
  match n with
  | O => m
  | S n' => delete_range n' (number + 1) (delete number m)
  end.

Definition removeObsolete (e : tuicBandwidthEstimator) (leastUnacked : Z) : tuicBandwidthEstimator :=
  if Z.of_nat (size (packetStates e)) =? 0 then with_lowest e leastUnacked
  else
    let gap := leastUnacked - lowestState e in
    if lowestKnown e && (gap >=? 0) && (gap <=? 2 * Z.of_nat (size (packetStates e))) then
      with_lowest (with_states e (delete_range (Z.to_nat gap) (lowestState e) (packetStates e))) leastUnacked
    else
      with_lowest (with_states e (filter (fun kv => ~ fst kv < leastUnacked) (packetStates e))) leastUnacked.

(** ** Acknowledgements *)

(** What the controller is told of an acknowledged packet. *)
Record AckedPacketInfo := mkAcked { ap_PacketNumber : Z; ap_BytesAcked : Z; ap_ReceivedTime : Z }.

Record tuicAckSample := mkAckSample {
  as_lastAppLimited : bool;
  as_hasSample : bool;
  as_maxBandwidth : Z;
  as_sampleAppLimited : bool;
  as_minRTT : Z;
  as_lastSendState : tuicSendState
}.

Definition no_ack_sample : tuicAckSample := mkAckSample false false 0 false 0 no_send_state.

(** [rateFromDelta_exact] shows that it never panics. *)
Definition rate (bytes_ elapsed : Z) : Z := default 0 (rateFromDelta bytes_ elapsed).

(** The smaller of the two slopes, a zero one not counting. *)
Definition smaller_rate (ackRate sendRate : Z) : Z :=
  if (sendRate >? 0) && ((ackRate =? 0) || (sendRate <? ackRate)) then sendRate else ackRate.

(** The summary of the samples and the counters, for one acknowledged packet. *)
Definition note_sample (s : sampleStats) (acked : Z) (state : tuicPacketState) (ackTime ackRate sendRate : Z) : sampleStats :=
  let candidate := smaller_rate ackRate sendRate in
  let widest := (candidate >? 0) && (candidate >? sampleRateMax s) in
  let sampled := candidate >? 0 in
  let bump (b : bool) n := if b then satAddUint64 n 1 else n in
  mkStats
    (bump sampled (sampleCount s))
    (if sampled then satAddUint64 (sampleRateSum s) candidate else sampleRateSum s)
    (if widest then candidate else sampleRateMax s)
    (if widest then (if acked >=? ps_totalAckedAtSend state then acked - ps_totalAckedAtSend state else 0) else sampleMaxDelivered s)
    (if widest then (if negb (ps_lastAckedAckTime state =? 0) && (ackTime >? ps_lastAckedAckTime state)
                     then ackTime - ps_lastAckedAckTime state else 0) else sampleMaxInterval s)
    candidate ackRate sendRate
    (bump sampled (st_samples s))
    (bump (sampled && negb (ps_appLimited state)) (nonAppSamples s))
    (bump (sampled && ps_appLimited state) (appSamples s))
    (stateMisses s)
    (bump (negb sampled) (zeroSamples s)).

Definition note_miss (s : sampleStats) : sampleStats :=
  mkStats (sampleCount s) (sampleRateSum s) (sampleRateMax s) (sampleMaxDelivered s) (sampleMaxInterval s)
    (latestSample s) (latestAckRate s) (latestSendRate s) (st_samples s) (nonAppSamples s) (appSamples s)
    (satAddUint64 (stateMisses s) 1) (zeroSamples s).

(** The body of the loop of [onAckBatch]. *)
Definition ack_packet (eventTime : Z) (acc : tuicBandwidthEstimator * tuicAckSample * option (Z * tuicPacketState))
    (packet : AckedPacketInfo) : tuicBandwidthEstimator * tuicAckSample * option (Z * tuicPacketState) :=
  let '(e, result_, largest) := acc in
  if ap_BytesAcked packet <=? 0 then acc
  else
    match packetStates e !! ap_PacketNumber packet with
    | None => (with_sample_stats e (note_miss (stats e)), result_, largest)
    | Some state =>
        let acked := satAddUint64 (totalAcked e) (wrap 64 (ap_BytesAcked packet)) in
        let ended := appLimited e && ((endAppLimitedAt e <? 0) || (ap_PacketNumber packet >? endAppLimitedAt e)) in
        let ackTime := if ap_ReceivedTime packet =? 0 then eventTime else ap_ReceivedTime packet in
        let minRTT :=
          if ackTime >? ps_sentTime state then
            let rtt := ackTime - ps_sentTime state in
            if (as_minRTT result_ <=? 0) || (rtt <? as_minRTT result_) then rtt else as_minRTT result_
          else as_minRTT result_ in
        let ackRate :=
          if negb (ps_lastAckedAckTime state =? 0) && (ackTime >? ps_lastAckedAckTime state) &&
             (acked >=? ps_totalAckedAtSend state)
          then rate (acked - ps_totalAckedAtSend state) (ackTime - ps_lastAckedAckTime state) else 0 in
        let sendRate :=
          if negb (ps_lastAckedSentTime state =? 0) && (ps_sentTime state >? ps_lastAckedSentTime state) &&
             (ps_totalSentAtSend state >=? ps_totalSentAtAck state)
          then rate (ps_totalSentAtSend state - ps_totalSentAtAck state) (ps_sentTime state - ps_lastAckedSentTime state) else 0 in
        let sample := smaller_rate ackRate sendRate in
        let better := sample >? as_maxBandwidth result_ in
        let result_ := mkAckSample (as_lastAppLimited result_) (as_hasSample result_ || (sample >? 0))
          (if better then sample else as_maxBandwidth result_)
          (if better then ps_appLimited state else as_sampleAppLimited result_) minRTT (as_lastSendState result_) in
        let largest :=
          match largest with
          | Some (pn, _) => if ap_PacketNumber packet >? pn then Some (ap_PacketNumber packet, state) else largest
          | None => Some (ap_PacketNumber packet, state)
          end in
        let e := mkEstimator acked (totalSent e) (lastAckedSentTime e) (lastAckedAckTime e) (totalSentAtAck e)
          (lastAckedPacket e) (lastSentPacket e) (if ended then false else appLimited e) (endAppLimitedAt e) (maxFilter e)
          (ackedAtWindow e) (delete (ap_PacketNumber packet) (packetStates e)) (lowestState e) (lowestKnown e)
          (note_sample (stats e) acked state ackTime ackRate sendRate) (legacy e) in
        (e, result_, largest)
    end.

(** The receive time of the largest packet, when one was given. *)
Definition largest_ack_time (eventTime pn : Z) (acked : list AckedPacketInfo) : Z :=
  match List.find (fun p => (ap_PacketNumber p =? pn) && negb (ap_ReceivedTime p =? 0)) acked with
  | Some p => ap_ReceivedTime p
  | None => eventTime
  end.

(** [onAckBatch]; [clock] is what [monotime.Now] returns. *)
Definition onAckBatch (e : tuicBandwidthEstimator) (clock eventTime : Z) (acked : list AckedPacketInfo) (round : Z)
    : tuicAckSample * tuicBandwidthEstimator :=
  let eventTime := if eventTime =? 0 then clock else eventTime in
  let '(e, result_, largest) := fold_left (ack_packet eventTime) acked (e, no_ack_sample, None) in
  let '(e, result_) :=
    match largest with
    | None => (e, result_)
    | Some (pn, state) =>
        (mkEstimator (totalAcked e) (totalSent e) (ps_sentTime state) (largest_ack_time eventTime pn acked)
           (ps_totalSentAtSend state) pn (lastSentPacket e) (appLimited e) (endAppLimitedAt e) (maxFilter e) (ackedAtWindow e)
           (packetStates e) (lowestState e) (lowestKnown e) (stats e) (legacy e),
         mkAckSample (ps_appLimited state) (as_hasSample result_) (as_maxBandwidth result_) (as_sampleAppLimited result_)
           (as_minRTT result_) (mkSendState pn (ps_bytesInFlight state) (ps_appLimited state) true))
    end in
  let e :=
    if (as_maxBandwidth result_ >? 0) &&
       (negb (as_sampleAppLimited result_) || (as_maxBandwidth result_ >? mm_get (maxFilter e)) || mm_stale (maxFilter e) eventTime)
    then
      let f := if as_minRTT result_ >? 0 then setRoundTrip (maxFilter e) (as_minRTT result_) else maxFilter e in
      with_filter e (updateMax f round eventTime (as_maxBandwidth result_))
    else e in
  (result_, e).

(** ** The aggregate helpers *)

Definition with_legacy (e : tuicBandwidthEstimator) (acked sent : Z) (l : legacyState) : tuicBandwidthEstimator :=
  mkEstimator acked sent (lastAckedSentTime e) (lastAckedAckTime e) (totalSentAtAck e) (lastAckedPacket e)
    (lastSentPacket e) (appLimited e) (endAppLimitedAt e) (maxFilter e) (ackedAtWindow e) (packetStates e)
    (lowestState e) (lowestKnown e) (stats e) l.

Definition onSent (e : tuicBandwidthEstimator) (now bytes_ : Z) : tuicBandwidthEstimator :=
  let l := legacy e in
  with_legacy e (totalAcked e) (satAddUint64 (totalSent e) bytes_)
    (mkLegacy (legacyPrevAcked l) (legacyPrevAckTime l) (totalSent e) (legacySentTime l) (legacyAckedTime l) now).

Definition onAck (e : tuicBandwidthEstimator) (now bytes_ round : Z) (appLimited_ : bool) : tuicBandwidthEstimator :=
  if bytes_ =? 0 then e
  else
    let l := legacy e in
    let e := with_legacy e (satAddUint64 (totalAcked e) bytes_) (totalSent e)
      (mkLegacy (totalAcked e) (legacyAckedTime l) (legacyPrevSent l) (legacyPrevSentTime l) now (legacySentTime l)) in
    let l := legacy e in
    if (legacyPrevAckTime l =? 0) || (legacyPrevSentTime l =? 0) then e
    else
      let sendRate := rate (totalSent e -u64 legacyPrevSent l) (legacySentTime l - legacyPrevSentTime l) in
      let ackRate := rate (totalAcked e -u64 legacyPrevAcked l) (legacyAckedTime l - legacyPrevAckTime l) in
      if negb appLimited_ && (sendRate >? 0) && (ackRate >? 0)
      then with_filter e (updateMax (maxFilter e) round 0 (minUint64 sendRate ackRate)) else e.

Definition onAckEvent := onAck.

Definition bytesAckedThisWindow (e : tuicBandwidthEstimator) : Z :=
  if totalAcked e <? ackedAtWindow e then 0 else totalAcked e - ackedAtWindow e.

Definition endAcks (e : tuicBandwidthEstimator) : tuicBandwidthEstimator :=
  mkEstimator (totalAcked e) (totalSent e) (lastAckedSentTime e) (lastAckedAckTime e) (totalSentAtAck e) (lastAckedPacket e)
    (lastSentPacket e) (appLimited e) (endAppLimitedAt e) (maxFilter e) (totalAcked e) (packetStates e)
    (lowestState e) (lowestKnown e) (stats e) (legacy e).

Definition estimate (e : tuicBandwidthEstimator) : Z := mm_get (maxFilter e).

(** [sampleSummary]: count, mean, maximum, and what is behind the maximum. *)
Definition sampleSummary (e : tuicBandwidthEstimator) : Z * Z * Z * Z * Z :=
  let s := stats e in
  (sampleCount s, if sampleCount s >? 0 then sampleRateSum s / sampleCount s else 0, sampleRateMax s,
   sampleMaxDelivered s, sampleMaxInterval s).

(** ** The filter is a windowed maximum *)

(** A filter over a history of samples: each slot is a sample of the history
    that no later sample exceeds, the slots in order. *)
Record mm_slots (m : tuicMinMax) (hist : list tuicMinMaxSample) (i0 i1 i2 : nat) : Prop := mk_mm_slots {
  sl_0 : hist !! i0 = Some (s0 m);
  sl_1 : hist !! i1 = Some (s1 m);
  sl_2 : hist !! i2 = Some (s2 m);
  sl_order : (i0 <= i1 <= i2)%nat;
  sl_top0 : forall j s, (i0 < j)%nat -> hist !! j = Some s -> mm_value s <= mm_value (s0 m);
  sl_top1 : forall j s, (i1 < j)%nat -> hist !! j = Some s -> mm_value s <= mm_value (s1 m);
  sl_top2 : forall j s, (i2 < j)%nat -> hist !! j = Some s -> mm_value s <= mm_value (s2 m)
}.

Definition rounds_ordered (hist : list tuicMinMaxSample) : Prop :=
  forall i j a b, (i <= j)%nat -> hist !! i = Some a -> hist !! j = Some b -> mm_round a <= mm_round b.

(** After at least one sample, the standing one is at most a window older than
    the newest. *)
Definition mm_inv (m : tuicMinMax) (hist : list tuicMinMaxSample) : Prop :=
  0 <= mm_window m /\
  match last hist with
  | None => mm_value (s0 m) = 0
  | Some c => 0 < mm_value (s0 m) /\ mm_round c - mm_round (s0 m) <= mm_window m /\ exists i0 i1 i2, mm_slots m hist i0 i1 i2
  end.

Section Update.
Variables (m : tuicMinMax) (hist : list tuicMinMaxSample) (c : tuicMinMaxSample).
Let hist' := hist ++ [c].
Hypothesis Hmono : rounds_ordered hist'.

Lemma hist_new : hist' !! length hist = Some c.
Proof. unfold hist'. rewrite lookup_app_r by lia. by rewrite Nat.sub_diag. Qed.

Lemma hist_old i s : hist !! i = Some s -> hist' !! i = Some s.
Proof. intros Hi. unfold hist'. by apply lookup_app_l_Some. Qed.

Lemma hist_top i v :
  (forall j s, (i < j)%nat -> hist !! j = Some s -> mm_value s <= v) -> mm_value c <= v ->
  forall j s, (i < j)%nat -> hist' !! j = Some s -> mm_value s <= v.
Proof.
  intros Ht Hc j s Hj Hs. unfold hist' in Hs. apply lookup_app_Some in Hs as [Hs|[_ Hs]]; [by eapply Ht|].
  apply list_lookup_singleton_Some in Hs as [_ <-]. done.
Qed.

Lemma hist_newest j s v : (length hist < j)%nat -> hist' !! j = Some s -> mm_value s <= v.
Proof. intros Hj Hs. apply lookup_lt_Some in Hs. unfold hist' in Hs. rewrite length_app in Hs. cbn in Hs. lia. Qed.

Lemma hist_index i s : hist !! i = Some s -> (i <= length hist)%nat.
Proof. intros Hi. apply lookup_lt_Some in Hi. lia. Qed.

(** The newest sample takes all slots, the last two or the last one, or none. *)
Lemma slots_all : mm_slots (mm_set m c c c) hist' (length hist) (length hist) (length hist).
Proof. split; cbn; try apply hist_new; try lia; intros; by eapply hist_newest. Qed.

Lemma slots_keep0 i0 i1 i2 :
  mm_slots m hist i0 i1 i2 -> mm_value c <= mm_value (s0 m) -> mm_slots (mm_set m (s0 m) c c) hist' i0 (length hist) (length hist).
Proof.
  intros [H0 H1 H2 Ho T0 T1 T2] Hc. pose proof (hist_index _ _ H0).
  split; cbn; try apply hist_new; try lia; [by apply hist_old|by apply hist_top| |]; intros; by eapply hist_newest.
Qed.

Lemma slots_keep1 i0 i1 i2 :
  mm_slots m hist i0 i1 i2 -> mm_value c <= mm_value (s0 m) -> mm_value c <= mm_value (s1 m) ->
  mm_slots (mm_set m (s0 m) (s1 m) c) hist' i0 i1 (length hist).
Proof.
  intros [H0 H1 H2 Ho T0 T1 T2] Hc Hc1. pose proof (hist_index _ _ H0). pose proof (hist_index _ _ H1).
  split; cbn; try apply hist_new; try lia; try (by apply hist_old); try (by apply hist_top). intros; by eapply hist_newest.
Qed.

Lemma slots_keep2 i0 i1 i2 :
  mm_slots m hist i0 i1 i2 -> mm_value c <= mm_value (s0 m) -> mm_value c <= mm_value (s1 m) ->
  mm_value c <= mm_value (s2 m) -> mm_slots m hist' i0 i1 i2.
Proof. intros [H0 H1 H2 Ho T0 T1 T2] Hc Hc1 Hc2. split; try (by apply hist_old); try (by apply hist_top). done. Qed.

End Update.

Lemma mm_value_ordered m hist i0 i1 i2 :
  mm_slots m hist i0 i1 i2 -> mm_value (s1 m) <= mm_value (s0 m) /\ mm_value (s2 m) <= mm_value (s1 m).
Proof.
  intros [H0 H1 H2 Ho T0 T1 T2]. split.
  - destruct (decide (i0 = i1)) as [->|]; [assert (s0 m = s1 m) as -> by congruence; lia|]. apply (T0 i1); [lia|done].
  - destruct (decide (i1 = i2)) as [->|]; [assert (s1 m = s2 m) as -> by congruence; lia|]. apply (T1 i2); [lia|done].
Qed.

(** The window rules move the newest sample, already in the history, into the
    last slots, or shift the slots. *)
Lemma subWindowUpdate_slots m hist c i0 i1 i2 :
  let h := hist ++ [c] in
  rounds_ordered h -> mm_slots m h i0 i1 i2 -> 0 <= mm_window m -> mm_round c - mm_round (s2 m) <= mm_window m ->
  0 < mm_value (s2 m) ->
  let m' := subWindowUpdate m c in
  mm_window m' = mm_window m /\ 0 < mm_value (s0 m') /\ mm_round c - mm_round (s0 m') <= mm_window m /\
  exists j0 j1 j2, mm_slots m' h j0 j1 j2.
Proof.
  intros h Hmono Hsl Hw Hs2 Hpos. set (n := length hist). assert (Hn : h !! n = Some c) by apply hist_new.
  pose proof (mm_value_ordered _ _ _ _ _ Hsl) as [V1 V2]. pose proof Hsl as [H0 H1 H2 Ho T0 T1 T2].
  assert (Hle : forall i s, h !! i = Some s -> (i <= n)%nat).
  { intros i s Hi. apply lookup_lt_Some in Hi. unfold h in Hi. rewrite length_app in Hi. cbn in Hi. unfold n. lia. }
  assert (Hnew : forall j s v, (n < j)%nat -> h !! j = Some s -> mm_value s <= v).
  { intros j s v Hj Hs. apply Hle in Hs. lia. }
  pose proof (Hle _ _ H0). pose proof (Hle _ _ H1). pose proof (Hle _ _ H2).
  pose proof (Hmono i0 n _ _ ltac:(lia) H0 Hn) as R0. pose proof (Hmono i1 n _ _ ltac:(lia) H1 Hn) as R1.
  unfold subWindowUpdate, rounds_past. cbn zeta. destruct (mm_round c <? mm_round (s0 m)) eqn:E0; [bool_to_prop; lia|].
  destruct (mm_round c - mm_round (s0 m) >? mm_window m) eqn:E1.
  - cbn [mm_set s0 s1 s2 mm_window]. destruct (_ && _) eqn:E2.
    + cbn [mm_set s0 s1 s2 mm_window]. split; [done|]. split; [done|]. split; [lia|].
      exists i2, n, n. split; cbn; try done; try lia; intros; by eapply Hnew.
    + split; [done|]. split; [cbn; lia|]. split.
      * apply andb_false_iff in E2 as [E2|E2]; cbn [mm_set s0]; bool_to_prop; lia.
      * exists i1, i2, n. split; cbn; try done; try lia. intros; by eapply Hnew.
  - bool_to_prop. destruct (_ && _).
    { split; [done|]. split; [cbn; lia|]. split; [done|]. exists i0, n, n. split; cbn; try done; try lia; intros; by eapply Hnew. }
    destruct (_ && _).
    { split; [done|]. split; [cbn; lia|]. split; [done|]. exists i0, i1, n. split; cbn; try done; try lia. intros; by eapply Hnew. }
    split; [done|]. split; [lia|]. split; [done|]. by exists i0, i1, i2.
Qed.

Lemma updateMax_inv m hist round now value :
  mm_inv m hist -> 0 < value -> rounds_ordered (hist ++ [mkMM round now value]) ->
  (forall s, s ∈ hist -> 0 < mm_value s) ->
  mm_inv (updateMax m round now value) (hist ++ [mkMM round now value]).
Proof.
  intros [Hw Hinv] Hv Hmono Hpos. set (c := mkMM round now value) in *. unfold mm_inv. rewrite last_snoc.
  unfold updateMax. replace (value =? 0) with false by lia. cbn zeta. fold c.
  assert (Hreset : let m' := mm_set m c c c in 0 <= mm_window m' /\ 0 < mm_value (s0 m') /\
    mm_round c - mm_round (s0 m') <= mm_window m' /\ exists i0 i1 i2, mm_slots m' (hist ++ [c]) i0 i1 i2).
  { cbn. split; [done|]. split; [done|]. split; [lia|]. exists (length hist), (length hist), (length hist). apply slots_all. }
  destruct ((mm_value (s0 m) =? 0) || (value >=? mm_value (s0 m)) || rounds_past round (s2 m) (mm_window m) ||
            mm_expired m (s0 m) now) eqn:E; [exact Hreset|]. clear Hreset.
  apply orb_false_iff in E as [E _]. apply orb_false_iff in E as [E E3]. apply orb_false_iff in E as [E1 E2].
  destruct (last hist) as [d|]; [|bool_to_prop; lia]. destruct Hinv as (H0 & _ & i0 & i1 & i2 & Hsl).
  pose proof (mm_value_ordered _ _ _ _ _ Hsl) as [V1 V2].
  assert (Hr2 : mm_round c - mm_round (s2 m) <= mm_window m).
  { unfold rounds_past in E3. apply andb_false_iff in E3 as [E3|E3]; [|cbn; bool_to_prop; lia].
    cbn. bool_to_prop. lia. }
  assert (Hv0 : mm_value c <= mm_value (s0 m)) by (cbn; bool_to_prop; lia).
  assert (Hp2 : 0 < mm_value (s2 m)).
  { apply Hpos. destruct Hsl as [_ _ Hs2 _ _ _ _]. by eapply list_elem_of_lookup_2. }
  destruct (value >=? mm_value (s1 m)) eqn:Ea; [|destruct (value >=? mm_value (s2 m)) eqn:Eb]; bool_to_prop.
  - destruct (subWindowUpdate_slots (mm_set m (s0 m) c c) hist c i0 (length hist) (length hist)) as (P1 & P2 & P3 & P4); try done.
    + by eapply slots_keep0.
    + cbn. lia.
    + rewrite P1. split; [done|]. split; [done|]. split; done.
  - destruct (subWindowUpdate_slots (mm_set m (s0 m) (s1 m) c) hist c i0 i1 (length hist)) as (P1 & P2 & P3 & P4); try done.
    + eapply slots_keep1; [done|done|cbn; lia].
    + cbn. lia.
    + rewrite P1. split; [done|]. split; [done|]. split; done.
  - destruct (subWindowUpdate_slots m hist c i0 i1 i2) as (P1 & P2 & P3 & P4); try done.
    + apply slots_keep2; [done|done|cbn; lia|cbn; lia].
    + rewrite P1. split; [done|]. split; [done|]. split; done.
Qed.

(** What happens to a filter. *)
Inductive filter_op := FUpdate (round now value : Z) | FRoundTrip (rtt : Z).

Definition filter_apply (m : tuicMinMax) (op : filter_op) : tuicMinMax :=
  match op with
  | FUpdate round now value => updateMax m round now value
  | FRoundTrip rtt => setRoundTrip m rtt
  end.

(** The samples a run records: an update with zero is none. *)
Definition recorded (ops : list filter_op) : list tuicMinMaxSample :=
  omap (fun op => match op with
                  | FUpdate round now value => if value =? 0 then None else Some (mkMM round now value)
                  | FRoundTrip _ => None
                  end) ops.

Definition filter_op_ok (op : filter_op) : Prop := match op with FUpdate _ _ value => 0 <= value | FRoundTrip _ => True end.

Lemma setRoundTrip_slots m rtt :
  mm_window (setRoundTrip m rtt) = mm_window m /\ s0 (setRoundTrip m rtt) = s0 m /\ s1 (setRoundTrip m rtt) = s1 m /\
  s2 (setRoundTrip m rtt) = s2 m.
Proof. unfold setRoundTrip. destruct (rtt <=? 0); [done|]. by destruct (_ >=? _). Qed.

Lemma updateMax_window m round now value : mm_window (updateMax m round now value) = mm_window m.
Proof.
  unfold updateMax. destruct (value =? 0); [done|]. destruct (_ || _); [done|]. unfold subWindowUpdate. by repeat case_match.
Qed.

Lemma filter_run_inv ops :
  Forall filter_op_ok ops -> rounds_ordered (recorded ops) ->
  let m := fold_left filter_apply ops newTUICMinMax in
  mm_window m = tuicMinMaxWindow /\ mm_inv m (recorded ops) /\ forall s, s ∈ recorded ops -> 0 < mm_value s.
Proof.
  induction ops as [|op ops IH] using rev_ind; intros Hok Hmono; cbn zeta.
  { split; [done|]. split; [|intros s Hs; by apply elem_of_nil in Hs]. split; cbn; [unfold tuicMinMaxWindow; lia|done]. }
  apply Forall_app in Hok as [Hok Hop]. apply Forall_cons in Hop as [Hop _]. rewrite fold_left_app. cbn [fold_left].
  assert (Hrec : recorded (ops ++ [op]) = recorded ops ++ recorded [op]) by apply omap_app. rewrite Hrec in *.
  destruct IH as (Hw & Hinv & Hpos); [done|intros i j a b Hij Ha Hb; eapply Hmono; [exact Hij|by apply lookup_app_l_Some..]|].
  set (m := fold_left filter_apply ops newTUICMinMax) in *. destruct op as [round now value|rtt]; cbn [filter_apply].
  - unfold recorded in Hmono |- *. cbn [omap list_omap] in Hmono |- *. fold (recorded ops) in Hmono |- *. cbn in Hop.
    destruct (value =? 0) eqn:E; bool_to_prop.
    + subst value. rewrite app_nil_r in *. done.
    + rewrite updateMax_window. split; [done|]. split; [apply updateMax_inv; done || lia|].
      intros s Hs. apply elem_of_app in Hs as [Hs|Hs]; [by apply Hpos|]. apply list_elem_of_singleton in Hs as ->. cbn. lia.
  - change (recorded [FRoundTrip rtt]) with (@nil tuicMinMaxSample). rewrite app_nil_r in *.
    destruct (setRoundTrip_slots m rtt) as (F1 & F2 & F3 & F4). rewrite F1. split; [done|]. split; [|done].
    destruct Hinv as [H1 H2]. unfold mm_inv. rewrite F1, F2. split; [done|]. destruct (last (recorded ops)) as [c|]; [|done].
    destruct H2 as (H2 & H3 & i0 & i1 & i2 & [G0 G1 G2 G3 G4 G5 G6]). split; [done|]. split; [done|].
    exists i0, i1, i2. split; rewrite ?F2, ?F3, ?F4; done.
Qed.

(** ** The sampler *)

(** The rate is the exact quotient, saturated, and the division never panics. *)
Lemma rateFromDelta_exact b d :
  0 <= b < 2 ^ 64 -> d < 2 ^ 63 ->
  rateFromDelta b d = Some (if (b =? 0) || (d <=? 0) then 0 else Z.min maxUint64 (b * 1000000000 / d)).
Proof.
  intros Hb Hd. unfold rateFromDelta. destruct ((b =? 0) || (d <=? 0)) eqn:E; [done|]. bool_to_prop.
  rewrite wrap_small by (pow2_eval; lia). replace (d =? 0) with false by lia. unfold Mul64.
  set (x := b * 1000000000). assert (Hx : 0 <= x) by (subst x; lia).
  pose proof (Z.div_mod x (2 ^ 64) ltac:(lia)) as Hdm. pose proof (Z.mod_pos_bound x (2 ^ 64) ltac:(lia)) as Hm.
  destruct (x / 2 ^ 64 >=? d) eqn:Eh; bool_to_prop.
  - f_equal. rewrite Z.min_l; [done|]. apply Z.div_le_lower_bound; [lia|]. unfold maxUint64. nia.
  - unfold Div64. destruct (_ || _) eqn:E2; [bool_to_prop; lia|].
    replace (x / 2 ^ 64 * 2 ^ 64 + x mod 2 ^ 64) with x by lia. rewrite Z.min_r; [done|].
    unfold maxUint64. apply Z.lt_succ_r. replace (Z.succ (2 ^ 64 - 1)) with (2 ^ 64) by lia.
    apply Z.div_lt_upper_bound; [lia|]. nia.
Qed.

Lemma delete_range_lookup {A} n : forall number (m : gmap Z A) k,
  delete_range n number m !! k = if decide (number <= k < number + Z.of_nat n) then None else m !! k.
Proof.
  induction n as [|n IH]; intros number m k; cbn [delete_range]; [by rewrite decide_False by lia|].
  rewrite IH. destruct (decide (number + 1 <= k < number + 1 + Z.of_nat n)); [by rewrite decide_True by lia|].
  destruct (decide (number = k)) as [->|]; [rewrite lookup_delete_eq, decide_True by lia; done|].
  rewrite lookup_delete_ne by done. by rewrite decide_False by lia.
Qed.

Lemma delete_all_subseteq {A} ns : forall m : gmap Z A, delete_all ns m ⊆ m.
Proof.
  induction ns as [|n ns IH]; intros m; [done|]. etransitivity; [apply IH|]. apply delete_subseteq.
Qed.

Lemma delete_all_size {A} ns : forall m : gmap Z A, NoDup ns -> (forall n, n ∈ ns -> n ∈ dom m) ->
  size (delete_all ns m) = (size m - length ns)%nat.
Proof.
  induction ns as [|n ns IH]; intros m Hnd Hin; [cbn; lia|]. apply NoDup_cons in Hnd as [Hn Hnd].
  cbn [delete_all fold_left]. fold (delete_all ns (delete n m)).
  assert (Hdel : size (delete n m) = pred (size m)).
  { pose proof (Hin n ltac:(by left)) as Hd. apply elem_of_dom in Hd as [x Hx]. apply map_size_delete_Some. by exists x. }
  rewrite IH, Hdel; [cbn; lia|done|]. intros k Hk. rewrite dom_delete. apply elem_of_difference. split; [apply Hin; by right|].
  intros Hkn. apply elem_of_singleton in Hkn as ->. done.
Qed.

(** What every reachable sampler satisfies. *)
Record est_ok (e : tuicBandwidthEstimator) : Prop := mk_est_ok {
  eo_low : lowestKnown e = true -> forall k, k ∈ dom (packetStates e) -> lowestState e <= k;
  eo_none : lowestKnown e = false -> packetStates e = ∅;
  eo_last : forall k, k ∈ dom (packetStates e) -> k <= lastSentPacket e;
  eo_mark : lowestKnown e = true -> lowestState e <= lastSentPacket e + 1;
  eo_size : Z.of_nat (size (packetStates e)) <= tuicMaxSendStates
}.

(** Packets are sent under increasing numbers, and nothing above the last one
    sent is declared obsolete; acknowledgements are whatever the peer sends. *)
Inductive est_step : tuicBandwidthEstimator -> tuicBandwidthEstimator -> Prop :=
| es_sent e now number bytes_ inflight retransmittable :
    lastSentPacket e < number -> est_step e (onSentPacket e now number bytes_ inflight retransmittable)
| es_acked e clock eventTime acked round : est_step e (snd (onAckBatch e clock eventTime acked round))
| es_obsolete e n : n <= lastSentPacket e + 1 -> est_step e (removeObsolete e n)
| es_limited e : est_step e (markAppLimited e)
| es_window e : est_step e (endAcks e)
| es_legacy_sent e now bytes_ : est_step e (onSent e now bytes_)
| es_legacy_ack e now bytes_ round limited : est_step e (onAck e now bytes_ round limited).

(** The walk and the scan of [removeObsolete] drop the same states. *)
Lemma removeObsolete_filter e n :
  est_ok e -> packetStates (removeObsolete e n) = filter (fun kv => n <= fst kv) (packetStates e).
Proof.
  intros [Hlow Hnone Hlast Hmark Hsize]. unfold removeObsolete.
  destruct (Z.of_nat (size (packetStates e)) =? 0) eqn:E0; bool_to_prop.
  - cbn. assert (Hz : packetStates e = ∅) by (apply map_size_empty_iff; lia). by rewrite Hz, map_filter_empty.
  - destruct (lowestKnown e && _ && _) eqn:E; cbn [with_lowest with_states packetStates].
    + apply andb_true_iff in E as [E Eg]. apply andb_true_iff in E as [Ek E1]. specialize (Hlow Ek). bool_to_prop.
      apply map_eq. intros k. rewrite delete_range_lookup, map_lookup_filter.
      destruct (packetStates e !! k) as [x|] eqn:Ex; cbn; [|by destruct (decide _)].
      pose proof (Hlow k ltac:(by apply elem_of_dom)) as Hk.
      destruct (decide (n <= k)) as [Hn|Hn].
      * rewrite decide_False by lia. symmetry. by rewrite option_guard_True.
      * rewrite decide_True by lia. symmetry. by rewrite option_guard_False.
    + apply map_filter_ext. intros k x _. cbn. lia.
Qed.

Lemma est_ok_shrink e e' :
  est_ok e -> packetStates e' ⊆ packetStates e -> lowestState e' = lowestState e -> lowestKnown e' = lowestKnown e ->
  lastSentPacket e <= lastSentPacket e' -> est_ok e'.
Proof.
  intros [H1 H2 H3 H4 H5] Hsub Hl Hk Hs. pose proof (subseteq_dom _ _ Hsub) as Hd.
  split; rewrite ?Hl, ?Hk.
  - intros Hkn k Hin. apply H1; [done|]. by apply Hd.
  - intros Hkn. rewrite (H2 Hkn) in Hsub. apply map_eq. intros i. rewrite lookup_empty.
    destruct (packetStates e' !! i) eqn:E; [|done]. by apply (lookup_weaken _ _ _ _ E) in Hsub.
  - intros k Hin. specialize (H3 k (Hd k Hin)). lia.
  - intros Hkn. specialize (H4 Hkn). lia.
  - pose proof (map_subseteq_size _ _ Hsub). lia.
Qed.

Lemma sorted_numbers_spec {A} (m : gmap Z A) :
  NoDup (sorted_numbers m) /\ length (sorted_numbers m) = size m /\ forall k, k ∈ sorted_numbers m <-> k ∈ dom m.
Proof.
  unfold sorted_numbers. pose proof (merge_sort_Permutation Z.le (elements (dom m))) as Hp. split; [|split].
  - rewrite Hp. apply NoDup_elements.
  - rewrite (Permutation_length Hp). change (size (dom m) = size m). apply size_dom.
  - intros k. rewrite Hp. apply elem_of_elements.
Qed.

Lemma pruneStates_spec e :
  tuicMaxSendStates <= Z.of_nat (size (packetStates e)) ->
  packetStates (pruneStates e) ⊆ packetStates e /\
  Z.of_nat (size (packetStates (pruneStates e))) = Z.of_nat (size (packetStates e)) - tuicMaxSendStates / 4 /\
  lowestState (pruneStates e) = lowestState e /\ lowestKnown (pruneStates e) = lowestKnown e /\
  lastSentPacket (pruneStates e) = lastSentPacket e.
Proof.
  change (tuicMaxSendStates / 4) with 2048. change tuicMaxSendStates with 8192. intros Hs. unfold pruneStates.
  change (tuicMaxSendStates / 4) with 2048. change (2048 <=? 0) with false. cbn [orb].
  destruct (_ =? 0) eqn:E0; [bool_to_prop; lia|]. destruct (2048 >=? _) eqn:E1; [bool_to_prop; lia|].
  cbn [with_states packetStates lowestState lowestKnown lastSentPacket]. split; [apply delete_all_subseteq|]. split; [|done].
  destruct (sorted_numbers_spec (packetStates e)) as (Hnd & Hlen & Hin).
  rewrite delete_all_size.
  - rewrite length_take, Hlen. change (Z.to_nat 2048) with 2048%nat. lia.
  - eapply sublist_NoDup; [exact Hnd|]. apply sublist_take.
  - intros n Hn. apply Hin. eapply elem_of_sublist; [exact Hn|]. apply sublist_take.
Qed.

Lemma est_ok_sent e now number b inflight rt :
  est_ok e -> lastSentPacket e < number -> est_ok (onSentPacket e now number b inflight rt).
Proof.
  intros He Hn. unfold onSentPacket. cbn zeta. set (e1 := mkEstimator _ _ _ _ _ _ number _ _ _ _ _ _ _ _ _).
  assert (H1 : est_ok e1) by (apply (est_ok_shrink e); try done; cbn; lia).
  destruct (negb rt || (b =? 0)); [done|].
  set (e2 := mkEstimator (totalAcked e1) _ _ _ _ _ _ _ _ _ _ _ _ _ _ _).
  assert (H2 : est_ok e2) by (apply (est_ok_shrink e1); try done; cbn; lia).
  assert (Hlast2 : forall k, k ∈ dom (packetStates e2) -> k < number).
  { intros k Hk. pose proof (eo_last e He k Hk). lia. }
  set (e3 := if _ >=? tuicMaxSendStates then pruneStates e2 else e2).
  assert (H3 : est_ok e3 /\ packetStates e3 ⊆ packetStates e2 /\ Z.of_nat (size (packetStates e3)) < tuicMaxSendStates /\
    lastSentPacket e3 = number).
  { unfold e3. destruct (_ >=? tuicMaxSendStates) eqn:E; bool_to_prop; [|split; [done|]; split; [done|]; split; [lia|done]].
    destruct (pruneStates_spec e2 ltac:(lia)) as (P1 & P2 & P3 & P4 & P5). pose proof (eo_size e2 H2) as Hs2.
    split; [|split; [done|]; split; [|by rewrite P5]].
    - apply (est_ok_shrink e2); try done. rewrite P5. lia.
    - rewrite P2. change (tuicMaxSendStates / 4) with 2048. change tuicMaxSendStates with 8192 in *. lia. }
  destruct H3 as (H3 & Hsub & Hsz & Hl3). pose proof (subseteq_dom _ _ Hsub) as Hd.
  set (e4 := if negb (lowestKnown e3) then with_lowest e3 number else e3).
  assert (H4 : lowestKnown e4 = true /\ packetStates e4 = packetStates e3 /\ lastSentPacket e4 = number /\ lowestState e4 <= number /\
    forall k, k ∈ dom (packetStates e4) -> lowestState e4 <= k).
  { unfold e4. destruct H3 as [G1 G2 G3 G4 G5]. destruct (lowestKnown e3) eqn:Ek; cbn [negb].
    - split; [done|]. split; [done|]. split; [done|]. split; [|by apply G1].
      (* the mark was at most one above the last packet sent before *)
      assert (Hlow : lowestState e3 = lowestState e /\ lowestKnown e3 = lowestKnown e).
      { unfold e3. destruct (_ >=? tuicMaxSendStates) eqn:E; [|done]. bool_to_prop.
        destruct (pruneStates_spec e2 ltac:(lia)) as (_ & _ & P3 & P4 & _). by rewrite P3, P4. }
      destruct Hlow as [L1 L2]. rewrite L1. rewrite L2 in Ek. pose proof (eo_mark e He Ek). lia.
    - cbn. split; [done|]. split; [done|]. split; [done|]. split; [lia|]. intros k Hk. rewrite (G2 eq_refl), dom_empty in Hk. set_solver. }
  destruct H4 as (K1 & K2 & K3 & K4 & K5).
  split; cbn [with_states packetStates lowestState lowestKnown lastSentPacket].
  - intros _ k Hk. rewrite dom_insert in Hk. apply elem_of_union in Hk as [Hk|Hk]; [apply elem_of_singleton in Hk as ->; done|by apply K5].
  - congruence.
  - intros k Hk. rewrite K3. rewrite dom_insert in Hk. apply elem_of_union in Hk as [Hk|Hk]; [apply elem_of_singleton in Hk as ->; lia|].
    rewrite K2 in Hk. specialize (Hlast2 k (Hd k Hk)). lia.
  - intros _. rewrite K3. lia.
  - rewrite K2, map_size_insert. destruct (packetStates e3 !! number); cbn; lia.
Qed.

Lemma ack_packet_shrink t e r l p e' r' l' :
  est_ok e -> ack_packet t (e, r, l) p = (e', r', l') -> est_ok e'.
Proof.
  intros He Ha. unfold ack_packet in Ha. destruct (ap_BytesAcked p <=? 0); [by injection Ha as <- <- <-|].
  destruct (packetStates e !! _); injection Ha as <- <- <-; apply (est_ok_shrink e); try done; cbn; try lia. apply delete_subseteq.
Qed.

Lemma est_ok_step e e' : est_ok e -> est_step e e' -> est_ok e'.
Proof.
  intros He Hstep. destruct Hstep as [e now number b i rt Hn|e clock t acked round|e n Hn|e|e|e now b|e now b round lim].
  - by apply est_ok_sent.
  - unfold onAckBatch. set (t' := if t =? 0 then clock else t).
    assert (Hfold : forall l e r g e' r' g', est_ok e -> fold_left (ack_packet t') l (e, r, g) = (e', r', g') -> est_ok e').
    { clear. induction l as [|p l IH]; intros e r g e' r' g' He Hf; cbn [fold_left] in Hf; [by injection Hf as <- <- <-|].
      destruct (ack_packet t' (e, r, g) p) as [[e1 r1] g1] eqn:E. apply (IH e1 r1 g1 e' r' g'); [|exact Hf]. by eapply ack_packet_shrink. }
    destruct (fold_left (ack_packet t') acked (e, no_ack_sample, None)) as [[e1 r1] g1] eqn:E. pose proof (Hfold _ _ _ _ _ _ _ He E) as H1.
    destruct g1 as [[pn st]|]; cbn [snd]; (case_match; [|]; apply (est_ok_shrink e1); try done; cbn; lia).
  - pose proof (removeObsolete_filter e n He) as Hf. pose proof He as [H1 H2 H3 H4 H5].
    assert (Hr : lowestState (removeObsolete e n) = n /\ lowestKnown (removeObsolete e n) = true /\
      lastSentPacket (removeObsolete e n) = lastSentPacket e).
    { unfold removeObsolete. destruct (_ =? 0); [done|]. by destruct (_ && _). }
    destruct Hr as (R1 & R2 & R3). split; rewrite ?R1, ?R2, ?R3, ?Hf; try done.
    + intros _ k Hk. apply elem_of_dom in Hk as [x Hx]. apply map_lookup_filter_Some in Hx as [_ Hx]. done.
    + intros k Hk. apply H3. apply elem_of_dom in Hk as [x Hx]. apply map_lookup_filter_Some in Hx as [Hx _]. by apply elem_of_dom.
    + pose proof (map_subseteq_size _ _ (map_filter_subseteq (fun kv => n <= fst kv) (packetStates e))). lia.
  - apply (est_ok_shrink e); try done; cbn; lia.
  - apply (est_ok_shrink e); try done; cbn; lia.
  - apply (est_ok_shrink e); try done; cbn; lia.
  - unfold onAck. destruct (b =? 0); [done|]. cbn zeta. destruct (_ || _); [apply (est_ok_shrink e); try done; cbn; lia|].
    destruct (_ && _); apply (est_ok_shrink e); try done; cbn; lia.
Qed.

(** ** Theorems *)

(** The bandwidth filter is a maximum over a window.  Whatever samples
    arrive, in rounds that do not go back and with the wall-clock memory
    re-derived at any time, the estimate is the value of a sample that was
    recorded at most ten rounds before the newest one, and no sample recorded
    after it is larger. *)
Theorem bandwidth_filter_windowed_maximum ops newest :
  Forall filter_op_ok ops -> rounds_ordered (recorded ops) -> last (recorded ops) = Some newest ->
  exists i s, recorded ops !! i = Some s /\ mm_get (fold_left filter_apply ops newTUICMinMax) = mm_value s /\
    0 < mm_value s /\ mm_round newest - mm_round s <= tuicMinMaxWindow /\
    forall j s', (i < j)%nat -> recorded ops !! j = Some s' -> mm_value s' <= mm_value s.
Proof.
  intros Hok Hmono Hlast. destruct (filter_run_inv ops Hok Hmono) as (Hw & [_ Hinv] & _). rewrite Hlast in Hinv.
  destruct Hinv as (Hpos & Hwin & i0 & i1 & i2 & [H0 _ _ _ T0 _ _]). rewrite Hw in Hwin.
  exists i0, (s0 (fold_left filter_apply ops newTUICMinMax)). done.
Qed.

(** The sampler's table is bounded and pruned exactly.  However packets are
    sent and acknowledged, at most 8192 packet states are kept, and
    [removeObsolete], whether it walks the dropped range or scans the table,
    keeps exactly the states at or above the number given; the rates the samples
    are made of are the exact quotients, saturated, and never panic. *)
Theorem sampler_table_exact e n b d :
  steps est_step newTUICBandwidthEstimator e -> 0 <= b < 2 ^ 64 -> d < 2 ^ 63 ->
  Z.of_nat (size (packetStates e)) <= tuicMaxSendStates /\
  packetStates (removeObsolete e n) = filter (fun kv => n <= fst kv) (packetStates e) /\
  rateFromDelta b d = Some (if (b =? 0) || (d <=? 0) then 0 else Z.min maxUint64 (b * 1000000000 / d)).
Proof.
  intros Hs Hb Hd.
  assert (He : est_ok e).
  { eapply (steps_invariant _ est_ok); [intros ??; by apply est_ok_step| |exact Hs].
    split; cbn; try done; intros; set_solver. }
  split; [apply He|]. split; [by apply removeObsolete_filter|]. by apply rateFromDelta_exact.
Qed.

(** ** Witnesses *)

Definition sample_ops : list filter_op :=
  [FUpdate 1 0 500; FUpdate 2 0 300; FRoundTrip 100000000; FUpdate 4 0 0; FUpdate 9 0 200; FUpdate 12 0 100].

Lemma bandwidth_filter_windowed_maximum_witness :
  mm_get (fold_left filter_apply sample_ops newTUICMinMax) = 200 /\
  exists i s, recorded sample_ops !! i = Some s /\
    mm_get (fold_left filter_apply sample_ops newTUICMinMax) = mm_value s /\ 12 - mm_round s <= 10.
Proof.
  split; [vm_compute; reflexivity|].
  destruct (bandwidth_filter_windowed_maximum sample_ops (mkMM 12 0 100)) as (i & s & H1 & H2 & _ & H3 & _).
  - repeat constructor; cbn; lia.
  - intros i j a b Hij Ha Hb.
    destruct i as [|[|[|[|i]]]], j as [|[|[|[|j]]]]; cbn in Ha, Hb; try discriminate; try lia;
      injection Ha as <-; injection Hb as <-; cbn; lia.
  - reflexivity.
  - exists i, s. split; [exact H1|]. split; [exact H2|exact H3].
Defined.

Definition sample_sampler : tuicBandwidthEstimator :=
  onSentPacket (onSentPacket newTUICBandwidthEstimator 5 3 1200 0 true) 6 4 1200 1200 true.

Lemma sampler_table_exact_witness :
  size (packetStates sample_sampler) = 2%nat /\
  packetStates (removeObsolete sample_sampler 4) = filter (fun kv => 4 <= fst kv) (packetStates sample_sampler) /\
  rateFromDelta 1200 1000 = Some 1200000000.
Proof.
  split; [vm_compute; reflexivity|].
  destruct (sampler_table_exact sample_sampler 4 1200 1000) as (_ & H1 & H2).
  - eapply steps_cons; [apply (es_sent _ 5 3 1200 0 true); vm_compute; reflexivity|]. apply steps_one.
    apply (es_sent _ 6 4 1200 1200 true). vm_compute. reflexivity.
  - pow2_eval. lia.
  - pow2_eval. lia.
  - split; [exact H1|]. rewrite H2. reflexivity.
Defined.
