(* ===== verification/Transfer.v ===== *)
(** A striped flow from one application to the other
    ([internal/pep/stripedsend.go] and the receive loop of
    [internal/pep/mpflow.go]).

    [transfer] puts one direction of a flow together: the striping scheduler with
    its producer ([StripeInv.flow]), the lanes' pullers, the list of chunks written
    and not yet acknowledged with the watcher that completes them, the frames the
    lanes were given, the receive loop with its reassembler, the acknowledgements
    on their way back, and the sender's acknowledgement state ([AckPath]).  Frames
    form a soup: each may arrive at any time, any number of times, or never.

    The theorems at the end say that whatever the goroutines' interleaving and
    whatever the path does, the far application is given a prefix of what the near
    one wrote, and all of it once the scheduler reports it is done. *)

From S2P Require Import Prelude Frame Memlimit Reassembly AckTrack AckPath Stripe StripeInv.
Import protocol.

(** ** Windows and timers *)

Definition defaultChunkSize : Z := 32 * 1024.
Definition maxLaneChunkWindow : Z := 16384.
Definition maxFlowOutstandingChunks : Z := 16384.
Definition maxFlowOutstandingBytes : Z := 64 * 1024 * 1024.
Definition minFlowRetentionBytes : Z := 16 * 1024 * 1024.
Definition lostChunkEvidence : Z := 2 * defaultChunkSize.
Definition minLaneQueueBytes : Z := 2 * defaultChunkSize.
Definition maxLaneQueueBytes : Z := 512 * 1024.

(** In nanoseconds. *)
Definition minChunkReissueDelay : Z := 200 * 1000000.
Definition maxChunkReissueDelay : Z := 1500 * 1000000.

Definition laneQueueBytes (cwnd : Z) : Z :=
  let queue := Z.quot cwnd 4 in
  let queue := if queue <? minLaneQueueBytes then minLaneQueueBytes else queue in
  if queue >? maxLaneQueueBytes then maxLaneQueueBytes else queue.

(** The congestion windows of the healthy lanes. *)
Definition retentionBytes (cwnds : list Z) : Z :=
  let total := fold_left Z.add cwnds 0 in
  if total <=? 0 then minFlowRetentionBytes
  else
    let want := 2 * total in
    if want >? minFlowRetentionBytes then want else minFlowRetentionBytes.

(** The round trips of the healthy lanes. *)
Definition reissueDelay (rtts : list Z) : Z :=
  let longest := fold_left (fun longest rtt => if rtt >? longest then rtt else longest) rtts 0 in
  let delay := 2 * longest in
  if delay <? minChunkReissueDelay then minChunkReissueDelay
  else if delay >? maxChunkReissueDelay then maxChunkReissueDelay
  else delay.

Definition reliableReissueBurst : Z := 1.

(** The scheduler's configuration: [maxOutstanding] and [maxSendBytes] are the
    flow's memory limits. *)
Definition send_config (chunkSize maxOutstanding maxSendBytes : Z) : StripeConfig :=
  mkStripeConfig chunkSize (Z.min maxLaneChunkWindow maxOutstanding) maxOutstanding maxSendBytes reliableReissueBurst.

(** ** The sender *)

(** A chunk written to a lane and not yet acknowledged: the lane and the chunk. *)
Definition outstandingChunk : Type := Z * Chunk.

(** [sendChunk]: the frame queued on the lane, none for an empty chunk, and the
    sender's acknowledgement state. *)
Definition sendChunk (id : flow_id) (c : Chunk) (t : ackTx) : option Frame * ackTx :=
  if len (c_Data c) =? 0 then (None, t)
  else
    (Some (mkFrame (mkHeader Version TypeData 0 (fl_session id) (fl_flow id) (c_Offset c) 0 (fl_class id)) (c_Data c)),
     noteSent t (c_Offset c) (len (c_Data c))).

(** The loop of [trackChunk]: the record of the same offset, if there is one, is
    taken over. *)
Fixpoint retrack (lane : Z) (c : Chunk) (l : list outstandingChunk) : option (list outstandingChunk) :=
  match l with
  | [] => None
  | pend :: rest =>
      if c_Offset (snd pend) =? c_Offset c then Some ((lane, c) :: rest)
      else match retrack lane c rest with Some rest' => Some (pend :: rest') | None => None end
  end.

Definition set_tracker (t : ackTx) (k : ackTracker) : ackTx :=
  mkAckTx (highestSent t) (tx_acked t) k (closeFrame t) (finSequence t).

Definition trackChunk (lane : Z) (c : Chunk) (l : list outstandingChunk) (t : ackTx) : list outstandingChunk * ackTx :=
  match retrack lane c l with
  | Some l' => (l', t)
  | None =>
      (l ++ [(lane, c)],
       if Covered (ackTrack t) (c_Offset c) (Chunk_End c) then set_tracker t (Touch (ackTrack t)) else t)
  end.

(** [watchChunkCompletion]: below which offset the snapshot proves chunks lost,
    and which records it completes. *)
Definition lost_below (sn : ackSnapshot) : option Z :=
  if highest sn >? lostChunkEvidence then Some (highest sn - lostChunkEvidence) else None.

Definition is_covered (sn : ackSnapshot) (pend : outstandingChunk) : bool :=
  covers sn (c_Offset (snd pend)) (Chunk_End (snd pend)).

Definition split_completed (sn : ackSnapshot) (l : list outstandingChunk) : list outstandingChunk * list outstandingChunk :=
  (filter (fun pend => is_covered sn pend = true) l, filter (fun pend => is_covered sn pend = false) l).

(** [noteLocalClose] publishes the sequence, which the source's end has done before;
    only a final acknowledgement reads it.  [retainClose] keeps the close frame, of
    which only the sequence is read later. *)
Definition sendFinal (id : flow_id) (sequence : Z) (t : ackTx) : Frame * ackTx :=
  (mkFrame (mkHeader Version TypeClose FlagFin (fl_session id) (fl_flow id) sequence 0 (fl_class id)) [],
   mkAckTx (highestSent t) (tx_acked t) (ackTrack t) (Some sequence) sequence).

(** ** The receiver *)

Record receiver := mkReceiver {
  v_r : Reassembler;
  v_ack : ackRx;
  v_last : Z;
  v_remoteFin : bool;
  v_inner : bytes
}.

(** Why [receiveInner] returns. *)
Inductive receive_end :=
| OtherFlow
| DataAfterFin
| Refused (e : rerror)
| InvalidClose
| PeerAborted
| BothDone
| UnexpectedType.

(** The state after a frame and the acknowledgement written, if any, and whether
    the loop has returned. *)
Record received_frame := mkReceived { rf_v : receiver; rf_ack : option Frame; rf_end : option receive_end }.

Definition set_closing (a : ackRx) : ackRx :=
  mkAckRx (pendingRanges a) (ackSequence a) (gapPending a) (ackWake a) true (ackRanges a) (acksSched a).

(** [acknowledgeRemoteFIN] for the given sequence. *)
Definition acknowledgeRemoteFIN (id : flow_id) (direction sequence : Z) (v : receiver) : receiver * Frame :=
  let '(f, a) := writeACK_frame id (set_closing (v_ack v)) sequence direction true in
  (mkReceiver (v_r v) a (v_last v) (v_remoteFin v) (v_inner v), f).

(** The stream's end has been reached. *)
Definition remote_fin (id : flow_id) (direction : Z) (sendDone : bool) (v : receiver) : received_frame :=
  let '(v, f) := acknowledgeRemoteFIN id direction (NextSequence (v_r v)) v in
  mkReceived (mkReceiver (v_r v) (v_ack v) (v_last v) true (v_inner v)) (Some f) (if sendDone then Some BothDone else None).

(** The cases of [receiveInner] for the two types of frame that carry a stream,
    while the local application reads; [None] is a panic.  Acknowledgements are the
    sender's ([AckPath.receive_ack]); [OPEN_OK] and [RESET] are not sent here. *)
Definition receive_frame (id : flow_id) (direction : Z) (sendDone : bool) (v : receiver) (f : Frame) : option received_frame :=
  let h := f_Header f in
  if negb (bool_decide (h_SessionID h = fl_session id)) || negb (h_FlowID h =? fl_flow id) then
    Some (mkReceived v None (Some OtherFlow))
  else if h_Type h =? TypeData then
    if v_remoteFin v then Some (mkReceived v None (Some DataAfterFin))
    else
      match Reassembler_InsertOwned (v_r v) (mkSegment (h_Sequence h) (f_Payload f) false false) with
      | None => None
      | Some ((_, _, Some e), r) =>
          Some (mkReceived (mkReceiver r (v_ack v) (v_last v) (v_remoteFin v) (v_inner v)) None (Some (Refused e)))
      | Some ((out, closed, None), r) =>
          let '(a, last) := acknowledgeArrival (v_ack v) r (v_last v) in
          let v := mkReceiver r a last (v_remoteFin v) (v_inner v ++ out) in
          Some (if closed then remote_fin id direction sendDone v else mkReceived v None None)
      end
  else if h_Type h =? TypeClose then
    if (Z.land (h_Flags h) FlagFin =? 0) || negb (len (f_Payload f) =? 0) || negb (Z.land (h_Flags h) FlagAckFinal =? 0) ||
       negb (Z.land (h_Flags h) (Z.lor FlagAckUp FlagAckDown) =? 0)
    then Some (mkReceived v None (Some InvalidClose))
    else if negb (Z.land (h_Flags h) FlagCloseAbort =? 0) then
      let '(v, f) := acknowledgeRemoteFIN id direction (h_Sequence h) v in
      Some (mkReceived v (Some f) (Some PeerAborted))
    else
      match Reassembler_Insert (v_r v) (mkSegment (h_Sequence h) [] true false) with
      | None => None
      | Some ((_, _, Some e), r) =>
          Some (mkReceived (mkReceiver r (v_ack v) (v_last v) (v_remoteFin v) (v_inner v)) None (Some (Refused e)))
      | Some ((out, closed, None), r) =>
          let v := mkReceiver r (v_ack v) (v_last v) (v_remoteFin v) (v_inner v ++ out) in
          Some (if closed then remote_fin id direction sendDone v else mkReceived v None None)
      end
  else Some (mkReceived v None (Some UnexpectedType)).

(** ** One direction of a flow *)

(** The watcher between its snapshot and its wait. *)
Inductive watcher := Waiting | Holding (sn : ackSnapshot) | Completing (l : list outstandingChunk).

Record transfer := mkTransfer {
  t_flow : flow;
  t_hand : list outstandingChunk;   (* taken by a puller, not yet queued *)
  t_queued : list outstandingChunk; (* queued on a lane, not yet tracked *)
  t_out : list outstandingChunk;    (* outstandingChunks *)
  t_watch : watcher;
  t_fin : option Z;                 (* the sequence of the FIN sent *)
  t_wire : list Frame;              (* the frames the lanes were given *)
  t_tx : ackTx;
  t_acks : list Frame;              (* the acknowledgements written *)
  t_rx : receiver;
  t_stop : option receive_end
}.

Definition set_sched (f : flow) (s : Scheduler) : flow := mkFlow s (prod_ f) (src f) (StripeInv.acked f) (elsewhere f).

Definition cons_opt {A} (o : option A) (l : list A) : list A := match o with Some x => x :: l | None => l end.

Section Transfer.
Variable id : flow_id.
Variable direction : Z.

Inductive tstep : transfer -> transfer -> Prop :=
(* the producer, the supervisor, the writers and lane failures *)
| ts_sched f f' h q o w fin wire t acks v e :
    fstep f f' -> StripeInv.acked f' = StripeInv.acked f ->
    tstep (mkTransfer f h q o w fin wire t acks v e) (mkTransfer f' h q o w fin wire t acks v e)
(* a puller takes a chunk *)
| ts_next f h q o w fin wire t acks v e ans ctx_done lane c s' :
    nextAttempt (sch f) + 1 < 2 ^ 64 -> Next_pass (sch f) ans ctx_done lane 0 = (NextChunk c, s') ->
    tstep (mkTransfer f h q o w fin wire t acks v e) (mkTransfer (set_sched f s') ((lane, c) :: h) q o w fin wire t acks v e)
(* queues its frame *)
| ts_send f h1 h2 q o w fin wire t acks v e lane c fr t' :
    sendChunk id c t = (fr, t') ->
    tstep (mkTransfer f (h1 ++ (lane, c) :: h2) q o w fin wire t acks v e)
      (mkTransfer f (h1 ++ h2) ((lane, c) :: q) o w fin (cons_opt fr wire) t' acks v e)
(* or fails to *)
| ts_fail f h1 h2 q o w fin wire t acks v e lane c fr t' :
    sendChunk id c t = (Some fr, t') ->
    tstep (mkTransfer f (h1 ++ (lane, c) :: h2) q o w fin wire t acks v e)
      (mkTransfer (set_sched f (Fail_attempt (sch f) lane (c_Offset c) (c_attempt c))) (h1 ++ h2) q o w fin wire t' acks v e)
(* and records the chunk *)
| ts_track f h q1 q2 o o' w fin wire t t' acks v e lane c :
    trackChunk lane c o t = (o', t') ->
    tstep (mkTransfer f h (q1 ++ (lane, c) :: q2) o w fin wire t acks v e) (mkTransfer f h (q1 ++ q2) o' w fin wire t' acks v e)
(* the watcher takes a snapshot, re-offers what it proves lost, *)
| ts_snapshot f h q o fin wire t acks v e visit s' :
    let sn := tracker_Snapshot (ackTrack t) in
    visit ≡ₚ live_keys (sch f) ->
    s' = match lost_below sn with Some b => fst (ReissueUnacknowledgedBelow visit (sch f) b) | None => sch f end ->
    tstep (mkTransfer f h q o Waiting fin wire t acks v e) (mkTransfer (set_sched f s') h q o (Holding sn) fin wire t acks v e)
(* sorts out the records it covers, *)
| ts_split f h q o sn fin wire t acks v e completed kept :
    split_completed sn o = (completed, kept) ->
    tstep (mkTransfer f h q o (Holding sn) fin wire t acks v e) (mkTransfer f h q kept (Completing completed) fin wire t acks v e)
(* completes them one by one, *)
| ts_complete f h q o lane c l fin wire t acks v e s' :
    Complete (sch f) lane (c_Offset c) = Some s' ->
    tstep (mkTransfer f h q o (Completing ((lane, c) :: l)) fin wire t acks v e)
      (mkTransfer (mkFlow s' (prod_ f) (src f) ({[c_Offset c]} ∪ StripeInv.acked f) (elsewhere f)) h q o (Completing l) fin wire t acks v e)
(* and waits for the next change *)
| ts_wait f h q o fin wire t acks v e :
    tstep (mkTransfer f h q o (Completing []) fin wire t acks v e) (mkTransfer f h q o Waiting fin wire t acks v e)
(* every chunk has been acknowledged: the half-close *)
| ts_final f h q o w wire t acks v e fr t' :
    Done (sch f) = true -> Stripe_Err (sch f) = None ->
    sendFinal id (SourceBytes (Stripe_Stats (sch f))) t = (fr, t') ->
    tstep (mkTransfer f h q o w None wire t acks v e)
      (mkTransfer f h q o w (Some (SourceBytes (Stripe_Stats (sch f)))) (fr :: wire) t' acks v e)
(* a frame arrives *)
| ts_arrive f h q o w fin wire t acks v fr sendDone rf :
    fr ∈ wire -> receive_frame id direction sendDone v fr = Some rf ->
    tstep (mkTransfer f h q o w fin wire t acks v None)
      (mkTransfer f h q o w fin wire t (cons_opt (rf_ack rf) acks) (rf_v rf) (rf_end rf))
(* other flows use the receiver's memory *)
| ts_memory f h q o w fin wire t acks v e m :
    budget_covers m (r_bytes (v_r v)) ->
    tstep (mkTransfer f h q o w fin wire t acks v e)
      (mkTransfer f h q o w fin wire t acks (mkReceiver (set_memory (v_r v) m) (v_ack v) (v_last v) (v_remoteFin v) (v_inner v)) e)
(* the acknowledgement loop writes *)
| ts_ack f h q o w fin wire t acks v e fr a :
    writeACK_frame id (v_ack v) (ackSequence (v_ack v)) direction false = (fr, a) ->
    tstep (mkTransfer f h q o w fin wire t acks v e)
      (mkTransfer f h q o w fin wire t (fr :: acks) (mkReceiver (v_r v) a (v_last v) (v_remoteFin v) (v_inner v)) e)
(* an acknowledgement arrives *)
| ts_acked f h q o w fin wire t acks v e fr t' :
    fr ∈ acks -> receive_ack direction t fr = Ok t' ->
    tstep (mkTransfer f h q o w fin wire t acks v e) (mkTransfer f h q o w fin wire t' acks v e).

End Transfer.

(** A new flow. *)
Definition transfer_start (cfg : StripeConfig) (sendMemory : option Budget) (rcfg : ReassemblerConfig) (ranges_on : bool) : transfer :=
  mkTransfer (flow_start cfg sendMemory) [] [] [] Waiting None [] (mkAckTx 0 0 newAckTracker None 0) []
    (mkReceiver (NewReassembler rcfg) (mkAckRx [] 0 false false false ranges_on 0) 0 false []) None.

(** ** What the scheduler's operations keep *)

(** The offsets and bytes of the chunks. *)
Definition content (s : Scheduler) : gmap Z (Z * bytes) := (fun c => (c_Offset c, c_Data c)) <$> chunks s.

Lemma content_lookup s p c : chunks s !! p = Some c -> content s !! p = Some (c_Offset c, c_Data c).
Proof. intros Hc. unfold content. by rewrite lookup_fmap, Hc. Qed.

Lemma content_inv s p o d : content s !! p = Some (o, d) -> exists c, chunks s !! p = Some c /\ c_Offset c = o /\ c_Data c = d.
Proof. unfold content. rewrite lookup_fmap. destruct (chunks s !! p) as [c|]; [|done]. cbn. intros [= <- <-]. by exists c. Qed.

Lemma content_is_Some s s' p : content s' = content s -> is_Some (chunks s !! p) -> is_Some (chunks s' !! p).
Proof.
  intros He [c Hc]. apply content_lookup in Hc. rewrite <- He in Hc. apply content_inv in Hc as (c' & ? & _). by eexists.
Qed.

Definition pointers_ok (s : Scheduler) : Prop :=
  (forall p, p ∈ pending s -> is_Some (chunks s !! p)) /\
  (forall o out, live s !! o = Some out -> is_Some (chunks s !! o_chunk out)).

(** The source's end and the closing are final. *)
Definition ends (s s' : Scheduler) : Prop := (s_closed s = true -> s_closed s' = true) /\ (eof s = true -> eof s' = true).

(** What is fixed once the source has been read. *)
Definition told (s s' : Scheduler) : Prop := SourceBytes (s_stats s') = SourceBytes (s_stats s) /\ ends s s'.

(** An operation that makes no chunk, changes none and reads nothing. *)
Definition calm (s s' : Scheduler) : Prop := pointers_ok s -> content s' = content s /\ told s s' /\ pointers_ok s'.

Global Instance told_trans : Transitive told.
Proof. intros s1 s2 s3 (H1 & H2 & H3) (H4 & H5 & H6). split; [congruence|]. split; auto. Qed.

Global Instance told_refl : Reflexive told.
Proof. done. Qed.

Global Instance calm_trans : Transitive calm.
Proof. intros s1 s2 s3 H1 H2 Hok. destruct (H1 Hok) as (E1 & B1 & Hok2), (H2 Hok2) as (E2 & B2 & Hok3). split; [congruence|]. split; [by etransitivity|done]. Qed.

Global Instance calm_refl : Reflexive calm.
Proof. by intros s Hok. Qed.

Lemma calm_fold {A} (f : A -> Z -> A) (get : A -> Scheduler) l :
  (forall a k, calm (get a) (get (f a k))) -> forall a, calm (get a) (get (fold_left f l a)).
Proof. intros Hf. induction l as [|k l IH]; intros a; [done|]. cbn. etransitivity; [apply Hf|apply IH]. Qed.

Lemma content_same s s' : chunks s' = chunks s -> content s' = content s.
Proof. unfold content. by intros ->. Qed.

(** An update of a chunk's marks. *)
Lemma content_update s s' p c c' :
  chunks s !! p = Some c -> c_Offset c' = c_Offset c -> c_Data c' = c_Data c -> chunks s' = <[p := c']> (chunks s) ->
  content s' = content s.
Proof.
  intros Hc Ho Hd He. unfold content. rewrite He, fmap_insert, Ho, Hd. apply insert_id. by apply content_lookup.
Qed.

(** The same chunks, with fewer or the same pointers to them. *)
Lemma calm_relink s s' :
  chunks s' = chunks s -> told s s' ->
  (forall p, p ∈ pending s' -> p ∈ pending s) ->
  (forall o out, live s' !! o = Some out -> exists o1 out1, live s !! o1 = Some out1 /\ o_chunk out1 = o_chunk out) ->
  calm s s'.
Proof.
  intros Hc Hb Hp Hl [Hok1 Hok2]. split; [by apply content_same|]. split; [done|]. split; rewrite Hc.
  - intros p Hin. by apply Hok1, Hp.
  - intros o out Ho. destruct (Hl o out Ho) as (o1 & out1 & Hl1 & <-). by eapply Hok2.
Qed.

Lemma calm_live s o out l a t :
  live s !! o = Some out -> SourceBytes t = SourceBytes (s_stats s) ->
  calm s (with_stats (with_live s (<[o := mkOutstanding (o_chunk out) l]> (live s)) a) t).
Proof.
  intros Hl Ht. apply calm_relink; cbn; try done. intros k out' Hk.
  apply lookup_insert_Some in Hk as [[<- <-]|[_ Hk]]; [by exists o, out|by exists k, out'].
Qed.

Lemma calm_live' s o out l a :
  live s !! o = Some out -> calm s (with_live s (<[o := mkOutstanding (o_chunk out) l]> (live s)) a).
Proof. intros Hl. exact (calm_live s o out l a (s_stats s) Hl eq_refl). Qed.

Lemma calm_requeue s p : is_Some (chunks s !! p) -> calm s (requeueLocked s p).
Proof.
  intros [c Hc]. unfold requeueLocked. destruct (pendingHas _ _); [done|]. cbv zeta. rewrite (chunk_at_lookup _ _ _ Hc).
  set (s1 := with_chunk s p (set_urgent c true)). intros [Hok1 Hok2].
  set (s2 := with_pending s1 _).
  assert (He : content s2 = content s) by exact (content_update s s2 p c (set_urgent c true) Hc eq_refl eq_refl eq_refl).
  split; [done|]. split; [done|]. split.
  - intros q Hq. eapply content_is_Some; [exact He|]. cbn [s2 with_pending pending] in Hq. rewrite (insert_by_offset_perm s1 p) in Hq.
    apply elem_of_cons in Hq as [->|Hq]; [by eexists|by apply Hok1].
  - intros o out Ho. eapply content_is_Some; [exact He|]. by eapply Hok2.
Qed.

(** The same, of a chunk some record points to. *)
Lemma calm_requeue_live s s1 o out : live s !! o = Some out -> calm s s1 -> calm s (requeueLocked s1 (o_chunk out)).
Proof.
  intros Hl H1 Hok. destruct (H1 Hok) as (E1 & B1 & Hok1).
  destruct (calm_requeue s1 (o_chunk out)) as (E2 & B2 & Hok2); [|done|rewrite E2; split; [done|]; split; [by etransitivity|done]].
  eapply content_is_Some; [exact E1|]. by eapply Hok.
Qed.

(** Splits an operation's branches and settles those that keep or relink. *)
Ltac calm_cases :=
  repeat case_match; simplify_eq; cbn [fst snd];
  first [reflexivity | by apply calm_live | by apply calm_live'
        | eapply calm_requeue_live; [eassumption|]; first [by apply calm_live | by apply calm_live' | reflexivity] ].

Lemma Wrote_calm s lane o i : calm s (Wrote s lane o i).
Proof. unfold Wrote. calm_cases. Qed.

Lemma Fail_calm s lane o i : calm s (Fail_attempt s lane o i).
Proof. unfold Fail_attempt. calm_cases. Qed.

Lemma Retire_calm visit s lane : calm s (RetireLane visit s lane).
Proof.
  unfold RetireLane. etransitivity; [apply (calm_fold (retire_one lane) (fun s => s) visit)|].
  - intros a k. unfold retire_one. calm_cases.
  - apply calm_relink; try done. cbn. by eauto.
Qed.

Lemma Below_calm visit s o : calm s (fst (ReissueUnacknowledgedBelow visit s o)).
Proof.
  refine (calm_fold (reissue_below_one o) fst visit _ (s, 0)). intros [a r] k. unfold reissue_below_one. calm_cases.
Qed.

Lemma Expired_calm visit s ans : calm s (fst (ReissueExpired visit s ans)).
Proof.
  unfold ReissueExpired. destruct (_ <=? 0); [reflexivity|].
  pose proof (calm_fold (collect_expired (ans_Now ans)) fst visit) as H1.
  specialize (H1 ltac:(intros [a l] k; unfold collect_expired; calm_cases) (s, [])).
  destruct (fold_left _ visit _) as [s1 l]. cbn [fst] in H1.
  pose proof (calm_fold (reissue_candidate (ans_Now ans) (retransmitAfter ans)) (fun a => fst (fst a)) (merge_sort Z.le l)) as H2.
  specialize (H2 ltac:(intros [[a r] rr] k; unfold reissue_candidate; calm_cases) (s1, 0, 0)).
  destruct (fold_left _ _ _) as [[s2 k] r]. cbn [fst] in *. by etransitivity.
Qed.

Lemma calm_with_end s e err fin : (eof s = true -> e = true) -> calm s (with_end s e err fin).
Proof. intros He. apply calm_relink; try done. cbn. by eauto. Qed.

Lemma calm_with_memory s m : calm s (with_memory s m).
Proof. apply calm_relink; try done. cbn. by eauto. Qed.

Lemma signal_calm s : calm s (signalIfDoneLocked s).
Proof. unfold signalIfDoneLocked. destruct (doneLocked s); [by apply calm_with_end|reflexivity]. Qed.

Lemma release_calm s p s' : is_Some (chunks s !! p) -> releaseChunkLocked s p = Some s' -> calm s s'.
Proof.
  intros [c Hc]. unfold releaseChunkLocked. cbv zeta. rewrite (chunk_at_lookup _ _ _ Hc). destruct (_ =? 0); [by intros [= <-]|].
  destruct (Budget_Release _ _) as [m|]; [|done]. intros [= <-] [Hok1 Hok2].
  set (s' := with_memory _ _). set (c' := mkChunk _ _ _ _ _ _) in s'.
  assert (He : content s' = content s) by exact (content_update s s' p c c' Hc eq_refl eq_refl eq_refl).
  split; [done|]. split; [done|]. split.
  - intros q Hq. eapply content_is_Some; [exact He|]. by apply Hok1.
  - intros o out Ho. eapply content_is_Some; [exact He|]. by eapply Hok2.
Qed.

Lemma remove_pending_from s o l r l' : remove_pending s o l = (r, l') ->
  (forall q, q ∈ l' -> q ∈ l) /\ (forall p, r = Some p -> p ∈ l).
Proof.
  intros Hr. destruct (remove_pending_spec _ _ _ _ _ Hr) as [(-> & -> & _)|(p & l1 & l2 & -> & -> & -> & _)]; [done|]. split.
  - intros q. rewrite !elem_of_app, elem_of_cons. tauto.
  - intros q [= <-]. rewrite elem_of_app, elem_of_cons. tauto.
Qed.

Lemma Complete_calm s lane o s' : Complete s lane o = Some s' -> calm s s'.
Proof.
  intros H Hok. unfold Complete in H. cbv zeta in H.
  set (s1 := match live s !! o with Some out => _ | None => s end) in H.
  assert (H1 : calm s s1).
  { unfold s1. destruct (live s !! o) as [out|]; [|reflexivity]. destruct (sweep_attempts _ _ _ _ _) as [k a].
    apply calm_relink; try done. cbn. intros k' out' Hk. apply lookup_delete_Some in Hk as [_ Hk]. by eauto. }
  unfold removePendingLocked in H. destruct (remove_pending s1 o (pending s1)) as [dropped l] eqn:Er.
  assert (H2 : calm s1 (with_pending s1 l)).
  { apply calm_relink; try done; cbn; [|by eauto]. intros p. by apply (remove_pending_from _ _ _ _ _ Er). }
  destruct (H1 Hok) as (E1 & B1 & Hok1). destruct (H2 Hok1) as (E2 & B2 & Hok2).
  destruct (match live s !! o with Some out => Some (o_chunk out) | None => dropped end) as [p|] eqn:Ep; [|injection H as <-; rewrite E2; split; [done|]; split; [by etransitivity|done]].
  destruct (releaseChunkLocked (with_pending s1 l) p) as [s3|] eqn:E3; [|done]. injection H as <-.
  assert (Hp : is_Some (chunks (with_pending s1 l) !! p)).
  { eapply content_is_Some; [by rewrite E2|]. destruct (live s !! o) as [out|] eqn:El; simplify_eq.
    - eapply content_is_Some; [exact E1|]. by eapply Hok.
    - apply Hok1. by apply (remove_pending_from _ _ _ _ _ Er). }
  destruct (release_calm _ _ _ Hp E3 Hok2) as (E4 & B4 & Hok4). destruct (signal_calm s3 Hok4) as (E5 & B5 & Hok5).
  split; [congruence|]. split; [|done]. etransitivity; [exact B1|]. etransitivity; [exact B2|]. by etransitivity.
Qed.

(** A chunk handed out is a chunk of the store. *)
Lemma Next_calm s ans ctx lane wb c s' :
  Next_pass s ans ctx lane wb = (NextChunk c, s') ->
  calm s s' /\ (pointers_ok s -> exists p, content s !! p = Some (c_Offset c, c_Data c)).
Proof.
  intros Hn. apply Next_take in Hn as [_ Ht]. unfold takeReadyLocked in Ht.
  destruct (take_scan _ _ _ _ _) as [[p rest]|] eqn:Es; [|done]. apply take_scan_spec in Es as (l1 & l2 & Hp & -> & _).
  assert (Hin : p ∈ pending s) by (rewrite Hp; apply elem_of_app; right; constructor).
  assert (Hget : pointers_ok s -> exists d, chunks s !! p = Some d) by (intros [Hok _]; apply (Hok p Hin)).
  cbv zeta in Ht. injection Ht as <- <-. split.
  - intros Hok. destruct (Hget Hok) as [d Hd]. rewrite (chunk_at_lookup _ _ _ Hd). destruct Hok as [Hok1 Hok2]. set (s' := mkScheduler _ _ _ _ _ _ _ _ _ _ _ _ _ _).
    assert (He : content s' = content s) by exact (content_update s s' p d (set_urgent d false) Hd eq_refl eq_refl eq_refl).
    split; [done|]. split; [done|]. split.
    + intros q Hq. eapply content_is_Some; [exact He|]. apply Hok1. rewrite Hp. cbn in Hq.
      rewrite elem_of_app, elem_of_cons. apply elem_of_app in Hq. tauto.
    + intros o out Ho. eapply content_is_Some; [exact He|]. cbn in Ho. apply lookup_insert_Some in Ho as [[<- <-]|[_ Ho]]; [|by eapply Hok2].
      cbn. destruct (live s !! c_Offset d) as [out|] eqn:El; cbn; [by eapply Hok2|by eexists].
  - intros Hok. destruct (Hget Hok) as [d Hd]. exists p. rewrite (chunk_at_lookup _ _ _ Hd). exact (content_lookup s p d Hd).
Qed.

Lemma release_chunks_calm visit : forall s s', (forall p, p ∈ visit -> is_Some (chunks s !! p)) ->
  release_chunks visit s = Some s' -> calm s s'.
Proof.
  induction visit as [|p visit IH]; intros s s' Hv Hr Hok; cbn in Hr; [by injection Hr as <-|].
  destruct (releaseChunkLocked s p) as [s1|] eqn:E1; [|done].
  pose proof (release_calm s p s1 (Hv p ltac:(constructor)) E1) as H1. destruct (H1 Hok) as (He & _).
  revert Hok. change (calm s s'). etransitivity; [exact H1|]. apply IH; [|done]. intros q Hq.
  eapply content_is_Some; [exact He|]. apply Hv. by constructor.
Qed.

Lemma Close_calm visit s s' : visit ≡ₚ elements (seen_chunks s) -> Stripe_Close visit s = Some s' -> calm s s'.
Proof.
  intros Hv Hc Hok. unfold Stripe_Close in Hc. destruct (s_closed s) eqn:Ecl; [injection Hc as <-; by apply calm_refl|]. set (s0 := mkScheduler _ _ _ _ _ _ _ _ _ _ _ _ _ _) in Hc.
  destruct (release_chunks visit s0) as [s1|] eqn:Er; [|done]. injection Hc as <-.
  assert (H0 : calm s s0).
  { apply calm_relink; try done; cbn; by eauto. }
  assert (H1 : calm s0 s1).
  { apply (release_chunks_calm visit s0 s1); [|done]. intros p Hp. rewrite Hv in Hp. apply elem_of_elements, seen_chunks_spec in Hp as [Hp|(o & out & Ho & <-)];
      [by apply Hok|by eapply Hok]. }
  assert (H2 : calm s1 (with_live (with_pending s1 []) ∅ (acct s1))).
  { apply calm_relink; cbn; [done|done|intros p Hp; by apply elem_of_nil in Hp|intros o out Ho; by rewrite lookup_empty in Ho]. }
  revert Hok. change (calm s (with_live (with_pending s1 []) ∅ (acct s1))). etransitivity; [exact H0|]. by etransitivity.
Qed.

(** ** The stream as the chunks cut it *)

Definition sealed (f : flow) : Prop := s_closed (sch f) = true \/ eof (sch f) = true.

(** [parts] are the reads of the source, in order. *)
Record cut (parts : list bytes) (f : flow) : Prop := mk_cut {
  cut_src : concat parts = src f;
  cut_nonempty : Forall (fun d => d <> []) parts;
  cut_store : forall p o d, content (sch f) !! p = Some (o, d) -> d <> [] -> exists i, parts !! i = Some d /\ o = chunk_offset parts i;
  cut_empty : forall p o d, content (sch f) !! p = Some (o, d) -> d = [] -> o = len (src f) /\ sealed f;
  cut_bytes : SourceBytes (s_stats (sch f)) = len (src f) /\ len (src f) < 2 ^ 63
}.

Lemma flow_pointers f : flow_inv f -> pointers_ok (sch f).
Proof.
  intros [_ [Hc|[Hs _]]].
  - split; [rewrite (ci_pending _ _ _ _ Hc); intros p Hp; by apply elem_of_nil in Hp|].
    rewrite (ci_live _ _ _ _ Hc). intros o out Ho. by rewrite lookup_empty in Ho.
  - destruct (si_queue _ _ _ _ _ Hs) as [Hl Hp _ _ _]. split.
    + intros p Hin. destruct (Hp p Hin) as (c & Hc & _). by eexists.
    + intros o out Ho. destruct (Hl o out Ho) as (c & Hc & _). by eexists.
Qed.

Lemma chunk_offset_app parts d i : (i <= length parts)%nat -> chunk_offset (parts ++ [d]) i = chunk_offset parts i.
Proof. intros Hi. unfold chunk_offset. by rewrite take_app_le. Qed.

(** Steps that leave the chunks alone. *)
Lemma cut_told parts s s' pr pr' sr ak ak' e e' :
  cut parts (mkFlow s pr sr ak e) -> content s' = content s -> told s s' -> cut parts (mkFlow s' pr' sr ak' e').
Proof.
  intros [H1 H2 H3 H4 H5] He (Hb & Hcl & Heof). cbn in *. split; cbn; [done|done| | |by rewrite Hb]; rewrite He; [done|].
  intros p o d Hp Hd. destruct (H4 p o d Hp Hd) as [Ho Hse]. split; [done|]. unfold sealed in *. cbn in *. tauto.
Qed.

Lemma signal_told s : content (signalIfDoneLocked s) = content s /\ told s (signalIfDoneLocked s).
Proof. unfold signalIfDoneLocked. by destruct (doneLocked s). Qed.

(** A read makes a chunk at the end of the stream. *)
Lemma cut_read parts s s' k d pr pr' sr ak ak' e e' :
  cut parts (mkFlow s pr sr ak e) -> ~ sealed (mkFlow s pr sr ak e) -> content s' = <[k := (len sr, d)]> (content s) -> d <> [] ->
  SourceBytes (s_stats s') = len sr + len d -> len sr + len d < 2 ^ 63 -> cut (parts ++ [d]) (mkFlow s' pr' (sr ++ d) ak' e').
Proof.
  intros [H1 H2 H3 H4 H5] Hns He Hd Hb Hlt. cbn in *. split; cbn.
  - rewrite concat_app. cbn. by rewrite app_nil_r, H1.
  - apply Forall_app. split; [done|]. by constructor.
  - rewrite He. intros p o x Hp Hx. apply lookup_insert_Some in Hp as [[_ [= <- <-]]|[_ Hp]].
    + exists (length parts). split; [by rewrite list_lookup_middle|]. rewrite chunk_offset_app by done. by rewrite chunk_offset_full, H1.
    + destruct (H3 p o x Hp Hx) as (i & Hi & ->). exists i. pose proof (lookup_lt_Some _ _ _ Hi).
      split; [by apply lookup_app_l_Some|]. symmetry. apply chunk_offset_app. lia.
  - rewrite He. intros p o x Hp Hx. apply lookup_insert_Some in Hp as [[_ [= <- <-]]|[_ Hp]]; [done|].
    by destruct (H4 p o x Hp Hx).
  - by rewrite len_app.
Qed.

(** The end of the source may make an empty one. *)
Lemma cut_markEOF parts s pr pr' sr ak ak' e e' :
  cut parts (mkFlow s pr sr ak e) -> pointers_ok s -> s_nextOffset s = len sr -> cut parts (mkFlow (markEOFLocked s) pr' sr ak' e').
Proof.
  intros Hcut [Hok _] Hn. unfold markEOFLocked. cbv zeta. destruct (last (pending (with_end s true (srcErr s) (finished s)))) as [p|] eqn:El.
  - cbn in El. apply last_Some_elem_of in El. destruct (Hok p El) as [c Hc].
    set (s1 := with_end s true (srcErr s) (finished s)). assert (Hc1 : chunks s1 !! p = Some c) by done. rewrite (chunk_at_lookup _ _ _ Hc1).
    eapply cut_told; [exact Hcut| |by repeat split]. by apply (content_update s _ p c (set_final c)).
  - destruct Hcut as [H1 H2 H3 H4 H5]. cbn in *. set (s' := alloc_chunk _ _).
    assert (He : content s' = <[next_address s := (len sr, [])]> (content s)) by (unfold content, s'; cbn; by rewrite fmap_insert, Hn).
    split; cbn [sch src]; [done|done| | |done]; rewrite He; intros q o d Hq Hd; apply lookup_insert_Some in Hq as [[_ [= <- <-]]|[_ Hq]].
    + done.
    + by eapply H3.
    + split; [done|]. by right.
    + split; [by eapply H4|]. by right.
Qed.

Lemma produce_read_cut parts s s' data r pr pr' sr ak ak' e e' :
  cut parts (mkFlow s pr sr ak e) -> ~ sealed (mkFlow s pr sr ak e) -> pointers_ok s -> s_nextOffset s = len sr ->
  (forall c, chunks s !! next_address s <> Some c) -> len sr + len data < 2 ^ 63 -> produce_read s data r = Some s' ->
  exists parts', cut parts' (mkFlow s' pr' (sr ++ data) ak' e') /\ (data = [] /\ parts' = parts \/ data <> [] /\ parts' = parts ++ [data]).
Proof.
  intros Hcut Hns Hok Hn Hfresh Hlen Hr. unfold produce_read in Hr.
  assert (Hop : s_closed s = false) by (destruct (s_closed s) eqn:E; [destruct Hns; by left|done]). rewrite Hop in Hr. cbv zeta in Hr.
  destruct (if len data >? 0 then _ else _) as [s1|] eqn:E1; [|done].
  assert (H1 : exists parts', cut parts' (mkFlow s1 pr (sr ++ data) ak e) /\ pointers_ok s1 /\ s_nextOffset s1 = len (sr ++ data) /\
    (data = [] /\ parts' = parts \/ data <> [] /\ parts' = parts ++ [data])).
  { rewrite len_app. destruct (len data >? 0) eqn:El; bool_to_prop.
    - assert (Hd : data <> []) by (intros ->; unfold len in El; cbn in El; lia). exists (parts ++ [data]). injection E1 as <-.
      pose proof (len_nonneg sr) as Hl. split; [|split; [|split; [|by right]]].
      + eapply (cut_read parts s _ (next_address s) data); [exact Hcut|done| |done| |done].
        * unfold content. cbn. by rewrite fmap_insert, Hn.
        * pose proof (cut_bytes _ _ Hcut) as [Hb _]. cbn in Hb |- *. rewrite Hb. unfold wrap. apply Z.mod_small. pow2_eval. lia.
      + destruct Hok as [Hok1 Hok2]. split; cbn.
        * intros p Hp. apply elem_of_app in Hp as [Hp|Hp].
          -- destruct (Hok1 p Hp) as [c Hc]. exists c. rewrite lookup_insert_ne; [done|]. intros <-. by eapply Hfresh.
          -- apply list_elem_of_singleton in Hp as ->. rewrite lookup_insert_eq. by eexists.
        * intros o out Ho. destruct (Hok2 o out Ho) as [c Hc]. exists c. rewrite lookup_insert_ne; [done|]. intros Heq. rewrite <- Heq in Hc. by eapply Hfresh.
      + cbn. rewrite Hn. unfold wrap. apply Z.mod_small. pow2_eval. lia.
    - assert (data = []) as -> by (apply len_zero_nil; pose proof (len_nonneg data); lia). exists parts.
      destruct (Budget_Release _ _) as [m|]; [|done]. injection E1 as <-. rewrite app_nil_r, len_nil, Z.add_0_r.
      split; [by eapply cut_told|]. split; [done|]. split; [done|]. by left. }
  destruct H1 as (parts' & Hc1 & Hok1 & Hn1 & Hp). exists parts'. split; [|done]. destruct r as [| |err]; injection Hr as <-.
  - by eapply cut_told.
  - destruct (signal_told (markEOFLocked s1)) as [He Ht]. eapply (cut_told _ (markEOFLocked s1)); [|exact He|exact Ht]. by eapply cut_markEOF.
  - destruct (signal_told (with_end s1 true (Some err) (finished s1))) as [He Ht].
    eapply cut_told; [exact Hc1|by rewrite He|]. by etransitivity; [|exact Ht].
  Unshelve. all: try exact pr; try exact ak; exact e.
Qed.

(** What one step of the scheduler does to the stream. *)
Definition extends (parts parts' : list bytes) (f f' : flow) : Prop :=
  (parts' = parts \/ ~ sealed f /\ exists d, parts' = parts ++ [d]) /\ (sealed f -> sealed f').

Lemma extends_told parts s s' pr pr' sr sr' ak ak' e e' :
  told s s' -> extends parts parts (mkFlow s pr sr ak e) (mkFlow s' pr' sr' ak' e').
Proof. intros (_ & H1 & H2). split; [by left|]. unfold sealed. cbn. tauto. Qed.

Lemma cut_calm_step parts s s' pr pr' sr ak ak' e e' :
  cut parts (mkFlow s pr sr ak e) -> pointers_ok s -> calm s s' ->
  exists parts', cut parts' (mkFlow s' pr' sr ak' e') /\ extends parts parts' (mkFlow s pr sr ak e) (mkFlow s' pr' sr ak' e').
Proof.
  intros Hc Hok Hs. exists parts. destruct (Hs Hok) as (He & Ht & _). split; [by eapply cut_told|by apply extends_told].
Qed.

Lemma cut_step parts f f' :
  flow_inv f -> cut parts f -> fstep f f' -> exists parts', cut parts' f' /\ extends parts parts' f f'.
Proof.
  intros Hinv Hcut Hst. pose proof (flow_pointers f Hinv) as Hok. destruct Hst; cbn [sch] in Hok;
    try (by eapply cut_calm_step; [exact Hcut|exact Hok|eauto using calm_with_memory, calm_refl, Wrote_calm, Fail_calm, Retire_calm, Below_calm, Expired_calm, Complete_calm, Close_calm]).
  - eapply cut_calm_step; [exact Hcut|exact Hok|]. unfold produce_unreserved. destruct (negb _); [by apply calm_with_end|done].
  - match goal with H : produce_read _ _ _ = _ |- _ => rename H into Hr end.
    match goal with H : _ + _ < 2 ^ 63 |- _ => rename H into Hlen end.
    destruct (s_closed s) eqn:Ecl.
    + unfold produce_read in Hr. rewrite Ecl in Hr. destruct (Budget_Release _ _) as [m|]; [|done]. injection Hr as <-.
      eapply cut_calm_step; [exact Hcut|exact Hok|apply calm_with_memory].
    + destruct Hinv as [_ [Hc|[Hs Hpr]]]; cbn in *; [by rewrite (ci_closed _ _ _ _ Hc) in Ecl|].
      assert (Hns : ~ sealed (mkFlow s Reading sr ak e)).
      { intros [Hx|Hx]; cbn in Hx; [congruence|]. by specialize (Hpr Hx). }
      destruct (produce_read_cut parts s s' data r Reading (producer_after s r) sr ak ak e e Hcut Hns Hok (proj1 (si_next _ _ _ _ _ Hs))) as (parts' & Hc' & Hp);
        [|done|done|].
      { intros c Hc. pose proof (st_addr _ _ _ _ (si_store _ _ _ _ _ Hs) _ _ Hc). lia. }
      exists parts'. split; [done|]. split; [|done]. destruct Hp as [[_ ->]|[_ ->]]; [by left|right]. by eauto.
  - match goal with H : Next_pass _ _ _ _ _ = _ |- _ => apply Next_calm in H as [H _] end. by eapply cut_calm_step.
Qed.

Lemma cut_start cfg m : cut [] (flow_start cfg m).
Proof.
  split; cbn; try done; intros p o d Hp; unfold content in Hp; cbn in Hp; by rewrite fmap_empty, lookup_empty in Hp.
Qed.

(** ** The receiver *)

(** What the receiver knows of the stream; [fin] says the FIN has been sent. *)
Record rx_ok (parts : list bytes) (fin : bool) (r : Reassembler) (d : bytes) : Prop := mk_rx_ok {
  ro_inv : rx_inv (concat parts) (mk_rx r d []);
  ro_rc : rx_complete parts (mk_rx r d []);
  ro_nofin : fin = false -> finalAt r = None /\ forall k s, buffer r !! k = Some s -> Final s = false
}.

Lemma nofin_insert (fin : bool) r seg owned res r' :
  rinv r -> segment_typed seg -> (Final seg = true -> fin = true) -> Reassembler_insert r seg owned = Some (res, r') -> fin = false ->
  (finalAt r = None /\ forall k s, buffer r !! k = Some s -> Final s = false) ->
  finalAt r' = None /\ forall k s, buffer r' !! k = Some s -> Final s = false.
Proof.
  intros Hr Ht Hseg He Hn [Hf Hb]. destruct (insert_spec r seg owned Hr Ht) as (res1 & r1 & He1 & _ & Hins).
  rewrite He in He1. injection He1 as <- <-. assert (Hs : Final seg = false) by (destruct (Final seg); [by rewrite Hseg in Hn|done]).
  inversion Hins; subst; try done.
  - split; cbn; [by rewrite Hs|]. intros k s Hk. apply lookup_insert_Some in Hk as [[<- <-]|[_ Hk]]; [done|by eapply Hb].
  - match goal with H : drained _ _ _ _ |- _ => destruct H as [_ _ _ Hk _ Hfin _ _] end. split.
    + destruct Hfin as [->|(s & Hs1 & [->|Hs2] & _)]; [done|congruence|]. by rewrite (Hb _ _ Hs2) in Hs1.
    + intros k s Hks. by eapply Hb, Hk.
Qed.

Lemma rx_complete_forget parts r d acc : rx_complete parts (mk_rx r d acc) -> rx_complete parts (mk_rx r d []).
Proof. intros [H1 H2 H3 _ H5]. split; try done. intros s Hs. by apply elem_of_nil in Hs. Qed.

Lemma rx_ok_insert parts (fin : bool) r d seg owned out c e r' :
  rx_ok parts fin r d -> segment_typed seg -> piece parts seg -> (Final seg = true -> fin = true) ->
  Reassembler_insert r seg owned = Some ((out, c, e), r') ->
  rx_ok parts fin r' (d ++ out) /\ (c = true -> fin = true /\ next r' = len (concat parts)) /\ (e <> None -> out = []).
Proof.
  intros [H1 H2 H3] Ht Hp Hfin He. pose proof (rx_rinv _ _ H1) as Hr. cbn in Hr.
  pose proof (rx_insert (agrees (concat parts)) r d [] seg owned out c e r' Ht (piece_agrees _ _ Hp) He) as S1.
  pose proof (rx_insert (piece parts) r d [] seg owned out c e r' Ht Hp He) as S2.
  apply (rx_inv_step _ _ _ H1) in S1. apply (rx_complete_step _ _ _ H2), rx_complete_forget in S2.
  assert (Hok : rx_ok parts fin r' (d ++ out)).
  { split; [by destruct S1|done|]. intros Hn. by eapply nofin_insert; [exact Hr|exact Ht|exact Hfin|exact He|done|apply H3]. }
  split; [done|]. destruct (insert_spec r seg owned Hr Ht) as (res1 & r1 & He1 & _ & Hins).
  rewrite He in He1. injection He1 as <- <-.
  assert (Hc : c = true -> Reassembler_Closed r' = true) by (intros ->; inversion Hins; done).
  split; [|by inversion Hins]. intros Hct. specialize (Hc Hct). unfold Reassembler_Closed in Hc.
  destruct (finalAt r') as [a|] eqn:Ea; [|done]. bool_to_prop. split.
  - destruct fin; [done|]. destruct (ro_nofin _ _ _ _ Hok eq_refl) as [Hf _]. congruence.
  - pose proof (rx_fin _ _ S1 a Ea) as ->. pose proof (boundary_le _ _ (rc_next _ _ S2)) as Hle. cbn in Hle. lia.
Qed.

(** The stream grows while no FIN has been sent. *)
Lemma piece_grows parts d s : piece parts s -> Final s = false -> piece (parts ++ [d]) s.
Proof.
  unfold piece. intros Hp Hf. rewrite Hf in *. destruct Hp as (i & Hi & ->). exists i. pose proof (lookup_lt_Some _ _ _ Hi).
  split; [by apply lookup_app_l_Some|]. symmetry. apply chunk_offset_app. lia.
Qed.

Lemma rx_ok_grows parts d r out : rx_ok parts false r out -> rx_ok (parts ++ [d]) false r out.
Proof.
  intros [[Hr Hb Ho Hl Hf] [_ Hp Hn _ _] H3]. cbn [rx_r rx_delivered] in *. destruct (H3 eq_refl) as [Hnf Hnb]. split; [| |done].
  - split; cbn [rx_r rx_delivered]; [done| | |done|by rewrite Hnf].
    + intros k s Hk. eapply piece_agrees, piece_grows; [by eapply Hp|by eapply Hnb].
    + rewrite Ho, concat_app. rewrite take_app_le; [done|]. apply boundary_le in Hn. cbn in Hn. unfold len in Hn. lia.
  - split; cbn [rx_r rx_delivered rx_accepted]; [done| | |intros s Hs; by apply elem_of_nil in Hs|].
    + intros k s Hk. apply piece_grows; [by eapply Hp|by eapply Hnb].
    + destruct Hn as (i & Hi & ->). exists i. rewrite length_app. split; [cbn; lia|]. symmetry. by apply chunk_offset_app.
    + intros k s Hk Hs. by rewrite (Hnb k s Hk) in Hs.
Qed.

Lemma rx_ok_memory parts fin r d m : rx_ok parts fin r d -> budget_covers m (r_bytes r) -> rx_ok parts fin (set_memory r m) d.
Proof.
  intros [H1 H2 H3] Hm. split; [|apply (rx_complete_step _ _ _ H2); by constructor|done].
  apply (rx_inv_step _ _ _ H1). by constructor.
Qed.

Lemma chunk_offset_le parts i j : (i <= j)%nat -> chunk_offset parts i <= chunk_offset parts j.
Proof.
  intros Hij. unfold chunk_offset. rewrite <- (take_drop i (take j parts)), concat_app, len_app, take_take.
  rewrite Nat.min_l by done. pose proof (len_nonneg (concat (drop i (take j parts)))). lia.
Qed.

Lemma chunk_offset_end parts i d : parts !! i = Some d -> chunk_offset parts i + len d <= len (concat parts).
Proof.
  intros Hi. rewrite <- (chunk_offset_S _ _ _ Hi), <- chunk_offset_full. apply chunk_offset_le. by apply lookup_lt_Some in Hi.
Qed.

(** Once every byte has been received the cursor is at the end. *)
Lemma rx_ok_all parts fin r d :
  rx_ok parts fin r d -> Forall (fun d => d <> []) parts -> (forall x, 0 <= x < len (concat parts) -> received r x) ->
  next r = len (concat parts) /\ d = concat parts.
Proof.
  intros [H1 H2 _] Hne Hall. destruct (rx_rinv _ _ H1) as [_ _ _ _ _ _ _ [Hn0 Hnone] _]. cbn in *.
  destruct (rc_next _ _ H2) as (i & Hi & Hn). cbn in Hn.
  assert (Hend : next r = len (concat parts)).
  { destruct (decide (i < length parts)%nat) as [Hlt|Hge]; [|rewrite Hn, <- chunk_offset_full; f_equal; lia]. exfalso.
    destruct (lookup_lt_is_Some_2 _ _ Hlt) as [d0 Hd0]. rewrite Forall_lookup in Hne. specialize (Hne _ _ Hd0).
    pose proof (chunk_offset_end _ _ _ Hd0) as Hle. assert (0 < len d0) by (destruct d0; [done|rewrite len_cons; pose proof (len_nonneg d0); lia]).
    destruct Hn0 as [Hn0 _]. destruct (Hall (next r) ltac:(lia)) as [Hx|(k & s & Hk & Hx)]; [lia|].
    pose proof (rc_buf _ _ H2 k s Hk) as Hp. destruct (ri_seg r (rx_rinv _ _ H1) k s Hk) as [(Hks & _ & _ & Hpay) _].
    unfold piece in Hp. destruct (Final s); [rewrite Hpay, len_nil in Hx; lia|]. destruct Hp as (j & Hj & Hs). rewrite Hks in Hs.
    pose proof (chunk_offset_S _ _ _ Hj) as HS. assert (j = i) as ->.
    { destruct (decide (j < i)%nat) as [Hji|Hji]; [pose proof (chunk_offset_le parts (S j) i ltac:(lia)); lia|].
      destruct (decide (i < j)%nat) as [Hij|Hij]; [|lia]. pose proof (chunk_offset_le parts (S i) j ltac:(lia)).
      rewrite (chunk_offset_S _ _ _ Hd0) in *. lia. }
    rewrite Hs, <- Hn in Hk. congruence. }
  split; [done|]. pose proof (rx_out _ _ H1) as Ho. cbn in Ho. rewrite Ho, Hend. apply take_ge. unfold len. lia.
Qed.

(** ** The invariant of a transfer *)

Definition completing (w : watcher) : list outstandingChunk := match w with Completing l => l | _ => [] end.

Definition all_chunks (T : transfer) : list outstandingChunk := t_hand T ++ t_queued T ++ t_out T ++ completing (t_watch T).

Definition fin_sent (T : transfer) : bool := match t_fin T with Some _ => true | None => false end.

(** A copy of a chunk of the stream, or of the empty one behind it. *)
Definition known_chunk (parts : list bytes) (f : flow) (c : Chunk) : Prop :=
  (c_Data c <> [] -> exists i, parts !! i = Some (c_Data c) /\ c_Offset c = chunk_offset parts i) /\
  (c_Data c = [] -> c_Offset c = len (concat parts) /\ sealed f).

Definition range_received (r : Reassembler) (start n : Z) : Prop := forall x, start <= x < start + n -> received r x.

Definition acked_ok (parts : list bytes) (f : flow) (r : Reassembler) (o : Z) : Prop :=
  (exists i d, parts !! i = Some d /\ o = chunk_offset parts i /\ range_received r o (len d)) \/ (o = len (concat parts) /\ sealed f).

Definition wire_ok (id : flow_id) (parts : list bytes) (sent : Z) (fin : bool) (fr : Frame) : Prop :=
  h_SessionID (f_Header fr) = fl_session id /\ h_FlowID (f_Header fr) = fl_flow id /\
  ((h_Type (f_Header fr) = TypeData /\
    exists i, parts !! i = Some (f_Payload fr) /\ h_Sequence (f_Header fr) = chunk_offset parts i /\
      h_Sequence (f_Header fr) + len (f_Payload fr) <= sent) \/
   (h_Type (f_Header fr) = TypeClose /\ h_Flags (f_Header fr) = FlagFin /\ f_Payload fr = [] /\ fin = true /\
    h_Sequence (f_Header fr) = len (concat parts))).

Definition ack_ok (parts : list bytes) (fin : bool) (fr : Frame) : Prop :=
  Z.land (h_Flags (f_Header fr)) FlagAckFinal <> 0 -> fin = true /\ h_Sequence (f_Header fr) = len (concat parts).

Record tinv (id : flow_id) (direction : Z) (parts : list bytes) (T : transfer) : Prop := mk_tinv {
  ti_flow : flow_inv (t_flow T);
  ti_cut : cut parts (t_flow T);
  ti_known : forall lane c, (lane, c) ∈ all_chunks T -> known_chunk parts (t_flow T) c;
  ti_done : forall lane c, (lane, c) ∈ completing (t_watch T) -> range_received (v_r (t_rx T)) (c_Offset c) (len (c_Data c));
  ti_snap : forall sn, t_watch T = Holding sn -> forall start stop, covers sn start stop = true ->
    forall x, start <= x < stop -> received (v_r (t_rx T)) x;
  ti_fin : fin_sent T = true ->
    sealed (t_flow T) /\ finSequence (t_tx T) = len (concat parts) /\ len (concat parts) <= highestSent (t_tx T);
  ti_wire : Forall (wire_ok id parts (highestSent (t_tx T)) (fin_sent T)) (t_wire T);
  ti_acks : Forall (ack_ok parts (fin_sent T)) (t_acks T);
  ti_link : link_inv direction (mkLink (v_r (t_rx T)) (v_ack (t_rx T)) (v_last (t_rx T)) (t_acks T) (t_tx T));
  ti_rx : rx_ok parts (fin_sent T) (v_r (t_rx T)) (v_inner (t_rx T));
  ti_remote : v_remoteFin (t_rx T) = true -> next (v_r (t_rx T)) = len (concat parts) /\ fin_sent T = true;
  ti_acked : forall o, o ∈ StripeInv.acked (t_flow T) -> acked_ok parts (t_flow T) (v_r (t_rx T)) o
}.

(** *** Growth of the stream *)

Lemma lookup_grows (parts : list bytes) d i x :
  parts !! i = Some x -> (parts ++ [d]) !! i = Some x /\ chunk_offset (parts ++ [d]) i = chunk_offset parts i.
Proof.
  intros Hi. pose proof (lookup_lt_Some _ _ _ Hi). split; [by apply lookup_app_l_Some|]. apply chunk_offset_app. lia.
Qed.

Lemma known_grows parts parts' f f' c : extends parts parts' f f' -> known_chunk parts f c -> known_chunk parts' f' c.
Proof.
  intros [[->|[Hn [d ->]]] Hs] [H1 H2].
  - split; [done|]. intros Hc. destruct (H2 Hc). auto.
  - split; [|intros Hc; by destruct (H2 Hc)]. intros Hc. destruct (H1 Hc) as (i & Hi & Ho). exists i.
    destruct (lookup_grows _ d _ _ Hi) as [? ->]. done.
Qed.

Lemma acked_grows parts parts' f f' r o : extends parts parts' f f' -> acked_ok parts f r o -> acked_ok parts' f' r o.
Proof.
  intros [[->|[Hn [d ->]]] Hs] [(i & x & Hi & Ho & Hr)|[Ho Hse]].
  - left. by exists i, x.
  - right. auto.
  - left. exists i, x. destruct (lookup_grows _ d _ _ Hi) as [? ->]. done.
  - done.
Qed.

Lemma wire_grows id parts parts' f f' sent fin fr :
  extends parts parts' f f' -> (fin = true -> sealed f) -> wire_ok id parts sent fin fr -> wire_ok id parts' sent fin fr.
Proof.
  intros [[->|[Hn [d ->]]] _] Hf; [done|]. intros (Hs & Hi & H). split; [done|]. split; [done|].
  destruct H as [(Ht & i & Hp & Ho & Hl)|(_ & _ & _ & Hfin & _)]; [|by destruct Hn; auto]. left. split; [done|].
  exists i. destruct (lookup_grows _ d _ _ Hp) as [? ->]. done.
Qed.

Lemma ack_grows parts parts' f f' fin fr :
  extends parts parts' f f' -> (fin = true -> sealed f) -> ack_ok parts fin fr -> ack_ok parts' fin fr.
Proof. intros [[->|[Hn _]] _] Hf Ha; [done|]. intros Hfl. destruct (Ha Hfl) as [Hfin _]. by destruct Hn; auto. Qed.

(** A step of the scheduler, which may complete chunks that have arrived. *)
Lemma tinv_flow id direction parts f f' h q o w fin wire t acks v e :
  tinv id direction parts (mkTransfer f h q o w fin wire t acks v e) -> fstep f f' ->
  (forall x, x ∈ StripeInv.acked f' -> x ∈ StripeInv.acked f \/ acked_ok parts f (v_r v) x) ->
  exists parts', tinv id direction parts' (mkTransfer f' h q o w fin wire t acks v e).
Proof.
  intros [H1 H2 H3 H4 H5 H6 H7 H8 H9 H10 H11 H12] Hst Hak. cbn [t_flow t_watch t_rx t_tx t_wire t_acks] in *.
  destruct (cut_step parts f f' H1 H2 Hst) as (parts' & Hc & Hx). exists parts'.
  assert (Hfs : fin_sent (mkTransfer f h q o w fin wire t acks v e) = true -> sealed f) by (intros Hf; by apply H6).
  change (fin_sent (mkTransfer f' h q o w fin wire t acks v e)) with (fin_sent (mkTransfer f h q o w fin wire t acks v e)) in *.
  set (F := fin_sent _) in *.
  split; cbn [t_flow t_watch t_rx t_tx t_wire t_acks]; try done.
  - by eapply flow_inv_step.
  - intros lane c Hin. eapply known_grows; [exact Hx|]. by eapply H3.
  - intros Hf. destruct (H6 Hf) as (Hse & H6b). destruct Hx as [[->|[Hn _]] Hss]; [auto|done].
  - eapply Forall_impl; [exact H7|]. intros fr. by eapply wire_grows.
  - eapply Forall_impl; [exact H8|]. intros fr. by eapply ack_grows.
  - destruct Hx as [[->|[Hn [d ->]]] _]; [done|]. change (rx_ok (parts ++ [d]) F (v_r v) (v_inner v)).
    destruct F; [by destruct Hn; auto|]. by apply rx_ok_grows.
  - intros Hrf. destruct (H11 Hrf) as [Hn Hf]. destruct Hx as [[->|[Hns _]] _]; [done|]. by destruct Hns; auto.
  - intros x Hin. eapply acked_grows; [exact Hx|]. destruct (Hak x Hin) as [Hx0|Hx0]; [by apply H12|done].
Qed.

(** *** The sender's steps *)

Lemma tinv_lists id direction parts f h q o h' q' o' w fin wire t acks v e :
  tinv id direction parts (mkTransfer f h q o w fin wire t acks v e) ->
  (forall x, x ∈ h' ++ q' ++ o' -> x ∈ h ++ q ++ o \/ known_chunk parts f (snd x)) ->
  tinv id direction parts (mkTransfer f h' q' o' w fin wire t acks v e).
Proof.
  intros [H1 H2 H3 H4 H5 H6 H7 H8 H9 H10 H11 H12] Hsub. split; try done. unfold all_chunks in *.
  cbn [t_flow t_hand t_queued t_out t_watch] in *. intros lane c Hin. rewrite !app_assoc in Hin. apply elem_of_app in Hin as [Hin|Hin].
  - rewrite <- app_assoc in Hin. destruct (Hsub _ Hin) as [Hx|Hx]; [|done]. apply (H3 lane).
    rewrite !app_assoc. apply elem_of_app. left. by rewrite <- app_assoc.
  - apply (H3 lane). rewrite !app_assoc. apply elem_of_app. by right.
Qed.

Lemma tinv_hand id direction parts f h q o w fin wire t acks v e lane c :
  tinv id direction parts (mkTransfer f h q o w fin wire t acks v e) -> known_chunk parts f c ->
  tinv id direction parts (mkTransfer f ((lane, c) :: h) q o w fin wire t acks v e).
Proof.
  intros Hi Hk. eapply tinv_lists; [exact Hi|]. intros x Hx. cbn in Hx. apply elem_of_cons in Hx as [->|Hx]; [by right|by left].
Qed.

(** A larger record of what was sent. *)
Lemma tinv_note id direction parts f h q o w fin wire t acks v e sequence n :
  tinv id direction parts (mkTransfer f h q o w fin wire t acks v e) -> is_direction direction ->
  0 <= sequence -> 0 <= n -> sequence + n < 2 ^ 64 ->
  tinv id direction parts (mkTransfer f h q o w fin wire (noteSent t sequence n) acks v e).
Proof.
  intros [H1 H2 H3 H4 H5 H6 H7 H8 H9 H10 H11 H12] Hd H0 Hn Hlt. cbn [t_flow t_watch t_rx t_tx t_wire t_acks] in *.
  destruct (noteSent_highest t sequence n) as [Hh _]. split; cbn [t_flow t_watch t_rx t_tx t_wire t_acks]; try done.
  - intros Hf. destruct (H6 Hf) as (? & Hfs & ?). split; [done|]. split; [|lia]. unfold noteSent. by destruct (_ >? _).
  - eapply Forall_impl; [exact H7|]. intros fr (Hs & Hi & Hx). split; [done|]. split; [done|].
    destruct Hx as [(Ht & i & Hp & Ho & Hl)|Hx]; [left; split; [done|]; exists i; repeat split; try done; lia|by right].
  - eapply link_inv_step; [exact Hd|exact H9|]. by apply (lk_send id).
Qed.

Lemma tinv_wire id direction parts f h q o w fin wire t acks v e fr :
  tinv id direction parts (mkTransfer f h q o w fin wire t acks v e) ->
  wire_ok id parts (highestSent t) (match fin with Some _ => true | None => false end) fr ->
  tinv id direction parts (mkTransfer f h q o w fin (fr :: wire) t acks v e).
Proof. intros [H1 H2 H3 H4 H5 H6 H7 H8 H9 H10 H11 H12] Hw. split; try done. by constructor. Qed.

Lemma known_bounds parts f c : cut parts f -> known_chunk parts f c ->
  0 <= c_Offset c /\ c_Offset c + len (c_Data c) <= len (concat parts) /\ len (concat parts) < 2 ^ 63.
Proof.
  intros Hc [H1 H2]. destruct (cut_bytes _ _ Hc) as [_ Hb]. rewrite (cut_src _ _ Hc). rewrite <- (cut_src _ _ Hc) in *. split; [|split; [|done]].
  - destruct (c_Data c) eqn:E; [destruct (H2 eq_refl) as [-> _]; apply len_nonneg|destruct (H1 ltac:(done)) as (i & _ & ->); apply len_nonneg].
  - destruct (c_Data c) eqn:E; [destruct (H2 eq_refl) as [-> _]; rewrite len_nil; lia|].
    destruct (H1 ltac:(done)) as (i & Hi & ->). by apply chunk_offset_end.
Qed.

Lemma tinv_send id direction parts f h q o w fin wire t acks v e lane c fr t' :
  tinv id direction parts (mkTransfer f h q o w fin wire t acks v e) -> is_direction direction -> (lane, c) ∈ h -> sendChunk id c t = (fr, t') ->
  tinv id direction parts (mkTransfer f h q o w fin wire t' acks v e) /\
  tinv id direction parts (mkTransfer f h q o w fin (cons_opt fr wire) t' acks v e).
Proof.
  intros Hi Hd Hin Hs. assert (Hk : known_chunk parts f c).
  { apply (ti_known _ _ _ _ Hi lane). unfold all_chunks. cbn. apply elem_of_app. by left. }
  unfold sendChunk in Hs. destruct (len (c_Data c) =? 0) eqn:El; injection Hs as <- <-; [done|]. bool_to_prop.
  destruct (known_bounds parts f c (ti_cut _ _ _ _ Hi) Hk) as (H0 & H1 & H2). pose proof (len_nonneg (c_Data c)) as Hl.
  assert (Hn : tinv id direction parts (mkTransfer f h q o w fin wire (noteSent t (c_Offset c) (len (c_Data c))) acks v e))
    by (apply tinv_note; try done; pow2_eval; lia).
  split; [done|]. apply tinv_wire; [done|]. split; [done|]. split; [done|]. left. split; [done|]. cbn.
  assert (Hne : c_Data c <> []) by (intros E; by rewrite E in El). destruct (proj1 Hk Hne) as (i & Hp & Ho). exists i. split; [done|]. split; [done|].
  unfold noteSent, wrap. rewrite Z.mod_small by (pow2_eval; lia). destruct (_ >? _) eqn:Eg; cbn; bool_to_prop; lia.
Qed.

(** *** Tracking and completing *)

Lemma retrack_elem lane c : forall l l', retrack lane c l = Some l' -> forall x, x ∈ l' -> x ∈ l \/ x = (lane, c).
Proof.
  induction l as [|y l IH]; intros l' H x Hx; cbn in H; [done|]. destruct (_ =? _).
  - injection H as <-. apply elem_of_cons in Hx as [->|Hx]; [by right|left; by constructor].
  - destruct (retrack lane c l) as [l0|]; [|done]. injection H as <-. apply elem_of_cons in Hx as [->|Hx]; [left; constructor|].
    destruct (IH _ eq_refl x Hx) as [|]; [left; by constructor|by right].
Qed.

Lemma trackChunk_elem lane c o t o' t' : trackChunk lane c o t = (o', t') ->
  (forall x, x ∈ o' -> x ∈ o \/ x = (lane, c)) /\ (t' = t \/ t' = set_tracker t (Touch (ackTrack t))).
Proof.
  unfold trackChunk. destruct (retrack lane c o) as [l|] eqn:E; intros [= <- <-].
  - split; [by apply retrack_elem|by left].
  - split; [|destruct (Covered _ _ _); [by right|by left]]. intros x Hx. apply elem_of_app in Hx as [Hx|Hx]; [by left|].
    apply list_elem_of_singleton in Hx. by right.
Qed.

Lemma tinv_touch id direction parts f h q o w fin wire t acks v e :
  tinv id direction parts (mkTransfer f h q o w fin wire t acks v e) ->
  tinv id direction parts (mkTransfer f h q o w fin wire (set_tracker t (Touch (ackTrack t))) acks v e).
Proof.
  intros [H1 H2 H3 H4 H5 H6 H7 H8 [L1 L2 L3 L4 L5 L6 [L7 L8]] H10 H11 H12]. split; try done.
Qed.

Lemma covers_received id direction parts f h q o w fin wire t acks v e start stop :
  tinv id direction parts (mkTransfer f h q o w fin wire t acks v e) -> covers (tracker_Snapshot (ackTrack t)) start stop = true ->
  forall x, start <= x < stop -> received (v_r v) x.
Proof.
  intros Hi Hc x Hx. destruct (li_tx _ _ (ti_link _ _ _ _ Hi)) as [Hwf Hr]. cbn in Hwf, Hr. apply Hr.
  rewrite covers_coveredLocked in Hc. by apply (proj1 (coveredLocked_spec _ _ _ Hwf) Hc).
Qed.

Lemma tinv_holding id direction parts f h q o fin wire t acks v e :
  tinv id direction parts (mkTransfer f h q o Waiting fin wire t acks v e) ->
  tinv id direction parts (mkTransfer f h q o (Holding (tracker_Snapshot (ackTrack t))) fin wire t acks v e).
Proof.
  intros Hi. pose proof (fun start stop => covers_received _ _ _ _ _ _ _ _ _ _ _ _ _ _ start stop Hi) as Hcov.
  destruct Hi as [H1 H2 H3 H4 H5 H6 H7 H8 H9 H10 H11 H12]. split; try done. cbn.
  intros sn [= <-] start stop Hc. by apply Hcov.
Qed.

Lemma tinv_split id direction parts f h q o sn fin wire t acks v e completed kept :
  tinv id direction parts (mkTransfer f h q o (Holding sn) fin wire t acks v e) -> split_completed sn o = (completed, kept) ->
  tinv id direction parts (mkTransfer f h q kept (Completing completed) fin wire t acks v e).
Proof.
  intros Hi [= <- <-]. assert (Hkn : forall lane c, (lane, c) ∈ o -> known_chunk parts f c).
  { intros lane c Hin. apply (ti_known _ _ _ _ Hi lane). unfold all_chunks. cbn. rewrite !elem_of_app. tauto. }
  assert (Hcov : forall lane c, (lane, c) ∈ o -> is_covered sn (lane, c) = true -> range_received (v_r v) (c_Offset c) (len (c_Data c))).
  { intros lane c Hin Hc x Hx. destruct (known_bounds parts f c (ti_cut _ _ _ _ Hi) (Hkn _ _ Hin)) as (H0 & H1 & H2).
    pose proof (len_nonneg (c_Data c)). apply (ti_snap _ _ _ _ Hi sn eq_refl _ _ Hc). cbn [snd]. unfold Chunk_End, wrap.
    rewrite Z.mod_small by (pow2_eval; lia). done. }
  destruct Hi as [H1 H2 H3 H4 H5 H6 H7 H8 H9 H10 H11 H12]. split; try done; cbn [t_watch completing t_rx t_flow].
  - unfold all_chunks. cbn [t_hand t_queued t_out t_watch completing]. intros lane c Hin. rewrite !elem_of_app, !list_elem_of_filter in Hin.
    apply (H3 lane). unfold all_chunks. cbn. rewrite !elem_of_app. tauto.
  - intros lane c Hin. apply list_elem_of_filter in Hin as [Hc Hin]. by eapply Hcov.
Qed.

(** The chunk at the head of the list to complete has arrived. *)
Lemma completing_acked id direction parts f h q o lane c l fin wire t acks v e :
  tinv id direction parts (mkTransfer f h q o (Completing ((lane, c) :: l)) fin wire t acks v e) -> acked_ok parts f (v_r v) (c_Offset c).
Proof.
  intros Hi. assert (Hk : known_chunk parts f c).
  { apply (ti_known _ _ _ _ Hi lane). unfold all_chunks. cbn. rewrite !elem_of_app, elem_of_cons. tauto. }
  pose proof (ti_done _ _ _ _ Hi lane c ltac:(cbn; constructor)) as Hr. cbn in Hr. destruct Hk as [H1 H2].
  destruct (c_Data c) as [|x d] eqn:E; [right; auto|]. left. destruct (H1 ltac:(done)) as (i & Hp & Ho). by exists i, (x :: d).
Qed.

Lemma tinv_completed id direction parts f h q o lane c l fin wire t acks v e :
  tinv id direction parts (mkTransfer f h q o (Completing ((lane, c) :: l)) fin wire t acks v e) ->
  tinv id direction parts (mkTransfer f h q o (Completing l) fin wire t acks v e).
Proof.
  intros [H1 H2 H3 H4 H5 H6 H7 H8 H9 H10 H11 H12]. split; try done; cbn [t_watch completing t_rx t_flow] in *.
  - unfold all_chunks in *. cbn [t_hand t_queued t_out t_watch completing] in *. intros lane' c' Hin. apply (H3 lane').
    rewrite !elem_of_app, elem_of_cons in *. tauto.
  - intros lane' c' Hin. apply (H4 lane'). by constructor.
Qed.

Lemma tinv_waiting id direction parts f h q o fin wire t acks v e :
  tinv id direction parts (mkTransfer f h q o (Completing []) fin wire t acks v e) ->
  tinv id direction parts (mkTransfer f h q o Waiting fin wire t acks v e).
Proof. intros [H1 H2 H3 H4 H5 H6 H7 H8 H9 H10 H11 H12]. by split. Qed.

(** *** The end of the stream *)

Lemma chunk_offset_inj parts i j x y : Forall (fun d => d <> []) parts -> parts !! i = Some x -> parts !! j = Some y ->
  chunk_offset parts i = chunk_offset parts j -> i = j.
Proof.
  intros Hne Hi Hj Heq. rewrite Forall_lookup in Hne. pose proof (Hne _ _ Hi) as Hx. pose proof (Hne _ _ Hj) as Hy.
  assert (Hpos : forall d : bytes, d <> [] -> 0 < len d) by (intros [|a d]; [done|]; intros _; rewrite len_cons; pose proof (len_nonneg d); lia).
  destruct (decide (i < j)%nat); [pose proof (chunk_offset_le parts (S i) j ltac:(lia)) as Hle; rewrite (chunk_offset_S _ _ _ Hi) in Hle; specialize (Hpos _ Hx); lia|].
  destruct (decide (j < i)%nat); [pose proof (chunk_offset_le parts (S j) i ltac:(lia)) as Hle; rewrite (chunk_offset_S _ _ _ Hj) in Hle; specialize (Hpos _ Hy); lia|].
  lia.
Qed.

(** When the scheduler is done the receiver has everything. *)
Lemma done_received id direction parts T :
  tinv id direction parts T -> Done (sch (t_flow T)) = true ->
  sealed (t_flow T) /\ next (v_r (t_rx T)) = len (concat parts) /\ v_inner (t_rx T) = concat parts.
Proof.
  intros Hi Hd. pose proof (ti_flow _ _ _ _ Hi) as [_ Hf]. pose proof (ti_cut _ _ _ _ Hi) as Hc.
  assert (Hdel : sealed (t_flow T) /\ delivered (src (t_flow T)) (StripeInv.acked (t_flow T)) (chunks (sch (t_flow T)))).
  { destruct Hf as [Hcl|[Hs _]].
    - split; [left; by apply (ci_closed _ _ _ _ Hcl)|by apply (ci_finished _ _ _ _ Hcl)].
    - pose proof (si_finished _ _ _ _ _ Hs Hd) as Hdl. split; [right; by apply doneLocked_spec in Hdl as [? _]|by eapply sinv_delivered]. }
  destruct Hdel as [Hse Hdel]. split; [done|]. eapply rx_ok_all; [apply (ti_rx _ _ _ _ Hi)|apply Hc|].
  intros x Hx. rewrite (cut_src _ _ Hc) in Hx. destruct (Hdel x Hx) as (p & c & Hp & Hin & Ho).
  assert (Hne : c_Data c <> []) by (intros E; rewrite E, len_nil in Hin; lia).
  destruct (cut_store _ _ Hc p _ _ (content_lookup _ _ _ Hp) Hne) as (i & Hpi & Hoi).
  destruct (ti_acked _ _ _ _ Hi _ Ho) as [(j & d & Hpj & Hoj & Hr)|[Hoj _]].
  - assert (i = j) as <- by (eapply (chunk_offset_inj parts); [apply Hc|done|done|congruence]). apply Hr. by simplify_eq.
  - rewrite (cut_src _ _ Hc) in Hoj. pose proof (chunk_offset_end _ _ _ Hpi) as He. rewrite (cut_src _ _ Hc) in He. lia.
Qed.

Lemma tinv_final id direction parts f h q o w wire t acks v e fr t' :
  tinv id direction parts (mkTransfer f h q o w None wire t acks v e) -> Done (sch f) = true ->
  sendFinal id (SourceBytes (Stripe_Stats (sch f))) t = (fr, t') ->
  tinv id direction parts (mkTransfer f h q o w (Some (SourceBytes (Stripe_Stats (sch f)))) (fr :: wire) t' acks v e).
Proof.
  intros Hi Hd [= <- <-]. destruct (done_received _ _ _ _ Hi Hd) as (Hse & Hn & _). cbn in Hse, Hn.
  assert (Hsb : SourceBytes (Stripe_Stats (sch f)) = len (concat parts)).
  { pose proof (ti_cut _ _ _ _ Hi) as Hc. rewrite (cut_src _ _ Hc). apply (cut_bytes _ _ Hc). }
  rewrite Hsb. destruct Hi as [H1 H2 H3 H4 H5 H6 H7 H8 H9 H10 H11 H12]. cbn [t_flow t_watch t_rx t_tx t_wire t_acks] in *.
  pose proof (li_sent _ _ H9) as Hs. cbn in Hs. split; cbn [t_flow t_watch t_rx t_tx t_wire t_acks]; try done.
  - intros _. cbn. split; [done|]. split; [done|]. lia.
  - constructor; [by repeat split; right|]. eapply Forall_impl; [exact H7|]. intros fr (Hse' & Hfi & Hx). split; [done|]. split; [done|].
    destruct Hx as [Hx|(_ & _ & _ & Hf & _)]; [by left|done].
  - eapply Forall_impl; [exact H8|]. intros fr Ha Hfl. by destruct (Ha Hfl).
  - destruct H9 as [L1 L2 L3 L4 L5 L6 [L7 L8]]. by split.
  - destruct H10 as [R1 R2 _]. by split.
Qed.

(** *** The receiver's steps *)

(** A step of the receiver that loses nothing. *)
Lemma tinv_rx id direction parts f h q o w fin wire t acks acks' v v' e e' :
  let F := match fin with Some _ => true | None => false end in
  tinv id direction parts (mkTransfer f h q o w fin wire t acks v e) ->
  (forall x, received (v_r v) x -> received (v_r v') x) -> Forall (ack_ok parts F) acks' ->
  link_inv direction (mkLink (v_r v') (v_ack v') (v_last v') acks' t) -> rx_ok parts F (v_r v') (v_inner v') ->
  (v_remoteFin v' = true -> next (v_r v') = len (concat parts) /\ F = true) ->
  tinv id direction parts (mkTransfer f h q o w fin wire t acks' v' e').
Proof.
  intros F [H1 H2 H3 H4 H5 H6 H7 H8 H9 H10 H11 H12] Hm Ha Hl Hr Hf. split; try done; cbn [t_watch t_rx t_flow] in *.
  - intros lane c Hin x Hx. apply Hm. by eapply H4.
  - intros sn Hsn start stop Hc x Hx. apply Hm. by eapply H5.
  - intros y Hy. destruct (H12 y Hy) as [(i & d & Hp & Hi & Hrr)|Hx]; [left; exists i, d; split; [done|]; split; [done|]|by right].
    intros x Hx. apply Hm. by apply Hrr.
Qed.

Lemma link_closing direction r a last w t : link_inv direction (mkLink r a last w t) -> link_inv direction (mkLink r (set_closing a) last w t).
Proof. intros [H1 H2 H3 H4 H5 H6 H7]. by split. Qed.

(** An insertion, and what it leaves to be proved of the acknowledgement. *)
Lemma insert_keeps id direction parts f h q o w fin wire t acks v e seg owned out c er r' :
  let F := match fin with Some _ => true | None => false end in
  tinv id direction parts (mkTransfer f h q o w fin wire t acks v e) -> segment_typed seg -> piece parts seg -> (Final seg = true -> F = true) ->
  Sequence seg + len (Payload seg) <= highestSent t -> Reassembler_insert (v_r v) seg owned = Some ((out, c, er), r') ->
  (forall x, received (v_r v) x -> received r' x) /\ link_inv direction (mkLink r' (v_ack v) (v_last v) acks t) /\
  rx_ok parts F r' (v_inner v ++ out) /\ (c = true -> F = true /\ next r' = len (concat parts)) /\ (er <> None -> out = []) /\ next (v_r v) <= next r'.
Proof.
  intros F Hi Ht Hp Hf Hs He. pose proof (ti_link _ _ _ _ Hi) as Hl. pose proof (ti_rx _ _ _ _ Hi) as Hr. cbn [t_rx t_acks t_tx] in *.
  destruct Hl as [L1 L2 L3 L4 L5 L6 L7] eqn:El. cbn in L1, L2, L3.
  destruct (insert_received _ _ _ _ _ _ _ _ L1 Ht He L2 L3 Hs) as (_ & Hn & _ & Hm). split; [done|].
  split; [by eapply link_inv_insert|]. destruct (rx_ok_insert _ _ _ _ _ _ _ _ _ _ Hr Ht Hp Hf He) as (R1 & R2 & R3).
  split; [done|]. split; [done|]. split; [done|]. lia.
Qed.

(** The state after [remote_fin]. *)
Lemma remote_fin_keeps id direction parts f h q o w fin wire t acks v v1 sendDone rf e e' :
  let F := match fin with Some _ => true | None => false end in
  tinv id direction parts (mkTransfer f h q o w fin wire t acks v e) -> is_direction direction ->
  (forall x, received (v_r v) x -> received (v_r v1) x) -> link_inv direction (mkLink (v_r v1) (v_ack v1) (v_last v1) acks t) ->
  rx_ok parts F (v_r v1) (v_inner v1) -> F = true -> next (v_r v1) = len (concat parts) ->
  remote_fin id direction sendDone v1 = rf ->
  tinv id direction parts (mkTransfer f h q o w fin wire t (cons_opt (rf_ack rf) acks) (rf_v rf) e').
Proof.
  intros F Hi Hd Hm Hl Hr HF Hn <-. unfold remote_fin, acknowledgeRemoteFIN.
  destruct (writeACK_frame id (set_closing (v_ack v1)) (NextSequence (v_r v1)) direction true) as [fr a] eqn:Ew.
  cbn [cons_opt rf_ack rf_v v_r v_ack v_last v_inner v_remoteFin]. eapply tinv_rx; cbn [v_r v_ack v_last v_inner v_remoteFin]; [exact Hi|done| | |done|done].
  - constructor; [|apply (ti_acks _ _ _ _ Hi)]. intros _. split; [done|]. unfold writeACK_frame in Ew. cbn in Ew. injection Ew as <- _. done.
  - eapply (link_inv_step id); [exact Hd|by apply link_closing|]. by apply lk_final_ack.
Qed.

Lemma piece_typed parts f i d n : cut parts f -> parts !! i = Some d -> n = chunk_offset parts i ->
  segment_typed (mkSegment n d false false) /\ piece parts (mkSegment n d false false).
Proof.
  intros Hc Hi ->. destruct (cut_bytes _ _ Hc) as [_ Hb]. rewrite <- (cut_src _ _ Hc) in Hb. pose proof (chunk_offset_end _ _ _ Hi) as He.
  pose proof (len_nonneg d). assert (0 <= chunk_offset parts i) by apply len_nonneg. split; [|by exists i].
  unfold segment_typed, in_range. cbn. pow2_eval. lia.
Qed.

(** The receive loop after an insertion that succeeded. *)
Lemma tinv_inserted id direction parts f h q o w fin wire t acks v v1 (c sendDone : bool) rf e e' :
  let F := match fin with Some _ => true | None => false end in
  tinv id direction parts (mkTransfer f h q o w fin wire t acks v e) -> is_direction direction ->
  (forall x, received (v_r v) x -> received (v_r v1) x) -> link_inv direction (mkLink (v_r v1) (v_ack v1) (v_last v1) acks t) ->
  rx_ok parts F (v_r v1) (v_inner v1) -> (c = true -> F = true /\ next (v_r v1) = len (concat parts)) ->
  next (v_r v) <= next (v_r v1) -> v_remoteFin v1 = v_remoteFin v ->
  (if c then remote_fin id direction sendDone v1 else mkReceived v1 None None) = rf ->
  tinv id direction parts (mkTransfer f h q o w fin wire t (cons_opt (rf_ack rf) acks) (rf_v rf) e').
Proof.
  intros F Hi Hd Hm Hl Hr Hc Hn Hrm <-. destruct c; [destruct (Hc eq_refl); by eapply remote_fin_keeps|].
  eapply tinv_rx; [exact Hi|done|apply (ti_acks _ _ _ _ Hi)|done|done|]. cbn [rf_v]. rewrite Hrm. intros Hv.
  destruct (ti_remote _ _ _ _ Hi Hv) as [Hn0 HF]. cbn in Hn0, HF. split; [|done].
  pose proof (boundary_le _ _ (rc_next _ _ (ro_rc _ _ _ _ Hr))) as Hbl. cbn in Hbl. lia.
Qed.

(** One that failed changes nothing. *)
Lemma tinv_refused id direction parts f h q o w fin wire t acks v r' e e' :
  let F := match fin with Some _ => true | None => false end in
  tinv id direction parts (mkTransfer f h q o w fin wire t acks v e) -> is_direction direction ->
  (forall x, received (v_r v) x -> received r' x) -> link_inv direction (mkLink r' (v_ack v) (v_last v) acks t) ->
  rx_ok parts F r' (v_inner v) -> next (v_r v) <= next r' ->
  tinv id direction parts (mkTransfer f h q o w fin wire t acks (mkReceiver r' (v_ack v) (v_last v) (v_remoteFin v) (v_inner v)) e').
Proof.
  intros F Hi Hd Hm Hl Hr Hn. set (v1 := mkReceiver _ _ _ _ _).
  eapply (tinv_inserted _ _ _ _ _ _ _ _ _ _ _ _ v v1 false false (mkReceived v1 None None)); done.
Qed.

Lemma tinv_data id direction parts f h q o w fin wire t acks v fr sendDone rf i :
  tinv id direction parts (mkTransfer f h q o w fin wire t acks v None) -> is_direction direction ->
  h_SessionID (f_Header fr) = fl_session id -> h_FlowID (f_Header fr) = fl_flow id -> h_Type (f_Header fr) = TypeData ->
  parts !! i = Some (f_Payload fr) -> h_Sequence (f_Header fr) = chunk_offset parts i ->
  h_Sequence (f_Header fr) + len (f_Payload fr) <= highestSent t -> receive_frame id direction sendDone v fr = Some rf ->
  tinv id direction parts (mkTransfer f h q o w fin wire t (cons_opt (rf_ack rf) acks) (rf_v rf) (rf_end rf)).
Proof.
  intros Hi Hd Hs Hf Ht Hp Ho Hl Hrf. unfold receive_frame in Hrf. rewrite Hs, Hf, Ht, bool_decide_true, Z.eqb_refl in Hrf by done. cbn [negb orb] in Hrf.
  change (TypeData =? TypeData) with true in Hrf. cbn iota in Hrf. destruct (v_remoteFin v) eqn:Erf.
  { injection Hrf as <-. eapply tinv_rx; [exact Hi|done|apply (ti_acks _ _ _ _ Hi)|apply (ti_link _ _ _ _ Hi)|apply (ti_rx _ _ _ _ Hi)|apply (ti_remote _ _ _ _ Hi)]. }
  destruct (piece_typed parts f i _ _ (ti_cut _ _ _ _ Hi) Hp Ho) as [Hty Hpc].
  destruct (Reassembler_InsertOwned _ _) as [[[[out c] er] r']|] eqn:Ei; [|done].
  destruct (insert_keeps _ _ _ _ _ _ _ _ _ _ _ _ _ _ _ _ _ _ _ _ Hi Hty Hpc ltac:(done) Hl Ei) as (K1 & K2 & K3 & K4 & K5 & K6).
  destruct er as [er|].
  - rewrite (K5 ltac:(done)), app_nil_r in K3. injection Hrf as <-. rewrite <- Erf. by eapply tinv_refused.
  - destruct (acknowledgeArrival (v_ack v) r' (v_last v)) as [a last] eqn:Ea. pose proof (acknowledgeArrival_inv _ _ _ _ _ _ _ _ K2 Ea) as K2'.
    injection Hrf as Hrf. eapply tinv_inserted with (v1 := mkReceiver r' a last false (v_inner v ++ out)); done.
Qed.

Lemma tinv_close id direction parts f h q o w fin wire t acks v fr sendDone rf :
  tinv id direction parts (mkTransfer f h q o w fin wire t acks v None) -> is_direction direction ->
  h_SessionID (f_Header fr) = fl_session id -> h_FlowID (f_Header fr) = fl_flow id -> h_Type (f_Header fr) = TypeClose ->
  h_Flags (f_Header fr) = FlagFin -> f_Payload fr = [] -> (match fin with Some _ => true | None => false end) = true ->
  h_Sequence (f_Header fr) = len (concat parts) -> receive_frame id direction sendDone v fr = Some rf ->
  tinv id direction parts (mkTransfer f h q o w fin wire t (cons_opt (rf_ack rf) acks) (rf_v rf) (rf_end rf)).
Proof.
  intros Hi Hd Hs Hf Ht Hfl Hpay HF Ho Hrf. unfold receive_frame in Hrf.
  rewrite Hs, Hf, Ht, Hfl, Hpay, bool_decide_true, Z.eqb_refl in Hrf by done.
  change (TypeClose =? TypeData) with false in Hrf. change (TypeClose =? TypeClose) with true in Hrf.
  change (Z.land FlagFin FlagFin =? 0) with false in Hrf. change (len (@nil Z) =? 0) with true in Hrf. change (Z.land FlagFin FlagAckFinal =? 0) with true in Hrf.
  change (Z.land FlagFin (Z.lor FlagAckUp FlagAckDown) =? 0) with true in Hrf. change (Z.land FlagFin FlagCloseAbort =? 0) with true in Hrf.
  cbn [negb orb] in Hrf.
  set (seg := mkSegment (h_Sequence (f_Header fr)) [] true false) in Hrf.
  destruct (cut_bytes _ _ (ti_cut _ _ _ _ Hi)) as [_ Hb]. rewrite <- (cut_src _ _ (ti_cut _ _ _ _ Hi)) in Hb. pose proof (len_nonneg (concat parts)) as Hlp.
  assert (Hty : segment_typed seg).
  { unfold segment_typed, in_range, seg. cbn [Sequence Payload charged]. rewrite Ho. assert (len (@nil Z) = 0) by done. pow2_eval. lia. }
  assert (Hpc : piece parts seg) by (by unfold piece, seg; cbn).
  assert (H0 : len (@nil Z) = 0) by done.
  assert (Hle : Sequence seg + len (Payload seg) <= highestSent t).
  { unfold seg. cbn. rewrite Ho. destruct (ti_fin _ _ _ _ Hi HF) as (_ & _ & Hh). cbn in Hh. lia. }
  destruct (Reassembler_Insert _ _) as [[[[out c] er] r']|] eqn:Ei; [|done].
  destruct (insert_keeps _ _ _ _ _ _ _ _ _ _ _ _ _ _ _ _ _ _ _ _ Hi Hty Hpc ltac:(done) Hle Ei) as (K1 & K2 & K3 & K4 & K5 & K6).
  destruct er as [er|].
  - rewrite (K5 ltac:(done)), app_nil_r in K3. injection Hrf as <-. by eapply tinv_refused.
  - injection Hrf as Hrf. eapply tinv_inserted with (v1 := mkReceiver r' (v_ack v) (v_last v) (v_remoteFin v) (v_inner v ++ out)); done.
Qed.

Lemma tinv_arrive id direction parts f h q o w fin wire t acks v fr sendDone rf :
  tinv id direction parts (mkTransfer f h q o w fin wire t acks v None) -> is_direction direction -> fr ∈ wire ->
  receive_frame id direction sendDone v fr = Some rf ->
  tinv id direction parts (mkTransfer f h q o w fin wire t (cons_opt (rf_ack rf) acks) (rf_v rf) (rf_end rf)).
Proof.
  intros Hi Hd Hin Hrf. pose proof (ti_wire _ _ _ _ Hi) as Hw. rewrite Forall_forall in Hw. destruct (Hw fr Hin) as (Hs & Hf & Hx).
  destruct Hx as [(Ht & i & Hp & Ho & Hl)|(Ht & Hfl & Hpay & HF & Ho)]; [by eapply tinv_data|by eapply tinv_close].
Qed.

(** *** Acknowledgements *)

Lemma tinv_ack id direction parts f h q o w fin wire t acks v e fr a :
  tinv id direction parts (mkTransfer f h q o w fin wire t acks v e) -> is_direction direction ->
  writeACK_frame id (v_ack v) (ackSequence (v_ack v)) direction false = (fr, a) ->
  tinv id direction parts (mkTransfer f h q o w fin wire t (fr :: acks) (mkReceiver (v_r v) a (v_last v) (v_remoteFin v) (v_inner v)) e).
Proof.
  intros Hi Hd Hw. eapply tinv_rx; [exact Hi|done| | |apply (ti_rx _ _ _ _ Hi)|apply (ti_remote _ _ _ _ Hi)].
  - constructor; [|apply (ti_acks _ _ _ _ Hi)]. intros Hfl. exfalso. apply Hfl. unfold writeACK_frame in Hw. cbn [negb] in Hw.
    repeat case_match; simplify_eq; cbn; by destruct Hd as [-> | ->].
  - eapply (link_inv_step id); [exact Hd|apply (ti_link _ _ _ _ Hi)|]. by apply lk_ack.
Qed.

Lemma receive_ack_fixed direction t fr t' : receive_ack direction t fr = Ok t' ->
  highestSent t' = highestSent t /\ finSequence t' = finSequence t.
Proof. unfold receive_ack, acknowledgeReplay. intros H. repeat case_match; simplify_eq; done. Qed.

Lemma tinv_acked id direction parts f h q o w fin wire t t' acks v e fr :
  tinv id direction parts (mkTransfer f h q o w fin wire t acks v e) -> is_direction direction -> fr ∈ acks ->
  receive_ack direction t fr = Ok t' -> tinv id direction parts (mkTransfer f h q o w fin wire t' acks v e).
Proof.
  intros [H1 H2 H3 H4 H5 H6 H7 H8 H9 H10 H11 H12] Hd Hin Hr. destruct (receive_ack_fixed _ _ _ _ Hr) as [Hh Hf].
  cbn [t_flow t_watch t_rx t_tx t_wire t_acks] in *. split; cbn [t_flow t_watch t_rx t_tx t_wire t_acks]; try done.
  - by rewrite Hh, Hf.
  - by rewrite Hh.
  - eapply (link_inv_step id); [exact Hd|exact H9|]. by eapply lk_receive.
Qed.

(** Every acknowledgement written is one the sender takes. *)
Lemma acks_taken id direction parts T fr :
  tinv id direction parts T -> is_direction direction -> fr ∈ t_acks T -> exists t', receive_ack direction (t_tx T) fr = Ok t'.
Proof.
  intros Hi Hd Hin. pose proof (ti_link _ _ _ _ Hi) as [_ L2 _ _ _ L6 L7]. cbn in L2, L6, L7. rewrite Forall_forall in L6.
  pose proof (receive_ack_ok direction (v_r (t_rx T)) (t_tx T) fr Hd L2 (L6 fr Hin) L7) as Hr.
  destruct (receive_ack direction (t_tx T) fr) as [t'|er] eqn:E; [by eexists|]. exfalso. destruct Hr as [Hr _].
  pose proof (ti_acks _ _ _ _ Hi) as Ha. rewrite Forall_forall in Ha. destruct (Ha fr Hin Hr) as [HF Hs].
  destruct (ti_fin _ _ _ _ Hi HF) as (_ & Hfs & Hh). destruct (L6 fr Hin) as [_ Hfl]. unfold receive_ack, acknowledgeReplay in E.
  replace (Z.land (h_Flags (f_Header fr)) direction =? 0) with false in E
    by (destruct Hfl as [[[|] ->]|[-> _]]; by destruct Hd as [-> | ->]).
  rewrite (proj2 (Z.eqb_neq _ _) Hr), Hs, Hfs, Z.eqb_refl in E. replace (_ >? _) with false in E by lia. by destruct (_ <? _) in E.
Qed.

Lemma transfer_inv_step id direction parts T T' :
  tinv id direction parts T -> is_direction direction -> tstep id direction T T' -> exists parts', tinv id direction parts' T'.
Proof.
  intros Hi Hd Hst. destruct Hst as [f f' h q o w fin wire t acks v e Hf Ha|f h q o w fin wire t acks v e ans cd lane c s' Hn Hp
    |f h1 h2 q o w fin wire t acks v e lane c fr t' Hs|f h1 h2 q o w fin wire t acks v e lane c fr t' Hs
    |f h q1 q2 o o' w fin wire t t' acks v e lane c Ht|f h q o fin wire t acks v e visit s' sn Hv ->
    |f h q o sn fin wire t acks v e cs ks Hs|f h q o lane c l fin wire t acks v e s' Hc|f h q o fin wire t acks v e
    |f h q o w wire t acks v e fr t' Hdn He Hs|f h q o w fin wire t acks v fr sd rf Hin Hr|f h q o w fin wire t acks v e m Hm
    |f h q o w fin wire t acks v e fr a Hw|f h q o w fin wire t acks v e fr t' Hin Hr].
  - eapply tinv_flow; [exact Hi|exact Hf|]. intros x. rewrite Ha. by left.
  - destruct f as [s pr sr ak el]. pose proof (Next_calm _ _ _ _ _ _ _ Hp) as [_ Hk].
    destruct (Hk (flow_pointers _ (ti_flow _ _ _ _ Hi))) as [p Hcp]. pose proof (ti_cut _ _ _ _ Hi) as Hct. cbn in Hct.
    eapply tinv_flow; [|by eapply f_next|by left]. apply tinv_hand; [exact Hi|]. split; intros Hc.
    + by eapply (cut_store _ _ Hct).
    + rewrite (cut_src _ _ Hct). by eapply (cut_empty _ _ Hct).
  - exists parts. assert (Hin : (lane, c) ∈ h1 ++ (lane, c) :: h2) by (apply elem_of_app; right; constructor).
    destruct (tinv_send _ _ _ _ _ _ _ _ _ _ _ _ _ _ _ _ _ _ Hi Hd Hin Hs) as [_ Hx]. eapply tinv_lists; [exact Hx|].
    intros x. rewrite !elem_of_app, !elem_of_cons. tauto.
  - assert (Hin : (lane, c) ∈ h1 ++ (lane, c) :: h2) by (apply elem_of_app; right; constructor).
    destruct (tinv_send _ _ _ _ _ _ _ _ _ _ _ _ _ _ _ _ _ _ Hi Hd Hin Hs) as [Hx _].
    eapply (tinv_lists _ _ _ _ _ _ _ (h1 ++ h2) q o) in Hx; [|intros x; rewrite !elem_of_app, !elem_of_cons; tauto].
    destruct f as [s pr sr ak el]. eapply tinv_flow; [exact Hx|apply f_fail|by left].
  - exists parts. destruct (trackChunk_elem _ _ _ _ _ _ Ht) as [Ho Htx].
    assert (Hx : tinv id direction parts (mkTransfer f h (q1 ++ (lane, c) :: q2) o w fin wire t' acks v e))
      by (destruct Htx as [-> | ->]; [exact Hi|by apply tinv_touch]).
    eapply tinv_lists; [exact Hx|]. intros x Hin. left. rewrite !elem_of_app, elem_of_cons in *. specialize (Ho x). tauto.
  - apply tinv_holding in Hi. fold sn in Hi. destruct (lost_below sn) as [b|]; destruct f as [s pr sr ak el]; [|by exists parts].
    eapply tinv_flow; [exact Hi|by apply f_below|by left].
  - exists parts. by eapply tinv_split.
  - pose proof (completing_acked _ _ _ _ _ _ _ _ _ _ _ _ _ _ _ _ Hi) as Hok. apply tinv_completed in Hi. destruct f as [s pr sr ak el].
    eapply tinv_flow; [exact Hi|by eapply f_complete|]. cbn. intros x Hx. apply elem_of_union in Hx as [Hx|Hx]; [|by left].
    apply elem_of_singleton in Hx as ->. by right.
  - exists parts. by apply tinv_waiting.
  - exists parts. by eapply tinv_final.
  - exists parts. by eapply tinv_arrive.
  - exists parts. eapply tinv_rx; [exact Hi|done|apply (ti_acks _ _ _ _ Hi)| |apply rx_ok_memory; [apply (ti_rx _ _ _ _ Hi)|done]|apply (ti_remote _ _ _ _ Hi)].
    eapply (link_inv_step id); [exact Hd|apply (ti_link _ _ _ _ Hi)|]. by apply lk_memory.
  - exists parts. by eapply tinv_ack.
  - exists parts. by eapply tinv_acked.
Qed.

Lemma transfer_inv_start id direction cfg m rcfg on :
  budget_ok m -> config_ok rcfg -> memory_ok (cfg_Memory rcfg) -> tinv id direction [] (transfer_start cfg m rcfg on).
Proof.
  intros Hm Hc Hmem. split; cbn; try done.
  - by apply flow_inv_start.
  - intros lane c Hin. by apply elem_of_nil in Hin.
  - intros lane c Hin. by apply elem_of_nil in Hin.
  - by apply (link_inv_start direction rcfg on 0).
  - split; [by apply rx_inv_start| |done]. split; cbn; try done; [by apply NewReassembler_inv|by exists 0%nat|].
    intros s Hs. by apply elem_of_nil in Hs.
Qed.

Lemma transfer_reach id direction cfg m rcfg on T :
  is_direction direction -> budget_ok m -> config_ok rcfg -> memory_ok (cfg_Memory rcfg) ->
  steps (tstep id direction) (transfer_start cfg m rcfg on) T -> exists parts, tinv id direction parts T.
Proof.
  intros Hd Hm Hc Hmem Hs. refine (steps_invariant (tstep id direction) (fun T => exists parts, tinv id direction parts T) _ _ _ _ Hs).
  - intros T1 T2 [parts Hi] Hst. by eapply transfer_inv_step.
  - exists []. by apply transfer_inv_start.
Qed.

(** ** The theorems *)


(** ** A concrete flow *)

(** Two bytes, issued to lane 1, again to lane 2 when they are overdue, written by
    both lanes, received and acknowledged once; then the half-close. *)
Definition tx_id : flow_id := mkFlowId (replicate 16 0) 7 ClassBulk.
Definition tx_cfg : StripeConfig := mkStripeConfig 4 4 64 100 1.
Definition tx_rcfg : ReassemblerConfig := mkRConfig 64 8 None.
Definition tx_ans (now : Z) : answers := mkAnswers None (Some 10) None None now.

Definition tx_issue (s : Scheduler) (now lane : Z) : Scheduler := snd (Next_pass s (tx_ans now) false lane 0).

Definition tx_s0 : Scheduler := Stripe_New tx_cfg None.
Definition tx_s1 : Scheduler := after_read tx_s0 [1; 2] ReadEOF.
Definition tx_s2 : Scheduler := tx_issue tx_s1 0 1.
Definition tx_s3 : Scheduler := fst (ReissueExpired [0] (Wrote tx_s2 1 0 1) (tx_ans 20)).
Definition tx_s4 : Scheduler := tx_issue tx_s3 20 2.
Definition tx_s5 : Scheduler := after_complete tx_s4 2 0.

Definition tx_chunk (attempt : Z) : Chunk := mkChunk 0 [1; 2] true false attempt 0.
Definition tx_t0 : ackTx := mkAckTx 0 0 newAckTracker None 0.
Definition tx_t1 : ackTx := snd (sendChunk tx_id (tx_chunk 1) tx_t0).
Definition tx_data : Frame := default (mkFrame (mkHeader 0 0 0 [] 0 0 0 0) []) (fst (sendChunk tx_id (tx_chunk 1) tx_t0)).

Definition tx_receive (v : receiver) (f : Frame) : received_frame :=
  default (mkReceived v None None) (receive_frame tx_id FlagAckUp false v f).
Definition tx_v0 : receiver := t_rx (transfer_start tx_cfg None tx_rcfg false).
Definition tx_v1 : receiver := rf_v (tx_receive tx_v0 tx_data).
Definition tx_ack : Frame := fst (writeACK_frame tx_id (v_ack tx_v1) (ackSequence (v_ack tx_v1)) FlagAckUp false).
Definition tx_t2 : ackTx := match receive_ack FlagAckUp tx_t1 tx_ack with Ok t => t | Err _ => tx_t1 end.
Definition tx_fin : Frame := fst (sendFinal tx_id 2 tx_t2).
Definition tx_t3 : ackTx := snd (sendFinal tx_id 2 tx_t2).
Definition tx_v2 : receiver := rf_v (tx_receive tx_v1 tx_fin).
Definition tx_finAck : Frame := default tx_ack (rf_ack (tx_receive tx_v1 tx_fin)).

Definition tx_flow (s : Scheduler) (ak : gset Z) : flow := mkFlow s Stopped [1; 2] ak 0.

(** Every byte has been received and acknowledged, and the half-close sent. *)
Definition tx_sent : transfer :=
  mkTransfer (tx_flow tx_s5 ({[0]} ∪ ∅)) [] [] [] (Completing []) (Some 2) [tx_fin; tx_data; tx_data] tx_t3 [tx_ack] tx_v1 None.

(** The half-close has arrived, and behind it the other copy of the data. *)
Definition tx_stopped : transfer :=
  mkTransfer (tx_flow tx_s5 ({[0]} ∪ ∅)) [] [] [] (Completing []) (Some 2) [tx_fin; tx_data; tx_data] tx_t3 [tx_finAck; tx_ack] tx_v2
    (Some DataAfterFin).

Lemma tx_read_run : steps (tstep tx_id FlagAckUp) (transfer_start tx_cfg None tx_rcfg false)
  (mkTransfer (tx_flow tx_s1 ∅) [] [] [] Waiting None [] tx_t0 [] tx_v0 None).
Proof.
  eapply steps_cons; [apply (ts_sched _ _ _ (mkFlow tx_s0 Acquiring [] ∅ 0)); [by apply (f_admit _ _ _ _ (tx_ans 0))|done]|].
  eapply steps_cons; [apply (ts_sched _ _ _ (mkFlow (with_memory tx_s0 None) Reading [] ∅ 0)); [by apply f_reserve|done]|].
  apply steps_one. apply ts_sched; [|done].
  apply (f_read (with_memory tx_s0 None) [] ∅ 0 [1; 2] ReadEOF tx_s1); [vm_compute; congruence|done|vm_compute; reflexivity].
Qed.

(** Both copies are written and the second one tracked. *)
Lemma tx_copies_run :
  steps (tstep tx_id FlagAckUp) (mkTransfer (tx_flow tx_s1 ∅) [] [] [] Waiting None [] tx_t0 [] tx_v0 None)
    (mkTransfer (tx_flow tx_s4 ∅) [] [] [(2, tx_chunk 2)] Waiting None [tx_data; tx_data] tx_t1 [] tx_v0 None).
Proof.
  eapply steps_cons; [apply (ts_next _ _ _ _ _ _ _ _ _ _ _ _ _ (tx_ans 0) false 1 (tx_chunk 1) tx_s2); vm_compute; reflexivity|].
  eapply steps_cons; [by apply (ts_send _ _ _ [] [] _ _ _ _ _ _ _ _ _ 1 (tx_chunk 1) (Some tx_data) tx_t1)|].
  eapply steps_cons; [by apply (ts_track _ _ _ _ [] [] [] [(1, tx_chunk 1)] _ _ _ tx_t1 tx_t1 _ _ _ 1 (tx_chunk 1))|].
  eapply steps_cons; [by apply (ts_sched _ _ _ (tx_flow (Wrote tx_s2 1 0 1) ∅)); [apply f_wrote|]|].
  eapply steps_cons; [apply (ts_sched _ _ _ (tx_flow tx_s3 ∅)); [apply (f_expired _ _ _ _ _ (tx_ans 20) [0]); by vm_compute|done]|].
  eapply steps_cons; [apply (ts_next _ _ _ _ _ _ _ _ _ _ _ _ _ (tx_ans 20) false 2 (tx_chunk 2) tx_s4); vm_compute; reflexivity|].
  eapply steps_cons; [by apply (ts_send _ _ _ [] [] _ _ _ _ _ _ _ _ _ 2 (tx_chunk 2) (Some tx_data) tx_t1)|].
  apply steps_one. by apply (ts_track _ _ _ _ [] [] [(1, tx_chunk 1)] [(2, tx_chunk 2)] _ _ _ tx_t1 tx_t1 _ _ _ 2 (tx_chunk 2)).
Qed.

Lemma tx_acked_run :
  steps (tstep tx_id FlagAckUp)
    (mkTransfer (tx_flow tx_s4 ∅) [] [] [(2, tx_chunk 2)] Waiting None [tx_data; tx_data] tx_t1 [] tx_v0 None) tx_sent.
Proof.
  eapply steps_cons; [apply (ts_arrive _ _ _ _ _ _ _ _ _ _ _ _ tx_data false (tx_receive tx_v0 tx_data)); [by left|vm_compute; reflexivity]|].
  eapply steps_cons; [by apply (ts_ack _ _ _ _ _ _ _ _ _ _ _ _ _ tx_ack (v_ack tx_v1))|].
  eapply steps_cons; [apply (ts_acked _ _ _ _ _ _ _ _ _ _ _ _ _ tx_ack tx_t2); [by left|vm_compute; reflexivity]|].
  eapply steps_cons; [by apply (ts_snapshot _ _ _ _ _ _ _ _ _ _ _ _ (live_keys tx_s4) tx_s4)|].
  eapply steps_cons; [by apply (ts_split _ _ _ _ _ _ _ _ _ _ _ _ _ [(2, tx_chunk 2)] [])|].
  eapply steps_cons; [apply (ts_complete _ _ _ _ _ _ _ _ _ _ _ _ _ _ _ tx_s5); vm_compute; reflexivity|].
  apply steps_one. refine (ts_final tx_id _ (tx_flow tx_s5 ({[0]} ∪ ∅)) [] [] [] (Completing []) [tx_data; tx_data] tx_t2 [tx_ack] tx_v1 None
    tx_fin tx_t3 _ _ _); vm_compute; reflexivity.
Qed.

Lemma tx_sent_reachable : steps (tstep tx_id FlagAckUp) (transfer_start tx_cfg None tx_rcfg false) tx_sent.
Proof. exact (steps_trans _ _ _ _ (steps_trans _ _ _ _ tx_read_run tx_copies_run) tx_acked_run). Qed.


(** A copy of the data that arrives behind the half-close ends the receive loop
    with an error, although every byte was delivered and the peer was told so. *)
Theorem late_copy_ends_flow :
  steps (tstep tx_id FlagAckUp) (transfer_start tx_cfg None tx_rcfg false) tx_stopped /\
  t_stop tx_stopped = Some DataAfterFin /\ v_inner (t_rx tx_stopped) = src (t_flow tx_stopped).
Proof.
  split; [|split; vm_compute; reflexivity]. apply (steps_trans _ _ _ _ tx_sent_reachable).
  eapply steps_cons; [apply (ts_arrive _ _ _ _ _ _ _ _ _ _ _ _ tx_fin false (tx_receive tx_v1 tx_fin)); [by left|vm_compute; reflexivity]|].
  apply steps_one. apply (ts_arrive _ _ _ _ _ _ _ _ _ _ _ _ tx_data false (mkReceived tx_v2 None (Some DataAfterFin)));
    [by right; left|vm_compute; reflexivity].
Qed.
