(* ===== verification/Lanes.v ===== *)
(** The lanes of a flow ([internal/pep/mpflow.go]) and the server's admission of
    lanes that join it ([serverFlow] in [internal/pep/server.go]).

    Lanes are objects named by address, because a lane that has left the table is
    still held by the goroutines that serve it.  [lane_step] interleaves the
    critical sections of [commitJoinedLane], which the server flow's lock
    serialises, with lanes that fail at any time and with the flow's end. *)

From S2P Require Import Prelude.

(** ** The table of lanes *)

(** A lane: its role, whether it was admitted by a JOIN, whether that has been
    acknowledged, and whether it is closed. *)
Record mpLane := mkLane { l_id : Z; l_control : bool; l_staged : bool; l_ready : bool; l_closed : bool }.

Record laneTable := mkTable {
  lanes : gmap Z Z;
  lane_objs : gmap Z mpLane;
  nextJoinID : Z;
  lanesJoined : Z;
  flow_closed : bool;
  reserveControlLane : bool
}.

Inductive lane_error :=
| FlowIsClosed | DuplicateLaneID | LaneNotStaged | LaneUnavailable | LaneLimitReached | LaneIDsExhausted | AckNotWritten.

Definition no_lane : mpLane := mkLane 0 false false false true.
Definition lane_at (f : laneTable) (p : Z) : mpLane := default no_lane (lane_objs f !! p).

Definition set_lanes (f : laneTable) (m : gmap Z Z) : laneTable :=
  mkTable m (lane_objs f) (nextJoinID f) (lanesJoined f) (flow_closed f) (reserveControlLane f).
Definition set_objs (f : laneTable) (m : gmap Z mpLane) : laneTable :=
  mkTable (lanes f) m (nextJoinID f) (lanesJoined f) (flow_closed f) (reserveControlLane f).

Definition closed_lane (l : mpLane) : mpLane := mkLane (l_id l) (l_control l) (l_staged l) (l_ready l) true.
Definition ready_lane (l : mpLane) : mpLane := mkLane (l_id l) (l_control l) (l_staged l) true (l_closed l).

(** [lane.closed.Store(true)]. *)
Definition close_lane (f : laneTable) (p : Z) : laneTable := set_objs f (<[p := closed_lane (lane_at f p)]> (lane_objs f)).

Definition laneReady (l : mpLane) : bool := negb (l_staged l) || l_ready l.

Definition laneIsControl (f : laneTable) (l : mpLane) : bool :=
  if negb (reserveControlLane f) then false else l_control l || (l_id l =? 0).

Definition healthy (l : mpLane) : bool := negb (l_closed l) && laneReady l.

Definition laneCount (f : laneTable) : Z :=
  Z.of_nat (size (filter (fun kv : Z * Z => l_closed (lane_at f kv.2) = false) (lanes f))).

(** The healthy lanes, by identifier. *)
Definition healthyLanes (f : laneTable) : list Z :=
  filter (fun p => healthy (lane_at f p) = true)
    (omap (fun id => lanes f !! id) (merge_sort Z.le (map fst (map_to_list (lanes f))))).

Definition addLane (f : laneTable) (p : Z) : result lane_error laneTable :=
  let lane := lane_at f p in
  if flow_closed f then Err FlowIsClosed
  else
    match lanes f !! l_id lane with
    | Some _ => Err DuplicateLaneID
    | None =>
        Ok (mkTable (<[l_id lane := p]> (lanes f)) (lane_objs f)
          (if l_id lane >=? nextJoinID f then l_id lane +u64 1 else nextJoinID f)
          (lanesJoined f +u64 1) (flow_closed f) (reserveControlLane f))
    end.

Definition activateLane (f : laneTable) (p : Z) : result lane_error laneTable :=
  let lane := lane_at f p in
  if negb (l_staged lane) then Err LaneNotStaged
  else if negb (bool_decide (lanes f !! l_id lane = Some p)) || l_closed lane || flow_closed f then Err LaneUnavailable
  else if l_ready lane then Ok f
  else Ok (set_objs f (<[p := ready_lane lane]> (lane_objs f))).

Definition retireLane (f : laneTable) (p : Z) : laneTable :=
  let id := l_id (lane_at f p) in
  close_lane (if bool_decide (lanes f !! id = Some p) then set_lanes f (delete id (lanes f)) else f) p.

(** One turn of the loop of [retireOldestLane]. *)
Definition older_victim (f : laneTable) (control : bool) (victim : option Z) (id : Z) : option Z :=
  match lanes f !! id with
  | None => victim
  | Some p =>
      let lane := lane_at f p in
      if l_closed lane || negb (laneReady lane) || negb (Bool.eqb (laneIsControl f lane) control) then victim
      else
        match victim with
        | None => Some p
        | Some v => if l_id lane <? l_id (lane_at f v) then Some p else Some v
        end
  end.

(** The identifiers of the table in the order the range visits them. *)
Definition retireOldestLane (visit : list Z) (f : laneTable) (control : bool) : bool * laneTable :=
  match fold_left (older_victim f control) visit None with
  | None => (false, f)
  | Some v => (true, close_lane (set_lanes f (delete (l_id (lane_at f v)) (lanes f))) v)
  end.

(** [failLane] up to the report: whether this call is the one that closed it. *)
Definition closeFailedLane (f : laneTable) (p : Z) : bool * laneTable :=
  if l_closed (lane_at f p) then (false, f) else (true, close_lane f p).

(** The loop of [allocateJoinID]. *)
Fixpoint free_id (fuel : nat) (f : laneTable) (id : Z) : option Z :=
  match fuel with
  | O => None
  | S fuel' =>
      if id <? Z.shiftl 1 20 then match lanes f !! id with None => Some id | Some _ => free_id fuel' f (id + 1) end
      else None
  end.

Definition allocateJoinID (f : laneTable) : result lane_error (Z * laneTable) :=
  match free_id (S (size (lanes f))) f (nextJoinID f) with
  | Some id => Ok (id, mkTable (lanes f) (lane_objs f) (id + 1) (lanesJoined f) (flow_closed f) (reserveControlLane f))
  | None => Err LaneIDsExhausted
  end.

(** ** Which lane carries a frame *)

(** [controlLaneShared]: none, or its answer. *)
Definition isolateFromControlLane (shared : option bool) (control : option Z) : bool :=
  match control, shared with
  | Some _, Some b => b
  | _, _ => true
  end.

Fixpoint data_loop (f : laneTable) (shared : option bool) (control : option Z) (ls : list Z) : option Z :=
  match ls with
  | [] => None
  | p :: rest =>
      if laneIsControl f (lane_at f p) then data_loop f shared (Some p) rest
      else if isolateFromControlLane shared control then Some p
      else None
  end.

Definition dataLane (f : laneTable) (shared : option bool) (ls : list Z) : list Z :=
  if (len ls =? 1) || negb (reserveControlLane f) then take 1 ls
  else match data_loop f shared None ls with Some p => [p] | None => take 1 ls end.

(** [None]: no healthy lanes. *)
Definition laneCandidates (f : laneTable) (shared : option bool) (bulk : bool) : option (list Z) :=
  match healthyLanes f with
  | [] => None
  | ls =>
      if negb bulk then
        match List.find (fun p => laneIsControl f (lane_at f p)) ls with
        | Some p => Some [p]
        | None => Some (take 1 ls)
        end
      else Some (dataLane f shared ls)
  end.

(** ** The server's admission *)

Definition bulkLaneBudget (reserveControl : bool) : Z * Z := if reserveControl then (1, 1) else (1, 0).
Definition serverLaneBudget (reserveControl : bool) : Z := let '(bulk, control) := bulkLaneBudget reserveControl in bulk + control.

Definition serverFlow_addLane (visit : list Z) (maxLanes : Z) (f : laneTable) (p : Z) : result lane_error laneTable :=
  if laneCount f >=? maxLanes then
    let '(ok, f) := retireOldestLane visit f (l_control (lane_at f p)) in
    if negb ok || (laneCount f >=? maxLanes) then Err LaneLimitReached else addLane f p
  else addLane f p.

Definition can_replace (f : laneTable) (control : bool) : bool :=
  existsb (fun p => Bool.eqb (laneIsControl f (lane_at f p)) control) (healthyLanes f).

(** [commitJoinedLane] undisturbed, with whether the acknowledgement is written. *)
Definition commitJoinedLane (visit : list Z) (maxLanes : Z) (f : laneTable) (p : Z) (acknowledged : bool)
    : option lane_error * laneTable :=
  let control := l_control (lane_at f p) in
  if (laneCount f >=? maxLanes) && negb (can_replace f control) then (Some LaneLimitReached, f)
  else
    match addLane f p with
    | Err e => (Some e, f)
    | Ok f =>
        if negb acknowledged then (Some AckNotWritten, retireLane f p)
        else
          let f := if laneCount f >? maxLanes then snd (retireOldestLane visit f control) else f in
          match activateLane f p with
          | Err e => (Some e, retireLane f p)
          | Ok f => (None, f)
          end
    end.

(** Where a join is: before its replacement check, admitted, in the table,
    acknowledged, found above the limit, about to be activated, or refused at
    activation. *)
Inductive join_phase :=
| Idle | Full (p : Z) | Checked (p : Z) | Added (p : Z) | Acked (p : Z) | Over (p : Z) | Settled (p : Z) | Refused (p : Z).

Record serverFlow := mkServerFlow {
  sf_lanes : laneTable;
  sf_maxLanes : Z;
  sf_join : join_phase;
  sf_acked : list Z (* the lanes whose OPEN_OK was written *)
}.

Definition new_lane (id : Z) (control staged : bool) : mpLane := mkLane id control staged false false.

Definition with_lane (f : laneTable) (p : Z) (l : mpLane) : laneTable := set_objs f (<[p := l]> (lane_objs f)).

Inductive lane_step : serverFlow -> serverFlow -> Prop :=
(* the flow's first lane *)
| l_first f max acked p id control visit f' :
    lane_objs f !! p = None -> visit ≡ₚ map fst (map_to_list (lanes (with_lane f p (new_lane id control false)))) ->
    serverFlow_addLane visit max (with_lane f p (new_lane id control false)) p = Ok f' ->
    lane_step (mkServerFlow f max Idle acked) (mkServerFlow f' max Idle acked)
(* a lane joins *)
| l_join f max acked p id control :
    lane_objs f !! p = None -> 0 < id < 2 ^ 64 ->
    let f' := with_lane f p (new_lane id control true) in
    lane_step (mkServerFlow f max Idle acked)
      (mkServerFlow f' max (if laneCount f' >=? max then Full p else Checked p) acked)
| l_replace f max acked p :
    lane_step (mkServerFlow f max (Full p) acked)
      (mkServerFlow f max (if can_replace f (l_control (lane_at f p)) then Checked p else Idle) acked)
| l_add f max acked p :
    lane_step (mkServerFlow f max (Checked p) acked)
      (match addLane f p with Ok f' => mkServerFlow f' max (Added p) acked | Err _ => mkServerFlow f max Idle acked end)
| l_ack f max acked p : lane_step (mkServerFlow f max (Added p) acked) (mkServerFlow f max (Acked p) (p :: acked))
| l_ack_fails f max acked p : lane_step (mkServerFlow f max (Added p) acked) (mkServerFlow (retireLane f p) max Idle acked)
| l_over f max acked p :
    lane_step (mkServerFlow f max (Acked p) acked) (mkServerFlow f max (if laneCount f >? max then Over p else Settled p) acked)
| l_oldest f max acked p visit :
    visit ≡ₚ map fst (map_to_list (lanes f)) ->
    lane_step (mkServerFlow f max (Over p) acked)
      (mkServerFlow (snd (retireOldestLane visit f (l_control (lane_at f p)))) max (Settled p) acked)
| l_activate f max acked p :
    lane_step (mkServerFlow f max (Settled p) acked)
      (match activateLane f p with Ok f' => mkServerFlow f' max Idle acked | Err _ => mkServerFlow f max (Refused p) acked end)
| l_refused f max acked p : lane_step (mkServerFlow f max (Refused p) acked) (mkServerFlow (retireLane f p) max Idle acked)
(* a lane fails, the flow ends *)
| l_fail f max j acked p :
    is_Some (lane_objs f !! p) -> lane_step (mkServerFlow f max j acked) (mkServerFlow (snd (closeFailedLane f p)) max j acked)
| l_done f max j acked :
    lane_step (mkServerFlow f max j acked)
      (mkServerFlow (mkTable (lanes f) (lane_objs f) (nextJoinID f) (lanesJoined f) true (reserveControlLane f)) max j acked).

(** A new flow. *)
Definition newServerFlow (reserve : bool) : serverFlow :=
  mkServerFlow (mkTable ∅ ∅ 0 0 false reserve) (serverLaneBudget reserve) Idle [].

(** ** Open lanes *)

Definition openIDs (f : laneTable) : gset Z := dom (filter (fun kv : Z * Z => l_closed (lane_at f kv.2) = false) (lanes f)).

Lemma laneCount_open f : laneCount f = Z.of_nat (size (openIDs f)).
Proof. unfold laneCount, openIDs. by rewrite size_dom. Qed.

Lemma elem_openIDs f id : id ∈ openIDs f <-> exists p, lanes f !! id = Some p /\ l_closed (lane_at f p) = false.
Proof.
  unfold openIDs. rewrite elem_of_dom. split.
  - intros [p Hp]. apply map_lookup_filter_Some in Hp as [Hp Ho]. by exists p.
  - intros (p & Hp & Ho). exists p. by apply map_lookup_filter_Some.
Qed.

Lemma laneCount_le f f' : openIDs f' ⊆ openIDs f -> laneCount f' <= laneCount f.
Proof. intros Hs. rewrite !laneCount_open. apply subseteq_size in Hs. lia. Qed.

Lemma laneCount_less f f' id : id ∈ openIDs f -> openIDs f' ⊆ openIDs f ∖ {[id]} -> laneCount f' <= laneCount f - 1.
Proof.
  intros Hin Hs. rewrite !laneCount_open. apply subseteq_size in Hs. rewrite size_difference in Hs by set_solver.
  rewrite size_singleton in Hs. assert (size (openIDs f) <> 0)%nat by (apply size_non_empty_iff; set_solver). lia.
Qed.

Lemma laneCount_more f f' id : openIDs f' ⊆ {[id]} ∪ openIDs f -> laneCount f' <= laneCount f + 1.
Proof.
  intros Hs. rewrite !laneCount_open. apply subseteq_size in Hs. pose proof (size_union_alt {[id]} (openIDs f)) as He.
  rewrite He, size_singleton in Hs. assert (size (openIDs f ∖ {[id]}) <= size (openIDs f))%nat by (apply subseteq_size; set_solver). lia.
Qed.

(** Every entry of the table is a lane with that identifier. *)
Definition table_ok (f : laneTable) : Prop :=
  forall id p, lanes f !! id = Some p -> exists l, lane_objs f !! p = Some l /\ l_id l = id.

Lemma lane_at_lookup f p l : lane_objs f !! p = Some l -> lane_at f p = l.
Proof. unfold lane_at. by intros ->. Qed.

Lemma table_id f id p : table_ok f -> lanes f !! id = Some p -> l_id (lane_at f p) = id.
Proof. intros Ht Hp. destruct (Ht id p Hp) as (l & Hl & <-). by rewrite (lane_at_lookup _ _ _ Hl). Qed.

Lemma elem_healthyLanes f p : p ∈ healthyLanes f <-> exists id, lanes f !! id = Some p /\ healthy (lane_at f p) = true.
Proof.
  unfold healthyLanes. rewrite list_elem_of_filter, list_elem_of_omap. split.
  - intros [Hh (id & _ & Hp)]. by exists id.
  - intros (id & Hp & Hh). split; [done|]. exists id. split; [|done]. rewrite (merge_sort_Permutation Z.le).
    apply list_elem_of_fmap. exists (id, p). split; [done|]. by apply elem_of_map_to_list.
Qed.

(** Closing a lane, and taking it out of the table. *)
Lemma close_at f p q : lane_at (close_lane f p) q = if decide (q = p) then closed_lane (lane_at f p) else lane_at f q.
Proof.
  unfold close_lane, lane_at. cbn. case_decide as Hd; [subst q; by rewrite lookup_insert_eq|by rewrite lookup_insert_ne].
Qed.

Lemma close_sub f p : openIDs (close_lane f p) ⊆ openIDs f.
Proof.
  intros id. rewrite !elem_openIDs. intros (q & Hq & Hc). exists q. split; [exact Hq|]. rewrite close_at in Hc. by case_decide.
Qed.

Lemma close_open f p id : lanes f !! id = Some p -> openIDs (close_lane f p) ⊆ openIDs f ∖ {[id]}.
Proof.
  intros Hp x Hx. apply elem_of_difference. split; [by eapply close_sub|]. intros ->%elem_of_singleton.
  apply elem_openIDs in Hx as (q & Hq & Hc). cbn in Hq. rewrite Hp in Hq. simplify_eq. rewrite close_at in Hc. by case_decide.
Qed.

Lemma delete_sub f id p : openIDs (close_lane (set_lanes f (delete id (lanes f))) p) ⊆ openIDs f ∖ {[id]}.
Proof.
  intros x Hx. apply close_sub, elem_openIDs in Hx as (q & Hq & Hc). cbn in Hq. apply lookup_delete_Some in Hq as [Hne Hq].
  apply elem_of_difference. split; [apply elem_openIDs; by exists q|set_solver].
Qed.

Lemma retire_sub f p : openIDs (retireLane f p) ⊆ openIDs f.
Proof. unfold retireLane. case_bool_decide; [etransitivity; [apply delete_sub|set_solver]|apply close_sub]. Qed.

Lemma table_close f p : table_ok f -> is_Some (lane_objs f !! p) -> table_ok (close_lane f p).
Proof.
  intros Ht [l Hl] id q Hq. destruct (Ht id q Hq) as (lq & Hlq & Hid). unfold close_lane. cbn.
  destruct (decide (q = p)) as [->|Hne]; [|rewrite lookup_insert_ne by done; by exists lq].
  rewrite lookup_insert_eq. eexists. split; [done|]. cbn. by rewrite (lane_at_lookup _ _ _ Hlq).
Qed.

Lemma table_delete f id : table_ok f -> table_ok (set_lanes f (delete id (lanes f))).
Proof. intros Ht i p Hp. cbn in Hp. apply lookup_delete_Some in Hp as [_ Hp]. by apply Ht. Qed.

(** The lane a join may replace. *)
Definition victim (f : laneTable) (p : Z) : Prop :=
  exists id v, lanes f !! id = Some v /\ healthy (lane_at f v) = true /\ laneIsControl f (lane_at f v) = l_control (lane_at f p).

Lemma can_replace_victim f p : can_replace f (l_control (lane_at f p)) = true -> victim f p.
Proof.
  unfold can_replace. intros (v & Hin & Hc)%existsb_exists. apply list_elem_of_In, elem_healthyLanes in Hin as (id & Hv & Hh).
  exists id, v. split; [done|]. split; [done|]. by apply eqb_prop.
Qed.

Lemma healthy_open f id p : lanes f !! id = Some p -> healthy (lane_at f p) = true -> id ∈ openIDs f.
Proof. intros Hp Hh. apply elem_openIDs. exists p. split; [done|]. unfold healthy in Hh. by destruct (l_closed _). Qed.

(** A failure leaves the lane to replace, or makes room itself. *)
Lemma fail_victim f p q : victim f p -> victim (close_lane f q) p \/ exists id, lanes f !! id = Some q /\ id ∈ openIDs f.
Proof.
  intros (id & v & Hv & Hh & Hc). destruct (decide (v = q)) as [->|Hne].
  - right. exists id. split; [done|]. by eapply healthy_open.
  - left. exists id, v. split; [done|]. rewrite !close_at. rewrite decide_False by done. split; [done|].
    change (laneIsControl (close_lane f q)) with (laneIsControl f). rewrite Hc. by case_decide; subst.
Qed.

(** ** The oldest lane of a role *)

Definition replaceable (f : laneTable) (control : bool) (p : Z) : Prop :=
  healthy (lane_at f p) = true /\ laneIsControl f (lane_at f p) = control.

Lemma older_victim_cases f control victim_ id p :
  lanes f !! id = Some p ->
  (replaceable f control p /\
   older_victim f control victim_ id =
     Some (match victim_ with Some v => if l_id (lane_at f p) <? l_id (lane_at f v) then p else v | None => p end)) \/
  (~ replaceable f control p /\ older_victim f control victim_ id = victim_).
Proof.
  intros Hp. unfold older_victim, replaceable, healthy. rewrite Hp.
  destruct (l_closed _), (laneReady _), (laneIsControl _ _), control; cbn; try (right; split; [naive_solver|done]);
    left; (split; [done|]); destruct victim_; [|done| |done]; by destruct (_ <? _).
Qed.

(** The victim is the replaceable lane with the lowest identifier, whatever the
    order of the range. *)
Lemma oldest_fold f control visit : forall victim_ v,
  (forall v, victim_ = Some v -> replaceable f control v /\ exists id, lanes f !! id = Some v) ->
  fold_left (older_victim f control) visit victim_ = Some v ->
  replaceable f control v /\ (exists id, lanes f !! id = Some v) /\
  (forall u, victim_ = Some u -> l_id (lane_at f v) <= l_id (lane_at f u)) /\
  (forall id p, id ∈ visit -> lanes f !! id = Some p -> replaceable f control p -> l_id (lane_at f v) <= l_id (lane_at f p)).
Proof.
  induction visit as [|id visit IH]; intros victim_ v Hv Hr; cbn in Hr.
  - subst victim_. destruct (Hv v eq_refl) as [Hrep Hid]. split; [done|]. split; [done|].
    split; [intros u [= <-]; lia|]. intros id p Hin. by apply elem_of_nil in Hin.
  - destruct (lanes f !! id) as [p|] eqn:Hp.
    2:{ unfold older_victim in Hr at 2. rewrite Hp in Hr. destruct (IH _ _ Hv Hr) as (H1 & H2 & H3 & H4). split; [done|]. split; [done|].
        split; [done|]. intros i q [-> | Hin]%elem_of_cons Hq Hqr; [congruence|by eapply H4]. }
    destruct (older_victim_cases f control victim_ id p Hp) as [[Hrep He]|[Hrep He]]; rewrite He in Hr.
    + apply IH in Hr as (H1 & H2 & H3 & H4).
      2:{ intros u [= <-]. destruct victim_ as [w|]; [destruct (_ <? _); [|by apply Hv]|]; by eauto. }
      specialize (H3 _ eq_refl). split; [done|]. split; [done|]. split.
      * intros u ->. destruct (_ <? _) eqn:E; lia.
      * intros i q [-> | Hin]%elem_of_cons Hq Hqr; [|by eapply H4]. rewrite Hp in Hq. simplify_eq.
        destruct victim_ as [w|]; [destruct (_ <? _) eqn:E|]; lia.
    + destruct (IH _ _ Hv Hr) as (H1 & H2 & H3 & H4). split; [done|]. split; [done|]. split; [done|].
      intros i q [-> | Hin]%elem_of_cons Hq Hqr; [|by eapply H4]. rewrite Hp in Hq. by simplify_eq.
Qed.

Lemma oldest_none f control visit : forall victim_,
  fold_left (older_victim f control) visit victim_ = None ->
  victim_ = None /\ forall id p, id ∈ visit -> lanes f !! id = Some p -> ~ replaceable f control p.
Proof.
  induction visit as [|id visit IH]; intros victim_ Hr; cbn in Hr.
  - split; [done|]. intros id p Hin. by apply elem_of_nil in Hin.
  - destruct (IH _ Hr) as [Hn Hrest]. destruct (lanes f !! id) as [p|] eqn:Hp.
    + destruct (older_victim_cases f control victim_ id p Hp) as [[_ He]|[Hrep He]]; rewrite He in Hn; [done|].
      split; [done|]. intros i q [-> | Hin]%elem_of_cons Hq; [congruence|by eapply Hrest].
    + unfold older_victim in Hn. rewrite Hp in Hn. split; [done|].
      intros i q [-> | Hin]%elem_of_cons Hq; [congruence|by eapply Hrest].
Qed.

(** [retireOldestLane] takes the oldest lane of the role out, or there is none. *)
Lemma retireOldest_spec f control visit :
  table_ok f -> visit ≡ₚ map fst (map_to_list (lanes f)) ->
  (exists id v, lanes f !! id = Some v /\ replaceable f control v /\
    retireOldestLane visit f control = (true, close_lane (set_lanes f (delete id (lanes f))) v) /\
    forall i p, lanes f !! i = Some p -> replaceable f control p -> id <= i) \/
  ((forall i p, lanes f !! i = Some p -> ~ replaceable f control p) /\ retireOldestLane visit f control = (false, f)).
Proof.
  intros Ht Hvisit. assert (Hin : forall i p, lanes f !! i = Some p -> i ∈ visit).
  { intros i p Hp. rewrite Hvisit. apply list_elem_of_fmap. exists (i, p). split; [done|]. by apply elem_of_map_to_list. }
  unfold retireOldestLane. destruct (fold_left _ _ _) as [v|] eqn:Hf; [left|right].
  - apply oldest_fold in Hf as (Hr & [id Hid] & _ & Hmin); [|done]. exists id, v.
    rewrite (table_id f id v Ht Hid) in *. repeat split; try done; try apply Hr.
    intros i p Hp Hrep. rewrite <- (table_id f i p Ht Hp). by eapply Hmin; [eapply Hin| |].
  - apply oldest_none in Hf as [_ Hf]. split; [|done]. intros i p Hp. eapply Hf; [by eapply Hin|done].
Qed.

(** ** The invariant *)

(** What closing lanes and taking them out of the table leaves. *)
Record shrink (f f' : laneTable) : Prop := {
  sh_lanes : lanes f' ⊆ lanes f;
  sh_objs : forall p, lane_objs f' !! p = lane_objs f !! p \/
    exists l, lane_objs f !! p = Some l /\ lane_objs f' !! p = Some (closed_lane l)
}.

Lemma shrink_close f p : is_Some (lane_objs f !! p) -> shrink f (close_lane f p).
Proof.
  intros [l Hl]. split; [done|]. intros q. unfold close_lane. cbn.
  destruct (decide (q = p)) as [->|Hne]; [|left; by rewrite lookup_insert_ne]. right. exists l.
  by rewrite lookup_insert_eq, (lane_at_lookup _ _ _ Hl).
Qed.

Lemma shrink_delete f id p : is_Some (lane_objs f !! p) -> shrink f (close_lane (set_lanes f (delete id (lanes f))) p).
Proof.
  intros Hp. destruct (shrink_close (set_lanes f (delete id (lanes f))) p Hp) as [H1 H2]. split; [|exact H2].
  cbn. apply delete_subseteq.
Qed.

Lemma shrink_retire f p : is_Some (lane_objs f !! p) -> shrink f (retireLane f p).
Proof. intros Hp. unfold retireLane. case_bool_decide; [by apply shrink_delete|by apply shrink_close]. Qed.

Lemma shrink_at f f' p : shrink f f' -> lane_at f' p = lane_at f p \/ lane_at f' p = closed_lane (lane_at f p).
Proof.
  intros Hs. unfold lane_at. destruct (sh_objs _ _ Hs p) as [-> | (l & -> & ->)]; [by left|by right].
Qed.

Lemma shrink_sub f f' : shrink f f' -> openIDs f' ⊆ openIDs f.
Proof.
  intros Hs id. rewrite !elem_openIDs. intros (p & Hp & Hc). exists p. split; [by eapply lookup_weaken; [|apply Hs]|].
  destruct (shrink_at f f' p Hs) as [He|He]; rewrite He in Hc; [done|by cbn in Hc].
Qed.

(** The lane a join is about, from when it is in the table, and from when it has
    been acknowledged. *)
Definition joining (j : join_phase) : option Z :=
  match j with
  | Idle => None
  | Full p | Checked p | Added p | Acked p | Over p | Settled p | Refused p => Some p
  end.

Definition in_table (j : join_phase) : option Z :=
  match j with Added p | Acked p | Over p | Settled p | Refused p => Some p | _ => None end.

Definition written (j : join_phase) : option Z :=
  match j with Acked p | Over p | Settled p | Refused p => Some p | _ => None end.

(** An open lane of the table. *)
Definition holds (f : laneTable) (p : Z) : Prop := lanes f !! l_id (lane_at f p) = Some p /\ l_closed (lane_at f p) = false.

Definition count_ok (f : laneTable) (max : Z) (j : join_phase) : Prop :=
  match j with
  | Idle | Full _ | Settled _ | Refused _ => laneCount f <= max
  | Checked p => laneCount f < max \/ (laneCount f <= max /\ victim f p)
  | Added p | Acked p | Over p => laneCount f <= max \/ (laneCount f <= max + 1 /\ victim f p /\ holds f p)
  end.

(** The invariant apart from the count. *)
Record lanes_ok (f : laneTable) (j : join_phase) (acked : list Z) : Prop := {
  lo_table : table_ok f;
  lo_acked : forall p, l_staged (lane_at f p) = true -> l_ready (lane_at f p) = true -> p ∈ acked;
  lo_staged : forall id p, lanes f !! id = Some p -> healthy (lane_at f p) = false -> l_closed (lane_at f p) = false -> in_table j = Some p;
  lo_joining : forall p, joining j = Some p -> exists l, lane_objs f !! p = Some l /\ l_staged l = true /\ l_ready l = false;
  lo_written : forall p, written j = Some p -> p ∈ acked
}.

Definition lanes_inv (s : serverFlow) : Prop :=
  1 <= sf_maxLanes s /\ lanes_ok (sf_lanes s) (sf_join s) (sf_acked s) /\ count_ok (sf_lanes s) (sf_maxLanes s) (sf_join s).

Lemma lanes_ok_shrink f f' j acked : shrink f f' -> lanes_ok f j acked -> lanes_ok f' j acked.
Proof.
  intros Hs [H1 H2 H3 H4 H5]. split; [| | | |done].
  - intros id p Hp. assert (Hp' : lanes f !! id = Some p) by (eapply lookup_weaken; [exact Hp|apply Hs]).
    destruct (H1 id p Hp') as (l & Hl & Hid). destruct (sh_objs _ _ Hs p) as [He|(l' & Hl' & He)]; rewrite He; [by exists l|].
    rewrite Hl in Hl'. simplify_eq. by exists (closed_lane l').
  - intros p. destruct (shrink_at f f' p Hs) as [-> | ->]; apply H2.
  - intros id p Hp Hh Hc. destruct (shrink_at f f' p Hs) as [He|He]; rewrite He in *; [|done].
    eapply H3; [|done|done]. eapply lookup_weaken; [exact Hp|apply Hs].
  - intros p Hp. destruct (H4 p Hp) as (l & Hl & Hst & Hr). destruct (sh_objs _ _ Hs p) as [He|(l' & Hl' & He)]; rewrite He; [by exists l|].
    rewrite Hl in Hl'. simplify_eq. by exists (closed_lane l').
Qed.

(** Another phase of the same join. *)
Lemma lanes_ok_phase f j j' acked acked' :
  acked ⊆ acked' ->
  (forall p, in_table j = Some p -> in_table j' = Some p) -> (forall p, joining j' = Some p -> joining j = Some p) ->
  (forall p, written j' = Some p -> p ∈ acked') -> lanes_ok f j acked -> lanes_ok f j' acked'.
Proof. intros Ha Ht Hj Hw [H1 H2 H3 H4 H5]. split; [done|by eauto|by eauto|by eauto|done]. Qed.

Lemma joining_lane f j acked p :
  lanes_ok f j acked -> joining j = Some p -> is_Some (lane_objs f !! p) /\ l_staged (lane_at f p) = true /\ l_ready (lane_at f p) = false.
Proof. intros Ho Hj. destruct (lo_joining _ _ _ Ho p Hj) as (l & Hl & Hs). rewrite (lane_at_lookup _ _ _ Hl). split; [by eexists|done]. Qed.

(** A lane nothing refers to yet. *)
Lemma with_lane_at f p l q : lane_at (with_lane f p l) q = if decide (q = p) then l else lane_at f q.
Proof.
  unfold with_lane, lane_at. cbn. case_decide as Hd; [subst q; by rewrite lookup_insert_eq|by rewrite lookup_insert_ne].
Qed.

Lemma table_ne f id q p : table_ok f -> lane_objs f !! p = None -> lanes f !! id = Some q -> q <> p.
Proof. intros Ht Hn Hq ->. destruct (Ht id p Hq) as (l & Hl & _). congruence. Qed.

Lemma with_lane_open f p l : table_ok f -> lane_objs f !! p = None -> openIDs (with_lane f p l) = openIDs f.
Proof.
  intros Ht Hn. apply set_eq. intros id. rewrite !elem_openIDs. cbn. split; intros (q & Hq & Hc); exists q; split; try done;
    rewrite with_lane_at in *; rewrite decide_False in * by (by eapply table_ne); done.
Qed.

Lemma with_lane_ok f p l acked j :
  lanes_ok f Idle acked -> lane_objs f !! p = None -> l_ready l = false ->
  j = Idle \/ (exists q, (j = Full q \/ j = Checked q) /\ q = p /\ l_staged l = true) -> lanes_ok (with_lane f p l) j acked.
Proof.
  intros [H1 H2 H3 H4 H5] Hn Hl Hj. split.
  - intros id q Hq. destruct (H1 id q Hq) as (lq & Hlq & Hid). exists lq. split; [|done]. unfold with_lane. cbn.
    rewrite lookup_insert_ne; [done|]. intros ->. congruence.
  - intros q. rewrite with_lane_at. case_decide; [congruence|apply H2].
  - intros id q Hq. rewrite with_lane_at. rewrite decide_False by (by eapply table_ne). intros Hh Hc.
    by pose proof (H3 id q Hq Hh Hc).
  - intros q Hq. exists l. unfold with_lane. cbn.
    destruct Hj as [-> | (r & [-> | ->] & -> & Hs)]; cbn in Hq; simplify_eq; by rewrite lookup_insert_eq.
  - intros q Hq. by destruct Hj as [-> | (r & [-> | ->] & _)].
Qed.

(** A lane in the table. *)
Lemma add_ok f p f' : addLane f p = Ok f' ->
  lanes f !! l_id (lane_at f p) = None /\ lanes f' = <[l_id (lane_at f p) := p]> (lanes f) /\ lane_objs f' = lane_objs f /\
  reserveControlLane f' = reserveControlLane f.
Proof. unfold addLane. destruct (flow_closed f); [done|]. destruct (lanes f !! _) eqn:E; [done|]. by intros [= <-]. Qed.

Lemma add_open f p f' : addLane f p = Ok f' -> openIDs f' ⊆ {[l_id (lane_at f p)]} ∪ openIDs f.
Proof.
  intros (_ & Hl & Ho & _)%add_ok id. rewrite elem_openIDs. unfold lane_at at 1. rewrite Hl, Ho. intros (q & Hq & Hc).
  apply lookup_insert_Some in Hq as [[<- _]|[_ Hq]]; [set_solver|]. apply elem_of_union_r, elem_openIDs. by exists q.
Qed.

Lemma add_lanes_ok f p f' j j' acked :
  addLane f p = Ok f' -> is_Some (lane_objs f !! p) -> lanes_ok f j acked -> in_table j = None ->
  (forall q, joining j' = Some q -> joining j = Some q) -> written j' = None ->
  in_table j' = Some p \/ (in_table j' = None /\ healthy (lane_at f p) = true) -> lanes_ok f' j' acked.
Proof.
  intros (_ & Hl & Ho & _)%add_ok [l Hp] [H1 H2 H3 H4 H5] Hj Hjj Hw Ht.
  assert (Hat : forall q, lane_at f' q = lane_at f q) by (intros q; unfold lane_at; by rewrite Ho).
  split; [| | | |congruence].
  - intros id q. rewrite Hl, Ho. intros [[<- <-]|[_ Hq]]%lookup_insert_Some; [|by apply H1].
    exists l. split; [done|]. by rewrite (lane_at_lookup _ _ _ Hp).
  - intros q. rewrite Hat. apply H2.
  - intros id q. rewrite Hl, Hat. intros [[<- <-]|[_ Hq]]%lookup_insert_Some Hh Hc.
    + destruct Ht as [Ht|[_ Ht]]; [done|congruence].
    + pose proof (H3 id q Hq Hh Hc). congruence.
  - intros q Hq. rewrite Ho. by apply H4, Hjj.
Qed.

Lemma add_victim f p f' : addLane f p = Ok f' -> victim f p -> victim f' p.
Proof.
  intros (Hn & Hl & Ho & Hr)%add_ok (id & v & Hv & Hh & Hc). exists id, v.
  assert (Hat : forall q, lane_at f' q = lane_at f q) by (intros q; unfold lane_at; by rewrite Ho).
  rewrite !Hat, Hl. split; [rewrite lookup_insert_ne; [done|congruence]|]. split; [done|].
  unfold laneIsControl in *. by rewrite Hr.
Qed.

(** A lane out of it again, and a lane made ready. *)
Lemma retire_idle f j p acked : lanes_ok f j acked -> in_table j = Some p -> lanes_ok (retireLane f p) Idle acked.
Proof.
  intros Ho Hj. assert (Hjo : joining j = Some p) by (by destruct j).
  destruct (joining_lane _ _ _ _ Ho Hjo) as [Hs _]. pose proof (lanes_ok_shrink _ _ _ _ (shrink_retire f p Hs) Ho) as [H1 H2 H3 H4 H5].
  split; [done|done| |done|done]. intros id q Hq Hh Hc. pose proof (H3 id q Hq Hh Hc) as He. rewrite Hj in He. simplify_eq.
  unfold retireLane in Hc. rewrite close_at in Hc. by case_decide.
Qed.

Lemma ready_open f p : openIDs (with_lane f p (ready_lane (lane_at f p))) = openIDs f.
Proof.
  apply set_eq. intros id. rewrite !elem_openIDs. cbn. split; intros (q & Hq & Hc); exists q; (split; [done|]);
    rewrite with_lane_at in *; by case_decide; subst.
Qed.

Lemma activate_lanes_ok f p f' acked :
  activateLane f p = Ok f' -> lanes_ok f (Settled p) acked -> lanes_ok f' Idle acked /\ laneCount f' = laneCount f.
Proof.
  intros Ha Ho. destruct (joining_lane _ _ _ _ Ho eq_refl) as ([l Hl] & Hs & Hr).
  assert (He : f' = with_lane f p (ready_lane (lane_at f p))).
  { revert Ha. unfold activateLane. rewrite Hs, Hr. cbn [negb]. destruct (_ || _ || _); [done|]. by intros [= <-]. }
  subst f'. split; [|by rewrite !laneCount_open, ready_open]. destruct Ho as [H1 H2 H3 H4 H5]. split; [| | |done|done].
  - intros id q Hq. destruct (H1 id q Hq) as (lq & Hlq & Hid). unfold with_lane. cbn. destruct (decide (q = p)) as [->|Hne].
    + rewrite lookup_insert_eq. eexists. split; [done|]. cbn. by rewrite (lane_at_lookup _ _ _ Hlq).
    + rewrite lookup_insert_ne by done. by exists lq.
  - intros q. rewrite with_lane_at. case_decide; [subst; intros; by apply H5|apply H2].
  - intros id q Hq. rewrite with_lane_at. case_decide as Hd.
    + intros Hh Hc. exfalso. subst q. unfold healthy, laneReady, ready_lane in *. cbn in *. rewrite Hc in Hh. by rewrite orb_true_r in Hh.
    + intros Hh Hc. pose proof (H3 id q Hq Hh Hc) as He. cbn in He. congruence.
Qed.

(** ** The invariant is kept *)

Lemma holds_open f p : holds f p -> l_id (lane_at f p) ∈ openIDs f.
Proof. intros [Hp Hc]. apply elem_openIDs. by exists p. Qed.

(** A failure leaves the joining lane, or makes room itself. *)
Lemma fail_holds f p q : holds f p -> holds (close_lane f q) p \/ p = q.
Proof. intros [Hp Hc]. destruct (decide (p = q)) as [->|Hne]; [by right|left]. unfold holds. rewrite close_at, decide_False by done. done. Qed.

Lemma count_fail f max j p : count_ok f max j -> count_ok (close_lane f p) max j.
Proof.
  intros Hc. pose proof (laneCount_le _ _ (close_sub f p)) as Hle.
  assert (Hless : forall id, id ∈ openIDs f -> lanes f !! id = Some p -> laneCount (close_lane f p) <= laneCount f - 1)
    by (intros id Hin Hp; exact (laneCount_less _ _ id Hin (close_open f p id Hp))).
  assert (Hjoin : forall q, laneCount f <= max \/ (laneCount f <= max + 1 /\ victim f q /\ holds f q) ->
    laneCount (close_lane f p) <= max \/ (laneCount (close_lane f p) <= max + 1 /\ victim (close_lane f p) q /\ holds (close_lane f p) q)).
  { intros q [Hq|(Hq & Hv & Hh)]; [left; lia|].
    destruct (fail_victim f q p Hv) as [Hv'|(id & Hp & Hin)]; [|left; pose proof (Hless id Hin Hp); lia].
    destruct (fail_holds f q p Hh) as [Hh'|<-]; [right; split; [lia|done]|left]. pose proof (Hless _ (holds_open _ _ Hh) (proj1 Hh)). lia. }
  destruct j as [|q|q|q|q|q|q|q]; cbn in *; try lia; try by apply Hjoin.
  destruct Hc as [Hc|[Hc Hv]]; [left; lia|]. destruct (fail_victim f q p Hv) as [Hv'|(id & Hp & Hin)]; [right; split; [lia|done]|].
  left. pose proof (Hless id Hin Hp). lia.
Qed.

Lemma fail_inv f max j acked p :
  is_Some (lane_objs f !! p) -> lanes_ok f j acked -> count_ok f max j ->
  lanes_ok (snd (closeFailedLane f p)) j acked /\ count_ok (snd (closeFailedLane f p)) max j.
Proof.
  intros Hp Ho Hc. unfold closeFailedLane. destruct (l_closed _); [done|]. cbn. split.
  - by eapply lanes_ok_shrink; [apply shrink_close|].
  - by apply count_fail.
Qed.

(** Taking out the oldest lane makes room whenever the admission check found a lane
    to replace. *)
Lemma oldest_inv f max p acked visit :
  visit ≡ₚ map fst (map_to_list (lanes f)) -> lanes_ok f (Over p) acked -> count_ok f max (Over p) ->
  let f' := snd (retireOldestLane visit f (l_control (lane_at f p))) in
  lanes_ok f' (Settled p) acked /\ laneCount f' <= max.
Proof.
  intros Hv Ho Hc. cbn zeta. assert (Hph : lanes_ok f (Settled p) acked).
  { eapply lanes_ok_phase; [| | | |exact Ho]; try done. apply Ho. }
  destruct (retireOldest_spec f (l_control (lane_at f p)) visit (lo_table _ _ _ Ho) Hv) as [(id & v & Hid & Hr & -> & _)|[Hn ->]]; cbn.
  - destruct (lo_table _ _ _ Ho id v Hid) as (l & Hl & _). split; [by eapply lanes_ok_shrink; [apply shrink_delete|]|].
    pose proof (laneCount_less _ _ id (healthy_open _ _ _ Hid (proj1 Hr)) (delete_sub f id v)). cbn in Hc. lia.
  - split; [done|]. cbn in Hc. destruct Hc as [Hc|(_ & (id & v & Hid & Hh & Hrole) & _)]; [done|]. exfalso. by eapply (Hn id v).
Qed.

Lemma first_inv f max acked p id control visit f' :
  1 <= max -> lanes_ok f Idle acked -> laneCount f <= max -> lane_objs f !! p = None ->
  visit ≡ₚ map fst (map_to_list (lanes (with_lane f p (new_lane id control false)))) ->
  serverFlow_addLane visit max (with_lane f p (new_lane id control false)) p = Ok f' ->
  lanes_ok f' Idle acked /\ laneCount f' <= max.
Proof.
  intros Hmax Ho Hc Hn Hv. set (g := with_lane f p (new_lane id control false)) in *.
  assert (Hg : lanes_ok g Idle acked) by (apply with_lane_ok; [done|done|done|by left]).
  assert (Hat : lane_at g p = new_lane id control false) by (unfold g; rewrite with_lane_at; by case_decide).
  assert (Hadd : forall h f', lanes_ok h Idle acked -> lane_at h p = new_lane id control false -> is_Some (lane_objs h !! p) ->
    laneCount h < max -> addLane h p = Ok f' -> lanes_ok f' Idle acked /\ laneCount f' <= max).
  { intros h h' Hh Hhp Hs Hlt Ha. split; [eapply (add_lanes_ok h p h' Idle Idle); try done; right; by rewrite Hhp|].
    pose proof (laneCount_more _ _ _ (add_open _ _ _ Ha)). lia. }
  unfold serverFlow_addLane. destruct (laneCount g >=? max) eqn:Eg.
  - destruct (retireOldest_spec g (l_control (lane_at g p)) visit (lo_table _ _ _ Hg) Hv) as [(i & v & Hi & Hr & -> & _)|[_ ->]]; cbn [negb orb]; [|done].
    set (h := close_lane _ v). destruct (laneCount h >=? max) eqn:E; [by intros [=]|]. intros Ha.
    assert (Hvp : v <> p) by (eapply (table_ne f); [apply Ho|done|exact Hi]).
    destruct (lo_table _ _ _ Hg i v Hi) as (l & Hl & _). eapply Hadd; [| | | |exact Ha].
    + by eapply lanes_ok_shrink; [apply shrink_delete|].
    + unfold h. rewrite close_at. by rewrite decide_False.
    + unfold h, close_lane. cbn. rewrite !lookup_insert_ne, lookup_insert_eq by done. by eexists.
    + lia.
  - intros Ha. eapply Hadd; [done|done| |lia|exact Ha]. unfold g, with_lane. cbn. rewrite lookup_insert_eq. by eexists.
Qed.

(** The lane is open, or adds nothing to the count. *)
Lemma add_held f p f' : addLane f p = Ok f' -> holds f' p \/ openIDs f' ⊆ openIDs f.
Proof.
  intros (_ & Hl & Ho & _)%add_ok. assert (Hat : forall q, lane_at f' q = lane_at f q) by (intros q; unfold lane_at; by rewrite Ho).
  unfold holds. rewrite Hat, Hl. destruct (l_closed (lane_at f p)) eqn:E; [right|left; by rewrite lookup_insert_eq].
  intros id. rewrite !elem_openIDs, Hl. intros (q & Hq & Hc). rewrite Hat in Hc.
  apply lookup_insert_Some in Hq as [[_ <-]|[_ Hq]]; [congruence|by exists q].
Qed.

(** Taking the joining lane back out undoes its admission. *)
Lemma retire_count f p : holds f p -> laneCount (retireLane f p) <= laneCount f - 1.
Proof.
  intros Hh. apply (laneCount_less _ _ _ (holds_open _ _ Hh)). unfold retireLane. rewrite bool_decide_true by apply Hh. apply delete_sub.
Qed.

Lemma add_inv f max p acked f' :
  addLane f p = Ok f' -> lanes_ok f (Checked p) acked -> count_ok f max (Checked p) ->
  lanes_ok f' (Added p) acked /\ count_ok f' max (Added p).
Proof.
  intros Ha Ho Hc. destruct (joining_lane _ _ _ _ Ho eq_refl) as (Hs & _). split.
  - eapply add_lanes_ok; [exact Ha|done|exact Ho|done|done|done|by left].
  - pose proof (laneCount_more _ _ _ (add_open _ _ _ Ha)). cbn in *.
    destruct Hc as [Hc|[Hc Hv]]; [left; lia|]. destruct (add_held _ _ _ Ha) as [Hh|Hsub].
    + right. split; [lia|]. split; [by eapply add_victim|done].
    + left. apply laneCount_le in Hsub. lia.
Qed.

Lemma lanes_inv_step s s' : lanes_inv s -> lane_step s s' -> lanes_inv s'.
Proof.
  intros (Hmax & Ho & Hc) Hst. destruct Hst as [f max acked p id control visit f' Hn Hv Ha|f max acked p id control Hn _ f'
    |f max acked p|f max acked p|f max acked p|f max acked p|f max acked p|f max acked p visit Hv|f max acked p|f max acked p
    |f max j acked p Hp|f max j acked]; cbn [sf_lanes sf_maxLanes sf_join sf_acked] in *; cbn in Hmax.
  - cbn in Hc. destruct (first_inv _ _ _ _ _ _ _ _ Hmax Ho Hc Hn Hv Ha). by split.
  - assert (He : laneCount f' = laneCount f) by (unfold f'; rewrite !laneCount_open, with_lane_open; [done|apply Ho|done]). cbn in Hc.
    split; [done|]. cbn [sf_lanes sf_maxLanes sf_join sf_acked].
    destruct (laneCount f' >=? max) eqn:E; (split; [apply with_lane_ok; [done|done|done|right; exists p; by auto]|cbn; lia]).
  - assert (Hph : forall j, (j = Checked p \/ j = Idle) -> lanes_ok f j acked)
      by (intros j [-> | ->]; (eapply lanes_ok_phase; [| | | |exact Ho]; done)).
    cbn in Hc. destruct (can_replace _ _) eqn:E; (split; [done|]); cbn; (split; [apply Hph; by auto|]); [|done].
    right. split; [done|by apply can_replace_victim].
  - destruct (addLane f p) as [f'|e] eqn:Ha; (split; [done|]); cbn [sf_lanes sf_maxLanes sf_join sf_acked].
    + by apply (add_inv f).
    + split; [eapply lanes_ok_phase; [| | | |exact Ho]; done|]. cbn in *. lia.
  - split; [done|]. split; [|done]. cbn. eapply lanes_ok_phase; [| | | |exact Ho]; try done; [set_solver|].
    intros q [= ->]. by left.
  - split; [done|]. split; [by eapply retire_idle|]. destruct (joining_lane _ _ _ _ Ho eq_refl) as (Hs & _).
    cbn in *. pose proof (laneCount_le _ _ (retire_sub f p)). destruct Hc as [Hc|(Hc & _ & Hh)]; [lia|]. apply retire_count in Hh. lia.
  - cbn in Hc. split; [done|]. cbn. destruct (laneCount f >? max) eqn:E;
      (split; [eapply lanes_ok_phase; [| | | |exact Ho]; try done; apply Ho|cbn; first [done|lia]]).
  - destruct (oldest_inv _ _ _ _ _ Hv Ho Hc). by split.
  - destruct (activateLane f p) as [f'|e] eqn:Ha; (split; [done|]); cbn in *.
    + destruct (activate_lanes_ok _ _ _ _ Ha Ho) as [H1 H2]. split; [done|cbn; lia].
    + split; [eapply lanes_ok_phase; [| | | |exact Ho]; try done; apply Ho|done].
  - split; [done|]. split; [by eapply retire_idle|]. cbn in *. pose proof (laneCount_le _ _ (retire_sub f p)). lia.
  - split; [done|]. by apply fail_inv.
  - split; [done|]. split; [destruct Ho as [H1 H2 H3 H4 H5]; by split|done].
Qed.

(** ** What a step leaves alone *)

Definition kept (f f' : laneTable) (id p : Z) : Prop := lanes f' !! id = Some p /\ lane_at f' p = lane_at f p.

Lemma retire_kept f id p q : lanes f !! id = Some p -> p <> q -> kept f (retireLane f q) id p.
Proof.
  intros Hp Hne. unfold kept, retireLane. rewrite close_at, decide_False by done. case_bool_decide as Hd; [|done].
  split; [|done]. cbn. rewrite lookup_delete_ne; [done|]. intros <-. congruence.
Qed.

Lemma add_kept f f' id p q : addLane f q = Ok f' -> lanes f !! id = Some p -> kept f f' id p.
Proof.
  intros (Hn & Hl & Ho & _)%add_ok Hp. unfold kept, lane_at. rewrite Hl, Ho. split; [|done].
  rewrite lookup_insert_ne; [done|congruence].
Qed.

Lemma with_kept f id p q l : lanes f !! id = Some p -> p <> q -> kept f (with_lane f q l) id p.
Proof. intros Hp Hne. unfold kept. by rewrite with_lane_at, decide_False. Qed.

Lemma oldest_kept f id p control visit :
  table_ok f -> visit ≡ₚ map fst (map_to_list (lanes f)) -> lanes f !! id = Some p ->
  kept f (snd (retireOldestLane visit f control)) id p \/ laneIsControl f (lane_at f p) = control.
Proof.
  intros Ht Hv Hp. destruct (retireOldest_spec f control visit Ht Hv) as [(i & v & Hi & [_ Hr] & -> & _)|[_ ->]]; [|by left].
  cbn [snd]. destruct (decide (p = v)) as [->|Hne]; [by right|left]. unfold kept. rewrite close_at, decide_False by done.
  split; [|done]. cbn. rewrite lookup_delete_ne; [done|congruence].
Qed.

(** Why a healthy lane is one no longer: it failed, or a lane of its role joins. *)
Definition replaced_by (s s' : serverFlow) (p q : Z) : Prop :=
  q <> p /\ (joining (sf_join s) = Some q \/ lane_objs (sf_lanes s) !! q = None) /\
  laneIsControl (sf_lanes s) (lane_at (sf_lanes s) p) = l_control (lane_at (sf_lanes s') q).

Lemma first_kept f max acked p q id i control visit f' :
  table_ok f -> lane_objs f !! q = None -> lanes f !! i = Some p ->
  visit ≡ₚ map fst (map_to_list (lanes (with_lane f q (new_lane id control false)))) ->
  serverFlow_addLane visit max (with_lane f q (new_lane id control false)) q = Ok f' ->
  kept f f' i p \/ replaced_by (mkServerFlow f max Idle acked) (mkServerFlow f' max Idle acked) p q.
Proof.
  intros Ht Hn Hp Hv Ha. pose proof (table_ne f i p q Ht Hn Hp) as Hne. set (g := with_lane f q _) in *.
  assert (Hg : lane_at g q = new_lane id control false) by (unfold g; rewrite with_lane_at; by case_decide).
  assert (Hgp : lane_at g p = lane_at f p) by (unfold g; rewrite with_lane_at; by rewrite decide_False).
  assert (Htg : table_ok g).
  { intros j r Hr. destruct (Ht j r Hr) as (l & Hl & Hid). exists l. split; [|done]. unfold g, with_lane. cbn.
    rewrite lookup_insert_ne; [done|]. intros <-. congruence. }
  unfold serverFlow_addLane in Ha. rewrite Hg in Ha. cbn [l_control new_lane] in Ha. destruct (laneCount g >=? max).
  - destruct (retireOldest_spec g control visit Htg Hv) as [(j & v & Hj & [Hh Hr] & He & _)|[_ He]]; rewrite He in Ha; cbn [negb orb] in Ha; [|done].
    set (h := close_lane _ v) in *. destruct (laneCount h >=? max); [done|].
    assert (Hvq : v <> q) by (eapply (table_ne f); [done|done|exact Hj]).
    destruct (decide (p = v)) as [->|Hpv].
    + right. split; [done|]. split; [by right|]. cbn. apply add_ok in Ha as (_ & _ & Ho & _).
      replace (lane_at f' q) with (lane_at h q) by (unfold lane_at; by rewrite Ho). unfold h. rewrite close_at, decide_False by done.
      change (lane_at (set_lanes g (delete j (lanes g))) q) with (lane_at g q). rewrite Hg, <- Hgp. exact Hr.
    + left. change (lanes f !! j = Some v) in Hj.
      assert (Hhp : lanes h !! i = Some p) by (unfold h; cbn; rewrite lookup_delete_ne; [done|congruence]).
      destruct (add_kept _ _ _ _ _ Ha Hhp) as [H1 H2]. split; [done|]. rewrite H2. unfold h. by rewrite close_at, decide_False.
  - left. destruct (add_kept _ _ i p _ Ha Hp) as [H1 H2]. split; [done|congruence].
Qed.

Lemma step_keeps s s' i p :
  lanes_inv s -> lane_step s s' -> lanes (sf_lanes s) !! i = Some p -> healthy (lane_at (sf_lanes s) p) = true ->
  kept (sf_lanes s) (sf_lanes s') i p \/ sf_lanes s' = close_lane (sf_lanes s) p \/ exists q, replaced_by s s' p q.
Proof.
  intros (_ & Ho & _) Hst. pose proof (lo_table _ _ _ Ho) as Ht.
  assert (Hne : forall q, joining (sf_join s) = Some q -> healthy (lane_at (sf_lanes s) p) = true -> p <> q).
  { intros q Hq Hh ->. destruct (joining_lane _ _ _ _ Ho Hq) as (_ & Hs & Hr). unfold healthy, laneReady in Hh.
    rewrite Hs, Hr in Hh. by destruct (l_closed _). }
  destruct Hst as [f max acked q id control visit f' Hn Hv Ha|f max acked q id control Hn _ f'
    |f max acked q|f max acked q|f max acked q|f max acked q|f max acked q|f max acked q visit Hv|f max acked q|f max acked q
    |f max j acked q Hq|f max j acked]; cbn [sf_lanes sf_join] in *; intros Hp Hh; try (by left); try specialize (Hne q eq_refl Hh).
  - destruct (first_kept f max acked p q id i control visit f' Ht Hn Hp Hv Ha) as [Hk|Hr]; [by left|right; right; by exists q].
  - left. apply with_kept; [done|by eapply table_ne].
  - left. destruct (addLane f q) as [f'|e] eqn:Ha; [by eapply add_kept|done].
  - left. by apply retire_kept.
  - destruct (oldest_kept f i p (l_control (lane_at f q)) visit Ht Hv Hp) as [Hk|Hr]; [by left|]. right. right. exists q.
    split; [done|]. split; [by left|]. cbn. rewrite Hr.
    destruct (retireOldest_spec f (l_control (lane_at f q)) visit Ht Hv) as [(j & v & _ & _ & -> & _)|[_ ->]]; [|done].
    cbn [snd]. rewrite close_at. case_decide; [by subst|done].
  - left. unfold activateLane. repeat case_match; simplify_eq; cbn; try done. by apply with_kept.
  - left. by apply retire_kept.
  - unfold closeFailedLane. destruct (l_closed (lane_at f q)) eqn:E; [by left|]. cbn [snd].
    destruct (decide (p = q)) as [->|Hpq]; [right; by left|]. left. split; [done|]. by rewrite close_at, decide_False.
Qed.

(** ** A join on its own *)

Lemma retire_added f p f' : addLane f p = Ok f' -> lanes (retireLane f' p) = lanes f.
Proof.
  intros (Hn & Hl & Ho & _)%add_ok. unfold retireLane. replace (lane_at f' p) with (lane_at f p) by (unfold lane_at; by rewrite Ho).
  rewrite bool_decide_true by (rewrite Hl; apply lookup_insert_eq). cbn. rewrite Hl. by rewrite delete_insert_id.
Qed.

Section Join.
Context (f : laneTable) (max : Z) (acked : list Z) (p id : Z) (control : bool) (visit : list Z).
Context (Hok : lanes_ok f Idle acked) (Hfresh : lane_objs f !! p = None) (Hid : 0 < id < 2 ^ 64).
Context (Hvisit : visit ≡ₚ map fst (map_to_list (<[id := p]> (lanes f)))).

Let g : laneTable := with_lane f p (new_lane id control true).

Definition admitted : laneTable :=
  mkTable (<[id := p]> (lanes f)) (lane_objs g) (if id >=? nextJoinID f then id +u64 1 else nextJoinID f)
    (lanesJoined f +u64 1) (flow_closed f) (reserveControlLane f).

Definition trimmed : laneTable := if laneCount admitted >? max then snd (retireOldestLane visit admitted control) else admitted.

Lemma g_at : lane_at g p = new_lane id control true.
Proof. unfold g. rewrite with_lane_at. by case_decide. Qed.

Lemma admitted_at q : lane_at admitted q = lane_at g q.
Proof. done. Qed.

Lemma addLane_fresh :
  addLane g p = if flow_closed f then Err FlowIsClosed else match lanes f !! id with Some _ => Err DuplicateLaneID | None => Ok admitted end.
Proof. unfold addLane. by rewrite g_at. Qed.

Lemma admitted_ok : table_ok admitted.
Proof.
  intros i q. cbn. intros [[<- <-]|[_ Hq]]%lookup_insert_Some.
  - rewrite lookup_insert_eq. by eexists.
  - destruct (lo_table _ _ _ Hok i q Hq) as (l & Hl & Hi). exists l. rewrite lookup_insert_ne; [done|]. intros <-. congruence.
Qed.

(** The joining lane is not the one taken out. *)
Lemma trimmed_kept : lanes trimmed !! id = Some p /\ lane_at trimmed p = new_lane id control true /\ flow_closed trimmed = flow_closed f.
Proof.
  assert (Ha : lanes admitted !! id = Some p /\ lane_at admitted p = new_lane id control true).
  { split; [cbn; apply lookup_insert_eq|]. rewrite admitted_at. apply g_at. }
  destruct Ha as [Hl Ha]. unfold trimmed. destruct (_ >? _); [|by split].
  destruct (retireOldest_spec admitted control visit admitted_ok Hvisit) as [(i & v & Hi & [Hh _] & -> & _)|[_ ->]]; [|by split].
  cbn [snd]. assert (Hne : p <> v) by (intros <-; by rewrite Ha in Hh).
  rewrite close_at, decide_False by done. split; [|by split]. cbn. rewrite lookup_delete_ne; [apply lookup_insert_eq|].
  intros ->. congruence.
Qed.

Lemma activate_trimmed : flow_closed f = false -> activateLane trimmed p = Ok (with_lane trimmed p (ready_lane (new_lane id control true))).
Proof.
  intros Hc. destruct trimmed_kept as (Hl & Ha & Hf). unfold activateLane. rewrite Ha, Hf, Hc. cbn [l_staged l_closed l_ready new_lane l_id negb].
  by rewrite bool_decide_true.
Qed.

Lemma commit_result ok :
  commitJoinedLane visit max g p ok =
    if (laneCount g >=? max) && negb (can_replace g control) then (Some LaneLimitReached, g)
    else if flow_closed f then (Some FlowIsClosed, g)
    else match lanes f !! id with
         | Some _ => (Some DuplicateLaneID, g)
         | None =>
             if ok then (None, with_lane trimmed p (ready_lane (new_lane id control true))) else (Some AckNotWritten, retireLane admitted p)
         end.
Proof.
  unfold commitJoinedLane. rewrite g_at. cbn [l_control new_lane]. destruct (_ && _); [done|]. rewrite addLane_fresh.
  destruct (flow_closed f) eqn:Hc; [done|]. destruct (lanes f !! id); [done|]. destruct ok; [|done]. cbn [negb].
  change (if laneCount admitted >? max then _ else _) with trimmed. by rewrite activate_trimmed.
Qed.

(** The steps of the relation compose to it. *)
Lemma commit_runs ok :
  exists acked', steps lane_step (mkServerFlow f max Idle acked) (mkServerFlow (snd (commitJoinedLane visit max g p ok)) max Idle acked').
Proof.
  rewrite commit_result. assert (Hj := l_join f max acked p id control Hfresh Hid). cbn zeta in Hj. fold g in Hj.
  assert (Hcheck : steps lane_step (mkServerFlow f max Idle acked)
    (mkServerFlow g max (if (laneCount g >=? max) && negb (can_replace g control) then Idle else Checked p) acked)).
  { eapply steps_cons; [exact Hj|]. destruct (laneCount g >=? max); [|apply steps_refl]. apply steps_one.
    pose proof (l_replace g max acked p) as Hr. rewrite g_at in Hr. cbn [l_control new_lane] in Hr.
    by destruct (can_replace g control). }
  destruct (_ && _); [by exists acked|].
  pose proof (l_add g max acked p) as Hadd. rewrite addLane_fresh in Hadd.
  destruct (flow_closed f) eqn:Hc; [exists acked; by eapply steps_trans; [exact Hcheck|apply steps_one]|].
  destruct (lanes f !! id); [exists acked; by eapply steps_trans; [exact Hcheck|apply steps_one]|].
  pose proof (steps_trans _ _ _ _ Hcheck (steps_one _ _ _ Hadd)) as Ha. destruct ok; cbn [snd].
  - exists (p :: acked). eapply steps_trans; [exact Ha|]. eapply steps_cons; [apply l_ack|]. eapply steps_cons; [apply l_over|].
    pose proof (l_activate trimmed max (p :: acked) p) as Hact. rewrite activate_trimmed in Hact by done.
    eapply steps_trans; [|apply steps_one, Hact]. unfold trimmed. destruct (_ >? _); [|apply steps_refl].
    apply steps_one. pose proof (l_oldest admitted max (p :: acked) p visit Hvisit) as Ho.
    by rewrite admitted_at, g_at in Ho.
  - exists acked. eapply steps_trans; [exact Ha|]. apply steps_one, l_ack_fails.
Qed.

End Join.

(** ** The choice of a lane *)

Lemma data_loop_spec f shared ls : forall control p,
  data_loop f shared control ls = Some p -> p ∈ ls /\ laneIsControl f (lane_at f p) = false.
Proof.
  induction ls as [|q ls IH]; intros control p Hd; cbn in Hd; [done|]. destruct (laneIsControl f (lane_at f q)) eqn:E.
  - destruct (IH _ _ Hd). split; [by right|done].
  - destruct (isolateFromControlLane _ _); [|done]. simplify_eq. split; [by left|done].
Qed.

Lemma data_loop_isolates f shared ls : shared <> Some false -> forall control q,
  q ∈ ls -> laneIsControl f (lane_at f q) = false -> is_Some (data_loop f shared control ls).
Proof.
  intros Hs. induction ls as [|r ls IH]; intros control q Hin Hq; [by apply elem_of_nil in Hin|]. cbn.
  apply elem_of_cons in Hin as [<-|Hin].
  - rewrite Hq. unfold isolateFromControlLane. by destruct control as [c|], shared as [[|]|].
  - destruct (laneIsControl f (lane_at f r)); [by eapply IH|].
    unfold isolateFromControlLane. by destruct control as [c|], shared as [[|]|].
Qed.

Lemma dataLane_one f shared ls : ls <> [] -> exists p, dataLane f shared ls = [p] /\ p ∈ ls.
Proof.
  intros Hne. assert (Ht : exists p, take 1 ls = [p] /\ p ∈ ls).
  { destruct ls as [|p ls]; [done|]. exists p. split; [done|by left]. }
  unfold dataLane. destruct (_ || _); [done|]. destruct (data_loop _ _ _ _) as [p|] eqn:E; [|done].
  exists p. split; [done|]. by apply data_loop_spec in E as [? _].
Qed.

Lemma dataLane_isolated f shared ls q :
  reserveControlLane f = true -> shared <> Some false -> q ∈ ls -> laneIsControl f (lane_at f q) = false ->
  forall p, dataLane f shared ls = [p] -> laneIsControl f (lane_at f p) = false.
Proof.
  intros Hr Hs Hin Hq p. unfold dataLane. rewrite Hr. cbn [negb]. rewrite orb_false_r. destruct (len ls =? 1) eqn:El.
  - destruct ls as [|r [|r' ls]]; [by apply elem_of_nil in Hin| |rewrite !len_cons in El; pose proof (len_nonneg ls); lia].
    apply list_elem_of_singleton in Hin as <-. cbn. by intros [= <-].
  - destruct (data_loop_isolates f shared ls Hs None q Hin Hq) as [r Hd]. rewrite Hd. intros [= <-]. by apply data_loop_spec in Hd as [_ ?].
Qed.

(** ** The theorems *)

Lemma lanes_reach reserve s : steps lane_step (newServerFlow reserve) s -> lanes_inv s /\ sf_maxLanes s = serverLaneBudget reserve.
Proof.
  intros Hs. refine (steps_invariant lane_step (fun s => lanes_inv s /\ sf_maxLanes s = serverLaneBudget reserve) _ _ _ _ Hs).
  - intros s1 s2 [Hi Hm] Hst. split; [by eapply lanes_inv_step|]. rewrite <- Hm. destruct Hst; cbn; repeat case_match; done.
  - split; [|done]. split; [by destruct reserve|]. split; [|by destruct reserve]. split; cbn; try done.
Qed.

(** C29: the server's admission of lanes, with joins, failures and the flow's end
    interleaved at every critical section.  The open lanes never exceed the budget
    while no join is under way, and exceed it by one at most while one is; no
    capacity is held by a lane that cannot be used; a lane that joined carries
    frames only after its acknowledgement was written; and a healthy lane leaves
    the table only because it failed or because a lane of the same role joined, so
    a bulk lane never evicts the control lane nor the reverse. *)
Theorem lane_joins_safe reserve s s' :
  steps lane_step (newServerFlow reserve) s -> lane_step s s' ->
  let f := sf_lanes s in
  laneCount f <= serverLaneBudget reserve + 1 /\
  (joining (sf_join s) = None ->
    laneCount f <= serverLaneBudget reserve /\ (forall id, id ∈ openIDs f -> exists p, lanes f !! id = Some p /\ p ∈ healthyLanes f)) /\
  (forall p, p ∈ healthyLanes f -> l_staged (lane_at f p) = true -> p ∈ sf_acked s) /\
  (forall p, p ∈ healthyLanes f ->
    p ∈ healthyLanes (sf_lanes s') \/ sf_lanes s' = close_lane f p \/ exists q, replaced_by s s' p q).
Proof.
  intros Hs Hst. cbn zeta. destruct (lanes_reach _ _ Hs) as [Hi Hm]. pose proof Hi as (_ & Ho & Hc). rewrite <- Hm. repeat split.
  - destruct (sf_join s); cbn in Hc; lia.
  - destruct (sf_join s); cbn in *; try done; lia.
  - intros id Hid. apply elem_openIDs in Hid as (p & Hp & Hcl). exists p. split; [done|]. apply elem_healthyLanes. exists id. split; [done|].
    destruct (healthy _) eqn:E; [done|]. pose proof (lo_staged _ _ _ Ho id p Hp E Hcl) as Ht. by destruct (sf_join s).
  - intros p (id & Hp & Hh)%elem_healthyLanes Hstaged. apply (lo_acked _ _ _ Ho); [done|].
    unfold healthy, laneReady in Hh. rewrite Hstaged in Hh. by destruct (l_ready _), (l_closed _).
  - intros p (id & Hp & Hh)%elem_healthyLanes. destruct (step_keeps s s' id p Hi Hst Hp Hh) as [[H1 H2]|Hr]; [left|by right].
    apply elem_healthyLanes. exists id. by rewrite H2.
Qed.

(** What [commitJoinedLane] does when nothing interferes.  It succeeds exactly
    when the flow is open, the identifier is new, there is room or a lane of the
    same role to replace, and the acknowledgement is written; then the lane is
    healthy, and otherwise the table is as it was. *)
Theorem join_outcome f max acked p id control visit ok :
  lanes_ok f Idle acked -> lane_objs f !! p = None -> 0 < id < 2 ^ 64 -> visit ≡ₚ map fst (map_to_list (<[id := p]> (lanes f))) ->
  let g := with_lane f p (new_lane id control true) in
  let '(e, f') := commitJoinedLane visit max g p ok in
  (e = None <-> flow_closed f = false /\ lanes f !! id = None /\ (laneCount f < max \/ can_replace g control = true) /\ ok = true) /\
  (e = None -> lanes f' !! id = Some p /\ p ∈ healthyLanes f') /\
  (e <> None -> lanes f' = lanes f) /\
  exists acked', steps lane_step (mkServerFlow f max Idle acked) (mkServerFlow f' max Idle acked').
Proof.
  intros Hok Hfresh Hid Hv. cbn zeta. pose proof (commit_runs f max acked p id control visit Hok Hfresh Hid Hv ok) as Hrun.
  rewrite (commit_result f max acked p id control visit Hok Hfresh Hv ok) in *. set (g := with_lane f p _) in *.
  assert (Hg : laneCount g = laneCount f) by (rewrite !laneCount_open; unfold g; rewrite with_lane_open; [done|apply Hok|done]).
  destruct ((laneCount g >=? max) && negb (can_replace g control)) eqn:E1.
  { split; [|by split]. split; [done|]. intros (_ & _ & [H|H] & _); [lia|]. rewrite H in E1. by rewrite andb_false_r in E1. }
  assert (Hroom : laneCount f < max \/ can_replace g control = true) by (destruct (can_replace g control); [by right|left; lia]).
  destruct (flow_closed f) eqn:Hc; [split; [|by split]; split; [done|by intros (? & _)]|].
  destruct (lanes f !! id) as [q|] eqn:Hl; [split; [|by split]; split; [done|by intros (_ & ? & _)]|].
  destruct ok; [|split; [|split; [done|split; [|exact Hrun]]]].
  - split; [done|]. split; [|by split]. intros _. destruct (trimmed_kept f max acked p id control visit Hok Hfresh Hv) as (Ht & Ha & _).
    split; [exact Ht|]. apply elem_healthyLanes. exists id. split; [exact Ht|]. rewrite with_lane_at. by case_decide.
  - split; [done|by intros (_ & _ & _ & ?)].
  - intros _. pose proof (addLane_fresh f p id control) as Ha. rewrite Hc, Hl in Ha. exact (retire_added _ _ _ Ha).
Qed.

(** Which lane carries a frame.  There is one whenever a lane is healthy, and
    exactly one; control frames use the control lane while it is healthy; and bulk
    data of a flow that reserves it stays off the control lane whenever another
    lane is healthy and the control connection is shared, or not known not to be. *)
Theorem lane_planes f shared bulk :
  (laneCandidates f shared bulk = None <-> healthyLanes f = []) /\
  forall ls, laneCandidates f shared bulk = Some ls ->
    exists p, ls = [p] /\ p ∈ healthyLanes f /\
      (bulk = false -> (exists q, q ∈ healthyLanes f /\ laneIsControl f (lane_at f q) = true) -> laneIsControl f (lane_at f p) = true) /\
      (bulk = true -> reserveControlLane f = true -> shared <> Some false ->
        (exists q, q ∈ healthyLanes f /\ laneIsControl f (lane_at f q) = false) -> laneIsControl f (lane_at f p) = false).
Proof.
  unfold laneCandidates. destruct (healthyLanes f) as [|h hs] eqn:Hh; [by split|].
  set (l := h :: hs) in *. destruct bulk; cbn [negb].
  - split; [done|]. intros ls [= <-]. destruct (dataLane_one f shared l) as (p & Hp & Hin); [done|]. exists p.
    split; [done|]. split; [done|]. split; [done|]. intros _ Hr Hs (q & Hq & Hqc). by eapply dataLane_isolated.
  - destruct (List.find _ l) as [p|] eqn:Hf; (split; [done|]); intros ls [= <-].
    + apply find_some in Hf as [Hin Hp]. exists p. split; [done|]. split; [by apply list_elem_of_In|done].
    + exists h. split; [done|]. split; [by left|]. split; [|done]. intros _ (q & Hq & Hqc).
      apply list_elem_of_In in Hq. pose proof (find_none _ _ Hf q Hq) as Hn. cbn in Hn. congruence.
Qed.

(** ** Lane identifiers *)

Lemma free_id_spec fuel f : forall id,
  match free_id fuel f id with
  | Some r => id <= r < Z.shiftl 1 20 /\ lanes f !! r = None /\ forall i, id <= i < r -> is_Some (lanes f !! i)
  | None => forall i, id <= i < Z.min (Z.shiftl 1 20) (id + Z.of_nat fuel) -> is_Some (lanes f !! i)
  end.
Proof.
  induction fuel as [|fuel IH]; intros id; cbn [free_id]; [intros i; lia|].
  destruct (id <? Z.shiftl 1 20) eqn:E; [|intros i; lia]. destruct (lanes f !! id) as [p|] eqn:Hp; [|split; [lia|split; [done|lia]]].
  specialize (IH (id + 1)). assert (Hid : is_Some (lanes f !! id)) by by eexists.
  assert (Hstep : forall b, (forall i, id + 1 <= i < b -> is_Some (lanes f !! i)) -> forall i, id <= i < b -> is_Some (lanes f !! i)).
  { intros b Hb i Hi. destruct (decide (i = id)) as [->|]; [done|]. apply Hb. lia. }
  destruct (free_id fuel f (id + 1)) as [r|].
  - destruct IH as (H1 & H2 & H3). split; [lia|]. split; [done|]. by apply Hstep.
  - apply Hstep. intros i Hi. apply IH. lia.
Qed.

(** One more identifier than there are entries: one of them is free. *)
Lemma some_id_free (m : gmap Z Z) id : ~ forall i, id <= i < id + Z.of_nat (S (size m)) -> is_Some (m !! i).
Proof.
  intros Hall. assert (Hsub : (list_to_set (seqZ id (Z.of_nat (S (size m)))) : gset Z) ⊆ dom m).
  { intros i Hi. apply elem_of_list_to_set, elem_of_seqZ in Hi. apply elem_of_dom. apply Hall. lia. }
  apply subseteq_size in Hsub. rewrite size_list_to_set in Hsub by apply NoDup_seqZ. rewrite length_seqZ, size_dom in Hsub. lia.
Qed.

(** [allocateJoinID] returns the lowest unused identifier that has not been given
    out, and fails only when there is none below 2^20. *)
Theorem allocateJoinID_fresh f :
  match allocateJoinID f with
  | Ok (id, f') => nextJoinID f <= id < 2 ^ 20 /\ lanes f !! id = None /\ nextJoinID f' = id + 1 /\
      forall i, nextJoinID f <= i < id -> is_Some (lanes f !! i)
  | Err _ => forall i, nextJoinID f <= i < 2 ^ 20 -> is_Some (lanes f !! i)
  end.
Proof.
  unfold allocateJoinID. pose proof (free_id_spec (S (size (lanes f))) f (nextJoinID f)) as H.
  destruct (free_id _ _ _) as [id|]; [by destruct H as (H1 & H2 & H3)|]. intros i Hi.
  destruct (decide (nextJoinID f + Z.of_nat (S (size (lanes f))) <= 2 ^ 20)) as [Hle|Hgt].
  - exfalso. apply (some_id_free (lanes f) (nextJoinID f)). intros j Hj. apply H. change (Z.shiftl 1 20) with (2 ^ 20). lia.
  - apply H. change (Z.shiftl 1 20) with (2 ^ 20). lia.
Qed.

(** ** Failed lanes stay in the table *)

(** A flow whose lanes all failed, [n] of them. *)
Definition all_failed (s : serverFlow) (n : Z) : Prop :=
  sf_join s = Idle /\ flow_closed (sf_lanes s) = false /\ openIDs (sf_lanes s) = ∅ /\
  Z.of_nat (size (lanes (sf_lanes s))) = n /\ forall id p, lanes (sf_lanes s) !! id = Some p -> id <= n.

Lemma one_more_failed reserve s n :
  steps lane_step (newServerFlow reserve) s -> all_failed s n -> 0 <= n -> n + 1 < 2 ^ 64 ->
  exists s', steps lane_step s s' /\ all_failed s' (n + 1).
Proof.
  intros Hs (Hj & Hc & Ho & Hn & Hid) H0 Hlt. destruct (lanes_reach _ _ Hs) as [(Hmax & Hok & _) _].
  destruct s as [f max j acked]. cbn in *. subst j. set (p := fresh (dom (lane_objs f))).
  assert (Hp : lane_objs f !! p = None) by (apply not_elem_of_dom, is_fresh).
  assert (Hl : lanes f !! (n + 1) = None) by (destruct (lanes f !! (n + 1)) as [q|] eqn:E; [apply Hid in E; lia|done]).
  set (visit := map fst (map_to_list (<[n + 1 := p]> (lanes f)))).
  pose proof (commit_runs f max acked p (n + 1) false visit Hok Hp ltac:(lia) ltac:(reflexivity) true) as [acked' Hrun].
  rewrite (commit_result f max acked p (n + 1) false visit Hok Hp ltac:(reflexivity)) in Hrun.
  set (g := with_lane f p _) in Hrun.
  assert (Hcount : laneCount g = 0).
  { rewrite laneCount_open. unfold g. rewrite with_lane_open by (first [apply Hok|done]). by rewrite Ho, size_empty. }
  replace (laneCount g >=? max) with false in Hrun by lia. cbn [andb] in Hrun. rewrite Hc, Hl in Hrun. cbn [snd] in Hrun.
  assert (Htrim : trimmed f max p (n + 1) false visit = admitted f p (n + 1) false).
  { unfold trimmed. pose proof (addLane_fresh f p (n + 1) false) as Ha. rewrite Hc, Hl in Ha.
    pose proof (laneCount_more _ _ _ (add_open _ _ _ Ha)). fold g in H. by replace (_ >? _) with false by lia. }
  rewrite Htrim in Hrun. set (f1 := with_lane (admitted f p (n + 1) false) p _) in Hrun.
  assert (Hf1 : lane_objs f1 !! p = Some (ready_lane (new_lane (n + 1) false true))) by (unfold f1; cbn; apply lookup_insert_eq).
  eexists. split; [eapply steps_trans; [exact Hrun|]; apply steps_one; apply (l_fail f1 max Idle acked' p); by eexists|].
  unfold all_failed, closeFailedLane. cbn [sf_join sf_lanes]. rewrite (lane_at_lookup _ _ _ Hf1). cbn [ready_lane new_lane l_closed snd].
  split; [done|]. split; [done|]. split; [|split].
  - apply elem_of_equiv_empty_L. intros i (q & Hq & Hcl)%elem_openIDs. rewrite close_at in Hcl. case_decide as Hd; [done|].
    apply (not_elem_of_empty (C := gset Z) i). rewrite <- Ho. apply elem_openIDs. exists q. cbn in Hq.
    apply lookup_insert_Some in Hq as [[_ ->]|[_ Hq]]; [done|]. split; [done|].
    unfold f1 in Hcl. rewrite with_lane_at, decide_False in Hcl by done. rewrite admitted_at in Hcl. by rewrite with_lane_at, decide_False in Hcl.
  - cbn. rewrite map_size_insert_None by done. lia.
  - cbn. intros i q [[<- _]|[_ Hq]]%lookup_insert_Some; [lia|]. apply Hid in Hq. lia.
Qed.

(** Only [retireOldestLane] and [retireLane] delete entries: the table of a flow
    whose lanes keep failing grows with every join, although never more than one
    lane is open. *)
Theorem failed_lanes_stay reserve n : 0 <= n < 2 ^ 64 ->
  exists s, steps lane_step (newServerFlow reserve) s /\ laneCount (sf_lanes s) = 0 /\ Z.of_nat (size (lanes (sf_lanes s))) = n.
Proof.
  intros Hn. enough (exists s, steps lane_step (newServerFlow reserve) s /\ all_failed s n) as (s & Hs & H).
  { exists s. split; [done|]. destruct H as (_ & _ & Ho & Hsz & _). rewrite laneCount_open, Ho, size_empty. done. }
  assert (H0 : 0 <= n) by lia. revert Hn. pattern n. apply natlike_ind; [| |exact H0].
  - intros _. exists (newServerFlow reserve). split; [apply steps_refl|]. unfold all_failed, openIDs. cbn.
    rewrite map_filter_empty, dom_empty_L. done.
  - intros m Hm IH Hlt. destruct IH as (s & Hs & Ha); [lia|].
    destruct (one_more_failed reserve s m Hs Ha Hm ltac:(lia)) as (s' & Hs' & Ha'). exists s'. split; [by eapply steps_trans|done].
Qed.

(** ** A flow with a control lane *)

(** Lane 0 is the control lane, lane 1 carries data, and lane 2 joins. *)
Definition ex_lanes0 : laneTable := mkTable {[0 := 0]} {[0 := new_lane 0 true false]} 1 1 false true.
Definition ex_lanes1 : laneTable :=
  snd (commitJoinedLane [0; 1] 2 (with_lane ex_lanes0 1 (new_lane 1 false true)) 1 true).
Definition ex_lanes2 : laneTable :=
  match addLane (with_lane ex_lanes1 2 (new_lane 2 false true)) 2 with Ok f => f | Err _ => ex_lanes1 end.
Definition ex_visit : list Z := map fst (map_to_list (lanes ex_lanes2)).
Definition ex_lanes3 : laneTable := snd (retireOldestLane ex_visit ex_lanes2 false).
Definition ex_over : serverFlow := mkServerFlow ex_lanes2 2 (Over 2) [2; 1].
Definition ex_settled : serverFlow := mkServerFlow ex_lanes3 2 (Settled 2) [2; 1].

Lemma ex_first : steps lane_step (newServerFlow true) (mkServerFlow ex_lanes0 2 Idle []).
Proof. apply steps_one. apply (l_first _ _ _ 0 0 true []); by vm_compute. Qed.

Lemma ex_joined : steps lane_step (newServerFlow true) (mkServerFlow ex_lanes1 2 Idle [1]).
Proof.
  eapply steps_trans; [exact ex_first|].
  eapply steps_cons; [apply (l_join _ _ _ 1 1 false); by vm_compute|].
  eapply steps_cons; [apply (l_add _ _ _ 1)|]. eapply steps_cons; [apply (l_ack _ _ _ 1)|].
  eapply steps_cons; [apply (l_over _ _ _ 1)|]. eapply steps_cons; [apply (l_activate _ _ _ 1)|]. apply steps_refl.
Qed.

Lemma ex_over_reachable : steps lane_step (newServerFlow true) ex_over.
Proof.
  eapply steps_trans; [exact ex_joined|].
  eapply steps_cons; [apply (l_join _ _ _ 2 2 false); by vm_compute|].
  eapply steps_cons; [apply (l_replace _ _ _ 2)|].
  eapply steps_cons; [apply (l_add _ _ _ 2)|]. eapply steps_cons; [apply (l_ack _ _ _ 2)|].
  eapply steps_cons; [apply (l_over _ _ _ 2)|]. apply steps_refl.
Qed.

(** Three lanes are open, and the control lane stays. *)
Lemma lane_joins_safe_witness :
  laneCount ex_lanes2 = 3 /\ laneCount ex_lanes3 = 2 /\ (0 ∈ healthyLanes ex_lanes3 \/ ex_lanes3 = close_lane ex_lanes2 0 \/
    exists q, replaced_by ex_over ex_settled 0 q).
Proof.
  split; [vm_compute; reflexivity|]. split; [vm_compute; reflexivity|].
  assert (Hst : lane_step ex_over ex_settled) by (apply (l_oldest ex_lanes2 2 [2; 1] 2 ex_visit); reflexivity).
  destruct (lane_joins_safe true ex_over ex_settled ex_over_reachable Hst) as (_ & _ & _ & H).
  apply H. apply list_elem_of_In. vm_compute. by left.
Defined.

Lemma join_outcome_witness :
  lanes (snd (commitJoinedLane ex_visit 2 (with_lane ex_lanes1 2 (new_lane 2 false true)) 2 true)) !! 2 = Some 2 /\
  lanes ex_lanes1 !! 1 = Some 1 /\
  lanes (snd (commitJoinedLane ex_visit 2 (with_lane ex_lanes1 2 (new_lane 2 false true)) 2 true)) !! 1 = None.
Proof.
  destruct (lanes_reach _ _ ex_joined) as [(_ & Hok & _) _].
  pose proof (join_outcome ex_lanes1 2 [1] 2 2 false ex_visit true Hok) as H.
  split; [|split; vm_compute; reflexivity]. apply H; [by vm_compute|done|by vm_compute|by vm_compute].
Defined.

Lemma lane_planes_witness :
  laneCandidates ex_lanes1 None true = Some [1] /\ laneIsControl ex_lanes1 (lane_at ex_lanes1 1) = false.
Proof.
  split; [vm_compute; reflexivity|]. destruct (lane_planes ex_lanes1 None true) as [_ H].
  destruct (H [1] ltac:(vm_compute; reflexivity)) as (p & Hp & _ & _ & Hd). injection Hp as <-.
  apply Hd; [reflexivity|reflexivity|discriminate|]. exists 1. split; [|vm_compute; reflexivity].
  apply list_elem_of_In. vm_compute. right. by left.
Defined.
