(* ===== verification/Server.v ===== *)
(** The server's books ([internal/pep/server.go]): which flows an account holds,
    which sessions exist, and who may join a lane to one.

    A flow is handled by [handleSession]; [server_step] interleaves the handlers at
    their critical sections with the goroutines that retain a completed session and
    the timers that forget it.  What a handler does in between (dialling, running
    the flow) shows as the order of its steps.  The authorization store is
    [Identity]'s, and lanes themselves are [Lanes]'. *)

From S2P Require Import Prelude Frame Session Identity Udp.
Import protocol.

(** ** Accounts *)

Record accountUsage := mkUsage { u_flows : Z; u_devices : gmap (list Z) Z }.

Inductive accountRefusal := errAccountFlowLimit | errAccountClientLimit | errAccountUnauthorized.

Definition text (s : String.string) : bytes := map (fun c => Z.of_N (Ascii.N_of_ascii c)) (String.list_ascii_of_string s).

Definition refusal_code (r : accountRefusal) : Z :=
  match r with errAccountUnauthorized => ResetAuthentication | _ => ResetFlowLimit end.

Definition refusal_message (r : accountRefusal) : bytes :=
  match r with
  | errAccountFlowLimit => text "account flow limit reached"
  | errAccountClientLimit => text "account device limit reached"
  | errAccountUnauthorized => text "device is not authorized"
  end.

Notation usages := (gmap (list Z) accountUsage).

Definition admitAccountFlow (d : storeData) (now : Z) (p : Principal) (m : usages) : result accountRefusal usages :=
  match Authorize d p now with
  | Err _ => Err errAccountUnauthorized
  | Ok (account, _) =>
      let limits := Limits account in
      let usage := m !! AccountID p in
      let flows := match usage with Some u => u_flows u | None => 0 end in
      let clients := match usage with Some u => Z.of_nat (size (u_devices u)) | None => 0 end in
      let known := match usage with Some u => bool_decide (is_Some (u_devices u !! DeviceID p)) | None => false end in
      if (MaxFlows limits >? 0) && (flows >=? MaxFlows limits) then Err errAccountFlowLimit
      else if (MaxClients limits >? 0) && negb known && (clients >=? MaxClients limits) then Err errAccountClientLimit
      else
        let u := default (mkUsage 0 ∅) usage in
        Ok (<[AccountID p := mkUsage (u_flows u + 1) (<[DeviceID p := default 0 (u_devices u !! DeviceID p) + 1]> (u_devices u))]> m)
  end.

Definition releaseAccountFlow (p : Principal) (m : usages) : usages :=
  match m !! AccountID p with
  | None => m
  | Some u =>
      if u_flows u <=? 1 then delete (AccountID p) m
      else
        let held := default 0 (u_devices u !! DeviceID p) in
        <[AccountID p := mkUsage (u_flows u - 1)
          (if held <=? 1 then delete (DeviceID p) (u_devices u) else <[DeviceID p := held - 1]> (u_devices u))]> m
  end.

(** ** Sessions *)

Notation session_table := (gmap (list Z) Z).

Definition registerSession (max : Z) (m : session_table) (id : bytes) (flow : Z) : bool * session_table :=
  if Z.of_nat (size m) >=? max then (false, m)
  else match m !! id with Some _ => (false, m) | None => (true, <[id := flow]> m) end.

Definition lookupSession (m : session_table) (id : bytes) : option Z := m !! id.

Definition unregisterSession (m : session_table) (id : bytes) (flow : Z) : session_table :=
  if bool_decide (m !! id = Some flow) then delete id m else m.

(** ** The first frame of a stream *)

Definition reply (typ flags flowID sequence class : Z) (session payload : bytes) : Frame :=
  mkFrame (mkHeader Version typ flags session flowID sequence 0 class) payload.

Definition reset (open : Frame) (class code : Z) (message : bytes) : Frame :=
  reply TypeReset 0 (h_FlowID (f_Header open)) 0 class (h_SessionID (f_Header open)) (ResetPayload code message).

(** What a handler does with it: nothing, a reset, a lane to join, a flow to open. *)
Inductive open_request := Dropped | Rejected (f : Frame) | JoinLane (lane : Z) | OpenFlow.

Definition read_open (authorized : bool) (open : Frame) : open_request :=
  let h := f_Header open in
  if negb authorized then Dropped
  else if h_Type h =? TypeJoin then
    if IsZeroSessionID (h_SessionID h) || (h_FlowID h =? 0) || negb (h_Sequence h =? 0) ||
       negb (Z.ldiff (h_Flags h) FlagReserveControl =? 0) || negb (len (f_Payload open) =? 8)
    then Rejected (reset open ClassBulk ResetProtocol (text "invalid lane join"))
    else if be_val (f_Payload open) =? 0 then Rejected (reset open ClassBulk ResetProtocol (text "invalid lane join"))
    else JoinLane (be_val (f_Payload open))
  else if negb (h_Type h =? TypeOpen) || IsZeroSessionID (h_SessionID h) || (h_FlowID h =? 0) || negb (h_Sequence h =? 0)
  then Rejected (reset open ClassNew ResetProtocol (text "invalid flow open"))
  else OpenFlow.

(** What an admitted open asks for. *)
Inductive open_target := UDPAssociation (token : option bytes) | Stream (destination : bytes) | NoDestination.

Definition open_payload (payload : bytes) : open_target :=
  if IsUDPAssociation payload then UDPAssociation None
  else
    match DecodeUDPResumeOpen payload with
    | Some token => UDPAssociation (Some token)
    | None => match DecodeDestination payload with Ok destination => Stream destination | Err _ => NoDestination end
    end.

(** ** Joining a lane *)

(** A server flow, as far as joins and the session table depend on it. *)
Record flowInfo := mkInfo {
  fi_session : bytes;
  fi_flowID : Z;
  fi_principal : Principal;
  fi_reserveControl : bool;
  fi_recvAckFlag : Z;
  fi_completed : bool;
  fi_finSent : bool;
  fi_finSequence : Z;
  fi_localAbortSent : bool;
  fi_remoteFinSeen : bool;
  fi_remoteFinSequence : Z
}.

Inductive join_refusal := InvalidIdentity | UnknownSession | FlowMismatch | PrincipalMismatch | InvalidControlReplacement.

(** A refusal with its reset, the frames that repeat a completed flow's end, or a
    lane for [commitJoinedLane]. *)
Inductive join_action :=
| JoinRefused (why : join_refusal) (f : Frame)
| JoinCompleted (fs : list Frame)
| JoinCommitted (control : bool).

Definition open_ok (open : Frame) : Frame :=
  reply TypeOpenOK 0 (h_FlowID (f_Header open)) 0 ClassBulk (h_SessionID (f_Header open)) [].

Definition final_ack (info : flowInfo) (open : Frame) : Frame :=
  reply TypeAck (Z.lor FlagAckFinal (fi_recvAckFlag info)) (h_FlowID (f_Header open)) (fi_remoteFinSequence info) ClassBulk
    (h_SessionID (f_Header open)) [].

Definition replayed_fin (info : flowInfo) (open : Frame) : list Frame :=
  if fi_finSent info then
    [reply TypeClose (if fi_localAbortSent info then Z.lor FlagFin FlagCloseAbort else FlagFin) (h_FlowID (f_Header open))
       (fi_finSequence info) ClassBulk (h_SessionID (f_Header open)) []]
  else [].

Definition handleLaneJoinOpen (found : option flowInfo) (principal : Principal) (lane : Z) (open : Frame) : join_action :=
  let h := f_Header open in
  let refuse why message := JoinRefused why (reset open ClassBulk ResetProtocol message) in
  if IsZeroSessionID (h_SessionID h) || (lane =? 0) || (h_FlowID h =? 0) then refuse InvalidIdentity (text "invalid lane join identity")
  else
    match found with
    | None => refuse UnknownSession (text "unknown session")
    | Some info =>
        if negb (fi_flowID info =? h_FlowID h) then refuse FlowMismatch (text "unknown session")
        else if negb (samePrincipal (fi_principal info) principal) then refuse PrincipalMismatch (text "unknown session")
        else
          let control := negb (Z.land (h_Flags h) FlagReserveControl =? 0) in
          if control && negb (fi_reserveControl info) then refuse InvalidControlReplacement (text "invalid control lane replacement")
          else if fi_completed info then JoinCompleted (open_ok open :: final_ack info open :: replayed_fin info open)
          else JoinCommitted control
    end.

(** What a lane is told once it has joined. *)
Definition replay_close (info : flowInfo) (open : Frame) : list Frame :=
  (if fi_remoteFinSeen info then [final_ack info open] else []) ++ replayed_fin info open.

(** ** The handlers *)

Inductive phase := Opening | Registered (flow : Z) | Leaving.

Record handler := mkHandler { hd_principal : Principal; hd_phase : phase }.

Record server := mkServer {
  v_max : Z;
  v_usage : usages;
  v_sessions : session_table;
  v_flows : gmap Z flowInfo;
  v_handlers : gmap Z handler;
  v_timers : list (bytes * Z);
  v_admitted : list Principal (* everyone admitted so far *)
}.

Definition complete_info (i : flowInfo) : flowInfo :=
  mkInfo (fi_session i) (fi_flowID i) (fi_principal i) (fi_reserveControl i) (fi_recvAckFlag i) true (fi_finSent i) (fi_finSequence i)
    (fi_localAbortSent i) (fi_remoteFinSeen i) (fi_remoteFinSequence i).

(** The timer is started once. *)
Definition retainCompletedSession (s : server) (flow : Z) : server :=
  match v_flows s !! flow with
  | None => s
  | Some i =>
      if fi_completed i then s
      else mkServer (v_max s) (v_usage s) (v_sessions s) (<[flow := complete_info i]> (v_flows s)) (v_handlers s)
             ((fi_session i, flow) :: v_timers s) (v_admitted s)
  end.

Definition set_handler (s : server) (k : Z) (h : handler) : server :=
  mkServer (v_max s) (v_usage s) (v_sessions s) (v_flows s) (<[k := h]> (v_handlers s)) (v_timers s) (v_admitted s).

Definition set_sessions (s : server) (m : session_table) : server :=
  mkServer (v_max s) (v_usage s) m (v_flows s) (v_handlers s) (v_timers s) (v_admitted s).

Inductive server_step : server -> server -> Prop :=
(* an open is admitted *)
| sv_admit s k d now p m :
    v_handlers s !! k = None -> admitAccountFlow d now p (v_usage s) = Ok m ->
    server_step s (mkServer (v_max s) m (v_sessions s) (v_flows s) (<[k := mkHandler p Opening]> (v_handlers s)) (v_timers s)
      (p :: v_admitted s))
(* its flow is registered, or the table refuses it *)
| sv_register s k p flow i ok m :
    v_handlers s !! k = Some (mkHandler p Opening) -> v_flows s !! flow = None -> fi_principal i = p -> fi_completed i = false ->
    registerSession (v_max s) (v_sessions s) (fi_session i) flow = (ok, m) ->
    server_step s (mkServer (v_max s) (v_usage s) m (<[flow := i]> (v_flows s))
      (<[k := mkHandler p (if ok then Registered flow else Leaving)]> (v_handlers s)) (v_timers s) (v_admitted s))
(* no stream is opened: a UDP association has ended, or the destination failed *)
| sv_unopened s k p :
    v_handlers s !! k = Some (mkHandler p Opening) -> server_step s (set_handler s k (mkHandler p Leaving))
(* both directions have ended: [watchFlowCompletion] *)
| sv_retain s flow : server_step s (retainCompletedSession s flow)
(* the flow's state moves on *)
| sv_flow s flow i i' :
    v_flows s !! flow = Some i -> fi_session i' = fi_session i -> fi_flowID i' = fi_flowID i -> fi_principal i' = fi_principal i ->
    fi_completed i' = fi_completed i ->
    server_step s (mkServer (v_max s) (v_usage s) (v_sessions s) (<[flow := i']> (v_flows s)) (v_handlers s) (v_timers s) (v_admitted s))
(* the runner returns, with a complete flow or without *)
| sv_complete s k p flow :
    v_handlers s !! k = Some (mkHandler p (Registered flow)) ->
    server_step s (set_handler (retainCompletedSession s flow) k (mkHandler p Leaving))
| sv_incomplete s k p flow i :
    v_handlers s !! k = Some (mkHandler p (Registered flow)) -> v_flows s !! flow = Some i ->
    server_step s (set_handler (set_sessions s (unregisterSession (v_sessions s) (fi_session i) flow)) k (mkHandler p Leaving))
(* the handler returns *)
| sv_release s k p :
    v_handlers s !! k = Some (mkHandler p Leaving) ->
    server_step s (mkServer (v_max s) (releaseAccountFlow p (v_usage s)) (v_sessions s) (v_flows s) (delete k (v_handlers s)) (v_timers s)
      (v_admitted s))
(* a completed session has lingered long enough *)
| sv_timer s id flow l1 l2 :
    v_timers s = l1 ++ (id, flow) :: l2 ->
    server_step s (mkServer (v_max s) (v_usage s) (unregisterSession (v_sessions s) id flow) (v_flows s) (v_handlers s) (l1 ++ l2)
      (v_admitted s)).

Definition newServer (max : Z) : server := mkServer max ∅ ∅ ∅ ∅ [] [].

(** ** Counting handlers *)

Definition of_account (a : list Z) (h : handler) : Z := if bool_decide (AccountID (hd_principal h) = a) then 1 else 0.

Definition of_device (a d : list Z) (h : handler) : Z :=
  if bool_decide (AccountID (hd_principal h) = a /\ DeviceID (hd_principal h) = d) then 1 else 0.

(** The flows an account holds, and those one of its devices holds. *)
Definition holders (a : list Z) (hs : gmap Z handler) : Z := msum (fun _ => of_account a) hs.
Definition device_holders (a d : list Z) (hs : gmap Z handler) : Z := msum (fun _ => of_device a d) hs.

Definition counted (n : Z) : option Z := if n =? 0 then None else Some n.

(** The books say what the handlers hold. *)
Definition usage_ok (m : usages) (hs : gmap Z handler) : Prop :=
  forall a, match m !! a with
    | None => holders a hs = 0
    | Some u => u_flows u = holders a hs /\ 0 < u_flows u /\ forall d, u_devices u !! d = counted (device_holders a d hs)
    end.

Lemma of_account_bounds a h : 0 <= of_account a h <= 1.
Proof. unfold of_account. case_bool_decide; lia. Qed.

Lemma of_device_bounds a d h : 0 <= of_device a d h <= of_account a h.
Proof. unfold of_device, of_account. repeat case_bool_decide; try lia. naive_solver. Qed.

Lemma device_nonneg a d hs : 0 <= device_holders a d hs.
Proof. apply msum_nonneg. intros. apply of_device_bounds. Qed.

Lemma device_le a d hs : device_holders a d hs <= holders a hs.
Proof.
  unfold device_holders, holders. induction hs as [|k h hs Hk IH] using map_ind; [done|].
  rewrite !msum_insert by done. pose proof (of_device_bounds a d h). lia.
Qed.

Lemma of_account_self p ph : of_account (AccountID p) (mkHandler p ph) = 1.
Proof. unfold of_account. by rewrite bool_decide_true. Qed.

Lemma of_account_other a p ph : a <> AccountID p -> of_account a (mkHandler p ph) = 0.
Proof. intros Hne. unfold of_account. rewrite bool_decide_false; [done|]. cbn. congruence. Qed.

Lemma of_device_self p ph : of_device (AccountID p) (DeviceID p) (mkHandler p ph) = 1.
Proof. unfold of_device. by rewrite bool_decide_true. Qed.

Lemma of_device_other a d p ph : d <> DeviceID p -> of_device a d (mkHandler p ph) = 0.
Proof. intros Hne. unfold of_device. rewrite bool_decide_false; [done|]. cbn. naive_solver. Qed.

(** The counts see only the principal. *)
Lemma usage_ok_phase m hs k p ph ph' :
  hs !! k = Some (mkHandler p ph) -> usage_ok m hs -> usage_ok m (<[k := mkHandler p ph']> hs).
Proof.
  intros Hk Hu a. assert (Ha : holders a (<[k := mkHandler p ph']> hs) = holders a hs).
  { unfold holders. rewrite (msum_update _ _ _ _ _ Hk). change (of_account a (mkHandler p ph')) with (of_account a (mkHandler p ph)). lia. }
  assert (Hd : forall d, device_holders a d (<[k := mkHandler p ph']> hs) = device_holders a d hs).
  { intros d. unfold device_holders. rewrite (msum_update _ _ _ _ _ Hk).
    change (of_device a d (mkHandler p ph')) with (of_device a d (mkHandler p ph)). lia. }
  specialize (Hu a). rewrite Ha. destruct (m !! a); [|done]. destruct Hu as (H1 & H2 & H3). split; [done|]. split; [done|].
  intros d. by rewrite Hd.
Qed.

(** ** Admission *)

(** What an admission requires and does. *)
Lemma admitAccountFlow_spec d now p m m' : admitAccountFlow d now p m = Ok m' ->
  exists account device, Authorize d p now = Ok (account, device) /\
    let u := default (mkUsage 0 ∅) (m !! AccountID p) in
    let u' := mkUsage (u_flows u + 1) (<[DeviceID p := default 0 (u_devices u !! DeviceID p) + 1]> (u_devices u)) in
    m' = <[AccountID p := u']> m /\
    (a_MaxFlows account > 0 -> u_flows u' <= a_MaxFlows account) /\
    (a_MaxClients account > 0 -> Z.of_nat (size (u_devices u')) <= a_MaxClients account \/ is_Some (u_devices u !! DeviceID p)).
Proof.
  unfold admitAccountFlow. destruct (Authorize d p now) as [[account device]|e]; [|done]. cbn [MaxFlows MaxClients Limits].
  destruct (_ && _) eqn:E1; [done|]. destruct (_ && _) eqn:E2 in |- *; [done|]. intros [= <-]. exists account, device.
  split; [done|]. cbn zeta. split; [done|]. destruct (m !! AccountID p) as [u|]; cbn [default from_option id u_flows u_devices] in *; split; intros Hp.
  - lia.
  - case_bool_decide as Hk; [by right|left]. cbn [negb] in E2. rewrite map_size_insert_None by (by apply eq_None_not_Some). lia.
  - lia.
  - left. rewrite map_size_insert_None by done. rewrite map_size_empty. lia.
Qed.

Lemma usage_ok_admit d now p m m' hs k ph :
  usage_ok m hs -> hs !! k = None -> admitAccountFlow d now p m = Ok m' -> usage_ok m' (<[k := mkHandler p ph]> hs).
Proof.
  intros Hu Hk Hm a. destruct (admitAccountFlow_spec _ _ _ _ _ Hm) as (account & device & _ & Hs). cbn zeta in Hs. destruct Hs as [-> _]. unfold holders.
  rewrite msum_insert by done. change (msum (fun _ => of_account a) hs) with (holders a hs).
  assert (Hd : forall d, device_holders a d (<[k := mkHandler p ph]> hs) = of_device a d (mkHandler p ph) + device_holders a d hs).
  { intros d'. unfold device_holders. by rewrite msum_insert. }
  specialize (Hu a). destruct (decide (a = AccountID p)) as [->|Hne].
  - rewrite lookup_insert_eq, of_account_self. cbn [u_flows u_devices].
    assert (Hu' : u_flows (default (mkUsage 0 ∅) (m !! AccountID p)) = holders (AccountID p) hs /\
      forall d, u_devices (default (mkUsage 0 ∅) (m !! AccountID p)) !! d = counted (device_holders (AccountID p) d hs)).
    { destruct (m !! AccountID p) as [u|]; cbn; [by destruct Hu as (? & _ & ?)|]. split; [done|]. intros d'. rewrite lookup_empty.
      pose proof (device_nonneg (AccountID p) d' hs). pose proof (device_le (AccountID p) d' hs).
      unfold counted. by replace (_ =? 0) with true by lia. }
    destruct Hu' as [H1 H2]. pose proof (msum_nonneg (fun _ => of_account (AccountID p)) hs ltac:(intros; apply of_account_bounds)) as H0.
    change (msum _ hs) with (holders (AccountID p) hs) in H0. split; [lia|]. split; [lia|].
    intros d'. rewrite Hd. pose proof (device_nonneg (AccountID p) d' hs). destruct (decide (d' = DeviceID p)) as [->|Hned].
    + rewrite lookup_insert_eq, of_device_self, H2. unfold counted. destruct (_ =? 0) eqn:E in |- *; cbn; [|];
        replace (_ =? 0) with false by lia; f_equal; lia.
    + rewrite lookup_insert_ne by done. rewrite of_device_other by done. apply H2.
  - rewrite lookup_insert_ne by done. rewrite of_account_other by done. destruct (m !! a); [|done]. destruct Hu as (H1 & H2 & H3).
    split; [done|]. split; [done|]. intros d'. rewrite Hd, H3. pose proof (of_device_bounds a d' (mkHandler p ph)) as Hb.
    rewrite of_account_other in Hb by done. f_equal. lia.
Qed.

Lemma usage_ok_release p ph m hs k :
  usage_ok m hs -> hs !! k = Some (mkHandler p ph) -> usage_ok (releaseAccountFlow p m) (delete k hs).
Proof.
  intros Hu Hk a.
  assert (Ha : forall a, holders a hs = of_account a (mkHandler p ph) + holders a (delete k hs)) by (intros; by apply (msum_delete (fun _ => of_account _))).
  assert (Hd : forall a d, device_holders a d hs = of_device a d (mkHandler p ph) + device_holders a d (delete k hs))
    by (intros; by apply (msum_delete (fun _ => of_device _ _))).
  pose proof (Hu (AccountID p)) as Hp. specialize (Ha a) as Haa. unfold releaseAccountFlow.
  assert (Hnn : 0 <= holders (AccountID p) (delete k hs)) by (apply msum_nonneg; intros; apply of_account_bounds).
  specialize (Ha (AccountID p)). rewrite of_account_self in Ha. destruct (m !! AccountID p) as [u|] eqn:Em; [|lia].
  destruct Hp as (H1 & H2 & H3). destruct (decide (a = AccountID p)) as [->|Hne].
  - destruct (u_flows u <=? 1) eqn:E; [rewrite lookup_delete_eq; lia|]. rewrite lookup_insert_eq. cbn [u_flows u_devices].
    split; [lia|]. split; [lia|]. intros d. specialize (Hd (AccountID p)). pose proof (device_nonneg (AccountID p) (DeviceID p) (delete k hs)).
    pose proof (Hd (DeviceID p)) as Hself. rewrite of_device_self in Hself. 
    set (n := device_holders (AccountID p) (DeviceID p) hs) in *.
    assert (Hheld : u_devices u !! DeviceID p = Some n) by (rewrite H3; unfold counted; by replace (_ =? 0) with false by lia).
    rewrite Hheld. cbn [default from_option id]. destruct (decide (d = DeviceID p)) as [->|Hned].
    + unfold counted. destruct (n <=? 1) eqn:E1; [rewrite lookup_delete_eq; by replace (_ =? 0) with true by lia|].
      rewrite lookup_insert_eq. replace (_ =? 0) with false by lia. f_equal. lia.
    + specialize (Hd d). rewrite of_device_other in Hd by done. specialize (H3 d).
      destruct (n <=? 1); [rewrite lookup_delete_ne by done|rewrite lookup_insert_ne by done]; rewrite H3; f_equal; lia.
  - rewrite of_account_other in Haa by done. assert (Hother : forall d, device_holders a d hs = device_holders a d (delete k hs)).
    { intros d. rewrite Hd. pose proof (of_device_bounds a d (mkHandler p ph)) as Hb. rewrite of_account_other in Hb by done. lia. }
    specialize (Hu a). destruct (u_flows u <=? 1); [rewrite lookup_delete_ne by done|rewrite lookup_insert_ne by done];
      (destruct (m !! a); [|lia]); (destruct Hu as (? & ? & Hdev); split; [lia|]; split; [done|]; intros d; by rewrite <- Hother).
Qed.

(** ** The invariant *)

(** Who will take an entry of the session table out again: the timer of a completed
    flow, or the handler of a running one. *)
Definition owned (s : server) (id : bytes) (flow : Z) (i : flowInfo) : Prop :=
  if fi_completed i then (id, flow) ∈ v_timers s else exists k p, v_handlers s !! k = Some (mkHandler p (Registered flow)).

Record books_ok (s : server) : Prop := {
  bo_usage : usage_ok (v_usage s) (v_handlers s);
  bo_size : Z.of_nat (size (v_sessions s)) <= v_max s;
  bo_entry : forall id flow, v_sessions s !! id = Some flow -> exists i, v_flows s !! flow = Some i /\ fi_session i = id /\ owned s id flow i;
  bo_handlers : forall k h, v_handlers s !! k = Some h -> hd_principal h ∈ v_admitted s;
  bo_flows : forall flow i, v_flows s !! flow = Some i -> fi_principal i ∈ v_admitted s
}.

Lemma unregister_sub m id flow : unregisterSession m id flow ⊆ m.
Proof. unfold unregisterSession. case_bool_decide; [apply delete_subseteq|done]. Qed.

Lemma unregister_lookup m id flow id' flow' :
  unregisterSession m id flow !! id' = Some flow' -> m !! id' = Some flow' /\ (id', flow') <> (id, flow).
Proof.
  unfold unregisterSession. case_bool_decide as Hd.
  - rewrite lookup_delete_Some. intros [Hne Hl]. split; [done|]. congruence.
  - intros Hl. split; [done|]. congruence.
Qed.

Lemma unregister_size m id flow : Z.of_nat (size (unregisterSession m id flow)) <= Z.of_nat (size m).
Proof. pose proof (map_subseteq_size _ _ (unregister_sub m id flow)). lia. Qed.

Lemma register_cases max m id flow ok m' : registerSession max m id flow = (ok, m') ->
  (ok = true /\ m !! id = None /\ m' = <[id := flow]> m /\ Z.of_nat (size m') <= max) \/ (ok = false /\ m' = m).
Proof.
  unfold registerSession. destruct (_ >=? max) eqn:E; [intros [= <- <-]; by right|]. destruct (m !! id) eqn:Hl; intros [= <- <-]; [by right|left].
  rewrite map_size_insert_None by done. repeat split; try done; lia.
Qed.

Lemma retain_fields s flow :
  let s' := retainCompletedSession s flow in
  v_max s' = v_max s /\ v_usage s' = v_usage s /\ v_sessions s' = v_sessions s /\ v_handlers s' = v_handlers s /\ v_admitted s' = v_admitted s.
Proof. unfold retainCompletedSession. by repeat case_match. Qed.

(** The completed flow's entry is left to its timer. *)
Lemma retainCompleted_ok s flow : books_ok s -> books_ok (retainCompletedSession s flow).
Proof.
  intros Hb. unfold retainCompletedSession. destruct (v_flows s !! flow) as [i|] eqn:Hi; [|done]. destruct (fi_completed i) eqn:Hc; [done|].
  destruct Hb as [H1 H2 H3 H4 H5]. split; cbn; try done.
  - intros id fl Hl. destruct (H3 id fl Hl) as (j & Hj & Hs & Ho). destruct (decide (fl = flow)) as [->|Hne].
    + rewrite Hi in Hj. simplify_eq. exists (complete_info j). rewrite lookup_insert_eq. split; [done|]. split; [done|].
      unfold owned. cbn. by left.
    + exists j. rewrite lookup_insert_ne by done. split; [done|]. split; [done|]. unfold owned in *. cbn. destruct (fi_completed j); [by right|done].
  - intros fl j [[<- <-]|[_ Hj]]%lookup_insert_Some; [apply (H5 flow i Hi)|by eapply H5].
Qed.

Lemma retain_completed s flow i : v_flows s !! flow = Some i ->
  exists j, v_flows (retainCompletedSession s flow) !! flow = Some j /\ fi_completed j = true.
Proof.
  intros Hi. unfold retainCompletedSession. rewrite Hi. destruct (fi_completed i) eqn:Hc; [by exists i|]. cbn.
  rewrite lookup_insert_eq. by eexists.
Qed.

(** A handler moves on from a flow the table no longer needs it for. *)
Lemma leaving_ok s k p ph :
  books_ok s -> v_handlers s !! k = Some (mkHandler p ph) ->
  (forall flow, ph = Registered flow -> forall id i, v_sessions s !! id = Some flow -> v_flows s !! flow = Some i -> fi_completed i = true) ->
  books_ok (set_handler s k (mkHandler p Leaving)).
Proof.
  intros [H1 H2 H3 H4 H5] Hk Hph. split; cbn; try done.
  - by eapply usage_ok_phase.
  - intros id flow Hl. destruct (H3 id flow Hl) as (i & Hi & Hs & Ho). exists i. split; [done|]. split; [done|]. unfold owned in *. cbn.
    destruct (fi_completed i) eqn:Hc; [done|]. destruct Ho as (k' & p' & Hk'). destruct (decide (k' = k)) as [->|Hne].
    + rewrite Hk in Hk'. simplify_eq. exfalso. pose proof (Hph flow eq_refl _ i Hl Hi). congruence.
    + exists k', p'. by rewrite lookup_insert_ne.
  - intros k' h [[<- <-]|[_ Hk']]%lookup_insert_Some; [apply (H4 k _ Hk)|by eapply H4].
Qed.

Lemma unregister_ok s id flow : books_ok s -> books_ok (set_sessions s (unregisterSession (v_sessions s) id flow)).
Proof.
  intros [H1 H2 H3 H4 H5]. split; cbn; try done.
  - pose proof (unregister_size (v_sessions s) id flow). lia.
  - intros id' flow' [Hl _]%unregister_lookup. by apply H3.
Qed.

Lemma register_ok s k p flow i ok m :
  books_ok s -> v_handlers s !! k = Some (mkHandler p Opening) -> v_flows s !! flow = None -> fi_principal i = p -> fi_completed i = false ->
  registerSession (v_max s) (v_sessions s) (fi_session i) flow = (ok, m) ->
  books_ok (mkServer (v_max s) (v_usage s) m (<[flow := i]> (v_flows s))
    (<[k := mkHandler p (if ok then Registered flow else Leaving)]> (v_handlers s)) (v_timers s) (v_admitted s)).
Proof.
  intros [H1 H2 H3 H4 H5] Hk Hf Hp Hc Hr. apply register_cases in Hr. split; cbn [v_usage v_handlers v_sessions v_flows v_max v_admitted].
  - by eapply usage_ok_phase.
  - destruct Hr as [(_ & _ & _ & Hsz)|[_ ->]]; done.
  - assert (Hold : forall id fl, v_sessions s !! id = Some fl -> exists j, <[flow := i]> (v_flows s) !! fl = Some j /\ fi_session j = id /\
      if fi_completed j then (id, fl) ∈ v_timers s
      else exists k' p', <[k := mkHandler p (if ok then Registered flow else Leaving)]> (v_handlers s) !! k' = Some (mkHandler p' (Registered fl))).
    { intros id fl Hl. destruct (H3 id fl Hl) as (j & Hj & Hs & Ho). exists j. rewrite lookup_insert_ne by congruence.
      split; [done|]. split; [done|]. unfold owned in Ho. destruct (fi_completed j); [done|]. destruct Ho as (k' & p' & Hk').
      exists k', p'. rewrite lookup_insert_ne; [done|]. intros <-. congruence. }
    intros id fl. destruct Hr as [(-> & Hn & -> & _)|[_ ->]]; [|apply Hold].
    intros [[<- <-]|[_ Hl]]%lookup_insert_Some; [|by apply Hold]. exists i. rewrite lookup_insert_eq. split; [done|]. split; [done|].
    unfold owned. rewrite Hc. exists k, p. cbn. by rewrite lookup_insert_eq.
  - intros k' h [[<- <-]|[_ Hk']]%lookup_insert_Some; [apply (H4 k _ Hk)|by eapply H4].
  - intros fl j [[<- <-]|[_ Hj]]%lookup_insert_Some; [rewrite Hp; apply (H4 k _ Hk)|by eapply H5].
Qed.

Lemma books_step s s' : books_ok s -> server_step s s' -> books_ok s'.
Proof.
  intros Hb Hst. destruct Hst as [s k d now p m Hk Ha|s k p flow i ok m Hk Hf Hp Hc Hr|s k p Hk|s flow|s flow i i' Hi E1 E2 E3 E4
    |s k p flow Hk|s k p flow i Hk Hi|s k p Hk|s id flow l1 l2 Ht].
  - destruct Hb as [H1 H2 H3 H4 H5]. split; cbn; try done.
    + by eapply usage_ok_admit.
    + intros id flow Hl. destruct (H3 id flow Hl) as (i & Hi & Hs & Ho). exists i. split; [done|]. split; [done|]. unfold owned in *. cbn.
      destruct (fi_completed i); [done|]. destruct Ho as (k' & p' & Hk'). exists k', p'. rewrite lookup_insert_ne; [done|congruence].
    + intros k' h [[<- <-]|[_ Hk']]%lookup_insert_Some; [by left|]. right. by eapply H4.
    + intros flow i Hi. right. by eapply H5.
  - by apply register_ok.
  - by eapply leaving_ok.
  - by apply retainCompleted_ok.
  - destruct Hb as [H1 H2 H3 H4 H5]. split; cbn; try done.
    + intros id fl Hl. destruct (H3 id fl Hl) as (j & Hj & Hs & Ho). destruct (decide (fl = flow)) as [->|Hne].
      * rewrite Hi in Hj. simplify_eq. exists i'. rewrite lookup_insert_eq. split; [done|]. split; [congruence|].
        unfold owned in *. rewrite E4. exact Ho.
      * exists j. by rewrite lookup_insert_ne.
    + intros fl j [[<- <-]|[_ Hj]]%lookup_insert_Some; [rewrite E3; by eapply H5|by eapply H5].
  - pose proof (retain_fields s flow) as (_ & _ & Hses & Hh & _). eapply leaving_ok; [by apply retainCompleted_ok|by rewrite Hh|].
    intros fl [= <-] id i Hl Hi. rewrite Hses in Hl. destruct (bo_entry _ Hb id flow Hl) as (j & Hj & _).
    destruct (retain_completed s flow j Hj) as (j' & Hj' & Hc). congruence.
  - eapply leaving_ok; [by apply unregister_ok|done|]. intros fl [= <-] id j Hl Hj. exfalso. cbn in Hl, Hj.
    apply unregister_lookup in Hl as [Hl Hne]. destruct (bo_entry _ Hb id flow Hl) as (j' & Hj' & Hs & _). congruence.
  - destruct Hb as [H1 H2 H3 H4 H5]. split; cbn; try done.
    + by eapply usage_ok_release.
    + intros id flow Hl. destruct (H3 id flow Hl) as (i & Hi & Hs & Ho). exists i. split; [done|]. split; [done|]. unfold owned in *. cbn.
      destruct (fi_completed i); [done|]. destruct Ho as (k' & p' & Hk'). exists k', p'. rewrite lookup_delete_ne; [done|]. intros <-. congruence.
    + intros k' h [_ Hk']%lookup_delete_Some. by eapply H4.
  - destruct Hb as [H1 H2 H3 H4 H5]. split; cbn; try done.
    + pose proof (unregister_size (v_sessions s) id flow). lia.
    + intros id' flow' [Hl Hne]%unregister_lookup. destruct (H3 id' flow' Hl) as (i & Hi & Hs & Ho). exists i. split; [done|]. split; [done|].
      unfold owned in *. cbn. rewrite Ht in Ho. destruct (fi_completed i); [|done]. apply elem_of_app in Ho as [Ho|Ho]; apply elem_of_app; [by left|].
      apply elem_of_cons in Ho as [Ho|Ho]; [congruence|by right].
Qed.

Lemma books_reach max s : 0 <= max -> steps server_step (newServer max) s -> books_ok s /\ v_max s = max.
Proof.
  intros Hmax Hs. refine (steps_invariant server_step (fun s => books_ok s /\ v_max s = max) _ _ _ _ Hs).
  - intros s1 s2 [Hb Hm] Hst. split; [by eapply books_step|]. rewrite <- Hm. destruct Hst; cbn; try done; by apply retain_fields.
  - split; [|done]. by split.
Qed.

(** ** The theorems *)

Lemma usage_of m hs p : usage_ok m hs ->
  u_flows (default (mkUsage 0 ∅) (m !! AccountID p)) = holders (AccountID p) hs /\
  forall d, u_devices (default (mkUsage 0 ∅) (m !! AccountID p)) !! d = counted (device_holders (AccountID p) d hs).
Proof.
  intros Hu. specialize (Hu (AccountID p)). destruct (m !! AccountID p) as [u|]; cbn; [by destruct Hu as (? & _ & ?)|].
  split; [done|]. intros d. rewrite lookup_empty. pose proof (device_nonneg (AccountID p) d hs). pose proof (device_le (AccountID p) d hs).
  unfold counted. by replace (_ =? 0) with true by lia.
Qed.

(** C23: the server's books, under any interleaving of handlers, watchers and
    timers.  An account's record counts exactly the handlers holding its flows, in
    all and per device, and is gone when there are none; a flow is admitted only
    to an authorized device, below the account's flow limit, and as one of at most
    the permitted number of devices unless the device already holds a flow; the
    session table is bounded, and every entry is one some handler or timer will
    take out, so that nothing is left when both are gone. *)
Theorem server_books_exact max s :
  0 <= max -> steps server_step (newServer max) s ->
  usage_ok (v_usage s) (v_handlers s) /\
  (forall d now p m, admitAccountFlow d now p (v_usage s) = Ok m ->
    exists account device, Authorize d p now = Ok (account, device) /\
      (a_MaxFlows account > 0 -> holders (AccountID p) (v_handlers s) < a_MaxFlows account) /\
      (a_MaxClients account > 0 ->
        device_holders (AccountID p) (DeviceID p) (v_handlers s) > 0 \/
        exists u, m !! AccountID p = Some u /\ Z.of_nat (size (u_devices u)) <= a_MaxClients account)) /\
  Z.of_nat (size (v_sessions s)) <= max /\
  (forall id flow, v_sessions s !! id = Some flow -> exists i, v_flows s !! flow = Some i /\ fi_session i = id /\ owned s id flow i) /\
  (v_handlers s = ∅ -> v_usage s = ∅ /\ (v_timers s = [] -> v_sessions s = ∅)).
Proof.
  intros Hmax Hs. destruct (books_reach max s Hmax Hs) as [[H1 H2 H3 _ _] Hm]. split; [done|]. split; [|split; [by rewrite <- Hm|split; [done|]]].
  - intros d now p m Ha. destruct (admitAccountFlow_spec _ _ _ _ _ Ha) as (account & device & Hauth & Hs'). cbn zeta in Hs'.
    destruct Hs' as (-> & Hf & Hc), (usage_of _ _ p H1) as [Hu Hd]. exists account, device. split; [done|]. split.
    + intros Hp. specialize (Hf Hp). cbn [u_flows] in Hf. lia.
    + intros Hp. destruct (Hc Hp) as [Hsz|[n Hn]]; [right; eexists; rewrite lookup_insert_eq; by split|left].
      rewrite Hd in Hn. unfold counted in Hn. pose proof (device_nonneg (AccountID p) (DeviceID p) (v_handlers s)).
      destruct (_ =? 0) eqn:E in Hn; [done|]. lia.
  - intros He. rewrite He in *. split.
    + apply map_empty. intros a. specialize (H1 a). destruct (v_usage s !! a) as [u|]; [|done]. destruct H1 as (Hu & Hpos & _).
      unfold holders in Hu. rewrite msum_empty in Hu. lia.
    + intros Ht. apply map_empty. intros id. destruct (v_sessions s !! id) as [flow|] eqn:Hl; [|done].
      destruct (H3 id flow Hl) as (i & _ & _ & Ho). unfold owned in Ho. rewrite He, Ht in Ho.
      destruct (fi_completed i); [by apply elem_of_nil in Ho|]. destruct Ho as (k & p & Hk). by rewrite lookup_empty in Hk.
Qed.

(** The flow a JOIN names. *)
Definition named_flow (s : server) (open : Frame) : option flowInfo :=
  match lookupSession (v_sessions s) (h_SessionID (f_Header open)) with Some flow => v_flows s !! flow | None => None end.

Lemma samePrincipal_eq a b : samePrincipal a b = true ->
  ProviderID a = ProviderID b /\ AccountID a = AccountID b /\ DeviceID a = DeviceID b.
Proof. unfold samePrincipal. rewrite !andb_true_iff, !bool_decide_eq_true. tauto. Qed.

(** C22: identifiers route and do not authorize.  A lane joins, or is told how a
    completed flow ended, only when the session it names was opened, and admitted,
    for the same provider, account and device, with the same flow identifier; only
    a flow that reserves a control lane gets a replacement for it.  A stranger
    learns nothing: an unknown session, a wrong flow and another's session are
    answered with the same frame. *)
Theorem lane_join_authenticated max s principal lane open :
  0 <= max -> steps server_step (newServer max) s ->
  match handleLaneJoinOpen (named_flow s open) principal lane open with
  | JoinRefused why f =>
      (why = UnknownSession \/ why = FlowMismatch \/ why = PrincipalMismatch) ->
      f = reset open ClassBulk ResetProtocol (text "unknown session")
  | act =>
      exists flow i q, v_sessions s !! h_SessionID (f_Header open) = Some flow /\ v_flows s !! flow = Some i /\
        fi_session i = h_SessionID (f_Header open) /\ fi_flowID i = h_FlowID (f_Header open) /\
        q ∈ v_admitted s /\ ProviderID q = ProviderID principal /\ AccountID q = AccountID principal /\ DeviceID q = DeviceID principal /\
        (act = JoinCommitted true -> fi_reserveControl i = true) /\
        (fi_completed i = true <-> exists fs, act = JoinCompleted fs)
  end.
Proof.
  intros Hmax Hs. destruct (books_reach max s Hmax Hs) as [[_ _ H3 _ H5] _]. unfold handleLaneJoinOpen, named_flow, lookupSession.
  destruct (_ || _ || _); [naive_solver|]. destruct (v_sessions s !! _) as [flow|] eqn:Hl; [|done].
  destruct (H3 _ _ Hl) as (i & Hi & Hid & _). rewrite Hi. destruct (fi_flowID i =? _) eqn:Hf; [|done]. cbn [negb].
  destruct (samePrincipal _ _) eqn:Hp; [|done]. cbn [negb]. apply samePrincipal_eq in Hp as (P1 & P2 & P3). apply Z.eqb_eq in Hf.
  destruct (negb _ && negb _) eqn:Hc; [naive_solver|].
  assert (Hin : fi_principal i ∈ v_admitted s) by by eapply H5.
  destruct (fi_completed i) eqn:Hcomp; exists flow, i, (fi_principal i); (do 8 (split; [done|])).
  - split; [done|]. split; [|done]. intros _. by eexists.
  - split; [|split; [by rewrite Hcomp|by intros [fs Hfs]]]. intros [= He]. rewrite He in Hc. by destruct (fi_reserveControl i).
Qed.

(** ** A server with one flow *)

Definition guest : Principal := mkPrincipal [1] (demo_id 48) (demo_id 50) demo_key.
Definition guest_flow : flowInfo := mkInfo [1] 7 guest false FlagAckUp false true 0 false true 0.
Definition guest_usage : usages := {[demo_id 48 := mkUsage 1 {[demo_id 50 := 1]}]}.

Definition serving : server :=
  mkServer 1 guest_usage {[[1] := 0]} {[0 := guest_flow]} {[0 := mkHandler guest (Registered 0)]} [] [guest].
Definition lingering : server := mkServer 1 ∅ {[[1] := 0]} {[0 := complete_info guest_flow]} ∅ [([1], 0)] [guest].

Lemma guest_admitted : admitAccountFlow demo_enrolled (2 * nanos) guest ∅ = Ok guest_usage.
Proof. vm_compute. reflexivity. Qed.

Lemma serving_reachable : steps server_step (newServer 1) serving.
Proof.
  eapply steps_cons; [exact (sv_admit (newServer 1) 0 demo_enrolled (2 * nanos) guest guest_usage eq_refl guest_admitted)|].
  apply steps_one. exact (sv_register (mkServer 1 guest_usage ∅ ∅ {[0 := mkHandler guest Opening]} [] [guest]) 0 guest 0 guest_flow
    true {[[1] := 0]} eq_refl eq_refl eq_refl eq_refl eq_refl).
Qed.

(** Completed sessions keep their place in the table: one that is full of them
    refuses a new flow, as a session that already exists, although no flow runs. *)
Theorem completed_sessions_fill_table :
  steps server_step (newServer 1) lingering /\ v_handlers lingering = ∅ /\ v_usage lingering = ∅ /\
  v_sessions lingering !! [2] = None /\ registerSession (v_max lingering) (v_sessions lingering) [2] 1 = (false, v_sessions lingering).
Proof.
  split; [|repeat split; vm_compute; reflexivity]. eapply steps_trans; [exact serving_reachable|].
  eapply steps_cons; [exact (sv_complete serving 0 guest 0 eq_refl)|].
  apply steps_one. refine (sv_release (set_handler (retainCompletedSession serving 0) 0 (mkHandler guest Leaving)) 0 guest _). reflexivity.
Qed.

Lemma server_books_exact_witness :
  holders (demo_id 48) (v_handlers serving) = 1 /\ device_holders (demo_id 48) (demo_id 50) (v_handlers serving) = 1 /\
  usage_ok (v_usage serving) (v_handlers serving).
Proof.
  split; [vm_compute; reflexivity|]. split; [vm_compute; reflexivity|].
  apply (server_books_exact 1 serving); [lia|apply serving_reachable].
Defined.

(** The same device joins a lane; another one does not. *)
Definition join_frame : Frame := reply TypeJoin 0 7 0 ClassBulk [1] [0; 0; 0; 0; 0; 0; 0; 1].

Lemma lane_join_authenticated_witness :
  handleLaneJoinOpen (named_flow serving join_frame) guest 1 join_frame = JoinCommitted false /\
  exists f, handleLaneJoinOpen (named_flow serving join_frame) stranger 1 join_frame = JoinRefused PrincipalMismatch f /\
    f = reset join_frame ClassBulk ResetProtocol (text "unknown session").
Proof.
  split; [vm_compute; reflexivity|].
  pose proof (lane_join_authenticated 1 serving stranger 1 join_frame ltac:(lia) serving_reachable) as H.
  destruct (handleLaneJoinOpen (named_flow serving join_frame) stranger 1 join_frame) as [why f|fs|c] eqn:E; vm_compute in E; [|discriminate..].
  exists f. injection E as <- _. split; [reflexivity|]. apply H. right. right. reflexivity.
Defined.
