(* ===== verification/Records.v ===== *)
(** Operational records during a storm ([internal/pep/recordlimiter.go] and
    [internal/pep/authorizationwatch.go]): one record per interval, each of which
    says how many events it stands for.

    A [time.Time] is its nanoseconds, and [None] is the zero time; labels are their
    text. *)

From S2P Require Import Prelude.

(** ** [recordLimiter] *)

Definition recordLogInterval : Z := 10 * 1000000000.

Record recordCounter := mkCounter { rc_last : option Z; rc_suppressed : Z; rc_total : Z }.

Notation recordLimiter := (gmap (list Z) recordCounter).

(** A record is held back within the interval of the last one. *)
Definition too_soon (last : option Z) (interval now : Z) : bool := match last with Some t => now - t <? interval | None => false end.

Definition due (l : recordLimiter) (label : list Z) (now : Z) : bool * Z * Z * recordLimiter :=
  let counter := default (mkCounter None 0 0) (l !! label) in
  let total := rc_total counter +u64 1 in
  if too_soon (rc_last counter) recordLogInterval now then
    (false, 0, total, <[label := mkCounter (rc_last counter) (rc_suppressed counter +u64 1) total]> l)
  else (true, rc_suppressed counter, total, <[label := mkCounter (Some now) 0 total]> l).

(** ** [authorizationWatch] *)

Definition authorizationRecordInterval : Z := 60 * 1000000000.

Record authorizationWatch := mkWatch { aw_consecutive : Z; aw_failingSince : option Z; aw_lastRecord : option Z; aw_suppressed : Z }.

Definition watch_zero : authorizationWatch := mkWatch 0 None None 0.

(** [failed]: whether to write, the run's length, how many went unwritten, and for
    how long it has been failing. *)
Definition watch_failed (w : authorizationWatch) (now : Z) : bool * Z * Z * Z * authorizationWatch :=
  let consecutive := aw_consecutive w +u64 1 in
  let since := default now (aw_failingSince w) in
  let failingFor := now - since in
  if too_soon (aw_lastRecord w) authorizationRecordInterval now then
    (false, consecutive, 0, failingFor, mkWatch consecutive (Some since) (aw_lastRecord w) (aw_suppressed w +u64 1))
  else (true, consecutive, aw_suppressed w, failingFor, mkWatch consecutive (Some since) (Some now) 0).

Definition watch_succeeded (w : authorizationWatch) (now : Z) : option (Z * Z) * authorizationWatch :=
  if aw_consecutive w =? 0 then (None, w)
  else (Some (aw_consecutive w, now - default 0 (aw_failingSince w)), watch_zero).

(** ** A storm *)

(** The records written for a sequence of events: when, and how many events each
    says it stands in for. *)
Fixpoint due_all (l : recordLimiter) (events : list (list Z * Z)) : list (list Z * Z * Z) * recordLimiter :=
  match events with
  | [] => ([], l)
  | (label, now) :: rest =>
      let '(write, suppressed, _, l') := due l label now in
      let '(records, l'') := due_all l' rest in
      (if write then (label, now, suppressed) :: records else records, l'')
  end.

Definition events_of (label : list Z) (events : list (list Z * Z)) : Z :=
  len (filter (fun e => fst e = label) events).

(** A record and the events it stands in for. *)
Definition stands_for (label : list Z) (records : list (list Z * Z * Z)) : Z :=
  foldr (fun r n => (if decide (fst (fst r) = label) then 1 + snd r else 0) + n) 0 records.

Definition unwritten (l : recordLimiter) (label : list Z) : Z := rc_suppressed (default (mkCounter None 0 0) (l !! label)).
Definition last_written (l : recordLimiter) (label : list Z) : option Z := rc_last (default (mkCounter None 0 0) (l !! label)).

(** The times of a label's records. *)
Definition times (label : list Z) (records : list (list Z * Z * Z)) : list Z :=
  omap (fun r : list Z * Z * Z => if decide (fst (fst r) = label) then Some (snd (fst r)) else None) records.

Lemma due_counts l label now write suppressed total l' lb :
  due l label now = (write, suppressed, total, l') -> 0 <= unwritten l lb -> unwritten l lb + 1 < 2 ^ 64 ->
  (if write then (if decide (label = lb) then 1 + suppressed else 0) else 0) + unwritten l' lb =
    unwritten l lb + (if decide (label = lb) then 1 else 0) /\ 0 <= unwritten l' lb.
Proof.
  unfold due, unwritten. intros Hd H0 H1. destruct (decide (label = lb)) as [->|Hne].
  - destruct (too_soon _ _ _); simplify_eq; rewrite lookup_insert_eq; cbn [default from_option id rc_suppressed]; [|lia].
    rewrite wrap_small by (pow2_eval; lia). lia.
  - destruct (too_soon _ _ _); simplify_eq; rewrite lookup_insert_ne by done; lia.
Qed.

Lemma events_cons lb label now rest : events_of lb ((label, now) :: rest) = (if decide (label = lb) then 1 else 0) + events_of lb rest.
Proof.
  unfold events_of. rewrite filter_cons. cbn [fst]. destruct (decide (label = lb)); [by rewrite len_cons|lia].
Qed.

Lemma storm_counts events : forall l lb records l',
  due_all l events = (records, l') -> 0 <= unwritten l lb -> unwritten l lb + len events < 2 ^ 64 ->
  stands_for lb records + unwritten l' lb = unwritten l lb + events_of lb events /\ 0 <= unwritten l' lb.
Proof.
  induction events as [|[label now] rest IH]; intros l lb records l' Hd H0 H1; cbn in Hd.
  - simplify_eq. change (events_of lb []) with 0. change (stands_for lb []) with 0. lia.
  - destruct (due l label now) as [[[write suppressed] total] l1] eqn:E1. destruct (due_all l1 rest) as [rs l2] eqn:E2. simplify_eq.
    rewrite len_cons in H1. pose proof (len_nonneg rest).
    destruct (due_counts _ _ _ _ _ _ _ lb E1 H0 ltac:(lia)) as [Hc Hn].
    assert (Hle : unwritten l1 lb <= unwritten l lb + 1).
    { unfold due, unwritten in E1 |- *. destruct (decide (label = lb)) as [->|Hne].
      - destruct (too_soon _ _ _); simplify_eq; rewrite lookup_insert_eq; cbn [default from_option id rc_suppressed]; [|unfold unwritten in H0; lia].
        rewrite wrap_small by (unfold unwritten in *; pow2_eval; lia). lia.
      - destruct (too_soon _ _ _); simplify_eq; rewrite lookup_insert_ne by done; lia. }
    destruct (IH l1 lb rs l' E2 Hn ltac:(lia)) as [Hr Hn']. split; [|done]. rewrite events_cons.
    destruct write; cbn [stands_for foldr fst snd]; [change (foldr _ 0 rs) with (stands_for lb rs)|]; lia.
Qed.

(** No two records of a label within the interval. *)
Lemma storm_spaced events : forall l lb records l',
  due_all l events = (records, l') ->
  (forall t rest, times lb records = t :: rest -> forall t0, last_written l lb = Some t0 -> recordLogInterval <= t - t0) /\
  (forall i t1 t2, times lb records !! i = Some t1 -> times lb records !! S i = Some t2 -> recordLogInterval <= t2 - t1).
Proof.
  induction events as [|[label now] rest IH]; intros l lb records l' Hd; cbn in Hd; [by simplify_eq|].
  destruct (due l label now) as [[[write suppressed] total] l1] eqn:E1. destruct (due_all l1 rest) as [rs l2] eqn:E2. simplify_eq.
  destruct (IH l1 lb rs l' E2) as [H1 H2]. unfold due in E1. unfold last_written in *.
  destruct (decide (label = lb)) as [->|Hne].
  - destruct (too_soon _ _ _) eqn:Es; simplify_eq; rewrite lookup_insert_eq in H1; cbn [default from_option id rc_last] in H1; [by split|].
    unfold times in *. cbn [omap list_omap fst snd]. rewrite decide_True by done. split.
    + intros t r [= <- _] t0 Ht0. rewrite Ht0 in Es. cbn in Es. lia.
    + intros [|i] t1 t2; cbn; [|apply H2]. intros [= <-] Ht2. destruct (omap _ rs) as [|t r] eqn:Eo; [done|]. cbn in Ht2. simplify_eq.
      by eapply H1.
  - destruct (too_soon _ _ _) eqn:Es; simplify_eq; rewrite lookup_insert_ne in H1 by done; [by split|].
    unfold times in *. cbn [omap list_omap fst snd]. rewrite decide_False by done. by split.
Qed.

(** During a storm of fewer than 2^64 events the log stays readable and says how
    much it left out: the records of a label and the events they stand in for, with
    those waiting for the next record, are exactly the label's events, and two
    records of a label are at least ten seconds apart. *)
Theorem storm_accounted events records l label :
  due_all ∅ events = (records, l) -> len events < 2 ^ 64 ->
  stands_for label records + unwritten l label = events_of label events /\
  (forall i t1 t2, times label records !! i = Some t1 -> times label records !! S i = Some t2 -> recordLogInterval <= t2 - t1).
Proof.
  intros Hd Hl. assert (H0 : unwritten ∅ label = 0) by (unfold unwritten; by rewrite lookup_empty).
  destruct (storm_counts events ∅ label records l Hd ltac:(lia) ltac:(lia)) as [Hc _].
  destruct (storm_spaced events ∅ label records l Hd) as [_ Hs]. split; [lia|done].
Qed.

(** A run of failed refreshes is reported from its first failure on, and its end
    reports its length and duration. *)
Fixpoint fail_all (w : authorizationWatch) (failures : list Z) : authorizationWatch :=
  match failures with [] => w | now :: rest => fail_all (snd (watch_failed w now)) rest end.

Lemma fail_all_run failures : forall w,
  aw_consecutive w + len failures < 2 ^ 64 -> 0 <= aw_consecutive w ->
  aw_consecutive (fail_all w failures) = aw_consecutive w + len failures /\
  aw_failingSince (fail_all w failures) = match aw_failingSince w with Some t => Some t | None => head failures end.
Proof.
  induction failures as [|now rest IH]; intros w Hlt H0; cbn [fail_all].
  - split; [change (len (@nil Z)) with 0; lia|by destruct (aw_failingSince w)].
  - rewrite len_cons in *. pose proof (len_nonneg rest).
    assert (Hw : aw_consecutive (snd (watch_failed w now)) = aw_consecutive w + 1 /\
      aw_failingSince (snd (watch_failed w now)) = Some (default now (aw_failingSince w))).
    { unfold watch_failed. rewrite wrap_small by (pow2_eval; lia). by destruct (too_soon _ _ _). }
    destruct Hw as [W1 W2]. destruct (IH (snd (watch_failed w now)) ltac:(lia) ltac:(lia)) as [I1 I2]. rewrite I1, I2, W1, W2.
    split; [lia|]. by destruct (aw_failingSince w).
Qed.

Theorem outage_reported first rest now :
  len rest + 1 < 2 ^ 64 ->
  fst (fst (fst (fst (watch_failed watch_zero first)))) = true /\
  watch_succeeded (fail_all watch_zero (first :: rest)) now = (Some (len rest + 1, now - first), watch_zero).
Proof.
  intros Hl. split; [done|]. pose proof (len_nonneg rest).
  destruct (fail_all_run (first :: rest) watch_zero) as [H1 H2]; [rewrite len_cons; cbn; lia|done|].
  unfold watch_succeeded. rewrite H1, H2, len_cons. cbn [aw_consecutive watch_zero aw_failingSince head default from_option id].
  replace (_ =? 0) with false by lia. do 3 f_equal. lia.
Qed.
