(* ===== verification/Pacing.v ===== *)
(** Pacing ([internal/congestion/wirecap.go] and [internal/congestion/pacer.go]):
    the ceiling all connections of a path share, and the token bucket of one
    controller.

    A [monotime.Time] and a [time.Duration] are [int64] nanoseconds.  Two constants
    belong to the QUIC library, the packet size a connection starts with and the
    shortest pacing delay; they are variables here.  What a controller answers when
    the pacer asks it (its bandwidth, its burst floor) is an argument. *)

From S2P Require Import Prelude.

Definition maxBurstPackets : Z := 10.
Definition second : Z := 1000000000.

Definition later (a b : Z) : Z := if a >? b then a else b.
Definition minByteCount (a b : Z) : Z := if a <? b then a else b.
Definition maxByteCount (a b : Z) : Z := if a >? b then a else b.
Definition maxDuration (a b : Z) : Z := if a >? b then a else b.

(** ** The wire ceiling *)

Record wireBucket := mkBucket { wb_rate : Z; wb_next : Z }.

Record WireScheduler := mkWire { ws_total : wireBucket; ws_bulk : wireBucket; ws_maxDatagramSize : Z }.

Definition pacingDuration (bytes_ rate : Z) : Z :=
  let product := wrap 64 (bytes_ * second) in
  let nanos := product / rate in
  i64 (if negb (product mod rate =? 0) then nanos +u64 1 else nanos).

Definition wire_deadline (s : WireScheduler) (bucket : wireBucket) (now nextBytes : Z) : Z :=
  if wb_next bucket =? 0 then 0
  else
    let burst := pacingDuration (wrap 64 (maxBurstPackets * ws_maxDatagramSize s)) (wb_rate bucket) in
    let deadline := i64 (wb_next bucket + i64 (pacingDuration nextBytes (wb_rate bucket) - burst)) in
    if deadline <=? now then 0 else deadline.

Definition wire_timeUntilSend (s : WireScheduler) (now : Z) (bulk : bool) : Z :=
  let deadline := wire_deadline s (ws_total s) now (ws_maxDatagramSize s) in
  if bulk then later deadline (wire_deadline s (ws_bulk s) now (ws_maxDatagramSize s)) else deadline.

Definition chargeBucket (bucket : wireBucket) (sent bytes_ : Z) : wireBucket :=
  let next := if (wb_next bucket =? 0) || (wb_next bucket <? sent) then sent else wb_next bucket in
  mkBucket (wb_rate bucket) (i64 (next + pacingDuration bytes_ (wb_rate bucket))).

(** Whether the packet overshoots, and the scheduler after it. *)
Definition charge (s : WireScheduler) (sent bytes_ : Z) (bulk : bool) : bool * WireScheduler :=
  let overshoot := negb (wire_deadline s (ws_total s) sent bytes_ =? 0) in
  let overshoot := if bulk then overshoot || negb (wire_deadline s (ws_bulk s) sent bytes_ =? 0) else overshoot in
  (overshoot, mkWire (chargeBucket (ws_total s) sent bytes_) (if bulk then chargeBucket (ws_bulk s) sent bytes_ else ws_bulk s)
                (ws_maxDatagramSize s)).

Definition wire_setMaxDatagramSize (s : WireScheduler) (size : Z) : WireScheduler :=
  if size =? 0 then s
  else if size >? ws_maxDatagramSize s then mkWire (ws_total s) (ws_bulk s) size else s.

Definition wire_debt (s : WireScheduler) (now : Z) (bulk : bool) : Z :=
  let deadline := wire_timeUntilSend s now bulk in
  if deadline =? 0 then 0 else i64 (deadline - now).

(** [WireCapSender] around a controller: the questions it answers for itself, its
    class and its counters; every other callback goes to the controller unchanged. *)
Record WireCapSender := mkCapSender {
  wc_totalRate : Z; wc_bulkRate : Z; wc_bulk : bool; wc_charged : Z; wc_overshoot : Z }.

Definition NewWireCapSender (totalRate reserveRate : Z) (bulk : bool) : WireCapSender :=
  mkCapSender totalRate (totalRate -u64 reserveRate) bulk 0 0.

Definition cap_SetBulk (w : WireCapSender) (bulk : bool) : WireCapSender :=
  mkCapSender (wc_totalRate w) (wc_bulkRate w) bulk (wc_charged w) (wc_overshoot w).

Definition cap_TimeUntilSend (inner : Z) (s : WireScheduler) (w : WireCapSender) (now : Z) : Z :=
  later inner (wire_timeUntilSend s now (wc_bulk w)).

Definition cap_HasPacingBudget (inner : bool) (s : WireScheduler) (w : WireCapSender) (now : Z) : bool :=
  inner && (wire_timeUntilSend s now (wc_bulk w) =? 0).

Definition cap_OnPacketSent (s : WireScheduler) (w : WireCapSender) (sent bytes_ : Z) : WireScheduler * WireCapSender :=
  let '(over, s') := charge s sent (wrap 64 bytes_) (wc_bulk w) in
  (s', mkCapSender (wc_totalRate w) (wc_bulkRate w) (wc_bulk w) (wc_charged w +u64 wrap 64 bytes_)
         (if over then wc_overshoot w +u64 1 else wc_overshoot w)).

Definition cap_SetMaxDatagramSize (s : WireScheduler) (size : Z) : WireScheduler := wire_setMaxDatagramSize s (wrap 64 size).

(** What the sender adds to its controller's snapshot. *)
Record CapTelemetry := mkCapTelemetry {
  WireCapRate : Z; WireCapBulkRate : Z; WireCapBytes : Z; WireCapOvershootPackets : Z; WireCapDebt : Z; WireCapBulk : bool }.

Definition cap_Telemetry (s : WireScheduler) (w : WireCapSender) (now : Z) : CapTelemetry :=
  mkCapTelemetry (wc_totalRate w) (wc_bulkRate w) (wc_charged w) (wc_overshoot w) (wire_debt s now (wc_bulk w)) (wc_bulk w).

Section QUIC.
(** [congestion.InitialPacketSize] and [congestion.MinPacingDelay] of the library. *)
Variable InitialPacketSize : Z.
Variable MinPacingDelay : Z.

Definition NewWireScheduler (total reserve : Z) : WireScheduler :=
  mkWire (mkBucket total 0) (mkBucket (total -u64 reserve) 0) InitialPacketSize.

(** ** One controller's pacer *)

Definition defaultBurstPacingDelay : Z := 4 * MinPacingDelay.
Definition tuicBurstPacingDelay : Z := MinPacingDelay + 1000000.

Record pacer := mkPacer { budgetAtLastSent : Z; p_maxDatagramSize : Z; lastSentTime : Z; burstPacingDelay : Z }.

Definition newPacerWithBurstDelay (delay : Z) : pacer :=
  mkPacer (maxBurstPackets * InitialPacketSize) InitialPacketSize 0 (if delay <=? 0 then defaultBurstPacingDelay else delay).

Definition newPacer : pacer := newPacerWithBurstDelay defaultBurstPacingDelay.
Definition newTUICPacer : pacer := newPacerWithBurstDelay tuicBurstPacingDelay.

(** [bps] is the controller's bandwidth, [floor] its burst floor, if any. *)
Definition maxBurstSize (bps : Z) (floor : option Z) (p : pacer) : Z :=
  let size := maxByteCount (Z.quot (i64 (burstPacingDelay p * bps)) second) (i64 (maxBurstPackets * p_maxDatagramSize p)) in
  match floor with Some f => if f >? size then f else size | None => size end.

Definition budget (bps : Z) (floor : option Z) (p : pacer) (now : Z) : Z :=
  if bps <=? 0 then 0
  else if lastSentTime p =? 0 then maxBurstSize bps floor p
  else
    let b := i64 (budgetAtLastSent p + Z.quot (i64 (bps * i64 (now - lastSentTime p))) second) in
    let b := if b <? 0 then 2 ^ 62 - 1 else b in
    minByteCount (maxBurstSize bps floor p) b.

Definition sentPacket (bps : Z) (floor : option Z) (p : pacer) (sendTime size : Z) : pacer :=
  let b := budget bps floor p sendTime in
  mkPacer (if size >? b then 0 else b - size) (p_maxDatagramSize p) sendTime (burstPacingDelay p).

Definition timeUntilSend (bps : Z) (p : pacer) : Z :=
  if budgetAtLastSent p >=? p_maxDatagramSize p then 0
  else if wrap 64 bps =? 0 then i64 (lastSentTime p + second)
  else
    let bps := wrap 64 bps in
    let diff := wrap 64 (second * wrap 64 (p_maxDatagramSize p - budgetAtLastSent p)) in
    let d := diff / bps in
    let d := if negb (diff mod bps =? 0) then d +u64 1 else d in
    i64 (lastSentTime p + maxDuration MinPacingDelay (i64 d)).

Definition pacer_setMaxDatagramSize (p : pacer) (size : Z) : pacer :=
  if size >? 0 then mkPacer (budgetAtLastSent p) size (lastSentTime p) (burstPacingDelay p) else p.

End QUIC.

(** ** Durations *)

Lemma pacingDuration_spec b r : 0 <= b < 2 ^ 30 -> 0 < r ->
  0 <= pacingDuration b r <= 2 ^ 60 /\ b * second <= pacingDuration b r * r < b * second + r.
Proof.
  intros Hb Hr. unfold pacingDuration, second in *. rewrite (wrap_small 64 (b * _)) by (pow2_eval; lia).
  set (x := b * 1000000000) in *. assert (Hx : 0 <= x < 2 ^ 60) by (unfold x; pow2_eval; lia).
  pose proof (Z.div_mod x r ltac:(lia)) as Hd. pose proof (Z.mod_pos_bound x r Hr) as Hm.
  assert (Hq : 0 <= x / r <= x) by (split; [apply Z.div_pos; lia|apply Z.div_le_upper_bound; nia]).
  destruct (x mod r =? 0) eqn:E; cbn [negb].
  - rewrite i64_small by (pow2_eval; lia). pow2_eval. split; nia.
  - rewrite wrap_small by (pow2_eval; lia). rewrite i64_small by (pow2_eval; lia). pow2_eval. split; nia.
Qed.

(** ** The wire ceiling holds *)

(** What the connections of a path do to the scheduler. *)
Inductive wire_op := Send (sent bytes_ : Z) (bulk : bool) | Resize (size : Z).

Definition wire_do (s : WireScheduler) (op : wire_op) : WireScheduler :=
  match op with Send sent b bulk => snd (charge s sent b bulk) | Resize size => wire_setMaxDatagramSize s size end.

Definition wire_run (s : WireScheduler) (ops : list wire_op) : WireScheduler := fold_left wire_do ops s.

(** The packets that count against a bucket: all of them, or those of bulk
    connections. *)
Definition counts (only_bulk : bool) (op : wire_op) : bool :=
  match op with Send _ _ bulk => negb only_bulk || bulk | Resize _ => false end.

Definition op_bytes (only_bulk : bool) (op : wire_op) : Z :=
  match op with Send _ b _ => if counts only_bulk op then b else 0 | Resize _ => 0 end.

Definition sent_bytes (only_bulk : bool) (ops : list wire_op) : Z := sumZ (map (op_bytes only_bulk) ops).

Definition op_time (rate : Z) (only_bulk : bool) (op : wire_op) : Z :=
  match op with Send _ b _ => if counts only_bulk op then pacingDuration b rate else 0 | Resize _ => 0 end.

Definition wire_time (rate : Z) (only_bulk : bool) (ops : list wire_op) : Z := sumZ (map (op_time rate only_bulk) ops).

Definition bucket_of (only_bulk : bool) (s : WireScheduler) : wireBucket := if only_bulk then ws_bulk s else ws_total s.

(** Packets of less than a gibibyte and datagrams of less than 2^26 bytes, at times
    below 2^61. *)
Definition op_ok (op : wire_op) : Prop :=
  match op with Send sent b _ => 0 < sent < 2 ^ 61 /\ 0 <= b < 2 ^ 30 | Resize size => 0 <= size < 2 ^ 26 end.

Lemma op_time_nonneg r k op : 0 < r -> op_ok op -> 0 <= op_time r k op.
Proof.
  intros Hr. destruct op as [sent b bulk|size]; cbn [op_time op_ok]; [|lia]. intros [_ Hb]. destruct (counts _ _); [|lia].
  by apply pacingDuration_spec.
Qed.

Lemma wire_time_nonneg r k ops : 0 < r -> Forall op_ok ops -> 0 <= wire_time r k ops.
Proof.
  intros Hr Ho. apply sumZ_nonneg. rewrite Forall_map. eapply Forall_impl; [exact Ho|]. intros op. by apply op_time_nonneg.
Qed.

Lemma wire_time_app r k l1 l2 : wire_time r k (l1 ++ l2) = wire_time r k l1 + wire_time r k l2.
Proof. unfold wire_time. by rewrite map_app, sumZ_app. Qed.

(** Time on the wire is at least what the bytes take at the rate. *)
Lemma wire_time_covers r k ops : 0 < r -> Forall op_ok ops -> sent_bytes k ops * second <= wire_time r k ops * r.
Proof.
  intros Hr. unfold sent_bytes, wire_time. induction 1 as [|op ops Ho Hos IH]; [done|]. cbn [map sumZ foldr].
  change (foldr Z.add 0 (map (op_bytes k) ops)) with (sumZ (map (op_bytes k) ops)).
  change (foldr Z.add 0 (map (op_time r k) ops)) with (sumZ (map (op_time r k) ops)).
  assert (op_bytes k op * second <= op_time r k op * r); [|lia].
  destruct op as [sent b bulk|size]; cbn [op_bytes op_time]; [|lia]. destruct (counts _ _); [|lia].
  destruct (pacingDuration_spec b r) as [_ ?]; [apply Ho|done|lia].
Qed.

(** A bucket as a number: when the bytes charged so far will have been sent. *)
Definition advance (r : Z) (k : bool) (next : Z) (op : wire_op) : Z :=
  match op with Send sent b _ => if counts k op then Z.max next sent + pacingDuration b r else next | Resize _ => next end.

Lemma advance_ge r k ops next : 0 < r -> Forall op_ok ops -> next + wire_time r k ops <= fold_left (advance r k) ops next.
Proof.
  intros Hr Ho. revert next. induction Ho as [|op ops Hop Hos IH]; intros next; [unfold wire_time; cbn; lia|].
  cbn [fold_left]. etransitivity; [|apply IH]. change (op :: ops) with ([op] ++ ops). rewrite wire_time_app.
  unfold wire_time at 1. cbn [map sumZ foldr]. destruct op as [sent b bulk|size]; cbn [advance op_time]; [|lia]. destruct (counts _ _); lia.
Qed.

Lemma advance_le r k ops next T : 0 < r -> Forall op_ok ops -> 0 <= next <= T -> 2 ^ 61 <= T ->
  0 <= fold_left (advance r k) ops next <= T + wire_time r k ops.
Proof.
  intros Hr Ho. revert next T. induction Ho as [|op ops Hop Hos IH]; intros next T Hn HT; [unfold wire_time; cbn; lia|].
  cbn [fold_left]. change (op :: ops) with ([op] ++ ops). rewrite wire_time_app. unfold wire_time at 1. cbn [map sumZ foldr].
  pose proof (op_time_nonneg r k op Hr Hop). rewrite Z.add_assoc, Z.add_0_r.
  apply IH; [|lia]. destruct op as [sent b bulk|size]; cbn [advance op_time] in *; [|lia]. destruct (counts _ _); [|lia].
  destruct Hop. lia.
Qed.

Lemma chargeBucket_advance r next sent b :
  0 < r -> 0 <= next < 2 ^ 62 -> 0 < sent < 2 ^ 61 -> 0 <= b < 2 ^ 30 ->
  chargeBucket (mkBucket r next) sent b = mkBucket r (Z.max next sent + pacingDuration b r).
Proof.
  intros Hr Hn Hs Hb. destruct (pacingDuration_spec b r Hb Hr) as [Hp _]. unfold chargeBucket. cbn [wb_rate wb_next]. f_equal.
  replace (if (next =? 0) || (next <? sent) then sent else next) with (Z.max next sent)
    by (destruct (next =? 0) eqn:E1, (next <? sent) eqn:E2; cbn; lia).
  apply i64_small. pow2_eval. lia.
Qed.

Lemma wire_do_bucket k s op r next :
  0 < r -> 0 <= next < 2 ^ 62 -> op_ok op -> bucket_of k s = mkBucket r next -> bucket_of k (wire_do s op) = mkBucket r (advance r k next op).
Proof.
  intros Hr Hn Hop Hb. destruct op as [sent b bulk|size]; cbn [wire_do advance].
  - destruct Hop as [Hs Hby]. unfold charge, bucket_of, counts in *. cbn [snd ws_bulk ws_total].
    destruct k, bulk; cbn [negb orb]; rewrite ?Hb; by rewrite ?chargeBucket_advance.
  - unfold wire_setMaxDatagramSize. repeat case_match; by rewrite <- Hb.
Qed.

Lemma wire_run_bucket k ops : forall s r next T,
  0 < r -> 0 <= next <= T -> 2 ^ 61 <= T -> T + wire_time r k ops < 2 ^ 62 -> Forall op_ok ops -> bucket_of k s = mkBucket r next ->
  bucket_of k (wire_run s ops) = mkBucket r (fold_left (advance r k) ops next).
Proof.
  induction ops as [|op ops IH]; intros s r next T Hr Hn HT Hlt Ho Hb; [done|]. apply Forall_cons in Ho as [Hop Ho].
  change (op :: ops) with ([op] ++ ops) in Hlt. rewrite wire_time_app in Hlt. unfold wire_time at 1 in Hlt. cbn [map sumZ foldr] in Hlt.
  pose proof (op_time_nonneg r k op Hr Hop). pose proof (wire_time_nonneg r k ops Hr Ho).
  cbn [fold_left]. apply (IH _ r _ (T + op_time r k op)); [done| |lia|lia|done|apply wire_do_bucket; try done; lia].
  destruct op as [sent b bulk|size]; cbn [advance op_time] in *; [|lia]. destruct (counts _ _); [|lia]. destruct Hop. lia.
Qed.

Lemma wire_run_size ops : forall s, 0 < ws_maxDatagramSize s < 2 ^ 26 -> Forall op_ok ops -> 0 < ws_maxDatagramSize (wire_run s ops) < 2 ^ 26.
Proof.
  induction ops as [|op ops IH]; intros s Hs Ho; [done|]. apply Forall_cons in Ho as [Hop Ho]. apply IH; [|done].
  destruct op as [sent b bulk|size]; [done|]. cbn [wire_do op_ok] in *. unfold wire_setMaxDatagramSize.
  destruct (size =? 0); [done|]. destruct (size >? _) eqn:E; [cbn; lia|done].
Qed.

(** The deadline of a bucket in use, within the range of times. *)
Lemma wire_deadline_spec s r next now b :
  0 < r -> 0 < next < 2 ^ 62 -> 0 <= b < 2 ^ 30 -> 0 < ws_maxDatagramSize s < 2 ^ 26 ->
  let burst := pacingDuration (maxBurstPackets * ws_maxDatagramSize s) r in
  let d := next + pacingDuration b r - burst in
  wire_deadline s (mkBucket r next) now b = if d <=? now then 0 else d.
Proof.
  intros Hr Hn Hb Hm. cbn zeta. unfold wire_deadline. cbn [wb_next wb_rate].
  destruct (pacingDuration_spec b r Hb Hr) as [Hp _].
  assert (Hmb : 0 <= maxBurstPackets * ws_maxDatagramSize s < 2 ^ 30) by (unfold maxBurstPackets; pow2_eval; lia).
  destruct (pacingDuration_spec _ r Hmb Hr) as [Hq _]. replace (next =? 0) with false by lia.
  rewrite (wrap_small 64) by (pow2_eval; lia). set (burst := pacingDuration (maxBurstPackets * _) r) in *.
  assert (He : i64 (next + i64 (pacingDuration b r - burst)) = next + pacingDuration b r - burst).
  { rewrite (i64_small (pacingDuration b r - burst)) by (pow2_eval; lia). rewrite i64_small by (pow2_eval; lia). lia. }
  by rewrite He.
Qed.

(** A packet that does not overshoot is within the burst of what came before. *)
Lemma no_overshoot k s r next sent b bulk :
  0 < r -> 0 < next < 2 ^ 62 -> 0 < sent -> 0 <= b < 2 ^ 30 -> 0 < ws_maxDatagramSize s < 2 ^ 26 ->
  bucket_of k s = mkBucket r next -> counts k (Send sent b bulk) = true -> fst (charge s sent b bulk) = false ->
  next + pacingDuration b r <= sent + pacingDuration (maxBurstPackets * ws_maxDatagramSize s) r.
Proof.
  intros Hr Hn Hs Hb Hm Hk Hc Hf. assert (Hd : wire_deadline s (bucket_of k s) sent b = 0).
  { unfold charge in Hf. cbn [fst] in Hf. unfold bucket_of, counts in *. destruct k, bulk; cbn in Hc; try done; bool_to_prop; naive_solver. }
  rewrite Hk, wire_deadline_spec in Hd by done. destruct (_ <=? sent) eqn:E in Hd; lia.
Qed.

Section Theorems.
Variable InitialPacketSize : Z.
Variable MinPacingDelay : Z.
Hypothesis Hinitial : 0 < InitialPacketSize < 2 ^ 26.
Hypothesis Hdelay : 0 < MinPacingDelay < 2 ^ 30.

Definition bucket_rate (only_bulk : bool) (total reserve : Z) : Z := if only_bulk then total - reserve else total.

Lemma new_bucket k total reserve : 0 <= reserve < total -> total < 2 ^ 63 ->
  bucket_of k (NewWireScheduler InitialPacketSize total reserve) = mkBucket (bucket_rate k total reserve) 0.
Proof. intros Hr Ht. destruct k; [|done]. cbn. by rewrite wrap_small by (pow2_eval; lia). Qed.

(** C33: the operator's ceiling holds for everything the connections of a path put on
    the wire, and the part withheld from bulk connections is withheld.  Between any
    two packets, of which the later one is not reported as an overshoot, the bytes
    charged to a bucket, both packets and every overshoot in between included, are
    at most what its rate allows for the time between them and one burst. *)
Theorem wire_cap_holds total reserve k before first sent1 b1 bulk1 between sent2 b2 bulk2 :
  0 <= reserve < total -> total < 2 ^ 63 ->
  first = Send sent1 b1 bulk1 -> counts k first = true -> counts k (Send sent2 b2 bulk2) = true ->
  Forall op_ok (before ++ first :: between) -> op_ok (Send sent2 b2 bulk2) ->
  let r := bucket_rate k total reserve in
  let s := wire_run (NewWireScheduler InitialPacketSize total reserve) (before ++ first :: between) in
  wire_time r k (before ++ first :: between) < 2 ^ 61 ->
  fst (charge s sent2 b2 bulk2) = false ->
  second * sent_bytes k (first :: between ++ [Send sent2 b2 bulk2]) <=
    r * (sent2 - sent1) + second * (maxBurstPackets * ws_maxDatagramSize s) + r.
Proof.
  intros Hres Htot -> Hc1 Hc2 Hok Hok2. cbn zeta. set (r := bucket_rate k total reserve).
  assert (Hr : 0 < r) by (unfold r; destruct k; cbn; lia).
  set (s := wire_run _ _). intros Hlt Hf.
  pose proof (wire_run_bucket k (before ++ Send sent1 b1 bulk1 :: between) (NewWireScheduler InitialPacketSize total reserve) r 0 (2 ^ 61) Hr ltac:(done) ltac:(done)
    ltac:(pow2_eval; lia) Hok (new_bucket k total reserve Hres Htot)) as Hb. fold s in Hb.
  pose proof (wire_run_size _ (NewWireScheduler InitialPacketSize total reserve) Hinitial Hok) as Hm. fold s in Hm.
  set (next := fold_left _ _ _) in Hb.
  assert (Hhi : 0 <= next <= 2 ^ 61 + wire_time r k (before ++ Send sent1 b1 bulk1 :: between)) by (by apply advance_le).
  apply Forall_app in Hok as [Hok0 Hok1]. apply Forall_cons in Hok1 as [[Hs1 Hb1] Hokb].
  assert (Hlo : sent1 + wire_time r k (Send sent1 b1 bulk1 :: between) <= next).
  { unfold next. rewrite fold_left_app. cbn [fold_left]. pose proof (advance_ge r k between
      (advance r k (fold_left (advance r k) before 0) (Send sent1 b1 bulk1)) Hr Hokb) as Ha.
    cbn [advance] in *. rewrite Hc1 in *. change (Send sent1 b1 bulk1 :: between) with ([Send sent1 b1 bulk1] ++ between).
    rewrite wire_time_app. unfold wire_time at 1. cbn [map sumZ foldr op_time]. rewrite Hc1. lia. }
  pose proof (wire_time_nonneg r k (Send sent1 b1 bulk1 :: between) Hr ltac:(by apply Forall_cons)) as Hnn.
  assert (Hn : 0 < next < 2 ^ 62) by (pow2_eval; lia). destruct Hok2 as [Hs2 Hb2].
  pose proof (no_overshoot k s r next sent2 b2 bulk2 Hr Hn ltac:(lia) Hb2 Hm Hb Hc2 Hf) as Hno.
  assert (Hmb : 0 <= maxBurstPackets * ws_maxDatagramSize s < 2 ^ 30) by (unfold maxBurstPackets; pow2_eval; lia).
  destruct (pacingDuration_spec _ r Hmb Hr) as [_ Hburst].
  assert (Hall : Forall op_ok (Send sent1 b1 bulk1 :: between ++ [Send sent2 b2 bulk2])).
  { apply Forall_cons. split; [done|]. apply Forall_app. split; [done|]. by apply Forall_singleton. }
  pose proof (wire_time_covers r k _ Hr Hall) as Hcov. rewrite app_comm_cons, wire_time_app in Hcov.
  unfold wire_time at 2 in Hcov. cbn [map sumZ foldr op_time] in Hcov. rewrite Hc2 in Hcov. rewrite <- app_comm_cons in Hcov. nia.
Qed.

Lemma deadline_exact s r next now b later_ :
  0 < r -> 0 <= next < 2 ^ 62 -> 0 <= b < 2 ^ 30 -> 0 < ws_maxDatagramSize s < 2 ^ 26 -> 0 <= now ->
  let d := wire_deadline s (mkBucket r next) now b in
  d <> 0 -> now < d /\ (0 <= later_ -> (wire_deadline s (mkBucket r next) later_ b = 0 <-> d <= later_)).
Proof.
  intros Hr Hn Hb Hm Hnow. cbn zeta. destruct (decide (next = 0)) as [->|Hnz]; [done|].
  rewrite !wire_deadline_spec by (try done; lia). cbn zeta. set (d := next + _ - _). destruct (d <=? now) eqn:E; [done|].
  intros _. split; [lia|]. intros Hl. destruct (d <=? later_) eqn:E2; lia.
Qed.

Lemma wire_deadline_nonneg s r next now b :
  0 < r -> 0 <= next < 2 ^ 62 -> 0 <= b < 2 ^ 30 -> 0 < ws_maxDatagramSize s < 2 ^ 26 -> 0 <= now -> 0 <= wire_deadline s (mkBucket r next) now b.
Proof.
  intros Hr Hn Hb Hm Hnow. destruct (decide (next = 0)) as [->|Hnz]; [done|]. rewrite wire_deadline_spec by (try done; lia). cbn zeta.
  destruct (_ <=? now) eqn:E; lia.
Qed.

Lemma deadline_stays s r next now later_ b :
  0 < r -> 0 <= next < 2 ^ 62 -> 0 <= b < 2 ^ 30 -> 0 < ws_maxDatagramSize s < 2 ^ 26 -> 0 <= now ->
  wire_deadline s (mkBucket r next) now b = 0 -> now <= later_ -> wire_deadline s (mkBucket r next) later_ b = 0.
Proof.
  intros Hr Hn Hb Hm Hnow. destruct (decide (next = 0)) as [->|Hnz]; [done|]. rewrite !wire_deadline_spec by (try done; lia). cbn zeta.
  set (d := next + _ - _). destruct (d <=? now) eqn:E1, (d <=? later_) eqn:E2; lia.
Qed.

(** A connection told to wait is told the first moment it may send: the answer is
    the time from which it would be told to send at once. *)
Theorem wire_wait_exact s bulk now later_ rt nt rb nb :
  ws_total s = mkBucket rt nt -> ws_bulk s = mkBucket rb nb -> 0 < rt -> 0 < rb -> 0 <= nt < 2 ^ 62 -> 0 <= nb < 2 ^ 62 ->
  0 < ws_maxDatagramSize s < 2 ^ 26 -> 0 <= now -> 0 <= later_ ->
  let d := wire_timeUntilSend s now bulk in
  d <> 0 -> now < d /\ (now <= later_ -> wire_timeUntilSend s later_ bulk = 0 <-> d <= later_).
Proof.
  intros Ht Hb Hrt Hrb Hnt Hnb Hm Hnow Hl. cbn zeta. unfold wire_timeUntilSend, later. rewrite Ht, Hb.
  assert (Hmb : 0 <= ws_maxDatagramSize s < 2 ^ 30) by (pow2_eval; lia).
  pose proof (deadline_exact s rt nt now _ later_ Hrt Hnt Hmb Hm Hnow) as Xt. pose proof (deadline_exact s rb nb now _ later_ Hrb Hnb Hmb Hm Hnow) as Xb.
  pose proof (wire_deadline_nonneg s rt nt now _ Hrt Hnt Hmb Hm Hnow) as Pt. pose proof (wire_deadline_nonneg s rb nb now _ Hrb Hnb Hmb Hm Hnow) as Pb.
  pose proof (wire_deadline_nonneg s rt nt later_ _ Hrt Hnt Hmb Hm Hl) as Qt. pose proof (wire_deadline_nonneg s rb nb later_ _ Hrb Hnb Hmb Hm Hl) as Qb.
  cbn zeta in Xt, Xb.
  pose proof (deadline_stays s rt nt now later_ _ Hrt Hnt Hmb Hm Hnow) as Mt. pose proof (deadline_stays s rb nb now later_ _ Hrb Hnb Hmb Hm Hnow) as Mb.
  destruct bulk; [|intros Hd; destruct (Xt Hd) as [? X]; split; [done|]; intros; by apply X].
  destruct (_ >? _) eqn:E in |- *; intros Hd.
  - destruct (Xt Hd) as [H1 X1]. split; [done|]. intros Hle. specialize (X1 Hl).
    destruct (decide (wire_deadline s (mkBucket rb nb) now (ws_maxDatagramSize s) = 0)) as [Hz|Hnz].
    + specialize (Mb Hz Hle). rewrite Mb. destruct (_ >? 0) eqn:?; [exact X1|]. lia.
    + destruct (Xb Hnz) as [H2 X2]. specialize (X2 Hl). destruct (_ >? _) eqn:? in |- *; lia.
  - destruct (Xb Hd) as [H1 X1]. split; [done|]. intros Hle. specialize (X1 Hl).
    destruct (decide (wire_deadline s (mkBucket rt nt) now (ws_maxDatagramSize s) = 0)) as [Hz|Hnz].
    + specialize (Mt Hz Hle). rewrite Mt. destruct (0 >? _) eqn:?; lia.
    + destruct (Xt Hnz) as [H2 X2]. specialize (X2 Hl). destruct (_ >? _) eqn:? in |- *; lia.
Qed.

(** ** The pacer *)

(** A pacer in use. *)
Definition pacer_ok (p : pacer) : Prop :=
  0 < p_maxDatagramSize p < 2 ^ 26 /\ 0 <= burstPacingDelay p < 2 ^ 33 /\ 0 < lastSentTime p < 2 ^ 61 /\ 0 <= budgetAtLastSent p < 2 ^ 61.

Lemma maxBurst_ge bps floor p : 0 < p_maxDatagramSize p < 2 ^ 26 -> maxBurstPackets * p_maxDatagramSize p <= maxBurstSize bps floor p.
Proof.
  intros Hm. unfold maxBurstSize, maxByteCount, maxBurstPackets in *. rewrite (i64_small (10 * _)) by (pow2_eval; lia).
  destruct (_ >? _) eqn:E1; destruct floor as [f|]; try (destruct (f >? _) eqn:E2); lia.
Qed.

(** The budget while the product of rate and time fits. *)
Lemma budget_spec bps floor p now :
  pacer_ok p -> 0 < bps -> lastSentTime p <= now -> bps * (now - lastSentTime p) < 2 ^ 61 ->
  budget bps floor p now = Z.min (maxBurstSize bps floor p) (budgetAtLastSent p + bps * (now - lastSentTime p) / second).
Proof.
  intros (_ & _ & Hl & Hb) Hbps Hnow Hprod. unfold budget, minByteCount. replace (bps <=? 0) with false by lia.
  replace (lastSentTime p =? 0) with false by lia.
  assert (Hd : now - lastSentTime p < 2 ^ 61) by nia. rewrite (i64_small (now - _)) by (pow2_eval; lia).
  assert (Hpos : 0 <= bps * (now - lastSentTime p)) by nia.
  rewrite (i64_small (bps * _)) by (pow2_eval; lia). rewrite Z.quot_div_nonneg by (unfold second; lia).
  set (x := bps * _) in *. assert (0 <= x / second <= x).
  { unfold second. split; [apply Z.div_pos; lia|apply Z.div_le_upper_bound; lia]. }
  rewrite i64_small by (pow2_eval; lia). replace (_ <? 0) with false by lia. destruct (_ <? _) eqn:E; lia.
Qed.

(** A controller that sleeps until the time [timeUntilSend] gives has the budget for
    a packet when it wakes. *)
Theorem pacer_wait_sufficient bps floor p now :
  pacer_ok p -> 0 < bps < 2 ^ 63 -> budgetAtLastSent p < p_maxDatagramSize p ->
  timeUntilSend MinPacingDelay bps p <= now -> lastSentTime p <= now -> bps * (now - lastSentTime p) < 2 ^ 61 ->
  p_maxDatagramSize p <= budget bps floor p now.
Proof.
  intros Hok Hbps Hlow Ht Hnow Hprod. rewrite budget_spec by (try done; lia). destruct Hok as (Hm & _ & Hl & Hb).
  pose proof (maxBurst_ge bps floor p Hm). apply Z.min_glb; [unfold maxBurstPackets in *; lia|].
  unfold timeUntilSend in Ht. replace (_ >=? _) with false in Ht by lia. rewrite (wrap_small 64 bps) in Ht by (pow2_eval; lia).
  replace (bps =? 0) with false in Ht by lia. rewrite (wrap_small 64 (p_maxDatagramSize p - _)) in Ht by (pow2_eval; lia).
  set (need := p_maxDatagramSize p - budgetAtLastSent p) in *.
  rewrite (wrap_small 64) in Ht by (unfold second; pow2_eval; lia). set (diff := second * need) in *.
  assert (Hdiff : 0 <= diff < 2 ^ 57) by (unfold diff, second; pow2_eval; lia).
  pose proof (Z.div_mod diff bps ltac:(lia)) as Hdm. pose proof (Z.mod_pos_bound diff bps ltac:(lia)) as Hmb.
  assert (Hq : 0 <= diff / bps <= diff) by (split; [apply Z.div_pos; lia|apply Z.div_le_upper_bound; nia]).
  set (d := if negb (diff mod bps =? 0) then _ else _) in Ht.
  assert (Hd : 0 <= d < 2 ^ 58 /\ diff <= d * bps).
  { unfold d. destruct (diff mod bps =? 0) eqn:E; cbn [negb]; [pow2_eval; nia|]. rewrite wrap_small by (pow2_eval; lia). pow2_eval. nia. }
  rewrite (i64_small d) in Ht by (pow2_eval; lia). unfold maxDuration in Ht.
  rewrite i64_small in Ht by (destruct (_ >? _); pow2_eval; lia).
  assert (Hwait : d <= now - lastSentTime p) by (destruct (_ >? _) eqn:E in Ht; lia).
  enough (need <= bps * (now - lastSentTime p) / second) by (unfold need in *; lia).
  apply Z.div_le_lower_bound; [unfold second; lia|]. unfold diff in Hd. nia.
Qed.

(** Packets sent one after the other at a steady rate. *)
Fixpoint paced (bps : Z) (p : pacer) (sends : list (Z * Z)) : option pacer :=
  match sends with
  | [] => Some p
  | (now, size) :: rest =>
      if (lastSentTime p <=? now) && (0 <=? size) && (size <=? budget bps None p now) then paced bps (sentPacket bps None p now size) rest else None
  end.

Lemma sentPacket_step bps p now size :
  pacer_ok p -> 0 < bps -> lastSentTime p <= now < 2 ^ 61 -> bps * (now - lastSentTime p) < 2 ^ 61 -> 0 <= size <= budget bps None p now ->
  budget bps None p now < 2 ^ 61 ->
  let p' := sentPacket bps None p now size in
  pacer_ok p' /\ p_maxDatagramSize p' = p_maxDatagramSize p /\ burstPacingDelay p' = burstPacingDelay p /\ lastSentTime p' = now /\
  second * (budgetAtLastSent p' + size) <= second * budgetAtLastSent p + bps * (now - lastSentTime p).
Proof.
  intros Hok Hbps Hnow Hprod Hsize Hlt. cbn zeta. unfold sentPacket. replace (size >? _) with false by lia.
  rewrite budget_spec in * by (try done; lia). set (x := bps * _) in *. pose proof (Z.mul_div_le x second ltac:(done)).
  destruct Hok as (H1 & H2 & H3 & H4). split; [|split; [done|split; [done|split; [done|cbn [budgetAtLastSent]; unfold second in *; lia]]]].
  split; [done|]. split; [done|]. cbn [budgetAtLastSent lastSentTime]. split; lia.
Qed.

(** What a controller puts on the wire while it keeps to its budget is at most
    its rate for the time that passed and one burst. *)
Theorem pacer_rate_bounded bps p sends p' :
  pacer_ok p -> 0 < bps -> maxBurstSize bps None p < 2 ^ 61 -> paced bps p sends = Some p' ->
  Forall (fun s => fst s < 2 ^ 61) sends -> bps * (lastSentTime p' - lastSentTime p) < 2 ^ 61 ->
  second * sumZ (map snd sends) <= second * budgetAtLastSent p + bps * (lastSentTime p' - lastSentTime p).
Proof.
  intros Hok Hbps Hburst Hp Hs Hprod.
  enough (second * (budgetAtLastSent p' + sumZ (map snd sends)) <= second * budgetAtLastSent p + bps * (lastSentTime p' - lastSentTime p) /\
    0 <= budgetAtLastSent p' /\ lastSentTime p <= lastSentTime p') as (H & H0 & _) by (unfold second in *; lia).
  revert p Hok Hburst Hp Hprod. induction Hs as [|[now size] sends Hnow Hs IH]; intros p Hok Hburst Hp Hprod; cbn [paced] in Hp.
  - simplify_eq. cbn. destruct Hok as (_ & _ & _ & Hb). lia.
  - destruct (_ && _ && _) eqn:E in Hp; [|done]. bool_to_prop. cbn [fst] in Hnow.
    assert (Hmono : forall q sends p', paced bps q sends = Some p' -> lastSentTime q <= lastSentTime p').
    { clear. intros q sends. revert q. induction sends as [|[n z] sends IH]; intros q p' Hq; cbn in Hq; [by simplify_eq|].
      destruct (_ && _ && _) eqn:E; [|done]. apply IH in Hq. bool_to_prop. cbn in Hq. lia. }
    pose proof (Hmono _ _ _ Hp) as Hm. cbn [lastSentTime sentPacket] in Hm.
    assert (Hpr : bps * (now - lastSentTime p) < 2 ^ 61) by nia.
    assert (Hbl : budget bps None p now <= maxBurstSize bps None p) by (rewrite budget_spec by (try done; lia); lia).
    destruct (sentPacket_step bps p now size Hok Hbps ltac:(lia) Hpr ltac:(lia) ltac:(lia)) as (Hok' & Hmd & Hbd & Hlt & Hle).
    cbn zeta in *. specialize (IH (sentPacket bps None p now size) Hok'). rewrite Hlt in IH.
    destruct IH as (I1 & I2 & I3); [unfold maxBurstSize in *; by rewrite Hmd, Hbd|done|nia|].
    cbn [map snd sumZ foldr]. change (foldr Z.add 0 (map snd sends)) with (sumZ (map snd sends)). unfold second in *. nia.
Qed.

(** The guard against overflow only looks at the sign: the product of rate and time
    may come round to a small positive number, and a sender that has been idle for
    long is told it has no budget. *)
Theorem idle_pacer_starved : exists p bps now,
  pacer_ok p /\ 0 < bps /\ lastSentTime p + 17 * second <= now /\ budget bps None p now = 0.
Proof.
  exists (mkPacer 0 1200 1 (4 * 1000000)), (2 ^ 30), (1 + 2 ^ 34). split; [repeat split; vm_compute; congruence|].
  split; [done|]. split; [vm_compute; congruence|]. vm_compute. reflexivity.
Qed.

End Theorems.

(** Two bulk packets two milliseconds apart, with another connection's packet in between. *)
Lemma wire_cap_holds_witness :
  second * sent_bytes true [Send 1000 1200 true; Send 2000 1200 false; Send 2001000 1300 true] <=
    900000 * (2001000 - 1000) + second * (maxBurstPackets * 1280) + 900000.
Proof.
  apply (wire_cap_holds 1280 ltac:(lia) 1000000 100000 true [] (Send 1000 1200 true) 1000 1200 true [Send 2000 1200 false] 2001000 1300 true);
    [lia|lia|reflexivity|reflexivity|reflexivity|repeat constructor; vm_compute; congruence|
     repeat constructor; vm_compute; congruence|vm_compute; reflexivity|vm_compute; reflexivity].
Defined.

Lemma pacer_rate_bounded_witness :
  second * sumZ (map snd [(2000000, 1200); (3000000, 1000)]) <= second * 3000 + 1000000 * (3000000 - 1).
Proof.
  apply (pacer_rate_bounded 1000000 (mkPacer 3000 1200 1 4000000) [(2000000, 1200); (3000000, 1000)] (mkPacer 3799 1200 3000000 4000000));
    [repeat constructor; vm_compute; congruence|lia|vm_compute; reflexivity|vm_compute; reflexivity|
     repeat constructor; vm_compute; congruence|vm_compute; reflexivity].
Defined.
