(* ===== verification/Limits.v ===== *)
(** Memory limits ([internal/pep/memory.go]): an operator's profile is checked once
    and becomes the bounds every flow is built with.  The theorems show that what
    passes the check satisfies what the reassembler, the striping scheduler and the
    lane queues ask of their configuration. *)

From S2P Require Import Prelude Frame Memlimit Reassembly Stripe StripeInv FrameConn Transfer.
Import protocol.

(** [mpflow.go] and [client.go]; the send side's are in [Transfer], those of
    [frameconn.go] in [FrameConn]. *)
Definition maxLaneEvents : Z := 256.
Definition maxReassemblyBytes : Z := 2 * maxFlowOutstandingBytes.
Definition maxReassemblyFrames : Z := 16384.
Definition maxLaneWriteQueue : Z := 64.
Definition maxLaneInteractiveReserve : Z := 8.
Definition isolatedBulkConns : Z := 8.

Record MemoryLimits := mkMemoryLimits {
  SendBudgetBytes : Z; ReceiveBudgetBytes : Z; MaxFlowSendBytes : Z; MaxFlowReceiveBytes : Z; MaxFlowOutstanding : Z;
  MaxFlowReceiveFrames : Z; EventQueueFrames : Z; LaneWriteQueueFrames : Z; LaneInteractiveReserve : Z;
  FrameReadBufferBytes : Z; MaxUDPPacketBytes : Z; MaxBulkConnections : Z }.

Record flowMemoryLimits := mkFlowMemoryLimits {
  maxSendBytes : Z; maxReceiveBytes : Z; maxOutstanding : Z; maxReceiveFrames : Z; eventQueue : Z; laneWriteQueue : Z;
  laneControlReserve : Z; frameReadBuffer : Z; maxUDPPacketBytes : Z; maxBulkConnections : Z }.

Definition defaultFlowMemoryLimits : flowMemoryLimits :=
  mkFlowMemoryLimits maxFlowOutstandingBytes maxReassemblyBytes maxFlowOutstandingChunks maxReassemblyFrames maxLaneEvents
    maxLaneWriteQueue maxLaneInteractiveReserve defaultFrameReadBuffer 65535 isolatedBulkConns.

Inductive limits_error :=
| ErrFlowSend | ErrSharedSend | ErrSharedReceive | ErrFlowSendShare | ErrFlowReceiveShare | ErrNotPositive
| ErrEventQueue | ErrWriteQueue | ErrControlReserve | ErrReadBuffer | ErrUDPPacket | ErrBulkConnections.

(** A positive setting replaces the default. *)
Definition override (configured default_ : Z) : Z := if configured >? 0 then configured else default_.

(** The defaults with the profile's settings in place of them. *)
Definition configured_limits (c : MemoryLimits) : flowMemoryLimits :=
  let d := defaultFlowMemoryLimits in
  mkFlowMemoryLimits (override (MaxFlowSendBytes c) (maxSendBytes d)) (override (MaxFlowReceiveBytes c) (maxReceiveBytes d))
    (override (MaxFlowOutstanding c) (maxOutstanding d)) (override (MaxFlowReceiveFrames c) (maxReceiveFrames d))
    (override (EventQueueFrames c) (eventQueue d)) (override (LaneWriteQueueFrames c) (laneWriteQueue d))
    (override (LaneInteractiveReserve c) (laneControlReserve d)) (override (FrameReadBufferBytes c) (frameReadBuffer d))
    (override (MaxUDPPacketBytes c) (maxUDPPacketBytes d)) (override (MaxBulkConnections c) (maxBulkConnections d)).

Definition resolveMemoryLimits (configured : option MemoryLimits) (chunkSize : Z) :
    result limits_error (flowMemoryLimits * option Budget * option Budget) :=
  match configured with
  | None => Ok (defaultFlowMemoryLimits, None, None)
  | Some c =>
      let l := configured_limits c in
      if (chunkSize <=? 0) || (maxSendBytes l <? chunkSize) then Err ErrFlowSend
      else if SendBudgetBytes c <? chunkSize then Err ErrSharedSend
      else if ReceiveBudgetBytes c <=? 0 then Err ErrSharedReceive
      else if maxSendBytes l >? SendBudgetBytes c then Err ErrFlowSendShare
      else if maxReceiveBytes l >? wrap 64 (ReceiveBudgetBytes c) then Err ErrFlowReceiveShare
      else if (maxReceiveBytes l =? 0) || (maxOutstanding l <? 1) || (maxReceiveFrames l <? 1) then Err ErrNotPositive
      else if (eventQueue l <? 1) || (eventQueue l >? maxLaneEvents) then Err ErrEventQueue
      else if (laneWriteQueue l <? 2) || (laneWriteQueue l >? maxLaneWriteQueue) then Err ErrWriteQueue
      else if (laneControlReserve l <? 1) || (laneControlReserve l >=? laneWriteQueue l) then Err ErrControlReserve
      else if (frameReadBuffer l <? 512) || (frameReadBuffer l >? maxFrameReadBuffer) then Err ErrReadBuffer
      else if (maxUDPPacketBytes l <? 1280) || (maxUDPPacketBytes l >? 65535) then Err ErrUDPPacket
      else if (maxBulkConnections l <? 1) || (maxBulkConnections l >? isolatedBulkConns) then Err ErrBulkConnections
      else Ok (l, Budget_New (SendBudgetBytes c), Budget_New (ReceiveBudgetBytes c))
  end.

(** The capacities [addLane] gives a lane's bulk queue, interactive queue and slots. *)
Definition lane_queue_capacities (limits : flowMemoryLimits) : Z * Z * Z :=
  let limits := if (laneWriteQueue limits <? 2) || (laneControlReserve limits >=? laneWriteQueue limits)
                then defaultFlowMemoryLimits else limits in
  (laneWriteQueue limits - laneControlReserve limits, laneWriteQueue limits, laneWriteQueue limits).

(** The limits [newMultipathFlowWithMemory] keeps, and the reassembler's
    configuration at the start of [receiveInner]. *)
Definition flow_limits (limits : flowMemoryLimits) : flowMemoryLimits :=
  if eventQueue limits <=? 0 then defaultFlowMemoryLimits else limits.

Definition flow_chunkSize (chunkSize : Z) : Z := if chunkSize <=? 0 then defaultChunkSize else chunkSize.

Definition receive_config (limits : flowMemoryLimits) (receiveMemory : option Budget) : ReassemblerConfig :=
  mkRConfig (maxReceiveBytes limits) (maxReceiveFrames limits) receiveMemory.

(** ** The theorems *)

(** A profile's fields in the range of their Go types. *)
Definition profile_typed (c : MemoryLimits) : Prop :=
  - 2 ^ 63 <= ReceiveBudgetBytes c < 2 ^ 63 /\ 0 <= MaxFlowReceiveBytes c < 2 ^ 64 /\ MaxFlowReceiveFrames c < 2 ^ 63 /\
  SendBudgetBytes c < 2 ^ 63.

Lemma override_pos c d : 0 < d -> 0 < override c d.
Proof. unfold override. destruct (c >? 0) eqn:E; lia. Qed.

(** The bounds every resolved profile and the defaults satisfy. *)
Record limits_ok (l : flowMemoryLimits) (sm rm : option Budget) : Prop := {
  lo_receive : config_ok (receive_config l rm);
  lo_memory : memory_ok rm;
  lo_send : budget_ok sm;
  lo_events : 1 <= eventQueue l <= maxLaneEvents;
  lo_queue : 1 <= laneControlReserve l < laneWriteQueue l /\ laneWriteQueue l <= maxLaneWriteQueue;
  lo_buffer : 512 <= frameReadBuffer l <= maxFrameReadBuffer;
  lo_udp : 1280 <= maxUDPPacketBytes l <= 65535;
  lo_conns : 1 <= maxBulkConnections l <= isolatedBulkConns;
  lo_outstanding : 1 <= maxOutstanding l
}.

Lemma resolve_ok configured chunkSize l sm rm :
  (forall c, configured = Some c -> profile_typed c) -> resolveMemoryLimits configured chunkSize = Ok (l, sm, rm) -> limits_ok l sm rm.
Proof.
  intros Ht Hr. destruct configured as [c|]; cbn [resolveMemoryLimits] in Hr; [|simplify_eq; split; vm_compute; intuition congruence].
  destruct (Ht c eq_refl) as (T1 & T2 & T3 & T4). clear Ht. cbn zeta in Hr. set (l' := configured_limits c) in *.
  assert (Hf : maxReceiveFrames l' < 2 ^ 63) by (unfold l'; cbn; unfold override; destruct (_ >? 0); [done|vm_compute; done]).
  split_ifs_in Hr; try done. injection Hr as <- <- <-. bool_to_prop. rewrite wrap_small in * by (pow2_eval; lia).
  assert (Hpos : 0 < maxReceiveBytes l') by (apply override_pos; done).
  assert (HS : Budget_New (SendBudgetBytes c) = Some (mkBudget (SendBudgetBytes c) 0 0 0 0)) by (unfold Budget_New; replace (_ <=? 0) with false by lia; done).
  assert (HR : Budget_New (ReceiveBudgetBytes c) = Some (mkBudget (ReceiveBudgetBytes c) 0 0 0 0)) by (unfold Budget_New; replace (_ <=? 0) with false by lia; done).
  rewrite HS, HR. split; try lia.
  - split; cbn [receive_config MaxBufferedBytes MaxBufferedFrames]; pow2_eval; lia.
  - cbn. unfold Budget_wf. cbn. lia.
  - cbn. unfold Budget_wf. cbn. lia.
Qed.

(** An operator's profile that is accepted, or the absence of one, configures
    flows the rest of the program is proved for: the reassembler and the shared
    budgets start well-formed, a lane gets the queues the profile asks for, with
    room for control frames beside the bulk queue, and no default is silently put
    in its place; and a chunk fits both a flow's share and the shared send memory,
    so that a flow alone is never stuck on its first read. *)
Theorem accepted_limits_configure configured chunkSize l sm rm :
  (forall c, configured = Some c -> profile_typed c) -> resolveMemoryLimits configured chunkSize = Ok (l, sm, rm) ->
  config_ok (receive_config (flow_limits l) rm) /\ memory_ok rm /\ budget_ok sm /\ flow_limits l = l /\
  lane_queue_capacities l = (laneWriteQueue l - laneControlReserve l, laneWriteQueue l, laneWriteQueue l) /\
  1 <= laneControlReserve l < laneWriteQueue l /\
  (forall c, configured = Some c -> 0 < chunkSize <= maxSendBytes l /\
     exists b, sm = Some b /\ capacity b = SendBudgetBytes c /\ maxSendBytes l <= capacity b).
Proof.
  intros Ht Hr. destruct (resolve_ok _ _ _ _ _ Ht Hr) as [H1 H2 H3 H4 [H5 H5'] _ _ _ _].
  assert (Hl : flow_limits l = l) by (unfold flow_limits; by replace (_ <=? 0) with false by lia).
  rewrite Hl. split; [done|]. split; [done|]. split; [done|]. split; [done|]. split.
  { unfold lane_queue_capacities. replace (_ || _) with false by (symmetry; apply orb_false_iff; lia). done. }
  split; [done|]. intros c ->. cbn [resolveMemoryLimits] in Hr. cbn zeta in Hr.
  split_ifs_in Hr; try done. injection Hr as <- <- <-. bool_to_prop. split; [lia|].
  exists (mkBudget (SendBudgetBytes c) 0 0 0 0). unfold Budget_New. replace (_ <=? 0) with false by lia. cbn [capacity]. split; [done|]. split; [done|lia].
Qed.

(** A constrained client. *)
Definition small_profile : MemoryLimits := mkMemoryLimits 1048576 1048576 262144 524288 64 64 16 8 1 2048 1500 2.

Lemma accepted_limits_configure_witness :
  config_ok (receive_config (flow_limits (configured_limits small_profile)) (Some (mkBudget 1048576 0 0 0 0))) /\
  lane_queue_capacities (configured_limits small_profile) = (7, 8, 8).
Proof.
  assert (Ht : forall c, Some small_profile = Some c -> profile_typed c).
  { intros c Hc. simplify_eq. vm_compute. intuition congruence. }
  destruct (accepted_limits_configure (Some small_profile) 32768 (configured_limits small_profile) (Some (mkBudget 1048576 0 0 0 0))
    (Some (mkBudget 1048576 0 0 0 0)) Ht ltac:(vm_compute; reflexivity)) as (H1 & _ & _ & _ & H5 & _).
  split; [exact H1|exact H5].
Defined.
