(* ===== verification/WriteQueue.v ===== *)
(** A lane's write queues ([internal/pep/mpflow.go]: [addLane]'s queues,
    [enqueueFrameWritten], [tryEnqueueFrameClass], [nextLaneFrame], [writeLane]).

    Two bounded channels, one for bulk and one for interactive frames, share a
    semaphore of slots.  Any number of senders put frames in and one writer takes
    them out.  Each of them is a state machine whose moves are the arms of the
    code's [select] statements, so [wl_step] runs any interleaving, and a label
    that no [select] could take gives [None].  Production lanes have all their
    channels (the nil tests of these functions serve lanes built by hand) and no
    write hook. *)

From S2P Require Import Prelude Frame Limits.
Import protocol.

Record laneFrame := mkLaneFrame { lf_frame : Frame; lf_onWritten : option Z }.

Inductive send_result :=
| Accepted | LaneFull | LaneIsClosed | PacingFailed | WriterStopped | FlowIsClosed | ContextDone.

(** Where a sender is: waiting for the aggregate budget, at the select for a slot,
    at the select for the queue with a slot in hand, or back. *)
Inductive sender_phase := AtBudget | AtSlots | AtQueue | Returned (r : send_result).

(** [s_blocking] tells [enqueueFrameWritten] from [tryEnqueueFrameClass]. *)
Record sender := mkSender { s_blocking : bool; s_bulk : bool; s_item : laneFrame; s_phase : sender_phase }.

(** Where the writer is: in [nextLaneFrame] at its first check, the check for
    shutdown, the check of the interactive queue, or the last select; then with a
    frame in hand before and after its slot is given back; or gone. *)
Inductive writer := FirstCheck | StopCheck | Recheck | Selecting | Took (q : laneFrame) | Writing (q : laneFrame) | WriterGone.

Record wlane := mkWlane {
  writeQ_cap : Z; writeInteractiveQ_cap : Z; writeSlots_cap : Z;
  writeSlots : Z; writeQ : list laneFrame; writeInteractiveQ : list laneFrame;
  w_writer : writer; w_senders : gmap Z sender;
  w_done : bool;                       (* [f.done] *)
  w_ctx : bool;                        (* [f.ctx.Done()] *)
  w_closed : bool;
  w_in : list (bool * laneFrame);      (* put into a queue, the bulk ones marked *)
  w_out : list (bool * laneFrame);     (* taken out by the writer *)
  w_written : list laneFrame;          (* taken by the transport *)
  w_notified : list Z;                 (* the callbacks that ran *)
  w_sent : Z
}.

Definition new_wlane (limits : flowMemoryLimits) : wlane :=
  let '(bulk, interactive, slots) := lane_queue_capacities limits in
  mkWlane bulk interactive slots 0 [] [] FirstCheck ∅ false false false [] [] [] [] 0.

(** [close(lane.writeDone)] is deferred by the writer. *)
Definition writeDone (w : wlane) : bool := match w_writer w with WriterGone => true | _ => false end.

Definition with_slots (w : wlane) (n : Z) : wlane :=
  mkWlane (writeQ_cap w) (writeInteractiveQ_cap w) (writeSlots_cap w) n (writeQ w) (writeInteractiveQ w) (w_writer w) (w_senders w)
    (w_done w) (w_ctx w) (w_closed w) (w_in w) (w_out w) (w_written w) (w_notified w) (w_sent w).

Definition with_writer (w : wlane) (x : writer) : wlane :=
  mkWlane (writeQ_cap w) (writeInteractiveQ_cap w) (writeSlots_cap w) (writeSlots w) (writeQ w) (writeInteractiveQ w) x (w_senders w)
    (w_done w) (w_ctx w) (w_closed w) (w_in w) (w_out w) (w_written w) (w_notified w) (w_sent w).

Definition with_sender (w : wlane) (i : Z) (s : sender) : wlane :=
  mkWlane (writeQ_cap w) (writeInteractiveQ_cap w) (writeSlots_cap w) (writeSlots w) (writeQ w) (writeInteractiveQ w) (w_writer w)
    (<[i := s]> (w_senders w)) (w_done w) (w_ctx w) (w_closed w) (w_in w) (w_out w) (w_written w) (w_notified w) (w_sent w).

(** [failLane] as far as these functions see it. *)
Definition close_wlane (w : wlane) : wlane :=
  mkWlane (writeQ_cap w) (writeInteractiveQ_cap w) (writeSlots_cap w) (writeSlots w) (writeQ w) (writeInteractiveQ w) (w_writer w)
    (w_senders w) (w_done w) (w_ctx w) true (w_in w) (w_out w) (w_written w) (w_notified w) (w_sent w).

Definition finish_flow (w : wlane) : wlane :=
  mkWlane (writeQ_cap w) (writeInteractiveQ_cap w) (writeSlots_cap w) (writeSlots w) (writeQ w) (writeInteractiveQ w) (w_writer w)
    (w_senders w) true (w_ctx w) (w_closed w) (w_in w) (w_out w) (w_written w) (w_notified w) (w_sent w).

Definition cancel_flow (w : wlane) : wlane :=
  mkWlane (writeQ_cap w) (writeInteractiveQ_cap w) (writeSlots_cap w) (writeSlots w) (writeQ w) (writeInteractiveQ w) (w_writer w)
    (w_senders w) (w_done w) true (w_closed w) (w_in w) (w_out w) (w_written w) (w_notified w) (w_sent w).

Definition put (w : wlane) (bulk : bool) (q : laneFrame) : wlane :=
  mkWlane (writeQ_cap w) (writeInteractiveQ_cap w) (writeSlots_cap w) (writeSlots w)
    (if bulk then writeQ w ++ [q] else writeQ w) (if bulk then writeInteractiveQ w else writeInteractiveQ w ++ [q]) (w_writer w)
    (w_senders w) (w_done w) (w_ctx w) (w_closed w) (w_in w ++ [(bulk, q)]) (w_out w) (w_written w) (w_notified w) (w_sent w).

(** The writer receives from a queue; [None] where it is empty. *)
Definition take_from (w : wlane) (bulk : bool) : option wlane :=
  let took q b i := mkWlane (writeQ_cap w) (writeInteractiveQ_cap w) (writeSlots_cap w) (writeSlots w) b i (Took q) (w_senders w)
    (w_done w) (w_ctx w) (w_closed w) (w_in w) (w_out w ++ [(bulk, q)]) (w_written w) (w_notified w) (w_sent w) in
  if bulk then match writeQ w with q :: rest => Some (took q rest (writeInteractiveQ w)) | [] => None end
  else match writeInteractiveQ w with q :: rest => Some (took q (writeQ w) rest) | [] => None end.

(** The transport took the frame: the counter, the callback, the next round. *)
Definition wrote (w : wlane) (q : laneFrame) : wlane :=
  mkWlane (writeQ_cap w) (writeInteractiveQ_cap w) (writeSlots_cap w) (writeSlots w) (writeQ w) (writeInteractiveQ w) FirstCheck
    (w_senders w) (w_done w) (w_ctx w) (w_closed w) (w_in w) (w_out w) (w_written w ++ [q])
    (match lf_onWritten q with Some k => w_notified w ++ [k] | None => w_notified w end)
    (if h_Type (f_Header (lf_frame q)) =? TypeData then w_sent w +u64 len (f_Payload (lf_frame q)) else w_sent w).

Inductive wlabel :=
| Offer (i : Z) (blocking bulk : bool) (q : laneFrame)   (* a call *)
| Pace (i : Z) (ok : bool)                               (* what [budget.Wait] says *)
| Acquire (i : Z)                                        (* the slot arm *)
| Insert (i : Z)                                         (* the queue arm *)
| Default (i : Z)                                        (* the default arm of either select *)
| SeeWriterDone (i : Z)                                  (* the [writeDone] arm of either select *)
| SeeDone (i : Z)                                        (* the [f.done] arm *)
| SeeCancelled (i : Z)                                   (* the caller's context *)
| Check                                                  (* the writer's two non-blocking receives *)
| CheckStop                                              (* its check for shutdown *)
| Select (bulk : bool)                                   (* its last select, a queue arm *)
| SelectStop                                             (* its last select, a stop arm *)
| GiveBack                                               (* it releases the frame's slot *)
| Write_ok | Write_fail | Schedule_stop                  (* the transport, the flow scheduler *)
| Finish | Cancel | Fail_lane.                           (* the flow ends, its context, the lane fails *)

(** A sender leaves the select it is at, giving its slot back if it has one; the
    receive blocks where there is no slot to take. *)
Definition leave (w : wlane) (i : Z) (s : sender) (r : send_result) : option wlane :=
  let w' := with_sender w i (mkSender (s_blocking s) (s_bulk s) (s_item s) (Returned r)) in
  match s_phase s with
  | AtSlots => Some w'
  | AtQueue => if writeSlots w >? 0 then Some (with_slots w' (writeSlots w - 1)) else None
  | _ => None
  end.

Definition queue_of (w : wlane) (bulk : bool) : list laneFrame := if bulk then writeQ w else writeInteractiveQ w.
Definition cap_of (w : wlane) (bulk : bool) : Z := if bulk then writeQ_cap w else writeInteractiveQ_cap w.

Definition slot_free (w : wlane) : bool := writeSlots w <? writeSlots_cap w.
Definition room (w : wlane) (bulk : bool) : bool := len (queue_of w bulk) <? cap_of w bulk.

Definition at_phase (s : sender) (p : sender_phase) : bool :=
  match s_phase s, p with AtBudget, AtBudget | AtSlots, AtSlots | AtQueue, AtQueue => true | _, _ => false end.

Definition move (s : sender) (p : sender_phase) : sender := mkSender (s_blocking s) (s_bulk s) (s_item s) p.

Definition sender_step (w : wlane) (i : Z) (s : sender) (l : wlabel) : option wlane :=
  match l with
  | Pace _ ok =>
      if at_phase s AtBudget then Some (with_sender w i (move s (if ok then AtSlots else Returned PacingFailed))) else None
  | Acquire _ =>
      if at_phase s AtSlots && slot_free w then Some (with_sender (with_slots w (writeSlots w + 1)) i (move s AtQueue)) else None
  | Insert _ =>
      if at_phase s AtQueue && room w (s_bulk s) then Some (with_sender (put w (s_bulk s) (s_item s)) i (move s (Returned Accepted))) else None
  | Default _ =>
      if s_blocking s || writeDone w then None
      else if at_phase s AtSlots && negb (slot_free w) then leave w i s LaneFull
      else if at_phase s AtQueue && negb (room w (s_bulk s)) then leave w i s LaneFull
      else None
  | SeeWriterDone _ => if writeDone w then option_map close_wlane (leave w i s WriterStopped) else None
  | SeeDone _ => if s_blocking s && w_done w then leave w i s FlowIsClosed else None
  | SeeCancelled _ => if s_blocking s then leave w i s ContextDone else None
  | _ => None
  end.

Definition wl_step (w : wlane) (l : wlabel) : option wlane :=
  match l with
  | Offer i blocking bulk q =>
      match w_senders w !! i with
      | Some _ => None
      | None => Some (with_sender w i (mkSender blocking bulk q
          (if w_closed w then Returned LaneIsClosed else if blocking then AtBudget else AtSlots)))
      end
  | Pace i _ | Acquire i | Insert i | Default i | SeeWriterDone i | SeeDone i | SeeCancelled i =>
      match w_senders w !! i with Some s => sender_step w i s l | None => None end
  | Check =>
      match w_writer w with
      | FirstCheck => match take_from w false with Some w' => Some w' | None => Some (with_writer w StopCheck) end
      | Recheck => match take_from w false with Some w' => Some w' | None => Some (with_writer w Selecting) end
      | _ => None
      end
  | CheckStop => match w_writer w with StopCheck => Some (with_writer w (if w_done w || w_ctx w then WriterGone else Recheck)) | _ => None end
  | Select bulk => match w_writer w with Selecting => take_from w bulk | _ => None end
  | SelectStop => match w_writer w with Selecting => if w_done w || w_ctx w then Some (with_writer w WriterGone) else None | _ => None end
  | GiveBack =>
      match w_writer w with
      | Took q => Some (with_writer (if writeSlots w >? 0 then with_slots w (writeSlots w - 1) else w) (Writing q))
      | _ => None
      end
  | Write_ok => match w_writer w with Writing q => Some (wrote w q) | _ => None end
  | Write_fail => match w_writer w with Writing _ => Some (close_wlane (with_writer w WriterGone)) | _ => None end
  | Schedule_stop => match w_writer w with Writing _ => Some (with_writer w WriterGone) | _ => None end
  | Finish => Some (finish_flow w)
  | Cancel => Some (cancel_flow w)
  | Fail_lane => Some (close_wlane w)
  end.

Fixpoint wl_run (w : wlane) (ls : list wlabel) : option wlane :=
  match ls with
  | [] => Some w
  | l :: ls => match wl_step w l with Some w' => wl_run w' ls | None => None end
  end.

(** ** The invariant *)

Definition holding (_ : Z) (s : sender) : Z := match s_phase s with AtQueue => 1 | _ => 0 end.
Definition holders (w : wlane) : Z := msum holding (w_senders w).
Definition taken (w : wlane) : Z := match w_writer w with Took _ => 1 | _ => 0 end.

(** The frames of one class, in order. *)
Definition of_class (bulk : bool) (l : list (bool * laneFrame)) : list laneFrame :=
  omap (fun p => if Bool.eqb (fst p) bulk then Some (snd p) else None) l.

Arguments of_class : simpl never.

Definition in_hand (w : wlane) : list laneFrame := match w_writer w with Took q | Writing q => [q] | _ => [] end.

Definition data_bytes (l : list laneFrame) : Z :=
  sumZ (map (fun q => if h_Type (f_Header (lf_frame q)) =? TypeData then len (f_Payload (lf_frame q)) else 0) l).

Arguments data_bytes : simpl never.

Record wl_inv (w : wlane) : Prop := mk_wl_inv {
  wi_slots : writeSlots w = len (writeQ w) + len (writeInteractiveQ w) + holders w + taken w;
  wi_cap : writeSlots w <= writeSlots_cap w;
  wi_bulk : len (writeQ w) <= writeQ_cap w;
  wi_inter : writeInteractiveQ_cap w = writeSlots_cap w;
  wi_order : forall b, of_class b (w_in w) = of_class b (w_out w) ++ queue_of w b;
  wi_out : exists lost, map snd (w_out w) = w_written w ++ in_hand w ++ lost /\ (writeDone w = false -> lost = []) /\ len lost <= 1;
  wi_notified : w_notified w = omap lf_onWritten (w_written w);
  wi_sent : w_sent w = wrap 64 (data_bytes (w_written w))
}.

Lemma holders_nonneg w : 0 <= holders w.
Proof. apply msum_nonneg. intros k s _. unfold holding. destruct (s_phase s); lia. Qed.

Lemma taken_range w : 0 <= taken w <= 1.
Proof. unfold taken. destruct (w_writer w); lia. Qed.

Lemma holder_counted w i s : w_senders w !! i = Some s -> holding i s <= holders w.
Proof. intros H. apply (msum_entry_le holding _ i s); [|done]. intros k a _. unfold holding. destruct (s_phase a); lia. Qed.

Lemma of_class_snoc b l c q : of_class b (l ++ [(c, q)]) = of_class b l ++ (if Bool.eqb c b then [q] else []).
Proof. unfold of_class. rewrite omap_app. cbn. by destruct (Bool.eqb c b). Qed.

Lemma data_bytes_snoc l q :
  data_bytes (l ++ [q]) = data_bytes l + if h_Type (f_Header (lf_frame q)) =? TypeData then len (f_Payload (lf_frame q)) else 0.
Proof. unfold data_bytes. rewrite map_app, sumZ_app. cbn. lia. Qed.

(** A sender's move, what it does to the slots in hand and the queues being given. *)
Lemma holders_sender w i s s' : w_senders w !! i = Some s -> holders (with_sender w i s') = holders w - holding i s + holding i s'.
Proof. intros H. unfold holders. cbn [w_senders with_sender]. by rewrite (msum_update holding _ i s s' H). Qed.

Lemma wl_inv_sender w i s s' n bulkq interq win :
  wl_inv w -> w_senders w !! i = Some s ->
  n - len bulkq - len interq - holding i s' = writeSlots w - len (writeQ w) - len (writeInteractiveQ w) - holding i s ->
  n <= writeSlots_cap w -> len bulkq <= writeQ_cap w ->
  (forall b, of_class b win = of_class b (w_out w) ++ if b then bulkq else interq) ->
  wl_inv (mkWlane (writeQ_cap w) (writeInteractiveQ_cap w) (writeSlots_cap w) n bulkq interq (w_writer w) (<[i := s']> (w_senders w))
    (w_done w) (w_ctx w) (w_closed w) win (w_out w) (w_written w) (w_notified w) (w_sent w)).
Proof.
  intros [] Hs Hn Hc Hb Ho. pose proof (holders_sender w i s s' Hs) as Hh. unfold holders in *. cbn in Hh. split; cbn; try done.
  unfold holders, taken in *. cbn. lia.
Qed.

Lemma wl_inv_close w : wl_inv w -> wl_inv (close_wlane w).
Proof. intros []. by split. Qed.

Lemma wl_inv_leave w i s r w' : wl_inv w -> w_senders w !! i = Some s -> leave w i s r = Some w' -> wl_inv w'.
Proof.
  intros Hi Hs Hl. unfold leave in Hl. pose proof (wi_cap _ Hi). pose proof (wi_bulk _ Hi). pose proof (wi_order _ Hi) as Ho.
  destruct (s_phase s) eqn:Ep; try done.
  - simplify_eq. apply (wl_inv_sender w i s); try done. unfold holding. cbn. rewrite Ep. lia.
  - destruct (_ >? 0) eqn:E; [|done]. simplify_eq. apply (wl_inv_sender w i s); try done; [|lia]. unfold holding. cbn. rewrite Ep. lia.
Qed.

Lemma at_phase_eq s p : at_phase s p = true -> match p with Returned _ => False | _ => s_phase s = p end.
Proof. unfold at_phase. destruct (s_phase s), p; done. Qed.

Lemma wl_inv_sender_step w i s l w' : wl_inv w -> w_senders w !! i = Some s -> sender_step w i s l = Some w' -> wl_inv w'.
Proof.
  intros Hi Hs Hst. pose proof (wi_cap _ Hi). pose proof (wi_bulk _ Hi). pose proof (wi_order _ Hi) as Ho.
  destruct l; cbn [sender_step] in Hst; try done.
  - destruct (at_phase _ _) eqn:E; [|done]. apply at_phase_eq in E. simplify_eq.
    apply (wl_inv_sender w i s); try done. unfold holding, move. rewrite E. destruct ok; cbn; lia.
  - destruct (_ && _) eqn:E; [|done]. bool_to_prop. apply at_phase_eq in H1. unfold slot_free in *. simplify_eq.
    apply (wl_inv_sender w i s); try done; [|cbn; lia]. unfold holding, move. rewrite H1. cbn. lia.
  - destruct (_ && _) eqn:E; [|done]. bool_to_prop. apply at_phase_eq in H1. unfold room, queue_of, cap_of in *. simplify_eq.
    apply (wl_inv_sender w i s); try done.
    + unfold holding, move. rewrite H1. cbn. destruct (s_bulk s); rewrite len_app, len_cons; change (len []) with 0; lia.
    + cbn. destruct (s_bulk s); rewrite ?len_app, ?len_cons; [change (len []) with 0|]; lia.
    + intros b. cbn [put with_sender w_in w_out]. rewrite of_class_snoc, Ho, <- app_assoc. destruct (s_bulk s), b; cbn; by rewrite ?app_nil_r.
  - destruct (_ || _); [done|]. destruct (_ && _); [by eapply wl_inv_leave|]. destruct (_ && _); [by eapply wl_inv_leave|done].
  - destruct (writeDone w); [|done]. destruct (leave w i s WriterStopped) as [w1|] eqn:E; [|done]. cbn in Hst. simplify_eq.
    apply wl_inv_close. by eapply wl_inv_leave.
  - destruct (_ && _); [by eapply wl_inv_leave|done].
  - destruct (s_blocking s); [by eapply wl_inv_leave|done].
Qed.

Lemma wl_inv_take w bulk w' : wl_inv w -> in_hand w = [] -> writeDone w = false -> take_from w bulk = Some w' -> wl_inv w'.
Proof.
  intros [] Hh Hd Ht. destruct wi_out0 as (lost & Ho & Hl & _). specialize (Hl Hd). subst lost. rewrite Hh, !app_nil_r in Ho.
  assert (Htk : taken w = 0) by (unfold in_hand, taken in *; by destruct (w_writer w)).
  unfold take_from in Ht. unfold queue_of in *.
  destruct bulk; [destruct (writeQ w) as [|q rest] eqn:E|destruct (writeInteractiveQ w) as [|q rest] eqn:E]; try done; simplify_eq;
    rewrite ?E, ?Htk, ?len_cons in *; (split; cbn; try done; try lia; try (change (taken _) with 1; unfold holders in *; cbn; lia)).
  1, 3: intros b; rewrite wi_order0, of_class_snoc; unfold queue_of; rewrite ?E; destruct b; cbn; rewrite ?app_nil_r, <- ?app_assoc; done.
  all: exists []; rewrite map_app, Ho; by cbn.
Qed.

Lemma wl_inv_step w l w' : wl_inv w -> wl_step w l = Some w' -> wl_inv w'.
Proof.
  intros Hi Hst. destruct l; cbn [wl_step] in Hst;
    try (destruct (w_senders w !! i) as [s|] eqn:Es; [|done]; by eapply wl_inv_sender_step).
  - destruct (w_senders w !! i) eqn:Es; [done|]. simplify_eq. destruct Hi. split; cbn; try done. unfold holders, taken in *. cbn.
    rewrite msum_insert by done. unfold holding at 1. cbn. destruct (w_closed w), blocking; cbn; lia.
  - pose proof Hi as Hi0. destruct Hi. destruct (w_writer w) eqn:Ew; try done.
    + destruct (take_from w false) as [w1|] eqn:E; simplify_eq; [apply (wl_inv_take w false w'); try done; unfold in_hand, writeDone; by rewrite Ew|].
      split; cbn; try done; unfold taken, holders, in_hand, writeDone in *; cbn; by rewrite Ew in *.
    + destruct (take_from w false) as [w1|] eqn:E; simplify_eq; [apply (wl_inv_take w false w'); try done; unfold in_hand, writeDone; by rewrite Ew|].
      split; cbn; try done; unfold taken, holders, in_hand, writeDone in *; cbn; by rewrite Ew in *.
  - destruct Hi. destruct (w_writer w) eqn:Ew; try done. simplify_eq. unfold taken, holders, in_hand, writeDone in *. rewrite Ew in *.
    destruct wi_out0 as (lost & Ho & Hl & H1). rewrite (Hl eq_refl) in Ho.
    destruct (_ || _); split; try done; unfold taken, holders, in_hand, writeDone; cbn; try done; by exists [].
  - destruct (w_writer w) eqn:Ew; try done. apply (wl_inv_take w bulk w'); try done; unfold in_hand, writeDone; by rewrite Ew.
  - destruct Hi. destruct (w_writer w) eqn:Ew; try done. destruct (_ || _); [|done]. simplify_eq. unfold taken, holders, in_hand, writeDone in *. rewrite Ew in *.
    destruct wi_out0 as (lost & Ho & Hl & H1). rewrite (Hl eq_refl) in Ho.
    split; try done; unfold taken, holders, in_hand, writeDone; cbn; try done; by exists [].
  - pose proof (holders_nonneg w). destruct Hi. destruct (w_writer w) eqn:Ew; try done. simplify_eq.
    unfold taken, holders, in_hand, writeDone in *. rewrite Ew in *.
    pose proof (len_nonneg (writeQ w)). pose proof (len_nonneg (writeInteractiveQ w)).
    replace (writeSlots w >? 0) with true by lia.
    split; try done; unfold taken, holders, in_hand, writeDone; cbn; try done; lia.
  - destruct Hi. destruct (w_writer w) eqn:Ew; try done. simplify_eq. unfold taken, holders, in_hand, writeDone in *. rewrite Ew in *.
    destruct wi_out0 as (lost & Ho & Hl & H1). rewrite (Hl eq_refl) in Ho.
    split; try done; unfold taken, holders, in_hand, writeDone; cbn; try done.
    + exists []. by rewrite Ho, !app_nil_r.
    + rewrite wi_notified0, omap_app. cbn. destruct (lf_onWritten q); [done|by rewrite app_nil_r].
    + rewrite data_bytes_snoc, wi_sent0. destruct (_ =? _); [by rewrite wrap_add_l|f_equal; lia].
  - destruct Hi. destruct (w_writer w) eqn:Ew; try done. simplify_eq. unfold taken, holders, in_hand, writeDone in *. rewrite Ew in *.
    destruct wi_out0 as (lost & Ho & Hl & H1). rewrite (Hl eq_refl) in Ho.
    split; try done; unfold taken, holders, in_hand, writeDone; cbn; try done. by exists [q].
  - destruct Hi. destruct (w_writer w) eqn:Ew; try done. simplify_eq. unfold taken, holders, in_hand, writeDone in *. rewrite Ew in *.
    destruct wi_out0 as (lost & Ho & Hl & H1). rewrite (Hl eq_refl) in Ho.
    split; try done; unfold taken, holders, in_hand, writeDone; cbn; try done. by exists [q].
  - simplify_eq. destruct Hi. by split.
  - simplify_eq. destruct Hi. by split.
  - simplify_eq. by apply wl_inv_close.
Qed.

(** ** Runs *)

Lemma wl_step_caps w l w' : wl_step w l = Some w' ->
  writeQ_cap w' = writeQ_cap w /\ writeInteractiveQ_cap w' = writeInteractiveQ_cap w /\ writeSlots_cap w' = writeSlots_cap w.
Proof.
  intros H. destruct l; cbn [wl_step] in H;
    try (destruct (w_senders w !! i) as [s|]; [|done]; cbn [sender_step] in H; unfold leave in H);
    repeat case_match; try done; unfold take_from, option_map in *; repeat case_match; simplify_eq; done.
Qed.

Definition queue_caps (w : wlane) (limits : flowMemoryLimits) : Prop :=
  (writeQ_cap w, writeInteractiveQ_cap w, writeSlots_cap w) = lane_queue_capacities limits.

Lemma new_wlane_inv limits : wl_inv (new_wlane limits) /\ queue_caps (new_wlane limits) limits.
Proof.
  unfold new_wlane, queue_caps, lane_queue_capacities. set (l := if _ || _ then _ else _).
  assert (Hl : 2 <= laneWriteQueue l /\ laneControlReserve l < laneWriteQueue l).
  { unfold l. destruct (_ || _) eqn:E; [vm_compute; intuition congruence|]. bool_to_prop. lia. }
  split; [|done]. split; cbn; try done; [lia|change (len []) with 0; lia|by intros []|by exists []].
Qed.

Lemma wl_run_app w ls ls' : wl_run w (ls ++ ls') = match wl_run w ls with Some w' => wl_run w' ls' | None => None end.
Proof. revert w. induction ls as [|l ls IH]; intros w; cbn; [done|]. destruct (wl_step w l); [apply IH|done]. Qed.

Lemma wl_run_inv limits w ls w' : wl_inv w -> queue_caps w limits -> wl_run w ls = Some w' -> wl_inv w' /\ queue_caps w' limits.
Proof.
  revert w. induction ls as [|l ls IH]; intros w Hi Hc Hr; cbn in Hr; [by simplify_eq|].
  destruct (wl_step w l) as [w1|] eqn:E; [|done]. apply (IH w1); [by eapply wl_inv_step| |done].
  unfold queue_caps in *. destruct (wl_step_caps _ _ _ E) as (-> & -> & ->). done.
Qed.

Lemma wl_reach limits ls w : wl_run (new_wlane limits) ls = Some w -> wl_inv w /\ queue_caps w limits.
Proof. destruct (new_wlane_inv limits). by apply wl_run_inv. Qed.

Lemma caps_positive w limits : queue_caps w limits -> 0 < writeQ_cap w /\ 2 <= writeSlots_cap w.
Proof.
  unfold queue_caps, lane_queue_capacities. destruct (_ || _) eqn:E; intros H; injection H as H1 H2 H3; rewrite H1, H3; [done|].
  bool_to_prop. lia.
Qed.

(** A sender with a slot in hand can always give it back, and an interactive one
    always finds room. *)
Lemma holder_slot w i s : wl_inv w -> w_senders w !! i = Some s -> s_phase s = AtQueue ->
  0 < writeSlots w /\ (s_bulk s = false -> room w false = true).
Proof.
  intros Hi Hs Hp. pose proof (holder_counted w i s Hs) as Hh. unfold holding in Hh. rewrite Hp in Hh.
  pose proof (taken_range w). pose proof (len_nonneg (writeQ w)). pose proof (len_nonneg (writeInteractiveQ w)).
  destruct Hi. split; [lia|]. intros _. unfold room, queue_of, cap_of. lia.
Qed.

(** ** Every sender returns *)

Definition sender_weight (_ : Z) (s : sender) : Z :=
  match s_phase s with AtBudget => 30 | AtSlots => 29 | AtQueue => 28 | Returned _ => 0 end.

Definition writer_rank (x : writer) : Z :=
  match x with FirstCheck => 4 | StopCheck => 3 | Recheck => 2 | Selecting => 1 | Took _ => 7 | Writing _ => 6 | WriterGone => 0 end.

Definition pending_work (w : wlane) : Z :=
  msum sender_weight (w_senders w) + 10 * (len (writeQ w) + len (writeInteractiveQ w)) + writer_rank (w_writer w).

(** The moves of the senders and of the writer themselves; calls, shutdown,
    failures from outside and cancelled callers are not among them. *)
Definition own_move (l : wlabel) : bool :=
  match l with Offer _ _ _ _ | SeeCancelled _ | Finish | Cancel | Fail_lane => false | _ => true end.

Lemma sender_weight_nonneg k s : 0 <= sender_weight k s.
Proof. unfold sender_weight. destruct (s_phase s); lia. Qed.

Lemma pending_work_nonneg w : 0 <= pending_work w.
Proof.
  unfold pending_work. pose proof (len_nonneg (writeQ w)). pose proof (len_nonneg (writeInteractiveQ w)).
  pose proof (msum_nonneg sender_weight (w_senders w) (fun k s _ => sender_weight_nonneg k s)).
  assert (0 <= writer_rank (w_writer w)) by (unfold writer_rank; destruct (w_writer w); lia). lia.
Qed.

Lemma take_from_work w bulk w' : take_from w bulk = Some w' -> pending_work w' = pending_work w - 3 - writer_rank (w_writer w).
Proof.
  unfold take_from, pending_work. destruct bulk; [destruct (writeQ w) eqn:E|destruct (writeInteractiveQ w) eqn:E]; intros; simplify_eq; cbn [w_senders writeQ writeInteractiveQ w_writer writer_rank];
    rewrite len_cons; lia.
Qed.

Lemma leave_work w i s r w' : w_senders w !! i = Some s -> leave w i s r = Some w' -> pending_work w' < pending_work w.
Proof.
  intros Hs Hl. assert (Hw : w_senders w' = <[i := move s (Returned r)]> (w_senders w) /\ writeQ w' = writeQ w /\
    writeInteractiveQ w' = writeInteractiveQ w /\ w_writer w' = w_writer w /\ 28 <= sender_weight i s).
  { unfold leave, sender_weight in *. destruct (s_phase s) eqn:E; try done; [|destruct (_ >? 0); [|done]]; by simplify_eq. }
  destruct Hw as (H1 & H2 & H3 & H4 & H5). unfold pending_work. rewrite H1, H2, H3, H4, (msum_update _ _ _ s) by done.
  unfold sender_weight at 3. cbn. lia.
Qed.

Lemma sender_step_work w i s l w' : w_senders w !! i = Some s -> sender_step w i s l = Some w' -> own_move l = true ->
  pending_work w' < pending_work w.
Proof.
  intros Hs Hst Hl. destruct l; cbn [sender_step] in Hst; try done.
  - destruct (at_phase _ _) eqn:E; [|done]. apply at_phase_eq in E. simplify_eq. unfold pending_work.
    cbn [w_senders writeQ writeInteractiveQ w_writer with_sender].
    rewrite (msum_update _ _ _ s) by done. unfold sender_weight at 2 3. rewrite E. destruct ok; cbn; lia.
  - destruct (_ && _) eqn:E; [|done]. bool_to_prop. apply at_phase_eq in H. simplify_eq. unfold pending_work.
    cbn [w_senders writeQ writeInteractiveQ w_writer with_sender with_slots].
    rewrite (msum_update _ _ _ s) by done. unfold sender_weight at 2 3. rewrite H. cbn. lia.
  - destruct (_ && _) eqn:E; [|done]. bool_to_prop. apply at_phase_eq in H. simplify_eq. unfold pending_work.
    cbn [w_senders writeQ writeInteractiveQ w_writer with_sender put].
    rewrite (msum_update _ _ _ s) by done. unfold sender_weight at 2 3. rewrite H. cbn.
    destruct (s_bulk s); rewrite len_app, len_cons; change (len []) with 0; lia.
  - destruct (_ || _); [done|]. destruct (_ && _); [by eapply leave_work|]. destruct (_ && _); [by eapply leave_work|done].
  - destruct (writeDone w); [|done]. destruct (leave w i s WriterStopped) as [w1|] eqn:E; [|done]. cbn in Hst. simplify_eq.
    apply (leave_work w i s _ _ Hs) in E. exact E.
  - destruct (_ && _); [by eapply leave_work|done].
Qed.

Lemma own_move_work w l w' : wl_step w l = Some w' -> own_move l = true -> pending_work w' < pending_work w.
Proof.
  intros Hst Hl. destruct l; cbn [wl_step] in Hst; try done;
    try (destruct (w_senders w !! i) as [s|] eqn:Es; [|done]; by eapply sender_step_work);
    destruct (w_writer w) eqn:Ew; try done;
    try (destruct (take_from w false) as [w1|] eqn:E; [apply take_from_work in E; rewrite Ew in E|]);
    try (apply take_from_work in Hst; rewrite Ew in Hst);
    try destruct (_ || _); try destruct (_ >? 0); simplify_eq; unfold pending_work; cbn [w_senders writeQ writeInteractiveQ w_writer with_writer with_slots wrote close_wlane writer_rank];
    rewrite ?Ew; cbn [writer_rank] in *; unfold pending_work in *; rewrite ?Ew in *; cbn [writer_rank] in *; lia.
Qed.

Definition waiting (s : sender) : bool := match s_phase s with Returned _ => false | _ => true end.

(** No move of the lane's own is left. *)
Definition at_rest (w : wlane) : Prop := forall l, own_move l = true -> wl_step w l = None.

Lemma holder_exists w : 0 < holders w -> exists i s, w_senders w !! i = Some s /\ s_phase s = AtQueue.
Proof.
  intros Hh. destruct (decide (map_Forall (fun (_ : Z) s => at_phase s AtQueue = false) (w_senders w))) as [Hall|Hex].
  - exfalso. unfold holders in Hh. rewrite (msum_ext holding (fun _ _ => 0)), msum_zero in Hh; [lia|].
    intros k a Ha. specialize (Hall k a Ha). unfold holding, at_phase in *. by destruct (s_phase a).
  - apply map_not_Forall in Hex; [|apply _]. destruct Hex as (i & s & Hs & Hp). exists i, s. split; [done|].
    apply not_false_is_true, at_phase_eq in Hp. done.
Qed.

(** A sender at the queue puts its frame in, where the queue has room. *)
Lemma insert_moves w i s : w_senders w !! i = Some s -> s_phase s = AtQueue -> room w (s_bulk s) = true -> wl_step w (Insert i) <> None.
Proof. intros Hs Hp Hr. cbn [wl_step]. rewrite Hs. cbn [sender_step]. unfold at_phase. by rewrite Hp, Hr. Qed.

(** With a writer waiting for work, a lane whose queues are empty lets a sender on. *)
Lemma idle_lane_moves w limits i s : wl_inv w -> queue_caps w limits -> writeQ w = [] -> writeInteractiveQ w = [] -> taken w = 0 ->
  w_senders w !! i = Some s -> s_phase s = AtSlots \/ s_phase s = AtQueue -> exists l, own_move l = true /\ wl_step w l <> None.
Proof.
  intros Hi Hc HQ HI Ht Hs Hp. destruct (caps_positive w limits Hc) as [Hq Hsl].
  assert (Hroom : forall b, room w b = true).
  { intros b. unfold room, queue_of, cap_of. rewrite HQ, HI, (wi_inter _ Hi). destruct b; change (len []) with 0; lia. }
  assert (Hput : forall j t, w_senders w !! j = Some t -> s_phase t = AtQueue -> exists l, own_move l = true /\ wl_step w l <> None).
  { intros j t Hj Ht'. exists (Insert j). split; [done|]. by apply (insert_moves w j t). }
  destruct Hp as [Hp|Hp]; [|by apply (Hput i s)]. destruct (slot_free w) eqn:E.
  - exists (Acquire i). split; [done|]. cbn [wl_step]. rewrite Hs. cbn [sender_step]. unfold at_phase. by rewrite Hp, E.
  - unfold slot_free in E. pose proof (wi_slots _ Hi) as Hw. rewrite HQ, HI, Ht in Hw. change (len []) with 0 in Hw.
    destruct (holder_exists w) as (j & t & Hj & Htp); [lia|]. by apply (Hput j t).
Qed.

Lemma rest_returned w limits i s : wl_inv w -> queue_caps w limits -> at_rest w -> w_senders w !! i = Some s -> waiting s = false.
Proof.
  intros Hi Hc Hr Hs. destruct (waiting s) eqn:Hw; [|done]. exfalso.
  enough (exists l, own_move l = true /\ wl_step w l <> None) as (l & Hl & Hn) by (apply Hn; by apply Hr).
  destruct (s_phase s) eqn:Hp; [..|by unfold waiting in Hw; rewrite Hp in Hw].
  { exists (Pace i true). split; [done|]. cbn [wl_step]. rewrite Hs. cbn [sender_step]. unfold at_phase. by rewrite Hp. }
  1, 2: destruct (w_writer w) eqn:Ew;
    [exists Check; split; [done|]; cbn [wl_step]; rewrite Ew; by destruct (take_from w false)
    |exists CheckStop; split; [done|]; cbn [wl_step]; by rewrite Ew
    |exists Check; split; [done|]; cbn [wl_step]; rewrite Ew; by destruct (take_from w false)
    |
    |exists GiveBack; split; [done|]; cbn [wl_step]; by rewrite Ew
    |exists Write_ok; split; [done|]; cbn [wl_step]; by rewrite Ew
    |exists (SeeWriterDone i); split; [done|]; cbn [wl_step]; rewrite Hs; cbn [sender_step]; unfold writeDone, leave; rewrite Ew, Hp; try done;
     destruct (holder_slot w i s Hi Hs Hp) as [Hg _]; by replace (writeSlots w >? 0) with true by lia].
  all: destruct (writeQ w) as [|q qs] eqn:HQ; [|exists (Select true); split; [done|]; cbn [wl_step]; unfold take_from; by rewrite Ew, HQ].
  all: destruct (writeInteractiveQ w) as [|q qs] eqn:HI; [|exists (Select false); split; [done|]; cbn [wl_step]; unfold take_from; by rewrite Ew, HI].
  all: apply (idle_lane_moves w limits i s); try done; [unfold taken; by rewrite Ew|by auto].
Qed.

Lemma own_run_bounded ls : forall w w', wl_run w ls = Some w' -> forallb own_move ls = true -> len ls + pending_work w' <= pending_work w.
Proof.
  induction ls as [|l ls IH]; intros w w' Hr Ho; cbn in Hr; [simplify_eq; change (len []) with 0; lia|].
  destruct (wl_step w l) as [w1|] eqn:E; [|done]. cbn in Ho. bool_to_prop. rewrite len_cons. specialize (IH w1 w' Hr H0).
  pose proof (own_move_work _ _ _ E H). lia.
Qed.

(** The queues of a lane stay within their share of memory: the frames in both
    of them, the senders between slot and queue and a frame the writer has just
    taken are exactly the slots in use, of which there are never more than the
    lane was given, and bulk frames never fill more than their own queue. *)
Theorem lane_queues_bounded limits ls w : wl_run (new_wlane limits) ls = Some w ->
  writeSlots w = len (writeQ w) + len (writeInteractiveQ w) + holders w + taken w /\
  writeSlots w <= writeSlots_cap w /\ len (writeQ w) <= writeQ_cap w /\
  (writeQ_cap w, writeInteractiveQ_cap w, writeSlots_cap w) = lane_queue_capacities limits.
Proof. intros Hr. destruct (wl_reach _ _ _ Hr) as [[] Hc]. done. Qed.

(** Frames of one class leave a lane in the order they entered it, none twice;
    while the writer lives every frame it took out is with the transport or in its
    hand; and the callbacks that ran are those of the frames the transport took, in
    order, each once, with the payload bytes of the data frames counted. *)
Theorem lane_order_kept limits ls w bulk : wl_run (new_wlane limits) ls = Some w ->
  of_class bulk (w_in w) = of_class bulk (w_out w) ++ queue_of w bulk /\
  (writeDone w = false -> map snd (w_out w) = w_written w ++ in_hand w) /\
  w_notified w = omap lf_onWritten (w_written w) /\ w_sent w = wrap 64 (data_bytes (w_written w)).
Proof.
  intros Hr. destruct (wl_reach _ _ _ Hr) as [[] _]. split; [done|]. split; [|done]. intros Hd.
  destruct wi_out0 as (lost & Ho & Hl & _). by rewrite (Hl Hd), app_nil_r in Ho.
Qed.

(** An interactive sender that has a slot never waits for the queue, so a try is
    refused only when every slot of the lane is in use. *)
Theorem interactive_refused_only_full limits ls w i s w' : wl_run (new_wlane limits) ls = Some w ->
  w_senders w !! i = Some s -> s_bulk s = false -> wl_step w (Default i) = Some w' -> writeSlots w = writeSlots_cap w.
Proof.
  intros Hr Hs Hb Hd. destruct (wl_reach _ _ _ Hr) as [Hi _]. cbn [wl_step] in Hd. rewrite Hs in Hd. cbn [sender_step] in Hd. rewrite Hb in Hd.
  destruct (_ || _); [done|]. destruct (at_phase s AtSlots && _) eqn:E1; [bool_to_prop; unfold slot_free in *; pose proof (wi_cap _ Hi); lia|].
  destruct (at_phase s AtQueue && _) eqn:E2; [|done]. bool_to_prop. apply at_phase_eq in H.
  destruct (holder_slot w i s Hi Hs H) as [_ Hroom]. by rewrite (Hroom Hb) in *.
Qed.

(** The interactive queue holds something now and after each of these moves. *)
Fixpoint interactive_waiting (w : wlane) (ls : list wlabel) : bool :=
  negb (len (writeInteractiveQ w) =? 0) &&
  match ls with [] => true | l :: ls => match wl_step w l with Some w' => interactive_waiting w' ls | None => false end end.

Fixpoint bulk_taken (ls : list wlabel) : Z :=
  match ls with [] => 0 | Select true :: ls => 1 + bulk_taken ls | _ :: ls => bulk_taken ls end.

Definition at_select (w : wlane) : Z := match w_writer w with Selecting => 1 | _ => 0 end.

Lemma leave_writer w i s r w' : leave w i s r = Some w' -> w_writer w' = w_writer w.
Proof. unfold leave. destruct (s_phase s); try done; [|destruct (_ >? 0); [|done]]; intros; by simplify_eq. Qed.

Lemma sender_step_writer w i s l w' : sender_step w i s l = Some w' -> w_writer w' = w_writer w.
Proof.
  destruct l; cbn [sender_step]; try done; repeat case_match; intros H'; simplify_eq; try done; try (by eapply leave_writer).
  unfold option_map in H'. destruct (leave w i s WriterStopped) eqn:E; [|done]. simplify_eq. by apply leave_writer in E.
Qed.

Lemma take_from_took w bulk w' : take_from w bulk = Some w' -> exists q, w_writer w' = Took q.
Proof. unfold take_from. repeat case_match; intros; simplify_eq; eauto. Qed.

Lemma at_select_step w l w' : wl_step w l = Some w' -> len (writeInteractiveQ w) <> 0 ->
  at_select w' + bulk_taken [l] <= at_select w.
Proof.
  intros Hst Hn. assert (Hi : take_from w false <> None) by (unfold take_from; by destruct (writeInteractiveQ w)).
  unfold at_select. destruct l; cbn [wl_step bulk_taken] in *;
    try (destruct (w_senders w !! i) as [s|]; [|done]; apply sender_step_writer in Hst; rewrite Hst; lia);
    try (destruct (w_senders w !! i); [done|]); try (destruct (w_writer w) eqn:Ew; try done);
    try (destruct (take_from w false) as [w1|] eqn:Et; [apply take_from_took in Et as [q' Et]; simplify_eq; rewrite Et; lia|done]);
    try (apply take_from_took in Hst as [q' Hst]; rewrite Hst; destruct bulk; lia);
    try destruct (_ || _); try destruct (_ >? 0); simplify_eq; cbn; rewrite ?Ew; lia.
Qed.

(** An interactive frame waits behind at most one bulk frame: while the
    interactive queue holds anything, whatever else happens, the writer takes at
    most one frame from the bulk queue. *)
Theorem interactive_overtaken_once w ls w' :
  wl_run w ls = Some w' -> interactive_waiting w ls = true -> bulk_taken ls <= 1.
Proof.
  enough (H : wl_run w ls = Some w' -> interactive_waiting w ls = true -> bulk_taken ls <= at_select w).
  { intros H1 H2. specialize (H H1 H2). unfold at_select in H. destruct (w_writer w); lia. }
  revert w. induction ls as [|l ls IH]; intros w Hr Hw; [unfold at_select; cbn; destruct (w_writer w); lia|].
  cbn [wl_run interactive_waiting] in *. destruct (wl_step w l) as [w1|] eqn:E; [|bool_to_prop; done]. bool_to_prop.
  specialize (IH w1 Hr H0). pose proof (at_select_step w l w1 E ltac:(lia)).
  assert (bulk_taken (l :: ls) = bulk_taken [l] + bulk_taken ls) by (destruct l; try done; by destruct bulk). lia.
Qed.

(** C20: no sender is left waiting.  From any state a lane can reach, its senders and
    its writer can only make a bounded number of moves of their own, in any order,
    whatever the transport answers; and when none of them can move any more, every
    call has returned. *)
Theorem lane_senders_return limits ls0 w ls w' :
  wl_run (new_wlane limits) ls0 = Some w -> wl_run w ls = Some w' -> forallb own_move ls = true ->
  len ls <= pending_work w /\ (at_rest w' -> forall i s, w_senders w' !! i = Some s -> waiting s = false).
Proof.
  intros H0 Hr Ho. split; [pose proof (own_run_bounded _ _ _ Hr Ho); pose proof (pending_work_nonneg w'); lia|].
  intros Hrest i s Hs. destruct (wl_reach limits (ls0 ++ ls) w') as [Hi Hc]; [by rewrite wl_run_app, H0|]. by eapply rest_returned.
Qed.

(** What is kept for control frames: bulk frames hold at most their queue's share
    of the slots, and one more for each bulk sender waiting for room. *)
Definition bulk_holding (_ : Z) (s : sender) : Z := if s_bulk s && at_phase s AtQueue then 1 else 0.
Definition interactive_holding (_ : Z) (s : sender) : Z := if negb (s_bulk s) && at_phase s AtQueue then 1 else 0.

Theorem control_share limits ls w : wl_run (new_wlane limits) ls = Some w ->
  writeSlots w - (len (writeInteractiveQ w) + msum interactive_holding (w_senders w) + taken w) <=
    writeQ_cap w + msum bulk_holding (w_senders w).
Proof.
  intros Hr. destruct (wl_reach _ _ _ Hr) as [[] _].
  assert (Hh : holders w = msum bulk_holding (w_senders w) + msum interactive_holding (w_senders w)).
  { unfold holders. rewrite <- msum_add. apply msum_ext. intros k s _. unfold holding, bulk_holding, interactive_holding, at_phase.
    destruct (s_bulk s), (s_phase s); done. }
  lia.
Qed.

(** ** A concrete lane *)

Definition sample_frame (t c : Z) (p : bytes) : Frame := mkFrame (mkHeader Version t 0 (replicate 16 0) 7 0 (len p) c) p.
Definition bulk_frame (k : Z) : laneFrame := mkLaneFrame (sample_frame TypeData ClassBulk [k]) (Some k).
Definition fin_frame : laneFrame := mkLaneFrame (sample_frame TypeClose ClassNew []) None.

Definition send_bulk (k : Z) : list wlabel := [Offer k true true (bulk_frame k); Pace k true; Acquire k; Insert k].
Definition write_one : list wlabel := [GiveBack; Write_ok].

(** Two bulk frames; the writer is at its last select when the half-close is queued,
    takes the first bulk frame and then the half-close. *)
Definition sample_run : list wlabel :=
  [Check; CheckStop; Check] ++ send_bulk 1 ++ send_bulk 2 ++ [Offer 3 false false fin_frame; Acquire 3; Insert 3; Select true] ++
  write_one ++ [Check] ++ write_one.

Definition sample_state : wlane := default (new_wlane (configured_limits small_profile)) (wl_run (new_wlane (configured_limits small_profile)) sample_run).

Lemma sample_state_run : wl_run (new_wlane (configured_limits small_profile)) sample_run = Some sample_state.
Proof. vm_compute. reflexivity. Qed.

Lemma lane_queues_bounded_witness : writeSlots sample_state = 1 /\ writeSlots sample_state <= 8.
Proof.
  destruct (lane_queues_bounded _ _ _ sample_state_run) as (_ & H & _). split; [vm_compute; reflexivity|exact H].
Defined.

Lemma lane_order_kept_witness : of_class true (w_in sample_state) = of_class true (w_out sample_state) ++ [bulk_frame 2] /\
  w_notified sample_state = [1].
Proof.
  destruct (lane_order_kept _ _ _ true sample_state_run) as (H1 & _ & H2 & _). split; [exact H1|rewrite H2; vm_compute; reflexivity].
Defined.

(** From the half-close in the queue to the bulk frame the select preferred. *)
Lemma interactive_overtaken_once_witness :
  bulk_taken ([Select true] ++ write_one) <= 1 /\ bulk_taken ([Select true] ++ write_one) = 1.
Proof.
  pose (w := default sample_state (wl_run (new_wlane (configured_limits small_profile))
    ([Check; CheckStop; Check] ++ send_bulk 1 ++ send_bulk 2 ++ [Offer 3 false false fin_frame; Acquire 3; Insert 3]))).
  pose (w' := default sample_state (wl_run w ([Select true] ++ write_one))). split; [|reflexivity].
  apply (interactive_overtaken_once w ([Select true] ++ write_one) w'); vm_compute; reflexivity.
Defined.

Lemma lane_senders_return_witness : len [Check; CheckStop; Check; Select true; GiveBack; Write_ok] <= pending_work sample_state.
Proof.
  pose (w' := default sample_state (wl_run sample_state [Check; CheckStop; Check; Select true; GiveBack; Write_ok])).
  destruct (lane_senders_return _ _ sample_state [Check; CheckStop; Check; Select true; GiveBack; Write_ok] w' sample_state_run
    ltac:(vm_compute; reflexivity) ltac:(reflexivity)) as [H _]. exact H.
Defined.

(** The reserve is not kept from bulk frames to the last slot: a bulk sender takes
    its slot before it waits for room in the full bulk queue, so that with a
    reserve of one slot it takes the slot kept for control frames, and a half-close
    offered next is refused. *)
Theorem reserve_taken_by_waiting_bulk : exists ls w i s,
  wl_run (new_wlane (configured_limits small_profile)) ls = Some w /\ laneControlReserve (configured_limits small_profile) = 1 /\
  len (writeInteractiveQ w) = 0 /\ w_senders w !! i = Some s /\ s_bulk s = false /\ s_phase s = Returned LaneFull.
Proof.
  pose (ls := send_bulk 1 ++ send_bulk 2 ++ send_bulk 3 ++ send_bulk 4 ++ send_bulk 5 ++ send_bulk 6 ++ send_bulk 7 ++
    [Offer 8 true true (bulk_frame 8); Pace 8 true; Acquire 8; Offer 9 false false fin_frame; Default 9]).
  exists ls, (default sample_state (wl_run (new_wlane (configured_limits small_profile)) ls)), 9, (mkSender false false fin_frame (Returned LaneFull)).
  split; [vm_compute; reflexivity|]. split; [reflexivity|]. split; [vm_compute; reflexivity|].
  split; [vm_compute; reflexivity|]. by split.
Qed.
