(* ===== verification/Outage.v ===== *)
(** Lane outages ([internal/pep/mpflow.go]: [waitForHealthyLane],
    [replacementBudget], [endReplacementOutage], [writeControl],
    [enqueueOnHealthyLane]).

    A flow without a healthy lane waits for a replacement.  Several goroutines may
    wait for the same lane, and one grace is shared between them through an atomic
    cell holding the outage's deadline.  [replacementBudget] is a compare-and-swap
    loop; its atomic operations are the steps of [ostep], in which any number of
    waiters run interleaved with lanes coming and going.  Times are nanoseconds and
    a deadline of zero is no deadline, as in the code. *)

From S2P Require Import Prelude Frame WriteQueue.
Import protocol.

Definition laneDeadPathDetection : Z := 15 * 1000000000.
Definition laneRescueHandshake : Z := 30 * 1000000000.
Definition laneReplacementWait : Z := laneDeadPathDetection + laneRescueHandshake.

Inductive wait_error := ResumeRefused | ReplacementAbandoned | ReplacementTimeout | ClosedWhileWaiting | WaitContext.

(** ** One waiter alone *)

(** [replacementBudget] run without interference: what is left, and the cell. *)
Definition replacementBudget (deadline now grace : Z) : Z * Z :=
  if negb (deadline =? 0) && (deadline - now >? - grace) then (deadline - now, deadline) else (grace, now + grace).

(** The checks of [waitForHealthyLane] before it waits; [None] means wait. *)
Definition wait_checks (healthy : Z) (resumeRefused abandoned : bool) : option (option wait_error) :=
  if healthy >? 0 then Some None
  else if resumeRefused then Some (Some ResumeRefused)
  else if abandoned then Some (Some ReplacementAbandoned)
  else None.

(** ** Waiters together *)

Inductive wait_phase :=
| Checking                    (* before the checks *)
| Clearing                    (* saw a lane, about to forget the outage *)
| Loading                     (* at the load *)
| Discarding (d : Z)          (* read a stale deadline, about to swap it for zero *)
| Opening                     (* about to swap zero for a new deadline *)
| Asleep (until : Z)          (* in the wait loop, the timer's time *)
| WaitOver (r : option wait_error).

Record waiter := mkWaiter { wt_started : Z; wt_phase : wait_phase; wt_deadline : option Z }.

Record outage := mkOutage {
  o_deadline : Z;
  o_now : Z;
  o_healthy : Z;
  o_refused : bool; o_abandoned : bool; o_done : bool;
  o_waiters : gmap Z waiter;
  o_waits : Z; o_timeouts : Z; o_waited : Z;      (* the diagnostics *)
  o_ends : Z                                       (* how often an outage was ended *)
}.

Definition set_phase (w : waiter) (p : wait_phase) : waiter := mkWaiter (wt_started w) p (wt_deadline w).

Definition with_waiter (o : outage) (i : Z) (w : waiter) : outage :=
  mkOutage (o_deadline o) (o_now o) (o_healthy o) (o_refused o) (o_abandoned o) (o_done o) (<[i := w]> (o_waiters o))
    (o_waits o) (o_timeouts o) (o_waited o) (o_ends o).

Definition with_deadline (o : outage) (d : Z) : outage :=
  mkOutage d (o_now o) (o_healthy o) (o_refused o) (o_abandoned o) (o_done o) (o_waiters o)
    (o_waits o) (o_timeouts o) (o_waited o) (o_ends o).

(** [endReplacementOutage]. *)
Definition endReplacementOutage (o : outage) : outage :=
  mkOutage 0 (o_now o) (o_healthy o) (o_refused o) (o_abandoned o) (o_done o) (o_waiters o)
    (o_waits o) (o_timeouts o) (o_waited o) (o_ends o + 1).

Definition count_wait (o : outage) : outage :=
  mkOutage (o_deadline o) (o_now o) (o_healthy o) (o_refused o) (o_abandoned o) (o_done o) (o_waiters o)
    (o_waits o + 1) (o_timeouts o) (o_waited o) (o_ends o).

(** A waiter returns, its deferred function adding the time it spent. *)
Definition finish_wait (o : outage) (i : Z) (w : waiter) (r : option wait_error) (timeout : bool) : outage :=
  mkOutage (o_deadline o) (o_now o) (o_healthy o) (o_refused o) (o_abandoned o) (o_done o)
    (<[i := set_phase w (WaitOver r)]> (o_waiters o))
    (o_waits o) (if timeout then o_timeouts o + 1 else o_timeouts o) (o_waited o + (o_now o - wt_started w)) (o_ends o).

(** The budget is known: nothing is left, or the waiter sleeps. *)
Definition got_budget (o : outage) (i : Z) (w : waiter) (remaining : Z) : outage :=
  let w' := mkWaiter (wt_started w) (Asleep (o_now o + remaining)) (Some (wt_started w + remaining)) in
  if remaining <=? 0 then finish_wait o i w' (Some ReplacementTimeout) true else with_waiter o i w'.

Inductive olabel :=
| OCall (i : Z) | OCheck (i : Z) | OClear (i : Z)
| OLoad (i : Z) | ODiscard (i : Z) | OOpen (i : Z)
| OTick (i : Z) | OTimer (i : Z) | ODone (i : Z) | OContext (i : Z)
| OTime (d : Z) | OLanes (n : Z) | OStart | ORefuse | OAbandon | OFinish.

Section Outage.
Variable grace : Z.

Definition waiter_step (o : outage) (i : Z) (w : waiter) (l : olabel) : option outage :=
  match l, wt_phase w with
  | OCheck _, Checking =>
      match wait_checks (o_healthy o) (o_refused o) (o_abandoned o) with
      | Some None => Some (with_waiter o i (set_phase w Clearing))
      | Some (Some e) => Some (with_waiter o i (set_phase w (WaitOver (Some e))))
      | None => Some (count_wait (with_waiter o i (mkWaiter (o_now o) Loading None)))
      end
  | OClear _, Clearing => Some (with_waiter (endReplacementOutage o) i (set_phase w (WaitOver None)))
  | OLoad _, Loading =>
      if negb (o_deadline o =? 0) then
        let remaining := o_deadline o - wt_started w in
        if remaining >? - grace then Some (got_budget o i w remaining)
        else Some (with_waiter o i (set_phase w (Discarding (o_deadline o))))
      else Some (with_waiter o i (set_phase w Opening))
  | ODiscard _, Discarding d =>
      if o_deadline o =? d then Some (with_waiter (with_deadline o 0) i (set_phase w Opening))
      else Some (with_waiter o i (set_phase w Loading))
  | OOpen _, Opening =>
      if o_deadline o =? 0 then Some (got_budget (with_deadline o (wt_started w + grace)) i w grace)
      else Some (with_waiter o i (set_phase w Loading))
  | OTick _, Asleep _ =>
      match wait_checks (o_healthy o) (o_refused o) (o_abandoned o) with
      | Some None => Some (finish_wait (endReplacementOutage o) i w None false)
      | Some (Some e) => Some (finish_wait o i w (Some e) false)
      | None => Some o
      end
  | OTimer _, Asleep until => if until <=? o_now o then Some (finish_wait o i w (Some ReplacementTimeout) true) else None
  | ODone _, Asleep _ => if o_done o then Some (finish_wait o i w (Some ClosedWhileWaiting) false) else None
  | OContext _, Asleep _ => Some (finish_wait o i w (Some WaitContext) false)
  | _, _ => None
  end.

Definition ostep (o : outage) (l : olabel) : option outage :=
  match l with
  | OCall i => match o_waiters o !! i with Some _ => None | None => Some (with_waiter o i (mkWaiter (o_now o) Checking None)) end
  | OCheck i | OClear i | OLoad i | ODiscard i | OOpen i | OTick i | OTimer i | ODone i | OContext i =>
      match o_waiters o !! i with Some w => waiter_step o i w l | None => None end
  | OTime d =>
      if d <? 0 then None
      else Some (mkOutage (o_deadline o) (o_now o + d) (o_healthy o) (o_refused o) (o_abandoned o) (o_done o) (o_waiters o)
             (o_waits o) (o_timeouts o) (o_waited o) (o_ends o))
  | OLanes n =>
      if n <? 0 then None
      else Some (mkOutage (o_deadline o) (o_now o) n (o_refused o) (o_abandoned o) (o_done o) (o_waiters o)
             (o_waits o) (o_timeouts o) (o_waited o) (o_ends o))
  | OStart => Some (endReplacementOutage o)       (* [startLane] *)
  | ORefuse => Some (mkOutage (o_deadline o) (o_now o) (o_healthy o) true (o_abandoned o) (o_done o) (o_waiters o)
             (o_waits o) (o_timeouts o) (o_waited o) (o_ends o))
  | OAbandon => Some (mkOutage (o_deadline o) (o_now o) (o_healthy o) (o_refused o) true (o_done o) (o_waiters o)
             (o_waits o) (o_timeouts o) (o_waited o) (o_ends o))
  | OFinish => Some (mkOutage (o_deadline o) (o_now o) (o_healthy o) (o_refused o) (o_abandoned o) true (o_waiters o)
             (o_waits o) (o_timeouts o) (o_waited o) (o_ends o))
  end.

Fixpoint orun (o : outage) (ls : list olabel) : option outage :=
  match ls with
  | [] => Some o
  | l :: ls => match ostep o l with Some o' => orun o' ls | None => None end
  end.

End Outage.

Definition new_outage (now : Z) : outage := mkOutage 0 now 0 false false false ∅ 0 0 0 0.

(** ** A frame that must leave on some lane *)

(** What one round of [enqueueOnHealthyLane] meets: whether its plane has a lane,
    what the try and the blocking call on it answer, and how the wait ends. *)
Record round := mkRound { rd_candidate : bool; rd_try : send_result; rd_enqueue : send_result; rd_wait : option wait_error }.

Definition accepted (r : send_result) : bool := match r with Accepted => true | _ => false end.

(** [None] is a call still in its loop. *)
Fixpoint enqueueOnHealthyLane (rounds : list round) : option (option wait_error) :=
  match rounds with
  | [] => None
  | r :: rest =>
      if rd_candidate r && (accepted (rd_try r) || accepted (rd_enqueue r)) then Some None
      else match rd_wait r with Some e => Some (Some e) | None => enqueueOnHealthyLane rest end
  end.

(** One pass of [writeControl] over the healthy lanes: [writes] answers a lane's
    write.  The lane that took the frame, the lanes failed, and [attempted]. *)
Fixpoint control_pass (writes : Z -> bool) (lanes : list Z) (attempted : gset Z) (failed : list Z) : option Z * list Z :=
  match lanes with
  | [] => (None, failed)
  | lane :: rest =>
      if bool_decide (lane ∈ attempted) then control_pass writes rest attempted failed
      else if writes lane then (Some lane, failed)
      else control_pass writes rest ({[lane]} ∪ attempted) (failed ++ [lane])
  end.

(** What a round of [writeControl] meets: the healthy lanes, their answers and how
    a wait ends. *)
Record control_round := mkControlRound { cr_lanes : list Z; cr_writes : Z -> bool; cr_wait : option wait_error }.

(** The result and the lanes failed on the way; [attempted] starts with the lane
    that asked for the reply and is empty after a pass. *)
Fixpoint writeControl (rounds : list control_round) (attempted : gset Z) (failed : list Z) : option (result wait_error Z) * list Z :=
  match rounds with
  | [] => (None, failed)
  | r :: rest =>
      match cr_lanes r with
      | [] => match cr_wait r with Some e => (Some (Err e), failed) | None => writeControl rest attempted failed end
      | lanes =>
          match control_pass (cr_writes r) lanes attempted failed with
          | (Some lane, failed) => (Some (Ok lane), failed)
          | (None, failed) => writeControl rest ∅ failed
          end
      end
  end.

(** ** The theorems *)

Section Theorems.
Variable grace : Z.
Hypothesis Hgrace : 0 < grace.

Lemma ostep_mono o l o' : ostep grace o l = Some o' -> o_ends o <= o_ends o' /\ o_now o <= o_now o'.
Proof.
  intros H. destruct l; cbn [ostep] in H; try (destruct (o_waiters o !! i) as [w|]; [|try done]; cbn [waiter_step] in H);
    repeat case_match; simplify_eq; unfold got_budget, finish_wait; cbn; repeat case_match; cbn; lia.
Qed.

Lemma orun_mono ls : forall o o', orun grace o ls = Some o' -> o_ends o <= o_ends o' /\ o_now o <= o_now o'.
Proof.
  induction ls as [|l ls IH]; intros o o' H; cbn in H; [simplify_eq; lia|]. destruct (ostep grace o l) as [o1|] eqn:E; [|done].
  apply IH in H. apply ostep_mono in E. lia.
Qed.

(** What holds of a waiter in an outage with deadline [D] ([None] before any was
    opened). *)
Definition waiter_ok (s0 now : Z) (D : option Z) (w : waiter) : Prop :=
  s0 <= wt_started w <= now /\ (forall d, wt_deadline w = Some d -> D = Some d) /\
  match wt_phase w with
  | Discarding _ => False
  | Asleep until => exists d, wt_deadline w = Some d /\ d <= until
  | WaitOver (Some ReplacementTimeout) => exists d, wt_deadline w = Some d /\ d <= now
  | WaitOver _ => True
  | _ => wt_deadline w = None
  end.

Definition outage_inv (s0 : Z) (D : option Z) (o : outage) : Prop :=
  o_deadline o = default 0 D /\ (forall d, D = Some d -> s0 + grace <= d <= o_now o + grace) /\
  map_Forall (fun _ w => waiter_ok s0 (o_now o) D w) (o_waiters o) /\ s0 <= o_now o.

Lemma waiter_ok_mono s0 now now' D D' w : now <= now' -> (forall d, D = Some d -> D' = Some d) -> waiter_ok s0 now D w -> waiter_ok s0 now' D' w.
Proof.
  intros Hn HD (H1 & H2 & H3). split; [lia|]. split; [by eauto|]. destruct (wt_phase w) as [| | | | | |[[]|]]; try done.
  destruct H3 as (d & ? & ?). exists d. split; [done|lia].
Qed.

Lemma outage_inv_waiter s0 D o i w : outage_inv s0 D o -> waiter_ok s0 (o_now o) D w -> outage_inv s0 D (with_waiter o i w).
Proof. intros (H1 & H2 & H3 & H4) Hw. split; [done|]. split; [done|]. split; [by apply map_Forall_insert_2|done]. Qed.

Lemma outage_inv_lookup s0 D o i w : outage_inv s0 D o -> o_waiters o !! i = Some w -> waiter_ok s0 (o_now o) D w.
Proof. intros (_ & _ & H & _) Hw. by apply (H i w). Qed.

Lemma outage_inv_budget s0 D o i w remaining : outage_inv s0 (Some D) o -> s0 <= wt_started w <= o_now o -> wt_started w + remaining = D ->
  outage_inv s0 (Some D) (got_budget o i w remaining).
Proof.
  intros Hi Hs Hr. unfold got_budget. destruct (remaining <=? 0) eqn:E.
  - destruct Hi as (H1 & H2 & H3 & H4). split; [done|]. split; [done|]. split; [|done]. apply map_Forall_insert_2; [|done].
    split; [done|]. split; [intros d Hd; cbn in Hd; by simplify_eq|]. cbn. eexists. split; [done|lia].
  - apply outage_inv_waiter; [done|]. split; [done|]. split; [intros d Hd; cbn in Hd; by simplify_eq|]. cbn. eexists. split; [done|lia].
Qed.

Lemma outage_inv_finish s0 D o i w r : outage_inv s0 D o -> o_waiters o !! i = Some w -> r <> Some ReplacementTimeout ->
  outage_inv s0 D (finish_wait o i w r false).
Proof.
  intros Hi Hw Hr. destruct (outage_inv_lookup _ _ _ _ _ Hi Hw) as (W1 & W2 & _). destruct Hi as (H1 & H2 & H3 & H4).
  split; [done|]. split; [done|]. split; [|done]. apply map_Forall_insert_2; [|done]. split; [done|]. split; [done|]. cbn. by destruct r as [[]|].
Qed.

Lemma wait_checks_error h r a e : wait_checks h r a = Some (Some e) -> e <> ReplacementTimeout.
Proof. unfold wait_checks. repeat case_match; intros; by simplify_eq. Qed.

Lemma waiter_ok_over s0 now D w r : waiter_ok s0 now D w -> r <> Some ReplacementTimeout -> waiter_ok s0 now D (set_phase w (WaitOver r)).
Proof. intros (H1 & H2 & _) Hr. split; [done|]. split; [done|]. cbn. by destruct r as [[]|]. Qed.

Lemma outage_waiter_step s0 D o i w l o' : 0 < s0 -> outage_inv s0 D o -> o_waiters o !! i = Some w ->
  waiter_step grace o i w l = Some o' -> o_ends o' = o_ends o -> o_now o < s0 + 2 * grace ->
  exists D', outage_inv s0 D' o'.
Proof.
  intros Hs0 Hi Hw Hst He Hnow. pose proof (outage_inv_lookup _ _ _ _ _ Hi Hw) as Hok. pose proof Hok as (W1 & W2 & W3).
  pose proof Hi as (HD & HD2 & Hall & Hs).
  destruct l; cbn [waiter_step] in Hst; try done; destruct (wt_phase w) eqn:Ep; try done.
  - exists D. destruct (wait_checks _ _ _) as [[e|]|] eqn:Ec; simplify_eq.
    + apply outage_inv_waiter; [done|]. apply waiter_ok_over; [done|]. apply wait_checks_error in Ec. congruence.
    + apply outage_inv_waiter; [done|]. by split.
    + apply (outage_inv_waiter s0 D o i); [done|]. by split.
  - simplify_eq. cbn in He. lia.
  - destruct (o_deadline o =? 0) eqn:E0; cbn [negb] in Hst.
    + simplify_eq. exists D. apply outage_inv_waiter; [done|]. by split.
    + destruct D as [d|]; [|cbn in HD; lia]. cbn in HD. destruct (HD2 d eq_refl).
      replace (_ >? - grace) with true in Hst by lia. injection Hst as <-. exists (Some d). apply outage_inv_budget; [done|done|lia].
  - destruct (o_deadline o =? 0) eqn:E0; simplify_eq; [|exists D; apply outage_inv_waiter; [done|by split]].
    assert (D = None) as -> by (destruct D as [d|]; [destruct (HD2 d eq_refl); cbn in HD; lia|done]).
    exists (Some (wt_started w + grace)). apply outage_inv_budget; [|done|done]. split; [done|]. split; [intros d Hd; cbn; simplify_eq; lia|].
    split; [|done]. intros j v Hj. by apply (waiter_ok_mono s0 (o_now o) (o_now o) None); [lia|done|apply (Hall j v)].
  - destruct (wait_checks _ _ _) as [[e|]|] eqn:Ec; simplify_eq; [|cbn in He; lia|by exists D].
    exists D. apply outage_inv_finish; [done|done|]. apply wait_checks_error in Ec. congruence.
  - destruct (until <=? o_now o) eqn:E; [|done]. simplify_eq. exists D. split; [done|]. split; [done|]. split; [|done].
    apply map_Forall_insert_2; [|done]. split; [done|]. split; [done|]. cbn. destruct W3 as (d & ? & ?). exists d. split; [done|lia].
  - destruct (o_done o); [|done]. simplify_eq. exists D. by apply outage_inv_finish.
  - simplify_eq. exists D. by apply outage_inv_finish.
Qed.

Lemma outage_step s0 D o l o' : 0 < s0 -> outage_inv s0 D o -> ostep grace o l = Some o' -> o_ends o' = o_ends o -> o_now o' < s0 + 2 * grace ->
  exists D', outage_inv s0 D' o'.
Proof.
  intros Hs0 Hi Hst He Hnow. pose proof (ostep_mono _ _ _ Hst) as [_ Hm]. pose proof Hi as (HD & HD2 & Hall & Hs).
  destruct l; cbn [ostep] in Hst; try (destruct (o_waiters o !! i) as [w|] eqn:Ew; [|done]; eapply outage_waiter_step; try done; lia).
  - destruct (o_waiters o !! i); [done|]. simplify_eq. exists D. apply outage_inv_waiter; [done|]. split; [cbn; lia|]. done.
  - destruct (d <? 0) eqn:E; [done|]. simplify_eq. exists D. split; [done|]. split; [intros x Hx; specialize (HD2 x Hx); cbn; lia|].
    split; [|cbn; lia]. intros j v Hj. apply (waiter_ok_mono s0 (o_now o) _ D); [cbn; lia|done|by apply (Hall j v)].
  - destruct (n <? 0); [done|]. simplify_eq. by exists D.
  - simplify_eq. cbn in He. lia.
  - simplify_eq. by exists D.
  - simplify_eq. by exists D.
  - simplify_eq. by exists D.
Qed.

Lemma outage_run s0 ls : forall o o' D, 0 < s0 -> outage_inv s0 D o -> orun grace o ls = Some o' -> o_ends o' = o_ends o ->
  o_now o' < s0 + 2 * grace -> exists D', outage_inv s0 D' o'.
Proof.
  induction ls as [|l ls IH]; intros o o' D Hs0 Hi Hr He Hn; cbn in Hr; [simplify_eq; by exists D|].
  destruct (ostep grace o l) as [o1|] eqn:E; [|done]. pose proof (ostep_mono _ _ _ E). pose proof (orun_mono _ _ _ Hr).
  destruct (outage_step s0 D o l o1 Hs0 Hi E) as [D1 H1]; [lia|lia|]. eapply IH; try done. lia.
Qed.

(** One outage has one grace.  Whatever the interleaving of the atomic
    operations of any number of waiters, as long as no lane has come back and the
    first waiter came less than two graces ago, every waiter was given the same
    deadline, a grace after one of them started; none of them reports the timeout
    before that deadline, and none is given a second grace. *)
Theorem outage_grace_shared s0 ls o : 0 < s0 ->
  orun grace (new_outage s0) ls = Some o -> o_ends o = 0 -> o_now o < s0 + 2 * grace ->
  exists D, s0 + grace <= D <= o_now o + grace /\
    (forall i w d, o_waiters o !! i = Some w -> wt_deadline w = Some d -> d = D) /\
    (forall i w, o_waiters o !! i = Some w -> wt_phase w = WaitOver (Some ReplacementTimeout) -> D <= o_now o).
Proof.
  intros Hs0 Hr He Hn. destruct (outage_run s0 ls (new_outage s0) o None) as [D (HD & HD2 & Hall & Hs)]; try done.
  exists (default (s0 + grace) D). split; [destruct D as [d|]; [by apply HD2|cbn; lia]|]. split.
  - intros i w d Hw Hd. destruct (Hall i w Hw) as (_ & H2 & _). by rewrite (H2 d Hd).
  - intros i w Hw Hp. destruct (Hall i w Hw) as (_ & H2 & H3). rewrite Hp in H3. destruct H3 as (d & Hd & Hle). by rewrite (H2 d Hd).
Qed.

(** A waiter that no one interferes with gets from the compare-and-swap loop, in at
    most three operations, what [replacementBudget] says. *)
Theorem budget_alone o i w : o_waiters o !! i = Some w -> wt_phase w = Loading ->
  exists ls, len ls <= 3 /\ exists o', orun grace o ls = Some o' /\
    o_deadline o' = snd (replacementBudget (o_deadline o) (wt_started w) grace) /\
    exists w', o_waiters o' !! i = Some w' /\ wt_deadline w' = Some (wt_started w + fst (replacementBudget (o_deadline o) (wt_started w) grace)).
Proof.
  intros Hw Hp. unfold replacementBudget. destruct (o_deadline o =? 0) eqn:E0; cbn [negb andb].
  - exists [OLoad i; OOpen i]. split; [done|]. cbn [orun ostep]. rewrite Hw. cbn [waiter_step]. rewrite Hp, E0. cbn [negb].
    cbn [with_waiter o_waiters]. rewrite lookup_insert_eq. cbn [waiter_step set_phase wt_phase o_deadline with_waiter]. rewrite E0.
    eexists. split; [done|]. unfold got_budget. replace (grace <=? 0) with false by lia. split; [done|].
    eexists. split; [cbn; apply lookup_insert_eq|done].
  - destruct (_ >? - grace) eqn:Es.
    + exists [OLoad i]. split; [done|]. cbn [orun ostep]. rewrite Hw. cbn [waiter_step]. rewrite Hp, E0. cbn [negb]. rewrite Es.
      eexists. split; [done|]. unfold got_budget. destruct (_ <=? 0); (split; [done|]); (eexists; split; [cbn; apply lookup_insert_eq|done]).
    + exists [OLoad i; ODiscard i; OOpen i]. split; [done|]. cbn [orun ostep]. rewrite Hw. cbn [waiter_step]. rewrite Hp, E0. cbn [negb]. rewrite Es.
      cbn [with_waiter o_waiters]. rewrite lookup_insert_eq. cbn [waiter_step set_phase wt_phase o_deadline with_waiter]. rewrite Z.eqb_refl.
      cbn [with_waiter with_deadline o_waiters]. rewrite lookup_insert_eq. cbn [waiter_step set_phase wt_phase o_deadline with_waiter with_deadline].
      change (0 =? 0) with true. eexists. split; [done|]. unfold got_budget. replace (grace <=? 0) with false by lia. split; [done|].
      eexists. split; [cbn; apply lookup_insert_eq|done].
Qed.

End Theorems.

(** Two waiters ten seconds apart, the second timing out with the first. *)
Definition sample_outage : list olabel :=
  [OCall 1; OCheck 1; OLoad 1; OTime 10000000000; OCall 2; OCheck 2; OOpen 1; OLoad 2; OTime 45000000000; OTimer 1; OTimer 2].

Lemma outage_grace_shared_witness : exists D,
  forall i w, o_waiters (default (new_outage 1) (orun laneReplacementWait (new_outage 1) sample_outage)) !! i = Some w ->
    wt_phase w = WaitOver (Some ReplacementTimeout) -> D <= 55000000001.
Proof.
  destruct (outage_grace_shared laneReplacementWait 1 sample_outage
    (default (new_outage 1) (orun laneReplacementWait (new_outage 1) sample_outage)) ltac:(vm_compute; reflexivity) ltac:(vm_compute; reflexivity)
    ltac:(vm_compute; reflexivity) ltac:(vm_compute; reflexivity)) as (D & _ & _ & H).
  exists D. intros i w Hw Hp. exact (H i w Hw Hp).
Defined.

(** A control frame is written by at most one lane: the pass ends with the write
    that succeeds, and no lane is tried twice in a pass. *)
Lemma control_pass_spec writes lanes : forall attempted failed r failed',
  control_pass writes lanes attempted failed = (r, failed') ->
  exists new, failed' = failed ++ new /\ NoDup new /\ Forall (fun l => l ∈ lanes /\ l ∉ attempted /\ writes l = false) new /\
    (forall l, r = Some l -> l ∈ lanes /\ l ∉ attempted /\ writes l = true) /\ (r = None -> forall l, l ∈ lanes -> l ∈ attempted \/ l ∈ new).
Proof.
  induction lanes as [|lane rest IH]; intros attempted failed r failed' H; cbn in H.
  - simplify_eq. exists []. rewrite app_nil_r. split; [done|]. split; [constructor|]. split; [done|]. split; [done|]. intros _ l Hl. by apply elem_of_nil in Hl.
  - destruct (bool_decide (lane ∈ attempted)) eqn:Ea.
    + apply bool_decide_eq_true in Ea. destruct (IH _ _ _ _ H) as (new & H1 & H2 & H3 & H4 & H5). exists new. split; [done|]. split; [done|].
      split; [eapply Forall_impl; [exact H3|]; intros l (? & ? & ?); set_solver|]. split; [intros l Hl; destruct (H4 l Hl) as (? & ? & ?); set_solver|].
      intros Hn l Hl. apply elem_of_cons in Hl as [->|Hl]; [by left|by apply H5].
    + apply bool_decide_eq_false in Ea. destruct (writes lane) eqn:Ew.
      * simplify_eq. exists []. rewrite app_nil_r. split; [done|]. split; [constructor|]. split; [done|]. split; [|done].
        intros l Hl. simplify_eq. set_solver.
      * destruct (IH _ _ _ _ H) as (new & -> & H2 & H3 & H4 & H5). exists (lane :: new). rewrite <- app_assoc. split; [done|].
        split; [constructor; [|done]; intros Hin; rewrite Forall_forall in H3; destruct (H3 lane Hin) as (_ & ? & _); set_solver|].
        split; [constructor; [set_solver|]; eapply Forall_impl; [exact H3|]; intros l (? & ? & ?); set_solver|].
        split; [intros l Hl; destruct (H4 l Hl) as (? & ? & ?); set_solver|].
        intros Hn l Hl. apply elem_of_cons in Hl as [->|Hl]; [set_solver|]. destruct (H5 Hn l Hl); set_solver.
Qed.
