(* ===== verification/FlowEnd.v ===== *)
(** How a flow ends ([internal/pep/mpflow.go]: [run], [receiveInner] with the local
    application's close, [acknowledgeRemoteFIN], [completionWatchdog],
    [watchLimits]; [internal/pep/stripedsend.go]: the end of [sendInnerStriped] and
    [sendFinal]).

    The receive worker is translated arm by arm, with the timers that tell a
    half-close from a full one; [Transfer.receive_frame] is what it does to a
    stream while the application reads.  What the rest of the world answers (the
    application's socket, the lanes, the transport) is an argument.  Times are
    nanoseconds. *)

From S2P Require Import Prelude Frame Memlimit Reassembly AckTrack AckPath Stripe StripeInv Transfer Outage.
Import protocol.

Definition flowCompletionGrace : Z := 5 * 1000000000.
Definition flowAbortGrace : Z := 5 * 1000000000.
Definition interactiveAbortGrace : Z := 30 * 1000000000.
Definition remoteFinDrainGrace : Z := 500 * 1000000.
Definition finalAckWriteGrace : Z := 2 * 1000000000.
Definition defaultFlowIdleTimeout : Z := 30 * 60 * 1000000000.
Definition defaultFlowMaxLifetime : Z := 24 * 3600 * 1000000000.

Inductive flow_error :=
| LocalApplicationClose | FlowClosed | ClosedBeforeSend | ClosedBeforeFinalAck | ContextErr
| IdleTimeout | LifetimeExceeded | AckLoopFailed | LastLaneFailed (e : wait_error) | LaneFailed | ReplayFailed
| SourceFailed | FinNotSent | InnerWriteFailed | CloseWriteFailed | FinalAckFailed
| BadFrame (e : receive_end) | BadAck (e : ack_error) | UnexpectedOpenOK | PeerReset.

(** ** The flow's shared flags *)

Record flags := mkFlags {
  finSent : bool; remoteFinSeen : bool; localClosed : bool; remoteAbort : bool; localAbortSent : bool;
  flow_done : bool; sendDone : bool; finalAck : bool; openAckPending : bool }.

Definition new_flags (openAck : bool) : flags := mkFlags false false false false false false false false openAck.

Definition set_finSent (f : flags) : flags :=
  mkFlags true (remoteFinSeen f) (localClosed f) (remoteAbort f) (localAbortSent f) (flow_done f) (sendDone f) (finalAck f) (openAckPending f).
Definition set_remoteFinSeen (f : flags) : flags :=
  mkFlags (finSent f) true (localClosed f) (remoteAbort f) (localAbortSent f) (flow_done f) (sendDone f) (finalAck f) (openAckPending f).
Definition set_localClosed (f : flags) : flags :=
  mkFlags (finSent f) (remoteFinSeen f) true (remoteAbort f) (localAbortSent f) (flow_done f) (sendDone f) (finalAck f) (openAckPending f).
Definition noteRemoteAbort (f : flags) : flags :=
  mkFlags (finSent f) (remoteFinSeen f) (localClosed f) true (localAbortSent f) (flow_done f) (sendDone f) (finalAck f) (openAckPending f).
Definition set_localAbortSent (f : flags) : flags :=
  mkFlags (finSent f) (remoteFinSeen f) (localClosed f) (remoteAbort f) true (flow_done f) (sendDone f) (finalAck f) (openAckPending f).
(** [closeAll] as far as the workers see it. *)
Definition closeAll (f : flags) : flags :=
  mkFlags (finSent f) (remoteFinSeen f) (localClosed f) (remoteAbort f) (localAbortSent f) true (sendDone f) (finalAck f) (openAckPending f).
Definition set_sendDone (f : flags) : flags :=
  mkFlags (finSent f) (remoteFinSeen f) (localClosed f) (remoteAbort f) (localAbortSent f) (flow_done f) true (finalAck f) (openAckPending f).
Definition set_finalAck (f : flags) (b : bool) : flags :=
  mkFlags (finSent f) (remoteFinSeen f) (localClosed f) (remoteAbort f) (localAbortSent f) (flow_done f) (sendDone f) b (openAckPending f).
Definition set_opened (f : flags) : flags :=
  mkFlags (finSent f) (remoteFinSeen f) (localClosed f) (remoteAbort f) (localAbortSent f) (flow_done f) (sendDone f) (finalAck f) false.

(** ** The receive worker *)

(** The worker's own state: the receiver, its half of the acknowledgements, the
    abort timer ([None] while it is nil, else when it fires) and whether the two
    channels it watches once are still in its select. *)
Record rxw := mkRxw { k_v : receiver; k_tx : ackTx; k_timer : option Z; k_localC : bool; k_sendC : bool }.

Definition with_v (k : rxw) (v : receiver) : rxw := mkRxw v (k_tx k) (k_timer k) (k_localC k) (k_sendC k).
Definition with_tx (k : rxw) (t : ackTx) : rxw := mkRxw (k_v k) t (k_timer k) (k_localC k) (k_sendC k).
Definition resetAbortTimer (k : rxw) (at_ : Z) : rxw := mkRxw (k_v k) (k_tx k) (Some at_) (k_localC k) (k_sendC k).

(** What a write to the application met: nothing, its close, or another error. *)
Inductive inner_write := InnerOk | InnerClosed | InnerError.

Record rx_env := mkRxEnv {
  e_now : Z;
  e_abortGrace : Z; e_abortDrainGrace : Z; e_interactive : bool;
  e_write : inner_write;      (* writing the next bytes to the application *)
  e_healthy : Z;              (* healthy lanes *)
  e_control : bool;           (* whether the abort marker is written *)
  e_closeWrite : bool;        (* the half-close of the application's socket succeeds or fails as expected *)
  e_ackWrite : bool;          (* whether the final acknowledgement is written *)
  e_bytesUp : Z
}.

Definition localAbortGrace (e : rx_env) : Z :=
  if e_abortGrace e >? 0 then e_abortGrace e else if e_interactive e then interactiveAbortGrace else flowAbortGrace.

Definition localAbortDrainGrace (e : rx_env) : Z := if e_abortDrainGrace e >? 0 then e_abortDrainGrace e else finalAckWriteGrace.

Definition BufferedBytes (k : rxw) : Z := r_bytes (v_r (k_v k)).
Definition isSome {A} (o : option A) : bool := match o with Some _ => true | None => false end.

Definition startLocalAbort (e : rx_env) (f : flags) : bool * flags :=
  if localAbortSent f then (true, f)
  else (if e_healthy e =? 0 then false else e_control e, set_localAbortSent f).

Definition set_finSequence (t : ackTx) (n : Z) : ackTx := mkAckTx (highestSent t) (tx_acked t) (ackTrack t) (closeFrame t) n.

(** [noteLocalClose]: the source sequence, then the announcement. *)
Definition noteLocalClose (f : flags) (t : ackTx) (sequence : Z) : flags * ackTx := (set_localClosed f, set_finSequence t sequence).

Definition deliverToInner (e : rx_env) (f : flags) (k : rxw) (out : bytes) : option flow_error * flags * rxw :=
  if (len out =? 0) || localAbortSent f then (None, f, k)
  else
    match e_write e with
    | InnerError => (Some InnerWriteFailed, f, k)
    | InnerClosed =>
        let '(f, t) := noteLocalClose f (k_tx k) (e_bytesUp e) in
        let k := with_tx k t in
        let '(ok, f) := startLocalAbort e f in
        if ok then (None, f, resetAbortTimer k (e_now e + localAbortDrainGrace e)) else (Some LocalApplicationClose, closeAll f, k)
    | InnerOk =>
        let v := k_v k in
        let k := with_v k (mkReceiver (v_r v) (v_ack v) (v_last v) (v_remoteFin v) (v_inner v ++ out)) in
        (None, f, if localClosed f then resetAbortTimer k (e_now e + localAbortGrace e) else k)
    end.

Section Receive.
Variable id : flow_id.
Variables direction sendFlag : Z.   (* [recvAckFlag], [sendAckFlag] *)

(** [acknowledgeRemoteFIN]: its error, and the final acknowledgement if it was
    built; the flags are set before anything is tried. *)
Definition acknowledgeRemoteFIN_end (e : rx_env) (f : flags) (k : rxw) (sequence : Z) (abort : bool) :
    option flow_error * flags * rxw * option Frame :=
  let f := set_remoteFinSeen f in
  let f := if abort then noteRemoteAbort f else f in
  if negb (e_closeWrite e) then
    (Some CloseWriteFailed, f,
     with_v k (mkReceiver (v_r (k_v k)) (set_closing (v_ack (k_v k))) (v_last (k_v k)) (v_remoteFin (k_v k)) (v_inner (k_v k))), None)
  else
    let '(v, fr) := acknowledgeRemoteFIN id direction sequence (k_v k) in
    let k := with_v k v in
    if e_ackWrite e || finSent f || localClosed f || abort then (None, f, k, Some fr) else (Some FinalAckFailed, f, k, Some fr).

(** The loop goes on, or returns. *)
Inductive rx_result := Loop | Ret (r : option flow_error).

Definition set_remoteFin (k : rxw) : rxw :=
  with_v k (mkReceiver (v_r (k_v k)) (v_ack (k_v k)) (v_last (k_v k)) true (v_inner (k_v k))).

(** The stream has ended in order. *)
Definition stream_ended (e : rx_env) (f : flags) (k : rxw) (abort : bool) : rx_result * flags * rxw * option Frame :=
  match acknowledgeRemoteFIN_end e f k (NextSequence (v_r (k_v k))) abort with
  | (Some err, f, k, fr) => (Ret (Some err), f, k, fr)
  | (None, f, k, fr) => (if abort || sendDone f then Ret None else Loop, f, set_remoteFin k, fr)
  end.

Definition receive_data_frame (e : rx_env) (f : flags) (k : rxw) (fr : Frame) : option (rx_result * flags * rxw * option Frame) :=
  let v := k_v k in
  if v_remoteFin v then Some (Ret (Some (BadFrame DataAfterFin)), f, k, None)
  else
    match Reassembler_InsertOwned (v_r v) (mkSegment (h_Sequence (f_Header fr)) (f_Payload fr) false false) with
    | None => None
    | Some ((out, closed, err), r) =>
        let k := with_v k (mkReceiver r (v_ack v) (v_last v) (v_remoteFin v) (v_inner v)) in
        match err with
        | Some x => Some (Ret (Some (BadFrame (Refused x))), f, k, None)
        | None =>
            let '(bad, f, k) :=
              if len out >? 0 then deliverToInner e f k out
              else if localClosed f && (BufferedBytes k >? 0) && negb (isSome (k_timer k))
                   then (None, f, resetAbortTimer k (e_now e + localAbortGrace e))
                   else (None, f, k) in
            match bad with
            | Some x => Some (Ret (Some x), f, k, None)
            | None =>
                let '(a, last) := acknowledgeArrival (v_ack (k_v k)) (v_r (k_v k)) (v_last (k_v k)) in
                let k := with_v k (mkReceiver (v_r (k_v k)) a last (v_remoteFin (k_v k)) (v_inner (k_v k))) in
                Some (if closed then stream_ended e f k (remoteAbort f) else (Loop, f, k, None))
            end
        end
    end.

Definition invalid_close (fr : Frame) : bool :=
  let h := f_Header fr in
  (Z.land (h_Flags h) FlagFin =? 0) || negb (len (f_Payload fr) =? 0) || negb (Z.land (h_Flags h) FlagAckFinal =? 0) ||
  negb (Z.land (h_Flags h) (Z.lor FlagAckUp FlagAckDown) =? 0).

Definition receive_close_frame (e : rx_env) (f : flags) (k : rxw) (fr : Frame) : option (rx_result * flags * rxw * option Frame) :=
  let h := f_Header fr in
  if invalid_close fr then Some (Ret (Some (BadFrame InvalidClose)), f, k, None)
  else if negb (Z.land (h_Flags h) FlagCloseAbort =? 0) then
    let '(bad, f, k, ack) := acknowledgeRemoteFIN_end e f k (h_Sequence h) true in Some (Ret bad, f, k, ack)
  else
    let v := k_v k in
    match Reassembler_Insert (v_r v) (mkSegment (h_Sequence h) [] true false) with
    | None => None
    | Some ((out, closed, err), r) =>
        let k := with_v k (mkReceiver r (v_ack v) (v_last v) (v_remoteFin v) (v_inner v)) in
        match err with
        | Some x => Some (Ret (Some (BadFrame (Refused x))), f, k, None)
        | None =>
            let '(bad, f, k) := if len out >? 0 then deliverToInner e f k out else (None, f, k) in
            match bad with
            | Some x => Some (Ret (Some x), f, k, None)
            | None => Some (if closed then stream_ended e f k false else (Loop, f, k, None))
            end
        end
    end.

Definition receive_ack_frame (e : rx_env) (f : flags) (k : rxw) (fr : Frame) : rx_result * flags * rxw :=
  let h := f_Header fr in
  let t := k_tx k in
  if Z.land (h_Flags h) sendFlag =? 0 then (Ret (Some (BadAck AckWrongDirection)), f, k)
  else if Z.land (h_Flags h) FlagAckFinal =? 0 then
    match acknowledgeReplay t (h_Sequence h) false with
    | Err x => (Ret (Some (BadAck x)), f, k)
    | Ok (advanced, t) =>
        let k := with_tx k t in
        let k := if advanced && localClosed f && isSome (k_timer k) then resetAbortTimer k (e_now e + localAbortGrace e) else k in
        if negb (Z.land (h_Flags h) FlagAckRanges =? 0) then
          match DecodeAckRanges (f_Payload fr) (h_Sequence h) with
          | Err x => (Ret (Some (BadAck (AckBadRanges x))), f, k)
          | Ok ranges => (Loop, f, with_tx k (mkAckTx (highestSent t) (tx_acked t) (Add (ackTrack t) ranges) (closeFrame t) (finSequence t)))
          end
        else (Loop, f, k)
    end
  else if h_Sequence h =? finSequence t then
    match acknowledgeReplay t (h_Sequence h) true with
    | Err x => (Ret (Some (BadAck x)), f, k)
    | Ok (_, t) =>
        let k := with_tx k t in
        let f := set_finalAck f true in
        if localAbortSent f then (Ret (Some LocalApplicationClose), f, k)
        else if v_remoteFin (k_v k) then (Ret None, f, k)
        else (Loop, f, if localClosed f then resetAbortTimer k (e_now e + localAbortGrace e) else k)
    end
  else (Ret (Some (BadAck AckFinalMismatch)), f, k).

(** The [f.events] arm; the frame written, if any, is the final acknowledgement. *)
Definition receive_event (e : rx_env) (f : flags) (k : rxw) (fr : Frame) : option (rx_result * flags * rxw * option Frame) :=
  let h := f_Header fr in
  if negb (bool_decide (h_SessionID h = fl_session id)) || negb (h_FlowID h =? fl_flow id) then
    Some (Ret (Some (BadFrame OtherFlow)), f, k, None)
  else if h_Type h =? TypeData then receive_data_frame e f k fr
  else if h_Type h =? TypeClose then receive_close_frame e f k fr
  else if h_Type h =? TypeAck then let '(r, f, k) := receive_ack_frame e f k fr in Some (r, f, k, None)
  else if h_Type h =? TypeOpenOK then
    if negb (openAckPending f) || negb (len (f_Payload fr) =? 0) then Some (Ret (Some UnexpectedOpenOK), f, k, None)
    else Some (Loop, set_opened f, k, None)
  else if h_Type h =? TypeReset then Some (Ret (Some PeerReset), f, k, None)
  else Some (Ret (Some (BadFrame UnexpectedType)), f, k, None).

(** The other arms. *)
Definition on_local_closed (e : rx_env) (k : rxw) : rxw :=
  let k := mkRxw (k_v k) (k_tx k) (k_timer k) false (k_sendC k) in
  if (BufferedBytes k >? 0) && negb (isSome (k_timer k)) then resetAbortTimer k (e_now e + localAbortGrace e) else k.

Definition on_done (f : flags) : rx_result := Ret (if finSent f && remoteFinSeen f then None else Some FlowClosed).

Definition on_send_done (f : flags) (k : rxw) : rx_result * rxw :=
  (if localAbortSent f then Ret (Some LocalApplicationClose) else Loop, mkRxw (k_v k) (k_tx k) (k_timer k) (k_localC k) false).

Definition on_abort_timer (e : rx_env) (f : flags) (k : rxw) : rx_result * flags * rxw :=
  if localAbortSent f then (Ret (Some LocalApplicationClose), closeAll f, k)
  else
    match startLocalAbort e f with
    | (false, f) => (Ret (Some LocalApplicationClose), closeAll f, k)
    | (true, f) => (Loop, f, resetAbortTimer k (e_now e + localAbortDrainGrace e))
    end.

(** ** [receive_frame] is what the loop does while the application reads *)

Definition end_result (e : option receive_end) : rx_result :=
  match e with
  | None => Loop
  | Some PeerAborted => Ret None
  | Some BothDone => Ret None
  | Some x => Ret (Some (BadFrame x))
  end.

End Receive.

(** ** [run] *)

(** How [run] takes a worker's result: [fin_answer] is what [waitForRemoteFIN] says
    and [expected] whether the error is a destination's ordinary close.  [None] goes
    on with the loop. *)
Definition run_result (f : flags) (err : option flow_error) (expected fin_answer : bool) : option (option flow_error) :=
  let local := match err with Some LocalApplicationClose => true | _ => false end in
  if local || remoteAbort f || (localAbortSent f && flow_done f) then Some None
  else match err with
       | None => None
       | Some x => if expected && (remoteFinSeen f || fin_answer) then Some None else Some (Some x)
       end.

(** A lane failed: the healthy lanes before and after the wait, how the wait and
    the replay of the half-close end. *)
Definition run_lane_failure (f : flags) (healthy : Z) (wait : option wait_error) (healthy' : Z) (replay : bool) : option (option flow_error) :=
  if finSent f && remoteFinSeen f then Some None
  else
    let err := if healthy =? 0 then match wait with Some e => LastLaneFailed e | None => LaneFailed end else LaneFailed in
    if localAbortSent f then Some None
    else if healthy' >? 0 then (if replay then None else Some (Some ReplayFailed))
    else Some (Some err).

(** The send worker: scheduling chunks, waiting for the final acknowledgement, back. *)
Inductive send_phase := Scheduling | AwaitFinal | SendOver.

Record sys := mkSys {
  y_f : flags;
  y_k : rxw;
  y_rx : option (option flow_error);              (* the receive worker's result *)
  y_tx : send_phase;
  y_results : list (bool * option flow_error);    (* sent to [run], the receive worker's marked *)
  y_completed : Z;
  y_run : option (option flow_error)
}.

Definition rx_after (y : sys) (r : rx_result) (f : flags) (k : rxw) : sys :=
  match r with
  | Loop => mkSys f k None (y_tx y) (y_results y) (y_completed y) (y_run y)
  | Ret x => mkSys f k (Some x) (y_tx y) (y_results y ++ [(true, x)]) (y_completed y) (y_run y)
  end.

(** The send worker returns; closing [sendDone] is its first deferred call. *)
Definition tx_after (y : sys) (f : flags) (x : option flow_error) : sys :=
  mkSys (set_sendDone f) (y_k y) (y_rx y) SendOver (y_results y ++ [(false, x)]) (y_completed y) (y_run y).

Definition with_flags (y : sys) (f : flags) : sys := mkSys f (y_k y) (y_rx y) (y_tx y) (y_results y) (y_completed y) (y_run y).

(** [run] returns, closing the flow. *)
Definition run_after (y : sys) (rest : list (bool * option flow_error)) (n : Z) (r : option (option flow_error)) : sys :=
  mkSys (match r with Some _ => closeAll (y_f y) | None => y_f y end) (y_k y) (y_rx y) (y_tx y) rest n r.

(** What the scheduler's end leads to in [sendInnerStriped]: the worker's result, or
    [sendFinal] waiting. *)
Definition after_schedule (y : sys) (source_error : bool) (sequence : Z) (enqueued : bool) : sys :=
  let f := y_f y in
  if source_error then tx_after y f (Some SourceFailed)
  else if remoteAbort f || localAbortSent f then tx_after y f None
  else
    let '(f, t) := noteLocalClose f (k_tx (y_k y)) sequence in
    let t := mkAckTx (highestSent t) (tx_acked t) (ackTrack t) (Some sequence) (finSequence t) in   (* retainClose *)
    let y := mkSys (set_finSent f) (with_tx (y_k y) t) (y_rx y) AwaitFinal (y_results y) (y_completed y) (y_run y) in
    if enqueued then y else tx_after y (y_f y) (Some FinNotSent).

Section Run.
Variable id : flow_id.
Variables direction sendFlag : Z.

Inductive ystep : sys -> sys -> Prop :=
(* the receive worker *)
| ys_event y e fr r f k ack : y_rx y = None -> receive_event id direction sendFlag e (y_f y) (y_k y) fr = Some (r, f, k, ack) ->
    ystep y (rx_after y r f k)
| ys_local_closed y e : y_rx y = None -> localClosed (y_f y) = true -> k_localC (y_k y) = true ->
    ystep y (rx_after y Loop (y_f y) (on_local_closed e (y_k y)))
| ys_rx_done y : y_rx y = None -> flow_done (y_f y) = true -> ystep y (rx_after y (on_done (y_f y)) (y_f y) (y_k y))
| ys_send_done y r k : y_rx y = None -> sendDone (y_f y) = true -> k_sendC (y_k y) = true -> on_send_done (y_f y) (y_k y) = (r, k) ->
    ystep y (rx_after y r (y_f y) k)
| ys_timer y e at_ r f k : y_rx y = None -> k_timer (y_k y) = Some at_ -> at_ <= e_now e -> on_abort_timer e (y_f y) (y_k y) = (r, f, k) ->
    ystep y (rx_after y r f k)
| ys_rx_context y : y_rx y = None -> ystep y (rx_after y (Ret (Some ContextErr)) (y_f y) (y_k y))
(* chunks are sent: the sender's half grows *)
| ys_sent y sequence n : y_tx y <> SendOver -> ystep y (mkSys (y_f y) (with_tx (y_k y) (noteSent (k_tx (y_k y)) sequence n)) (y_rx y) (y_tx y)
    (y_results y) (y_completed y) (y_run y))
(* the source ends *)
| ys_source_end y sequence f t : noteLocalClose (y_f y) (k_tx (y_k y)) sequence = (f, t) -> y_tx y = Scheduling ->
    ystep y (mkSys f (with_tx (y_k y) t) (y_rx y) (y_tx y) (y_results y) (y_completed y) (y_run y))
(* the send worker *)
| ys_scheduled y source_error sequence enqueued : y_tx y = Scheduling -> ystep y (after_schedule y source_error sequence enqueued)
| ys_tx_abort y : y_tx y = Scheduling -> remoteAbort (y_f y) = true -> ystep y (tx_after y (y_f y) None)
| ys_tx_context y : y_tx y <> SendOver -> ystep y (tx_after y (y_f y) (Some ContextErr))
| ys_tx_done y : y_tx y <> SendOver -> flow_done (y_f y) = true ->
    ystep y (tx_after y (y_f y) (if finSent (y_f y) && remoteFinSeen (y_f y) then None
                                 else Some (match y_tx y with Scheduling => ClosedBeforeSend | _ => ClosedBeforeFinalAck end)))
| ys_tx_final y : y_tx y = AwaitFinal -> finalAck (y_f y) = true -> ystep y (tx_after y (set_finalAck (y_f y) false) None)
(* the completion watchdog's timer *)
| ys_watchdog y : finSent (y_f y) = true -> remoteFinSeen (y_f y) = true -> ystep y (with_flags y (closeAll (y_f y)))
(* [run] *)
| ys_run_result y rx err rest expected fin_answer : y_run y = None -> y_results y = (rx, err) :: rest ->
    (fin_answer = true -> remoteFinSeen (y_f y) = true) ->
    ystep y (run_after y rest (y_completed y + 1) (run_result (y_f y) err expected fin_answer))
| ys_run_complete y : y_run y = None -> y_completed y = 2 -> ystep y (run_after y (y_results y) 2 (Some None))
| ys_run_limit y err : y_run y = None -> err = IdleTimeout \/ err = LifetimeExceeded \/ err = AckLoopFailed \/ err = ContextErr ->
    ystep y (run_after y (y_results y) (y_completed y) (Some (Some err)))
| ys_run_lane y healthy wait healthy' replay : y_run y = None ->
    ystep y (run_after y (y_results y) (y_completed y) (run_lane_failure (y_f y) healthy wait healthy' replay)).

End Run.

Definition new_sys (openAck : bool) (v : receiver) (t : ackTx) : sys :=
  mkSys (new_flags openAck) (mkRxw v t None true true) None Scheduling [] 0 None.

(** ** Lemmas *)

Lemma drain_bytes fuel : forall r q n cur out w x r',
  0 <= r_bytes r -> drain_chain fuel r q n cur out w = Some (x, r') -> 0 <= r_bytes r'.
Proof.
  induction fuel as [|fuel IH]; intros r q n cur out w x r' Hr H; cbn [drain_chain] in H; [done|].
  destruct (Final cur); [by simplify_eq|]. destruct (if _ && _ then _ else _) as [o1 w1].
  destruct (if charged cur then _ else _) as [m|]; [|done]. destruct (buffer _ !! _) as [nxt|].
  - apply IH in H; [done|]. cbn. apply Z.mod_pos_bound. lia.
  - destruct (Reassembler_Closed _); by simplify_eq.
Qed.

Lemma insert_bytes_nonneg r seg owned x r' : 0 <= r_bytes r -> Reassembler_insert r seg owned = Some (x, r') -> 0 <= r_bytes r'.
Proof.
  intros Hr. unfold Reassembler_insert. intros H. repeat (case_match; simplify_eq; try done; try (cbn; apply Z.mod_pos_bound; lia));
    unfold consumeContiguous in *; repeat (case_match; simplify_eq; try done); by eapply drain_bytes.
Qed.

Lemma insert_final_bytes r sq out closed err r' :
  Reassembler_Insert r (mkSegment sq [] true false) = Some ((out, closed, err), r') ->
  out = [] /\ (r_bytes r' = r_bytes r \/ r_bytes r' = r_bytes r +u64 0).
Proof.
  unfold Reassembler_Insert, Reassembler_insert. cbn [Final Payload Sequence]. change (len []) with 0. cbn [negb andb Z.eqb].
  intros H. repeat (case_match; simplify_eq; try (by auto)).
  unfold consumeContiguous in *. cbn [Sequence scan_chain Final] in *. rewrite Z.eqb_refl in *. repeat (case_match; simplify_eq; try (by auto)).
  cbn [drain_chain Final] in *. simplify_eq. by auto.
Qed.

(** Flags that are never taken back. *)
Record flags_le (f f' : flags) : Prop := mk_flags_le {
  fle_fin : finSent f = true -> finSent f' = true;
  fle_remote : remoteFinSeen f = true -> remoteFinSeen f' = true;
  fle_closed : localClosed f = true -> localClosed f' = true;
  fle_abort : remoteAbort f = true -> remoteAbort f' = true;
  fle_local : localAbortSent f = true -> localAbortSent f' = true;
  fle_done : flow_done f = true -> flow_done f' = true
}.

Lemma flags_le_refl f : flags_le f f.
Proof. by split. Qed.
#[export] Hint Resolve flags_le_refl : go.

Lemma flags_le_trans f1 f2 f3 : flags_le f1 f2 -> flags_le f2 f3 -> flags_le f1 f3.
Proof. intros [] []. split; auto. Qed.

(** No local close without something that will notice an application that is gone:
    an abort that was sent is timed, and so is a close that leaves response bytes
    waiting behind a gap. *)
Definition timers_ok (f : flags) (k : rxw) : Prop :=
  (localAbortSent f = true -> isSome (k_timer k) = true) /\
  (localClosed f = true -> k_localC k = false -> isSome (k_timer k) = true \/ BufferedBytes k = 0) /\
  (k_localC k = false -> localClosed f = true) /\ 0 <= BufferedBytes k.

(** What every arm of the receive worker keeps. *)
Record rx_keeps (f : flags) (k : rxw) (r : rx_result) (f' : flags) (k' : rxw) : Prop := mk_rx_keeps {
  rk_flags : flags_le f f';
  rk_fin : v_remoteFin (k_v k') = true -> v_remoteFin (k_v k) = true \/ remoteFinSeen f' = true;
  rk_nil : r = Ret None -> v_remoteFin (k_v k) = true \/ remoteFinSeen f' = true;
  rk_local : r = Ret (Some LocalApplicationClose) -> localAbortSent f' = true;
  rk_timers : r = Loop -> timers_ok f k -> timers_ok f' k'
}.

Lemma rx_keeps_return f k e : e <> LocalApplicationClose -> rx_keeps f k (Ret (Some e)) f k.
Proof. intros He. split; auto with go; try done. congruence. Qed.

(** The abort timer is set. *)
Lemma timers_ok_reset f f' k k' : timers_ok f k -> flags_le f f' -> k_localC k' = k_localC k -> isSome (k_timer k') = true ->
  0 <= BufferedBytes k' -> timers_ok f' k'.
Proof.
  intros (_ & _ & H3 & _) Hle Hc Ht Hb. split; [done|]. split; [by left|]. split; [|done]. rewrite Hc. intros Hl. apply (fle_closed _ _ Hle). by apply H3.
Qed.

(** The parts of [deliverToInner] the arms use. *)
Lemma deliver_spec e f k out x f' k' : deliverToInner e f k out = (x, f', k') ->
  flags_le f f' /\ remoteFinSeen f' = remoteFinSeen f /\ remoteAbort f' = remoteAbort f /\ sendDone f' = sendDone f /\ finSent f' = finSent f /\
  v_remoteFin (k_v k') = v_remoteFin (k_v k) /\ v_r (k_v k') = v_r (k_v k) /\ k_localC k' = k_localC k /\
  (x = Some LocalApplicationClose -> localAbortSent f' = true) /\
  ((localAbortSent f = true -> isSome (k_timer k) = true) -> x = None -> 0 < len out ->
     localAbortSent f' = true \/ localClosed f' = true -> isSome (k_timer k') = true).
Proof.
  unfold deliverToInner. intros H.
  destruct ((len out =? 0) || localAbortSent f) eqn:E; [|destruct (e_write e)].
  - simplify_eq. split; [auto with go|]. do 7 (split; [done|]). split; [done|]. intros Ht _ Hlen _. bool_to_prop. destruct E as [E|E]; [lia|auto].
  - simplify_eq. bool_to_prop. split; [auto with go|]. do 7 (split; [by destruct (localClosed f')|]). split; [done|].
    intros Ht _ _ [Ha|Ha]; [congruence|]. by rewrite Ha.
  - bool_to_prop. cbn [noteLocalClose] in H. unfold startLocalAbort in H. cbn [localAbortSent set_localClosed] in H. rewrite H1 in H.
    set (ok := if e_healthy e =? 0 then false else e_control e) in H. destruct ok; simplify_eq; cbn; (split; [by split|]); repeat (split; [done|]); done.
  - simplify_eq. split; [auto with go|]. do 7 (split; [done|]). split; [done|]. done.
Qed.

Section Keeps.
Variable id : flow_id.
Variables direction sendFlag : Z.

Lemma fin_end_spec e f k sq abort x f' k' fr : acknowledgeRemoteFIN_end id direction e f k sq abort = (x, f', k', fr) ->
  flags_le f f' /\ remoteFinSeen f' = true /\ x <> Some LocalApplicationClose /\ localAbortSent f' = localAbortSent f /\ localClosed f' = localClosed f /\
  v_remoteFin (k_v k') = v_remoteFin (k_v k) /\ v_r (k_v k') = v_r (k_v k) /\ k_localC k' = k_localC k /\ k_timer k' = k_timer k.
Proof.
  unfold acknowledgeRemoteFIN_end, acknowledgeRemoteFIN. intros H. destruct (writeACK_frame _ _ _ _ _) as [fr0 a].
  destruct (e_closeWrite e); cbn [negb] in H; [destruct (_ || abort)|]; simplify_eq; cbn; destruct abort; repeat split; auto; done.
Qed.

Lemma timers_ok_same f f' k k' : timers_ok f k -> localAbortSent f' = localAbortSent f -> localClosed f' = localClosed f ->
  k_localC k' = k_localC k -> k_timer k' = k_timer k -> BufferedBytes k' = BufferedBytes k -> timers_ok f' k'.
Proof. intros Ht E1 E2 E3 E4 E5. unfold timers_ok. by rewrite E1, E2, E3, E4, E5.
Qed.

Lemma stream_ended_keeps e f k abort r f' k' fr : stream_ended id direction e f k abort = (r, f', k', fr) -> rx_keeps f k r f' k'.
Proof.
  unfold stream_ended. destruct (acknowledgeRemoteFIN_end id direction e f k _ abort) as [[[x f1] k1] fr1] eqn:E. apply fin_end_spec in E.
  destruct E as (H1 & H2 & H3 & H4 & H5 & H6 & H7 & H8 & H9). destruct x as [x|]; intros H; simplify_eq.
  - split; auto; try done. congruence.
  - split; try done; [by right|by right|by destruct (abort || sendDone f')|]. intros _ Ht.
    apply (timers_ok_same f f' k); try done. unfold BufferedBytes. cbn. by rewrite H7.
Qed.

Lemma rx_keeps_trans f k f1 k1 r f2 k2 : flags_le f f1 -> v_remoteFin (k_v k1) = v_remoteFin (k_v k) -> (timers_ok f k -> timers_ok f1 k1) ->
  rx_keeps f1 k1 r f2 k2 -> rx_keeps f k r f2 k2.
Proof.
  intros Hf Hv Ht []. split; [by eapply flags_le_trans|rewrite <- Hv; auto|rewrite <- Hv; auto|done|auto].
Qed.

(** Delivering what became contiguous, then the stream's end. *)
Lemma data_keeps e f k fr r f' k' ack : receive_data_frame id direction e f k fr = Some (r, f', k', ack) -> rx_keeps f k r f' k'.
Proof.
  unfold receive_data_frame. destruct (v_remoteFin (k_v k)) eqn:Ef; [intros H; simplify_eq; by apply rx_keeps_return|].
  destruct (Reassembler_InsertOwned _ _) as [[[[out closed] err] r0]|] eqn:Ei; [|done]. set (k0 := with_v k _).
  assert (Hb0 : timers_ok f k -> 0 <= BufferedBytes k0) by (intros (_ & _ & _ & Hb); by eapply insert_bytes_nonneg).
  assert (Hk0 : v_remoteFin (k_v k0) = false) by done.
  destruct err as [x|]; [intros H; simplify_eq; split; auto with go; done|].
  destruct (if len out >? 0 then _ else _) as [[bad f1] k1] eqn:Ed.
  assert (Hd : flags_le f f1 /\ remoteFinSeen f1 = remoteFinSeen f /\ v_remoteFin (k_v k1) = false /\
    (bad = Some LocalApplicationClose -> localAbortSent f1 = true) /\ (timers_ok f k -> bad = None -> timers_ok f1 k1)).
  { destruct (len out >? 0) eqn:Eo.
    - apply deliver_spec in Ed as (D1 & D2 & D3 & D4 & D5 & D6 & D7 & D8 & D9 & D10). rewrite D6. do 4 (split; [done|]).
      intros Ht Hb. specialize (Hb0 Ht). destruct Ht as (T1 & T2 & T3 & _). specialize (D10 T1 Hb ltac:(lia)).
      split; [by auto|]. split; [by auto|]. split; [|unfold BufferedBytes in *; by rewrite D7]. rewrite D8. intros Hl. apply (fle_closed _ _ D1). by apply T3.
    - destruct (localClosed f && _ && _) eqn:Et; injection Ed as <- <- <-; (split; [auto with go|]); do 3 (split; [done|]); intros Ht _.
      + apply (timers_ok_reset f f k); auto with go; done.
      + specialize (Hb0 Ht). destruct Ht as (T1 & T2 & T3 & _). split; [done|]. split; [|done]. intros Hc Hl. destruct (isSome (k_timer k0)) eqn:Es; [by left|]. right.
        rewrite Hc in Et. bool_to_prop. destruct Et as [Et|Et]; [|done]. cbn in Et. lia. }
  destruct Hd as (D1 & D2 & D3 & D4 & D5). destruct bad as [x|].
  { intros H. simplify_eq. split; try done; [by rewrite D3|]. intros Hx. apply D4. congruence. }
  destruct (acknowledgeArrival _ _ _) as [a last]. set (k2 := with_v k1 _). intros H.
  assert (Hk2 : timers_ok f k -> timers_ok f1 k2) by (intros Ht; by apply (timers_ok_same f1 f1 k1); [apply D5|..]).
  apply (rx_keeps_trans f k f1 k2); [done|by rewrite Ef|done|].
  destruct closed; [injection H as H; by apply stream_ended_keeps in H|]. simplify_eq. split; auto with go; done.
Qed.

Lemma close_keeps e f k fr r f' k' ack : receive_close_frame id direction e f k fr = Some (r, f', k', ack) -> rx_keeps f k r f' k'.
Proof.
  unfold receive_close_frame. destruct (invalid_close fr); [intros H; simplify_eq; by apply rx_keeps_return|].
  destruct (negb _).
  { destruct (acknowledgeRemoteFIN_end id direction e f k _ true) as [[[x f1] k1] fr1] eqn:E. apply fin_end_spec in E.
    destruct E as (H1 & H2 & H3 & H4 & H5 & H6 & H7 & H8 & H9). intros H. simplify_eq. split; auto; try done. congruence. }
  destruct (Reassembler_Insert _ _) as [[[[out closed] err] r0]|] eqn:Ei; [|done]. set (k0 := with_v k _).
  destruct err as [x|]; [intros H; simplify_eq; split; auto with go; done|].
  destruct (insert_final_bytes _ _ _ _ _ _ Ei) as [-> Hb]. change (len [] >? 0) with false. cbn iota.
  assert (Hk0 : timers_ok f k -> timers_ok f k0).
  { intros (T1 & T2 & T3 & T4). assert (Hb0 : BufferedBytes k = 0 -> BufferedBytes k0 = 0).
    { unfold BufferedBytes. cbn. intros Hz. rewrite Hz in Hb. destruct Hb as [Hb|Hb]; rewrite Hb; reflexivity. }
    split; [done|]. split; [intros Hc Hl; destruct (T2 Hc Hl); auto|]. split; [done|]. by eapply insert_bytes_nonneg. }
  intros H. apply (rx_keeps_trans f k f k0); auto with go.
  destruct closed; [injection H as H; by apply stream_ended_keeps in H|]. simplify_eq. split; auto with go; done.
Qed.

Lemma ack_keeps e f k fr r f' k' : receive_ack_frame sendFlag e f k fr = (r, f', k') -> rx_keeps f k r f' k'.
Proof.
  unfold receive_ack_frame. intros H. destruct (_ =? 0); [simplify_eq; by apply rx_keeps_return|].
  destruct (_ =? 0).
  - destruct (acknowledgeReplay _ _ false) as [[adv t]|x]; [|simplify_eq; by apply rx_keeps_return].
    set (k1 := if adv && _ && _ then _ else _) in H.
    assert (Hk1 : (timers_ok f k -> timers_ok f k1) /\ v_remoteFin (k_v k1) = v_remoteFin (k_v k)).
    { unfold k1. destruct (adv && localClosed f && _) eqn:E; (split; [|done]); intros Ht; [|done].
      apply (timers_ok_reset f f k); auto with go; try done. apply Ht. }
    destruct Hk1 as [Hk1 Hv]. apply (rx_keeps_trans f k f k1); auto with go.
    destruct (negb _); [destruct (DecodeAckRanges _ _) as [x|x]|]; simplify_eq; [..|by apply rx_keeps_return|];
      split; auto with go; done.
  - destruct (_ =? _); [|simplify_eq; by apply rx_keeps_return].
    destruct (acknowledgeReplay _ _ true) as [[adv t]|x]; [|simplify_eq; by apply rx_keeps_return].
    cbn [localAbortSent set_finalAck] in H. destruct (localAbortSent f) eqn:Ea; [simplify_eq; split; auto; try done; by split|].
    cbn [k_v with_tx] in H. destruct (v_remoteFin (k_v k)) eqn:Ev; [simplify_eq; split; auto; try done; by split|].
    cbn [localClosed set_finalAck] in H. destruct (localClosed f) eqn:Ec; simplify_eq; (split; auto; try done); intros _ Ht.
    apply (timers_ok_reset f _ k); try done. apply Ht.
Qed.

Lemma event_keeps e f k fr r f' k' ack : receive_event id direction sendFlag e f k fr = Some (r, f', k', ack) -> rx_keeps f k r f' k'.
Proof.
  unfold receive_event. destruct (_ || _); [intros H; simplify_eq; by apply rx_keeps_return|].
  destruct (_ =? _); [apply data_keeps|]. destruct (_ =? _); [apply close_keeps|].
  destruct (_ =? _).
  { destruct (receive_ack_frame sendFlag e f k fr) as [[r0 f0] k0] eqn:E. intros H. simplify_eq. by eapply ack_keeps. }
  destruct (_ =? _).
  { destruct (_ || _); intros H; simplify_eq; [by apply rx_keeps_return|]. by split; auto. }
  destruct (_ =? _); intros H; simplify_eq; by apply rx_keeps_return.
Qed.

End Keeps.

Lemma timer_keeps e f k r f' k' : on_abort_timer e f k = (r, f', k') -> rx_keeps f k r f' k'.
Proof.
  unfold on_abort_timer, startLocalAbort. intros H. destruct (localAbortSent f) eqn:Ea; [simplify_eq; split; auto; try done; by split|].
  set (ok := if e_healthy e =? 0 then false else e_control e) in H. destruct ok; simplify_eq; (split; auto; try done).
  intros _ Ht. apply (timers_ok_reset f _ k); try done. apply Ht.
Qed.

Lemma local_closed_keeps e f k : localClosed f = true -> rx_keeps f k Loop f (on_local_closed e k).
Proof.
  intros Hc. unfold on_local_closed. split; auto with go; try done.
  - destruct (_ && _); by left.
  - intros _ (T1 & T2 & T3 & T4). destruct (_ && _) eqn:E; [split; [done|]; split; [by left|]; done|].
    split; [done|]. split; [|done]. intros _ _. cbn [k_timer]. bool_to_prop.
    destruct (isSome (k_timer k)) eqn:Es; [by left|]. right. unfold BufferedBytes in *. cbn in *. rewrite Es in E. destruct E as [E|E]; [lia|done].
Qed.

Lemma send_done_keeps f k r k' : on_send_done f k = (r, k') -> rx_keeps f k r f k'.
Proof. unfold on_send_done. intros H. simplify_eq. split; auto with go; try done; by destruct (localAbortSent f) eqn:E. Qed.

(** ** The system *)

Definition returned {A} (o : option A) : Z := if isSome o then 1 else 0.
Definition sent_back (p : send_phase) : Z := match p with SendOver => 1 | _ => 0 end.

Definition ended (f : flags) : Prop := remoteFinSeen f = true \/ localAbortSent f = true \/ remoteAbort f = true.

Lemma ended_le f f' : flags_le f f' -> ended f -> ended f'.
Proof. intros [] [H|[H|H]]; unfold ended; auto. Qed.

Record yinv (y : sys) : Prop := mk_yinv {
  yi_fin : v_remoteFin (k_v (y_k y)) = true -> remoteFinSeen (y_f y) = true;
  yi_nil : y_rx y = Some None -> remoteFinSeen (y_f y) = true;
  yi_local : forall b, (b, Some LocalApplicationClose) ∈ y_results y -> localAbortSent (y_f y) = true;
  yi_count : y_run y = None -> y_completed y + len (y_results y) = returned (y_rx y) + sent_back (y_tx y);
  yi_error : y_run y = None -> forall x, y_rx y = Some (Some x) -> (true, Some x) ∈ y_results y;
  yi_run : y_run y = Some None -> ended (y_f y);
  yi_timers : y_rx y = None -> timers_ok (y_f y) (y_k y)
}.

(** The receive worker moves. *)
Lemma yinv_rx y r f k : yinv y -> y_rx y = None -> rx_keeps (y_f y) (y_k y) r f k -> yinv (rx_after y r f k).
Proof.
  intros [] Hrx [Kf Kfin Knil Kloc Kt]. assert (Hfin : v_remoteFin (k_v k) = true -> remoteFinSeen f = true).
  { intros Hv. destruct (Kfin Hv); [by apply Kf, yi_fin0|done]. }
  assert (Hen : y_run y = Some None -> ended f) by (intros Hr; eapply ended_le; eauto).
  unfold rx_after. destruct r as [|x].
  - split; cbn; try done; [by intros b Hb; apply Kf, (yi_local0 b)|by rewrite Hrx in yi_count0|auto].
  - split; cbn; try done.
    + intros Hx. simplify_eq. destruct (Knil eq_refl) as [Hv|]; [by apply Kf, yi_fin0|done].
    + intros b Hb. apply elem_of_app in Hb as [Hb|Hb]; [by apply Kf, (yi_local0 b)|]. apply list_elem_of_singleton in Hb. simplify_eq. by apply Kloc.
    + intros Hr. specialize (yi_count0 Hr). rewrite Hrx in yi_count0. rewrite len_app, len_cons. change (len []) with 0. cbn in *. lia.
    + intros _ z Hz. simplify_eq. apply elem_of_app. right. by apply list_elem_of_singleton.
Qed.

(** The send worker returns. *)
Lemma yinv_tx y f x : yinv y -> y_tx y <> SendOver -> flags_le (y_f y) f -> (y_rx y = None -> timers_ok (y_f y) (y_k y) -> timers_ok f (y_k y)) ->
  x <> Some LocalApplicationClose -> yinv (tx_after y f x).
Proof.
  intros [] Ht Hf Htm Hx. assert (Hf' : flags_le (y_f y) (set_sendDone f)) by (eapply flags_le_trans; [done|]; by split).
  split; cbn; try done.
  - intros Hv. by apply Hf', yi_fin0.
  - intros Hv. by apply Hf', yi_nil0.
  - intros b Hb. apply elem_of_app in Hb as [Hb|Hb]; [by apply Hf', (yi_local0 b)|]. apply list_elem_of_singleton in Hb. simplify_eq.
  - intros Hr. specialize (yi_count0 Hr). rewrite len_app, len_cons. change (len []) with 0. destruct (y_tx y); cbn in *; try done; lia.
  - intros Hr z Hz. apply elem_of_app. left. by apply yi_error0.
  - intros Hr. eapply ended_le; [done|by apply yi_run0].
  - intros Hr. apply Htm; auto.
Qed.

Lemma yinv_flags y f : yinv y -> flags_le (y_f y) f -> (y_rx y = None -> timers_ok (y_f y) (y_k y) -> timers_ok f (y_k y)) -> yinv (with_flags y f).
Proof.
  intros [] Hf Htm. split; cbn; try done.
  - intros Hv. by apply Hf, yi_fin0.
  - intros Hv. by apply Hf, yi_nil0.
  - intros b Hb. by apply Hf, (yi_local0 b).
  - intros Hr. eapply ended_le; [done|by apply yi_run0].
  - intros Hr. apply Htm; auto.
Qed.

(** The sender's half of the worker's state is of no concern here. *)
Lemma timers_ok_tx f k t : timers_ok f k -> timers_ok f (with_tx k t).
Proof. done. Qed.

Lemma timers_ok_closed f k : timers_ok f k -> timers_ok (set_localClosed f) k.
Proof. intros (T1 & T2 & T3 & T4). split; [done|]. split; [|done]. intros _ Hl. by apply T2; [apply T3|]. Qed.

Lemma yinv_run y rest n r : yinv y -> y_run y = None -> (r = Some None -> ended (y_f y)) ->
  (forall p, p ∈ rest -> p ∈ y_results y) ->
  (r = None -> n + len rest = y_completed y + len (y_results y) /\ forall x, (true, Some x) ∈ y_results y -> (true, Some x) ∈ rest) ->
  yinv (run_after y rest n r).
Proof.
  intros [] Hrun Hr Hsub Hn. assert (Hf : flags_le (y_f y) (y_f (run_after y rest n r))) by (cbn; destruct r; by split).
  split; cbn -[y_f]; try done.
  - intros Hv. by apply Hf, yi_fin0.
  - intros Hv. by apply Hf, yi_nil0.
  - intros b Hb. by apply Hf, (yi_local0 b), Hsub.
  - intros Hx. destruct (Hn Hx) as [Hn1 _]. rewrite <- yi_count0 by done. lia.
  - intros Hx z Hz. destruct (Hn Hx) as [_ Hn2]. by apply Hn2, yi_error0.
  - intros Hx. eapply ended_le; [done|auto].
  - intros Hx. cbn. destruct r; by apply yi_timers0.
Qed.

Lemma run_result_ended y rx err expected fin_answer : yinv y -> (rx, err) ∈ y_results y -> (fin_answer = true -> remoteFinSeen (y_f y) = true) ->
  run_result (y_f y) err expected fin_answer = Some None -> ended (y_f y).
Proof.
  intros Hi Hin Hfa. unfold run_result.
  destruct (match err with Some LocalApplicationClose => true | _ => false end) eqn:El.
  - intros _. right. left. apply (yi_local _ Hi rx). destruct err as [[]|]; done.
  - destruct (remoteAbort (y_f y)) eqn:Ea; [by right; right|]. destruct (localAbortSent (y_f y)) eqn:Eb; [by right; left|]. cbn.
    destruct err as [x|]; [|done]. destruct (_ && _) eqn:E; [|done]. intros _. bool_to_prop. left. destruct H0; auto.
Qed.

Section System.
Variable id : flow_id.
Variables direction sendFlag : Z.

Lemma yinv_step y y' : yinv y -> ystep id direction sendFlag y y' -> yinv y'.
Proof.
  intros Hi Hs. destruct Hs.
  - eapply yinv_rx; [done|done|]. by eapply event_keeps.
  - eapply yinv_rx; [done|done|]. by apply local_closed_keeps.
  - eapply yinv_rx; [done|done|]. unfold on_done. destruct (finSent (y_f y) && remoteFinSeen (y_f y)) eqn:E; bool_to_prop;
      (split; auto with go; try done).
  - eapply yinv_rx; [done|done|]. by apply send_done_keeps.
  - eapply yinv_rx; [done|done|]. by eapply timer_keeps.
  - eapply yinv_rx; [done|done|]. by apply rx_keeps_return.
  - destruct Hi. by split.
  - unfold noteLocalClose in H. simplify_eq. destruct Hi. split; cbn; try done. intros Hr. by apply timers_ok_closed, yi_timers0.
  - unfold after_schedule. destruct source_error; [apply yinv_tx; try done; try congruence; auto with go|].
    destruct (_ || _); [apply yinv_tx; try done; try congruence; auto with go|]. cbn [noteLocalClose].
    set (y1 := mkSys _ _ _ _ _ _ _). assert (H1 : yinv y1).
    { destruct Hi. split; cbn; try done.
      - intros Hr. specialize (yi_count0 Hr). by rewrite H in yi_count0.
      - intros Hr. apply (timers_ok_closed (y_f y) (y_k y)). by apply yi_timers0. }
    destruct enqueued; [done|]. apply yinv_tx; try done; try congruence; auto with go.
  - apply yinv_tx; try done; try congruence; auto with go.
  - apply yinv_tx; try done; try congruence; auto with go.
  - apply yinv_tx; try done; try congruence; auto with go. destruct (_ && _); [done|]. by destruct (y_tx y).
  - apply yinv_tx; try done; try congruence; auto with go.
  - apply yinv_flags; [done|by split|done].
  - assert (Hin : (rx, err) ∈ y_results y) by (rewrite H0; set_solver). apply yinv_run; [done|done| | |].
    + by eapply run_result_ended.
    + intros p Hp. rewrite H0. set_solver.
    + intros Hr. rewrite H0, len_cons. split; [lia|]. intros x Hx. apply elem_of_cons in Hx as [Hx|Hx]; [|done]. simplify_eq.
      unfold run_result in Hr. repeat case_match; try done.
  - apply yinv_run; try done. intros _. destruct Hi. specialize (yi_count0 H). pose proof (len_nonneg (y_results y)).
    destruct (y_rx y) as [[x|]|] eqn:Er; [|by left; apply yi_nil0|]; cbn in yi_count0; [|destruct (y_tx y); cbn in yi_count0; lia].
    specialize (yi_error0 H x eq_refl). destruct (y_results y) as [|p l]; [by apply elem_of_nil in yi_error0|]. rewrite len_cons in yi_count0.
    pose proof (len_nonneg l). destruct (y_tx y); cbn in yi_count0; lia.
  - apply yinv_run; try done; intros Hx; simplify_eq.
  - apply yinv_run; try done. unfold run_lane_failure. destruct (_ && _) eqn:E; [bool_to_prop; intros _; by left|].
    destruct (localAbortSent (y_f y)) eqn:El; [intros _; right; by left|]. repeat case_match; intros; simplify_eq.
Qed.

(** ** Only a closed application is given up *)

(** The abort timer runs, and the abort flag is taken, only once the application has
    closed: its source ended or a write to it was refused. *)
Definition armed_ok (f : flags) (k : rxw) : Prop :=
  (isSome (k_timer k) = true -> localClosed f = true) /\ (localAbortSent f = true -> localClosed f = true).

Lemma armed_same f f' k k' : k_timer k' = k_timer k -> localAbortSent f' = localAbortSent f -> localClosed f' = localClosed f ->
  armed_ok f k -> armed_ok f' k'.
Proof. unfold armed_ok. by intros -> -> ->. Qed.

Lemma deliver_armed e f k out x f' k' : deliverToInner e f k out = (x, f', k') -> armed_ok f k -> armed_ok f' k'.
Proof.
  unfold deliverToInner. intros H [A1 A2]. destruct (_ || localAbortSent f) eqn:E; [by simplify_eq|]. bool_to_prop. destruct (e_write e); simplify_eq.
  - assert (armed_ok f' k) as Ha by done. clear A1 A2. destruct (localClosed f') eqn:Ec; [by split|exact Ha].
  - cbn [noteLocalClose] in H. unfold startLocalAbort in H. cbn [localAbortSent set_localClosed] in H. rewrite H1 in H.
    destruct (if e_healthy e =? 0 then false else e_control e); by simplify_eq.
  - done.
Qed.

Lemma stream_ended_armed e f k abort r f' k' ack : stream_ended id direction e f k abort = (r, f', k', ack) -> armed_ok f k -> armed_ok f' k'.
Proof.
  unfold stream_ended. destruct (acknowledgeRemoteFIN_end id direction e f k _ abort) as [[[x f1] k1] fr1] eqn:E.
  apply fin_end_spec in E as (_ & _ & _ & H4 & H5 & _ & _ & _ & H9). intros H Ha. apply (armed_same f f1 k k1) in Ha; [|done..]. destruct x; by simplify_eq.
Qed.

Lemma data_armed e f k fr r f' k' ack : receive_data_frame id direction e f k fr = Some (r, f', k', ack) -> armed_ok f k -> armed_ok f' k'.
Proof.
  unfold receive_data_frame. intros H Ha. destruct (v_remoteFin (k_v k)); [by simplify_eq|].
  destruct (Reassembler_InsertOwned _ _) as [[[[out closed] err] r0]|]; [|done]. set (k0 := with_v k _) in H.
  assert (armed_ok f k0) as H0 by done. clearbody k0. destruct err; [by simplify_eq|].
  destruct (if len out >? 0 then _ else _) as [[bad f1] k1] eqn:Ed. assert (armed_ok f1 k1) as H1.
  { destruct (len out >? 0); [by eapply deliver_armed|]. destruct (localClosed f && _ && _) eqn:Et; simplify_eq; [|done]. bool_to_prop. by split. }
  destruct bad; [by simplify_eq|]. destruct (acknowledgeArrival _ _ _) as [a last]. destruct closed; [|by simplify_eq].
  injection H as H. by eapply stream_ended_armed in H.
Qed.

Lemma close_armed e f k fr r f' k' ack : receive_close_frame id direction e f k fr = Some (r, f', k', ack) -> armed_ok f k -> armed_ok f' k'.
Proof.
  unfold receive_close_frame. intros H Ha. destruct (invalid_close fr); [by simplify_eq|]. destruct (negb _).
  { destruct (acknowledgeRemoteFIN_end id direction e f k _ true) as [[[x f1] k1] fr1] eqn:E.
    apply fin_end_spec in E as (_ & _ & _ & H4 & H5 & _ & _ & _ & H9). simplify_eq. by eapply armed_same. }
  destruct (Reassembler_Insert _ _) as [[[[out closed] err] r0]|]; [|done]. set (k0 := with_v k _) in H.
  assert (armed_ok f k0) as H0 by done. clearbody k0. destruct err; [by simplify_eq|].
  destruct (if len out >? 0 then _ else _) as [[bad f1] k1] eqn:Ed.
  assert (armed_ok f1 k1) as H1 by (destruct (len out >? 0); [by eapply deliver_armed|by simplify_eq]).
  destruct bad; [by simplify_eq|]. destruct closed; [|by simplify_eq]. injection H as H. by eapply stream_ended_armed in H.
Qed.

Lemma ack_armed e f k fr r f' k' : receive_ack_frame sendFlag e f k fr = (r, f', k') -> armed_ok f k -> armed_ok f' k'.
Proof.
  unfold receive_ack_frame. intros H Ha. destruct (_ =? 0); [by simplify_eq|]. destruct (_ =? 0).
  - destruct (acknowledgeReplay _ _ false) as [[adv t]|x]; [|by simplify_eq]. set (k1 := if adv && _ && _ then _ else _) in H.
    assert (armed_ok f k1) as H1 by (unfold k1; destruct (adv && localClosed f && _) eqn:E; [bool_to_prop; by split|done]). clearbody k1.
    destruct (negb _); [destruct (DecodeAckRanges _ _)|]; by simplify_eq.
  - destruct (_ =? _); [|by simplify_eq]. destruct (acknowledgeReplay _ _ true) as [[adv t]|x]; [|by simplify_eq].
    cbn [localAbortSent set_finalAck localClosed] in H. destruct (localAbortSent f) eqn:Ea; [by simplify_eq|].
    destruct (v_remoteFin _); [by simplify_eq|]. destruct (localClosed f) eqn:Ec; simplify_eq; [by split|]. destruct Ha as [A1 A2]. split; cbn; by rewrite ?Ec in *.
Qed.

Lemma event_armed e f k fr r f' k' ack : receive_event id direction sendFlag e f k fr = Some (r, f', k', ack) -> armed_ok f k -> armed_ok f' k'.
Proof.
  unfold receive_event. destruct (_ || _); [intros; by simplify_eq|]. destruct (_ =? _); [apply data_armed|]. destruct (_ =? _); [apply close_armed|].
  destruct (_ =? _).
  { destruct (receive_ack_frame sendFlag e f k fr) as [[r0 f0] k0] eqn:E. intros H. simplify_eq. by eapply ack_armed. }
  destruct (_ =? _); [destruct (_ || _); intros H Ha; by simplify_eq|]. destruct (_ =? _); intros; by simplify_eq.
Qed.

Lemma timer_armed e f k r f' k' at_ : k_timer k = Some at_ -> on_abort_timer e f k = (r, f', k') -> armed_ok f k -> armed_ok f' k'.
Proof.
  unfold on_abort_timer, startLocalAbort. intros Hk H [A1 A2]. assert (localClosed f = true) as Hc by (apply A1; by rewrite Hk).
  destruct (localAbortSent f) eqn:Ea; [simplify_eq; by split|]. destruct (if e_healthy e =? 0 then false else e_control e); simplify_eq; by split.
Qed.

Lemma armed_step y y' : armed_ok (y_f y) (y_k y) -> ystep id direction sendFlag y y' -> armed_ok (y_f y') (y_k y').
Proof.
  intros Ha Hs. assert (forall r f k, armed_ok f k -> armed_ok (y_f (rx_after y r f k)) (y_k (rx_after y r f k))) as Hrx by (intros [|x] f k; done).
  destruct Hs; try done; try (apply Hrx); try done.
  - by eapply event_armed.
  - unfold on_send_done in *. by simplify_eq.
  - by eapply timer_armed.
  - unfold noteLocalClose in *. simplify_eq. by split.
  - unfold after_schedule. destruct source_error; [done|]. destruct (_ || _); [done|]. cbn [noteLocalClose]. by destruct enqueued; split.
  - by destruct (run_result _ _ _ _).
  - by destruct (run_lane_failure _ _ _ _ _).
Qed.

(** C11: a flow reported as complete has ended, or was given up for an application
    that had closed.  Whatever the interleaving of the workers, the watchdog and the
    lanes' failures, [run] returns no error only when the peer's end of stream has been
    seen, or the peer's marker of a full close has arrived, or the local application had
    closed, its source at its end or a write to it refused, and the flow was given up
    for it, whether or not a lane was left to tell the peer; the timer that gives a flow
    up runs only for such an application.  A stream cut off by the network while the
    application still reads and writes is never reported as finished. *)
Theorem reported_flow_ended openAck v t y :
  v_remoteFin v = false -> 0 <= r_bytes (v_r v) -> steps (ystep id direction sendFlag) (new_sys openAck v t) y ->
  (y_run y = Some None ->
     remoteFinSeen (y_f y) = true \/ remoteAbort (y_f y) = true \/ (localAbortSent (y_f y) = true /\ localClosed (y_f y) = true)) /\
  (forall at_, k_timer (y_k y) = Some at_ -> localClosed (y_f y) = true).
Proof.
  intros Hv Hb Hs. assert (yinv y) as Hi.
  { refine (steps_invariant _ yinv yinv_step _ _ _ Hs). split; cbn; try done; [by rewrite Hv|intros b Hx; by apply elem_of_nil in Hx]. }
  assert (armed_ok (y_f y) (y_k y)) as [A1 A2].
  { refine (steps_invariant _ (fun y => armed_ok (y_f y) (y_k y)) armed_step _ _ _ Hs). by split. }
  split; [|intros at_ Hk; apply A1; by rewrite Hk]. intros Hr. destruct (yi_run _ Hi Hr) as [H|[H|H]]; auto.
Qed.

(** A flow whose application is gone is not kept for ever: while the receive
    worker runs, an abort that was sent has a timer behind it, and so has a local
    close the worker has seen, as long as response bytes wait behind a gap. *)
Theorem abandoned_flow_timed openAck v t y :
  v_remoteFin v = false -> 0 <= r_bytes (v_r v) -> steps (ystep id direction sendFlag) (new_sys openAck v t) y -> y_rx y = None ->
  (localAbortSent (y_f y) = true -> exists at_, k_timer (y_k y) = Some at_) /\
  (localClosed (y_f y) = true -> k_localC (y_k y) = false -> 0 < BufferedBytes (y_k y) -> exists at_, k_timer (y_k y) = Some at_).
Proof.
  intros Hv Hb Hs Hr. assert (Hi : yinv y).
  { refine (steps_invariant _ yinv yinv_step _ _ _ Hs). split; cbn; try done; [by rewrite Hv|intros b Hx; by apply elem_of_nil in Hx]. }
  destruct (yi_timers _ Hi Hr) as (T1 & T2 & _). assert (Hx : isSome (k_timer (y_k y)) = true -> exists at_, k_timer (y_k y) = Some at_).
  { destruct (k_timer (y_k y)); [eauto|done]. }
  split; [auto|]. intros Hc Hl Hp. apply Hx. destruct (T2 Hc Hl); [done|lia].
Qed.

End System.

(** ** What the stream theorems rely on *)

Section Reads.
Variable id : flow_id.
Variables direction sendFlag : Z.

Lemma stream_ended_reads e f k : e_closeWrite e = true -> e_ackWrite e = true ->
  exists f' k', stream_ended id direction e f k false = (end_result (rf_end (remote_fin id direction (sendDone f) (k_v k))), f', k', rf_ack (remote_fin id direction (sendDone f) (k_v k))) /\
    k_v k' = rf_v (remote_fin id direction (sendDone f) (k_v k)).
Proof.
  intros H1 H2. unfold stream_ended, acknowledgeRemoteFIN_end, remote_fin. rewrite H1, H2. cbn [negb orb].
  destruct (acknowledgeRemoteFIN id direction _ (k_v k)) as [v fr]. destruct (sendDone f) eqn:E; do 2 eexists; (split; [cbn; rewrite E; reflexivity|done]).
Qed.

Lemma deliver_reads e f k out : localAbortSent f = false -> e_write e = InnerOk -> len out > 0 ->
  exists k', deliverToInner e f k out = (None, f, k') /\
    k_v k' = mkReceiver (v_r (k_v k)) (v_ack (k_v k)) (v_last (k_v k)) (v_remoteFin (k_v k)) (v_inner (k_v k) ++ out).
Proof.
  intros H1 H2 H3. unfold deliverToInner. rewrite H1, H2. replace (len out =? 0) with false by lia. cbn [orb].
  destruct (localClosed f); eexists; by split.
Qed.

(** The receive loop, with everything it does about an application that closes,
    treats a stream exactly as the end-to-end theorems assume as long as the
    application reads: the same bytes delivered, the same acknowledgement, the same
    reason to return. *)
Theorem receive_event_reads e f k fr :
  localAbortSent f = false -> remoteAbort f = false -> e_write e = InnerOk -> e_closeWrite e = true -> e_ackWrite e = true ->
  h_Type (f_Header fr) <> TypeAck -> h_Type (f_Header fr) <> TypeOpenOK -> h_Type (f_Header fr) <> TypeReset ->
  match receive_frame id direction (sendDone f) (k_v k) fr with
  | None => receive_event id direction sendFlag e f k fr = None
  | Some rf => exists f' k', receive_event id direction sendFlag e f k fr = Some (end_result (rf_end rf), f', k', rf_ack rf) /\ k_v k' = rf_v rf
  end.
Proof.
  intros Ha Hab Hw Hcw Haw Ht1 Ht2 Ht3. unfold receive_frame, receive_event. destruct (_ || _); [by do 2 eexists|].
  destruct (h_Type _ =? TypeData) eqn:Etd.
  - unfold receive_data_frame. destruct (v_remoteFin (k_v k)) eqn:Ef; [by do 2 eexists|].
    destruct (Reassembler_InsertOwned _ _) as [[[[out closed] [x|]] r]|]; [by do 2 eexists| |done]. set (k0 := with_v k _).
    assert (Hd : exists k1, (if len out >? 0 then deliverToInner e f k0 out
        else if localClosed f && (BufferedBytes k0 >? 0) && negb (isSome (k_timer k0)) then (None, f, resetAbortTimer k0 (e_now e + localAbortGrace e)) else (None, f, k0))
        = (None, f, k1) /\ k_v k1 = mkReceiver r (v_ack (k_v k)) (v_last (k_v k)) false (v_inner (k_v k) ++ out)).
    { destruct (len out >? 0) eqn:Eo; [destruct (deliver_reads e f k0 out Ha Hw ltac:(lia)) as (k1 & E1 & E2); exists k1; by rewrite E1|].
      assert (out = []) as -> by (apply len_zero_nil; pose proof (len_nonneg out); lia). rewrite app_nil_r. destruct (_ && _); eexists; by split. }
    destruct Hd as (k1 & -> & Hk1). rewrite Hk1. cbn [v_ack v_r v_last v_remoteFin v_inner].
    destruct (acknowledgeArrival _ _ _) as [a last]. set (k2 := with_v k1 _). rewrite Hab. destruct closed; [|by do 2 eexists].
    destruct (stream_ended_reads e f k2 Hcw Haw) as (f' & k' & E1 & E2). exists f', k'. cbn [k2 with_v k_v] in *. by rewrite E1.
  - destruct (h_Type _ =? TypeClose) eqn:Etc.
    + unfold receive_close_frame, invalid_close. destruct (_ || _); [by do 2 eexists|]. destruct (negb (Z.land _ FlagCloseAbort =? 0)).
      { unfold acknowledgeRemoteFIN_end. rewrite Hcw, Haw. cbn [negb orb]. destruct (acknowledgeRemoteFIN id direction _ _). by do 2 eexists. }
      destruct (Reassembler_Insert _ _) as [[[[out closed] [x|]] r]|] eqn:Ei; [by do 2 eexists| |done]. set (k0 := with_v k _).
      destruct (insert_final_bytes _ _ _ _ _ _ Ei) as [-> _]. change (len [] >? 0) with false. cbn iota. rewrite app_nil_r.
      destruct closed; [|by do 2 eexists]. destruct (stream_ended_reads e f k0 Hcw Haw) as (f' & k' & E1 & E2). exists f', k'. by rewrite E1.
    + replace (_ =? TypeAck) with false by lia. replace (_ =? TypeOpenOK) with false by lia. replace (_ =? TypeReset) with false by lia. by do 2 eexists.
Qed.

End Reads.

(** ** The completion watchdog *)

(** [noteLocalFINSent] and [noteRemoteFINSeen] store their flag and then put a token
    in a channel of one; the watchdog reads the flags one after the other and sleeps
    on the channel.  These atomic operations interleave freely.  Time passes only
    while the watchdog cannot move, and not past its timer. *)
Inductive publisher := NotYet | Stored | Notified.
Inductive wd_phase := CheckFin | CheckRemote | WdAsleep | WdTiming (at_ : Z) | WdGone.

Record wdog := mkWdog {
  wd_fin : bool; wd_remote : bool; wd_wake : bool; wd_pubFin : publisher; wd_pubRemote : publisher;
  wd_phase_ : wd_phase; wd_now : Z; wd_closed : bool; wd_stopped : bool;
  wd_known : option Z   (* when both ends were published *)
}.

Inductive wd_label := StoreFin | NotifyFin | StoreRemote | NotifyRemote | WdCheck | WdWake | WdTimer | WdStop | WdTime (d : Z).

Definition completion_grace (configured : Z) : Z := if configured <=? 0 then flowCompletionGrace else configured.

Definition both_known (pf pr : publisher) (known : option Z) (now : Z) : option Z :=
  match known, pf, pr with None, Notified, Notified => Some now | _, _, _ => known end.

Definition wd_with (w : wdog) (p : wd_phase) (wake closed stopped : bool) : wdog :=
  mkWdog (wd_fin w) (wd_remote w) wake (wd_pubFin w) (wd_pubRemote w) p (wd_now w) closed stopped (wd_known w).

Definition wd_step (grace : Z) (w : wdog) (l : wd_label) : option wdog :=
  match l with
  | StoreFin => match wd_pubFin w with
                | Stored => None
                | _ => Some (mkWdog true (wd_remote w) (wd_wake w) Stored (wd_pubRemote w) (wd_phase_ w) (wd_now w) (wd_closed w) (wd_stopped w) (wd_known w))
                end
  | NotifyFin => match wd_pubFin w with
                 | Stored => Some (mkWdog (wd_fin w) (wd_remote w) true Notified (wd_pubRemote w) (wd_phase_ w) (wd_now w) (wd_closed w) (wd_stopped w)
                               (both_known Notified (wd_pubRemote w) (wd_known w) (wd_now w)))
                 | _ => None
                 end
  | StoreRemote => match wd_pubRemote w with
                   | Stored => None
                   | _ => Some (mkWdog (wd_fin w) true (wd_wake w) (wd_pubFin w) Stored (wd_phase_ w) (wd_now w) (wd_closed w) (wd_stopped w) (wd_known w))
                   end
  | NotifyRemote => match wd_pubRemote w with
                    | Stored => Some (mkWdog (wd_fin w) (wd_remote w) true (wd_pubFin w) Notified (wd_phase_ w) (wd_now w) (wd_closed w) (wd_stopped w)
                                  (both_known (wd_pubFin w) Notified (wd_known w) (wd_now w)))
                    | _ => None
                    end
  | WdCheck => match wd_phase_ w with
               | CheckFin => Some (wd_with w (if wd_fin w then CheckRemote else WdAsleep) (wd_wake w) (wd_closed w) (wd_stopped w))
               | CheckRemote => Some (wd_with w (if wd_remote w then WdTiming (wd_now w + grace) else WdAsleep) (wd_wake w) (wd_closed w) (wd_stopped w))
               | _ => None
               end
  | WdWake => match wd_phase_ w with WdAsleep => if wd_wake w then Some (wd_with w CheckFin false (wd_closed w) (wd_stopped w)) else None | _ => None end
  | WdTimer => match wd_phase_ w with WdTiming at_ => if at_ <=? wd_now w then Some (wd_with w WdGone (wd_wake w) true (wd_stopped w)) else None | _ => None end
  | WdStop => match wd_phase_ w with WdAsleep | WdTiming _ => Some (wd_with w WdGone (wd_wake w) (wd_closed w) true) | _ => None end
  | WdTime d =>
      let moves := match wd_phase_ w with
                   | CheckFin | CheckRemote => true
                   | WdAsleep => wd_wake w
                   | WdTiming at_ => at_ <? wd_now w + d
                   | WdGone => false
                   end in
      if (d <? 0) || moves then None
      else Some (mkWdog (wd_fin w) (wd_remote w) (wd_wake w) (wd_pubFin w) (wd_pubRemote w) (wd_phase_ w) (wd_now w + d) (wd_closed w) (wd_stopped w) (wd_known w))
  end.

Fixpoint wd_run (grace : Z) (w : wdog) (ls : list wd_label) : option wdog :=
  match ls with [] => Some w | l :: ls => match wd_step grace w l with Some w' => wd_run grace w' ls | None => None end end.

Definition new_wdog (now : Z) : wdog := mkWdog false false false NotYet NotYet CheckFin now false false None.

Record wd_inv (grace : Z) (w : wdog) : Prop := mk_wd_inv {
  wi_pubFin : wd_pubFin w <> NotYet -> wd_fin w = true;
  wi_pubRemote : wd_pubRemote w <> NotYet -> wd_remote w = true;
  wi_asleep : wd_phase_ w = WdAsleep -> wd_wake w = false -> ~ (wd_fin w = true /\ wd_remote w = true /\ wd_pubFin w <> Stored /\ wd_pubRemote w <> Stored);
  wi_flags : forall T, wd_known w = Some T -> wd_fin w = true /\ wd_remote w = true;
  wi_known : forall T, wd_known w = Some T -> wd_stopped w = true \/
    match wd_phase_ w with
    | CheckFin | CheckRemote => wd_now w = T
    | WdAsleep => wd_wake w = true /\ wd_now w = T
    | WdTiming at_ => at_ <= T + grace /\ wd_now w <= at_
    | WdGone => wd_closed w = true
    end;
  wi_timing : forall at_, wd_phase_ w = WdTiming at_ -> at_ <= wd_now w + grace /\ wd_now w <= at_;
  wi_gone : wd_phase_ w = WdGone -> wd_stopped w = true \/ wd_closed w = true
}.

Lemma wd_notify grace w pf pr : 0 < grace -> wd_inv grace w ->
  wd_fin w = true \/ pf <> Notified -> wd_remote w = true \/ pr <> Notified ->
  (pf <> NotYet -> wd_fin w = true) -> (pr <> NotYet -> wd_remote w = true) ->
  wd_inv grace (mkWdog (wd_fin w) (wd_remote w) true pf pr (wd_phase_ w) (wd_now w) (wd_closed w) (wd_stopped w) (both_known pf pr (wd_known w) (wd_now w))).
Proof.
  intros Hg [] Hf Hr Hf2 Hr2. split; cbn; try done.
  - intros T HT. unfold both_known in HT. destruct (wd_known w) eqn:Ek; [by eapply wi_flags0|]. destruct pf, pr; try done. split; auto.
  - intros T HT. unfold both_known in HT. destruct (wd_known w) as [T0|] eqn:Ek.
    + simplify_eq. destruct (wi_known0 T eq_refl) as [?|H]; [by left|]. right. destruct (wd_phase_ w); try done. by destruct H.
    + destruct pf, pr; try done. simplify_eq. destruct (wd_phase_ w) eqn:Ep; try (by right). 
      * right. split; [by apply wi_timing0|]. by apply wi_timing0.
      * destruct (wi_gone0 eq_refl); auto.
Qed.

Lemma wd_inv_step grace w l w' : 0 < grace -> wd_inv grace w -> wd_step grace w l = Some w' -> wd_inv grace w'.
Proof.
  intros Hg Hi Hs. pose proof Hi as []. destruct l; cbn [wd_step] in Hs.
  - destruct (wd_pubFin w) eqn:E; try done; simplify_eq; split; cbn; try done; naive_solver.
  - destruct (wd_pubFin w) eqn:E; try done. simplify_eq. assert (wd_fin w = true) by (by apply wi_pubFin0).
    apply wd_notify; auto. destruct (wd_pubRemote w) eqn:E2; [by right|by right|left; by apply wi_pubRemote0].
  - destruct (wd_pubRemote w) eqn:E; try done; simplify_eq; split; cbn; try done; naive_solver.
  - destruct (wd_pubRemote w) eqn:E; try done. simplify_eq. assert (wd_remote w = true) by (by apply wi_pubRemote0).
    apply wd_notify; auto. destruct (wd_pubFin w) eqn:E2; [by right|by right|left; by apply wi_pubFin0].
  - destruct (wd_phase_ w) eqn:Ep; try done; simplify_eq.
    + destruct (wd_fin w) eqn:Ef; (split; cbn; try done; try (rewrite Ef; done)).
      * intros _ _ (Hx & _). congruence.
      * intros T HT. destruct (wi_flags0 T HT). congruence.
    + destruct (wd_remote w) eqn:Ef; (split; cbn; try done; try (rewrite Ef; done)).
      * intros T HT. destruct (wi_known0 T HT); [by left|]. right. split; lia.
      * intros at_ Hp. simplify_eq. lia.
      * intros _ _ (_ & Hx & _). congruence.
      * intros T HT. destruct (wi_flags0 T HT). congruence.
  - destruct (wd_phase_ w) eqn:Ep; try done. destruct (wd_wake w) eqn:Ew; [|done]. simplify_eq. split; cbn; try done.
    intros T HT. destruct (wi_known0 T HT) as [?|[_ ?]]; auto.
  - destruct (wd_phase_ w) eqn:Ep; try done. destruct (_ <=? _); [|done]. simplify_eq. split; cbn; try done; auto.
  - destruct (wd_phase_ w) eqn:Ep; try done; simplify_eq; split; cbn; try done; auto.
  - destruct (_ || _) eqn:E; [done|]. simplify_eq. bool_to_prop. split; cbn; try done.
    + intros T HT. destruct (wi_known0 T HT) as [?|H2]; [by left|]. right. destruct (wd_phase_ w); try done; [by destruct H2; congruence|]. lia.
    + intros at_ Hp. destruct (wi_timing0 at_ Hp). rewrite Hp in *. lia.
Qed.

Lemma wd_run_inv grace ls : forall w w', 0 < grace -> wd_inv grace w -> wd_run grace w ls = Some w' -> wd_inv grace w'.
Proof.
  induction ls as [|l ls IH]; intros w w' Hg Hi Hr; cbn in Hr; [by simplify_eq|]. destruct (wd_step grace w l) as [w1|] eqn:E; [|done].
  eapply IH; [done| |done]. by eapply wd_inv_step.
Qed.

Lemma new_wdog_inv grace now : wd_inv grace (new_wdog now).
Proof. by split. Qed.

(** C18: no wake-up of the completion watchdog is lost: whatever the interleaving of
    the two publishers with its checks, once both ends of a flow are published the
    watchdog does not sleep, and unless the flow is stopped before it has closed it
    by the time its grace has passed. *)
Theorem completion_watchdog_closes configured now ls w T :
  wd_run (completion_grace configured) (new_wdog now) ls = Some w -> wd_known w = Some T -> wd_stopped w = false ->
  (wd_phase_ w = WdAsleep -> wd_wake w = true) /\ (wd_now w > T + completion_grace configured -> wd_closed w = true).
Proof.
  intros Hr Hk Hs. assert (Hg : 0 < completion_grace configured) by (unfold completion_grace; destruct (_ <=? 0) eqn:E; [done|lia]).
  pose proof (wd_run_inv _ _ _ _ Hg (new_wdog_inv _ now) Hr) as []. destruct (wi_known0 T Hk) as [?|H]; [congruence|]. split.
  - intros Hp. rewrite Hp in H. by destruct H.
  - intros Hn. destruct (wd_phase_ w); [lia|lia|destruct H; lia|lia|done].
Qed.

Lemma completion_watchdog_closes_witness :
  let w := default (new_wdog 1) (wd_run (completion_grace 0) (new_wdog 1)
    [WdCheck; StoreRemote; NotifyRemote; WdWake; StoreFin; WdCheck; NotifyFin; WdCheck; WdTime flowCompletionGrace; WdTimer; WdTime 1]) in
  wd_closed w = true.
Proof.
  intros w. apply (completion_watchdog_closes 0 1
    [WdCheck; StoreRemote; NotifyRemote; WdWake; StoreFin; WdCheck; NotifyFin; WdCheck; WdTime flowCompletionGrace; WdTimer; WdTime 1] w 1);
    vm_compute; reflexivity.
Defined.

(** ** Concrete flows *)

Definition fe_env (now : Z) (interactive : bool) : rx_env := mkRxEnv now 0 0 interactive InnerOk 1 true true true 0.

Definition fe_frame (t flags sq : Z) (p : bytes) : Frame :=
  mkFrame (mkHeader Version t flags (fl_session tx_id) (fl_flow tx_id) sq (len p) (fl_class tx_id)) p.
Definition fe_finalAck : Frame := fe_frame TypeAck (Z.lor FlagAckDown FlagAckFinal) 0 [].
Definition fe_close : Frame := fe_frame TypeClose FlagFin 0 [].

Definition fe_event (now : Z) (y : sys) (fr : Frame) : sys :=
  match receive_event tx_id FlagAckUp FlagAckDown (fe_env now false) (y_f y) (y_k y) fr with
  | Some (r, f, k, _) => rx_after y r f k
  | None => y
  end.

Lemma fe_event_step now y fr : y_rx y = None ->
  isSome (receive_event tx_id FlagAckUp FlagAckDown (fe_env now false) (y_f y) (y_k y) fr) = true ->
  ystep tx_id FlagAckUp FlagAckDown y (fe_event now y fr).
Proof.
  intros Hr H. unfold fe_event. destruct (receive_event _ _ _ _ _ _ _) as [[[[r f] k] ack]|] eqn:E; [|done]. by eapply ys_event.
Qed.

(** An empty exchange: the half-close, its acknowledgement, the peer's half-close. *)
Definition fe_y0 : sys := new_sys false tx_v0 tx_t0.
Definition fe_y1 : sys := after_schedule fe_y0 false 0 true.
Definition fe_y2 : sys := fe_event 1 fe_y1 fe_finalAck.
Definition fe_y3 : sys := tx_after fe_y2 (set_finalAck (y_f fe_y2) false) None.
Definition fe_y4 : sys := fe_event 2 fe_y3 fe_close.
Definition fe_y5 : sys := run_after fe_y4 [(true, None)] 1 None.
Definition fe_y6 : sys := run_after fe_y5 [] 2 None.
Definition fe_y7 : sys := run_after fe_y6 [] 2 (Some None).

Lemma fe_clean_run : steps (ystep tx_id FlagAckUp FlagAckDown) fe_y0 fe_y7.
Proof.
  eapply steps_cons; [by apply (ys_scheduled _ _ _ fe_y0 false 0 true)|]. change (after_schedule fe_y0 false 0 true) with fe_y1.
  eapply steps_cons; [apply (fe_event_step 1 fe_y1 fe_finalAck); vm_compute; reflexivity|]. change (fe_event 1 fe_y1 fe_finalAck) with fe_y2.
  eapply steps_cons; [apply (ys_tx_final _ _ _ fe_y2); vm_compute; reflexivity|]. change (tx_after fe_y2 _ None) with fe_y3.
  eapply steps_cons; [apply (fe_event_step 2 fe_y3 fe_close); vm_compute; reflexivity|]. change (fe_event 2 fe_y3 fe_close) with fe_y4.
  eapply steps_cons; [apply (ys_run_result _ _ _ fe_y4 false None [(true, None)] false false); [vm_compute; reflexivity|vm_compute; reflexivity|done]|].
  change (run_after fe_y4 _ _ _) with fe_y5.
  eapply steps_cons; [apply (ys_run_result _ _ _ fe_y5 true None [] false false); [vm_compute; reflexivity|vm_compute; reflexivity|done]|].
  change (run_after fe_y5 _ _ _) with fe_y6.
  apply steps_one. apply (ys_run_complete _ _ _ fe_y6); vm_compute; reflexivity.
Qed.

Lemma reported_flow_ended_witness : y_run fe_y7 = Some None /\
  (remoteFinSeen (y_f fe_y7) = true \/ remoteAbort (y_f fe_y7) = true \/ (localAbortSent (y_f fe_y7) = true /\ localClosed (y_f fe_y7) = true)).
Proof.
  split; [vm_compute; reflexivity|].
  apply (reported_flow_ended tx_id FlagAckUp FlagAckDown false tx_v0 tx_t0 fe_y7); [vm_compute; reflexivity|vm_compute; discriminate|exact fe_clean_run|vm_compute; reflexivity].
Defined.

(** The application closes while response bytes wait behind a gap. *)
Definition fe_gap : Frame := fe_frame TypeData 0 5 [1; 2].
Definition fe_g1 : sys := fe_event 1 fe_y0 fe_gap.
Definition fe_g2 : sys := mkSys (set_localClosed (y_f fe_g1)) (with_tx (y_k fe_g1) (set_finSequence (k_tx (y_k fe_g1)) 0)) None Scheduling [] 0 None.
Definition fe_g3 : sys := rx_after fe_g2 Loop (y_f fe_g2) (on_local_closed (fe_env 3 false) (y_k fe_g2)).

Lemma fe_gap_run : steps (ystep tx_id FlagAckUp FlagAckDown) fe_y0 fe_g3.
Proof.
  eapply steps_cons; [apply (fe_event_step 1 fe_y0 fe_gap); vm_compute; reflexivity|]. change (fe_event 1 fe_y0 fe_gap) with fe_g1.
  eapply steps_cons; [apply (ys_source_end _ _ _ fe_g1 0 (set_localClosed (y_f fe_g1)) (set_finSequence (k_tx (y_k fe_g1)) 0)); vm_compute; reflexivity|].
  change (mkSys (set_localClosed (y_f fe_g1)) _ _ _ _ _ _) with fe_g2.
  apply steps_one. apply (ys_local_closed _ _ _ fe_g2 (fe_env 3 false)); vm_compute; reflexivity.
Qed.

Lemma abandoned_flow_timed_witness : exists at_, k_timer (y_k fe_g3) = Some at_.
Proof.
  apply (abandoned_flow_timed tx_id FlagAckUp FlagAckDown false tx_v0 tx_t0 fe_g3); try (vm_compute; reflexivity); [vm_compute; discriminate|exact fe_gap_run].
Defined.

Lemma receive_event_reads_witness : exists f' k',
  receive_event tx_id FlagAckUp FlagAckDown (fe_env 1 false) (new_flags false) (mkRxw tx_v0 tx_t0 None true true) tx_data =
    Some (end_result (rf_end (tx_receive tx_v0 tx_data)), f', k', rf_ack (tx_receive tx_v0 tx_data)) /\ k_v k' = rf_v (tx_receive tx_v0 tx_data).
Proof.
  pose proof (receive_event_reads tx_id FlagAckUp FlagAckDown (fe_env 1 false) (new_flags false) (mkRxw tx_v0 tx_t0 None true true) tx_data
    eq_refl eq_refl eq_refl eq_refl eq_refl ltac:(vm_compute; discriminate) ltac:(vm_compute; discriminate) ltac:(vm_compute; discriminate)) as H.
  vm_compute in H |- *. exact H.
Defined.

(** The two ends of a flow can meet in an order the loop does not notice.  When the
    final acknowledgement is processed, the peer's half-close right after it, and the
    send worker only returns then, the channel that announces its return is read and
    nothing is concluded from it: both directions are complete, no frame is due, and
    only the abort timer, a full grace later, or the watchdog will end the worker. *)
Theorem completed_flow_left_to_timers : exists y at_,
  steps (ystep tx_id FlagAckUp FlagAckDown) fe_y0 y /\ y_rx y = None /\ y_tx y = SendOver /\ v_remoteFin (k_v (y_k y)) = true /\
  finSent (y_f y) = true /\ remoteFinSeen (y_f y) = true /\ k_sendC (y_k y) = false /\ k_localC (y_k y) = false /\ flow_done (y_f y) = false /\
  localAbortSent (y_f y) = false /\ k_timer (y_k y) = Some at_ /\ at_ = 1 + flowAbortGrace.
Proof.
  pose (z3 := fe_event 2 fe_y2 fe_close). pose (z4 := tx_after z3 (set_finalAck (y_f z3) false) None).
  pose (z5 := rx_after z4 Loop (y_f z4) (on_local_closed (fe_env 2 false) (y_k z4))).
  pose (z6 := rx_after z5 Loop (y_f z5) (snd (on_send_done (y_f z5) (y_k z5)))).
  exists z6, (1 + flowAbortGrace). split; [|vm_compute; auto 20].
  eapply steps_cons; [by apply (ys_scheduled _ _ _ fe_y0 false 0 true)|]. change (after_schedule fe_y0 false 0 true) with fe_y1.
  eapply steps_cons; [apply (fe_event_step 1 fe_y1 fe_finalAck); vm_compute; reflexivity|]. change (fe_event 1 fe_y1 fe_finalAck) with fe_y2.
  eapply steps_cons; [apply (fe_event_step 2 fe_y2 fe_close); vm_compute; reflexivity|]. change (fe_event 2 fe_y2 fe_close) with z3.
  eapply steps_cons; [apply (ys_tx_final _ _ _ z3); vm_compute; reflexivity|]. change (tx_after z3 _ None) with z4.
  eapply steps_cons; [apply (ys_local_closed _ _ _ z4 (fe_env 2 false)); vm_compute; reflexivity|]. change (rx_after z4 _ _ _) with z5.
  apply steps_one. apply (ys_send_done _ _ _ z5); vm_compute; reflexivity.
Qed.

(** After the abort marker the worker means to stay for a short drain; an
    acknowledgement that advances, sent before the peer saw the marker, puts the
    timer back to the full grace, which for an interactive flow is thirty seconds. *)
Theorem abort_drain_extended : exists e f k fr k',
  localAbortSent f = true /\ k_timer k = Some (e_now e + localAbortDrainGrace e) /\
  receive_event tx_id FlagAckUp FlagAckDown e f k fr = Some (Loop, f, k', None) /\
  k_timer k' = Some (e_now e + interactiveAbortGrace) /\ localAbortDrainGrace e = finalAckWriteGrace.
Proof.
  exists (fe_env 1 true), (set_localAbortSent (set_localClosed (new_flags false))),
    (mkRxw tx_v0 (noteSent tx_t0 0 10) (Some (1 + finalAckWriteGrace)) false true), (fe_frame TypeAck FlagAckDown 4 []).
  eexists. split; [reflexivity|]. split; [reflexivity|]. split; [vm_compute; reflexivity|]. split; vm_compute; reflexivity.
Qed.
