(* ===== verification/AckLoop.v ===== *)
(** The acknowledgement loop ([internal/pep/mpflow.go]: [scheduleACK], [reportGap],
    [ackLoop], [writeACK]'s choice of a lane) and the flow's limits
    ([watchLimits]).

    The receive loop publishes what should be acknowledged with a few atomic
    operations and a token in a channel of one, and [ackLoop] sends it.  Each atomic
    operation is a step of [al_step], so publisher and loop interleave freely. *)

From S2P Require Import Prelude Outage FlowEnd.

(** In nanoseconds. *)
Definition ackCoalesceDelay : Z := 10 * 1000000.
Definition ackBytesThreshold : Z := 64 * 1024.

(** Where the receive loop is: elsewhere, with a sequence to publish, or with the
    token still to put. *)
Inductive al_pub := PubIdle | PubSwap (sequence : Z) | PubToken | PubGapStore | PubGapToken.

(** Where the loop is: asleep, coalescing, at the top of the inner loop, at the test
    of a sequence it has read, writing it, in the wait for a lane, gone. *)
Inductive al_phase := AlAsleep | AlCoalesce | AlTop | AlTest (sequence : Z) | AlWrite (sequence : Z) | AlOutage | AlGone.

Record al := mkAl {
  al_sequence : Z; al_gap : bool; al_wake : bool; al_closing : bool; al_ranges : bool;
  al_pub_ : al_pub;
  al_phase_ : al_phase; al_sent : Z;
  al_told : Z;          (* the newest point a write carried to the peer *)
  al_gaps_told : Z;     (* gap reports carried to the peer *)
  al_err : bool         (* reported to [run] *)
}.

Definition with_pub (a : al) (p : al_pub) : al :=
  mkAl (al_sequence a) (al_gap a) (al_wake a) (al_closing a) (al_ranges a) p (al_phase_ a) (al_sent a) (al_told a) (al_gaps_told a) (al_err a).
Definition with_phase (a : al) (p : al_phase) : al :=
  mkAl (al_sequence a) (al_gap a) (al_wake a) (al_closing a) (al_ranges a) (al_pub_ a) p (al_sent a) (al_told a) (al_gaps_told a) (al_err a).
Definition put_token (a : al) : al :=
  mkAl (al_sequence a) (al_gap a) true (al_closing a) (al_ranges a) PubIdle (al_phase_ a) (al_sent a) (al_told a) (al_gaps_told a) (al_err a).

Inductive al_label :=
| Schedule (sequence : Z) | ReportGap | PubStep | StartClosing
| LoopWake | LoopTimer | LoopStep | WriteDone (ok : bool) | OutageOver (ok interrupted : bool) | LoopStop.

(** The receive loop: [scheduleACK] and [reportGap] up to their first store. *)
Definition al_publish (a : al) (l : al_label) : option al :=
  match l, al_pub_ a with
  | Schedule s, PubIdle => Some (if (s =? 0) || al_closing a then a else with_pub a (PubSwap s))
  | ReportGap, PubIdle => Some (if al_closing a || negb (al_ranges a) then a else with_pub a PubGapStore)
  | PubStep, PubSwap s =>
      (* the compare-and-swap loop: only this goroutine writes, so it succeeds *)
      Some (mkAl (if s <=? al_sequence a then al_sequence a else s) (al_gap a) (al_wake a) (al_closing a) (al_ranges a) PubToken
              (al_phase_ a) (al_sent a) (al_told a) (al_gaps_told a) (al_err a))
  | PubStep, PubGapStore =>
      Some (mkAl (al_sequence a) true (al_wake a) (al_closing a) (al_ranges a) PubGapToken
              (al_phase_ a) (al_sent a) (al_told a) (al_gaps_told a) (al_err a))
  | PubStep, PubToken | PubStep, PubGapToken => Some (put_token a)
  | StartClosing, PubIdle =>   (* [acknowledgeRemoteFIN] *)
      Some (mkAl (al_sequence a) (al_gap a) (al_wake a) true (al_ranges a) PubIdle
              (al_phase_ a) (al_sent a) (al_told a) (al_gaps_told a) (al_err a))
  | _, _ => None
  end.

(** The loop. *)
Definition al_loop (a : al) (l : al_label) : option al :=
  match l, al_phase_ a with
  | LoopWake, AlAsleep =>
      if al_wake a then
        Some (mkAl (al_sequence a) (al_gap a) false (al_closing a) (al_ranges a) (al_pub_ a)
                (if al_sequence a <? al_sent a +u64 ackBytesThreshold then AlCoalesce else AlTop)
                (al_sent a) (al_told a) (al_gaps_told a) (al_err a))
      else None
  | LoopTimer, AlCoalesce => Some (with_phase a AlTop)
  | LoopStep, AlTop => Some (with_phase a (if al_closing a then AlGone else AlTest (al_sequence a)))
  | LoopStep, AlTest s =>
      if s <=? al_sent a then
        (* [gapPending.Swap(false)] *)
        Some (mkAl (al_sequence a) false (al_wake a) (al_closing a) (al_ranges a) (al_pub_ a)
                (if al_gap a then AlWrite s else AlAsleep) (al_sent a) (al_told a) (al_gaps_told a) (al_err a))
      else Some (with_phase a (AlWrite s))
  | WriteDone ok, AlWrite s =>
      if ok then
        Some (mkAl (al_sequence a) (al_gap a) (al_wake a) (al_closing a) (al_ranges a) (al_pub_ a)
                (if al_sequence a <=? s then AlAsleep else AlTop) s (Z.max (al_told a) s)
                (if s <=? al_sent a then al_gaps_told a + 1 else al_gaps_told a) (al_err a))
      else Some (with_phase a AlOutage)
  | OutageOver ok interrupted, AlOutage =>
      if ok then Some (with_phase a AlTop)
      else Some (mkAl (al_sequence a) (al_gap a) (al_wake a) (al_closing a) (al_ranges a) (al_pub_ a) AlGone (al_sent a) (al_told a)
                   (al_gaps_told a) (al_err a || negb interrupted))
  | LoopStop, AlAsleep | LoopStop, AlCoalesce => Some (with_phase a AlGone)
  | _, _ => None
  end.

Definition al_step (a : al) (l : al_label) : option al :=
  match al_publish a l with Some a' => Some a' | None => al_loop a l end.

Fixpoint al_run (a : al) (ls : list al_label) : option al :=
  match ls with [] => Some a | l :: ls => match al_step a l with Some a' => al_run a' ls | None => None end end.

Definition new_al (ranges : bool) : al := mkAl 0 false false false ranges PubIdle AlAsleep 0 0 0 false.

(** ** [writeACK]'s lanes *)

(** The lanes in turn until one takes the frame: the lane, and those failed. *)
Fixpoint ack_lanes (writes : Z -> bool) (lanes failed : list Z) : option Z * list Z :=
  match lanes with
  | [] => (None, failed)
  | lane :: rest => if writes lane then (Some lane, failed) else ack_lanes writes rest (failed ++ [lane])
  end.

(** ** [watchLimits] *)

Definition watch_interval (idle : Z) : Z :=
  let interval := 1000000000 in
  if (idle >? 0) && (Z.quot idle 4 <? interval) then
    let interval := Z.quot idle 4 in if interval <? 10 * 1000000 then 10 * 1000000 else interval
  else interval.

(** Whether a tick at [now] reports the flow as idle. *)
Definition watch_tick (idle lastActivity now : Z) : bool :=
  (idle >? 0) && ((lastActivity =? 0) || (now - lastActivity >=? idle)).

(** Whether there is anything to watch. *)
Definition watch_starts (idle lifetime : Z) : bool := negb ((idle <=? 0) && (lifetime <=? 0)).

(** ** The theorems *)

Record al_inv (a : al) : Prop := mk_al_inv {
  ai_nonneg : 0 <= al_sent a;
  ai_told : al_told a = al_sent a;
  ai_asleep : al_phase_ a = AlAsleep -> al_wake a = false -> al_sequence a <= al_sent a \/ al_pub_ a = PubToken;
  ai_test : forall s, al_phase_ a = AlTest s \/ al_phase_ a = AlWrite s -> s <= al_sequence a /\ (al_sequence a <= s \/ al_wake a = true \/ al_pub_ a = PubToken);
  ai_write : forall s, al_phase_ a = AlTest s \/ al_phase_ a = AlWrite s -> al_sent a <= s;
  ai_order : al_sent a <= al_sequence a;
  ai_pub : forall s, al_pub_ a = PubSwap s -> 0 <= s
}.

(** Cases of [al_inv] that a step leaves to what held before it. *)
Ltac al_same :=
  intros; simplify_eq; try done;
  repeat match goal with
  | H : forall s, ?x = AlTest s \/ ?x = AlWrite s -> _, G : ?x = AlTest ?s \/ ?x = AlWrite ?s |- _ => destruct (H s G) as [? [?|[?|?]]]; clear H
  | H : ?p = AlAsleep -> _, G : ?p = AlAsleep, W : al_wake _ = false |- _ => destruct (H G W); clear H
  | H : _ \/ _ |- _ => destruct H; simplify_eq
  end; try done; try (split; [lia|]); first [lia | by left; lia | by auto | by right; left | by right; right | congruence].

Lemma al_inv_publish a l a' : al_inv a -> (forall s, l = Schedule s -> 0 <= s) -> al_publish a l = Some a' -> al_inv a'.
Proof.
  intros Hi Hl H. pose proof Hi as [H1 H2 H3 H4 H5 H6 H7]. destruct l; cbn [al_publish] in H; try done; destruct (al_pub_ a) eqn:Ep; try done;
    try (destruct (_ || _)); simplify_eq; try done; split; cbn; try done; try al_same; destruct (_ <=? al_sequence a) eqn:E; try lia;
    intros s Hs; destruct (H4 s Hs); (split; [lia|by auto]).
Qed.

(** The loop reaches a phase in which nothing is asked of it. *)
Definition quiet (p : al_phase) : bool := match p with AlCoalesce | AlTop | AlOutage | AlGone => true | _ => false end.

Lemma al_inv_quiet a p wake err :
  al_inv a -> quiet p = true ->
  al_inv (mkAl (al_sequence a) (al_gap a) wake (al_closing a) (al_ranges a) (al_pub_ a) p (al_sent a) (al_told a) (al_gaps_told a) err).
Proof. intros [] Hq. split; cbn; try done; destruct p; try done; intros s; intros; by destruct H || done. Qed.

Lemma al_inv_loop a l a' : al_inv a -> al_loop a l = Some a' -> al_inv a'.
Proof.
  intros Hi H. pose proof Hi as [H1 H2 H3 H4 H5 H6 H7]. destruct l; cbn [al_loop] in H; try done; destruct (al_phase_ a) eqn:Ep; try done.
  - destruct (al_wake a) eqn:Ew; [|done]. simplify_eq. apply al_inv_quiet; [done|by destruct (_ <? _)].
  - simplify_eq. by apply al_inv_quiet.
  - simplify_eq. destruct (al_closing a); [by apply al_inv_quiet|]. split; cbn; try done; intros s [Hs|Hs]; simplify_eq; lia.
  - pose proof (H4 sequence (or_introl eq_refl)) as [Hs Hw]. pose proof (H5 sequence (or_introl eq_refl)).
    destruct (_ <=? _) eqn:E; simplify_eq.
    + destruct (al_gap a); split; cbn; try done.
      * intros s [Hx|Hx]; by simplify_eq.
      * intros s [Hx|Hx]; by simplify_eq.
      * intros _ Hx. destruct Hw as [?|[?|?]]; [left; lia|congruence|by right].
      * intros s [Hx|Hx]; done.
      * intros s [Hx|Hx]; done.
    + split; cbn; try done; intros s [Hx|Hx]; by simplify_eq.
  - pose proof (H4 sequence (or_intror eq_refl)) as [Hs Hw]. pose proof (H5 sequence (or_intror eq_refl)).
    destruct ok; simplify_eq; [|by apply al_inv_quiet].
    destruct (_ <=? _) eqn:E; split; cbn; try done; try lia; try (intros _ _; left; lia); intros s [Hx|Hx]; done.
  - destruct ok; simplify_eq; by apply al_inv_quiet.
  - simplify_eq. by apply al_inv_quiet.
  - simplify_eq. by apply al_inv_quiet.
Qed.

Lemma al_run_inv ls : forall a a', al_inv a -> Forall (fun l => forall s, l = Schedule s -> 0 <= s) ls -> al_run a ls = Some a' -> al_inv a'.
Proof.
  induction ls as [|l ls IH]; intros a a' Hi Hl Hr; cbn in Hr; [by simplify_eq|]. apply Forall_cons in Hl as [Hl Hls].
  destruct (al_step a l) as [a1|] eqn:E; [|done]. apply (IH a1); [|done|done]. unfold al_step in E.
  destruct (al_publish a l) as [a2|] eqn:Ep; simplify_eq; [by eapply al_inv_publish|by eapply al_inv_loop].
Qed.

(** C15: no acknowledgement is forgotten.  Whatever the interleaving of the receive
    loop's stores and tokens with the acknowledgement loop's reads and writes, and
    however many writes fail and are repeated: whenever the loop sleeps with no token
    waiting and the receive loop is not in between its store and its token, the peer
    has been told everything that was scheduled. *)
Theorem acknowledgements_reach_peer ranges ls a :
  Forall (fun l => forall s, l = Schedule s -> 0 <= s) ls -> al_run (new_al ranges) ls = Some a ->
  al_phase_ a = AlAsleep -> al_wake a = false -> al_pub_ a <> PubToken -> al_told a = al_sequence a.
Proof.
  intros Hl Hr Hp Hw Hpub. assert (Hi : al_inv (new_al ranges)) by (split; cbn; try done; try (by left); intros s [Hx|Hx]; done).
  destruct (al_run_inv ls _ _ Hi Hl Hr) as [H1 H2 H3 H4 H5 H6 H7]. destruct (H3 Hp Hw); [lia|done].
Qed.

(** A write that fails is repeated when a lane is back. *)
Lemma acknowledgements_reach_peer_witness :
  let a := default (new_al true) (al_run (new_al true)
    [Schedule 100; PubStep; PubStep; LoopWake; LoopTimer; LoopStep; LoopStep; WriteDone false; Schedule 200; PubStep; OutageOver true false;
     LoopStep; LoopStep; WriteDone true; PubStep; LoopWake; LoopTimer; LoopStep; LoopStep]) in
  al_told a = al_sequence a /\ al_sequence a = 200.
Proof.
  intros a. split; [|vm_compute; reflexivity].
  apply (acknowledgements_reach_peer true
    [Schedule 100; PubStep; PubStep; LoopWake; LoopTimer; LoopStep; LoopStep; WriteDone false; Schedule 200; PubStep; OutageOver true false;
     LoopStep; LoopStep; WriteDone true; PubStep; LoopWake; LoopTimer; LoopStep; LoopStep] a);
    [|vm_compute; reflexivity|vm_compute; reflexivity|vm_compute; reflexivity|vm_compute; discriminate].
  repeat (apply Forall_cons; split; [intros s Hs; try discriminate; injection Hs as <-; lia|]). apply Forall_nil. exact I.
Defined.

(** A report of a gap is: its mark is taken off before the write, so when that write
    fails and a lane comes back the loop goes to sleep without repeating it. *)
Theorem gap_report_lost : exists ls a,
  al_run (new_al true) (ReportGap :: PubStep :: PubStep :: ls) = Some a /\ In (OutageOver true false) ls /\
  al_phase_ a = AlAsleep /\ al_wake a = false /\ al_pub_ a = PubIdle /\ al_gaps_told a = 0 /\ al_gap a = false.
Proof.
  exists [LoopWake; LoopTimer; LoopStep; LoopStep; WriteDone false; OutageOver true false; LoopStep; LoopStep].
  eexists. split; [vm_compute; reflexivity|]. split; [cbn; auto 10|]. vm_compute. auto 10.
Qed.

(** An idle flow is reported at the first tick after its time, and ticks come at
    least four times in that span or every second. *)
Lemma watch_interval_bounds idle : 0 < idle ->
  10 * 1000000 <= watch_interval idle <= 1000000000 /\ (4 * 10 * 1000000 <= idle -> 4 * watch_interval idle <= idle \/ watch_interval idle = 1000000000).
Proof.
  intros Hi. unfold watch_interval. replace (idle >? 0) with true by lia. cbn [andb]. rewrite Z.quot_div_nonneg by lia.
  pose proof (Z.mul_div_le idle 4 ltac:(lia)). destruct (_ <? 1000000000) eqn:E1; [|lia]. destruct (_ <? 10 * 1000000) eqn:E2; lia.
Qed.
