(* ===== verification/Pool.v ===== *)
(** What a client keeps ready ([internal/pep/client.go]): admission of local
    sessions ([SessionLimit]), the shared control connection and its generations
    ([acquireControlQUICGeneration], [runControlQUICDial],
    [retireControlQUICGeneration], [closeControlQUICPool]) and the pool of secondary
    connections ([reserveBulkConnMode], [releaseBulkConn], [expireBulkConn],
    [closeBulkQUICPool]).

    Connections are names; whether one is still alive is the network's doing.  Each
    critical section is one label of a transition function, and whatever a goroutine
    does between two of them is the interleaving of labels. *)

From S2P Require Import Prelude Limits.

Definition maxConfiguredSessions : Z := Z.shiftl 1 16.

(** ** Local sessions *)

(** A channel used as a counter: its capacity and its length. *)
Record pool := mkPool { p_cap : Z; p_len : Z }.

Inductive pool_name := Shared | Reserved (client : Z).

(** The limits of [clients] clients: the common pool, each client's own (empty where
    nothing is reserved), and the sessions admitted, by the pool they came from. *)
Record sessions := mkSessions { ss_shared : pool; ss_reserve : Z; ss_reserved : gmap Z Z; ss_slots : gmap Z pool_name }.

Definition NewSharedSessionLimits (max clients : Z) : option sessions :=
  if clients <? 1 then None
  else if (max <? 1) || (max >? maxConfiguredSessions) then None
  else
    let reserve := Z.quot max (2 * clients) in
    Some (mkSessions (mkPool (max - reserve * clients) 0) reserve ∅ ∅).

Definition NewSessionLimit (max : Z) : option sessions :=
  if (max <? 1) || (max >? maxConfiguredSessions) then None else Some (mkSessions (mkPool max 0) 0 ∅ ∅).

Definition reserved_len (s : sessions) (client : Z) : Z := default 0 (ss_reserved s !! client).

(** [acquire] for one client; [slot] names the session. *)
Definition acquire_session (s : sessions) (client slot : Z) : option sessions :=
  if (ss_reserve s >? 0) && (reserved_len s client <? ss_reserve s) then
    Some (mkSessions (ss_shared s) (ss_reserve s) (<[client := reserved_len s client + 1]> (ss_reserved s)) (<[slot := Reserved client]> (ss_slots s)))
  else if p_len (ss_shared s) <? p_cap (ss_shared s) then
    Some (mkSessions (mkPool (p_cap (ss_shared s)) (p_len (ss_shared s) + 1)) (ss_reserve s) (ss_reserved s) (<[slot := Shared]> (ss_slots s)))
  else None.

(** [release] blocks ([None]) if the pool is empty. *)
Definition release_session (s : sessions) (slot : Z) : option sessions :=
  match ss_slots s !! slot with
  | None => None
  | Some Shared =>
      if p_len (ss_shared s) >? 0 then
        Some (mkSessions (mkPool (p_cap (ss_shared s)) (p_len (ss_shared s) - 1)) (ss_reserve s) (ss_reserved s) (delete slot (ss_slots s)))
      else None
  | Some (Reserved client) =>
      if reserved_len s client >? 0 then
        Some (mkSessions (ss_shared s) (ss_reserve s) (<[client := reserved_len s client - 1]> (ss_reserved s)) (delete slot (ss_slots s)))
      else None
  end.

Inductive session_step (clients : Z) : sessions -> sessions -> Prop :=
| sess_acquire s s' client slot : 0 <= client < clients -> ss_slots s !! slot = None -> acquire_session s client slot = Some s' -> session_step clients s s'
| sess_release s s' slot : release_session s slot = Some s' -> session_step clients s s'.

(** [admitPendingOpen] and [releasePendingOpen]. *)
Definition admitPendingOpen (p : pool) : option pool := if p_len p <? p_cap p then Some (mkPool (p_cap p) (p_len p + 1)) else None.
Definition releasePendingOpen (p : pool) : option pool := if p_len p >? 0 then Some (mkPool (p_cap p) (p_len p - 1)) else None.

(** ** The shared control connection *)

(** An attempt is named by its epoch, and so is the generation it makes. *)
Inductive dial_state :=
| Dialling
| Dialled (ok : bool)                          (* the handshake is over, nothing published *)
| DialOver (generation : bool) (failed superseded : bool).

Record control := mkControl {
  c_epoch : Z;                  (* [quicEpoch] *)
  c_generation : option Z;      (* [quicGeneration] *)
  c_dial : option Z;            (* [quicDial] *)
  c_dials : gmap Z dial_state;
  c_alive : gset Z;             (* generations whose connection is alive *)
  c_open : gset Z;              (* generations not closed by this client *)
  c_closing : list Z            (* taken out of the pool, about to be closed *)
}.

Definition new_control : control := mkControl 0 None None ∅ ∅ ∅ [].

(** What one pass of [acquireControlQUICGeneration] ends with. *)
Inductive acquire_pass := UseGeneration (g : Z) | WaitDial (epoch : Z).

Definition acquireControlQUICGeneration_pass (c : control) : acquire_pass * control :=
  match c_generation c with
  | Some g =>
      if bool_decide (g ∈ c_alive c) then (UseGeneration g, c)
      else
        match c_dial c with
        | Some e => (WaitDial e, mkControl (c_epoch c) None (Some e) (c_dials c) (c_alive c) (c_open c) (g :: c_closing c))
        | None => (WaitDial (c_epoch c + 1),
            mkControl (c_epoch c + 1) None (Some (c_epoch c + 1)) (<[c_epoch c + 1 := Dialling]> (c_dials c)) (c_alive c) (c_open c) (g :: c_closing c))
        end
  | None =>
      match c_dial c with
      | Some e => (WaitDial e, c)
      | None => (WaitDial (c_epoch c + 1),
          mkControl (c_epoch c + 1) None (Some (c_epoch c + 1)) (<[c_epoch c + 1 := Dialling]> (c_dials c)) (c_alive c) (c_open c) (c_closing c))
      end
  end.

(** [runControlQUICDial] when the handshake returns, and its critical section. *)
Definition dial_returns (c : control) (e : Z) (ok : bool) : option control :=
  match c_dials c !! e with
  | Some Dialling =>
      Some (mkControl (c_epoch c) (c_generation c) (c_dial c) (<[e := Dialled ok]> (c_dials c))
              (if ok then {[e]} ∪ c_alive c else c_alive c) (if ok then {[e]} ∪ c_open c else c_open c) (c_closing c))
  | _ => None
  end.

Definition is_current (c : control) (e : Z) : bool := bool_decide (c_dial c = Some e) && (c_epoch c =? e).

Definition dial_publishes (c : control) (e : Z) : option control :=
  match c_dials c !! e with
  | Some (Dialled ok) =>
      Some (if is_current c e then
              mkControl (c_epoch c) (if ok then Some e else c_generation c) None (<[e := DialOver ok (negb ok) false]> (c_dials c))
                (c_alive c) (c_open c) (c_closing c)
            else
              mkControl (c_epoch c) (c_generation c) (c_dial c) (<[e := DialOver false false true]> (c_dials c)) (c_alive c) (c_open c)
                (if ok then e :: c_closing c else c_closing c))
  | _ => None
  end.

Definition retireControlQUICGeneration (c : control) (g : Z) : control :=
  mkControl (c_epoch c) (if bool_decide (c_generation c = Some g) then None else c_generation c) (c_dial c) (c_dials c) (c_alive c) (c_open c)
    (g :: c_closing c).

Definition closeControlQUICPool (c : control) : control :=
  mkControl (c_epoch c + 1) None None (c_dials c) (c_alive c) (c_open c)
    (match c_generation c with Some g => g :: c_closing c | None => c_closing c end).

(** [generation.close]. *)
Definition close_generation (c : control) (g : Z) (before after : list Z) : control :=
  mkControl (c_epoch c) (c_generation c) (c_dial c) (c_dials c) (c_alive c ∖ {[g]}) (c_open c ∖ {[g]}) (before ++ after).

Inductive control_step : control -> control -> Prop :=
| cs_acquire c : control_step c (snd (acquireControlQUICGeneration_pass c))
| cs_returns c e ok c' : dial_returns c e ok = Some c' -> control_step c c'
| cs_publishes c e c' : dial_publishes c e = Some c' -> control_step c c'
| cs_retire c g : (exists f s, c_dials c !! g = Some (DialOver true f s)) -> control_step c (retireControlQUICGeneration c g)
| cs_reset c : control_step c (closeControlQUICPool c)
| cs_close c g before after : c_closing c = before ++ g :: after -> control_step c (close_generation c g before after)
| cs_dies c g : control_step c (mkControl (c_epoch c) (c_generation c) (c_dial c) (c_dials c) (c_alive c ∖ {[g]}) (c_open c) (c_closing c)).

(** ** Secondary connections *)

Record bulkConn := mkBulkConn { b_busy : bool; b_timer : bool; b_closed : bool }.

Record bulk := mkBulk {
  bulkConns : list Z;
  b_store : gmap Z bulkConn;
  b_alive : gset Z;
  bulkDialing : bool;
  b_fresh : Z;
  b_held : list Z         (* the connections lanes were given and have not given back *)
}.

Definition new_bulk : bulk := mkBulk [] ∅ ∅ false 0 [].

Definition entry (b : bulk) (i : Z) : bulkConn := default (mkBulkConn false false false) (b_store b !! i).
Definition busy (b : bulk) (i : Z) : bool := b_busy (entry b i).
Definition alive (b : bulk) (i : Z) : bool := bool_decide (i ∈ b_alive b).

Definition with_conns (b : bulk) (l : list Z) : bulk := mkBulk l (b_store b) (b_alive b) (bulkDialing b) (b_fresh b) (b_held b).
Definition with_entry (b : bulk) (i : Z) (x : bulkConn) : bulk :=
  mkBulk (bulkConns b) (<[i := x]> (b_store b)) (b_alive b) (bulkDialing b) (b_fresh b) (b_held b).
Definition with_dialing (b : bulk) (d : bool) : bulk := mkBulk (bulkConns b) (b_store b) (b_alive b) d (b_fresh b) (b_held b).
Definition with_held (b : bulk) (l : list Z) : bulk := mkBulk (bulkConns b) (b_store b) (b_alive b) (bulkDialing b) (b_fresh b) l.

(** [bulkConn.close]. *)
Definition close_entry (b : bulk) (i : Z) : bulk :=
  mkBulk (bulkConns b) (<[i := mkBulkConn (busy b i) false true]> (b_store b)) (b_alive b ∖ {[i]}) (bulkDialing b) (b_fresh b) (b_held b).

Definition stale (b : bulk) (i : Z) : bool := negb (alive b i) && negb (busy b i).

Definition close_entries (b : bulk) (l : list Z) : bulk := fold_left close_entry l b.

(** The stale entries are closed and dropped. *)
Definition prune_bulk (b : bulk) : bulk :=
  close_entries (with_conns b (filter (fun i => stale b i = false) (bulkConns b))) (filter (fun i => stale b i = true) (bulkConns b)).

Definition proactiveBulkConnections : Z := 1.

Inductive reserve_result := Granted (i : Z) | LimitReached | DialPending | MustDial (limit : Z) | DialFailed.

Definition bulk_limit (max : Z) (ramp : bool) : Z := if ramp && (max >? proactiveBulkConnections) then proactiveBulkConnections else max.

(** The first critical section of [reserveBulkConnMode]. *)
Definition reserveBulkConn_begin (max : Z) (ramp : bool) (b : bulk) : reserve_result * bulk :=
  let b := prune_bulk b in
  if ramp && existsb (busy b) (bulkConns b) then (LimitReached, b)
  else
    match List.find (fun i => negb (busy b i) && alive b i) (bulkConns b) with
    | Some i => (Granted i, with_held (with_entry b i (mkBulkConn true false (b_closed (entry b i)))) (i :: b_held b))
    | None =>
        let limit := bulk_limit max ramp in
        if len (bulkConns b) >=? limit then (LimitReached, b)
        else if ramp && bulkDialing b then (DialPending, b)
        else (MustDial limit, if ramp then with_dialing b true else b)
    end.

(** The second, when the handshake has returned. *)
Definition reserveBulkConn_end (limit : Z) (ramp ok : bool) (b : bulk) : reserve_result * bulk :=
  let b := if ramp then with_dialing b false else b in
  if negb ok then (DialFailed, b)
  else
    let i := b_fresh b in
    let b := mkBulk (bulkConns b) (<[i := mkBulkConn false false false]> (b_store b)) ({[i]} ∪ b_alive b) (bulkDialing b) (b_fresh b + 1) (b_held b) in
    if len (bulkConns b) >=? limit then (LimitReached, close_entry b i)
    else (Granted i, with_held (with_conns (with_entry b i (mkBulkConn true false false)) (bulkConns b ++ [i])) (i :: b_held b)).

Definition drop_entry (b : bulk) (i : Z) : bulk := with_conns b (filter (fun j => j <> i) (bulkConns b)).

Definition releaseBulkConn (b : bulk) (i : Z) (dead : bool) : bulk :=
  let b := with_entry b i (mkBulkConn false (b_timer (entry b i)) (b_closed (entry b i))) in
  if dead then close_entry (drop_entry b i) i
  else with_entry b i (mkBulkConn false true (b_closed (entry b i))).

Definition expireBulkConn (b : bulk) (i : Z) : bulk :=
  if busy b i then b
  else if bool_decide (i ∈ bulkConns b) then close_entry (drop_entry b i) i else b.

Definition closeBulkQUICPool (b : bulk) : bulk := close_entries (with_conns b []) (bulkConns b).

Definition give_back (b : bulk) (i : Z) : bulk := with_held b (filter (fun j => j <> i) (b_held b)).

Inductive bulk_step (max : Z) : bulk -> bulk -> Prop :=
| bs_begin b ramp : bulk_step max b (snd (reserveBulkConn_begin max ramp b))
| bs_end b ramp ok : bulk_step max b (snd (reserveBulkConn_end (bulk_limit max ramp) ramp ok b))
(* a lane closes, or its stream cannot be opened *)
| bs_release b i dead : i ∈ b_held b -> bulk_step max b (releaseBulkConn (give_back b i) i dead)
| bs_expire b i : bulk_step max b (expireBulkConn b i)
| bs_reset b : bulk_step max b (closeBulkQUICPool b)
| bs_dies b i : bulk_step max b (mkBulk (bulkConns b) (b_store b) (b_alive b ∖ {[i]}) (bulkDialing b) (b_fresh b) (b_held b)).

(** ** Sessions: the theorems *)

Definition in_shared (_ : Z) (p : pool_name) : Z := match p with Shared => 1 | Reserved _ => 0 end.
Definition in_reserved (client : Z) (_ : Z) (p : pool_name) : Z := match p with Reserved c => if c =? client then 1 else 0 | Shared => 0 end.
Definition in_any_reserved (_ : Z) (p : pool_name) : Z := match p with Shared => 0 | Reserved _ => 1 end.

Record sessions_inv (max clients : Z) (s : sessions) : Prop := mk_sessions_inv {
  si_reserve : 0 <= ss_reserve s;
  si_total : p_cap (ss_shared s) + ss_reserve s * clients = max;
  si_shared : p_len (ss_shared s) = msum in_shared (ss_slots s) /\ p_len (ss_shared s) <= p_cap (ss_shared s);
  si_client : forall c, reserved_len s c = msum (in_reserved c) (ss_slots s);
  si_bound : forall c, reserved_len s c <= ss_reserve s;
  si_sum : msum (fun _ n => n) (ss_reserved s) = msum in_any_reserved (ss_slots s);
  si_keys : forall c n, ss_reserved s !! c = Some n -> 0 <= c < clients /\ 0 <= n
}.

(** At most [n] keys, each holding at most [r]. *)
Lemma msum_keys_bound (n r : Z) (m : gmap Z Z) : 0 <= r -> 0 <= n ->
  (forall c x, m !! c = Some x -> 0 <= c < n /\ x <= r) -> msum (fun _ x => x) m <= n * r.
Proof.
  intros Hr Hn. revert m. pattern n. apply natlike_ind; [|clear n Hn|done].
  - intros m Hm. replace m with (∅ : gmap Z Z); [rewrite msum_empty; lia|]. apply map_eq. intros c. rewrite lookup_empty.
    destruct (m !! c) eqn:E; [|done]. destruct (Hm _ _ E). lia.
  - intros n Hn IH m Hm. destruct (m !! n) as [x|] eqn:E.
    + rewrite (msum_delete _ _ _ _ E). destruct (Hm _ _ E). assert (msum (fun _ x => x) (delete n m) <= n * r); [|lia].
      apply IH. intros c y Hc. apply lookup_delete_Some in Hc as [Hne Hc]. destruct (Hm _ _ Hc). lia.
    + assert (msum (fun _ x => x) m <= n * r); [|lia]. apply IH. intros c y Hc. destruct (Hm _ _ Hc). split; [|done].
      assert (c <> n) by congruence. lia.
Qed.

Lemma reserved_insert s c n c' : default 0 (<[c := n]> (ss_reserved s) !! c') = if c =? c' then n else reserved_len s c'.
Proof. destruct (c =? c') eqn:E; [assert (c = c') by lia; subst; by rewrite lookup_insert_eq|by rewrite lookup_insert_ne by lia]. Qed.

Lemma sum_reserved s c n : msum (fun _ x => x) (<[c := n]> (ss_reserved s)) = msum (fun _ x => x) (ss_reserved s) - reserved_len s c + n.
Proof.
  unfold reserved_len. destruct (ss_reserved s !! c) as [x|] eqn:E; cbn [default]; [by rewrite (msum_update _ _ _ _ _ E)|].
  rewrite msum_insert by done. lia.
Qed.

Lemma slots_nonneg f (m : gmap Z pool_name) : (forall k p, 0 <= f k p) -> 0 <= msum f m.
Proof. intros H. apply msum_nonneg. auto. Qed.

Lemma in_shared_nonneg k p : 0 <= in_shared k p.
Proof. destruct p; cbn; lia. Qed.
Lemma in_reserved_nonneg c k p : 0 <= in_reserved c k p.
Proof. destruct p; cbn; [lia|]. destruct (_ =? _); lia. Qed.

Lemma sessions_inv_step max clients s s' : sessions_inv max clients s -> session_step clients s s' -> sessions_inv max clients s'.
Proof.
  intros [] Hst. destruct Hst as [s s' client slot Hc Hslot Ha|s s' slot Hr].
  - unfold acquire_session in Ha. destruct ((ss_reserve s >? 0) && _) eqn:E; [|destruct (p_len (ss_shared s) <? p_cap (ss_shared s)) eqn:E2; [|done]];
      simplify_eq; bool_to_prop.
    + split; cbn; try done.
      * rewrite msum_insert by done. cbn [in_shared]. destruct si_shared0. lia.
      * intros c. unfold reserved_len at 1. cbn. rewrite reserved_insert, msum_insert by done. rewrite <- si_client0. cbn [in_reserved].
        destruct (client =? c) eqn:Ec; [|lia]. assert (client = c) as -> by lia. lia.
      * intros c. unfold reserved_len at 1. cbn. rewrite reserved_insert. destruct (client =? c); [lia|apply si_bound0].
      * rewrite sum_reserved, msum_insert by done. cbn [in_any_reserved]. lia.
      * intros c n Hn. apply lookup_insert_Some in Hn as [[<- <-]|[_ Hn]]; [|by eapply si_keys0]. split; [done|].
        pose proof (slots_nonneg (in_reserved client) (ss_slots s) (in_reserved_nonneg client)). rewrite <- si_client0 in *. lia.
    + split; cbn; try done.
      * rewrite msum_insert by done. cbn [in_shared]. destruct si_shared0. lia.
      * intros c. rewrite msum_insert by done. rewrite <- si_client0. done.
      * rewrite msum_insert by done. cbn [in_any_reserved]. lia.
  - unfold release_session in Hr. destruct (ss_slots s !! slot) as [[|client]|] eqn:Es; [| |done].
    + destruct (_ >? 0) eqn:E; [|done]. simplify_eq. split; cbn; try done.
      * destruct si_shared0 as [H1 H2]. rewrite (msum_delete _ _ _ _ Es) in H1. cbn [in_shared] in H1. lia.
      * intros c. specialize (si_client0 c). rewrite (msum_delete _ _ _ _ Es) in si_client0. exact si_client0.
      * rewrite (msum_delete _ _ _ _ Es) in si_sum0. cbn [in_any_reserved] in si_sum0. lia.
    + destruct (_ >? 0) eqn:E; [|done]. simplify_eq. split; cbn; try done.
      * destruct si_shared0 as [H1 H2]. rewrite (msum_delete _ _ _ _ Es) in H1. cbn [in_shared] in H1. lia.
      * intros c. specialize (si_client0 c). rewrite (msum_delete _ _ _ _ Es) in si_client0. unfold reserved_len at 1. cbn. rewrite reserved_insert.
        cbn [in_reserved] in si_client0. destruct (client =? c) eqn:Ec; [|lia]. assert (client = c) as -> by lia. lia.
      * intros c. unfold reserved_len at 1. cbn. rewrite reserved_insert. destruct (client =? c); [|apply si_bound0]. pose proof (si_bound0 client). lia.
      * rewrite sum_reserved. rewrite (msum_delete _ _ _ _ Es) in si_sum0. cbn [in_any_reserved] in si_sum0. lia.
      * intros c n Hn. apply lookup_insert_Some in Hn as [[<- <-]|[_ Hn]]; [|by eapply si_keys0].
        assert (Hk : exists x, ss_reserved s !! client = Some x) by (unfold reserved_len in E; destruct (ss_reserved s !! client); [eauto|cbn in E; lia]).
        destruct Hk as [x Hx]. destruct (si_keys0 _ _ Hx). lia.
Qed.

Lemma new_sessions_inv max clients s : NewSharedSessionLimits max clients = Some s -> sessions_inv max clients s.
Proof.
  unfold NewSharedSessionLimits. destruct (clients <? 1) eqn:E1; [done|]. destruct (_ || _) eqn:E2; [done|]. intros H. simplify_eq. bool_to_prop.
  set (r := Z.quot max (2 * clients)). assert (Hr : 0 <= r /\ r * (2 * clients) <= max).
  { unfold r. rewrite Z.quot_div_nonneg by lia. pose proof (Z.mul_div_le max (2 * clients) ltac:(lia)). split; [apply Z.div_pos; lia|lia]. }
  split; cbn; rewrite ?msum_empty; try done; try lia.
  intros c. unfold reserved_len. cbn. rewrite lookup_empty. cbn. lia.
Qed.

(** C26: a client keeps its share.  However sessions of several clients come and go,
    together they never exceed the configured maximum; a client that holds fewer
    sessions of its own reservation than it was given is always admitted, whatever
    its siblings hold; and a session that ends always gives its slot back to the pool
    it came from. *)
Theorem session_limits_hold max clients s0 s :
  NewSharedSessionLimits max clients = Some s0 -> steps (session_step clients) s0 s ->
  Z.of_nat (size (ss_slots s)) <= max /\
  (forall client slot, msum (in_reserved client) (ss_slots s) < ss_reserve s -> acquire_session s client slot <> None) /\
  (forall slot p, ss_slots s !! slot = Some p -> release_session s slot <> None).
Proof.
  intros H0 Hs. destruct (steps_invariant _ (sessions_inv max clients) (sessions_inv_step max clients) _ _ (new_sessions_inv _ _ _ H0) Hs).
  assert (Hcl : 0 <= clients).
  { unfold NewSharedSessionLimits in H0. destruct (clients <? 1) eqn:E; [done|lia]. }
  split; [|split].
  - assert (Hsz : Z.of_nat (size (ss_slots s)) = msum in_shared (ss_slots s) + msum in_any_reserved (ss_slots s)).
    { rewrite <- msum_add. clear. induction (ss_slots s) as [|k p m Hk IH] using map_ind; [by rewrite msum_empty, map_size_empty|].
      rewrite msum_insert, map_size_insert_None by done. destruct p; cbn [in_shared in_any_reserved]; lia. }
    pose proof (msum_keys_bound clients (ss_reserve s) (ss_reserved s) si_reserve0 Hcl) as Hb. destruct si_shared0 as [H1 H2].
    assert (msum (fun _ x => x) (ss_reserved s) <= clients * ss_reserve s); [|lia]. apply Hb. intros c x Hx. destruct (si_keys0 _ _ Hx).
    split; [done|]. specialize (si_bound0 c). unfold reserved_len in si_bound0. by rewrite Hx in si_bound0.
  - intros client slot Hlt. rewrite <- si_client0 in Hlt. unfold acquire_session.
    pose proof (slots_nonneg (in_reserved client) (ss_slots s) (in_reserved_nonneg client)) as Hn. rewrite <- si_client0 in Hn.
    replace (ss_reserve s >? 0) with true by lia. by replace (reserved_len s client <? ss_reserve s) with true by lia.
  - intros slot p Hp. unfold release_session. rewrite Hp. destruct p as [|client].
    + destruct si_shared0 as [H1 H2]. pose proof (msum_entry_le in_shared (ss_slots s) slot Shared (fun k a _ => in_shared_nonneg k a) Hp) as Hle.
      cbn [in_shared] in Hle. by replace (p_len (ss_shared s) >? 0) with true by lia.
    + pose proof (msum_entry_le (in_reserved client) (ss_slots s) slot (Reserved client) (fun k a _ => in_reserved_nonneg client k a) Hp) as Hle.
      rewrite <- si_client0 in Hle. cbn [in_reserved] in Hle. rewrite Z.eqb_refl in Hle.
      by replace (reserved_len s client >? 0) with true by lia.
Qed.

(** Two clients with four sessions: one of its own each, two common. *)
Lemma session_limits_hold_witness : exists s0 s,
  NewSharedSessionLimits 4 2 = Some s0 /\ steps (session_step 2) s0 s /\ Z.of_nat (size (ss_slots s)) <= 4 /\ acquire_session s 1 9 <> None.
Proof.
  pose (s0 := mkSessions (mkPool 2 0) 1 ∅ ∅). pose (s1 := default s0 (acquire_session s0 0 1)). pose (s2 := default s0 (acquire_session s1 0 2)).
  pose (s3 := default s0 (acquire_session s2 0 3)).
  assert (Hs : steps (session_step 2) s0 s3).
  { eapply steps_cons; [apply (sess_acquire _ s0 s1 0 1); [lia|reflexivity|vm_compute; reflexivity]|].
    eapply steps_cons; [apply (sess_acquire _ s1 s2 0 2); [lia|vm_compute; reflexivity|vm_compute; reflexivity]|].
    apply steps_one. apply (sess_acquire _ s2 s3 0 3); [lia|vm_compute; reflexivity|vm_compute; reflexivity]. }
  destruct (session_limits_hold 4 2 s0 s3 eq_refl Hs) as (H1 & H2 & _).
  exists s0, s3. split; [reflexivity|]. split; [exact Hs|]. split; [exact H1|]. apply H2. vm_compute. reflexivity.
Defined.

(** ** The control connection: the theorems *)

Definition published (c : control) (g : Z) : Prop := exists f s, c_dials c !! g = Some (DialOver true f s).

Record control_inv (c : control) : Prop := mk_control_inv {
  ci_dial : forall e, c_dial c = Some e -> e = c_epoch c /\ (c_dials c !! e = Some Dialling \/ exists ok, c_dials c !! e = Some (Dialled ok));
  ci_epoch : forall e d, c_dials c !! e = Some d -> e <= c_epoch c;
  ci_generation : forall g, c_generation c = Some g -> published c g;
  ci_open : forall g, g ∈ c_open c -> c_generation c = Some g \/ g ∈ c_closing c \/ c_dials c !! g = Some (Dialled true);
  ci_one : c_generation c <> None -> c_dial c = None
}.

Lemma control_dial c l : control_inv c -> c_dial c = None -> (forall g, c_generation c = Some g -> g ∈ l) -> (forall g, g ∈ c_closing c -> g ∈ l) ->
  control_inv (mkControl (c_epoch c + 1) None (Some (c_epoch c + 1)) (<[c_epoch c + 1 := Dialling]> (c_dials c)) (c_alive c) (c_open c) l).
Proof.
  intros [] Hd Hg Hl. split; cbn.
  - intros e He. simplify_eq. rewrite lookup_insert_eq. auto.
  - intros e d He. apply lookup_insert_Some in He as [[<- _]|[_ He]]; [lia|]. specialize (ci_epoch0 _ _ He). lia.
  - done.
  - intros g Ho. destruct (ci_open0 g Ho) as [H|[H|H]]; [right; left; by apply Hg|right; left; by apply Hl|].
    right. right. rewrite lookup_insert_ne; [done|]. specialize (ci_epoch0 _ _ H). lia.
  - done.
Qed.

Lemma control_inv_step c c' : control_inv c -> control_step c c' -> control_inv c'.
Proof.
  intros Hi Hst. pose proof Hi as []. destruct Hst as [c|c e ok c' H|c e c' H|c g H|c|c g before after H|c g].
  - unfold acquireControlQUICGeneration_pass. destruct (c_generation c) as [g|] eqn:Eg.
    + case_bool_decide; [done|]. rewrite (ci_one0 ltac:(done)). cbn [snd]. apply control_dial; [done|by apply ci_one0|set_solver|set_solver].
    + destruct (c_dial c) as [e|] eqn:Ed; [done|]. cbn [snd]. apply control_dial; try done. by rewrite Eg.
  - unfold dial_returns in H. destruct (c_dials c !! e) as [[| |]|] eqn:Ee; try done. simplify_eq. split; cbn; try done.
    + intros e' He. destruct (ci_dial0 e' He) as [-> H2]. split; [done|]. destruct (decide (e = c_epoch c)) as [->|Hne].
      * rewrite lookup_insert_eq. eauto.
      * by rewrite lookup_insert_ne.
    + intros e' d He. apply lookup_insert_Some in He as [[<- _]|[_ He]]; [by eapply ci_epoch0|by eapply ci_epoch0].
    + intros g Hg. destruct (ci_generation0 g Hg) as (f & s & Hf). exists f, s. cbn. rewrite lookup_insert_ne; [done|]. congruence.
    + intros g Ho. assert (Hc : g ∈ c_open c \/ (g = e /\ ok = true)) by (destruct ok; set_solver). destruct Hc as [Hc|[-> ->]].
      * destruct (ci_open0 g Hc) as [?|[?|H]]; [by left|by right; left|]. right. right. rewrite lookup_insert_ne; [done|]. congruence.
      * right. right. by rewrite lookup_insert_eq.
  - unfold dial_publishes in H. destruct (c_dials c !! e) as [[|ok|]|] eqn:Ee; try done. unfold is_current in H.
    destruct (bool_decide (c_dial c = Some e) && (c_epoch c =? e)) eqn:Ec; injection H as <-; bool_to_prop.
    + apply bool_decide_eq_true in H. assert (c_generation c = None) as Hng by (destruct (c_generation c); [rewrite ci_one0 in H; done|done]).
      split; cbn.
      * done.
      * intros e' d He. apply lookup_insert_Some in He as [[<- _]|[_ He]]; [by eapply ci_epoch0|by eapply ci_epoch0].
      * intros g Hg. destruct ok; [|by rewrite Hng in Hg]. simplify_eq. exists false, false. cbn. by rewrite lookup_insert_eq.
      * intros g Ho. destruct (ci_open0 g Ho) as [?|[?|Hd]]; [congruence|by right; left|].
        destruct (decide (g = e)) as [->|Hne]; [left; rewrite Ee in Hd; by simplify_eq|]. right. right. by rewrite lookup_insert_ne.
      * done.
    + split; cbn.
      * intros e' He. destruct (ci_dial0 e' He) as [-> H2]. split; [done|]. destruct (decide (e = c_epoch c)) as [->|Hne]; [|by rewrite lookup_insert_ne].
        destruct Ec as [Ec|Ec]; [apply bool_decide_eq_false in Ec; congruence|lia].
      * intros e' d He. apply lookup_insert_Some in He as [[<- _]|[_ He]]; [by eapply ci_epoch0|by eapply ci_epoch0].
      * intros g Hg. destruct (ci_generation0 g Hg) as (f & s & Hf). exists f, s. cbn. rewrite lookup_insert_ne; [done|]. congruence.
      * intros g Ho. destruct (ci_open0 g Ho) as [?|[?|Hd]]; [by left|right; left; destruct ok; set_solver|].
        destruct (decide (g = e)) as [->|Hne]; [right; left; rewrite Ee in Hd; simplify_eq; set_solver|]. right. right. by rewrite lookup_insert_ne.
      * done.
  - split; cbn; try done.
    + intros g' Hg'. case_bool_decide; [done|]. by apply ci_generation0.
    + intros g' Ho. destruct (ci_open0 g' Ho) as [Hg|[?|?]]; [|right; left; set_solver|by right; right]. case_bool_decide as Hb; [|by left].
      right. left. assert (g' = g) by congruence. set_solver.
    + case_bool_decide; [done|]. done.
  - split; cbn; try done.
    + intros e d He. specialize (ci_epoch0 _ _ He). lia.
    + intros g Ho. destruct (ci_open0 g Ho) as [Hg|[?|?]]; [|right; left; destruct (c_generation c); set_solver|by right; right].
      rewrite Hg. right. left. set_solver.
  - split; cbn; try done. intros g' Ho. apply elem_of_difference in Ho as [Ho Hne]. destruct (ci_open0 g' Ho) as [?|[Hc|?]]; [by left| |by right; right].
    right. left. rewrite H in Hc. set_solver.
  - split; cbn; try done.
Qed.

Lemma new_control_inv : control_inv new_control.
Proof. split; cbn; try done; intros; set_solver. Qed.

(** Dials started after a reset have a later epoch. *)
Definition fresh_after (n : Z) (c : control) : Prop :=
  n <= c_epoch c /\ (forall g, c_generation c = Some g -> n < g) /\ (forall e, c_dial c = Some e -> n < e).

Lemma fresh_after_step n c c' : fresh_after n c -> control_step c c' -> fresh_after n c'.
Proof.
  intros (H1 & H2 & H3) Hst. destruct Hst as [c|c e ok c' H|c e c' H|c g H|c|c g before after H|c g].
  - unfold acquireControlQUICGeneration_pass. destruct (c_generation c) as [g|] eqn:Eg; [case_bool_decide|]; try (by split; rewrite ?Eg);
      destruct (c_dial c) as [e|] eqn:Ed; (split; [cbn; lia|]); (split; [cbn; intros; simplify_eq; auto; congruence|cbn; intros; simplify_eq; try lia; auto]).
  - unfold dial_returns in H. destruct (c_dials c !! e) as [[| |]|]; try done. by simplify_eq.
  - unfold dial_publishes, is_current in H. destruct (c_dials c !! e) as [[|ok|]|]; try done.
    destruct (bool_decide (c_dial c = Some e) && _) eqn:E; injection H as <-; [|done]. bool_to_prop. apply bool_decide_eq_true in H.
    split; [done|]. cbn. split; [|done]. intros g Hg. destruct ok; [|by apply H2]. simplify_eq. by apply H3.
  - split; [done|]. cbn. split; [|done]. intros g' Hg. case_bool_decide; [done|]. by apply H2.
  - split; [cbn; lia|]. done.
  - done.
  - done.
Qed.

(** C25: the flows of a client share one control connection.  Under any interleaving
    of callers, dials, failures and resets, every generation this client has open is
    the current one, is about to be closed by the goroutine that took it out, or has
    not been published, so two published generations are never both in use and none
    is leaked; and once the path is reset, no connection whose dial began before the
    reset is ever published. *)
Theorem one_shared_generation c :
  steps control_step new_control c ->
  (forall g, g ∈ c_open c -> published c g -> g ∉ c_closing c -> c_generation c = Some g) /\
  (forall c' g, steps control_step (closeControlQUICPool c) c' -> c_generation c' = Some g -> c_epoch c < g).
Proof.
  intros Hs. pose proof (steps_invariant _ control_inv control_inv_step _ _ new_control_inv Hs) as Hi. split.
  - intros g Ho (f & s & Hp) Hn. destruct (ci_open _ Hi g Ho) as [?|[?|?]]; [done|done|congruence].
  - intros c' g Hs' Hg. assert (Hf : fresh_after (c_epoch c + 1) c').
    { refine (steps_invariant _ (fresh_after (c_epoch c + 1)) (fresh_after_step _) _ _ _ Hs'). split; [cbn; lia|]. done. }
    destruct Hf as (_ & H & _). specialize (H g Hg). lia.
Qed.

(** A dial is reset while it is under way and another takes its place: only the second
    is published, and the first one's connection is closed. *)
Lemma one_shared_generation_witness : exists c,
  steps control_step new_control c /\ c_generation c = Some 3 /\ c_open c = {[3]} /\
  (forall g, g ∈ c_open c -> published c g -> g ∉ c_closing c -> c_generation c = Some g).
Proof.
  pose (c1 := snd (acquireControlQUICGeneration_pass new_control)). pose (c2 := default c1 (dial_returns c1 1 true)).
  pose (c3 := closeControlQUICPool c2). pose (c4 := snd (acquireControlQUICGeneration_pass c3)).
  pose (c5 := default c4 (dial_publishes c4 1)). pose (c6 := default c5 (dial_returns c5 3 true)).
  pose (c7 := default c6 (dial_publishes c6 3)). pose (c8 := close_generation c7 1 [] []).
  assert (Hs : steps control_step new_control c8).
  { apply (steps_cons _ _ c1); [apply cs_acquire|]. apply (steps_cons _ _ c2); [apply (cs_returns c1 1 true); vm_compute; reflexivity|].
    apply (steps_cons _ _ c3); [apply cs_reset|]. apply (steps_cons _ _ c4); [apply cs_acquire|].
    apply (steps_cons _ _ c5); [apply (cs_publishes c4 1); vm_compute; reflexivity|].
    apply (steps_cons _ _ c6); [apply (cs_returns c5 3 true); vm_compute; reflexivity|].
    apply (steps_cons _ _ c7); [apply (cs_publishes c6 3); vm_compute; reflexivity|].
    apply steps_one. apply cs_close. vm_compute. reflexivity. }
  exists c8. split; [exact Hs|]. split; [vm_compute; reflexivity|]. split; [vm_compute; reflexivity|].
  apply (one_shared_generation c8 Hs).
Defined.

(** ** Secondary connections: the theorems *)

Record bulk_inv (max : Z) (b : bulk) : Prop := mk_bulk_inv {
  bi_pool : NoDup (bulkConns b);
  bi_usable : forall i, i ∈ bulkConns b -> i < b_fresh b /\ b_closed (entry b i) = false;
  bi_busy : forall i, busy b i = true <-> i ∈ b_held b;
  bi_held : NoDup (b_held b);
  bi_fresh : forall i, i ∈ b_held b -> i < b_fresh b;
  bi_max : len (bulkConns b) <= max
}.

Lemma entry_insert b i x j : default (mkBulkConn false false false) (<[i := x]> (b_store b) !! j) = if j =? i then x else entry b j.
Proof. destruct (j =? i) eqn:E; [assert (j = i) as -> by lia; by rewrite lookup_insert_eq|by rewrite lookup_insert_ne by lia]. Qed.

(** Closing connections changes neither the pool, nor who holds what. *)
Lemma close_entries_spec l b :
  bulkConns (close_entries b l) = bulkConns b /\ b_held (close_entries b l) = b_held b /\ b_fresh (close_entries b l) = b_fresh b /\
  bulkDialing (close_entries b l) = bulkDialing b /\
  (forall i, busy (close_entries b l) i = busy b i) /\ (forall i, i ∉ l -> entry (close_entries b l) i = entry b i) /\
  (forall i, alive (close_entries b l) i = true <-> alive b i = true /\ i ∉ l).
Proof.
  revert b. induction l as [|x l IH]; intros b; cbn [close_entries fold_left].
  { repeat split; try done; [set_solver|tauto]. }
  destruct (IH (close_entry b x)) as (H1 & H2 & H3 & H4 & H5 & H6 & H7). unfold close_entries in *.
  assert (He : forall j, entry (close_entry b x) j = if j =? x then mkBulkConn (busy b x) false true else entry b j) by (intros j; apply entry_insert).
  split; [by rewrite H1|]. split; [by rewrite H2|]. split; [by rewrite H3|]. split; [by rewrite H4|]. split; [|split].
  - intros i. rewrite H5. unfold busy at 1. rewrite He. destruct (i =? x) eqn:E; [|done]. by assert (i = x) as -> by lia.
  - intros i Hi. apply not_elem_of_cons in Hi as [Hx Hi]. rewrite H6, He by done. by replace (i =? x) with false by lia.
  - intros i. rewrite H7. unfold alive. cbn [close_entry b_alive]. rewrite !bool_decide_eq_true. set_solver.
Qed.

(** An operation that takes connections out of the pool and closes them. *)
Lemma bulk_inv_drop max b l out :
  bulk_inv max b -> sublist l (bulkConns b) -> (forall i, i ∈ l -> i ∉ out) -> bulk_inv max (close_entries (with_conns b l) out).
Proof.
  intros [] Hsub Hout. destruct (close_entries_spec out (with_conns b l)) as (H1 & H2 & H3 & _ & H5 & H6 & _).
  assert (Hin : forall i, i ∈ l -> i ∈ bulkConns b) by (intros i Hi; by eapply elem_of_sublist).
  split; rewrite ?H1, ?H2, ?H3; cbn [bulkConns b_held b_fresh with_conns]; try done.
  - apply (sublist_NoDup _ _ bi_pool0 Hsub).
  - intros i Hi. rewrite H6 by auto. by apply bi_usable0, Hin.
  - intros i. rewrite H5. apply bi_busy0.
  - apply sublist_length in Hsub. unfold len in *. lia.
Qed.

Lemma sublist_filter_conns (P : Z -> Prop) `{forall i, Decision (P i)} (l : list Z) : sublist (filter P l) l.
Proof. induction l as [|x l IH]; [constructor|]. rewrite filter_cons. case_decide; by constructor. Qed.

Lemma prune_bulk_inv max b : bulk_inv max b -> bulk_inv max (prune_bulk b).
Proof.
  intros Hi. apply bulk_inv_drop; [done|apply sublist_filter_conns|]. intros i H1 H2.
  apply list_elem_of_filter in H1 as [H1 _], H2 as [H2 _]. congruence.
Qed.

Lemma grant_inv max b i x :
  bulk_inv max b -> busy b i = false -> b_closed x = b_closed (entry b i) -> b_busy x = true -> i < b_fresh b ->
  bulk_inv max (with_held (with_entry b i x) (i :: b_held b)).
Proof.
  intros [] Hb Hc Hx Hf. assert (He : forall j, entry (with_held (with_entry b i x) (i :: b_held b)) j = if j =? i then x else entry b j) by (intros j; apply entry_insert).
  split; cbn [bulkConns b_held b_fresh with_held with_entry]; try done.
  - intros j Hj. rewrite He. destruct (bi_usable0 j Hj). destruct (j =? i) eqn:E; [|done]. assert (j = i) as -> by lia. by rewrite Hc.
  - intros j. unfold busy. rewrite He, elem_of_cons. destruct (j =? i) eqn:E; [rewrite Hx; split; [left; lia|done]|].
    fold (busy b j). rewrite bi_busy0. split; [by right|]. intros [->|?]; [lia|done].
  - constructor; [|done]. intros Hin. apply bi_busy0 in Hin. congruence.
  - intros j Hj. apply elem_of_cons in Hj as [->|Hj]; [done|by apply bi_fresh0].
Qed.

Lemma idle_found b i : List.find (fun i => negb (busy b i) && alive b i) (bulkConns b) = Some i -> i ∈ bulkConns b /\ busy b i = false /\ alive b i = true.
Proof.
  intros H. apply List.find_some in H as [H1 H2]. apply list_elem_of_In in H1. bool_to_prop. by destruct (busy b i).
Qed.

Lemma begin_inv max ramp b : bulk_inv max b -> bulk_inv max (snd (reserveBulkConn_begin max ramp b)).
Proof.
  intros Hi. apply prune_bulk_inv in Hi. unfold reserveBulkConn_begin. cbv zeta. destruct (ramp && existsb _ _); [done|].
  destruct (List.find _ _) as [i|] eqn:Ef.
  - apply idle_found in Ef as (H1 & H2 & H3). apply grant_inv; [done|done|done|done|]. by apply (bi_usable _ _ Hi).
  - destruct (_ >=? _); [done|]. destruct (ramp && _); [done|]. destruct ramp; [|done]. destruct Hi. by split.
Qed.

Lemma bulk_limit_max max ramp : 0 <= max -> 0 <= bulk_limit max ramp <= max.
Proof. unfold bulk_limit, proactiveBulkConnections. destruct ramp; cbn; [|lia]. destruct (max >? 1) eqn:E; lia. Qed.

(** The connection a dial brings is known to nobody else. *)
Lemma dialled_inv max b : bulk_inv max b ->
  bulk_inv max (mkBulk (bulkConns b) (<[b_fresh b := mkBulkConn false false false]> (b_store b)) ({[b_fresh b]} ∪ b_alive b) (bulkDialing b) (b_fresh b + 1) (b_held b)).
Proof.
  intros []. split; cbn [bulkConns b_held b_fresh]; try done.
  - intros i Hi. destruct (bi_usable0 i Hi) as [H1 H2]. split; [lia|]. unfold entry. cbn [b_store]. rewrite entry_insert. by destruct (i =? b_fresh b).
  - intros i. unfold busy, entry. cbn [b_store]. rewrite entry_insert. destruct (i =? b_fresh b) eqn:E; [|apply bi_busy0].
    cbn. split; [done|]. intros Hh. apply bi_fresh0 in Hh. lia.
  - intros i Hh. apply bi_fresh0 in Hh. lia.
Qed.

Lemma dialing_inv max b d : bulk_inv max b -> bulk_inv max (with_dialing b d).
Proof. intros []. by split. Qed.

Lemma pooled_inv max b i : bulk_inv max b -> i ∉ bulkConns b -> i < b_fresh b -> b_closed (entry b i) = false -> len (bulkConns b) < max ->
  bulk_inv max (with_conns b (bulkConns b ++ [i])).
Proof.
  intros [] Hn Hf Hc Hm. split; cbn [bulkConns b_held b_fresh with_conns]; try done.
  - apply NoDup_app. split; [done|]. split; [set_solver|apply NoDup_singleton].
  - intros j Hj. apply elem_of_app in Hj as [Hj|Hj]; [by apply bi_usable0|]. apply list_elem_of_singleton in Hj as ->. done.
  - rewrite len_app. unfold len in *. cbn [length]. lia.
Qed.

Lemma end_inv max ramp ok b : 0 <= max -> bulk_inv max b -> bulk_inv max (snd (reserveBulkConn_end (bulk_limit max ramp) ramp ok b)).
Proof.
  intros Hmax Hi. unfold reserveBulkConn_end. cbv zeta. set (b1 := if ramp then with_dialing b false else b).
  assert (Hi1 : bulk_inv max b1) by (unfold b1; destruct ramp; [by apply dialing_inv|done]). clearbody b1. clear Hi b.
  destruct ok; cbn [negb]; [|done]. apply dialled_inv in Hi1 as Hi2. set (b2 := mkBulk _ _ _ _ _ _) in *.
  assert (Hn : b_fresh b1 ∉ bulkConns b1) by (intros H; apply (bi_usable _ _ Hi1) in H; lia).
  assert (He : entry b2 (b_fresh b1) = mkBulkConn false false false) by (unfold entry, b2; cbn; by rewrite lookup_insert_eq).
  assert (Hf : b_fresh b1 < b_fresh b2) by (cbn; lia).
  change (bulkConns b2) with (bulkConns b1). destruct (_ >=? _) eqn:El; cbn [snd].
  - apply (bulk_inv_drop max b2 (bulkConns b2) [b_fresh b1]); [done|done|]. cbn. intros i H1 H2. apply list_elem_of_singleton in H2 as ->. done.
  - pose proof (bulk_limit_max max ramp Hmax).
    apply (pooled_inv max (with_held (with_entry b2 (b_fresh b1) (mkBulkConn true false false)) (b_fresh b1 :: b_held b2))); try done.
    + apply grant_inv; try done; unfold busy; by rewrite He.
    + unfold entry. cbn. by rewrite lookup_insert_eq.
    + cbn [bulkConns with_held with_entry]. change (bulkConns b2) with (bulkConns b1). lia.
Qed.

Lemma release_inv max b i dead : bulk_inv max b -> i ∈ b_held b -> bulk_inv max (releaseBulkConn (give_back b i) i dead).
Proof.
  intros Hi Hh. unfold releaseBulkConn. set (x := mkBulkConn false _ _).
  assert (Hk : forall t, bulk_inv max (with_entry (give_back b i) i (mkBulkConn false t (b_closed (entry b i))))).
  { intros t. destruct Hi. split; cbn [bulkConns b_held b_fresh with_entry give_back with_held]; try done.
    - intros j Hj. unfold entry at 1. cbn [b_store with_entry give_back with_held]. rewrite entry_insert. destruct (bi_usable0 j Hj). destruct (j =? i) eqn:E; [|done].
      by assert (j = i) as -> by lia.
    - intros j. unfold busy, entry at 1. cbn [b_store with_entry give_back with_held]. rewrite entry_insert, list_elem_of_filter. destruct (j =? i) eqn:E; [cbn; split; [done|]; intros [H _]; lia|].
      fold (busy b j). rewrite bi_busy0. split; [intros; split; [lia|done]|by intros [_ ?]].
    - by apply NoDup_filter.
    - intros j Hj. apply list_elem_of_filter in Hj as [_ Hj]. by apply bi_fresh0. }
  destruct dead.
  - apply (bulk_inv_drop max (with_entry (give_back b i) i x) _ [i]); [apply Hk|apply sublist_filter_conns|].
    intros j Hj. apply list_elem_of_filter in Hj as [Hj _]. rewrite list_elem_of_singleton. done.
  - set (y := mkBulkConn false true _). replace (with_entry (with_entry (give_back b i) i x) i y) with (with_entry (give_back b i) i y)
      by (unfold with_entry; cbn; by rewrite insert_insert_eq).
    unfold y. unfold entry. cbn [b_store with_entry]. rewrite lookup_insert_eq. apply Hk.
Qed.

Lemma bulk_inv_step max b b' : 0 <= max -> bulk_inv max b -> bulk_step max b b' -> bulk_inv max b'.
Proof.
  intros Hmax Hi Hst. destruct Hst as [b ramp|b ramp ok|b i dead Hh|b i|b|b i];
    [by apply begin_inv|by apply end_inv|by apply release_inv| | |].
  - unfold expireBulkConn. destruct (busy b i) eqn:Eb; [done|]. case_bool_decide; [|done].
    apply (bulk_inv_drop max b _ [i]); [done|apply sublist_filter_conns|]. intros j Hj. apply list_elem_of_filter in Hj as [Hj _].
    rewrite list_elem_of_singleton. done.
  - apply bulk_inv_drop; [done|apply sublist_nil_l|set_solver].
  - destruct Hi. by split.
Qed.

Lemma new_bulk_inv max : 0 <= max -> bulk_inv max new_bulk.
Proof. intros. split; cbn; try constructor; set_solver. Qed.

(** C24: a secondary connection carries one lane.  Under any interleaving of lanes that
    ask, dials, lanes that close, idle timers, dying connections and path resets, the
    pool never exceeds its limit and no connection is held by two lanes; one granted
    from the pool was held by nobody, is alive and has not been closed, one granted
    after a dial is new; and when a flow asks while the path is healthy, the one it
    gets is the only one in use. *)
Theorem bulk_pool_exclusive max b :
  0 <= max -> steps (bulk_step max) new_bulk b ->
  len (bulkConns b) <= max /\ NoDup (b_held b) /\
  (forall ramp i b', reserveBulkConn_begin max ramp b = (Granted i, b') ->
     i ∉ b_held b /\ b_held b' = (i :: b_held b) /\ alive b i = true /\ b_closed (entry b' i) = false /\
     (ramp = true -> forall j, j ∈ bulkConns b' -> busy b' j = true -> j = i)) /\
  (forall limit ramp ok i b', reserveBulkConn_end limit ramp ok b = (Granted i, b') -> i ∉ b_held b /\ b_held b' = (i :: b_held b)).
Proof.
  intros Hmax Hs. pose proof (steps_invariant _ (bulk_inv max) (fun b b' H => bulk_inv_step max b b' Hmax H) _ _ (new_bulk_inv max Hmax) Hs) as Hi.
  split; [apply (bi_max _ _ Hi)|]. split; [apply (bi_held _ _ Hi)|]. split.
  - intros ramp i b' H. pose proof (prune_bulk_inv max b Hi) as Hp. unfold reserveBulkConn_begin in H. cbv zeta in H.
    destruct (close_entries_spec (filter (fun i => stale b i = true) (bulkConns b)) (with_conns b (filter (fun i => stale b i = false) (bulkConns b))))
      as (_ & Hh & _ & _ & _ & _ & Ha). fold (prune_bulk b) in Hh, Ha. cbn [with_conns b_held] in Hh.
    destruct (ramp && existsb (busy (prune_bulk b)) _) eqn:Er; [done|]. destruct (List.find _ _) as [i'|] eqn:Ef; [|repeat case_match; done].
    injection H as -> <-. apply idle_found in Ef as (H1 & H2 & H3). split.
    { intros Hin. rewrite <- Hh in Hin. apply (bi_busy _ _ Hp) in Hin. congruence. }
    split; [by cbn; rewrite Hh|]. split; [by apply Ha in H3 as [H3 _]|].
    split; [unfold entry; cbn; rewrite lookup_insert_eq; by apply (bi_usable _ _ Hp)|].
    intros -> j Hj. unfold busy, entry. cbn [b_store with_held with_entry]. rewrite entry_insert. destruct (j =? i) eqn:E; [lia|].
    intros Hb. cbn in Er. exfalso. assert (existsb (busy (prune_bulk b)) (bulkConns (prune_bulk b)) = true); [|congruence].
    apply List.existsb_exists. exists j. split; [by apply list_elem_of_In|done].
  - intros limit ramp ok i b' H. unfold reserveBulkConn_end in H. destruct ok; cbn [negb] in H; [|by destruct ramp].
    assert (Hf : b_fresh b ∉ b_held b) by (intros Hin; apply (bi_fresh _ _ Hi) in Hin; lia).
    destruct ramp; cbn in H; destruct (_ >=? _) in H; simplify_eq; done.
Qed.

(** One lane dials and closes; the next takes the idle connection over. *)
Lemma bulk_pool_exclusive_witness : exists b b',
  steps (bulk_step 8) new_bulk b /\ reserveBulkConn_begin 8 true b = (Granted 0, b') /\ alive b 0 = true /\ b_held b' = [0].
Proof.
  pose (b1 := snd (reserveBulkConn_begin 8 true new_bulk)). pose (b2 := snd (reserveBulkConn_end (bulk_limit 8 true) true true b1)).
  pose (b3 := releaseBulkConn (give_back b2 0) 0 false).
  assert (Hs : steps (bulk_step 8) new_bulk b3).
  { apply (steps_cons _ _ b1); [apply bs_begin|]. apply (steps_cons _ _ b2); [apply bs_end|]. apply steps_one. apply bs_release. vm_compute. left. }
  destruct (bulk_pool_exclusive 8 b3 ltac:(lia) Hs) as (_ & _ & H & _).
  exists b3, (snd (reserveBulkConn_begin 8 true b3)).
  assert (He : reserveBulkConn_begin 8 true b3 = (Granted 0, snd (reserveBulkConn_begin 8 true b3))) by (vm_compute; reflexivity).
  split; [exact Hs|]. split; [exact He|]. destruct (H true 0 _ He) as (_ & H1 & H2 & _). split; [exact H2|]. rewrite H1. vm_compute. reflexivity.
Defined.

(** A dial under way when the path is reset is not told: its connection, begun on the
    path that is gone, joins the pool the reset emptied and is handed out again,
    where the control connection's dial is cancelled by its epoch. *)
Lemma bulk_dial_survives_reset max b : 2 <= max -> bulkConns b = [] -> bulkDialing b = false -> b_fresh b ∉ b_held b ->
  let asked := reserveBulkConn_begin max true b in
  let done_ := reserveBulkConn_end (bulk_limit max true) true true (closeBulkQUICPool (snd asked)) in
  fst asked = MustDial 1 /\ fst done_ = Granted (b_fresh b) /\ bulkConns (snd done_) = [b_fresh b].
Proof.
  intros Hm He Hd Hn. cbv zeta. unfold reserveBulkConn_begin, prune_bulk, bulk_limit. rewrite He. cbn. unfold proactiveBulkConnections.
  replace (max >? 1) with true by lia. cbn. rewrite Hd. cbn. done.
Qed.
