(* ===== verification/GoFloat.v ===== *)
(** Go's [float64]: IEEE 754 binary64 with rounding to nearest, ties to even, as the
    specification of floating-point numbers of the standard library computes it.
    Every operation is executable; numbers are compared by their values.  A conversion
    to an integer type truncates where the result fits; what it gives otherwise Go
    leaves to the machine, so conversions are an interface, [FloatConv], with the
    saturating ones of one architecture as its instance. *)
From stdpp Require Import base.
From Stdlib Require Import SpecFloat.
From S2P Require Import Prelude.
Open Scope Z_scope.

Definition float64 : Type := spec_float.

Definition prec : Z := 53.
Definition emax : Z := 1024.

(** [float64(n)] for an integer [n]. *)
Definition float_of (n : Z) : float64 := binary_normalize prec emax n 0 false.

(** A decimal constant [n / d] of the source, rounded once. *)
Definition float_quot (n d : Z) : float64 := SFdiv prec emax (float_of n) (float_of d).

Definition fadd (x y : float64) : float64 := SFadd prec emax x y.
Definition fsub (x y : float64) : float64 := SFsub prec emax x y.
Definition fmul (x y : float64) : float64 := SFmul prec emax x y.
Definition fdiv (x y : float64) : float64 := SFdiv prec emax x y.

(** [math.Sqrt] and [math.Abs]. *)
Definition fsqrt (x : float64) : float64 := SFsqrt prec emax x.
Definition fabs (x : float64) : float64 := SFabs x.

(** The signed mantissa and the exponent of a finite number. *)
Definition fparts (x : float64) : option (Z * Z) :=
  match x with
  | S754_zero _ => Some (0, 0)
  | S754_finite s m e => Some (cond_Zopp s (Zpos m), e)
  | _ => None
  end.

(** The two values in units of 2^k. *)
Definition scaled (k : Z) (p : Z * Z) : Z := fst p * 2 ^ (snd p - k).

(** The order of two numbers; none with a NaN. *)
Definition fcompare (x y : float64) : option comparison :=
  match x, y with
  | S754_nan, _ | _, S754_nan => None
  | S754_infinity s, S754_infinity t => Some (if s then (if t then Eq else Lt) else (if t then Gt else Eq))
  | S754_infinity s, _ => Some (if s then Lt else Gt)
  | _, S754_infinity t => Some (if t then Gt else Lt)
  | _, _ =>
      match fparts x, fparts y with
      | Some a, Some b => let k := Z.min (snd a) (snd b) in Some (scaled k a ?= scaled k b)
      | _, _ => None
      end
  end.

Definition fltb (x y : float64) : bool := match fcompare x y with Some Lt => true | _ => false end.
Definition fleb (x y : float64) : bool := match fcompare x y with Some (Lt | Eq) => true | _ => false end.
Definition feqb (x y : float64) : bool := match fcompare x y with Some Eq => true | _ => false end.

(** [math.IsNaN] and [math.IsInf(x, 0)]. *)
Definition IsNaN (x : float64) : bool := match x with S754_nan => true | _ => false end.
Definition IsInf (x : float64) : bool := match x with S754_infinity _ => true | _ => false end.

(** [time.Duration.Seconds]. *)
Definition Seconds (d : Z) : float64 :=
  fadd (float_of (Z.quot d 1000000000)) (fdiv (float_of (Z.rem d 1000000000)) (float_of 1000000000)).

(** The integer part of a finite number. *)
Definition ftrunc (x : float64) : option Z :=
  match x with
  | S754_zero _ => Some 0
  | S754_finite s m e => Some ((if s then -1 else 1) * (if 0 <=? e then Zpos m * 2 ^ e else Zpos m / 2 ^ (- e)))
  | _ => None
  end.

Example seconds_exact : Seconds 1500000000 = fdiv (float_of 3) (float_of 2).
Proof. vm_compute. reflexivity. Qed.
Example tenth_rounds : feqb (fadd (float_quot 1 10) (float_quot 2 10)) (float_quot 3 10) = false.
Proof. vm_compute. reflexivity. Qed.

(** ** Conversions to integers *)

(** [int64(x)] and [uint64(x)]: some number of the type, and the truncation where it fits. *)
Class FloatConv := {
  int64_of : float64 -> Z;
  uint64_of : float64 -> Z;
  int64_of_range x : - 2 ^ 63 <= int64_of x < 2 ^ 63;
  uint64_of_range x : 0 <= uint64_of x < 2 ^ 64;
  int64_of_trunc x n : ftrunc x = Some n -> - 2 ^ 63 <= n < 2 ^ 63 -> int64_of x = n;
  uint64_of_trunc x n : ftrunc x = Some n -> 0 <= n < 2 ^ 64 -> uint64_of x = n
}.

(** A conversion that saturates, a NaN giving zero, as arm64 converts. *)
Definition saturate (lo hi : Z) (x : float64) : Z :=
  match x with
  | S754_infinity s => if s then lo else hi
  | _ => match ftrunc x with Some n => Z.max lo (Z.min n hi) | None => 0 end
  end.

Lemma saturate_range lo hi x : lo <= 0 <= hi -> lo <= saturate lo hi x <= hi.
Proof. intros H. unfold saturate. destruct x as [s|s| |s m e]; simpl; try destruct s; lia. Qed.

Lemma saturate_trunc lo hi x n : ftrunc x = Some n -> lo <= n <= hi -> saturate lo hi x = n.
Proof. intros Hn H. unfold saturate. rewrite Hn. destruct x; simpl in *; try discriminate; lia. Qed.

#[export] Instance saturating_conv : FloatConv.
Proof.
  refine (Build_FloatConv (saturate (- 2 ^ 63) (2 ^ 63 - 1)) (saturate 0 (2 ^ 64 - 1)) _ _ _ _).
  - intros x. pose proof (saturate_range (- 2 ^ 63) (2 ^ 63 - 1) x). lia.
  - intros x. pose proof (saturate_range 0 (2 ^ 64 - 1) x). lia.
  - intros x n Hn H. apply saturate_trunc; [done|lia].
  - intros x n Hn H. apply saturate_trunc; [done|lia].
Defined.

(** ** Integers as floating-point numbers *)

Lemma digits2_spec p : 2 ^ (Zpos (digits2_pos p) - 1) <= Zpos p < 2 ^ Zpos (digits2_pos p).
Proof.
  induction p as [p IH|p IH|]; simpl digits2_pos; [| |done].
  all: rewrite Pos2Z.inj_succ; replace (Z.succ (Zpos (digits2_pos p)) - 1) with (1 + (Zpos (digits2_pos p) - 1)) by lia;
    rewrite Z.pow_add_r, Z.pow_succ_r by lia; lia.
Qed.

Lemma digits2_unique p d : 0 <= d -> 2 ^ d <= Zpos p < 2 ^ (d + 1) -> Zpos (digits2_pos p) = d + 1.
Proof.
  intros Hd [Hl Hu]. pose proof (digits2_spec p) as [Gl Gu].
  assert (Zpos (digits2_pos p) - 1 < d + 1) by (apply (Z.pow_lt_mono_r_iff 2); lia).
  assert (d < Zpos (digits2_pos p)) by (apply (Z.pow_lt_mono_r_iff 2); lia). lia.
Qed.

Lemma iter_xO p d : Zpos (Pos.iter xO p d) = Zpos p * 2 ^ Zpos d.
Proof.
  induction d as [|d IH] using Pos.peano_ind; [simpl; lia|].
  rewrite Pos.iter_succ, Pos2Z.inj_succ, Z.pow_succ_r by lia. lia.
Qed.

(** A mantissa of exactly 53 bits is not rounded. *)
Lemma round_full s m e : Zpos (digits2_pos m) = prec -> -1074 <= e <= 971 ->
  binary_round_aux prec emax s (Zpos m) e loc_Exact = S754_finite s m e.
Proof.
  intros Hm He. unfold binary_round_aux, shr_fexp. simpl Zdigits2. rewrite Hm.
  assert (fexp prec emax (prec + e) - e = 0) as Hf by (unfold fexp, emin, prec, emax; lia).
  rewrite Hf. simpl. rewrite Hm, Hf. simpl.
  assert ((e <=? emax - prec) = true) as -> by (unfold emax, prec; lia). done.
Qed.

(** [float_of_exact]: an integer below 2^53 is represented without rounding. *)
Lemma float_of_exact n : 0 <= n < 2 ^ 53 ->
  exists m e, fparts (float_of n) = Some (m, e) /\ -1074 <= e <= 0 /\ m = n * 2 ^ (- e).
Proof.
  intros Hn. destruct n as [|p|p]; [by exists 0, 0|  |lia].
  unfold float_of, binary_normalize, binary_round. pose proof (digits2_spec p) as [Hl Hu].
  set (d := Zpos (digits2_pos p)) in *.
  assert (d - 1 < 53) by (apply (Z.pow_lt_mono_r_iff 2); lia). assert (1 <= d) by (unfold d; lia).
  assert (fexp prec emax (d + 0) = d - 53) as Hf by (unfold fexp, emin, prec, emax; lia). rewrite Hf.
  unfold shl_align. destruct (d - 53 - 0) as [|q|q] eqn:Hq; [|lia|].
  - rewrite round_full by (unfold prec; fold d; lia). exists (Zpos p), 0. split_and!; [done|lia..].
  - pose proof (iter_xO p q) as Hm. assert (Zpos q = 53 - d) as Hq' by lia.
    rewrite round_full; [|apply (digits2_unique _ 52); [lia|]|lia].
    + simpl. eexists _, _. split_and!; [done|lia..|]. rewrite Hm. f_equal. f_equal. lia.
    + rewrite Hm, Hq'. pose proof (Z.pow_pos_nonneg 2 (53 - d)).
      assert (2 ^ 52 = 2 ^ (d - 1) * 2 ^ (53 - d)) as -> by (rewrite <- Z.pow_add_r by lia; f_equal; lia).
      assert (2 ^ (52 + 1) = 2 ^ d * 2 ^ (53 - d)) as -> by (rewrite <- Z.pow_add_r by lia; f_equal; lia). nia.
Qed.

Lemma float_of_trunc n : 0 <= n < 2 ^ 53 -> ftrunc (float_of n) = Some n.
Proof.
  intros Hn. destruct (float_of_exact n Hn) as (m & e & Hp & He & Hm).
  destruct (float_of n) as [s|s| |s p q] eqn:Hx; simpl in *; try discriminate; injection Hp as <- <-.
  - f_equal. pose proof (Z.pow_pos_nonneg 2 0). lia.
  - assert (0 < 2 ^ (- q)) by lia. destruct s; simpl in *; [nia|]. rewrite Hm. f_equal.
    destruct (Z.leb_spec 0 q); [replace q with 0 by lia; simpl; lia|]. rewrite Z.div_mul by lia. lia.
Qed.

(** ** Comparisons with integers bound the truncation *)

Lemma ftrunc_parts x m e : fparts x = Some (m, e) ->
  ftrunc x = Some (if 0 <=? e then m * 2 ^ e else Z.quot m (2 ^ (- e))).
Proof.
  destruct x as [s|s| |s p q]; simpl; intros Hp; try discriminate; injection Hp as <- <-; [done|]. f_equal.
  destruct (Z.leb_spec 0 q); [destruct s; simpl; lia|]. assert (0 < 2 ^ (- q)) by lia.
  rewrite <- (Z.quot_div_nonneg (Zpos p)) by lia. destruct s; simpl cond_Zopp; [|lia].
  rewrite Z.quot_opp_l by lia. lia.
Qed.

(** The value of a number against an integer, without fractions. *)
Lemma compare_int_parts n m e k : k <= e -> k <= 0 ->
  (scaled k (m, e) ?= n * 2 ^ (- k)) = (if 0 <=? e then (m * 2 ^ e ?= n) else (m ?= n * 2 ^ (- e))).
Proof.
  intros He Hk. unfold scaled. simpl fst; simpl snd. assert (0 < 2 ^ (- k)) by lia.
  destruct (Z.leb_spec 0 e).
  - replace (e - k) with (e + - k) by lia. rewrite Z.pow_add_r, Z.mul_assoc by lia. symmetry. apply Zmult_compare_compat_r. lia.
  - replace (- k) with (- e + (e - k)) by lia. rewrite (Z.pow_add_r 2 (- e)), Z.mul_assoc by lia.
    rewrite <- Zmult_compare_compat_r; [done|]. assert (0 < 2 ^ (e - k)) by (apply Z.pow_pos_nonneg; lia). lia.
Qed.

Lemma fcompare_parts x y a b : fparts x = Some a -> fparts y = Some b ->
  fcompare x y = Some (scaled (Z.min (snd a) (snd b)) a ?= scaled (Z.min (snd a) (snd b)) b).
Proof. destruct x, y; simpl; intros Hx Hy; try discriminate; by simplify_eq. Qed.

Lemma fcompare_int x n m e : 0 <= n < 2 ^ 53 -> fparts x = Some (m, e) ->
  fcompare x (float_of n) = Some (if 0 <=? e then (m * 2 ^ e ?= n) else (m ?= n * 2 ^ (- e))).
Proof.
  intros Hn Hx. destruct (float_of_exact n Hn) as (m' & e' & Hp & He & Hm).
  rewrite (fcompare_parts _ _ _ _ Hx Hp). simpl snd. f_equal. set (k := Z.min e e').
  assert (scaled k (m', e') = n * 2 ^ (- k)) as ->; [|apply compare_int_parts; lia].
  unfold scaled. simpl. rewrite Hm, <- Z.mul_assoc, <- Z.pow_add_r by lia. f_equal. f_equal. lia.
Qed.

Lemma fcompare_sym x y : fcompare y x = CompOpp <$> fcompare x y.
Proof.
  destruct (fparts x) as [a|] eqn:Ha, (fparts y) as [b|] eqn:Hb.
  - rewrite (fcompare_parts _ _ _ _ Ha Hb), (fcompare_parts _ _ _ _ Hb Ha). cbn [fmap option_fmap option_map].
    by rewrite Z.compare_antisym, Z.min_comm.
  - destruct x, y as [t|[]| |]; simplify_eq/=; done.
  - destruct x as [s|[]| |], y; simplify_eq/=; done.
  - destruct x as [s|[]| |], y as [t|[]| |]; simplify_eq/=; done.
Qed.

(** A number not above the integer [n] truncates to at most [n]. *)
Lemma ftrunc_le x n t : 0 <= n < 2 ^ 53 -> fltb (float_of n) x = false -> ftrunc x = Some t -> t <= n.
Proof.
  intros Hn Hlt Ht. destruct (fparts x) as [[m e]|] eqn:Hp; [|destruct x; discriminate].
  rewrite (ftrunc_parts x m e Hp) in Ht. injection Ht as <-. unfold fltb in Hlt.
  rewrite fcompare_sym, (fcompare_int x n m e Hn Hp) in Hlt. simpl in Hlt.
  destruct (Z.leb_spec 0 e).
  - destruct (Z.compare_spec (m * 2 ^ e) n); simpl in Hlt; [lia|lia|done].
  - assert (0 < 2 ^ (- e)) by lia. assert (m <= n * 2 ^ (- e)).
    { destruct (Z.compare_spec m (n * 2 ^ (- e))); simpl in Hlt; [lia|lia|done]. }
    rewrite <- (Z.quot_mul n (2 ^ (- e))) by lia. by apply Z.quot_le_mono; lia.
Qed.

(** A number not below the integer [n] truncates to at least [n]. *)
Lemma ftrunc_ge x n t : 0 <= n < 2 ^ 53 -> fltb x (float_of n) = false -> ftrunc x = Some t -> n <= t.
Proof.
  intros Hn Hlt Ht. destruct (fparts x) as [[m e]|] eqn:Hp; [|destruct x; discriminate].
  rewrite (ftrunc_parts x m e Hp) in Ht. injection Ht as <-. unfold fltb in Hlt.
  rewrite (fcompare_int x n m e Hn Hp) in Hlt. destruct (Z.leb_spec 0 e).
  - destruct (Z.compare_spec (m * 2 ^ e) n); simpl in Hlt; [lia|done|lia].
  - assert (0 < 2 ^ (- e)) by lia. assert (n * 2 ^ (- e) <= m).
    { destruct (Z.compare_spec m (n * 2 ^ (- e))); simpl in Hlt; [lia|done|lia]. }
    rewrite <- (Z.quot_mul n (2 ^ (- e))) by lia. by apply Z.quot_le_mono; lia.
Qed.

Lemma finite_trunc x : IsNaN x = false -> IsInf x = false -> exists t, ftrunc x = Some t.
Proof. destruct x; simpl; intros; try discriminate; by eexists. Qed.

(** ** Operations that give a number *)

Lemma shr_1_nonneg r : 0 <= shr_m r -> 0 <= shr_m (shr_1 r).
Proof. destruct r as [[|[p|p|]|[p|p|]] b c]; simpl; lia. Qed.

Lemma iter_shr_nonneg n : forall r, 0 <= shr_m r -> 0 <= shr_m (SpecFloat.iter_pos shr_1 n r).
Proof. induction n; simpl; intros r Hr; eauto using shr_1_nonneg. Qed.

Lemma shr_fexp_nonneg m e l : 0 <= m -> 0 <= shr_m (fst (shr_fexp prec emax m e l)).
Proof.
  intros Hm. unfold shr_fexp, shr.
  assert (0 <= shr_m (shr_record_of_loc m l)) by (destruct l as [|[]]; done).
  destruct (_ - e); simpl; [done|by apply iter_shr_nonneg|done].
Qed.

Lemma round_number s m e l : 0 <= m -> IsNaN (binary_round_aux prec emax s m e l) = false.
Proof.
  intros Hm. unfold binary_round_aux. pose proof (shr_fexp_nonneg m e l Hm) as H1.
  destruct (shr_fexp prec emax m e l) as [r1 e1]. simpl in H1.
  assert (0 <= round_nearest_even (shr_m r1) (loc_of_shr_record r1)) as H2.
  { unfold round_nearest_even. repeat case_match; lia. }
  pose proof (shr_fexp_nonneg _ e1 loc_Exact H2) as H3. destruct (shr_fexp _ _ _ e1 _) as [r2 e2]. simpl in H3.
  destruct (shr_m r2); [done| |lia]. by destruct (e2 <=? _).
Qed.

(** The product of two finite numbers is a number, perhaps infinite. *)
Lemma fmul_number x y : is_Some (fparts x) -> is_Some (fparts y) -> IsNaN (fmul x y) = false.
Proof.
  intros [a Ha] [b Hb]. destruct x, y; simpl in *; try discriminate; try done. by apply round_number.
Qed.

Lemma float_of_finite n : 0 <= n < 2 ^ 53 -> is_Some (fparts (float_of n)).
Proof. intros Hn. destruct (float_of_exact n Hn) as (m & e & -> & _). eauto. Qed.

(** ** Positive numbers *)

Definition fpos (x : float64) : bool := match x with S754_finite false _ _ => true | _ => false end.

Lemma float_of_pos n : 0 < n < 2 ^ 53 -> fpos (float_of n) = true.
Proof.
  intros Hn. destruct (float_of_exact n ltac:(lia)) as (m & e & Hp & He & Hm).
  assert (0 < 2 ^ (- e)) by lia. assert (0 < m) by nia.
  destruct (float_of n) as [s|s| |[] p q]; simpl in *; simplify_eq/=; try done; lia.
Qed.

(** The product of two positive numbers is positive, zero by underflow or infinite by overflow. *)
Lemma fmul_pos x y : fpos x = true -> fpos y = true ->
  fmul x y = S754_infinity false \/ exists t, ftrunc (fmul x y) = Some t /\ 0 <= t.
Proof.
  intros Hx Hy. destruct x as [s|s| |[] m e], y as [t|t| |[] n f]; try discriminate.
  pose proof (round_number (xorb false false) (Zpos (m * n)) (e + f) loc_Exact ltac:(lia)) as Hn.
  unfold fmul, SFmul. unfold binary_round_aux in *. destruct (shr_fexp _ _ (Zpos (m * n)) _ _) as [r1 e1].
  destruct (shr_fexp _ _ _ e1 _) as [r2 e2]. destruct (shr_m r2) as [|p|p]; simpl in *; [right; eauto with lia| |done].
  destruct (e2 <=? _); [right|by left]. simpl. eexists; split; [done|].
  pose proof (Z.pow_nonneg 2 e2). pose proof (Z.div_pos (Zpos p) (2 ^ (- e2))).
  destruct (Z.leb_spec 0 e2); [lia|]. assert (0 < 2 ^ (- e2)) by lia. lia.
Qed.

(** Clamping a product from above by an integer and converting it stays below the integer. *)
Lemma int64_of_clamped `{FloatConv} x y n : fpos x = true -> fpos y = true -> 0 <= n < 2 ^ 53 ->
  fltb (float_of n) (fmul x y) = false -> 0 <= int64_of (fmul x y) <= n.
Proof.
  intros Hx Hy Hn Hlt. destruct (fmul_pos x y Hx Hy) as [Hi|(t & Ht & H0)].
  - rewrite Hi in Hlt. destruct (float_of_exact n Hn) as (m & e & Hp & _). by destruct (float_of n).
  - pose proof (ftrunc_le _ _ _ Hn Hlt Ht). rewrite (int64_of_trunc _ t Ht) by (pow2_eval; lia). lia.
Qed.

(** Between two integers. *)
Lemma int64_of_between `{FloatConv} x lo hi : IsNaN x = false -> IsInf x = false -> 0 <= lo < 2 ^ 53 -> 0 <= hi < 2 ^ 53 ->
  fltb x (float_of lo) = false -> fltb (float_of hi) x = false -> lo <= int64_of x <= hi.
Proof.
  intros Hn Hi Hlo Hhi Hl Hh. destruct (finite_trunc x Hn Hi) as [t Ht].
  pose proof (ftrunc_le _ _ _ Hhi Hh Ht). pose proof (ftrunc_ge _ _ _ Hlo Hl Ht).
  rewrite (int64_of_trunc _ t Ht) by (pow2_eval; lia). lia.
Qed.

(** ** Ranges *)

(** [x] is a number with [lo <= x <= hi]. *)
Definition within (lo hi x : float64) : Prop := fleb lo x = true /\ fleb x hi = true.

Lemma fleb_of_not_gt x y : IsNaN x = false -> IsNaN y = false -> fltb y x = false -> fleb x y = true.
Proof.
  intros Hx Hy. unfold fltb, fleb. rewrite (fcompare_sym x y).
  assert (is_Some (fcompare x y)) as [c ->] by (destruct x, y; simpl in *; try discriminate; eauto). by destruct c.
Qed.

Lemma not_gt_of_fleb x y : fleb x y = true -> fltb y x = false.
Proof. unfold fleb, fltb. rewrite (fcompare_sym x y). by destruct (fcompare x y) as [[]|]. Qed.

Lemma fltb_leb x y : fltb x y = true -> fleb x y = true.
Proof. unfold fltb, fleb. by destruct (fcompare x y) as [[]|]. Qed.

Lemma fltb_number x y : fltb x y = true -> IsNaN x = false /\ IsNaN y = false.
Proof. unfold fltb. destruct x, y; simpl; by try discriminate. Qed.

Lemma fleb_number x y : fleb x y = true -> IsNaN x = false /\ IsNaN y = false.
Proof. unfold fleb. destruct x, y; simpl; by try discriminate. Qed.

Lemma fleb_refl x : IsNaN x = false -> fleb x x = true.
Proof.
  intros Hx. apply fleb_of_not_gt; [done..|]. unfold fltb.
  destruct x as [s|[]| |s m e]; try done; simpl; by rewrite Z.compare_refl.
Qed.

(** The bounds and what the code clamps between them. *)
Lemma clamp_within lo hi x : IsNaN x = false -> fleb lo hi = true ->
  within lo hi (if fltb hi x then hi else if fltb x lo then lo else x).
Proof.
  intros Hx Hle. destruct (fleb_number lo hi Hle) as [Hl Hh]. unfold within.
  destruct (fltb hi x) eqn:E1; [by rewrite Hle, fleb_refl|]. destruct (fltb x lo) eqn:E2; [by rewrite Hle, fleb_refl|].
  split; by apply fleb_of_not_gt.
Qed.

(** ** The order is transitive *)

Lemma scaled_shift k j p : j <= k -> k <= snd p -> scaled j p = scaled k p * 2 ^ (k - j).
Proof. intros Hj Hk. unfold scaled. rewrite <- Z.mul_assoc, <- Z.pow_add_r by lia. f_equal. f_equal. lia. Qed.

Lemma fcompare_scale k x y a b : fparts x = Some a -> fparts y = Some b -> k <= snd a -> k <= snd b ->
  fcompare x y = Some (scaled k a ?= scaled k b).
Proof.
  intros Ha Hb Ka Kb. rewrite (fcompare_parts _ _ _ _ Ha Hb). set (j := Z.min (snd a) (snd b)).
  rewrite (scaled_shift j k a), (scaled_shift j k b) by lia. f_equal. apply Zmult_compare_compat_r.
  assert (0 < 2 ^ (j - k)) by (apply Z.pow_pos_nonneg; lia). lia.
Qed.

Lemma fleb_trans x y z : fleb x y = true -> fleb y z = true -> fleb x z = true.
Proof.
  unfold fleb. destruct (fparts x) as [a|] eqn:Ha, (fparts y) as [b|] eqn:Hb, (fparts z) as [c|] eqn:Hc.
  { set (k := Z.min (snd a) (Z.min (snd b) (snd c))).
    rewrite (fcompare_scale k x y a b), (fcompare_scale k y z b c), (fcompare_scale k x z a c) by (done || lia).
    destruct (Z.compare_spec (scaled k a) (scaled k b)), (Z.compare_spec (scaled k b) (scaled k c)),
      (Z.compare_spec (scaled k a) (scaled k c)); done || lia. }
  all: destruct x as [?|[]| |], y as [?|[]| |], z as [?|[]| |]; simplify_eq/=; done.
Qed.

(** ** Rounding does not cross an integer *)

Lemma iter_shr n : forall r, 0 <= shr_m r ->
  shr_m (SpecFloat.iter_pos shr_1 n r) = shr_m r / 2 ^ Zpos n /\
  (shr_r (SpecFloat.iter_pos shr_1 n r) || shr_s (SpecFloat.iter_pos shr_1 n r) = true ->
     shr_m r mod 2 ^ Zpos n <> 0 \/ shr_r r || shr_s r = true).
Proof.
  assert (forall r, 0 <= shr_m r -> shr_m (shr_1 r) = shr_m r / 2 /\
    (shr_r (shr_1 r) || shr_s (shr_1 r) = true -> shr_m r mod 2 <> 0 \/ shr_r r || shr_s r = true)) as Hone.
  { assert (forall z d, d = 0 \/ d = 1 -> (2 * z + d) / 2 = z /\ (2 * z + d) mod 2 = d) as Hd by (intros; Z.div_mod_to_equations; lia).
    intros [[|[p|p|]|p] b c] Hr; simpl in Hr; [| | | |lia]; simpl.
    - split; [done|]. intros Hb. by right.
    - destruct (Hd (Zpos p) 1 ltac:(auto)) as [D1 D2]. change (Zpos p~1) with (2 * Zpos p + 1). rewrite D1, D2. split; [done|]. intros _. by left.
    - destruct (Hd (Zpos p) 0 ltac:(auto)) as [D1 D2]. rewrite Z.add_0_r in D1. change (Zpos p~0) with (2 * Zpos p). rewrite D1. split; [done|].
      intros Hb. by right.
    - split; [done|]. intros _. by left. }
  assert (forall p q r, 0 < p -> 0 < q -> 0 <= r -> r mod (p * q) = 0 -> r mod p = 0 /\ (r / p) mod q = 0) as Hmod.
  { intros p q r Hp Hq Hr H0. apply Z.mod_divide in H0 as [z Hz]; [|lia]. subst r. split.
    - replace (z * (p * q)) with (z * q * p) by lia. by apply Z.mod_mul; lia.
    - replace (z * (p * q)) with (z * q * p) by lia. rewrite Z.div_mul by lia. by apply Z.mod_mul; lia. }
  induction n as [n IH|n IH|]; intros r Hr.
  - simpl SpecFloat.iter_pos. destruct (Hone r Hr) as [A1 B1]. assert (0 <= shr_m (shr_1 r)) as H1 by (rewrite A1; apply Z.div_pos; lia).
    destruct (IH _ H1) as [A2 B2]. assert (0 <= shr_m (SpecFloat.iter_pos shr_1 n (shr_1 r))) as H2 by (rewrite A2; apply Z.div_pos; lia).
    destruct (IH _ H2) as [A3 B3]. replace (2 ^ Zpos n~1) with (2 * (2 ^ Zpos n * 2 ^ Zpos n)) by (rewrite <- Z.pow_add_r by lia; rewrite <- Z.pow_succ_r by lia; f_equal; lia).
    split; [rewrite A3, A2, A1, !Z.div_div by lia; f_equal; lia|]. intros Hb. destruct (decide (shr_m r mod (2 * (2 ^ Zpos n * 2 ^ Zpos n)) = 0)) as [Hz|]; [|by left].
    apply Hmod in Hz as [Z1 Z2]; [|lia..]. apply Hmod in Z2 as [Z2 Z3]; [|lia|lia|apply Z.div_pos; lia].
    destruct (B3 Hb) as [C|C]; [rewrite A2, A1 in C; done|]. destruct (B2 C) as [C2|C2]; [rewrite A1 in C2; done|]. destruct (B1 C2); [done|by right].
  - simpl SpecFloat.iter_pos. destruct (IH r Hr) as [A2 B2]. assert (0 <= shr_m (SpecFloat.iter_pos shr_1 n r)) as H2 by (rewrite A2; apply Z.div_pos; lia).
    destruct (IH _ H2) as [A3 B3]. replace (2 ^ Zpos n~0) with (2 ^ Zpos n * 2 ^ Zpos n) by (rewrite <- Z.pow_add_r by lia; f_equal; lia).
    split; [rewrite A3, A2, Z.div_div by lia; done|]. intros Hb. destruct (decide (shr_m r mod (2 ^ Zpos n * 2 ^ Zpos n) = 0)) as [Hz|]; [|by left].
    apply Hmod in Hz as [Z1 Z2]; [|lia..]. destruct (B3 Hb) as [C|C]; [rewrite A2 in C; done|]. destruct (B2 C); [done|by right].
  - simpl SpecFloat.iter_pos. exact (Hone r Hr).
Qed.

(** How many bits of a mantissa the first shift drops. *)
Definition dropped (m e : Z) : Z := Z.max 0 (fexp prec emax (Zdigits2 m + e) - e).

Lemma shr_fexp_spec m e l : 0 <= m ->
  let '(r, e') := shr_fexp prec emax m e l in
  shr_m r = m / 2 ^ dropped m e /\ e' = e + dropped m e /\
  (shr_r r || shr_s r = true -> m mod 2 ^ dropped m e <> 0 \/ l <> loc_Exact).
Proof.
  intros Hm. unfold shr_fexp, shr, dropped. set (d := fexp prec emax (Zdigits2 m + e) - e).
  assert (shr_m (shr_record_of_loc m l) = m /\ (shr_r (shr_record_of_loc m l) || shr_s (shr_record_of_loc m l) = true -> l <> loc_Exact)) as [M0 B0]
    by (destruct l as [|[]]; done).
  destruct d as [|p|p] eqn:Ed.
  - rewrite Z.max_l by lia. simpl. rewrite M0, Z.div_1_r. split_and!; [done|lia|]. auto.
  - rewrite Z.max_r by lia. destruct (iter_shr p (shr_record_of_loc m l)) as [A B]; [by rewrite M0|]. rewrite M0 in A, B. split_and!; [done|lia|].
    intros Hb. destruct (B Hb) as [|Hx]; auto.
  - rewrite Z.max_l by lia. simpl. rewrite M0, Z.div_1_r. split_and!; [done|lia|]. auto.
Qed.

Lemma Zdigits2_spec m : 0 < m -> 2 ^ (Zdigits2 m - 1) <= m < 2 ^ Zdigits2 m.
Proof. intros Hm. destruct m as [|p|p]; [lia| |lia]. apply digits2_spec. Qed.

Lemma Zdigits2_le m k : 0 <= m -> 0 <= k -> m < 2 ^ k -> Zdigits2 m <= k.
Proof.
  intros Hm Hk Hlt. destruct (decide (m = 0)) as [->|]; [done|]. pose proof (Zdigits2_spec m ltac:(lia)).
  assert (Zdigits2 m - 1 < k); [|lia]. apply (Z.pow_lt_mono_r_iff 2); lia.
Qed.

(** The result of rounding a positive mantissa: the quotient by the bits dropped, or the
    next, the latter only if something was dropped. *)
Lemma round_value s m e l : 0 < m ->
  let n := dropped m e in let r := binary_round_aux prec emax s m e l in
  exists m1, (m1 = m / 2 ^ n \/ (m1 = m / 2 ^ n + 1 /\ (m mod 2 ^ n <> 0 \/ l <> loc_Exact))) /\
    ((r = S754_zero s /\ m1 = 0) \/
     exists p e2, (r = S754_finite s p e2 \/ (r = S754_infinity s /\ emax - prec < e2)) /\
       e <= e2 /\ Zpos p * 2 ^ (e2 - e) = m1 * 2 ^ n).
Proof.
  intros Hm n r. unfold r, binary_round_aux. pose proof (shr_fexp_spec m e l ltac:(lia)) as H1.
  destruct (shr_fexp prec emax m e l) as [r1 e1]. destruct H1 as (M1 & E1 & B1). fold n in M1, E1, B1.
  assert (0 <= n /\ fexp prec emax (Zdigits2 m + e) <= e + n) as [Hn Hf] by (unfold n, dropped; lia).
  set (m1 := round_nearest_even (shr_m r1) (loc_of_shr_record r1)).
  assert (m1 = m / 2 ^ n \/ (m1 = m / 2 ^ n + 1 /\ (m mod 2 ^ n <> 0 \/ l <> loc_Exact))) as Hm1.
  { unfold m1. rewrite <- M1. destruct r1 as [x [] []]; simpl in *; auto.
    destruct (Z.even x); [by left|right; split; [done|by apply B1]]. }
  exists m1. split; [done|]. assert (0 <= m / 2 ^ n) as Hq by (apply Z.div_pos; lia).
  pose proof (Zdigits2_spec m Hm) as Hdig. unfold fexp, emin, prec, emax in Hf.
  assert (m / 2 ^ n < 2 ^ 53) as Hq53.
  { apply Z.div_lt_upper_bound; [lia|]. apply (Z.lt_le_trans _ (2 ^ Zdigits2 m)); [lia|]. rewrite <- Z.pow_add_r by lia.
    apply Z.pow_le_mono_r; lia. }
  assert (0 <= m1 <= 2 ^ 53) as Hm1b by lia. pose proof (shr_fexp_spec m1 e1 loc_Exact ltac:(lia)) as H2.
  destruct (shr_fexp prec emax m1 e1 loc_Exact) as [r2 e2]. destruct H2 as (M2 & E2 & _).
  assert (shr_m r2 * 2 ^ (e2 - e1) = m1 /\ e1 <= e2) as [HV He12].
  { rewrite M2, E2. replace (e1 + dropped m1 e1 - e1) with (dropped m1 e1) by lia. split; [|unfold dropped; lia].
    destruct (decide (m1 = 2 ^ 53)) as [->|Hne].
    - unfold dropped, fexp, emin, prec, emax. replace (Zdigits2 (2 ^ 53)) with 54 by (by vm_compute).
      replace (Z.max 0 (Z.max (54 + e1 - 53) (3 - 1024 - 53) - e1)) with 1 by lia. by vm_compute.
    - assert (Zdigits2 m1 <= 53) by (apply Zdigits2_le; lia).
      replace (dropped m1 e1) with 0 by (unfold dropped, fexp, emin, prec, emax; lia). rewrite Z.div_1_r. lia. }
  destruct (shr_m r2) as [|p|p] eqn:Ep; [left; split; [done|lia]| |].
  - right. exists p, e2. split_and!; [destruct (Z.leb_spec e2 (emax - prec)); auto|lia|].
    replace (e2 - e) with (e2 - e1 + n) by lia. rewrite Z.pow_add_r by lia. lia.
  - exfalso. assert (0 <= m1 / 2 ^ dropped m1 e1) by (apply Z.div_pos; [lia|]; apply Z.pow_pos_nonneg; [lia|unfold dropped; lia]). lia.
Qed.

(** The grid of the rounding, against an integer in the units of the mantissa. *)
Lemma dropped_grid m e w : 0 < m -> e <= 0 -> 0 < w < 2 ^ 53 ->
  let n := dropped m e in
  n = 0 \/ (exists k, w * 2 ^ (- e) = k * 2 ^ n) \/ (w * 2 ^ (- e) < 2 ^ (Zdigits2 m - 1) /\ exists k, 2 ^ (Zdigits2 m - 1) = k * 2 ^ n).
Proof.
  intros Hm He Hw n. assert (0 <= n) as Hn by (unfold n, dropped; lia). destruct (decide (n <= - e)) as [Hle|Hgt].
  - right. left. exists (w * 2 ^ (- e - n)). rewrite <- Z.mul_assoc, <- Z.pow_add_r by lia. f_equal. f_equal. lia.
  - right. right. assert (n = Zdigits2 m - 53 /\ 53 - e < Zdigits2 m) as [Hn' Hd] by (unfold n, dropped, fexp, emin, prec, emax in *; lia).
    split.
    + apply (Z.lt_le_trans _ (2 ^ 53 * 2 ^ (- e))); [apply Z.mul_lt_mono_pos_r; lia|]. rewrite <- Z.pow_add_r by lia. apply Z.pow_le_mono_r; lia.
    + exists (2 ^ 52). rewrite <- Z.pow_add_r by lia. f_equal. lia.
Qed.

Lemma finite_ge_int s p e n k : Zpos p * 2 ^ (e - n) >= k * 2 ^ (- n) -> n <= e -> n <= 0 -> 0 <= k < 2 ^ 53 -> s = false ->
  fleb (float_of k) (S754_finite s p e) = true.
Proof.
  intros Hge He Hn Hk ->. unfold fleb. rewrite fcompare_sym, (fcompare_int (S754_finite false p e) k (Zpos p) e Hk eq_refl).
  rewrite <- (compare_int_parts k (Zpos p) e n He Hn). unfold scaled. cbn [fst snd].
  by destruct (Z.compare_spec (Zpos p * 2 ^ (e - n)) (k * 2 ^ (- n))); [| lia|].
Qed.

Lemma finite_le_int s p e n k : Zpos p * 2 ^ (e - n) <= k * 2 ^ (- n) -> n <= e -> n <= 0 -> 0 <= k < 2 ^ 53 -> s = false ->
  fleb (S754_finite s p e) (float_of k) = true.
Proof.
  intros Hge He Hn Hk ->. unfold fleb. rewrite (fcompare_int (S754_finite false p e) k (Zpos p) e Hk eq_refl).
  rewrite <- (compare_int_parts k (Zpos p) e n He Hn). unfold scaled. cbn [fst snd].
  by destruct (Z.compare_spec (Zpos p * 2 ^ (e - n)) (k * 2 ^ (- n))); [| |lia].
Qed.

Lemma round_ge m e l w : 0 < m -> e <= 0 -> 0 < w < 2 ^ 53 -> w * 2 ^ (- e) <= m ->
  fleb (float_of w) (binary_round_aux prec emax false m e l) = true.
Proof.
  intros Hm He Hw Hge. destruct (round_value false m e l Hm) as (m1 & Hm1 & Hr). set (n := dropped m e) in *.
  assert (0 <= n) as Hn by (unfold n, dropped; lia). assert (0 < 2 ^ n) as Hp by lia. assert (0 < w * 2 ^ (- e)) as Hpos by nia.
  assert (w * 2 ^ (- e) <= m1 * 2 ^ n) as Hv.
  { assert (forall k, k * 2 ^ n <= m -> k * 2 ^ n <= m1 * 2 ^ n) as Hfl.
    { intros k Hk. assert (k <= m / 2 ^ n) by (apply Z.div_le_lower_bound; lia). nia. }
    pose proof (dropped_grid m e w Hm He Hw) as Hgrid. cbv zeta in Hgrid. fold n in Hgrid. destruct Hgrid as [H0|[[k Hk]|[Hlt [k Hk]]]].
    - rewrite H0, Z.div_1_r in Hm1. rewrite H0. lia.
    - rewrite Hk in *. by apply Hfl.
    - rewrite Hk in Hlt. pose proof (Zdigits2_spec m Hm). rewrite Hk in *. specialize (Hfl k). lia. }
  destruct Hr as [[-> H0]|(p & e2 & [->|[-> _]] & He2 & Hval)].
  - rewrite H0 in Hv. lia.
  - apply (finite_ge_int false p e2 e); try done; lia.
  - destruct (float_of_exact w ltac:(lia)) as (a & b & Ha & _). by destruct (float_of w).
Qed.

Lemma round_le m e l w : 0 < m -> e <= 0 -> 0 < w < 2 ^ 53 -> m <= w * 2 ^ (- e) -> (l <> loc_Exact -> m < w * 2 ^ (- e)) ->
  fleb (binary_round_aux prec emax false m e l) (float_of w) = true.
Proof.
  intros Hm He Hw Hle Hlt. destruct (round_value false m e l Hm) as (m1 & Hm1 & Hr). set (n := dropped m e) in *.
  assert (0 <= n) as Hn by (unfold n, dropped; lia). assert (0 < 2 ^ n) as Hp by lia.
  pose proof (Z.div_mod m (2 ^ n) ltac:(lia)) as Hdm. pose proof (Z.mod_pos_bound m (2 ^ n) ltac:(lia)) as Hmb.
  assert (m1 * 2 ^ n <= w * 2 ^ (- e)) as Hv.
  { pose proof (dropped_grid m e w Hm He Hw) as Hgrid. cbv zeta in Hgrid. fold n in Hgrid. destruct Hgrid as [H0|[[k Hk]|[Hlt' [k Hk]]]].
    - rewrite H0, Z.div_1_r, Z.mod_1_r in *. destruct Hm1 as [->|[-> [|Hx]]]; [lia|done|]. specialize (Hlt Hx). lia.
    - rewrite Hk in *. destruct Hm1 as [->|[-> Hx]]; [nia|]. assert (m / 2 ^ n < k); [|nia].
      assert (2 ^ n * (m / 2 ^ n) < k * 2 ^ n); [|nia]. destruct Hx as [Hx|Hx]; [lia|]. specialize (Hlt Hx). lia.
    - pose proof (Zdigits2_spec m Hm). lia. }
  destruct Hr as [[-> _]|(p & e2 & [->|[_ Hbig]] & He2 & Hval)].
  - unfold fleb. rewrite (fcompare_int (S754_zero false) w 0 0 ltac:(lia) eq_refl).
    simpl. destruct w; [done|done|lia].
  - apply (finite_le_int false p e2 e); try done; lia.
  - exfalso. rewrite <- Hval in Hv. unfold emax, prec in Hbig. assert (2 ^ 53 * 2 ^ (- e) <= 2 ^ (e2 - e)) as H53
      by (rewrite <- Z.pow_add_r by lia; apply Z.pow_le_mono_r; lia). nia.
Qed.

(** ** Dividing by a share between an eighth and one *)

Lemma share_parts r : within (float_quot 1 8) (float_of 1) r ->
  exists m e, r = S754_finite false m e /\ e <= 0 /\ Zpos m <= 2 ^ (- e) <= 8 * Zpos m.
Proof.
  intros [Hl Hu]. assert (float_quot 1 8 = S754_finite false (2 ^ 52) (-55)) as Hq by (vm_compute; done).
  assert (float_of 1 = S754_finite false (2 ^ 52) (-52)) as H1 by (vm_compute; done). rewrite Hq in Hl. rewrite H1 in Hu.
  destruct r as [s|[]| |s m e]; try done. destruct s; [exfalso|].
  { unfold fleb in Hl. rewrite (fcompare_scale (Z.min (-55) e) _ _ (2 ^ 52, -55) (- Zpos m, e)) in Hl by (done || simpl; lia).
    unfold scaled in Hl. cbn [fst snd] in Hl. pose proof (Z.pow_nonneg 2 (e - Z.min (-55) e)). pose proof (Z.pow_pos_nonneg 2 (-55 - Z.min (-55) e)).
    destruct (Z.compare_spec (2 ^ 52 * 2 ^ (-55 - Z.min (-55) e)) (- Zpos m * 2 ^ (e - Z.min (-55) e))); [nia|nia|done]. }
  exists m, e. split; [done|]. set (k := Z.min (-55) e). unfold fleb in Hl, Hu.
  rewrite (fcompare_scale k _ _ (2 ^ 52, -55) (Zpos m, e)) in Hl by (done || simpl; lia).
  rewrite (fcompare_scale k _ _ (Zpos m, e) (2 ^ 52, -52)) in Hu by (done || simpl; lia).
  unfold scaled in Hl, Hu. cbn [fst snd] in Hl, Hu. rewrite <- Z.pow_add_r in Hl, Hu by lia.
  assert (2 ^ (52 + (-55 - k)) <= Zpos m * 2 ^ (e - k)) as Gl by (destruct (Z.compare_spec (2 ^ (52 + (-55 - k))) (Zpos m * 2 ^ (e - k))); done || lia).
  assert (Zpos m * 2 ^ (e - k) <= 2 ^ (52 + (-52 - k))) as Gu by (destruct (Z.compare_spec (Zpos m * 2 ^ (e - k)) (2 ^ (52 + (-52 - k)))); done || lia).
  replace (52 + (-55 - k)) with (- k - 3) in Gl by lia. replace (52 + (-52 - k)) with (- k) in Gu by lia.
  assert (2 ^ (- k) = 8 * 2 ^ (- k - 3)) as Hk by (change 8 with (2 ^ 3); rewrite <- Z.pow_add_r by lia; f_equal; lia).
  assert (e <= 0) as He.
  { destruct (Z.le_gt_cases e 0); [done|]. assert (2 ^ (- k) < 2 ^ (e - k)) by (apply Z.pow_lt_mono_r; lia). nia. }
  assert (2 ^ (- k) = 2 ^ (- e) * 2 ^ (e - k)) as Hd by (rewrite <- Z.pow_add_r by lia; f_equal; lia).
  assert (0 < 2 ^ (e - k)) by (apply Z.pow_pos_nonneg; lia). split; [done|]. nia.
Qed.

(** The quotient of an integer by such a share lies between the integer and eight times it. *)
Lemma fdiv_between w r : 0 < w < 2 ^ 49 -> within (float_quot 1 8) (float_of 1) r ->
  within (float_of w) (float_of (8 * w)) (fdiv (float_of w) r).
Proof.
  intros Hw Hr. destruct (share_parts r Hr) as (m2 & e2 & -> & He2 & Hm2). pose proof (float_of_pos w ltac:(lia)) as Hpos.
  destruct (float_of_exact w ltac:(lia)) as (m1 & e1 & Hp & He1 & Hm1). unfold fdiv.
  destruct (float_of w) as [s|s| |[] p1 q1] eqn:Ew; try done. simpl in Hp. injection Hp as <- <-.
  change (SFdiv prec emax (S754_finite false p1 q1) (S754_finite false m2 e2)) with
    (let '(mz, ez, lz) := SFdiv_core_binary prec emax (Zpos p1) q1 (Zpos m2) e2 in binary_round_aux prec emax false mz ez lz).
  rewrite <- Ew. unfold SFdiv_core_binary. cbv zeta. set (e' := Z.min _ _). set (s := q1 - e2 - e').
  assert (Zdigits2 (Zpos p1) <= 49 - q1) as Hd1.
  { apply Zdigits2_le; [lia..|]. rewrite Hm1. replace (49 - q1) with (49 + - q1) by lia. rewrite Z.pow_add_r by lia. apply Z.mul_lt_mono_pos_r; lia. }
  assert (-3 - e2 < Zdigits2 (Zpos m2)) as Hd2.
  { pose proof (Zdigits2_spec (Zpos m2) ltac:(lia)). destruct (Z.le_gt_cases (-3 - e2) 0); [simpl; lia|]. apply (Z.pow_lt_mono_r_iff 2); [lia|simpl; lia|].
    apply (Z.le_lt_trans _ (Zpos m2)); [|lia]. assert (2 ^ (- e2) = 8 * 2 ^ (-3 - e2)) by (change 8 with (2 ^ 3); rewrite <- Z.pow_add_r by lia; f_equal; lia). lia. }
  assert (e' <= 0 /\ 0 <= s) as [He' Hs] by (unfold s, e', fexp, emin, prec, emax; lia).
  assert ((match s with Zpos _ => Z.shiftl (Zpos p1) s | 0 => Zpos p1 | Zneg _ => 0 end) = w * (2 ^ (- e2) * 2 ^ (- e'))) as ->.
  { rewrite <- Z.pow_add_r by lia. transitivity (Zpos p1 * 2 ^ s); [destruct s; [simpl; lia|by apply Z.shiftl_mul_pow2|lia]|].
    rewrite Hm1, <- Z.mul_assoc, <- Z.pow_add_r by lia. f_equal. f_equal. unfold s. lia. }
  pose proof (Z_div_mod (w * (2 ^ (- e2) * 2 ^ (- e'))) (Zpos m2) ltac:(lia)) as Hdm.
  destruct (Z.div_eucl (w * (2 ^ (- e2) * 2 ^ (- e'))) (Zpos m2)) as [q r]. destruct Hdm as [Hdm Hrem].
  assert (0 < 2 ^ (- e')) as He'p by (apply Z.pow_pos_nonneg; lia). set (E := 2 ^ (- e')) in *. set (D := 2 ^ (- e2)) in *.
  assert (w * E <= q) as Hlo by nia. assert (8 * w * E * Zpos m2 >= Zpos m2 * q + r) as Hhi by nia.
  split.
  - apply (round_ge q e'); [nia|done|lia|done].
  - apply (round_le q e'); [nia|done|lia|fold E; nia|]. fold E. intros Hl. assert (r <> 0); [|nia]. intros ->. apply Hl. by destruct m2 as [[]|[]|].
Qed.

Lemma fdiv_window `{FloatConv} w r : 0 < w < 2 ^ 49 -> within (float_quot 1 8) (float_of 1) r ->
  w <= int64_of (fdiv (float_of w) r) <= 8 * w.
Proof.
  intros Hw Hr. destruct (fdiv_between w r Hw Hr) as [Hl Hu].
  apply int64_of_between; [by destruct (fleb_number _ _ Hl)| |lia|lia|by apply not_gt_of_fleb..].
  destruct (float_of_finite (8 * w) ltac:(lia)) as [a Ha]. destruct (float_of_finite w ltac:(lia)) as [b Hb].
  destruct (fdiv (float_of w) r) as [|[]| |]; try done; [by destruct (float_of w)|by destruct (float_of (8 * w))].
Qed.

(** ** Results that are numbers *)

Lemma float_of_number n : IsNaN (float_of n) = false.
Proof.
  unfold float_of, binary_normalize. destruct n as [|p|p]; [done| |];
    unfold binary_round; destruct (shl_align _ _ _) as [m e]; by apply round_number.
Qed.

Lemma fdiv_number x y : IsNaN x = false -> fpos y = true -> IsNaN (fdiv x y) = false.
Proof.
  intros Hx Hy. destruct y as [s|s| |[] m2 e2]; try done. destruct x as [s|s| |s m1 e1]; try done.
  change (IsNaN (let '(mz, ez, lz) := SFdiv_core_binary prec emax (Zpos m1) e1 (Zpos m2) e2 in binary_round_aux prec emax (xorb s false) mz ez lz) = false).
  unfold SFdiv_core_binary. cbv zeta. set (d := e1 - e2 - _). set (m := match d with Zpos _ => _ | 0 => _ | Zneg _ => _ end).
  assert (0 <= m) as Hm by (unfold m; destruct d; [lia|apply Z.shiftl_nonneg; lia|lia]).
  pose proof (Z_div_mod m (Zpos m2) ltac:(lia)) as Hd. destruct (Z.div_eucl m (Zpos m2)) as [q r]. destruct Hd as [Hd Hr].
  apply round_number. nia.
Qed.

Lemma fsub_number x y : is_Some (fparts x) -> is_Some (fparts y) -> IsNaN (fsub x y) = false.
Proof.
  intros [a Ha] [b Hb]. unfold fsub. destruct x as [s|s| |s m e], y as [t|t| |t n f]; try done; cbn [SFsub].
  { by destruct s, t. }
  unfold binary_normalize. match goal with |- context [match ?z with 0 => _ | Zpos _ => _ | Zneg _ => _ end] => destruct z end;
    [done|unfold binary_round; destruct (shl_align _ _ _); by apply round_number..].
Qed.

(** Between two finite numbers. *)
Lemma within_finite lo hi x : is_Some (fparts lo) -> is_Some (fparts hi) -> within lo hi x -> is_Some (fparts x).
Proof.
  intros [a Ha] [b Hb] [Hl Hh]. destruct x as [s|[]| |s m e]; simpl; eauto; exfalso; [destruct lo as [|[]| |]|destruct hi as [|[]| |]|destruct lo]; done.
Qed.

Lemma within_number lo hi x : within lo hi x -> IsNaN x = false.
Proof. intros [Hl _]. apply (fleb_number _ _ Hl). Qed.

Lemma within_weaken lo lo' hi x : fleb lo' lo = true -> within lo hi x -> within lo' hi x.
Proof. intros Hlo [Hl Hh]. split; [by eapply fleb_trans|done]. Qed.

(** A clamp from below after one from above. *)
Lemma clamp_below lo hi x : fleb lo hi = true -> fleb x hi = true -> within lo hi (if fltb x lo then lo else x).
Proof.
  intros Hle Hx. destruct (fleb_number _ _ Hx) as [Hn _]. destruct (fleb_number _ _ Hle) as [Hl _].
  destruct (fltb x lo) eqn:E; [split; [by apply fleb_refl|done]|]. split; [by apply fleb_of_not_gt|done].
Qed.

Lemma clamp_above hi x : IsNaN x = false -> IsNaN hi = false -> fleb (if fltb hi x then hi else x) hi = true.
Proof. intros Hx Hh. destruct (fltb hi x) eqn:E; [by apply fleb_refl|by apply fleb_of_not_gt]. Qed.

(** The product of two shares is at most one. *)
Lemma fmul_share x y : within (float_quot 1 8) (float_of 1) x -> within (float_quot 1 8) (float_of 1) y ->
  fleb (fmul x y) (float_of 1) = true.
Proof.
  intros Hx Hy. destruct (share_parts x Hx) as (m1 & e1 & -> & He1 & Hm1). destruct (share_parts y Hy) as (m2 & e2 & -> & He2 & Hm2).
  change (fmul (S754_finite false m1 e1) (S754_finite false m2 e2)) with (binary_round_aux prec emax false (Zpos (m1 * m2)) (e1 + e2) loc_Exact).
  apply round_le; [lia|lia|lia| |done]. replace (- (e1 + e2)) with (- e1 + - e2) by lia. rewrite Z.pow_add_r by lia.
  rewrite Pos2Z.inj_mul. nia.
Qed.
