(* ===== verification/Classify.v ===== *)
(** The class of a flow, [internal/classifier/classifier.go], and how a striped flow
    feeds it: [observe], [recentBytes], [refreshClass] and
    [prefersCodingOverRetransmission] of [internal/pep/mpflow.go].

    Times are nanoseconds.  The classifier holds its lock for a whole [Observe], and
    [recentBytes] for the window's update, so each is one step; the flow's own copy of
    the class is an atomic word stored after the classifier has answered, which is a
    step of its own. *)
From stdpp Require Import base list.
From S2P Require Import Prelude GoFloat.
Open Scope Z_scope.

(** ** The classifier *)

Inductive Class := ClassNew | ClassInteractive | ClassBulk.

#[global] Instance Class_eq_dec : EqDecision Class.
Proof. solve_decision. Defined.

Record Config := mkConfig {
  NewBytes : Z;
  NewAge : Z;
  BulkBytes : Z;
  BulkRateBytesPerSec : float64;
  BulkMinimumAge : Z;
  InteractiveMaxRate : float64;
  InteractiveIdleGap : Z
}.

Definition ms : Z := 1000000.

Definition DefaultConfig : Config :=
  mkConfig (64 * 1024) (3000 * ms) (128 * 1024) (float_of (256 * 1024)) (1000 * ms) (float_of (1 * 1024 * 1024)) (250 * ms).

Record Observation := mkObservation {
  BytesUp : Z; BytesDown : Z;
  UpRate : float64; DownRate : float64;
  Age : Z;
  SinceLastPayload : Z;
  Bidirectional : bool;
  SmallBidirectionalBursts : bool
}.

Record Classifier := mkClassifier { cfg : Config; class : Class }.

Definition New (c : Config) : Classifier :=
  let c := if (NewBytes c =? 0) || (NewAge c <=? 0) || (BulkBytes c =? 0) || fleb (BulkRateBytesPerSec c) (float_of 0) || (BulkMinimumAge c <=? 0)
           then DefaultConfig else c in
  mkClassifier c ClassNew.

Definition float_max (a b : float64) : float64 := if fltb b a then a else b.

Definition isBulk (c : Classifier) (o : Observation) : bool :=
  (Age o >=? BulkMinimumAge (cfg c)) && (BytesUp o +u64 BytesDown o >=? BulkBytes (cfg c)) &&
  (negb (Bidirectional o) || negb (SmallBidirectionalBursts o)).

Definition isInteractive (c : Classifier) (o : Observation) : bool :=
  if Bidirectional o && SmallBidirectionalBursts o then true
  else (SinceLastPayload o >=? InteractiveIdleGap (cfg c)) && fleb (float_max (UpRate o) (DownRate o)) (InteractiveMaxRate (cfg c)).

Definition Observe (c : Classifier) (o : Observation) : Class * Classifier :=
  if bool_decide (class c = ClassBulk) then (class c, c)
  else if isBulk c o then (ClassBulk, mkClassifier (cfg c) ClassBulk)
  else
    let cl :=
      if bool_decide (class c = ClassNew) && (Age o >=? NewAge (cfg c)) then
        if isInteractive c o || (BytesUp o +u64 BytesDown o >=? NewBytes (cfg c)) then ClassInteractive else class c
      else class c in
    (cl, mkClassifier (cfg c) cl).

(** ** The flow's view of itself *)

Definition smallExchangeBytes : Z := 64 * 1024.
Definition exchangeWindow : Z := 1000 * ms.
Definition codedFlowBytes : Z := 256 * 1024.
Definition classRefreshInterval : Z := 250 * ms.

(** Two buckets, the one filling and the one before it. *)
Record recent := mkRecent { recentStart : option Z; priorUp : Z; priorDown : Z; currentUp : Z; currentDown : Z }.

Definition recentBytes (r : recent) (now n : Z) (up : bool) : (Z * Z) * recent :=
  let start := default now (recentStart r) in
  let r :=
    if now - start >=? exchangeWindow then mkRecent (Some now) (currentUp r) (currentDown r) 0 0
    else mkRecent (Some start) (priorUp r) (priorDown r) (currentUp r) (currentDown r) in
  let r :=
    if up then mkRecent (recentStart r) (priorUp r) (priorDown r) (currentUp r +u64 n) (currentDown r)
    else mkRecent (recentStart r) (priorUp r) (priorDown r) (currentUp r) (currentDown r +u64 n) in
  ((currentUp r +u64 priorUp r, currentDown r +u64 priorDown r), r).

Record flow := mkFlow {
  classifier : Classifier;
  f_class : Class;                 (* the atomic word the rest of the flow reads *)
  started : Z;
  lastActivity : Z;
  lastPayload : Z;
  lastClassified : Z;
  f_recent : recent;
  bytesUp : Z;
  bytesDown : Z;
  storing : list Class             (* answers the classifier gave, on their way to the word *)
}.

(** [newMultipathFlowWithMemory]'s share of it. *)
Definition newFlow (now : Z) : flow :=
  mkFlow (New DefaultConfig) ClassNew now now 0 0 (mkRecent None 0 0 0 0) 0 0 [].

Definition observation (f : flow) (now n : Z) (up : bool) (recentUp recentDown : Z) : Observation :=
  let age := if now - started f <=? 0 then 1 else now - started f in
  let upBytes := if up then bytesUp f +u64 n else bytesUp f in
  let downBytes := if up then bytesDown f else bytesDown f +u64 n in
  mkObservation upBytes downBytes
    (fdiv (float_of upBytes) (Seconds age)) (fdiv (float_of downBytes) (Seconds age)) age
    (if lastPayload f =? 0 then age else now - lastPayload f)
    ((upBytes >? 0) && (downBytes >? 0))
    ((recentUp <=? smallExchangeBytes) && (recentDown <=? smallExchangeBytes)).

(** [observe] up to the classifier's answer.  Two observers may interleave between its
    reads and the classifier; here an observation is one step, and only the store of its
    answer is separate. *)
Definition observe (f : flow) (now n : Z) (up : bool) : flow :=
  let '((recentUp, recentDown), r) := recentBytes (f_recent f) now n up in
  let '(newClass, c) := Observe (classifier f) (observation f now n up recentUp recentDown) in
  mkFlow c (f_class f) (started f) now now (lastClassified f) r (bytesUp f) (bytesDown f) (newClass :: storing f).

(** [f.class.Store]. *)
Definition store_class (f : flow) (before : list Class) (c : Class) (after : list Class) : flow :=
  mkFlow (classifier f) c (started f) (lastActivity f) (lastPayload f) (lastClassified f) (f_recent f) (bytesUp f) (bytesDown f) (before ++ after).

(** Bytes read from, or written to, the application: observed, then counted. *)
Definition carry (f : flow) (now n : Z) (up : bool) : flow :=
  let f := observe f now n up in
  mkFlow (classifier f) (f_class f) (started f) (lastActivity f) (lastPayload f) (lastClassified f) (f_recent f)
    (if up then bytesUp f +u64 n else bytesUp f) (if up then bytesDown f else bytesDown f +u64 n) (storing f).

Definition refreshClass (f : flow) (now : Z) : flow :=
  if now - lastClassified f <? classRefreshInterval then f
  else observe (mkFlow (classifier f) (f_class f) (started f) (lastActivity f) (lastPayload f) now (f_recent f) (bytesUp f) (bytesDown f) (storing f)) now 0 false.

(** [prefersCodingOverRetransmission], after its call of [refreshClass]. *)
Definition prefersCoding (f : flow) : bool :=
  match f_class f with
  | ClassBulk => false
  | ClassInteractive => true
  | ClassNew => bytesUp f +u64 bytesDown f <=? codedFlowBytes
  end.

(** Bytes a flow carried, and when. *)
Record payload := mkPayload { p_at : Z; p_bytes : Z; p_up : bool }.

(** The flow begun at [t0] once it has carried what a history says and the clock shows
    [now]: bytes are carried, the class is looked at again before a frame is sent, and
    answers of the classifier are stored in any order.  Clocks do not run backwards. *)
Inductive class_run (t0 : Z) : Z -> list payload -> flow -> Prop :=
| cr_new : class_run t0 t0 [] (newFlow t0)
| cr_carry now h f t n up : class_run t0 now h f -> now <= t -> 0 <= n -> class_run t0 t (h ++ [mkPayload t n up]) (carry f t n up)
| cr_refresh now h f t : class_run t0 now h f -> now <= t -> class_run t0 t h (refreshClass f t)
| cr_store now h f before c after : class_run t0 now h f -> storing f = before ++ c :: after -> class_run t0 now h (store_class f before c after).

(** The same steps from any flow. *)
Inductive class_step : flow -> flow -> Prop :=
| cs_carry f t n up : class_step f (carry f t n up)
| cs_refresh f t : class_step f (refreshClass f t)
| cs_store f before c after : storing f = before ++ c :: after -> class_step f (store_class f before c after).

(** What a direction carried between two times, and in all. *)
Definition bytes_in (up : bool) (a b : Z) (e : payload) : Z := if Bool.eqb (p_up e) up && (a <=? p_at e) && (p_at e <? b) then p_bytes e else 0.
Definition carried (h : list payload) (up : bool) (a b : Z) : Z := sumZ (map (bytes_in up a b) h).

Definition bytes_of (up : bool) (e : payload) : Z := if Bool.eqb (p_up e) up then p_bytes e else 0.
Definition moved (h : list payload) (up : bool) : Z := sumZ (map (bytes_of up) h).

(** ** Windows *)

Lemma carried_snoc h e up a b : carried (h ++ [e]) up a b = carried h up a b + bytes_in up a b e.
Proof. unfold carried. rewrite map_app, sumZ_app. cbn. lia. Qed.
Lemma moved_snoc h e up : moved (h ++ [e]) up = moved h up + bytes_of up e.
Proof. unfold moved. rewrite map_app, sumZ_app. cbn. lia. Qed.

Definition sized (e : payload) : Prop := 0 <= p_bytes e.

Lemma carried_bounds h up a b : Forall sized h -> 0 <= carried h up a b <= moved h up.
Proof.
  unfold carried, moved, sized. induction 1 as [|e h He _ IH]; cbn; [lia|]. unfold sumZ in IH. unfold bytes_in, bytes_of in *.
  destruct (Bool.eqb (p_up e) up); cbn; [|lia]. destruct (_ && _); lia.
Qed.

Lemma carried_mono h up a b a' b' : Forall sized h ->
  (forall e, e ∈ h -> a <= p_at e < b -> a' <= p_at e < b') -> carried h up a b <= carried h up a' b'.
Proof.
  intros Hs. unfold carried. induction Hs as [|e h He Hs IH]; intros Hw; cbn; [lia|]. unfold sized in He.
  assert (H1 : bytes_in up a b e <= bytes_in up a' b' e).
  { unfold bytes_in. destruct (Bool.eqb (p_up e) up); cbn; [|lia]. specialize (Hw e ltac:(by left)).
    destruct ((a <=? p_at e) && (p_at e <? b)) eqn:E1; destruct ((a' <=? p_at e) && (p_at e <? b')) eqn:E2; bool_to_prop; lia. }
  specialize (IH ltac:(intros; apply Hw; [by right|done])). unfold sumZ in IH. lia.
Qed.

Lemma carried_none h up a b : (forall e, e ∈ h -> ~ a <= p_at e < b) -> carried h up a b = 0.
Proof.
  unfold carried. induction h as [|e h IH]; intros Hw; cbn; [done|]. unfold sumZ in IH. rewrite IH by (intros; apply Hw; by right).
  unfold bytes_in. specialize (Hw e ltac:(by left)). destruct (Bool.eqb (p_up e) up && (a <=? p_at e) && (p_at e <? b)) eqn:E; bool_to_prop; lia.
Qed.

Lemma carried_disjoint h up a b a' b' : Forall sized h -> b <= a' -> carried h up a b + carried h up a' b' <= moved h up.
Proof.
  intros Hs Hd. unfold carried, moved. induction Hs as [|e h He Hs IH]; cbn; [lia|]. unfold sized in He.
  assert (bytes_in up a b e + bytes_in up a' b' e <= bytes_of up e); [|unfold sumZ in IH; lia].
  unfold bytes_in, bytes_of. destruct (Bool.eqb (p_up e) up); cbn; [|lia].
  destruct ((a <=? p_at e) && (p_at e <? b)) eqn:E1; destruct ((a' <=? p_at e) && (p_at e <? b')) eqn:E2; bool_to_prop; lia.
Qed.

Lemma carried_split h up a b c : Forall sized h -> a <= b <= c -> carried h up a c = carried h up a b + carried h up b c.
Proof.
  intros Hs Hd. unfold carried. induction Hs as [|e h He Hs IH]; cbn; [lia|]. unfold sumZ in IH. rewrite IH.
  unfold bytes_in. destruct (Bool.eqb (p_up e) up); cbn; [|lia]. destruct (a <=? p_at e) eqn:E1, (p_at e <? b) eqn:E2, (b <=? p_at e) eqn:E3, (p_at e <? c) eqn:E4; cbn; lia.
Qed.

(** The history after a call of [observe]. *)
Record extends (h : list payload) (now n : Z) (up : bool) (h' : list payload) : Prop := mk_extends {
  ex_sized : Forall sized h';
  ex_carried : forall d a b, carried h' d a b = carried h d a b + (if Bool.eqb up d && (a <=? now) && (now <? b) then n else 0);
  ex_in : forall e, e ∈ h' -> e ∈ h \/ p_at e = now;
  ex_moved : forall d, moved h' d = moved h d + (if Bool.eqb up d then n else 0)
}.

Lemma extends_carry h now n up : Forall sized h -> 0 <= n -> extends h now n up (h ++ [mkPayload now n up]).
Proof.
  intros Hs Hn. split.
  - apply Forall_app. split; [done|]. by repeat constructor.
  - intros. rewrite carried_snoc. done.
  - intros e He. apply elem_of_app in He as [He|He]; [by left|]. apply list_elem_of_singleton in He as ->. by right.
  - intros. rewrite moved_snoc. done.
Qed.

Lemma extends_nothing h now : Forall sized h -> extends h now 0 false h.
Proof. intros Hs. split; [done| |by left|]; intros; [destruct (_ && _)|destruct (Bool.eqb _ _)]; lia. Qed.

(** The filling bucket holds what came since its start, the other what came in a
    window at least one window earlier, and nothing came in between. *)
Record window_inv (now : Z) (h : list payload) (r : recent) (s' start : Z) : Prop := mk_window_inv {
  wi_start : recentStart r = Some start;
  wi_now : start <= now;
  wi_gap : s' + exchangeWindow <= start;
  wi_when : forall e, e ∈ h -> p_at e < s' + exchangeWindow \/ start <= p_at e < start + exchangeWindow;
  wi_up : currentUp r = carried h true start (start + exchangeWindow) /\ priorUp r = carried h true s' (s' + exchangeWindow);
  wi_down : currentDown r = carried h false start (start + exchangeWindow) /\ priorDown r = carried h false s' (s' + exchangeWindow)
}.

Definition empty_recent : recent := mkRecent None 0 0 0 0.

Section Window.
Context (h : list payload) (now n : Z) (up : bool) (h' : list payload).
Hypothesis Hex : extends h now n up h'.
Hypothesis H64 : forall d, moved h' d < 2 ^ 64.
Hypothesis Hpast : forall e, e ∈ h -> p_at e <= now.

Lemma window_pos : 0 < exchangeWindow.
Proof using. vm_compute. reflexivity. Qed.

Lemma bucket_gains d a : a <= now < a + exchangeWindow ->
  0 <= carried h d a (a + exchangeWindow) + (if Bool.eqb up d then n else 0) < 2 ^ 64 /\
  carried h' d a (a + exchangeWindow) = carried h d a (a + exchangeWindow) + (if Bool.eqb up d then n else 0).
Proof using Hex H64.
  intros Ha. pose proof (carried_bounds h' d a (a + exchangeWindow) (ex_sized _ _ _ _ _ Hex)) as Hb.
  rewrite (ex_carried _ _ _ _ _ Hex) in *. replace (a <=? now) with true in * by lia. replace (now <? a + exchangeWindow) with true in * by lia.
  rewrite !andb_true_r in *. specialize (H64 d). lia.
Qed.

Lemma bucket_keeps d a : a + exchangeWindow <= now -> carried h' d a (a + exchangeWindow) = carried h d a (a + exchangeWindow).
Proof using Hex. intros Ha. rewrite (ex_carried _ _ _ _ _ Hex). replace (now <? a + exchangeWindow) with false by lia. rewrite andb_false_r. lia. Qed.

(** One call of [recentBytes] from a window that follows the history. *)
Lemma recentBytes_next r s' start t : window_inv t h r s' start -> t <= now ->
  exists s1 start1, window_inv now h' (snd (recentBytes r now n up)) s1 start1 /\ now < start1 + exchangeWindow.
Proof using Hex H64 Hpast.
  intros [] Ht. pose proof window_pos as HW. unfold recentBytes. cbv zeta. rewrite wi_start0. change (default now (Some start)) with start.
  destruct wi_up0 as [U1 U2], wi_down0 as [D1 D2].
  destruct (now - start >=? exchangeWindow) eqn:E; bool_to_prop.
  - exists start, now. split; [|lia]. assert (H0 : forall d, carried h d now (now + exchangeWindow) = 0).
    { intros d. apply carried_none. intros e He Hr. specialize (wi_when0 e He). specialize (Hpast e He). lia. }
    assert (Hw : forall e', e' ∈ h' -> p_at e' < start + exchangeWindow \/ now <= p_at e' < now + exchangeWindow).
    { intros e' Hin. apply (ex_in _ _ _ _ _ Hex) in Hin as [Hin|Hin]; [|lia]. specialize (wi_when0 e' Hin). lia. }
    destruct (bucket_gains true now ltac:(lia)) as [S1 S2], (bucket_gains false now ltac:(lia)) as [S3 S4]. rewrite H0 in *.
    pose proof bucket_keeps as K. destruct up; (split; cbn [snd recentStart currentUp currentDown priorUp priorDown]; [done|lia|lia|exact Hw| |]); rewrite ?S2, ?S4, ?K by lia; cbn in *;
      rewrite ?U1, ?D1; try (rewrite wrap_small by lia); split; lia.
  - exists s', start. split; [|lia].
    assert (Hw : forall e', e' ∈ h' -> p_at e' < s' + exchangeWindow \/ start <= p_at e' < start + exchangeWindow).
    { intros e' Hin. apply (ex_in _ _ _ _ _ Hex) in Hin as [Hin|Hin]; [by apply wi_when0|]. lia. }
    destruct (bucket_gains true start ltac:(lia)) as [S1 S2], (bucket_gains false start ltac:(lia)) as [S3 S4].
    pose proof bucket_keeps as K. destruct up; (split; cbn [snd recentStart currentUp currentDown priorUp priorDown]; [done|lia|lia|exact Hw| |]); rewrite ?S2, ?S4, ?K by lia; cbn in *;
      rewrite ?U1, ?U2, ?D1, ?D2; try (rewrite wrap_small by lia); split; lia.
Qed.

(** The first call. *)
Lemma recentBytes_first : h = [] -> window_inv now h' (snd (recentBytes empty_recent now n up)) (now - exchangeWindow) now.
Proof using Hex H64.
  clear Hpast. intros He. pose proof window_pos as HW. unfold recentBytes, empty_recent. cbn. replace (now - now >=? exchangeWindow) with false by lia. cbn.
  assert (H0 : forall d a b, carried h d a b = 0) by (intros; rewrite He; done).
  destruct (bucket_gains true now ltac:(lia)) as [S1 S2], (bucket_gains false now ltac:(lia)) as [S3 S4]. rewrite H0 in *.
  assert (Hw : forall e', e' ∈ h' -> p_at e' < now - exchangeWindow + exchangeWindow \/ now <= p_at e' < now + exchangeWindow).
  { intros e' Hin. apply (ex_in _ _ _ _ _ Hex) in Hin as [Hin|Hin]; [rewrite He in Hin; set_solver|lia]. }
  pose proof bucket_keeps as K. destruct up; (split; cbn [recentStart currentUp currentDown priorUp priorDown]; [done|lia|lia|exact Hw| |]);
    rewrite ?S2, ?S4, ?K, ?H0 by lia; cbn in *; try (rewrite wrap_small by lia); split; lia.
Qed.
End Window.

(** ** The flow's class *)

(** What [Observe] can answer. *)
Lemma Observe_bulk c o : class (snd (Observe c o)) = ClassBulk <-> class c = ClassBulk \/ isBulk c o = true.
Proof.
  unfold Observe. case_bool_decide as H; [cbn; tauto|]. destruct (isBulk c o) eqn:E; cbn; [tauto|].
  split; [|by intros [?|?]]. destruct (_ && _); [|tauto]. destruct (_ || _); [done|tauto].
Qed.
Lemma Observe_answer c o : fst (Observe c o) = class (snd (Observe c o)) /\ cfg (snd (Observe c o)) = cfg c.
Proof. unfold Observe. case_bool_decide; [done|]. by destruct (isBulk c o). Qed.

Record flow_inv (t0 now : Z) (h : list payload) (f : flow) : Prop := mk_flow_inv {
  fi_cfg : cfg (classifier f) = DefaultConfig;
  fi_started : started f = t0 /\ t0 <= now;
  fi_past : forall e, e ∈ h -> p_at e <= now;
  fi_sized : Forall sized h;
  fi_bytes : bytesUp f = moved h true /\ bytesDown f = moved h false;
  fi_window : (h = [] /\ f_recent f = empty_recent) \/ exists s' start, window_inv now h (f_recent f) s' start;
  fi_stored : (f_class f = ClassBulk \/ ClassBulk ∈ storing f) -> class (classifier f) = ClassBulk
}.

Definition fits (h : list payload) : Prop := moved h true + moved h false < 2 ^ 64.

Lemma moved_nonneg h d : Forall sized h -> 0 <= moved h d.
Proof. intros H. pose proof (carried_bounds h d 0 0 H). lia. Qed.

(** The answers [observe] works with. *)
Definition seen (f : flow) (now n : Z) (up : bool) : Observation :=
  observation f now n up (fst (fst (recentBytes (f_recent f) now n up))) (snd (fst (recentBytes (f_recent f) now n up))).

Lemma observe_parts f now n up :
  classifier (observe f now n up) = snd (Observe (classifier f) (seen f now n up)) /\
  f_recent (observe f now n up) = snd (recentBytes (f_recent f) now n up) /\
  storing (observe f now n up) = fst (Observe (classifier f) (seen f now n up)) :: storing f /\
  bytesUp (observe f now n up) = bytesUp f /\ bytesDown (observe f now n up) = bytesDown f /\ started (observe f now n up) = started f /\
  f_class (observe f now n up) = f_class f.
Proof. unfold observe, seen. destruct (recentBytes _ _ _ _) as [[u d] r]. cbn. by destruct (Observe _ _). Qed.

Lemma window_after t now h f n up h' :
  extends h now n up h' -> (forall d, moved h' d < 2 ^ 64) -> (forall e, e ∈ h -> p_at e <= t) -> t <= now ->
  ((h = [] /\ f_recent f = empty_recent) \/ exists s' start, window_inv t h (f_recent f) s' start) ->
  exists s' start, window_inv now h' (snd (recentBytes (f_recent f) now n up)) s' start /\ now < start + exchangeWindow.
Proof.
  intros Hex H64 Hp Ht [[Hh ->]|(s' & start & Hw)].
  - exists (now - exchangeWindow), now. split; [by eapply recentBytes_first|]. pose proof window_pos. lia.
  - eapply recentBytes_next; eauto. intros e He. specialize (Hp e He). lia.
Qed.

(** What the window answers is what its buckets hold. *)
Lemma recentBytes_answer r now n up : let q := recentBytes r now n up in
  fst q = (currentUp (snd q) +u64 priorUp (snd q), currentDown (snd q) +u64 priorDown (snd q)).
Proof. done. Qed.

Lemma window_sums now h r s' start : window_inv now h r s' start -> Forall sized h -> (forall d, moved h d < 2 ^ 64) ->
  currentUp r +u64 priorUp r = carried h true s' (s' + exchangeWindow) + carried h true start (start + exchangeWindow) /\
  currentDown r +u64 priorDown r = carried h false s' (s' + exchangeWindow) + carried h false start (start + exchangeWindow).
Proof.
  intros [] Hs H64. destruct wi_up0 as [-> ->], wi_down0 as [-> ->].
  assert (Hb : forall d, 0 <= carried h d start (start + exchangeWindow) + carried h d s' (s' + exchangeWindow) < 2 ^ 64).
  { intros d. pose proof (carried_disjoint h d s' (s' + exchangeWindow) start (start + exchangeWindow) Hs wi_gap0). specialize (H64 d).
    pose proof (carried_bounds h d start (start + exchangeWindow) Hs). pose proof (carried_bounds h d s' (s' + exchangeWindow) Hs). lia. }
  rewrite !wrap_small by apply Hb. lia.
Qed.

Lemma observe_inv t0 t now h f n up h' :
  flow_inv t0 t h f -> extends h now n up h' -> fits h' -> t <= now ->
  flow_inv t0 now h' (mkFlow (classifier (observe f now n up)) (f_class (observe f now n up)) (started (observe f now n up)) (lastActivity (observe f now n up))
    (lastPayload (observe f now n up)) (lastClassified (observe f now n up)) (f_recent (observe f now n up))
    (moved h' true) (moved h' false) (storing (observe f now n up))).
Proof.
  intros [] Hex Hfit Ht. destruct (observe_parts f now n up) as (P1 & P2 & P3 & P4 & P5 & P6 & P7).
  destruct (Observe_answer (classifier f) (seen f now n up)) as [A1 A2]. pose proof (ex_sized _ _ _ _ _ Hex) as Hs.
  assert (H64 : forall d, moved h' d < 2 ^ 64).
  { unfold fits in Hfit. pose proof (moved_nonneg h' true Hs). pose proof (moved_nonneg h' false Hs). intros []; lia. }
  split; cbn [classifier f_class started bytesUp bytesDown f_recent storing]; rewrite ?P1, ?P2, ?P3, ?P6, ?P7.
  - by rewrite A2.
  - lia.
  - intros e He. apply (ex_in _ _ _ _ _ Hex) in He as [He|He]; [specialize (fi_past0 e He)|]; lia.
  - done.
  - done.
  - right. destruct (window_after t now h f n up h' Hex H64 fi_past0 Ht fi_window0) as (s' & start & H & _). eauto.
  - intros H. apply Observe_bulk. destruct H as [H|H]; [left; apply fi_stored0; by left|].
    apply elem_of_cons in H as [H|H]; [apply Observe_bulk; by rewrite <- A1|left; apply fi_stored0; by right].
Qed.

Lemma class_run_inv t0 now h f : class_run t0 now h f -> fits h -> flow_inv t0 now h f.
Proof.
  induction 1 as [|now h f t n up Hr IH Ht Hn|now h f t Hr IH Ht|now h f before c after Hr IH Hst]; intros Hfit.
  - split; cbn; [done|lia|set_solver|constructor|done|by left|by intros [?|?%elem_of_nil]].
  - assert (Hh : Forall sized h) by (clear -Hr; induction Hr; try done; apply Forall_app; split; [done|by repeat constructor]).
    pose proof (extends_carry h t n up Hh Hn) as Hex. assert (Hf : fits h).
    { unfold fits in *. rewrite !(ex_moved _ _ _ _ _ Hex) in Hfit. destruct up; cbn in Hfit; lia. }
    specialize (IH Hf). pose proof (observe_inv t0 now t h f n up _ IH Hex Hfit Ht) as Hi.
    destruct (observe_parts f t n up) as (_ & _ & _ & P4 & P5 & _). destruct (fi_bytes _ _ _ _ IH) as [B1 B2].
    unfold carry. rewrite P4, P5, B1, B2. unfold fits in Hfit. rewrite !(ex_moved _ _ _ _ _ Hex) in Hi, Hfit.
    pose proof (moved_nonneg h true Hh). pose proof (moved_nonneg h false Hh).
    destruct up; cbn [Bool.eqb] in *; rewrite ?Z.add_0_r in *; rewrite wrap_small by lia; exact Hi.
  - specialize (IH Hfit). unfold refreshClass. destruct (_ <? _).
    + destruct IH. split; try done; [lia|intros e He; specialize (fi_past0 e He); lia|]. destruct fi_window0 as [?|(s' & start & [])]; [by left|].
      right. exists s', start. split; try done. lia.
    + set (g := mkFlow _ _ _ _ _ t _ _ _ _). assert (Hg : flow_inv t0 now h g) by (destruct IH; by split).
      pose proof (observe_inv t0 now t h g 0 false h Hg (extends_nothing h t (fi_sized _ _ _ _ IH)) Hfit Ht) as Hi.
      destruct (observe_parts g t 0 false) as (_ & _ & _ & P4 & P5 & _). destruct (fi_bytes _ _ _ _ Hg) as [B1 B2].
      rewrite <- B1, <- B2, <- P4, <- P5 in Hi. clear -Hi. by destruct (observe g t 0 false).
  - specialize (IH Hfit). destruct IH. split; try done. cbn. intros [->|Hin]; apply fi_stored0; right; rewrite Hst; set_solver.
Qed.

(** What an observation says of the history. *)
Lemma seen_spec t0 t now h f n up h' :
  flow_inv t0 t h f -> extends h now n up h' -> fits h' -> t <= now ->
  let o := seen f now n up in
  BytesUp o = moved h' true /\ BytesDown o = moved h' false /\ Age o = (if now - t0 <=? 0 then 1 else now - t0) /\
  Bidirectional o = (moved h' true >? 0) && (moved h' false >? 0) /\
  exists s' start, s' + exchangeWindow <= start <= now /\ now < start + exchangeWindow /\
    (forall e, e ∈ h' -> p_at e < s' + exchangeWindow \/ start <= p_at e < start + exchangeWindow) /\
    SmallBidirectionalBursts o =
      (carried h' true s' (s' + exchangeWindow) + carried h' true start (start + exchangeWindow) <=? smallExchangeBytes) &&
      (carried h' false s' (s' + exchangeWindow) + carried h' false start (start + exchangeWindow) <=? smallExchangeBytes).
Proof.
  intros Hi Hex Hfit Ht. cbv zeta. pose proof (ex_sized _ _ _ _ _ Hex) as Hs. destruct Hi.
  pose proof (moved_nonneg h' true Hs). pose proof (moved_nonneg h' false Hs). unfold fits in Hfit.
  assert (H64 : forall d, moved h' d < 2 ^ 64) by (intros []; lia).
  destruct fi_bytes0 as [B1 B2], fi_started0 as [T0 _].
  assert (U : (if up then bytesUp f +u64 n else bytesUp f) = moved h' true /\ (if up then bytesDown f else bytesDown f +u64 n) = moved h' false).
  { rewrite B1, B2. rewrite !(ex_moved _ _ _ _ _ Hex) in *. destruct up; cbn [Bool.eqb] in *; rewrite wrap_small by lia; lia. }
  destruct U as [U1 U2].
  destruct (window_after t now h f n up h' Hex H64 fi_past0 Ht fi_window0) as (s' & start & Hw & Hn).
  destruct (window_sums _ _ _ _ _ Hw Hs H64) as [W1 W2].
  unfold seen, observation. rewrite recentBytes_answer. cbn [fst snd BytesUp BytesDown Age Bidirectional SmallBidirectionalBursts].
  rewrite U1, U2, T0, W1, W2. split; [done|]. split; [done|]. split; [done|]. split; [done|].
  destruct Hw. exists s', start. split; [lia|]. split; [lia|]. by split.
Qed.

(** A conversation: in no second does either direction carry more than half of
    [smallExchangeBytes], and before it has carried [BulkBytes] both ends have spoken. *)
Definition conversation (h : list payload) : Prop :=
  (forall up s, carried h up s (s + exchangeWindow) <= smallExchangeBytes / 2) /\
  (forall k, BulkBytes DefaultConfig <= moved (take k h) true + moved (take k h) false -> 0 < moved (take k h) true /\ 0 < moved (take k h) false).

Lemma conversation_prefix h e : sized e -> conversation (h ++ [e]) -> conversation h.
Proof.
  intros He [H1 H2]. split.
  - intros up s. specialize (H1 up s). rewrite carried_snoc in H1. unfold bytes_in, sized in *. destruct (_ && _) in H1; lia.
  - intros k. specialize (H2 (k `min` length h)%nat). rewrite take_app_le in H2 by lia.
    destruct (decide (k <= length h)%nat); [by rewrite Nat.min_l in H2|]. rewrite Nat.min_r, take_ge in H2 by lia. by rewrite take_ge by lia.
Qed.

Lemma conversation_not_bulk t0 t now h f n up h' :
  flow_inv t0 t h f -> extends h now n up h' -> fits h' -> t <= now -> conversation h' -> isBulk (classifier f) (seen f now n up) = false.
Proof.
  intros Hi Hex Hfit Ht [C1 C2]. destruct (seen_spec t0 t now h f n up h' Hi Hex Hfit Ht) as (S1 & S2 & S3 & S4 & s' & start & Hg & Hn & _ & S5).
  unfold isBulk. rewrite S1, S2, (fi_cfg _ _ _ _ Hi). unfold fits in Hfit. pose proof (ex_sized _ _ _ _ _ Hex) as Hs.
  pose proof (moved_nonneg h' true Hs). pose proof (moved_nonneg h' false Hs). rewrite wrap_small by lia.
  destruct (moved h' true + moved h' false >=? BulkBytes DefaultConfig) eqn:E; [|by rewrite andb_false_r].
  specialize (C2 (length h')). rewrite take_ge in C2 by lia. destruct C2 as [P1 P2]; [lia|].
  rewrite S4, S5. replace (moved h' true >? 0) with true by lia. replace (moved h' false >? 0) with true by lia.
  pose proof (C1 true s'). pose proof (C1 true start). pose proof (C1 false s'). pose proof (C1 false start).
  change (smallExchangeBytes / 2) with 32768 in *. change smallExchangeBytes with 65536.
  replace (_ <=? 65536) with true by lia. replace (_ <=? 65536) with true by lia. cbn. apply andb_false_r.
Qed.

Lemma class_run_sized t0 now h f : class_run t0 now h f -> Forall sized h.
Proof. induction 1; try done. apply Forall_app. split; [done|by repeat constructor]. Qed.

Lemma fits_prefix h e : sized e -> fits (h ++ [e]) -> fits h.
Proof. unfold fits, sized. intros He. rewrite !moved_snoc. unfold bytes_of. destruct (Bool.eqb _ _), (Bool.eqb _ _); lia. Qed.

Lemma observe_class f now n up : class (classifier (observe f now n up)) = ClassBulk <-> class (classifier f) = ClassBulk \/ isBulk (classifier f) (seen f now n up) = true.
Proof. destruct (observe_parts f now n up) as (-> & _). apply Observe_bulk. Qed.

Lemma conversation_run t0 now h f : class_run t0 now h f -> fits h -> conversation h -> class (classifier f) <> ClassBulk.
Proof.
  induction 1 as [|now h f t n up Hr IH Ht Hn|now h f t Hr IH Ht|now h f before c after Hr IH Hst]; intros Hfit Hc; [done| | |by apply IH].
  - pose proof (extends_carry h t n up (class_run_sized _ _ _ _ Hr) Hn) as Hex. assert (Hsz : sized (mkPayload t n up)) by done.
    assert (Hf : fits h) by (by eapply fits_prefix). assert (Hc' : conversation h) by (by eapply conversation_prefix).
    change (class (classifier (carry f t n up))) with (class (classifier (observe f t n up))). rewrite observe_class.
    intros [H|H]; [by apply (IH Hf Hc')|]. rewrite (conversation_not_bulk t0 now t h f n up _ (class_run_inv _ _ _ _ Hr Hf) Hex Hfit Ht Hc) in H. done.
  - unfold refreshClass. destruct (_ <? _); [by apply IH|]. set (g := mkFlow _ _ _ _ _ t _ _ _ _). rewrite observe_class.
    intros [H|H]; [by apply (IH Hfit Hc)|]. assert (Hg : flow_inv t0 now h g) by (destruct (class_run_inv _ _ _ _ Hr Hfit); by split).
    rewrite (conversation_not_bulk t0 now t h g 0 false h Hg (extends_nothing h t (class_run_sized _ _ _ _ Hr)) Hfit Ht Hc) in H. done.
Qed.

Lemma transfer_is_bulk t0 t now h f n up h' d :
  flow_inv t0 t h f -> extends h now n up h' -> fits h' -> t <= now -> BulkMinimumAge DefaultConfig <= now - t0 ->
  BulkBytes DefaultConfig <= moved h' true + moved h' false -> smallExchangeBytes < carried h' d (now - exchangeWindow) (now + 1) ->
  isBulk (classifier f) (seen f now n up) = true.
Proof.
  intros Hi Hex Hfit Ht Hage Htot Hd. destruct (seen_spec t0 t now h f n up h' Hi Hex Hfit Ht) as (S1 & S2 & S3 & S4 & s' & start & Hg & Hn & Hw & S5).
  unfold isBulk. rewrite S1, S2, S3, (fi_cfg _ _ _ _ Hi). unfold fits in Hfit. pose proof (ex_sized _ _ _ _ _ Hex) as Hs.
  pose proof (moved_nonneg h' true Hs). pose proof (moved_nonneg h' false Hs). rewrite wrap_small by lia.
  change (BulkMinimumAge DefaultConfig) with 1000000000 in *. replace (now - t0 <=? 0) with false by lia.
  replace (now - t0 >=? 1000000000) with true by lia. replace (_ >=? BulkBytes DefaultConfig) with true by lia.
  assert (Hle : forall x, carried h' x (now - exchangeWindow) (now + 1) <= carried h' x s' (s' + exchangeWindow) + carried h' x start (start + exchangeWindow)).
  { intros x. rewrite (carried_split h' x _ start) by (done || lia). pose proof window_pos.
    pose proof (carried_mono h' x (now - exchangeWindow) start s' (s' + exchangeWindow) Hs ltac:(intros e He ?; specialize (Hw e He); lia)).
    pose proof (carried_mono h' x start (now + 1) start (start + exchangeWindow) Hs ltac:(intros; lia)). lia. }
  assert (Hsmall : SmallBidirectionalBursts (seen f now n up) = false).
  { rewrite S5. specialize (Hle d). apply andb_false_iff. destruct d; [left|right]; lia. }
  rewrite Hsmall. cbn. by rewrite orb_true_r.
Qed.

(** Once bulk, and no older answer on its way. *)
Definition settled (f : flow) : Prop := class (classifier f) = ClassBulk /\ f_class f = ClassBulk /\ Forall (fun c => c = ClassBulk) (storing f).

Lemma observe_settled f now n up : settled f -> settled (observe f now n up).
Proof.
  intros (H1 & H2 & H3). destruct (observe_parts f now n up) as (P1 & _ & P3 & _ & _ & _ & P7). unfold settled. rewrite P1, P3, P7.
  assert (Hb : class (snd (Observe (classifier f) (seen f now n up))) = ClassBulk) by (apply Observe_bulk; by left).
  split; [done|]. split; [done|]. constructor; [|done]. by destruct (Observe_answer (classifier f) (seen f now n up)) as [-> _].
Qed.

Lemma settled_step f f' : settled f -> class_step f f' -> settled f'.
Proof.
  intros Hs Hst. destruct Hst as [f t n up|f t|f before c after H].
  - by apply (observe_settled f t n up).
  - unfold refreshClass. destruct (_ <? _); [done|]. by apply observe_settled.
  - destruct Hs as (H1 & H2 & H3). rewrite H in H3. apply Forall_app in H3 as [H3 H4]. apply Forall_cons in H4 as [-> H4].
    split; [done|]. split; [done|]. by apply Forall_app.
Qed.

(** A flow is classed by what it does.  Observations are taken one at a time; stores of
    their answers interleave freely.  A conversation,
    however long it lasts and however much it has carried, is never classed as bulk; a
    flow older than a second that has carried [BulkBytes] in all and more than
    [smallExchangeBytes] in one direction within the last second is bulk from that
    moment; and once it is, with no older answer left to be stored, the class every
    reader sees stays bulk and data is never coded again. *)
Theorem class_follows_traffic t0 now h f :
  class_run t0 now h f -> fits h ->
  (conversation h -> class (classifier f) <> ClassBulk /\ f_class f <> ClassBulk) /\
  (forall t n up d, now <= t -> 0 <= n -> fits (h ++ [mkPayload t n up]) -> BulkMinimumAge DefaultConfig <= t - t0 ->
     BulkBytes DefaultConfig <= moved (h ++ [mkPayload t n up]) true + moved (h ++ [mkPayload t n up]) false ->
     smallExchangeBytes < carried (h ++ [mkPayload t n up]) d (t - exchangeWindow) (t + 1) ->
     class (classifier (carry f t n up)) = ClassBulk) /\
  (settled f -> forall f', steps class_step f f' -> f_class f' = ClassBulk /\ prefersCoding f' = false).
Proof.
  intros Hr Hfit. pose proof (class_run_inv _ _ _ _ Hr Hfit) as Hi. split; [|split].
  - intros Hc. pose proof (conversation_run _ _ _ _ Hr Hfit Hc) as Hn. split; [done|]. intros H. apply Hn, (fi_stored _ _ _ _ Hi). by left.
  - intros t n up d Ht Hn Hfit' Hage Htot Hd. apply observe_class. right.
    by apply (transfer_is_bulk t0 now t h f n up _ d Hi (extends_carry h t n up (fi_sized _ _ _ _ Hi) Hn)).
  - intros Hs f' Hst. destruct (steps_invariant _ settled settled_step _ _ Hs Hst) as (_ & H & _). unfold prefersCoding. by rewrite H.
Qed.

(** Five exchanges of 32 KiB, one a second: 160 KiB in all, and not a transfer. *)
Lemma class_follows_traffic_witness : exists h f,
  class_run 0 (5000 * ms) h f /\ fits h /\ BulkBytes DefaultConfig <= moved h true + moved h false /\ class (classifier f) <> ClassBulk.
Proof.
  pose (p := fun i up => mkPayload (i * (1000 * ms)) 32768 up).
  pose (h := ((((([] ++ [p 1 true]) ++ [p 2 false]) ++ [p 3 true]) ++ [p 4 false]) ++ [p 5 true])).
  pose (c := fun f i up => carry f (i * (1000 * ms)) 32768 up).
  pose (f := c (c (c (c (c (newFlow 0) 1 true) 2 false) 3 true) 4 false) 5 true).
  assert (Hr : class_run 0 (5000 * ms) h f).
  { change (5000 * ms) with (5 * (1000 * ms)). apply (cr_carry 0 (4 * (1000 * ms))); [|unfold ms; lia|lia].
    apply (cr_carry 0 (3 * (1000 * ms))); [|unfold ms; lia|lia]. apply (cr_carry 0 (2 * (1000 * ms))); [|unfold ms; lia|lia].
    apply (cr_carry 0 (1 * (1000 * ms))); [|unfold ms; lia|lia]. apply (cr_carry 0 0); [|unfold ms; lia|lia]. apply cr_new. }
  assert (Hf : fits h) by (vm_compute; reflexivity).
  assert (Hc : conversation h).
  { split.
    - intros up s. unfold carried, bytes_in, h, p, ms. cbn. change exchangeWindow with 1000000000. change (smallExchangeBytes / 2) with 32768.
      destruct up; cbn; repeat (destruct (_ && _) eqn:?; bool_to_prop; cbn); lia.
    - intros k. do 6 (destruct k as [|k]; [vm_compute; intros H; try done; by exfalso; apply H|]).
      intros _. vm_compute. split; reflexivity. }
  exists h, f. split; [exact Hr|]. split; [exact Hf|]. split; [vm_compute; discriminate|].
  apply (class_follows_traffic 0 (5000 * ms) h f Hr Hf). exact Hc.
Defined.

(** The class the rest of the flow reads is stored after the classifier has let go of
    its lock, so a slower observer can put back an older answer: the word goes from
    bulk to new although the classifier never does. *)
Lemma stored_class_reverts : exists now h f f',
  class_run 0 now h f /\ f_class f = ClassBulk /\ class (classifier f) = ClassBulk /\ class_step f f' /\ f_class f' = ClassNew /\
  class (classifier f') = ClassBulk.
Proof.
  pose (f1 := carry (newFlow 0) (500 * ms) 1000 true). pose (f2 := carry f1 (1500 * ms) 200000 true).
  pose (f3 := store_class f2 [] ClassBulk [ClassNew]).
  exists (1500 * ms), (([] ++ [mkPayload (500 * ms) 1000 true]) ++ [mkPayload (1500 * ms) 200000 true]), f3, (store_class f3 [] ClassNew []).
  split; [apply cr_store; [|vm_compute; reflexivity]; apply (cr_carry 0 (500 * ms)); [|unfold ms; lia|lia]; apply (cr_carry 0 0); [|unfold ms; lia|lia]; apply cr_new|].
  split; [vm_compute; reflexivity|]. split; [vm_compute; reflexivity|]. split; [apply cs_store; vm_compute; reflexivity|].
  split; vm_compute; reflexivity.
Qed.

(** The finished bucket does not age: whatever the pause, the first observation after
    it still counts what came before. *)
Lemma recent_bytes_survive_pause r start gap : recentStart r = Some start -> exchangeWindow <= gap ->
  0 <= currentUp r < 2 ^ 64 -> fst (fst (recentBytes r (start + gap) 0 true)) = currentUp r.
Proof.
  intros H1 H2 H3. unfold recentBytes. rewrite H1. change (default (start + gap) (Some start)) with start.
  replace (start + gap - start >=? exchangeWindow) with true by lia. cbn [fst snd currentUp priorUp].
  change (0 +u64 0) with 0. rewrite Z.add_0_l. apply wrap_small. exact H3.
Qed.

(** A re-examination counts as a payload and as activity. *)
Lemma refresh_counts_as_payload f now : classRefreshInterval <= now - lastClassified f ->
  lastPayload (refreshClass f now) = now /\ lastActivity (refreshClass f now) = now.
Proof.
  intros H. unfold refreshClass. replace (_ <? _) with false by lia. unfold observe. destruct (recentBytes _ _ _ _) as [[u d] r].
  by destruct (Observe _ _).
Qed.
