(* ===== verification/Join.v ===== *)
(** How a client asks for a flow or for another lane ([internal/pep/client.go],
    [probe.go], [random.go]) and what the server makes of it.

    The requests the client writes and its reading of the answers are put against
    [Server]'s and [Lanes]' handling of the first frame of a stream; [wire] is what
    the other side reads of a frame that was written.  Opening a flow is retried
    around it, with the attempts, the context and the waits as inputs. *)
From S2P Require Import Prelude Frame Session Identity Udp Lanes Server.
Import protocol.

(** ** Opening a flow *)

Definition flowOpenAttempts : Z := 3.
Definition flowOpenRetryBaseDelay : Z := 500000000.

(** [randomDuration], given the eight bytes drawn, or none. *)
Definition randomDuration (maximum : Z) (raw : option Z) : Z :=
  if maximum <=? 0 then 0 else match raw with None => 0 | Some n => n mod (maximum + 1) end.

Definition flowOpenRetryDelay (failedAttempt : Z) (raw : option Z) : Z :=
  let failedAttempt := if failedAttempt <? 1 then 1 else failedAttempt in
  let window := Z.shiftl flowOpenRetryBaseDelay (Z.min (failedAttempt - 1) 4) in
  let half := Z.quot window 2 in
  half + randomDuration half raw.

(** The errors of one attempt: before anything was answered, or an answer. *)
Inductive open_error := OpenTransport | OpenIdentityMismatch | DestinationUnavailable | InvalidOpenAck | OpenCancelled.

Definition peerResponded (e : open_error) : bool :=
  match e with OpenIdentityMismatch | DestinationUnavailable | InvalidOpenAck => true | OpenTransport | OpenCancelled => false end.

(** The reading of the answer to an open; [None] is a failed read. *)
Definition open_answer (session : bytes) (flowID : Z) (response : option Frame) : result open_error unit :=
  match response with
  | None => Err OpenTransport
  | Some f =>
      let h := f_Header f in
      if negb (bool_decide (h_SessionID h = session)) || negb (h_FlowID h =? flowID) then Err OpenIdentityMismatch
      else if h_Type h =? TypeReset then Err DestinationUnavailable
      else if negb (h_Type h =? TypeOpenOK) || negb (len (f_Payload f) =? 0) then Err InvalidOpenAck
      else Ok tt
  end.

Section Retries.
Context {F : Type}.
(** Attempt [i], whether the context had ended after it, and the wait behind it. *)
Context (openOnce : Z -> result open_error F) (ctxDone : Z -> bool) (waitBeforeFlowOpenRetry : Z -> option open_error).

(** The loop, from attempt [attempt] on; the result with the number of attempts made. *)
Fixpoint open_loop (fuel : nat) (attempt : Z) (err : open_error) : result open_error F * Z :=
  match fuel with
  | O => (Err err, attempt - 1)
  | S fuel' =>
      match openOnce attempt with
      | Ok flow => (Ok flow, attempt)
      | Err e =>
          if peerResponded e || ctxDone attempt then (Err e, attempt)
          else if attempt <? flowOpenAttempts then
            match waitBeforeFlowOpenRetry attempt with
            | Some w => (Err w, attempt)
            | None => open_loop fuel' (attempt + 1) e
            end
          else open_loop fuel' (attempt + 1) e
      end
  end.

Definition openFlowWithRetries : result open_error F * Z := open_loop (Z.to_nat flowOpenAttempts) 1 OpenTransport.
End Retries.

(** ** Joining a lane *)

Definition resetCode (payload : bytes) : Z := match payload with [] => 0 | c :: _ => c end.
Definition encodeLaneID (lane : Z) : bytes := be_bytes 8 lane.

Definition join_frame (session : bytes) (flowID flags lane : Z) : Frame :=
  mkFrame (mkHeader Version TypeJoin flags session flowID 0 0 ClassBulk) (encodeLaneID lane).

Inductive join_error := LaneJoinRejected (message : bytes) | InvalidJoinAck | JoinTransport.

(** [completeLaneJoin] from the read of the answer on: the role of the lane. *)
Definition completeLaneJoin (session : bytes) (flowID flags : Z) (response : option Frame) : result join_error bool :=
  match response with
  | None => Err JoinTransport
  | Some f =>
      let h := f_Header f in
      if (h_Type h =? TypeReset) && bool_decide (h_SessionID h = session) && (h_FlowID h =? flowID)
      then Err (LaneJoinRejected (if len (f_Payload f) >? 1 then drop 1 (f_Payload f) else []))
      else if negb (h_Type h =? TypeOpenOK) || negb (bool_decide (h_SessionID h = session)) || negb (h_FlowID h =? flowID) || negb (len (f_Payload f) =? 0)
      then Err InvalidJoinAck
      else Ok (negb (Z.land flags FlagReserveControl =? 0))
  end.

(** [Probe]: a join that names no flow, and the answer it requires. *)
Definition probe_frame (session : bytes) : Frame := join_frame session 0 0 1.

Definition probe_answer (session : bytes) (response : option Frame) : bool :=
  match response with
  | None => false
  | Some f =>
      let h := f_Header f in
      bool_decide (h_SessionID h = session) && (h_FlowID h =? 0) && (h_Type h =? TypeReset) && (resetCode (f_Payload f) =? ResetProtocol)
  end.

(** ** The server's side *)

(** A frame as the other side reads it. *)
Definition wire (f : Frame) : Frame := mkFrame (sent_header f) (f_Payload f).

(** What [handleSession] and [handleLaneJoinOpen] write in answer to a join, with the
    flow found, its lanes, and an unused name for the new one.  A lane that is refused
    before the acknowledgement gets a reset, one that fails after it is closed.  The
    commit runs on its own here; how its critical sections interleave with other lanes
    and the end of the flow is [Lanes.lane_step].  The frames are what is written:
    whether the client gets them is up to the connection. *)
Definition serve_join (authorized : bool) (principal : Principal) (found : option flowInfo) (visit : list Z) (max : Z) (f : laneTable) (p : Z)
    (acknowledged : bool) (open : Frame) : list Frame * laneTable :=
  match read_open authorized open with
  | Dropped | OpenFlow => ([], f)
  | Rejected r => ([r], f)
  | JoinLane lane =>
      match handleLaneJoinOpen found principal lane open with
      | JoinRefused _ r => ([r], f)
      | JoinCompleted fs => (fs, f)
      | JoinCommitted control =>
          match commitJoinedLane visit max (with_lane f p (new_lane lane control true)) p acknowledged with
          | (None, f) => (open_ok open :: match found with Some info => replay_close info open | None => [] end, f)
          | (Some e, f) =>
              (if negb (l_closed (lane_at f p)) then [reset open ClassBulk ResetFlowLimit (text "lane unavailable")]
               else match e with AckNotWritten => [] | _ => [open_ok open] end, f)
          end
      end
  end.

(** ** Retries: the theorems *)

(** Every delay is at least half of its window and at most the whole of it; the
    windows double from half a second and stop at eight. *)
Lemma flowOpenRetryDelay_bounds n raw : (forall x, raw = Some x -> 0 <= x) ->
  let window := Z.shiftl flowOpenRetryBaseDelay (Z.min (Z.max n 1 - 1) 4) in
  window <= 8000000000 /\ window / 2 <= flowOpenRetryDelay n raw <= window.
Proof.
  intros Hraw. cbv zeta. unfold flowOpenRetryDelay, flowOpenRetryBaseDelay.
  replace (if n <? 1 then 1 else n) with (Z.max n 1) by (destruct (n <? 1) eqn:E; lia).
  set (k := Z.min (Z.max n 1 - 1) 4). assert (Hk : 0 <= k <= 4) by lia.
  assert (Hw : Z.shiftl 500000000 k = 2 * (250000000 * 2 ^ k)) by (rewrite Z.shiftl_mul_pow2 by lia; lia).
  assert (Hp : 0 < 2 ^ k <= 16) by (split; [apply Z.pow_pos_nonneg; lia|]; change 16 with (2 ^ 4); apply Z.pow_le_mono_r; lia).
  rewrite Hw, Z.quot_div_nonneg by lia. rewrite (Z.mul_comm 2), Z.div_mul by lia. set (half := 250000000 * 2 ^ k) in *.
  assert (Hd : 0 <= randomDuration half raw <= half).
  { unfold randomDuration. destruct (half <=? 0) eqn:E; [lia|]. destruct raw as [x|]; [|lia]. pose proof (Z.mod_pos_bound x (half + 1)). lia. }
  lia.
Qed.

(** An attempt after which another one is made: it ended without an answer, the
    context lives and the wait was not interrupted. *)
Definition attempt_lost {F} (openOnce : Z -> result open_error F) (ctxDone : Z -> bool) (wait : Z -> option open_error) (i : Z) : Prop :=
  exists e, openOnce i = Err e /\ peerResponded e = false /\ ctxDone i = false /\ wait i = None.

Lemma open_loop_spec {F} (openOnce : Z -> result open_error F) ctxDone wait fuel attempt err r n :
  attempt + Z.of_nat fuel = flowOpenAttempts + 1 -> (0 < fuel)%nat -> open_loop openOnce ctxDone wait fuel attempt err = (r, n) ->
  attempt <= n <= flowOpenAttempts /\ (forall i, attempt <= i < n -> attempt_lost openOnce ctxDone wait i) /\
  (r = openOnce n \/ exists e w, openOnce n = Err e /\ peerResponded e = false /\ wait n = Some w /\ r = Err w) /\
  (n < flowOpenAttempts -> ~ attempt_lost openOnce ctxDone wait n).
Proof.
  revert attempt err. induction fuel as [|fuel IH]; intros attempt err Hf Hpos; [lia|]. cbn [open_loop].
  assert (Hnone : forall i, attempt <= i < attempt -> attempt_lost openOnce ctxDone wait i) by (intros; lia).
  destruct (openOnce attempt) as [flow|e] eqn:E1.
  { intros [= <- <-]. split; [lia|]. split; [done|]. split; [by left|]. intros _ (e & H & _). congruence. }
  destruct (peerResponded e || ctxDone attempt) eqn:E2.
  { intros [= <- <-]. split; [lia|]. split; [done|]. split; [by left|]. intros _ (e' & H1 & H2 & H3 & _). rewrite E1 in H1. injection H1 as <-. by rewrite H2, H3 in E2. }
  apply orb_false_iff in E2 as [E2 E3]. destruct fuel as [|fuel].
  { replace (attempt <? flowOpenAttempts) with false by lia. cbn [open_loop]. intros [= <- <-]. replace (attempt + 1 - 1) with attempt by lia.
    split; [lia|]. split; [done|]. split; [by left|lia]. }
  replace (attempt <? flowOpenAttempts) with true by lia. destruct (wait attempt) as [w|] eqn:E4.
  { intros [= <- <-]. split; [lia|]. split; [done|]. split; [right; by exists e, w|]. intros _ (_ & _ & _ & _ & H). congruence. }
  intros H. destruct (IH (attempt + 1) e ltac:(lia) ltac:(lia) H) as (I1 & I2 & I3 & I4). split; [lia|]. split; [|done].
  intros i Hi. destruct (decide (i = attempt)) as [->|Hne]; [by exists e|]. apply I2. lia.
Qed.

(** Three attempts at most, the next one exactly when the last was lost, and the
    result is the last attempt's, or the interruption of the wait. *)
Lemma openFlowWithRetries_spec {F} (openOnce : Z -> result open_error F) ctxDone wait r n :
  openFlowWithRetries openOnce ctxDone wait = (r, n) ->
  1 <= n <= flowOpenAttempts /\ (forall i, 1 <= i < n -> attempt_lost openOnce ctxDone wait i) /\
  (r = openOnce n \/ exists e w, openOnce n = Err e /\ peerResponded e = false /\ wait n = Some w /\ r = Err w) /\
  (n < flowOpenAttempts -> ~ attempt_lost openOnce ctxDone wait n).
Proof. apply open_loop_spec; vm_compute; [reflexivity|lia]. Qed.

(** ** Joins: the theorems *)

Section Handshake.
Context (session : bytes) (flowID lane flags : Z).
Hypothesis Hsession : length session = 16%nat /\ Forall is_byte session /\ IsZeroSessionID session = false.
Hypothesis Hflow : 0 < flowID < 2 ^ 64.
Hypothesis Hlane : 0 < lane < 2 ^ 64.
Hypothesis Hflags : flags = 0 \/ flags = FlagReserveControl.

Let asked := wire (join_frame session flowID flags lane).

Lemma lane_bytes : len (encodeLaneID lane) = 8 /\ be_val (encodeLaneID lane) = lane.
Proof using Hlane. clear Hsession Hflow Hflags asked. split; [unfold len, encodeLaneID; rewrite be_bytes_length; reflexivity|]. apply be_val_be_bytes. change (256 ^ Z.of_nat 8) with (2 ^ 64). lia. Qed.

Lemma join_frame_sendable : sendable (join_frame session flowID flags lane).
Proof using Hsession Hflow Hlane Hflags.
  destruct Hsession as (H1 & H2 & _), lane_bytes as [Hl _]. split.
  - unfold Header_typed, in_range. cbn. repeat split; try done; try lia; destruct Hflags as [-> | ->]; vm_compute; done.
  - unfold sent_header. cbn [f_Payload join_frame]. rewrite Hl. destruct Hflags as [-> | ->]; reflexivity.
Qed.

Lemma request_read authorized : read_open authorized asked = if authorized then JoinLane lane else Dropped.
Proof using Hsession Hflow Hlane Hflags.
  destruct Hsession as (_ & _ & H3), lane_bytes as [Hl Hv]. unfold read_open. destruct authorized; [|done].
  cbn [asked wire f_Header f_Payload sent_header set_PayloadLen join_frame h_Type h_SessionID h_FlowID h_Sequence h_Flags negb].
  rewrite H3, Hl, Hv. replace (flowID =? 0) with false by lia. replace (lane =? 0) with false by lia.
  destruct Hflags as [-> | ->]; reflexivity.
Qed.

Lemma wire_reset open class code message : h_SessionID (f_Header open) = session -> h_FlowID (f_Header open) = flowID ->
  exists m, completeLaneJoin session flowID flags (Some (wire (reset open class code message))) = Err (LaneJoinRejected m).
Proof using.
  intros H1 H2. unfold completeLaneJoin, reset, reply. cbn. rewrite H1, H2, bool_decide_true, Z.eqb_refl by done. cbn. eauto.
Qed.

Lemma wire_open_ok : completeLaneJoin session flowID flags (Some (wire (open_ok asked))) = Ok (negb (Z.land flags FlagReserveControl =? 0)).
Proof using. unfold completeLaneJoin, open_ok, reply. cbn. by rewrite bool_decide_true, Z.eqb_refl. Qed.
End Handshake.

(** A commit that succeeds leaves the lane in the table and healthy, with its role. *)
Lemma commit_installs visit max f p id control f' :
  lane_at f p = new_lane id control true -> commitJoinedLane visit max f p true = (None, f') ->
  lanes f' !! id = Some p /\ healthy (lane_at f' p) = true /\ l_control (lane_at f' p) = control.
Proof.
  intros Hp H. unfold commitJoinedLane in H. rewrite Hp in H. destruct (_ && _); [done|]. unfold addLane in H. rewrite Hp in H.
  cbn [l_id l_control new_lane] in H. destruct (flow_closed f); [done|]. destruct (lanes f !! id); [done|].
  set (g := mkTable _ _ _ _ _ _) in H. cbn [negb] in H. assert (Hg : lane_at g p = new_lane id control true) by done.
  set (k := if laneCount g >? max then snd (retireOldestLane visit g control) else g) in H.
  assert (Hk : l_id (lane_at k p) = id /\ l_control (lane_at k p) = control /\ l_staged (lane_at k p) = true).
  { unfold k. destruct (_ >? _); [|by rewrite Hg]. unfold retireOldestLane. destruct (fold_left _ _ _) as [v|]; cbn [snd]; [|by rewrite Hg].
    rewrite close_at. case_decide as Hd; [subst v|]; unfold lane_at in *; cbn in *; by rewrite Hg. }
  clearbody k. destruct Hk as (K1 & K2 & K3). unfold activateLane in H. rewrite K1, K3 in H. cbn [negb] in H.
  destruct (negb (bool_decide (lanes k !! id = Some p)) || l_closed (lane_at k p) || flow_closed k) eqn:E; [done|].
  assert (Hn : lanes k !! id = Some p /\ l_closed (lane_at k p) = false).
  { case_bool_decide; [|done]. cbn in E. by destruct (l_closed (lane_at k p)). }
  destruct Hn as [N1 N2]. destruct (l_ready (lane_at k p)) eqn:Er; injection H as <-.
  - split; [done|]. unfold healthy, laneReady. by rewrite N2, Er, orb_true_r.
  - split; [done|]. unfold lane_at at 1 3. cbn. rewrite lookup_insert_eq. cbn. unfold healthy, laneReady. cbn. by rewrite N2, orb_true_r.
Qed.

(** A lane that was not retired stays ready to be activated. *)
Lemma commit_not_closed visit max f p id control e f' :
  lane_at f p = new_lane id control true -> lane_objs f !! p <> None -> (forall i q, lanes f !! i = Some q -> q <> p /\ l_id (lane_at f q) = i) ->
  commitJoinedLane visit max f p true = (Some e, f') -> f' = f /\ l_closed (lane_at f' p) = false.
Proof.
  intros Hp Hob Ht H. unfold commitJoinedLane in H. rewrite Hp in H. destruct (_ && _); [injection H as <- <-; by rewrite Hp|].
  unfold addLane in H. rewrite Hp in H. cbn [l_id l_control new_lane] in H.
  destruct (flow_closed f) eqn:Ef; [injection H as <- <-; by rewrite Hp|]. destruct (lanes f !! id) eqn:El; [injection H as <- <-; by rewrite Hp|].
  set (g := mkTable _ _ _ _ _ _) in H. cbn [negb] in H. exfalso.
  set (k := if laneCount g >? max then snd (retireOldestLane visit g control) else g) in H.
  assert (Hk : lane_at k p = new_lane id control true /\ lanes k !! id = Some p /\ flow_closed k = false).
  { assert (Hg : lane_at g p = new_lane id control true /\ lanes g !! id = Some p /\ flow_closed g = false) by (split; [done|]; split; [apply lookup_insert_eq|done]).
    destruct Hg as (G1 & G2 & G3). unfold k. destruct (_ >? _); [|done]. unfold retireOldestLane. destruct (fold_left _ _ _) as [v|] eqn:Ev; cbn [snd]; [|done].
    assert (Hv : v <> p /\ l_id (lane_at g v) <> id).
    { clear H k. enough (Hinv : forall vs a w, fold_left (older_victim g control) vs a = Some w ->
        (forall u, a = Some u -> u <> p /\ l_id (lane_at g u) <> id) -> w <> p /\ l_id (lane_at g w) <> id) by (by eapply (Hinv visit None)).
      intros vs. induction vs as [|x vs IH]; intros a w Hw Ha; cbn in Hw; [by apply Ha|]. apply (IH _ _ Hw). intros u Hu. unfold older_victim in Hu.
      destruct (lanes g !! x) as [q|] eqn:Eq; [|by apply Ha]. destruct (_ || _) eqn:Eo; [by apply Ha|].
      assert (Hq : q <> p /\ l_id (lane_at g q) <> id).
      { cbn in Eq. destruct (decide (id = x)) as [<-|Hx]; [rewrite lookup_insert_eq in Eq; simplify_eq; by rewrite G1 in Eo|].
        rewrite lookup_insert_ne in Eq by done. destruct (Ht _ _ Eq) as [Hq1 Hq2]. split; [done|]. change (lane_at g q) with (lane_at f q). congruence. }
      destruct a as [v'|]; [|by simplify_eq]. destruct (_ <? _); simplify_eq; [done|by apply Ha]. }
    destruct Hv as [Hv1 Hv2]. split; [rewrite close_at; rewrite decide_False by done; exact G1|]. split; [|done]. cbn [lanes close_lane set_objs set_lanes].
    by rewrite lookup_delete_ne. }
  clearbody k. destruct Hk as (K1 & K2 & K3). unfold activateLane in H. rewrite K1 in H. cbn [l_staged l_id l_closed l_ready new_lane negb] in H.
  rewrite bool_decide_true, K3 in H by done. cbn in H. done.
Qed.

(** Client and server agree on a join.  Whatever flow the server finds, whatever lanes it
    has, when nothing interferes with the commit and whether or not the answer reaches
    the client: the request survives the wire; the client takes the lane only when the
    server has it in its table, healthy, in the role asked for, under the same device, or
    when the flow it names is over and the client is told how; when the client reads a
    refusal, the server's table is as it was; it never reads an invalid acknowledgement;
    it is left without an answer only when the device is not authorized or the answer was
    lost, and then the lane may be in the table all the same; and a probe succeeds exactly
    when the server authorizes the device. *)
Theorem join_handshake_agrees session flowID lane flags authorized principal found visit max f p delivered :
  length session = 16%nat /\ Forall is_byte session /\ IsZeroSessionID session = false ->
  0 < flowID < 2 ^ 64 -> 0 < lane < 2 ^ 64 -> flags = 0 \/ flags = FlagReserveControl ->
  lane_objs f !! p = None -> table_ok f ->
  let request := wire (join_frame session flowID flags lane) in
  let '(frames, f') := serve_join authorized principal found visit max f p true request in
  ParseFrameOwned (frame_image (join_frame session flowID flags lane)) = Ok request /\
  match completeLaneJoin session flowID flags (if delivered : bool then option_map wire (head frames) else None) with
  | Ok control => control = negb (flags =? 0) /\ authorized = true /\
      exists info, found = Some info /\ fi_flowID info = flowID /\ samePrincipal (fi_principal info) principal = true /\
        (fi_completed info = true \/ lanes f' !! lane = Some p /\ healthy (lane_at f' p) = true /\ l_control (lane_at f' p) = control)
  | Err (LaneJoinRejected _) => authorized = true /\ lanes f' = lanes f
  | Err InvalidJoinAck => False
  | Err JoinTransport => authorized = false \/ delivered = false
  end /\
  probe_answer session (match read_open authorized (wire (probe_frame session)) with Rejected r => Some (wire r) | _ => None end) = authorized.
Proof.
  intros Hs Hfl Hla Hfg Hp Ht request. pose proof (parse_sendable _ (join_frame_sendable session flowID lane flags Hs Hfl Hla Hfg)) as Hparse.
  assert (Hprobe : probe_answer session (match read_open authorized (wire (probe_frame session)) with Rejected r => Some (wire r) | _ => None end) = authorized).
  { destruct Hs as (_ & _ & Hz). unfold read_open. destruct authorized; [|done]. cbn. rewrite Hz. cbn. by rewrite bool_decide_true. }
  destruct delivered; [|destruct (serve_join _ _ _ _ _ _ _ _ _); by split_and!; [|right|]].
  assert (Hrole : negb (Z.land flags FlagReserveControl =? 0) = negb (flags =? 0)) by (by destruct Hfg as [-> | ->]).
  unfold serve_join. unfold request. rewrite (request_read session flowID lane flags Hs Hfl Hla Hfg).
  destruct authorized; [|by split_and!; [|left|]]. fold request. pose proof (wire_open_ok session flowID lane flags) as Hok. fold request in Hok.
  unfold handleLaneJoinOpen. replace (h_SessionID (f_Header request)) with session by done. replace (h_FlowID (f_Header request)) with flowID by done.
  destruct Hs as (_ & _ & ->). replace (lane =? 0) with false by lia. replace (flowID =? 0) with false by lia. cbn [orb].
  assert (Hrej : forall code message, exists m,
      completeLaneJoin session flowID flags (option_map wire (head [reset request ClassBulk code message])) = Err (LaneJoinRejected m))
    by (intros code message; apply wire_reset; done).
  destruct found as [info|]; [|split; [done|]; split; [|done]; destruct (Hrej ResetProtocol (text "unknown session")) as [m Hm]; by rewrite Hm].
  destruct (fi_flowID info =? flowID) eqn:Ef; cbn [negb];
    [|split; [done|]; split; [|done]; destruct (Hrej ResetProtocol (text "unknown session")) as [m Hm]; by rewrite Hm].
  destruct (samePrincipal (fi_principal info) principal) eqn:Es; cbn [negb];
    [|split; [done|]; split; [|done]; destruct (Hrej ResetProtocol (text "unknown session")) as [m Hm]; by rewrite Hm].
  replace (h_Flags (f_Header request)) with flags by done.
  destruct (negb (Z.land flags FlagReserveControl =? 0) && negb (fi_reserveControl info));
    [split; [done|]; split; [|done]; destruct (Hrej ResetProtocol (text "invalid control lane replacement")) as [m Hm]; by rewrite Hm|].
  destruct (fi_completed info) eqn:Ec.
  { split; [done|]. split; [|done]. cbn [head option_map]. rewrite Hok. split; [done|]. split; [done|].
    exists info. split; [done|]. split; [lia|]. split; [done|]. by left. }
  set (control := negb (Z.land flags FlagReserveControl =? 0)). set (g := with_lane f p (new_lane lane control true)).
  assert (Hg : lane_at g p = new_lane lane control true) by (unfold lane_at, g; cbn; by rewrite lookup_insert_eq).
  destruct (commitJoinedLane visit max g p true) as [[e|] f'] eqn:Em.
  - assert (Hf : f' = g /\ l_closed (lane_at f' p) = false).
    { apply (commit_not_closed visit max g p lane control e f' Hg); [unfold g; cbn; by rewrite lookup_insert_eq| |done].
      intros i q Hq. destruct (Ht i q Hq) as (l & Hl & <-). assert (q <> p) by congruence. split; [done|].
      unfold lane_at, g. cbn. by rewrite lookup_insert_ne, Hl by done. }
    destruct Hf as [-> Hc]. rewrite Hc. cbn [negb]. split; [done|]. split; [|done].
    destruct (Hrej ResetFlowLimit (text "lane unavailable")) as [m Hm]. by rewrite Hm.
  - split; [done|]. split; [|done]. cbn [head option_map]. rewrite Hok. split; [done|]. split; [done|].
    exists info. split; [done|]. split; [lia|]. split; [done|]. right. by apply (commit_installs visit max g p lane control).
Qed.

(** The control lane of a flow has failed; the client joins another in its place. *)
Lemma join_handshake_agrees_witness : exists info f f',
  let session := replicate 16 7 in
  let request := wire (join_frame session 5 FlagReserveControl 3) in
  serve_join true (fi_principal info) (Some info) [0; 3] 2 f 11 true request = ([open_ok request], f') /\
  completeLaneJoin session 5 FlagReserveControl (Some (wire (open_ok request))) = Ok true /\
  (lanes f' !! 3 = Some 11 /\ healthy (lane_at f' 11) = true).
Proof.
  pose (info := mkInfo (replicate 16 7) 5 (mkPrincipal [1] [2] [3] [4]) true FlagAckUp false false 0 false false 0).
  pose (f := mkTable {[0 := 10]} {[10 := mkLane 0 true false true true]} 1 1 false true).
  pose (r := serve_join true (fi_principal info) (Some info) [0; 3] 2 f 11 true (wire (join_frame (replicate 16 7) 5 FlagReserveControl 3))).
  exists info, f, (snd r). cbv zeta.
  assert (Hr : r = ([open_ok (wire (join_frame (replicate 16 7) 5 FlagReserveControl 3))], snd r)) by (vm_compute; reflexivity).
  assert (Hc : completeLaneJoin (replicate 16 7) 5 FlagReserveControl (Some (wire (open_ok (wire (join_frame (replicate 16 7) 5 FlagReserveControl 3))))) = Ok true)
    by (vm_compute; reflexivity).
  split; [exact Hr|]. split; [exact Hc|].
  assert (Hs : length (replicate 16 7) = 16%nat /\ Forall is_byte (replicate 16 7) /\ IsZeroSessionID (replicate 16 7) = false)
    by (split; [reflexivity|]; split; [by apply Forall_replicate; vm_compute|vm_compute; reflexivity]).
  assert (Ht : table_ok f).
  { intros id p Hp. unfold f in Hp. cbn in Hp. apply lookup_singleton_Some in Hp as [<- <-]. eexists. split; [vm_compute; reflexivity|reflexivity]. }
  pose proof (join_handshake_agrees (replicate 16 7) 5 3 FlagReserveControl true (fi_principal info) (Some info) [0; 3] 2 f 11 true Hs ltac:(lia) ltac:(lia)
    (or_intror eq_refl) eq_refl Ht) as H. cbv zeta in H. fold r in H. rewrite Hr in H. cbn [head option_map] in H. rewrite Hc in H.
  destruct H as (_ & (_ & _ & i & Hi & _ & _ & [Hd|(H1 & H2 & _)]) & _); [injection Hi as <-; discriminate Hd|]. split; [exact H1|exact H2].
Defined.

(** A client whose first join was answered, but whose answer was lost, asks again with
    the same lane identifier, as [openRecoveryLane] does when it falls back from the
    shared connection to one of its own.  The server still has the first lane in its
    table, closed or not, refuses the second, and the refusal reads like that of a
    session it does not hold. *)
Lemma repeated_join_refused session flowID lane flags principal info visit max f p q :
  length session = 16%nat /\ Forall is_byte session /\ IsZeroSessionID session = false ->
  0 < flowID < 2 ^ 64 -> 0 < lane < 2 ^ 64 -> flags = 0 \/ flags = FlagReserveControl ->
  fi_flowID info = flowID -> samePrincipal (fi_principal info) principal = true -> fi_completed info = false ->
  (flags = FlagReserveControl -> fi_reserveControl info = true) ->
  lanes f !! lane = Some q -> lane_objs f !! p = None -> q <> p ->
  exists message,
    completeLaneJoin session flowID flags (option_map wire (head (fst
      (serve_join true principal (Some info) visit max f p true (wire (join_frame session flowID flags lane)))))) = Err (LaneJoinRejected message).
Proof.
  intros Hs Hfl Hla Hfg Hf Hp Hc Hr Hq Hn Hqp. unfold serve_join. rewrite (request_read session flowID lane flags Hs Hfl Hla Hfg).
  set (request := wire (join_frame session flowID flags lane)). unfold handleLaneJoinOpen.
  replace (h_SessionID (f_Header request)) with session by done. replace (h_FlowID (f_Header request)) with flowID by done.
  destruct Hs as (_ & _ & ->). replace (lane =? 0) with false by lia. replace (flowID =? 0) with false by lia. cbn [orb].
  rewrite Hf, Z.eqb_refl, Hp, Hc. cbn [negb]. replace (h_Flags (f_Header request)) with flags by done.
  assert (Hctl : negb (Z.land flags FlagReserveControl =? 0) && negb (fi_reserveControl info) = false).
  { destruct Hfg as [-> | ->]; [done|]. rewrite Hr by done. done. }
  rewrite Hctl. set (control := negb (Z.land flags FlagReserveControl =? 0)). set (g := with_lane f p (new_lane lane control true)).
  assert (Hg : lane_at g p = new_lane lane control true) by (unfold lane_at, g; cbn; by rewrite lookup_insert_eq).
  assert (Hm : exists e, commitJoinedLane visit max g p true = (Some e, g)).
  { unfold commitJoinedLane. destruct ((laneCount g >=? max) && _); [by exists LaneLimitReached|]. unfold addLane. rewrite Hg. cbn [l_id new_lane].
    destruct (flow_closed g); [by exists FlowIsClosed|]. change (lanes g) with (lanes f). rewrite Hq. by exists DuplicateLaneID. }
  destruct Hm as [e ->]. rewrite Hg. cbn [l_closed new_lane negb fst head option_map]. by apply wire_reset.
Qed.
