(* ===== verification/Manage.v ===== *)
(** The lane manager of a client flow: [manageQUICLanes], [shouldPrewarmBulkLane] and
    the outcomes of [openRecoveryLane] in [internal/pep/client.go], with
    [noteControlPoolFlowClosed] that feeds its decision and the watch on the uplink of
    [internal/pep/uplink.go].

    A tick of the manager's loop is a function of its state and of what it observes;
    the goroutine that opens the isolation lane, and the channel it answers on, are
    steps between ticks.  Times are nanoseconds. *)
From S2P Require Import Prelude Classify.

Definition sec : Z := 1000000000.

Definition maxLaneRecoveryAttempts : Z := 8.
Definition laneRecoveryResetAfter : Z := 300 * sec.
Definition minLaneProbeBackoff : Z := 10 * sec.
Definition maxLaneProbeBackoff : Z := 60 * sec.
Definition maxLaneProbeAttempts : Z := 4.
Definition laneDecisionInterval : Z := 500 * ms.
Definition bulkLanePrewarmBytes : Z := 64 * 1024.
Definition bulkLanePrewarmAge : Z := 500 * ms.
Definition bulkLaneAsymmetry : Z := 8.
Definition bulkConnectionRetryInterval : Z := sec.

(** ** What a tick observes *)

(** The fields of [flowSnapshot] the manager reads. *)
Record flowSnapshot := mkSnapshot { s_Class : Class; s_HealthyLanes : Z; s_Bytes : Z; s_BytesUp : Z; s_BytesDown : Z; s_Elapsed : Z }.

Definition shouldPrewarmBulkLane (s : flowSnapshot) : bool :=
  if (s_Elapsed s <? bulkLanePrewarmAge) || (s_Bytes s <? bulkLanePrewarmBytes) then false
  else
    let '(smaller, larger) := if s_BytesUp s >? s_BytesDown s then (s_BytesDown s, s_BytesUp s) else (s_BytesUp s, s_BytesDown s) in
    if smaller =? 0 then larger >=? bulkLanePrewarmBytes else larger / smaller >=? bulkLaneAsymmetry.

(** How opening a lane ended: a lane, or which error. *)
Inductive join_outcome := JoinedLane | BulkPending | JoinRefusedByPeer | BulkLimit | JoinFailed.
Inductive recovery_outcome := Recovered | RecoveryRefused | RecoveryCancelled | RecoveryFailed.

Record tick_env := mkTick {
  t_finished : bool;       (* finSent and remoteFinSeen *)
  t_cancelled : bool;      (* the context or the flow has ended when an answer is taken *)
  t_drain : Z;
  t_added : bool;          (* addLane accepts the lane *)
  t_now : Z;
  t_snapshot : flowSnapshot;
  t_done : bool;           (* doneChanClosed, in either place it is asked *)
  t_recovery : recovery_outcome;
  t_since : Z;
  t_active : Z;            (* quicPoolActive *)
  t_fanout : bool;         (* shortFlowFanout *)
  t_joinID : bool          (* allocateJoinID has an identifier left *)
}.

(** ** The manager *)

Record manager := mkManager {
  joinPending : bool;
  joins : option join_outcome;      (* the channel's one slot *)
  m_joining : bool;                 (* the goroutine that opens a lane is under way *)
  isolated : bool;
  lastDecision : option Z;
  recoveryBackoff : Z;
  nextRecovery : option Z;
  recoveryAttempts : Z;
  lastRecoveryAttempt : option Z;
  isolationBlockedUntil : option Z;
  isolationBackoff : Z;
  isolationAttempts : Z;
  m_recoveries : list Z;            (* when the attempts since the last reset were made, newest first *)
  m_begun : Z;                      (* isolation lanes begun *)
  m_free : Z                        (* of them, those that attempted nothing *)
}.

Definition new_manager : manager := mkManager false None false false None 0 None 0 None None 0 0 [] 0 0.

(** Why the manager returned. *)
Inductive manager_end := FlowCompleted | ManagerCancelled | RecoveryAbandoned | ResumeRefused | NoLaneID.

Definition before (now : Z) (t : option Z) : bool := match t with Some t => now <? t | None => false end.

Definition doubled (cap b : Z) : Z := if b <? cap then (if b * 2 >? cap then cap else b * 2) else b.
Definition grow (first cap b : Z) : Z := if b =? 0 then first else doubled cap b.

(** One answer taken from [joins]; [None] when the manager returns. *)
Definition take_join (e : tick_env) (m : manager) (r : join_outcome) : option manager :=
  let with_ isolated' blocked backoff attempts free :=
    Some (mkManager false None (m_joining m) isolated' (lastDecision m) (recoveryBackoff m) (nextRecovery m) (recoveryAttempts m) (lastRecoveryAttempt m)
      blocked backoff attempts (m_recoveries m) (m_begun m) free) in
  match r with
  | JoinedLane => with_ (if t_added e then true else isolated m) (isolationBlockedUntil m) (isolationBackoff m) (isolationAttempts m) (m_free m)
  | _ =>
      if t_cancelled e then None
      else
        match r with
        | BulkPending =>
            with_ (isolated m) (Some (t_drain e + bulkConnectionRetryInterval)) (isolationBackoff m)
              (if isolationAttempts m >? 0 then isolationAttempts m - 1 else isolationAttempts m) (m_free m + 1)
        | JoinRefusedByPeer => with_ true (isolationBlockedUntil m) (isolationBackoff m) (isolationAttempts m) (m_free m)
        | _ =>
            let backoff := grow minLaneProbeBackoff maxLaneProbeBackoff (isolationBackoff m) in
            with_ (isolated m) (Some (t_drain e + backoff)) backoff (isolationAttempts m) (m_free m)
        end
  end.

Definition drain (e : tick_env) (m : manager) : option manager :=
  match joins m with Some r => take_join e m r | None => Some m end.

(** No healthy lane is left. *)
Definition recover (e : tick_env) (m : manager) : manager_end + manager :=
  if t_done e then inl ManagerCancelled
  else if recoveryAttempts m >=? maxLaneRecoveryAttempts then inl RecoveryAbandoned
  else if before (t_now e) (nextRecovery m) then inr m
  else
    let next backoff after :=
      inr (mkManager (joinPending m) (joins m) (m_joining m) (isolated m) (lastDecision m) after (Some (t_now e + backoff)) (recoveryAttempts m + 1)
        (Some (t_now e)) (isolationBlockedUntil m) (isolationBackoff m) (isolationAttempts m) (t_now e :: m_recoveries m) (m_begun m) (m_free m)) in
    match t_recovery e with
    | RecoveryRefused => inl ResumeRefused
    | RecoveryCancelled | RecoveryFailed => let b := grow sec (15 * sec) (recoveryBackoff m) in next b b
    | Recovered => let b := if recoveryBackoff m =? 0 then sec else recoveryBackoff m in next b (doubled (15 * sec) b)
    end.

(** The budget of recoveries is given back after a healthy dwell. *)
Definition reset_budget (e : tick_env) (m : manager) : manager :=
  if (recoveryAttempts m >? 0) && match lastRecoveryAttempt m with Some t => t_since e - t >=? laneRecoveryResetAfter | None => false end
  then mkManager (joinPending m) (joins m) (m_joining m) (isolated m) (lastDecision m) 0 None 0 None (isolationBlockedUntil m) (isolationBackoff m)
         (isolationAttempts m) [] (m_begun m) (m_free m)
  else m.

(** The decision to move a bulk flow to a connection of its own. *)
Definition isolate (reserve : bool) (e : tick_env) (m : manager) : manager_end + manager :=
  let s := t_snapshot e in
  if isolated m || negb reserve || joinPending m then inr m
  else if t_active e <=? 1 then inr m
  else if t_fanout e then inr m
  else if negb (bool_decide (s_Class s = ClassBulk)) && negb (shouldPrewarmBulkLane s) then inr m
  else if match lastDecision m with Some t => t_now e - t <? laneDecisionInterval | None => false end then inr m
  else
    let decided pending attempts begun :=
      mkManager pending (joins m) (pending || m_joining m) (isolated m) (Some (t_now e)) (recoveryBackoff m) (nextRecovery m) (recoveryAttempts m)
        (lastRecoveryAttempt m) (isolationBlockedUntil m) (isolationBackoff m) attempts (m_recoveries m) begun (m_free m) in
    if (isolationAttempts m >=? maxLaneProbeAttempts) || t_done e || before (t_now e) (isolationBlockedUntil m)
    then inr (decided (joinPending m) (isolationAttempts m) (m_begun m))
    else if negb (t_joinID e) then inl NoLaneID
    else inr (decided true (isolationAttempts m + 1) (m_begun m + 1)).

(** A tick of the loop. *)
Definition tick (reserve : bool) (e : tick_env) (m : manager) : manager_end + manager :=
  if t_finished e then inl FlowCompleted
  else
    match drain e m with
    | None => inl ManagerCancelled
    | Some m => if s_HealthyLanes (t_snapshot e) =? 0 then recover e m else isolate reserve e (reset_budget e m)
    end.

(** The goroutine answers: the channel has room, or the manager's context has ended. *)
Definition join_answers (m : manager) (r : join_outcome) : manager :=
  mkManager (joinPending m) (Some r) false (isolated m) (lastDecision m) (recoveryBackoff m) (nextRecovery m) (recoveryAttempts m) (lastRecoveryAttempt m)
    (isolationBlockedUntil m) (isolationBackoff m) (isolationAttempts m) (m_recoveries m) (m_begun m) (m_free m).

Inductive manager_step (reserve : bool) : manager -> manager -> Prop :=
| mg_tick m e m' : tick reserve e m = inr m' -> manager_step reserve m m'
| mg_answer m r : m_joining m = true -> joins m = None -> manager_step reserve m (join_answers m r).

(** ** Sharing of the control connection *)

Record sharing := mkSharing { quicPoolActive : Z; shortFlowFanout : bool; quicFanoutStarted : Z }.

(** The count of [dialPooledQUICLane]. *)
Definition noteControlPoolFlowOpened (now : Z) (s : sharing) : sharing :=
  mkSharing (quicPoolActive s + 1) (shortFlowFanout s) (if quicPoolActive s + 1 =? 2 then now else quicFanoutStarted s).

(** [now] is the clock, [opened] when the flow that closes was opened, if known. *)
Definition noteControlPoolFlowClosed (now : Z) (opened : option Z) (s : sharing) : sharing :=
  let remaining := quicPoolActive s - 1 in
  let remaining := if remaining <? 0 then 0 else remaining in
  if remaining <=? 1 then mkSharing remaining false 0
  else
    match opened with
    | Some o =>
        if (quicFanoutStarted s >? 0) && (o >=? quicFanoutStarted s) && (now - o >=? 0) && (now - o <=? NewAge DefaultConfig)
        then mkSharing remaining true (quicFanoutStarted s) else mkSharing remaining (shortFlowFanout s) (quicFanoutStarted s)
    | None => mkSharing remaining (shortFlowFanout s) (quicFanoutStarted s)
    end.

(** ** The uplink *)

Record uplinkWatchState := mkUplink { known : option bytes; interrupted : bool }.

(** Addresses as text; no address is the empty text. *)
Definition uplink_observe (s : uplinkWatchState) (current : option bytes) (unavailable : bool) : bool * uplinkWatchState :=
  match current with
  | None => (false, if unavailable then mkUplink (known s) true else s)
  | Some c => (interrupted s || negb (bool_decide (Some c = known s)), mkUplink (Some c) false)
  end.

(** ** The budgets of the manager *)

(** The least wait behind the [k]-th attempt. *)
Definition gap (k : Z) : Z := if k <=? 2 then sec else Z.min (2 ^ (k - 2) * sec) (15 * sec).

(** Attempts, newest first, are at least their waits apart. *)
Fixpoint spaced (l : list Z) : Prop :=
  match l with
  | t2 :: ((t1 :: _) as rest) => gap (len rest) <= t2 - t1 /\ spaced rest
  | _ => True
  end.

(** What the delay has grown to after [k] attempts. *)
Definition least_backoff (k : Z) : Z := Z.min (2 ^ (k - 1) * sec) (15 * sec).

Record manager_inv (m : manager) : Prop := mk_manager_inv {
  mi_attempts : recoveryAttempts m = len (m_recoveries m) /\ recoveryAttempts m <= maxLaneRecoveryAttempts;
  mi_last : lastRecoveryAttempt m = head (m_recoveries m);
  mi_next : match m_recoveries m with
    | [] => nextRecovery m = None /\ recoveryBackoff m = 0
    | t :: _ => (exists n, nextRecovery m = Some n /\ t + gap (len (m_recoveries m)) <= n <= t + 15 * sec) /\
        least_backoff (len (m_recoveries m)) <= recoveryBackoff m <= 15 * sec
    end;
  mi_spaced : spaced (m_recoveries m);
  mi_isolation : isolationAttempts m = m_begun m - m_free m /\ 0 <= isolationAttempts m <= maxLaneProbeAttempts;
  mi_backoff : isolationBackoff m = 0 \/ minLaneProbeBackoff <= isolationBackoff m <= maxLaneProbeBackoff;
  mi_pending : if joinPending m then isolated m = false /\ m_joining m = match joins m with None => true | Some _ => false end /\ 0 < isolationAttempts m
               else m_joining m = false /\ joins m = None
}.

Lemma new_manager_inv : manager_inv new_manager.
Proof. split; cbn; try done; lia. Qed.

Lemma doubled_bounds cap b : 0 < b <= cap -> b <= doubled cap b <= cap.
Proof. intros H. unfold doubled. destruct (b <? cap) eqn:E; [destruct (b * 2 >? cap) eqn:E2|]; lia. Qed.

Lemma grow_probe b : b = 0 \/ minLaneProbeBackoff <= b <= maxLaneProbeBackoff ->
  minLaneProbeBackoff <= grow minLaneProbeBackoff maxLaneProbeBackoff b <= maxLaneProbeBackoff.
Proof.
  intros H. unfold grow. destruct (b =? 0) eqn:E; [vm_compute; split; discriminate|]. assert (0 < minLaneProbeBackoff) by done.
  pose proof (doubled_bounds maxLaneProbeBackoff b). lia.
Qed.

(** An answer leaves the recovery of lanes alone. *)
Lemma drain_inv e m m' : manager_inv m -> drain e m = Some m' ->
  manager_inv m' /\ m_recoveries m' = m_recoveries m /\ nextRecovery m' = nextRecovery m /\ recoveryAttempts m' = recoveryAttempts m.
Proof.
  intros Hi H. unfold drain in H. destruct (joins m) as [r|] eqn:Ej; [|injection H as <-; done]. destruct Hi.
  destruct (joinPending m) eqn:Ep; [|destruct mi_pending0; congruence]. destruct mi_pending0 as (P1 & P2 & P3). rewrite Ej in P2.
  unfold take_join in H. destruct r.
  - injection H as <-. split; [|done]. split; cbn; done.
  - destruct (t_cancelled e); [done|]. injection H as <-. split; [|done]. split; cbn; try done. replace (isolationAttempts m >? 0) with true by lia. lia.
  - destruct (t_cancelled e); [done|]. injection H as <-. split; [|done]. split; cbn; done.
  - destruct (t_cancelled e); [done|]. injection H as <-. split; [|done]. split; cbn; try done. right. by apply grow_probe.
  - destruct (t_cancelled e); [done|]. injection H as <-. split; [|done]. split; cbn; try done. right. by apply grow_probe.
Qed.

Lemma least_backoff_grows k b : 1 <= k -> least_backoff k <= b <= 15 * sec -> least_backoff (k + 1) <= doubled (15 * sec) b <= 15 * sec.
Proof.
  intros Hk Hb. assert (Hp : 2 ^ (k + 1 - 1) = 2 * 2 ^ (k - 1)) by (replace (k + 1 - 1) with (1 + (k - 1)) by lia; rewrite Z.pow_add_r by lia; lia).
  assert (1 <= 2 ^ (k - 1)) by (apply (Z.pow_le_mono_r 2 0); lia). unfold least_backoff in *. rewrite Hp. unfold doubled, sec in *.
  destruct (b <? 15 * 1000000000) eqn:E1; [destruct (b * 2 >? 15 * 1000000000) eqn:E2|]; lia.
Qed.

Lemma gap_least k : 1 <= k -> gap (k + 1) <= least_backoff k /\ gap k <= least_backoff k /\ sec <= least_backoff k.
Proof.
  intros Hk. unfold gap, least_backoff. assert (Hq : 1 <= 2 ^ (k - 1)) by (apply (Z.pow_le_mono_r 2 0); lia).
  assert (H1 : sec <= Z.min (2 ^ (k - 1) * sec) (15 * sec)) by (unfold sec; lia).
  assert (H2 : 2 <= k -> 2 ^ (k - 2) <= 2 ^ (k - 1)) by (intros; apply Z.pow_le_mono_r; lia).
  split; [destruct (k + 1 <=? 2) eqn:E|split; [destruct (k <=? 2) eqn:E|done]]; replace (k + 1 - 2) with (k - 1) by lia; try lia; unfold sec in *; lia.
Qed.

(** Every attempt waits for its turn and sets the next one's. *)
Lemma recover_inv e m m' : manager_inv m -> recover e m = inr m' -> manager_inv m'.
Proof.
  intros Hi H. unfold recover in H. destruct (t_done e); [done|]. destruct (_ >=? _) eqn:Ea; [done|].
  destruct (before _ _) eqn:Eb; [by injection H as <-|]. destruct Hi. destruct mi_attempts0 as [A1 A2]. bool_to_prop.
  set (k := len (m_recoveries m)) in *. assert (Hk : 0 <= k) by apply len_nonneg.
  assert (Hlen : len (t_now e :: m_recoveries m) = k + 1) by (unfold k, len; cbn [length]; lia).
  assert (Hsp : spaced (t_now e :: m_recoveries m)).
  { cbn. unfold k in *. destruct (m_recoveries m) as [|t rest] eqn:Er; [done|]. split; [|done]. destruct mi_next0 as [(n & Hn & Hr) _].
    rewrite Hn in Eb. cbn in Eb. lia. }
  assert (Hgo : forall b after, sec <= b <= 15 * sec -> gap (k + 1) <= b -> least_backoff (k + 1) <= after <= 15 * sec ->
    manager_inv (mkManager (joinPending m) (joins m) (m_joining m) (isolated m) (lastDecision m) after (Some (t_now e + b)) (recoveryAttempts m + 1)
        (Some (t_now e)) (isolationBlockedUntil m) (isolationBackoff m) (isolationAttempts m) (t_now e :: m_recoveries m) (m_begun m) (m_free m))).
  { intros b after Hb Hg Ha. split; cbn [recoveryAttempts m_recoveries lastRecoveryAttempt nextRecovery recoveryBackoff isolationAttempts m_begun m_free isolationBackoff joinPending joins m_joining isolated]; try done.
    - rewrite Hlen. lia.
    - rewrite Hlen. split; [|done]. eexists. split; [done|]. lia. }
  assert (H0 : k = 0 -> recoveryBackoff m = 0) by (unfold k, len; destruct (m_recoveries m); [by intros; apply mi_next0|cbn; lia]).
  assert (H1 : 1 <= k -> least_backoff k <= recoveryBackoff m <= 15 * sec) by (unfold k, len; destruct (m_recoveries m); [cbn; lia|intros; apply mi_next0]).
  assert (Hdbl : let b := if recoveryBackoff m =? 0 then sec else recoveryBackoff m in
    sec <= b <= 15 * sec /\ gap (k + 1) <= b /\ least_backoff (k + 1) <= doubled (15 * sec) b <= 15 * sec).
  { cbv zeta. destruct (decide (k = 0)) as [Ek|Ek]; [rewrite H0, Ek by done; vm_compute; repeat split; discriminate|].
    specialize (H1 ltac:(lia)). destruct (gap_least k ltac:(lia)) as (G1 & _ & G3). pose proof (least_backoff_grows k (recoveryBackoff m) ltac:(lia) H1).
    unfold sec in *. replace (recoveryBackoff m =? 0) with false by lia. lia. }
  assert (Hgrow : let b := grow sec (15 * sec) (recoveryBackoff m) in sec <= b <= 15 * sec /\ gap (k + 1) <= b /\ least_backoff (k + 1) <= b <= 15 * sec).
  { cbv zeta. unfold grow. destruct (decide (k = 0)) as [Ek|Ek]; [rewrite H0, Ek by done; vm_compute; repeat split; discriminate|].
    cbv zeta in Hdbl. specialize (H1 ltac:(lia)). destruct (gap_least k ltac:(lia)) as (_ & _ & G3). unfold sec in *.
    replace (recoveryBackoff m =? 0) with false in * by lia. destruct (gap_least (k + 1) ltac:(lia)) as (_ & G4 & G5). unfold sec in *. lia. }
  destruct (t_recovery e); [|done| |]; injection H as <-; apply Hgo; apply Hdbl || apply Hgrow.
Qed.

Lemma reset_inv e m : manager_inv m -> manager_inv (reset_budget e m).
Proof.
  intros Hi. unfold reset_budget. destruct (_ && _); [|done]. destruct Hi. split; cbn; try done.
Qed.

Lemma isolate_inv reserve e m m' : manager_inv m -> isolate reserve e m = inr m' -> manager_inv m'.
Proof.
  intros Hi H. unfold isolate in H. destruct (isolated m) eqn:E1; [by injection H as <-|]. destruct reserve; [|by injection H as <-].
  destruct (joinPending m) eqn:E2; [by injection H as <-|]. cbn [orb negb] in H.
  destruct (t_active e <=? 1); [by injection H as <-|]. destruct (t_fanout e); [by injection H as <-|].
  destruct (negb (bool_decide _) && _); [by injection H as <-|]. destruct (match lastDecision m with Some _ => _ | None => _ end); [by injection H as <-|].
  pose proof (mi_pending _ Hi) as Hp. rewrite E2 in Hp. destruct Hp as [P1 P2].
  destruct ((isolationAttempts m >=? maxLaneProbeAttempts) || _ || _) eqn:E3; [injection H as <-; destruct Hi; split; cbn; done|].
  destruct (t_joinID e); cbn [negb] in H; [|done]. injection H as <-. bool_to_prop. destruct Hi. split; cbn; try done.
  - lia.
  - rewrite P2. lia.
Qed.

Lemma manager_inv_step reserve m m' : manager_inv m -> manager_step reserve m m' -> manager_inv m'.
Proof.
  intros Hi Hst. destruct Hst as [m e m' H|m r Hj Hn].
  - unfold tick in H. destruct (t_finished e); [done|]. destruct (drain e m) as [m1|] eqn:Ed; [|done]. apply drain_inv in Ed as [Hi1 _]; [|done].
    destruct (_ =? 0); [by eapply recover_inv|]. eapply isolate_inv; [|done]. by apply reset_inv.
  - destruct Hi. destruct (joinPending m) eqn:Ep; [|destruct mi_pending0; congruence]. split; cbn; try done. rewrite Ep. by destruct mi_pending0 as (? & _ & ?).
Qed.

(** C27: a failing peer cannot draw a flow into a storm of connections.  However ticks,
    answers, failures and successes follow each other, at most eight recoveries are
    tried without five minutes passing from the last of them with a lane alive, each
    behind the growing wait of the one before; at most one isolation lane is being
    opened, none once the flow has one or while it is alone on its connection, and at
    most four are tried that cost the network anything. *)
Theorem lane_manager_bounded reserve m :
  steps (manager_step reserve) new_manager m ->
  len (m_recoveries m) <= maxLaneRecoveryAttempts /\ spaced (m_recoveries m) /\ m_begun m - m_free m <= maxLaneProbeAttempts /\
  (isolated m = true -> m_joining m = false) /\ (m_joining m = true -> joins m = None) /\
  (forall e m', tick reserve e m = inr m' -> m_recoveries m' <> m_recoveries m ->
     (m_recoveries m' = t_now e :: m_recoveries m /\ before (t_now e) (nextRecovery m) = false) \/
     (m_recoveries m' = [] /\ s_HealthyLanes (t_snapshot e) <> 0 /\ exists t rest, m_recoveries m = t :: rest /\ laneRecoveryResetAfter <= t_since e - t)) /\
  (forall e m', tick reserve e m = inr m' -> m_begun m' <> m_begun m ->
     m_joining m = false /\ isolated m = false /\ 1 < t_active e /\ s_HealthyLanes (t_snapshot e) <> 0).
Proof.
  intros Hs. pose proof (steps_invariant _ manager_inv (manager_inv_step reserve) _ _ new_manager_inv Hs) as Hi.
  assert (Hpend : if joinPending m then isolated m = false /\ m_joining m = match joins m with None => true | Some _ => false end /\ 0 < isolationAttempts m
               else m_joining m = false /\ joins m = None) by apply Hi.
  split; [destruct (mi_attempts _ Hi); lia|]. split; [apply Hi|]. split; [destruct (mi_isolation _ Hi); lia|].
  split; [destruct (joinPending m); intros; destruct Hpend; congruence|].
  split; [intros Hjn; destruct (joinPending m); [destruct Hpend as (_ & Hm & _); destruct (joins m); congruence|by destruct Hpend]|]. split.
  - intros e m' H Hne. unfold tick in H. destruct (t_finished e); [done|]. destruct (drain e m) as [m1|] eqn:Ed; [|done].
    destruct (drain_inv e m m1 Hi Ed) as (Hi1 & D1 & D2 & D3). destruct (s_HealthyLanes (t_snapshot e) =? 0) eqn:Eh.
    + left. unfold recover in H. destruct (t_done e); [done|]. destruct (_ >=? _); [done|].
      destruct (before (t_now e) (nextRecovery m1)) eqn:Eb; [injection H as <-; congruence|]. rewrite <- D2, <- D1.
      destruct (t_recovery e); [|done| |]; injection H as <-; done.
    + right. assert (Hr : m_recoveries m' = m_recoveries (reset_budget e m1)).
      { unfold isolate in H. repeat (destruct (_ : bool) in H; [injection H as <-; done|]). destruct (negb (t_joinID e)); [done|]. by injection H as <-. }
      unfold reset_budget in Hr. destruct ((recoveryAttempts m1 >? 0) && _) eqn:Er; [|congruence]. split; [by rewrite Hr|]. split; [lia|].
      apply andb_prop in Er as [_ Er]. rewrite (mi_last _ Hi1), D1 in Er. destruct (m_recoveries m) as [|t rest]; [done|]. exists t, rest. split; [done|]. cbn in Er. lia.
  - intros e m' H Hne. unfold tick in H. destruct (t_finished e); [done|]. destruct (drain e m) as [m1|] eqn:Ed; [|done].
    assert (Hb : m_begun m1 = m_begun m /\ (joinPending m1 = false -> isolated m1 = false -> m_joining m = false /\ isolated m = false)).
    { unfold drain in Ed. destruct (joins m) as [r|] eqn:Ej; [|injection Ed as <-; split; [done|]; intros Hp Hiso; rewrite Hp in Hpend; by destruct Hpend].
      destruct (joinPending m); [|by destruct Hpend]. destruct Hpend as (Q1 & Q2 & _).
      unfold take_join in Ed. destruct r; [injection Ed as <-; done| | | |]; (destruct (t_cancelled e); [done|]; injection Ed as <-; done). }
    destruct Hb as [Hb Hfree]. destruct (s_HealthyLanes (t_snapshot e) =? 0) eqn:Eh.
    { unfold recover in H. destruct (t_done e); [done|]. destruct (_ >=? _); [done|]. destruct (before _ _); [injection H as <-; congruence|].
      destruct (t_recovery e); [|done| |]; injection H as <-; cbn in Hne; congruence. }
    assert (Hr : m_begun (reset_budget e m1) = m_begun m1 /\ joinPending (reset_budget e m1) = joinPending m1 /\ isolated (reset_budget e m1) = isolated m1)
      by (unfold reset_budget; by destruct (_ && _)). destruct Hr as (R1 & R2 & R3). unfold isolate in H. rewrite R2, R3 in H.
    destruct (isolated m1 || negb reserve || joinPending m1) eqn:E1; [injection H as <-; congruence|]. bool_to_prop.
    destruct (t_active e <=? 1) eqn:E2; [injection H as <-; congruence|]. bool_to_prop.
    split; [apply Hfree; by destruct (joinPending m1), (isolated m1)|]. split; [apply Hfree; by destruct (joinPending m1), (isolated m1)|]. lia.
Qed.

(** Ticks of a path that stays dead. *)
Definition dead_tick (now : Z) : tick_env :=
  mkTick false false now true now (mkSnapshot ClassNew 0 0 0 0 0) false RecoveryFailed now 2 false true.

Definition ticked (es : list tick_env) : manager :=
  fold_left (fun m e => match tick true e m with inr m' => m' | inl _ => m end) es new_manager.

Lemma lane_manager_bounded_witness : exists m,
  steps (manager_step true) new_manager m /\ m_recoveries m = [3 * sec; 1 * sec; 0] /\ spaced (m_recoveries m) /\ nextRecovery m = Some (7 * sec).
Proof.
  pose (m1 := ticked [dead_tick 0]). pose (m2 := ticked [dead_tick 0; dead_tick (1 * sec)]).
  pose (m3 := ticked [dead_tick 0; dead_tick (1 * sec); dead_tick (2 * sec)]). pose (m4 := ticked [dead_tick 0; dead_tick (1 * sec); dead_tick (2 * sec); dead_tick (3 * sec)]).
  assert (Hs : steps (manager_step true) new_manager m4).
  { apply (steps_cons _ _ m1); [apply (mg_tick true _ (dead_tick 0)); vm_compute; reflexivity|].
    apply (steps_cons _ _ m2); [apply (mg_tick true _ (dead_tick (1 * sec))); vm_compute; reflexivity|].
    apply (steps_cons _ _ m3); [apply (mg_tick true _ (dead_tick (2 * sec))); vm_compute; reflexivity|].
    apply steps_one. apply (mg_tick true _ (dead_tick (3 * sec))). vm_compute. reflexivity. }
  destruct (lane_manager_bounded true m4 Hs) as (_ & Hsp & _).
  exists m4. split; [exact Hs|]. split; [vm_compute; reflexivity|]. split; [exact Hsp|vm_compute; reflexivity].
Defined.

(** ** Recovery ends *)

(** The ticks of a list, each at least half a second behind the one before; [None] once
    the manager has returned. *)
Fixpoint run_ticks (reserve : bool) (m : manager) (es : list tick_env) : option manager :=
  match es with
  | [] => Some m
  | e :: rest => match tick reserve e m with inl _ => None | inr m' => run_ticks reserve m' rest end
  end.

Definition tick_interval : Z := 500 * ms.

Fixpoint paced (t : Z) (es : list tick_env) : Prop :=
  match es with [] => True | e :: rest => t + tick_interval <= t_now e /\ paced (t_now e) rest end.

(** Ticks still to be waited at [now]. *)
Definition waiting_ticks (m : manager) (now : Z) : Z :=
  match nextRecovery m with Some n => Z.max 0 ((n - now + tick_interval - 1) / tick_interval) | None => 0 end.

Definition ticks_left (m : manager) (now : Z) : Z := 31 * (maxLaneRecoveryAttempts - recoveryAttempts m) + waiting_ticks m now.

Lemma waiting_ticks_later m now now' : now + tick_interval <= now' -> before now (nextRecovery m) = true -> waiting_ticks m now' <= waiting_ticks m now - 1.
Proof.
  intros Hn Hb. unfold waiting_ticks, before in *. destruct (nextRecovery m) as [n|]; [|done]. change tick_interval with 500000000 in *.
  assert (H1 : (n - now + 500000000 - 1) / 500000000 >= 1) by (apply Z.le_ge, Z.div_le_lower_bound; lia).
  assert (H2 : (n - now' + 500000000 - 1) / 500000000 <= (n - now + 500000000 - 1) / 500000000 - 1).
  { replace ((n - now + 500000000 - 1) / 500000000 - 1) with ((n - now + 500000000 - 1 + (-1) * 500000000) / 500000000) by (rewrite Z.div_add; lia).
    apply Z.div_le_mono; lia. }
  lia.
Qed.

Lemma recover_progress reserve e m m' now' :
  manager_inv m -> s_HealthyLanes (t_snapshot e) = 0 -> tick reserve e m = inr m' -> t_now e + tick_interval <= now' ->
  ticks_left m' now' <= ticks_left m (t_now e) - 1 /\ recoveryAttempts m' <= maxLaneRecoveryAttempts /\ recoveryAttempts m < maxLaneRecoveryAttempts.
Proof.
  intros Hi Hh H Hn. unfold tick in H. destruct (t_finished e); [done|]. destruct (drain e m) as [m1|] eqn:Ed; [|done].
  destruct (drain_inv e m m1 Hi Ed) as (Hi1 & _ & D2 & D3). rewrite Hh in H. cbn in H.
  assert (Hm : ticks_left m (t_now e) = ticks_left m1 (t_now e)) by (unfold ticks_left, waiting_ticks; by rewrite D2, D3). rewrite Hm, <- D3.
  pose proof (recover_inv e m1 m' Hi1 H) as Hi'. pose proof (mi_attempts _ Hi') as [_ Hmax].
  unfold recover in H. destruct (t_done e); [done|]. destruct (recoveryAttempts m1 >=? maxLaneRecoveryAttempts) eqn:Ea; [done|].
  split; [|lia]. destruct (before (t_now e) (nextRecovery m1)) eqn:Eb.
  - injection H as <-. unfold ticks_left. pose proof (waiting_ticks_later m1 _ _ Hn Eb). lia.
  - assert (Hr : recoveryAttempts m' = recoveryAttempts m1 + 1 /\ exists rest, m_recoveries m' = t_now e :: rest)
      by (destruct (t_recovery e); [|done| |]; injection H as <-; eauto).
    destruct Hr as [Hr [rest Hrest]]. pose proof (mi_next _ Hi') as Hx. rewrite Hrest in Hx. destruct Hx as [(n & Hnx & _ & Hle) _].
    unfold ticks_left. rewrite Hr. assert (Hw : waiting_ticks m' now' <= 30).
    { unfold waiting_ticks. rewrite Hnx. change tick_interval with 500000000 in *. unfold sec in Hle.
      assert ((n - now' + 500000000 - 1) / 500000000 < 31) by (apply Z.div_lt_upper_bound; lia). lia. }
    assert (0 <= waiting_ticks m1 (t_now e)) by (unfold waiting_ticks; destruct (nextRecovery m1); lia). lia.
Qed.

Lemma run_ticks_bounded reserve es m t :
  manager_inv m -> paced t es -> Forall (fun e => s_HealthyLanes (t_snapshot e) = 0) es ->
  ticks_left m (t + tick_interval) < len es -> run_ticks reserve m es = None.
Proof.
  revert m t. induction es as [|e rest IH]; intros m t Hi Hp Hf Hl.
  - pose proof (mi_attempts _ Hi). unfold ticks_left, waiting_ticks, len in Hl. cbn in Hl. destruct (nextRecovery m); lia.
  - cbn. destruct (tick reserve e m) as [w|m'] eqn:Et; [done|]. destruct Hp as [Hp1 Hp2]. apply Forall_cons in Hf as [Hf1 Hf2].
    destruct (recover_progress reserve e m m' (t_now e + tick_interval) Hi Hf1 Et ltac:(lia)) as (Hd & _ & _).
    assert (Hlate : ticks_left m (t_now e) <= ticks_left m (t + tick_interval)).
    { unfold ticks_left, waiting_ticks. destruct (nextRecovery m) as [n|]; [|lia]. assert ((n - t_now e + tick_interval - 1) / tick_interval <= (n - (t + tick_interval) + tick_interval - 1) / tick_interval).
      { apply Z.div_le_mono; [done|lia]. } lia. }
    apply (IH m' (t_now e)); [|done|done|].
    + eapply manager_inv_step; [exact Hi|]. by apply (mg_tick reserve m e).
    + unfold len in *. cbn [length] in Hl. lia.
Qed.

(** C28: a flow that never gets a lane back is told so.  On a path that stays dead the
    manager returns, and with it the flow's wait for a replacement ends, after at most
    279 ticks, whatever the attempts in between come to. *)
Theorem recovery_ends reserve m t es :
  steps (manager_step reserve) new_manager m -> (forall n, nextRecovery m = Some n -> n <= t + 15 * sec) ->
  paced t es -> Forall (fun e => s_HealthyLanes (t_snapshot e) = 0) es -> 279 <= len es ->
  run_ticks reserve m es = None.
Proof.
  intros Hs Hn Hp Hf Hl. pose proof (steps_invariant _ manager_inv (manager_inv_step reserve) _ _ new_manager_inv Hs) as Hi.
  apply (run_ticks_bounded reserve es m t Hi Hp Hf). enough (ticks_left m (t + tick_interval) < 279) by lia. unfold ticks_left, waiting_ticks.
  pose proof (mi_attempts _ Hi) as [Ha _]. pose proof (len_nonneg (m_recoveries m)). change maxLaneRecoveryAttempts with 8.
  destruct (nextRecovery m) as [n|]; [|lia]. specialize (Hn n eq_refl). change tick_interval with 500000000. unfold sec in Hn.
  assert ((n - (t + 500000000) + 500000000 - 1) / 500000000 < 30) by (apply Z.div_lt_upper_bound; lia). lia.
Qed.

(** A path dead from the start. *)
Lemma recovery_ends_witness : run_ticks true new_manager (map (fun k => dead_tick (Z.of_nat k * sec)) (seq 0 300)) = None.
Proof.
  apply (recovery_ends true new_manager (- sec)).
  - apply steps_refl.
  - intros n Hn. discriminate Hn.
  - vm_compute. repeat split; discriminate.
  - apply Forall_map, Forall_true. reflexivity.
  - vm_compute. discriminate.
Defined.

(** ** The uplink *)

(** An address that comes back after an interruption, or another one, is a new path;
    observations that say nothing are not. *)
Lemma uplink_change_exact s a quiet c :
  known s = Some a -> interrupted s = false ->
  let seen := fold_left (fun s u => snd (uplink_observe s None u)) quiet s in
  fst (uplink_observe seen (Some c) false) = existsb id quiet || negb (bool_decide (c = a)).
Proof.
  intros Hk Hi. cbv zeta. assert (H : forall q st, known (fold_left (fun s u => snd (uplink_observe s None u)) q st) = known st /\
    interrupted (fold_left (fun s u => snd (uplink_observe s None u)) q st) = interrupted st || existsb id q).
  { intros q. induction q as [|u q IH]; intros st; [by cbn; rewrite orb_false_r|]. cbn [fold_left existsb]. destruct (IH (snd (uplink_observe st None u))) as [-> ->].
    destruct u; cbn; [by rewrite orb_true_r|done]. }
  destruct (H quiet s) as [K I]. set (seen := fold_left _ quiet s) in *. clearbody seen. unfold uplink_observe. cbn [fst]. rewrite K, I, Hk, Hi. cbn.
  f_equal. f_equal. apply bool_decide_ext. split; congruence.
Qed.
