(* ===== verification/Destination.v ===== *)
(** Where the server lets a client connect to: [internal/pep/destination.go].

    The predicates of [net/netip] are written on 32-bit and 128-bit numbers, the way the
    package tests bits of its words.  The resolver and the operating system's dial are
    parameters. *)
From S2P Require Import Prelude GoNet.

(** ** [netip] *)

Inductive Addr := V4 (v : Z) | V6 (v : Z).

Definition AddrFromSlice (ip : bytes) : option Addr :=
  if len ip =? 4 then Some (V4 (be_val ip)) else if len ip =? 16 then Some (V6 (be_val ip)) else None.

Definition Unmap (a : Addr) : Addr :=
  match a with
  | V6 v => if Z.shiftr v 32 =? 65535 then V4 (Z.land v (2 ^ 32 - 1)) else a
  | V4 _ => a
  end.

(** The first byte of a version 4 address, the first 16 bits of a version 6 one. *)
Definition first8 (v : Z) : Z := Z.shiftr v 24.
Definition first16 (v : Z) : Z := Z.shiftr v 112.

Definition IsUnspecified (a : Addr) : bool := match a with V4 v => v =? 0 | V6 v => v =? 0 end.
Definition IsLoopback (a : Addr) : bool := match a with V4 v => first8 v =? 127 | V6 v => v =? 1 end.
Definition IsMulticast (a : Addr) : bool :=
  match a with V4 v => Z.land (first8 v) 240 =? 224 | V6 v => Z.land (first16 v) 65280 =? 65280 end.
Definition IsLinkLocalMulticast (a : Addr) : bool :=
  match a with V4 v => Z.shiftr v 8 =? 224 * 65536 | V6 v => Z.land (first16 v) 65295 =? 65282 end.
Definition IsLinkLocalUnicast (a : Addr) : bool :=
  match a with V4 v => Z.shiftr v 16 =? 169 * 256 + 254 | V6 v => Z.land (first16 v) 65472 =? 65152 end.
Definition IsPrivate (a : Addr) : bool :=
  match a with
  | V4 v => (first8 v =? 10) || ((first8 v =? 172) && (Z.land (Z.land (Z.shiftr v 16) 255) 240 =? 16)) || (Z.shiftr v 16 =? 192 * 256 + 168)
  | V6 v => Z.land (first16 v) 65024 =? 64512
  end.
Definition IsGlobalUnicast (a : Addr) : bool :=
  match a with
  | V4 v => negb ((v =? 0) || (v =? 2 ^ 32 - 1)) && negb (IsLoopback a) && negb (IsMulticast a) && negb (IsLinkLocalUnicast a)
  | V6 v => negb (v =? 0) && negb (IsLoopback a) && negb (IsMulticast a) && negb (IsLinkLocalUnicast a)
  end.

(** A prefix, [Prefix.Contains]. *)
Record Prefix := mkPrefix { p_addr : Addr; p_bits : Z }.

Definition Contains (p : Prefix) (a : Addr) : bool :=
  match p_addr p, a with
  | V4 x, V4 v => Z.shiftr (Z.lxor x v) (32 - p_bits p) =? 0
  | V6 x, V6 v => Z.shiftr (Z.lxor x v) (128 - p_bits p) =? 0
  | _, _ => false
  end.

Definition v4 (a b c d bits : Z) : Prefix := mkPrefix (V4 (be_val [a; b; c; d])) bits.
Definition v6 (g0 g1 g2 g3 bits : Z) : Prefix := mkPrefix (V6 ((((g0 * 65536 + g1) * 65536 + g2) * 65536 + g3) * 2 ^ 64)) bits.

(** ** The policy *)

Definition additionallyForbidden : list Prefix :=
  [v4 0 0 0 0 8; v4 100 64 0 0 10; v4 192 0 0 0 24; v4 192 0 2 0 24; v4 192 88 99 0 24; v4 198 18 0 0 15; v4 198 51 100 0 24;
   v4 203 0 113 0 24; v4 240 0 0 0 4;
   v6 0x64 0xff9b 0 0 96; v6 0x64 0xff9b 1 0 48; v6 0x2002 0 0 0 16;
   v6 0x100 0 0 0 64; v6 0x100 0 0 1 64; v6 0x2001 2 0 0 48; v6 0x2001 0x10 0 0 28; v6 0x2001 0xdb8 0 0 32; v6 0x3fff 0 0 0 20; v6 0x5f00 0 0 0 16].

Definition publicDestinationIP (ip : bytes) : bool :=
  match AddrFromSlice ip with
  | None => false
  | Some addr =>
      let addr := Unmap addr in
      if negb (IsGlobalUnicast addr) || IsPrivate addr || IsLoopback addr || IsLinkLocalUnicast addr || IsLinkLocalMulticast addr || IsMulticast addr ||
         IsUnspecified addr then false
      else negb (existsb (fun p => Contains p addr) additionallyForbidden)
  end.

Inductive dest_error := InvalidDestination | InvalidPort | ResolutionFailed | DidNotResolve | NotPublic | DialFailed | DestUnavailable | NotPublicOrUnresolved.

Definition parseDestination (destination : bytes) : result dest_error (bytes * Z) :=
  match SplitHostPort destination with
  | None => Err InvalidDestination
  | Some (host, portText) =>
      if bool_decide (host = []) then Err InvalidDestination
      else
        match Atoi portText with
        | None => Err InvalidPort
        | Some port => if (port <? 1) || (port >? 65535) then Err InvalidPort else Ok (host, port)
        end
  end.

Section Policy.
Context (AllowPrivate : bool).
(** [LookupIPAddr] for a name, and whether the dial of an address succeeds. *)
Context (lookup : bytes -> option (list bytes)) (dial : bytes -> bool).

Definition addresses_of (host : bytes) : option (list bytes) := match ParseIP host with Some ip => Some [ip] | None => lookup host end.

Definition allowed (ip : bytes) : bool := AllowPrivate || publicDestinationIP ip.

(** The loop over the candidates: what was dialled, in order, and how it ended. *)
Fixpoint dial_loop (port : Z) (candidates : list bytes) (lastErr : option dest_error) (dialled : list bytes)
    : result dest_error bytes * list bytes :=
  match candidates with
  | [] => (Err (default DestUnavailable lastErr), dialled)
  | ip :: rest =>
      if negb (allowed ip) then dial_loop port rest (Some NotPublic) dialled
      else
        let address := JoinHostPort (IP_String ip) (Itoa port) in
        if dial address then (Ok address, dialled ++ [ip]) else dial_loop port rest (Some DialFailed) (dialled ++ [ip])
  end.

Definition DialContext (destination : bytes) : result dest_error bytes * list bytes :=
  match parseDestination destination with
  | Err e => (Err e, [])
  | Ok (host, port) =>
      match addresses_of host with
      | None => (Err ResolutionFailed, [])
      | Some addresses => if len addresses =? 0 then (Err DidNotResolve, []) else dial_loop port addresses None []
      end
  end.

Definition ResolveUDPAddr (destination : bytes) : result dest_error (list (bytes * Z)) :=
  match parseDestination destination with
  | Err e => Err e
  | Ok (host, port) =>
      match addresses_of host with
      | None => Err ResolutionFailed
      | Some addresses =>
          let result := map (fun ip => (ip, port)) (filter (fun ip => allowed ip = true) addresses) in
          if len result =? 0 then Err NotPublicOrUnresolved else Ok result
      end
  end.
End Policy.

(** ** Addresses by number *)

Definition within (l : list (Z * Z)) (v : Z) : bool := existsb (fun r => (fst r <=? v) && (v <? snd r)) l.

(** The addresses with the given leading bits. *)
Definition block4 (a b c d bits : Z) : Z * Z := let x := ((a * 256 + b) * 256 + c) * 256 + d in (x, x + 2 ^ (32 - bits)).
Definition block6 (g0 g1 g2 g3 bits : Z) : Z * Z := let x := (((g0 * 65536 + g1) * 65536 + g2) * 65536 + g3) * 2 ^ 64 in (x, x + 2 ^ (128 - bits)).

(** What is not an address of the public internet: this network, private use, shared
    address space, loopback, link-local, protocol assignments, documentation, the old
    6to4 relay, benchmarking, multicast and everything above. *)
Definition reserved4 : list (Z * Z) :=
  [block4 0 0 0 0 8; block4 10 0 0 0 8; block4 100 64 0 0 10; block4 127 0 0 0 8; block4 169 254 0 0 16; block4 172 16 0 0 12; block4 192 0 0 0 24;
   block4 192 0 2 0 24; block4 192 88 99 0 24; block4 192 168 0 0 16; block4 198 18 0 0 15; block4 198 51 100 0 24; block4 203 0 113 0 24; block4 224 0 0 0 3].

(** Unspecified and loopback, the translation prefixes that carry a version 4 address,
    discard, benchmarking, ORCHID, documentation, segment routing, unique-local,
    link-local and multicast. *)
Definition reserved6 : list (Z * Z) :=
  [block6 0 0 0 0 127; block6 0x64 0xff9b 0 0 96; block6 0x64 0xff9b 1 0 48; block6 0x100 0 0 0 64; block6 0x100 0 0 1 64; block6 0x2001 2 0 0 48;
   block6 0x2001 0x10 0 0 28; block6 0x2001 0xdb8 0 0 32; block6 0x2002 0 0 0 16; block6 0x3fff 0 0 0 20; block6 0x5f00 0 0 0 16; block6 0xfc00 0 0 0 7;
   block6 0xfe80 0 0 0 10; block6 0xff00 0 0 0 8].

(** A version 4 address written as a version 6 one is judged as what it is. *)
Definition routable (ip : bytes) : bool :=
  let v := be_val ip in
  if len ip =? 4 then negb (within reserved4 v)
  else if len ip =? 16 then
    if (65535 * 2 ^ 32 <=? v) && (v <? 65536 * 2 ^ 32) then negb (within reserved4 (v - 65535 * 2 ^ 32)) else negb (within reserved6 v)
  else false.

(** ** The bit tests as ranges *)

Lemma shift_range v k c : 0 <= k -> (Z.shiftr v k =? c) = (c * 2 ^ k <=? v) && (v <? (c + 1) * 2 ^ k).
Proof.
  intros Hk. rewrite Z.shiftr_div_pow2 by done. assert (Hp : 0 < 2 ^ k) by (apply Z.pow_pos_nonneg; lia).
  pose proof (Z.div_mod v (2 ^ k) ltac:(lia)). pose proof (Z.mod_pos_bound v (2 ^ k) Hp).
  destruct (v / 2 ^ k =? c) eqn:E; symmetry.
  - assert (v / 2 ^ k = c) by lia. apply andb_true_iff. split; [apply Z.leb_le|apply Z.ltb_lt]; nia.
  - apply andb_false_iff. assert (v / 2 ^ k < c \/ c < v / 2 ^ k) as [Hl|Hl] by lia; [left; apply Z.leb_gt|right; apply Z.ltb_ge]; nia.
Qed.

Lemma contains_range x v k : 0 <= k -> (Z.shiftr (Z.lxor x v) k =? 0) = (Z.shiftr x k * 2 ^ k <=? v) && (v <? (Z.shiftr x k + 1) * 2 ^ k).
Proof.
  intros Hk. rewrite <- shift_range by done. rewrite Z.shiftr_lxor. destruct (Z.shiftr v k =? Z.shiftr x k) eqn:E.
  - assert (Z.shiftr v k = Z.shiftr x k) as -> by lia. by rewrite Z.lxor_nilpotent.
  - apply Z.eqb_neq. intros H. apply Z.lxor_eq in H. lia.
Qed.

(** A test of some bits of a number below [n], checked on all of them. *)
Fixpoint check_from (test : Z -> bool) (fuel : nat) (x : Z) : bool :=
  match fuel with O => true | S fuel' => test x && check_from test fuel' (x + 1) end.

Lemma check_from_spec test fuel x y : check_from test fuel x = true -> x <= y < x + Z.of_nat fuel -> test y = true.
Proof.
  revert x. induction fuel as [|fuel IH]; intros x H Hy; [lia|]. cbn in H. apply andb_true_iff in H as [H1 H2].
  destruct (decide (y = x)) as [->|Hne]; [done|]. apply (IH (x + 1) H2). lia.
Qed.

Definition masks (n mask c lo hi : Z) : bool :=
  check_from (fun x => Bool.eqb (Z.land x mask =? c) ((lo <=? x) && (x <? hi))) (Z.to_nat n) 0.

Lemma mask_range n mask c lo hi x : masks n mask c lo hi = true -> 0 <= x < n -> (Z.land x mask =? c) = (lo <=? x) && (x <? hi).
Proof. intros H Hx. unfold masks in H. apply eqb_prop. apply (check_from_spec _ _ _ x H). lia. Qed.

Lemma first8_bound v : 0 <= v < 2 ^ 32 -> 0 <= first8 v < 256.
Proof. intros H. unfold first8. rewrite Z.shiftr_div_pow2 by lia. split; [apply Z.div_pos; lia|apply Z.div_lt_upper_bound; lia]. Qed.
Lemma first16_bound v : 0 <= v < 2 ^ 128 -> 0 <= first16 v < 65536.
Proof. intros H. unfold first16. rewrite Z.shiftr_div_pow2 by lia. split; [apply Z.div_pos; lia|apply Z.div_lt_upper_bound; lia]. Qed.

Lemma shift_le v k a : 0 <= k -> (a <=? Z.shiftr v k) = (a * 2 ^ k <=? v).
Proof.
  intros Hk. rewrite Z.shiftr_div_pow2 by done. assert (Hp : 0 < 2 ^ k) by (apply Z.pow_pos_nonneg; lia).
  destruct (a * 2 ^ k <=? v) eqn:E; [apply Z.leb_le, Z.div_le_lower_bound; lia|apply Z.leb_gt, Z.div_lt_upper_bound; lia].
Qed.
Lemma shift_lt v k b : 0 <= k -> (Z.shiftr v k <? b) = (v <? b * 2 ^ k).
Proof. intros Hk. rewrite !Z.ltb_antisym, shift_le by done. done. Qed.
Lemma second8_range v : 0 <= v < 2 ^ 32 -> first8 v = 172 -> Z.land (Z.shiftr v 16) 255 = (v - 172 * 2 ^ 24) / 2 ^ 16.
Proof.
  intros H H8. change 255 with (Z.ones 8). rewrite Z.land_ones, Z.shiftr_div_pow2 by lia. unfold first8 in H8. rewrite Z.shiftr_div_pow2 in H8 by lia.
  pose proof (Z.div_mod v (2 ^ 24) ltac:(lia)) as Hd. pose proof (Z.mod_pos_bound v (2 ^ 24) ltac:(lia)). rewrite H8 in Hd.
  set (r := v - 172 * 2 ^ 24). replace v with (r + (172 * 256) * 2 ^ 16) by (unfold r; lia). rewrite Z.div_add by lia.
  change (2 ^ 8) with 256. rewrite Z.mod_add by lia. apply Z.mod_small. split; [apply Z.div_pos; lia|apply Z.div_lt_upper_bound; lia].
Qed.
Lemma masks_multicast4 : masks 256 240 224 224 240 = true.
Proof. vm_compute. reflexivity. Qed.
Lemma masks_private4 : masks 256 240 16 16 32 = true.
Proof. vm_compute. reflexivity. Qed.

Lemma if_false (b c : bool) : (if b then false else c) = negb b && c.
Proof. by destruct b. Qed.

Lemma v4_exact v : 0 <= v < 2 ^ 32 ->
  (if negb (IsGlobalUnicast (V4 v)) || IsPrivate (V4 v) || IsLoopback (V4 v) || IsLinkLocalUnicast (V4 v) || IsLinkLocalMulticast (V4 v) || IsMulticast (V4 v) ||
         IsUnspecified (V4 v) then false
      else negb (existsb (fun p => Contains p (V4 v)) additionallyForbidden)) = negb (within reserved4 v).
Proof.
  intros H. unfold IsGlobalUnicast, IsPrivate, IsLoopback, IsLinkLocalUnicast, IsLinkLocalMulticast, IsMulticast, IsUnspecified.
  assert (M : (Z.land (first8 v) 240 =? 224) = (224 * 2 ^ 24 <=? v) && (v <? 240 * 2 ^ 24)).
  { rewrite (mask_range 256 240 224 224 240 _ masks_multicast4 (first8_bound v H)). unfold first8. by rewrite shift_le, shift_lt by lia. }
  assert (P : (first8 v =? 172) && (Z.land (Z.land (Z.shiftr v 16) 255) 240 =? 16) = (172 * 2 ^ 24 + 16 * 2 ^ 16 <=? v) && (v <? 172 * 2 ^ 24 + 32 * 2 ^ 16)).
  { destruct (first8 v =? 172) eqn:E; unfold first8 in E; rewrite shift_range in E by lia; cbn [andb]; [|lia]. bool_to_prop.
    assert (E8 : first8 v = 172) by (apply Z.eqb_eq; unfold first8; rewrite shift_range by lia; lia). rewrite (second8_range v H E8).
    assert (0 <= (v - 172 * 2 ^ 24) / 2 ^ 16 < 256) by (split; [apply Z.div_pos; lia|apply Z.div_lt_upper_bound; lia]).
    rewrite (mask_range 256 240 16 16 32 _ masks_private4) by done. rewrite <- Z.shiftr_div_pow2 by lia. rewrite shift_le, shift_lt by lia. lia. }
  rewrite M, P. unfold first8. rewrite !shift_range by lia. clear M P.
  unfold additionallyForbidden, v4, v6. cbn [existsb Contains p_addr p_bits].
  rewrite !contains_range by lia.
  rewrite (if_false (negb _ || _ || _ || _ || _ || _ || _)). unfold within, reserved4, block4.
  cbv -[Z.leb Z.ltb Z.eqb andb orb negb]. change (2 ^ 32) with 4294967296 in H. lia.
Qed.

Lemma masks_multicast6 : masks 65536 65280 65280 65280 65536 = true.
Proof. vm_compute. reflexivity. Qed.
Lemma masks_linklocal6 : masks 65536 65472 65152 65152 65216 = true.
Proof. vm_compute. reflexivity. Qed.
Lemma masks_private6 : masks 65536 65024 64512 64512 65024 = true.
Proof. vm_compute. reflexivity. Qed.

(** Link-local multicast is multicast. *)
Lemma linklocal_multicast6 x : 0 <= x < 65536 -> Z.land x 65295 =? 65282 = true -> Z.land x 65280 =? 65280 = true.
Proof.
  intros _ H. apply Z.eqb_eq in H. apply Z.eqb_eq. replace 65280 with (Z.land 65295 65280) at 1 by reflexivity. rewrite Z.land_assoc, H. reflexivity.
Qed.

Lemma v6_exact v : 0 <= v < 2 ^ 128 ->
  (if negb (IsGlobalUnicast (V6 v)) || IsPrivate (V6 v) || IsLoopback (V6 v) || IsLinkLocalUnicast (V6 v) || IsLinkLocalMulticast (V6 v) || IsMulticast (V6 v) ||
         IsUnspecified (V6 v) then false
      else negb (existsb (fun p => Contains p (V6 v)) additionallyForbidden)) = negb (within reserved6 v).
Proof.
  intros H. pose proof (first16_bound v H) as Hb.
  assert (Hlm : IsLinkLocalMulticast (V6 v) || IsMulticast (V6 v) = IsMulticast (V6 v)).
  { unfold IsLinkLocalMulticast, IsMulticast. destruct (Z.land (first16 v) 65295 =? 65282) eqn:E; [|done]. by rewrite (linklocal_multicast6 _ Hb E). }
  rewrite <- (orb_assoc _ (IsLinkLocalMulticast (V6 v))), Hlm. clear Hlm.
  unfold IsGlobalUnicast, IsPrivate, IsLoopback, IsLinkLocalUnicast, IsMulticast, IsUnspecified.
  rewrite (mask_range _ _ _ _ _ _ masks_multicast6 Hb), (mask_range _ _ _ _ _ _ masks_linklocal6 Hb), (mask_range _ _ _ _ _ _ masks_private6 Hb).
  unfold first16. rewrite !shift_le, !shift_lt by lia.
  unfold additionallyForbidden, v4, v6. cbn [existsb Contains p_addr p_bits]. rewrite !contains_range by lia.
  rewrite (if_false (negb _ || _ || _ || _ || _ || _)). unfold within, reserved6, block6.
  cbv -[Z.leb Z.ltb Z.eqb andb orb negb]. change (2 ^ 128) with 340282366920938463463374607431768211456 in H. lia.
Qed.

(** The policy judges an address exactly by its number. *)
Lemma publicDestinationIP_exact ip : Forall is_byte ip -> publicDestinationIP ip = routable ip.
Proof.
  intros Hb. pose proof (be_val_range ip Hb) as Hr. unfold publicDestinationIP, routable, AddrFromSlice. cbv zeta.
  destruct (len ip =? 4) eqn:E4.
  { cbn [Unmap]. apply v4_exact. assert (Hl : len ip = 4) by lia. rewrite Hl in Hr. exact Hr. }
  destruct (len ip =? 16) eqn:E16; [|done]. assert (Hl : len ip = 16) by lia. rewrite Hl in Hr. change (256 ^ 16) with (2 ^ 128) in Hr.
  cbn [Unmap]. rewrite shift_range by lia. change ((65535 + 1) * 2 ^ 32) with (65536 * 2 ^ 32).
  destruct ((65535 * 2 ^ 32 <=? be_val ip) && _) eqn:Em; [|by apply v6_exact]. bool_to_prop.
  assert (Hm : Z.land (be_val ip) (2 ^ 32 - 1) = be_val ip - 65535 * 2 ^ 32).
  { change (2 ^ 32 - 1) with (Z.ones 32). rewrite Z.land_ones by lia. symmetry. apply (Z.mod_unique_pos _ _ 65535); lia. }
  rewrite Hm. apply v4_exact. lia.
Qed.

(** ** Parsed addresses are bytes *)

Lemma parse_v4_bytes s : forall fields val n prev f,
  Forall is_byte fields -> is_byte val -> parse_v4 s fields val n prev = Some f -> Forall is_byte f.
Proof.
  induction s as [|c r IH]; intros fields val n prev f Hf Hv Hp; cbn [parse_v4] in Hp.
  - destruct (_ <? 3); [done|]. injection Hp as <-. apply Forall_app. split; [done|by apply Forall_singleton].
  - destruct (is_digit c) eqn:Ed.
    + destruct (_ && _); [done|]. cbv zeta in Hp. destruct (_ >? 255) eqn:E; [done|]. eapply IH; [done| |exact Hp]. unfold is_digit, is_byte, in_range in *. bool_to_prop. lia.
    + destruct (c =? 46); [|done]. destruct (_ || _); [done|]. destruct (_ =? 3); [done|]. refine (IH _ _ _ _ _ _ _ Hp); [|done].
      apply Forall_app. split; [done|by apply Forall_singleton].
Qed.

Lemma hex_group_bound s : forall acc off v n rest, 0 <= acc < 16 ^ Z.of_nat off -> (off <= 4)%nat -> hex_group s acc off = Some (v, n, rest) -> 0 <= v < 65536.
Proof.
  assert (Hle : forall acc off, 0 <= acc < 16 ^ Z.of_nat off -> (off <= 4)%nat -> 0 <= acc < 65536).
  { intros acc off H Ho. assert (16 ^ Z.of_nat off <= 16 ^ 4) by (apply Z.pow_le_mono_r; lia). lia. }
  induction s as [|c r IH]; intros acc off v n rest Ha Ho H; cbn [hex_group] in H; [injection H as <- <- <-; by eapply Hle|].
  destruct (hex_val c) as [d|] eqn:Ed; [|injection H as <- <- <-; by eapply Hle]. destruct (3 <? off)%nat eqn:E3; [done|]. apply Nat.ltb_ge in E3.
  eapply IH; [| |exact H]; [|lia]. assert (0 <= d < 16).
  { unfold hex_val, is_digit in Ed. destruct (_ && _) eqn:E1; [bool_to_prop; simplify_eq; lia|]. destruct ((97 <=? c) && _) eqn:E2; [bool_to_prop; simplify_eq; lia|].
    destruct ((65 <=? c) && _) eqn:E4; [bool_to_prop; simplify_eq; lia|done]. }
  rewrite Nat2Z.inj_succ, Z.pow_succ_r by lia. lia.
Qed.

Lemma parse_v6_bytes fuel : forall s ip e rest ip' e',
  Forall is_byte ip -> parse_v6 fuel s ip e = Some (rest, ip', e') -> Forall is_byte ip'.
Proof.
  induction fuel as [|fuel IH]; intros s ip e rest ip' e' Hb Hp; cbn [parse_v6] in Hp; [by injection Hp as <- <- <-|].
  destruct (16 <=? length ip)%nat; [by injection Hp as <- <- <-|]. destruct (hex_group s 0 0) as [[[acc off] r1]|] eqn:Eh; [|done].
  destruct (off =? 0)%nat; [done|]. apply hex_group_bound in Eh; [|cbn; lia|lia]. set (ip2 := ip ++ [acc / 256; acc mod 256]) in Hp.
  assert (Hb2 : Forall is_byte ip2).
  { apply Forall_app. split; [done|]. pose proof (Z.mod_pos_bound acc 256). assert (0 <= acc / 256 < 256) by (split; [apply Z.div_pos; lia|apply Z.div_lt_upper_bound; lia]).
    repeat constructor; unfold is_byte, in_range; cbn; lia. }
  clearbody ip2. repeat case_match; simplify_eq; try done; try (by eapply IH; [exact Hb2|eassumption]).
  all: apply Forall_app; split; [done|]; match goal with H : parseIPv4 _ = Some _ |- _ => eapply parse_v4_bytes; [| |exact H]; [constructor|done] end.
Qed.

Lemma ParseIP_bytes s ip : ParseIP s = Some ip -> Forall is_byte ip.
Proof.
  unfold ParseIP. destruct (parse_kind s) as [[]|]; [| |done].
  - destruct (parseIPv4 s) as [f|] eqn:E; [|done]. assert (Hf : Forall is_byte f) by (eapply parse_v4_bytes; [| |exact E]; [constructor|done]).
    unfold To16. intros H. repeat case_match; simplify_eq; [|done]. repeat (apply Forall_app; split); try done; repeat constructor; lia.
  - destruct (index_byte 37 s); [done|]. unfold parseIPv6. intros H.
    destruct (match s with 58 :: 58 :: r => (Some 0%nat, r) | _ => (None, s) end) as [e s1]. cbv zeta in H.
    assert (Hmain : forall rest ip0 el, parse_v6 9 s1 [] e = Some (rest, ip0, el) -> Forall is_byte ip0) by (intros rest ip0 el; by apply parse_v6_bytes).
    assert (Hz : forall k, Forall is_byte (replicate k 0)) by (intros k; by apply Forall_replicate).
    repeat case_match; simplify_eq; try apply Hz; repeat (apply Forall_app; split); try apply Hz; try apply Forall_take; try apply Forall_drop; by eapply Hmain.
Qed.

(** ** The policy: the theorem *)

Lemma filter_same (f g : bytes -> bool) (l : list bytes) : (forall x, x ∈ l -> f x = g x) -> filter (fun x => f x = true) l = filter (fun x => g x = true) l.
Proof.
  induction l as [|x l IH]; intros H; [done|]. assert (Hx : f x = g x) by (apply H; by left).
  rewrite !filter_cons, Hx, IH by (intros; apply H; by right). done.
Qed.

Lemma dial_loop_spec AllowPrivate dial port cs : forall lastErr dialled r ds,
  dial_loop AllowPrivate dial port cs lastErr dialled = (r, ds) ->
  exists tried, ds = dialled ++ tried /\ sublist tried cs /\ Forall (fun ip => allowed AllowPrivate ip = true) tried /\
    match r with
    | Ok address => exists ip, last tried = Some ip /\ address = JoinHostPort (IP_String ip) (Itoa port) /\ dial address = true
    | Err _ => tried = filter (fun ip => allowed AllowPrivate ip = true) cs /\
        Forall (fun ip => dial (JoinHostPort (IP_String ip) (Itoa port)) = false) tried
    end.
Proof.
  induction cs as [|ip cs IH]; intros lastErr dialled r ds H; cbn in H.
  { injection H as <- <-. exists []. rewrite app_nil_r. split; [done|]. split; [constructor|]. split; [constructor|]. by split. }
  destruct (allowed AllowPrivate ip) eqn:Ea; cbn [negb] in H.
  - destruct (dial (JoinHostPort (IP_String ip) (Itoa port))) eqn:Ed.
    + injection H as <- <-. exists [ip]. split; [done|]. split; [apply sublist_skip, sublist_nil_l|]. split; [by repeat constructor|]. by exists ip.
    + destruct (IH _ _ _ _ H) as (tried & -> & Hs & Hf & Hr). exists (ip :: tried). split; [by rewrite <- app_assoc|]. split; [by apply sublist_skip|].
      split; [by constructor|]. destruct r as [address|e].
      * destruct Hr as (ip' & Hl & Hr). exists ip'. split; [|done]. by rewrite last_cons, Hl.
      * destruct Hr as [-> Hr]. rewrite filter_cons, decide_True by done. split; [done|]. by constructor.
  - destruct (IH _ _ _ _ H) as (tried & -> & Hs & Hf & Hr). exists tried. split; [done|]. split; [by apply sublist_cons|]. split; [done|].
    destruct r as [address|e]; [done|]. destruct Hr as [Hr1 Hr2]. rewrite filter_cons, decide_False by (by rewrite Ea). by split.
Qed.

(** C32: clients reach the public internet and nothing else.  Whatever a destination
    resolves to, a server that does not allow private addresses dials only addresses
    outside every reserved block, a version 4 address in version 6 clothing included;
    the connection it returns is to an address it judged, after every permitted one
    before it has failed; and the addresses of UDP are chosen by the same rule. *)
Theorem destinations_public lookup dial destination :
  (forall host l, lookup host = Some l -> Forall (Forall is_byte) l) ->
  (forall r dialled, DialContext false lookup dial destination = (r, dialled) ->
     Forall (fun ip => routable ip = true) dialled /\
     match r with
     | Ok address => exists ip port, last dialled = Some ip /\ address = JoinHostPort (IP_String ip) (Itoa port) /\ 1 <= port <= 65535 /\ dial address = true
     | Err _ => forall host port l, parseDestination destination = Ok (host, port) -> addresses_of lookup host = Some l ->
         Forall (fun ip => routable ip = true -> dial (JoinHostPort (IP_String ip) (Itoa port)) = false) l
     end) /\
  (forall l, ResolveUDPAddr false lookup destination = Ok l -> l <> [] /\
     exists host port addresses, parseDestination destination = Ok (host, port) /\ addresses_of lookup host = Some addresses /\
       l = map (fun ip => (ip, port)) (filter (fun ip => routable ip = true) addresses)).
Proof.
  intros Hlook. assert (Haddr : forall host l, addresses_of lookup host = Some l -> Forall (Forall is_byte) l).
  { intros host l H. unfold addresses_of in H. destruct (ParseIP host) as [ip|] eqn:Ep; [|by eapply Hlook]. injection H as <-.
    constructor; [|constructor]. by eapply ParseIP_bytes. }
  assert (Hrt : forall host l ip, addresses_of lookup host = Some l -> ip ∈ l -> allowed false ip = routable ip).
  { intros host l ip H Hin. apply publicDestinationIP_exact. specialize (Haddr _ _ H). rewrite Forall_forall in Haddr. by apply Haddr. }
  assert (Hport : forall host port, parseDestination destination = Ok (host, port) -> 1 <= port <= 65535).
  { intros host port H. unfold parseDestination in H. destruct (SplitHostPort destination) as [[h t]|]; [|done]. case_bool_decide; [done|].
    destruct (Atoi t) as [n|]; [|done]. destruct ((n <? 1) || (n >? 65535)) eqn:E; [done|]. injection H as <- <-. bool_to_prop. lia. }
  split.
  - intros r dialled H. unfold DialContext in H. destruct (parseDestination destination) as [[host port]|e] eqn:Ep; [|injection H as <- <-; split; [constructor|done]].
    destruct (addresses_of lookup host) as [l|] eqn:El; [|injection H as <- <-; split; [constructor|]; intros; congruence].
    destruct (len l =? 0) eqn:En.
    { injection H as <- <-. split; [constructor|]. intros h p l' Hh Hl. destruct l; [|done]. simplify_eq. constructor. }
    destruct (dial_loop_spec false dial port l None [] r dialled H) as (tried & -> & Hs & Hf & Hr). cbn [app]. split.
    { apply Forall_forall. intros ip Hin. rewrite Forall_forall in Hf. rewrite <- (Hrt host l ip El); [by apply Hf|]. by eapply elem_of_sublist. }
    destruct r as [address|e]; [destruct Hr as (ip & H1 & H2 & H3); exists ip, port; split; [done|]; split; [done|]; split; [by eapply Hport|done]|].
    intros h p l' Hh Hl. injection Hh as <- <-. rewrite El in Hl. injection Hl as <-. destruct Hr as [-> Hr]. apply Forall_forall. intros ip Hin Hro. rewrite Forall_forall in Hr. apply Hr.
    apply list_elem_of_filter. split; [|done]. by rewrite (Hrt host l ip El).
  - intros l H. unfold ResolveUDPAddr in H. destruct (parseDestination destination) as [[host port]|e] eqn:Ep; [|done].
    destruct (addresses_of lookup host) as [addresses|] eqn:El; [|done]. destruct (_ =? 0) eqn:En; [done|].
    assert (Hfil : filter (fun ip => allowed false ip = true) addresses = filter (fun ip => routable ip = true) addresses).
    { apply filter_same. intros ip Hin. by apply (Hrt host addresses). }
    rewrite Hfil in En, H. assert (Hl : l = map (fun ip => (ip, port)) (filter (fun ip => routable ip = true) addresses)) by congruence. rewrite Hl.
    split; [intros He; by rewrite He in En|]. exists host, port, addresses. split; [done|]. split; [exact El|done].
Qed.

(** A name that resolves to loopback, to a private address in version 6 clothing and to
    a public address: only the last is dialled. *)
Lemma destinations_public_witness : exists dialled,
  let mapped := replicate 10 0 ++ [255; 255; 10; 0; 0; 1] in
  DialContext false (fun _ => Some [[127; 0; 0; 1]; mapped; [93; 184; 216; 34]]) (fun _ => true) [97; 58; 56; 48] =
    (Ok (JoinHostPort (IP_String [93; 184; 216; 34]) (Itoa 80)), dialled) /\
  dialled = [[93; 184; 216; 34]] /\ Forall (fun ip => routable ip = true) dialled.
Proof.
  pose (l := [[127; 0; 0; 1]; replicate 10 0 ++ [255; 255; 10; 0; 0; 1]; [93; 184; 216; 34]]).
  pose (r := DialContext false (fun _ => Some l) (fun _ => true) [97; 58; 56; 48]). exists (snd r). cbv zeta.
  assert (Hr : r = (Ok (JoinHostPort (IP_String [93; 184; 216; 34]) (Itoa 80)), snd r)) by (vm_compute; reflexivity).
  split; [exact Hr|]. split; [vm_compute; reflexivity|].
  assert (Hl : forall (host : bytes) l', (fun _ : bytes => Some l) host = Some l' -> Forall (Forall is_byte) l').
  { intros host l' H. injection H as <-. repeat constructor; unfold is_byte, in_range; lia. }
  apply (destinations_public (fun _ => Some l) (fun _ => true) [97; 58; 56; 48] Hl) in Hr as [H _]. exact H.
Defined.
