(* ===== verification/Assoc.v ===== *)
(** UDP associations: [internal/pep/udp.go] on both sides, over the records of
    [Session], the datagrams of [Socks], the anti-replay window and the relay store of
    [Udp] and the destination policy of [Destination].

    Each handler of a datagram, of a frame or of an event is a function.  The server's
    associations run side by side on one relay store: [us_step] interleaves the store's
    critical sections with what each association does alone.  Sockets are numbers. *)
From S2P Require Import Prelude Frame GoNet Session Identity Socks Udp Server Join Destination.
Import protocol.

(** ** Addresses *)

Record UDPAddr := mkUDPAddr { ua_IP : bytes; ua_Port : Z; ua_Zone : bytes }.

(** [net.IP.Equal]. *)
Definition IP_Equal (a b : bytes) : bool :=
  if len a =? len b then bool_decide (a = b)
  else if (len a =? 4) && (len b =? 16) then bool_decide (To16 a = Some b)
  else if (len a =? 16) && (len b =? 4) then bool_decide (To16 b = Some a)
  else false.

(** A nil pointer is [None]. *)
Definition udpAddrEqual (a b : option UDPAddr) : bool :=
  match a, b with
  | Some a, Some b => (ua_Port a =? ua_Port b) && bool_decide (ua_Zone a = ua_Zone b) && IP_Equal (ua_IP a) (ua_IP b)
  | None, None => true
  | _, _ => false
  end.

Definition DestinationFromUDPAddr (addr : option UDPAddr) : result derror bytes :=
  match addr with
  | None => Err ErrUDPAddr
  | Some a =>
      if (ua_Port a <? 1) || (ua_Port a >? 65535) || bool_decide (ua_IP a = []) then Err ErrUDPAddr
      else Ok (JoinHostPort (IP_String (ua_IP a)) (Itoa (ua_Port a)))
  end.

(** ** The client: datagrams and frames *)

Definition packet_frame (session : bytes) (flowID sequence : Z) (payload : bytes) : Frame :=
  reply TypePacket 0 flowID sequence ClassInteractive session payload.

(** One datagram of the local socket: the peer pinned after it, and what is sent. *)
Definition uplink_datagram (session : bytes) (flowID : Z) (peer : option UDPAddr) (sequence : Z) (addr : UDPAddr) (packet : bytes)
    : option UDPAddr * option (UDPDatagram * Frame) :=
  let '(peer, accepted) := match peer with None => (Some addr, true) | Some _ => (peer, udpAddrEqual peer (Some addr)) end in
  (peer,
   if negb accepted then None
   else
     match ReadUDPDatagram packet with
     | Err _ => None
     | Ok d =>
         match EncodeUDPPacket (d_Destination d) (d_Payload d) with
         | Err _ => None
         | Ok payload => Some (d, packet_frame session flowID sequence payload)
         end
     end).

(** [ReadFromUDP] into a buffer of [limit] bytes: the rest of a longer datagram is lost. *)
Definition read_into (limit : Z) (packet : bytes) : bytes := take (Z.to_nat limit) packet.

(** [runClientUDPUplink], with a buffer of [limit] bytes ([maxUDPPacketBytes]): the
    datagrams that arrive, each with whether its frame would be written; the peer
    pinned, the datagrams sent and their frames. *)
Fixpoint uplink (limit : Z) (session : bytes) (flowID : Z) (peer : option UDPAddr) (sequence : Z) (reads : list (UDPAddr * bytes * bool))
    : option UDPAddr * list UDPDatagram * list Frame :=
  match reads with
  | [] => (peer, [], [])
  | (addr, packet, written) :: rest =>
      match uplink_datagram session flowID peer sequence addr (read_into limit packet) with
      | (peer, None) => uplink limit session flowID peer sequence rest
      | (peer, Some (d, f)) =>
          if written then
            let '(peer, ds, fs) := uplink limit session flowID peer (sequence +u64 1) rest in (peer, d :: ds, f :: fs)
          else (peer, [], [])
      end
  end.

(** One frame of the lane, [runClientUDPDownlink]. *)
Inductive down_error := CloseAck | InvalidAssociationFrame | BadPacket | BadDatagram.
Inductive down_result := DownIgnored | DownDelivered (addr : UDPAddr) (packet payload : bytes) | DownEnds (e : down_error).

Definition downlink_frame (session : bytes) (flowID : Z) (peer : option UDPAddr) (window : packetWindow) (f : Frame) : packetWindow * down_result :=
  let h := f_Header f in
  if negb (bool_decide (h_SessionID h = session)) || negb (h_FlowID h =? flowID) then (window, DownEnds InvalidAssociationFrame)
  else if (h_Type h =? TypeAck) && (h_Flags h =? FlagAckFinal) && (h_Sequence h =? 0) && (len (f_Payload f) =? 0) then (window, DownEnds CloseAck)
  else if negb (h_Type h =? TypePacket) || negb (h_Flags h =? 0) then (window, DownEnds InvalidAssociationFrame)
  else
    let '(ok, window) := admit_packet window (h_Sequence h) in
    (window,
     if negb ok then DownIgnored
     else
       match DecodeUDPPacket (f_Payload f) with
       | Err _ => DownEnds BadPacket
       | Ok (destination, payload) =>
           match udp_datagram destination payload with
           | Err _ => DownEnds BadDatagram
           | Ok packet => match peer with None => DownIgnored | Some addr => DownDelivered addr packet payload end
           end
       end).

(** ** The client: opening, rescue and close *)

Definition udpReadPoll : Z := 1000000000.
Definition maxUDPReconnectAttempts : Z := 3.
Definition udpReconnectInitialBackoff : Z := 200 * 1000000.
Definition udpReconnectMaximumBackoff : Z := 2 * 1000000000.

Fixpoint backoff_loop (attempt : nat) (delay : Z) : Z :=
  match attempt with
  | O => delay
  | S n => if delay <? udpReconnectMaximumBackoff then backoff_loop n (delay * 2) else delay
  end.

Definition udpReconnectBackoff (attempt : Z) : Z :=
  let attempt := if attempt <? 0 then 0 else attempt in
  let delay := backoff_loop (Z.to_nat attempt) udpReconnectInitialBackoff in
  if delay >? udpReconnectMaximumBackoff then udpReconnectMaximumBackoff else delay.

Inductive udp_error := AssociationTransport | IdentityMismatch | AssociationRejected | InvalidAcknowledgement | InvalidGrant | ControlClosed | ContextEnded
  | RescueExhausted (last : udp_error).

Definition udp_open_frame (session : bytes) (flowID : Z) (resume : bytes) : result derror Frame :=
  match EncodeUDPResumeOpen resume with
  | Err e => Err e
  | Ok payload => Ok (reply TypeOpen 0 flowID 0 ClassInteractive session payload)
  end.

(** The acknowledgement: the token granted. *)
Definition udp_open_answer (session : bytes) (flowID : Z) (response : option Frame) : result udp_error bytes :=
  match response with
  | None => Err AssociationTransport
  | Some f =>
      let h := f_Header f in
      if negb (bool_decide (h_SessionID h = session)) || negb (h_FlowID h =? flowID) then Err IdentityMismatch
      else if h_Type h =? TypeReset then Err AssociationRejected
      else if negb (h_Type h =? TypeOpenOK) then Err InvalidAcknowledgement
      else match DecodeUDPResumeGrant (f_Payload f) with None => Err InvalidGrant | Some (_, granted) => Ok granted end
  end.

Section Rescue.
(** The wait before an attempt, and the attempt. *)
Context {A : Type} (wait : Z -> option udp_error) (try_open : Z -> result udp_error A).

(** With the delays waited for. *)
Fixpoint rescue_loop (tries : nat) (attempt : Z) (lastErr : udp_error) : list Z * result udp_error A :=
  match tries with
  | O => ([], Err (RescueExhausted lastErr))
  | S tries =>
      let delay := udpReconnectBackoff attempt in
      match wait delay with
      | Some e => ([delay], Err e)
      | None =>
          match try_open attempt with
          | Ok a => ([delay], Ok a)
          | Err e => let '(ds, r) := rescue_loop tries (attempt + 1) e in (delay :: ds, r)
          end
      end
  end.

Definition rescueUDPAssociation : list Z * result udp_error A := rescue_loop (Z.to_nat maxUDPReconnectAttempts) 0 AssociationTransport.
End Rescue.

(** How a worker of a lane returned. *)
Inductive worker_result := WorkerCloseAck | WorkerCancelled | WorkerFailed.
Inductive close_error := CloseNotSent | CloseUnacknowledged | CloseWorker.

(** The half-close: the results of the workers, [None] when the deadline comes first. *)
Fixpoint close_wait (tries : nat) (results : list (option worker_result)) (lastErr : bool) : option close_error :=
  match tries with
  | O => Some (if lastErr then CloseWorker else CloseUnacknowledged)
  | S tries =>
      match results with
      | [] | None :: _ => Some (if lastErr then CloseWorker else CloseUnacknowledged)
      | Some WorkerCloseAck :: _ => None
      | Some WorkerFailed :: rest => close_wait tries rest true
      | Some WorkerCancelled :: rest => close_wait tries rest lastErr
      end
  end.

Definition closeUDPAssociation (written : bool) (results : list (option worker_result)) : option close_error :=
  if negb written then Some CloseNotSent else close_wait 2 results false.

(** ** The client: the loop over lanes *)

Record cassoc := mkCassoc { ca_lane : Z; ca_flow : Z; ca_token : bytes; ca_idle : Z }.

Inductive cevent :=
| CResult (r : worker_result) (cancelled : bool) (rescued : result udp_error (Z * Z * bytes))
| CControl (closed : option close_error)
| CDone (canceled : bool)
| CActivity
| CIdle
| CLifetime.

(** The association goes on, or ends: failed, and gracefully. *)
Definition client_event (idleTimeout now : Z) (c : cassoc) (e : cevent) : cassoc + (bool * bool) :=
  match e with
  | CResult WorkerCloseAck _ _ => inr (false, true)
  | CResult _ cancelled rescued =>
      if cancelled then inr (false, false)
      else
        match rescued with
        | Ok (lane, flow, token) => inl (mkCassoc lane flow token (ca_idle c))
        | Err ControlClosed => inr (false, true)
        | Err _ => inr (true, false)
        end
  | CControl None => inr (false, true)
  | CControl (Some _) => inr (true, true)
  | CDone canceled => inr (negb canceled, false)
  | CActivity => inl (mkCassoc (ca_lane c) (ca_flow c) (ca_token c) (now + idleTimeout))
  | CIdle => inr (true, false)
  | CLifetime => inr (true, false)
  end.

(** ** The server: one association *)

Record sassoc := mkSassoc {
  sa_open : Frame; sa_principal : Principal; sa_socket : Z; sa_resumable : bool; sa_resumed : bool; sa_grant : bytes;
  sa_window : packetWindow; sa_reply : Z; sa_up : Z; sa_down : Z; sa_idle : Z
}.

Definition with_window (a : sassoc) (w : packetWindow) : sassoc :=
  mkSassoc (sa_open a) (sa_principal a) (sa_socket a) (sa_resumable a) (sa_resumed a) (sa_grant a) w (sa_reply a) (sa_up a) (sa_down a) (sa_idle a).
Definition relayed (a : sassoc) (n idle : Z) : sassoc :=
  mkSassoc (sa_open a) (sa_principal a) (sa_socket a) (sa_resumable a) (sa_resumed a) (sa_grant a) (sa_window a) (sa_reply a) (sa_up a +u64 n) (sa_down a) idle.
Definition answered (a : sassoc) (n idle : Z) : sassoc :=
  mkSassoc (sa_open a) (sa_principal a) (sa_socket a) (sa_resumable a) (sa_resumed a) (sa_grant a) (sa_window a) (sa_reply a +u64 1) (sa_up a) (sa_down a +u64 n) idle.

Definition sa_session (a : sassoc) : bytes := h_SessionID (f_Header (sa_open a)).
Definition sa_flow (a : sassoc) : Z := h_FlowID (f_Header (sa_open a)).

Inductive sevent :=
| SFrame (frame : Frame) (lookup : bytes -> option (list bytes)) (write : bytes * Z -> bool)
| SPacket (source : option UDPAddr) (payload : bytes) (written : bool)
| SFrameErr (stopping : bool)
| SPacketErr (stopping : bool)
| SIdle
| SLifetime
| SAuthorize (ok : bool)
| SCancelled.

(** What goes to a destination, and what goes back on the lane. *)
Inductive seffect := ToNet (address : bytes * Z) (payload : bytes) | ToPeer (frame : Frame).

(** How the loop ends: [failed] and [retain]. *)
Record send := mkSend { e_failed : bool; e_retain : bool }.

Section Serve.
Context (AllowPrivate : bool) (idleTimeout : Z).

Definition serve_frame (now : Z) (a : sassoc) (f : Frame) (lookup : bytes -> option (list bytes)) (write : bytes * Z -> bool)
    : sassoc * list seffect * option send :=
  let h := f_Header f in
  let bad := (a, [], Some (mkSend true false)) in
  if negb (bool_decide (h_SessionID h = sa_session a)) || negb (h_FlowID h =? sa_flow a) then bad
  else if h_Type h =? TypeClose then
    if negb (h_Flags h =? FlagFin) || negb (len (f_Payload f) =? 0) || negb (h_Sequence h =? 0) then bad
    else (a, [ToPeer (reply TypeAck FlagAckFinal (sa_flow a) 0 ClassInteractive (sa_session a) [])], Some (mkSend false false))
  else if negb (h_Type h =? TypePacket) || negb (h_Flags h =? 0) then bad
  else
    match DecodeUDPPacket (f_Payload f) with
    | Err _ => bad
    | Ok (destination, payload) =>
        let '(ok, w) := admit_packet (sa_window a) (h_Sequence h) in
        let a := with_window a w in
        if negb ok then (a, [], None)
        else
          match ResolveUDPAddr AllowPrivate lookup destination with
          | Err _ => (a, [], None)
          | Ok addresses =>
              match List.find write addresses with
              | None => (a, [], None)
              | Some address => (relayed a (len payload) (now + idleTimeout), [ToNet address payload], None)
              end
          end
    end.

(** A datagram read from the relay's socket. *)
Definition serve_packet (now : Z) (a : sassoc) (source : option UDPAddr) (payload : bytes) (written : bool) : sassoc * list seffect * option send :=
  match DestinationFromUDPAddr source with
  | Err _ => (a, [], None)
  | Ok destination =>
      match EncodeUDPPacket destination payload with
      | Err _ => (a, [], None)
      | Ok encoded =>
          if written then
            (answered a (len payload) (now + idleTimeout), [ToPeer (packet_frame (sa_session a) (sa_flow a) (sa_reply a) encoded)], None)
          else (a, [], Some (mkSend true true))
      end
  end.

Definition serve_event (now : Z) (a : sassoc) (e : sevent) : sassoc * list seffect * option send :=
  match e with
  | SFrame f lookup write => serve_frame now a f lookup write
  | SPacket source payload written => serve_packet now a source payload written
  | SFrameErr stopping => (a, [], Some (mkSend (negb stopping) true))
  | SPacketErr stopping => (a, [], Some (mkSend (negb stopping) stopping))
  | SIdle | SLifetime => (a, [], Some (mkSend true false))
  | SAuthorize ok => (a, [], if ok then None else Some (mkSend true false))
  | SCancelled => (a, [], Some (mkSend false true))
  end.
End Serve.

(** ** The server: associations on one store *)

Definition udp_unavailable : bytes := text "UDP relay unavailable".

(** Before the acknowledgement: the request and the socket claimed. *)
Record opening := mkOpening { op_open : Frame; op_principal : Principal; op_resumable : bool; op_claimed : option Z }.

Definition begin_association (s : udpRelayStore) (now : Z) (open : Frame) (resume : option bytes) (principal : Principal) : opening * udpRelayStore :=
  let '(held, s) :=
    match resume with Some token => if len token >? 0 then claim s now token principal else (None, s) | None => (None, s) end in
  (mkOpening open principal (match resume with Some _ => true | None => false end) held, s).

(** The frames written, the sockets closed, the association when it is open; with the
    socket [ListenUDP] gives, the token drawn and whether the answer is written. *)
Definition open_association (o : opening) (listened : option Z) (minted : option bytes) (written : bool) (idle : Z)
    : list Frame * list Z * option sassoc :=
  let unavailable := reset (op_open o) ClassInteractive ResetTransport udp_unavailable in
  match match op_claimed o with Some k => Some (k, true) | None => option_map (fun k => (k, false)) listened end with
  | None => ([unavailable], [], None)
  | Some (socket, resumed) =>
      match (if op_resumable o then minted else Some (replicate 16 0)) with
      | None => ([unavailable], [socket], None)
      | Some grant =>
          let openOK := reply TypeOpenOK 0 (h_FlowID (f_Header (op_open o))) 0 ClassInteractive (h_SessionID (f_Header (op_open o)))
            (if op_resumable o then EncodeUDPResumeGrant resumed grant else []) in
          if written then
            ([openOK], [], Some (mkSassoc (op_open o) (op_principal o) socket (op_resumable o) resumed grant packetWindow_zero 0 0 0 idle))
          else ([], [socket], None)
      end
  end.

(** The deferred function: the socket is parked or closed.  The association's reader may
    still return from a read of a parked socket after it; what it read is dropped, so
    the owner changes here. *)
Definition end_association (s : udpRelayStore) (now : Z) (a : sassoc) (e : send) : list Z * udpRelayStore :=
  if sa_resumable a && e_retain e then ([], retain s now (sa_grant a) (sa_principal a) (Some (sa_socket a)))
  else ([sa_socket a], s).

Record udp_sys := mkUdpSys {
  us_store : udpRelayStore;
  us_opening : gmap Z opening;
  us_live : gmap Z sassoc;
  us_closed : list Z;              (* sockets associations closed *)
  us_fresh : Z;                    (* sockets opened so far *)
  us_tokens : list bytes;          (* tokens drawn so far *)
  us_owner : gmap Z Principal;     (* who opened each socket *)
  us_now : Z
}.

Definition new_udp_sys (grace_ maximum_ now : Z) : udp_sys := mkUdpSys (newUDPRelayStoreWith grace_ maximum_) ∅ ∅ [] 0 [] ∅ now.

Inductive us_label :=
| UClaim (i : Z) (open : Frame) (principal : Principal)
| UOpen (i : Z) (listens : bool) (minted : option bytes) (written : bool)
| UEvent (i : Z) (e : sevent)
| USweep
| UWait (d : Z).

Section System.
Context (AllowPrivate : bool) (idleTimeout : Z).

Definition new_token (s : udp_sys) (minted : option bytes) : bool :=
  match minted with Some t => (len t =? UDPResumeTokenSize) && negb (bool_decide (t ∈ us_tokens s)) | None => true end.

(** Whether the socket [ListenUDP] would give is taken. *)
Definition listens_for (o : opening) (listens : bool) : bool := match op_claimed o with Some _ => false | None => listens end.

Definition us_step (s : udp_sys) (l : us_label) : option udp_sys :=
  match l with
  | UClaim i open principal =>
      match us_opening s !! i, us_live s !! i, open_payload (f_Payload open) with
      | None, None, UDPAssociation resume =>
          let '(o, st) := begin_association (us_store s) (us_now s) open resume principal in
          Some (mkUdpSys st (<[i := o]> (us_opening s)) (us_live s) (us_closed s) (us_fresh s) (us_tokens s) (us_owner s) (us_now s))
      | _, _, _ => None
      end
  | UOpen i listens minted written =>
      match us_opening s !! i with
      | Some o =>
          if negb (new_token s minted) then None
          else
            let '(_, closed_, opened) := open_association o (if listens then Some (us_fresh s) else None) minted written (us_now s + idleTimeout) in
            Some (mkUdpSys (us_store s) (delete i (us_opening s))
              (match opened with Some a => <[i := a]> (us_live s) | None => us_live s end) (us_closed s ++ closed_)
              (if listens_for o listens then us_fresh s + 1 else us_fresh s)
              (match minted with Some t => t :: us_tokens s | None => us_tokens s end)
              (if listens_for o listens then <[us_fresh s := op_principal o]> (us_owner s) else us_owner s) (us_now s))
      | None => None
      end
  | UEvent i e =>
      match us_live s !! i with
      | Some a =>
          if match e with SIdle => us_now s <? sa_idle a | _ => false end then None
          else
            match serve_event AllowPrivate idleTimeout (us_now s) a e with
            | (a, _, None) =>
                Some (mkUdpSys (us_store s) (us_opening s) (<[i := a]> (us_live s)) (us_closed s) (us_fresh s) (us_tokens s) (us_owner s) (us_now s))
            | (a, _, Some end_) =>
                let '(closed_, st) := end_association (us_store s) (us_now s) a end_ in
                Some (mkUdpSys st (us_opening s) (delete i (us_live s)) (us_closed s ++ closed_) (us_fresh s) (us_tokens s) (us_owner s) (us_now s))
            end
      | None => None
      end
  | USweep =>
      if sweepers (us_store s) >? 0 then
        Some (mkUdpSys (sweep (us_store s) (us_now s)) (us_opening s) (us_live s) (us_closed s) (us_fresh s) (us_tokens s) (us_owner s) (us_now s))
      else None
  | UWait d =>
      if d <? 0 then None
      else Some (mkUdpSys (us_store s) (us_opening s) (us_live s) (us_closed s) (us_fresh s) (us_tokens s) (us_owner s) (us_now s + d))
  end.

Fixpoint us_run (s : udp_sys) (ls : list us_label) : option udp_sys :=
  match ls with [] => Some s | l :: ls => match us_step s l with Some s' => us_run s' ls | None => None end end.
End System.

(** ** Sockets have one owner *)

(** The sockets of the store, held and closed. *)
Definition store_sockets (s : udpRelayStore) : list Z := conns (relays s) ++ closed s.

Lemma sweepLocked_sockets s now : store_sockets s ≡ₚ store_sockets (sweepLocked s now).
Proof.
  unfold store_sockets, sweepLocked. cbn [relays closed]. rewrite (conns_filter now (relays s)) at 1.
  rewrite <- !app_assoc. apply Permutation_app_head. apply Permutation_app_comm.
Qed.

Lemma sweepLocked_lookup s now t r : relays (sweepLocked s now) !! t = Some r -> relays s !! t = Some r.
Proof. cbn. intros H. by apply map_lookup_filter_Some in H as [H _]. Qed.

Lemma retain_sockets s now t p k : relays s !! t = None -> store_sockets (retain s now t p (Some k)) ≡ₚ k :: store_sockets s.
Proof.
  intros Hn. rewrite (sweepLocked_sockets s now). unfold retain. cbv zeta.
  assert (Hn' : relays (sweepLocked s now) !! t = None) by (cbn; apply map_lookup_filter_None; by left).
  remember (sweepLocked s now) as s1 eqn:E1. clear E1. unfold store_sockets. destruct (_ >=? _); cbn [relays closed].
  - rewrite Permutation_middle. apply Permutation_app_head. symmetry. apply Permutation_cons_append.
  - by rewrite conns_insert.
Qed.

Lemma retain_lookup s now t p k t' r : relays (retain s now t p (Some k)) !! t' = Some r ->
  relays s !! t' = Some r \/ t' = t /\ r = mkRelay k (now + grace s) p.
Proof.
  unfold retain. cbv zeta. destruct (_ >=? _); cbn [relays]; intros H.
  - left. by apply sweepLocked_lookup in H.
  - apply lookup_insert_Some in H as [[<- <-]|[_ H]]; [by right|]. left. by apply sweepLocked_lookup in H.
Qed.

Lemma claim_sockets s now t p r s' : claim s now t p = (r, s') -> store_sockets s ≡ₚ option_list r ++ store_sockets s'.
Proof.
  unfold claim. destruct (negb _); [intros H; by injection H as <- <-|]. cbv zeta. rewrite (sweepLocked_sockets s now).
  remember (sweepLocked s now) as s1 eqn:E1. clear E1. destruct (relays s1 !! _) as [held|] eqn:El; [|intros H; by injection H as <- <-].
  pose proof (conns_delete _ _ _ El) as Hd. destruct (_ || _); intros H; injection H as <- <-; unfold store_sockets; cbn [relays closed option_list option_rect app].
  - rewrite Hd. cbn [app]. rewrite Permutation_middle. apply Permutation_app_head. apply Permutation_cons_append.
  - by rewrite Hd.
Qed.

(** What a claim finds, and that it leaves the rest. *)
Lemma claim_lookup s now t p r s' : claim s now t p = (r, s') ->
  (forall t' x, relays s' !! t' = Some x -> relays s !! t' = Some x) /\
  (forall k, r = Some k -> exists x, relays s !! t = Some x /\ rr_conn x = k /\ samePrincipal (rr_principal x) p = true).
Proof.
  unfold claim. destruct (negb (len t =? _)) eqn:Et; [intros H; by injection H as <- <-|]. cbv zeta. bool_to_prop.
  assert (Hk : take (Z.to_nat UDPResumeTokenSize) t = t) by (apply take_ge; unfold len in *; lia). rewrite Hk.
  destruct (relays (sweepLocked s now) !! t) as [held|] eqn:El.
  - destruct (_ || _) eqn:Ec; intros H; injection H as <- <-; cbn [relays]; (split; [intros t' x Hx; apply lookup_delete_Some in Hx as [_ Hx]; by apply sweepLocked_lookup in Hx|]); [done|].
    intros k [= <-]. bool_to_prop. exists held. split; [by apply sweepLocked_lookup in El|done].
  - intros H. injection H as <- <-. split; [apply sweepLocked_lookup|done].
Qed.

Lemma sweep_sockets s now : store_sockets s ≡ₚ store_sockets (sweep s now).
Proof. rewrite (sweepLocked_sockets s now). unfold sweep. cbv zeta. by destruct (_ =? _)%nat. Qed.

Lemma sweep_lookup s now t r : relays (sweep s now) !! t = Some r -> relays s !! t = Some r.
Proof. unfold sweep. cbv zeta. destruct (_ =? _)%nat; intros H; by apply sweepLocked_lookup in H. Qed.

Definition live_sockets (m : gmap Z sassoc) : list Z := map (fun x => sa_socket (snd x)) (map_to_list m).
Definition opening_sockets (m : gmap Z opening) : list Z := omap (fun x => op_claimed (snd x)) (map_to_list m).

Lemma live_sockets_insert m i a : m !! i = None -> live_sockets (<[i := a]> m) ≡ₚ sa_socket a :: live_sockets m.
Proof. intros Hn. unfold live_sockets. by rewrite map_to_list_insert. Qed.

Lemma live_sockets_delete m i a : m !! i = Some a -> live_sockets m ≡ₚ sa_socket a :: live_sockets (delete i m).
Proof. intros Hi. rewrite <- live_sockets_insert by apply lookup_delete_eq. by rewrite insert_delete_id. Qed.

Lemma opening_sockets_insert m i o : m !! i = None -> opening_sockets (<[i := o]> m) ≡ₚ option_list (op_claimed o) ++ opening_sockets m.
Proof. intros Hn. unfold opening_sockets. rewrite map_to_list_insert by done. cbn. by destruct (op_claimed o). Qed.

Lemma opening_sockets_delete m i o : m !! i = Some o -> opening_sockets m ≡ₚ option_list (op_claimed o) ++ opening_sockets (delete i m).
Proof. intros Hi. rewrite <- opening_sockets_insert by apply lookup_delete_eq. by rewrite insert_delete_id. Qed.

(** A socket opened by the device, or by nobody yet. *)
Definition owned (s : udp_sys) (socket : Z) (principal : Principal) : Prop :=
  exists p, us_owner s !! socket = Some p /\ samePrincipal p principal = true.

Record us_inv (s : udp_sys) : Prop := mk_us_inv {
  ui_sockets : opening_sockets (us_opening s) ++ live_sockets (us_live s) ++ us_closed s ++ store_sockets (us_store s) ≡ₚ seqZ 0 (us_fresh s);
  ui_fresh : 0 <= us_fresh s /\ forall k p, us_owner s !! k = Some p -> k < us_fresh s;
  ui_opening : forall i o, us_opening s !! i = Some o -> us_live s !! i = None /\ forall k, op_claimed o = Some k -> owned s k (op_principal o);
  ui_live : forall i a, us_live s !! i = Some a -> owned s (sa_socket a) (sa_principal a);
  ui_relays : forall t r, relays (us_store s) !! t = Some r -> t ∈ us_tokens s /\ owned s (rr_conn r) (rr_principal r);
  ui_grants : forall i a, us_live s !! i = Some a -> sa_resumable a = true ->
    sa_grant a ∈ us_tokens s /\ len (sa_grant a) = UDPResumeTokenSize /\ relays (us_store s) !! sa_grant a = None /\
    forall j b, us_live s !! j = Some b -> sa_resumable b = true -> sa_grant b = sa_grant a -> j = i
}.

Lemma samePrincipal_trans a b c : samePrincipal a b = true -> samePrincipal b c = true -> samePrincipal a c = true.
Proof.
  intros H1 H2. apply samePrincipal_eq in H1 as (A1 & A2 & A3), H2 as (B1 & B2 & B3).
  unfold samePrincipal. rewrite !bool_decide_true by congruence. done.
Qed.

(** An association keeps its socket, its principal and its token. *)
Lemma serve_event_same AllowPrivate idleTimeout now a e a' es r : serve_event AllowPrivate idleTimeout now a e = (a', es, r) ->
  sa_open a' = sa_open a /\ sa_socket a' = sa_socket a /\ sa_principal a' = sa_principal a /\ sa_resumable a' = sa_resumable a /\ sa_grant a' = sa_grant a.
Proof.
  destruct e; cbn [serve_event]; try (intros H; injection H as <- <- <-; done).
  - unfold serve_frame. cbv zeta. intros H. repeat (case_match; simplify_eq; try done).
  - unfold serve_packet. intros H. repeat (case_match; simplify_eq; try done).
Qed.

Section Invariant.
Context (AllowPrivate : bool) (idleTimeout : Z).

Lemma us_inv_claim s i open principal s' : us_inv s -> us_step AllowPrivate idleTimeout s (UClaim i open principal) = Some s' -> us_inv s'.
Proof.
  intros Hi Hs. pose proof Hi as []. cbn [us_step] in Hs. destruct (us_opening s !! i) as [o|] eqn:Eo; [done|].
  destruct (us_live s !! i) as [a|] eqn:Ea; [done|]. destruct (open_payload _) as [resume| |]; [|done..].
  destruct (begin_association _ _ _ _ _) as [o st] eqn:Eb. injection Hs as <-.
  assert (Hst : store_sockets (us_store s) ≡ₚ option_list (op_claimed o) ++ store_sockets st /\
    (forall t r, relays st !! t = Some r -> relays (us_store s) !! t = Some r) /\
    (forall k, op_claimed o = Some k -> owned s k (op_principal o))).
  { unfold begin_association in Eb. destruct resume as [token|]; [|injection Eb as <- <-; done].
    destruct (len token >? 0); [|injection Eb as <- <-; done]. destruct (claim _ _ _ _) as [held s1] eqn:Ec. injection Eb as <- <-. cbn.
    split; [by eapply claim_sockets|]. destruct (claim_lookup _ _ _ _ _ _ Ec) as [H1 H2]. split; [done|].
    intros k Hk. destruct (H2 k Hk) as (x & Hx & <- & Hp). destruct (ui_relays0 _ _ Hx) as [_ (p & Hp1 & Hp2)].
    exists p. split; [done|by eapply samePrincipal_trans]. }
  destruct Hst as (H1 & H2 & H3). split; cbn.
  - rewrite opening_sockets_insert by done. rewrite <- ui_sockets0, H1. solve_Permutation.
  - done.
  - intros j o' Hj. apply lookup_insert_Some in Hj as [[<- <-]|[_ Hj]]; [done|by apply ui_opening0].
  - done.
  - intros t r Hr. by apply ui_relays0, H2.
  - intros j a Hj Hr. destruct (ui_grants0 _ _ Hj Hr) as (G1 & G2 & G3 & G4). split; [done|]. split; [done|]. split; [|done].
    destruct (relays st !! sa_grant a) eqn:E; [|done]. apply H2 in E. congruence.
Qed.

(** Ownership as sockets are opened. *)
Lemma owned_insert (m : gmap Z Principal) k p k' q : m !! k = None ->
  (exists x, m !! k' = Some x /\ samePrincipal x q = true) -> exists x, <[k := p]> m !! k' = Some x /\ samePrincipal x q = true.
Proof. intros Hk (x & Hx & Hq). exists x. split; [|done]. rewrite lookup_insert_ne; [done|congruence]. Qed.

(** What opening an association does with its socket. *)
Lemma open_association_socket o listened minted written idle fs closed_ opened :
  open_association o listened minted written idle = (fs, closed_, opened) ->
  option_list (match op_claimed o with Some k => Some k | None => listened end) = closed_ ++ option_list (option_map sa_socket opened) /\
  forall a, opened = Some a -> op_claimed o = Some (sa_socket a) \/ op_claimed o = None /\ listened = Some (sa_socket a).
Proof.
  unfold open_association. cbv zeta. intros H.
  destruct (op_claimed o) as [k|]; [|destruct listened as [k|]; cbn [option_map] in H; [|injection H as <- <- <-; done]];
    (destruct (if op_resumable o then minted else _); [|injection H as <- <- <-; done]; destruct written; injection H as <- <- <-; [|done]);
    (split; [done|]; intros a [= <-]; cbn; auto).
Qed.

Lemma open_association_fields o listened minted written idle fs closed_ a :
  open_association o listened minted written idle = (fs, closed_, Some a) ->
  sa_principal a = op_principal o /\ sa_resumable a = op_resumable o /\ (op_resumable o = true -> minted = Some (sa_grant a)).
Proof.
  unfold open_association. cbv zeta. intros H. destruct (match op_claimed o with Some _ => _ | None => _ end) as [[k b]|]; [|done].
  destruct (op_resumable o) eqn:Er; [destruct minted; [|done]|]; destruct written; try done; injection H as <- <- <-; done.
Qed.

Lemma new_token_Some s t : new_token s (Some t) = true -> len t = UDPResumeTokenSize /\ (t ∉ us_tokens s).
Proof. unfold new_token. rewrite andb_true_iff, negb_true_iff, bool_decide_eq_false. intros [H1 H2]. split; [lia|done]. Qed.

(** The token of a new association is its own. *)
Lemma open_grants s minted i opened : us_inv s -> new_token s minted = true ->
  (forall b, opened = Some b -> sa_resumable b = true -> minted = Some (sa_grant b)) ->
  let live := match opened with Some a => <[i := a]> (us_live s) | None => us_live s end in
  forall j a, live !! j = Some a -> sa_resumable a = true ->
  sa_grant a ∈ match minted with Some t => t :: us_tokens s | None => us_tokens s end /\ len (sa_grant a) = UDPResumeTokenSize /\
  relays (us_store s) !! sa_grant a = None /\ forall j' b, live !! j' = Some b -> sa_resumable b = true -> sa_grant b = sa_grant a -> j' = j.
Proof.
  intros [] Et Hgr live j a Hj Hr.
  assert (Htok : forall t, t ∈ us_tokens s -> t ∈ match minted with Some t => t :: us_tokens s | None => us_tokens s end)
    by (intros t Ht; destruct minted; [apply elem_of_cons; by right|done]).
  assert (Hold : forall j b, us_live s !! j = Some b -> sa_resumable b = true -> minted <> Some (sa_grant b)).
  { intros j' b Hb Hrb Hm. destruct (ui_grants0 _ _ Hb Hrb) as [H1 _]. rewrite Hm in Et. by apply new_token_Some in Et as [_ Et]. }
  unfold live in *. destruct opened as [b|].
  - apply lookup_insert_Some in Hj as [[<- <-]|[Hne Hj]].
    + specialize (Hgr b eq_refl Hr). subst minted. apply new_token_Some in Et as [El Et]. split; [apply elem_of_cons; by left|]. split; [done|].
      split. { destruct (relays (us_store s) !! sa_grant b) eqn:E; [|done]. by apply ui_relays0 in E as [E _]. }
      intros j' b' Hj' Hr' Hg. apply lookup_insert_Some in Hj' as [[<- _]|[Hne' Hj']]; [done|]. rewrite <- Hg in Hold. by destruct (Hold _ _ Hj' Hr').
    + destruct (ui_grants0 _ _ Hj Hr) as (G1 & G2 & G3 & G4). split; [by apply Htok|]. split; [done|]. split; [done|].
      intros j' b' Hj' Hr' Hg. apply lookup_insert_Some in Hj' as [[<- <-]|[Hne' Hj']]; [|by eapply G4].
      exfalso. apply (Hold _ _ Hj Hr). rewrite <- Hg. by apply Hgr.
  - destruct (ui_grants0 _ _ Hj Hr) as (G1 & G2 & G3 & G4). split; [by apply Htok|done].
Qed.

Lemma us_inv_open s i listens minted written s' : us_inv s -> us_step AllowPrivate idleTimeout s (UOpen i listens minted written) = Some s' -> us_inv s'.
Proof.
  intros Hi Hs. pose proof Hi as []. destruct ui_fresh0 as [Hf Hown]. cbn [us_step] in Hs.
  destruct (us_opening s !! i) as [o|] eqn:Eo; [|done]. destruct (new_token s minted) eqn:Et; [|done]. cbn [negb] in Hs.
  destruct (open_association _ _ _ _ _) as [[fs closed_] opened] eqn:Ea. injection Hs as <-.
  destruct (open_association_socket _ _ _ _ _ _ _ _ Ea) as [Hsock Hwho]. destruct (ui_opening0 _ _ Eo) as [Hlive Hclaimed].
  assert (Hnone : us_owner s !! us_fresh s = None) by (destruct (us_owner s !! us_fresh s) eqn:E; [apply Hown in E; lia|done]).
  set (ow := if listens_for o listens then <[us_fresh s := op_principal o]> (us_owner s) else us_owner s).
  assert (Hkeep : forall k q, owned s k q -> exists x, ow !! k = Some x /\ samePrincipal x q = true)
    by (intros k q Hq; unfold ow; destruct (listens_for o listens); [by apply owned_insert|done]).
  assert (Hnew : forall a, opened = Some a -> exists x, ow !! sa_socket a = Some x /\ samePrincipal x (sa_principal a) = true).
  { intros a ->. destruct (open_association_fields _ _ _ _ _ _ _ _ Ea) as (-> & _ & _). destruct (Hwho a eq_refl) as [Hc|[Hc Hl]]; [by apply Hkeep, Hclaimed|].
    destruct listens; [|done]. injection Hl as Hl. unfold ow, listens_for. rewrite Hc, <- Hl, lookup_insert_eq. eexists. split; [done|].
    unfold samePrincipal. by rewrite !bool_decide_true. }
  split; cbn [us_opening us_live us_closed us_store us_fresh us_owner us_tokens].
  - assert (Hseq : seqZ 0 (if listens_for o listens then us_fresh s + 1 else us_fresh s) ≡ₚ
      (if listens_for o listens then [us_fresh s] else []) ++ seqZ 0 (us_fresh s)).
    { destruct (listens_for o listens); [|done]. rewrite seqZ_app by lia. cbn. rewrite Permutation_app_comm. done. }
    rewrite Hseq, <- ui_sockets0, (opening_sockets_delete _ _ _ Eo).
    assert (Hl : live_sockets (match opened with Some a => <[i := a]> (us_live s) | None => us_live s end) ≡ₚ
      option_list (option_map sa_socket opened) ++ live_sockets (us_live s)) by (destruct opened; [by apply live_sockets_insert|done]).
    rewrite Hl. assert (Hx : option_list (op_claimed o) ++ (if listens_for o listens then [us_fresh s] else []) ≡ₚ closed_ ++ option_list (option_map sa_socket opened)).
    { rewrite <- Hsock. unfold listens_for. destruct (op_claimed o), listens; done. }
    transitivity ((closed_ ++ option_list (option_map sa_socket opened)) ++ opening_sockets (delete i (us_opening s)) ++ live_sockets (us_live s) ++ us_closed s ++ store_sockets (us_store s));
      [solve_Permutation|]. rewrite <- Hx. solve_Permutation.
  - split; [destruct (listens_for o listens); lia|]. intros k p. destruct (listens_for o listens); [|apply Hown].
    intros Hk. apply lookup_insert_Some in Hk as [[<- _]|[_ Hk]]; [lia|]. apply Hown in Hk. lia.
  - intros j o' Hj. apply lookup_delete_Some in Hj as [Hne Hj]. destruct (ui_opening0 _ _ Hj) as [H1 H2]. split.
    + destruct opened; [by rewrite lookup_insert_ne|done].
    + intros k Hk. by apply Hkeep, H2.
  - intros j a Hj. destruct opened as [b|]; [|by apply Hkeep, ui_live0 with j].
    apply lookup_insert_Some in Hj as [[<- <-]|[_ Hj]]; [by apply Hnew|by apply Hkeep, ui_live0 with j].
  - intros t r Hr. destruct (ui_relays0 _ _ Hr) as [H1 H2]. split; [|by apply Hkeep]. destruct minted; [apply elem_of_cons; by right|done].
  - apply (open_grants s minted i opened Hi Et). intros b ->. destruct (open_association_fields _ _ _ _ _ _ _ _ Ea) as (_ & H1 & H2).
    intros Hb. apply H2. congruence.
Qed.

Lemma live_sockets_update m i a a' : m !! i = Some a -> sa_socket a' = sa_socket a -> live_sockets (<[i := a']> m) ≡ₚ live_sockets m.
Proof.
  intros Hi Hs. rewrite <- (insert_delete_id m i a Hi), insert_insert_eq.
  rewrite !live_sockets_insert by apply lookup_delete_eq. by rewrite Hs.
Qed.

Lemma us_inv_continue s i a a' : us_inv s -> us_live s !! i = Some a ->
  sa_socket a' = sa_socket a -> sa_principal a' = sa_principal a -> sa_resumable a' = sa_resumable a -> sa_grant a' = sa_grant a ->
  us_inv (mkUdpSys (us_store s) (us_opening s) (<[i := a']> (us_live s)) (us_closed s) (us_fresh s) (us_tokens s) (us_owner s) (us_now s)).
Proof.
  intros [] Hi E1 E2 E3 E4.
  assert (Hback : forall j b, <[i := a']> (us_live s) !! j = Some b -> exists b', us_live s !! j = Some b' /\ sa_socket b = sa_socket b' /\
    sa_principal b = sa_principal b' /\ sa_resumable b = sa_resumable b' /\ sa_grant b = sa_grant b').
  { intros j b Hj. apply lookup_insert_Some in Hj as [[<- <-]|[_ Hj]]; [by exists a|by exists b]. }
  split; cbn; try done.
  - by rewrite (live_sockets_update _ _ _ _ Hi E1).
  - intros j o Hj. destruct (ui_opening0 _ _ Hj) as [H1 H2]. split; [|done]. rewrite lookup_insert_ne; [done|congruence].
  - intros j b Hj. destruct (Hback _ _ Hj) as (b' & Hb & -> & -> & _). by apply ui_live0 with j.
  - intros j b Hj Hr. destruct (Hback _ _ Hj) as (b' & Hb & _ & _ & F3 & F4). rewrite F3 in Hr. rewrite F4.
    destruct (ui_grants0 _ _ Hb Hr) as (G1 & G2 & G3 & G4). split; [done|]. split; [done|]. split; [done|].
    intros j' c Hj' Hr' Hg. destruct (Hback _ _ Hj') as (c' & Hc & _ & _ & K3 & K4). apply (G4 _ _ Hc); congruence.
Qed.

Lemma us_inv_end s i a e closed_ st : us_inv s -> us_live s !! i = Some a -> end_association (us_store s) (us_now s) a e = (closed_, st) ->
  us_inv (mkUdpSys st (us_opening s) (delete i (us_live s)) (us_closed s ++ closed_) (us_fresh s) (us_tokens s) (us_owner s) (us_now s)).
Proof.
  intros [] Hi He.
  assert (Hst : closed_ ++ store_sockets st ≡ₚ sa_socket a :: store_sockets (us_store s) /\
    forall t r, relays st !! t = Some r -> relays (us_store s) !! t = Some r \/
      sa_resumable a = true /\ t = sa_grant a /\ rr_conn r = sa_socket a /\ rr_principal r = sa_principal a).
  { unfold end_association in He. destruct (sa_resumable a) eqn:Er; [destruct (e_retain e)|]; cbn [andb] in He; injection He as <- <-;
      [|split; [done|by left]..]. destruct (ui_grants0 _ _ Hi Er) as (_ & _ & G3 & _).
    split; [by apply retain_sockets|]. intros t r Hr. apply retain_lookup in Hr as [Hr|[-> ->]]; [by left|by right]. }
  destruct Hst as [H1 H2]. split; cbn; try done.
  - rewrite <- ui_sockets0, (live_sockets_delete _ _ _ Hi).
    transitivity (opening_sockets (us_opening s) ++ live_sockets (delete i (us_live s)) ++ us_closed s ++ closed_ ++ store_sockets st); [solve_Permutation|].
    rewrite H1. solve_Permutation.
  - intros j o Hj. destruct (ui_opening0 _ _ Hj) as [F1 F2]. split; [|done]. apply lookup_delete_None. by right.
  - intros j b Hj. apply lookup_delete_Some in Hj as [_ Hj]. by apply ui_live0 with j.
  - intros t r Hr. destruct (H2 _ _ Hr) as [Hr'|(Er & -> & Ec & Ep)]; [by apply ui_relays0|].
    split; [by apply (ui_grants0 _ _ Hi Er)|]. unfold owned. cbn. rewrite Ec, Ep. by apply ui_live0 with i.
  - intros j b Hj Hr. apply lookup_delete_Some in Hj as [Hne Hj]. destruct (ui_grants0 _ _ Hj Hr) as (G1 & G2 & G3 & G4).
    split; [done|]. split; [done|]. split.
    + destruct (relays st !! sa_grant b) eqn:E; [|done]. destruct (H2 _ _ E) as [E'|(Er & Eg & _)]; [congruence|].
      exfalso. apply Hne. by apply (G4 _ _ Hi Er).
    + intros j' c Hj' Hr' Hg. apply lookup_delete_Some in Hj' as [_ Hj']. by eapply G4.
Qed.

Lemma us_inv_step s l s' : us_inv s -> us_step AllowPrivate idleTimeout s l = Some s' -> us_inv s'.
Proof.
  intros Hi Hs. destruct l as [i open principal|i listens minted written|i e| |d].
  - by eapply us_inv_claim.
  - by eapply us_inv_open.
  - cbn [us_step] in Hs. destruct (us_live s !! i) as [a|] eqn:Ea; [|done]. destruct (match e with SIdle => _ | _ => _ end); [done|].
    destruct (serve_event _ _ _ _ _) as [[a' es] [end_|]] eqn:Es; destruct (serve_event_same _ _ _ _ _ _ _ _ Es) as (E0 & E1 & E2 & E3 & E4).
    + destruct (end_association _ _ _ _) as [closed_ st] eqn:Ee. injection Hs as <-. eapply us_inv_end with (a := a); [done..|].
      rewrite <- Ee. unfold end_association. by rewrite E1, E2, E3, E4.
    + injection Hs as <-. by eapply us_inv_continue.
  - cbn [us_step] in Hs. destruct (_ >? 0); [|done]. injection Hs as <-. destruct Hi. split; cbn; try done.
    + by rewrite <- sweep_sockets.
    + intros t r Hr. by apply ui_relays0, sweep_lookup with (us_now s).
    + intros i a Ha Hr. destruct (ui_grants0 _ _ Ha Hr) as (G1 & G2 & G3 & G4). split; [done|]. split; [done|]. split; [|done].
      destruct (relays (sweep _ _) !! _) eqn:E; [|done]. apply sweep_lookup in E. congruence.
  - cbn [us_step] in Hs. destruct (d <? 0); [done|]. injection Hs as <-. by destruct Hi.
Qed.

Lemma us_inv_run ls : forall s s', us_inv s -> us_run AllowPrivate idleTimeout s ls = Some s' -> us_inv s'.
Proof.
  induction ls as [|l ls IH]; intros s s' Hi Hr; cbn in Hr; [by injection Hr as <-|].
  destruct (us_step AllowPrivate idleTimeout s l) eqn:E; [|done]. eapply IH; [|exact Hr]. by eapply us_inv_step.
Qed.

Lemma us_inv_new grace_ maximum_ now : us_inv (new_udp_sys grace_ maximum_ now).
Proof. split; try done. Qed.
End Invariant.

(** C21: a relay has one user.  However the server's associations open, resume, end and
    time out side by side, every socket it has opened is held by exactly one
    association, waits in the store, or is closed: none is shared and none is leaked;
    an association only ever uses a socket its own device has opened; and one that
    ends because the device was revoked, or because of a timeout or its socket, takes
    the socket with it. *)
Theorem relay_sockets_owned AllowPrivate idleTimeout grace_ maximum_ now ls s :
  us_run AllowPrivate idleTimeout (new_udp_sys grace_ maximum_ now) ls = Some s ->
  opening_sockets (us_opening s) ++ live_sockets (us_live s) ++ conns (relays (us_store s)) ++ us_closed s ++ closed (us_store s) ≡ₚ
    seqZ 0 (us_fresh s) /\
  (forall i a, us_live s !! i = Some a -> exists p, us_owner s !! sa_socket a = Some p /\ samePrincipal p (sa_principal a) = true) /\
  (forall i a e s', us_live s !! i = Some a -> e = SAuthorize false \/ e = SIdle \/ e = SLifetime \/ e = SPacketErr false ->
     us_step AllowPrivate idleTimeout s (UEvent i e) = Some s' -> us_live s' !! i = None /\ sa_socket a ∈ us_closed s').
Proof.
  intros Hr. pose proof (us_inv_run _ _ _ _ _ (us_inv_new grace_ maximum_ now) Hr) as []. split; [|split; [exact ui_live0|]].
  { rewrite <- ui_sockets0. unfold store_sockets. solve_Permutation. }
  intros i a e s' Ha He Hs. cbn [us_step] in Hs. rewrite Ha in Hs.
  assert (Hend : exists b, serve_event AllowPrivate idleTimeout (us_now s) a e = (a, [], Some (mkSend b false))) by (destruct He as [-> | [-> | [-> | ->]]]; by eexists).
  destruct Hend as [b Hend]. rewrite Hend in Hs. destruct (match e with SIdle => _ | _ => _ end); [done|].
  unfold end_association in Hs. rewrite andb_false_r in Hs. injection Hs as <-. cbn. split; [apply lookup_delete_eq|].
  apply elem_of_app. right. by apply list_elem_of_singleton.
Qed.

(** ** A rescue *)

Definition udp_request (session : bytes) (flowID : Z) (resume : bytes) : Frame :=
  match udp_open_frame session flowID resume with Ok f => wire f | Err _ => wire (reply TypeOpen 0 flowID 0 ClassInteractive session []) end.

(** The label names the relay's token. *)
Definition claims (token : bytes) (l : us_label) : bool :=
  match l with
  | UClaim _ open _ => match open_payload (f_Payload open) with UDPAssociation (Some t) => bool_decide (t = token) | _ => false end
  | _ => false
  end.

Lemma claim_keeps s now t p r s' t' x : claim s now t p = (r, s') -> t' <> t -> relays s !! t' = Some x -> now <= rr_expires x ->
  relays s' !! t' = Some x.
Proof.
  intros Hc Hne Hx Hn. unfold claim in Hc. destruct (negb (len t =? _)) eqn:Et; [by injection Hc as <- <-|]. cbv zeta in Hc. bool_to_prop.
  assert (Hk : take (Z.to_nat UDPResumeTokenSize) t = t) by (apply take_ge; unfold len in *; lia). rewrite Hk in Hc.
  assert (Hx' : relays (sweepLocked s now) !! t' = Some x).
  { cbn. apply map_lookup_filter_Some. split; [done|]. unfold relay_expired. cbn. lia. }
  destruct (relays (sweepLocked s now) !! t); [|by injection Hc as <- <-].
  destruct (_ || _); injection Hc as <- <-; cbn; by rewrite lookup_delete_ne.
Qed.

Lemma sweep_keeps s now t x : relays s !! t = Some x -> now <= rr_expires x -> relays (sweep s now) !! t = Some x.
Proof.
  intros Hx Hn. assert (Hx' : relays (sweepLocked s now) !! t = Some x).
  { cbn. apply map_lookup_filter_Some. split; [done|]. unfold relay_expired. cbn. lia. }
  unfold sweep. cbv zeta. by destruct (_ =? _)%nat.
Qed.

Lemma retain_keeps s now t p k t' x : t' <> t -> relays s !! t' = Some x -> now <= rr_expires x -> relays (retain s now t p (Some k)) !! t' = Some x.
Proof.
  intros Hne Hx Hn. assert (Hx' : relays (sweepLocked s now) !! t' = Some x).
  { cbn. apply map_lookup_filter_Some. split; [done|]. unfold relay_expired. cbn. lia. }
  unfold retain. cbv zeta. destruct (_ >=? _); cbn [relays]; [done|]. by rewrite lookup_insert_ne.
Qed.

Section Rescued.
Context (AllowPrivate : bool) (idleTimeout : Z).

Lemma us_now_mono s l s' : us_step AllowPrivate idleTimeout s l = Some s' -> us_now s <= us_now s'.
Proof.
  destruct l; cbn [us_step]; intros H; repeat (case_match; simplify_eq; try done); bool_to_prop; cbn; lia.
Qed.

Lemma us_run_mono ls : forall s s', us_run AllowPrivate idleTimeout s ls = Some s' -> us_now s <= us_now s'.
Proof.
  induction ls as [|l ls IH]; intros s s' Hr; cbn in Hr; [injection Hr as <-; lia|].
  destruct (us_step _ _ s l) eqn:E; [|done]. apply us_now_mono in E. apply IH in Hr. lia.
Qed.

(** A relay waits until it is asked for or its time is up. *)
Lemma relay_waits_step s l s' t x : us_inv s -> us_step AllowPrivate idleTimeout s l = Some s' -> claims t l = false ->
  relays (us_store s) !! t = Some x -> us_now s <= rr_expires x -> relays (us_store s') !! t = Some x.
Proof.
  intros Hi Hs Hc Hx Hn. destruct l as [i open principal|i listens minted written|i e| |d]; cbn [us_step] in Hs.
  - destruct (us_opening s !! i); [done|]. destruct (us_live s !! i); [done|]. cbn [claims] in Hc.
    destruct (open_payload _) as [resume| |]; [|done..]. destruct (begin_association _ _ _ _ _) as [o st] eqn:Eb. injection Hs as <-. cbn.
    unfold begin_association in Eb. destruct resume as [token|]; [|by injection Eb as <- <-]. destruct (len token >? 0); [|by injection Eb as <- <-].
    destruct (claim _ _ _ _) as [held s1] eqn:Ec. injection Eb as <- <-. eapply claim_keeps; [exact Ec| |done|done].
    apply bool_decide_eq_false in Hc. congruence.
  - destruct (us_opening s !! i); [|done]. destruct (negb _); [done|]. destruct (open_association _ _ _ _ _) as [[fs closed_] opened]. by injection Hs as <-.
  - destruct (us_live s !! i) as [a|] eqn:Ea; [|done]. destruct (match e with SIdle => _ | _ => _ end); [done|].
    destruct (serve_event _ _ _ _ _) as [[a' es] [end_|]] eqn:Es; [|by injection Hs as <-].
    destruct (serve_event_same _ _ _ _ _ _ _ _ Es) as (_ & _ & _ & E3 & E4). destruct (end_association _ _ _ _) as [closed_ st] eqn:Ee.
    injection Hs as <-. cbn. unfold end_association in Ee. destruct (sa_resumable a' && e_retain end_) eqn:Er; injection Ee as <- <-; [|done].
    apply retain_keeps; [|done|done]. apply andb_true_iff in Er as [Er _]. rewrite E3 in Er. rewrite E4. destruct (ui_grants _ Hi _ _ Ea Er) as (_ & _ & G3 & _). congruence.
  - destruct (_ >? 0); [|done]. injection Hs as <-. cbn. by apply sweep_keeps.
  - destruct (d <? 0); [done|]. by injection Hs as <-.
Qed.

Lemma relay_waits ls : forall s s' t x, us_inv s -> us_run AllowPrivate idleTimeout s ls = Some s' -> forallb (fun l => negb (claims t l)) ls = true ->
  relays (us_store s) !! t = Some x -> us_now s' <= rr_expires x -> relays (us_store s') !! t = Some x.
Proof.
  induction ls as [|l ls IH]; intros s s' t x Hi Hr Hc Hx Hn; cbn in Hr; [by injection Hr as <-|].
  destruct (us_step _ _ s l) as [s1|] eqn:E; [|done]. cbn in Hc. apply andb_true_iff in Hc as [Hc1 Hc2]. apply negb_true_iff in Hc1.
  pose proof (us_run_mono _ _ _ Hr) as Hm. pose proof (us_now_mono _ _ _ E) as Hm1.
  eapply IH; [by eapply us_inv_step|exact Hr|done| |done]. eapply relay_waits_step; [exact Hi|exact E|done|done|lia].
Qed.
End Rescued.

Lemma store_config_claim s now t p r s' : claim s now t p = (r, s') -> grace s' = grace s /\ maximum s' = maximum s.
Proof. unfold claim. cbv zeta. intros H. repeat (case_match; simplify_eq; try done). Qed.

Lemma store_config_step AllowPrivate idleTimeout s l s' : us_step AllowPrivate idleTimeout s l = Some s' ->
  grace (us_store s') = grace (us_store s) /\ maximum (us_store s') = maximum (us_store s).
Proof.
  intros Hs. destruct l as [i open principal|i listens minted written|i e| |d]; cbn [us_step] in Hs.
  - destruct (us_opening s !! i); [done|]. destruct (us_live s !! i); [done|]. destruct (open_payload _) as [resume| |]; [|done..].
    destruct (begin_association _ _ _ _ _) as [o st] eqn:Eb. injection Hs as <-. unfold begin_association in Eb.
    destruct resume as [token|]; [|by injection Eb as <- <-]. destruct (len token >? 0); [|by injection Eb as <- <-].
    destruct (claim _ _ _ _) as [held s1] eqn:Ec. injection Eb as <- <-. by eapply store_config_claim.
  - destruct (us_opening s !! i); [|done]. destruct (negb _); [done|]. destruct (open_association _ _ _ _ _) as [[fs closed_] opened]. by injection Hs as <-.
  - destruct (us_live s !! i) as [a|]; [|done]. destruct (match e with SIdle => _ | _ => _ end); [done|].
    destruct (serve_event _ _ _ _ _) as [[a' es] [end_|]]; [|by injection Hs as <-].
    destruct (end_association _ _ _ _) as [closed_ st] eqn:Ee. injection Hs as <-. cbn. unfold end_association in Ee.
    destruct (_ && _); injection Ee as <- <-; [|done]. unfold retain. cbv zeta. by destruct (_ >=? _).
  - destruct (_ >? 0); [|done]. injection Hs as <-. cbn. unfold sweep. cbv zeta. by destruct (_ =? _)%nat.
  - destruct (d <? 0); [done|]. by injection Hs as <-.
Qed.

Lemma store_config AllowPrivate idleTimeout ls : forall s s', us_run AllowPrivate idleTimeout s ls = Some s' ->
  grace (us_store s') = grace (us_store s) /\ maximum (us_store s') = maximum (us_store s).
Proof.
  induction ls as [|l ls IH]; intros s s' Hr; cbn in Hr; [by injection Hr as <-|].
  destruct (us_step _ _ s l) eqn:E; [|done]. destruct (store_config_step _ _ _ _ _ E), (IH _ _ Hr). split; congruence.
Qed.

Lemma retain_puts s now t p k : Z.of_nat (size (relays s)) < maximum s ->
  relays (retain s now t p (Some k)) !! t = Some (mkRelay k (now + grace s) p).
Proof.
  intros Hm. unfold retain. cbv zeta. pose proof (map_subseteq_size _ _ (map_filter_subseteq (fun kv => ~ relay_expired now kv) (relays s))) as Hs.
  destruct (_ >=? _) eqn:E; [cbn in E; bool_to_prop; lia|]. cbn. apply lookup_insert_eq.
Qed.

Lemma claim_gets s now t p x : len t = UDPResumeTokenSize -> relays s !! t = Some x -> now <= rr_expires x -> samePrincipal (rr_principal x) p = true ->
  fst (claim s now t p) = Some (rr_conn x).
Proof.
  intros Hl Hx Hn Hp. unfold claim. rewrite Hl. cbv zeta. cbn [negb Z.eqb UDPResumeTokenSize].
  assert (Hk : take (Z.to_nat UDPResumeTokenSize) t = t) by (apply take_ge; unfold len in *; lia). rewrite Hk.
  assert (Hx' : relays (sweepLocked s now) !! t = Some x).
  { cbn. apply map_lookup_filter_Some. split; [done|]. unfold relay_expired. cbn. lia. }
  rewrite Hx', Hp, bool_decide_true by done. replace (now >? rr_expires x) with false by lia. done.
Qed.

(** What the server reads in a request to resume. *)
Lemma udp_request_reads session flowID token : len token = UDPResumeTokenSize ->
  open_payload (f_Payload (udp_request session flowID token)) = UDPAssociation (Some token) /\
  h_SessionID (f_Header (udp_request session flowID token)) = session /\ h_FlowID (f_Header (udp_request session flowID token)) = flowID.
Proof.
  intros Hl. assert (He : EncodeUDPResumeOpen token = Ok (UDPResumeMarker ++ token)).
  { unfold EncodeUDPResumeOpen. by rewrite Hl. }
  unfold udp_request, udp_open_frame. rewrite He. split; [|done]. cbn [wire f_Payload reply].
  destruct (open_payloads_unambiguous (UDPResumeMarker ++ token) token token true Hl) as (_ & H2 & H3 & _).
  specialize (H3 He). destruct (H2 H3) as [H4 _]. unfold open_payload. by rewrite H4, H3.
Qed.

(** A rescue keeps the relay.  When the lane under a resumable association is lost
    and the store has room, a replacement that offers the token it was granted, within
    the grace period and from the same device, gets the very socket back, whatever
    other associations do in between, as long as nobody else offers that token; the
    client reads a new token in the answer, the one the server holds the relay under
    from then on. *)
Theorem rescue_keeps_relay AllowPrivate idleTimeout grace_ maximum_ now ls1 s1 i a e s2 ls2 s3 j session flowID principal minted :
  us_run AllowPrivate idleTimeout (new_udp_sys grace_ maximum_ now) ls1 = Some s1 ->
  us_live s1 !! i = Some a -> sa_resumable a = true -> e = SFrameErr false \/ e = SCancelled ->
  us_step AllowPrivate idleTimeout s1 (UEvent i e) = Some s2 -> retained (us_store s1) < maximum_ ->
  us_run AllowPrivate idleTimeout s2 ls2 = Some s3 -> forallb (fun l => negb (claims (sa_grant a) l)) ls2 = true ->
  us_now s3 <= us_now s1 + grace_ -> us_opening s3 !! j = None -> us_live s3 !! j = None ->
  samePrincipal (sa_principal a) principal = true -> new_token s3 (Some minted) = true ->
  exists s4 o openOK b s5,
    us_step AllowPrivate idleTimeout s3 (UClaim j (udp_request session flowID (sa_grant a)) principal) = Some s4 /\ us_opening s4 !! j = Some o /\
    open_association o None (Some minted) true (us_now s4 + idleTimeout) = ([openOK], [], Some b) /\
    us_step AllowPrivate idleTimeout s4 (UOpen j false (Some minted) true) = Some s5 /\ us_live s5 !! j = Some b /\
    sa_socket b = sa_socket a /\ sa_resumed b = true /\ udp_open_answer session flowID (Some (wire openOK)) = Ok (sa_grant b).
Proof.
  intros Hr1 Ha Hra He Hs Hroom Hr2 Hnc Hnow Ho3 Hl3 Hp Hnew.
  pose proof (us_inv_run _ _ _ _ _ (us_inv_new grace_ maximum_ now) Hr1) as Hi1. pose proof (us_inv_step _ _ _ _ _ Hi1 Hs) as Hi2.
  destruct (ui_grants _ Hi1 _ _ Ha Hra) as (_ & Hlen & _ & _). destruct (store_config _ _ _ _ _ Hr1) as [Hg Hm]. cbn in Hg, Hm.
  assert (Hput : relays (us_store s2) !! sa_grant a = Some (mkRelay (sa_socket a) (us_now s1 + grace_) (sa_principal a))).
  { cbn [us_step] in Hs. rewrite Ha in Hs. unfold retained in Hroom.
    pose proof (retain_puts (us_store s1) (us_now s1) (sa_grant a) (sa_principal a) (sa_socket a) ltac:(lia)) as Hin. rewrite Hg in Hin.
    destruct He as [-> | ->]; cbn [serve_event] in Hs; unfold end_association in Hs; rewrite Hra in Hs; cbn [e_retain andb] in Hs; injection Hs as <-; exact Hin. }
  pose proof (relay_waits _ _ _ _ _ _ _ Hi2 Hr2 Hnc Hput Hnow) as Hthere.
  destruct (udp_request_reads session flowID (sa_grant a) Hlen) as (Hop & Hses & Hflow).
  pose proof (claim_gets _ (us_now s3) _ principal _ Hlen Hthere Hnow Hp) as Hclaim.
  set (request := udp_request session flowID (sa_grant a)) in *. destruct (new_token_Some _ _ Hnew) as [Hml Hmn].
  destruct (claim (us_store s3) (us_now s3) (sa_grant a) principal) as [held st] eqn:Ec. cbn in Hclaim. subst held.
  set (o := mkOpening request principal true (Some (sa_socket a))).
  set (b := mkSassoc request principal (sa_socket a) true true minted packetWindow_zero 0 0 0 (us_now s3 + idleTimeout)).
  set (openOK := reply TypeOpenOK 0 flowID 0 ClassInteractive session (EncodeUDPResumeGrant true minted)).
  assert (Hoa : open_association o None (Some minted) true (us_now s3 + idleTimeout) = ([openOK], [], Some b)) by (unfold openOK; by rewrite <- Hses, <- Hflow).
  eexists (mkUdpSys st (<[j := o]> (us_opening s3)) _ _ _ _ _ _), o, openOK, b, _.
  split. { cbn [us_step]. rewrite Ho3, Hl3, Hop. unfold begin_association. rewrite Hlen, Ec. reflexivity. }
  split; [apply lookup_insert_eq|]. split; [exact Hoa|].
  split. { cbn [us_step us_opening us_now]. rewrite lookup_insert_eq. change (new_token _ (Some minted)) with (new_token s3 (Some minted)). rewrite Hnew. cbn [negb]. rewrite Hoa. reflexivity. }
  split; [apply lookup_insert_eq|]. split; [done|]. split; [done|].
  unfold udp_open_answer, openOK. cbn [wire f_Header f_Payload sent_header reply h_SessionID h_FlowID h_Type set_PayloadLen].
  rewrite bool_decide_true by done. rewrite Z.eqb_refl. cbn [negb orb].
  destruct (open_payloads_unambiguous [] [] minted true Hml) as (_ & _ & _ & ->). done.
Qed.

(** ** Datagrams *)

(** The loop of an association over the events it sees, each with its time. *)
Fixpoint serve (AllowPrivate : bool) (idleTimeout : Z) (a : sassoc) (events : list (Z * sevent)) : sassoc * list seffect * option send :=
  match events with
  | [] => (a, [], None)
  | (now, e) :: rest =>
      match serve_event AllowPrivate idleTimeout now a e with
      | (a, es, Some end_) => (a, es, Some end_)
      | (a, es, None) => let '(a, es', r) := serve AllowPrivate idleTimeout a rest in (a, es ++ es', r)
      end
  end.

Definition to_net (es : list seffect) : list ((bytes * Z) * bytes) :=
  omap (fun e => match e with ToNet address payload => Some (address, payload) | ToPeer _ => None end) es.

Section Datagrams.
Context (session : bytes) (flowID : Z).

(** Frames numbered from [seq], each carrying a datagram. *)
Fixpoint numbered (seq_ : Z) (ds : list UDPDatagram) (fs : list Frame) : Prop :=
  match ds, fs with
  | [], [] => True
  | d :: ds, f :: fs =>
      (exists payload, EncodeUDPPacket (d_Destination d) (d_Payload d) = Ok payload /\ f = packet_frame session flowID seq_ payload) /\
      numbered (seq_ +u64 1) ds fs
  | _, _ => False
  end.

Lemma udpAddrEqual_refl a : udpAddrEqual (Some a) (Some a) = true.
Proof. unfold udpAddrEqual, IP_Equal. by rewrite !Z.eqb_refl, !bool_decide_true. Qed.

(** What the uplink sends, from whom. *)
Lemma uplink_sends limit reads : forall peer seq_ peer' ds fs, uplink limit session flowID peer seq_ reads = (peer', ds, fs) ->
  numbered seq_ ds fs /\ (forall p, peer = Some p -> peer' = Some p) /\ len ds <= len reads /\
  Forall (fun d => exists addr packet, (addr, packet, true) ∈ reads /\ udpAddrEqual peer' (Some addr) = true /\ ReadUDPDatagram (read_into limit packet) = Ok d) ds.
Proof.
  induction reads as [|[[addr packet] written] reads IH]; intros peer seq_ peer' ds fs Hu; cbn [uplink] in Hu.
  { injection Hu as <- <- <-. done. }
  destruct (uplink_datagram session flowID peer seq_ addr (read_into limit packet)) as [peer1 sent] eqn:Ed.
  assert (Hd : (forall p, peer = Some p -> peer1 = Some p) /\ forall d f, sent = Some (d, f) -> udpAddrEqual peer1 (Some addr) = true /\ ReadUDPDatagram (read_into limit packet) = Ok d /\
    exists payload, EncodeUDPPacket (d_Destination d) (d_Payload d) = Ok payload /\ f = packet_frame session flowID seq_ payload).
  { unfold uplink_datagram in Ed. destruct peer as [p|]; [destruct (udpAddrEqual (Some p) (Some addr)) eqn:Eq|]; cbn [negb] in Ed; injection Ed as <- <-;
      (split; [naive_solver|]); [|done|]; intros d f Hs; (destruct (ReadUDPDatagram (read_into limit packet)) as [d'|]; [|done]);
      (destruct (EncodeUDPPacket _ _) as [pl|] eqn:Ep; [|done]); injection Hs as <- <-;
      (split; [auto using udpAddrEqual_refl|]; split; [done|]; by exists pl). }
  destruct Hd as [Hpin Hsent]. assert (Hmore : forall ds, Forall (fun d => exists addr packet, (addr, packet, true) ∈ reads /\ udpAddrEqual peer' (Some addr) = true /\ ReadUDPDatagram (read_into limit packet) = Ok d) ds ->
    Forall (fun d => exists a p, (a, p, true) ∈ (addr, packet, written) :: reads /\ udpAddrEqual peer' (Some a) = true /\ ReadUDPDatagram (read_into limit p) = Ok d) ds).
  { intros l Hl. eapply Forall_impl; [exact Hl|]. intros d (a & p & H1 & H2). exists a, p. split; [apply elem_of_cons; by right|done]. }
  rewrite len_cons. destruct sent as [[d f]|].
  - destruct (Hsent _ _ eq_refl) as (H1 & H2 & H3). destruct written; [|injection Hu as <- <- <-; pose proof (len_nonneg reads); split; [done|]; split; [done|]; split; [rewrite len_nil; lia|done]].
    destruct (uplink limit session flowID peer1 (seq_ +u64 1) reads) as [[peer2 ds'] fs'] eqn:Er. injection Hu as <- <- <-.
    destruct (IH _ _ _ _ _ Er) as (I1 & I2 & I3 & I4). split; [by split|]. split; [naive_solver|]. rewrite len_cons. split; [lia|].
    constructor; [|by apply Hmore]. exists addr, packet. split; [apply elem_of_cons; by left|]. split; [|done].
    destruct peer1 as [p1|]; [by rewrite (I2 p1 eq_refl)|done].
  - destruct (IH _ _ _ _ _ Hu) as (I1 & I2 & I3 & I4). split; [done|]. split; [naive_solver|]. split; [lia|by apply Hmore].
Qed.

Lemma numbered_lookup ds : forall fs seq_ f, numbered seq_ ds fs -> f ∈ fs -> 0 <= seq_ -> seq_ + len ds <= 2 ^ 64 ->
  exists i d payload, ds !! i = Some d /\ EncodeUDPPacket (d_Destination d) (d_Payload d) = Ok payload /\
    f = packet_frame session flowID (seq_ + Z.of_nat i) payload /\ in_range 64 (seq_ + Z.of_nat i).
Proof.
  induction ds as [|d ds IH]; intros [|f' fs] seq_ f Hn Hf Hs Hl; try done; [by apply not_elem_of_nil in Hf|].
  destruct Hn as [(payload & He & ->) Hn]. rewrite len_cons in Hl. pose proof (len_nonneg ds). apply elem_of_cons in Hf as [-> | Hf].
  - exists 0%nat, d, payload. rewrite Z.add_0_r. unfold in_range. split; [done|]. split; [done|]. split; [done|lia].
  - destruct ds as [|d' ds']; [destruct fs; [by apply not_elem_of_nil in Hf|done]|]. rewrite len_cons in *. pose proof (len_nonneg ds').
    rewrite (wrap_small 64 (seq_ + 1)) in Hn by lia. destruct (IH fs (seq_ + 1) f Hn Hf ltac:(lia) ltac:(lia)) as (i & x & pl & H1 & H2 & H3 & H4).
    exists (S i), x, pl. split; [done|]. split; [done|]. replace (seq_ + Z.of_nat (S i)) with (seq_ + 1 + Z.of_nat i) by lia. done.
Qed.
End Datagrams.

(** A datagram whose destination's canonical form does not begin with white space. *)
Definition plain (d : UDPDatagram) : Prop := forall c, EncodeDestination (d_Destination d) = Ok c -> leading_space c = false.

Lemma encoded_decodes d payload : plain d -> EncodeUDPPacket (d_Destination d) (d_Payload d) = Ok payload ->
  exists c, EncodeDestination (d_Destination d) = Ok c /\ DecodeUDPPacket payload = Ok (c, d_Payload d).
Proof.
  intros Hp He. pose proof He as He'. unfold EncodeUDPPacket in He'. destruct (EncodeDestination (d_Destination d)) as [c|] eqn:Ec; [|done].
  destruct (len (d_Payload d) >? maxUDPPayload) eqn:El; [done|]. bool_to_prop.
  destruct (udp_packet_roundtrip _ _ _ Ec (Hp c Ec) El) as (_ & _ & out & H1 & H2 & _). exists c. split; [done|]. congruence.
Qed.

(** The server on a packet that decodes. *)
Lemma serve_frame_packet AllowPrivate idleTimeout now a session flowID seq_ payload c p lookup write :
  sa_session a = session -> sa_flow a = flowID -> DecodeUDPPacket payload = Ok (c, p) ->
  serve_frame AllowPrivate idleTimeout now a (wire (packet_frame session flowID seq_ payload)) lookup write =
    (let '(ok, w) := admit_packet (sa_window a) seq_ in
     let a := with_window a w in
     if negb ok then (a, [], None)
     else
       match ResolveUDPAddr AllowPrivate lookup c with
       | Err _ => (a, [], None)
       | Ok addresses =>
           match List.find write addresses with
           | None => (a, [], None)
           | Some address => (relayed a (len p) (now + idleTimeout), [ToNet address p], None)
           end
       end).
Proof.
  intros Hs Hf Hd. unfold serve_frame. cbn [wire packet_frame reply f_Header f_Payload sent_header set_PayloadLen h_SessionID h_FlowID h_Type h_Flags h_Sequence]. cbv zeta.
  rewrite Hs, Hf, bool_decide_true, Z.eqb_refl by done. cbn [negb orb].
  change (TypePacket =? TypeClose) with false. change (TypePacket =? TypePacket) with true. cbn [negb orb]. by rewrite Hd.
Qed.

Lemma place_new placed s : true = place placed s -> s ∉ placed.
Proof.
  intros Hok Hx. unfold place in Hok. destruct placed as [|x l]; [by apply not_elem_of_nil in Hx|]. apply existsb_Zeqb in Hx. rewrite Hx in Hok. done.
Qed.

(** Indices of packets not yet placed. *)
Definition unplaced (placed : list Z) (idx : list nat) : Prop := NoDup idx /\ Forall (fun i => Z.of_nat i ∉ placed) idx.

Lemma unplaced_nil placed : unplaced placed [].
Proof. split; constructor. Qed.

Lemma unplaced_weaken x placed idx : unplaced (x :: placed) idx -> unplaced placed idx.
Proof. intros [H1 H2]. split; [done|]. eapply Forall_impl; [exact H2|]. cbn. intros i Hi Hi'. apply Hi, elem_of_cons. by right. Qed.

Lemma unplaced_cons i placed idx : (Z.of_nat i ∉ placed) -> unplaced (Z.of_nat i :: placed) idx -> unplaced placed (i :: idx).
Proof.
  intros Hi Hu. pose proof (unplaced_weaken _ _ _ Hu) as [H1 H2]. destruct Hu as [_ H3]. split; constructor; try done.
  intros Hin. rewrite Forall_forall in H3. apply (H3 i Hin), elem_of_cons. by left.
Qed.

Section Uplink.
Context (AllowPrivate : bool) (idleTimeout : Z) (ds : list UDPDatagram) (fs : list Frame).
Context (session : bytes) (flowID : Z) (Hnum : numbered session flowID 0 ds fs) (Hlen : len ds <= 2 ^ 64) (Hplain : Forall plain ds).

(** A datagram on the wire is the one that was sent: its payload, to an address its
    destination resolves to. *)
Definition carries (i : nat) (out : (bytes * Z) * bytes) : Prop :=
  exists d c lookup addresses, ds !! i = Some d /\ snd out = d_Payload d /\ EncodeDestination (d_Destination d) = Ok c /\
    ResolveUDPAddr AllowPrivate lookup c = Ok addresses /\ fst out ∈ addresses.

(** The server on one frame of the client. *)
Lemma serve_sent now a f lookup write placed : sa_session a = session -> sa_flow a = flowID -> window_ok (sa_window a) placed -> f ∈ fs ->
  exists i d c, ds !! i = Some d /\ EncodeDestination (d_Destination d) = Ok c /\
  exists a' es placed', serve_frame AllowPrivate idleTimeout now a (wire f) lookup write = (a', es, None) /\ sa_open a' = sa_open a /\
    window_ok (sa_window a') placed' /\
    (placed' = placed /\ es = [] \/
     (Z.of_nat i ∉ placed) /\ placed' = Z.of_nat i :: placed /\ (to_net es = [] \/ exists out, to_net es = [out] /\ carries i out)).
Proof using Hnum Hlen Hplain.
  intros Hs Hf Hw Hin. destruct (numbered_lookup _ _ _ _ _ _ Hnum Hin ltac:(lia) ltac:(lia)) as (i & d & payload & Hd & He & -> & Hr).
  rewrite Z.add_0_l in Hr. rewrite Forall_forall in Hplain. assert (Hpl : plain d) by (apply Hplain; by eapply list_elem_of_lookup_2).
  destruct (encoded_decodes d payload Hpl He) as (c & Hc & Hdec). exists i, d, c. split; [done|]. split; [done|].
  rewrite Z.add_0_l, (serve_frame_packet _ _ _ _ _ _ _ _ _ _ _ _ Hs Hf Hdec).
  destruct (admit_packet (sa_window a) (Z.of_nat i)) as [ok w] eqn:Ea. destruct (window_ok_step _ _ _ _ _ Hw Hr Ea) as [Hok Hw'].
  destruct ok; cbn [negb].
  - assert (Hnew : Z.of_nat i ∉ placed) by (by apply place_new).
    destruct (ResolveUDPAddr AllowPrivate lookup c) as [addresses|] eqn:Er; [destruct (List.find write addresses) as [address|] eqn:Ef|].
    + eexists _, _, (Z.of_nat i :: placed). split; [done|]. split; [done|]. split; [done|]. right. split; [done|]. split; [done|]. right.
      eexists. split; [done|]. exists d, c, lookup, addresses. cbn. apply find_some in Ef as [Ef _]. apply list_elem_of_In in Ef. done.
    + eexists _, _, (Z.of_nat i :: placed). split; [done|]. split; [done|]. split; [done|]. right. split; [done|]. split; [done|]. by left.
    + eexists _, _, (Z.of_nat i :: placed). split; [done|]. split; [done|]. split; [done|]. right. split; [done|]. split; [done|]. by left.
  - eexists _, _, placed. split; [done|]. split; [done|]. split; [done|]. by left.
Qed.

Definition client_frame (e : Z * sevent) : Prop := match snd e with SFrame f _ _ => exists g, g ∈ fs /\ f = wire g | _ => True end.

Lemma serve_datagrams events : forall a placed a' es r, sa_session a = session -> sa_flow a = flowID -> window_ok (sa_window a) placed ->
  Forall client_frame events -> serve AllowPrivate idleTimeout a events = (a', es, r) ->
  exists idx, unplaced placed idx /\ Forall2 carries idx (to_net es).
Proof using Hnum Hlen Hplain.
  induction events as [|[now e] events IH]; intros a placed a' es r Hs Hf Hw Hev Hrun; cbn [serve] in Hrun.
  { injection Hrun as <- <- <-. exists []. split; [apply unplaced_nil|constructor]. }
  apply Forall_cons in Hev as [He Hev]. destruct (match e with SFrame _ _ _ => true | _ => false end) eqn:Ek.
  - destruct e as [f lookup write| | | | | | |]; [|done..]. destruct He as (g & Hg & ->). cbn [serve_event] in Hrun.
    destruct (serve_sent now a g lookup write placed Hs Hf Hw Hg) as (i & d & c & Hd & Hc & a1 & es1 & placed1 & E1 & Eo & Hw1 & Hcase). rewrite E1 in Hrun.
    destruct (serve AllowPrivate idleTimeout a1 events) as [[a2 es2] r2] eqn:E2. injection Hrun as <- <- <-.
    assert (Hs1 : sa_session a1 = session) by (unfold sa_session; by rewrite Eo). assert (Hf1 : sa_flow a1 = flowID) by (unfold sa_flow; by rewrite Eo).
    destruct (IH _ _ _ _ _ Hs1 Hf1 Hw1 Hev E2) as (idx & I1 & I2). unfold to_net. rewrite omap_app. fold (to_net es1) (to_net es2).
    destruct Hcase as [[-> ->]|(Hnew & -> & [Hes|(out & Hes & Hout)])].
    + by exists idx.
    + rewrite Hes. exists idx. split; [by eapply unplaced_weaken|done].
    + rewrite Hes. exists (i :: idx). split; [by apply unplaced_cons|by constructor].
  - assert (Hother : exists a1 es1 r1, serve_event AllowPrivate idleTimeout now a e = (a1, es1, r1) /\ sa_window a1 = sa_window a /\ to_net es1 = []).
    { destruct e as [| source payload written| | | | | |]; [done| |(do 3 eexists; split; [reflexivity|by split])..]. cbn [serve_event]. unfold serve_packet.
      destruct (DestinationFromUDPAddr source); [|(do 3 eexists; split; [reflexivity|by split])]. destruct (EncodeUDPPacket _ _); [|(do 3 eexists; split; [reflexivity|by split])]. destruct written; (do 3 eexists; split; [reflexivity|by split]). }
    destruct Hother as (a1 & es1 & r1 & E1 & Ew & Hes). rewrite E1 in Hrun. destruct (serve_event_same _ _ _ _ _ _ _ _ E1) as (Eo & _).
    destruct r1 as [end_|].
    + injection Hrun as <- <- <-. rewrite Hes. exists []. split; [apply unplaced_nil|constructor].
    + destruct (serve AllowPrivate idleTimeout a1 events) as [[a2 es2] r2] eqn:E2. injection Hrun as <- <- <-.
      unfold to_net. rewrite omap_app. fold (to_net es1) (to_net es2). rewrite Hes. cbn [app].
      assert (Hs1 : sa_session a1 = session) by (unfold sa_session; by rewrite Eo). assert (Hf1 : sa_flow a1 = flowID) by (unfold sa_flow; by rewrite Eo).
      rewrite <- Ew in Hw. by apply (IH a1 placed a2 es2 r2).
Qed.
(** Frames of the client never end the association. *)
Lemma serve_no_failure events : forall a placed, sa_session a = session -> sa_flow a = flowID -> window_ok (sa_window a) placed ->
  Forall client_frame events -> Forall (fun e => exists f lookup write, snd e = SFrame f lookup write) events ->
  snd (serve AllowPrivate idleTimeout a events) = None.
Proof using Hnum Hlen Hplain.
  induction events as [|[now e] events IH]; intros a placed Hs Hf Hw Hev Hall; [done|]. cbn [serve].
  apply Forall_cons in Hev as [He Hev]. apply Forall_cons in Hall as [(f & lookup & write & Hsf) Hall]. cbn in Hsf. subst e. destruct He as (g & Hg & ->).
  destruct (serve_sent now a g lookup write placed Hs Hf Hw Hg) as (i & d & c & _ & _ & a1 & es1 & placed1 & E1 & Eo & Hw1 & _). cbn [serve_event]. rewrite E1.
  specialize (IH a1 placed1). unfold sa_session, sa_flow in *. rewrite Eo in IH. specialize (IH Hs Hf Hw1 Hev Hall).
  by destruct (serve _ _ a1 events) as [[a2 es2] r2].
Qed.
End Uplink.

(** In order and with nothing lost, every datagram goes out. *)
Lemma serve_in_order AllowPrivate idleTimeout session flowID now lookup write ds : forall fs seq_ a placed,
  numbered session flowID seq_ ds fs -> Forall plain ds -> 0 <= seq_ -> seq_ + len ds <= 2 ^ 64 ->
  sa_session a = session -> sa_flow a = flowID -> window_ok (sa_window a) placed -> Forall (fun x => 0 <= x < seq_) placed ->
  Forall (fun d => forall c, EncodeDestination (d_Destination d) = Ok c -> exists l x, ResolveUDPAddr AllowPrivate lookup c = Ok l /\ List.find write l = Some x) ds ->
  map snd (to_net (snd (fst (serve AllowPrivate idleTimeout a (map (fun f => (now, SFrame (wire f) lookup write)) fs))))) = map d_Payload ds.
Proof.
  induction ds as [|d ds IH]; intros [|f fs] seq_ a placed Hn Hp Hs Hl Hse Hfl Hw Hpl Hres; try done.
  destruct Hn as [(payload & He & ->) Hn]. rewrite len_cons in Hl. pose proof (len_nonneg ds).
  apply Forall_cons in Hp as [Hd Hp]. apply Forall_cons in Hres as [Hr Hres]. destruct (encoded_decodes d payload Hd He) as (c & Hc & Hdec).
  destruct (Hr c Hc) as (l & x & Hl1 & Hx). cbn [map serve serve_event]. rewrite (serve_frame_packet _ _ _ _ _ _ _ _ _ _ _ _ Hse Hfl Hdec).
  destruct (admit_packet (sa_window a) seq_) as [ok w] eqn:Ea. assert (Hsr : in_range 64 seq_) by (unfold in_range; lia).
  destruct (window_ok_step _ _ _ _ _ Hw Hsr Ea) as [Hok Hw'].
  assert (Hplace : place placed seq_ = true).
  { unfold place. destruct placed as [|y ys] eqn:Ey; [done|]. rewrite <- Ey in *. apply andb_true_iff. split.
    - apply negb_true_iff, existsb_Zeqb_false. intros Hin. rewrite Forall_forall in Hpl. apply Hpl in Hin. lia.
    - destruct (wk_highest _ _ Hw ltac:(by rewrite Ey)) as [Hh Hin]. rewrite Hh in Hin. rewrite Forall_forall in Hpl. apply Hpl in Hin. unfold packetWindowWidth. lia. }
  rewrite Hplace in Hok. subst ok. cbn [negb]. rewrite Hl1, Hx.
  set (a1 := relayed (with_window a w) (len (d_Payload d)) (now + idleTimeout)).
  destruct ds as [|d' ds'] eqn:Eds; [destruct fs; [done|done]|]. rewrite <- Eds in *. assert (0 < len ds) by (rewrite Eds, len_cons; pose proof (len_nonneg ds'); lia).
  rewrite (wrap_small 64 (seq_ + 1)) in Hn by lia.
  specialize (IH fs (seq_ + 1) a1 (seq_ :: placed) Hn Hp ltac:(lia) ltac:(lia) Hse Hfl Hw').
  destruct (serve AllowPrivate idleTimeout a1 (map _ fs)) as [[a2 es2] r2]. cbn. f_equal. apply IH; [|done].
  constructor; [lia|]. eapply Forall_impl; [exact Hpl|]. cbn. intros y Hy. lia.
Qed.

(** The application's datagrams go out as they were read, once.  The client reads into a
    buffer of [limit] bytes.  Whatever the lane's two substrates lose, repeat and
    reorder, and whatever else the association does, and provided that no destination's
    canonical form begins with white space: every datagram the server puts on the wire
    is one the pinned application sent, with the same bytes if it fits the buffer, to an
    address its destination resolves to, and no datagram goes out twice; the client's
    frames never end the association; and when nothing is lost and every destination
    resolves, all of them go out, in order. *)
Theorem udp_datagrams_once limit AllowPrivate idleTimeout session flowID peer reads peer' ds fs a events :
  uplink limit session flowID peer 0 reads = (peer', ds, fs) -> len reads <= 2 ^ 64 -> Forall plain ds ->
  sa_session a = session -> sa_flow a = flowID -> sa_window a = packetWindow_zero -> Forall (client_frame fs) events ->
  Forall (fun d => exists addr packet, (addr, packet, true) ∈ reads /\ udpAddrEqual peer' (Some addr) = true /\
     ReadUDPDatagram (read_into limit packet) = Ok d /\ (len packet <= limit -> ReadUDPDatagram packet = Ok d)) ds /\
  (exists idx, NoDup idx /\ Forall2 (carries AllowPrivate ds) idx (to_net (snd (fst (serve AllowPrivate idleTimeout a events))))) /\
  (Forall (fun e => exists f lookup write, snd e = SFrame f lookup write) events -> snd (serve AllowPrivate idleTimeout a events) = None) /\
  (forall now lookup write,
     Forall (fun d => forall c, EncodeDestination (d_Destination d) = Ok c ->
       exists l x, ResolveUDPAddr AllowPrivate lookup c = Ok l /\ List.find write l = Some x) ds ->
     map snd (to_net (snd (fst (serve AllowPrivate idleTimeout a (map (fun f => (now, SFrame (wire f) lookup write)) fs))))) = map d_Payload ds).
Proof.
  intros Hu Hl Hp Hs Hf Hw Hev. destruct (uplink_sends _ _ _ _ _ _ _ _ _ Hu) as (Hn & _ & Hlen & Hfrom).
  assert (Hok : window_ok (sa_window a) []) by (rewrite Hw; apply window_zero_ok).
  split; [eapply Forall_impl; [exact Hfrom|]; intros d (addr & packet & H1 & H2 & H3); exists addr, packet; repeat (split; [done|]);
    intros Hfit; unfold read_into in H3; rewrite take_ge in H3 by (unfold len in Hfit; lia); exact H3|]. split; [|split].
  - destruct (serve AllowPrivate idleTimeout a events) as [[a' es] r] eqn:Er.
    destruct (serve_datagrams _ _ _ _ _ _ Hn ltac:(lia) Hp _ _ _ _ _ _ Hs Hf Hok Hev Er) as (idx & [H1 _] & H2). by exists idx.
  - intros Hall. by apply (serve_no_failure _ _ ds fs session flowID Hn ltac:(lia) Hp events a []).
  - intros now lookup write Hres. apply (serve_in_order _ _ session flowID now lookup write ds fs 0 a []); try done; lia.
Qed.

(** ** Replies *)

(** [runClientUDPDownlink]: the datagrams given to the application, and how it ended. *)
Fixpoint downlink (session : bytes) (flowID : Z) (peer : option UDPAddr) (window : packetWindow) (fs : list Frame)
    : list (UDPAddr * bytes * bytes) * option down_error :=
  match fs with
  | [] => ([], None)
  | f :: rest =>
      match downlink_frame session flowID peer window f with
      | (_, DownEnds e) => ([], Some e)
      | (w, DownIgnored) => downlink session flowID peer w rest
      | (w, DownDelivered addr packet payload) => let '(out, r) := downlink session flowID peer w rest in ((addr, packet, payload) :: out, r)
      end
  end.

Definition packets (es : list seffect) : list Frame :=
  omap (fun e => match e with ToPeer f => if h_Type (f_Header f) =? TypePacket then Some f else None | ToNet _ _ => None end) es.

Definition reply_of (events : list (Z * sevent)) (d : UDPDatagram) : Prop :=
  exists now source, (now, SPacket source (d_Payload d) true) ∈ events /\ DestinationFromUDPAddr source = Ok (d_Destination d).

(** What the server replied, numbered. *)
Lemma serve_replies AllowPrivate idleTimeout events : forall a, let es := snd (fst (serve AllowPrivate idleTimeout a events)) in
  exists ds, numbered (sa_session a) (sa_flow a) (sa_reply a) ds (packets es) /\ Forall (reply_of events) ds /\ len ds <= len events.
Proof.
  induction events as [|[now e] events IH]; intros a; cbn [serve]; [by exists []|].
  assert (Hmore : forall ds, Forall (reply_of events) ds -> Forall (reply_of ((now, e) :: events)) ds).
  { intros l Hl. eapply Forall_impl; [exact Hl|]. intros d (n & s & H1 & H2). exists n, s. split; [apply elem_of_cons; by right|done]. }
  destruct (serve_event AllowPrivate idleTimeout now a e) as [[a1 es1] r1] eqn:E1. destruct (serve_event_same _ _ _ _ _ _ _ _ E1) as (Eo & _).
  assert (Hstep : packets es1 = [] /\ sa_reply a1 = sa_reply a \/
    exists source payload encoded destination, e = SPacket source payload true /\ DestinationFromUDPAddr source = Ok destination /\ EncodeUDPPacket destination payload = Ok encoded /\
      packets es1 = [packet_frame (sa_session a) (sa_flow a) (sa_reply a) encoded] /\ sa_reply a1 = sa_reply a +u64 1 /\ r1 = None).
  { destruct e as [f lookup write|source payload written| | | | | |]; cbn [serve_event] in E1; try (injection E1 as <- <- <-; by left).
    - unfold serve_frame in E1. cbv zeta in E1. left. repeat (case_match; simplify_eq; try done).
    - unfold serve_packet in E1. destruct (DestinationFromUDPAddr source) as [destination|] eqn:Ed; [|injection E1 as <- <- <-; by left].
      destruct (EncodeUDPPacket destination payload) as [encoded|] eqn:Ep; [|injection E1 as <- <- <-; by left].
      destruct written; injection E1 as <- <- <-; [|by left]. right. by exists source, payload, encoded, destination. }
  assert (Hses : sa_session a1 = sa_session a) by (unfold sa_session; by rewrite Eo). assert (Hflow : sa_flow a1 = sa_flow a) by (unfold sa_flow; by rewrite Eo).
  rewrite len_cons. pose proof (len_nonneg events). specialize (IH a1). cbv zeta in IH. rewrite Hses, Hflow in IH.
  destruct Hstep as [[Hp Hr]|(source & payload & encoded & destination & -> & Hd & He & Hp & Hr & ->)].
  - destruct r1 as [end_|]; [exists []; cbn [fst snd]; rewrite Hp; split; [done|]; split; [done|rewrite len_nil; lia]|].
    destruct (serve AllowPrivate idleTimeout a1 events) as [[a2 es2] r2]. cbn [fst snd] in *. destruct IH as (ds & I1 & I2 & I3). exists ds.
    unfold packets. rewrite omap_app. fold (packets es1) (packets es2). rewrite Hp. rewrite Hr in I1. split; [done|]. split; [by apply Hmore|lia].
  - destruct (serve AllowPrivate idleTimeout a1 events) as [[a2 es2] r2]. cbn [fst snd] in *. destruct IH as (ds & I1 & I2 & I3).
    exists (mkDatagram destination payload :: ds). unfold packets. rewrite omap_app. fold (packets es1) (packets es2). rewrite Hp. rewrite Hr in I1.
    split; [split; [by exists encoded|exact I1]|]. split; [|rewrite len_cons; lia]. constructor; [|by apply Hmore]. exists now, source. split; [apply elem_of_cons; by left|done].
Qed.

Section Downlink.
Context (session : bytes) (flowID : Z) (peer : option UDPAddr) (ds : list UDPDatagram) (fs : list Frame).
Context (Hnum : numbered session flowID 0 ds fs) (Hlen : len ds <= 2 ^ 64) (Hplain : Forall plain ds).

(** What the application is given for a reply: the SOCKS datagram of its source and
    payload, at the pinned address. *)
Definition replied (i : nat) (out : UDPAddr * bytes * bytes) : Prop :=
  exists d c, ds !! i = Some d /\ EncodeDestination (d_Destination d) = Ok c /\ snd out = d_Payload d /\ udp_datagram c (d_Payload d) = Ok (snd (fst out)) /\
    peer = Some (fst (fst out)).

Lemma downlink_replies rs : forall window placed, window_ok window placed -> Forall (fun f => exists g, g ∈ fs /\ f = wire g) rs ->
  exists idx, unplaced placed idx /\ Forall2 replied idx (fst (downlink session flowID peer window rs)) /\
    match snd (downlink session flowID peer window rs) with None | Some BadDatagram => True | _ => False end.
Proof using Hnum Hlen Hplain.
  induction rs as [|f rs IH]; intros window placed Hw Hrs; cbn [downlink]; [exists []; split; [apply unplaced_nil|by split]|].
  apply Forall_cons in Hrs as [(g & Hg & ->) Hrs].
  destruct (numbered_lookup _ _ _ _ _ _ Hnum Hg ltac:(lia) ltac:(lia)) as (i & d & payload & Hd & He & -> & Hr). rewrite Z.add_0_l in *.
  assert (Hpl : plain d) by (rewrite Forall_forall in Hplain; apply Hplain; by eapply list_elem_of_lookup_2).
  destruct (encoded_decodes d payload Hpl He) as (c & Hc & Hdec).
  destruct (admit_packet window (Z.of_nat i)) as [ok w] eqn:Ea. destruct (window_ok_step _ _ _ _ _ Hw Hr Ea) as [Hok Hw'].
  assert (Hdf : downlink_frame session flowID peer window (wire (packet_frame session flowID (Z.of_nat i) payload)) =
    (w, if negb ok then DownIgnored
        else match udp_datagram c (d_Payload d) with
             | Err _ => DownEnds BadDatagram
             | Ok packet => match peer with None => DownIgnored | Some addr => DownDelivered addr packet (d_Payload d) end
             end)).
  { unfold downlink_frame. cbn [wire packet_frame reply f_Header f_Payload sent_header set_PayloadLen h_SessionID h_FlowID h_Type h_Flags h_Sequence]. cbv zeta.
    rewrite bool_decide_true, Z.eqb_refl by done. cbn [negb orb]. change (TypePacket =? TypeAck) with false. change (TypePacket =? TypePacket) with true.
    cbn [negb orb andb]. by rewrite Ea, Hdec. }
  rewrite Hdf. destruct ok; cbn [negb].
  2: { by apply IH. }
  assert (Hnew : Z.of_nat i ∉ placed) by (by apply place_new).
  destruct (IH w (Z.of_nat i :: placed) Hw' Hrs) as (idx & I1 & I2 & I3). destruct (udp_datagram c (d_Payload d)) as [packet|] eqn:Eu.
  2: { exists []. split; [apply unplaced_nil|by split]. }
  destruct peer as [addr|] eqn:Ep; [|exists idx; split; [by eapply unplaced_weaken|done]].
  destruct (downlink session flowID (Some addr) w rs) as [out r]. exists (i :: idx). split; [by apply unplaced_cons|]. split; [|done].
  constructor; [|done]. by exists d, c.
Qed.
End Downlink.

(** And the replies come back as they are, once: what the application is given are SOCKS
    datagrams of replies the relay's socket received, with the same bytes and the
    address they came from, at the pinned peer, none of them twice; and the client ends
    the lane for none of the server's frames but one it cannot write as a datagram. *)
Theorem udp_replies_once AllowPrivate idleTimeout a events peer rs :
  sa_reply a = 0 -> len events <= 2 ^ 64 -> (forall d, reply_of events d -> plain d) ->
  Forall (fun f => exists g, g ∈ packets (snd (fst (serve AllowPrivate idleTimeout a events))) /\ f = wire g) rs ->
  let '(out, r) := downlink (sa_session a) (sa_flow a) peer packetWindow_zero rs in
  (exists ds idx, Forall (reply_of events) ds /\ NoDup idx /\ Forall2 (replied peer ds) idx out) /\
  match r with None | Some BadDatagram => True | _ => False end.
Proof.
  intros Hr Hl Hp Hrs. destruct (serve_replies AllowPrivate idleTimeout events a) as (ds & H1 & H2 & H3). rewrite Hr in H1.
  assert (Hpl : Forall plain ds) by (eapply Forall_impl; [exact H2|done]).
  destruct (downlink_replies (sa_session a) (sa_flow a) peer ds _ H1 ltac:(lia) Hpl rs packetWindow_zero [] window_zero_ok Hrs) as (idx & [I1 _] & I2 & I3).
  destruct (downlink _ _ _ _ _) as [out r]. split; [|done]. by exists ds, idx.
Qed.

(** ** An association that is opened, loses its lane and is rescued *)

Definition sample_id : bytes := replicate 16 7.
Definition sample_grant : bytes := replicate 16 1.
Definition sample_opened : list us_label :=
  [UClaim 1 (udp_request sample_id 5 []) owner; UOpen 1 true (Some sample_grant) true].
Definition sample_assoc : sassoc := mkSassoc (udp_request sample_id 5 []) owner 0 true false sample_grant packetWindow_zero 0 0 0 60.
Definition sample_sys : udp_sys :=
  mkUdpSys (newUDPRelayStoreWith 30 2) ∅ {[1 := sample_assoc]} [] 1 [sample_grant] {[0 := owner]} 0.
Definition sample_lost : udp_sys := default sample_sys (us_step false 60 sample_sys (UEvent 1 (SFrameErr false))).

Lemma relay_sockets_owned_witness :
  us_run false 60 (new_udp_sys 30 2 0) sample_opened = Some sample_sys /\ live_sockets (us_live sample_sys) = [0] /\
  (forall s', us_step false 60 sample_sys (UEvent 1 (SAuthorize false)) = Some s' -> 0 ∈ us_closed s').
Proof.
  assert (Hr : us_run false 60 (new_udp_sys 30 2 0) sample_opened = Some sample_sys) by (vm_compute; reflexivity).
  split; [exact Hr|]. split; [vm_compute; reflexivity|]. intros s' Hs.
  apply (proj2 (proj2 (relay_sockets_owned false 60 30 2 0 sample_opened sample_sys Hr)) 1 sample_assoc (SAuthorize false) s'); [vm_compute; reflexivity|by left|exact Hs].
Defined.

Lemma rescue_keeps_relay_witness : exists s4 o openOK b s5,
  us_step false 60 sample_lost (UClaim 2 (udp_request sample_id 6 sample_grant) owner) = Some s4 /\ us_opening s4 !! 2 = Some o /\
  open_association o None (Some (replicate 16 2)) true (us_now s4 + 60) = ([openOK], [], Some b) /\
  us_step false 60 s4 (UOpen 2 false (Some (replicate 16 2)) true) = Some s5 /\ us_live s5 !! 2 = Some b /\
  sa_socket b = 0 /\ sa_resumed b = true /\ udp_open_answer sample_id 6 (Some (wire openOK)) = Ok (sa_grant b).
Proof.
  apply (rescue_keeps_relay false 60 30 2 0 sample_opened sample_sys 1 sample_assoc (SFrameErr false) sample_lost [] sample_lost 2 sample_id 6 owner (replicate 16 2));
    [vm_compute; reflexivity|vm_compute; reflexivity|reflexivity|by left|vm_compute; reflexivity|vm_compute; reflexivity|reflexivity|reflexivity|
     vm_compute; discriminate|vm_compute; reflexivity|vm_compute; reflexivity|vm_compute; reflexivity|vm_compute; reflexivity].
Defined.

(** One datagram to a public address, which the lane repeats. *)
Definition sample_peer : UDPAddr := mkUDPAddr [127; 0; 0; 1] 4000 [].
Definition sample_datagram : bytes := [0; 0; 0; 1; 8; 8; 8; 8; 0; 53; 42].
Definition sample_uplink := uplink 65535 sample_id 5 None 0 [(sample_peer, sample_datagram, true)].
Definition sample_frames : list Frame := snd sample_uplink.
Definition sample_events : list (Z * sevent) :=
  map (fun f => (0, SFrame (wire f) (fun _ => None) (fun _ => true))) (sample_frames ++ sample_frames).

Lemma udp_datagrams_once_witness :
  to_net (snd (fst (serve false 60 sample_assoc sample_events))) = [((replicate 10 0 ++ [255; 255; 8; 8; 8; 8], 53), [42])] /\
  snd (serve false 60 sample_assoc sample_events) = None /\
  exists idx, NoDup idx /\ Forall2 (carries false (snd (fst sample_uplink))) idx (to_net (snd (fst (serve false 60 sample_assoc sample_events)))).
Proof.
  split; [vm_compute; reflexivity|].
  destruct (udp_datagrams_once 65535 false 60 sample_id 5 None [(sample_peer, sample_datagram, true)] (fst (fst sample_uplink)) (snd (fst sample_uplink)) sample_frames
    sample_assoc sample_events) as (_ & H2 & H3 & _).
  - vm_compute. reflexivity.
  - vm_compute. discriminate.
  - constructor; [|constructor]. intros c Hc. vm_compute in Hc. injection Hc as <-. vm_compute. reflexivity.
  - reflexivity.
  - reflexivity.
  - reflexivity.
  - apply Forall_forall. intros e He. unfold sample_events in He. apply list_elem_of_fmap in He as (f & -> & Hf). exists f. split; [|reflexivity].
    apply elem_of_app in Hf as [Hf|Hf]; exact Hf.
  - split; [|exact H2]. apply H3. apply Forall_forall. intros e He. unfold sample_events in He. apply list_elem_of_fmap in He as (f & -> & Hf). by do 3 eexists.
Defined.

(** A datagram longer than the buffer is relayed without its end. *)
Theorem long_datagram_cut : exists d f,
  uplink 11 sample_id 5 None 0 [(sample_peer, sample_datagram ++ [43], true)] = (Some sample_peer, [d], [f]) /\
  d_Payload d = [42] /\ (forall d', ReadUDPDatagram (sample_datagram ++ [43]) = Ok d' -> d_Payload d' = [42; 43]).
Proof. do 2 eexists. split; [vm_compute; reflexivity|]. split; [reflexivity|]. intros d' H. vm_compute in H. by injection H as <-. Qed.

(** One datagram of the application can end the association.  Its SOCKS header names
    the domain U+00A0 in brackets; the client encodes it, the server does
    not decode it, and closes the relay without keeping it for a replacement. *)
Theorem bad_destination_ends_association AllowPrivate idleTimeout now a lookup write :
  sa_session a = sample_id -> sa_flow a = 5 ->
  exists d f, uplink_datagram sample_id 5 None 0 sample_peer [0; 0; 0; 3; 4; 91; 194; 160; 93; 0; 1; 7] = (Some sample_peer, Some (d, f)) /\
    serve_frame AllowPrivate idleTimeout now a (wire f) lookup write = (a, [], Some (mkSend true false)).
Proof.
  intros Hs Hf. do 2 eexists. split; [vm_compute; reflexivity|].
  unfold serve_frame. cbn [wire f_Header f_Payload sent_header set_PayloadLen h_SessionID h_FlowID]. cbv zeta. by rewrite Hs, Hf.
Qed.

(** ** The client: bounds *)

(** The delays before the attempts of a rescue. *)
Lemma udpReconnectBackoff_bounds attempt : udpReconnectInitialBackoff <= udpReconnectBackoff attempt <= udpReconnectMaximumBackoff.
Proof.
  unfold udpReconnectBackoff. set (n := Z.to_nat _). clearbody n.
  assert (H : forall n d, udpReconnectInitialBackoff <= d -> udpReconnectInitialBackoff <= backoff_loop n d).
  { clear. unfold udpReconnectInitialBackoff. induction n as [|n IH]; intros d Hd; cbn [backoff_loop]; [lia|]. destruct (_ <? _); [apply IH; lia|lia]. }
  specialize (H n udpReconnectInitialBackoff ltac:(lia)). unfold udpReconnectInitialBackoff, udpReconnectMaximumBackoff in *. destruct (_ >? _) eqn:E; bool_to_prop; lia.
Qed.

(** A rescue makes at most three attempts, behind waits that double; it gives up for
    the caller's reasons at once, and otherwise reports the last failure. *)
Lemma rescue_bounded {A} wait (try_open : Z -> result udp_error A) ds r :
  rescueUDPAssociation wait try_open = (ds, r) ->
  (exists n, (n <= 3)%nat /\ ds = take n [200 * 1000000; 400 * 1000000; 800 * 1000000]) /\
  match r with
  | Ok x => exists n, try_open n = Ok x /\ 0 <= n < maxUDPReconnectAttempts
  | Err (RescueExhausted e) => len ds = maxUDPReconnectAttempts /\ try_open 2 = Err e \/ exists d, wait d = Some (RescueExhausted e)
  | Err e => exists d, wait d = Some e
  end.
Proof.
  unfold rescueUDPAssociation. change (Z.to_nat maxUDPReconnectAttempts) with 3%nat. cbn [rescue_loop].
  change (udpReconnectBackoff 0) with 200000000. change (udpReconnectBackoff (0 + 1)) with 400000000. change (udpReconnectBackoff (0 + 1 + 1)) with 800000000.
  intros H. destruct (wait 200000000) as [e|] eqn:W0; [injection H as <- <-; split; [by exists 1%nat; split; [lia|]|destruct e; eauto]|].
  destruct (try_open 0) as [x|e0] eqn:T0; [injection H as <- <-; split; [by exists 1%nat; split; [lia|]|by exists 0]|].
  destruct (wait 400000000) as [e|] eqn:W1; [injection H as <- <-; split; [by exists 2%nat; split; [lia|]|destruct e; eauto]|].
  destruct (try_open (0 + 1)) as [x|e1] eqn:T1; [injection H as <- <-; split; [by exists 2%nat; split; [lia|]|by exists 1]|].
  destruct (wait 800000000) as [e|] eqn:W2; [injection H as <- <-; split; [by exists 3%nat; split; [lia|]|destruct e; eauto]|].
  destruct (try_open (0 + 1 + 1)) as [x|e2] eqn:T2; injection H as <- <-; (split; [by exists 3%nat; split; [lia|]|]); [by exists 2|by left].
Qed.

(** The half-close succeeds exactly when one of the two workers reports the final
    acknowledgement before the deadline. *)
Lemma close_acknowledged written results : closeUDPAssociation written results = None <->
  written = true /\ (exists rest, results = Some WorkerCloseAck :: rest \/ exists r, results = Some r :: Some WorkerCloseAck :: rest).
Proof.
  unfold closeUDPAssociation. destruct written; cbn [negb]; [|split; [done|by intros [? _]]].
  split.
  - intros H. split; [done|]. destruct results as [|[[]|] [|[[]|] rest]]; cbn in H; try done; eauto 6.
  - intros [_ [rest [-> | [r ->]]]]; [done|by destruct r].
Qed.

Fixpoint client_run (idleTimeout : Z) (c : cassoc) (events : list (Z * cevent)) : cassoc + (bool * bool) :=
  match events with
  | [] => inl c
  | (now, e) :: rest => match client_event idleTimeout now c e with inl c => client_run idleTimeout c rest | inr r => inr r end
  end.

(** However many lanes it goes through, an association that ends well was closed by the
    application, or by the client's own shutdown. *)
Lemma client_clean_end idleTimeout events : forall c graceful, client_run idleTimeout c events = inr (false, graceful) ->
  exists now e, (now, e) ∈ events /\
    match e with
    | CResult WorkerCloseAck _ _ | CResult _ false (Err ControlClosed) | CControl None => graceful = true
    | CResult _ true _ | CDone true => graceful = false
    | _ => False
    end.
Proof.
  induction events as [|[now e] events IH]; intros c graceful Hr; cbn [client_run] in Hr; [done|].
  destruct (client_event idleTimeout now c e) as [c'|[failed g]] eqn:Ee.
  - destruct (IH _ _ Hr) as (n & x & H1 & H2). exists n, x. split; [apply elem_of_cons; by right|done].
  - injection Hr as -> ->. exists now, e. split; [apply elem_of_cons; by left|]. unfold client_event in Ee.
    repeat (case_match; simplify_eq; try done).
Qed.
