(* ===== verification/Bbr.v ===== *)
(** The TUIC-style BBR controller ([internal/congestion/bbr_tuic.go]) and the
    telemetry it publishes ([internal/congestion/telemetry.go]), over the bandwidth
    estimator ([Bandwidth]), the pacer ([Pacing]) and binary64 ([GoFloat]).

    A sender is one record with the source's fields.  Four constants belong to the
    QUIC library and are variables.  What the round-trip provider and the clock
    answer during one callback is an argument, [environment]; the clock stands still
    within a callback.  Byte counts, packet numbers, times and durations are [int64],
    rates and totals [uint64]. *)

From S2P Require Import Prelude GoFloat Bandwidth Pacing.
From coqutil Require Import Datatypes.RecordSetters.
Import DoubleBraceUpdate.

(** ** Telemetry *)

Definition ControllerModeStartup : Z := 1.
Definition ControllerModeDrain : Z := 2.
Definition ControllerModeProbeBW : Z := 3.
Definition ControllerModeProbeRTT : Z := 4.

Record telemetryState := mkTelemetry {
  t_kind : String.string;
  t_mode : Z; t_maxBandwidth : Z;
  t_latestSample : Z; t_latestAckRate : Z; t_latestSendRate : Z;
  t_samples : Z; t_nonAppSamples : Z; t_appSamples : Z; t_stateMisses : Z; t_zeroSamples : Z; t_round : Z;
  t_sampleMean : Z; t_sampleMax : Z; t_sampleMaxDelivered : Z; t_sampleMaxIntervalNS : Z;
  t_pacingRate : Z; t_congestionWindow : Z; t_bytesInFlight : Z; t_bytesLost : Z; t_packetsLost : Z;
  t_minRTTNS : Z; t_inRecovery : bool
}.

Definition newTelemetryState (kind : String.string) : telemetryState :=
  mkTelemetry kind 0 0 0 0 0 0 0 0 0 0 0 0 0 0 0 0 0 0 0 0 0 false.

Definition observeLoss (t : telemetryState) (bytes_ packets : Z) : telemetryState :=
  t {{ t_bytesLost := t_bytesLost t +u64 bytes_; t_packetsLost := t_packetsLost t +u64 packets }}.

Definition telemetry_update (t : telemetryState) (mode maxBandwidth pacingRate congestionWindow bytesInFlight minRTT : Z)
    (inRecovery : bool) : telemetryState :=
  let congestionWindow := if congestionWindow <? 0 then 0 else congestionWindow in
  let bytesInFlight := if bytesInFlight <? 0 then 0 else bytesInFlight in
  let minRTT := if minRTT <? 0 then 0 else minRTT in
  t {{ t_mode := mode; t_maxBandwidth := maxBandwidth; t_pacingRate := pacingRate;
       t_congestionWindow := wrap 64 congestionWindow; t_bytesInFlight := wrap 64 bytesInFlight;
       t_minRTTNS := minRTT; t_inRecovery := inRecovery }}.

Definition updateSampler (t : telemetryState) (s : sampleStats) (round : Z) : telemetryState :=
  t {{ t_latestSample := latestSample s; t_latestAckRate := latestAckRate s; t_latestSendRate := latestSendRate s;
       t_samples := st_samples s; t_nonAppSamples := nonAppSamples s; t_appSamples := appSamples s;
       t_stateMisses := stateMisses s; t_zeroSamples := zeroSamples s; t_round := round }}.

Definition updateSampleShape (t : telemetryState) (mean max_ delivered interval : Z) : telemetryState :=
  t {{ t_sampleMean := mean; t_sampleMax := max_; t_sampleMaxDelivered := delivered; t_sampleMaxIntervalNS := interval }}.

(** ** The sender *)

Inductive tuicBbrMode := tuicBbrStartup | tuicBbrDrain | tuicBbrProbeBW | tuicBbrProbeRTT.
#[export] Instance tuicBbrMode_eq : EqDecision tuicBbrMode.
Proof. solve_decision. Defined.

Inductive tuicRecoveryState := tuicNotInRecovery | tuicConservation | tuicGrowth.
#[export] Instance tuicRecoveryState_eq : EqDecision tuicRecoveryState.
Proof. solve_decision. Defined.

Definition inRecovery (r : tuicRecoveryState) : bool := negb (bool_decide (r = tuicNotInRecovery)).

Record tuicAckAggregation := mkAckAggregation { maxAckHeight : tuicMinMax; epochStart : Z; epochBytes : Z }.

(** [rttStats] says whether a provider is set. *)
Record TUICBBRSender := mkSender {
  rttStats : bool; lossIsCongestion : bool; maxDatagramSize : Z; bpacer : pacer;
  mode : tuicBbrMode;
  pacingGain : float64; highGain : float64; drainGain : float64; cwndGain : float64; highCwndGain : float64;
  lastCycle : Z; cycleOffset : Z; randomState : Z;
  initialCwnd : Z; minCwnd : Z; maxCwnd : Z;
  exitProbeRTT : Z; probeRTTRoundPassed : bool; minRTT : Z; minRTTAt : Z; exitingQuiescence : bool;
  maxAckedPN : Z; maxSentPN : Z; endRecoveryPN : Z;
  cwnd : Z; roundEndPN : Z; round : Z; bwAtLastRound : Z; roundsNoGain : Z; fullBandwidth : bool;
  lastSampleAppLimited : bool; peakBandwidth : Z; peakBandwidthAt : Z; lossEventsInRound : Z; bytesLostInRound : Z;
  estimator : tuicBandwidthEstimator; ackedBytes : Z; ackAgg : tuicAckAggregation;
  recovery : tuicRecoveryState; recoveryWindow : Z;
  pacingRate : Z; bytesInFlight : Z; telemetry : telemetryState
}.

Definition tuicHighGain : float64 := float_quot 2885 1000.
Definition tuicDrainGain : float64 := float_quot 1000 2885.
Definition tuicCwndGain : float64 := float_of 2.
Definition tuicProbeRTTInterval : Z := 10 * second.
Definition tuicProbeRTTDuration : Z := 200 * 1000000.
Definition tuicStartupGrowth : float64 := float_quot 125 100.
Definition tuicStartupNoGainRounds : Z := 3.
Definition tuicStartupLossEvents : Z := 8.
Definition tuicStartupLossFraction : float64 := float_quot 2 100.
Definition tuicMaxBurstPackets : Z := 10.
Definition tuicInitialPackets : Z := 32.
Definition tuicDefaultMinRate : Z := 64 * 1024.
Definition tuicMaxRate : Z := 2 * 1024 * 1024 * 1024.
Definition maxCongestionByteCount : Z := 2 ^ 63 - 1.

Definition tuicPacingGains : list float64 :=
  [float_quot 125 100; float_quot 75 100; float_of 1; float_of 1; float_of 1; float_of 1; float_of 1; float_of 1].

(** [tuicPacingGains[offset]]; the offsets are below eight. *)
Definition gain_at (offset : Z) : float64 := default (float_of 1) (tuicPacingGains !! Z.to_nat offset).

(** What is read from outside during one callback. *)
Record environment := mkEnvironment { env_MinRTT : Z; env_LatestRTT : Z; env_Now : Z }.

Record LostPacketInfo := mkLost { lp_PacketNumber : Z; lp_BytesLost : Z }.

(** ** Arithmetic that does not wrap *)

Definition saturatingRemaining (inFlight acked lost : Z) : Z :=
  if inFlight <=? 0 then 0
  else
    let remaining := wrap 64 inFlight in
    if acked >=? remaining then 0
    else
      let remaining := remaining - acked in
      if lost >=? remaining then 0 else i64 (remaining - lost).

Definition saturatingByteAdd (a b : Z) : Z :=
  let a := if a <? 0 then 0 else a in
  let max_ := wrap 64 maxCongestionByteCount in
  if (wrap 64 a >=? max_) || (b >? max_ - wrap 64 a) then maxCongestionByteCount else i64 (a + i64 b).

Definition scaleTUICWindow (window oldSize newSize : Z) : Z :=
  if (window <=? 0) || (oldSize <=? 0) || (newSize <=? 0) || (oldSize =? newSize) then window
  else if window >? Z.quot maxCongestionByteCount newSize then maxCongestionByteCount
  else Z.quot (i64 (window * newSize)) oldSize.

Definition preSendBytesInFlight (postSend bytes_ : Z) (retransmittable : bool) : Z :=
  if (postSend <=? 0) || negb retransmittable || (bytes_ <=? 0) then maxByteCount 0 postSend
  else if postSend <=? bytes_ then 0 else i64 (postSend - bytes_).

Definition largest_acked (acked : list AckedPacketInfo) : Z :=
  fold_left (fun m p => if ap_PacketNumber p >? m then ap_PacketNumber p else m) acked (-1).

Definition largest_lost (lost : list LostPacketInfo) : Z :=
  fold_left (fun m p => if lp_PacketNumber p >? m then lp_PacketNumber p else m) lost (-1).

Definition obsoletePacketNumber (acked : list AckedPacketInfo) (lost : list LostPacketInfo) : option Z :=
  match acked with
  | _ :: _ =>
      let largest := largest_acked acked in
      if largest <? 0 then None else if largest >? 1 then Some (largest - 2) else Some 0
  | [] =>
      let largest := largest_lost lost in
      if largest <? 0 then None
      else if largest =? 2 ^ 63 - 1 then Some largest else Some (largest + 1)
  end.

(** ** Acknowledgement aggregation *)

Definition aggregation_update (a : tuicAckAggregation) (newlyAcked now round bandwidth : Z) : Z * tuicAckAggregation :=
  if (newlyAcked =? 0) || (bandwidth =? 0) then (0, mkAckAggregation (maxAckHeight a) now newlyAcked)
  else
    let expected :=
      if negb (epochStart a =? 0) && (now >? epochStart a) then
        let elapsedMicros := wrap 64 (Z.quot (i64 (now - epochStart a)) 1000) in
        let '(hi, lo) := Mul64 bandwidth elapsedMicros in
        if hi =? 0 then lo / 1000000 else maxUint64
      else 0 in
    if epochBytes a <=? expected then (0, mkAckAggregation (maxAckHeight a) now newlyAcked)
    else
      let bytes_ := satAddUint64 (epochBytes a) newlyAcked in
      let diff := bytes_ -u64 expected in
      (diff, mkAckAggregation (updateMax (maxAckHeight a) round 0 diff) (epochStart a) bytes_).

(** ** Recovery *)

Definition updateRecoveryState (b : TUICBBRSender) (lastAckedPacket : Z) (hasLosses roundStart : bool) : TUICBBRSender :=
  if negb (fullBandwidth b) then b
  else
    let b := if hasLosses then b {{ endRecoveryPN := maxSentPN b }} else b in
    match recovery b with
    | tuicNotInRecovery =>
        if hasLosses then b {{ recovery := tuicConservation; recoveryWindow := 0; roundEndPN := maxSentPN b }} else b
    | _ =>
        let b := if bool_decide (recovery b = tuicConservation) && roundStart then b {{ recovery := tuicGrowth }} else b in
        if negb hasLosses && (lastAckedPacket >? endRecoveryPN b) then b {{ recovery := tuicNotInRecovery }} else b
    end.

Definition calculateRecoveryWindow (b : TUICBBRSender) (bytesAcked bytesLost inFlight : Z) : TUICBBRSender :=
  if negb (inRecovery (recovery b)) then b
  else
    let lost := if bytesLost <? wrap 64 maxCongestionByteCount then i64 bytesLost else maxCongestionByteCount in
    let minimum := maxByteCount (minCwnd b) (saturatingByteAdd inFlight bytesAcked) in
    if recoveryWindow b =? 0 then b {{ recoveryWindow := minimum }}
    else
      let w := if recoveryWindow b >=? lost then recoveryWindow b - lost else maxDatagramSize b in
      let w := if bool_decide (recovery b = tuicGrowth) then saturatingByteAdd w bytesAcked else w in
      b {{ recoveryWindow := if w <? minimum then minimum else w }}.

(** ** The windows *)

Definition probeRTTCwnd (b : TUICBBRSender) : Z := minCwnd b.

Definition GetCongestionWindow (b : TUICBBRSender) : Z :=
  let window := if bool_decide (mode b = tuicBbrProbeRTT) then probeRTTCwnd b else cwnd b in
  let window := if window <? minCwnd b then minCwnd b else window in
  if inRecovery (recovery b) && negb (bool_decide (mode b = tuicBbrStartup)) && (recoveryWindow b >? 0) &&
     (window >? recoveryWindow b)
  then recoveryWindow b else window.

Definition CanSend (b : TUICBBRSender) (inFlight : Z) : bool := inFlight <? GetCongestionWindow b.
Definition InSlowStart (b : TUICBBRSender) : bool := bool_decide (mode b = tuicBbrStartup).
Definition InRecovery (b : TUICBBRSender) : bool := inRecovery (recovery b).
Definition minRoundTrip (b : TUICBBRSender) : Z := minRTT b.

Definition bbr_appLimited (b : TUICBBRSender) (priorInFlight : Z) : bool :=
  let window := GetCongestionWindow b in
  if priorInFlight >=? window then false
  else
    let available := i64 (window - priorInFlight) in
    let drainLimited := bool_decide (mode b = tuicBbrDrain) && (priorInFlight >? Z.quot window 2) in
    negb drainLimited || (available >? i64 (tuicMaxBurstPackets * maxDatagramSize b)).

Section Controller.
(** Constants of [congestion] in the QUIC library, and the machine's conversions. *)
Variables (MinInitialPacketSize InitialPacketSize MaxCongestionWindowPackets MinPacingDelay : Z).
Context `{FloatConv}.

(** ** Rates *)

Definition rtt (env : environment) (b : TUICBBRSender) : Z :=
  if minRTT b >? 0 then minRTT b
  else if rttStats b && (env_MinRTT env >? 0) then env_MinRTT env
  else 100 * 1000000.

Definition initialPacingRate (env : environment) (b : TUICBBRSender) : Z :=
  let r := rtt env b in
  if r <=? 0 then tuicDefaultMinRate
  else
    let rate := uint64_of (fdiv (fmul (float_of (initialCwnd b)) (highGain b)) (Seconds r)) in
    if rate <? tuicDefaultMinRate then tuicDefaultMinRate
    else if rate >? tuicMaxRate then tuicMaxRate else rate.

(** The rate [bandwidth] returns, and the sender after it published it. *)
Definition bandwidth (env : environment) (b : TUICBBRSender) : Z :=
  let rate := pacingRate b in
  let rate := if rate =? 0 then initialPacingRate env b else rate in
  let rate := if rate <? tuicDefaultMinRate then tuicDefaultMinRate else rate in
  i64 (if rate >? tuicMaxRate then tuicMaxRate else rate).

Definition publish_rate (env : environment) (b : TUICBBRSender) : TUICBBRSender :=
  b {{ telemetry -> t_pacingRate := wrap 64 (bandwidth env b) }}.

Definition mode_code (m : tuicBbrMode) : Z :=
  match m with
  | tuicBbrStartup => ControllerModeStartup
  | tuicBbrDrain => ControllerModeDrain
  | tuicBbrProbeBW => ControllerModeProbeBW
  | tuicBbrProbeRTT => ControllerModeProbeRTT
  end.

Definition publishTelemetry (env : environment) (b : TUICBBRSender) : TUICBBRSender :=
  let b := publish_rate env b in
  let t := telemetry_update (telemetry b) (mode_code (mode b)) (estimate (estimator b)) (wrap 64 (bandwidth env b))
             (GetCongestionWindow b) (bytesInFlight b) (minRTT b) (InRecovery b) in
  let t := updateSampler t (stats (estimator b)) (round b) in
  let '(_, mean, max_, delivered, interval) := sampleSummary (estimator b) in
  b {{ telemetry := updateSampleShape t mean max_ delivered interval }}.

(** ** Construction *)

Definition NewTUICBBRSender (env : environment) (initialPacketSize : Z) : TUICBBRSender :=
  let size := if initialPacketSize <? MinInitialPacketSize then InitialPacketSize else initialPacketSize in
  let initial := i64 (tuicInitialPackets * size) in
  let min_ := i64 (4 * size) in
  let initial := if initial <? min_ then min_ else initial in
  let max_ := i64 (MaxCongestionWindowPackets * size) in
  let initial := if initial >? max_ then max_ else initial in
  publishTelemetry env
    {| rttStats := false; lossIsCongestion := true; maxDatagramSize := size;
       bpacer := newTUICPacer InitialPacketSize MinPacingDelay;
       mode := tuicBbrStartup;
       pacingGain := tuicHighGain; highGain := tuicHighGain; drainGain := tuicDrainGain;
       cwndGain := tuicCwndGain; highCwndGain := tuicCwndGain;
       lastCycle := 0; cycleOffset := 0;
       randomState := Z.lxor (wrap 64 (env_Now env)) (wrap 64 (Z.shiftl (wrap 64 size) 17));
       initialCwnd := initial; minCwnd := min_; maxCwnd := max_;
       exitProbeRTT := 0; probeRTTRoundPassed := false; minRTT := 0; minRTTAt := 0; exitingQuiescence := false;
       maxAckedPN := -1; maxSentPN := -1; endRecoveryPN := -1;
       cwnd := initial; roundEndPN := -1; round := 0; bwAtLastRound := 0; roundsNoGain := 0; fullBandwidth := false;
       lastSampleAppLimited := false; peakBandwidth := 0; peakBandwidthAt := 0; lossEventsInRound := 0; bytesLostInRound := 0;
       estimator := newTUICBandwidthEstimator; ackedBytes := 0; ackAgg := mkAckAggregation newTUICMinMax 0 0;
       recovery := tuicNotInRecovery; recoveryWindow := 0;
       pacingRate := 0; bytesInFlight := 0; telemetry := newTelemetryState "bbr-tuic"%string |}.

Definition SetRTTStatsProvider (env : environment) (b : TUICBBRSender) (provided : bool) : TUICBBRSender :=
  publishTelemetry env (b {{ rttStats := provided }}).

(** ** Measurements *)

(** Whether an existing minimum expired, and the sender. *)
Definition refreshRTTSample (b : TUICBBRSender) (now sample : Z) : bool * TUICBBRSender :=
  if sample <=? 0 then (false, b)
  else
    let expired := negb (minRTTAt b =? 0) && (i64 (now - minRTTAt b) >=? tuicProbeRTTInterval) in
    (expired,
     if (minRTT b <=? 0) || (sample <? minRTT b) || expired then b {{ minRTT := sample; minRTTAt := now }} else b).

Definition seed_filter (env : environment) (b : TUICBBRSender) (rate roundTrip : Z) : TUICBBRSender :=
  let f := maxFilter (estimator b) in
  let f := if roundTrip >? 0 then setRoundTrip f roundTrip else f in
  b {{ estimator := with_filter (estimator b) (updateMax f (round b) (env_Now env) rate) }}.

Definition seedBandwidth (env : environment) (b : TUICBBRSender) (rate roundTrip : Z) : TUICBBRSender :=
  if rate =? 0 then b
  else
    let rate := if rate >? tuicMaxRate then tuicMaxRate else rate in
    let b := seed_filter env b rate roundTrip in
    let pacing := uint64_of (fmul (float_of rate) (highGain b)) in
    let b := if pacing >? pacingRate b then b {{ pacingRate := minUint64 pacing tuicMaxRate }} else b in
    if roundTrip <=? 0 then b
    else
      let window := int64_of (fmul (float_of rate) (Seconds roundTrip)) in
      let window := if window >? maxCwnd b then maxCwnd b else window in
      if window >? cwnd b then b {{ cwnd := window }} else b.

Definition restartFromIdle (env : environment) (b : TUICBBRSender) (now : Z) : TUICBBRSender :=
  if peakBandwidth b <=? estimate (estimator b) then b
  else if mm_expired (maxFilter (estimator b)) (mkMM 0 (peakBandwidthAt b) (peakBandwidth b)) now then b
  else seedBandwidth env b (peakBandwidth b) (minRTT b).

(** ** Sending *)

(** The answer, and the sender once the pacer has asked for its bandwidth. *)
Definition TimeUntilSend (env : environment) (b : TUICBBRSender) : Z * TUICBBRSender :=
  (timeUntilSend MinPacingDelay (bandwidth env b) (bpacer b),
   if budgetAtLastSent (bpacer b) >=? p_maxDatagramSize (bpacer b) then b else publish_rate env b).

Definition HasPacingBudget (env : environment) (b : TUICBBRSender) (now : Z) : bool * TUICBBRSender :=
  (budget (bandwidth env b) None (bpacer b) now >=? maxDatagramSize b, publish_rate env b).

Definition OnPacketSent (env : environment) (b : TUICBBRSender) (sentTime inFlight number bytes_ : Z) (retransmittable : bool)
    : TUICBBRSender :=
  let b := b {{ maxSentPN := number }} in
  let preSendFlight := preSendBytesInFlight inFlight bytes_ retransmittable in
  let b := if preSendFlight =? 0 then restartFromIdle env (b {{ exitingQuiescence := true }}) sentTime else b in
  let b := b {{ bytesInFlight := maxByteCount 0 inFlight }} in
  let b := b {{ estimator := onSentPacket (estimator b) sentTime number (wrap 64 (maxByteCount 0 bytes_))
                               (wrap 64 preSendFlight) retransmittable }} in
  let b := publish_rate env b in
  let b := b {{ bpacer := sentPacket (bandwidth env b) None (bpacer b) sentTime bytes_ }} in
  publishTelemetry env b.

(** ** The model of the path *)

Definition targetCwnd (env : environment) (b : TUICBBRSender) (gain : float64) : Z :=
  let bw := estimate (estimator b) in
  if bw =? 0 then
    let target := fmul (float_of (initialCwnd b)) gain in
    if fltb (float_of (maxCwnd b)) target then maxCwnd b else maxByteCount (minCwnd b) (int64_of target)
  else
    let r := if minRTT b <=? 0 then rtt env b else minRTT b in
    let bdp := fmul (fmul (float_of bw) (Seconds r)) gain in
    if IsNaN bdp || IsInf bdp || fltb bdp (float_of (minCwnd b)) then minCwnd b
    else if fltb (float_of (maxCwnd b)) bdp then maxCwnd b
    else int64_of bdp.

(** The offset drawn, and the state of the generator after it. *)
Definition nextCycleOffset (env : environment) (b : TUICBBRSender) : Z * Z :=
  let x := if randomState b =? 0
           then Z.lxor (Z.lxor (wrap 64 (env_Now env)) (wrap 64 (Z.shiftl (wrap 64 (maxDatagramSize b)) 19))) 0x9e3779b97f4a7c15
           else randomState b in
  let x := Z.lxor x (wrap 64 (Z.shiftl x 13)) in
  let x := Z.lxor x (Z.shiftr x 7) in
  let x := Z.lxor x (wrap 64 (Z.shiftl x 17)) in
  let offset := x mod (len tuicPacingGains - 1) in
  (if offset >=? 1 then offset + 1 else offset, x).

(** Into ProbeBW at a drawn phase. *)
Definition enter_probe_bw (env : environment) (b : TUICBBRSender) (now : Z) : TUICBBRSender :=
  let '(offset, x) := nextCycleOffset env b in
  b {{ mode := tuicBbrProbeBW; cwndGain := tuicCwndGain; lastCycle := now; randomState := x; cycleOffset := offset;
       pacingGain := gain_at offset }}.

Definition updateGainCycle (env : environment) (b : TUICBBRSender) (now priorInFlight inFlight : Z) (hasLosses : bool)
    : TUICBBRSender :=
  let advance := negb (lastCycle b =? 0) && (i64 (now - lastCycle b) >? rtt env b) in
  let advance :=
    if fltb (float_of 1) (pacingGain b) && negb hasLosses && (priorInFlight <? targetCwnd env b (pacingGain b))
    then false else advance in
  let advance :=
    if fltb (pacingGain b) (float_of 1) && (inFlight <=? targetCwnd env b (float_of 1)) then true else advance in
  if negb advance then b
  else
    let offset := wrap 8 (cycleOffset b + 1) mod len tuicPacingGains in
    b {{ cycleOffset := offset; lastCycle := now; pacingGain := gain_at offset }}.

Definition maybeExitStartupDrain (env : environment) (b : TUICBBRSender) (now inFlight : Z) : TUICBBRSender :=
  let b :=
    if bool_decide (mode b = tuicBbrStartup) && fullBandwidth b
    then b {{ mode := tuicBbrDrain; pacingGain := drainGain b; cwndGain := highCwndGain b }} else b in
  if bool_decide (mode b = tuicBbrDrain) && (inFlight <=? targetCwnd env b (float_of 1)) then enter_probe_bw env b now else b.

Definition shouldExitStartupForLoss (b : TUICBBRSender) (lastSendState : tuicSendState) : bool :=
  if (lossEventsInRound b <? tuicStartupLossEvents) || negb (ss_valid lastSendState) ||
     (ss_bytesInFlight lastSendState =? 0) || (bytesLostInRound b =? 0)
  then false
  else fltb (fmul (float_of (ss_bytesInFlight lastSendState)) tuicStartupLossFraction) (float_of (bytesLostInRound b)).

Definition checkFullBandwidth (b : TUICBBRSender) (lastSendState : tuicSendState) : TUICBBRSender :=
  if lastSampleAppLimited b then b
  else
    let target := uint64_of (fmul (float_of (bwAtLastRound b)) tuicStartupGrowth) in
    let bw := estimate (estimator b) in
    if bw >=? target then b {{ bwAtLastRound := bw; roundsNoGain := 0 }}
    else
      let b := b {{ roundsNoGain := wrap 8 (roundsNoGain b + 1) }} in
      if (roundsNoGain b >=? tuicStartupNoGainRounds) || shouldExitStartupForLoss b lastSendState
      then b {{ fullBandwidth := true }} else b.

(** The end of ProbeRTT. *)
Definition leave_probe_rtt (env : environment) (b : TUICBBRSender) (now : Z) : TUICBBRSender :=
  let b := b {{ minRTTAt := now }} in
  if fullBandwidth b then enter_probe_bw env b now
  else b {{ mode := tuicBbrStartup; pacingGain := highGain b; cwndGain := highCwndGain b }}.

Definition maybeProbeRTT (env : environment) (b : TUICBBRSender) (now : Z) (roundStart : bool) (inFlight : Z)
    (minRTTExpired : bool) : TUICBBRSender :=
  let b :=
    if minRTTExpired && negb (exitingQuiescence b) && negb (bool_decide (mode b = tuicBbrProbeRTT))
    then b {{ mode := tuicBbrProbeRTT; pacingGain := float_of 1; exitProbeRTT := 0 }} else b in
  if negb (bool_decide (mode b = tuicBbrProbeRTT)) then b {{ exitingQuiescence := false }}
  else
    let b := b {{ estimator := markAppLimited (estimator b) }} in
    let b :=
      if (exitProbeRTT b =? 0) && (inFlight <? i64 (probeRTTCwnd b + maxDatagramSize b))
      then b {{ exitProbeRTT := i64 (now + tuicProbeRTTDuration); probeRTTRoundPassed := false }} else b in
    let b := if negb (exitProbeRTT b =? 0) && roundStart then b {{ probeRTTRoundPassed := true }} else b in
    let b :=
      if negb (exitProbeRTT b =? 0) && probeRTTRoundPassed b && negb (now <? exitProbeRTT b)
      then leave_probe_rtt env b now else b in
    b {{ exitingQuiescence := false }}.

(** The ceiling at the end of [calculatePacingRate]. *)
Definition cap_rate (b : TUICBBRSender) : TUICBBRSender :=
  if pacingRate b >? tuicMaxRate then b {{ pacingRate := tuicMaxRate }} else b.

Definition calculatePacingRate (env : environment) (b : TUICBBRSender) : TUICBBRSender :=
  let bw := estimate (estimator b) in
  if bw =? 0 then b
  else
    let target := uint64_of (fmul (float_of bw) (pacingGain b)) in
    if fullBandwidth b then cap_rate (b {{ pacingRate := target }})
    else if (pacingRate b =? 0) && rttStats b && (env_MinRTT env >? 0)
    then cap_rate (b {{ pacingRate := Bandwidth.rate (wrap 64 (initialCwnd b)) (env_MinRTT env) }})
    else cap_rate (if pacingRate b <? target then b {{ pacingRate := target }} else b).

Definition calculateCwnd (env : environment) (b : TUICBBRSender) (bytesAcked excessAcked : Z) : TUICBBRSender :=
  if bool_decide (mode b = tuicBbrProbeRTT) then b
  else
    let target := targetCwnd env b (cwndGain b) in
    let target :=
      if fullBandwidth b then minByteCount (maxCwnd b) (saturatingByteAdd target (mm_get (maxAckHeight (ackAgg b)))) else target in
    let b :=
      if fullBandwidth b then b {{ cwnd := minByteCount target (saturatingByteAdd (cwnd b) bytesAcked) }}
      else if (cwnd b <? target) || (ackedBytes b <? wrap 64 (initialCwnd b))
      then b {{ cwnd := minByteCount (maxCwnd b) (saturatingByteAdd (cwnd b) bytesAcked) }} else b in
    if cwnd b <? minCwnd b then b {{ cwnd := minCwnd b }} else b.

(** ** One event *)

Definition acked_total (acked : list AckedPacketInfo) : Z :=
  fold_left (fun n p => if ap_BytesAcked p >? 0 then satAddUint64 n (wrap 64 (ap_BytesAcked p)) else n) acked 0.

Definition lost_total (lost : list LostPacketInfo) : Z :=
  fold_left (fun n p => if lp_BytesLost p >? 0 then satAddUint64 n (wrap 64 (lp_BytesLost p)) else n) lost 0.

(** The send state of the largest packet lost that the estimator still knows. *)
Definition last_lost_state (e : tuicBandwidthEstimator) (lost : list LostPacketInfo) : tuicSendState :=
  snd (fold_left (fun '(largest, state) p =>
         let s := onLost e (lp_PacketNumber p) in
         if ss_valid s && (lp_PacketNumber p >? largest) then (lp_PacketNumber p, s) else (largest, state))
       lost (-1, no_send_state)).

(** The losses are counted and the bytes in flight brought up to date. *)
Definition event_account (b : TUICBBRSender) (priorInFlight acked_ lost_ : Z) (lost : list LostPacketInfo) : TUICBBRSender :=
  let b := match lost with [] => b | _ => b {{ telemetry := observeLoss (telemetry b) lost_ (len lost) }} end in
  let b := b {{ bytesInFlight := saturatingRemaining priorInFlight acked_ lost_ }} in
  if bbr_appLimited b priorInFlight then b {{ estimator := markAppLimited (estimator b) }} else b.

(** Whether a round starts, and the sender. *)
Definition event_round (b : TUICBBRSender) (acked_ largestAck : Z) : bool * TUICBBRSender :=
  if (acked_ >? 0) && (largestAck >? roundEndPN b)
  then (true, b {{ roundEndPN := maxSentPN b; round := round b +u64 1 }}) else (false, b).

(** The batch is sampled; the sample, whether the minimum round trip expired, and the sender. *)
Definition event_sample (env : environment) (b : TUICBBRSender) (eventTime : Z) (acked : list AckedPacketInfo)
    (acked_ largestAck : Z) : tuicAckSample * bool * TUICBBRSender :=
  if acked_ >? 0 then
    let '(sample, e) := onAckBatch (estimator b) (env_Now env) eventTime acked (round b) in
    let b := b {{ estimator := e }} in
    let rttSample := if rttStats b && (env_LatestRTT env >? 0) then env_LatestRTT env else as_minRTT sample in
    let '(expired, b) := if rttSample >? 0 then refreshRTTSample b eventTime rttSample else (false, b) in
    (sample, expired, b {{ maxAckedPN := largestAck }})
  else (no_ack_sample, false, b).

(** The bytes acknowledged since the last event: their number, the excess over the
    estimate, and the sender. *)
Definition event_window (b : TUICBBRSender) (eventTime : Z) : Z * Z * TUICBBRSender :=
  let window := bytesAckedThisWindow (estimator b) in
  let b := b {{ ackedBytes := satAddUint64 (ackedBytes b) window }} in
  let '(excess, b) :=
    if window >? 0 then
      let '(excess, a) := aggregation_update (ackAgg b) window eventTime (round b) (estimate (estimator b)) in
      (excess, b {{ ackAgg := a }})
    else (0, b) in
  let b := b {{ estimator := endAcks (estimator b) }} in
  let bw := estimate (estimator b) in
  (window, excess, if bw >? peakBandwidth b then b {{ peakBandwidth := bw; peakBandwidthAt := eventTime }} else b).

Definition event_send_state (sample : tuicAckSample) (lastLost : tuicSendState) : tuicSendState :=
  let last := as_lastSendState sample in
  if ss_valid lastLost && (negb (ss_valid last) || (ss_packetNumber lastLost >? ss_packetNumber last)) then lastLost else last.

(** What the event says of application limits and of losses. *)
Definition event_losses (b : TUICBBRSender) (last : tuicSendState) (hasLosses : bool) (lost_ : Z) : TUICBBRSender :=
  let b := if ss_valid last then b {{ lastSampleAppLimited := ss_appLimited last }} else b in
  if hasLosses
  then b {{ lossEventsInRound := satAddUint64 (lossEventsInRound b) 1; bytesLostInRound := satAddUint64 (bytesLostInRound b) lost_ }}
  else b.

(** The mode machine. *)
Definition event_modes (env : environment) (b : TUICBBRSender) (eventTime priorInFlight : Z) (hasLosses isRoundStart expired : bool)
    (last : tuicSendState) : TUICBBRSender :=
  let b := if bool_decide (mode b = tuicBbrProbeBW)
           then updateGainCycle env b eventTime priorInFlight (bytesInFlight b) hasLosses else b in
  let b := if isRoundStart && negb (fullBandwidth b) then checkFullBandwidth b last else b in
  let b := maybeExitStartupDrain env b eventTime (bytesInFlight b) in
  maybeProbeRTT env b eventTime isRoundStart (bytesInFlight b) expired.

(** The rates and windows, and the packets no longer needed. *)
Definition event_outputs (env : environment) (b : TUICBBRSender) (window excess lost_ : Z) (isRoundStart : bool)
    (acked : list AckedPacketInfo) (lost : list LostPacketInfo) : TUICBBRSender :=
  let b := calculatePacingRate env b in
  let b := calculateCwnd env b window excess in
  let b := calculateRecoveryWindow b window lost_ (bytesInFlight b) in
  let b := match obsoletePacketNumber acked lost with
           | Some n => b {{ estimator := removeObsolete (estimator b) n }}
           | None => b
           end in
  if isRoundStart then b {{ lossEventsInRound := 0; bytesLostInRound := 0 }} else b.

Definition OnCongestionEventEx (env : environment) (b : TUICBBRSender) (priorInFlight eventTime : Z)
    (acked : list AckedPacketInfo) (lost : list LostPacketInfo) : TUICBBRSender :=
  let eventTime := if eventTime =? 0 then env_Now env else eventTime in
  let hasLosses := negb (len lost =? 0) in
  let acked_ := acked_total acked in
  let lost_ := lost_total lost in
  let largestAck := largest_acked acked in
  let lastLost := last_lost_state (estimator b) lost in
  let b := event_account b priorInFlight acked_ lost_ lost in
  let '(isRoundStart, b) := event_round b acked_ largestAck in
  let b := match acked with [] => b | _ => updateRecoveryState b largestAck (hasLosses && lossIsCongestion b) isRoundStart end in
  let '(sample, expired, b) := event_sample env b eventTime acked acked_ largestAck in
  let '(window, excess, b) := event_window b eventTime in
  let last := event_send_state sample lastLost in
  let b := event_losses b last hasLosses lost_ in
  let b := event_modes env b eventTime priorInFlight hasLosses isRoundStart expired last in
  let b := event_outputs env b window excess lost_ isRoundStart acked lost in
  publishTelemetry env b.

(** The callbacks that leave the sender as it is. *)
Definition MaybeExitSlowStart (b : TUICBBRSender) : TUICBBRSender := b.
Definition OnPacketAcked (b : TUICBBRSender) (number acked prior eventTime : Z) : TUICBBRSender := b.
Definition OnCongestionEvent (b : TUICBBRSender) (number lost prior : Z) : TUICBBRSender := b.
Definition OnRetransmissionTimeout (b : TUICBBRSender) (retransmitted : bool) : TUICBBRSender := b.

Definition SetMaxDatagramSize (env : environment) (b : TUICBBRSender) (size : Z) : TUICBBRSender :=
  if size <=? 0 then b
  else
    let oldSize := if maxDatagramSize b <=? 0 then size else maxDatagramSize b in
    let min_ := i64 (4 * size) in
    let max_ := i64 (MaxCongestionWindowPackets * size) in
    let initial := minByteCount max_ (maxByteCount min_ (scaleTUICWindow (initialCwnd b) oldSize size)) in
    let window := if cwnd b =? minCwnd b then min_
                  else if cwnd b =? initialCwnd b then initial
                  else minByteCount max_ (maxByteCount min_ (cwnd b)) in
    let recovering := minByteCount max_ (maxByteCount min_ (recoveryWindow b)) in
    publishTelemetry env
      (b {{ maxDatagramSize := size; minCwnd := min_; maxCwnd := max_; initialCwnd := initial; cwnd := window;
            recoveryWindow := recovering; bpacer := pacer_setMaxDatagramSize (bpacer b) size }}).

End Controller.
