(* ===== verification/BbrInv.v ===== *)
(** The invariant of the BBR controller ([Bbr]): every stage of every callback keeps
    it, and an event is its measurements, the mode machine and its outputs. *)

From S2P Require Import Prelude GoFloat Bandwidth Pacing Bbr.
From coqutil Require Import Datatypes.RecordSetters.
Import DoubleBraceUpdate.

(** The conditions of the code, comparisons of modes included, as propositions. *)
Ltac conds :=
  bool_to_prop; repeat match goal with
  | Hd : bool_decide _ = true |- _ => apply bool_decide_eq_true_1 in Hd
  | Hd : bool_decide _ = false |- _ => apply bool_decide_eq_false_1 in Hd
  end.
Ltac ok_fields H := destruct H as [Hsz Hmn Hmx Hin Hcw Hrw Hrt Hfl Hht Hgs Hof Hpg Hfu Hre].
Ltac ok_stage H := ok_fields H; constructor; simpl in *; try assumption; auto; try done.

Section Invariant.
Variables (MaxCongestionWindowPackets : Z).
Context `{FloatConv}.

(** ** What holds between callbacks *)

Hypothesis Hpackets : tuicInitialPackets <= MaxCongestionWindowPackets < 2 ^ 26.

Definition mm_nonneg (m : tuicMinMax) : Prop := 0 <= mm_value (s0 m) /\ 0 <= mm_value (s1 m) /\ 0 <= mm_value (s2 m).

(** The gain each mode paces with. *)
Definition mode_gain (b : TUICBBRSender) : float64 :=
  match mode b with
  | tuicBbrStartup => tuicHighGain
  | tuicBbrDrain => tuicDrainGain
  | tuicBbrProbeBW => gain_at (cycleOffset b)
  | tuicBbrProbeRTT => float_of 1
  end.

Definition needs_full (m : tuicBbrMode) : bool := match m with tuicBbrDrain | tuicBbrProbeBW => true | _ => false end.

(** The invariant every stage of every callback keeps. *)
Record bbr_ok (b : TUICBBRSender) : Prop := mk_bbr_ok {
  ok_size : 0 < maxDatagramSize b < 2 ^ 26;
  ok_min : minCwnd b = 4 * maxDatagramSize b;
  ok_max : maxCwnd b = MaxCongestionWindowPackets * maxDatagramSize b;
  ok_initial : minCwnd b <= initialCwnd b <= maxCwnd b;
  ok_cwnd : minCwnd b <= cwnd b <= maxCwnd b;
  ok_window : recoveryWindow b = 0 \/ minCwnd b <= recoveryWindow b < 2 ^ 63;
  ok_rate : 0 <= pacingRate b <= tuicMaxRate;
  ok_flight : 0 <= bytesInFlight b;
  ok_height : mm_nonneg (maxAckHeight (ackAgg b));
  ok_gains : highGain b = tuicHighGain /\ drainGain b = tuicDrainGain /\ cwndGain b = tuicCwndGain /\ highCwndGain b = tuicCwndGain;
  ok_offset : 0 <= cycleOffset b < 8;
  ok_gain : pacingGain b = mode_gain b;
  ok_full : needs_full (mode b) = true -> fullBandwidth b = true;
  ok_recovery : recovery b <> tuicNotInRecovery -> fullBandwidth b = true /\ lossIsCongestion b = true
}.

Lemma window_bounds b : bbr_ok b -> 4 <= minCwnd b /\ minCwnd b <= maxCwnd b < 2 ^ 53.
Proof.
  intros [[Hs Hs'] Hm Hx _ _ _ _ _ _ _ _ _ _ _]. rewrite Hm, Hx. unfold tuicInitialPackets in *. pow2_eval. nia.
Qed.

Lemma sends_small b : bbr_ok b -> 0 < maxDatagramSize b < 2 ^ 26.
Proof. by intros []. Qed.

(** A window never holds less than four packets or more than the ceiling. *)
Lemma GetCongestionWindow_range b : bbr_ok b -> minCwnd b <= GetCongestionWindow b <= maxCwnd b.
Proof.
  intros Hok. pose proof (window_bounds b Hok). destruct Hok as [_ _ _ _ Hc Hr _ _ _ _ _ _ _ _].
  unfold GetCongestionWindow, probeRTTCwnd. destruct (bool_decide (mode b = tuicBbrProbeRTT)).
  all: destruct (_ <? minCwnd b) eqn:E1; bool_to_prop; try lia.
  all: destruct (_ && _) eqn:E2; bool_to_prop; lia.
Qed.

Lemma bandwidth_range env b : tuicDefaultMinRate <= bandwidth env b <= tuicMaxRate.
Proof.
  unfold bandwidth. set (r := if pacingRate b =? 0 then _ else _). set (x := if r <? _ then _ else _).
  assert (tuicDefaultMinRate <= x) by (unfold x; destruct (r <? _) eqn:E; bool_to_prop; lia).
  assert (tuicDefaultMinRate <= (if x >? tuicMaxRate then tuicMaxRate else x) <= tuicMaxRate) as Hx.
  { destruct (x >? _) eqn:E; bool_to_prop; [unfold tuicDefaultMinRate, tuicMaxRate|]; lia. }
  unfold tuicDefaultMinRate, tuicMaxRate in *. rewrite i64_small by (pow2_eval; lia). lia.
Qed.

Lemma saturatingByteAdd_range a n : 0 <= a < 2 ^ 63 -> 0 <= n -> a <= saturatingByteAdd a n < 2 ^ 63.
Proof.
  intros Ha Hn. unfold saturatingByteAdd, maxCongestionByteCount. replace (a <? 0) with false by lia.
  rewrite !(wrap_small 64) by (pow2_eval; lia). destruct (_ || _) eqn:E; bool_to_prop; [pow2_eval; lia|].
  rewrite (i64_small n), i64_small by (pow2_eval; lia). pow2_eval. lia.
Qed.

Lemma saturatingByteAdd_nonneg a n : a < 2 ^ 63 -> 0 <= n -> 0 <= saturatingByteAdd a n < 2 ^ 63.
Proof.
  intros Ha Hn. destruct (Z.leb_spec 0 a); [pose proof (saturatingByteAdd_range a n ltac:(lia) Hn); lia|].
  assert (saturatingByteAdd a n = saturatingByteAdd 0 n) as ->.
  { unfold saturatingByteAdd. by replace (a <? 0) with true by lia. }
  pose proof (saturatingByteAdd_range 0 n ltac:(lia) Hn). lia.
Qed.

Lemma saturatingRemaining_nonneg prior a l : prior < 2 ^ 63 -> 0 <= a -> 0 <= l -> 0 <= saturatingRemaining prior a l.
Proof.
  intros Hp Ha Hl. unfold saturatingRemaining. destruct (prior <=? 0) eqn:E0; bool_to_prop; [lia|].
  rewrite (wrap_small 64 prior) by (pow2_eval; lia). destruct (a >=? _) eqn:E1; bool_to_prop; [lia|].
  destruct (l >=? _) eqn:E2; bool_to_prop; [lia|]. rewrite i64_small by (pow2_eval; lia). lia.
Qed.

(** The gains the controller uses are positive numbers. *)
Lemma gain_at_pos n : fpos (gain_at n) = true.
Proof.
  unfold gain_at. destruct (tuicPacingGains !! Z.to_nat n) as [g|] eqn:Hg; [|by vm_compute].
  assert (Forall (fun g => fpos g = true) tuicPacingGains) as HF by (by vm_compute; repeat constructor).
  exact (Forall_lookup_1 _ _ _ _ HF Hg).
Qed.

Lemma mode_gain_probe b : mode b = tuicBbrProbeBW -> mode_gain b = gain_at (cycleOffset b).
Proof. unfold mode_gain. by intros ->. Qed.

Lemma mode_gain_pos b : fpos (mode_gain b) = true.
Proof. unfold mode_gain. destruct (mode b); [by vm_compute..|apply gain_at_pos|by vm_compute]. Qed.

(** The target window is between the smallest and the largest, for every estimate. *)
Lemma targetCwnd_range env b gain : bbr_ok b -> fpos gain = true -> minCwnd b <= targetCwnd env b gain <= maxCwnd b.
Proof.
  intros Hok Hg. pose proof (window_bounds b Hok) as [Hlo Hhi]. pose proof (ok_initial b Hok) as Hinit.
  unfold targetCwnd. destruct (_ =? 0) eqn:Ebw.
  - destruct (fltb _ _) eqn:Emax; [lia|]. unfold maxByteCount.
    pose proof (int64_of_clamped _ gain (maxCwnd b) (float_of_pos (initialCwnd b) ltac:(pow2_eval; lia)) Hg ltac:(lia) Emax).
    destruct (_ >? _) eqn:E; bool_to_prop; lia.
  - set (bdp := fmul _ gain). destruct (_ || _) eqn:E1; [lia|]. bool_to_prop.
    destruct (fltb _ bdp) eqn:E2; [lia|]. apply int64_of_between; bool_to_prop; try done; lia.
Qed.

(** ** Every stage keeps the invariant *)

Lemma publish_ok env b : bbr_ok b -> bbr_ok (publishTelemetry env b).
Proof. intros Hok. unfold publishTelemetry. destruct (sampleSummary _) as [[[[? ?] ?] ?] ?]. ok_stage Hok. Qed.

Lemma updateMax_nonneg m r t v : mm_nonneg m -> 0 <= v -> mm_nonneg (updateMax m r t v).
Proof.
  intros (H0 & H1 & H2) Hv. unfold updateMax, subWindowUpdate, mm_nonneg.
  repeat (first [progress simpl|case_match]); repeat split; simpl; lia.
Qed.

Lemma sat_fold_nonneg {A} (f : A -> Z) l : forall n, 0 <= n ->
  0 <= fold_left (fun n p => if f p >? 0 then satAddUint64 n (wrap 64 (f p)) else n) l n.
Proof.
  induction l as [|p l IH]; simpl; intros n Hn; [done|]. apply IH. destruct (_ >? _); [|done].
  unfold satAddUint64, maxUint64. pose proof (wrap_range 64 (f p) ltac:(lia)). destruct (_ <? _); pow2_eval; lia.
Qed.

Lemma event_account_ok b prior a l lost : prior < 2 ^ 63 -> 0 <= a -> 0 <= l -> bbr_ok b -> bbr_ok (event_account b prior a l lost).
Proof.
  intros Hp Ha Hl Hok. unfold event_account. pose proof (saturatingRemaining_nonneg prior a l Hp Ha Hl).
  destruct lost; destruct (bbr_appLimited _ _); ok_stage Hok.
Qed.

Lemma event_round_ok b a largest : bbr_ok b -> bbr_ok (snd (event_round b a largest)).
Proof. intros Hok. unfold event_round. destruct (_ && _); [ok_stage Hok|done]. Qed.

Lemma updateRecoveryState_ok b largest losses start : (losses = true -> lossIsCongestion b = true) -> bbr_ok b ->
  bbr_ok (updateRecoveryState b largest losses start).
Proof.
  intros Hc Hok. unfold updateRecoveryState. destruct (fullBandwidth b) eqn:Ef; [|done]. simpl negb. cbv iota.
  set (b1 := if losses then b {{ endRecoveryPN := maxSentPN b }} else b).
  assert (bbr_ok b1 /\ fullBandwidth b1 = true /\ (losses = true -> lossIsCongestion b1 = true)) as (Hok1 & Hf1 & Hc1).
  { unfold b1. destruct losses; [|by split_and!]. split_and!; [ok_stage Hok|done..]. }
  clearbody b1. clear Hok Ef Hc. destruct (recovery b1) eqn:Er.
  - destruct losses; [|done]. ok_stage Hok1.
  - set (b2 := if _ && start then _ else b1).
    assert (bbr_ok b2) as Hok2 by (unfold b2; destruct (_ && start); [ok_stage Hok1; rewrite Er in Hre; auto|done]).
    clearbody b2. destruct (_ && _); [|done]. ok_stage Hok2.
  - rewrite bool_decide_false by done. simpl. destruct (_ && _); [|done]. ok_stage Hok1.
Qed.

Lemma refreshRTTSample_ok b now s : bbr_ok b -> bbr_ok (snd (refreshRTTSample b now s)).
Proof. intros Hok. unfold refreshRTTSample. destruct (s <=? 0); [done|]. simpl. destruct (_ || _ || _); [ok_stage Hok|done]. Qed.

Lemma event_sample_ok env b t acked a largest : bbr_ok b -> bbr_ok (snd (event_sample env b t acked a largest)).
Proof.
  intros Hok. unfold event_sample. destruct (a >? 0); [|done].
  destruct (onAckBatch _ _ _ _ _) as [sample e]. set (b1 := b {{ estimator := e }}).
  assert (bbr_ok b1) as Hok1 by ok_stage Hok. clearbody b1. set (s := if rttStats b1 && _ then _ else _).
  destruct (s >? 0).
  - pose proof (refreshRTTSample_ok b1 t s Hok1) as Hok2. destruct (refreshRTTSample b1 t s) as [ex b2]. simpl in *. ok_stage Hok2.
  - simpl. ok_stage Hok1.
Qed.

Lemma aggregation_nonneg a n now r bw : mm_nonneg (maxAckHeight a) -> mm_nonneg (maxAckHeight (snd (aggregation_update a n now r bw))).
Proof.
  intros Ha. unfold aggregation_update. destruct (_ || _); [done|]. set (expected := if negb _ && _ then _ else _). clearbody expected.
  destruct (_ <=? expected); [done|]. simpl. apply updateMax_nonneg; [done|]. by apply wrap_range.
Qed.

Lemma event_window_ok b t : bbr_ok b -> bbr_ok (snd (event_window b t)).
Proof.
  intros Hok. unfold event_window. destruct (_ >? 0).
  - simpl. pose proof (aggregation_nonneg (ackAgg b) (bytesAckedThisWindow (estimator b)) t (round b) (estimate (estimator b)) (ok_height b Hok)) as Hh.
    destruct (aggregation_update _ _ _ _ _) as [ex a]. simpl in *. destruct (_ >? _); ok_stage Hok.
  - simpl. destruct (_ >? _); ok_stage Hok.
Qed.

Lemma event_losses_ok b last hl l : bbr_ok b -> bbr_ok (event_losses b last hl l).
Proof. intros Hok. unfold event_losses. destruct (ss_valid last), hl; ok_stage Hok. Qed.

(** The phases a sender enters ProbeBW at: any of the eight but the draining one. *)
Lemma nextCycleOffset_range env b : let n := fst (nextCycleOffset env b) in 0 <= n < 8 /\ n <> 1.
Proof.
  unfold nextCycleOffset. simpl. set (x := Z.lxor _ _). pose proof (Z.mod_pos_bound x 7 ltac:(lia)).
  change (len tuicPacingGains - 1) with 7. destruct (_ >=? 1) eqn:E; bool_to_prop; lia.
Qed.

Lemma enter_probe_bw_ok env b t : bbr_ok b -> fullBandwidth b = true -> bbr_ok (enter_probe_bw env b t).
Proof.
  intros Hok Hf. unfold enter_probe_bw. pose proof (nextCycleOffset_range env b) as [Hn _].
  destruct (nextCycleOffset env b) as [n x]. simpl in *. ok_fields Hok. destruct Hgs as (G1 & G2 & G3 & G4). by constructor.
Qed.

Lemma updateGainCycle_ok env b t prior fl hl : bbr_ok b -> mode b = tuicBbrProbeBW -> bbr_ok (updateGainCycle env b t prior fl hl).
Proof.
  intros Hok Hm. unfold updateGainCycle. destruct (negb _); [done|].
  pose proof (Z.mod_pos_bound (wrap 8 (cycleOffset b + 1)) 8 ltac:(lia)). change (len tuicPacingGains) with 8.
  ok_stage Hok. by rewrite mode_gain_probe by exact Hm.
Qed.

Lemma checkFullBandwidth_ok b last : bbr_ok b -> bbr_ok (checkFullBandwidth b last).
Proof.
  intros Hok. unfold checkFullBandwidth. destruct (lastSampleAppLimited b); [done|]. destruct (_ >=? uint64_of _); [ok_stage Hok|].
  destruct (_ || _); ok_stage Hok. intros Hr. split; [done|]. by apply Hre.
Qed.

Lemma maybeExitStartupDrain_ok env b t fl : bbr_ok b -> bbr_ok (maybeExitStartupDrain env b t fl).
Proof.
  intros Hok. unfold maybeExitStartupDrain. set (b1 := if _ && fullBandwidth b then _ else b).
  assert (bbr_ok b1) as Hok1.
  { unfold b1. destruct (bool_decide _ && fullBandwidth b) eqn:E; [|done]. conds. ok_fields Hok.
    destruct Hgs as (G1 & G2 & G3 & G4). by constructor. }
  clearbody b1. destruct (bool_decide _ && _) eqn:E; [|done]. conds. apply enter_probe_bw_ok; [done|].
  apply (ok_full b1 Hok1). by match goal with Hm : mode b1 = _ |- _ => rewrite Hm end.
Qed.

Lemma leave_probe_rtt_ok env b t : bbr_ok b -> bbr_ok (leave_probe_rtt env b t).
Proof.
  intros Hok. unfold leave_probe_rtt. set (b1 := b {{ minRTTAt := t }}). assert (bbr_ok b1) as Hok1 by ok_stage Hok.
  clearbody b1. destruct (fullBandwidth b1) eqn:Ef; [by apply enter_probe_bw_ok|].
  ok_fields Hok1. destruct Hgs as (G1 & G2 & G3 & G4). by constructor.
Qed.

Lemma maybeProbeRTT_ok env b t start fl ex : bbr_ok b -> bbr_ok (maybeProbeRTT env b t start fl ex).
Proof.
  intros Hok. unfold maybeProbeRTT. set (b1 := if ex && _ && _ then _ else b).
  assert (bbr_ok b1) as Hok1 by (unfold b1; destruct (ex && _ && _); [ok_stage Hok|done]). clearbody b1. clear Hok b.
  destruct (negb _); [ok_stage Hok1|]. set (b2 := b1 {{ estimator := _ }}). assert (bbr_ok b2) as Hok2 by ok_stage Hok1.
  clearbody b2. clear Hok1 b1. set (b3 := if (exitProbeRTT b2 =? 0) && _ then _ else b2).
  assert (bbr_ok b3) as Hok3 by (unfold b3; destruct (_ && _); [ok_stage Hok2|done]). clearbody b3. clear Hok2 b2.
  set (b4 := if negb (exitProbeRTT b3 =? 0) && start then _ else b3).
  assert (bbr_ok b4) as Hok4 by (unfold b4; destruct (_ && start); [ok_stage Hok3|done]). clearbody b4. clear Hok3 b3.
  set (b5 := if _ && _ && _ then _ else b4).
  assert (bbr_ok b5) as Hok5 by (unfold b5; destruct (_ && _ && _); [by apply leave_probe_rtt_ok|done]).
  clearbody b5. ok_stage Hok5.
Qed.

Lemma event_modes_ok env b t prior hl start ex last : bbr_ok b -> bbr_ok (event_modes env b t prior hl start ex last).
Proof.
  intros Hok. unfold event_modes. apply maybeProbeRTT_ok, maybeExitStartupDrain_ok.
  set (b1 := if bool_decide _ then _ else b).
  assert (bbr_ok b1) by (unfold b1; destruct (bool_decide _) eqn:E; conds; [by apply updateGainCycle_ok|done]).
  destruct (start && _); [by apply checkFullBandwidth_ok|done].
Qed.

Lemma rate_nonneg n d : 0 <= n -> 0 <= Bandwidth.rate n d.
Proof.
  intros Hn. unfold Bandwidth.rate, rateFromDelta. destruct (_ || _); [done|]. destruct (wrap 64 d =? 0); [done|].
  unfold Mul64. destruct (_ >=? _); [done|]. unfold Div64. destruct (_ || _) eqn:E; [done|]. simpl. bool_to_prop.
  pose proof (wrap_range 64 d ltac:(lia)). pose proof (Z.mod_pos_bound (n * 1000000000) (2 ^ 64) ltac:(lia)).
  pose proof (Z.div_pos (n * 1000000000) (2 ^ 64) ltac:(lia) ltac:(lia)). apply Z.div_pos; [nia|lia].
Qed.

Lemma cap_rate_ok b r : bbr_ok b -> 0 <= r -> bbr_ok (cap_rate (b {{ pacingRate := r }})).
Proof.
  intros Hok Hr. unfold cap_rate. simpl. destruct (_ >? _) eqn:E; bool_to_prop; ok_stage Hok.
Qed.

Lemma cap_rate_same b : bbr_ok b -> cap_rate b = b.
Proof. intros Hok. unfold cap_rate. pose proof (ok_rate b Hok). by replace (_ >? _) with false by lia. Qed.

Lemma calculatePacingRate_ok env b : bbr_ok b -> bbr_ok (calculatePacingRate env b).
Proof.
  intros Hok. unfold calculatePacingRate. destruct (_ =? 0); [done|]. set (target := uint64_of _).
  assert (0 <= target) by apply uint64_of_range. destruct (fullBandwidth b); [by apply cap_rate_ok|].
  destruct (_ && _ && _). { apply cap_rate_ok; [done|]. apply rate_nonneg. by apply wrap_range. }
  destruct (_ <? target); [by apply cap_rate_ok|]. by rewrite cap_rate_same.
Qed.

Lemma set_cwnd_ok b w : bbr_ok b -> minCwnd b <= w <= maxCwnd b -> bbr_ok (b {{ cwnd := w }}).
Proof. intros Hok Hw. ok_stage Hok. Qed.

Lemma floor_cwnd b : bbr_ok b -> (if cwnd b <? minCwnd b then b {{ cwnd := minCwnd b }} else b) = b.
Proof. intros Hok. pose proof (ok_cwnd b Hok). by replace (_ <? _) with false by lia. Qed.

Lemma calculateCwnd_ok env b n ex : bbr_ok b -> 0 <= n -> bbr_ok (calculateCwnd env b n ex).
Proof.
  intros Hok Hn. unfold calculateCwnd. destruct (bool_decide _); [done|].
  pose proof (window_bounds b Hok) as Hw. pose proof (ok_cwnd b Hok) as Hc.
  pose proof (ok_gains b Hok) as (_ & _ & Hg & _).
  pose proof (targetCwnd_range env b (cwndGain b) Hok ltac:(rewrite Hg; by vm_compute)) as Ht.
  set (target := targetCwnd env b (cwndGain b)) in *. clearbody target.
  pose proof (saturatingByteAdd_range target (mm_get (maxAckHeight (ackAgg b))) ltac:(pow2_eval; lia)
    ltac:(apply (ok_height b Hok))) as Hs.
  pose proof (saturatingByteAdd_range (cwnd b) n ltac:(pow2_eval; lia) Hn) as Hs'.
  assert (forall w, minCwnd b <= w <= maxCwnd b -> bbr_ok (if cwnd (b {{ cwnd := w }}) <? minCwnd (b {{ cwnd := w }})
    then b {{ cwnd := w }} {{ cwnd := minCwnd (b {{ cwnd := w }}) }} else b {{ cwnd := w }})) as Hset.
  { intros w Hrange. pose proof (set_cwnd_ok b w Hok Hrange) as Hok'. by rewrite floor_cwnd. }
  destruct (fullBandwidth b).
  - apply Hset. unfold minByteCount. repeat case_match; bool_to_prop; lia.
  - destruct (_ || _); [|by rewrite floor_cwnd].
    apply Hset. unfold minByteCount. repeat case_match; bool_to_prop; lia.
Qed.

Lemma calculateRecoveryWindow_ok b n l fl : bbr_ok b -> 0 <= n -> 0 <= l -> fl < 2 ^ 63 ->
  bbr_ok (calculateRecoveryWindow b n l fl).
Proof.
  intros Hok Hn Hl Hflight. unfold calculateRecoveryWindow. destruct (negb _); [done|].
  pose proof (window_bounds b Hok) as Hw. pose proof (saturatingByteAdd_nonneg fl n Hflight Hn) as Hs.
  set (minimum := maxByteCount _ _). assert (minCwnd b <= minimum < 2 ^ 63) as Hmin.
  { unfold minimum, maxByteCount. destruct (_ >? _) eqn:E; bool_to_prop; pow2_eval; lia. }
  clearbody minimum. assert (forall w, minimum <= w < 2 ^ 63 -> bbr_ok (b {{ recoveryWindow := w }})) as Hset.
  { intros w Hrange. ok_stage Hok. right. change (minCwnd b <= w < 2 ^ 63). lia. }
  destruct (_ =? 0); [apply Hset; lia|]. set (lost := if l <? _ then _ else _).
  assert (0 <= lost) as Hlost.
  { unfold lost, maxCongestionByteCount in *. destruct (l <? _) eqn:E; [|pow2_eval; lia]. unfold maxCongestionByteCount in E. rewrite wrap_small in E by (pow2_eval; lia).
    bool_to_prop. rewrite i64_small by (pow2_eval; lia). lia. }
  clearbody lost. set (w := if _ >=? lost then _ else _).
  assert (0 <= w < 2 ^ 63) as Hw'.
  { unfold w. pose proof (ok_window b Hok). pose proof (sends_small b Hok). destruct (_ >=? lost) eqn:E; bool_to_prop; pow2_eval; lia. }
  clearbody w. pose proof (saturatingByteAdd_range w n Hw' Hn). apply Hset.
  destruct (bool_decide _); destruct (_ <? minimum) eqn:E; bool_to_prop; lia.
Qed.

(** What the mode machine reads and writes; the rates and windows leave it alone. *)
Definition phase_of (b : TUICBBRSender) :=
  (mode b, fullBandwidth b, exitProbeRTT b, probeRTTRoundPassed b, bytesInFlight b, roundEndPN b,
   cycleOffset b, bpacer b, minRTTAt b, maxDatagramSize b, lossIsCongestion b).

Lemma cap_rate_phase b r : phase_of (cap_rate (b {{ pacingRate := r }})) = phase_of b.
Proof. unfold cap_rate. by destruct (_ >? _). Qed.

Lemma calculatePacingRate_phase env b : bbr_ok b -> phase_of (calculatePacingRate env b) = phase_of b.
Proof.
  intros Hok. unfold calculatePacingRate. destruct (_ =? 0); [done|]. destruct (fullBandwidth b); [by rewrite cap_rate_phase|].
  destruct (_ && _ && _); [by rewrite cap_rate_phase|]. destruct (_ <? _); [by rewrite cap_rate_phase|]. by rewrite cap_rate_same.
Qed.

Lemma calculateCwnd_phase env b n ex : phase_of (calculateCwnd env b n ex) = phase_of b.
Proof.
  unfold calculateCwnd. destruct (bool_decide _); [done|]. set (t := targetCwnd _ _ _). clearbody t.
  set (b1 := if fullBandwidth b then _ else _). assert (phase_of b1 = phase_of b) as <-.
  { unfold b1. destruct (fullBandwidth b); [done|]. by destruct (_ || _). }
  clearbody b1. by destruct (_ <? _).
Qed.

Lemma calculateRecoveryWindow_phase b n l fl : phase_of (calculateRecoveryWindow b n l fl) = phase_of b.
Proof. unfold calculateRecoveryWindow. destruct (negb _); [done|]. by destruct (_ =? 0). Qed.

Lemma phase_flight b b' : phase_of b = phase_of b' -> bytesInFlight b = bytesInFlight b'.
Proof. unfold phase_of. congruence. Qed.

Lemma event_outputs_phase env b n ex l start acked lost : bbr_ok b ->
  phase_of (event_outputs env b n ex l start acked lost) = phase_of b.
Proof.
  intros Hok. unfold event_outputs. rewrite <- (calculatePacingRate_phase env b Hok).
  rewrite <- (calculateCwnd_phase env (calculatePacingRate env b) n ex). set (b1 := calculateCwnd _ _ _ _). clearbody b1.
  rewrite <- (calculateRecoveryWindow_phase b1 n l (bytesInFlight b1)). set (b2 := calculateRecoveryWindow _ _ _ _). clearbody b2.
  by destruct (obsoletePacketNumber _ _), start.
Qed.

Lemma event_outputs_ok env b n ex l start acked lost : bbr_ok b -> 0 <= n -> 0 <= l -> bytesInFlight b < 2 ^ 63 ->
  bbr_ok (event_outputs env b n ex l start acked lost).
Proof.
  intros Hok Hn Hl Hflight. unfold event_outputs. set (b1 := calculateCwnd _ _ _ _).
  assert (bbr_ok b1) as Hok1 by (by apply calculateCwnd_ok; [apply calculatePacingRate_ok|]).
  assert (bytesInFlight b1 = bytesInFlight b) as Hf1.
  { apply phase_flight. unfold b1. by rewrite calculateCwnd_phase, calculatePacingRate_phase. }
  clearbody b1. set (b2 := calculateRecoveryWindow _ _ _ _).
  assert (bbr_ok b2) as Hok2 by (by apply calculateRecoveryWindow_ok; [| | |rewrite Hf1]). clearbody b2.
  destruct (obsoletePacketNumber _ _), start; ok_stage Hok2.
Qed.

Lemma publish_phase env b : phase_of (publishTelemetry env b) = phase_of b.
Proof. unfold publishTelemetry. by destruct (sampleSummary _) as [[[[? ?] ?] ?] ?]. Qed.

(** ** The callbacks *)

(** What the stages before the mode machine leave as it was. *)
Definition kept (b : TUICBBRSender) :=
  (mode b, fullBandwidth b, exitProbeRTT b, bpacer b, maxDatagramSize b, lossIsCongestion b, exitingQuiescence b).

Definition measured (b : TUICBBRSender) : Z * Z := (bytesInFlight b, minRTTAt b).

Lemma updateRecoveryState_kept b largest losses start :
  kept (updateRecoveryState b largest losses start) = kept b /\ measured (updateRecoveryState b largest losses start) = measured b.
Proof.
  unfold updateRecoveryState. destruct (negb _); [done|]. set (b1 := if losses then _ else b).
  assert (kept b1 = kept b /\ measured b1 = measured b) as [<- <-] by (unfold b1; by destruct losses). clearbody b1.
  assert (forall b, kept (if negb losses && (largest >? endRecoveryPN b) then b {{ recovery := tuicNotInRecovery }} else b) = kept b /\
    measured (if negb losses && (largest >? endRecoveryPN b) then b {{ recovery := tuicNotInRecovery }} else b) = measured b) as Hend.
  { intros b2. by destruct (_ && _). }
  destruct (recovery b1); [by destruct losses| |]; destruct (bool_decide _ && start);
    first [exact (Hend b1)|exact (Hend (b1 {{ recovery := tuicGrowth }}))].
Qed.

Lemma event_sample_kept env b t acked a largest :
  let b' := snd (event_sample env b t acked a largest) in kept b' = kept b /\ bytesInFlight b' = bytesInFlight b.
Proof.
  unfold event_sample. destruct (a >? 0); [|done]. destruct (onAckBatch _ _ _ _ _) as [sample e].
  set (b1 := b {{ estimator := e }}). assert (kept b1 = kept b /\ bytesInFlight b1 = bytesInFlight b) as [<- <-] by done. clearbody b1.
  unfold refreshRTTSample. destruct (_ >? 0); [|done]. destruct (_ <=? 0); [done|]. by destruct (_ || _ || _).
Qed.

Lemma event_sample_expired env b t acked a largest : snd (fst (event_sample env b t acked a largest)) = true ->
  minRTTAt b <> 0 /\ tuicProbeRTTInterval <= i64 (t - minRTTAt b).
Proof.
  unfold event_sample. destruct (a >? 0); [|done]. destruct (onAckBatch _ _ _ _ _) as [sample e].
  set (b1 := b {{ estimator := e }}). assert (minRTTAt b1 = minRTTAt b) as <- by done. clearbody b1.
  unfold refreshRTTSample. destruct (_ >? 0); [|done]. destruct (_ <=? 0); [done|]. cbn [fst snd]. intros He. bool_to_prop. lia.
Qed.

Lemma event_window_kept b t :
  let '(w, _, b') := event_window b t in 0 <= w /\ kept b' = kept b /\ bytesInFlight b' = bytesInFlight b.
Proof.
  unfold event_window. assert (0 <= bytesAckedThisWindow (estimator b)) as Hw.
  { unfold bytesAckedThisWindow. destruct (_ <? _) eqn:E; bool_to_prop; lia. }
  set (w := bytesAckedThisWindow _) in *. clearbody w. destruct (w >? 0).
  - destruct (aggregation_update _ _ _ _ _) as [ex a]. by destruct (_ >? _).
  - by destruct (_ >? _).
Qed.

(** An event is the measurements, then the mode machine, then the outputs. *)
Lemma event_decompose env b prior t acked lost : prior < 2 ^ 63 -> bbr_ok b ->
  let t' := if t =? 0 then env_Now env else t in
  let start := (acked_total acked >? 0) && (largest_acked acked >? roundEndPN b) in
  exists b1 expired last window excess,
    OnCongestionEventEx env b prior t acked lost =
      publishTelemetry env (event_outputs env (event_modes env b1 t' prior (negb (len lost =? 0)) start expired last)
        window excess (lost_total lost) start acked lost) /\
    bbr_ok b1 /\ 0 <= window /\ kept b1 = kept b /\
    bytesInFlight b1 = saturatingRemaining prior (acked_total acked) (lost_total lost) /\
    (expired = true -> minRTTAt b <> 0 /\ tuicProbeRTTInterval <= i64 (t' - minRTTAt b)).
Proof.
  intros Hp Hok t' start. unfold OnCongestionEventEx. fold t'.
  assert (0 <= acked_total acked) as Ha by (by apply sat_fold_nonneg). assert (0 <= lost_total lost) as Hl by (by apply sat_fold_nonneg).
  pose proof (event_account_ok b prior _ _ lost Hp Ha Hl Hok) as Hok1.
  assert (kept (event_account b prior (acked_total acked) (lost_total lost) lost) = kept b /\
    roundEndPN (event_account b prior (acked_total acked) (lost_total lost) lost) = roundEndPN b /\
    bytesInFlight (event_account b prior (acked_total acked) (lost_total lost) lost) =
      saturatingRemaining prior (acked_total acked) (lost_total lost) /\
    minRTTAt (event_account b prior (acked_total acked) (lost_total lost) lost) = minRTTAt b) as (Hk1 & Hr1 & Hf1 & Hm1).
  { unfold event_account. destruct lost; by destruct (bbr_appLimited _ _). }
  set (b1 := event_account _ _ _ _ _) in *. clearbody b1.
  pose proof (event_round_ok b1 (acked_total acked) (largest_acked acked) Hok1) as Hok2.
  assert (event_round b1 (acked_total acked) (largest_acked acked) = (start, snd (event_round b1 (acked_total acked) (largest_acked acked))) /\
    kept (snd (event_round b1 (acked_total acked) (largest_acked acked))) = kept b1 /\
    measured (snd (event_round b1 (acked_total acked) (largest_acked acked))) = measured b1) as (He & Hk2 & Hf2).
  { unfold event_round, start. rewrite Hr1. by destruct (_ && _). }
  rewrite He. set (b2 := snd (event_round _ _ _)) in *. clearbody b2. clear He Hr1.
  set (b3 := match acked with [] => b2 | _ => _ end).
  assert (bbr_ok b3 /\ kept b3 = kept b2 /\ measured b3 = measured b2) as (Hok3 & Hk3 & Hf3).
  { unfold b3. destruct acked; [done|]. split; [|apply updateRecoveryState_kept].
    apply updateRecoveryState_ok; [|done]. by intros []%andb_true_iff. }
  clearbody b3. pose proof (event_sample_ok env b3 t' acked (acked_total acked) (largest_acked acked) Hok3) as Hok4.
  pose proof (event_sample_kept env b3 t' acked (acked_total acked) (largest_acked acked)) as [Hk4 Hf4].
  pose proof (event_sample_expired env b3 t' acked (acked_total acked) (largest_acked acked)) as Hx.
  assert (measured b3 = measured b1) as Hf by congruence. unfold measured in Hf. injection Hf as Hf Hm.
  destruct (event_sample _ _ _ _ _ _) as [[sample expired] b4]. simpl in Hok4, Hk4, Hf4, Hx.
  pose proof (event_window_ok b4 t' Hok4) as Hok5. pose proof (event_window_kept b4 t') as Hk5.
  destruct (event_window b4 t') as [[window excess] b5]. destruct Hk5 as (Hw & Hk5 & Hf5). simpl in Hok5.
  set (last := event_send_state _ _). clearbody last. set (b6 := event_losses _ _ _ _).
  assert (kept b6 = kept b5 /\ bytesInFlight b6 = bytesInFlight b5) as [Hk6 Hf6].
  { unfold b6, event_losses. by destruct (ss_valid last), (negb _). }
  exists b6, expired, last, window, excess. split_and!; [done|by apply event_losses_ok|done|congruence..|].
  intros He. rewrite <- Hm1, <- Hm. by apply Hx.
Qed.

End Invariant.
