(* ===== verification/BbrRun.v ===== *)
(** Runs of the BBR controller ([Bbr]): its windows and rates at every moment, its
    modes as a machine, the end of ProbeRTT, and that it never stops a sender that
    has something to send. *)

From S2P Require Import Prelude GoFloat Bandwidth Pacing Bbr BbrInv.
From coqutil Require Import Datatypes.RecordSetters.
Import DoubleBraceUpdate.

Section Runs.
Variables (MinInitialPacketSize InitialPacketSize MaxCongestionWindowPackets MinPacingDelay : Z).
Context `{FloatConv}.

(** A call of the QUIC connection, of the pacer's clients or of the sender around. *)
Inductive bbr_op :=
  | Provider (provided : bool)
  | Sent (sentTime inFlight number bytes_ : Z) (retransmittable : bool)
  | Event (priorInFlight eventTime : Z) (acked : list AckedPacketInfo) (lost : list LostPacketInfo)
  | Resize (size : Z)
  | AskTime
  | AskBudget (now : Z)
  | Seed (rate roundTrip : Z).

Definition bbr_do (b : TUICBBRSender) (call : environment * bbr_op) : TUICBBRSender :=
  let env := fst call in
  match snd call with
  | Provider p => SetRTTStatsProvider env b p
  | Sent t fl n k r => OnPacketSent env b t fl n k r
  | Event prior t acked lost => OnCongestionEventEx env b prior t acked lost
  | Resize size => SetMaxDatagramSize MaxCongestionWindowPackets env b size
  | AskTime => snd (TimeUntilSend MinPacingDelay env b)
  | AskBudget now => snd (HasPacingBudget env b now)
  | Seed rate roundTrip => seedBandwidth env b rate roundTrip
  end.

Definition bbr_run (b : TUICBBRSender) (calls : list (environment * bbr_op)) : TUICBBRSender := fold_left bbr_do calls b.

(** A sender on its own, or inside another that keeps losses from it. *)
Definition bbr_start (env : environment) (size : Z) (lossCounts : bool) : TUICBBRSender :=
  (NewTUICBBRSender MinInitialPacketSize InitialPacketSize MaxCongestionWindowPackets MinPacingDelay env size)
    {{ lossIsCongestion := lossCounts }}.

(** The arguments are of their types: packets below 2^26 bytes, times below 2^61. *)
Definition bbr_op_ok (op : bbr_op) : Prop :=
  match op with
  | Sent t fl n k _ => 0 < t < 2 ^ 61 /\ fl < 2 ^ 63 /\ 0 <= k < 2 ^ 26
  | Event prior _ _ _ => prior < 2 ^ 63
  | Resize size => size < 2 ^ 26
  | _ => True
  end.

Definition calls_ok (calls : list (environment * bbr_op)) : Prop := Forall (fun call => bbr_op_ok (snd call)) calls.

Hypothesis Hminimum : 0 < MinInitialPacketSize.
Hypothesis Hinitial : 0 < InitialPacketSize < 2 ^ 26.
Hypothesis Hpackets : tuicInitialPackets <= MaxCongestionWindowPackets < 2 ^ 26.
Hypothesis Hdelay : 0 < MinPacingDelay < 2 ^ 30.

Notation ok := (bbr_ok MaxCongestionWindowPackets).

(** ** The callbacks keep the invariant *)

Lemma seedBandwidth_ok env b r rt : ok b -> ok (seedBandwidth env b r rt).
Proof.
  intros Hok. unfold seedBandwidth. destruct (r =? 0); [done|]. set (r' := if r >? _ then _ else r). clearbody r'.
  set (b1 := seed_filter env b r' rt). assert (ok b1) as Hok1 by ok_stage Hok. clearbody b1.
  set (b2 := if _ >? pacingRate b1 then _ else b1). assert (ok b2) as Hok2.
  { unfold b2. set (x := uint64_of _). pose proof (uint64_of_range (fmul (float_of r') (highGain b1))) as Hx. fold x in Hx.
    assert (0 <= minUint64 x tuicMaxRate <= tuicMaxRate) by (unfold minUint64, tuicMaxRate; destruct (_ <? _) eqn:E; bool_to_prop; lia).
    clearbody x. destruct (x >? pacingRate b1); [ok_stage Hok1|done]. }
  clearbody b2. destruct (rt <=? 0); [done|]. pose proof (ok_cwnd _ b2 Hok2).
  destruct (_ >? cwnd b2) eqn:E; [|done]. bool_to_prop. apply set_cwnd_ok; [done|].
  revert E. destruct (int64_of _ >? maxCwnd b2) eqn:E2; bool_to_prop; lia.
Qed.

Lemma restartFromIdle_ok env b t : ok b -> ok (restartFromIdle env b t).
Proof.
  intros Hok. unfold restartFromIdle. destruct (_ <=? _); [done|]. destruct (mm_expired _ _ _); [done|]. by apply seedBandwidth_ok.
Qed.

(** A callback that ends by publishing a state with the invariant. *)
Definition publishing (env : environment) (b' : TUICBBRSender) : Prop := exists b, b' = publishTelemetry env b /\ ok b.

Lemma publishing_ok env b' : publishing env b' -> ok b'.
Proof. intros (b & -> & Hok). by apply publish_ok. Qed.

Lemma OnPacketSent_ok env b t fl n k r : ok b -> publishing env (OnPacketSent env b t fl n k r).
Proof.
  intros Hok. unfold OnPacketSent. set (b1 := if _ =? 0 then _ else _). assert (ok b1) as Hok1.
  { unfold b1. assert (ok (b {{ maxSentPN := n }})) as Hok0 by ok_stage Hok. destruct (_ =? 0); [|done].
    apply restartFromIdle_ok. ok_stage Hok0. }
  clearbody b1. assert (0 <= maxByteCount 0 fl) by (unfold maxByteCount; destruct (_ >? _) eqn:E; bool_to_prop; lia).
  eexists. split; [reflexivity|]. ok_stage Hok1.
Qed.

Lemma clamp_range lo hi x : lo <= hi -> lo <= minByteCount hi (maxByteCount lo x) <= hi.
Proof. intros Hle. unfold minByteCount, maxByteCount. destruct (lo >? x) eqn:E1; destruct (_ <? _) eqn:E2; bool_to_prop; lia. Qed.

(** The limits of a packet size. *)
Lemma size_limits size : 0 < size < 2 ^ 26 ->
  i64 (4 * size) = 4 * size /\ i64 (tuicInitialPackets * size) = tuicInitialPackets * size /\
  i64 (MaxCongestionWindowPackets * size) = MaxCongestionWindowPackets * size /\
  4 * size <= tuicInitialPackets * size /\ tuicInitialPackets * size <= MaxCongestionWindowPackets * size < 2 ^ 52.
Proof. intros Hs. unfold tuicInitialPackets in *. rewrite !i64_small by (pow2_eval; nia). pow2_eval. nia. Qed.

Lemma SetMaxDatagramSize_ok env b size : 0 < size < 2 ^ 26 -> ok b ->
  publishing env (SetMaxDatagramSize MaxCongestionWindowPackets env b size).
Proof.
  intros Hs Hok. unfold SetMaxDatagramSize. replace (size <=? 0) with false by lia.
  destruct (size_limits size ltac:(lia)) as (E1 & _ & E3 & Hle). rewrite E1, E3. eexists. split; [reflexivity|].
  set (max_ := MaxCongestionWindowPackets * size) in *.
  set (init := minByteCount max_ (maxByteCount (4 * size) (scaleTUICWindow _ _ _))).
  set (window := if cwnd b =? minCwnd b then _ else _). set (recovering := minByteCount max_ (maxByteCount (4 * size) (recoveryWindow b))).
  assert (4 * size <= init <= max_) by (apply clamp_range; lia).
  assert (4 * size <= window <= max_).
  { unfold window. destruct (_ =? minCwnd b); [lia|]. destruct (_ =? initialCwnd b); [done|]. apply clamp_range; lia. }
  assert (4 * size <= recovering < 2 ^ 63).
  { pose proof (clamp_range (4 * size) max_ (recoveryWindow b)). unfold recovering. pow2_eval. lia. }
  clearbody init window recovering. ok_fields Hok. constructor; try assumption; try done. by right.
Qed.

Lemma start_ok env size c : size < 2 ^ 26 -> ok (bbr_start env size c).
Proof.
  intros Hs. unfold bbr_start, NewTUICBBRSender. set (size' := if size <? _ then _ else size).
  assert (0 < size' < 2 ^ 26) as Hs' by (unfold size'; destruct (_ <? _) eqn:E; bool_to_prop; lia). clearbody size'.
  destruct (size_limits size' Hs') as (E1 & E2 & E3 & Hle). rewrite E1, E2, E3.
  assert ((tuicInitialPackets * size' <? 4 * size') = false) as -> by lia. cbv iota.
  assert ((tuicInitialPackets * size' >? MaxCongestionWindowPackets * size') = false) as -> by lia. cbv iota.
  match goal with |- ok ((publishTelemetry env ?b) {{ lossIsCongestion := c }}) => assert (ok b) as Hok end.
  { constructor; simpl; try done; try lia; by left. }
  apply (publish_ok _ env) in Hok. ok_stage Hok.
Qed.

(** ** The modes *)

(** The machine the controller follows: what it does at each mode, and what it has
    learnt, in the order it may learn it. *)
Inductive phase_step : tuicBbrMode * bool -> tuicBbrMode * bool -> Prop :=
  | ph_full m : needs_full m = false -> phase_step (m, false) (m, true)
  | ph_drain : phase_step (tuicBbrStartup, true) (tuicBbrDrain, true)
  | ph_drained : phase_step (tuicBbrDrain, true) (tuicBbrProbeBW, true)
  | ph_probe m f : m <> tuicBbrProbeRTT -> phase_step (m, f) (tuicBbrProbeRTT, f)
  | ph_resume : phase_step (tuicBbrProbeRTT, true) (tuicBbrProbeBW, true)
  | ph_restart : phase_step (tuicBbrProbeRTT, false) (tuicBbrStartup, false).

Definition phase (b : TUICBBRSender) : tuicBbrMode * bool := (mode b, fullBandwidth b).
Definition settled (b : TUICBBRSender) : Prop := mode b = tuicBbrStartup -> fullBandwidth b = false.

Lemma phase_eq b b' : kept b = kept b' -> phase b = phase b' /\ exitProbeRTT b = exitProbeRTT b'.
Proof. unfold kept, phase. intros Hk. split; congruence. Qed.

Lemma enter_probe_bw_facts env b t : let b' := enter_probe_bw env b t in
  mode b' = tuicBbrProbeBW /\ fullBandwidth b' = fullBandwidth b /\ cycleOffset b' <> 1 /\ bpacer b' = bpacer b /\
  bytesInFlight b' = bytesInFlight b.
Proof.
  unfold enter_probe_bw. pose proof (nextCycleOffset_range env b) as [_ Hn]. destruct (nextCycleOffset env b) as [n x]. by split_and!.
Qed.

Lemma exit_drain_phase env b t fl : let b' := maybeExitStartupDrain env b t fl in
  ok b -> rtc phase_step (phase b) (phase b') /\ settled b' /\
  (mode b = tuicBbrProbeRTT \/ mode b' = tuicBbrProbeRTT -> b' = b) /\ (mode b' <> tuicBbrProbeBW \/ b' = b \/ cycleOffset b' <> 1).
Proof.
  intros b' Hok. unfold b', maybeExitStartupDrain, settled.
  destruct (decide (mode b = tuicBbrStartup)) as [Hm|Hm].
  - rewrite (bool_decide_true (mode b = _)) by done. destruct (fullBandwidth b) eqn:Ef; cbn [andb].
    + set (b1 := b {{ mode := _; pacingGain := _; cwndGain := _ }}).
      assert (rtc phase_step (phase b) (phase b1)) as Hr1.
      { unfold phase. rewrite Hm, Ef. apply rtc_once. change (phase_step (tuicBbrStartup, true) (tuicBbrDrain, fullBandwidth b)). rewrite Ef. constructor. }
      assert (phase b1 = (tuicBbrDrain, true)) as Hp1 by (unfold phase; change (fullBandwidth b1) with (fullBandwidth b); by rewrite Ef).
      clearbody b1. destruct (bool_decide _ && _).
      * pose proof (enter_probe_bw_facts env b1 t) as (F1 & F2 & F3 & _). split_and!; [|by rewrite F1|intros [?|?]; congruence|auto].
        etrans; [done|]. rewrite Hp1. unfold phase. rewrite F1, F2. injection Hp1 as _ ->. apply rtc_once. constructor.
      * injection Hp1 as Hp1 Hp2. split_and!; [done|congruence|intros [?|?]; congruence|left; congruence].
    + rewrite bool_decide_false by (by rewrite Hm). cbn [andb]. split_and!; [reflexivity|done|done|auto].
  - rewrite (bool_decide_false (mode b = _)) by done. cbn [andb]. destruct (bool_decide _ && _) eqn:E; [|split_and!; [reflexivity|done|done|auto]].
    conds. pose proof (enter_probe_bw_facts env b t) as (F1 & F2 & F3 & _). split_and!; [|by rewrite F1|intros [?|?]; congruence|auto].
    assert (fullBandwidth b = true) as Ef by (apply (ok_full _ b Hok); by match goal with Hd : mode b = _ |- _ => rewrite Hd end).
    unfold phase. rewrite F1, F2, Ef. match goal with Hd : mode b = _ |- _ => rewrite Hd end. apply rtc_once. constructor.
Qed.

(** One event spent in ProbeRTT: when it will be over, and whether it is. *)
Definition probe_deadline (b : TUICBBRSender) (t fl : Z) : Z :=
  if (exitProbeRTT b =? 0) && (fl <? i64 (probeRTTCwnd b + maxDatagramSize b)) then i64 (t + tuicProbeRTTDuration) else exitProbeRTT b.

Lemma probe_rtt_inside env b t (start : bool) fl ex : mode b = tuicBbrProbeRTT ->
  let x := probe_deadline b t fl in
  exists b1 (passed : bool), (start = true -> x <> 0 -> passed = true) /\
    phase b1 = phase b /\ exitProbeRTT b1 = x /\ (cycleOffset b1, bpacer b1, bytesInFlight b1) = (cycleOffset b, bpacer b, bytesInFlight b) /\
    maybeProbeRTT env b t start fl ex =
      (if negb (x =? 0) && passed && negb (t <? x) then leave_probe_rtt env b1 t else b1) {{ exitingQuiescence := false }}.
Proof.
  intros Hm x. unfold maybeProbeRTT. rewrite (bool_decide_true (mode b = _)) by done. rewrite andb_false_r.
  rewrite (bool_decide_true (mode b = _)) by done. cbn [negb]. set (b2 := b {{ estimator := _ }}).
  set (b3 := if (exitProbeRTT b2 =? 0) && _ then _ else b2).
  assert (phase b3 = phase b /\ exitProbeRTT b3 = x /\
    (cycleOffset b3, bpacer b3, bytesInFlight b3) = (cycleOffset b, bpacer b, bytesInFlight b)) as (P3 & X3 & K3).
  { unfold b3, x, probe_deadline. change (exitProbeRTT b2) with (exitProbeRTT b). change (probeRTTCwnd b2) with (probeRTTCwnd b).
    change (maxDatagramSize b2) with (maxDatagramSize b). by destruct (_ && _). }
  clearbody b3 x. set (b4 := if negb (exitProbeRTT b3 =? 0) && start then _ else b3).
  assert (phase b4 = phase b3 /\ exitProbeRTT b4 = exitProbeRTT b3 /\
    (cycleOffset b4, bpacer b4, bytesInFlight b4) = (cycleOffset b3, bpacer b3, bytesInFlight b3)) as (P4 & X4 & K4).
  { unfold b4. by destruct (_ && start). }
  assert (start = true -> x <> 0 -> probeRTTRoundPassed b4 = true) as Hpass.
  { intros -> Hx. unfold b4. rewrite X3. replace (x =? 0) with false by lia. done. }
  clearbody b4. exists b4, (probeRTTRoundPassed b4). split_and!; [done|congruence..|]. by rewrite X4, X3.
Qed.

Lemma probe_rtt_outside env b t start fl ex : mode b <> tuicBbrProbeRTT ->
  maybeProbeRTT env b t start fl ex =
    if ex && negb (exitingQuiescence b)
    then maybeProbeRTT env (b {{ mode := tuicBbrProbeRTT; pacingGain := float_of 1; exitProbeRTT := 0 }}) t start fl false
    else b {{ exitingQuiescence := false }}.
Proof.
  intros Hm. unfold maybeProbeRTT at 1. rewrite (bool_decide_false (mode b = _)) by done. cbn [negb]. rewrite andb_true_r.
  destruct (ex && _); [done|]. by rewrite bool_decide_false.
Qed.

Lemma leave_probe_rtt_facts env b t : mode b = tuicBbrProbeRTT -> let b' := leave_probe_rtt env b t in
  phase_step (phase b) (phase b') /\ settled b' /\ mode b' <> tuicBbrProbeRTT /\ (mode b' = tuicBbrProbeBW -> cycleOffset b' <> 1) /\
  (bpacer b', bytesInFlight b', minRTTAt b') = (bpacer b, bytesInFlight b, t).
Proof.
  intros Hm. unfold leave_probe_rtt, settled, phase. set (b1 := b {{ minRTTAt := t }}).
  assert (mode b1 = tuicBbrProbeRTT /\ fullBandwidth b1 = fullBandwidth b /\ (bpacer b1, bytesInFlight b1, minRTTAt b1) = (bpacer b, bytesInFlight b, t))
    as (M1 & F1 & K1) by done. clearbody b1. destruct (fullBandwidth b1) eqn:Ef.
  - pose proof (enter_probe_bw_facts env b1 t) as (G1 & G2 & G3 & G4 & G5).
    assert (minRTTAt (enter_probe_bw env b1 t) = minRTTAt b1) as G6 by (unfold enter_probe_bw; by destruct (nextCycleOffset env b1)).
    rewrite G1, G2, G4, G5, G6, Ef, Hm, <- F1. split_and!; try done. constructor.
  - set (b2 := b1 {{ mode := _; pacingGain := _; cwndGain := _ }}).
    assert (mode b2 = tuicBbrStartup /\ fullBandwidth b2 = fullBandwidth b1 /\
      (bpacer b2, bytesInFlight b2, minRTTAt b2) = (bpacer b1, bytesInFlight b1, minRTTAt b1)) as (M2 & F2 & K2) by done.
    clearbody b2. rewrite Hm, M2, F2, Ef, <- F1. split_and!; try done; [constructor|congruence].
Qed.

(** What ProbeRTT does to the machine, from inside it and from outside. *)
Lemma probe_rtt_inside_phase env b t start fl ex : mode b = tuicBbrProbeRTT -> let b' := maybeProbeRTT env b t start fl ex in
  rtc phase_step (phase b) (phase b') /\ settled b' /\ (mode b' = tuicBbrProbeBW -> cycleOffset b' <> 1) /\
  (bpacer b', bytesInFlight b') = (bpacer b, bytesInFlight b) /\
  (mode b' = tuicBbrProbeRTT -> exitProbeRTT b' = probe_deadline b t fl) /\
  (start = true -> probe_deadline b t fl <> 0 -> probe_deadline b t fl <= t -> mode b' <> tuicBbrProbeRTT /\ minRTTAt b' = t).
Proof.
  intros Hm b'. destruct (probe_rtt_inside env b t start fl ex Hm) as (b1 & passed & Hp & P1 & X1 & K1 & Heq).
  unfold b'. rewrite Heq. clear Heq b'. set (x := probe_deadline b t fl) in *.
  assert (mode b1 = tuicBbrProbeRTT) as M1 by (unfold phase in P1; congruence).
  destruct (_ && _ && _) eqn:E.
  - pose proof (leave_probe_rtt_facts env b1 t M1) as (L1 & L2 & L3 & L4 & L5). set (b2 := leave_probe_rtt env b1 t) in *. clearbody b2.
    rewrite P1 in L1. set (b3 := b2 {{ exitingQuiescence := false }}).
    assert (phase b3 = phase b2 /\ cycleOffset b3 = cycleOffset b2 /\ (bpacer b3, bytesInFlight b3, minRTTAt b3) = (bpacer b2, bytesInFlight b2, minRTTAt b2))
      as (P3 & C3 & K3) by done. clearbody b3. unfold phase, settled in *. injection P3 as P3 P3'.
    rewrite P3, P3', C3. split_and!; try done; [by apply rtc_once|congruence|]. intros _ _ _. split; [done|congruence].
  - set (b3 := b1 {{ exitingQuiescence := false }}).
    assert (phase b3 = phase b1 /\ exitProbeRTT b3 = exitProbeRTT b1 /\ (bpacer b3, bytesInFlight b3) = (bpacer b1, bytesInFlight b1)) as (P3 & X3 & K3) by done.
    clearbody b3. rewrite P3, P1. unfold phase, settled in *. injection P3 as P3 P3'. rewrite P3, M1. split_and!; try done; [congruence..|].
    intros Hs Hx Ht. rewrite Hp in E by done. replace (x =? 0) with false in E by lia. replace (t <? x) with false in E by lia. done.
Qed.

Lemma probe_rtt_outside_phase env b t start fl ex : mode b <> tuicBbrProbeRTT -> settled b -> let b' := maybeProbeRTT env b t start fl ex in
  rtc phase_step (phase b) (phase b') /\ settled b' /\
  (mode b' = tuicBbrProbeBW -> cycleOffset b' <> 1 \/ (mode b = tuicBbrProbeBW /\ cycleOffset b' = cycleOffset b)) /\
  (bpacer b', bytesInFlight b') = (bpacer b, bytesInFlight b) /\
  (mode b' = tuicBbrProbeRTT -> ex = true /\ exitingQuiescence b = false).
Proof.
  intros Hm Hs b'. unfold b'. rewrite probe_rtt_outside by done. destruct (ex && negb (exitingQuiescence b)) eqn:E.
  - set (b1 := b {{ mode := _; pacingGain := _; exitProbeRTT := _ }}).
    destruct (probe_rtt_inside_phase env b1 t start fl false eq_refl) as (R & S1 & C & K & _ & _). bool_to_prop.
    split_and!; try done; [|by left; apply C]. eapply rtc_l; [|exact R]. unfold phase. change (fullBandwidth b1) with (fullBandwidth b).
    by constructor.
  - set (b1 := b {{ exitingQuiescence := false }}).
    assert (phase b1 = phase b /\ (bpacer b1, bytesInFlight b1, cycleOffset b1) = (bpacer b, bytesInFlight b, cycleOffset b)) as (P & K) by done.
    clearbody b1. rewrite P. unfold settled, phase in *. injection P as P P'. rewrite P, P'. injection K as K1 K2 K3. rewrite K1, K2, K3.
    split_and!; auto; done.
Qed.

(** An event's effect on the machine. *)
Record event_effect (b : TUICBBRSender) (t : Z) (start stale : bool) (fl : Z) (b' : TUICBBRSender) : Prop := mk_event_effect {
  ee_path : rtc phase_step (phase b) (phase b');
  ee_settled : settled b';
  ee_cycle : mode b <> tuicBbrProbeBW -> mode b' = tuicBbrProbeBW -> cycleOffset b' <> 1;
  ee_kept : (bpacer b', bytesInFlight b') = (bpacer b, fl);
  ee_enter : mode b <> tuicBbrProbeRTT -> mode b' = tuicBbrProbeRTT -> stale = true /\ exitingQuiescence b = false;
  ee_deadline : mode b = tuicBbrProbeRTT -> mode b' = tuicBbrProbeRTT -> exitProbeRTT b' = probe_deadline b t fl;
  ee_leave : mode b = tuicBbrProbeRTT -> start = true -> probe_deadline b t fl <> 0 -> probe_deadline b t fl <= t ->
    mode b' <> tuicBbrProbeRTT /\ minRTTAt b' = t
}.

Lemma check_full_phase b last : ok b -> fullBandwidth b = false -> let b' := checkFullBandwidth b last in
  rtc phase_step (phase b) (phase b') /\ mode b' = mode b /\
  (exitProbeRTT b', cycleOffset b', bpacer b', bytesInFlight b', maxDatagramSize b', exitingQuiescence b') =
  (exitProbeRTT b, cycleOffset b, bpacer b, bytesInFlight b, maxDatagramSize b, exitingQuiescence b).
Proof.
  intros Hok Hf b'. unfold b', checkFullBandwidth. destruct (lastSampleAppLimited b); [by split_and!|].
  destruct (_ >=? uint64_of _); [by split_and!|]. set (b1 := b {{ roundsNoGain := _ }}).
  assert (phase b1 = phase b /\ (exitProbeRTT b1, cycleOffset b1, bpacer b1, bytesInFlight b1, maxDatagramSize b1, exitingQuiescence b1) =
    (exitProbeRTT b, cycleOffset b, bpacer b, bytesInFlight b, maxDatagramSize b, exitingQuiescence b)) as [P1 <-] by done.
  clearbody b1. injection P1 as P1 P1'. destruct (_ || _); [|split_and!; [unfold phase; rewrite P1, P1'; reflexivity|done|done]].
  split_and!; [|exact P1|reflexivity]. unfold phase. rewrite <- P1, Hf.
  apply rtc_once. change (phase_step (mode b1, false) (mode b1, true)). constructor. rewrite P1.
  destruct (needs_full (mode b)) eqn:E; [|done]. by rewrite (ok_full _ b Hok E) in Hf.
Qed.

Lemma before_drain env b t prior hl start last : ok b ->
  let b0 := if bool_decide (mode b = tuicBbrProbeBW) then updateGainCycle env b t prior (bytesInFlight b) hl else b in
  let b' := if start && negb (fullBandwidth b0) then checkFullBandwidth b0 last else b0 in
  ok b' /\ rtc phase_step (phase b) (phase b') /\ mode b' = mode b /\
  (exitProbeRTT b', bpacer b', bytesInFlight b', maxDatagramSize b', exitingQuiescence b') =
  (exitProbeRTT b, bpacer b, bytesInFlight b, maxDatagramSize b, exitingQuiescence b).
Proof.
  intros Hok b0 b'. assert (ok b0 /\ phase b0 = phase b /\ (exitProbeRTT b0, bpacer b0, bytesInFlight b0, maxDatagramSize b0, exitingQuiescence b0) =
    (exitProbeRTT b, bpacer b, bytesInFlight b, maxDatagramSize b, exitingQuiescence b)) as (Hok0 & P0 & <-).
  { unfold b0. destruct (bool_decide _) eqn:E; [|done]. conds. split; [by apply updateGainCycle_ok|].
    unfold updateGainCycle. by match goal with |- context [if negb ?advance then b else _] => destruct (negb advance) end. }
  rewrite <- P0. injection P0 as <- _. clearbody b0. unfold b'. destruct (start && _) eqn:E; [|by split_and!]. bool_to_prop.
  destruct (check_full_phase b0 last Hok0 ltac:(done)) as (R & M & K). split_and!; [by apply checkFullBandwidth_ok|done|done|congruence].
Qed.

Lemma exit_drain_kept env b t fl : let b' := maybeExitStartupDrain env b t fl in
  (bpacer b', bytesInFlight b', exitingQuiescence b') = (bpacer b, bytesInFlight b, exitingQuiescence b).
Proof.
  unfold maybeExitStartupDrain. set (b1 := if _ && fullBandwidth b then _ else b).
  assert ((bpacer b1, bytesInFlight b1, exitingQuiescence b1) = (bpacer b, bytesInFlight b, exitingQuiescence b)) as <-.
  { unfold b1. by destruct (_ && fullBandwidth b). }
  clearbody b1. destruct (_ && _); [|done]. unfold enter_probe_bw. by destruct (nextCycleOffset env b1).
Qed.

Lemma event_modes_effect env b t prior hl start ex last : ok b ->
  event_effect b t start ex (bytesInFlight b) (event_modes env b t prior hl start ex last).
Proof.
  intros Hok. unfold event_modes. destruct (before_drain env b t prior hl start last Hok) as (Hok1 & R1 & M1 & K1).
  set (b1 := if start && _ then _ else _) in *. clearbody b1.
  destruct (exit_drain_phase env b1 t (bytesInFlight b1) Hok1) as (R2 & S2 & I2 & C2).
  pose proof (exit_drain_kept env b1 t (bytesInFlight b1)) as K2.
  set (b2 := maybeExitStartupDrain _ _ _ _) in *. clearbody b2.
  assert (bytesInFlight b2 = bytesInFlight b) as Hfl by congruence. assert (bpacer b2 = bpacer b) as Hpc by congruence.
  destruct (decide (mode b = tuicBbrProbeRTT)) as [Hm|Hm].
  - rewrite (I2 ltac:(left; congruence)) in *. clear b2 I2 C2 S2 R2 K2.
    destruct (probe_rtt_inside_phase env b1 t start (bytesInFlight b1) ex ltac:(congruence)) as (R3 & S3 & C3 & K3 & D3 & L3).
    assert (probe_deadline b1 t (bytesInFlight b1) = probe_deadline b t (bytesInFlight b)) as Hd.
    { unfold probe_deadline, probeRTTCwnd. rewrite (ok_min _ b1 Hok1), (ok_min _ b Hok).
      injection K1 as -> _ -> -> _. done. }
    rewrite Hd in *. constructor; try done; [by etrans|congruence].
  - assert (mode b2 <> tuicBbrProbeRTT) as Hm2 by (intros Hm2; assert (b2 = b1) by auto; congruence).
    destruct (probe_rtt_outside_phase env b2 t start (bytesInFlight b2) ex Hm2 S2) as (R3 & S3 & C3 & K3 & E3).
    constructor; try done; [by etrans; [|etrans]| |congruence|].
    + intros Hb Hm'. destruct (C3 Hm') as [C|[C Cc]]; [done|]. rewrite Cc. destruct C2 as [C2|[C2|C2]]; [done|congruence|done].
    + intros _ Hm'. destruct (E3 Hm') as [E1 E2]. split; [done|congruence].
Qed.

(** ** Whole callbacks *)

Definition event_time (env : environment) (t : Z) : Z := if t =? 0 then env_Now env else t.
Definition round_starts (b : TUICBBRSender) (acked : list AckedPacketInfo) : bool :=
  (acked_total acked >? 0) && (largest_acked acked >? roundEndPN b).

(** What no event changes. *)
Definition static (b : TUICBBRSender) : bool * Z := (lossIsCongestion b, maxDatagramSize b).

Lemma enter_probe_bw_static env b t : static (enter_probe_bw env b t) = static b.
Proof. unfold enter_probe_bw. by destruct (nextCycleOffset env b). Qed.

Lemma maybeProbeRTT_static env b t start fl ex : static (maybeProbeRTT env b t start fl ex) = static b.
Proof.
  unfold maybeProbeRTT. set (b1 := if ex && _ && _ then _ else b).
  assert (static b1 = static b) as <- by (unfold b1; by destruct (ex && _ && _)). clearbody b1. destruct (negb _); [done|].
  set (b2 := if (exitProbeRTT _ =? 0) && _ then _ else _).
  assert (static b2 = static b1) as <- by (unfold b2; by destruct (_ && _)). clearbody b2.
  set (b3 := if negb (exitProbeRTT b2 =? 0) && start then _ else b2).
  assert (static b3 = static b2) as <- by (unfold b3; by destruct (_ && start)). clearbody b3.
  set (b4 := if _ && _ && _ then _ else b3). transitivity (static b4); [done|]. unfold b4.
  destruct (_ && _ && _); [|done]. unfold leave_probe_rtt. destruct (fullBandwidth _); [by rewrite enter_probe_bw_static|done].
Qed.

Lemma event_modes_static env b t prior hl start ex last : static (event_modes env b t prior hl start ex last) = static b.
Proof.
  unfold event_modes. rewrite maybeProbeRTT_static. set (b1 := if bool_decide _ then _ else b).
  assert (static b1 = static b) as <-.
  { unfold b1. destruct (bool_decide _); [|done]. unfold updateGainCycle.
    by match goal with |- context [if negb ?advance then b else _] => destruct (negb advance) end. }
  clearbody b1. set (b2 := if start && _ then _ else b1). assert (static b2 = static b1) as <-.
  { unfold b2. destruct (start && _); [|done]. unfold checkFullBandwidth. destruct (lastSampleAppLimited b1); [done|].
    destruct (_ >=? uint64_of _); [done|]. by destruct (_ || _). }
  clearbody b2. unfold maybeExitStartupDrain. set (b3 := if _ && fullBandwidth b2 then _ else b2).
  assert (static b3 = static b2) as <- by (unfold b3; by destruct (_ && fullBandwidth b2)). clearbody b3.
  destruct (_ && _); [by rewrite enter_probe_bw_static|done].
Qed.

Lemma saturatingRemaining_small prior a l : saturatingRemaining prior a l < 2 ^ 63.
Proof.
  unfold saturatingRemaining. destruct (_ <=? 0); [pow2_eval; lia|]. destruct (_ >=? _); [pow2_eval; lia|].
  destruct (_ >=? _); [pow2_eval; lia|]. apply i64_range.
Qed.

Lemma event_ok env b prior t acked lost : prior < 2 ^ 63 -> ok b -> let b' := OnCongestionEventEx env b prior t acked lost in
  ok b' /\ static b' = static b /\ exists stale,
    (stale = true -> minRTTAt b <> 0 /\ tuicProbeRTTInterval <= i64 (event_time env t - minRTTAt b)) /\
    event_effect b (event_time env t) (round_starts b acked) stale (saturatingRemaining prior (acked_total acked) (lost_total lost)) b'.
Proof.
  intros Hp Hok b'. unfold b'.
  destruct (event_decompose _ env b prior t acked lost Hp Hok) as (b1 & ex & last & w & xs & -> & Hok1 & Hw & K1 & F1 & Hx).
  fold (event_time env t) in *. fold (round_starts b acked). set (fl := saturatingRemaining _ _ _) in *.
  assert (fl < 2 ^ 63) as Hfl by apply saturatingRemaining_small.
  assert (0 <= lost_total lost) as Hl by (by apply sat_fold_nonneg).
  set (start := round_starts b acked). set (hl := negb (len lost =? 0)).
  pose proof (event_modes_ok _ env b1 (event_time env t) prior hl start ex last Hok1) as Hok2.
  pose proof (event_modes_effect env b1 (event_time env t) prior hl start ex last Hok1) as He.
  pose proof (event_modes_static env b1 (event_time env t) prior hl start ex last) as Hs.
  set (b2 := event_modes _ _ _ _ _ _ _ _) in *. clearbody b2. rewrite F1 in He.
  pose proof (event_outputs_phase _ env b2 w xs (lost_total lost) start acked lost Hok2) as P3.
  assert (bytesInFlight b2 = fl) as Hb2 by (pose proof (ee_kept _ _ _ _ _ _ He); congruence).
  assert (ok (event_outputs env b2 w xs (lost_total lost) start acked lost)) as Hok3 by (apply event_outputs_ok; try done; by rewrite Hb2).
  set (b3 := event_outputs _ _ _ _ _ _ _ _) in *. clearbody b3.
  pose proof (publish_ok _ env b3 Hok3) as Hok4. pose proof (publish_phase env b3) as P4. set (b4 := publishTelemetry env b3) in *. clearbody b4.
  assert (static b2 = static b) as Hs2 by (rewrite Hs; unfold kept, static in *; congruence).
  split_and!; [done|unfold phase_of, static in *; congruence|]. exists ex. split; [done|].
  unfold kept, phase_of in *. assert (probe_deadline b1 (event_time env t) fl = probe_deadline b (event_time env t) fl) as Hd.
  { unfold probe_deadline, probeRTTCwnd. rewrite (ok_min _ b1 Hok1), (ok_min _ b Hok). injection K1 as _ _ -> _ -> _ _. done. }
  destruct He as [R S1 C K E D L]. rewrite Hd in *. unfold phase, settled in *.
  injection K1 as K1 K2 K3 K4 K5 K6 K7. rewrite P3 in P4. injection P4 as P4 Q2 Q3 Q4 Q5 Q6 Q7 Q8 Q9 Q10 Q11.
  constructor; unfold phase, settled; rewrite ?P4, ?Q2, ?Q3, ?Q5, ?Q7, ?Q8, ?Q9, <- ?K1, <- ?K2, <- ?K3, <- ?K4, <- ?K7; done.
Qed.

(** What sending and seeding leave as it was. *)
Definition steady (b : TUICBBRSender) := (phase b, exitProbeRTT b, static b).

Lemma seedBandwidth_steady env b r rt : steady (seedBandwidth env b r rt) = steady b /\ bpacer (seedBandwidth env b r rt) = bpacer b.
Proof.
  unfold seedBandwidth. destruct (r =? 0); [done|]. set (b1 := seed_filter _ _ _ _).
  assert (steady b1 = steady b /\ bpacer b1 = bpacer b) as [<- <-] by done. clearbody b1.
  set (b2 := if _ >? pacingRate b1 then _ else b1).
  assert (steady b2 = steady b1 /\ bpacer b2 = bpacer b1) as [<- <-] by (unfold b2; by destruct (_ >? pacingRate b1)).
  clearbody b2. destruct (rt <=? 0); [done|]. by destruct (_ >? cwnd b2).
Qed.

Lemma restartFromIdle_steady env b t : steady (restartFromIdle env b t) = steady b /\ bpacer (restartFromIdle env b t) = bpacer b.
Proof. unfold restartFromIdle. destruct (_ <=? _); [done|]. destruct (mm_expired _ _ _); [done|]. apply seedBandwidth_steady. Qed.

Lemma publish_steady env b : steady (publishTelemetry env b) = steady b /\ bpacer (publishTelemetry env b) = bpacer b.
Proof. unfold publishTelemetry. by destruct (sampleSummary _) as [[[[? ?] ?] ?] ?]. Qed.

Lemma OnPacketSent_steady env b t fl n k r : let b' := OnPacketSent env b t fl n k r in
  steady b' = steady b /\ exists bps, tuicDefaultMinRate <= bps <= tuicMaxRate /\ bpacer b' = sentPacket bps None (bpacer b) t k.
Proof.
  unfold OnPacketSent. set (b1 := if _ =? 0 then _ else _). assert (steady b1 = steady b /\ bpacer b1 = bpacer b) as [<- <-].
  { unfold b1. destruct (_ =? 0); [|done]. exact (restartFromIdle_steady env (b {{ maxSentPN := n; exitingQuiescence := true }}) t). }
  clearbody b1. set (b2 := publish_rate _ _). assert (steady b2 = steady b1 /\ bpacer b2 = bpacer b1) as [<- <-] by done. clearbody b2.
  destruct (publish_steady env (b2 {{ bpacer := sentPacket (bandwidth env b2) None (bpacer b2) t k }})) as [-> ->].
  split; [done|]. exists (bandwidth env b2). split; [apply bandwidth_range|done].
Qed.

Definition pacer_fine (p : pacer) : Prop :=
  0 < p_maxDatagramSize p < 2 ^ 26 /\ 0 <= burstPacingDelay p < 2 ^ 31 /\ 0 <= lastSentTime p < 2 ^ 61 /\ 0 <= budgetAtLastSent p < 2 ^ 61.

Lemma maxBurst_range bps p : pacer_fine p -> tuicDefaultMinRate <= bps <= tuicMaxRate ->
  10 * p_maxDatagramSize p <= maxBurstSize bps None p < 2 ^ 61.
Proof.
  intros (Hm & Hd & _ & _) Hb. pose proof (maxBurst_ge bps None p Hm) as Hge. unfold maxBurstPackets in Hge. split; [done|]. clear Hge.
  unfold maxBurstSize, maxByteCount, maxBurstPackets, tuicDefaultMinRate, tuicMaxRate, second in *.
  rewrite (i64_small (10 * _)) by (pow2_eval; lia).
  assert (0 <= burstPacingDelay p * bps <= 2 ^ 31 * 2 ^ 31) as Hprod.
  { split; [apply Z.mul_nonneg_nonneg|apply Z.mul_le_mono_nonneg]; pow2_eval; lia. }
  rewrite i64_small by (pow2_eval; lia).
  assert (Z.quot (burstPacingDelay p * bps) 1000000000 < 2 ^ 61).
  { rewrite Z.quot_div_nonneg by lia. apply Z.div_lt_upper_bound; [lia|]. pow2_eval. lia. }
  destruct (_ >? _); pow2_eval; lia.
Qed.

Lemma budget_range bps p now : pacer_fine p -> tuicDefaultMinRate <= bps <= tuicMaxRate -> 0 <= budget bps None p now < 2 ^ 61.
Proof.
  intros Hp Hb. pose proof (maxBurst_range bps p Hp Hb). destruct Hp as (Hm & _). unfold budget. destruct (bps <=? 0); [lia|].
  destruct (_ =? 0); [lia|]. unfold minByteCount. set (x := i64 (budgetAtLastSent p + _)).
  destruct (x <? 0) eqn:E; bool_to_prop; destruct (_ <? _) eqn:E2; bool_to_prop; pow2_eval; lia.
Qed.

Lemma sentPacket_fine bps p t k : pacer_fine p -> tuicDefaultMinRate <= bps <= tuicMaxRate -> 0 < t < 2 ^ 61 -> 0 <= k < 2 ^ 26 ->
  pacer_fine (sentPacket bps None p t k).
Proof.
  intros Hp Hb Ht Hk. pose proof (budget_range bps p t Hp Hb). destruct Hp as (Hm & Hd & _ & _). unfold sentPacket, pacer_fine. simpl.
  split_and!; try lia; destruct (_ >? _) eqn:E; bool_to_prop; lia.
Qed.

(** ** What holds at every moment *)

Record run_inv (c : bool) (b : TUICBBRSender) : Prop := mk_run_inv {
  ri_ok : ok b; ri_settled : settled b; ri_pacer : pacer_fine (bpacer b); ri_loss : lossIsCongestion b = c }.

Lemma start_inv env size c : size < 2 ^ 26 -> run_inv c (bbr_start env size c).
Proof.
  intros Hs. pose proof (start_ok env size c Hs) as Hok. constructor; [done| | |done].
  - unfold settled, bbr_start, NewTUICBBRSender, publishTelemetry. by destruct (sampleSummary _) as [[[[? ?] ?] ?] ?].
  - assert (bpacer (bbr_start env size c) = newTUICPacer InitialPacketSize MinPacingDelay) as ->.
    { unfold bbr_start, NewTUICBBRSender, publishTelemetry. by destruct (sampleSummary _) as [[[[? ?] ?] ?] ?]. }
    unfold newTUICPacer, newPacerWithBurstDelay, tuicBurstPacingDelay, pacer_fine, maxBurstPackets. simpl.
    replace (_ <=? 0) with false by lia. pow2_eval. lia.
Qed.

Lemma steady_settled b b' : steady b' = steady b -> settled b -> settled b'.
Proof. unfold steady, phase, settled. intros [= M F _ _ _] Hset Hm. rewrite F. apply Hset. congruence. Qed.

Lemma steady_loss b b' : steady b' = steady b -> lossIsCongestion b' = lossIsCongestion b.
Proof. unfold steady, static. by intros [= _ _ _ L _]. Qed.

Lemma do_inv c b call : bbr_op_ok (snd call) -> run_inv c b -> run_inv c (bbr_do b call).
Proof.
  destruct call as [env op]. intros Hop [Hok Hs Hp Hc]. unfold bbr_do. destruct op as [p|t fl n k r|prior t acked lost|size| |now|r rt]; simpl in *.
  - unfold SetRTTStatsProvider. set (b1 := b {{ rttStats := p }}). assert (ok b1) as Hok1 by ok_stage Hok.
    destruct (publish_steady env b1) as [S1 P1]. constructor; [by apply publish_ok|by apply (steady_settled b _ S1)|by rewrite P1|by rewrite (steady_loss b _ S1)].
  - destruct Hop as (Ht & Hfl & Hk). destruct (OnPacketSent_steady env b t fl n k r) as (S1 & bps & Hb & P1).
    constructor; [by eapply publishing_ok, OnPacketSent_ok|by eapply steady_settled| |by rewrite (steady_loss b _ S1)].
    rewrite P1. by apply sentPacket_fine.
  - destruct (event_ok env b prior t acked lost Hop Hok) as (Hok' & St & stale & _ & He).
    pose proof (ee_kept _ _ _ _ _ _ He) as K. constructor; [done|by apply He|congruence|unfold static in St; congruence].
  - destruct (Z.leb_spec size 0); [unfold SetMaxDatagramSize; by replace (size <=? 0) with true by lia|].
    pose proof (publishing_ok _ _ (SetMaxDatagramSize_ok env b size ltac:(lia) Hok)) as Hok'. unfold SetMaxDatagramSize in *.
    replace (size <=? 0) with false in * by lia.
    match goal with |- run_inv _ (publishTelemetry env ?b1) => destruct (publish_steady env b1) as [S1 P1] end.
    constructor; [done|exact (steady_settled _ _ S1 Hs)|rewrite P1|rewrite (steady_loss _ _ S1); exact Hc].
    destruct Hp as (Hm & Hd & Hl & Hb). cbn [bpacer]. unfold pacer_fine, pacer_setMaxDatagramSize.
    change (bpacer _) with (if size >? 0 then mkPacer (budgetAtLastSent (bpacer b)) size (lastSentTime (bpacer b)) (burstPacingDelay (bpacer b)) else bpacer b).
    replace (size >? 0) with true by lia. simpl. lia.
  - destruct (_ >=? _); [done|]. constructor; try done. ok_stage Hok.
  - constructor; try done. ok_stage Hok.
  - destruct (seedBandwidth_steady env b r rt) as [S1 P1].
    constructor; [by apply seedBandwidth_ok|by eapply steady_settled|by rewrite P1|by rewrite (steady_loss b _ S1)].
Qed.

Lemma run_keeps c calls : forall b, calls_ok calls -> run_inv c b -> run_inv c (bbr_run b calls).
Proof.
  induction calls as [|call calls IH]; intros b Hc Hb; [done|]. apply Forall_cons in Hc as [H1 H2]. simpl. apply IH; [done|]. by apply do_inv.
Qed.

Lemma run_inv_from env size c calls : size < 2 ^ 26 -> calls_ok calls -> run_inv c (bbr_run (bbr_start env size c) calls).
Proof. intros Hs Hc. apply run_keeps; [done|]. by apply start_inv. Qed.

(** ** Windows, rates and what is published *)

(** The published figures are the sender's. *)
Definition published (b : TUICBBRSender) : Prop :=
  let t := telemetry b in
  t_mode t = mode_code (mode b) /\ t_congestionWindow t = GetCongestionWindow b /\ t_bytesInFlight t = wrap 64 (bytesInFlight b) /\
  t_inRecovery t = InRecovery b /\ t_maxBandwidth t = estimate (estimator b) /\ t_round t = round b /\
  tuicDefaultMinRate <= t_pacingRate t <= tuicMaxRate.

Lemma publish_published env b : ok b -> published (publishTelemetry env b).
Proof.
  intros Hok. pose proof (GetCongestionWindow_range _ Hpackets b Hok) as Hw. pose proof (window_bounds _ Hpackets b Hok).
  pose proof (ok_flight _ b Hok) as Hf. pose proof (bandwidth_range env b) as Hb.
  assert (wrap 64 (bandwidth env b) = bandwidth env b) as Hbw by (apply wrap_small; unfold tuicDefaultMinRate, tuicMaxRate in *; pow2_eval; lia).
  assert (wrap 64 (if GetCongestionWindow b <? 0 then 0 else GetCongestionWindow b) = GetCongestionWindow b) as Hwin.
  { replace (_ <? 0) with false by lia. apply wrap_small. pow2_eval. lia. }
  assert ((if bytesInFlight b <? 0 then 0 else bytesInFlight b) = bytesInFlight b) as Hfl by (by replace (_ <? 0) with false by lia).
  unfold published, publishTelemetry. destruct (sampleSummary _) as [[[[x1 x2] x3] x4] x5].
  split_and!; try reflexivity; [exact Hwin| |change (tuicDefaultMinRate <= wrap 64 (bandwidth env b)); lia|
    change (wrap 64 (bandwidth env b) <= tuicMaxRate); lia].
  change (wrap 64 (if bytesInFlight b <? 0 then 0 else bytesInFlight b) = wrap 64 (bytesInFlight b)). by rewrite Hfl.
Qed.

Definition publishes (op : bbr_op) : bool :=
  match op with Provider _ | Sent _ _ _ _ _ | Event _ _ _ _ => true | Resize size => size >? 0 | _ => false end.

Lemma event_publishing env b prior t acked lost : prior < 2 ^ 63 -> ok b -> publishing env (OnCongestionEventEx env b prior t acked lost).
Proof.
  intros Hp Hok. destruct (event_decompose _ env b prior t acked lost Hp Hok) as (b1 & ex & last & w & xs & -> & Hok1 & Hw & K1 & F1 & Hx).
  eexists. split; [reflexivity|]. apply event_outputs_ok; try done; [by apply event_modes_ok|by apply sat_fold_nonneg|].
  set (t' := if t =? 0 then _ else _). set (start := (acked_total acked >? 0) && _).
  pose proof (event_modes_effect env b1 t' prior (negb (len lost =? 0)) start ex last Hok1) as He.
  pose proof (ee_kept _ _ _ _ _ _ He) as [= _ ->]. rewrite F1. apply saturatingRemaining_small.
Qed.

Lemma do_published b call : bbr_op_ok (snd call) -> publishes (snd call) = true -> ok b -> published (bbr_do b call).
Proof.
  destruct call as [env op]. intros Hop Hp Hok. assert (publishing env (bbr_do b (env, op))) as (b1 & -> & Hok1); [|by apply publish_published].
  destruct op as [p|t fl n k r|prior t acked lost|size| |now|r rt]; try discriminate Hp.
  - eexists. split; [reflexivity|]. ok_stage Hok.
  - by apply OnPacketSent_ok.
  - by apply event_publishing.
  - apply SetMaxDatagramSize_ok; [|done]. unfold bbr_op_ok, publishes in *. simpl in *. bool_to_prop. lia.
Qed.

(** C34: whatever the path does, the controller stays inside its limits: in every run of
    callbacks the congestion window is between four packets and the library's ceiling,
    the pacing rate between 64 KiB/s and 2 GiB/s and the target window inside the same
    limits, for every estimate, infinite or not a number included; the bytes in flight
    are never negative; recovery is entered only after the bandwidth is known, and never
    by a sender told that loss is not congestion; and what a callback publishes is the
    state it leaves. *)
Theorem bbr_windows_bounded env size lossCounts calls call :
  size < 2 ^ 26 -> calls_ok calls -> bbr_op_ok (snd call) ->
  let b := bbr_run (bbr_start env size lossCounts) calls in
  minCwnd b = 4 * maxDatagramSize b /\ maxCwnd b = MaxCongestionWindowPackets * maxDatagramSize b /\
  minCwnd b <= GetCongestionWindow b <= maxCwnd b /\
  (forall env, tuicDefaultMinRate <= bandwidth env b <= tuicMaxRate) /\
  (forall env, minCwnd b <= targetCwnd env b (pacingGain b) <= maxCwnd b) /\
  0 <= bytesInFlight b /\
  (InRecovery b = true -> fullBandwidth b = true /\ lossCounts = true) /\
  (publishes (snd call) = true -> published (bbr_do b call)).
Proof.
  intros Hs Hc Hop b. destruct (run_inv_from env size lossCounts calls Hs Hc) as [Hok _ _ Hl]. fold b in Hok, Hl.
  pose proof (GetCongestionWindow_range _ Hpackets b Hok) as [G1 G2].
  split_and!; [apply Hok|apply Hok|exact G1|exact G2|intros env'; apply bandwidth_range| |apply Hok| |].
  - intros env'. apply (targetCwnd_range _ Hpackets env' b _ Hok). rewrite (ok_gain _ b Hok). apply mode_gain_pos.
  - unfold InRecovery, inRecovery. intros Hr. bool_to_prop. conds. destruct (ok_recovery _ b Hok Hr). split; congruence.
  - intros Hp. by apply do_published.
Qed.

(** ** The machine *)

Definition is_event (op : bbr_op) : bool := match op with Event _ _ _ _ => true | _ => false end.

(** Everything but an event leaves the machine where it is. *)
Lemma do_steady b call : bbr_op_ok (snd call) -> is_event (snd call) = false -> ok b ->
  phase (bbr_do b call) = phase b /\ exitProbeRTT (bbr_do b call) = exitProbeRTT b.
Proof.
  destruct call as [env op]. intros Hop He Hok.
  assert (forall b' : TUICBBRSender, steady b' = steady b -> phase b' = phase b /\ exitProbeRTT b' = exitProbeRTT b) as Hst.
  { unfold steady. intros b' [= E1 E2 E3 E4 E5]. unfold phase. by rewrite E1, E2. }
  unfold bbr_do. destruct op as [p|t fl n k r|prior t acked lost|size| |now|r rt]; try discriminate He; cbn [fst snd].
  - apply Hst. exact (proj1 (publish_steady env (b {{ rttStats := p }}))).
  - apply Hst, OnPacketSent_steady.
  - unfold SetMaxDatagramSize. destruct (size <=? 0); [done|]. match goal with |- context [publishTelemetry env ?x] => set (b1 := x) end.
    destruct (publish_steady env b1) as [S1 _]. exact (conj (f_equal (fun x => fst (fst x)) S1) (f_equal (fun x => snd (fst x)) S1)).
  - unfold TimeUntilSend. cbn [snd]. by destruct (_ >=? _).
  - done.
  - apply Hst, seedBandwidth_steady.
Qed.

(** C35: the controller refines a machine of four modes and one thing learnt.  Each
    callback takes it along the edges of that machine, and callbacks other than a
    congestion event not at all.  Every mode paces with its own gain; startup is left as
    soon as the bandwidth is known; bandwidth probing is never entered in its draining
    phase; and round-trip probing is entered only by an event at which the smallest
    round trip is ten seconds old and the sender is not restarting from idle. *)
Theorem bbr_follows_machine env size lossCounts calls env' op :
  size < 2 ^ 26 -> calls_ok calls -> bbr_op_ok op ->
  let b := bbr_run (bbr_start env size lossCounts) calls in
  let b' := bbr_do b (env', op) in
  rtc phase_step (phase b) (phase b') /\ (is_event op = false -> phase b' = phase b) /\
  pacingGain b' = mode_gain b' /\ (mode b' = tuicBbrStartup -> fullBandwidth b' = false) /\
  (mode b <> tuicBbrProbeBW -> mode b' = tuicBbrProbeBW -> cycleOffset b' <> 1) /\
  (mode b <> tuicBbrProbeRTT -> mode b' = tuicBbrProbeRTT -> exists prior t acked lost, op = Event prior t acked lost /\
     minRTTAt b <> 0 /\ tuicProbeRTTInterval <= i64 (event_time env' t - minRTTAt b) /\ exitingQuiescence b = false).
Proof.
  intros Hs Hc Hop b b'. pose proof (run_inv_from env size lossCounts calls Hs Hc) as Hinv. fold b in Hinv.
  pose proof (do_inv lossCounts b (env', op) Hop Hinv) as Hinv'. fold b' in Hinv'. destruct Hinv as [Hok _ _ _].
  assert (is_event op = false -> phase b' = phase b) as Hsteady.
  { intros He. by apply do_steady. }
  destruct (is_event op) eqn:He.
  - destruct op as [ | |prior t acked lost| | | |]; try discriminate He.
    destruct (event_ok env' b prior t acked lost Hop Hok) as (_ & _ & stale & Hx & E).
    split_and!; [apply E|done|apply (ok_gain _ _ (ri_ok _ _ Hinv'))|apply (ri_settled _ _ Hinv')|apply E|].
    intros M M'. destruct (ee_enter _ _ _ _ _ _ E M M') as [Hst Hq]. destruct (Hx Hst). by exists prior, t, acked, lost.
  - assert (phase b' = phase b) as P by auto. rewrite P. unfold phase in P. injection P as P P'.
    split_and!; [reflexivity|done|apply (ok_gain _ _ (ri_ok _ _ Hinv'))|apply (ri_settled _ _ Hinv')|congruence..].
Qed.

(** ** ProbeRTT ends *)

Lemma probe_stays c d : d <> 0 -> forall calls b, calls_ok calls -> run_inv c b -> mode b = tuicBbrProbeRTT -> exitProbeRTT b = d ->
  (exists k, (k <= length calls)%nat /\ mode (bbr_run b (take k calls)) <> tuicBbrProbeRTT) \/
  (mode (bbr_run b calls) = tuicBbrProbeRTT /\ exitProbeRTT (bbr_run b calls) = d).
Proof.
  intros Hd. induction calls as [|call calls IH]; intros b Hc Hinv Hm Hx; [by right|]. apply Forall_cons in Hc as [H1 H2].
  pose proof (do_inv c b call H1 Hinv) as Hinv'.
  destruct (decide (mode (bbr_do b call) = tuicBbrProbeRTT)) as [Hm'|Hm']; [|left; exists 1%nat; simpl; split; [lia|first [done|by rewrite take_0]]].
  assert (exitProbeRTT (bbr_do b call) = d) as Hx'.
  { destruct (is_event (snd call)) eqn:He; [|by rewrite (proj2 (do_steady b call H1 He (ri_ok _ _ Hinv)))].
    destruct call as [env [ | |prior t acked lost| | | |]]; try discriminate He.
    destruct (event_ok env b prior t acked lost H1 (ri_ok _ _ Hinv)) as (_ & _ & stale & _ & E).
    transitivity (probe_deadline b (event_time env t) (saturatingRemaining prior (acked_total acked) (lost_total lost))); [by apply E|].
    unfold probe_deadline. rewrite Hx. by replace (d =? 0) with false by lia. }
  destruct (IH _ H2 Hinv' Hm' Hx') as [(k & Hk & Hl)|Hr]; [|by right]. left. exists (S k). simpl. split; [lia|done].
Qed.

(** Round-trip probing ends.  Once the bytes in flight have fallen under five packets
    the deadline is set 200 ms ahead and stays, whatever is sent, resized or acknowledged
    in between; by the first event that starts a round after it the mode has been left. *)
Theorem probe_rtt_ends env size lossCounts calls env1 prior1 t1 acked1 lost1 between env2 prior2 t2 acked2 lost2 :
  size < 2 ^ 26 -> calls_ok calls -> prior1 < 2 ^ 63 -> calls_ok between -> prior2 < 2 ^ 63 ->
  let b := bbr_run (bbr_start env size lossCounts) calls in
  let low := (env1, Event prior1 t1 acked1 lost1) in
  let deadline := if exitProbeRTT b =? 0 then i64 (event_time env1 t1 + tuicProbeRTTDuration) else exitProbeRTT b in
  let late := bbr_run b (low :: between) in
  mode b = tuicBbrProbeRTT ->
  saturatingRemaining prior1 (acked_total acked1) (lost_total lost1) < 5 * maxDatagramSize b -> deadline <> 0 ->
  round_starts late acked2 = true -> deadline <= event_time env2 t2 ->
  exists k, (k <= S (S (length between)))%nat /\
    mode (bbr_run b (take k (low :: between ++ [(env2, Event prior2 t2 acked2 lost2)]))) <> tuicBbrProbeRTT.
Proof.
  intros Hs Hc Hp1 Hb Hp2 b low deadline late Hm Hlow Hd Hround Hlate.
  pose proof (run_inv_from env size lossCounts calls Hs Hc) as Hinv. fold b in Hinv. pose proof (ri_ok _ _ Hinv) as Hok.
  set (fl := saturatingRemaining _ _ _) in *. assert (probe_deadline b (event_time env1 t1) fl = deadline) as Hdl.
  { unfold probe_deadline, deadline, probeRTTCwnd. rewrite (ok_min _ b Hok). pose proof (ok_size _ b Hok).
    rewrite i64_small by (pow2_eval; lia). replace (fl <? _) with true by lia. by rewrite andb_true_r. }
  destruct (event_ok env1 b prior1 t1 acked1 lost1 Hp1 Hok) as (_ & _ & stale & _ & E). fold fl in E.
  pose proof (do_inv lossCounts b low Hp1 Hinv) as Hinv1.
  destruct (decide (mode (bbr_do b low) = tuicBbrProbeRTT)) as [Hm1|Hm1]; [|exists 1%nat; simpl; split; [lia|first [done|by rewrite take_0]]].
  assert (exitProbeRTT (bbr_do b low) = deadline) as Hx1 by (rewrite <- Hdl; by apply E).
  destruct (probe_stays lossCounts deadline Hd between _ Hb Hinv1 Hm1 Hx1) as [(k & Hk & Hl)|[Hml Hxl]].
  - exists (S k). split; [lia|]. simpl. by rewrite take_app_le.
  - change (bbr_run (bbr_do b low) between) with late in *.
    pose proof (run_keeps lossCounts between _ Hb Hinv1) as Hinvl. change (bbr_run (bbr_do b low) between) with late in Hinvl.
    destruct (event_ok env2 late prior2 t2 acked2 lost2 Hp2 (ri_ok _ _ Hinvl)) as (_ & _ & stale2 & _ & E2).
    assert (probe_deadline late (event_time env2 t2) (saturatingRemaining prior2 (acked_total acked2) (lost_total lost2)) = deadline) as Hd2.
    { unfold probe_deadline. rewrite Hxl. by replace (deadline =? 0) with false by lia. }
    exists (S (S (length between))). split; [lia|]. rewrite take_ge by (simpl; rewrite length_app; simpl; lia).
    change (mode (bbr_run b ((low :: between) ++ [(env2, Event prior2 t2 acked2 lost2)])) <> tuicBbrProbeRTT).
    unfold bbr_run. rewrite fold_left_app. fold (bbr_run b (low :: between)). fold late. simpl.
    apply (ee_leave _ _ _ _ _ _ E2 Hml Hround); rewrite Hd2; done.
Qed.

(** ** Sending is never blocked for good *)

Definition sized (b : TUICBBRSender) : Prop := maxDatagramSize b <= p_maxDatagramSize (bpacer b).

Lemma steady_size b b' : steady b' = steady b -> maxDatagramSize b' = maxDatagramSize b.
Proof. unfold steady, static. by intros [= _ _ _ _ L]. Qed.

Lemma do_sized b call : bbr_op_ok (snd call) -> ok b -> sized b -> sized (bbr_do b call).
Proof.
  destruct call as [env op]. intros Hop Hok Hs. unfold bbr_do, sized in *.
  destruct op as [p|t fl n k r|prior t acked lost|size| |now|r rt]; cbn [fst snd].
  - destruct (publish_steady env (b {{ rttStats := p }})) as [S1 P1]. unfold SetRTTStatsProvider. rewrite P1, (steady_size _ _ S1). exact Hs.
  - destruct (OnPacketSent_steady env b t fl n k r) as (S1 & bps & _ & P1). rewrite P1, (steady_size _ _ S1). exact Hs.
  - destruct (event_ok env b prior t acked lost Hop Hok) as (_ & St & stale & _ & E). pose proof (ee_kept _ _ _ _ _ _ E) as [= -> _].
    unfold static in St. injection St as _ ->. exact Hs.
  - unfold SetMaxDatagramSize. destruct (size <=? 0) eqn:E; [done|]. bool_to_prop.
    match goal with |- context [publishTelemetry env ?x] => set (b1 := x) end. destruct (publish_steady env b1) as [S1 P1].
    rewrite P1, (steady_size _ _ S1). change (maxDatagramSize b1) with size. change (bpacer b1) with (pacer_setMaxDatagramSize (bpacer b) size).
    unfold pacer_setMaxDatagramSize. replace (size >? 0) with true by lia. simpl. lia.
  - unfold TimeUntilSend. cbn [snd]. by destruct (_ >=? _).
  - exact Hs.
  - destruct (seedBandwidth_steady env b r rt) as [S1 P1]. rewrite P1, (steady_size _ _ S1). exact Hs.
Qed.

Lemma start_sized env size c : size <= InitialPacketSize -> sized (bbr_start env size c).
Proof.
  intros Hs. unfold sized, bbr_start, NewTUICBBRSender. match goal with |- context [publishTelemetry env ?x] => set (b1 := x) end.
  destruct (publish_steady env b1) as [S1 P1]. change (bpacer _) with (bpacer (publishTelemetry env b1)).
  change (maxDatagramSize _) with (maxDatagramSize (publishTelemetry env b1)). rewrite P1, (steady_size _ _ S1).
  change (maxDatagramSize b1) with (if size <? MinInitialPacketSize then InitialPacketSize else size).
  change (p_maxDatagramSize (bpacer b1)) with InitialPacketSize. destruct (_ <? _); lia.
Qed.

Lemma run_sized c calls : forall b, calls_ok calls -> run_inv c b -> sized b -> sized (bbr_run b calls).
Proof.
  induction calls as [|call calls IH]; intros b Hc Hinv Hs; [done|]. apply Forall_cons in Hc as [H1 H2]. simpl.
  apply IH; [done|by apply do_inv|]. apply do_sized; [done|apply Hinv|done].
Qed.

(** The wait is bounded: at the least rate a datagram of 64 KiB takes a second. *)
Lemma wait_bounded bps p : pacer_fine p -> tuicDefaultMinRate <= bps <= tuicMaxRate -> p_maxDatagramSize p <= 65536 ->
  timeUntilSend MinPacingDelay bps p <= lastSentTime p + Z.max MinPacingDelay second.
Proof.
  intros (Hm & Hd & Hl & Hb) Hbps Hsmall. unfold timeUntilSend, tuicDefaultMinRate, tuicMaxRate in *.
  destruct (_ >=? _) eqn:E; bool_to_prop; [unfold second; lia|].
  rewrite (wrap_small 64 bps) by (pow2_eval; lia). replace (bps =? 0) with false by lia.
  rewrite (wrap_small 64 (_ - _)) by (pow2_eval; lia). set (need := p_maxDatagramSize p - budgetAtLastSent p) in *.
  rewrite (wrap_small 64 (second * need)) by (unfold second; pow2_eval; lia).
  assert (second * need / bps <= second /\ (second * need / bps = second -> (second * need) mod bps = 0)) as [Hq He].
  { pose proof (Z.div_mod (second * need) bps ltac:(lia)). pose proof (Z.mod_pos_bound (second * need) bps ltac:(lia)).
    assert (second * need <= second * bps) by (apply Z.mul_le_mono_nonneg_l; unfold second; lia).
    split; [apply Z.div_le_upper_bound; lia|]. intros Hq. rewrite Hq in *. lia. }
  assert (0 <= second * need / bps) by (apply Z.div_pos; unfold second; lia).
  set (d := if negb (_ =? 0) then _ else _). assert (0 <= d <= second).
  { unfold d. destruct ((second * need) mod bps =? 0) eqn:E0; cbn [negb]; bool_to_prop; [lia|].
    assert (second * need / bps <> second) by auto. rewrite wrap_small by (unfold second in *; pow2_eval; lia). lia. }
  clearbody d. rewrite (i64_small d) by (unfold second in *; pow2_eval; lia). unfold maxDuration.
  rewrite i64_small by (unfold second in *; destruct (_ >? _); pow2_eval; lia). destruct (_ >? _) eqn:E2; bool_to_prop; lia.
Qed.

(** A sender is never stopped for good.  With less than four packets in flight the
    window is open; the pacer's wake-up time is at most a second, or the library's delay,
    after the last packet when a datagram is at most 64 KiB; and from the wake-up on there
    is budget for a packet, so a sender that sleeps as told may send when it wakes. *)
Theorem bbr_never_stalls env size lossCounts calls env' :
  size <= InitialPacketSize -> calls_ok calls ->
  let b := bbr_run (bbr_start env size lossCounts) calls in
  let wake := fst (TimeUntilSend MinPacingDelay env' b) in
  (forall inFlight, inFlight < 4 * maxDatagramSize b -> CanSend b inFlight = true) /\
  (p_maxDatagramSize (bpacer b) <= 65536 -> wake <= lastSentTime (bpacer b) + Z.max MinPacingDelay second) /\
  (forall now, wake <= now -> lastSentTime (bpacer b) <= now < lastSentTime (bpacer b) + 2 ^ 30 ->
     fst (HasPacingBudget env' b now) = true).
Proof.
  intros Hs Hc b wake. assert (size < 2 ^ 26) as Hs' by lia.
  pose proof (run_inv_from env size lossCounts calls Hs' Hc) as Hinv. fold b in Hinv. destruct Hinv as [Hok _ Hp _].
  pose proof (run_sized lossCounts calls _ Hc (start_inv env size lossCounts Hs') (start_sized env size lossCounts Hs)) as Hsz. fold b in Hsz.
  pose proof (bandwidth_range env' b) as Hb. set (bps := bandwidth env' b) in *.
  split_and!; [|by apply wait_bounded|].
  - intros fl Hfl. unfold CanSend. pose proof (GetCongestionWindow_range _ Hpackets b Hok) as [G1 _]. pose proof (ok_min _ b Hok). lia.
  - intros now Hw Hn. unfold HasPacingBudget. cbn [fst]. fold bps. unfold wake, TimeUntilSend in Hw. cbn [fst] in Hw. fold bps in Hw.
    pose proof (maxBurst_range bps _ Hp Hb) as Hmb. unfold sized in Hsz. pose proof Hp as (Hm & Hd & Hl & Hbud).
    enough (p_maxDatagramSize (bpacer b) <= budget bps None (bpacer b) now) by lia.
    unfold tuicDefaultMinRate, tuicMaxRate in Hb. destruct (decide (lastSentTime (bpacer b) = 0)) as [Hz|Hz].
    { unfold budget. replace (bps <=? 0) with false by lia. rewrite Hz, Z.eqb_refl. lia. }
    assert (pacer_ok (bpacer b)) as Hpk by (unfold pacer_ok; pow2_eval; lia).
    assert (bps * (now - lastSentTime (bpacer b)) < 2 ^ 61).
    { apply (Z.le_lt_trans _ (2 ^ 31 * (2 ^ 30 - 1))); [apply Z.mul_le_mono_nonneg|]; pow2_eval; lia. }
    destruct (Z.leb_spec (p_maxDatagramSize (bpacer b)) (budgetAtLastSent (bpacer b))).
    + rewrite budget_spec by (try done; lia). apply Z.min_glb; [lia|].
      assert (0 <= bps * (now - lastSentTime (bpacer b)) / Pacing.second) by (apply Z.div_pos; unfold Pacing.second; nia). lia.
    + apply (pacer_wait_sufficient MinPacingDelay); try done; pow2_eval; lia.
Qed.

End Runs.

(** ** Witnesses *)

Definition sample_env (now : Z) : environment := mkEnvironment 50000000 60000000 now.

(** Two packets, an acknowledgement, and ten seconds later another: the smallest round
    trip has expired. *)
Definition sample_calls : list (environment * bbr_op) :=
  [(sample_env second, Provider true);
   (sample_env second, Sent second 1200 0 1200 true);
   (sample_env second, Sent second 2400 1 1200 true);
   (sample_env (2 * second), Event 100000 (2 * second) [mkAcked 0 1200 0] []);
   (sample_env (2 * second), Sent (2 * second) 100000 2 1200 true);
   (sample_env (13 * second), Event 100000 (13 * second) [mkAcked 1 1200 0] [])].

Definition sample_between : list (environment * bbr_op) :=
  [(sample_env (14 * second + 1), Sent (14 * second + 1) 3600 3 1200 true)].

Definition sample_start : TUICBBRSender := bbr_start 1200 1280 10000 1000000 (sample_env second) 1200 true.
Definition sample_run (calls : list (environment * bbr_op)) : TUICBBRSender := bbr_run 10000 1000000 sample_start calls.

Lemma sample_calls_ok : calls_ok sample_calls.
Proof. repeat constructor; unfold second; pow2_eval; lia. Qed.

Lemma sample_limits : 0 < 1200 /\ 0 < 1280 < 2 ^ 26 /\ tuicInitialPackets <= 10000 < 2 ^ 26 /\ 0 < 1000000 < 2 ^ 30.
Proof. unfold tuicInitialPackets. pow2_eval. lia. Qed.

Lemma bbr_windows_bounded_witness : mode (sample_run sample_calls) = tuicBbrProbeRTT /\
  minCwnd (sample_run sample_calls) <= GetCongestionWindow (sample_run sample_calls) <= maxCwnd (sample_run sample_calls).
Proof.
  split; [by vm_compute|]. destruct sample_limits as (L1 & L2 & L3 & L4).
  destruct (bbr_windows_bounded 1200 1280 10000 1000000 L1 L2 L3 L4 (sample_env second) 1200 true sample_calls (sample_env second, AskTime))
    as (_ & _ & W & _); [pow2_eval; lia|exact sample_calls_ok|exact I|]. exact W.
Defined.

Lemma bbr_follows_machine_witness : phase (sample_run (take 5 sample_calls)) = (tuicBbrStartup, false) /\
  rtc phase_step (phase (sample_run (take 5 sample_calls)))
    (phase (bbr_do 10000 1000000 (sample_run (take 5 sample_calls)) (sample_env (13 * second), Event 100000 (13 * second) [mkAcked 1 1200 0] []))).
Proof.
  split; [by vm_compute|]. destruct sample_limits as (L1 & L2 & L3 & L4).
  destruct (bbr_follows_machine 1200 1280 10000 1000000 L1 L2 L3 L4 (sample_env second) 1200 true (take 5 sample_calls)
    (sample_env (13 * second)) (Event 100000 (13 * second) [mkAcked 1 1200 0] [])) as (W & _);
    [pow2_eval; lia|repeat constructor; unfold second; pow2_eval; lia|simpl; pow2_eval; lia|exact W].
Defined.

Lemma probe_rtt_ends_witness : mode (sample_run sample_calls) = tuicBbrProbeRTT /\
  exists k, (k <= 3)%nat /\ mode (bbr_run 10000 1000000 (sample_run sample_calls)
    (take k ((sample_env (14 * second), Event 3600 (14 * second) [mkAcked 2 1200 0] []) :: sample_between ++
             [(sample_env (15 * second), Event 3600 (15 * second) [mkAcked 3 1200 0] [])]))) <> tuicBbrProbeRTT.
Proof.
  split; [by vm_compute|]. destruct sample_limits as (L1 & L2 & L3 & L4).
  refine (probe_rtt_ends 1200 1280 10000 1000000 L1 L2 L3 L4 (sample_env second) 1200 true sample_calls (sample_env (14 * second)) 3600
    (14 * second) [mkAcked 2 1200 0] [] sample_between (sample_env (15 * second)) 3600 (15 * second) [mkAcked 3 1200 0] [] _ _ _ _ _ _ _ _ _ _);
    [pow2_eval; lia|apply sample_calls_ok|pow2_eval; lia|repeat constructor; unfold second; pow2_eval; lia|pow2_eval; lia
    |by vm_compute..].
Defined.

Lemma bbr_never_stalls_witness : CanSend (sample_run sample_calls) 0 = true /\
  fst (HasPacingBudget (sample_env 0) (sample_run sample_calls) (3 * second)) = true.
Proof.
  destruct sample_limits as (L1 & L2 & L3 & L4).
  destruct (bbr_never_stalls 1200 1280 10000 1000000 L1 L2 L3 L4 (sample_env second) 1200 true sample_calls (sample_env 0)) as (W1 & _ & W3);
    [lia|apply sample_calls_ok|]. split; [apply W1; by vm_compute|].
  apply W3; [by vm_compute|split; by vm_compute].
Defined.
