(* ===== verification/LossModel.v ===== *)
(** What a lost packet means ([internal/lossmodel/lossmodel.go]): the estimator that
    infers losses from the sequence numbers that arrive, and the offline analysis.

    Sequence numbers and the counters of packets are [uint64], the statistics binary64
    ([GoFloat]).  The array of the last [ringSize] arrivals is a list of booleans.  A
    loop of [decide] is given one step of fuel for each number it may retire, which
    [Observe] bounds before it enters the loop. *)

From S2P Require Import Prelude GoFloat.
From coqutil Require Import Datatypes.RecordSetters.
Import DoubleBraceUpdate.

Definition DefaultRoundSamples : Z := 2000.
Definition DefaultRounds : Z := 8.
Definition DefaultReorderTolerance : Z := 8.
Definition decay : float64 := float_quot 75 100.
Definition ringSize : Z := 1024.
Definition maxDecidedPerArrival : Z := 8 * ringSize.
Definition minMemorylessSamples : float64 := float_of 200.

Definition zero : float64 := float_of 0.
Definition one : float64 := float_of 1.

Record Config := mkConfig { RoundSamples : Z; Rounds : Z; ReorderTolerance : Z }.

Definition withDefaults (c : Config) : Config :=
  let tolerance := if ReorderTolerance c <=? 0 then DefaultReorderTolerance else ReorderTolerance c in
  mkConfig (if RoundSamples c <=? 0 then DefaultRoundSamples else RoundSamples c)
    (if Rounds c <=? 0 then DefaultRounds else Rounds c)
    (if tolerance >=? ringSize then ringSize - 1 else tolerance).

(** What [record] keeps of the fates of packets. *)
Record statistics := mkStatistics {
  samples : float64; losses : float64; fromArrival : float64; lossAfterArrival : float64; fromLoss : float64; arrivalAfterLoss : float64;
  prevLost : bool; havePrev : bool;
  roundSamples : Z; roundLosses : Z; rounds : list float64; roundAt : Z;
  decided : Z
}.

Record Estimator := mkEstimator {
  cfg : Config;
  arrived : list bool; next : Z; highest : Z; started : bool; discontinuities : Z;
  stats : statistics;
  reordered : Z
}.

Definition no_statistics : statistics := mkStatistics zero zero zero zero zero zero false false 0 0 [] 0 0.

Definition New (c : Config) : Estimator :=
  mkEstimator (withDefaults c) (replicate (Z.to_nat ringSize) false) 0 0 false 0 no_statistics 0.

(** ** The fate of one packet *)

Definition closeRound (c : Config) (s : statistics) : statistics :=
  let loss := fdiv (float_of (roundLosses s)) (float_of (roundSamples s)) in
  let full := negb (len (rounds s) <? Rounds c) in
  s {{ rounds := if full then <[Z.to_nat (roundAt s) := loss]> (rounds s) else rounds s ++ [loss];
       roundAt := if full then (roundAt s + 1) mod Rounds c else roundAt s;
       roundSamples := 0; roundLosses := 0;
       samples := fmul (samples s) decay; losses := fmul (losses s) decay;
       fromArrival := fmul (fromArrival s) decay; lossAfterArrival := fmul (lossAfterArrival s) decay;
       fromLoss := fmul (fromLoss s) decay; arrivalAfterLoss := fmul (arrivalAfterLoss s) decay }}.

(** A counter that grows when [b] holds. *)
Definition bump (b : bool) (x : float64) : float64 := if b then fadd x one else x.

Definition record (c : Config) (s : statistics) (ok : bool) : statistics :=
  let s := s {{ decided := decided s +u64 1;
                samples := bump true (samples s); losses := bump (negb ok) (losses s);
                fromLoss := bump (havePrev s && prevLost s) (fromLoss s);
                arrivalAfterLoss := bump (havePrev s && prevLost s && ok) (arrivalAfterLoss s);
                fromArrival := bump (havePrev s && negb (prevLost s)) (fromArrival s);
                lossAfterArrival := bump (havePrev s && negb (prevLost s) && negb ok) (lossAfterArrival s);
                prevLost := negb ok; havePrev := true;
                roundSamples := roundSamples s + 1;
                roundLosses := if ok then roundLosses s else roundLosses s + 1 }} in
  if roundSamples s >=? RoundSamples c then closeRound c s else s.

Definition ObserveOutcome (e : Estimator) (ok : bool) : Estimator := e {{ stats := record (cfg e) (stats e) ok }}.

(** ** Arrivals *)

Definition slot (seq : Z) : nat := Z.to_nat (seq mod ringSize).

Definition decide_ (e : Estimator) : Estimator :=
  let ok := default false (arrived e !! slot (next e)) in
  e {{ arrived := <[slot (next e) := false]> (arrived e); next := next e +u64 1; stats := record (cfg e) (stats e) ok }}.

Definition restart (e : Estimator) (seq : Z) : Estimator :=
  e {{ arrived := replicate (Z.to_nat ringSize) false; next := seq; highest := seq;
       stats := (stats e) {{ havePrev := false }}; discontinuities := discontinuities e +u64 1 }}.

(** [for e.highest-e.next >= bound { e.decide() }]. *)
Fixpoint decide_while (fuel : nat) (bound : Z) (e : Estimator) : Estimator :=
  match fuel with
  | O => e
  | S fuel => if highest e -u64 next e >=? bound then decide_while fuel bound (decide_ e) else e
  end.

(** A number an arrival retires costs one step. *)
Definition decide_fuel : nat := Z.to_nat (maxDecidedPerArrival + 1).

Definition mark (e : Estimator) (seq : Z) : Estimator := e {{ arrived := <[slot seq := true]> (arrived e) }}.

Definition Observe (e : Estimator) (seq : Z) : Estimator :=
  if negb (started e) then mark (e {{ started := true; next := seq; highest := seq }}) seq
  else if (seq <? next e) && ((decided (stats e) >? 0) || (highest e -u64 seq >=? ringSize)) then
    e {{ reordered := reordered e +u64 1 }}
  else
    let e := if seq <? next e then e {{ next := seq }} else e in
    let e := if seq >? highest e then e {{ highest := seq }} else e in
    let e := if highest e -u64 next e >? maxDecidedPerArrival then restart e seq else e in
    let e := decide_while decide_fuel ringSize e in
    decide_while decide_fuel (wrap 64 (ReorderTolerance (cfg e))) (mark e seq).

Definition Discontinuities (e : Estimator) : Z := discontinuities e.

(** ** The snapshot *)

Definition probability (v : float64) : float64 :=
  if negb (fltb zero v) then zero else if fltb one v then one else v.

Record Snapshot := mkSnapshot {
  sn_Samples : float64; sn_Loss : float64; sn_LossAfterArrival : float64; sn_ArrivalAfterLoss : float64;
  sn_MeanBurst : float64; sn_BurstFactor : float64; sn_Memoryless : bool;
  sn_Floor : float64; sn_Congestive : float64; sn_Recent : float64;
  sn_Reordered : Z; sn_Decided : Z
}.

Definition memoryless (s : statistics) (loss after : float64) : bool :=
  if fltb (fromArrival s) minMemorylessSamples || fleb loss zero || fleb one loss then false
  else
    let stderr := fsqrt (fdiv (fmul loss (fsub one loss)) (fromArrival s)) in
    if fleb stderr zero then false else fltb (fdiv (fabs (fsub after loss)) stderr) (float_of 3).

Definition fmin (a b : float64) : float64 := if fltb b a then b else a.

(** The minimum and the most recent of the per-round loss rates. *)
Definition floor (c : Config) (s : statistics) : float64 * float64 :=
  let partial := fdiv (float_of (roundLosses s)) (float_of (roundSamples s)) in
  match rounds s with
  | [] => if roundSamples s =? 0 then (zero, zero) else (partial, partial)
  | first :: rest =>
      let minimum := fold_left fmin rest first in
      let recent := default first
        (if len (rounds s) =? Rounds c then rounds s !! Z.to_nat ((roundAt s + Rounds c - 1) mod Rounds c) else last (rounds s)) in
      if roundSamples s * 4 >=? RoundSamples c then (fmin minimum partial, partial) else (minimum, recent)
  end.

(** The rates of the statistics: the loss, and the two transitions. *)
Definition loss_rates (s : statistics) : float64 * float64 * float64 :=
  (probability (fdiv (losses s) (samples s)),
   (if fltb zero (fromArrival s) then probability (fdiv (lossAfterArrival s) (fromArrival s)) else zero),
   (if fltb zero (fromLoss s) then probability (fdiv (arrivalAfterLoss s) (fromLoss s)) else zero)).

Definition takeSnapshot (e : Estimator) : Snapshot :=
  let s := stats e in
  if fleb (samples s) zero then mkSnapshot (samples s) zero zero zero zero zero false zero zero zero (reordered e) (decided s)
  else
    let '(loss, afterArrival, afterLoss) := loss_rates s in
    let burst := if fltb zero (fromLoss s) && fltb zero afterLoss then fdiv one afterLoss else zero in
    let factor := if fltb zero burst then fmul burst (fsub one loss) else zero in
    let factor := if fltb factor one then one else factor in
    let '(minimum, recent) := floor (cfg e) s in
    let minimum := probability minimum in
    let recent := probability recent in
    mkSnapshot (samples s) loss afterArrival afterLoss burst factor (memoryless s loss afterArrival)
      minimum (if fltb minimum recent then fsub recent minimum else zero) recent (reordered e) (decided s).

(** ** The analysis of a finished run *)

Record Pattern := mkPattern {
  pt_Total : Z; pt_Lost : Z; pt_Loss : float64; pt_LossAfterArrival : float64; pt_ArrivalAfterLoss : float64;
  pt_MeanBurst : float64; pt_BurstFactor : float64; pt_LongestBurst : Z; pt_Bursts : gmap Z Z }.

(** The counts of the loop, with the fate of the packet before. *)
Record tally := mkTally {
  tl_lost : Z; tl_run : Z; tl_longest : Z; tl_bursts : gmap Z Z;
  tl_fromArrival : Z; tl_lossAfterArrival : Z; tl_fromLoss : Z; tl_arrivalAfterLoss : Z; tl_prev : option bool }.

Definition close_burst (t : tally) : tally :=
  if tl_run t >? 0 then
    t {{ tl_bursts := <[tl_run t := default 0 (tl_bursts t !! tl_run t) + 1]> (tl_bursts t);
         tl_longest := if tl_run t >? tl_longest t then tl_run t else tl_longest t }}
  else t.

Definition tally_one (t : tally) (ok : bool) : tally :=
  let t := if ok then (close_burst t) {{ tl_run := 0 }} else t {{ tl_lost := tl_lost t + 1; tl_run := tl_run t + 1 }} in
  let t :=
    match tl_prev t with
    | None => t
    | Some false => t {{ tl_fromLoss := tl_fromLoss t + 1; tl_arrivalAfterLoss := if ok then tl_arrivalAfterLoss t + 1 else tl_arrivalAfterLoss t }}
    | Some true => t {{ tl_fromArrival := tl_fromArrival t + 1; tl_lossAfterArrival := if ok then tl_lossAfterArrival t else tl_lossAfterArrival t + 1 }}
    end in
  t {{ tl_prev := Some ok }}.

Definition no_tally : tally := mkTally 0 0 0 ∅ 0 0 0 0 None.
Definition tally_all (fates : list bool) : tally := fold_left tally_one fates no_tally.

Definition rate_of (n d : Z) : float64 := if d >? 0 then fdiv (float_of n) (float_of d) else zero.

Definition Analyze (fates : list bool) : Pattern :=
  let t := close_burst (tally_all fates) in
  let loss := rate_of (tl_lost t) (len fates) in
  let afterLoss := rate_of (tl_arrivalAfterLoss t) (tl_fromLoss t) in
  let burst := if tl_fromLoss t >? 0 then fdiv one afterLoss else zero in
  let factor := if tl_fromLoss t >? 0 then fmul burst (fsub one loss) else zero in
  mkPattern (len fates) (tl_lost t) loss (rate_of (tl_lossAfterArrival t) (tl_fromArrival t)) afterLoss burst
    (if fltb factor one then one else factor) (tl_longest t) (tl_bursts t).

Example analysed : let p := Analyze [true; false; false; true; false; true] in
  pt_Lost p = 3 /\ pt_LongestBurst p = 2 /\ pt_Bursts p !! 2 = Some 1 /\ feqb (pt_Loss p) (float_quot 1 2) = true.
Proof. by vm_compute. Qed.
Example inferred : let e := fold_left Observe [7; 8; 10; 11; 9; 13; 14; 15; 16; 17; 18; 19; 20; 21] (New (mkConfig 0 0 0)) in
  decided (stats e) = 7 /\ next e = 14 /\ losses (stats e) = one /\ reordered e = 0.
Proof. by vm_compute. Qed.

(** ** The ring holds what arrived *)

(** The array, as the set of sequence numbers seen. *)
Record ring_ok (e : Estimator) (seen : gset Z) : Prop := mk_ring_ok {
  rk_len : length (arrived e) = Z.to_nat ringSize;
  rk_order : 0 <= next e <= highest e;
  rk_width : highest e < 2 ^ 64;
  rk_slots : forall s, next e <= s < next e + ringSize -> arrived e !! slot s = Some (bool_decide (s ∈ seen));
  rk_seen : forall s, s ∈ seen -> s <= highest e /\ s < next e + ringSize
}.

Lemma slot_bound s : (slot s < Z.to_nat ringSize)%nat.
Proof. unfold slot. pose proof (Z.mod_pos_bound s ringSize ltac:(unfold ringSize; lia)). lia. Qed.

Lemma slot_shift s : slot (s + ringSize) = slot s.
Proof. unfold slot. f_equal. rewrite <- (Z.mul_1_l ringSize) at 1. by rewrite Z_mod_plus_full. Qed.

Lemma slot_inj n s t : n <= s < n + ringSize -> n <= t < n + ringSize -> slot s = slot t -> s = t.
Proof.
  intros Hs Ht He. unfold slot in He.
  pose proof (Z.mod_pos_bound s ringSize ltac:(unfold ringSize; lia)). pose proof (Z.mod_pos_bound t ringSize ltac:(unfold ringSize; lia)).
  assert (s mod ringSize = t mod ringSize) as Hm by lia.
  pose proof (Z.div_mod s ringSize ltac:(unfold ringSize; lia)). pose proof (Z.div_mod t ringSize ltac:(unfold ringSize; lia)).
  unfold ringSize in *. nia.
Qed.

(** Retiring one number. *)
Lemma decide_ok e seen : ring_ok e seen -> next e < highest e ->
  ring_ok (decide_ e) seen /\ next (decide_ e) = next e + 1 /\ highest (decide_ e) = highest e /\
  stats (decide_ e) = record (cfg e) (stats e) (bool_decide (next e ∈ seen)).
Proof.
  intros [Hl Ho Hw Hs Hi] Hlt. pose proof (slot_bound (next e)) as Hb.
  assert (next e +u64 1 = next e + 1) as Hn by (apply wrap_small; lia).
  assert (arrived e !! slot (next e) = Some (bool_decide (next e ∈ seen))) as Hcur by (apply Hs; unfold ringSize; lia).
  split_and!; [|exact Hn|done|unfold decide_; by rewrite Hcur].
  constructor; change (next (decide_ e)) with (next e +u64 1); rewrite ?Hn; change (highest (decide_ e)) with (highest e);
    change (arrived (decide_ e)) with (<[slot (next e) := false]> (arrived e)); [by rewrite length_insert|lia|done| |].
  - intros s Hrange. destruct (decide (s = next e + ringSize)) as [->|Hne].
    + rewrite slot_shift, list_lookup_insert_eq by lia. f_equal. rewrite bool_decide_false; [done|]. intros Hin%Hi. lia.
    + rewrite list_lookup_insert_ne; [apply Hs; lia|]. intros Heq. apply (slot_inj (next e)) in Heq; unfold ringSize in *; lia.
  - intros s Hin%Hi. lia.
Qed.

(** The loop: the numbers more than the bound behind are retired, in order. *)
Lemma decide_while_ok bound seen : 1 <= bound -> forall fuel e, ring_ok e seen -> (Z.to_nat (highest e - next e) < fuel)%nat ->
  let e' := decide_while fuel bound e in
  let k := Z.max 0 (highest e - next e - bound + 1) in
  ring_ok e' seen /\ next e' = next e + k /\
  stats e' = fold_left (record (cfg e)) (map (fun s => bool_decide (s ∈ seen)) (seqZ (next e) k)) (stats e) /\
  (cfg e', highest e', started e', discontinuities e', reordered e') = (cfg e, highest e, started e, discontinuities e, reordered e).
Proof.
  intros Hb. induction fuel as [|fuel IH]; intros e Hok Hf; [lia|]. pose proof (rk_order _ _ Hok) as Ho. pose proof (rk_width _ _ Hok) as Hw.
  simpl. rewrite (wrap_small 64) by (pow2_eval; lia). destruct (_ >=? bound) eqn:E; bool_to_prop.
  - destruct (decide_ok e seen Hok ltac:(lia)) as (Hok1 & Hn1 & Hh1 & Hs1).
    destruct (IH (decide_ e) Hok1 ltac:(lia)) as (Hok2 & Hn2 & Hs2 & Hk2). rewrite Hn1, Hh1 in Hn2, Hs2.
    replace (Z.max 0 (highest e - next e - bound + 1)) with (Z.succ (Z.max 0 (highest e - (next e + 1) - bound + 1))) by lia.
    split_and!; [done|lia| |rewrite Hk2; by change (cfg (decide_ e)) with (cfg e)].
    rewrite seqZ_cons by lia. simpl. rewrite Hs2, Hs1. rewrite Z.pred_succ. by rewrite Z.add_1_r.
  - rewrite Z.max_l by lia. split_and!; [done|lia|done|done].
Qed.

Lemma mark_ok e seen seq : ring_ok e seen -> next e <= seq <= highest e -> highest e < next e + ringSize ->
  ring_ok (mark e seq) ({[seq]} ∪ seen).
Proof.
  intros [Hl Ho Hw Hs Hi] Hseq Hh. constructor; change (arrived (mark e seq)) with (<[slot seq := true]> (arrived e));
    change (next (mark e seq)) with (next e); change (highest (mark e seq)) with (highest e); [by rewrite length_insert|done|done| |].
  - intros s Hrange. destruct (decide (s = seq)) as [->|Hne].
    + rewrite list_lookup_insert_eq by (rewrite Hl; apply slot_bound). by rewrite bool_decide_true by set_solver.
    + rewrite list_lookup_insert_ne by (intros Heq; apply (slot_inj (next e)) in Heq; lia). rewrite Hs by done. f_equal.
      apply bool_decide_ext. set_solver.
  - intros s [->%elem_of_singleton|Hin%Hi]%elem_of_union; lia.
Qed.

(** Before anything is decided the base may still move down. *)
Lemma lower_ok e seen seq : ring_ok e seen -> (forall s, s ∈ seen -> next e <= s) -> 0 <= seq < next e -> highest e - seq < ringSize ->
  ring_ok (e {{ next := seq }}) seen.
Proof.
  intros [Hl Ho Hw Hs Hi] Hbase Hseq Hh. constructor; change (arrived (e {{ next := seq }})) with (arrived e);
    change (next (e {{ next := seq }})) with seq; change (highest (e {{ next := seq }})) with (highest e); [done|lia|done| |].
  - intros s Hrange. destruct (Z.leb_spec (next e) s); [apply Hs; lia|].
    rewrite <- slot_shift. rewrite Hs by lia. f_equal. apply bool_decide_ext. split; [intros Hin%Hi; lia|intros Hin%Hbase; lia].
  - intros s Hin%Hi. lia.
Qed.

(** ** Every number is decided once, by whether it arrived *)

(** The decisions of a run so far: [log] from [base] on, out of what was [seen]. *)
Record fates_ok (c : Config) (seqs : list Z) (e : Estimator) (base : Z) (log : list (Z * bool)) (seen : gset Z) : Prop := mk_fates_ok {
  fo_cfg : cfg e = withDefaults c;
  fo_started : started e = true;
  fo_ring : ring_ok e seen;
  fo_base : 0 <= base;
  fo_next : next e = base + len log;
  fo_order : map fst log = seqZ base (len log);
  fo_stats : stats e = fold_left (record (cfg e)) (map snd log) no_statistics;
  fo_decided : decided (stats e) = len log;
  fo_seen : forall s, s ∈ seen -> base <= s /\ s ∈ seqs;
  fo_fate : forall s f, (s, f) ∈ log -> (f = true <-> s ∈ seen);
  fo_late : reordered e <= len seqs /\ (reordered e = 0 -> forall s, s ∈ seqs -> s ∈ seen);
  fo_highest : forall s, s ∈ seqs -> s <= highest e;
  fo_recent : highest e - next e < ReorderTolerance (withDefaults c)
}.

Lemma tolerance_range c : 1 <= ReorderTolerance (withDefaults c) < ringSize.
Proof.
  unfold withDefaults, DefaultReorderTolerance, ringSize. simpl.
  destruct (_ <=? 0) eqn:E; bool_to_prop; destruct (_ >=? 1024) eqn:E2; bool_to_prop; lia.
Qed.

Lemma record_decided c s ok : decided (record c s ok) = decided s +u64 1.
Proof. unfold record. by destruct (_ >=? _). Qed.

Lemma fold_record_decided c l : forall s, 0 <= decided s -> decided s + len l < 2 ^ 64 ->
  decided (fold_left (record c) l s) = decided s + len l.
Proof.
  induction l as [|b l IH]; intros s H0 Hl; simpl in *; [unfold len in *; simpl in *; lia|].
  rewrite len_cons in Hl. pose proof (len_nonneg l). assert (decided (record c s b) = decided s + 1) as Hd.
  { rewrite record_decided. apply wrap_small. lia. }
  rewrite IH by lia. rewrite Hd, len_cons. lia.
Qed.

(** The loops of an arrival add to the log. *)
Lemma fates_decide (e : Estimator) base log seen bound fuel e0 : 1 <= bound -> (Z.to_nat (highest e0 - next e0) < fuel)%nat ->
  ring_ok e0 seen -> cfg e0 = cfg e -> stats e0 = stats e -> next e0 = base + len log -> 0 <= base ->
  stats e = fold_left (record (cfg e)) (map snd log) no_statistics -> map fst log = seqZ base (len log) ->
  (forall s f, (s, f) ∈ log -> (f = true <-> s ∈ seen)) -> decided (stats e) = len log ->
  let e' := decide_while fuel bound e0 in
  exists log', next e' = base + len log' /\ map fst log' = seqZ base (len log') /\
    stats e' = fold_left (record (cfg e)) (map snd log') no_statistics /\ decided (stats e') = len log' /\
    (forall s f, (s, f) ∈ log' -> (f = true <-> s ∈ seen)) /\ ring_ok e' seen /\
    highest e0 - next e' < bound /\ next e' = next e0 + Z.max 0 (highest e0 - next e0 - bound + 1) /\
    (cfg e', highest e', started e', discontinuities e', reordered e') = (cfg e0, highest e0, started e0, discontinuities e0, reordered e0).
Proof.
  intros Hb Hf Hring Hc Hs Hn Hbase Hst Hord Hfate Hdec e'.
  destruct (decide_while_ok bound seen Hb fuel e0 Hring Hf) as (Hring' & Hn' & Hs' & Hk). fold e' in Hring', Hn', Hs', Hk.
  set (k := Z.max 0 _) in *. assert (0 <= k) as Hk0 by (unfold k; lia).
  pose proof (rk_order _ _ Hring') as Ho'. pose proof (rk_width _ _ Hring') as Hw'.
  exists (log ++ map (fun s => (s, bool_decide (s ∈ seen))) (seqZ (next e0) k)).
  assert (len (log ++ map (fun s => (s, bool_decide (s ∈ seen))) (seqZ (next e0) k)) = len log + k) as Hlen.
  { rewrite len_app. unfold len at 2. rewrite length_map, length_seqZ. lia. }
  assert (stats e' = fold_left (record (cfg e)) (map snd (log ++ map (fun s => (s, bool_decide (s ∈ seen))) (seqZ (next e0) k))) no_statistics) as Hst'.
  { rewrite map_app, fold_left_app, <- Hst, Hs', Hc, Hs, map_map. done. }
  rewrite Hlen. split_and!; try done.
  - lia.
  - rewrite map_app, map_map, Hord. simpl. rewrite map_id, Hn. rewrite seqZ_app by (try apply len_nonneg; lia). done.
  - rewrite Hs', Hc, Hs. rewrite fold_record_decided.
    + rewrite Hdec. unfold len at 2. rewrite length_map, length_seqZ. lia.
    + rewrite Hdec. apply len_nonneg.
    + rewrite Hdec. unfold len at 2. rewrite length_map, length_seqZ. pose proof (rk_order _ _ Hring). lia.
  - intros s f [Hin|Hin]%elem_of_app; [by apply Hfate|]. apply list_elem_of_fmap in Hin as (x & [= -> ->] & _).
    by rewrite bool_decide_eq_true.
  - unfold k in Hn'. lia.
Qed.

Lemma log_before base (log : list (Z * bool)) s f : map fst log = seqZ base (len log) -> (s, f) ∈ log -> base <= s < base + len log.
Proof.
  intros Hord Hin. assert (s ∈ map fst log) as Hs by (apply list_elem_of_fmap; by exists (s, f)).
  rewrite Hord in Hs. apply elem_of_seqZ in Hs. lia.
Qed.

(** An arrival that is not too late: the base may move down, the top up. *)
Lemma observe_window c seqs e base log seen seq : 0 <= seq < 2 ^ 64 -> fates_ok c seqs e base log seen ->
  (seq <? next e) && ((decided (stats e) >? 0) || (highest e -u64 seq >=? ringSize)) = false ->
  let e1 := if seq <? next e then e {{ next := seq }} else e in
  let e2 := if seq >? highest e1 then e1 {{ highest := seq }} else e1 in
  let base' := if seq <? next e then seq else base in
  ring_ok e2 seen /\ next e2 = base' + len log /\ map fst log = seqZ base' (len log) /\ 0 <= base' /\
  next e2 <= seq <= highest e2 /\ highest e <= highest e2 /\ (seq = highest e2 \/ highest e2 - next e2 < ringSize) /\
  (forall s, s ∈ seen -> base' <= s) /\
  (cfg e2, stats e2, started e2, discontinuities e2, reordered e2) = (cfg e, stats e, started e, discontinuities e, reordered e).
Proof.
  intros Hseq [Hc Hst Hring Hb Hn Hord Hs Hd Hseen Hfate Hlate Hhi Hrec] Hnot e1 e2 base'.
  pose proof (rk_order _ _ Hring) as Ho. pose proof (rk_width _ _ Hring) as Hw. pose proof (tolerance_range c) as Htol.
  assert (ring_ok e1 seen /\ next e1 = base' + len log /\ map fst log = seqZ base' (len log) /\ 0 <= base' /\ next e1 <= seq /\
    highest e1 - next e1 < ringSize /\ (forall s, s ∈ seen -> base' <= s)) as (R1 & N1 & O1 & B1 & L1 & W1 & S1).
  { unfold e1, base'. destruct (seq <? next e) eqn:E; bool_to_prop.
    - destruct Hnot as [Hx|Hx]; [done|]. bool_to_prop. rewrite (wrap_small 64) in * by (pow2_eval; lia).
      assert (log = []) as ->. { apply len_zero_nil. pose proof (len_nonneg log). lia. }
      rewrite len_nil in *. assert (ring_ok (e {{ next := seq }}) seen) by (apply lower_ok; try done; [|lia]; intros s Hin; apply Hseen in Hin; lia).
      split_and!; try done; change (next (e {{ next := seq }})) with seq; change (highest (e {{ next := seq }})) with (highest e); try lia.
      intros s Hin. apply Hseen in Hin. lia.
    - split_and!; try done; try lia. intros s Hin. by apply Hseen. }
  assert (highest e1 = highest e /\ (cfg e1, stats e1, started e1, discontinuities e1, reordered e1) =
    (cfg e, stats e, started e, discontinuities e, reordered e)) as [H1 K1] by (unfold e1; by destruct (seq <? next e)).
  pose proof (rk_order _ _ R1) as Ho1. clearbody e1 base'. unfold e2. destruct (seq >? highest e1) eqn:E; bool_to_prop.
  - assert (ring_ok (e1 {{ highest := seq }}) seen) as R2.
    { destruct R1 as [Q1 Q2 Q3 Q4 Q5]. constructor; change (next (e1 {{ highest := seq }})) with (next e1);
        change (highest (e1 {{ highest := seq }})) with seq; try done; [lia|lia|]. intros s Hin. apply Q5 in Hin. lia. }
    split_and!; try done; change (highest (e1 {{ highest := seq }})) with seq; change (next (e1 {{ highest := seq }})) with (next e1); try lia.
  - split_and!; try done; try lia.
Qed.

Lemma decide_while_disc bound : forall fuel e, discontinuities (decide_while fuel bound e) = discontinuities e.
Proof. induction fuel as [|fuel IH]; intros e; [done|]. simpl. destruct (_ >=? bound); [|done]. by rewrite IH. Qed.

Lemma observe_ok c seqs e base log seen seq : 0 <= seq < 2 ^ 64 -> len seqs + 1 < 2 ^ 64 -> 0 <= reordered e ->
  fates_ok c seqs e base log seen -> discontinuities e = 0 -> discontinuities (Observe e seq) = 0 ->
  exists base' log' seen', fates_ok c (seqs ++ [seq]) (Observe e seq) base' log' seen' /\ 0 <= reordered (Observe e seq).
Proof.
  intros Hseq Hlen Hre0 Hok Hd0 Hd1. unfold Observe in *. rewrite (fo_started _ _ _ _ _ _ Hok) in *. cbn [negb] in *.
  destruct ((seq <? next e) && _) eqn:Hlate.
  { exists base, log, seen. destruct Hok as [Hc Hst Hring Hb Hn Hord Hs Hd Hseen Hfate [Hl1 Hl2] Hhi Hrec].
    pose proof (rk_order _ _ Hring). apply andb_true_iff in Hlate as [Hlt _]. bool_to_prop.
    assert (reordered e +u64 1 = reordered e + 1) as Hr by (apply wrap_small; lia).
    split; [|change (0 <= reordered e +u64 1); lia].
    constructor; try done.
    - by destruct Hring as [Q1 Q2 Q3 Q4 Q5].
    - intros s Hin. apply Hseen in Hin. set_solver.
    - change (reordered _) with (reordered e +u64 1). rewrite Hr, len_app. unfold len at 2. simpl. split; [lia|]. lia.
    - intros s [Hin| ->%list_elem_of_singleton]%elem_of_app; [by apply Hhi|]. change (seq <= highest e). lia. }
  destruct (observe_window c seqs e base log seen seq Hseq Hok Hlate) as (R2 & N2 & O2 & B2 & L2 & H2 & W2 & S2 & K2).
  set (e1 := if seq <? next e then _ else e) in *. set (e2 := if seq >? highest e1 then _ else e1) in *.
  set (base' := if seq <? next e then seq else base) in *. clearbody e1 e2 base'.
  destruct Hok as [Hc Hst Hring Hb Hn Hord Hs Hd Hseen Hfate [Hl1 Hl2] Hhi Hrec]. pose proof (tolerance_range c) as Htol.
  injection K2 as K2c K2s K2t K2d K2r. pose proof (rk_width _ _ R2) as Hw. pose proof (rk_order _ _ R2) as Ho.
  assert (highest e2 -u64 next e2 = highest e2 - next e2) as Hdiff by (apply wrap_small; pow2_eval; lia).
  rewrite Hdiff in Hd1 |- *. clear Hdiff. destruct (highest e2 - next e2 >? maxDecidedPerArrival) eqn:Ej.
  { exfalso. set (e3 := restart e2 seq) in *. assert (discontinuities e3 = 1) as Hr by (change (discontinuities e2 +u64 1 = 1); by rewrite K2d, Hd0).
    clearbody e3. rewrite decide_while_disc in Hd1. change (discontinuities (decide_while decide_fuel ringSize e3) = 0) in Hd1.
    rewrite decide_while_disc in Hd1. lia. }
  bool_to_prop. assert (Z.to_nat (highest e2 - next e2) < decide_fuel)%nat as Hfuel by (unfold decide_fuel, maxDecidedPerArrival in *; lia).
  destruct (fates_decide e base' log seen ringSize decide_fuel e2) as (log3 & N3 & O3 & S3 & D3 & F3 & R3 & W3 & X3 & K3);
    try done. clear Hd1. set (e3 := decide_while decide_fuel ringSize e2) in *. clearbody e3.
  injection K3 as K3c K3h K3t K3d K3r. rewrite K3c, K2c, Hc. rewrite (wrap_small 64) by (unfold ringSize in Htol; pow2_eval; lia).
  pose proof (rk_order _ _ R3) as Ho3. assert (next e3 <= seq <= highest e3) as L3 by (rewrite K3h; unfold ringSize in *; lia).
  pose proof (mark_ok e3 seen seq R3 L3 ltac:(lia)) as R4.
  assert (forall s f, (s, f) ∈ log3 -> (f = true <-> s ∈ {[seq]} ∪ seen)) as F4.
  { intros s f Hin. rewrite (F3 s f Hin). pose proof (log_before base' log3 s f O3 Hin). assert (s <> seq) by lia. set_solver. }
  assert (Z.to_nat (highest (mark e3 seq) - next (mark e3 seq)) < decide_fuel)%nat as Hfuel4.
  { change (Z.to_nat (highest e3 - next e3) < decide_fuel)%nat. lia. }
  assert (stats (mark e3 seq) = stats e3 /\ next (mark e3 seq) = next e3 /\ cfg (mark e3 seq) = cfg e3) as (M1 & M2 & M3) by done.
  destruct (fates_decide e3 base' log3 ({[seq]} ∪ seen) (ReorderTolerance (withDefaults c)) decide_fuel (mark e3 seq))
    as (log5 & N5 & O5 & S5 & D5 & F5 & R5 & W5 & X5 & K5); try done; try lia; [rewrite K3c, K2c; exact S3|].
  set (e5 := decide_while decide_fuel _ (mark e3 seq)) in *. clearbody e5.
  change ((cfg e5, highest e5, started e5, discontinuities e5, reordered e5) = (cfg e3, highest e3, started e3, discontinuities e3, reordered e3)) in K5.
  injection K5 as K5c K5h K5t K5d K5r. change (highest (mark e3 seq)) with (highest e3) in W5.
  exists base', log5, ({[seq]} ∪ seen). split; [|lia]. constructor; try done; try congruence.
  - intros s [->%elem_of_singleton|Hin]%elem_of_union; [split; [pose proof (len_nonneg log3); lia|set_solver]|].
    split; [by apply S2|apply Hseen in Hin; set_solver].
  - rewrite K5r, K3r, K2r, len_app. unfold len at 2. simpl. split; [lia|]. intros Hz s [Hin|Hin]%elem_of_app; [|set_solver]. apply elem_of_union. right. by apply Hl2.
  - intros s [Hin| ->%list_elem_of_singleton]%elem_of_app; [apply Hhi in Hin; lia|lia].
Qed.

(** ** Runs of arrivals *)

Definition observe_all (c : Config) (seqs : list Z) : Estimator := fold_left Observe seqs (New c).

Lemma observe_all_snoc c seqs seq : observe_all c (seqs ++ [seq]) = Observe (observe_all c seqs) seq.
Proof. unfold observe_all. by rewrite fold_left_app. Qed.

Definition seq_ok (seq : Z) : Prop := 0 <= seq < 2 ^ 64.

Lemma Observe_disc e seq : discontinuities (Observe e seq) = discontinuities e \/ discontinuities (Observe e seq) = discontinuities e +u64 1.
Proof.
  unfold Observe. destruct (negb _); [by left|]. destruct (_ && _); [by left|].
  set (e1 := if seq <? next e then _ else e). assert (discontinuities e1 = discontinuities e) as H1 by (unfold e1; by destruct (_ <? _)).
  set (e2 := if seq >? highest e1 then _ else e1). assert (discontinuities e2 = discontinuities e1) as H2 by (unfold e2; by destruct (_ >? _)).
  clearbody e1 e2. rewrite <- H1, <- H2. set (e3 := if _ >? maxDecidedPerArrival then _ else e2).
  assert (discontinuities e3 = discontinuities e2 \/ discontinuities e3 = discontinuities e2 +u64 1) as H3.
  { unfold e3. destruct (_ >? _); [by right|by left]. }
  clearbody e3. rewrite decide_while_disc. change (discontinuities (mark ?x seq)) with (discontinuities x). by rewrite decide_while_disc.
Qed.

Lemma observe_all_disc c seqs : len seqs < 2 ^ 64 -> 0 <= discontinuities (observe_all c seqs) <= len seqs.
Proof.
  induction seqs as [|seq seqs IH] using rev_ind; intros Hl; [unfold len; simpl; lia|].
  rewrite len_app in *. unfold len at 2 in Hl. unfold len at 2. simpl in *. rewrite observe_all_snoc.
  destruct (Observe_disc (observe_all c seqs) seq) as [->| ->]; [lia|]. rewrite wrap_small by lia. lia.
Qed.

Lemma first_ok c seq : seq_ok seq -> fates_ok c [seq] (observe_all c [seq]) seq [] {[seq]} /\ 0 <= reordered (observe_all c [seq]).
Proof.
  intros Hs. split; [|done]. unfold observe_all. simpl. set (e := (New c) {{ started := true; next := seq; highest := seq }}).
  assert (ring_ok e ∅) as R.
  { constructor; [apply (length_replicate (Z.to_nat ringSize) false)|change (0 <= seq <= seq); unfold seq_ok in Hs; lia|apply Hs| |set_solver].
    intros s _. change (arrived e) with (replicate (Z.to_nat ringSize) false). rewrite lookup_replicate_2 by apply slot_bound. done. }
  pose proof (tolerance_range c). unfold seq_ok in Hs.
  assert (ring_ok (mark e seq) ({[seq]} ∪ ∅)) as R' by (apply mark_ok; [done|change (seq <= seq <= seq); lia|change (seq < seq + ringSize); unfold ringSize; lia]).
  rewrite (right_id_L ∅ (∪)) in R'. constructor; try done.
  - lia.
  - change (seq = seq + 0). lia.
  - set_solver.
  - intros s f Hin. by apply not_elem_of_nil in Hin.
  - split; [done|]. set_solver.
  - intros s ->%list_elem_of_singleton. change (seq <= seq). lia.
  - change (seq - seq < ReorderTolerance (withDefaults c)). lia.
Qed.

Lemma observe_all_ok c seqs : Forall seq_ok seqs -> seqs <> [] -> len seqs < 2 ^ 64 -> discontinuities (observe_all c seqs) = 0 ->
  exists base log seen, fates_ok c seqs (observe_all c seqs) base log seen /\ 0 <= reordered (observe_all c seqs).
Proof.
  induction seqs as [|seq seqs IH] using rev_ind; intros Hf Hne Hl Hd; [done|]. apply Forall_app in Hf as [Hf Hs]. apply Forall_cons in Hs as [Hs _].
  rewrite len_app in Hl. unfold len at 2 in Hl. simpl in Hl. destruct (decide (seqs = [])) as [->|Hne'].
  { destruct (first_ok c seq Hs) as [H1 H2]. by exists seq, [], {[seq]}. }
  rewrite observe_all_snoc in *. pose proof (observe_all_disc c seqs ltac:(lia)) as Hb.
  assert (discontinuities (observe_all c seqs) = 0) as Hd0.
  { destruct (Observe_disc (observe_all c seqs) seq) as [Heq|Heq]; rewrite Hd in Heq; [done|]. rewrite wrap_small in Heq by lia. lia. }
  destruct (IH Hf Hne' ltac:(lia) Hd0) as (base & log & seen & Hok & Hr). by eapply (observe_ok c seqs _ base log seen seq).
Qed.


(** ** What one arrival costs *)

Definition ordered (e : Estimator) : Prop := 0 <= next e <= highest e /\ highest e < 2 ^ 64.

Lemma decide_while_order bound : 1 <= bound -> forall fuel e, ordered e -> (Z.to_nat (highest e - next e) < fuel)%nat ->
  let e' := decide_while fuel bound e in
  exists l, stats e' = fold_left (record (cfg e)) l (stats e) /\ next e' = next e + len l /\ ordered e' /\ highest e' = highest e /\
    highest e - next e' < bound /\ cfg e' = cfg e /\ started e' = started e.
Proof.
  intros Hb. induction fuel as [|fuel IH]; intros e Ho Hf; [lia|]. unfold ordered in Ho. simpl.
  rewrite (wrap_small 64) by (pow2_eval; lia). destruct (_ >=? bound) eqn:E; bool_to_prop.
  - set (ok := default false (arrived e !! slot (next e))).
    assert (next (decide_ e) = next e + 1 /\ highest (decide_ e) = highest e /\ stats (decide_ e) = record (cfg e) (stats e) ok /\
      cfg (decide_ e) = cfg e /\ started (decide_ e) = started e) as (N1 & H1 & S1 & C1 & T1).
    { split_and!; try done. change (next e +u64 1 = next e + 1). apply wrap_small. lia. }
    destruct (IH (decide_ e)) as (l & Hs & Hn & Ho' & Hh & Hr & Hc & Ht); [unfold ordered; lia|lia|].
    exists (ok :: l). rewrite Hs, S1, C1, len_cons. split_and!; try done; try congruence; lia.
  - exists []. rewrite len_nil. split_and!; try done; lia.
Qed.

(** The window between arrivals. *)
Definition window_ok (c : Config) (e : Estimator) : Prop :=
  cfg e = withDefaults c /\ (started e = true -> ordered e /\ highest e - next e < ReorderTolerance (withDefaults c)).

Lemma observe_cost c e seq : seq_ok seq -> window_ok c e ->
  window_ok c (Observe e seq) /\ exists fates s0, len fates <= maxDecidedPerArrival /\
    (s0 = stats e \/ s0 = (stats e) {{ havePrev := false }}) /\ stats (Observe e seq) = fold_left (record (withDefaults c)) fates s0.
Proof.
  intros Hs [Hc Hw]. pose proof (tolerance_range c) as Ht. unfold Observe, seq_ok in *. destruct (started e) eqn:Est; cbn [negb].
  2: { split; [|exists [], (stats e); split_and!; [done|by left|done]]. split; [exact Hc|]. intros _. unfold ordered.
       change (next _) with seq. change (highest _) with seq. lia. }
  destruct (Hw eq_refl) as [Ho Hr]. unfold ordered in Ho. destruct (_ && _) eqn:Hlate.
  { split; [split; [exact Hc|intros _; exact (conj Ho Hr)]|]. exists [], (stats e). split_and!; [done|by left|done]. }
  set (e1 := if seq <? next e then _ else e).
  assert (ordered e1 /\ next e1 <= seq /\ stats e1 = stats e /\ cfg e1 = withDefaults c /\ started e1 = true /\ highest e1 - next e1 < ringSize)
    as (O1 & L1 & S1 & C1 & T1 & W1).
  { unfold e1. destruct (seq <? next e) eqn:E; bool_to_prop; [|unfold ordered; split_and!; try done; lia].
    destruct Hlate as [|Hlate]; [done|]. bool_to_prop. rewrite wrap_small in * by (pow2_eval; lia).
    unfold ordered. change (next (e {{ next := seq }})) with seq. change (highest (e {{ next := seq }})) with (highest e). split_and!; try done; lia. }
  clearbody e1. unfold ordered in O1. set (e2 := if seq >? highest e1 then _ else e1).
  assert (ordered e2 /\ stats e2 = stats e1 /\ cfg e2 = cfg e1 /\ started e2 = true) as (O2 & S2 & C2 & T2).
  { unfold e2. destruct (seq >? highest e1) eqn:E; bool_to_prop; [|unfold ordered; split_and!; try done; lia]. unfold ordered. change (highest (e1 {{ highest := seq }})) with seq.
    change (next (e1 {{ highest := seq }})) with (next e1). split_and!; try done; lia. }
  clearbody e2. unfold ordered in O2. rewrite (wrap_small 64 (highest e2 - next e2)) by (pow2_eval; lia).
  set (e3 := if _ >? maxDecidedPerArrival then _ else e2).
  assert (ordered e3 /\ (stats e3 = stats e2 \/ stats e3 = (stats e2) {{ havePrev := false }}) /\ cfg e3 = cfg e2 /\ started e3 = true /\
    highest e3 - next e3 <= maxDecidedPerArrival) as (O3 & S3 & C3 & T3 & D3).
  { unfold e3. destruct (highest e2 - next e2 >? maxDecidedPerArrival) eqn:E; bool_to_prop; [|unfold ordered; split_and!; try done; try lia; by left].
    unfold ordered. change (highest (restart e2 seq)) with seq. change (next (restart e2 seq)) with seq. unfold maxDecidedPerArrival, ringSize.
    split_and!; try done; try lia. by right. }
  clearbody e3. assert (Z.to_nat (highest e3 - next e3) < decide_fuel)%nat as F3 by (unfold decide_fuel, maxDecidedPerArrival in *; lia).
  destruct (decide_while_order ringSize ltac:(unfold ringSize; lia) decide_fuel e3 O3 F3) as (l4 & S4 & N4 & O4 & H4 & R4 & C4 & T4).
  set (e4 := decide_while decide_fuel ringSize e3) in *. clearbody e4. rewrite C4, C3, C2, C1, (wrap_small 64) by (unfold ringSize in Ht; pow2_eval; lia).
  pose proof (len_nonneg l4). unfold ordered in O3, O4.
  destruct (decide_while_order (ReorderTolerance (withDefaults c)) ltac:(lia) decide_fuel (mark e4 seq)) as (l5 & S5 & N5 & O5 & H5 & R5 & C5 & T5).
  { done. } { change (Z.to_nat (highest e4 - next e4) < decide_fuel)%nat. lia. }
  change (highest (mark e4 seq)) with (highest e4) in *. change (next (mark e4 seq)) with (next e4) in *.
  change (cfg (mark e4 seq)) with (cfg e4) in *. change (stats (mark e4 seq)) with (stats e4) in *. change (started (mark e4 seq)) with (started e4) in *.
  set (e5 := decide_while decide_fuel _ (mark e4 seq)) in *. clearbody e5. split.
  - split; [congruence|]. intros _. split; [done|]. lia.
  - exists (l4 ++ l5), (stats e3). unfold ordered in O5. rewrite len_app. split_and!; [lia| |].
    + rewrite <- S1, <- S2. exact S3.
    + rewrite S5, S4, C4, fold_left_app. congruence.
Qed.

(** An arrival is answered in bounded time, whatever number the peer writes.  The loops
    end within their fuel, the window left undecided is shorter than the reorder
    tolerance, and at most 8192 fates are recorded, a larger jump being a restart of the
    numbering that records none of the gap. *)
Theorem arrival_work_bounded c seqs seq :
  Forall seq_ok seqs -> seq_ok seq -> let e := observe_all c seqs in let e' := Observe e seq in
  highest e' - next e' < ReorderTolerance (withDefaults c) /\ 0 <= next e' <= highest e' /\
  exists fates s0, len fates <= maxDecidedPerArrival /\ (s0 = stats e \/ s0 = (stats e) {{ havePrev := false }}) /\
    stats e' = fold_left (record (withDefaults c)) fates s0.
Proof.
  intros Hf Hs e e'. assert (window_ok c e) as Hw.
  { clear e' Hs seq. subst e. induction seqs as [|s seqs IH] using rev_ind; [done|]. apply Forall_app in Hf as [Hf Hs]. apply Forall_cons in Hs as [Hs _].
    rewrite observe_all_snoc. apply observe_cost; [done|by apply IH]. }
  destruct (observe_cost c e seq Hs Hw) as [[_ Hw'] Hcost]. fold e' in Hw', Hcost.
  assert (started e' = true) as Hst.
  { unfold e', Observe. destruct (started e) eqn:E; cbn [negb]; [|done]. destruct (_ && _); [done|].
    set (e1 := if seq <? next e then _ else e). assert (started e1 = true) as H1 by (unfold e1; by destruct (_ <? _)). clearbody e1.
    set (e2 := if seq >? highest e1 then _ else e1). assert (started e2 = true) as H2 by (unfold e2; by destruct (_ >? _)). clearbody e2.
    set (e3 := if _ >? maxDecidedPerArrival then _ else e2). assert (started e3 = true) as H3 by (unfold e3; by destruct (_ >? _)). clearbody e3.
    assert (forall fuel bound e, started (decide_while fuel bound e) = started e) as Hk.
    { induction fuel as [|fuel IH]; intros bound x; [done|]. simpl. destruct (_ >=? bound); [|done]. by rewrite IH. }
    rewrite Hk. change (started (mark ?x seq)) with (started x). by rewrite Hk. }
  destruct (Hw' Hst) as [[Ho _] Hr]. done.
Qed.

(** ** The snapshot reports rates *)

Lemma probability_within v : within zero one (probability v).
Proof.
  unfold probability. destruct (fltb zero v) eqn:E1; cbn [negb]; [|by split; vm_compute].
  destruct (fltb_number _ _ E1) as [_ Hv]. destruct (fltb one v) eqn:E2; [by split; vm_compute|].
  split; [by apply fltb_leb|by apply fleb_of_not_gt].
Qed.

Lemma zero_within : within zero one zero.
Proof. by split; vm_compute. Qed.

Lemma snapshot_rates e : let s := takeSnapshot e in
  within zero one (sn_Loss s) /\ within zero one (sn_LossAfterArrival s) /\ within zero one (sn_ArrivalAfterLoss s) /\
  within zero one (sn_Floor s) /\ within zero one (sn_Recent s) /\
  (fleb (samples (stats e)) zero = false -> fltb (sn_BurstFactor s) one = false).
Proof.
  unfold takeSnapshot. destruct (fleb (samples (stats e)) zero); [cbn; split_and!; first [apply zero_within|discriminate]|].
  unfold loss_rates. destruct (floor (cfg e) (stats e)) as [minimum recent]. simpl. split_and!; try apply probability_within.
  - destruct (fltb zero _); [apply probability_within|apply zero_within].
  - destruct (fltb zero _); [apply probability_within|apply zero_within].
  - intros _. match goal with |- fltb (if fltb ?x one then _ else _) one = false => destruct (fltb x one) eqn:E; [by vm_compute|exact E] end.
Qed.

(** ** The estimator and the analysis count the same *)

#[export] Instance float64_eq : EqDecision float64.
Proof. solve_decision. Defined.

(** A counter below the round length counts exactly. *)
Lemma count_exact n : 0 <= n < 2000 -> fadd (float_of n) one = float_of (n + 1).
Proof.
  intros Hn. assert (Forall (fun n => fadd (float_of n) one = float_of (n + 1)) (seqZ 0 2000)) as HF.
  { apply (bool_decide_unpack _). vm_compute. exact I. }
  rewrite Forall_forall in HF. apply HF. apply elem_of_seqZ. lia.
Qed.

Lemma bump_exact (b : bool) n : 0 <= n < 2000 -> bump b (float_of n) = float_of (if b then n + 1 else n).
Proof. intros Hn. unfold bump. destruct b; [by apply count_exact|done]. Qed.

(** The statistics of fewer fates than a round holds. *)
Record counts (fates : list bool) (s : statistics) (t : tally) : Prop := mk_counts {
  ct_samples : samples s = float_of (len fates);
  ct_losses : losses s = float_of (tl_lost t);
  ct_fromArrival : fromArrival s = float_of (tl_fromArrival t);
  ct_lossAfter : lossAfterArrival s = float_of (tl_lossAfterArrival t);
  ct_fromLoss : fromLoss s = float_of (tl_fromLoss t);
  ct_arrivalAfter : arrivalAfterLoss s = float_of (tl_arrivalAfterLoss t);
  ct_prev : tl_prev t = if havePrev s then Some (negb (prevLost s)) else None;
  ct_round : roundSamples s = len fates;
  ct_decided : decided s = len fates;
  ct_small : (0 <= tl_lost t <= len fates) /\ (0 <= tl_fromArrival t <= len fates) /\ (0 <= tl_lossAfterArrival t <= len fates) /\
             (0 <= tl_fromLoss t <= len fates) /\ (0 <= tl_arrivalAfterLoss t <= len fates)
}.

(** The counts of the tally one packet on. *)
Lemma tally_one_counts t ok : let t' := tally_one t ok in
  tl_lost t' = (if ok then tl_lost t else tl_lost t + 1) /\
  tl_fromLoss t' = (if bool_decide (tl_prev t = Some false) then tl_fromLoss t + 1 else tl_fromLoss t) /\
  tl_arrivalAfterLoss t' = (if bool_decide (tl_prev t = Some false) && ok then tl_arrivalAfterLoss t + 1 else tl_arrivalAfterLoss t) /\
  tl_fromArrival t' = (if bool_decide (tl_prev t = Some true) then tl_fromArrival t + 1 else tl_fromArrival t) /\
  tl_lossAfterArrival t' = (if bool_decide (tl_prev t = Some true) && negb ok then tl_lossAfterArrival t + 1 else tl_lossAfterArrival t) /\
  tl_prev t' = Some ok.
Proof.
  unfold tally_one. set (t1 := if ok then _ else _).
  assert (tl_prev t1 = tl_prev t /\ tl_lost t1 = (if ok then tl_lost t else tl_lost t + 1) /\
    (tl_fromLoss t1, tl_arrivalAfterLoss t1, tl_fromArrival t1, tl_lossAfterArrival t1) =
    (tl_fromLoss t, tl_arrivalAfterLoss t, tl_fromArrival t, tl_lossAfterArrival t)) as (P1 & L1 & K1).
  { unfold t1, close_burst. destruct ok; [|done]. by destruct (_ >? 0). }
  clearbody t1. injection K1 as E1 E2 E3 E4. rewrite <- P1, <- E1, <- E2, <- E3, <- E4.
  destruct (tl_prev t1) as [[]|]; destruct ok; by split_and!.
Qed.

Lemma counts_step c fates s t ok : len fates + 1 < Z.min 2000 (RoundSamples c) -> counts fates s t ->
  counts (fates ++ [ok]) (record c s ok) (tally_one t ok).
Proof.
  intros Hl [C1 C2 C3 C4 C5 C6 C7 C8 C9 (B1 & B2 & B3 & B4 & B5)]. pose proof (len_nonneg fates) as Hn.
  assert (len (fates ++ [ok]) = len fates + 1) as Hlen by (rewrite len_app; unfold len at 2; simpl; lia).
  destruct (tally_one_counts t ok) as (T1 & T2 & T3 & T4 & T5 & T6). unfold record. set (s1 := s {{ decided := _; samples := _; losses := _; fromLoss := _;
    arrivalAfterLoss := _; fromArrival := _; lossAfterArrival := _; prevLost := _; havePrev := _; roundSamples := _; roundLosses := _ }}).
  assert (roundSamples s1 = len fates + 1) as Hr by (change (roundSamples s + 1 = len fates + 1); lia).
  rewrite Hr. replace (_ >=? RoundSamples c) with false by lia. rewrite C7 in T2, T3, T4, T5.
  assert (forall b, bool_decide ((if havePrev s then Some (negb (prevLost s)) else None) = Some b) = havePrev s && (if b then negb (prevLost s) else prevLost s)) as Hprev.
  { intros b. destruct (havePrev s), (prevLost s), b; done. }
  rewrite Hprev in T2, T3, T4, T5. cbv iota in T2, T3, T4, T5. constructor.
  - change (bump true (samples s) = float_of (len (fates ++ [ok]))). rewrite C1, bump_exact by lia. by rewrite Hlen.
  - change (bump (negb ok) (losses s) = float_of (tl_lost (tally_one t ok))). rewrite C2, bump_exact by lia. rewrite T1. by destruct ok.
  - change (bump (havePrev s && negb (prevLost s)) (fromArrival s) = float_of (tl_fromArrival (tally_one t ok))). rewrite C3, bump_exact by lia. by rewrite T4.
  - change (bump (havePrev s && negb (prevLost s) && negb ok) (lossAfterArrival s) = float_of (tl_lossAfterArrival (tally_one t ok))).
    rewrite C4, bump_exact by lia. by rewrite T5.
  - change (bump (havePrev s && prevLost s) (fromLoss s) = float_of (tl_fromLoss (tally_one t ok))). rewrite C5, bump_exact by lia. by rewrite T2.
  - change (bump (havePrev s && prevLost s && ok) (arrivalAfterLoss s) = float_of (tl_arrivalAfterLoss (tally_one t ok))).
    rewrite C6, bump_exact by lia. by rewrite T3.
  - rewrite T6. change (Some ok = Some (negb (negb ok))). by rewrite negb_involutive.
  - by rewrite Hlen.
  - rewrite Hlen. change (decided s +u64 1 = len fates + 1). rewrite C9. apply wrap_small. pow2_eval. lia.
  - rewrite Hlen, T1, T2, T3, T4, T5. split_and!; repeat case_match; lia.
Qed.

Lemma counts_all c fates : len fates < Z.min 2000 (RoundSamples c) ->
  counts fates (fold_left (record c) fates no_statistics) (tally_all fates).
Proof.
  induction fates as [|ok fates IH] using rev_ind; intros Hl; [by constructor|].
  rewrite len_app in Hl. unfold len at 2 in Hl. simpl in Hl. unfold tally_all. rewrite !fold_left_app. simpl. apply counts_step; [lia|].
  apply IH. lia.
Qed.

Lemma float_of_counts n : 0 <= n < 2 ^ 53 -> fltb zero (float_of n) = (n >? 0) /\ fleb (float_of n) zero = negb (n >? 0).
Proof.
  intros Hn. destruct (float_of_exact 0 ltac:(lia)) as (m0 & e0 & P0 & _ & M0).
  destruct (float_of_exact n Hn) as (m & e & P & He & M). unfold fltb, fleb. rewrite (fcompare_sym (float_of n) zero).
  unfold zero. rewrite (fcompare_int (float_of n) 0 m e ltac:(lia) P). assert (0 < 2 ^ (- e)) by lia.
  assert ((if 0 <=? e then (m * 2 ^ e ?= 0) else (m ?= 0 * 2 ^ (- e))) = (n ?= 0)) as ->.
  { destruct (Z.leb_spec 0 e) as [Hle|Hlt].
    - assert (e = 0) as -> by lia. rewrite M. simpl. f_equal. lia.
    - rewrite M, Z.mul_0_l. destruct (Z.compare_spec n 0); destruct (Z.compare_spec (n * 2 ^ (- e)) 0); try done; nia. }
  simpl. destruct (Z.compare_spec n 0); simpl; split; try (by replace (n >? 0) with false by lia); by replace (n >? 0) with true by lia.
Qed.

(** The rate of two counts, as the estimator and the analysis compute it. *)
Lemma rate_agrees n d : 0 <= n < 2 ^ 53 -> 0 <= d < 2 ^ 53 ->
  (if fltb zero (float_of d) then probability (fdiv (float_of n) (float_of d)) else zero) = probability (rate_of n d).
Proof. intros Hn Hd. unfold rate_of. rewrite (proj1 (float_of_counts d Hd)). by destruct (d >? 0). Qed.

Definition outcomes (c : Config) (fates : list bool) : Estimator := fold_left ObserveOutcome fates (New c).

Lemma outcomes_stats c fates : stats (outcomes c fates) = fold_left (record (withDefaults c)) fates no_statistics.
Proof.
  unfold outcomes. assert (forall e, stats (fold_left ObserveOutcome fates e) = fold_left (record (cfg e)) fates (stats e)) as Hf; [|by rewrite Hf].
  induction fates as [|ok fates IH]; intros e; [done|]. simpl. rewrite IH. done.
Qed.

(** C39: the online estimator and the offline analysis agree.  Fed the same fates, fewer
    than a round of them, they count the same packets and report the same loss rate and
    the same two transition rates, to the last bit, and every rate of a snapshot is
    between zero and one. *)
Theorem estimator_matches_analysis c fates :
  0 < len fates -> len fates < Z.min 2000 (RoundSamples (withDefaults c)) ->
  let s := takeSnapshot (outcomes c fates) in let p := Analyze fates in
  sn_Decided s = pt_Total p /\ sn_Loss s = probability (pt_Loss p) /\
  sn_LossAfterArrival s = probability (pt_LossAfterArrival p) /\ sn_ArrivalAfterLoss s = probability (pt_ArrivalAfterLoss p) /\
  within zero one (sn_Loss s) /\ within zero one (sn_Floor s) /\ within zero one (sn_Recent s) /\ fltb (sn_BurstFactor s) one = false.
Proof.
  intros H0 Hl s p. destruct (counts_all (withDefaults c) fates Hl) as [C1 C2 C3 C4 C5 C6 _ _ C9 (B1 & B2 & B3 & B4 & B5)].
  rewrite <- outcomes_stats in *. set (e := outcomes c fates) in *. clearbody e.
  assert (fleb (samples (stats e)) zero = false) as Hs.
  { rewrite C1, (proj2 (float_of_counts (len fates) ltac:(pow2_eval; lia))). by replace (len fates >? 0) with true by lia. }
  pose proof (snapshot_rates e) as (W1 & _ & _ & W4 & W5 & W6). fold s in W1, W4, W5, W6.
  assert (forall t, tl_lost (close_burst t) = tl_lost t /\ tl_fromArrival (close_burst t) = tl_fromArrival t /\
    tl_lossAfterArrival (close_burst t) = tl_lossAfterArrival t /\ tl_fromLoss (close_burst t) = tl_fromLoss t /\
    tl_arrivalAfterLoss (close_burst t) = tl_arrivalAfterLoss t) as Hcb by (intros t; unfold close_burst; by destruct (_ >? 0)).
  destruct (Hcb (tally_all fates)) as (Q1 & Q2 & Q3 & Q4 & Q5).
  split_and!; try apply W1; try apply W4; try apply W5; [..|by apply W6].
  all: unfold s, p, takeSnapshot, Analyze; rewrite Hs; unfold loss_rates; destruct (floor (cfg e) (stats e)) as [mn rc]; cbn [sn_Decided sn_Loss
    sn_LossAfterArrival sn_ArrivalAfterLoss pt_Total pt_Loss pt_LossAfterArrival pt_ArrivalAfterLoss]; rewrite ?Q1, ?Q2, ?Q3, ?Q4, ?Q5.
  - exact C9.
  - rewrite C1, C2. unfold rate_of. by replace (len fates >? 0) with true by lia.
  - rewrite C3, C4. apply rate_agrees; pow2_eval; lia.
  - rewrite C5, C6. apply rate_agrees; pow2_eval; lia.
Qed.

(** A run in which every packet is lost has no burst factor: the analysis divides by a
    zero rate and multiplies the infinity by zero, and its guard against small factors
    does not see the result. *)
Theorem analysis_of_total_loss n : (2 <= n < 40)%nat -> IsNaN (pt_BurstFactor (Analyze (replicate n false))) = true.
Proof. intros Hn. do 40 (destruct n as [|n]; [first [by vm_compute|lia]|]). lia. Qed.

(** ** Witnesses *)

Definition sample_seqs : list Z := [7; 8; 10; 11; 9; 13; 14; 15; 16; 17; 18; 19; 20; 21].


Lemma arrival_work_bounded_witness : let e' := Observe (observe_all (mkConfig 0 0 32) sample_seqs) (2 ^ 40) in
  discontinuities e' = 1 /\ highest e' - next e' < 32.
Proof.
  split; [by vm_compute|]. apply (arrival_work_bounded (mkConfig 0 0 32) sample_seqs (2 ^ 40)); [repeat constructor; pow2_eval; lia|].
  unfold seq_ok. pow2_eval. lia.
Defined.

Lemma estimator_matches_analysis_witness :
  sn_Loss (takeSnapshot (outcomes (mkConfig 0 0 0) [true; false; true; true])) = probability (pt_Loss (Analyze [true; false; true; true])).
Proof. apply (estimator_matches_analysis (mkConfig 0 0 0) [true; false; true; true]); by vm_compute. Defined.
