(* ===== verification/PathModel.v ===== *)
(** What the lanes to one endpoint share ([internal/pathmodel/pathmodel.go]).

    A time is its nanoseconds.  Go visits a map in any order, so the order in which the
    members are visited is an argument, [order]; the theorems hold for every order that
    visits each member once.  The registry maps a key to the identity of a model in a
    store, since lanes keep the pointer they were given.  Sums of products are rounded
    after each operation. *)

From S2P Require Import Prelude GoFloat.
From stdpp Require Import strings.
From coqutil Require Import Datatypes.RecordSetters.
Import DoubleBraceUpdate.
Open Scope Z_scope.

Definition zero : float64 := float_of 0.
Definition one : float64 := float_of 1.

Record report := mkReport {
  rp_erasure : float64; rp_floor : float64; rp_burst : float64; rp_observed : float64; rp_delivered : float64; rp_roundTrip : Z; rp_at : Z }.

Record pathKnowledge := mkKnowledge {
  pk_erasure : float64; pk_floor : float64; pk_burst : float64; erasureKnown : bool; floorKnown : bool; observedSamples : float64; pk_roundTrip : Z }.

Record bandwidthSample := mkBandwidthSample { bs_rate : float64; bs_at : Z }.

Record PathModel := mkPathModel { members : gmap Z report; knowledge : pathKnowledge; aggregate : list bandwidthSample }.

Record Observation := mkObservation {
  ob_Erasure : float64; ob_BurstFactor : float64; ob_Floor : float64; ob_ObservedSamples : float64; ob_Delivered : float64; ob_RoundTrip : Z }.

Record State := mkState {
  st_Erasure : float64; st_BurstFactor : float64; st_Floor : float64; st_ObservedSamples : float64; st_Share : float64; st_Seed : float64; st_RoundTrip : Z }.

Definition floorEvidenceSamples : float64 := float_of 32.
Definition memberIdle : Z := 5 * 1000000000.
Definition bottleneckWindow : Z := 10 * 1000000000.
Definition shareProbeGain : float64 := float_quot 125 100.

Definition NewPathModel : PathModel := mkPathModel ∅ (mkKnowledge zero zero zero false false zero 0) [].

(** ** One walk over the members *)

Record walk := mkWalk {
  w_members : gmap Z report; w_knowledge : pathKnowledge; w_live : Z; w_sum : float64; w_erasure : float64; w_burst : float64;
  w_observed : float64; w_roundTrip : Z }.

Definition visit (now : Z) (w : walk) (key : Z) : walk :=
  match w_members w !! key with
  | None => w
  | Some other =>
      if now - rp_at other >? memberIdle then w {{ w_members := delete key (w_members w) }}
      else
        let k := w_knowledge w in
        let k := if fleb floorEvidenceSamples (rp_observed other) && (negb (floorKnown k) || fltb (rp_floor other) (pk_floor k))
                 then k {{ pk_floor := rp_floor other; floorKnown := true }} else k in
        w {{ w_live := w_live w + 1; w_sum := fadd (w_sum w) (rp_delivered other);
             w_erasure := fadd (w_erasure w) (fmul (rp_erasure other) (rp_observed other));
             w_burst := fadd (w_burst w) (fmul (rp_burst other) (rp_observed other));
             w_observed := fadd (w_observed w) (rp_observed other);
             w_roundTrip := if (rp_roundTrip other >? 0) && ((w_roundTrip w =? 0) || (rp_roundTrip other <? w_roundTrip w))
                            then rp_roundTrip other else w_roundTrip w;
             w_knowledge := k }}
  end.

Definition start_walk (m : PathModel) : walk := mkWalk (members m) (knowledge m) 0 zero zero zero zero 0.

Definition walk_all (now : Z) (order : list Z) (m : PathModel) : walk := fold_left (visit now) order (start_walk m).

(** What the walk says of the path: the pooled figures and what is remembered of them. *)
Definition pool (w : walk) : State * pathKnowledge :=
  let k := w_knowledge w in
  let measured := fltb zero (w_observed w) in
  let erasure := if measured then fdiv (w_erasure w) (w_observed w) else if erasureKnown k then pk_erasure k else zero in
  let burst := if measured then fdiv (w_burst w) (w_observed w) else if erasureKnown k then pk_burst k else zero in
  let k := if measured then k {{ pk_erasure := erasure; pk_burst := burst; erasureKnown := true }} else k in
  let floor := if floorKnown k then pk_floor k else zero in
  let factor := if fltb burst one then one else burst in
  let k := if fltb (observedSamples k) (w_observed w) then k {{ observedSamples := w_observed w }} else k in
  let nearer := (w_roundTrip w >? 0) && ((pk_roundTrip k =? 0) || (w_roundTrip w <? pk_roundTrip k)) in
  let k := if nearer then k {{ pk_roundTrip := w_roundTrip w }} else k in
  let trip := if nearer then w_roundTrip w else if w_roundTrip w =? 0 then pk_roundTrip k else w_roundTrip w in
  (mkState erasure factor floor (observedSamples k) zero zero trip, k).

Definition in_window (now : Z) (s : bandwidthSample) : bool := negb (now - bs_at s >? bottleneckWindow).

(** The largest rate of the samples in the window. *)
Definition largest_rate (now : Z) (samples : list bandwidthSample) : float64 :=
  fold_left (fun b s => if in_window now s && fltb b (bs_rate s) then bs_rate s else b) samples zero.

(** ** The operations *)

Definition note_report (m : PathModel) (member : Z) (o : Observation) (now : Z) : PathModel :=
  let entry := default (mkReport zero zero zero zero zero 0 0) (members m !! member) in
  m {{ members := <[member := mkReport (ob_Erasure o) (ob_Floor o) (ob_BurstFactor o) (ob_ObservedSamples o) (ob_Delivered o)
                                (if ob_RoundTrip o >? 0 then ob_RoundTrip o else rp_roundTrip entry) now]> (members m) }}.

Definition Report (now : Z) (order : list Z) (m : PathModel) (member : Z) (o : Observation) : State * PathModel :=
  let m := note_report m member o now in
  let w := walk_all now order m in
  let '(state, k) := pool w in
  let samples := if fltb zero (w_sum w) then aggregate m ++ [mkBandwidthSample (w_sum w) now] else aggregate m in
  let bottleneck := largest_rate now samples in
  let state :=
    if (w_live w >? 0) && fltb zero bottleneck then
      let seed := fdiv bottleneck (float_of (w_live w)) in
      state {{ st_Seed := seed; st_Share := if w_live w >? 1 then fmul shareProbeGain seed else zero }}
    else state in
  (state, mkPathModel (w_members w) k (List.filter (in_window now) samples)).

Definition Current (now : Z) (order : list Z) (m : PathModel) : State * PathModel :=
  let w := walk_all now order m in
  let '(state, k) := pool w in
  let bottleneck := largest_rate now (aggregate m) in
  let state :=
    if fltb zero bottleneck then
      let seed := fdiv bottleneck (float_of (w_live w + 1)) in
      state {{ st_Seed := seed; st_Share := if w_live w >? 0 then fmul shareProbeGain seed else zero }}
    else state in
  (state, mkPathModel (w_members w) k (aggregate m)).

Definition Members (now : Z) (order : list Z) (m : PathModel) : Z * PathModel :=
  fold_left (fun '(live, m) key =>
    match members m !! key with
    | None => (live, m)
    | Some entry => if now - rp_at entry >? memberIdle then (live, m {{ members := delete key (members m) }}) else (live + 1, m)
    end) order (0, m).

(** ** The registry *)

Record registry := mkRegistry { shared : gmap string Z; models : gmap Z PathModel }.

Definition empty_registry : registry := mkRegistry ∅ ∅.

Definition Forget (r : registry) (key : string) : registry := r {{ shared := delete key (shared r) }}.
Definition Reset (r : registry) : registry := r {{ shared := ∅ }}.
Definition Live (r : registry) : list Z := (map_to_list (shared r)).*2.

(** The identity of the model of a key, a new one if there is none. *)
Definition Shared (r : registry) (key : string) : Z * registry :=
  match shared r !! key with
  | Some id => (id, r)
  | None => let id := fresh (dom (models r)) in (id, mkRegistry (<[key := id]> (shared r)) (<[id := NewPathModel]> (models r)))
  end.

(** ** The walk *)

(** A visit of every member, once. *)
Definition visits (ms : gmap Z report) (order : list Z) : Prop := NoDup order /\ forall k, k ∈ order <-> is_Some (ms !! k).

Definition alive (now : Z) (e : report) : Prop := now - rp_at e <= memberIdle.
#[export] Instance alive_decision now e : Decision (alive now e).
Proof. unfold alive. apply _. Defined.

(** The entry of a key, if it reported recently. *)
Definition live_entry (now : Z) (ms : gmap Z report) (key : Z) : option report :=
  match ms !! key with Some e => if bool_decide (alive now e) then Some e else None | None => None end.

Lemma visit_members now w key k :
  w_members (visit now w key) !! k = if decide (k = key) then live_entry now (w_members w) key else w_members w !! k.
Proof.
  unfold visit, live_entry, alive. destruct (w_members w !! key) as [e|] eqn:He.
  - destruct (now - rp_at e >? memberIdle) eqn:E; bool_to_prop.
    + rewrite bool_decide_false by lia. change (delete key (w_members w) !! k = if decide (k = key) then None else w_members w !! k).
      destruct (decide (k = key)) as [->|Hne]; [by rewrite lookup_delete_eq|by rewrite lookup_delete_ne].
    + rewrite bool_decide_true by lia. change (w_members w !! k = if decide (k = key) then Some e else w_members w !! k).
      by destruct (decide (k = key)) as [->|].
  - by destruct (decide (k = key)) as [->|].
Qed.

Lemma visit_live now w key k : live_entry now (w_members (visit now w key)) k = live_entry now (w_members w) k.
Proof.
  unfold live_entry at 1. rewrite visit_members. destruct (decide (k = key)) as [->|]; [|done].
  unfold live_entry. destruct (w_members w !! key) as [e|]; [|done]. destruct (bool_decide (alive now e)) eqn:E; [|done]. by rewrite E.
Qed.

Lemma visit_count now w key : w_live (visit now w key) = w_live w + (if live_entry now (w_members w) key then 1 else 0).
Proof.
  unfold visit, live_entry, alive. destruct (w_members w !! key) as [e|]; [|lia].
  destruct (now - rp_at e >? memberIdle) eqn:E; bool_to_prop.
  - rewrite bool_decide_false by lia. change (w_live w = w_live w + 0). lia.
  - by rewrite bool_decide_true by lia.
Qed.

(** What is known only gets closer: the floor falls, the evidence stays. *)
Definition knows_more (k k' : pathKnowledge) : Prop :=
  pk_roundTrip k' = pk_roundTrip k /\
  (floorKnown k = true -> floorKnown k' = true /\ (IsNaN (pk_floor k) = false -> fleb (pk_floor k') (pk_floor k) = true)).

Lemma knows_more_refl k : knows_more k k.
Proof. split; [done|]. intros Hf. split; [done|]. apply fleb_refl. Qed.

Lemma knows_more_trans k1 k2 k3 : knows_more k1 k2 -> knows_more k2 k3 -> knows_more k1 k3.
Proof.
  intros [R1 F1] [R2 F2]. split; [congruence|]. intros Hf. destruct (F1 Hf) as [Hf2 L1]. destruct (F2 Hf2) as [Hf3 L2]. split; [done|].
  intros Hn. specialize (L1 Hn). destruct (fleb_number _ _ L1) as [Hn2 _]. eapply fleb_trans; [by apply L2|done].
Qed.

Lemma visit_knowledge now w key : knows_more (w_knowledge w) (w_knowledge (visit now w key)).
Proof.
  unfold visit. destruct (w_members w !! key) as [e|]; [|apply knows_more_refl]. destruct (_ >? _); [apply knows_more_refl|].
  set (k := w_knowledge w). match goal with |- knows_more k (w_knowledge ?x) => change (w_knowledge x) with
    (if fleb floorEvidenceSamples (rp_observed e) && (negb (floorKnown k) || fltb (rp_floor e) (pk_floor k)) then k {{ pk_floor := rp_floor e; floorKnown := true }} else k) end.
  destruct (_ && _) eqn:E; [|apply knows_more_refl]. split; [done|]. intros Hf. split; [done|]. intros _.
  apply andb_true_iff in E as [_ E]. rewrite Hf in E. simpl in E. by apply fltb_leb.
Qed.

Lemma walk_spec now order : forall w, let w' := fold_left (visit now) order w in
  (forall k, w_members w' !! k = if decide (k ∈ order) then live_entry now (w_members w) k else w_members w !! k) /\
  w_live w' = w_live w + len (List.filter (fun k => if live_entry now (w_members w) k then true else false) order) /\
  knows_more (w_knowledge w) (w_knowledge w').
Proof.
  induction order as [|key order IH]; intros w; simpl.
  - split_and!; [done|rewrite len_nil; lia|apply knows_more_refl].
  - destruct (IH (visit now w key)) as (Hm & Hl & Hk). split_and!.
    + intros k. rewrite Hm, visit_live, visit_members. destruct (decide (k = key)) as [->|Hne].
      * rewrite (decide_True (P := key ∈ key :: order)) by set_solver. by destruct (decide (key ∈ order)).
      * by destruct (decide (k ∈ order)), (decide (k ∈ key :: order)); set_solver.
    + rewrite Hl, visit_count. rewrite (List.filter_ext _ (fun k => if live_entry now (w_members w) k then true else false)) by (intros k; by rewrite visit_live).
      destruct (live_entry now (w_members w) key); rewrite ?len_cons; lia.
    + eapply knows_more_trans; [apply visit_knowledge|done].
Qed.

Lemma pool_spec w : let '(s, k) := pool w in
  floorKnown k = floorKnown (w_knowledge w) /\ pk_floor k = pk_floor (w_knowledge w) /\
  st_Floor s = (if floorKnown k then pk_floor k else zero) /\ st_Seed s = zero /\ st_Share s = zero /\
  (0 < pk_roundTrip (w_knowledge w) -> 0 < pk_roundTrip k <= pk_roundTrip (w_knowledge w)) /\
  st_ObservedSamples s = observedSamples k /\ fltb (st_BurstFactor s) one = false.
Proof.
  unfold pool. set (k0 := w_knowledge w). set (measured := fltb zero (w_observed w)).
  set (erasure := if measured then fdiv (w_erasure w) _ else _). set (burst := if measured then fdiv (w_burst w) _ else _).
  set (k1 := if measured then _ else k0). assert (floorKnown k1 = floorKnown k0 /\ pk_floor k1 = pk_floor k0 /\ pk_roundTrip k1 = pk_roundTrip k0)
    as (<- & <- & <-) by (unfold k1; by destruct measured). clearbody k1 erasure burst measured. clear k0.
  set (k2 := if fltb (observedSamples k1) _ then _ else k1).
  assert (floorKnown k2 = floorKnown k1 /\ pk_floor k2 = pk_floor k1 /\ pk_roundTrip k2 = pk_roundTrip k1) as (<- & <- & <-)
    by (unfold k2; by destruct (fltb _ _)). clearbody k2. clear k1.
  set (nearer := (w_roundTrip w >? 0) && _). split_and!; try done; try (by destruct nearer).
  - intros Hpos. destruct nearer eqn:E; [|lia]. unfold nearer in E. bool_to_prop. change (0 < w_roundTrip w <= pk_roundTrip k2).
    match goal with Ho : _ \/ _ |- _ => destruct Ho end; bool_to_prop; lia.
  - simpl. destruct (fltb burst one) eqn:E; [by vm_compute|done].
Qed.

Lemma largest_rate_spec now l : let b := largest_rate now l in
  (b = zero \/ exists s, s ∈ l /\ in_window now s = true /\ b = bs_rate s) /\
  (forall s, s ∈ l -> in_window now s = true -> fltb b (bs_rate s) = false).
Proof.
  unfold largest_rate. set (step := fun b s => if in_window now s && fltb b (bs_rate s) then bs_rate s else b).
  assert (forall l0 b, (fold_left step l0 b = b \/ exists s, s ∈ l0 /\ in_window now s = true /\ fold_left step l0 b = bs_rate s) /\
    (IsNaN b = false -> fleb b (fold_left step l0 b) = true /\ forall s, s ∈ l0 -> in_window now s = true -> fltb (fold_left step l0 b) (bs_rate s) = false)) as Hf.
  { intros l0. induction l0 as [|s l' IH]; intros b; simpl.
    - split; [by left|]. intros Hb. split; [by apply fleb_refl|]. intros s Hs. by apply not_elem_of_nil in Hs.
    - destruct (IH (step b s)) as [Hin Hmax]. split.
      + destruct Hin as [->|(x & Hx & Hw & ->)]; [|right; exists x; set_solver].
        unfold step. destruct (in_window now s && fltb b (bs_rate s)) eqn:E; [|by left]. bool_to_prop. right. exists s. set_solver.
      + intros Hb. assert (IsNaN (step b s) = false /\ fleb b (step b s) = true /\ (in_window now s = true -> fltb (step b s) (bs_rate s) = false)) as (Hn & Hle & Hge).
        { unfold step. destruct (in_window now s), (fltb b (bs_rate s)) eqn:E; simpl; try (split_and!; [done|by apply fleb_refl|done]).
          destruct (fltb_number _ _ E) as [_ Hr]. split_and!; [done|by apply fltb_leb|]. intros _. destruct (fltb (bs_rate s) (bs_rate s)) eqn:E2; [|done].
          unfold fltb in E2. pose proof (fcompare_sym (bs_rate s) (bs_rate s)) as Hs. by destruct (fcompare (bs_rate s) (bs_rate s)) as [[]|]. }
        destruct (Hmax Hn) as [Hle' Hall]. split; [by eapply fleb_trans|]. intros x [->|Hx]%elem_of_cons Hw; [|by apply Hall].
        destruct (fltb (fold_left step l' (step b s)) (bs_rate s)) eqn:E; [|done]. exfalso.
        pose proof (fleb_trans _ _ _ Hle' (fltb_leb _ _ E)) as Hle2.
        assert (IsNaN (bs_rate s) = false) as Hns by apply (fltb_number _ _ E).
        pose proof (fleb_of_not_gt (bs_rate s) (step b s) Hns Hn (Hge Hw)) as Hle3.
        pose proof (fleb_trans _ _ _ Hle3 Hle') as Hle4. unfold fltb, fleb in *. rewrite fcompare_sym in Hle4.
        destruct (fcompare (fold_left step l' (step b s)) (bs_rate s)) as [[]|]; done. }
  destruct (Hf l zero) as [Hin Hmax]. split; [done|]. by apply Hmax.
Qed.

Lemma live_members now order ms : visits ms order ->
  forall ms' : gmap Z report, (forall k, ms' !! k = if decide (k ∈ order) then live_entry now ms k else ms !! k) ->
  Z.of_nat (size ms') = len (List.filter (fun k => if live_entry now ms k then true else false) order).
Proof.
  intros [Hnd Hall] ms' Hms'. set (keep := List.filter _ order).
  assert (NoDup keep) as Hk by (apply NoDup_ListNoDup, List.NoDup_filter; by apply NoDup_ListNoDup).
  assert (dom ms' = list_to_set keep) as Hd.
  { apply set_eq. intros k.
    assert (k ∈ keep <-> k ∈ order /\ (if live_entry now ms k then true else false) = true) as Hkeep by (rewrite !list_elem_of_In; apply List.filter_In).
    rewrite elem_of_dom, elem_of_list_to_set, Hms', Hkeep.
    destruct (decide (k ∈ order)) as [Hin|Hin].
    - destruct (live_entry now ms k); split; [by eauto|by eauto|intros [? [=]]|intros [_ [=]]].
    - split; [|by intros [? _]]. intros Hs. exfalso. apply Hin. by apply Hall. }
  rewrite <- (size_dom (D := gset Z)), Hd, size_list_to_set by done. done.
Qed.

(** C40: a report pools what the lanes know and forgets what is old.  Whatever order the
    members are visited in: exactly the members heard of in the last five seconds stay,
    the reporter among them; only delivered rates of the last ten seconds stay, and the
    seed is the largest of them divided among the lanes; a lane that is alone is given no
    ceiling; the retained loss floor never rises and the retained round trip never grows;
    and the burst factor handed out is never below one. *)
Theorem path_report_sound now order m member o :
  let m0 := note_report m member o now in
  visits (members m0) order ->
  let '(s, m') := Report now order m member o in
  (forall k, members m' !! k = live_entry now (members m0) k) /\ is_Some (members m' !! member) /\
  Forall (fun x => now - bs_at x <= bottleneckWindow) (aggregate m') /\
  (Z.of_nat (size (members m')) <= 1 -> st_Share s = zero) /\
  (exists bottleneck, (bottleneck = zero \/ exists x, x ∈ aggregate m' /\ bs_rate x = bottleneck) /\
     (forall x, x ∈ aggregate m' -> fltb bottleneck (bs_rate x) = false) /\
     (fltb zero bottleneck = true -> st_Seed s = fdiv bottleneck (float_of (Z.of_nat (size (members m')))))) /\
  (floorKnown (knowledge m) = true -> floorKnown (knowledge m') = true /\ st_Floor s = pk_floor (knowledge m') /\
     (IsNaN (pk_floor (knowledge m)) = false -> fleb (pk_floor (knowledge m')) (pk_floor (knowledge m)) = true)) /\
  (0 < pk_roundTrip (knowledge m) -> 0 < pk_roundTrip (knowledge m') <= pk_roundTrip (knowledge m)) /\
  fltb (st_BurstFactor s) one = false.
Proof.
  intros m0 Hv. unfold Report. fold m0. destruct (walk_spec now order (start_walk m0)) as (Hm & Hl & Hk).
  change (fold_left (visit now) order (start_walk m0)) with (walk_all now order m0) in *. set (w := walk_all now order m0) in *. clearbody w.
  change (w_members (start_walk m0)) with (members m0) in *. change (w_knowledge (start_walk m0)) with (knowledge m) in *. change (w_live (start_walk m0)) with 0 in *.
  pose proof (live_members now order (members m0) Hv (w_members w) Hm) as Hsize. rewrite Z.add_0_l, <- Hsize in Hl.
  assert (forall k, w_members w !! k = live_entry now (members m0) k) as Hms.
  { intros k. rewrite Hm. destruct (decide (k ∈ order)) as [|Hn]; [done|]. unfold live_entry. destruct (members m0 !! k) eqn:E; [|done].
    exfalso. apply Hn. apply Hv. by rewrite E. }
  assert (is_Some (w_members w !! member)) as Hself.
  { assert (exists e, members m0 !! member = Some e /\ rp_at e = now) as (e & He & Hat) by (eexists; split; [apply lookup_insert_eq|done]).
    rewrite Hms. unfold live_entry. rewrite He, bool_decide_true; [by eexists|]. unfold alive, memberIdle. lia. }
  assert (0 < w_live w) as Hpos. { rewrite Hl. assert (size (w_members w) <> 0)%nat; [|lia]. apply map_size_ne_0_lookup. by exists member. }
  pose proof (pool_spec w) as Hp. destruct (pool w) as [s k]. destruct Hp as (P1 & P2 & P3 & P4 & P5 & P6 & P7 & P8).
  set (samples := if fltb zero (w_sum w) then _ else _). clearbody samples. pose proof (largest_rate_spec now samples) as [Hin Hmax].
  set (b := largest_rate now samples) in *. clearbody b. replace (w_live w >? 0) with true by lia. rewrite andb_true_l.
  assert (forall x, x ∈ List.filter (in_window now) samples <-> x ∈ samples /\ in_window now x = true) as Hfil.
  { intros x. rewrite !list_elem_of_In. apply List.filter_In. }
  destruct Hk as [Kr Kf]. rewrite Kr in P6.
  set (s' := if fltb zero b then _ else s). assert (st_Floor s' = st_Floor s /\ st_BurstFactor s' = st_BurstFactor s) as [S1 S2] by (unfold s'; by destruct (fltb zero b)).
  cbn [members knowledge aggregate]. split_and!; try done.
  - apply Forall_forall. intros x Hx. apply Hfil in Hx as [_ Hx]. unfold in_window in Hx. bool_to_prop. lia.
  - intros H1. unfold s'. destruct (fltb zero b); [|done]. change ((if w_live w >? 1 then fmul shareProbeGain (fdiv b (float_of (w_live w))) else zero) = zero).
    by replace (w_live w >? 1) with false by lia.
  - exists b. split_and!.
    + destruct Hin as [->|(x & Hx & Hw & ->)]; [by left|]. right. exists x. by rewrite Hfil.
    + intros x Hx. apply Hfil in Hx as [Hx Hw]. by apply Hmax.
    + intros Hb. unfold s'. rewrite Hb. change (fdiv b (float_of (w_live w)) = fdiv b (float_of (Z.of_nat (size (w_members w))))). by rewrite Hl.
  - intros Hf. destruct (Kf Hf) as [Hf' Hle]. rewrite P1, P2. split_and!; [done| |done]. rewrite S1, P3, P1, Hf'. by rewrite P2.
  - by rewrite S2.
Qed.

(** The model of a key stays the same until it is forgotten. *)
Lemma shared_stable r key : let '(id, r') := Shared r key in Shared r' key = (id, r').
Proof. unfold Shared. destruct (shared r !! key) as [id|] eqn:E; [by rewrite E|]. simpl. by rewrite lookup_insert_eq. Qed.

(** ** Witness *)

Definition sample_report (rate : Z) : Observation := mkObservation (float_quot 1 10) one (float_quot 5 100) (float_of 64) (float_of rate) 50000000.
Definition sample_model : PathModel := snd (Report 1000000000 [1] NewPathModel 1 (sample_report 1000)).

Lemma sample_visits : visits (members (note_report sample_model 2 (sample_report 3000) 2000000000)) [1; 2].
Proof.
  split; [apply (bool_decide_unpack (NoDup [1; 2])); by vm_compute|]. intros k.
  assert (members (note_report sample_model 2 (sample_report 3000) 2000000000) =
    <[2 := mkReport (float_quot 1 10) (float_quot 5 100) one (float_of 64) (float_of 3000) 50000000 2000000000]>
    {[1 := mkReport (float_quot 1 10) (float_quot 5 100) one (float_of 64) (float_of 1000) 50000000 1000000000]}) as -> by (by vm_compute).
  rewrite lookup_insert_is_Some, lookup_singleton_is_Some, !elem_of_cons, elem_of_nil. destruct (decide (k = 2)); naive_solver.
Qed.

Lemma path_report_sound_witness :
  is_Some (members (snd (Report 2000000000 [1; 2] sample_model 2 (sample_report 3000))) !! 2) /\
  feqb (st_Share (fst (Report 2000000000 [1; 2] sample_model 2 (sample_report 3000)))) zero = false.
Proof.
  split; [|by vm_compute]. pose proof (path_report_sound 2000000000 [1; 2] sample_model 2 (sample_report 3000) sample_visits) as Hs.
  destruct (Report 2000000000 [1; 2] sample_model 2 (sample_report 3000)) as [s m']. apply Hs.
Defined.
