(* ===== verification/Erasure.v ===== *)
(** The controller of a path that erases packets ([internal/congestion/erasure.go]) with
    the snapshot its telemetry is read from ([internal/congestion/telemetry.go]).

    It drives the BBR sender ([Bbr]), its own pacer ([Pacing]), the loss estimator
    ([LossModel]) and the model of the path it shares with other lanes ([PathModel]).
    The shared models live in a store, and a sender keeps the identity of its own.
    [sort.Slice] may order equal numbers in either way, so the sort is a variable; the
    round-trip provider, the clocks and the order in which a map is visited are the
    environment of a call. *)

From S2P Require Import Prelude GoFloat LossModel PathModel Bandwidth Pacing Bbr BbrInv BbrRun.
From coqutil Require Import Datatypes.RecordSetters.
Import DoubleBraceUpdate.
Open Scope Z_scope.

(** ** The snapshot of a controller *)

(** The fields of the wire ceiling are [Pacing.CapTelemetry]. *)
Record ControllerTelemetry := mkControllerTelemetry {
  Kind : String.string; Mode : Z; MaxBandwidth : Z; LatestSample : Z; LatestAckRate : Z; LatestSendRate : Z;
  Samples : Z; NonAppSamples : Z; AppSamples : Z; StateMisses : Z; ZeroSamples : Z; Round : Z;
  PacingRate : Z; CongestionWindow : Z; BytesInFlight : Z; BytesLost : Z; PacketsLost : Z; PacketsLostObserved : Z;
  MinRTT : Z; ct_InRecovery : bool; DelayBrake : float64;
  SampleMean : Z; SampleMax : Z; SampleMaxDelivered : Z; SampleMaxInterval : Z;
  Erasure : float64; ErasureFloor : float64; CongestiveLoss : float64
}.

Definition snapshot (t : telemetryState) : ControllerTelemetry :=
  {| Kind := t_kind t; Mode := t_mode t; MaxBandwidth := t_maxBandwidth t; LatestSample := t_latestSample t;
     LatestAckRate := t_latestAckRate t; LatestSendRate := t_latestSendRate t; Samples := t_samples t;
     NonAppSamples := t_nonAppSamples t; AppSamples := t_appSamples t; StateMisses := t_stateMisses t;
     ZeroSamples := t_zeroSamples t; Round := t_round t; PacingRate := t_pacingRate t;
     CongestionWindow := t_congestionWindow t; BytesInFlight := t_bytesInFlight t; BytesLost := t_bytesLost t;
     PacketsLost := t_packetsLost t; PacketsLostObserved := t_packetsLost t; MinRTT := t_minRTTNS t;
     ct_InRecovery := t_inRecovery t; DelayBrake := float_of 0; SampleMean := t_sampleMean t; SampleMax := t_sampleMax t;
     SampleMaxDelivered := t_sampleMaxDelivered t; SampleMaxInterval := t_sampleMaxIntervalNS t;
     Erasure := float_of 0; ErasureFloor := float_of 0; CongestiveLoss := float_of 0 |}.

(** ** The sender *)

(** [path] is the identity of the shared model, if any; [provided] says whether a
    round-trip provider is set. *)
Record ErasureSender := mkErasureSender {
  inner : TUICBBRSender; epacer : pacer; lossEstimator : LossModel.Estimator;
  compensationRound : Z; deliveredAtCompensation : float64; appliedArrival : float64;
  erasure : Z; observed : Z; provided : bool; delayBrake : Z; arrival : Z; efloor : Z; congestive : Z; passed : Z;
  path : option Z; share : Z; member : Z
}.

Record packetOutcome := mkOutcome { po_number : Z; po_arrived : bool }.

Definition compensationStep : float64 := float_quot 9 10.
Definition erasureMinArrival : float64 := float_quot 15 100.
Definition partsPerMillion : float64 := float_of 1000000.
Definition burstLossCeiling : float64 := float_quot 1 100.
Definition burstEvidencePackets : Z := 32.

(** What is read from outside during one call. *)
Record erasure_env := mkErasureEnv { ee_inner : environment; ee_SmoothedRTT : Z; ee_Time : Z; ee_order : list Z }.

(** The counter of members and the shared models, which all senders see. *)
Record shared_paths := mkShared { nextErasureMemberID : Z; path_models : gmap Z PathModel }.

Definition model_of (w : shared_paths) (id : Z) : PathModel := default NewPathModel (path_models w !! id).

Section Erasure.
Variables (MinInitialPacketSize InitialPacketSize MaxCongestionWindowPackets MinPacingDelay : Z).
Variable sort : list packetOutcome -> list packetOutcome.
Context `{FloatConv}.

(** ** Rates *)

Definition arrivalRate (e : ErasureSender) : float64 :=
  let rate := fdiv (float_of (arrival e)) partsPerMillion in
  if fltb rate erasureMinArrival then erasureMinArrival else if fltb (float_of 1) rate then float_of 1 else rate.

(** The queue, and the smallest round trip. *)
Definition queueDelay (env : erasure_env) (e : ErasureSender) : Z * Z :=
  let least := minRoundTrip (inner e) in
  if (least <=? 0) || negb (provided e) then (0, least)
  else if ee_SmoothedRTT env <=? least then (0, least)
  else (i64 (ee_SmoothedRTT env - least), least).

(** The rate, and the brake that is stored. *)
Definition delayBounded (env : erasure_env) (e : ErasureSender) (rate : float64) : float64 * Z :=
  let '(queue, least) := queueDelay env e in
  if (queue <=? least) || (least <=? 0) then (rate, 0)
  else
    let factor := fdiv (float_of least) (float_of queue) in
    (fmul rate factor, uint64_of (fmul (fsub (float_of 1) factor) partsPerMillion)).

(** The rate [bandwidth] returns, and the sender after it published what it used. *)
Definition delivered_rate (env : erasure_env) (e : ErasureSender) : float64 :=
  let delivered := float_of (Bbr.bandwidth (ee_inner env) (inner e)) in
  if fltb (float_of 0) (float_of (share e)) && fltb (float_of (share e)) delivered then float_of (share e) else delivered.

Definition erasure_bandwidth (env : erasure_env) (e : ErasureSender) : Z :=
  int64_of (fst (delayBounded env e (fdiv (delivered_rate env e) (arrivalRate e)))).

Definition publish_bandwidth (env : erasure_env) (e : ErasureSender) : ErasureSender :=
  e {{ inner := publish_rate (ee_inner env) (inner e);
       delayBrake := snd (delayBounded env e (fdiv (delivered_rate env e) (arrivalRate e))) }}.

(** The arrival rate to apply, and the sender. *)
Definition compensationFor (e : ErasureSender) (want : float64) : float64 * ErasureSender :=
  let want := if fltb (float_of 1) want then float_of 1 else want in
  let want := if fltb want erasureMinArrival then erasureMinArrival else want in
  let e := if feqb (appliedArrival e) (float_of 0) then e {{ appliedArrival := float_of 1 }} else e in
  let delivered := float_of (estimate (estimator (inner e))) in
  let now := round (inner e) in
  if fleb (appliedArrival e) want then
    (want, e {{ appliedArrival := want; deliveredAtCompensation := delivered; compensationRound := now }})
  else if now =? compensationRound e then (appliedArrival e, e)
  else if fleb delivered (deliveredAtCompensation e) then
    (appliedArrival e, e {{ deliveredAtCompensation := delivered; compensationRound := now }})
  else
    let next := fmul (appliedArrival e) compensationStep in
    let next := if fltb next want then want else next in
    (next, e {{ appliedArrival := next; deliveredAtCompensation := delivered; compensationRound := now }}).

(** ** Windows and bursts *)

Definition erasure_window (e : ErasureSender) : Z := int64_of (fdiv (float_of (GetCongestionWindow (inner e))) (arrivalRate e)).

Definition erasure_CanSend (e : ErasureSender) (inFlight : Z) : bool := inFlight <? erasure_window e.

Definition unmeteredBurst (env : erasure_env) (e : ErasureSender) : Z :=
  if fltb (float_of 0) (fdiv (float_of (congestive e)) partsPerMillion) then 0
  else if observed e <? burstEvidencePackets then 0
  else if fltb burstLossCeiling (fdiv (float_of (erasure e)) partsPerMillion) then 0
  else
    let '(queue, least) := queueDelay env e in
    if (least <=? 0) || (queue >=? least) then 0 else erasure_window e.

(** ** Construction *)

Definition newErasureSender (env : erasure_env) (member_ size : Z) : ErasureSender :=
  {| inner := (NewTUICBBRSender MinInitialPacketSize InitialPacketSize MaxCongestionWindowPackets MinPacingDelay (ee_inner env) size)
                {{ lossIsCongestion := false }};
     epacer := newTUICPacer InitialPacketSize MinPacingDelay;
     lossEstimator := LossModel.New (LossModel.mkConfig 0 0 32);
     compensationRound := 0; deliveredAtCompensation := float_of 0; appliedArrival := float_of 0;
     erasure := 0; observed := 0; provided := false; delayBrake := 0; arrival := 1000000; efloor := 0; congestive := 0; passed := 0;
     path := None; share := 0; member := member_ |}.

(** What a new sender takes over from the lanes before it. *)
Definition inherit (env : erasure_env) (e : ErasureSender) (s : State) : ErasureSender :=
  let e := if fltb (float_of 0) (st_ObservedSamples s) then e {{ observed := uint64_of (st_ObservedSamples s) }} else e in
  let e := if fltb (float_of 0) (st_Erasure s) then e {{ erasure := uint64_of (fmul (st_Erasure s) partsPerMillion) }} else e in
  let e := if fltb (float_of 0) (st_Floor s)
           then e {{ arrival := uint64_of (fmul (fsub (float_of 1) (st_Floor s)) partsPerMillion) }} else e in
  let e := e {{ efloor := uint64_of (fmul (st_Floor s) partsPerMillion) }} in
  if fltb (float_of 0) (st_Seed s) then
    let e := if fltb (float_of 0) (st_Share s) then e {{ share := uint64_of (st_Share s) }} else e in
    e {{ inner := seedBandwidth (ee_inner env) (inner e) (uint64_of (fdiv (st_Seed s) (arrivalRate e))) (st_RoundTrip s) }}
  else e.

Definition NewErasureSenderOn (env : erasure_env) (w : shared_paths) (size : Z) (on : option Z) : ErasureSender * shared_paths :=
  let id := nextErasureMemberID w +u64 1 in
  let w := w {{ nextErasureMemberID := id }} in
  let e := (newErasureSender env id size) {{ path := on }} in
  match on with
  | None => (e, w)
  | Some p =>
      let '(s, m) := Current (ee_Time env) (ee_order env) (model_of w p) in
      (inherit env e s, w {{ path_models := <[p := m]> (path_models w) }})
  end.

Definition NewErasureSender (env : erasure_env) (w : shared_paths) (size : Z) : ErasureSender * shared_paths :=
  NewErasureSenderOn env w size None.

(** ** Callbacks *)

Definition erasure_SetRTTStatsProvider (env : erasure_env) (e : ErasureSender) (p : bool) : ErasureSender :=
  e {{ provided := p; inner := SetRTTStatsProvider (ee_inner env) (inner e) p }}.

Definition erasure_TimeUntilSend (env : erasure_env) (e : ErasureSender) : Z * ErasureSender :=
  (timeUntilSend MinPacingDelay (erasure_bandwidth env e) (epacer e),
   if budgetAtLastSent (epacer e) >=? p_maxDatagramSize (epacer e) then e else publish_bandwidth env e).

Definition erasure_HasPacingBudget (env : erasure_env) (e : ErasureSender) (now : Z) : bool * ErasureSender :=
  (budget (erasure_bandwidth env e) (Some (unmeteredBurst env e)) (epacer e) now >=? maxDatagramSize (inner e),
   publish_bandwidth env e).

Definition erasure_OnPacketSent (env : erasure_env) (e : ErasureSender) (sentTime inFlight number bytes_ : Z) (retransmittable : bool)
    : ErasureSender :=
  let p := sentPacket (erasure_bandwidth env e) (Some (unmeteredBurst env e)) (epacer e) sentTime bytes_ in
  let e := (publish_bandwidth env e) {{ epacer := p }} in
  e {{ inner := OnPacketSent (ee_inner env) (inner e) sentTime inFlight number bytes_ retransmittable }}.

(** The fates a call reports, in the order of the packet numbers. *)
Definition outcomes (acked : list AckedPacketInfo) (lost : list LostPacketInfo) : list packetOutcome :=
  map (fun p => mkOutcome (ap_PacketNumber p) true) (List.filter (fun p => ap_PacketNumber p >=? 0) acked) ++
  map (fun p => mkOutcome (lp_PacketNumber p) false) (List.filter (fun p => lp_PacketNumber p >=? 0) lost).

(** The fates are measured: the snapshot, and the sender. *)
Definition observe_fates (e : ErasureSender) (acked : list AckedPacketInfo) (lost : list LostPacketInfo)
    : LossModel.Snapshot * ErasureSender :=
  let est := fold_left ObserveOutcome (map po_arrived (sort (outcomes acked lost))) (lossEstimator e) in
  let s := takeSnapshot est in
  (s, e {{ lossEstimator := est; observed := sn_Decided s;
           congestive := if fltb (float_of 0) (sn_Congestive s) then uint64_of (fmul (sn_Congestive s) partsPerMillion) else 0 }}).

(** The measurement is pooled: the erasure and the floor of the path, the sender, the store. *)
Definition report_path (env : erasure_env) (w : shared_paths) (e : ErasureSender) (s : LossModel.Snapshot)
    : float64 * float64 * ErasureSender * shared_paths :=
  match path e with
  | None => (sn_Loss s, sn_Floor s, e, w)
  | Some p =>
      let o := mkObservation (sn_Loss s) (sn_BurstFactor s) (sn_Floor s) (float_of (sn_Decided s))
                 (float_of (Bbr.bandwidth (ee_inner env) (inner e))) (minRoundTrip (inner e)) in
      let '(state, m) := Report (ee_Time env) (ee_order env) (model_of w p) (member e) o in
      (st_Erasure state, st_Floor state,
       e {{ inner := publish_rate (ee_inner env) (inner e); share := uint64_of (st_Share state) }},
       w {{ path_models := <[p := m]> (path_models w) }})
  end.

(** The compensation follows the floor once a round trip has been measured. *)
Definition compensate (env : erasure_env) (e : ErasureSender) (lost floor_ : float64) : ErasureSender :=
  let e := e {{ erasure := uint64_of (fmul lost partsPerMillion); efloor := uint64_of (fmul floor_ partsPerMillion) }} in
  if snd (queueDelay env e) >? 0 then
    let '(rate, e) := compensationFor e (fsub (float_of 1) floor_) in e {{ arrival := uint64_of (fmul rate partsPerMillion) }}
  else e.

Definition erasure_OnCongestionEventEx (env : erasure_env) (w : shared_paths) (e : ErasureSender) (priorInFlight eventTime : Z)
    (acked : list AckedPacketInfo) (lost : list LostPacketInfo) : ErasureSender * shared_paths :=
  let '(s, e) := observe_fates e acked lost in
  let '(loss, floor_, e, w) := report_path env w e s in
  let e := compensate env e loss floor_ in
  let e := e {{ passed := passed e +u64 len lost }} in
  (e {{ inner := OnCongestionEventEx (ee_inner env) (inner e) priorInFlight eventTime acked lost }}, w).

Definition erasure_SetMaxDatagramSize (env : erasure_env) (e : ErasureSender) (size : Z) : ErasureSender :=
  e {{ inner := SetMaxDatagramSize MaxCongestionWindowPackets (ee_inner env) (inner e) size;
       epacer := pacer_setMaxDatagramSize (epacer e) size }}.

(** ** Questions *)

Definition erasure_InSlowStart (e : ErasureSender) : bool := InSlowStart (inner e).
Definition erasure_InRecovery (e : ErasureSender) : bool := InRecovery (inner e).
Definition Share (e : ErasureSender) : float64 := float_of (share e).
Definition Channel (e : ErasureSender) : LossModel.Snapshot * Z := (takeSnapshot (lossEstimator e), passed e).

Definition Telemetry (e : ErasureSender) : ControllerTelemetry :=
  let t := snapshot (telemetry (inner e)) in
  let rate := arrivalRate e in
  t {{ Kind := "erasure"%string; PacketsLostObserved := passed e;
       Erasure := fdiv (float_of (erasure e)) partsPerMillion; ErasureFloor := fdiv (float_of (efloor e)) partsPerMillion;
       CongestiveLoss := fdiv (float_of (congestive e)) partsPerMillion; DelayBrake := fdiv (float_of (delayBrake e)) partsPerMillion;
       PacingRate := uint64_of (fdiv (float_of (PacingRate t)) rate);
       CongestionWindow := uint64_of (fdiv (float_of (CongestionWindow t)) rate) }}.

End Erasure.
