(* ===== verification/ErasureRun.v ===== *)
(** Runs of the lanes of a path under the erasure controller ([Erasure]): several senders,
    each around its own BBR sender, and the models of the paths they share. *)

From S2P Require Import Prelude GoFloat LossModel PathModel Bandwidth Pacing Bbr BbrInv BbrRun Erasure.
From coqutil Require Import Datatypes.RecordSetters.
Import DoubleBraceUpdate.
Open Scope Z_scope.

(** ** The losses the inner controller was charged with *)

Section Charged.
Variables (MaxCongestionWindowPackets : Z).
Context `{FloatConv}.

Definition charged (b : TUICBBRSender) : Z := t_packetsLost (telemetry b).

Lemma publish_charged env b : charged (publishTelemetry env b) = charged b.
Proof. unfold publishTelemetry. by destruct (sampleSummary _) as [[[[? ?] ?] ?] ?]. Qed.

Lemma updateRecoveryState_charged b largest losses start : charged (updateRecoveryState b largest losses start) = charged b.
Proof.
  unfold updateRecoveryState. destruct (negb _); [done|]. set (b1 := if losses then _ else b).
  assert (charged b1 = charged b) as <- by (unfold b1; by destruct losses). clearbody b1.
  assert (forall b, charged (if negb losses && (largest >? endRecoveryPN b) then b {{ recovery := tuicNotInRecovery }} else b) = charged b) as Hend.
  { intros b2. by destruct (_ && _). }
  destruct (recovery b1); [by destruct losses| |]; destruct (bool_decide _ && start);
    first [exact (Hend b1)|exact (Hend (b1 {{ recovery := tuicGrowth }}))].
Qed.

Lemma event_sample_charged env b t acked a largest : charged (snd (event_sample env b t acked a largest)) = charged b.
Proof.
  unfold event_sample. destruct (a >? 0); [|done]. destruct (onAckBatch _ _ _ _ _) as [sample e].
  set (b1 := b {{ estimator := e }}). assert (charged b1 = charged b) as <- by done. clearbody b1.
  unfold refreshRTTSample. destruct (_ >? 0); [|done]. destruct (_ <=? 0); [done|]. by destruct (_ || _ || _).
Qed.

Lemma event_window_charged b t : charged (snd (event_window b t)) = charged b.
Proof.
  unfold event_window. destruct (_ >? 0).
  - destruct (aggregation_update _ _ _ _ _) as [excess a].
    match goal with |- context [if _ >? _ then ?x {{ peakBandwidth := _; peakBandwidthAt := _ }} else _] => by destruct (_ >? peakBandwidth _) end.
  - by destruct (_ >? peakBandwidth _).
Qed.

Lemma event_losses_charged b last hl l : charged (event_losses b last hl l) = charged b.
Proof.
  unfold event_losses. set (b1 := if ss_valid last then _ else b).
  assert (charged b1 = charged b) as <- by (unfold b1; by destruct (ss_valid last)). clearbody b1. by destruct hl.
Qed.

Lemma enter_probe_bw_charged env b t : charged (enter_probe_bw env b t) = charged b.
Proof. unfold enter_probe_bw. by destruct (nextCycleOffset env b). Qed.

Lemma maybeProbeRTT_charged env b t start fl ex : charged (maybeProbeRTT env b t start fl ex) = charged b.
Proof.
  unfold maybeProbeRTT. set (b1 := if ex && _ && _ then _ else b).
  assert (charged b1 = charged b) as <- by (unfold b1; by destruct (ex && _ && _)). clearbody b1. destruct (negb _); [done|].
  set (b2 := if (exitProbeRTT _ =? 0) && _ then _ else _).
  assert (charged b2 = charged b1) as <- by (unfold b2; by destruct (_ && _)). clearbody b2.
  set (b3 := if negb (exitProbeRTT b2 =? 0) && start then _ else b2).
  assert (charged b3 = charged b2) as <- by (unfold b3; by destruct (_ && start)). clearbody b3.
  set (b4 := if _ && _ && _ then _ else b3). transitivity (charged b4); [done|]. unfold b4.
  destruct (_ && _ && _); [|done]. unfold leave_probe_rtt. destruct (fullBandwidth _); [by rewrite enter_probe_bw_charged|done].
Qed.

Lemma event_modes_charged env b t prior hl start ex last : charged (event_modes env b t prior hl start ex last) = charged b.
Proof.
  unfold event_modes. rewrite maybeProbeRTT_charged. set (b1 := if bool_decide _ then _ else b).
  assert (charged b1 = charged b) as <-.
  { unfold b1. destruct (bool_decide _); [|done]. unfold updateGainCycle.
    by match goal with |- context [if negb ?advance then b else _] => destruct (negb advance) end. }
  clearbody b1. set (b2 := if start && _ then _ else b1). assert (charged b2 = charged b1) as <-.
  { unfold b2. destruct (start && _); [|done]. unfold checkFullBandwidth. destruct (lastSampleAppLimited b1); [done|].
    destruct (_ >=? uint64_of _); [done|]. by destruct (_ || _). }
  clearbody b2. unfold maybeExitStartupDrain. set (b3 := if _ && fullBandwidth b2 then _ else b2).
  assert (charged b3 = charged b2) as <- by (unfold b3; by destruct (_ && fullBandwidth b2)). clearbody b3.
  destruct (_ && _); [by rewrite enter_probe_bw_charged|done].
Qed.

Lemma event_outputs_charged env b n ex l start acked lost : charged (event_outputs env b n ex l start acked lost) = charged b.
Proof.
  assert (forall b, charged (cap_rate b) = charged b) as Hcap by (intros b0; unfold cap_rate; by destruct (_ >? _)).
  unfold event_outputs. set (b1 := calculatePacingRate env b). assert (charged b1 = charged b) as <-.
  { unfold b1, calculatePacingRate. destruct (_ =? 0); [done|]. destruct (fullBandwidth b); [by rewrite Hcap|].
    destruct (_ && _ && _); [by rewrite Hcap|]. destruct (_ <? _); by rewrite Hcap. }
  clearbody b1. set (b2 := calculateCwnd env b1 n ex). assert (charged b2 = charged b1) as <-.
  { unfold b2, calculateCwnd. destruct (bool_decide _); [done|]. set (t := targetCwnd _ _ _). clearbody t.
    set (b3 := if fullBandwidth b1 then _ else _). assert (charged b3 = charged b1) as <-.
    { unfold b3. destruct (fullBandwidth b1); [done|]. by destruct (_ || _). }
    clearbody b3. by destruct (_ <? _). }
  clearbody b2. set (b3 := calculateRecoveryWindow b2 n l (bytesInFlight b2)). assert (charged b3 = charged b2) as <-.
  { unfold b3, calculateRecoveryWindow. destruct (negb _); [done|]. by destruct (_ =? 0). }
  clearbody b3. by destruct (obsoletePacketNumber _ _), start.
Qed.

(** An event charges every loss it reports. *)
Lemma event_charged env b prior t acked lost : 0 <= charged b < 2 ^ 64 ->
  charged (OnCongestionEventEx env b prior t acked lost) = charged b +u64 len lost.
Proof.
  intros Hr. unfold OnCongestionEventEx. set (b1 := event_account _ _ _ _ _).
  assert (charged b1 = charged b +u64 len lost) as <-.
  { unfold b1, event_account. assert (forall b2 p a l, charged (let b := b2 {{ bytesInFlight := saturatingRemaining p a l }} in
      if bbr_appLimited b p then b {{ estimator := markAppLimited (estimator b) }} else b) = charged b2) as Ha.
    { intros b2 p a l. cbv zeta. by destruct (bbr_appLimited _ _). }
    rewrite Ha. destruct lost as [|p lost]; [|done]. rewrite len_nil, Z.add_0_r. by rewrite wrap_small by (pow2_eval; lia). }
  clearbody b1. destruct (event_round b1 _ _) as [start b2] eqn:E2.
  assert (charged b2 = charged b1) as <- by (unfold event_round in E2; destruct (_ && _); by injection E2 as <- <-). clear E2.
  set (b3 := match acked with [] => b2 | _ => _ end).
  assert (charged b3 = charged b2) as <- by (unfold b3; destruct acked; [done|by rewrite updateRecoveryState_charged]). clearbody b3.
  pose proof (event_sample_charged env b3 (if t =? 0 then env_Now env else t) acked (acked_total acked) (largest_acked acked)) as E4.
  destruct (event_sample _ _ _ _ _ _) as [[sample expired] b4]. simpl in E4. rewrite <- E4.
  pose proof (event_window_charged b4 (if t =? 0 then env_Now env else t)) as E5.
  destruct (event_window _ _) as [[window excess] b5]. simpl in E5. rewrite <- E5.
  by rewrite publish_charged, event_outputs_charged, event_modes_charged, event_losses_charged.
Qed.

Lemma seedBandwidth_charged env b r rt : charged (seedBandwidth env b r rt) = charged b.
Proof.
  unfold seedBandwidth. destruct (r =? 0); [done|]. set (b1 := seed_filter _ _ _ _).
  assert (charged b1 = charged b) as <- by done. clearbody b1. set (b2 := if _ >? pacingRate b1 then _ else b1).
  assert (charged b2 = charged b1) as <- by (unfold b2; by destruct (_ >? pacingRate b1)).
  clearbody b2. destruct (rt <=? 0); [done|]. by destruct (_ >? cwnd b2).
Qed.

Lemma sent_charged env b t fl n k r : charged (OnPacketSent env b t fl n k r) = charged b.
Proof.
  unfold OnPacketSent. rewrite publish_charged. set (b1 := if _ =? 0 then _ else _). assert (charged b1 = charged b) as <-; [|done].
  unfold b1. destruct (_ =? 0); [|done]. unfold restartFromIdle. destruct (_ <=? _); [done|]. destruct (mm_expired _ _ _); [done|].
  by rewrite seedBandwidth_charged.
Qed.

Lemma resize_charged env b size : charged (SetMaxDatagramSize MaxCongestionWindowPackets env b size) = charged b.
Proof. unfold SetMaxDatagramSize. destruct (_ <=? 0); [done|]. by rewrite publish_charged. Qed.

End Charged.

(** ** What the lanes have told a path *)

Definition share_of_one (x : float64) : Prop := within (float_of 0) (float_of 1) x.

Record floors_ok (m : PathModel) : Prop := mk_floors_ok {
  fk_members : forall k r, members m !! k = Some r -> share_of_one (rp_floor r);
  fk_known : share_of_one (pk_floor (knowledge m)) }.

Definition walk_ok (w : walk) : Prop :=
  (forall k r, w_members w !! k = Some r -> share_of_one (rp_floor r)) /\ share_of_one (pk_floor (w_knowledge w)).

Lemma zero_share : share_of_one (float_of 0).
Proof. by vm_compute. Qed.

Lemma visit_floors now w key : walk_ok w -> walk_ok (visit now w key).
Proof.
  intros [Hm Hk]. unfold visit. destruct (w_members w !! key) as [r|] eqn:Hr; [|done]. destruct (_ >? memberIdle).
  - split; [|done]. intros k r'. change (delete key (w_members w) !! k = Some r' -> share_of_one (rp_floor r')).
    intros [_ Hl]%lookup_delete_Some. by apply (Hm k).
  - split; [exact Hm|]. set (k0 := w_knowledge w).
    match goal with |- share_of_one (pk_floor (w_knowledge ?x)) => change (w_knowledge x) with
      (if fleb floorEvidenceSamples (rp_observed r) && (negb (floorKnown k0) || fltb (rp_floor r) (pk_floor k0))
       then k0 {{ pk_floor := rp_floor r; floorKnown := true }} else k0) end.
    destruct (_ && _); [exact (Hm key r Hr)|exact Hk].
Qed.

Lemma walk_floors now order m : floors_ok m -> walk_ok (walk_all now order m).
Proof.
  intros [Hm Hk]. unfold walk_all. assert (walk_ok (start_walk m)) as Hw by (by split). revert Hw. generalize (start_walk m).
  induction order as [|key order IH]; intros w Hw; [done|]. simpl. apply IH. by apply visit_floors.
Qed.

Lemma pool_floors w : walk_ok w -> let '(s, k) := pool w in share_of_one (st_Floor s) /\ share_of_one (pk_floor k).
Proof.
  intros [_ Hk]. pose proof (pool_spec w) as Hp. destruct (pool w) as [s k]. destruct Hp as (_ & Hf & Hs & _). rewrite Hs, Hf.
  split; [|done]. destruct (floorKnown k); [done|apply zero_share].
Qed.

Lemma Report_floors now order m mb o : floors_ok m -> share_of_one (ob_Floor o) ->
  let '(s, m') := Report now order m mb o in share_of_one (st_Floor s) /\ floors_ok m'.
Proof.
  intros [Hm Hk] Ho. unfold Report. set (m0 := note_report m mb o now). assert (floors_ok m0) as H0.
  { split; [|done]. intros k r. unfold m0, note_report. set (r0 := mkReport _ _ _ _ _ _ _).
    change (<[mb := r0]> (members m) !! k = Some r -> share_of_one (rp_floor r)).
    intros [[_ <-]|[_ Hl]]%lookup_insert_Some; [done|by apply (Hm k)]. }
  pose proof (walk_floors now order m0 H0) as Hw. set (w := walk_all now order m0) in *. clearbody w.
  pose proof (pool_floors w Hw) as Hp. destruct (pool w) as [s k]. destruct Hp as [Hs Hk'].
  split; [by destruct (_ && _)|]. split; [exact (proj1 Hw)|done].
Qed.

Lemma Current_floors now order m : floors_ok m ->
  let '(s, m') := Current now order m in share_of_one (st_Floor s) /\ floors_ok m'.
Proof.
  intros H0. unfold Current. pose proof (walk_floors now order m H0) as Hw. set (w := walk_all now order m) in *. clearbody w.
  pose proof (pool_floors w Hw) as Hp. destruct (pool w) as [s k]. destruct Hp as [Hs Hk'].
  split; [by destruct (fltb _ _)|]. split; [exact (proj1 Hw)|done].
Qed.

Definition store_ok (w : shared_paths) : Prop := forall p m, path_models w !! p = Some m -> floors_ok m.

Lemma model_of_ok w p : store_ok w -> floors_ok (model_of w p).
Proof.
  intros Hw. unfold model_of. destruct (path_models w !! p) as [m|] eqn:Hm; [by apply (Hw p)|]. split; [done|apply zero_share].
Qed.

Lemma store_insert w p m : store_ok w -> floors_ok m -> store_ok (w {{ path_models := <[p := m]> (path_models w) }}).
Proof.
  intros Hw Hm q m'. change (<[p := m]> (path_models w) !! q = Some m' -> floors_ok m').
  intros [[_ <-]|[_ Hl]]%lookup_insert_Some; [done|by apply (Hw q)].
Qed.

(** ** The compensation *)

Definition arrival_share (x : float64) : Prop := within erasureMinArrival (float_of 1) x.

(** The arrival rate in force: none has been applied yet, or the one applied last. *)
Definition in_force (e : ErasureSender) : float64 := if feqb (appliedArrival e) (float_of 0) then float_of 1 else appliedArrival e.

Definition applied_ok (e : ErasureSender) : Prop :=
  (feqb (appliedArrival e) (float_of 0) = true \/ arrival_share (appliedArrival e)) /\ IsNaN (deliveredAtCompensation e) = false.

(** What the controller is told of the path: the rate at which it delivers. *)
Definition delivered_estimate (e : ErasureSender) : float64 := float_of (estimate (estimator (inner e))).

(** What the compensation leaves alone. *)
Definition carried (e : ErasureSender) := (inner e, epacer e, lossEstimator e, passed e, path e, member e).

Lemma one_share : arrival_share (float_of 1).
Proof. by vm_compute. Qed.

Lemma arrival_eighth x : arrival_share x -> within (float_quot 1 8) (float_of 1) x.
Proof. apply within_weaken. by vm_compute. Qed.

Lemma in_force_share e : applied_ok e -> arrival_share (in_force e).
Proof. intros [[Ha|Ha] _]; unfold in_force; [rewrite Ha; apply one_share|]. destruct (feqb _ _); [apply one_share|done]. Qed.

Lemma not_leb_ltb x y : IsNaN x = false -> IsNaN y = false -> fleb x y = false -> fltb y x = true.
Proof. intros Hx Hy Hle. destruct (fltb y x) eqn:E; [done|]. by rewrite fleb_of_not_gt in Hle. Qed.

Lemma wanted_share want : IsNaN want = false ->
  arrival_share (let want := if fltb (float_of 1) want then float_of 1 else want in if fltb want erasureMinArrival then erasureMinArrival else want).
Proof. intros Hn. cbv zeta. apply clamp_below; [by vm_compute|]. by apply clamp_above. Qed.

(** The next step towards what is wanted. *)
Lemma step_share a want : arrival_share a -> arrival_share want ->
  let next := fmul a compensationStep in let next' := if fltb next want then want else next in
  arrival_share next' /\ fleb next next' = true.
Proof.
  intros Ha Hw next next'. assert (within (float_quot 1 8) (float_of 1) compensationStep) as Hs by (by vm_compute).
  pose proof (fmul_share a compensationStep (arrival_eighth a Ha) Hs) as Hle. fold next in Hle.
  destruct (fleb_number _ _ Hle) as [Hn _]. unfold next'. destruct (fltb next want) eqn:E; [split; [done|by apply fltb_leb]|].
  split; [|by apply fleb_refl]. split; [|done]. eapply fleb_trans; [apply Hw|]. apply fleb_of_not_gt; [by apply (within_number _ _ _ Hw)|done..].
Qed.

Lemma compensationFor_spec e want : IsNaN want = false -> applied_ok e ->
  let '(r, e') := compensationFor e want in
  arrival_share r /\ r = appliedArrival e' /\ applied_ok e' /\ carried e' = carried e /\
  (fleb (in_force e) r = true \/
   (round (inner e) <> compensationRound e /\ fltb (deliveredAtCompensation e) (delivered_estimate e) = true /\
    fleb (fmul (in_force e) compensationStep) r = true)).
Proof.
  intros Hn Hok. pose proof (in_force_share e Hok) as Ha. pose proof (wanted_share want Hn) as Hw. unfold compensationFor.
  set (w := if fltb (if fltb _ want then _ else want) _ then _ else _) in *. change (arrival_share w) in Hw. clearbody w.
  set (e1 := if feqb _ _ then _ else e).
  assert (appliedArrival e1 = in_force e /\ carried e1 = carried e /\ deliveredAtCompensation e1 = deliveredAtCompensation e /\
    compensationRound e1 = compensationRound e) as (A1 & C1 & D1 & R1) by (unfold e1, in_force; by destruct (feqb _ _)).
  assert (inner e1 = inner e) as I1 by (unfold carried in C1; congruence). clearbody e1. rewrite A1, I1, R1, D1. destruct Hok as [_ Hd].
  fold (delivered_estimate e). assert (IsNaN (delivered_estimate e) = false) as Hde by apply float_of_number.
  destruct (fleb (in_force e) w) eqn:E1; [|destruct (_ =? _) eqn:E2; [|destruct (fleb (delivered_estimate e) _) eqn:E3]].
  - split_and!; [done|done|split; [by right|done]|done|by left].
  - split_and!; [done|done|split; [rewrite A1; by right|by rewrite D1]|done|left; apply fleb_refl, (within_number _ _ _ Ha)].
  - split_and!; [done|done|split; [right; by change (arrival_share (appliedArrival e1)); rewrite A1|done]|done|left; apply fleb_refl, (within_number _ _ _ Ha)].
  - destruct (step_share (in_force e) w Ha Hw) as [Hs Hle]. bool_to_prop.
    split_and!; [done|done|split; [by right|done]|done|right; split_and!; [done|by apply not_leb_ltb|done]].
Qed.

(** ** The lanes of some paths *)

Section Fleet.
Variables (MinInitialPacketSize InitialPacketSize MaxCongestionWindowPackets MinPacingDelay : Z).
Variable sort : list packetOutcome -> list packetOutcome.
Context `{FloatConv}.
Hypothesis Hminimum : 0 < MinInitialPacketSize.
Hypothesis Hinitial : 0 < InitialPacketSize < 2 ^ 26.
Hypothesis Hpackets : tuicInitialPackets <= MaxCongestionWindowPackets < 2 ^ 23.
Hypothesis Hdelay : 0 < MinPacingDelay < 2 ^ 30.

Notation start := (bbr_start MinInitialPacketSize InitialPacketSize MaxCongestionWindowPackets MinPacingDelay).
Notation run := (bbr_run MaxCongestionWindowPackets MinPacingDelay).
Notation inner_inv := (run_inv MaxCongestionWindowPackets false).

(** A call on one sender. *)
Inductive erasure_op :=
  | EProvider (p : bool)
  | ESent (sentTime inFlight number bytes_ : Z) (retransmittable : bool)
  | EEvent (priorInFlight eventTime : Z) (acked : list AckedPacketInfo) (lost : list LostPacketInfo)
  | EResize (size : Z)
  | EAskTime
  | EAskBudget (now : Z).

Definition erasure_do (env : erasure_env) (w : shared_paths) (e : ErasureSender) (op : erasure_op) : ErasureSender * shared_paths :=
  match op with
  | EProvider p => (erasure_SetRTTStatsProvider env e p, w)
  | ESent t fl n k r => (erasure_OnPacketSent env e t fl n k r, w)
  | EEvent prior t acked lost => erasure_OnCongestionEventEx sort env w e prior t acked lost
  | EResize size => (erasure_SetMaxDatagramSize MaxCongestionWindowPackets env e size, w)
  | EAskTime => (snd (erasure_TimeUntilSend MinPacingDelay env e), w)
  | EAskBudget now => (snd (erasure_HasPacingBudget env e now), w)
  end.

(** The senders of a process and the models they share. *)
Record fleet := mkFleet { lanes : gmap Z ErasureSender; paths : shared_paths }.

Inductive fleet_op :=
  | OpenLane (lane size : Z) (on : option Z)
  | OnLane (lane : Z) (op : erasure_op).

Definition fleet_do (f : fleet) (call : erasure_env * fleet_op) : fleet :=
  let '(env, op) := call in
  match op with
  | OpenLane lane size on =>
      let '(e, w) := NewErasureSenderOn MinInitialPacketSize InitialPacketSize MaxCongestionWindowPackets MinPacingDelay env (paths f) size on in
      mkFleet (<[lane := e]> (lanes f)) w
  | OnLane lane op =>
      match lanes f !! lane with
      | Some e => let '(e', w) := erasure_do env (paths f) e op in mkFleet (<[lane := e']> (lanes f)) w
      | None => f
      end
  end.

Definition fleet_start : fleet := mkFleet ∅ (mkShared 0 ∅).
Definition fleet_run (calls : list (erasure_env * fleet_op)) : fleet := fold_left fleet_do calls fleet_start.

Definition erasure_op_ok (op : erasure_op) : Prop :=
  match op with
  | ESent t fl n k _ => 0 < t < 2 ^ 61 /\ fl < 2 ^ 63 /\ 0 <= k < 2 ^ 26
  | EEvent prior _ _ _ => prior < 2 ^ 63
  | EResize size => size < 2 ^ 26
  | _ => True
  end.

Definition fleet_op_ok (op : fleet_op) : Prop :=
  match op with OpenLane _ size _ => size < 2 ^ 26 | OnLane _ op => erasure_op_ok op end.

Definition fleet_calls_ok (calls : list (erasure_env * fleet_op)) : Prop := Forall (fun call => fleet_op_ok (snd call)) calls.

(** ** The sender inside is a run of the BBR controller *)

Definition driven (b : TUICBBRSender) : Prop :=
  exists env size calls, size < 2 ^ 26 /\ calls_ok calls /\ b = run (start env size false) calls.

Lemma driven_do env b op : bbr_op_ok op -> driven b -> driven (bbr_do MaxCongestionWindowPackets MinPacingDelay b (env, op)).
Proof.
  intros Hop (env0 & size & calls & Hs & Hc & ->). exists env0, size, (calls ++ [(env, op)]).
  split_and!; [done|apply Forall_app; split; [done|by constructor]|]. unfold bbr_run. by rewrite fold_left_app.
Qed.

Lemma driven_inv b : driven b -> inner_inv b.
Proof. intros (env & size & calls & Hs & Hc & ->). apply run_inv_from; try done. lia. Qed.

Lemma driven_publish env b : driven b -> driven (publish_rate env b).
Proof. exact (driven_do env b (AskBudget 0) I). Qed.

(** ** What holds of every sender *)

Record sender_ok (e : ErasureSender) : Prop := mk_sender_ok {
  so_inner : driven (inner e);
  so_passed : passed e = charged (inner e);
  so_count : 0 <= passed e < 2 ^ 64;
  so_applied : applied_ok e }.

(** The fields of the invariant that a callback of the inner sender changes. *)
Lemma sender_ok_step e e' : sender_ok e -> driven (inner e') -> passed e' = passed e -> charged (inner e') = charged (inner e) ->
  (appliedArrival e', deliveredAtCompensation e') = (appliedArrival e, deliveredAtCompensation e) -> sender_ok e'.
Proof.
  intros [Hi Hp Hc Ha] Hd HP HC [= Hx Hy]. constructor; [done|congruence|by rewrite HP|]. unfold applied_ok. by rewrite Hx, Hy.
Qed.

Lemma sender_ok_same e e' : sender_ok e ->
  (inner e', passed e', appliedArrival e', deliveredAtCompensation e') = (inner e, passed e, appliedArrival e, deliveredAtCompensation e) -> sender_ok e'.
Proof. intros Hok [= Hi Hp Ha Hd]. apply (sender_ok_step e); rewrite ?Hi, ?Ha, ?Hd; try done. apply Hok. Qed.

Lemma publish_bandwidth_ok env e : sender_ok e -> sender_ok (publish_bandwidth env e).
Proof. intros Hok. apply (sender_ok_step e); try done. by apply driven_publish, Hok. Qed.

Lemma sent_ok env e t fl n k r : erasure_op_ok (ESent t fl n k r) -> sender_ok e -> sender_ok (erasure_OnPacketSent env e t fl n k r).
Proof.
  intros Hop Hok. unfold erasure_OnPacketSent. pose proof (publish_bandwidth_ok env e Hok) as Hok1.
  set (e1 := publish_bandwidth env e) in *. set (p := sentPacket _ _ _ _ _). clearbody e1 p.
  apply (sender_ok_step e1); try done; [|apply sent_charged].
  exact (driven_do (ee_inner env) (inner e1) (Sent t fl n k r) Hop (so_inner _ Hok1)).
Qed.

Lemma resize_ok env e size : erasure_op_ok (EResize size) -> sender_ok e -> sender_ok (erasure_SetMaxDatagramSize MaxCongestionWindowPackets env e size).
Proof.
  intros Hop Hok. apply (sender_ok_step e); try done; [|apply resize_charged].
  exact (driven_do (ee_inner env) (inner e) (BbrRun.Resize size) Hop (so_inner _ Hok)).
Qed.

Lemma provider_ok env e p : sender_ok e -> sender_ok (erasure_SetRTTStatsProvider env e p).
Proof.
  intros Hok. apply (sender_ok_step e); try done; try apply publish_charged.
  exact (driven_do (ee_inner env) (inner e) (Provider p) I (so_inner _ Hok)).
Qed.

(** ** One event *)

Lemma queue_least env e : snd (queueDelay env e) = minRTT (inner e).
Proof. unfold queueDelay, minRoundTrip. destruct (_ || _); [done|]. by destruct (_ <=? _). Qed.

(** The stages before the compensation change neither it nor the sender inside. *)
Definition before (e : ErasureSender) :=
  (appliedArrival e, deliveredAtCompensation e, compensationRound e, passed e, round (inner e), estimator (inner e), minRTT (inner e),
   charged (inner e), arrival e).

(** A call leaves the rate the sender divides by alone, or makes it the rate in force. *)
Definition applies (e e' : ErasureSender) : Prop :=
  (arrival e' = arrival e /\ in_force e' = in_force e) \/
  (0 < minRTT (inner e) /\ arrival e' = uint64_of (fmul (in_force e') partsPerMillion)).

Lemma report_stage env w e s : share_of_one (sn_Floor s) -> store_ok w -> driven (inner e) ->
  let '(loss, floor_, e', w') := report_path env w e s in
  before e' = before e /\ driven (inner e') /\ share_of_one floor_ /\ store_ok w'.
Proof.
  intros Hf Hw Hd. unfold report_path. destruct (path e) as [p|]; [|done].
  set (o := mkObservation _ _ _ _ _ _). pose proof (Report_floors (ee_Time env) (ee_order env) (model_of w p) (member e) o (model_of_ok w p Hw) Hf) as Hr.
  destruct (Report _ _ _ _ _) as [state m]. destruct Hr as [Hs Hm]. split_and!; [done|by apply driven_publish|done|by apply store_insert].
Qed.

Lemma compensate_stage env e loss floor_ : share_of_one floor_ -> applied_ok e ->
  let e' := compensate env e loss floor_ in
  applied_ok e' /\ inner e' = inner e /\ passed e' = passed e /\ applies e e' /\
  (fleb (in_force e) (in_force e') = true \/
   (0 < minRTT (inner e) /\ round (inner e) <> compensationRound e /\
    fltb (deliveredAtCompensation e) (delivered_estimate e) = true /\ fleb (fmul (in_force e) compensationStep) (in_force e') = true)).
Proof.
  intros Hf Hok. unfold compensate. set (e1 := e {{ erasure := _; efloor := _ }}).
  assert (applied_ok e1 /\ in_force e1 = in_force e /\ inner e1 = inner e /\ passed e1 = passed e /\ round (inner e1) = round (inner e) /\
    compensationRound e1 = compensationRound e /\ deliveredAtCompensation e1 = deliveredAtCompensation e /\
    delivered_estimate e1 = delivered_estimate e /\ arrival e1 = arrival e) as (A1 & F1 & I1 & P1 & R1 & C1 & D1 & E1 & G1) by done. clearbody e1.
  rewrite queue_least. destruct (_ >? 0) eqn:Em; [|split_and!; try done; [by left|]; left; rewrite F1; apply fleb_refl, (within_number _ _ _ (in_force_share e Hok))].
  assert (is_Some (fparts floor_)) as Hfin by (apply (within_finite (float_of 0) (float_of 1)); [apply float_of_finite; lia..|done]).
  pose proof (compensationFor_spec e1 (fsub (float_of 1) floor_) (fsub_number _ _ (float_of_finite 1 ltac:(lia)) Hfin) A1) as Hc.
  destruct (compensationFor _ _) as [r e2]. destruct Hc as (Hr & -> & A2 & C2 & Hcase).
  set (e3 := e2 {{ arrival := _ }}). assert (in_force e3 = appliedArrival e2) as F3.
  { change (in_force e3) with (in_force e2). unfold in_force. destruct (feqb (appliedArrival e2) _) eqn:Ez; [|done]. exfalso.
    assert (arrival_share (float_of 0) -> False) as Hno by (intros [Hx _]; vm_compute in Hx; discriminate). apply Hno. split; [|by vm_compute].
    eapply fleb_trans; [apply Hr|]. unfold feqb, fleb in Ez |- *. by destruct (fcompare (appliedArrival e2) (float_of 0)) as [[]|]. }
  unfold carried in C2. injection C2 as C2 _ _ P2 _ _. rewrite F1, R1, C1, D1, E1 in Hcase. rewrite <- F3 in Hcase.
  split_and!; [exact A2|change (inner e2 = inner e); congruence|change (passed e2 = passed e); congruence|right; bool_to_prop; rewrite F3, <- I1; split; [lia|done]|].
  destruct Hcase as [|(? & ? & ?)]; [by left|right]. bool_to_prop. split_and!; try done. rewrite <- I1. lia.
Qed.

Lemma event_stage env w e prior t acked lost : prior < 2 ^ 63 -> store_ok w -> sender_ok e ->
  let '(e', w') := erasure_OnCongestionEventEx sort env w e prior t acked lost in
  sender_ok e' /\ store_ok w' /\ applies e e' /\
  (fleb (in_force e) (in_force e') = true \/
   (0 < minRTT (inner e) /\ round (inner e) <> compensationRound e /\
    fltb (deliveredAtCompensation e) (delivered_estimate e) = true /\ fleb (fmul (in_force e) compensationStep) (in_force e') = true)).
Proof.
  intros Hp Hw [Hi Hpc Hc Ha]. unfold erasure_OnCongestionEventEx, observe_fates. set (est := fold_left _ _ _).
  destruct (snapshot_rates est) as (_ & _ & _ & Hf & _). set (s := takeSnapshot est) in *. set (e1 := e {{ lossEstimator := _; observed := _; congestive := _ }}).
  assert (before e1 = before e /\ inner e1 = inner e) as [B1 I1] by done. clearbody e1. rewrite <- I1 in Hi.
  pose proof (report_stage env w e1 s Hf Hw Hi) as Hr. destruct (report_path env w e1 s) as [[[loss floor_] e2] w2].
  destruct Hr as (B2 & Hd2 & Hfl & Hw2). rewrite B1 in B2. unfold before in B2. injection B2 as X1 X2 X3 X4 X5 X6 X7 X8 X9.
  assert (applied_ok e2) as A2 by (unfold applied_ok; by rewrite X1, X2).
  destruct (compensate_stage env e2 loss floor_ Hfl A2) as (A3 & I3 & P3 & G3 & Hcase). set (e3 := compensate env e2 loss floor_) in *. clearbody e3.
  assert (in_force e2 = in_force e) as F2 by (unfold in_force; by rewrite X1).
  assert (delivered_estimate e2 = delivered_estimate e) as E2 by (unfold delivered_estimate; by rewrite X6).
  rewrite F2, X2, X3, X5, X7, E2 in Hcase. unfold applies in G3. rewrite F2, X7, X9 in G3. split_and!; [|done|exact G3|exact Hcase].
  assert (charged (inner e3) = passed e3) as Hch by (rewrite I3, P3, X8, X4; by symmetry).
  assert (0 <= passed e3 < 2 ^ 64) as Hr3 by (rewrite P3, X4; done).
  constructor.
  - rewrite <- I3 in Hd2. exact (driven_do (ee_inner env) (inner e3) (Event prior t acked lost) Hp Hd2).
  - pose proof (event_charged (ee_inner env) (inner e3) prior t acked lost ltac:(by rewrite Hch)) as Hev. rewrite Hch in Hev. symmetry. exact Hev.
  - change (0 <= passed e3 +u64 len lost < 2 ^ 64). apply wrap_range. lia.
  - exact A3.
Qed.

Lemma erasure_do_ok env w e op : erasure_op_ok op -> store_ok w -> sender_ok e ->
  let '(e', w') := erasure_do env w e op in sender_ok e' /\ store_ok w'.
Proof.
  intros Hop Hw Hok. destruct op as [p|t fl n k r|prior t acked lost|size| |now]; simpl.
  - split; [by apply provider_ok|done].
  - split; [by apply sent_ok|done].
  - pose proof (event_stage env w e prior t acked lost Hop Hw Hok) as He. destruct (erasure_OnCongestionEventEx _ _ _ _ _ _ _ _). tauto.
  - split; [by apply resize_ok|done].
  - split; [|done]. unfold erasure_TimeUntilSend. simpl. destruct (_ >=? _); [done|by apply publish_bandwidth_ok].
  - split; [by apply publish_bandwidth_ok|done].
Qed.

Lemma new_ok env id size on : size < 2 ^ 26 ->
  sender_ok ((newErasureSender MinInitialPacketSize InitialPacketSize MaxCongestionWindowPackets MinPacingDelay env id size) {{ path := on }}).
Proof.
  intros Hs. constructor; [exists (ee_inner env), size, []; split_and!; [done|apply Forall_nil_2|done]| |simpl; pow2_eval; lia|split; [left; by vm_compute|by vm_compute]].
  symmetry. change (charged (start (ee_inner env) size false) = 0).
  change (charged (NewTUICBBRSender MinInitialPacketSize InitialPacketSize MaxCongestionWindowPackets MinPacingDelay (ee_inner env) size) = 0).
  unfold NewTUICBBRSender. by rewrite publish_charged.
Qed.

(** A new sender takes over figures of the path; the compensation it must still earn. *)
Lemma inherit_ok env e s : sender_ok e -> sender_ok (inherit env e s).
Proof.
  intros Hok. unfold inherit.
  set (e1 := if fltb _ (st_ObservedSamples s) then _ else e). assert (sender_ok e1) as H1 by (unfold e1; destruct (fltb _ _); [by apply (sender_ok_same e)|done]). clearbody e1.
  set (e2 := if fltb _ (st_Erasure s) then _ else e1). assert (sender_ok e2) as H2 by (unfold e2; destruct (fltb _ _); [by apply (sender_ok_same e1)|done]). clearbody e2.
  set (e3 := if fltb _ (st_Floor s) then _ else e2). assert (sender_ok e3) as H3 by (unfold e3; destruct (fltb _ _); [by apply (sender_ok_same e2)|done]). clearbody e3.
  set (e4 := e3 {{ efloor := _ }}). assert (sender_ok e4) as H4 by (by apply (sender_ok_same e3)). clearbody e4.
  destruct (fltb _ (st_Seed s)); [|done].
  set (e5 := if fltb _ (st_Share s) then _ else e4). assert (sender_ok e5) as H5 by (unfold e5; destruct (fltb _ _); [by apply (sender_ok_same e4)|done]). clearbody e5.
  apply (sender_ok_step e5); try done; [|apply seedBandwidth_charged].
  exact (driven_do (ee_inner env) (inner e5) (Seed _ _) I (so_inner _ H5)).
Qed.

(** ** Every reachable fleet *)

Definition fleet_inv (f : fleet) : Prop := map_Forall (fun _ e => sender_ok e) (lanes f) /\ store_ok (paths f).

Lemma fleet_do_inv f call : fleet_op_ok (snd call) -> fleet_inv f -> fleet_inv (fleet_do f call).
Proof.
  destruct call as [env op]. intros Hop [Hl Hw]. destruct op as [lane size on|lane op]; simpl in *.
  - unfold NewErasureSenderOn. set (w := (paths f) {{ nextErasureMemberID := _ }}). assert (store_ok w) as Hw1 by done. clearbody w.
    pose proof (new_ok env (nextErasureMemberID (paths f) +u64 1) size on Hop) as Hn. set (e := (newErasureSender _ _ _ _ _ _ _) {{ path := on }}) in *. clearbody e.
    destruct on as [p|]; [|split; [by apply map_Forall_insert_2|done]].
    pose proof (Current_floors (ee_Time env) (ee_order env) (model_of w p) (model_of_ok w p Hw1)) as Hc. destruct (Current _ _ _) as [s m].
    destruct Hc as [_ Hm]. split; [by apply map_Forall_insert_2; [apply inherit_ok|]|by apply store_insert].
  - destruct (lanes f !! lane) as [e|] eqn:He; [|done]. pose proof (erasure_do_ok env (paths f) e op Hop Hw (Hl lane e He)) as Hd.
    destruct (erasure_do _ _ _ _) as [e' w']. destruct Hd. split; [by apply map_Forall_insert_2|done].
Qed.

Lemma fleet_run_inv calls : fleet_calls_ok calls -> fleet_inv (fleet_run calls).
Proof.
  intros Hc. unfold fleet_run. assert (fleet_inv fleet_start) as H0 by (split; [by apply map_Forall_empty|by intros p m Hm]).
  revert H0. generalize fleet_start. induction Hc as [|call calls H1 H2 IH]; intros f Hf; [done|]. simpl. apply IH. by apply fleet_do_inv.
Qed.

(** ** What the sender adds to the controller inside *)

Lemma arrivalRate_share e : arrival_share (arrivalRate e).
Proof.
  unfold arrivalRate. set (x := fdiv _ _). assert (IsNaN x = false) as Hx by (apply fdiv_number; [apply float_of_number|by vm_compute]). clearbody x.
  destruct (fltb x erasureMinArrival) eqn:E1; [by vm_compute|]. destruct (fltb (float_of 1) x) eqn:E2; [by vm_compute|].
  split; apply fleb_of_not_gt; done || by vm_compute.
Qed.

Lemma window_compensated e : sender_ok e ->
  let w := GetCongestionWindow (inner e) in 4 * maxDatagramSize (inner e) <= w /\ w <= erasure_window e <= 8 * w.
Proof.
  intros Hok w. destruct (driven_inv _ (so_inner e Hok)) as [Hin _ _ _].
  assert (tuicInitialPackets <= MaxCongestionWindowPackets < 2 ^ 26) as Hp26 by lia.
  destruct (GetCongestionWindow_range _ Hp26 (inner e) Hin) as [Hlo Hhi]. fold w in Hlo, Hhi.
  pose proof (ok_min _ _ Hin). pose proof (ok_max _ _ Hin) as Hm. destruct (ok_size _ _ Hin) as [Hs1 Hs2].
  split; [lia|]. apply fdiv_window; [|apply arrival_eighth, arrivalRate_share].
  split; [lia|]. apply (Z.le_lt_trans _ (maxCwnd (inner e))); [done|]. rewrite Hm.
  apply (Z.lt_le_trans _ (2 ^ 23 * 2 ^ 26)); [|by vm_compute]. apply Z.mul_lt_mono_nonneg; unfold tuicInitialPackets in *; lia.
Qed.


Lemma other_calls_force env w e op : (forall prior t acked lost, op <> EEvent prior t acked lost) ->
  let e' := fst (erasure_do env w e op) in in_force e' = in_force e /\ arrival e' = arrival e.
Proof.
  intros Hop. destruct op as [p|t fl n k r|prior t acked lost|size| |now]; try done; [by destruct (Hop prior t acked lost)|].
  unfold erasure_do, erasure_TimeUntilSend. simpl. by destruct (_ >=? _).
Qed.


End Fleet.

Definition lane_env (now : Z) : erasure_env := mkErasureEnv (sample_env now) 60000000 now [1; 2].

(** ** What a lane takes over *)

(** A path known to erase two packets in five and to deliver a megabyte a second. *)
Definition known_path : PathModel :=
  let lost := float_quot 4 10 in
  mkPathModel {[ 1 := mkReport lost lost (float_of 1) (float_of 5000) (float_of 1000000) 50000000 second ]}
    (mkKnowledge lost lost (float_of 1) true true (float_of 5000) 50000000) [mkBandwidthSample (float_of 1000000) second].

(** A lane opened on it, and two events. *)
Definition joining_lane : ErasureSender * shared_paths :=
  NewErasureSenderOn 1200 1280 10000 1000000 (lane_env second) (mkShared 1 {[ 7 := known_path ]}) 1200 (Some 7).

Definition after_events (n : nat) : ErasureSender :=
  let sent n now e := erasure_OnPacketSent (lane_env now) e now 1200 n 1200 true in
  let acked n now e w := erasure_OnCongestionEventEx id (lane_env now) w e 1200 now [mkAcked n 1200 0] [] in
  let '(e, w) := joining_lane in let e := erasure_SetRTTStatsProvider (lane_env second) e true in
  match n with
  | O => e
  | 1%nat => fst (acked 0 (second + 60000000) (sent 0 second e) w)
  | _ => let '(e, w) := acked 0 (second + 60000000) (sent 0 second e) w in
         fst (acked 1 (second + 120000000) (sent 1 (second + 60000000) e) w)
  end.

(** What a replacement takes over from its path is lost with the second event: it starts
    with the compensation of its siblings, 0.6, and is set back to 0.9, because the
    compensation applied starts at none whatever was taken over. *)
Theorem inherited_compensation_lost :
  arrival (after_events 0) = 600000 /\ arrival (after_events 1) = 600000 /\ arrival (after_events 2) = 900000 /\
  efloor (after_events 2) > 0.
Proof. vm_compute. done. Qed.

(** ** Witnesses *)


Definition number_le (a b : packetOutcome) : Prop := po_number a <= po_number b.
#[local] Instance number_le_dec a b : Decision (number_le a b).
Proof. unfold number_le. apply _. Defined.

Definition by_number (l : list packetOutcome) : list packetOutcome := merge_sort number_le l.

(** A lane on its own and one on a shared path; on the first, packets at a growing rate, some of them lost. *)
Definition lane_calls : list (erasure_env * fleet_op) :=
  let at_ now op := (lane_env now, OnLane 1 op) in
  let send now n := at_ now (ESent now (1200 * (n + 1)) n 1200 true) in
  [(lane_env second, OpenLane 1 1200 None); (lane_env second, OpenLane 2 1200 (Some 7)); at_ second (EProvider true);
   send second 0; send second 1; send second 2;
   at_ (second + 60000000) (EEvent 3600 (second + 60000000) [mkAcked 0 1200 0; mkAcked 2 1200 0] []);
   send (second + 60000000) 3; send (second + 60000000) 4; send (second + 60000000) 5; send (second + 60000000) 6;
   at_ (second + 120000000) (EEvent 6000 (second + 120000000) [mkAcked 3 1200 0; mkAcked 4 1200 0; mkAcked 6 1200 0] [mkLost 1 1200; mkLost 5 1200]);
   send (second + 120000000) 7; send (second + 120000000) 8; send (second + 120000000) 9; send (second + 120000000) 10; send (second + 120000000) 11].

Definition lane_last : erasure_op :=
  EEvent 6000 (second + 180000000) [mkAcked 7 1200 0; mkAcked 8 1200 0; mkAcked 9 1200 0; mkAcked 11 1200 0] [mkLost 10 1200].

Lemma lane_calls_ok : fleet_calls_ok lane_calls.
Proof. unfold lane_calls. repeat constructor; simpl; unfold second; pow2_eval; lia. Qed.

Lemma lane_limits : 0 < 1200 /\ 0 < 1280 < 2 ^ 26 /\ tuicInitialPackets <= 10000 < 2 ^ 23 /\ 0 < 1000000 < 2 ^ 30.
Proof. unfold tuicInitialPackets. pow2_eval. lia. Qed.

#[local] Notation sample_fleet := (fleet_run 1200 1280 10000 1000000 by_number).

(** Whether the first lane of two fleets compensates more in the second. *)
Definition bolder (f g : fleet) : bool :=
  match lanes f !! 1, lanes g !! 1 with Some e, Some e' => fltb (in_force e') (in_force e) | _, _ => false end.

Lemma bolder_lanes f g : bolder f g = true ->
  exists e e', lanes f !! 1 = Some e /\ lanes g !! 1 = Some e' /\ fltb (in_force e') (in_force e) = true.
Proof. unfold bolder. destruct (lanes f !! 1) as [e|]; [|discriminate]. destruct (lanes g !! 1) as [e'|]; [|discriminate]. eauto. Qed.

Lemma sample_bolder : bolder (sample_fleet lane_calls)
  (fleet_do 1200 1280 10000 1000000 by_number (sample_fleet lane_calls) (lane_env (second + 180000000), OnLane 1 lane_last)) = true.
Proof. vm_compute. reflexivity. Qed.


